(* ===== verification/_CoqProject ===== *)
-Q . S2P
Prelude.v
PyStr.v
PyValue.v
Coerce.v
Settings.v
PacketRouting.v
MessageMap.v
QueueState.v
QueueSystem.v
QueueProps.v
Prefixes.v
MeshSend.v
Replies.v
RoomMapping.v
MatrixRelay.v
Health.v
Names.v
NameSync.v
DbSchema.v
DbConfig.v
DbRuntime.v
MeshInbound.v
MatrixInbound.v
Commands.v
BasePlugin.v
MeshRelay.v
PingDrop.v
CorePlugins.v
Connect.v
Executors.v
Reconnect.v
NodeRefresh.v
DaemonExecutor.v
Ble.v
Probes.v
MainLoop.v
PyLib.v
PluginSecurity.v
PluginRepos.v
PluginInstall.v
PluginLoader.v
MigrateFs.v
Migrate.v
MigrateData.v
MigrateDatabase.v
MigrateRun.v
MigrateRuns.v
PurePath.v
Paths.v
Interact.v
ConfigEnv.v
ConfigFiles.v
E2eeStatus.v
MatrixIds.v
CrossSigning.v
MatrixSession.v
MatrixConnect.v
Weather.v
CheckConfig.v
