(* ===== verification/Prelude.v ===== *)
(** * MMRelay: a verification library

    MMRelay bridges a Meshtastic radio mesh and Matrix rooms.  Packets of the
    mesh come in through a callback, are filtered, classified and relayed to the
    rooms of their channel; Matrix events are filtered, formatted and put on a
    queue from which they go to the radio at a limited rate.  A database maps
    Meshtastic messages to Matrix events, so that replies and reactions find
    their target on the other side, and holds the names of nodes and the data of
    plugins.  Plugins, bundled or fetched with git, see the messages of both
    sides.  Around this stand the connection to the radio with its worker
    threads and health checks, and the main loop with start-up and shut-down.
    This library models these parts, under [src/mmrelay/] of the repository, and
    proves what they promise.

    ** Files

    Shared:
    - [Prelude]: seconds as rationals with boolean comparisons, sequences of
      steps, tactics ([q_bool], [q_lra], [split_ifs], [split_hyp], [bool_prop],
      [by_decide]), the hint database [relay], list lemmas.
    - [PyStr]: Python strings as lists of code points: strip, lower, splitlines,
      isdigit, int() and str() on integers, UTF-8 with its error handlers.
    - [PyValue]: exceptions and the error monad [res] (notation [let!] in
      [res_scope]), Python values as they come out of YAML and JSON,
      dictionaries in insertion order, truth, equality, int() and float().
    - [PyLib]: paths ([os.path]), [urlsplit] and [shlex.split]; [PurePath]: paths
      of POSIX and Windows as [pathlib] reads them.
    - [Interact]: programs over calls that an environment answers, with
      exceptions, handlers and final clauses, and three ways to reason about
      them: [leaves] and [runs] (what a program adds to the history of calls and
      does to its state), [steady] (what all its calls have in common).

    Leaf components:
    - [Coerce]: the coercions of [meshtastic/async_utils.py] and
      [_normalize_room_channel].
    - [Settings]: the settings read in [config.py] and [matrix/prefixes.py].
    - [PacketRouting]: [classify_packet] of [meshtastic/packet_routing.py] with
      the warnings it logs once, and the policy it implements, stated apart.
    - [Prefixes]: the prefixes of both directions and Markdown escaping.
    - [RoomMapping]: [matrix/room_mapping.py], the configured rooms as a store
      of shared objects changed through setters.

    The database, [db_utils.py] and [db_runtime.py]:
    - [MessageMap]: the [message_map] table and its operations, and the class
      [MessageMapStore] of what their clients rely on, with the table as its
      instance.
    - [Names], [NameSync]: long and short names of nodes; their synchronisation
      with the node database of the radio, in one transaction, with pruning.
    - [DbSchema]: creation and migration of the tables, statement by statement,
      with crashes between statements and failures of two kinds: one that
      refuses the statement, and one at which SQLite rolls the transaction back.
    - [DbConfig]: options, the statements of a new connection, plugin data.
    - [DbRuntime]: the manager of connections as a transition system.

    The queue, [message_queue.py]:
    - [QueueState]: the object [MessageQueue] as the record [mq], one definition
      per method, [stop] in its phases, the processor coroutine as one segment
      per stretch between two awaits.
    - [QueueSystem]: the step relation of the queue with its processor tasks,
      stops in progress, sends and database, under every interleaving, and the
      invariant [sys_ok] with its preservation by each step.  The clean-up of a
      stop that was overtaken by a new start is a step as long as it leaves
      the new task alone ([late_finalize_safe]); the one that does not is
      shown to break the queue in [QueueProps].
    - [QueueProps]: the properties of the queue.

    The two directions:
    - [MeshSend]: the calls that are queued, and the class [OutQueue] of what
      the handlers rely on of the queue, with [mq] as its instance.
    - [Replies]: [matrix/replies.py].
    - [Commands]: the parser of [matrix/command_bridge.py].
    - [MatrixInbound]: the event handlers of [matrix/events.py].
    - [MatrixRelay]: [matrix/relay.py].
    - [Health]: probe tracking, acknowledgments and the calibration of the
      packet clock of [meshtastic/health.py].
    - [MeshInbound]: [on_meshtastic_message] of [meshtastic/events.py] with the
      plugin dispatch of [meshtastic/plugins.py].

    The connection to the radio, [meshtastic/]:
    - [Connect]: the loop over connection attempts with set-up and roll-back.
    - [Reconnect]: lost connections, the reconnection coroutine, and the gate
      that lets one attempt run at a time, as transition systems.
    - [Executors], [DaemonExecutor]: the shared executors of device calls with
      futures, watchdogs and degraded states; the executor with daemon threads.
    - [Ble]: late disposal and stale connections of Bluetooth clients.
    - [Probes]: the loop of health checks, the probe after a connection, and the
      startup drain, with their timers.
    - [NodeRefresh]: snapshots of the node database and device metadata.

    Plugins:
    - [BasePlugin]: [plugins/base_plugin.py]; [MeshRelay], [PingDrop],
      [CorePlugins], [Weather]: the bundled plugins.
    - [PluginSecurity]: the checks of [plugin_loader.py] on names, paths,
      addresses, references and requirements.
    - [PluginRepos]: the runs of git, in the monad [G] of commands whose outcomes
      are inputs; [PluginInstall]: the installation of requirements and the
      preparation of a community plugin; [PluginLoader]: directories of plugins,
      the scheduler, [load_plugins] and [shutdown_plugins].

    [MainLoop]: [main] and [run_main] of [main.py]: start-up with its roll-back,
    signals, the readiness file, the sync loop, supervision of the background
    tasks and shut-down, in a monad with exceptions and the log of effects.

    The migration of files from older layouts, [migrate.py]:
    - [MigrateFs]: trees of files, the calls on them - copy, move, removal,
      making folders - each of which may break halfway, in the monad [F], and
      assertions on its programs that hold however they end.
    - [Migrate]: the steps for files that move whole - credentials, configuration
      and E2EE store - with what each leaves behind.
    - [MigrateData]: database, logs, plugins, GPX files and the service file;
      [MigrateDatabase]: what the step of the database leaves behind.
    - [MigrateRun]: [verify_migration], [perform_migration] with its lock, and
      [rollback_migration]; [MigrateRuns]: runs on concrete trees.

    Paths, configuration and the Matrix session:
    - [Paths]: [paths.py]: the home, where it comes from, its folders, the legacy
      folders and the folders of plugins.
    - [ConfigEnv], [ConfigFiles]: [config.py]: settings from the environment and
      their merge, the check of a configuration text; loading and saving the
      configuration and the credentials over a tree of files.
    - [CheckConfig]: [check_config] of [cli.py], which tells whether a configuration
      can be used.
    - [E2eeStatus]: [matrix/compat.py], [e2ee_utils.py]: which library and
      cryptography there are, and the status of encryption.
    - [MatrixIds]: user ids; [CrossSigning]: [matrix/e2ee_identity.py], the
      cross-signing of the own device.
    - [MatrixSession]: [matrix/auth.py] and the first sync of
      [matrix/sync_bootstrap.py]; [MatrixConnect]: [matrix/credentials.py], the
      login with a password, [connect_matrix] and [join_matrix_room].  The rooms
      of a configuration are objects of a heap, which the resolution of
      aliases changes in place, so that who shares a configuration sees it.

    ** Correspondence

    Definitions keep the names of the functions they translate.  A function that
    raises returns [res]; a method that changes an object takes and returns the
    record of its fields; a global variable is an argument.  A long handler is
    cut into its phases, composed in the order of the code.  Clocks are
    arguments, read once per segment or call.  What other packages do (Meshtastic
    interface and constants, Matrix client, git and pip, the modules of plugins,
    Markdown rendering, HTML unescaping, the parts of str.format that inspect
    objects) is an argument: outcomes where the code only branches on them,
    functions where it uses their values.  Hypotheses on such functions are
    stated where they are used and hold of concrete functions in the
    applications at the end of each file: that a time that was written reads
    back, that a normal path is its own normal form.

    ** Theorems

    - Queue: one processor at a time, first in first out across requeueing, the
      rate limit between sends, no message lost or duplicated but in the cases
      named, the size bound, what a finished drain means, when a stop that timed
      out recovers and what is refused until then, termination of a waiting
      enqueue, progress of the processor.  These are for runs without the late
      clean-up of an earlier stop that takes the new task for its own, which
      lets two processors meet, as one of the theorems shows.
    - Routing: classification refines the policy for every configuration;
      encrypted packets are never relayed; each warning is logged once.
    - Database: operations on the map keep identifiers unique and rows ordered;
      migration keeps every event and recovers from a crash at any statement, as
      long as no failure rolls the transaction back while a legacy table is merged; the
      name tables after a complete cycle are exactly those of the snapshot, and
      the drift check is exact; no connection is used after it was closed; the
      statements of a connection are safe; node data is bounded.
    - From the mesh: what is admitted and that fresh packets are; relays go only
      to rooms that should get them, and a broadcast to all of them; probe
      responses are claimed once; the clock is calibrated once.  To Matrix: at
      most the allowed attempts, all under one transaction identifier.
    - From Matrix: an event gives at most one call, on the channel of its room,
      only when it may; relayed texts are not echoed, but for replies to messages
      in the map; replies go to the message they answer; texts are cut at the longest prefix that fits; bang commands
      parse back.
    - Connection: no client is left open by a failed attempt, and the one in use
      is the one returned; attempts are
      exclusive, end, and stop at shut-down; one reconnection at a time; orphaned
      workers are bounded; an executor starts calls in order and each once; one
      probe per connection.
    - Main loop: readiness is published only after the drain; what was started is
      stopped whatever fails; sync failures are retried for ever; the exit status
      is 0 only after a shut-down that was asked for.
    - Plugins: packets survive the way over Matrix; a request for the weather at
      a place is answered with texts that fit, whatever the service returns; containment of paths is exact;
      allowed addresses have allowed hosts; no option is injected into git
      commands; a repository that is reported as fetched is at its reference, or
      at an accepted replacement after the reference had failed;
      fetching always ends; requirements are installed only when configured,
      vetted lines only unless others are allowed, recorded only after success
      and not repeated; plugins are gathered, chosen by their entries and
      started in a stable order of priority, and all stopped; one scheduler
      thread.
    - Migration: whatever the file system refuses and when, a step for the
      credentials, the configuration, the store or the newest database has moved
      all of its files, or changed nothing, or failed with every file still there - in
      its old place, in the staging area, in its new place or in a backup; without
      [--force] what is there is left alone; a dry run changes nothing; the steps
      run in order up to the first that fails, those before it are undone from
      the last to the first, and no error of a change of the files leaves a run;
      a lock keeps a second run out.
    - Settings, prefixes, rooms: fallbacks and aliases.
    - Paths and configuration: the precedence of what names the home; folders of
      plugins stay inside it; the environment is merged into a configuration
      exactly, with settings of the right type and bounds; credentials that were
      saved are the ones that are loaded, and the first valid file wins; the
      silent reader reads what the loader reads; a configuration that the check
      accepts is the one that is loaded, unless one before it is no text, and its
      rooms, address and options can be used.
    - Matrix session: a connection is published whole or not at all, and its
      client is closed when it is not; of what others see, a failed one may have
      changed room aliases at most; the first sync backs off, keeps its limit
      and outlasts an outage; a login saves only what the server gave; stored
      credentials come before the password and the token of the configuration;
      an identity is replaced only when that is permitted, and a device is
      reported as signed only after the server showed it.

    Each file also holds, under "What modelling showed", inputs on which the code
    does something else than it says.

    ** Bounds and fuel

    Recursion is structural, over the text, list or number of attempts of the
    code.  Loops that wait (the waiting form of [enqueue], the wait for an
    acknowledgment, the sync loop) recurse on the list of what successive
    wake-ups find, and the runs of commands on the list of their outcomes; a
    program that has used them up is still running, and theorems say how many are
    enough: 24 outcomes for fetching a repository, a wake-up past the deadline
    for [enqueue].  Collecting nested requirement files takes fuel, one unit per
    file and one more, which a theorem shows to be enough.  The printing of
    integers takes one unit per bit, which its round trip with int() shows to be
    enough.  Retry loops recurse on the attempts left, as the loops of the code
    count them.  The errors of the file system are a list, one entry per change
    of the tree; when it is used up, changes work.  The first sync takes one
    unit per attempt: with a limit that many are enough, without one it takes one
    more than the attempts that time out.

    ** Not modelled

    Opening a serial, TCP or Bluetooth device, with interfaces that the opening
    itself makes and drops; the map plugin, the upload of
    media; the search paths of plugin directories; the other commands of the
    command line, the installation of the service and logging.  They are calls of other packages
    and file and terminal input and output around the parts above.  Of the
    migration, the retries of moves on Windows are modelled but the theorems on
    lost files are for other systems, symbolic links are left out, a test whether
    a path exists is taken to answer, and what the
    steps for logs, GPX files and plugins leave after an error is not stated.
    The YAML and JSON parsers give the documents that files hold; the Matrix
    client library gives the answers to the calls of a session.

    ** Reading the results

    Time is rational, so rounding of floats is not seen.  Integers are unbounded
    as in Python.  Log lines are left out but for the warnings of the packet
    routing, which are part of its state, and the notices of pinned commits. *)

From stdpp Require Import base tactics list numbers sets.
From Stdlib Require Import QArith Lqa.

#[global] Set Default Goal Selector "!".
#[global] Set Warnings "-notation-overridden".

(** ** Seconds

    Clock readings and delays are Python floats.  They are exact rationals
    here; the comparisons are boolean so that every operation computes. *)

Definition qlt (a b : Q) : bool := negb (Qle_bool b a).
Definition qle (a b : Q) : bool := Qle_bool a b.
Definition qmin (a b : Q) : Q := if qle a b then a else b.
Definition qmax (a b : Q) : Q := if qle a b then b else a.
Definition qabs (a : Q) : Q := if qlt a 0 then (- a)%Q else a.

(** ** Transition sequences

    Every state machine of the library is a relation on a state type; the
    states it can reach are those related by [star]. *)

Section star.
Context {S : Type} (R : S → S → Prop).

Inductive star : S → S → Prop :=
  | star_refl s : star s s
  | star_step s1 s2 s3 : R s1 s2 → star s2 s3 → star s1 s3.

Definition preserves (P : S → Prop) : Prop := ∀ s s', R s s' → P s → P s'.

Lemma star_one s s' : R s s' → star s s'.
Proof. intros; eapply star_step; [done | apply star_refl]. Qed.

Lemma star_trans s1 s2 s3 : star s1 s2 → star s2 s3 → star s1 s3.
Proof. induction 1; [done | intros; eapply star_step; eauto]. Qed.

Lemma star_invariant P s s' : preserves P → star s s' → P s → P s'.
Proof. intros HP Hst. induction Hst; [done |]. intros; eauto. Qed.
End star.

(** ** Boolean comparison of rationals *)

Section q_order.
Open Scope Q_scope.

Lemma qle_spec a b : qle a b = true ↔ a <= b.
Proof. apply Qle_bool_iff. Qed.

Lemma qlt_spec a b : qlt a b = true ↔ a < b.
Proof.
  unfold qlt. rewrite negb_true_iff, <- not_true_iff_false, Qle_bool_iff.
  split; [apply Qnot_le_lt | apply Qlt_not_le].
Qed.

Lemma qle_false a b : qle a b = false ↔ b < a.
Proof. rewrite <- (qlt_spec b a). unfold qlt, qle. by rewrite negb_true_iff. Qed.

Lemma qlt_false a b : qlt a b = false ↔ b <= a.
Proof. unfold qlt. by rewrite negb_false_iff, Qle_bool_iff. Qed.

Lemma qmax_le_r a b : b <= qmax a b.
Proof.
  unfold qmax. destruct (qle a b) eqn:E; [apply Qle_refl |].
  apply qle_false in E. by apply Qlt_le_weak.
Qed.
End q_order.

(** [q_bool] turns the boolean comparisons of a context into inequalities, so
    that [lra] sees them. *)
Ltac q_bool :=
  repeat match goal with
  | H : qle _ _ = true |- _ => apply qle_spec in H
  | H : qle _ _ = false |- _ => apply qle_false in H
  | H : qlt _ _ = true |- _ => apply qlt_spec in H
  | H : qlt _ _ = false |- _ => apply qlt_false in H
  | |- qle _ _ = true => apply qle_spec
  | |- qle _ _ = false => apply qle_false
  | |- qlt _ _ = true => apply qlt_spec
  | |- qlt _ _ = false => apply qlt_false
  end.

Ltac q_lra := q_bool; unfold qmin, qmax in *; lra.

(** A decidable fact about given values, by computation. *)
Ltac by_decide := refine (bool_decide_unpack _ _); by vm_compute.

(** [split_ifs] destructs every [if] and [match] scrutinee of the goal that is
    not itself a match, keeping the equation; [split_ifs_in H] does so in a
    hypothesis and closes the contradictory branches. *)
Ltac split_ifs :=
  simplify_eq; try done; repeat (case_match; simplify_eq; try done).

Ltac split_hyp H :=
  repeat (let E := fresh "E" in
    match type of H with
    | context [match ?x with _ => _ end] =>
        lazymatch x with
        | context [match _ with _ => _ end] => fail
        | _ => destruct x eqn:E
        end
    end; simplify_eq/=; try done).

(** Boolean connectives of the guards as propositions. *)
Ltac bool_prop :=
  repeat match goal with
  | H : _ && _ = true |- _ => apply andb_true_iff in H as [? ?]
  | H : _ || _ = false |- _ => apply orb_false_iff in H as [? ?]
  | H : negb _ = true |- _ => apply negb_true_iff in H
  | H : negb _ = false |- _ => apply negb_false_iff in H
  | H : bool_decide _ = true |- _ => apply bool_decide_eq_true in H
  | H : bool_decide _ = false |- _ => apply bool_decide_eq_false in H
  end.

Create HintDb relay.
#[export] Hint Resolve star_refl star_one : relay.

(** ** Lists *)

Section lists.
Context {A : Type}.
Implicit Types l k : list A.

(** The first [Some] a function finds along a list (the [for ... return] loops
    of the program). *)
Fixpoint first_some {B} (f : A → option B) (l : list A) : option B :=
  match l with
  | [] => None
  | x :: l => match f x with Some y => Some y | None => first_some f l end
  end.

Lemma first_some_None {B} (f : A → option B) l :
  first_some f l = None ↔ ∀ x, x ∈ l → f x = None.
Proof.
  induction l as [|x l IH]; simpl; [set_solver |].
  destruct (f x) eqn:E; split; [done | | |].
  - intros H. rewrite <- E. apply H. by left.
  - intros H y [->|Hy]%elem_of_cons; [done | by apply IH].
  - intros H. apply IH. intros y Hy. apply H. by right.
Qed.

Lemma first_some_Some {B} (f : A → option B) l y :
  first_some f l = Some y →
  ∃ l1 x l2, l = l1 ++ x :: l2 ∧ f x = Some y ∧ ∀ z, z ∈ l1 → f z = None.
Proof.
  induction l as [|x l IH]; simpl; [done |].
  destruct (f x) eqn:E; intros H; simplify_eq.
  - exists [], x, l. set_solver.
  - destruct (IH H) as (l1 & z & l2 & -> & Hz & Hn).
    exists (x :: l1), z, l2. split; [done |]. split; [done |].
    intros w [->|Hw]%elem_of_cons; eauto.
Qed.

Lemma existsb_elem_of (f : A → bool) l :
  existsb f l = true ↔ ∃ x, x ∈ l ∧ f x = true.
Proof. rewrite existsb_exists. by setoid_rewrite list_elem_of_In. Qed.

Lemma forallb_elem_of (f : A → bool) l :
  forallb f l = true ↔ ∀ x, x ∈ l → f x = true.
Proof. rewrite forallb_forall. by setoid_rewrite list_elem_of_In. Qed.
End lists.
