(* ===== verification/PyStr.v ===== *)
(** * Python strings

    A [str] is the list of its code points.  This file has the string methods
    the program uses ([strip], [lower], [startswith], [split], [splitlines],
    [isdigit], [str(int)], [int(str)]) and UTF-8, written from the language's
    definition; the character tables are those of the Unicode database that
    [str.isspace], [str.isdecimal] and [str.isdigit] consult.

    [lower] maps the ASCII capitals and the two other characters whose lower
    case contains an ASCII letter (U+0130 and U+212A); the case of the other
    letters is left alone, which no comparison with an ASCII constant sees. *)

From Stdlib Require Import Ascii String.
From stdpp Require Import base tactics list numbers sets.
From S2P Require Import Prelude.
Open Scope Z_scope.

Abbreviation pystr := (list Z).

(** ASCII literals of the source. *)
Definition u (s : string) : pystr :=
  (λ a, Z.of_N (N_of_ascii a)) <$> list_ascii_of_string s.
Arguments u _%_string : simpl never.

Definition between (lo hi c : Z) : bool := (lo <=? c) && (c <=? hi).

(** ** Character classes *)

Definition is_space (c : Z) : bool :=
  between 9 13 c || between 28 32 c || (c =? 133) || (c =? 160) ||
  (c =? 5760) || between 8192 8202 c || between 8232 8233 c ||
  (c =? 8239) || (c =? 8287) || (c =? 12288).

(** First code point of every run of ten decimal digits. *)
Definition decimal_zeros : list Z :=
  [48; 1632; 1776; 1984; 2406; 2534; 2662; 2790; 2918; 3046; 3174; 3302; 3430;
   3558; 3664; 3792; 3872; 4160; 4240; 6112; 6160; 6470; 6608; 6784; 6800;
   6992; 7088; 7232; 7248; 42528; 43216; 43264; 43472; 43504; 43600; 44016;
   65296; 66720; 68912; 69734; 69872; 69942; 70096; 70384; 70736; 70864; 71248;
   71360; 71472; 71904; 72016; 72784; 73040; 73120; 92768; 92864; 93008;
   120782; 120792; 120802; 120812; 120822; 123200; 123632; 125264; 130032].

(** Digits that are not decimal (superscripts, circled digits, ...): they pass
    [isdigit] and [int] refuses them. *)
Definition other_digits : list (Z * Z) :=
  [(178, 179); (185, 185); (4969, 4977); (6618, 6618); (8304, 8304);
   (8308, 8313); (8320, 8329); (9312, 9320); (9332, 9340); (9352, 9360);
   (9450, 9450); (9461, 9469); (9471, 9471); (10102, 10110); (10112, 10120);
   (10122, 10130); (68160, 68163); (69216, 69224); (69714, 69722);
   (127232, 127242)].

Definition digit_value (c : Z) : option Z :=
  first_some (λ z, if between z (z + 9) c then Some (c - z) else None)
    decimal_zeros.

Definition is_digit (c : Z) : bool :=
  match digit_value c with
  | Some _ => true
  | None => existsb (λ r, between r.1 r.2 c) other_digits
  end.

(** Line boundaries of [splitlines]. *)
Definition is_linebreak (c : Z) : bool :=
  between 10 13 c || between 28 30 c || (c =? 133) || between 8232 8233 c.

Definition lower_char (c : Z) : pystr :=
  if between 65 90 c then [c + 32]
  else if c =? 304 then [105; 775]
  else if c =? 8490 then [107]
  else [c].

(** ** String methods *)

Definition nonempty (s : pystr) : bool :=
  match s with [] => false | _ => true end.

Definition str_eqb (s t : pystr) : bool := bool_decide (s = t).

Fixpoint drop_while (f : Z → bool) (s : pystr) : pystr :=
  match s with
  | [] => []
  | c :: s' => if f c then drop_while f s' else s
  end.

Fixpoint take_while (f : Z → bool) (s : pystr) : pystr :=
  match s with
  | [] => []
  | c :: s' => if f c then c :: take_while f s' else []
  end.

Definition lstrip (s : pystr) : pystr := drop_while is_space s.
Definition rstrip (s : pystr) : pystr := reverse (lstrip (reverse s)).
Definition strip (s : pystr) : pystr := rstrip (lstrip s).

Definition lower (s : pystr) : pystr := s ≫= lower_char.

Definition isdigit (s : pystr) : bool := nonempty s && forallb is_digit s.

Fixpoint startswith (s p : pystr) : bool :=
  match p, s with
  | [], _ => true
  | c :: p', d :: s' => (c =? d) && startswith s' p'
  | _ :: _, [] => false
  end.

(** [sub in s] *)
Fixpoint contains (s sub : pystr) : bool :=
  startswith s sub ||
  match s with [] => false | _ :: s' => contains s' sub end.

(** [s.split(c, 1)]: the part before the first [c] and, when there is one, the
    part after it. *)
Fixpoint split1 (c : Z) (s : pystr) : pystr * option pystr :=
  match s with
  | [] => ([], None)
  | d :: s' =>
      if d =? c then ([], Some s')
      else let '(a, b) := split1 c s' in (d :: a, b)
  end.

(** [sep.join(parts)] *)
Fixpoint join (sep : pystr) (parts : list pystr) : pystr :=
  match parts with
  | [] => []
  | [p] => p
  | p :: ps => p ++ sep ++ join sep ps
  end.

(** [str.splitlines()]: a carriage return and a line feed count as one break,
    and a trailing break opens no empty line. *)
Fixpoint splitlines_from (cur : pystr) (s : pystr) : list pystr :=
  match s with
  | [] => if nonempty cur then [reverse cur] else []
  | c :: s' =>
      if is_linebreak c then
        match s' with
        | d :: s'' =>
            if (c =? 13) && (d =? 10) then reverse cur :: splitlines_from [] s''
            else reverse cur :: splitlines_from [] s'
        | [] => [reverse cur]
        end
      else splitlines_from (c :: cur) s'
  end.
Definition splitlines (s : pystr) : list pystr := splitlines_from [] s.

(** ** Integers and strings *)

Fixpoint dec_digits (fuel : nat) (n : Z) (acc : pystr) : pystr :=
  match fuel with
  | O => acc
  | S fuel =>
      if n <? 10 then (48 + n) :: acc
      else dec_digits fuel (n / 10) ((48 + n mod 10) :: acc)
  end.

(** [str(z)] *)
Definition str_of_int (z : Z) : pystr :=
  let n := Z.abs z in
  let ds := dec_digits (S (Z.to_nat (Z.log2 n))) n [] in
  if z <? 0 then 45 :: ds else ds.

(** Digits of an integer literal: single underscores may separate them. *)
Fixpoint parse_digits (acc : Z) (s : pystr) : option Z :=
  match s with
  | [] => Some acc
  | c :: s' =>
      match digit_value c with
      | Some d => parse_digits (10 * acc + d) s'
      | None =>
          if c =? 95 then
            match s' with
            | c2 :: s'' =>
                match digit_value c2 with
                | Some d => parse_digits (10 * acc + d) s''
                | None => None
                end
            | [] => None
            end
          else None
      end
  end.

Definition parse_nat (s : pystr) : option Z :=
  match s with
  | [] => None
  | c :: s' => match digit_value c with
               | Some d => parse_digits d s'
               | None => None
               end
  end.

(** [int(s)]: [None] is ValueError. *)
Definition int_of_str (s : pystr) : option Z :=
  match strip s with
  | 43 :: s' => parse_nat s'
  | 45 :: s' => Z.opp <$> parse_nat s'
  | s' => parse_nat s'
  end.

(** ** UTF-8 *)

Definition is_surrogate (c : Z) : bool := between 55296 57343 c.

Definition enc1 (c : Z) : list Z :=
  if c <? 128 then [c]
  else if c <? 2048 then [192 + c / 64; 128 + c mod 64]
  else if c <? 65536 then
    [224 + c / 4096; 128 + (c / 64) mod 64; 128 + c mod 64]
  else
    [240 + c / 262144; 128 + (c / 4096) mod 64; 128 + (c / 64) mod 64;
     128 + c mod 64].

(** [s.encode("utf-8")]: [None] is UnicodeEncodeError (a lone surrogate). *)
Definition encode (s : pystr) : option (list Z) :=
  if existsb is_surrogate s then None else Some (s ≫= enc1).

Definition is_cont (b : Z) : bool := between 128 191 b.

(** The code point of a multi-byte sequence, when the sequence is well formed
    (no overlong form, no surrogate, nothing above U+10FFFF). *)
Definition dec2 (b0 b1 : Z) : option Z :=
  if between 194 223 b0 && is_cont b1
  then Some ((b0 - 192) * 64 + (b1 - 128)) else None.
Definition dec3 (b0 b1 b2 : Z) : option Z :=
  let c := (b0 - 224) * 4096 + (b1 - 128) * 64 + (b2 - 128) in
  if between 224 239 b0 && is_cont b1 && is_cont b2 && (2048 <=? c) &&
     negb (is_surrogate c)
  then Some c else None.
Definition dec4 (b0 b1 b2 b3 : Z) : option Z :=
  let c := (b0 - 240) * 262144 + (b1 - 128) * 4096 + (b2 - 128) * 64
           + (b3 - 128) in
  if between 240 244 b0 && is_cont b1 && is_cont b2 && is_cont b3 &&
     between 65536 1114111 c
  then Some c else None.

(** [b.decode("utf-8", "ignore")]: bytes that start no well-formed sequence are
    skipped one by one. *)
Fixpoint decode_ignore (b : list Z) : pystr :=
  match b with
  | [] => []
  | b0 :: r0 =>
      if b0 <? 128 then b0 :: decode_ignore r0 else
      match r0 with
      | [] => []
      | b1 :: r1 =>
          match dec2 b0 b1 with
          | Some c => c :: decode_ignore r1
          | None =>
              match r1 with
              | [] => decode_ignore r0
              | b2 :: r2 =>
                  match dec3 b0 b1 b2 with
                  | Some c => c :: decode_ignore r2
                  | None =>
                      match r2 with
                      | [] => decode_ignore r0
                      | b3 :: r3 =>
                          match dec4 b0 b1 b2 b3 with
                          | Some c => c :: decode_ignore r3
                          | None => decode_ignore r0
                          end
                      end
                  end
              end
          end
      end
  end.

#[global] Arguments strip : simpl never.
#[global] Arguments lower : simpl never.
#[global] Arguments str_of_int : simpl never.
#[global] Arguments int_of_str : simpl never.

(** Code points a [str] that can be encoded holds. *)
Definition scalar (c : Z) : bool := between 0 1114111 c && negb (is_surrogate c).
Definition well_formed (s : pystr) : Prop := Forall (λ c, between 0 1114111 c) s.

(** ** Lemmas *)

(** Integer range tests as inequalities; [z_bool] normalises a goal made of
    them and leaves it to [lia], with the quotients by constants expanded. *)
Lemma between_spec lo hi c : between lo hi c = true ↔ lo ≤ c ≤ hi.
Proof. unfold between. rewrite andb_true_iff, !Z.leb_le. lia. Qed.

Lemma between_false lo hi c : between lo hi c = false ↔ c < lo ∨ hi < c.
Proof. rewrite <- not_true_iff_false, between_spec. lia. Qed.

Ltac z_bool_hyps :=
  bool_prop;
  repeat match goal with
  | H : between _ _ _ = true |- _ => apply between_spec in H
  | H : between _ _ _ = false |- _ => apply between_false in H
  | H : is_cont _ = true |- _ => apply between_spec in H
  | H : is_surrogate _ = true |- _ => apply between_spec in H
  | H : is_surrogate _ = false |- _ => apply between_false in H
  | H : (_ <? _) = true |- _ => apply Z.ltb_lt in H
  | H : (_ <? _) = false |- _ => apply Z.ltb_ge in H
  | H : (_ <=? _) = true |- _ => apply Z.leb_le in H
  | H : (_ <=? _) = false |- _ => apply Z.leb_gt in H
  | H : (_ =? _) = true |- _ => apply Z.eqb_eq in H
  | H : (_ =? _) = false |- _ => apply Z.eqb_neq in H
  end.
Ltac z_bool :=
  z_bool_hyps;
  unfold is_cont, is_surrogate in *;
  rewrite ?andb_true_iff, ?negb_true_iff, ?between_spec, ?between_false,
    ?Z.leb_le, ?Z.ltb_lt, ?Z.ltb_ge, ?Z.eqb_eq, ?Z.eqb_neq;
  repeat split; Z.div_mod_to_equations; lia.

(** The guard of the conditional in the goal holds. *)
Ltac guard_true :=
  match goal with
  | |- context [if ?b then _ else _] => assert (b = true) as -> by z_bool
  end.

Lemma str_eqb_spec s t : str_eqb s t = true ↔ s = t.
Proof. unfold str_eqb. by rewrite bool_decide_eq_true. Qed.

Lemma str_eqb_refl s : str_eqb s s = true.
Proof. by apply str_eqb_spec. Qed.

Lemma nonempty_spec s : nonempty s = true ↔ s ≠ [].
Proof. by destruct s. Qed.

Lemma startswith_spec s p : startswith s p = true ↔ ∃ t, s = p ++ t.
Proof.
  revert s. induction p as [|c p IH]; intros s.
  - split; [by exists s | by destruct s].
  - destruct s as [|d s]; simpl; [by split; [|intros [? ?]]|].
    rewrite andb_true_iff, Z.eqb_eq, IH.
    split; [by intros [-> [t ->]]; exists t | by intros [t [= -> ->]]; eauto].
Qed.

Lemma startswith_app p t : startswith (p ++ t) p = true.
Proof. apply startswith_spec. by exists t. Qed.

Lemma drop_while_length f s : (length (drop_while f s) ≤ length s)%nat.
Proof. induction s as [|c s IH]; simpl; [lia | case_match; simpl; lia]. Qed.

Lemma drop_while_head f s : match drop_while f s with
  | [] => True | c :: _ => f c = false end.
Proof. induction s as [|c s IH]; simpl; [done | by destruct (f c) eqn:E]. Qed.

Lemma drop_while_id f s :
  (match s with [] => True | c :: _ => f c = false end) → drop_while f s = s.
Proof. destruct s; simpl; [done | by intros ->]. Qed.

Lemma drop_while_app_tail f s c :
  f c = false → ∃ r, drop_while f (s ++ [c]) = r ++ [c].
Proof.
  intros Hc. induction s as [|d s [r IH]]; simpl.
  - exists []. by rewrite Hc.
  - destruct (f d); [by exists r | by exists (d :: s)].
Qed.

Lemma drop_while_all f s : forallb f s = true → drop_while f s = [].
Proof. induction s; simpl; [done | intros; bool_prop; by case_match; eauto]. Qed.

Lemma lstrip_strip s : lstrip (strip s) = strip s.
Proof.
  apply drop_while_id. unfold strip, rstrip.
  pose proof (drop_while_head is_space s) as Hh.
  change (drop_while is_space s) with (lstrip s) in Hh.
  destruct (lstrip s) as [|c t]; [done |].
  rewrite reverse_cons. unfold lstrip.
  destruct (drop_while_app_tail is_space (reverse t) c Hh) as [r ->].
  by rewrite reverse_app.
Qed.

Lemma strip_idemp s : strip (strip s) = strip s.
Proof.
  unfold strip at 1. rewrite lstrip_strip. unfold strip at 1 2, rstrip.
  rewrite reverse_involutive. f_equal. apply drop_while_id, drop_while_head.
Qed.

(** A string that neither starts nor ends with white space is its own strip. *)
Lemma strip_id s :
  forallb is_space s = false ∨ s = [] →
  (∀ c t, s = c :: t → is_space c = false) →
  (∀ c t, s = t ++ [c] → is_space c = false) → strip s = s.
Proof.
  intros _ Hl Hr. unfold strip, rstrip, lstrip.
  rewrite (drop_while_id _ s) by (destruct s; [done | eauto]).
  rewrite drop_while_id; [apply reverse_involutive |].
  destruct s as [|c s _] using rev_ind; [done |].
  rewrite reverse_app. simpl. eauto.
Qed.

(** *** Decimal notation *)

Definition dec_val (acc : Z) (s : pystr) : Z :=
  fold_left (λ a c, 10 * a + (c - 48)) s acc.
Definition ascii_digits (s : pystr) : Prop := Forall (λ c, 48 ≤ c ≤ 57) s.

Lemma digit_value_ascii c : 48 ≤ c ≤ 57 → digit_value c = Some (c - 48).
Proof.
  intros H. unfold digit_value, decimal_zeros. cbn [first_some].
  rewrite (proj2 (between_spec 48 (48 + 9) c)) by lia. done.
Qed.

Lemma dec_digits_ascii fuel n acc :
  0 ≤ n → ascii_digits acc → ascii_digits (dec_digits fuel n acc).
Proof.
  revert n acc. induction fuel as [|fuel IH]; intros n acc Hn Ha; simpl; [done|].
  destruct (n <? 10) eqn:E; z_bool_hyps.
  - constructor; [lia | done].
  - apply IH; [Z.div_mod_to_equations; lia |].
    constructor; [Z.div_mod_to_equations; lia | done].
Qed.

Lemma dec_digits_nonempty fuel n acc :
  (0 < fuel)%nat ∨ acc ≠ [] → dec_digits fuel n acc ≠ [].
Proof.
  revert n acc. induction fuel as [|fuel IH]; intros n acc H; simpl.
  { destruct H; [lia | done]. }
  destruct (n <? 10); [done |]. apply IH. by right.
Qed.

Lemma dec_digits_val fuel n acc :
  0 ≤ n < 2 ^ Z.of_nat fuel → dec_val 0 (dec_digits fuel n acc) = dec_val n acc.
Proof.
  revert n acc. induction fuel as [|fuel IH]; intros n acc Hn.
  { simpl in Hn. by replace n with 0 by lia. }
  simpl. destruct (n <? 10) eqn:E; z_bool_hyps.
  - unfold dec_val; simpl. f_equal. lia.
  - rewrite IH.
    + unfold dec_val; simpl. f_equal. Z.div_mod_to_equations; lia.
    + rewrite Nat2Z.inj_succ, Z.pow_succ_r in Hn by lia.
      Z.div_mod_to_equations; lia.
Qed.

Lemma parse_digits_ascii s acc :
  ascii_digits s → parse_digits acc s = Some (dec_val acc s).
Proof.
  intros H. revert acc. induction H as [|c s Hc Hs IH]; intros acc; [done|].
  simpl. rewrite digit_value_ascii by done. apply IH.
Qed.

Lemma parse_nat_ascii s :
  ascii_digits s → s ≠ [] → parse_nat s = Some (dec_val 0 s).
Proof.
  intros H Hne. destruct H as [|c s Hc Hs]; [done |]. simpl.
  rewrite digit_value_ascii by done. rewrite parse_digits_ascii by done.
  done.
Qed.

Lemma ascii_not_space c : 43 ≤ c ≤ 57 → is_space c = false.
Proof.
  intros. unfold is_space.
  repeat (apply orb_false_iff; split); z_bool.
Qed.

Lemma strip_printable s : Forall (λ c, 43 ≤ c ≤ 57) s → strip s = s.
Proof.
  intros H. destruct s as [|c0 s0] eqn:Es; [done |]. rewrite <- Es in *.
  apply strip_id.
  - left. subst. simpl. inversion_clear H.
    by rewrite ascii_not_space by done.
  - intros c t ->. inversion_clear H. by apply ascii_not_space.
  - intros c t ->. apply Forall_app in H as [_ H]. inversion_clear H.
    by apply ascii_not_space.
Qed.

Lemma str_of_int_digits n :
  0 ≤ n → let ds := dec_digits (S (Z.to_nat (Z.log2 n))) n [] in
  ascii_digits ds ∧ ds ≠ [] ∧ dec_val 0 ds = n.
Proof.
  intros Hn ds. split; [by apply dec_digits_ascii; [|constructor]|].
  split; [apply dec_digits_nonempty; left; lia |].
  unfold ds. rewrite dec_digits_val; [done |].
  rewrite Nat2Z.inj_succ, Z2Nat.id by apply Z.log2_nonneg.
  destruct (decide (n = 0)) as [->|]; [done |].
  pose proof (Z.log2_spec n). lia.
Qed.

Lemma parse_head_digits s :
  ascii_digits s → s ≠ [] → int_of_str s = Some (dec_val 0 s).
Proof.
  intros H Hne. unfold int_of_str.
  rewrite strip_printable by (eapply Forall_impl; [done | simpl; lia]).
  destruct s as [|c s]; [done |].
  rewrite <- parse_nat_ascii by done. inversion_clear H.
  assert (c ≠ 43 ∧ c ≠ 45) as [Hp Hm] by lia.
  repeat (case_match; try done).
Qed.

(** [int(str(z)) == z] *)
Lemma int_of_str_of_int z : int_of_str (str_of_int z) = Some z.
Proof.
  unfold str_of_int.
  destruct (str_of_int_digits (Z.abs z)) as (Ha & Hne & Hv); [lia |].
  destruct (z <? 0) eqn:E; z_bool_hyps.
  - unfold int_of_str. rewrite strip_printable.
    + rewrite parse_nat_ascii, Hv by done. simpl. f_equal. lia.
    + constructor; [lia | eapply Forall_impl; [exact Ha | simpl; lia]].
  - rewrite parse_head_digits, Hv by done. f_equal. lia.
Qed.

Lemma isdigit_str_of_int n : 0 ≤ n → isdigit (str_of_int n) = true.
Proof.
  intros Hn. unfold str_of_int.
  destruct (str_of_int_digits (Z.abs n)) as (Ha & Hne & _); [lia |].
  rewrite (proj2 (Z.ltb_ge n 0)) by lia. unfold isdigit.
  apply andb_true_iff; split; [by apply nonempty_spec |].
  apply forallb_elem_of. intros c Hc. unfold is_digit.
  rewrite digit_value_ascii; [done |]. by eapply Forall_forall in Ha.
Qed.

(** *** UTF-8 *)

Lemma dec2_enc c :
  128 ≤ c < 2048 → dec2 (192 + c / 64) (128 + c mod 64) = Some c.
Proof.
  intros H. unfold dec2. guard_true. f_equal. Z.div_mod_to_equations; lia.
Qed.

Lemma dec3_enc c :
  2048 ≤ c < 65536 → is_surrogate c = false →
  dec3 (224 + c / 4096) (128 + (c / 64) mod 64) (128 + c mod 64) = Some c.
Proof.
  intros H Hs. unfold dec3.
  assert ((224 + c / 4096 - 224) * 4096 + (128 + (c / 64) mod 64 - 128) * 64
          + (128 + c mod 64 - 128) = c) as -> by (Z.div_mod_to_equations; lia).
  rewrite Hs. by guard_true.
Qed.

Lemma dec4_enc c :
  65536 ≤ c ≤ 1114111 →
  dec4 (240 + c / 262144) (128 + (c / 4096) mod 64) (128 + (c / 64) mod 64)
    (128 + c mod 64) = Some c.
Proof.
  intros H. unfold dec4.
  assert ((240 + c / 262144 - 240) * 262144 +
    (128 + (c / 4096) mod 64 - 128) * 4096 +
    (128 + (c / 64) mod 64 - 128) * 64 + (128 + c mod 64 - 128) = c) as ->
    by (Z.div_mod_to_equations; lia).
  by guard_true.
Qed.

Lemma dec2_lead b0 b1 : b0 < 194 ∨ 223 < b0 → dec2 b0 b1 = None.
Proof.
  intros. unfold dec2. by rewrite (proj2 (between_false 194 223 b0)) by lia.
Qed.
Lemma dec3_lead b0 b1 b2 : b0 < 224 ∨ 239 < b0 → dec3 b0 b1 b2 = None.
Proof.
  intros. unfold dec3. by rewrite (proj2 (between_false 224 239 b0)) by lia.
Qed.
Lemma dec4_lead b0 b1 b2 b3 : b0 < 240 ∨ 244 < b0 → dec4 b0 b1 b2 b3 = None.
Proof.
  intros. unfold dec4. by rewrite (proj2 (between_false 240 244 b0)) by lia.
Qed.

Lemma enc1_length c : (1 ≤ length (enc1 c) ≤ 4)%nat.
Proof. unfold enc1. repeat case_match; simpl; lia. Qed.

(** Decoding starts with the code point whose encoding comes first. *)
Lemma decode_enc1 c r :
  scalar c = true → decode_ignore (enc1 c ++ r) = c :: decode_ignore r.
Proof.
  intros Hc. unfold scalar in Hc. z_bool_hyps. unfold enc1.
  destruct (c <? 128) eqn:E1; [by simpl; rewrite E1|].
  destruct (c <? 2048) eqn:E2; [|destruct (c <? 65536) eqn:E3]; z_bool_hyps;
    cbn [app decode_ignore].
  - rewrite (proj2 (Z.ltb_ge _ 128)) by (Z.div_mod_to_equations; lia).
    by rewrite dec2_enc by lia.
  - rewrite (proj2 (Z.ltb_ge _ 128)) by (Z.div_mod_to_equations; lia).
    rewrite dec2_lead by (Z.div_mod_to_equations; lia).
    rewrite dec3_enc; [done | lia | by apply between_false].
  - rewrite (proj2 (Z.ltb_ge _ 128)) by (Z.div_mod_to_equations; lia).
    rewrite dec2_lead by (Z.div_mod_to_equations; lia).
    rewrite dec3_lead by (Z.div_mod_to_equations; lia).
    by rewrite dec4_enc by lia.
Qed.

(** A cut inside the encoding of one code point leaves nothing. *)
Lemma decode_partial c n :
  scalar c = true → (n < length (enc1 c))%nat →
  decode_ignore (take n (enc1 c)) = [].
Proof.
  intros Hc. unfold scalar in Hc. z_bool_hyps. unfold enc1.
  assert (∀ x, (128 + x mod 64 <? 128) = false) as Hcont
    by (intros; z_bool).
  assert (∀ x y, dec2 (128 + x mod 64) y = None) as Hc2
    by (intros; apply dec2_lead; left; Z.div_mod_to_equations; lia).
  destruct (c <? 128) eqn:E1.
  { intros Hn. by destruct n; [|simpl in Hn; lia]. }
  destruct (c <? 2048) eqn:E2; [|destruct (c <? 65536) eqn:E3]; z_bool_hyps;
    cbn [length]; intros Hn.
  - assert ((192 + c / 64 <? 128) = false) as Hb
      by (apply Z.ltb_ge; Z.div_mod_to_equations; lia).
    destruct n as [|[|n]]; cbn; rewrite ?Hb; [done..| lia].
  - assert ((224 + c / 4096 <? 128) = false) as Hb
      by (apply Z.ltb_ge; Z.div_mod_to_equations; lia).
    destruct n as [|[|[|n]]]; cbn [take decode_ignore];
      rewrite ?Hb, ?Hcont, ?dec2_lead by (Z.div_mod_to_equations; lia);
      [done.. | lia].
  - assert ((240 + c / 262144 <? 128) = false) as Hb
      by (apply Z.ltb_ge; Z.div_mod_to_equations; lia).
    destruct n as [|[|[|[|n]]]]; cbn [take decode_ignore];
      rewrite ?Hb, ?Hcont, ?dec2_lead, ?dec3_lead
        by (Z.div_mod_to_equations; lia); rewrite ?Hcont, ?Hc2; [done.. | lia].
Qed.

Definition utf8_len (s : pystr) : nat := length (s ≫= enc1).

Lemma utf8_len_cons c s : utf8_len (c :: s) = (length (enc1 c) + utf8_len s)%nat.
Proof. unfold utf8_len. simpl. by rewrite length_app. Qed.

Lemma utf8_len_app s t : utf8_len (s ++ t) = (utf8_len s + utf8_len t)%nat.
Proof. unfold utf8_len. by rewrite bind_app, length_app. Qed.

(** The longest prefix of [s] whose encoding has at most [n] bytes. *)
Fixpoint utf8_prefix (n : nat) (s : pystr) : pystr :=
  match s with
  | [] => []
  | c :: s' => if Nat.leb (length (enc1 c)) n
               then c :: utf8_prefix (n - length (enc1 c)) s' else []
  end.

(** Decoding the first [n] bytes of an encoding gives that prefix. *)
Lemma decode_take n s :
  forallb scalar s = true →
  decode_ignore (take n (s ≫= enc1)) = utf8_prefix n s.
Proof.
  revert n. induction s as [|c s IH]; intros n Hs; simpl in *.
  { by rewrite take_nil. }
  apply andb_true_iff in Hs as [Hc Hs]. rewrite take_app.
  destruct (Nat.leb_spec (length (enc1 c)) n) as [Hle|Hlt].
  - rewrite (take_ge (enc1 c)) by lia. rewrite decode_enc1 by done.
    by rewrite IH.
  - assert (n - length (enc1 c) = 0)%nat as -> by lia.
    rewrite take_0, app_nil_r. by apply decode_partial.
Qed.

Lemma utf8_prefix_prefix n s : utf8_prefix n s `prefix_of` s.
Proof.
  revert n. induction s as [|c s IH]; intros n; simpl; [done |].
  case_match; [by apply prefix_cons | apply prefix_nil].
Qed.

Lemma utf8_prefix_len n s : (utf8_len (utf8_prefix n s) ≤ n)%nat.
Proof.
  revert n. induction s as [|c s IH]; intros n; simpl; [unfold utf8_len; simpl; lia|].
  destruct (Nat.leb_spec (length (enc1 c)) n); [|unfold utf8_len; simpl; lia].
  rewrite utf8_len_cons. specialize (IH (n - length (enc1 c))%nat). lia.
Qed.

Lemma utf8_prefix_longest n s p :
  p `prefix_of` s → (utf8_len p ≤ n)%nat → p `prefix_of` utf8_prefix n s.
Proof.
  revert n p. induction s as [|c s IH]; intros n p Hp Hn; simpl.
  { by apply prefix_nil_inv in Hp as ->. }
  destruct p as [|d p]; [apply prefix_nil |].
  apply prefix_cons_inv_1 in Hp as Hd; subst d.
  apply prefix_cons_inv_2 in Hp. rewrite utf8_len_cons in Hn.
  destruct (Nat.leb_spec (length (enc1 c)) n); [|lia].
  apply prefix_cons, IH; [done | lia].
Qed.
