(* ===== verification/PyValue.v ===== *)
(** * Python values

    The dynamically typed values that configuration files, Meshtastic packets
    and Matrix events are made of, with the operations the program applies to
    them: truth, equality, [isinstance], [dict.get], [int()] and [float()].

    Dictionaries are association lists in insertion order with string keys.  A
    float is an exact rational, an infinity or NaN: rounding is not modelled,
    overflow of [float()] is.  An object of any other class is [VObj] with the
    class name; it is true and has no number value. *)

From Stdlib Require Import String QArith.
From stdpp Require Import base tactics list numbers.
From S2P Require Import Prelude PyStr.
#[local] Set Warnings "-register-all".
Open Scope Z_scope.

(** ** Exceptions and fallible code *)

Inductive pyexc :=
  | TypeError | ValueError | OverflowError | KeyError | AttributeError
  | IndexError | UnicodeEncodeError | OSError | RuntimeError (msg : pystr).

Inductive res (A : Type) := Ok (a : A) | Raise (e : pyexc).
Arguments Ok {A} _.
Arguments Raise {A} _.

Definition res_bind {A B} (m : res A) (f : A → res B) : res B :=
  match m with Ok a => f a | Raise e => Raise e end.

Declare Scope res_scope.
Delimit Scope res_scope with res.
Notation "'let!' x ':=' m 'in' k" := (res_bind m (λ x, k))
  (at level 10, x pattern, m at level 100, k at level 200) : res_scope.
Open Scope res_scope.

(** [try: m except (...): d] for the exceptions [p] accepts. *)
Definition catching {A} (p : pyexc → bool) (d : A) (m : res A) : res A :=
  match m with
  | Ok a => Ok a
  | Raise e => if p e then Ok d else Raise e
  end.

(** ** Values *)

Inductive pyfloat := FFin (q : Q) | FInf (negative : bool) | FNan.

Inductive seq_kind := KList | KTuple | KSet | KFrozenset.

Inductive pyval :=
  | VNone
  | VBool (b : bool)
  | VInt (z : Z)
  | VFloat (f : pyfloat)
  | VStr (s : pystr)
  | VBytes (b : list Z)
  | VSeq (k : seq_kind) (l : list pyval)
  | VDict (d : list (pystr * pyval))
  | VObj (class : pystr).

Abbreviation pydict := (list (pystr * pyval)).

(** ** Dictionaries *)

Fixpoint dget (d : pydict) (k : pystr) : option pyval :=
  match d with
  | [] => None
  | (k', v) :: d' => if str_eqb k' k then Some v else dget d' k
  end.

(** [d.get(k, dflt)] *)
Definition dget_or (d : pydict) (k : pystr) (dflt : pyval) : pyval :=
  default dflt (dget d k).
(** [d.get(k)] *)
Definition dget_none (d : pydict) (k : pystr) : pyval := dget_or d k VNone.
(** [k in d] *)
Definition dmem (d : pydict) (k : pystr) : bool :=
  match dget d k with Some _ => true | None => false end.
(** [d[k] = v] *)
Fixpoint dset (d : pydict) (k : pystr) (v : pyval) : pydict :=
  match d with
  | [] => [(k, v)]
  | (k', v') :: d' => if str_eqb k' k then (k', v) :: d' else (k', v') :: dset d' k v
  end.

Definition is_dict (v : pyval) : bool :=
  match v with VDict _ => true | _ => false end.
Definition is_str (v : pyval) : bool :=
  match v with VStr _ => true | _ => false end.
Definition is_bool (v : pyval) : bool :=
  match v with VBool _ => true | _ => false end.
(** [isinstance(v, int)]: a bool is an int. *)
Definition is_int (v : pyval) : bool :=
  match v with VInt _ | VBool _ => true | _ => false end.
Definition is_none (v : pyval) : bool :=
  match v with VNone => true | _ => false end.

(** [type(v).__name__] *)
Definition type_name (v : pyval) : pystr :=
  match v with
  | VNone => u "NoneType" | VBool _ => u "bool" | VInt _ => u "int"
  | VFloat _ => u "float" | VStr _ => u "str" | VBytes _ => u "bytes"
  | VSeq KList _ => u "list" | VSeq KTuple _ => u "tuple"
  | VSeq KSet _ => u "set" | VSeq KFrozenset _ => u "frozenset"
  | VDict _ => u "dict" | VObj c => c
  end.

(** [bool(v)] *)
Definition truthy (v : pyval) : bool :=
  match v with
  | VNone => false
  | VBool b => b
  | VInt z => negb (z =? 0)
  | VFloat (FFin q) => negb (Qeq_bool q 0)
  | VFloat _ => true
  | VStr s => nonempty s
  | VBytes b => nonempty b
  | VSeq _ l => match l with [] => false | _ => true end
  | VDict d => match d with [] => false | _ => true end
  | VObj _ => true
  end.

(** The number a bool, an int or a finite float compares as. *)
Definition num_value (v : pyval) : option Q :=
  match v with
  | VBool b => Some (if b then 1 else 0)%Q
  | VInt z => Some (inject_Z z)
  | VFloat (FFin q) => Some q
  | _ => None
  end.

(** [a == b].  Numbers compare by value across bool, int and float, sequences
    of one kind elementwise, dictionaries key by key. *)
Fixpoint py_eqb (a b : pyval) {struct a} : bool :=
  match num_value a, num_value b with
  | Some p, Some q => Qeq_bool p q
  | _, _ =>
      match a, b with
      | VNone, VNone => true
      | VFloat (FInf m), VFloat (FInf n) => Bool.eqb m n
      | VStr s, VStr t => str_eqb s t
      | VBytes s, VBytes t => str_eqb s t
      | VSeq KList l, VSeq KList m | VSeq KTuple l, VSeq KTuple m =>
          (fix go (l m : list pyval) : bool :=
             match l, m with
             | [], [] => true
             | x :: l, y :: m => py_eqb x y && go l m
             | _, _ => false
             end) l m
      | VDict d, VDict e =>
          Nat.eqb (length d) (length e) &&
          forallb (λ '(k, v), match dget e k with
                              | Some w => py_eqb v w
                              | None => false
                              end) d
      | _, _ => false
      end
  end.

(** ** [int()] and [float()] *)

(** Smallest magnitude that no binary64 number is nearest to. *)
Definition float_limit : Z := 2 ^ 1024 - 2 ^ 970.

Definition float_of_int (z : Z) : res pyfloat :=
  if float_limit <=? Z.abs z then Raise OverflowError
  else Ok (FFin (inject_Z z)).

Definition int_of_val (v : pyval) : res Z :=
  match v with
  | VBool b => Ok (if b then 1 else 0)
  | VInt z => Ok z
  | VFloat (FFin q) => Ok (Z.quot (Qnum q) (Zpos (Qden q)))
  | VFloat (FInf _) => Raise OverflowError
  | VFloat FNan => Raise ValueError
  | VStr s => match int_of_str s with Some z => Ok z | None => Raise ValueError end
  | VBytes b =>
      if forallb (λ c, c <? 128) b then
        match int_of_str b with Some z => Ok z | None => Raise ValueError end
      else Raise ValueError
  | _ => Raise TypeError
  end.

(** A run of decimal digits with single underscores between them: its value,
    its number of digits and the rest of the string. *)
Fixpoint scan_digits (acc n : Z) (s : pystr) : Z * Z * pystr :=
  match s with
  | [] => (acc, n, [])
  | c :: s' =>
      match digit_value c with
      | Some d => scan_digits (10 * acc + d) (n + 1) s'
      | None =>
          match (c =? 95) && (0 <? n), s' with
          | true, c2 :: s'' =>
              match digit_value c2 with
              | Some d => scan_digits (10 * acc + d) (n + 1) s''
              | None => (acc, n, s)
              end
          | _, _ => (acc, n, s)
          end
      end
  end.

(** Signed exponent of a float literal. *)
Definition scan_exponent (s : pystr) : option Z :=
  match s with
  | [] => Some 0
  | c :: s' =>
      if (c =? 101) || (c =? 69) then
        let '(sg, s1) := match s' with
                         | 45 :: t => (-1, t)
                         | 43 :: t => (1, t)
                         | t => (1, t)
                         end in
        match scan_digits 0 0 s1 with
        | (e, n, []) => if 0 <? n then Some (sg * e) else None
        | _ => None
        end
      else None
  end.

Definition pow10 (e : Z) : Q :=
  if 0 <=? e then inject_Z (10 ^ e) else 1 # Z.to_pos (10 ^ (- e)).

(** Unsigned part of a float literal. *)
Definition parse_decimal (s : pystr) : option Q :=
  let '(ip, n, s1) := scan_digits 0 0 s in
  let '(mant, frac, total, s2) :=
    match s1 with
    | 46 :: t =>
        (* the point ends the run: underscores may not touch it *)
        match t with
        | 95 :: _ => (ip, 0, 0, s1)
        | _ => let '(m, k, r) := scan_digits ip 0 t in (m, k, n + k, r)
        end
    | _ => (ip, 0, n, s1)
    end in
  if 0 <? total then
    match scan_exponent s2 with
    | Some e => Some (inject_Z mant * pow10 (e - frac))%Q
    | None => None
    end
  else None.

Definition round_inf (neg : bool) (q : Q) : pyfloat :=
  if Qle_bool (inject_Z float_limit) q then FInf neg
  else FFin (if neg then - q else q)%Q.

Definition float_of_str (s : pystr) : option pyfloat :=
  let '(neg, t) := match strip s with
                   | 45 :: t => (true, t)
                   | 43 :: t => (false, t)
                   | t => (false, t)
                   end in
  let w := lower t in
  if str_eqb w (u "inf") || str_eqb w (u "infinity") then Some (FInf neg)
  else if str_eqb w (u "nan") then Some FNan
  else round_inf neg <$> parse_decimal t.

Definition float_of_val (v : pyval) : res pyfloat :=
  match v with
  | VBool b => Ok (FFin (if b then 1 else 0))
  | VInt z => float_of_int z
  | VFloat f => Ok f
  | VStr s => match float_of_str s with
              | Some f => Ok f
              | None => Raise ValueError
              end
  | VBytes b =>
      if forallb (λ c, c <? 128) b then
        match float_of_str b with Some f => Ok f | None => Raise ValueError end
      else Raise ValueError
  | _ => Raise TypeError
  end.

(** [math.isfinite(f)], and [f > 0], [f < 0] *)
Definition isfinite (f : pyfloat) : bool :=
  match f with FFin _ => true | _ => false end.
Definition fpos (f : pyfloat) : bool :=
  match f with FFin q => qlt 0 q | FInf neg => negb neg | FNan => false end.
Definition fneg (f : pyfloat) : bool :=
  match f with FFin q => qlt q 0 | FInf neg => neg | FNan => false end.

(** ** Lemmas *)

Lemma Ok_inj {A} (a b : A) : Ok a = Ok b → a = b.
Proof. by intros [= ->]. Qed.

Lemma dget_dset_eq d k v : dget (dset d k v) k = Some v.
Proof.
  induction d as [|[k' w] d IH]; simpl; [by rewrite str_eqb_refl|].
  destruct (str_eqb k' k) eqn:E; simpl; by rewrite E.
Qed.

Lemma dget_dset_ne d k k' v : k ≠ k' → dget (dset d k v) k' = dget d k'.
Proof.
  intros Hne. induction d as [|[j w] d IH]; simpl.
  - destruct (str_eqb k k') eqn:E; [by apply str_eqb_spec in E | done].
  - destruct (str_eqb j k) eqn:E; simpl.
    + apply str_eqb_spec in E as ->.
      destruct (str_eqb k k') eqn:E; [by apply str_eqb_spec in E | done].
    + by rewrite IH.
Qed.

(** Comparison with a string only holds for that string. *)
Lemma py_eqb_str v s : py_eqb v (VStr s) = true ↔ v = VStr s.
Proof.
  split.
  - destruct v as [|b|z|[q|n|]|t|b|[] l|d|c]; try done.
    simpl. by intros ->%str_eqb_spec.
  - intros ->. apply str_eqb_refl.
Qed.

Lemma py_eqb_int v z : py_eqb v (VInt z) = true ↔
  ∃ q, num_value v = Some q ∧ Qeq q (inject_Z z).
Proof.
  destruct v as [|b|y|[q|n|]|t|b|[] l|d|c]; simpl;
    try (split; [done | by intros (? & ? & ?)]).
  all: rewrite Qeq_bool_iff; split; [eauto | by intros (? & [= <-] & ?)].
Qed.
