(* ===== verification/Coerce.v ===== *)
(** * Coercions of runtime values

    Models the coercion helpers of [src/mmrelay/meshtastic/async_utils.py] and
    [_normalize_room_channel] of [meshtastic/messaging.py].  Each returns what
    the source returns and raises what it lets through: the handlers catch a
    named set of exceptions, and the rest propagates. *)

From Stdlib Require Import String QArith Lqa.
From stdpp Require Import base tactics list numbers.
From S2P Require Import Prelude PyStr PyValue.
Open Scope Z_scope.

(** ** Operations *)

Definition is_type_or_value (e : pyexc) : bool :=
  match e with TypeError | ValueError => true | _ => false end.
Definition is_type_value_or_overflow (e : pyexc) : bool :=
  match e with TypeError | ValueError | OverflowError => true | _ => false end.

Definition _coerce_nonnegative_float (value : pyval) (dflt : Q) : res Q :=
  catching is_type_value_or_overflow dflt
    (if is_bool value then Raise TypeError else
     let! parsed := float_of_val value in
     match parsed with
     | FFin q => if fneg parsed then Raise ValueError else Ok q
     | _ => Raise ValueError
     end).

Definition _coerce_positive_int (value : pyval) (dflt : Z) : res Z :=
  catching is_type_value_or_overflow dflt
    (if is_bool value then Raise TypeError else
     let! parsed := int_of_val value in
     if parsed <=? 0 then Raise ValueError else Ok parsed).

Definition _coerce_positive_int_id (raw_value : pyval) : res (option Z) :=
  match int_of_val raw_value with
  | Ok parsed => Ok (if 0 <? parsed then Some parsed else None)
  | Raise e => if is_type_or_value e then Ok None else Raise e
  end.

Definition _coerce_int_id (raw_value : pyval) : res (option Z) :=
  match int_of_val raw_value with
  | Ok parsed => Ok (Some parsed)
  | Raise e => if is_type_or_value e then Ok None else Raise e
  end.

(** The flag tells whether the warning is logged. *)
Definition _coerce_positive_float (value : pyval) (dflt : Q) : res (Q * bool) :=
  catching is_type_value_or_overflow (dflt, true)
    (if is_bool value then Raise TypeError else
     let! parsed := float_of_val value in
     match parsed with
     | FFin q => if qlt 0 q then Ok (q, false) else Ok (dflt, true)
     | _ => Ok (dflt, true)
     end).

Definition _coerce_bool (value : pyval) (dflt : bool) : bool :=
  match value with
  | VBool b => b
  | VStr s =>
      let normalized := lower (strip s) in
      if existsb (str_eqb normalized) [u "1"; u "true"; u "yes"; u "on"] then true
      else if existsb (str_eqb normalized)
                [[]; u "0"; u "false"; u "no"; u "off"] then false
      else dflt
  | VInt _ | VFloat _ => truthy value
  | _ => dflt
  end.

(** [_normalize_room_channel]: the channel of a room configuration. *)
Definition _normalize_room_channel (room : pydict) : res (option Z) :=
  let room_channel := dget_none room (u "meshtastic_channel") in
  if is_none room_channel then Ok None else
  match int_of_val room_channel with
  | Ok z => Ok (Some z)
  | Raise e => if is_type_or_value e then Ok None else Raise e
  end.

(** ** Lemmas *)

Lemma int_of_val_raises v e :
  int_of_val v = Raise e →
  e = TypeError ∨ e = ValueError ∨ (e = OverflowError ∧ ∃ neg, v = VFloat (FInf neg)).
Proof.
  destruct v as [|b|z|[q|neg|]|s|b|k l|d|c]; cbn [int_of_val]; intros; split_ifs;
    eauto 10.
Qed.

Lemma float_of_val_raises v e :
  float_of_val v = Raise e →
  e = TypeError ∨ e = ValueError ∨
  (e = OverflowError ∧ ∃ z, v = VInt z ∧ float_limit ≤ Z.abs z).
Proof.
  destruct v as [|b|z|f|s|b|k l|d|c]; cbn [float_of_val]; unfold float_of_int;
    intros; split_ifs; z_bool_hyps; eauto 10.
Qed.

Lemma catching_total {A} (p : pyexc → bool) (d : A) m :
  (∀ e, m = Raise e → p e = true) → ∃ a, catching p d m = Ok a.
Proof. destruct m as [a|e]; intros H; simpl; [eauto | by rewrite H; eauto]. Qed.

Lemma int_of_val_caught v e :
  int_of_val v = Raise e → is_type_value_or_overflow e = true.
Proof. intros [-> | [-> | [-> _]]]%int_of_val_raises; done. Qed.

Lemma float_of_val_caught v e :
  float_of_val v = Raise e → is_type_value_or_overflow e = true.
Proof. intros [-> | [-> | [-> _]]]%float_of_val_raises; done. Qed.

(** An identifier coercion raises on an infinite float and on nothing else. *)
Lemma coerce_id_raises v e :
  _coerce_positive_int_id v = Raise e ∨ _coerce_int_id v = Raise e →
  e = OverflowError ∧ ∃ neg, v = VFloat (FInf neg).
Proof.
  unfold _coerce_positive_int_id, _coerce_int_id.
  destruct (int_of_val v) as [z|e'] eqn:E; [by intros [?|?]; simplify_eq |].
  apply int_of_val_raises in E as [-> | [-> | [-> ?]]]; simpl;
    intros [?|?]; by simplify_eq.
Qed.

Lemma coerce_positive_int_id_pos v z :
  _coerce_positive_int_id v = Ok (Some z) → 0 < z.
Proof.
  unfold _coerce_positive_int_id. intros. split_ifs. by z_bool_hyps.
Qed.

(** ** Properties *)

(** The tuning coercions let no exception through, whatever value the
    configuration holds, and with a default in range the result is in range:
    not negative, positive, and finite. *)
Theorem coercions_total_in_range (value : pyval) (qd pd : Q) (zd : Z) :
  (0 <= qd)%Q → (0 < pd)%Q → 0 < zd →
  (∃ q, _coerce_nonnegative_float value qd = Ok q ∧ (0 <= q)%Q) ∧
  (∃ z, _coerce_positive_int value zd = Ok z ∧ 0 < z) ∧
  (∃ q w, _coerce_positive_float value pd = Ok (q, w) ∧ (0 < q)%Q ∧ (w = true → q = pd)).
Proof.
  intros Hq Hp Hz. split_and!.
  - unfold _coerce_nonnegative_float. destruct (is_bool value); [by eexists |].
    destruct (float_of_val value) as [f|e] eqn:E; simpl.
    + destruct f as [q| |]; [|by eexists..]. unfold fneg. destruct (qlt q 0) eqn:Eq; simpl;
        eexists; (split; [done |]); [done | q_bool; lra].
    + apply float_of_val_caught in E. rewrite E. by eexists.
  - unfold _coerce_positive_int. destruct (is_bool value); [by eexists |].
    destruct (int_of_val value) as [z|e] eqn:E; simpl.
    + destruct (z <=? 0) eqn:Ez; z_bool_hyps; simpl; eexists; split; done.
    + apply int_of_val_caught in E. rewrite E. by eexists.
  - unfold _coerce_positive_float. destruct (is_bool value); [by repeat eexists |].
    destruct (float_of_val value) as [f|e] eqn:E; simpl.
    + destruct f as [q| |]; [|by repeat eexists..]. destruct (qlt 0 q) eqn:Eq; simpl;
        do 2 eexists; (split; [done |]); [q_bool | done]. done.
    + apply float_of_val_caught in E. rewrite E. by repeat eexists.
Qed.

(** The identifier coercions return a value or None for everything but an
    infinite float, on which OverflowError escapes; an identifier they call
    positive is. *)
Theorem coerce_id_only_overflow v :
  ((∃ e, _coerce_int_id v = Raise e) ↔ ∃ neg, v = VFloat (FInf neg)) ∧
  (∀ e, _coerce_int_id v = Raise e ∨ _coerce_positive_int_id v = Raise e →
     e = OverflowError) ∧
  (∀ z, _coerce_positive_int_id v = Ok (Some z) → 0 < z).
Proof.
  split_and!.
  - split; [|intros [neg ->]; by eexists]. intros [e He].
    destruct (coerce_id_raises v e) as [_ H]; auto.
  - intros e He. destruct (coerce_id_raises v e) as [H _]; [tauto | done].
  - apply coerce_positive_int_id_pos.
Qed.

Lemma coercions_total_in_range_witness :
  ∃ z, _coerce_positive_int (VFloat (FInf false)) 3 = Ok z ∧ 0 < z.
Proof.
  refine (proj1 (proj2 (coercions_total_in_range (VFloat (FInf false)) 0 1 3 _ _ _)));
    [discriminate | reflexivity | reflexivity].
Defined.
