(* ===== verification/Settings.v ===== *)
(** * Settings read from the configuration

    Models [get_meshtastic_config_value] of [src/mmrelay/config.py], the
    settings helpers of [src/mmrelay/matrix/prefixes.py]
    ([get_interaction_settings], [message_storage_enabled],
    [_get_msgs_to_keep_config], [_first_nonblank_str],
    [_can_auto_create_credentials]) and [_resolve_plugin_timeout] of
    [meshtastic/plugins.py]. *)

From Stdlib Require Import String QArith.
From stdpp Require Import base tactics list numbers.
From S2P Require Import Prelude PyStr PyValue Coerce.
Open Scope Z_scope.

Definition DEFAULT_MSGS_TO_KEEP : Z := 500.
Definition DEFAULT_PLUGIN_TIMEOUT_SECS : Q := 5.

(** ** Operations *)

Definition get_meshtastic_config_value
    (config : pyval) (key : pystr) (dflt : pyval) (required : bool)
    : res pyval :=
  let section :=
    match config with
    | VDict c => dget_or c (u "meshtastic") (VDict [])
    | _ => VDict []
    end in
  let section := match section with VDict s => s | _ => [] end in
  match dget section key with
  | Some v => Ok v
  | None => if required then Raise KeyError else Ok dflt
  end.

(** The optional form, [required=False]. *)
Definition meshtastic_value (config : pyval) (key : pystr) (dflt : pyval) : pyval :=
  match get_meshtastic_config_value config key dflt false with
  | Ok v => v
  | Raise _ => dflt
  end.

Record interactions := { reactions : bool; replies : bool }.

Definition get_interaction_settings (config : pyval) : interactions :=
  let off := {| reactions := false; replies := false |} in
  match config with
  | VDict c =>
      match dget_or c (u "meshtastic") (VDict []) with
      | VDict m =>
          match dget_none m (u "message_interactions") with
          | VNone =>
              match dget m (u "relay_reactions") with
              | Some (VBool b) => {| reactions := b; replies := false |}
              | Some _ | None => off
              end
          | VDict i =>
              let flag k := match dget_or i k (VBool false) with
                            | VBool b => b
                            | _ => false
                            end in
              {| reactions := flag (u "reactions"); replies := flag (u "replies") |}
          | _ => off
          end
      | _ => off
      end
  | _ => off
  end.

Definition message_storage_enabled (i : interactions) : bool :=
  reactions i || replies i.

(** [msg_map] of a configuration section, when both are dictionaries. *)
Definition get_msg_map_config (section : pyval) : option pydict :=
  match section with
  | VDict s => match dget_none s (u "msg_map") with
               | VDict m => Some m
               | _ => None
               end
  | _ => None
  end.

(** [module_config] is the module-level configuration, consulted when there is
    no override. *)
Definition _get_msgs_to_keep_config (module_config config_override : pyval) : Z :=
  let effective_config :=
    if is_none config_override then module_config else config_override in
  match effective_config with
  | VDict ((_ :: _) as c) =>
      let msg_map_config :=
        match get_msg_map_config (dget_none c (u "database")) with
        | Some m => m
        | None => default [] (get_msg_map_config (dget_none c (u "db")))
        end in
      match dget_or msg_map_config (u "msgs_to_keep")
              (VInt DEFAULT_MSGS_TO_KEEP) with
      | VInt n => n
      | _ => DEFAULT_MSGS_TO_KEEP
      end
  | _ => DEFAULT_MSGS_TO_KEEP
  end.

Definition _first_nonblank_str (values : list pyval) : option pystr :=
  first_some (λ v, match v with
                   | VStr s => let stripped := strip s in
                               if nonempty stripped then Some stripped else None
                   | _ => None
                   end) values.

Definition _can_auto_create_credentials (matrix_config : pyval) : bool :=
  match matrix_config with
  | VDict c =>
      let homeserver := dget_none c (u "homeserver") in
      let user := match _first_nonblank_str [dget_none c (u "bot_user_id");
                                             dget_none c (u "user_id")] with
                  | Some s => VStr s
                  | None => VNone
                  end in
      let password := dget_none c (u "password") in
      forallb (λ v, match v with VStr s => nonempty (strip s) | _ => false end)
        [homeserver; user; password]
  | _ => false
  end.

(** [cfg.get("meshtastic", {}).get("plugin_timeout", default)] raises
    AttributeError on a section that is not a dictionary. *)
Definition _resolve_plugin_timeout (cfg : pyval) (dflt : Q) : res Q :=
  let raw_value :=
    match cfg with
    | VDict c => match dget_or c (u "meshtastic") (VDict []) with
                 | VDict m => dget_or m (u "plugin_timeout") (VFloat (FFin dflt))
                 | _ => VFloat (FFin dflt)
                 end
    | _ => VFloat (FFin dflt)
    end in
  catching is_type_value_or_overflow dflt
    (if is_bool raw_value then Raise TypeError else
     let! timeout := float_of_val raw_value in
     match timeout with
     | FFin q => if qlt 0 q then Ok q else Ok dflt
     | _ => Ok dflt
     end).

(** ** Properties of the settings *)

Lemma meshtastic_value_dflt config key dflt :
  (∀ c m, config = VDict c → dget_none c (u "meshtastic") = VDict m →
          dget m key = None) →
  meshtastic_value config key dflt = dflt.
Proof.
  intros H. unfold meshtastic_value, get_meshtastic_config_value.
  destruct config as [| | | | | | |c|]; try done.
  specialize (H c). unfold dget_none, dget_or in *.
  destruct (dget c (u "meshtastic")) as [[| | | | | | |m|]|]; simpl in *; try done.
  by rewrite (H m).
Qed.

Lemma first_nonblank_spec values s :
  _first_nonblank_str values = Some s → s ≠ [] ∧ strip s = s.
Proof.
  unfold _first_nonblank_str. intros (l1 & x & l2 & -> & Hx & _)%first_some_Some.
  destruct x; try done. split_ifs. split; [by apply nonempty_spec|].
  apply strip_idemp.
Qed.

(** Privacy by default: reactions are relayed only where the configuration
    holds the boolean True for them under [message_interactions], or, when that
    key is absent or None, under the deprecated [relay_reactions]; replies only
    where it holds True under [message_interactions].  Otherwise, malformed
    values included, nothing is stored. *)
Theorem interactions_opt_in config :
  (reactions (get_interaction_settings config) = true ↔
   ∃ c m, config = VDict c ∧ dget c (u "meshtastic") = Some (VDict m) ∧
     ((∃ i, dget m (u "message_interactions") = Some (VDict i) ∧
            dget i (u "reactions") = Some (VBool true)) ∨
      dget_none m (u "message_interactions") = VNone ∧
      dget m (u "relay_reactions") = Some (VBool true))) ∧
  (replies (get_interaction_settings config) = true ↔
   ∃ c m i, config = VDict c ∧ dget c (u "meshtastic") = Some (VDict m) ∧
     dget m (u "message_interactions") = Some (VDict i) ∧
     dget i (u "replies") = Some (VBool true)) ∧
  (message_storage_enabled (get_interaction_settings config) = true ↔
   reactions (get_interaction_settings config) = true ∨
   replies (get_interaction_settings config) = true).
Proof.
  split_and!; [| | apply orb_true_iff].
  - unfold get_interaction_settings, dget_none, dget_or. split.
    + destruct config as [| | | | | | |c|]; try done.
      destruct (dget c (u "meshtastic")) as [[| | | | | | |m|]|] eqn:Em;
        cbn [default from_option id]; try done.
      destruct (dget m (u "message_interactions")) as [[| | | | | | |i|]|] eqn:Ei;
        cbn [default from_option id reactions]; try done.
      1, 3: destruct (dget m (u "relay_reactions")) as [[| | | | | | | |]|] eqn:Er;
        try done; cbn; intros ->; exists c, m; rewrite Ei; cbn; auto 10.
      destruct (dget i (u "reactions")) as [[| | | | | | | |]|] eqn:E; try done;
        cbn; intros ->; eauto 10.
    + intros (c & m & -> & Hm & H). rewrite Hm. cbn [default from_option id].
      destruct H as [(i & Hi & E) | [E1 E2]].
      * rewrite Hi. cbn. by rewrite E.
      * destruct (dget m (u "message_interactions")) as [v|];
          cbn [default from_option id] in *; [subst v|]; cbn; by rewrite E2.
  - unfold get_interaction_settings, dget_none, dget_or. split.
    + destruct config as [| | | | | | |c|]; try done.
      destruct (dget c (u "meshtastic")) as [[| | | | | | |m|]|] eqn:Em;
        cbn [default from_option id]; try done.
      destruct (dget m (u "message_interactions")) as [[| | | | | | |i|]|] eqn:Ei;
        cbn [default from_option id replies]; try done.
      1, 3: destruct (dget m (u "relay_reactions")) as [[| | | | | | | |]|]; done.
      destruct (dget i (u "replies")) as [[| | | | | | | |]|] eqn:E; try done;
        cbn; intros ->; eauto 10.
    + intros (c & m & i & -> & Hm & Hi & E). rewrite Hm. cbn [default from_option id].
      rewrite Hi. cbn. by rewrite E.
Qed.
