(* ===== verification/PacketRouting.v ===== *)
(** * Packet routing policy

    Models [src/mmrelay/meshtastic/packet_routing.py]: how an inbound packet is
    classified as relayed, handed to plugins only, or dropped, and the
    warn-once state its configuration readers keep.

    [PortNum_Name] is [portnums_pb2.PortNum.Name] of the Meshtastic protobuf
    package: [None] where it raises ValueError. *)

From Stdlib Require Import String QArith.
From stdpp Require Import base tactics list numbers gmap sets.
From S2P Require Import Prelude PyStr PyValue Settings.
Open Scope Z_scope.

Definition TEXT_MESSAGE_APP : pystr := u "TEXT_MESSAGE_APP".
Definition DETECTION_SENSOR_APP : pystr := u "DETECTION_SENSOR_APP".
Definition PORTNUM_TEXT_MESSAGE_APP : Z := 1.
Definition PORTNUM_DETECTION_SENSOR_APP : Z := 10.
Definition CHAT_ELIGIBLE_PORTNUMS : gset pystr := {[ TEXT_MESSAGE_APP ]}.
Definition DEFAULT_DETECTION_SENSOR : bool := true.

Inductive PacketAction := RELAY | PLUGIN_ONLY | DROP.
Definition DEFAULT_ENCRYPTED_ACTION : PacketAction := PLUGIN_ONLY.

#[global] Instance PacketAction_eq_dec : EqDecision PacketAction.
Proof. solve_decision. Defined.

(** ** Warn-once state

    [_warned_packet_routing_issues] and the warnings logged so far. *)

Record warn_state := { warned : gset pystr; logged : list pystr }.

Definition no_warnings : warn_state := {| warned := ∅; logged := [] |}.

Definition _warn_once (key : pystr) (st : warn_state) : warn_state :=
  if bool_decide (key ∈ warned st) then st
  else {| warned := {[ key ]} ∪ warned st; logged := logged st ++ [key] |}.

(** The keys are unique and are those of the warnings logged. *)
Definition warn_ok (st : warn_state) : Prop :=
  NoDup (logged st) ∧ ∀ k, k ∈ warned st ↔ k ∈ logged st.

Section routing.
Context (PortNum_Name : Z → option pystr).

(** ** Port names *)

Definition _get_portnum_name (portnum : pyval) (packet : option pydict) : pystr :=
  match portnum with
  | VNone =>
      match packet with
      | Some p => if truthy (dget_none p (u "encrypted")) then u "ENCRYPTED"
                  else u "UNKNOWN (None)"
      | None => u "UNKNOWN (None)"
      end
  | VStr s => if nonempty s then s else u "UNKNOWN (empty string)"
  | VInt n =>
      match PortNum_Name n with
      | Some name => if nonempty name then name
                     else u "UNKNOWN (portnum=" ++ str_of_int n ++ u ")"
      | None => u "UNKNOWN (portnum=" ++ str_of_int n ++ u ")"
      end
  | v => u "UNKNOWN (type=" ++ type_name v ++ u ")"
  end.

(** [portnum in (number, name)] *)
Definition portnum_in (portnum : pyval) (number : Z) (name : pystr) : bool :=
  py_eqb portnum (VInt number) || py_eqb portnum (VStr name).

Definition _is_text_message_portnum (portnum : pyval) : bool :=
  portnum_in portnum PORTNUM_TEXT_MESSAGE_APP TEXT_MESSAGE_APP ||
  str_eqb (_get_portnum_name portnum None) TEXT_MESSAGE_APP.

Definition _is_encrypted_packet (packet : option pydict) : bool :=
  match packet with
  | Some p => truthy (dget_none p (u "encrypted"))
  | None => false
  end.

(** ** Overrides of the configuration *)

(** One entry of a list of port numbers: the resolved name, or [None] when the
    entry is ignored. *)
Definition resolve_entry (entry : pyval) : option pystr :=
  let keep item :=
    let name := _get_portnum_name item None in
    if startswith name (u "UNKNOWN") then None else Some name in
  match entry with
  | VStr s => let s := strip s in if nonempty s then keep (VStr s) else None
  | item => keep item
  end.

Definition _resolve_portnum_set (portnums : pyval) (setting_name : pystr)
    (st : warn_state) : gset pystr * warn_state :=
  match portnums with
  | VNone => (∅, st)
  | VStr s =>
      let stripped := strip s in
      if nonempty stripped then ({[ stripped ]}, st)
      else (∅, _warn_once (setting_name ++ u ":empty_string") st)
  | VSeq _ l =>
      let names := resolve_entry <$> l in
      let dropped_invalid_value := existsb (λ n, bool_decide (n = None)) names in
      (list_to_set (omap id names),
       if dropped_invalid_value
       then _warn_once (setting_name ++ u ":invalid_entries") st else st)
  | _ => (∅, _warn_once (setting_name ++ u ":invalid_type") st)
  end.

(** The [packet_routing] section: [inl] the mapping, or [inr] whether the value
    in its place is reported as not a mapping. *)
Definition routing_section (config : pyval) : pydict + bool :=
  match config with
  | VDict c =>
      match dget_or c (u "meshtastic") (VDict []) with
      | VDict m =>
          match dget_or m (u "packet_routing") (VDict []) with
          | VDict r => inl r
          | _ => inr true
          end
      | _ => inr false
      end
  | _ => inr false
  end.

Definition _get_packet_routing_overrides (config : pyval) (st : warn_state)
    : gset pystr * gset pystr * warn_state :=
  match routing_section config with
  | inr reported =>
      (∅, ∅, if reported then _warn_once (u "packet_routing:not_a_mapping") st
             else st)
  | inl r =>
      let '(chat, st) := _resolve_portnum_set (dget_none r (u "chat_portnums"))
                           (u "chat_portnums") st in
      let '(disabled, st) := _resolve_portnum_set (dget_none r (u "disabled_portnums"))
                               (u "disabled_portnums") st in
      (chat, disabled, st)
  end.

Definition _get_encrypted_action (config : pyval) (st : warn_state)
    : PacketAction * warn_state :=
  match routing_section config with
  | inr reported =>
      (DEFAULT_ENCRYPTED_ACTION,
       if reported then _warn_once (u "encrypted_action:packet_routing_not_a_mapping") st
       else st)
  | inl r =>
      match dget_none r (u "encrypted_action") with
      | VNone => (DEFAULT_ENCRYPTED_ACTION, st)
      | VStr s =>
          let action := lower (strip s) in
          if str_eqb action (u "plugin_only") then (PLUGIN_ONLY, st)
          else if str_eqb action (u "drop") then (DROP, st)
          else (DEFAULT_ENCRYPTED_ACTION,
                _warn_once (u "encrypted_action:invalid_value") st)
      | _ => (DEFAULT_ENCRYPTED_ACTION,
              _warn_once (u "encrypted_action:invalid_type") st)
      end
  end.

(** ** Classification *)

Definition detection_sensor_enabled (config : pyval) : bool :=
  truthy (meshtastic_value config (u "detection_sensor")
            (VBool DEFAULT_DETECTION_SENSOR)).

Definition classify_packet (portnum config : pyval) (packet : option pydict)
    (st : warn_state) : PacketAction * warn_state :=
  if _is_encrypted_packet packet then _get_encrypted_action config st else
  let portnum_name := _get_portnum_name portnum packet in
  let '(chat_overrides, disabled_overrides, st) :=
    _get_packet_routing_overrides config st in
  if bool_decide (portnum_name ∈ disabled_overrides) then (DROP, st) else
  let is_detection_sensor :=
    portnum_in portnum PORTNUM_DETECTION_SENSOR_APP DETECTION_SENSOR_APP ||
    str_eqb portnum_name DETECTION_SENSOR_APP in
  let is_text_message :=
    portnum_in portnum PORTNUM_TEXT_MESSAGE_APP TEXT_MESSAGE_APP ||
    bool_decide (portnum_name ∈ CHAT_ELIGIBLE_PORTNUMS) in
  if bool_decide (portnum_name ∈ chat_overrides) then
    if is_detection_sensor && negb (detection_sensor_enabled config)
    then (PLUGIN_ONLY, st) else (RELAY, st)
  else if is_detection_sensor then
    (if detection_sensor_enabled config then RELAY else PLUGIN_ONLY, st)
  else if is_text_message then (RELAY, st)
  else (PLUGIN_ONLY, st).

(** ** Abstract policy

    What routing promises, without the configuration readers: the sets of
    promoted and disabled names, the kind of the port, the sensor switch and
    the policy for encrypted packets. *)

Inductive port_kind := TextPort | SensorPort | OtherPort.

Record policy := {
  pol_chat : gset pystr; pol_disabled : gset pystr;
  pol_sensor : bool; pol_encrypted : PacketAction }.

Definition policy_of (config : pyval) : policy :=
  let '(chat, disabled, _) := _get_packet_routing_overrides config no_warnings in
  {| pol_chat := chat; pol_disabled := disabled;
     pol_sensor := detection_sensor_enabled config;
     pol_encrypted := (_get_encrypted_action config no_warnings).1 |}.

Definition kind_of (portnum : pyval) (name : pystr) : port_kind :=
  if portnum_in portnum PORTNUM_DETECTION_SENSOR_APP DETECTION_SENSOR_APP ||
     str_eqb name DETECTION_SENSOR_APP then SensorPort
  else if portnum_in portnum PORTNUM_TEXT_MESSAGE_APP TEXT_MESSAGE_APP ||
          str_eqb name TEXT_MESSAGE_APP then TextPort
  else OtherPort.

(** Disabled names are dropped; a sensor port follows the sensor switch; any
    other port is relayed when it carries text or is promoted. *)
Definition decide_policy (p : policy) (encrypted : bool) (k : port_kind)
    (name : pystr) : PacketAction :=
  if encrypted then pol_encrypted p
  else if bool_decide (name ∈ pol_disabled p) then DROP
  else match k with
       | SensorPort => if pol_sensor p then RELAY else PLUGIN_ONLY
       | TextPort => RELAY
       | OtherPort => if bool_decide (name ∈ pol_chat p) then RELAY else PLUGIN_ONLY
       end.

(** ** Lemmas *)

Lemma warn_once_ok key st : warn_ok st → warn_ok (_warn_once key st).
Proof.
  intros [Hn Hk]. unfold _warn_once. case_bool_decide as Hin; [done |].
  split; simpl.
  - apply NoDup_app. split_and!; [done | | by apply NoDup_singleton].
    intros k Hk1. rewrite list_elem_of_singleton. intros ->. by apply Hin, Hk.
  - intros k. rewrite elem_of_union, elem_of_singleton, elem_of_app, Hk,
      list_elem_of_singleton. tauto.
Qed.

Lemma warn_once_mono key st : warned st ⊆ warned (_warn_once key st).
Proof. unfold _warn_once. case_bool_decide; simpl; set_solver. Qed.

Lemma warn_once_in key st : key ∈ warned (_warn_once key st).
Proof. unfold _warn_once. case_bool_decide; simpl; set_solver. Qed.

Lemma warn_once_again key st :
  key ∈ warned st → _warn_once key st = st.
Proof. unfold _warn_once. intros. by rewrite bool_decide_eq_true_2. Qed.

(** [reports f]: [f] only adds warnings, keeps the state well formed and its
    value does not depend on the warnings already given. *)
Definition reports {A} (f : warn_state → A * warn_state) : Prop :=
  (∀ st, warn_ok st → warn_ok (f st).2) ∧
  (∀ st, warned st ⊆ warned (f st).2) ∧
  (∀ st st', (f st).1 = (f st').1) ∧
  (∀ st st', warned (f st).2 ⊆ warned st' → (f st').2 = st').

Lemma reports_pure {A} (a : A) : reports (λ st, (a, st)).
Proof. by split_and!. Qed.

Lemma reports_warn {A} (a : A) key : reports (λ st, (a, _warn_once key st)).
Proof.
  split_and!; simpl; intros;
    [by apply warn_once_ok | apply warn_once_mono | done |].
  apply warn_once_again. pose proof (warn_once_in key st). set_solver.
Qed.

Lemma reports_bind {A B} (f : warn_state → A * warn_state)
    (g : A → warn_state → B * warn_state) :
  reports f → (∀ a, reports (g a)) →
  reports (λ st, let '(a, st) := f st in g a st).
Proof.
  intros (F1 & F2 & F3 & F4) G. split_and!.
  - intros st Hst. specialize (F1 st Hst). destruct (f st) as [a s].
    by apply (G a).
  - intros st. specialize (F2 st). destruct (f st) as [a s] eqn:E.
    destruct (G a) as (_ & G2 & _). specialize (G2 s). set_solver.
  - intros st st'. specialize (F3 st st').
    destruct (f st) as [a s], (f st') as [a' s']; simpl in *; subst.
    by apply (G a').
  - intros st st' Hsub. specialize (F3 st st'). specialize (F4 st st').
    destruct (f st) as [a s], (f st') as [a' s']; simpl in *; subst.
    destruct (G a') as (_ & G2 & _ & G4).
    assert (s' = st') as -> by (apply F4; specialize (G2 s); set_solver).
    by apply (G4 s).
Qed.

Lemma reports_resolve portnums name : reports (_resolve_portnum_set portnums name).
Proof.
  unfold _resolve_portnum_set.
  destruct portnums as [| | | |s| |k l| |];
    try apply reports_pure; try apply reports_warn.
  - destruct (nonempty (strip s)); [apply reports_pure | apply reports_warn].
  - destruct (existsb _ _); [apply reports_warn | apply reports_pure].
Qed.

Lemma reports_overrides config : reports (_get_packet_routing_overrides config).
Proof.
  unfold _get_packet_routing_overrides.
  destruct (routing_section config) as [r | []];
    [| apply reports_warn | apply reports_pure].
  apply reports_bind; [apply reports_resolve |]. intros chat.
  apply (reports_bind _ (λ d st, (chat, d, st))); [apply reports_resolve |].
  intros; apply reports_pure.
Qed.

Lemma reports_encrypted config : reports (_get_encrypted_action config).
Proof.
  unfold _get_encrypted_action.
  destruct (routing_section config) as [r | []];
    [| apply reports_warn | apply reports_pure].
  destruct (dget_none r _) as [| | | |s| | | |];
    try apply reports_pure; try apply reports_warn.
  repeat case_match; try apply reports_pure; apply reports_warn.
Qed.

Lemma classify_state portnum config packet st :
  (classify_packet portnum config packet st).2 =
  if _is_encrypted_packet packet then (_get_encrypted_action config st).2
  else (_get_packet_routing_overrides config st).2.
Proof.
  unfold classify_packet. destruct (_is_encrypted_packet packet); [done |].
  destruct (_get_packet_routing_overrides config st) as [[chat disabled] st'].
  by repeat case_match.
Qed.

Lemma encrypted_action_range config st :
  (_get_encrypted_action config st).1 = PLUGIN_ONLY ∨
  (_get_encrypted_action config st).1 = DROP.
Proof. unfold _get_encrypted_action. repeat case_match; eauto. Qed.

Lemma overrides_policy config st :
  (_get_packet_routing_overrides config st).1 =
  (pol_chat (policy_of config), pol_disabled (policy_of config)).
Proof.
  destruct (reports_overrides config) as (_ & _ & H & _).
  rewrite (H st no_warnings). unfold policy_of.
  by destruct (_get_packet_routing_overrides config no_warnings) as [[? ?] ?].
Qed.

(** A port is not of two kinds unless its number and its name disagree; the
    name of a port is then that of a string or a resolved number. *)
Lemma classify_decide portnum config packet st :
  (classify_packet portnum config packet st).1 =
  decide_policy (policy_of config) (_is_encrypted_packet packet)
    (kind_of portnum (_get_portnum_name portnum packet))
    (_get_portnum_name portnum packet).
Proof.
  unfold classify_packet, decide_policy.
  destruct (_is_encrypted_packet packet).
  { destruct (reports_encrypted config) as (_ & _ & H & _).
    rewrite (H st no_warnings). unfold policy_of.
    by destruct (_get_packet_routing_overrides config no_warnings) as [[? ?] ?]. }
  pose proof (overrides_policy config st) as Ho.
  assert (pol_sensor (policy_of config) = detection_sensor_enabled config) as ->.
  { unfold policy_of.
    by destruct (_get_packet_routing_overrides config no_warnings) as [[? ?] ?]. }
  destruct (_get_packet_routing_overrides config st) as [[chat disabled] st'].
  simpl in Ho. injection Ho as -> ->.
  set (name := _get_portnum_name portnum packet).
  case_bool_decide; [done |]. unfold kind_of.
  destruct (portnum_in portnum PORTNUM_DETECTION_SENSOR_APP _ || _);
    [by case_bool_decide; destruct (detection_sensor_enabled config) |].
  assert (bool_decide (name ∈ CHAT_ELIGIBLE_PORTNUMS) =
          str_eqb name TEXT_MESSAGE_APP) as ->.
  { unfold str_eqb, CHAT_ELIGIBLE_PORTNUMS. apply bool_decide_ext. set_solver. }
  destruct (portnum_in portnum PORTNUM_TEXT_MESSAGE_APP _ || _);
    by case_bool_decide.
Qed.

Lemma reports_classify portnum config packet :
  reports (classify_packet portnum config packet).
Proof.
  destruct (reports_overrides config) as (O1 & O2 & _ & O4).
  destruct (reports_encrypted config) as (E1 & E2 & _ & E4).
  split_and!; intros *; rewrite ?classify_decide, ?classify_state;
    destruct (_is_encrypted_packet packet); eauto.
Qed.

(** ** Properties *)

(** C3: refinement: whatever warnings were given before, the classifier returns
    what the abstract policy read from the configuration decides for the kind
    and the name of the port, and it keeps the warn-once state well formed. *)
Theorem classify_refines_policy portnum config packet st :
  (classify_packet portnum config packet st).1 =
  decide_policy (policy_of config) (_is_encrypted_packet packet)
    (kind_of portnum (_get_portnum_name portnum packet))
    (_get_portnum_name portnum packet) ∧
  (warn_ok st → warn_ok (classify_packet portnum config packet st).2).
Proof. split; [apply classify_decide | apply (reports_classify portnum config packet)]. Qed.

(** An encrypted packet is never relayed, whatever the configuration says. *)
Theorem encrypted_never_relayed portnum config packet st :
  _is_encrypted_packet packet = true →
  (classify_packet portnum config packet st).1 ≠ RELAY.
Proof.
  intros He. unfold classify_packet. rewrite He.
  destruct (encrypted_action_range config st) as [-> | ->]; done.
Qed.

(** A name listed in [disabled_portnums] is dropped even when it is also
    promoted to chat or is the port of text messages; a port that is relayed
    without being promoted carries text or sensor messages. *)
Theorem disabled_wins portnum config packet st :
  let name := _get_portnum_name portnum packet in
  let '(chat, disabled, _) := _get_packet_routing_overrides config st in
  let action := (classify_packet portnum config packet st).1 in
  _is_encrypted_packet packet = false →
  (name ∈ disabled → action = DROP) ∧
  (action = DROP → name ∈ disabled) ∧
  (action = RELAY → name ∈ chat ∨ kind_of portnum name ≠ OtherPort).
Proof.
  intros name. pose proof (overrides_policy config st) as Ho.
  destruct (_get_packet_routing_overrides config st) as [[chat disabled] st'].
  simpl in Ho. injection Ho as -> ->. intros action He. unfold action.
  rewrite classify_decide, He. fold name. unfold decide_policy.
  case_bool_decide as Hd; [by split_and!|].
  destruct (kind_of portnum name); [| destruct (pol_sensor _) |]; split_and!; try done; auto.
  all: case_bool_decide; auto; done.
Qed.

(** Each kind of configuration problem is reported at most once: the keys
    logged stay distinct, and classifying again with the same configuration
    logs nothing new and gives the same action. *)
Theorem warnings_once portnum config packet st :
  warn_ok st →
  let '(a, st1) := classify_packet portnum config packet st in
  NoDup (logged st1) ∧ classify_packet portnum config packet st1 = (a, st1).
Proof.
  intros Hst. destruct (reports_classify portnum config packet) as (R1 & _ & R3 & R4).
  specialize (R1 st Hst). specialize (R3 st). specialize (R4 st).
  destruct (classify_packet portnum config packet st) as [a st1]. simpl in *.
  split; [apply R1 |]. specialize (R3 st1). specialize (R4 st1 (reflexivity _)).
  destruct (classify_packet portnum config packet st1). simpl in *. by subst.
Qed.
End routing.

(** ** Witnesses *)

Definition demo_names (n : Z) : option pystr :=
  if n =? 1 then Some TEXT_MESSAGE_APP else None.

(** A configuration that disables and promotes the port of text messages, with
    an entry that resolves to nothing. *)
Definition demo_config : pyval :=
  VDict [(u "meshtastic", VDict [(u "packet_routing",
    VDict [(u "chat_portnums", VStr (u "TEXT_MESSAGE_APP"));
           (u "disabled_portnums", VSeq KList [VInt 1; VInt 99])])])].

Lemma encrypted_never_relayed_witness :
  (classify_packet demo_names (VInt 1) demo_config
     (Some [(u "encrypted", VStr (u "x"))]) no_warnings).1 ≠ RELAY.
Proof. apply encrypted_never_relayed. reflexivity. Defined.

Lemma disabled_wins_witness :
  (classify_packet demo_names (VInt 1) demo_config None no_warnings).1 = DROP.
Proof.
  refine (proj1 (disabled_wins demo_names (VInt 1) demo_config None no_warnings eq_refl) _).
  apply (bool_decide_unpack _). vm_compute. exact I.
Defined.

Lemma warnings_once_witness :
  warn_ok no_warnings ∧
  logged (classify_packet demo_names (VInt 1) demo_config None no_warnings).2
    = [u "disabled_portnums:invalid_entries"] ∧
  NoDup (logged (classify_packet demo_names (VInt 1) demo_config None no_warnings).2).
Proof.
  assert (warn_ok no_warnings) as H by (split; [constructor | set_solver]).
  split; [exact H | split; [vm_compute; reflexivity |]].
  pose proof (warnings_once demo_names (VInt 1) demo_config None no_warnings H) as Hw.
  destruct (classify_packet demo_names (VInt 1) demo_config None no_warnings).
  exact (proj1 Hw).
Defined.
