(* ===== verification/MessageMap.v ===== *)
(** * The message map

    Models the [message_map] table of [src/mmrelay/db_utils.py]: its static SQL
    statements as operations on the rows in [rowid] order, and the functions
    that store, look up, wipe and prune mappings.  SQLite gives a new row the
    rowid after the largest one in use and scans an equality on the indexed
    column in rowid order.  The argument [err] tells that the statement raised
    [sqlite3.Error]: the functions log it and go on.

    [MessageMapStore] is what the table promises to the queue, the relay and
    the reply handlers. *)

From Stdlib Require Import String Sorted.
From stdpp Require Import base tactics list numbers sets sorting.
From S2P Require Import Prelude PyStr.
Open Scope Z_scope.

(** ** The table *)

Record mapping := {
  mm_meshtastic_id : pystr;
  mm_matrix_event_id : pystr;
  mm_matrix_room_id : pystr;
  mm_text : pystr;
  mm_meshnet : option pystr }.

Record row := { rowid : Z; row_map : mapping }.

Abbreviation table := (list row).

(** Rowids ascend, and [matrix_event_id] is the primary key. *)
Definition table_ok (t : table) : Prop :=
  StronglySorted Z.lt (rowid <$> t) ∧
  NoDup ((λ r, mm_matrix_event_id (row_map r)) <$> t).

(** ** Statements *)

Definition event_is (e : pystr) (r : row) : bool :=
  str_eqb (mm_matrix_event_id (row_map r)) e.
Definition mesh_is (i : pystr) (r : row) : bool :=
  str_eqb (mm_meshtastic_id (row_map r)) i.

Definition next_rowid (t : table) : Z :=
  match last t with Some r => rowid r + 1 | None => 1 end.

(** [_UPSERT_MESSAGE_MAP_SQL] *)
Definition upsert (m : mapping) (t : table) : table :=
  if existsb (event_is (mm_matrix_event_id m)) t
  then (λ r, if event_is (mm_matrix_event_id m) r
             then {| rowid := rowid r; row_map := m |} else r) <$> t
  else t ++ [{| rowid := next_rowid t; row_map := m |}].

Definition select_first (p : row → bool) (t : table) : option mapping :=
  first_some (λ r, if p r then Some (row_map r) else None) t.

(** ** Functions of the module *)

(** An identifier is an integer or a string; [str(meshtastic_id)] *)
Definition id_key (i : Z + pystr) : pystr :=
  match i with inl z => str_of_int z | inr s => s end.

Definition _store_message_map_core (t : table) (meshtastic_id event room text : pystr)
    (meshnet : option pystr) : table :=
  upsert {| mm_meshtastic_id := meshtastic_id; mm_matrix_event_id := event;
            mm_matrix_room_id := room; mm_text := text; mm_meshnet := meshnet |} t.

Definition store_message_map (err : bool) (t : table) (meshtastic_id : Z + pystr)
    (event room text : pystr) (meshnet : option pystr) : table :=
  if err then t
  else _store_message_map_core t (id_key meshtastic_id) event room text meshnet.

(** The coroutine twin of [store_message_map]. *)
Definition async_store_message_map := store_message_map.

Definition get_message_map_by_meshtastic_id (err : bool) (t : table)
    (meshtastic_id : Z + pystr) : option (pystr * pystr * pystr * option pystr) :=
  if err then None
  else (λ m, (mm_matrix_event_id m, mm_matrix_room_id m, mm_text m, mm_meshnet m))
         <$> select_first (mesh_is (id_key meshtastic_id)) t.

Definition get_message_map_by_matrix_event_id (err : bool) (t : table)
    (event : pystr) : option (pystr * pystr * pystr * option pystr) :=
  if err then None
  else (λ m, (mm_meshtastic_id m, mm_matrix_room_id m, mm_text m, mm_meshnet m))
         <$> select_first (event_is event) t.

Definition wipe_message_map (err : bool) (t : table) : table :=
  if err then t else [].

(** The number of rows deleted and the table left. *)
Definition _prune_message_map_core (t : table) (msgs_to_keep : Z) : Z * table :=
  let total := Z.of_nat (length t) in
  if msgs_to_keep <? total then
    let to_delete := total - msgs_to_keep in
    (to_delete, drop (Z.to_nat to_delete) t)
  else (0, t).

Definition prune_message_map (err : bool) (t : table) (msgs_to_keep : Z) : table :=
  if err then t else (_prune_message_map_core t msgs_to_keep).2.

(** The coroutine twin of [prune_message_map]. *)
Definition async_prune_message_map := prune_message_map.

(** ** Contract *)

(** What the clients of the map rely on.  [mms_ok] is the store's invariant;
    [mms_size] counts its mappings. *)
Class MessageMapStore (T : Type) := {
  mms_ok : T → Prop;
  mms_size : T → Z;
  mms_put : mapping → T → T;
  mms_by_event : T → pystr → option mapping;
  mms_by_mesh : T → pystr → option mapping;
  mms_prune : Z → T → T;
  mms_put_ok m t : mms_ok t → mms_ok (mms_put m t);
  mms_prune_ok n t : mms_ok t → mms_ok (mms_prune n t);
  mms_put_get m t : mms_ok t →
    mms_by_event (mms_put m t) (mm_matrix_event_id m) = Some m;
  mms_put_other m t e : mms_ok t → mm_matrix_event_id m ≠ e →
    mms_by_event (mms_put m t) e = mms_by_event t e;
  mms_by_mesh_sound t i m : mms_ok t → mms_by_mesh t i = Some m →
    mm_meshtastic_id m = i ∧ mms_by_event t (mm_matrix_event_id m) = Some m;
  mms_prune_size n t : mms_ok t → 0 ≤ n → mms_size (mms_prune n t) ≤ n;
  mms_prune_sound n t e m : mms_ok t →
    mms_by_event (mms_prune n t) e = Some m → mms_by_event t e = Some m;
}.

(** ** Lemmas *)

Lemma event_is_spec e r :
  event_is e r = true ↔ mm_matrix_event_id (row_map r) = e.
Proof. apply str_eqb_spec. Qed.

Lemma select_first_Some p t m :
  select_first p t = Some m → ∃ r, r ∈ t ∧ p r = true ∧ row_map r = m.
Proof.
  unfold select_first. intros (l1 & r & l2 & -> & Hr & _)%first_some_Some.
  exists r. destruct (p r); [simplify_eq | done]. set_solver.
Qed.

Lemma select_first_None p t :
  select_first p t = None ↔ ∀ r, r ∈ t → p r = false.
Proof.
  unfold select_first. rewrite first_some_None.
  split; intros H r Hr; specialize (H r Hr); by destruct (p r).
Qed.

Lemma select_unique t e r :
  table_ok t → r ∈ t → mm_matrix_event_id (row_map r) = e →
  select_first (event_is e) t = Some (row_map r).
Proof.
  intros [_ Hnd] Hr He. destruct (select_first (event_is e) t) as [m|] eqn:E.
  - apply select_first_Some in E as (r' & Hr' & Hp & <-).
    apply event_is_spec in Hp. apply list_elem_of_lookup in Hr as [i Hi].
    apply list_elem_of_lookup in Hr' as [j Hj]. f_equal. f_equal.
    assert (i = j) as ->; [|by simplify_eq].
    apply (NoDup_lookup _ i j e Hnd); rewrite list_lookup_fmap;
      [rewrite Hi | rewrite Hj]; simpl; congruence.
  - rewrite select_first_None in E. specialize (E r Hr).
    apply event_is_spec in He. congruence.
Qed.

Lemma existsb_event e t :
  existsb (event_is e) t = true ↔
  e ∈ (λ r, mm_matrix_event_id (row_map r)) <$> t.
Proof.
  rewrite existsb_elem_of, list_elem_of_fmap. setoid_rewrite event_is_spec.
  split; intros (r & ? & ?); exists r; by split.
Qed.

Lemma upsert_rowids m t :
  rowid <$> upsert m t =
  if existsb (event_is (mm_matrix_event_id m)) t then rowid <$> t
  else (rowid <$> t) ++ [next_rowid t].
Proof.
  unfold upsert. case_match; [|by rewrite fmap_app].
  rewrite <- list_fmap_compose. apply list_fmap_ext. intros i r _. simpl.
  by case_match.
Qed.

Lemma upsert_events m t :
  (λ r, mm_matrix_event_id (row_map r)) <$> upsert m t =
  if existsb (event_is (mm_matrix_event_id m)) t
  then (λ r, mm_matrix_event_id (row_map r)) <$> t
  else ((λ r, mm_matrix_event_id (row_map r)) <$> t) ++ [mm_matrix_event_id m].
Proof.
  unfold upsert. case_match; [|by rewrite fmap_app].
  rewrite <- list_fmap_compose. apply list_fmap_ext. intros i r _. simpl.
  case_match eqn:E; [|done]. by apply event_is_spec in E.
Qed.

Lemma sorted_snoc (l : list Z) x :
  StronglySorted Z.lt l → (∀ y, last l = Some y → y < x) →
  StronglySorted Z.lt (l ++ [x]).
Proof.
  induction 1 as [|a l Hs IH Ha]; intros Hx; simpl.
  { constructor; constructor. }
  constructor.
  - apply IH. intros y Hy. apply Hx. destruct l; [done |]. by rewrite last_cons_cons.
  - apply Forall_app. split; [done |]. constructor; [|done].
    destruct l as [|b l]; [by apply Hx |].
    destruct (last (b :: l)) as [y|] eqn:Ey; [|by apply last_None in Ey].
    assert (y < x) by (apply Hx; by rewrite last_cons_cons).
    apply last_Some_elem_of in Ey. rewrite Forall_forall in Ha.
    specialize (Ha _ Ey). lia.
Qed.

Lemma upsert_ok m t : table_ok t → table_ok (upsert m t).
Proof.
  intros [Hs Hn]. split.
  - rewrite upsert_rowids. case_match; [done |]. apply sorted_snoc; [done |].
    intros y. unfold next_rowid. rewrite fmap_last.
    destruct (last t); [|done]. simpl. intros [= <-]. lia.
  - rewrite upsert_events. case_match eqn:E; [done |].
    apply NoDup_app. split_and!; [done | | by apply NoDup_singleton].
    intros e He. rewrite list_elem_of_singleton. intros ->.
    apply existsb_event in He. congruence.
Qed.

Lemma upsert_elem m t r :
  r ∈ upsert m t →
  row_map r = m ∨ (r ∈ t ∧ mm_matrix_event_id (row_map r) ≠ mm_matrix_event_id m).
Proof.
  unfold upsert. case_match eqn:Ex.
  - rewrite list_elem_of_fmap. intros (r' & -> & Hr').
    destruct (event_is _ r') eqn:E; [by left | right].
    split; [done |]. rewrite <- event_is_spec. congruence.
  - rewrite elem_of_app, list_elem_of_singleton. intros [Hr | ->]; [|by left].
    right. split; [done |]. intros He.
    assert (existsb (event_is (mm_matrix_event_id m)) t = true); [|congruence].
    apply existsb_event, list_elem_of_fmap. eauto.
Qed.

Lemma upsert_in m t : ∃ r, r ∈ upsert m t ∧ row_map r = m.
Proof.
  unfold upsert. case_match eqn:Ex.
  - apply existsb_elem_of in Ex as (r & Hr & He).
    exists {| rowid := rowid r; row_map := m |}. split; [|done].
    apply list_elem_of_fmap. exists r. by rewrite He.
  - exists {| rowid := next_rowid t; row_map := m |}. split; [|done]. apply elem_of_app. right.
    by apply list_elem_of_singleton.
Qed.

Lemma upsert_keeps m t r :
  r ∈ t → mm_matrix_event_id (row_map r) ≠ mm_matrix_event_id m → r ∈ upsert m t.
Proof.
  intros Hr Hne. unfold upsert. case_match.
  - apply list_elem_of_fmap. exists r. split; [|done].
    case_match eqn:E; [|done]. by apply event_is_spec in E.
  - apply elem_of_app. by left.
Qed.

Lemma upsert_length m t :
  length (upsert m t) =
  (length t + if existsb (event_is (mm_matrix_event_id m)) t then 0 else 1)%nat.
Proof.
  unfold upsert. case_match; [rewrite length_fmap; lia | by rewrite length_app].
Qed.

Lemma drop_ok n t : table_ok t → table_ok (drop n t).
Proof.
  intros [Hs Hn]. split.
  - rewrite fmap_drop. revert n. induction Hs as [|a l Hs' IH Ha]; intros [|n];
      simpl; try constructor; eauto.
  - rewrite fmap_drop. by eapply sublist_NoDup, sublist_drop.
Qed.

Lemma prune_length t n :
  0 ≤ n → Z.of_nat (length (_prune_message_map_core t n).2) = Z.min n (Z.of_nat (length t)).
Proof.
  intros Hn. unfold _prune_message_map_core. case_match eqn:E; z_bool_hyps; simpl.
  - rewrite length_drop. lia.
  - lia.
Qed.

Lemma prune_suffix t n :
  ∃ k, (_prune_message_map_core t n).2 = drop k t.
Proof. unfold _prune_message_map_core. case_match; [eauto | by exists 0%nat]. Qed.

Lemma prune_ok t n : table_ok t → table_ok (_prune_message_map_core t n).2.
Proof. destruct (prune_suffix t n) as [k ->]. apply drop_ok. Qed.

Lemma select_event_Some t e m :
  table_ok t → select_first (event_is e) t = Some m ↔
  ∃ r, r ∈ t ∧ row_map r = m ∧ mm_matrix_event_id m = e.
Proof.
  intros Hok. split.
  - intros (r & Hr & He & <-)%select_first_Some. apply event_is_spec in He. eauto.
  - intros (r & Hr & <- & He). by apply select_unique.
Qed.

#[export] Instance table_store : MessageMapStore table.
Proof.
  refine {| mms_ok := table_ok; mms_size t := Z.of_nat (length t);
            mms_put := upsert;
            mms_by_event t e := select_first (event_is e) t;
            mms_by_mesh t i := select_first (mesh_is i) t;
            mms_prune n t := (_prune_message_map_core t n).2 |}.
  - apply upsert_ok.
  - intros. by apply prune_ok.
  - intros m t Hok. destruct (upsert_in m t) as (r & Hr & Hm).
    apply select_event_Some; [by apply upsert_ok | eauto].
  - intros m t e Hok Hne. apply option_eq. intros m'.
    rewrite !select_event_Some by eauto using upsert_ok. split.
    + intros (r & Hr & <- & He).
      apply upsert_elem in Hr as [Hm | [Hr _]]; [congruence | eauto].
    + intros (r & Hr & <- & He). exists r. split; [|done].
      apply upsert_keeps; congruence.
  - intros t i m Hok (r & Hr & Hi & <-)%select_first_Some.
    apply str_eqb_spec in Hi. split; [done |]. apply select_event_Some; eauto.
  - intros n t _ Hn. rewrite prune_length; lia.
  - intros n t e m Hok. rewrite !select_event_Some by eauto using prune_ok.
    destruct (prune_suffix t n) as [k ->].
    intros (r & Hr & ? & ?). exists r. split; [|done].
    rewrite <- (take_drop k t). apply elem_of_app. by right.
Defined.

(** ** Properties *)

(** The statements the module runs on the table. *)
Inductive map_op :=
  | OpStore (err : bool) (id : Z + pystr) (event room text : pystr) (meshnet : option pystr)
  | OpPrune (err : bool) (keep : Z)
  | OpWipe (err : bool).

Definition run_op (o : map_op) (t : table) : table :=
  match o with
  | OpStore err id event room text meshnet =>
      store_message_map err t id event room text meshnet
  | OpPrune err keep => prune_message_map err t keep
  | OpWipe err => wipe_message_map err t
  end.

Lemma run_op_ok o t : table_ok t → table_ok (run_op o t).
Proof.
  intros H. destruct o as [[] | [] | []]; simpl; try done;
    [by apply upsert_ok | by apply prune_ok | by split; constructor].
Qed.

(** From the empty table, any sequence of stores, prunes and wipes, failed
    ones included, leaves a table with ascending rowids and one row per Matrix
    event. *)
Theorem map_ops_invariant ops : table_ok (foldl (λ t o, run_op o t) [] ops).
Proof.
  assert (table_ok []) as H by (split; constructor).
  revert H. generalize (@nil row). induction ops as [|o ops IH]; intros t H; [done |].
  simpl. by apply IH, run_op_ok.
Qed.

(** Storing a mapping and looking it up by its Matrix event gives it back, a
    later store for the same event replaces it without a second row, and the
    mappings of other events stay. *)
Theorem store_get_roundtrip t id event room text meshnet other :
  table_ok t →
  let t' := store_message_map false t id event room text meshnet in
  get_message_map_by_matrix_event_id false t' event =
    Some (id_key id, room, text, meshnet) ∧
  (other ≠ event →
   get_message_map_by_matrix_event_id false t' other =
   get_message_map_by_matrix_event_id false t other) ∧
  (is_Some (get_message_map_by_matrix_event_id false t event) → length t' = length t).
Proof.
  intros Hok t'. set (m := {| mm_meshtastic_id := id_key id; mm_matrix_event_id := event;
    mm_matrix_room_id := room; mm_text := text; mm_meshnet := meshnet |}).
  unfold get_message_map_by_matrix_event_id. change t' with (upsert m t). split_and!.
  - pose proof (mms_put_get m t Hok) as H. simpl in H. by rewrite H.
  - intros Ho. pose proof (mms_put_other m t other Hok) as H. simpl in H.
    by rewrite H.
  - rewrite fmap_is_Some. intros [m' (r & Hr & He & _)%select_first_Some].
    rewrite upsert_length. simpl.
    assert (existsb (event_is event) t = true) as -> by (apply existsb_elem_of; eauto). lia.
Qed.

(** Pruning keeps the newest rows: with [msgs_to_keep] not negative, the rows
    left are the last [min msgs_to_keep total] rows, the count returned is that
    of the rows deleted, and every row deleted is older than every row kept. *)
Theorem prune_keeps_newest t n :
  table_ok t → 0 ≤ n →
  let '(deleted, t') := _prune_message_map_core t n in
  ∃ old, t = old ++ t' ∧ Z.of_nat (length t') = Z.min n (Z.of_nat (length t)) ∧
    deleted = Z.of_nat (length old) ∧
    ∀ r r', r ∈ old → r' ∈ t' → rowid r < rowid r'.
Proof.
  intros [Hs _] Hn. pose proof (prune_length t n Hn) as Hl.
  unfold _prune_message_map_core in *. case_match eqn:E; z_bool_hyps; simpl in *.
  - exists (take (Z.to_nat (Z.of_nat (length t) - n)) t).
    split_and!; [by rewrite take_drop | done | rewrite length_take; lia |].
    rewrite <-(take_drop (Z.to_nat (Z.of_nat (length t) - n)) t) in Hs at 1.
    rewrite fmap_app in Hs. intros r r' Hr Hr'.
    eapply StronglySorted_app_1_elem_of; [exact Hs | |]; by apply list_elem_of_fmap_2.
  - exists []. split_and!; [done | lia | done |]. intros r r' Hr. by apply elem_of_nil in Hr.
Qed.

(** ** Witnesses *)

Definition demo_table : table :=
  foldl (λ t o, run_op o t) [] [
    OpStore false (inl 1) (u "$a") (u "!r") (u "one") None;
    OpStore false (inl 2) (u "$b") (u "!r") (u "two") None;
    OpStore false (inl 3) (u "$c") (u "!r") (u "three") None].

Lemma store_get_roundtrip_witness :
  table_ok demo_table ∧
  get_message_map_by_matrix_event_id false
    (store_message_map false demo_table (inl 9) (u "$b") (u "!q") (u "new") None) (u "$b")
    = Some (u "9", u "!q", u "new", None).
Proof.
  assert (table_ok demo_table) as H.
  { unfold demo_table. cbn [foldl]. repeat apply run_op_ok. split; constructor. }
  split; [exact H |].
  exact (proj1 (store_get_roundtrip demo_table (inl 9) (u "$b") (u "!q") (u "new") None [] H)).
Defined.

Lemma prune_keeps_newest_witness :
  let '(deleted, t') := _prune_message_map_core demo_table 2 in
  ∃ old, demo_table = old ++ t' ∧ Z.of_nat (length t') = 2.
Proof.
  assert (table_ok demo_table) as H.
  { unfold demo_table. cbn [foldl]. repeat apply run_op_ok. split; constructor. }
  destruct (prune_keeps_newest demo_table 2 H ltac:(lia)) as (old & H1 & H2 & _).
  exists old. split; [exact H1 | rewrite H2; vm_compute; reflexivity].
Defined.
