(* ===== verification/QueueState.v ===== *)
(** * Message queue: state and operations

    Models the class [MessageQueue] of [src/mmrelay/message_queue.py]: its
    fields as the record [mq], every method that runs under the lock as a
    function on it, and the coroutine [_process_queue] as the segments it runs
    between two awaits.  Waiting calls ([enqueue(wait=True)], [drain]) take the
    list of the states and clock readings they see each time they wake up.

    A closure to run ([send_function] with its arguments) is a value of the
    type [Call].  Tasks and executors are known by number; [done] tells which
    tasks have finished, as [Task.done()] does. *)

From Stdlib Require Import String QArith Lqa.
From stdpp Require Import base tactics list numbers.
From S2P Require Import Prelude PyStr PyValue MessageMap.
Open Scope Z_scope.

(** ** Constants ([constants/queue.py], [constants/network.py]) *)

Definition MINIMUM_MESSAGE_DELAY : Q := 2.
Definition DEFAULT_MESSAGE_DELAY : Q := 2.5.
Definition MAX_QUEUE_SIZE : Z := 500.
Definition QUEUE_FULL_LOG_INTERVAL_SEC : Q := 5.
Definition QUEUE_POLL_INTERVAL_SEC : Q := 0.1.
Definition CONNECTION_RETRY_SLEEP_SEC : Q := 1.
Definition CONNECTION_ERROR_KEYWORDS : list pystr :=
  [u "connection"; u "disconnected"; u "not connected"; u "timeout";
   u "refused"; u "reset"; u "broken"; u "closed"; u "unreachable";
   u "network"].

Section queue.
Context {Call : Type}.

(** ** Data *)

Record mapping_info := {
  mi_matrix_event_id : pystr; mi_room_id : pystr; mi_text : pystr;
  mi_meshnet : option pystr; mi_msgs_to_keep : option Z }.

Record queued_message := {
  qm_timestamp : Q; qm_call : Call; qm_description : pystr;
  qm_mapping_info : option mapping_info }.

Record mq := MQ {
  _queue : list queued_message;
  _processor_task : option nat;
  _executor : option nat;
  _running : bool;
  _stopping : bool;
  _stop_failed : bool;
  _stop_logged : bool;
  _in_flight : bool;
  _has_current : bool;
  _last_send_time : Q;
  _last_send_mono : Q;
  _message_delay : Q;
  _dropped_messages : Z;
  _last_queue_full_log_time : option Q }.

(** [MessageQueue.__init__] *)
Definition mq_init : mq :=
  MQ [] None None false false false false false false 0 0
     DEFAULT_MESSAGE_DELAY 0 None.

(** Assignments to fields. *)
Definition set_queue v s := MQ v (_processor_task s) (_executor s) (_running s)
  (_stopping s) (_stop_failed s) (_stop_logged s) (_in_flight s) (_has_current s)
  (_last_send_time s) (_last_send_mono s) (_message_delay s)
  (_dropped_messages s) (_last_queue_full_log_time s).
Definition set_task v s := MQ (_queue s) v (_executor s) (_running s)
  (_stopping s) (_stop_failed s) (_stop_logged s) (_in_flight s) (_has_current s)
  (_last_send_time s) (_last_send_mono s) (_message_delay s)
  (_dropped_messages s) (_last_queue_full_log_time s).
Definition set_executor v s := MQ (_queue s) (_processor_task s) v (_running s)
  (_stopping s) (_stop_failed s) (_stop_logged s) (_in_flight s) (_has_current s)
  (_last_send_time s) (_last_send_mono s) (_message_delay s)
  (_dropped_messages s) (_last_queue_full_log_time s).
Definition set_run running stopping s := MQ (_queue s) (_processor_task s)
  (_executor s) running stopping (_stop_failed s) (_stop_logged s) (_in_flight s)
  (_has_current s) (_last_send_time s) (_last_send_mono s) (_message_delay s)
  (_dropped_messages s) (_last_queue_full_log_time s).
Definition set_stop_failed v s := MQ (_queue s) (_processor_task s) (_executor s)
  (_running s) (_stopping s) v (_stop_logged s) (_in_flight s) (_has_current s)
  (_last_send_time s) (_last_send_mono s) (_message_delay s)
  (_dropped_messages s) (_last_queue_full_log_time s).
Definition set_stop_logged v s := MQ (_queue s) (_processor_task s) (_executor s)
  (_running s) (_stopping s) (_stop_failed s) v (_in_flight s) (_has_current s)
  (_last_send_time s) (_last_send_mono s) (_message_delay s)
  (_dropped_messages s) (_last_queue_full_log_time s).
Definition set_flight in_flight has_current s := MQ (_queue s) (_processor_task s)
  (_executor s) (_running s) (_stopping s) (_stop_failed s) (_stop_logged s)
  in_flight has_current (_last_send_time s) (_last_send_mono s)
  (_message_delay s) (_dropped_messages s) (_last_queue_full_log_time s).
Definition set_last_send wall mono s := MQ (_queue s) (_processor_task s)
  (_executor s) (_running s) (_stopping s) (_stop_failed s) (_stop_logged s)
  (_in_flight s) (_has_current s) wall mono (_message_delay s)
  (_dropped_messages s) (_last_queue_full_log_time s).
Definition set_delay v s := MQ (_queue s) (_processor_task s) (_executor s)
  (_running s) (_stopping s) (_stop_failed s) (_stop_logged s) (_in_flight s)
  (_has_current s) (_last_send_time s) (_last_send_mono s) v
  (_dropped_messages s) (_last_queue_full_log_time s).
Definition add_dropped s := MQ (_queue s) (_processor_task s) (_executor s)
  (_running s) (_stopping s) (_stop_failed s) (_stop_logged s) (_in_flight s)
  (_has_current s) (_last_send_time s) (_last_send_mono s) (_message_delay s)
  (_dropped_messages s + 1) (_last_queue_full_log_time s).
Definition set_full_log v s := MQ (_queue s) (_processor_task s) (_executor s)
  (_running s) (_stopping s) (_stop_failed s) (_stop_logged s) (_in_flight s)
  (_has_current s) (_last_send_time s) (_last_send_mono s) (_message_delay s)
  (_dropped_messages s) v.

Definition queue_size (s : mq) : Z := Z.of_nat (length (_queue s)).

(** ** Life cycle *)

Section lifecycle.
Context (done : nat → bool).

Definition task_active (s : mq) : bool :=
  match _processor_task s with Some t => negb (done t) | None => false end.

Definition _clear_failed_stop_state_if_recovered_locked (s : mq) : mq * bool :=
  if negb (_stop_failed s) then (s, false) else
  let executor_active := match _executor s with Some _ => true | None => false end in
  if _running s || task_active s || executor_active then (s, false) else
  let s := set_task None s in
  (set_stop_failed false (set_run (_running s) false s), true).

(** [loop_running]: an event loop runs in the calling thread; [task] and
    [executor] are the objects that would be created. *)
Definition start (loop_running : bool) (task executor : nat)
    (message_delay : Q) (s : mq) : mq * bool :=
  let s := (_clear_failed_stop_state_if_recovered_locked s).1 in
  if _stop_failed s then (s, false)
  else if _running s then (s, true)
  else if _stopping s then (s, false)
  else
    let s := set_delay message_delay s in
    let s := set_run true (_stopping s) s in
    let s := set_stop_logged false s in
    let s := match _executor s with
             | None => set_executor (Some executor) s
             | Some _ => s
             end in
    (if loop_running then set_task (Some task) s else s, true).

Definition ensure_processor_started (loop_running : bool) (task : nat)
    (s : mq) : mq :=
  let task_inactive := negb (task_active s) in
  let s := if task_inactive then set_task None s else s in
  if _running s && negb (_stop_failed s) && task_inactive && loop_running
  then set_task (Some task) s else s.

Definition reset_failed_stop_state (s : mq) : mq * bool :=
  if _stopping s then (s, false)
  else if negb (_stop_failed s) then (s, true)
  else _clear_failed_stop_state_if_recovered_locked s.

(** What one call of [stop] captures, and its two completion events. *)
Record stop_ctx := {
  sc_task : option nat; sc_executor : option nat;
  sc_task_complete : bool; sc_executor_complete : bool }.

(** The locked part of [stop] and its events; [None]: not running. *)
Definition stop_begin (s : mq) : option (mq * stop_ctx) :=
  if negb (_running s) then None else
  let is_none (o : option nat) := match o with None => true | _ => false end in
  Some (set_run false true s,
        {| sc_task := _processor_task s; sc_executor := _executor s;
           sc_task_complete := is_none (_processor_task s);
           sc_executor_complete := is_none (_executor s) |}).

Definition _mark_stop_failed (s : mq) : mq := set_stop_failed true s.

Definition opt_is (o : option nat) (p : option nat) : bool :=
  match o with Some t => bool_decide (p = Some t) | None => false end.

Definition _finalize_stop_state (c : stop_ctx) (s : mq) : mq :=
  if negb (sc_task_complete c && sc_executor_complete c) then s else
  let s := if opt_is (sc_task c) (_processor_task s)
           then set_flight false false (set_task None s) else s in
  let s := if opt_is (sc_executor c) (_executor s)
           then set_executor None s else s in
  if _stop_failed s then
    let '(s', cleared) := _clear_failed_stop_state_if_recovered_locked s in
    if cleared then set_stop_logged true s' else s'
  else set_stop_logged true (set_run (_running s) false s).

(** How [stop] cancels the processor task, by the state of the task's loop. *)
Inductive cancel_route :=
  | CancelNothing        (* no task *)
  | CancelLoopClosed     (* complete at once *)
  | CancelInline         (* [call_soon] on the loop of the caller, watchdog thread *)
  | CancelThreadsafe (blocking : bool)
                         (* [call_soon_threadsafe]; the caller waits when it has no loop *)
  | CancelRunToEnd.      (* idle loop: cancel and [run_until_complete] *)

Definition choose_cancel_route (c : stop_ctx)
    (loop_closed same_loop loop_running caller_has_loop : bool) : cancel_route :=
  match sc_task c with
  | None => CancelNothing
  | Some _ =>
      if loop_closed then CancelLoopClosed
      else if same_loop then CancelInline
      else if loop_running then CancelThreadsafe (negb caller_has_loop)
      else CancelRunToEnd
  end.
End lifecycle.

(** ** Enqueueing *)

Definition make_message (now_wall : Q) (call : Call) (description : pystr)
    (info : option mapping_info) : queued_message :=
  {| qm_timestamp := now_wall; qm_call := call; qm_description := description;
     qm_mapping_info := info |}.

Inductive attempt := Enqueued | Refused | MustWait.

(** One turn of the [while True] loop of [enqueue]; [now1] and [now2] are its
    clock readings. *)
Definition enqueue_attempt (m : queued_message) (wait : bool)
    (timeout : option Q) (start_time now1 now2 : Q) (s : mq) : attempt * mq :=
  if MAX_QUEUE_SIZE <=? queue_size s then
    if wait then
      if match timeout with
         | Some t => qle t (now1 - start_time)
         | None => false
         end
      then (Refused, add_dropped s)
      else
        let log := match _last_queue_full_log_time s with
                   | None => true
                   | Some t => qle QUEUE_FULL_LOG_INTERVAL_SEC (now2 - t)
                   end in
        (MustWait, if log then set_full_log (Some now2) s else s)
    else (Refused, add_dropped s)
  else (Enqueued, set_full_log None (set_queue (_queue s ++ [m]) s)).

(** The checks [enqueue] makes under the lock before its loop. *)
Definition enqueue_guard (done : nat → bool) (s : mq) : mq * bool :=
  let s := (_clear_failed_stop_state_if_recovered_locked done s).1 in
  if _stop_failed s then (s, false)
  else (s, _running s && negb (_stopping s)).

(** The loop.  Each element of [wakes] is the state found when the lock is
    taken again after a sleep, with the clock readings of the next turn; [None]
    when the call still waits at the end of the list. *)
Fixpoint enqueue_loop (m : queued_message) (wait : bool) (timeout : option Q)
    (start_time now1 now2 : Q) (s : mq) (wakes : list (mq * Q * Q))
    : option (mq * bool) :=
  match enqueue_attempt m wait timeout start_time now1 now2 s with
  | (Enqueued, s') => Some (s', true)
  | (Refused, s') => Some (s', false)
  | (MustWait, _) =>
      match wakes with
      | [] => None
      | (s2, n1, n2) :: wakes =>
          if negb (_running s2) || _stopping s2 then Some (s2, false)
          else enqueue_loop m wait timeout start_time n1 n2 s2 wakes
      end
  end.

Definition enqueue (done : nat → bool) (loop_running : bool) (task : nat)
    (now_wall now : Q) (call : Call) (description : pystr)
    (info : option mapping_info) (wait : bool) (timeout : option Q)
    (wakes : list (mq * Q * Q)) (s : mq) : option (mq * bool) :=
  let s := ensure_processor_started done loop_running task s in
  let '(s, ok) := enqueue_guard done s in
  if ok then
    enqueue_loop (make_message now_wall call description info) wait timeout
      now now now s wakes
  else Some (s, false).

(** [queue_message] never waits. *)
Definition queue_message (done : nat → bool) (loop_running : bool) (task : nat)
    (now_wall now : Q) (call : Call) (description : pystr)
    (info : option mapping_info) (s : mq) : option (mq * bool) :=
  enqueue done loop_running task now_wall now call description info false None
    [] s.

Definition _requeue_message (m : queued_message) (s : mq) : mq * bool :=
  if MAX_QUEUE_SIZE <=? queue_size s then (add_dropped s, false)
  else (set_queue (m :: _queue s) s, true).

(** ** Observers *)

Record status := {
  st_running : bool; st_queue_size : Z; st_message_delay : Q;
  st_stop_failed : bool; st_processor_task_active : bool;
  st_last_send_time : Q; st_time_since_last_send : option Q;
  st_in_flight : bool; st_dropped_messages : Z }.

Definition get_status (done : nat → bool) (now : Q) (s : mq) : status :=
  {| st_running := _running s; st_queue_size := queue_size s;
     st_message_delay := _message_delay s; st_stop_failed := _stop_failed s;
     st_processor_task_active := task_active done s;
     st_last_send_time := _last_send_time s;
     st_time_since_last_send :=
       if qlt 0 (_last_send_mono s) then Some (now - _last_send_mono s)%Q else None;
     st_in_flight := _in_flight s; st_dropped_messages := _dropped_messages s |}.

(** One test of the [while] loop of [drain]: the value returned, or [None] to
    sleep and look again. *)
Definition drain_poll (deadline : option Q) (now : Q) (s : mq) : option bool :=
  if negb ((0 <? queue_size s) || _in_flight s || _has_current s)
  then Some true
  else if negb (_running s) then Some false
  else if match deadline with Some d => qlt d now | None => false end
  then Some false
  else None.

(** [drain] over the states it observes, with the clock at each look. *)
Fixpoint drain (deadline : option Q) (looks : list (Q * mq)) : option bool :=
  match looks with
  | [] => None
  | (now, s) :: looks =>
      match drain_poll deadline now s with
      | Some b => Some b
      | None => drain deadline looks
      end
  end.

(** ** Sending *)

(** The connection state [_should_send_message] reads: the [reconnecting] flag
    and, of the client, what [is_connected] gives ([None]: no such attribute). *)
Inductive client_view := NoClient | Client (is_connected : option bool).

Definition _should_send_message (reconnecting : bool) (client : client_view) : bool :=
  if reconnecting then false
  else match client with
       | NoClient => false
       | Client (Some false) => false
       | Client _ => true
       end.

(** What a send gives back: nothing, an object or a dictionary whose [id] may
    be missing or None, or an exception ([conn]: one of ConnectionError,
    OSError and TimeoutError). *)
Inductive send_outcome :=
  | SendNone
  | SendResult (id : option (option (Z + pystr)))
  | SendRaised (conn : bool) (message : pystr).

Definition is_connection_error (conn : bool) (message : pystr) : bool :=
  conn || existsb (contains (lower message)) CONNECTION_ERROR_KEYWORDS.

(** [_handle_message_mapping] on a message map. *)
Definition _handle_message_mapping `{MessageMapStore T} (id : Z + pystr)
    (mi : mapping_info) (t : T) : T :=
  if nonempty (mi_matrix_event_id mi) && nonempty (mi_room_id mi) &&
     nonempty (mi_text mi) then
    let t := mms_put {| mm_meshtastic_id := id_key id;
                        mm_matrix_event_id := mi_matrix_event_id mi;
                        mm_matrix_room_id := mi_room_id mi;
                        mm_text := mi_text mi;
                        mm_meshnet := mi_meshnet mi |} t in
    let msgs_to_keep := default 500 (mi_msgs_to_keep mi) in
    if 0 <? msgs_to_keep then mms_prune msgs_to_keep t else t
  else t.

(** ** The processor coroutine *)

(** Where [_process_queue] is suspended. *)
Inductive pc :=
  | PcTop                              (* at the test of the loop *)
  | PcSleep (until : Q)                (* a sleep followed by [continue] *)
  | PcPause (until : Q)                (* the sleep of the outer [except Exception] *)
  | PcDelay (until : Q)                (* the rate-limiting sleep *)
  | PcSending                          (* the send runs in the executor *)
  | PcMapping (id : Z + pystr) (mi : mapping_info)   (* storing the mapping *)
  | PcExit.

(** Result of a segment: the queue, the next suspension point, the local
    [current_message], and what became of the message handled. *)
Inductive fate := Kept | Finished (m : queued_message) | Lost (m : queued_message).

Record seg := Seg {
  sg_q : mq; sg_pc : pc; sg_cur : option queued_message; sg_fate : fate }.

(** Requeue the current message and sleep before the next turn. *)
Definition requeue_and_sleep (m : queued_message) (now : Q) (s : mq) : seg :=
  let '(s, ok) := _requeue_message m s in
  Seg (set_flight (_in_flight s) false s)
      (PcSleep (now + CONNECTION_RETRY_SLEEP_SEC)) None
      (if ok then Kept else Lost m).

(** An answer of [_should_send_message]: [None] when the check itself raises. *)
Definition answer := option bool.

(** The final connection check and the submission to the executor. *)
Definition seg_send (m : queued_message) (now : Q) (ans : answer) (s : mq) : seg :=
  match ans with
  | None => Seg s (PcPause (now + CONNECTION_RETRY_SLEEP_SEC)) (Some m) Kept
  | Some false => requeue_and_sleep m now s
  | Some true =>
      match _executor s with
      | Some _ => Seg (set_flight true (_has_current s) s) PcSending (Some m) Kept
      | None => (* RuntimeError, logged; the message is given up *)
          Seg (set_flight false false s) PcTop None (Finished m)
      end
  end.

(** From the first connection check to the next await. *)
Definition seg_check (m : queued_message) (now : Q) (ans1 ans2 : answer)
    (s : mq) : seg :=
  match ans1 with
  | None => Seg s (PcPause (now + CONNECTION_RETRY_SLEEP_SEC)) (Some m) Kept
  | Some false => Seg s (PcSleep (now + CONNECTION_RETRY_SLEEP_SEC)) (Some m) Kept
  | Some true =>
      if qlt 0 (_last_send_mono s) then
        let time_since_last := (now - _last_send_mono s)%Q in
        if qlt time_since_last (_message_delay s)
        then Seg s (PcDelay (now + (_message_delay s - time_since_last))) (Some m) Kept
        else seg_send m now ans2 s
      else seg_send m now ans2 s
  end.

(** From the test of the loop. *)
Definition seg_top (now : Q) (ans1 ans2 : answer) (cur : option queued_message)
    (s : mq) : seg :=
  if negb (_running s) then
    Seg s PcExit None (match cur with Some m => Lost m | None => Kept end)
  else
    match cur, _queue s with
    | Some m, _ => seg_check m now ans1 ans2 s
    | None, m :: q =>
        seg_check m now ans1 ans2 (set_flight (_in_flight s) true (set_queue q s))
    | None, [] => Seg s (PcSleep (now + QUEUE_POLL_INTERVAL_SEC)) None Kept
    end.

(** After the rate-limiting sleep. *)
Definition seg_after_delay (m : queued_message) (now : Q) (ans1 ans2 : answer)
    (s : mq) : seg :=
  match ans1 with
  | None => Seg s (PcPause (now + CONNECTION_RETRY_SLEEP_SEC)) (Some m) Kept
  | Some false => requeue_and_sleep m now s
  | Some true => seg_send m now ans2 s
  end.

(** After the send. *)
Definition seg_sent (m : queued_message) (now_wall now : Q) (out : send_outcome)
    (s : mq) : seg :=
  let finish s := Seg (set_flight false false s) PcTop None (Finished m) in
  match out with
  | SendNone => finish (set_last_send now_wall now s)
  | SendResult id =>
      let s := set_last_send now_wall now s in
      match qm_mapping_info m, mjoin id with
      | Some mi, Some id => Seg s (PcMapping id mi) (Some m) (Finished m)
      | _, _ => finish s
      end
  | SendRaised conn message =>
      if is_connection_error conn message then
        let '(s, ok) := _requeue_message m s in
        Seg (set_flight false false s) (PcSleep (now + CONNECTION_RETRY_SLEEP_SEC))
            None (if ok then Kept else Lost m)
      else finish s
  end.

(** CancelledError at an await.  The handler of the loop resets the flags; it
    does not see a task cancelled before its first turn nor one cancelled in
    the sleep of the outer [except Exception], which is outside its [try].  A
    message whose mapping was being stored has been sent. *)
Definition seg_cancelled (p : pc) (cur : option queued_message) (s : mq) : seg :=
  Seg (match p with PcTop | PcPause _ => s | _ => set_flight false false s end)
      PcExit None
      (match p, cur with
       | PcMapping _ _, _ => Kept
       | _, Some m => Lost m
       | _, None => Kept
       end).
End queue.
