(* ===== verification/QueueSystem.v ===== *)
(** * Message queue: interleavings

    The queue of [QueueState] shared by the threads and coroutines that use it.
    A state is the queue object, the processor coroutines that are alive, the
    finished tasks, the clock, the stop in progress, the message map, and the
    history of the messages accepted, finished and lost.  Every step is one
    critical section or one segment of the coroutine, so an execution is an
    interleaving of the callers, the processor and the clean-up threads.

    The clean-up calls of a [stop] may come late, after the queue has been
    started and stopped again.  [step] has them all but one kind, which
    [late_finalize_safe] names: the last clean-up call of an earlier stop that
    clears [_stopping] while a later stop, which has not timed out, still waits
    for its coroutine.  [any_step] has that kind too, and
    [late_finalize_two_processors] shows that it leads to two processors; the
    claims on reachable states are about the executions without it.  A sleep of
    [d] seconds ends no earlier than [d] seconds later. *)

From Stdlib Require Import String QArith Lqa.
From stdpp Require Import base tactics list numbers gmap sets.
From S2P Require Import Prelude PyStr PyValue MessageMap QueueState.
Open Scope Z_scope.

Section system.
Context {Call : Type} {T : Type} `{!MessageMapStore T}.
Abbreviation msg := (@queued_message Call).

Record proc := { p_id : nat; p_pc : pc; p_cur : option msg }.

Record sys := Sys {
  s_q : @mq Call;
  s_procs : list proc;
  s_done : gset nat;
  s_next : nat;               (* next task or executor number *)
  s_now : Q;
  s_stop : option stop_ctx;
  s_db : T;
  s_accepted : list msg;      (* in order of acceptance *)
  s_finished : list msg;      (* sent, or given up after an error *)
  s_lost : list msg }.

Definition sys_init (now : Q) (db : T) : sys :=
  Sys mq_init [] ∅ 0 now None db [] [] [].

Definition done_in (d : gset nat) (t : nat) : bool := bool_decide (t ∈ d).

(** ** The processor *)

(** The message a coroutine holds that has not been sent. *)
Definition pending (p : proc) : list msg :=
  match p_pc p with PcMapping _ _ => [] | _ => option_list (p_cur p) end.

(** One segment: what the coroutine does when it is resumed at time [now] with
    the connection checks answering [ans1], [ans2] and the send [out]; [None]
    while its sleep has not elapsed. *)
Definition resume (now_wall now : Q) (ans1 ans2 : answer) (out : send_outcome)
    (p : proc) (q : @mq Call) : option (@seg Call) :=
  match p_pc p, p_cur p with
  | PcTop, cur => Some (seg_top now ans1 ans2 cur q)
  | PcSleep until, cur | PcPause until, cur =>
      if qle until now then Some (seg_top now ans1 ans2 cur q) else None
  | PcDelay until, Some m =>
      if qle until now then Some (seg_after_delay m now ans1 ans2 q) else None
  | PcSending, Some m => Some (seg_sent m now_wall now out q)
  | PcMapping _ _, _ => Some (Seg (set_flight false false q) PcTop None Kept)
  | _, _ => None
  end.

Definition db_after (p : proc) (db : T) : T :=
  match p_pc p with
  | PcMapping id mi => _handle_message_mapping id mi db
  | _ => db
  end.

Definition fate_finished (f : @fate Call) : list msg :=
  match f with Finished m => [m] | _ => [] end.
Definition fate_lost (f : @fate Call) : list msg :=
  match f with Lost m => [m] | _ => [] end.

(** The coroutine list and the finished tasks after a segment of [p]. *)
Definition procs_after (p : proc) (sg : @seg Call) (l1 l2 : list proc) : list proc :=
  match sg_pc sg with
  | PcExit => l1 ++ l2
  | c => l1 ++ {| p_id := p_id p; p_pc := c; p_cur := sg_cur sg |} :: l2
  end.
Definition done_after (p : proc) (sg : @seg Call) (d : gset nat) : gset nat :=
  match sg_pc sg with PcExit => {[ p_id p ]} ∪ d | _ => d end.

(** The coroutine that a call creates, when the task of the queue is new. *)
Definition spawn (q q' : @mq Call) (t : nat) (l : list proc) : list proc :=
  if bool_decide (_processor_task q' = Some t) && negb (bool_decide (_processor_task q = Some t))
  then {| p_id := t; p_pc := PcTop; p_cur := None |} :: l else l.

(** ** Steps *)

(** A late last clean-up call of the stop [c] that does no harm in the queue
    [q] with the coroutines [l]: nothing is stopping, or the stop under way has
    timed out, or it has no coroutine to wait for. *)
Definition late_finalize_safe (q : @mq Call) (l : list proc) : Prop :=
  _stopping q = false ∨ _stop_failed q = true ∨ l = [].

(** The events of the stop [c] are both set: its task is none of the coroutines
    alive. *)
Definition stop_complete (c : stop_ctx) (l : list proc) : Prop :=
  sc_task_complete c = true ∧ sc_executor_complete c = true ∧
  ∀ p, p ∈ l → sc_task c ≠ Some (p_id p).

Inductive step : sys → sys → Prop :=
  | step_tick q l d n now st db acc fin lost now' :
      (now <= now')%Q →
      step (Sys q l d n now st db acc fin lost)
           (Sys q l d n now' st db acc fin lost)
  | step_start q l d n now st db acc fin lost loop_running delay q' ok :
      start (done_in d) loop_running n (S n) delay q = (q', ok) →
      step (Sys q l d n now st db acc fin lost)
           (Sys q' (spawn q q' n l) d (S (S n)) now (if _running q' then None else st) db
              acc fin lost)
  | step_ensure q l d n now st db acc fin lost loop_running q' :
      ensure_processor_started (done_in d) loop_running n q = q' →
      step (Sys q l d n now st db acc fin lost)
           (Sys q' (spawn q q' n l) d (S n) now st db acc fin lost)
  (* the checks and the first turn of [enqueue], or a turn after a sleep *)
  | step_enqueue q l d n now st db acc fin lost m wait timeout t0 now2 q1 q' ok a :
      enqueue_guard (done_in d) q = (q1, ok) →
      (if ok then enqueue_attempt m wait timeout t0 now now2 q1 else (Refused, q1))
        = (a, q') →
      step (Sys q l d n now st db acc fin lost)
           (Sys q' l d n now st db
              (acc ++ match a with Enqueued => [m] | _ => [] end) fin lost)
  | step_enqueue_again q l d n now st db acc fin lost m timeout t0 now2 q' a :
      (if _running q && negb (_stopping q)
       then enqueue_attempt m true timeout t0 now now2 q else (Refused, q))
        = (a, q') →
      step (Sys q l d n now st db acc fin lost)
           (Sys q' l d n now st db
              (acc ++ match a with Enqueued => [m] | _ => [] end) fin lost)
  | step_process q l1 p l2 d n now now' wall st db acc fin lost ans1 ans2 out sg :
      (now <= now')%Q →
      resume wall now' ans1 ans2 out p q = Some sg →
      step (Sys q (l1 ++ p :: l2) d n now st db acc fin lost)
           (Sys (sg_q sg) (procs_after p sg l1 l2) (done_after p sg d) n now' st
              (db_after p db) acc (fin ++ fate_finished (sg_fate sg))
              (lost ++ fate_lost (sg_fate sg)))
  | step_cancel q l1 p l2 d n now st db acc fin lost :
      step (Sys q (l1 ++ p :: l2) d n now st db acc fin lost)
           (let sg := seg_cancelled (p_pc p) (p_cur p) q in
            Sys (sg_q sg) (l1 ++ l2) ({[ p_id p ]} ∪ d) n now st db acc fin
              (lost ++ fate_lost (sg_fate sg)))
  | step_stop q l d n now st db acc fin lost q' c :
      stop_begin q = Some (q', c) →
      step (Sys q l d n now st db acc fin lost)
           (Sys q' l d n now (Some c) db acc fin lost)
  | step_mark_failed q l d n now c db acc fin lost :
      step (Sys q l d n now (Some c) db acc fin lost)
           (Sys (_mark_stop_failed q) l d n now (Some c) db acc fin lost)
  (* the task of the stop has finished, or its loop is closed *)
  | step_task_done q l d n now c t db acc fin lost :
      sc_task c = Some t → t ∈ d →
      step (Sys q l d n now (Some c) db acc fin lost)
           (Sys q l d n now (Some {| sc_task := sc_task c;
              sc_executor := sc_executor c; sc_task_complete := true;
              sc_executor_complete := sc_executor_complete c |}) db acc fin lost)
  | step_loop_closed q l d n now c t db acc fin lost :
      sc_task c = Some t →
      step (Sys q l d n now (Some c) db acc fin lost)
           (Sys q (filter (λ p, p_id p ≠ t) l) d n now (Some {| sc_task := sc_task c;
              sc_executor := sc_executor c; sc_task_complete := true;
              sc_executor_complete := sc_executor_complete c |}) db acc fin
              (lost ++ ((filter (λ p, p_id p = t) l) ≫= pending)))
  | step_executor_done q l d n now c db acc fin lost :
      step (Sys q l d n now (Some c) db acc fin lost)
           (Sys q l d n now (Some {| sc_task := sc_task c;
              sc_executor := sc_executor c;
              sc_task_complete := sc_task_complete c;
              sc_executor_complete := true |}) db acc fin lost)
  | step_finalize q l d n now c db acc fin lost :
      step (Sys q l d n now (Some c) db acc fin lost)
           (Sys (_finalize_stop_state (done_in d) c q) l d n now (Some c) db acc
              fin lost)
  (* calls of earlier stops, from their threads and callbacks *)
  | step_late_mark q l d n now st db acc fin lost :
      step (Sys q l d n now st db acc fin lost)
           (Sys (_mark_stop_failed q) l d n now st db acc fin lost)
  | step_late_finalize q l d n now st c db acc fin lost :
      stop_complete c l → late_finalize_safe q l →
      step (Sys q l d n now st db acc fin lost)
           (Sys (_finalize_stop_state (done_in d) c q) l d n now st db acc fin lost)
  | step_reset q l d n now st db acc fin lost q' ok :
      reset_failed_stop_state (done_in d) q = (q', ok) →
      step (Sys q l d n now st db acc fin lost)
           (Sys q' l d n now st db acc fin lost).

Definition reachable (now : Q) (db : T) (s : sys) : Prop :=
  star step (sys_init now db) s.

(** Every execution, the unsafe late calls included. *)
Inductive any_step : sys → sys → Prop :=
  | any_safe s s' : step s s' → any_step s s'
  | any_late q l d n now st c db acc fin lost :
      stop_complete c l →
      any_step (Sys q l d n now st db acc fin lost)
               (Sys (_finalize_stop_state (done_in d) c q) l d n now st db acc fin lost).

Lemma reachable_any now db s : reachable now db s → star any_step (sys_init now db) s.
Proof.
  unfold reachable. generalize (sys_init now db).
  induction 1; [apply star_refl |]. eapply star_step; [by apply any_safe | done].
Qed.

(** ** Invariants *)

(** Life cycle: at most one coroutine is alive; it is the task of the queue, it
    has not finished, and the queue is running or stopping.  A stop in progress
    leaves no other coroutine. *)
Definition live_ok (q : @mq Call) (l : list proc) (d : gset nat) : Prop :=
  (length l ≤ 1)%nat ∧
  ∀ p, p ∈ l → _processor_task q = Some (p_id p) ∧ (p_id p ∉ d) ∧
    (_running q = true ∨ _stopping q = true).

Record life_ok (q : @mq Call) (l : list proc) (d : gset nat) (n : nat)
    (st : option stop_ctx) : Prop := {
  lo_live : live_ok q l d;
  lo_stop c : st = Some c →
    _running q = false ∧
    ∀ p, p ∈ l → sc_task c = Some (p_id p) ∧ sc_task_complete c = false;
  lo_idle : st = None → _running q = false → l = [];
  lo_fresh t : (_processor_task q = Some t ∨ t ∈ d) → (t < n)%nat }.

(** Coroutine: it holds a message where it needs one, it has raised
    [_has_current] while it does, and a rate-limiting sleep ends when the
    configured delay since the last send has passed. *)
Definition proc_ok (q : @mq Call) (p : proc) : Prop :=
  (pending p ≠ [] → _has_current q = true) ∧
  match p_pc p with
  | PcDelay until =>
      p_cur p ≠ None ∧ (_last_send_mono q + _message_delay q <= until)%Q
  | PcSending | PcMapping _ _ => p_cur p ≠ None
  | PcExit => False
  | _ => True
  end.

(** Messages: acceptance order is kept by everything not lost, nothing appears
    from nowhere, and the queue never holds more than its limit. *)
Record msgs_ok (q : @mq Call) (held acc fin lost : list msg) : Prop := {
  mo_order : (fin ++ held ++ _queue q) `sublist_of` acc;
  mo_all : acc ≡ₚ fin ++ lost ++ held ++ _queue q;
  mo_bound : queue_size q ≤ MAX_QUEUE_SIZE }.

(** Messages held by the live coroutines. *)
Definition all_pending (l : list proc) : list msg := l ≫= pending.

Definition sys_ok (s : sys) : Prop :=
  life_ok (s_q s) (s_procs s) (s_done s) (s_next s) (s_stop s) ∧
  Forall (proc_ok (s_q s)) (s_procs s) ∧
  msgs_ok (s_q s) (all_pending (s_procs s)) (s_accepted s) (s_finished s) (s_lost s).

(** ** Operations on the life cycle *)

Lemma clear_cases done (q : @mq Call) :
  _clear_failed_stop_state_if_recovered_locked done q = (q, false) ∨
  (_clear_failed_stop_state_if_recovered_locked done q =
     (set_stop_failed false (set_run (_running q) false (set_task None q)), true) ∧
   _stop_failed q = true ∧ _running q = false ∧ task_active done q = false ∧
   _executor q = None).
Proof.
  unfold _clear_failed_stop_state_if_recovered_locked.
  destruct (_stop_failed q) eqn:Ef; simpl; [|by left].
  destruct (_running q) eqn:Er, (task_active done q) eqn:Et,
    (_executor q) eqn:Ee; simpl; auto. right. split_and!; try done.
Qed.

Lemma start_cases done lr t e delay (q : @mq Call) :
  let q1 := (_clear_failed_stop_state_if_recovered_locked done q).1 in
  let r := start done lr t e delay q in
  r = (q1, false) ∨ (r = (q1, true) ∧ _running q1 = true) ∨
  (_running q1 = false ∧ _stopping q1 = false ∧ r.2 = true ∧
   _running r.1 = true ∧ _stopping r.1 = false ∧
   _processor_task r.1 = (if lr then Some t else _processor_task q1) ∧
   _queue r.1 = _queue q1 ∧ _has_current r.1 = _has_current q1).
Proof.
  intros q1 r. unfold r, start. fold q1.
  destruct (_stop_failed q1); [by left |].
  destruct (_running q1) eqn:Er; [by right; left |].
  destruct (_stopping q1) eqn:Es; [by left | right; right].
  destruct lr; destruct (_executor q1) eqn:Ee; simpl; by rewrite ?Ee.
Qed.

(** A queue whose life-cycle fields and message fields are those of [q]. *)
Definition same_life (q q' : @mq Call) : Prop :=
  _processor_task q' = _processor_task q ∧ _running q' = _running q ∧
  _stopping q' = _stopping q.
Definition same_msgs (q q' : @mq Call) : Prop :=
  _queue q' = _queue q ∧ _has_current q' = _has_current q ∧
  _last_send_mono q' = _last_send_mono q ∧ _message_delay q' = _message_delay q.

Lemma clear_same_msgs done q :
  same_msgs q (_clear_failed_stop_state_if_recovered_locked done q).1.
Proof. by destruct (clear_cases done q) as [-> | [-> _]]. Qed.

Lemma guard_clear done (q : @mq Call) :
  (enqueue_guard done q).1 =
  (_clear_failed_stop_state_if_recovered_locked done q).1.
Proof. unfold enqueue_guard. by case_match. Qed.

Lemma reset_clear done (q : @mq Call) :
  (reset_failed_stop_state done q).1 = q ∨
  (reset_failed_stop_state done q).1 =
    (_clear_failed_stop_state_if_recovered_locked done q).1.
Proof. unfold reset_failed_stop_state. repeat case_match; auto. Qed.

(** What [queue_message] does. *)
Lemma queue_message_result done_ lr task wall now call descr info (q : @mq Call) :
  let q1 := ensure_processor_started done_ lr task q in
  let '(q2, open) := enqueue_guard done_ q1 in
  let full := MAX_QUEUE_SIZE <=? queue_size q in
  ∃ q', queue_message done_ lr task wall now call descr info q =
          Some (q', open && negb full) ∧
    _queue q' = _queue q ++
      (if open && negb full then [make_message wall call descr info] else []) ∧
    _dropped_messages q' = _dropped_messages q + (if open && full then 1 else 0).
Proof.
  intros q1. unfold queue_message, enqueue. fold q1.
  assert (_queue q1 = _queue q ∧ _dropped_messages q1 = _dropped_messages q) as [Hq1 Hd1].
  { unfold q1, ensure_processor_started. by repeat case_match. }
  pose proof (clear_cases done_ q1) as Hc.
  destruct (enqueue_guard done_ q1) as [q2 open] eqn:Eg.
  assert (_queue q2 = _queue q ∧ _dropped_messages q2 = _dropped_messages q) as [Hq2 Hd2].
  { pose proof (guard_clear done_ q1) as E. rewrite Eg in E. simpl in E. subst q2.
    destruct Hc as [-> | [-> _]]; done. }
  cbv zeta. destruct open; simpl.
  2:{ exists q2. by rewrite Hq2, Hd2, app_nil_r, Z.add_0_r. }
  unfold enqueue_attempt. replace (queue_size q2) with (queue_size q)
    by (unfold queue_size; by rewrite Hq2).
  destruct (MAX_QUEUE_SIZE <=? queue_size q); simpl; eexists;
    (split_and!; [reflexivity | |]); simpl; rewrite ?Hq2, ?Hd2, ?app_nil_r; lia || done.
Qed.

(** *** Live coroutines *)

Lemma live_active q l d : live_ok q l d → task_active (done_in d) q = false → l = [].
Proof.
  intros [_ H]. destruct l as [|p l]; [done |]. intros Ha.
  destruct (H p) as (Ht & Hd & _); [by left |].
  unfold task_active, done_in in Ha. rewrite Ht in Ha. by rewrite bool_decide_eq_false_2 in Ha.
Qed.

Lemma live_same q q' l d : same_life q q' → live_ok q l d → live_ok q' l d.
Proof. intros (Ht & Hr & Hs) [Hl H]. split; [done |]. by rewrite Ht, Hr, Hs. Qed.

Lemma live_clear q l d :
  live_ok q l d →
  live_ok (_clear_failed_stop_state_if_recovered_locked (done_in d) q).1 l d ∧
  _running (_clear_failed_stop_state_if_recovered_locked (done_in d) q).1 = _running q.
Proof.
  intros H. destruct (clear_cases (done_in d) q) as [-> | (-> & _ & _ & Ha & _)];
    [done |].
  rewrite (live_active _ _ _ H Ha). split; [|done]. split; [simpl; lia |].
  intros p Hp. by apply elem_of_nil in Hp.
Qed.

Lemma live_sub q l l' d : l' `sublist_of` l → live_ok q l d → live_ok q l' d.
Proof.
  intros Hsub [Hl H]. split; [apply sublist_length in Hsub; lia |].
  intros p Hp. apply H. by eapply elem_of_submseteq, sublist_submseteq.
Qed.

Lemma live_replace q l1 p p' l2 d :
  p_id p' = p_id p → live_ok q (l1 ++ p :: l2) d → live_ok q (l1 ++ p' :: l2) d.
Proof.
  intros Hid [Hl H]. split.
  - rewrite length_app in *. simpl in *. lia.
  - intros p0. rewrite elem_of_app, elem_of_cons. intros Hp0.
    destruct Hp0 as [?|[->|?]]; [| rewrite Hid |]; apply H; rewrite elem_of_app, elem_of_cons; auto.
Qed.

Lemma live_exit q l1 p l2 d :
  live_ok q (l1 ++ p :: l2) d → l1 ++ l2 = [].
Proof.
  intros [Hl _]. rewrite length_app in Hl. simpl in Hl.
  destruct l1, l2; simpl in *; (done || lia).
Qed.

Lemma live_nil q d : live_ok q [] d.
Proof. split; [simpl; lia |]. intros p Hp. by apply elem_of_nil in Hp. Qed.

(** *** Segments of the coroutine *)

Definition seg_pending (sg : @seg Call) : list msg :=
  match sg_pc sg with PcMapping _ _ | PcExit => [] | _ => option_list (sg_cur sg) end.

(** What a segment that starts with the unsent messages [ms] in hand does: the
    life cycle is untouched, messages keep their order and none is lost without
    being counted, the queue stays within its limit, and the coroutine is in a
    consistent state at its next await. *)
Record seg_ok (q : @mq Call) (ms : list msg) (sg : @seg Call) : Prop := {
  so_life : same_life q (sg_q sg);
  so_order : (fate_finished (sg_fate sg) ++ seg_pending sg ++ _queue (sg_q sg))
               `sublist_of` (ms ++ _queue q);
  so_all : ms ++ _queue q ≡ₚ fate_finished (sg_fate sg) ++
    fate_lost (sg_fate sg) ++ seg_pending sg ++ _queue (sg_q sg);
  so_bound : queue_size q ≤ MAX_QUEUE_SIZE → queue_size (sg_q sg) ≤ MAX_QUEUE_SIZE;
  so_proc i : sg_pc sg ≠ PcExit →
    proc_ok (sg_q sg) {| p_id := i; p_pc := sg_pc sg; p_cur := sg_cur sg |} }.

Lemma requeue_size m (q q' : @mq Call) ok :
  _requeue_message m q = (q', ok) → queue_size q ≤ MAX_QUEUE_SIZE →
  queue_size q' ≤ MAX_QUEUE_SIZE.
Proof.
  unfold _requeue_message. case_match eqn:E; intros [= <- <-]; z_bool_hyps.
  - done.
  - unfold queue_size in *. simpl. lia.
Qed.

(** A segment that requeues its message and leaves with empty hands. *)
Lemma seg_requeue_ok m (q q' : @mq Call) ok fl hc until :
  _requeue_message m q = (q', ok) →
  seg_ok q [m] (Seg (set_flight fl hc q') (PcSleep until) None
                  (if ok then Kept else Lost m)).
Proof.
  intros E. pose proof (requeue_size m q q' ok E) as Hb.
  unfold _requeue_message in E. case_match; simplify_eq/=;
    (split; simpl; [done | | | exact Hb | by intros i _; split]).
  - by apply sublist_cons.
  - done.
  - done.
  - done.
Qed.

Lemma requeue_and_sleep_ok m now (q : @mq Call) :
  seg_ok q [m] (requeue_and_sleep m now q).
Proof.
  unfold requeue_and_sleep. destruct (_requeue_message m q) as [q' ok] eqn:E.
  by eapply seg_requeue_ok.
Qed.

(** A segment that only moves the coroutine to a sleep with its message. *)
Lemma seg_keep_ok m (q : @mq Call) c :
  _has_current q = true →
  match c with PcSleep _ | PcPause _ => True
  | PcDelay until => (_last_send_mono q + _message_delay q <= until)%Q
  | _ => False end →
  seg_ok q [m] (Seg q c (Some m) Kept).
Proof.
  intros Hc Hp. destruct c; try done;
    (split; simpl; [done | done | done | done | by intros i _; split]).
Qed.

Lemma seg_send_ok m now ans (q : @mq Call) :
  _has_current q = true → seg_ok q [m] (seg_send m now ans q).
Proof.
  intros Hc. unfold seg_send. destruct ans as [[]|].
  - destruct (_executor q);
      (split; simpl; [done | done | done | done | by intros i _; split]).
  - apply requeue_and_sleep_ok.
  - by apply seg_keep_ok.
Qed.

Lemma seg_check_ok m now ans1 ans2 (q : @mq Call) :
  _has_current q = true → seg_ok q [m] (seg_check m now ans1 ans2 q).
Proof.
  intros Hc. unfold seg_check.
  destruct ans1 as [[]|]; try by apply seg_keep_ok.
  destruct (qlt 0 _); [|by apply seg_send_ok].
  destruct (qlt (now - _) _) eqn:E; [|by apply seg_send_ok].
  apply seg_keep_ok; [done |]. lra.
Qed.

Lemma seg_top_ok now ans1 ans2 cur (q : @mq Call) :
  (cur ≠ None → _has_current q = true) →
  seg_ok q (option_list cur) (seg_top now ans1 ans2 cur q).
Proof.
  intros Hc. unfold seg_top. destruct (_running q) eqn:Er; simpl.
  2:{ destruct cur as [m|]; (split; simpl; [done | | done | done | done]);
        [by apply sublist_cons | done]. }
  destruct cur as [m|]; [apply seg_check_ok; by apply Hc |].
  destruct (_queue q) as [|m l] eqn:Eq.
  - split; simpl; [done | done | done | done | by intros i _; split].
  - set (q1 := set_flight (_in_flight q) true (set_queue l q)).
    destruct (seg_check_ok m now ans1 ans2 q1) as [S1 S2 S3 S4 S5]; [done |].
    split; [done | | | | done]; simpl.
    + by rewrite Eq.
    + by rewrite Eq.
    + intros Hb. apply S4. unfold queue_size in *. simpl. rewrite Eq in Hb.
      simpl in Hb. lia.
Qed.

Lemma seg_after_delay_ok m now ans1 ans2 (q : @mq Call) :
  _has_current q = true → seg_ok q [m] (seg_after_delay m now ans1 ans2 q).
Proof.
  intros Hc. unfold seg_after_delay. destruct ans1 as [[]|].
  - by apply seg_send_ok.
  - apply requeue_and_sleep_ok.
  - by apply seg_keep_ok.
Qed.

Lemma seg_sent_ok m wall now out (q : @mq Call) :
  seg_ok q [m] (seg_sent m wall now out q).
Proof.
  unfold seg_sent.
  assert (∀ q1, same_life q q1 → _queue q1 = _queue q → seg_ok q [m]
    (Seg (set_flight false false q1) PcTop None (Finished m))) as Hfin.
  { intros q1 Hl Hq. split; simpl; unfold queue_size; simpl; rewrite ?Hq;
      [done | done | done | done | by intros i _; split]. }
  destruct out as [|id|conn err].
  - by apply Hfin.
  - destruct (qm_mapping_info m) as [mi|], (mjoin id) as [i|];
      try (by apply Hfin).
    split; simpl; [done | done | done | done | by intros j _; split].
  - destruct (is_connection_error conn err); [|by apply Hfin].
    destruct (_requeue_message m q) as [q' ok] eqn:E. by eapply seg_requeue_ok.
Qed.

Lemma seg_cancelled_ok p (q : @mq Call) :
  seg_ok q (pending p) (seg_cancelled (p_pc p) (p_cur p) q).
Proof.
  unfold seg_cancelled, pending.
  destruct (p_pc p), (p_cur p) as [m|];
    (split; simpl; [done | | done | done | done]); done || by apply sublist_cons.
Qed.

Lemma resume_ok wall now ans1 ans2 out p (q : @mq Call) sg :
  proc_ok q p → resume wall now ans1 ans2 out p q = Some sg →
  seg_ok q (pending p) sg.
Proof.
  unfold proc_ok, resume, pending. intros [Hc Hp].
  assert (∀ m, p_cur p = Some m → (match p_pc p with PcMapping _ _ => False | _ => True end) →
            _has_current q = true) as Hcur.
  { intros m Hm Hpc. apply Hc. rewrite Hm. by destruct (p_pc p). }
  destruct (p_pc p), (p_cur p) as [m|]; intros E; try done; simplify_eq.
  - apply (seg_top_ok _ _ _ (Some m)). eauto.
  - by apply (seg_top_ok _ _ _ None).
  - split_ifs. apply (seg_top_ok _ _ _ (Some m)). eauto.
  - split_ifs. by apply (seg_top_ok _ _ _ None).
  - split_ifs. apply (seg_top_ok _ _ _ (Some m)). eauto.
  - split_ifs. by apply (seg_top_ok _ _ _ None).
  - split_ifs. apply seg_after_delay_ok. eauto.
  - apply seg_sent_ok.
  - split; simpl; [done | done | done | done | by intros i _; split].
Qed.

(** *** Preservation of the life-cycle invariant *)

Lemma life_same q q' l d n n' st :
  same_life q q' → (n ≤ n')%nat → life_ok q l d n st → life_ok q' l d n' st.
Proof.
  intros Hs Hn [H1 H2 H3 H4]. destruct Hs as (Ht & Hr & Hst) eqn:Es.
  split; rewrite ?Ht, ?Hr; [by eapply live_same | done | done |].
  intros t H. specialize (H4 t H). lia.
Qed.

Lemma life_clear q l d n st :
  life_ok q l d n st →
  life_ok (_clear_failed_stop_state_if_recovered_locked (done_in d) q).1 l d n st.
Proof.
  destruct (clear_cases (done_in d) q) as [-> | (-> & _ & Hr & Ha & _)]; [done |].
  intros [H1 H2 H3 H4]. pose proof (live_active _ _ _ H1 Ha) as ->.
  split; simpl; [apply live_nil | | done |].
  - intros c Hc. by apply H2.
  - intros t [?|?]; [done | auto].
Qed.

(** A coroutine goes on, or goes away. *)
Lemma life_replace q l1 p p' l2 d n st :
  p_id p' = p_id p → life_ok q (l1 ++ p :: l2) d n st →
  life_ok q (l1 ++ p' :: l2) d n st.
Proof.
  intros Hid [H1 H2 H3 H4]. split; [by eapply live_replace | | | done].
  - intros c Hc. destruct (H2 c Hc) as [Hr Hp]. split; [done |].
    intros p0. rewrite elem_of_app, elem_of_cons. intros Hp0.
    destruct Hp0 as [?|[->|?]]; [| rewrite Hid |];
      apply Hp; rewrite elem_of_app, elem_of_cons; auto.
  - intros Hst Hr. specialize (H3 Hst Hr). by destruct l1.
Qed.

Lemma life_exit q l1 p l2 d n st :
  life_ok q (l1 ++ p :: l2) d n st →
  life_ok q (l1 ++ l2) ({[ p_id p ]} ∪ d) n st.
Proof.
  intros [H1 H2 H3 H4].
  assert (_processor_task q = Some (p_id p)) as Hp.
  { apply H1. rewrite elem_of_app, elem_of_cons. auto. }
  rewrite (live_exit _ _ _ _ _ H1). split; [apply live_nil | | done |].
  - intros c Hc. destruct (H2 c Hc) as [Hr _]. split; [done |].
    intros p0 H0. by apply elem_of_nil in H0.
  - intros t. rewrite elem_of_union, elem_of_singleton.
    intros [?|[->|?]]; apply H4; auto.
Qed.

(** A coroutine is created only when none is alive. *)
Lemma life_spawn q q' n n' d :
  life_ok q [] d n None → (n < n')%nat → _running q' = true →
  _processor_task q' = Some n →
  life_ok q' [{| p_id := n; p_pc := PcTop; p_cur := None |}] d n' None.
Proof.
  intros [_ _ _ Hf] Hn Hr Ht. split; [| done | by rewrite Hr |].
  - split; [simpl; lia |]. intros p ->%list_elem_of_singleton. simpl.
    split_and!; auto. intros Hd. specialize (Hf n (or_intror Hd)). lia.
  - intros t [?|?]; [simplify_eq; lia |].
    specialize (Hf t (or_intror H)). lia.
Qed.

Lemma spawn_old q q' n l d st :
  life_ok q l d n st → _processor_task q' ≠ Some n → spawn q q' n l = l.
Proof. intros _ H. unfold spawn. by rewrite bool_decide_eq_false_2. Qed.

Lemma spawn_eq q q' n l d st :
  life_ok q l d n st → _processor_task q' = Some n →
  spawn q q' n l = {| p_id := n; p_pc := PcTop; p_cur := None |} :: l.
Proof.
  intros H E. unfold spawn. rewrite bool_decide_eq_true_2 by done.
  rewrite bool_decide_eq_false_2; [done |]. intros E2.
  pose proof (lo_fresh _ _ _ _ _ H n (or_introl E2)). lia.
Qed.

Lemma life_task_lt q l d n st : life_ok q l d n st → _processor_task q ≠ Some n.
Proof. intros H E. pose proof (lo_fresh _ _ _ _ _ H n (or_introl E)). lia. Qed.

Lemma life_start q l d n st lr delay q' ok :
  life_ok q l d n st → start (done_in d) lr n (S n) delay q = (q', ok) →
  life_ok q' (spawn q q' n l) d (S (S n)) (if _running q' then None else st) ∧
  (spawn q q' n l = l ∧ same_msgs q q' ∨
   l = [] ∧ _queue q' = _queue q).
Proof.
  intros H E. pose proof (life_clear _ _ _ _ _ H) as H1.
  pose proof (start_cases (done_in d) lr n (S n) delay q) as Hc. simpl in Hc.
  pose proof (clear_same_msgs (done_in d) q) as Hm.
  rewrite E in Hc. clear E.
  set (q1 := (_clear_failed_stop_state_if_recovered_locked (done_in d) q).1) in *.
  assert (spawn q q1 n l = l) as Hsp.
  { eapply spawn_old; [exact H | by eapply life_task_lt]. }
  assert (life_ok q1 l d (S (S n)) st) as H2
    by (apply (life_same q1 q1 l d n); [done | lia | done]).
  destruct Hc as [Hc | [[Hc Hr] | (Hr & Hst & Hok & Hr' & Hs' & Ht' & Hq & _)]];
    simplify_eq/=.
  - rewrite Hsp. split; [|by left]. destruct (_running q1) eqn:Er; [|done].
    destruct st as [c|]; [|done].
    destruct (lo_stop _ _ _ _ _ H2 c eq_refl). congruence.
  - rewrite Hsp. split; [|by left]. rewrite Hr.
    destruct st as [c|]; [|done].
    destruct (lo_stop _ _ _ _ _ H2 c eq_refl). congruence.
  - assert (l = []) as ->.
    { destruct l as [|p l]; [done |]. destruct (lo_live _ _ _ _ _ H1) as [_ Hl].
      destruct (Hl p) as (_ & _ & [?|?]); [by left | congruence..]. }
    rewrite Hr'. split; [|right; split; [done | by rewrite Hq; apply Hm]].
    assert (life_ok q1 [] d n None) as H3.
    { split; [apply live_nil | done | done | apply (lo_fresh _ _ _ _ _ H1)]. }
    destruct lr.
    + rewrite (spawn_eq q q' n [] d st) by done. by apply (life_spawn q1 q' n); [|lia|..].
    + rewrite (spawn_old q q' n [] d st); [| done |].
      2:{ rewrite Ht'. by eapply life_task_lt. }
      split; [apply live_nil | done | done |].
      rewrite Ht'. apply (lo_fresh _ _ _ _ _ H2).
Qed.

Lemma life_ensure q l d n st lr :
  life_ok q l d n st →
  let q' := ensure_processor_started (done_in d) lr n q in
  life_ok q' (spawn q q' n l) d (S n) st ∧ same_msgs q q' ∧
  (spawn q q' n l = l ∨ l = []).
Proof.
  intros H q'. unfold q', ensure_processor_started.
  assert (life_ok q l d (S n) st) as Hs
    by (apply (life_same q q l d n); [done | lia | done]).
  destruct (task_active (done_in d) q) eqn:Ea; cbn [negb].
  - rewrite andb_false_r. simpl.
    rewrite (spawn_old q q n l d st) by (done || by eapply life_task_lt).
    by split_and!; [| | left].
  - pose proof (live_active _ _ _ (lo_live _ _ _ _ _ H) Ea) as ->.
    rewrite andb_true_r. simpl. case_match eqn:E.
    + apply andb_true_iff in E as [[Er _]%andb_true_iff _]. simpl in Er. split_and!; [| done | by right].
      assert (st = None) as ->.
      { destruct st as [c|]; [|done].
        destruct (lo_stop _ _ _ _ _ H c eq_refl). congruence. }
      rewrite (spawn_eq q _ n [] d None) by done.
      by apply (life_spawn q _ n); [|lia|..].
    + rewrite (spawn_old q _ n [] d st) by done. split_and!; [|done | by left].
      destruct Hs as [_ H2 _ H4]. split; [apply live_nil | done | done |].
      intros t [?|?]; [done | auto].
Qed.

(** The clean-up calls of a stop. *)
Lemma life_complete q l d n c te ee :
  (∀ p, p ∈ l → te = false) →
  life_ok q l d n (Some c) →
  life_ok q l d n (Some {| sc_task := sc_task c; sc_executor := sc_executor c;
    sc_task_complete := te; sc_executor_complete := ee |}).
Proof.
  intros Ht [H1 H2 H3 H4]. split; [done | | done | done].
  intros ? [= <-]. destruct (H2 c eq_refl) as [Hr Hp]. split; [done |].
  intros p Hl. simpl. split; [by apply Hp | by eapply Ht].
Qed.

Lemma finalize_cases done c (q : @mq Call) :
  let q' := _finalize_stop_state done c q in
  q' = q ∨
  (sc_task_complete c = true ∧ _running q' = _running q ∧ _queue q' = _queue q ∧
   (_processor_task q' = _processor_task q ∨ _processor_task q' = None)).
Proof.
  unfold _finalize_stop_state.
  destruct (sc_task_complete c), (sc_executor_complete c); simpl; try by left.
  right. split; [done |].
  set (qa := if opt_is (sc_task c) (_processor_task q) then _ else q).
  assert (_running qa = _running q ∧ _queue qa = _queue q ∧
    (_processor_task qa = _processor_task q ∨ _processor_task qa = None)) as (Hr & Hq & Ht).
  { unfold qa. case_match; simpl; auto. }
  clearbody qa.
  set (qb := if opt_is (sc_executor c) (_executor qa) then _ else qa).
  assert (_running qb = _running q ∧ _queue qb = _queue q ∧
    (_processor_task qb = _processor_task q ∨ _processor_task qb = None)) as Hb.
  { unfold qb. case_match; simpl; auto. }
  clearbody qb. destruct Hb as (Hrb & Hqb & Htb).
  case_match; [|simpl; auto].
  destruct (clear_cases done qb) as [-> | [-> _]]; simpl; auto.
Qed.

Lemma life_finalize q l d n c :
  life_ok q l d n (Some c) →
  life_ok (_finalize_stop_state (done_in d) c q) l d n (Some c) ∧
  (_finalize_stop_state (done_in d) c q = q ∨
   l = [] ∧ _queue (_finalize_stop_state (done_in d) c q) = _queue q).
Proof.
  intros H. destruct (finalize_cases (done_in d) c q) as [-> | (Hc & Hr & Hq & Ht)];
    [by split; [|left] |].
  destruct (lo_stop _ _ _ _ _ H c eq_refl) as [Hr0 Hp].
  assert (l = []) as ->.
  { destruct l as [|p l]; [done |]. destruct (Hp p) as [_ ?]; [by left | congruence]. }
  split; [|by right]. split; [apply live_nil | | done |].
  - intros ? [= <-]. by rewrite Hr.
  - intros t Ht'. apply (lo_fresh _ _ _ _ _ H). destruct Ht', Ht; (congruence || auto).
    left. congruence.
Qed.

(** The same for a stop whose task is none of the coroutines. *)
Lemma finalize_live q l d c :
  stop_complete c l → late_finalize_safe q l → live_ok q l d →
  let q' := _finalize_stop_state (done_in d) c q in
  live_ok q' l d ∧ (l = [] ∨ same_msgs q q').
Proof.
  intros (Hc & He & Ht) Hs H q'. destruct l as [|p l]; [split; [apply live_nil | by left] |].
  destruct (proj2 H p ltac:(by left)) as (Hp & Hd & Hrs). specialize (Ht p ltac:(by left)).
  unfold q', _finalize_stop_state. rewrite Hc, He. simpl.
  assert (opt_is (sc_task c) (_processor_task q) = false) as ->.
  { destruct (sc_task c) as [t|]; [|done]. simpl. rewrite bool_decide_eq_false. congruence. }
  set (qb := if opt_is (sc_executor c) (_executor q) then _ else q).
  assert (same_life q qb ∧ same_msgs q qb ∧ _stop_failed qb = _stop_failed q) as (Hl & Hm & Hf)
    by (unfold qb; by case_match).
  clearbody qb. pose proof (live_same _ _ _ _ Hl H) as Hb. rewrite Hf.
  destruct (_stop_failed q) eqn:Ef.
  - destruct (clear_cases (done_in d) qb) as [-> | (_ & _ & _ & Ha & _)]; [by split; [|right] |].
    by apply live_active with (1 := Hb) in Ha.
  - destruct Hs as [Hs | [? | ?]]; [|congruence..].
    split; [|by right]. split; [apply H |]. intros p0 Hp0.
    destruct (proj2 Hb p0 Hp0) as (? & ? & [?|Hst]); [by split_and!; auto |].
    destruct Hl as (_ & _ & Hl). congruence.
Qed.

Lemma sys_late q l d n st c acc fin lost :
  stop_complete c l → late_finalize_safe q l →
  life_ok q l d n st → Forall (proc_ok q) l → msgs_ok q (all_pending l) acc fin lost →
  let q' := _finalize_stop_state (done_in d) c q in
  life_ok q' l d n st ∧ (l = [] ∨ same_msgs q q') ∧ _queue q' = _queue q.
Proof.
  intros Hc Hs Hl Hp Hm q'. destruct (finalize_live q l d c Hc Hs (lo_live _ _ _ _ _ Hl)) as [H1 H2].
  assert (_running q' = _running q ∧ _queue q' = _queue q ∧
    (_processor_task q' = _processor_task q ∨ _processor_task q' = None)) as (Hr & Hq & Ht).
  { unfold q'. destruct (finalize_cases (done_in d) c q) as [-> | (_ & ? & ? & ?)]; auto. }
  split_and!; [|done|done]. destruct Hl as [_ L2 L3 L4]. split; [done | | |].
  - rewrite Hr. exact L2.
  - rewrite Hr. exact L3.
  - intros t [E|E]; apply L4; [left | by right]. destruct Ht; congruence.
Qed.

(** *** Preservation of the other invariants *)

Lemma procs_fields q q' l :
  _has_current q' = _has_current q → _last_send_mono q' = _last_send_mono q →
  _message_delay q' = _message_delay q →
  Forall (proc_ok q) l → Forall (proc_ok q') l.
Proof.
  intros Hc Hm Hd H. eapply Forall_impl; [exact H |]. intros p [H1 H2]. split.
  - by rewrite Hc.
  - by rewrite Hm, Hd.
Qed.
Lemma procs_same q q' l : same_msgs q q' → Forall (proc_ok q) l → Forall (proc_ok q') l.
Proof. intros (_ & Hc & Hm & Hd). by apply procs_fields. Qed.

Lemma msgs_same q q' held acc fin lost :
  _queue q' = _queue q → msgs_ok q held acc fin lost → msgs_ok q' held acc fin lost.
Proof.
  intros Hq [H1 H2 H3]. by split; rewrite ?Hq; [| |unfold queue_size; rewrite Hq].
Qed.

Lemma procs_new q i : Forall (proc_ok q) [{| p_id := i; p_pc := PcTop; p_cur := None |}].
Proof. by repeat constructor. Qed.

(** A segment of the only coroutine alive. *)
Lemma msgs_seg q sg ms acc fin lost :
  seg_ok q ms sg → msgs_ok q ms acc fin lost →
  msgs_ok (sg_q sg) (seg_pending sg) acc (fin ++ fate_finished (sg_fate sg))
    (lost ++ fate_lost (sg_fate sg)).
Proof.
  intros [_ S2 S3 S4 _] [H1 H2 H3]. split; [| |auto].
  - etrans; [|exact H1]. rewrite <-app_assoc. by apply sublist_app.
  - rewrite H2, S3, <-!app_assoc. apply Permutation_app_head, Permutation_app_swap_app.
Qed.

Lemma msgs_enqueue q q' m a wait timeout t0 now now2 held acc fin lost :
  enqueue_attempt m wait timeout t0 now now2 q = (a, q') →
  msgs_ok q held acc fin lost →
  msgs_ok q' held (acc ++ match a with Enqueued => [m] | _ => [] end) fin lost ∧
  same_life q q' ∧
  (_has_current q' = _has_current q ∧ _last_send_mono q' = _last_send_mono q ∧
   _message_delay q' = _message_delay q).
Proof.
  intros E [H1 H2 H3]. unfold enqueue_attempt in E.
  destruct (MAX_QUEUE_SIZE <=? queue_size q) eqn:Ef; z_bool_hyps.
  - assert (_queue q' = _queue q ∧ a ≠ Enqueued ∧ same_life q q' ∧
      _has_current q' = _has_current q ∧ _last_send_mono q' = _last_send_mono q ∧
      _message_delay q' = _message_delay q) as (Hq & Ha & ?).
    { repeat case_match; simplify_eq; done. }
    split; [|done]. destruct a; [done | |]; rewrite app_nil_r;
      by apply (msgs_same q).
  - simplify_eq. split; [|done]. split; simpl.
    + rewrite !app_assoc. apply sublist_app; [|done]. by rewrite <-app_assoc.
    + rewrite H2. rewrite <-!app_assoc. done.
    + unfold queue_size in *. simpl. rewrite length_app. simpl. lia.
Qed.


(** *** The steps *)

Lemma live_single q l1 p l2 d : live_ok q (l1 ++ p :: l2) d → l1 = [] ∧ l2 = [].
Proof. intros H%live_exit. by apply app_eq_nil in H. Qed.

Lemma pending_new i : all_pending [{| p_id := i; p_pc := PcTop; p_cur := None |}] = [].
Proof. done. Qed.

(** A step that changes the queue and perhaps creates a coroutine when there is
    none. *)
Lemma msgs_spawn q q' n l acc fin lost :
  (spawn q q' n l = l ∨ l = []) → _queue q' = _queue q →
  msgs_ok q (all_pending l) acc fin lost →
  msgs_ok q' (all_pending (spawn q q' n l)) acc fin lost.
Proof.
  intros Hl Hq H. apply (msgs_same q); [done |].
  destruct Hl as [-> | ->]; [done |]. unfold spawn. by case_match.
Qed.

Lemma procs_spawn q q' n l :
  (spawn q q' n l = l ∧ same_msgs q q' ∨ l = []) → Forall (proc_ok q) l →
  Forall (proc_ok q') (spawn q q' n l).
Proof.
  intros [[-> H] | ->] Hl; [by eapply procs_same |].
  unfold spawn. case_match; [apply procs_new | done].
Qed.

Lemma sys_process q l1 p l2 d n st acc fin lost sg :
  life_ok q (l1 ++ p :: l2) d n st →
  msgs_ok q (all_pending (l1 ++ p :: l2)) acc fin lost →
  seg_ok q (pending p) sg →
  life_ok (sg_q sg) (procs_after p sg l1 l2) (done_after p sg d) n st ∧
  Forall (proc_ok (sg_q sg)) (procs_after p sg l1 l2) ∧
  msgs_ok (sg_q sg) (all_pending (procs_after p sg l1 l2)) acc
    (fin ++ fate_finished (sg_fate sg)) (lost ++ fate_lost (sg_fate sg)).
Proof.
  intros Hl Hm Hs. destruct (live_single _ _ _ _ _ (lo_live _ _ _ _ _ Hl)) as [-> ->].
  simpl in *. unfold all_pending in Hm. simpl in Hm. rewrite app_nil_r in Hm.
  pose proof (msgs_seg _ _ _ _ _ _ Hs Hm) as Hm'.
  pose proof (life_same q (sg_q sg) _ _ n n _ (so_life _ _ _ Hs) (le_n n) Hl) as Hl'.
  unfold procs_after, done_after, seg_pending in *.
  destruct (sg_pc sg) eqn:Ec; try (apply (life_exit _ []); done);
    try (split_and!;
      [ by apply (life_replace _ [] p)
      | constructor; [|constructor]; rewrite <-Ec; apply (so_proc _ _ _ Hs); congruence
      | unfold all_pending, pending; simpl; by rewrite ?app_nil_r]).
  split_and!; [by apply (life_exit _ [] p []) | done | done].
Qed.

Lemma filter_live q l d t :
  live_ok q l d → filter (λ p, p_id p ≠ t) l = l ∧ filter (λ p, p_id p = t) l = [] ∨
  filter (λ p, p_id p ≠ t) l = [] ∧ filter (λ p, p_id p = t) l = l.
Proof.
  intros [Hl _]. destruct l as [|p [|??]]; [by left | | simpl in Hl; lia].
  rewrite !filter_cons, !filter_nil. repeat case_decide; auto; congruence.
Qed.

Lemma sys_loop_closed q l d n c t acc fin lost :
  sc_task c = Some t →
  life_ok q l d n (Some c) → Forall (proc_ok q) l →
  msgs_ok q (all_pending l) acc fin lost →
  let l' := filter (λ p, p_id p ≠ t) l in
  life_ok q l' d n (Some {| sc_task := sc_task c; sc_executor := sc_executor c;
    sc_task_complete := true; sc_executor_complete := sc_executor_complete c |}) ∧
  Forall (proc_ok q) l' ∧
  msgs_ok q (all_pending l') acc fin
    (lost ++ all_pending (filter (λ p, p_id p = t) l)).
Proof.
  intros Ht Hl Hp Hm l'.
  assert (l' = []) as Hnil.
  { unfold l'. destruct (filter_live q l d t (lo_live _ _ _ _ _ Hl)) as [[E _]|[E _]]; [|done].
    destruct l as [|p l0]; [done |]. exfalso.
    destruct (lo_stop _ _ _ _ _ Hl c eq_refl) as [_ Hs].
    destruct (Hs p) as [Hs1 _]; [by left |].
    assert (p ∈ filter (λ p, p_id p ≠ t) (p :: l0)) as Hin by (rewrite E; by left).
    apply list_elem_of_filter in Hin as [Hin _]. congruence. }
  assert (filter (λ p, p_id p = t) l = l) as Hall.
  { destruct (filter_live q l d t (lo_live _ _ _ _ _ Hl)) as [[E1 E2]|[_ E]]; [|done].
    unfold l' in Hnil. by rewrite E2, <-E1, Hnil. }
  rewrite Hnil, Hall. split_and!; [| done |].
  - apply life_complete; [intros p Hin; by apply elem_of_nil in Hin |].
    destruct Hl as [H1 H2 H3 H4]. split; [apply live_nil | | done | done].
    intros c' Hc. split; [by apply (H2 c') |]. intros p Hin. by apply elem_of_nil in Hin.
  - destruct Hm as [H1 H2 H3]. split; [| |done]; simpl.
    + etrans; [|exact H1]. apply sublist_app; [done |]. by apply sublist_inserts_l.
    + rewrite H2, <-!app_assoc. done.
Qed.

(** The parts of a state a step leaves alone come back as they were. *)
Lemma sys_start q l d n st lr delay q' ok acc fin lost :
  start (done_in d) lr n (S n) delay q = (q', ok) →
  life_ok q l d n st → Forall (proc_ok q) l → msgs_ok q (all_pending l) acc fin lost →
  life_ok q' (spawn q q' n l) d (S (S n)) (if _running q' then None else st) ∧
  Forall (proc_ok q') (spawn q q' n l) ∧
  msgs_ok q' (all_pending (spawn q q' n l)) acc fin lost.
Proof.
  intros E Hl Hp Hm. destruct (life_start _ _ _ _ _ _ _ _ _ Hl E) as [Hl' Hc].
  split_and!; [done | |].
  - apply procs_spawn; [|done]. destruct Hc as [|[-> _]]; auto.
  - apply msgs_spawn; [| | done]; destruct Hc as [[? Hs]|[? ?]]; auto. apply Hs.
Qed.

Lemma sys_ensure q l d n st lr acc fin lost :
  life_ok q l d n st → Forall (proc_ok q) l → msgs_ok q (all_pending l) acc fin lost →
  let q' := ensure_processor_started (done_in d) lr n q in
  life_ok q' (spawn q q' n l) d (S n) st ∧
  Forall (proc_ok q') (spawn q q' n l) ∧
  msgs_ok q' (all_pending (spawn q q' n l)) acc fin lost.
Proof.
  intros Hl Hp Hm q'. destruct (life_ensure _ _ _ _ _ lr Hl) as (Hl' & Hs & Hc).
  split_and!; [done | |].
  - apply procs_spawn; [|done]. destruct Hc as [Hc|Hc]; [left; by split | by right].
  - apply msgs_spawn; [done | apply Hs | done].
Qed.

Lemma sys_clear q l d n st acc fin lost q1 :
  (_clear_failed_stop_state_if_recovered_locked (done_in d) q).1 = q1 →
  life_ok q l d n st → Forall (proc_ok q) l → msgs_ok q (all_pending l) acc fin lost →
  life_ok q1 l d n st ∧ Forall (proc_ok q1) l ∧ msgs_ok q1 (all_pending l) acc fin lost.
Proof.
  intros <- Hl Hp Hm. pose proof (clear_same_msgs (done_in d) q) as Hs.
  split_and!; [by apply life_clear | by apply (procs_same q) |].
  apply (msgs_same q); [apply Hs | done].
Qed.

Lemma sys_enqueue q l d n st m wait timeout t0 now now2 a q' acc fin lost (ok : bool) :
  (if ok then enqueue_attempt m wait timeout t0 now now2 q else (Refused, q)) = (a, q') →
  life_ok q l d n st → Forall (proc_ok q) l → msgs_ok q (all_pending l) acc fin lost →
  life_ok q' l d n st ∧ Forall (proc_ok q') l ∧
  msgs_ok q' (all_pending l) (acc ++ match a with Enqueued => [m] | _ => [] end)
    fin lost.
Proof.
  intros E Hl Hp Hm. destruct ok; [|simplify_eq; by rewrite app_nil_r].
  destruct (msgs_enqueue _ _ _ _ _ _ _ _ _ _ _ _ _ E Hm) as (Hm2 & Hl2 & ? & ? & ?).
  split_and!; [by apply (life_same q q' l d n) | by apply (procs_fields q) | done].
Qed.

Lemma sys_cancel q l1 p l2 d n st acc fin lost :
  life_ok q (l1 ++ p :: l2) d n st →
  msgs_ok q (all_pending (l1 ++ p :: l2)) acc fin lost →
  let sg := seg_cancelled (p_pc p) (p_cur p) q in
  life_ok (sg_q sg) (l1 ++ l2) ({[ p_id p ]} ∪ d) n st ∧
  Forall (proc_ok (sg_q sg)) (l1 ++ l2) ∧
  msgs_ok (sg_q sg) (all_pending (l1 ++ l2)) acc fin (lost ++ fate_lost (sg_fate sg)).
Proof.
  intros Hl Hm sg.
  destruct (sys_process q l1 p l2 d n st acc fin lost sg) as (H1 & H2 & H3);
    [done | done | apply seg_cancelled_ok |].
  split_and!; [done | done |].
  assert (fate_finished (sg_fate sg) = []) as E
    by (unfold sg, seg_cancelled; by destruct (p_pc p), (p_cur p)).
  by rewrite E, app_nil_r in H3.
Qed.

Lemma sys_stop q l d n st q' c acc fin lost :
  stop_begin q = Some (q', c) →
  life_ok q l d n st → Forall (proc_ok q) l → msgs_ok q (all_pending l) acc fin lost →
  life_ok q' l d n (Some c) ∧ Forall (proc_ok q') l ∧
  msgs_ok q' (all_pending l) acc fin lost.
Proof.
  intros E [[H0 H1] H2 H3 H4] Hp Hm. unfold stop_begin in E.
  destruct (_running q) eqn:Er; simplify_eq/=.
  split_and!; [|by apply (procs_fields q) | by apply (msgs_same q)].
  split; [| | done | done].
  - split; [done |]. intros p Hin. destruct (H1 p Hin) as (? & ? & _). auto.
  - intros ? [= <-]. simpl. split; [done |]. intros p Hin.
    destruct (H1 p Hin) as (Ht & _). by rewrite Ht.
Qed.

Lemma step_ok s s' : step s s' → sys_ok s → sys_ok s'.
Proof.
  intros Hstep. unfold sys_ok.
  destruct Hstep as [| q l d n now st db acc fin lost lr delay q' ok E
    | q l d n now st db acc fin lost lr q' E
    | q l d n now st db acc fin lost m wait timeout t0 now2 q1 q' ok a E1 E2
    | q l d n now st db acc fin lost m timeout t0 now2 q' a E
    | q l1 p l2 d n now now' wall st db acc fin lost ans1 ans2 out sg Hn E
    | q l1 p l2 d n now st db acc fin lost
    | q l d n now st db acc fin lost q' c E
    | | q l d n now c t db acc fin lost Ht Hd
    | q l d n now c t db acc fin lost Ht
    | | q l d n now c db acc fin lost
    | | q l d n now st c db acc fin lost Hc Hs
    | q l d n now st db acc fin lost q' ok E]; simpl; intros (Hl & Hp & Hm).
  - done.
  - by eapply sys_start.
  - rewrite <-E. by apply sys_ensure.
  - destruct (sys_clear q l d n st acc fin lost q1) as (? & ? & ?); try done.
    { by rewrite <-guard_clear, E1. }
    by eapply sys_enqueue.
  - by eapply sys_enqueue.
  - apply (sys_process q); [done | done |]. eapply resume_ok; [|done].
    rewrite Forall_app, Forall_cons in Hp. apply Hp.
  - by apply sys_cancel.
  - by eapply sys_stop.
  - split_and!; [by apply (life_same q _ _ _ n) | by apply (procs_fields q) | by apply (msgs_same q)].
  - split_and!; [|done..]. apply life_complete; [|done].
    intros p Hin. destruct (lo_stop _ _ _ _ _ Hl c eq_refl) as [_ H].
    destruct (H p Hin) as [Ht' _]. destruct (lo_live _ _ _ _ _ Hl) as [_ H'].
    destruct (H' p Hin) as (_ & Hd' & _). congruence.
  - by apply sys_loop_closed.
  - split_and!; [|done..]. apply life_complete; [|done].
    intros p Hin. by destruct (proj2 (lo_stop _ _ _ _ _ Hl c eq_refl) p Hin).
  - destruct (life_finalize _ _ _ _ _ Hl) as [Hl' [-> | [-> Hq]]]; [done |].
    split_and!; [done | done | by apply (msgs_same q)].
  - split_and!; [by apply (life_same q _ _ _ n) | by apply (procs_fields q) | by apply (msgs_same q)].
  - destruct (sys_late q l d n st c acc fin lost) as (? & Hm' & ?); try done.
    split_and!; [done | | by apply (msgs_same q)].
    destruct Hm' as [-> | Hm']; [done | by apply (procs_same q)].
  - pose proof (f_equal fst E) as E1. simpl in E1. subst q'.
    destruct (reset_clear (done_in d) q) as [-> | ->]; [done |].
    by eapply sys_clear.
Qed.

Lemma init_ok now db : sys_ok (sys_init now db).
Proof.
  split_and!; simpl; [split | done | split]; simpl; try done.
  - apply live_nil.
  - intros t [?|?%not_elem_of_empty]; done.
Qed.

Lemma reachable_sys_ok now db s : reachable now db s → sys_ok s.
Proof. intros H. eapply star_invariant; [exact step_ok | exact H | apply init_ok]. Qed.
End system.
