(* ===== verification/QueueProps.v ===== *)
(** * Message queue: properties

    What the queue promises to its callers: one processor, first-in first-out
    delivery, no message lost unnoticed, the bound on its size, the minimum
    delay between sends, the meaning of [drain], recovery after a failed stop,
    and what happens when the clean-up of an old stop comes late.  The
    properties of reachable states come from the invariant of [QueueSystem]. *)

From Stdlib Require Import String QArith Lqa.
From stdpp Require Import base tactics list numbers gmap sets.
From S2P Require Import Prelude PyStr PyValue MessageMap QueueState QueueSystem.
Open Scope Z_scope.

(** ** An execution used by the witnesses

    Start, accept two messages, send the first; the second waits for the delay. *)

Definition demo_msg (n : nat) : @queued_message nat := make_message 0 n (u "m") None.
Definition demo_q1 : @mq nat := (start (done_in ∅) true 0 1 2.5 mq_init).1.
Definition demo_q2 := (enqueue_attempt (demo_msg 1) false None 0 0 0 demo_q1).2.
Definition demo_q3 := (enqueue_attempt (demo_msg 2) false None 0 0 0 demo_q2).2.
Definition demo_proc (c : pc) (m : option (@queued_message nat)) :=
  {| p_id := 0; p_pc := c; p_cur := m |}.
Definition demo_seg4 := seg_top 1 (Some true) (Some true) None demo_q3.
Definition demo_seg5 := seg_sent (demo_msg 1) 1 1 SendNone (sg_q demo_seg4).
Definition demo_seg6 := seg_top 1 (Some true) (Some true) None (sg_q demo_seg5).
Definition demo_sys (q : @mq nat) (l : list proc) (now : Q) acc fin : @sys nat table :=
  Sys q l ∅ 2 now None [] acc fin [].
Definition demo_before : @sys nat table :=
  demo_sys (sg_q demo_seg5) [demo_proc PcTop None] 1 [demo_msg 1; demo_msg 2] [demo_msg 1].
Definition demo : @sys nat table :=
  demo_sys (sg_q demo_seg6) [demo_proc (sg_pc demo_seg6) (sg_cur demo_seg6)] 1
    [demo_msg 1; demo_msg 2] [demo_msg 1].
Definition demo_idle : @sys nat table := demo_sys demo_q1 [demo_proc PcTop None] 0 [] [].

Lemma demo_idle_reachable : reachable 0 [] demo_idle.
Proof.
  eapply star_step; [|apply star_refl].
  apply (step_start mq_init [] ∅ 0 0 None [] [] [] [] true 2.5 demo_q1 true).
  reflexivity.
Qed.

(** Runs one step of the demonstration and normalises the state reached. *)
Ltac run tac :=
  eapply star_step; [tac; vm_compute; first [reflexivity | discriminate] |]; vm_compute.

Lemma demo_reachable : reachable 0 [] demo.
Proof.
  eapply star_trans; [apply demo_idle_reachable |]. vm_compute.
  run ltac:(eapply (step_enqueue _ _ _ _ _ _ _ _ _ _ (demo_msg 1) false None 0 0)).
  run ltac:(eapply (step_enqueue _ _ _ _ _ _ _ _ _ _ (demo_msg 2) false None 0 0)).
  do 3 run ltac:(eapply (step_process _ [] _ [] _ _ _ 1 1 _ _ _ _ _
    (Some true) (Some true) SendNone)).
  apply star_refl.
Qed.

(** Two stops; the trailing clean-up call of the first one comes again while the
    second waits for its coroutine: a third start makes a second processor. *)
Definition demo_ctx (t e : nat) (b : bool) : stop_ctx :=
  {| sc_task := Some t; sc_executor := Some e;
     sc_task_complete := b; sc_executor_complete := b |}.

Lemma demo_stops_reachable :
  reachable 0 ([] : table)
    (Sys (MQ [] (Some 2%nat) (Some 3%nat) false true false false false false 0 0 2.5 0 None)
       [{| p_id := 2; p_pc := PcTop; p_cur := None |}] {[ 0%nat ]} 4 0
       (Some (demo_ctx 2 3 false)) ([] : table) ([] : list (@queued_message nat)) [] []).
Proof.
  eapply star_trans; [apply demo_idle_reachable |].
  eapply star_step; [by eapply (step_stop _ _ _ _ _ _ _ _ _ _ _ (demo_ctx 0 1 false)) |].
  eapply star_step; [apply (step_cancel _ [] (demo_proc PcTop None) []) |].
  eapply star_step; [apply (step_task_done _ _ _ _ _ _ 0); [done | set_solver] |].
  eapply star_step; [apply step_executor_done |].
  eapply star_step; [apply step_finalize |].
  eapply star_step; [by eapply (step_start _ _ _ _ _ _ _ _ _ _ true 2.5) |].
  eapply star_step; [by eapply (step_stop _ _ _ _ _ _ _ _ _ _ _ (demo_ctx 2 3 false)) |].
  replace ({[ 0%nat ]} : gset nat) with ({[ 0%nat ]} ∪ ∅ : gset nat) by set_solver.
  apply star_refl.
Qed.

Lemma late_finalize_two_processors :
  ∃ s : @sys nat table, star any_step (sys_init 0 []) s ∧ length (s_procs s) = 2%nat.
Proof.
  eexists. split.
  - eapply star_trans.
    { apply reachable_any, demo_stops_reachable. }
    eapply star_step.
    { apply (any_late _ _ _ _ _ _ (demo_ctx 0 1 true)). split_and!; [done | done |].
      by intros p ->%list_elem_of_singleton. }
    eapply star_step; [|apply star_refl]. apply any_safe.
    by eapply (step_start _ _ _ _ _ _ _ _ _ _ true 2.5).
  - done.
Qed.

(** ** Helper lemmas *)

Section helpers.
Context {Call : Type} {T : Type} `{!MessageMapStore T}.
Implicit Types (q : @mq Call) (s : @sys Call T).

Lemma start_clean done_ lr t e delay q :
  _stop_failed q = false → _running q = false → _stopping q = false →
  (start done_ lr t e delay q).2 = true ∧ _running (start done_ lr t e delay q).1 = true.
Proof.
  intros Hf Hr Hs. unfold start, _clear_failed_stop_state_if_recovered_locked.
  rewrite Hf. simpl. rewrite Hf, Hr, Hs. simpl. destruct lr, (_executor q); done.
Qed.

(** A segment that hands its message to the executor checked the connection,
    and either nothing was sent before or the delay since then has passed. *)
Lemma seg_send_sending m now ans q :
  sg_pc (seg_send m now ans q) = PcSending →
  ans = Some true ∧ sg_cur (seg_send m now ans q) = Some m ∧
  sg_q (seg_send m now ans q) = set_flight true (_has_current q) q.
Proof.
  unfold seg_send, requeue_and_sleep. destruct ans as [[]|]; simpl; try done.
  - by destruct (_executor q).
  - by destruct (_requeue_message m q).
Qed.

Lemma seg_check_sending m now ans1 ans2 q :
  sg_pc (seg_check m now ans1 ans2 q) = PcSending →
  ans1 = Some true ∧ ans2 = Some true ∧
  (0 < _last_send_mono q → _last_send_mono q + _message_delay q <= now)%Q.
Proof.
  unfold seg_check. destruct ans1 as [[]|]; [|done..].
  destruct (qlt 0 _) eqn:E0; [destruct (qlt (now - _) _) eqn:E1 |]; [done | |];
    intros [-> _]%seg_send_sending; split_and!; try done; q_bool; lra.
Qed.

Lemma seg_top_sending now ans1 ans2 cur q :
  sg_pc (seg_top now ans1 ans2 cur q) = PcSending →
  _running q = true ∧ ans1 = Some true ∧ ans2 = Some true ∧
  (0 < _last_send_mono q → _last_send_mono q + _message_delay q <= now)%Q.
Proof.
  unfold seg_top. destruct (_running q) eqn:Er; [|done]. simpl.
  destruct cur as [m|]; [|destruct (_queue q) as [|m l]; [done |]];
    intros H%seg_check_sending; auto.
Qed.

Lemma resume_sending q p wall now ans1 ans2 out sg :
  proc_ok q p → resume wall now ans1 ans2 out p q = Some sg →
  sg_pc sg = PcSending →
  ans1 = Some true ∧ ans2 = Some true ∧
  (0 < _last_send_mono q → _last_send_mono q + _message_delay q <= now)%Q.
Proof.
  intros [_ Hp] E Hs. unfold resume in E.
  destruct (p_pc p), (p_cur p); simplify_eq;
    try (by apply seg_top_sending in Hs as (_ & ? & ? & ?));
    try (destruct (qle until now) eqn:Eu; simplify_eq);
    try (by apply seg_top_sending in Hs as (_ & ? & ? & ?)); try done.
  - unfold seg_after_delay, requeue_and_sleep in Hs.
    destruct ans1 as [[]|]; [|by destruct (_requeue_message _ q)|done].
    apply seg_send_sending in Hs as [-> _]. split_and!; [done..|].
    destruct Hp as [_ Hp]. q_bool. lra.
  - unfold seg_sent in Hs. repeat case_match; by simplify_eq/=.
Qed.
End helpers.

(** ** Properties *)

Section properties.
Context {Call : Type} {T : Type} `{!MessageMapStore T}.
Implicit Types (q : @mq Call) (s : @sys Call T).

(** C1: in every state reached without a late clean-up call that
    [late_finalize_safe] rules out, at most one processor coroutine is alive; it
    is the task the queue refers to, it has not finished, and the queue is
    running or being stopped: two processors never take messages from one queue.
    All other late calls of earlier stops are allowed.  The one ruled out is a
    last clean-up call of an earlier stop, made while a later stop that has not
    timed out waits for its coroutine: it clears [_stopping], and a start can
    then create a second processor (see [late_finalize_two_processors]). *)
Theorem queue_single_processor now db s :
  reachable now db s →
  (length (s_procs s) ≤ 1)%nat ∧
  ∀ p, p ∈ s_procs s →
    _processor_task (s_q s) = Some (p_id p) ∧ (p_id p ∉ s_done s) ∧
    (_running (s_q s) = true ∨ _stopping (s_q s) = true).
Proof. intros (H & _ & _)%reachable_sys_ok. apply H. Qed.

(** C2: delivery is first-in first-out: the messages already handled, then
    those in hand, then those still queued are, in this order, messages in the
    order in which [enqueue] accepted them.  This holds in every state reached
    without a late clean-up call that [late_finalize_safe] rules out (a last
    clean-up call of an earlier stop while a later stop that has not timed out
    waits for its coroutine), which can give the queue a second processor. *)
Theorem queue_fifo now db s :
  reachable now db s →
  (s_finished s ++ all_pending (s_procs s) ++ _queue (s_q s)) `sublist_of` s_accepted s.
Proof. intros (_ & _ & H)%reachable_sys_ok. apply H. Qed.

(** C33: no message is duplicated and none disappears unnoticed: the accepted
    messages are exactly those handled, those given up, those in hand and
    those queued, in every state reached without the late clean-up call that
    [late_finalize_safe] rules out. *)
Theorem queue_conservation now db s :
  reachable now db s →
  s_accepted s ≡ₚ
    s_finished s ++ s_lost s ++ all_pending (s_procs s) ++ _queue (s_q s).
Proof. intros (_ & _ & H)%reachable_sys_ok. apply H. Qed.

(** The queue never holds more than [MAX_QUEUE_SIZE] messages, whatever the
    interleaving of producers, requeues and stops. *)
Theorem queue_bounded now db s :
  reachable now db s → 0 ≤ queue_size (s_q s) ≤ MAX_QUEUE_SIZE.
Proof.
  intros (_ & _ & H)%reachable_sys_ok. pose proof (mo_bound _ _ _ _ _ H).
  unfold queue_size in *. lia.
Qed.

(** C24: rate limit: a coroutine that is resumed and hands its message to the
    executor has found the connection up in both checks, and when something was
    sent before, at least the configured delay has passed since that send.  This
    holds in every state reached without a late clean-up call that
    [late_finalize_safe] rules out (a last clean-up call of an earlier stop
    while a later stop that has not timed out waits for its coroutine): a second
    processor, which such a call can give the queue, has a pace of its own. *)
Theorem queue_rate_limit now db s p wall now' ans1 ans2 out sg :
  reachable now db s → p ∈ s_procs s →
  resume wall now' ans1 ans2 out p (s_q s) = Some sg → sg_pc sg = PcSending →
  ans1 = Some true ∧ ans2 = Some true ∧
  ((0 < _last_send_mono (s_q s))%Q →
   (_last_send_mono (s_q s) + _message_delay (s_q s) <= now')%Q).
Proof.
  intros (_ & Hp & _)%reachable_sys_ok Hin. rewrite Forall_forall in Hp.
  by apply resume_sending, Hp.
Qed.

(** When [drain] observes a state in which it returns True, nothing is
    queued, no coroutine holds an unsent message, and every accepted message
    has been handled or given up. *)
Theorem drain_complete now db s deadline t :
  reachable now db s → drain_poll deadline t (s_q s) = Some true →
  _queue (s_q s) = [] ∧ all_pending (s_procs s) = [] ∧
  s_accepted s ≡ₚ s_finished s ++ s_lost s.
Proof.
  intros (_ & Hp & Hm)%reachable_sys_ok E. unfold drain_poll in E.
  destruct (negb _) eqn:En; [|by repeat case_match]. bool_prop. z_bool_hyps.
  assert (_queue (s_q s) = []) as Hq.
  { unfold queue_size in *. destruct (_queue (s_q s)); [done | simpl in *; lia]. }
  assert (all_pending (s_procs s) = []) as Ha.
  { unfold all_pending. induction Hp as [|p l [Hc _] _ IH]; [done |]. simpl.
    destruct (pending p) eqn:Epp; [simpl; apply IH | by rewrite Hc in *].
    revert Hm. unfold all_pending. simpl. by rewrite Epp. }
  split_and!; [done | done |]. rewrite (mo_all _ _ _ _ _ Hm), Ha, Hq.
  by rewrite !app_nil_r.
Qed.

(** Functional behaviour of [queue_message] on every branch: it returns at
    once; it accepts exactly when the queue is running, not stopping, not failed
    and not full; an accepted message goes to the back, a message refused for
    lack of room is counted, and one refused for another reason is not. *)
Theorem queue_message_spec done_ lr task wall now call descr info q :
  let q1 := ensure_processor_started done_ lr task q in
  let '(q2, open) := enqueue_guard done_ q1 in
  let full := MAX_QUEUE_SIZE <=? queue_size q in
  ∃ q', queue_message done_ lr task wall now call descr info q =
          Some (q', open && negb full) ∧
    _queue q' = _queue q ++
      (if open && negb full then [make_message wall call descr info] else []) ∧
    _dropped_messages q' = _dropped_messages q + (if open && full then 1 else 0).
Proof. apply queue_message_result. Qed.

(** A waiting [enqueue] with a timeout ends: as soon as one of the turns of
    its loop reads the clock at or after the deadline, the call has returned,
    whatever the states of the queue it finds when it wakes up. *)
Theorem enqueue_wait_terminates (m : @queued_message Call) t t0 now1 now2 q wakes :
  Exists (λ w, t0 + t <= w.1.2)%Q wakes →
  ∃ r, enqueue_loop m true (Some t) t0 now1 now2 q wakes = Some r.
Proof.
  revert now1 now2 q. induction wakes as [|[[q2 n1] n2] wakes IH]; intros now1 now2 q Hex;
    [by inversion Hex |].
  cbn [enqueue_loop].
  destruct (enqueue_attempt m true (Some t) t0 now1 now2 q) as [[] q'] eqn:E; eauto.
  destruct (negb (_running q2) || _stopping q2); eauto.
  inversion Hex as [? ? Hw | ? ? Hw]; subst; [|by apply IH]. simpl in Hw.
  destruct (enqueue_attempt m true (Some t) t0 n1 n2 q2) as [a q3] eqn:E2.
  assert (a ≠ MustWait) as Ha.
  { unfold enqueue_attempt in E2. destruct (MAX_QUEUE_SIZE <=? _); [|by simplify_eq].
    destruct (qle t (n1 - t0)) eqn:Et; [by simplify_eq |]. q_bool. lra. }
  destruct wakes; cbn [enqueue_loop]; rewrite E2; destruct a; eauto; done.
Qed.

(** After a send that raised a connection error the message goes back to the
    front of the queue, the time of the last send is left alone and the
    coroutine sleeps; only when the queue is full meanwhile is the message lost,
    and then it is counted.  After any other error it is not sent again. *)
Theorem send_error_requeues (m : @queued_message Call) wall now conn err q :
  let sg := seg_sent m wall now (SendRaised conn err) q in
  _last_send_mono (sg_q sg) = _last_send_mono q ∧
  if is_connection_error conn err then
    sg_pc sg = PcSleep (now + CONNECTION_RETRY_SLEEP_SEC) ∧ sg_cur sg = None ∧
    if MAX_QUEUE_SIZE <=? queue_size q
    then _queue (sg_q sg) = _queue q ∧ sg_fate sg = Lost m ∧
         _dropped_messages (sg_q sg) = _dropped_messages q + 1
    else _queue (sg_q sg) = m :: _queue q ∧ sg_fate sg = Kept ∧
         _dropped_messages (sg_q sg) = _dropped_messages q
  else sg_pc sg = PcTop ∧ sg_fate sg = Finished m ∧ _queue (sg_q sg) = _queue q.
Proof.
  unfold seg_sent, _requeue_message.
  destruct (is_connection_error conn err); [|done].
  by destruct (MAX_QUEUE_SIZE <=? queue_size q).
Qed.

(** Progress: a running processor with an executor, empty hands and a
    connection that is up takes the oldest message and either hands it to the
    executor at once or sleeps until the delay since the last send has passed
    (no longer), after which it hands it over. *)
Theorem processor_progress p now q m l e :
  p_pc p = PcTop → p_cur p = None → _running q = true → _executor q = Some e →
  _queue q = m :: l →
  ∃ sg, resume 0 now (Some true) (Some true) SendNone p q = Some sg ∧
    _queue (sg_q sg) = l ∧ sg_cur sg = Some m ∧
    (sg_pc sg = PcSending ∨
     ∃ until, sg_pc sg = PcDelay until ∧
       (until == _last_send_mono q + _message_delay q)%Q ∧
       ∀ i now' q', (until <= now')%Q → _executor q' = Some e →
         ∃ sg', resume 0 now' (Some true) (Some true) SendNone
                  {| p_id := i; p_pc := PcDelay until; p_cur := Some m |} q' = Some sg' ∧
           sg_pc sg' = PcSending ∧ sg_cur sg' = Some m).
Proof.
  intros Hpc Hcur Hr He Hq. unfold resume. rewrite Hpc, Hcur. eexists; split; [done |].
  unfold seg_top. rewrite Hr, Hq. simpl. unfold seg_check, seg_send. simpl. rewrite He.
  destruct (qlt 0 (_last_send_mono q)); [destruct (qlt (now - _) _)|]; simpl; eauto.
  split_and!; [done | done |]. right. eexists. split_and!; [done | lra |].
  intros i now' q' Hu He'. simpl. apply qle_spec in Hu. rewrite Hu.
  unfold seg_after_delay, seg_send. rewrite He'. eauto.
Qed.

(** Recovery: whatever happened between [stop] and its last clean-up call
    (timeouts that marked the stop as failed included), once the task and the
    executor of that stop are done the clean-up leaves a queue with neither
    task nor executor nor failure, its messages untouched, and [start] then
    succeeds. *)
Theorem stop_recovers done_ lr t e delay q q1 c q2 :
  stop_begin q = Some (q1, c) → _running q2 = false →
  (_processor_task q2 = _processor_task q ∨ _processor_task q2 = None) →
  (_executor q2 = _executor q ∨ _executor q2 = None) →
  let complete := {| sc_task := sc_task c; sc_executor := sc_executor c;
                     sc_task_complete := true; sc_executor_complete := true |} in
  let q3 := _finalize_stop_state done_ complete q2 in
  _stopping q3 = false ∧ _stop_failed q3 = false ∧ _processor_task q3 = None ∧
  _executor q3 = None ∧ _queue q3 = _queue q2 ∧
  (start done_ lr t e delay q3).2 = true ∧ _running (start done_ lr t e delay q3).1 = true.
Proof.
  intros E Hr Ht He complete.
  assert (sc_task c = _processor_task q ∧ sc_executor c = _executor q) as [Hct Hce].
  { unfold stop_begin in E. destruct (_running q); by simplify_eq/=. }
  unfold _finalize_stop_state. simpl. rewrite Hct, Hce.
  set (qa := if opt_is (_processor_task q) _ then _ else _).
  assert (_processor_task qa = None ∧ _running qa = false ∧ _executor qa = _executor q2 ∧
    _queue qa = _queue q2) as (A1 & A2 & A3 & A4).
  { unfold qa, opt_is. destruct (_processor_task q) as [x|], Ht as [Ht|Ht]; rewrite ?Ht;
      try case_bool_decide; simpl; rewrite ?Ht; split_and!; congruence. }
  clearbody qa.
  set (qb := if opt_is (_executor q) _ then _ else _).
  assert (_processor_task qb = None ∧ _running qb = false ∧ _executor qb = None ∧
    _queue qb = _queue q2) as (B1 & B2 & B3 & B4).
  { unfold qb, opt_is. rewrite A3. destruct (_executor q) as [x|], He as [He|He]; rewrite ?He;
      try case_bool_decide; simpl; rewrite ?A3, ?He; split_and!; congruence. }
  clearbody qb.
  destruct (_stop_failed qb) eqn:Ef.
  - assert (_clear_failed_stop_state_if_recovered_locked done_ qb =
      (set_stop_failed false (set_run (_running qb) false (set_task None qb)), true)) as ->.
    { unfold _clear_failed_stop_state_if_recovered_locked, task_active.
      rewrite Ef, B1, B2, B3. simpl. by rewrite B2. }
    simpl. split_and!; try done; by apply start_clean.
  - simpl. split_and!; try done; by apply start_clean.
Qed.

(** While a stop is under way and its task or its executor is still there,
    the queue accepts nothing and cannot be started, whether or not the stop
    has been marked as failed. *)
Theorem stop_refuses done_ lr t e delay q :
  _running q = false → _stopping q = true →
  (task_active done_ q = true ∨ _executor q ≠ None) →
  (start done_ lr t e delay q).2 = false ∧ (enqueue_guard done_ q).2 = false ∧
  (reset_failed_stop_state done_ q).2 = false ∧
  (_processor_task (ensure_processor_started done_ lr t q) = _processor_task q ∨
   _processor_task (ensure_processor_started done_ lr t q) = None).
Proof.
  intros Hr Hs Ha.
  assert ((_clear_failed_stop_state_if_recovered_locked done_ q).1 = q) as Hc.
  { destruct (clear_cases done_ q) as [-> | (_ & _ & _ & H1 & H2)]; [done |].
    destruct Ha; congruence. }
  unfold start, enqueue_guard, reset_failed_stop_state, ensure_processor_started.
  rewrite Hc, Hr, Hs. simpl. destruct (_stop_failed q), (task_active done_ q); simpl;
    rewrite ?Hr; simpl; auto.
Qed.

(** A clean-up call of an earlier stop that arrives while a later stop is
    under way, neither its task nor its executor being those of the queue any
    more, clears [_stopping]: the queue can then be started while the task of
    the later stop is still its task, and gets a second processor. *)
Theorem late_finalize_unblocks done_ t t2 e e2 delay q q1 c c_old :
  stop_begin q = Some (q1, c) → _stop_failed q = false →
  _processor_task q = Some t → _executor q = Some e →
  sc_task_complete c_old = true → sc_executor_complete c_old = true →
  sc_task c_old ≠ Some t → sc_executor c_old ≠ Some e →
  let q2 := _finalize_stop_state done_ c_old q1 in
  _stopping q1 = true ∧ _stopping q2 = false ∧ _processor_task q2 = Some t ∧
  (start done_ true t2 e2 delay q2).2 = true ∧
  _processor_task (start done_ true t2 e2 delay q2).1 = Some t2.
Proof.
  intros E Hf Ht He Hc1 Hc2 Hn1 Hn2. unfold stop_begin in E.
  destruct (_running q) eqn:Er; simplify_eq/=.
  assert (∀ o p, o ≠ p → opt_is o p = false) as Hopt.
  { intros [x|] p Hne; simpl; [|done]. by rewrite bool_decide_eq_false_2. }
  unfold _finalize_stop_state. rewrite Hc1, Hc2. simpl.
  rewrite Ht, (Hopt _ _ Hn1). simpl. rewrite He, (Hopt _ _ Hn2). simpl. rewrite Hf. simpl.
  unfold start, _clear_failed_stop_state_if_recovered_locked. simpl. rewrite Hf.
  simpl. by rewrite Hf.
Qed.

(** A time-out of an earlier stop that is reported after the queue has been
    started again makes every later [enqueue] fail although the queue runs,
    until it is stopped. *)
Theorem late_mark_blocks done_ lr t now_wall now call descr info q q' b :
  _running q = true →
  queue_message done_ lr t now_wall now call descr info (_mark_stop_failed q) = Some (q', b) →
  b = false ∧ _running q' = true ∧ _queue q' = _queue q ∧
  _dropped_messages q' = _dropped_messages q.
Proof.
  intros Hr. unfold queue_message, enqueue, enqueue_guard.
  set (q1 := ensure_processor_started done_ lr t (_mark_stop_failed q)).
  assert (_running q1 = true ∧ _stop_failed q1 = true ∧ _queue q1 = _queue q ∧
    _dropped_messages q1 = _dropped_messages q) as (H1 & H2 & H3 & H4).
  { unfold q1, ensure_processor_started. by repeat case_match. }
  unfold _clear_failed_stop_state_if_recovered_locked. rewrite H1, H2. simpl.
  rewrite H2. by intros [= <- <-].
Qed.
End properties.

(** ** The mapping of a sent message *)

Lemma prune_keeps_last t r n :
  0 < n → ∃ l, (_prune_message_map_core (t ++ [r]) n).2 = l ++ [r].
Proof.
  intros Hn. unfold _prune_message_map_core. case_match; simpl; [|by eexists].
  rewrite length_app. simpl. rewrite drop_app_le by lia. eauto.
Qed.

(** After a send with complete mapping information for an event not stored
    yet, the map is well formed, holds at most [msgs_to_keep] rows, and returns
    this mapping for the Matrix event; it also returns it for the Meshtastic id
    when no older row has that id. *)
Theorem mapping_recorded (t : table) id (mi : mapping_info) :
  let keep := default 500 (mi_msgs_to_keep mi) in
  table_ok t → 0 < keep →
  mi_matrix_event_id mi ≠ [] → mi_room_id mi ≠ [] → mi_text mi ≠ [] →
  (∀ r, r ∈ t → mm_matrix_event_id (row_map r) ≠ mi_matrix_event_id mi) →
  let t' := _handle_message_mapping id mi t in
  table_ok t' ∧ Z.of_nat (length t') ≤ keep ∧
  get_message_map_by_matrix_event_id false t' (mi_matrix_event_id mi) =
    Some (id_key id, mi_room_id mi, mi_text mi, mi_meshnet mi) ∧
  ((∀ r, r ∈ t → mm_meshtastic_id (row_map r) ≠ id_key id) →
   get_message_map_by_meshtastic_id false t' id =
    Some (mi_matrix_event_id mi, mi_room_id mi, mi_text mi, mi_meshnet mi)).
Proof.
  intros keep Hok Hkeep He Hro Htx Hnew t'.
  assert (∀ s : pystr, s ≠ [] → nonempty s = true) as Hne by (intros []; done).
  unfold t', _handle_message_mapping. rewrite !Hne by done. simpl. fold keep.
  apply Z.ltb_lt in Hkeep as Hk. rewrite Hk.
  set (m := {| mm_meshtastic_id := id_key id |}).
  assert (upsert m t = t ++ [{| rowid := next_rowid t; row_map := m |}]) as Hu.
  { unfold upsert. destruct (existsb _ t) eqn:Ex; [|done].
    apply existsb_elem_of in Ex as (r & Hr & Hre%event_is_spec). by destruct (Hnew r Hr). }
  pose proof (prune_ok _ keep (upsert_ok m t Hok)) as Hok'.
  pose proof (prune_length (upsert m t) keep) as Hlen.
  rewrite Hu in *. destruct (prune_suffix (t ++ [{| rowid := next_rowid t; row_map := m |}]) keep)
    as [k Hsuf].
  destruct (prune_keeps_last t {| rowid := next_rowid t; row_map := m |} keep Hkeep) as [l Hl].
  rewrite Hl in *. split_and!; [done | lia | |].
  - unfold get_message_map_by_matrix_event_id.
    rewrite (select_unique _ _ {| rowid := next_rowid t; row_map := m |}); try done.
    apply elem_of_app. right. by apply list_elem_of_singleton.
  - intros Hm. unfold get_message_map_by_meshtastic_id.
    assert (select_first (mesh_is (id_key id)) (l ++ [{| rowid := next_rowid t; row_map := m |}])
            = Some m) as ->; [|done].
    assert (∀ r, r ∈ l → r ∈ t) as Hsub.
    { intros r Hr. assert (l = drop k t) as ->.
      { destruct (decide (k ≤ length t)%nat).
        - rewrite drop_app_le in Hsuf by lia. by apply app_inj_tail in Hsuf as [? _].
        - rewrite drop_ge in Hsuf by (rewrite length_app; simpl; lia). by destruct l. }
      rewrite <-(take_drop k t). apply elem_of_app. by right. }
    clear -Hm Hsub. unfold select_first. induction l as [|a l IH]; simpl.
    + unfold mesh_is. simpl. by rewrite str_eqb_refl.
    + assert (mesh_is (id_key id) a = false) as ->.
      { apply not_true_iff_false. unfold mesh_is. rewrite str_eqb_spec.
        apply Hm, Hsub. by left. }
      apply IH. intros r Hr. apply Hsub. by right.
Qed.

(** ** Witnesses *)

Lemma queue_single_processor_witness :
  s_procs demo ≠ [] ∧ (length (s_procs demo) ≤ 1)%nat.
Proof.
  split; [done |]. exact (proj1 (queue_single_processor 0 [] demo demo_reachable)).
Defined.

Lemma queue_fifo_witness :
  s_accepted demo = [demo_msg 1; demo_msg 2] ∧
  (s_finished demo ++ all_pending (s_procs demo) ++ _queue (s_q demo))
    `sublist_of` s_accepted demo.
Proof. split; [done |]. exact (queue_fifo 0 [] demo demo_reachable). Defined.

Lemma queue_conservation_witness :
  s_accepted demo ≡ₚ
    s_finished demo ++ s_lost demo ++ all_pending (s_procs demo) ++ _queue (s_q demo).
Proof. exact (queue_conservation 0 [] demo demo_reachable). Defined.

Lemma queue_bounded_witness : 0 ≤ queue_size (s_q demo) ≤ MAX_QUEUE_SIZE.
Proof. exact (queue_bounded 0 [] demo demo_reachable). Defined.

(** The second message leaves at time 4, 2.5 seconds or more after the first. *)
Lemma queue_rate_limit_witness :
  (0 < _last_send_mono (s_q demo))%Q ∧
  (_last_send_mono (s_q demo) + _message_delay (s_q demo) <= 4)%Q.
Proof.
  assert (0 < _last_send_mono (s_q demo))%Q as H by reflexivity. split; [exact H |].
  refine (proj2 (proj2 (queue_rate_limit 0 [] demo
    (demo_proc (sg_pc demo_seg6) (sg_cur demo_seg6)) 4 4 (Some true) (Some true) SendNone
    (seg_send (demo_msg 2) 4 (Some true) (s_q demo)) demo_reachable _ _ _)) H).
  - by apply list_elem_of_singleton.
  - vm_compute. reflexivity.
  - vm_compute. reflexivity.
Defined.

Lemma drain_complete_witness :
  drain_poll None 0 (s_q demo_idle) = Some true ∧ _queue (s_q demo_idle) = [].
Proof.
  split; [reflexivity |].
  exact (proj1 (drain_complete 0 [] demo_idle None 0 demo_idle_reachable eq_refl)).
Defined.

(** A full queue, and a producer that waits one second. *)
Definition full_queue : @mq nat :=
  set_queue (replicate 500 (demo_msg 0)) demo_q1.

Lemma enqueue_wait_terminates_witness :
  Exists (λ w, 0 + 1 <= w.1.2)%Q [(full_queue, 0.5%Q, 0.5%Q); (full_queue, 1%Q, 1%Q)] ∧
  ∃ r, enqueue_loop (demo_msg 7) true (Some 1%Q) 0 0 0 full_queue
         [(full_queue, 0.5%Q, 0.5%Q); (full_queue, 1%Q, 1%Q)] = Some r.
Proof.
  assert (Exists (λ w, 0 + 1 <= w.1.2)%Q
    [(full_queue, 0.5%Q, 0.5%Q); (full_queue, 1%Q, 1%Q)]) as H.
  { apply Exists_cons_tl, Exists_cons_hd. simpl. lra. }
  split; [exact H |].
  exact (enqueue_wait_terminates (demo_msg 7) 1 0 0 0 full_queue _ H).
Defined.

Lemma processor_progress_witness :
  ∃ sg, resume 0 0 (Some true) (Some true) SendNone (demo_proc PcTop None) demo_q2 = Some sg ∧
    _queue (sg_q sg) = [] ∧ sg_cur sg = Some (demo_msg 1).
Proof.
  destruct (processor_progress (demo_proc PcTop None) 0 demo_q2 (demo_msg 1) [] 1%nat
    eq_refl eq_refl eq_refl eq_refl eq_refl) as (sg & H1 & H2 & H3 & _).
  exists sg. split; [exact H1 | split; [exact H2 | exact H3]].
Defined.

(** A stop whose task clean-up timed out first. *)
Lemma stop_recovers_witness :
  let q1 := set_run false true demo_q1 in
  let c := {| sc_task := Some 0%nat; sc_executor := Some 1%nat;
              sc_task_complete := false; sc_executor_complete := false |} in
  stop_begin demo_q1 = Some (q1, c) ∧
  (start (done_in ∅) true 2 3 2.5 (_finalize_stop_state (done_in ∅)
    {| sc_task := Some 0%nat; sc_executor := Some 1%nat;
       sc_task_complete := true; sc_executor_complete := true |}
    (_mark_stop_failed q1))).2 = true.
Proof.
  intros q1 c. split; [reflexivity |].
  exact (proj1 (proj2 (proj2 (proj2 (proj2 (proj2 (stop_recovers (done_in ∅) true 2 3 2.5
    demo_q1 q1 c (_mark_stop_failed q1) eq_refl eq_refl (or_introl eq_refl)
    (or_introl eq_refl)))))))).
Defined.

Lemma stop_refuses_witness :
  (start (done_in ∅) true 2 3 2.5 (_mark_stop_failed (set_run false true demo_q1))).2 = false.
Proof.
  exact (proj1 (stop_refuses (done_in ∅) true 2 3 2.5
    (_mark_stop_failed (set_run false true demo_q1)) eq_refl eq_refl (or_introl eq_refl))).
Defined.

(** The clean-up of a stop of task 8 and executor 9 comes while task 0 stops. *)
Lemma late_finalize_unblocks_witness :
  let q1 := set_run false true demo_q1 in
  let c_old := {| sc_task := Some 8%nat; sc_executor := Some 9%nat;
                  sc_task_complete := true; sc_executor_complete := true |} in
  _stopping q1 = true ∧ _stopping (_finalize_stop_state (done_in ∅) c_old q1) = false.
Proof.
  intros q1 c_old. split; [reflexivity |].
  refine (proj1 (proj2 (late_finalize_unblocks (done_in ∅) 0 2 1 3 2.5 demo_q1 q1
    {| sc_task := Some 0%nat; sc_executor := Some 1%nat;
       sc_task_complete := false; sc_executor_complete := false |} c_old
    eq_refl eq_refl eq_refl eq_refl eq_refl eq_refl _ _))); simpl; congruence.
Defined.

Lemma late_mark_blocks_witness :
  ∃ q', queue_message (done_in ∅) true 5 0 0 3%nat [] None (_mark_stop_failed demo_q1) =
    Some (q', false) ∧ _running q' = true.
Proof.
  eexists. split; [reflexivity |].
  refine (proj1 (proj2 (late_mark_blocks (done_in ∅) true 5 0 0 3%nat [] None demo_q1
    _ false eq_refl eq_refl))).
Defined.

Definition demo_mapping : mapping_info :=
  {| mi_matrix_event_id := u "$e1"; mi_room_id := u "!r:s"; mi_text := u "hi";
     mi_meshnet := None; mi_msgs_to_keep := Some 2 |}.

Lemma mapping_recorded_witness :
  get_message_map_by_matrix_event_id false
    (_handle_message_mapping (inl 77) demo_mapping ([] : table)) (u "$e1") =
    Some (u "77", u "!r:s", u "hi", None).
Proof.
  assert (table_ok []) as Hok by (split; constructor).
  assert (∀ r : row, r ∈ ([] : table) →
    mm_matrix_event_id (row_map r) ≠ mi_matrix_event_id demo_mapping) as Hnew
    by (intros r Hr; by apply elem_of_nil in Hr).
  exact (proj1 (proj2 (proj2 (mapping_recorded [] (inl 77) demo_mapping Hok eq_refl
    ltac:(discriminate) ltac:(discriminate) ltac:(discriminate) Hnew)))).
Defined.
