(* ===== verification/Prefixes.v ===== *)
(** * Message prefixes

    Models the prefix helpers of [src/mmrelay/matrix/prefixes.py]:
    [_add_truncated_vars], [get_meshtastic_prefix], [get_matrix_prefix],
    [validate_prefix_format] and [_escape_leading_prefix_for_markdown].

    [str.format] is written out for literal text, doubled braces and plain
    fields [{name}]; the result for a format string that reaches a field with a
    conversion, a format specification, an attribute or an index is the argument
    [format_other].  [other_str] is [str()] of a configuration value that is
    neither a string nor an integer nor a boolean nor None. *)

From Stdlib Require Import String QArith.
From stdpp Require Import base tactics list numbers sets.
From S2P Require Import Prelude PyStr PyValue.
Open Scope Z_scope.

Definition MAX_TRUNCATION_LENGTH : nat := 20.
Definition DISPLAY_NAME_DEFAULT_LENGTH : nat := 5.
Definition DEFAULT_MESHTASTIC_PREFIX : pystr := u "{display5}[M]: ".
Definition DEFAULT_MATRIX_PREFIX : pystr := u "[{long}/{mesh}]: ".

(** ** [str.format] *)

Abbreviation vars := (list (pystr * pystr)).

Fixpoint vget (d : vars) (k : pystr) : option pystr :=
  match d with
  | [] => None
  | (k', v) :: d' => if str_eqb k' k then Some v else vget d' k
  end.
Fixpoint vset (d : vars) (k v : pystr) : vars :=
  match d with
  | [] => [(k, v)]
  | (k', v') :: d' => if str_eqb k' k then (k', v) :: d' else (k', v') :: vset d' k v
  end.

(** A plain field: no name or a number asks for a positional argument, and
    there are none. *)
Definition field_value (d : vars) (name : pystr) : res pystr :=
  if forallb (λ c, bool_decide (is_Some (digit_value c))) name then Raise IndexError
  else match vget d name with Some v => Ok v | None => Raise KeyError end.

(** The characters that end the name of a plain field: [{ [ . ! :] *)
Definition is_field_special (c : Z) : bool := existsb (Z.eqb c) [123; 91; 46; 33; 58].

Definition put (l : pystr) (r : option (res pystr)) : option (res pystr) :=
  match r with Some (Ok s) => Some (Ok (l ++ s)) | r => r end.

(** [field]: the characters read of the current field, last first; [None] as a
    result when a field is not plain. *)
Fixpoint simple_format (d : vars) (field : option pystr) (s : pystr)
    : option (res pystr) :=
  match field, s with
  | None, [] => Some (Ok [])
  | Some _, [] => Some (Raise ValueError)
  | None, c :: s' =>
      if c =? 123 then
        match s' with
        | [] => Some (Raise ValueError)
        | c2 :: s2 => if c2 =? 123 then put [123] (simple_format d None s2)
                      else simple_format d (Some []) s'
        end
      else if c =? 125 then
        match s' with
        | c2 :: s2 => if c2 =? 125 then put [125] (simple_format d None s2)
                      else Some (Raise ValueError)
        | [] => Some (Raise ValueError)
        end
      else put [c] (simple_format d None s')
  | Some f, c :: s' =>
      if c =? 125 then
        match field_value d (reverse f) with
        | Ok v => put v (simple_format d None s')
        | Raise e => Some (Raise e)
        end
      else if is_field_special c then None
      else simple_format d (Some (c :: f)) s'
  end.

Section prefixes.
Context (format_other : pystr → vars → res pystr) (other_str : pyval → pystr).

Definition str_format (fmt : pystr) (d : vars) : res pystr :=
  match simple_format d None fmt with Some r => r | None => format_other fmt d end.

Definition to_str (v : pyval) : pystr :=
  match v with
  | VStr s => s
  | VInt z => str_of_int z
  | VBool b => if b then u "True" else u "False"
  | VNone => u "None"
  | v => other_str v
  end.

(** ** Variables *)

Definition _add_truncated_vars (format_vars : vars) (prefix : pystr)
    (text : option pystr) : vars :=
  let text := default [] text in
  fold_left (λ d i, vset d (prefix ++ str_of_int (Z.of_nat i)) (take i text))
    (seq 1 MAX_TRUNCATION_LENGTH) format_vars.

(** The exceptions the callers of [format] handle. *)
Definition is_format_error (e : pyexc) : bool :=
  match e with
  | AttributeError | IndexError | KeyError | TypeError | ValueError => true
  | _ => false
  end.

Definition validate_prefix_format (format_string : pystr) (available_vars : vars)
    : res (bool * option pyexc) :=
  match str_format format_string available_vars with
  | Ok _ => Ok (true, None)
  | Raise e => if is_format_error e then Ok (false, Some e) else Raise e
  end.

(** ** Prefixes *)

(** The section of a direction, the switch and the format it holds. *)
Definition prefix_section (c : pydict) (section : pystr) : pydict :=
  match dget_none c section with VDict s => s | _ => [] end.
Definition prefix_format_of (s : pydict) (dflt : pystr) : pystr :=
  match dget_or s (u "prefix_format") (VStr dflt) with
  | VNone => dflt
  | v => to_str v
  end.

(** [username] and [server] of [@username:server]. *)
Definition split_user_id (user_id : option pystr) : pystr * pystr :=
  match user_id with
  | Some (64 :: rest) =>
      match split1 58 rest with
      | (username, Some server) => (username, server)
      | _ => ([], [])
      end
  | _ => ([], [])
  end.

Definition meshtastic_vars (display_name : pystr) (user_id : option pystr) : vars :=
  let '(username, server) := split_user_id user_id in
  _add_truncated_vars
    [(u "display", display_name); (u "user", default [] user_id);
     (u "username", username); (u "server", server)]
    (u "display") (Some display_name).

Definition get_meshtastic_prefix (config : pyval) (display_name : pystr)
    (user_id : option pystr) : res pystr :=
  match config with
  | VDict c =>
      let meshtastic_config := prefix_section c (u "meshtastic") in
      if negb (truthy (dget_or meshtastic_config (u "prefix_enabled") (VBool true)))
      then Ok [] else
      let prefix_format := prefix_format_of meshtastic_config DEFAULT_MESHTASTIC_PREFIX in
      match str_format prefix_format (meshtastic_vars display_name user_id) with
      | Ok r => Ok r
      | Raise e =>
          if is_format_error e then
            str_format DEFAULT_MESHTASTIC_PREFIX
              [(u "display5", take DISPLAY_NAME_DEFAULT_LENGTH display_name)]
          else Raise e
      end
  | _ => Ok []
  end.

Definition matrix_vars (longname shortname meshnet_name : pystr) : vars :=
  _add_truncated_vars
    (_add_truncated_vars
       [(u "long", longname); (u "short", shortname); (u "mesh", meshnet_name)]
       (u "long") (Some longname))
    (u "mesh") (Some meshnet_name).

Definition get_matrix_prefix (config : pyval) (longname shortname meshnet_name : pystr)
    : res pystr :=
  match config with
  | VDict c =>
      let matrix_config := prefix_section c (u "matrix") in
      if negb (truthy (dget_or matrix_config (u "prefix_enabled") (VBool true)))
      then Ok [] else
      let prefix_format := prefix_format_of matrix_config DEFAULT_MATRIX_PREFIX in
      match str_format prefix_format (matrix_vars longname shortname meshnet_name) with
      | Ok r => Ok r
      | Raise e =>
          if is_format_error e then
            str_format DEFAULT_MATRIX_PREFIX
              [(u "long", longname); (u "mesh", meshnet_name)]
          else Raise e
      end
  | _ => Ok []
  end.
End prefixes.

(** ** Markdown *)

(** [PREFIX_DEFINITION_REGEX]: an opening bracket, the shortest non-empty text
    without a line feed before a closing bracket and a colon, then white space;
    [acc] holds the text read, last character first. *)
Fixpoint find_definition (acc s : pystr) : option (pystr * pystr) :=
  if nonempty acc && startswith s (u "]:") then Some (reverse acc, drop 2 s)
  else match s with
       | [] => None
       | c :: s' => if c =? 10 then None else find_definition (c :: acc) s'
       end.

Definition prefix_definition (message : pystr) : option (pystr * pystr * pystr) :=
  match message with
  | 91 :: s =>
      '(text, rest) ← find_definition [] s;
      Some (text, take_while is_space rest, drop_while is_space rest)
  | _ => None
  end.

(** [MARKDOWN_ESCAPE_REGEX] *)
Definition is_markdown_special (c : Z) : bool :=
  existsb (Z.eqb c) [42; 95; 96; 126; 92; 91; 93].
Definition markdown_escape (s : pystr) : pystr :=
  s ≫= λ c, if is_markdown_special c then [92; c] else [c].

Definition _escape_leading_prefix_for_markdown (message : pystr) : pystr * bool :=
  match prefix_definition message with
  | None => (message, false)
  | Some (prefix_text, spacing, rest) =>
      (u "\[" ++ markdown_escape prefix_text ++ u "]:" ++ spacing ++ rest, true)
  end.

(** ** Lemmas *)

Lemma vget_vset_eq d k v : vget (vset d k v) k = Some v.
Proof.
  induction d as [|[k' v'] d IH]; simpl; [by rewrite str_eqb_refl |].
  destruct (str_eqb k' k) eqn:E; simpl; by rewrite E.
Qed.

Lemma vget_vset_ne d k k2 v : k ≠ k2 → vget (vset d k v) k2 = vget d k2.
Proof.
  intros Hne. assert (str_eqb k k2 = false) as Hk.
  { apply not_true_iff_false. by rewrite str_eqb_spec. }
  induction d as [|[k' v'] d IH]; simpl; [by rewrite Hk |].
  destruct (str_eqb k' k) eqn:E; simpl; [apply str_eqb_spec in E as ->; by rewrite Hk |].
  by rewrite IH.
Qed.

(** The variables of one prefix are those of its numbers. *)
Lemma truncated_key_inj prefix i j :
  prefix ++ str_of_int (Z.of_nat i) = prefix ++ str_of_int (Z.of_nat j) → i = j.
Proof.
  intros H%app_inv_head. apply (f_equal int_of_str) in H.
  rewrite !int_of_str_of_int in H. by simplify_eq.
Qed.

Lemma truncated_vars_fold prefix text ks d n :
  n ∈ ks → NoDup ks →
  vget (fold_left (λ d i, vset d (prefix ++ str_of_int (Z.of_nat i)) (take i text)) ks d)
    (prefix ++ str_of_int (Z.of_nat n)) = Some (take n text).
Proof.
  assert (∀ ks d, (n ∉ ks) →
    vget (fold_left (λ d i, vset d (prefix ++ str_of_int (Z.of_nat i)) (take i text)) ks d)
      (prefix ++ str_of_int (Z.of_nat n)) = vget d (prefix ++ str_of_int (Z.of_nat n))) as Hout.
  { clear. intros ks. induction ks as [|i ks IH]; intros d Hn; simpl; [done |].
    rewrite not_elem_of_cons in Hn. destruct Hn as [Hi Hn].
    rewrite IH by done. apply vget_vset_ne. by intros ->%truncated_key_inj. }
  revert d. induction ks as [|i ks IH]; intros d Hin Hnd; [by apply elem_of_nil in Hin |].
  inversion_clear Hnd as [|? ? Hi Hnd2]. simpl.
  apply elem_of_cons in Hin as [-> | Hin]; [|by apply IH].
  rewrite Hout by done. apply vget_vset_eq.
Qed.

Lemma add_truncated_get d prefix text n :
  (1 ≤ n ≤ MAX_TRUNCATION_LENGTH)%nat →
  vget (_add_truncated_vars d prefix (Some text)) (prefix ++ str_of_int (Z.of_nat n))
    = Some (take n text).
Proof.
  intros Hn. unfold _add_truncated_vars. cbn [default].
  apply truncated_vars_fold; [|apply NoDup_seq]. apply elem_of_seq. lia.
Qed.

Lemma add_truncated_other d prefix text k :
  (∀ n, k ≠ prefix ++ str_of_int (Z.of_nat n)) →
  vget (_add_truncated_vars d prefix text) k = vget d k.
Proof.
  intros Hk. unfold _add_truncated_vars. generalize (seq 1 MAX_TRUNCATION_LENGTH).
  intros ks. revert d. induction ks as [|i ks IH]; intros d; simpl; [done |].
  rewrite IH. by apply vget_vset_ne.
Qed.

(** A plain field in the middle of a format. *)
Lemma simple_format_field d name rest f :
  forallb (λ c, negb (c =? 125) && negb (is_field_special c)) name = true →
  simple_format d (Some f) (name ++ 125 :: rest) =
  match field_value d (reverse f ++ name) with
  | Ok v => put v (simple_format d None rest)
  | Raise e => Some (Raise e)
  end.
Proof.
  revert f. induction name as [|c name IH]; intros f Hn; simpl in *.
  - by rewrite app_nil_r.
  - apply andb_true_iff in Hn as [[Hc Hs]%andb_true_iff Hn].
    apply negb_true_iff in Hc, Hs. rewrite Hc, Hs, IH by done.
    by rewrite reverse_cons, <-app_assoc.
Qed.

Lemma simple_format_literal d l rest :
  forallb (λ c, negb (c =? 123) && negb (c =? 125)) l = true →
  simple_format d None (l ++ rest) = put l (simple_format d None rest).
Proof.
  induction l as [|c l IH]; intros Hl; simpl in *; [by destruct (simple_format d None rest) as [[]|] |].
  apply andb_true_iff in Hl as [[H1 H2]%andb_true_iff Hl].
  apply negb_true_iff in H1, H2. rewrite H1, H2, IH by done.
  by destruct (simple_format d None rest) as [[]|].
Qed.

(** A format made of literal text around one plain field. *)
Lemma simple_format_one d pre name post v :
  forallb (λ c, negb (c =? 123) && negb (c =? 125)) pre = true →
  forallb (λ c, negb (c =? 123) && negb (c =? 125)) post = true →
  name ≠ [] → forallb (λ c, negb (c =? 125) && negb (is_field_special c)) name = true →
  forallb (λ c, bool_decide (is_Some (digit_value c))) name = false →
  vget d name = Some v →
  simple_format d None (pre ++ 123 :: name ++ 125 :: post) = Some (Ok (pre ++ v ++ post)).
Proof.
  intros Hpre Hpost Hne Hname Hnum Hv. rewrite simple_format_literal by done.
  assert (simple_format d None (123 :: name ++ 125 :: post) =
          simple_format d (Some []) (name ++ 125 :: post)) as ->.
  { destruct name as [|c name]; [done |]. simpl in *. unfold is_field_special in Hname. simpl in Hname.
    destruct (c =? 123) eqn:E; [|done]. rewrite andb_false_r in Hname. done. }
  rewrite simple_format_field by done. unfold field_value. cbn [reverse app].
  rewrite reverse_nil, app_nil_l, Hnum, Hv.
  rewrite <-(app_nil_r post), simple_format_literal by done. simpl. by rewrite app_nil_r.
Qed.

Lemma str_of_int_plain n :
  0 ≤ n → forallb (λ c, negb (c =? 125) && negb (is_field_special c)) (str_of_int n) = true.
Proof.
  intros Hn. unfold str_of_int. rewrite (proj2 (Z.ltb_ge n 0)) by lia.
  destruct (str_of_int_digits (Z.abs n)) as (Ha & _); [lia |].
  apply forallb_elem_of. intros c Hc. unfold ascii_digits in Ha.
  rewrite Forall_forall in Ha. specialize (Ha c Hc). unfold is_field_special. simpl.
  rewrite !andb_true_iff, !negb_true_iff, !orb_false_iff, !Z.eqb_neq. lia.
Qed.

(** The default formats are plain. *)
Lemma default_meshtastic_format d v :
  vget d (u "display5") = Some v →
  simple_format d None DEFAULT_MESHTASTIC_PREFIX = Some (Ok (v ++ u "[M]: ")).
Proof.
  intros Hv. apply (simple_format_one d [] (u "display5") (u "[M]: ") v); done.
Qed.

Lemma default_matrix_format d long mesh :
  vget d (u "long") = Some long → vget d (u "mesh") = Some mesh →
  simple_format d None DEFAULT_MATRIX_PREFIX =
    Some (Ok (u "[" ++ long ++ u "/" ++ mesh ++ u "]: ")).
Proof.
  intros Hl Hm.
  change DEFAULT_MATRIX_PREFIX with (u "[" ++ 123 :: u "long" ++ 125 :: u "/{mesh}]: ").
  rewrite simple_format_literal by done.
  change (simple_format d None (123 :: u "long" ++ 125 :: u "/{mesh}]: ")) with
    (simple_format d (Some []) (u "long" ++ 125 :: u "/{mesh}]: ")).
  rewrite simple_format_field by done. cbn [reverse app]. rewrite reverse_nil, app_nil_l.
  unfold field_value. rewrite Hl.
  assert (simple_format d None (u "/{mesh}]: ") = Some (Ok (u "/" ++ mesh ++ u "]: "))) as ->.
  { apply (simple_format_one d (u "/") (u "mesh") (u "]: ") mesh); done. }
  done.
Qed.

Lemma display5_key : u "display5" = u "display" ++ str_of_int (Z.of_nat 5).
Proof. reflexivity. Qed.

Lemma meshtastic_vars_display name uid n :
  (1 ≤ n ≤ MAX_TRUNCATION_LENGTH)%nat →
  vget (meshtastic_vars name uid) (u "display" ++ str_of_int (Z.of_nat n)) = Some (take n name).
Proof.
  intros Hn. unfold meshtastic_vars. destruct (split_user_id uid) as [a b].
  by apply add_truncated_get.
Qed.

Lemma matrix_vars_names long short mesh :
  vget (matrix_vars long short mesh) (u "long") = Some long ∧
  vget (matrix_vars long short mesh) (u "mesh") = Some mesh.
Proof.
  unfold matrix_vars.
  assert (∀ n, u "long" ≠ u "mesh" ++ str_of_int n) by (intros n Hn; discriminate Hn).
  assert (∀ n, u "mesh" ≠ u "long" ++ str_of_int n) by (intros n Hn; discriminate Hn).
  assert (∀ p n, 0 ≤ n → p ≠ p ++ str_of_int n) as Hne.
  { intros p n Hn Hp. apply (f_equal length) in Hp. rewrite length_app in Hp.
    destruct (str_of_int_digits (Z.abs n)) as (_ & Hd & _); [lia |].
    unfold str_of_int in Hp. rewrite (proj2 (Z.ltb_ge n 0)) in Hp by lia.
    destruct (dec_digits _ _ _); [done | simpl in Hp; lia]. }
  split; rewrite !add_truncated_other; try done; intros n; try apply Hne; auto with lia.
Qed.

(** The plain part of [format] raises handled exceptions only. *)
Lemma simple_format_errors d f s e :
  simple_format d f s = Some (Raise e) → is_format_error e = true.
Proof.
  assert (∀ l r, put l r = Some (Raise e) → r = Some (Raise e)) as Hput
    by (by intros l [[]|]).
  assert (∀ n s f, (length s ≤ n)%nat → simple_format d f s = Some (Raise e) →
    is_format_error e = true) as H; [|by apply (H (length s))].
  clear s f. induction n as [|n IH]; intros [|c s] f Hn; simpl in Hn; try lia.
  1, 2: destruct f; simpl; intros; by simplify_eq.
  cbn [simple_format]. destruct f as [f|].
  - destruct (c =? 125).
    + destruct (field_value d (reverse f)) as [v|e'] eqn:Ev.
      * intros H%Hput. apply (IH s None); [lia | done].
      * intros [= ->]. unfold field_value in Ev. repeat case_match; by simplify_eq.
    + destruct (is_field_special c); [done |]. apply IH. lia.
  - destruct (c =? 123); [|destruct (c =? 125)].
    + destruct s as [|c2 s2]; [by intros [= <-] |]. simpl in Hn. destruct (c2 =? 123).
      * intros H%Hput. apply (IH s2 None); [lia | done].
      * apply IH. simpl. lia.
    + destruct s as [|c2 s2]; [by intros [= <-] |]. simpl in Hn.
      destruct (c2 =? 125); [|by intros [= <-]].
      intros H%Hput. apply (IH s2 None); [lia | done].
    + intros H%Hput. apply (IH s None); [lia | done].
Qed.

Lemma take_drop_while (f : Z → bool) s : take_while f s ++ drop_while f s = s.
Proof. induction s as [|c s IH]; simpl; [done |]. destruct (f c); simpl; by rewrite ?IH. Qed.

(** Unescaping removes the backslash before a special character. *)
Fixpoint markdown_unescape (s : pystr) : pystr :=
  match s with
  | c :: ((d :: s') as r) =>
      if (c =? 92) && is_markdown_special d then d :: markdown_unescape s'
      else c :: markdown_unescape r
  | s => s
  end.

Lemma markdown_escape_cons c s :
  markdown_escape (c :: s) =
  (if is_markdown_special c then [92; c] else [c]) ++ markdown_escape s.
Proof. done. Qed.

Lemma markdown_unescape_escape s : markdown_unescape (markdown_escape s) = s.
Proof.
  assert (∀ c, is_markdown_special c = false → (c =? 92) = false) as H92.
  { intros c H. unfold is_markdown_special in H. simpl in H.
    rewrite !orb_false_iff in H. tauto. }
  induction s as [|c s IH]; [done |]. rewrite markdown_escape_cons.
  destruct (is_markdown_special c) eqn:E; cbn [app markdown_unescape].
  - rewrite E. simpl. by rewrite IH.
  - rewrite IH, (H92 c E). simpl. by destruct (markdown_escape s) eqn:Es; simpl in IH; subst.
Qed.

Lemma find_definition_spec acc s text rest :
  find_definition acc s = Some (text, rest) → reverse acc ++ s = text ++ u "]:" ++ rest ∧ text ≠ [].
Proof.
  revert acc. induction s as [|c s IH]; intros acc; cbn [find_definition].
  - destruct (nonempty acc && _) eqn:E; [|done]. by apply andb_true_iff in E as [_ ?].
  - destruct (nonempty acc && startswith (c :: s) (u "]:")) eqn:E.
    + apply andb_true_iff in E as [Hne [t Ht]%startswith_spec].
      rewrite Ht. intros Heq.
      assert (text = reverse acc ∧ rest = t) as [-> ->].
      { change (drop 2 (u "]:" ++ t)) with t in Heq. by injection Heq. }
      split; [done |].
      destruct acc; [done |]. rewrite reverse_cons. intros [_ [=]]%app_nil.
    + destruct (c =? 10); [done |]. intros H%IH.
      by rewrite reverse_cons, <-app_assoc in H.
Qed.

(** ** Properties *)

Section properties.
Context (format_other : pystr → vars → res pystr) (other_str : pyval → pystr).

(** A format with one truncated display name [{displayN}], N from 1 to 20,
    gives the text before it, the first N characters of the name and the text
    after it; without a configured format the prefix is the first five
    characters of the name and "[M]: ". *)
Theorem meshtastic_prefix_truncates c m pre post n name uid :
  dget_none c (u "meshtastic") = VDict m →
  truthy (dget_or m (u "prefix_enabled") (VBool true)) = true →
  (1 ≤ n ≤ MAX_TRUNCATION_LENGTH)%nat →
  forallb (λ c, negb (c =? 123) && negb (c =? 125)) (pre ++ post) = true →
  (dget m (u "prefix_format") =
     Some (VStr (pre ++ u "{display" ++ str_of_int (Z.of_nat n) ++ u "}" ++ post)) →
   get_meshtastic_prefix format_other other_str (VDict c) name uid =
     Ok (pre ++ take n name ++ post)) ∧
  (dget m (u "prefix_format") = None →
   get_meshtastic_prefix format_other other_str (VDict c) name uid =
     Ok (take 5 name ++ u "[M]: ")).
Proof.
  intros Hm Hen Hn Hl. rewrite forallb_app, andb_true_iff in Hl. destruct Hl as [Hpre Hpost].
  unfold get_meshtastic_prefix, prefix_section. rewrite Hm, Hen. cbn [negb].
  unfold prefix_format_of, dget_or. split; intros Hf; rewrite Hf; cbn [default from_option id to_str].
  - unfold str_format.
    change (u "{display" ++ str_of_int (Z.of_nat n) ++ u "}" ++ post) with
      (123 :: (u "display" ++ str_of_int (Z.of_nat n)) ++ 125 :: post).
    rewrite (simple_format_one _ pre _ post (take n name)); try done.
    + rewrite forallb_app, str_of_int_plain by lia. done.
    + by apply meshtastic_vars_display.
  - unfold str_format.
    rewrite (default_meshtastic_format _ (take 5 name)); [done |].
    rewrite display5_key. apply meshtastic_vars_display. unfold MAX_TRUNCATION_LENGTH. lia.
Qed.

(** Building a prefix never fails on an invalid format: when [str.format]
    raises nothing but the exceptions that are handled, both functions return,
    and after an error the result is the default prefix. *)
Theorem prefixes_fall_back config name uid long short mesh :
  (∀ f d e, format_other f d = Raise e → is_format_error e = true) →
  (∃ r, get_meshtastic_prefix format_other other_str config name uid = Ok r ∧
    (∀ c, config = VDict c → ∀ e,
       truthy (dget_or (prefix_section c (u "meshtastic")) (u "prefix_enabled")
                 (VBool true)) = true →
       str_format format_other (prefix_format_of other_str (prefix_section c (u "meshtastic"))
         DEFAULT_MESHTASTIC_PREFIX) (meshtastic_vars name uid) = Raise e →
       r = take 5 name ++ u "[M]: ")) ∧
  (∃ r, get_matrix_prefix format_other other_str config long short mesh = Ok r ∧
    (∀ c, config = VDict c → ∀ e,
       truthy (dget_or (prefix_section c (u "matrix")) (u "prefix_enabled")
                 (VBool true)) = true →
       str_format format_other (prefix_format_of other_str (prefix_section c (u "matrix"))
         DEFAULT_MATRIX_PREFIX) (matrix_vars long short mesh) = Raise e →
       r = u "[" ++ long ++ u "/" ++ mesh ++ u "]: ")).
Proof.
  intros Hother.
  assert (∀ f d e, str_format format_other f d = Raise e → is_format_error e = true) as Herr.
  { intros f d e. unfold str_format. destruct (simple_format d None f) as [r|] eqn:E; [|apply Hother].
    intros ->. by eapply simple_format_errors. }
  assert (∀ f d v, simple_format d None f = Some (Ok v) → str_format format_other f d = Ok v) as Hok.
  { intros f d v H. unfold str_format. by rewrite H. }
  split.
  - destruct config as [| | | | | | |c|]; try by eexists.
    unfold get_meshtastic_prefix. destruct (truthy _) eqn:Et; cbn [negb];
      [|eexists; split; [done |]; intros ? [= <-]; congruence].
    destruct (str_format _ (prefix_format_of _ _ _) _) as [r|e] eqn:E;
      [eexists; split; [done |]; intros c' [= <-] e' _; by rewrite E |].
    rewrite (Herr _ _ _ E). eexists. split; [by apply Hok, default_meshtastic_format |]. done.
  - destruct config as [| | | | | | |c|]; try by eexists.
    unfold get_matrix_prefix. destruct (truthy _) eqn:Et; cbn [negb];
      [|eexists; split; [done |]; intros ? [= <-]; congruence].
    destruct (str_format _ (prefix_format_of _ _ _) _) as [r|e] eqn:E;
      [eexists; split; [done |]; intros c' [= <-] e' _; by rewrite E |].
    rewrite (Herr _ _ _ E). eexists. split; [by apply Hok, default_matrix_format |]. done.
Qed.
End properties.

(** A message that starts like a Markdown link definition is rewritten so
    that it no longer does, by putting a backslash before the opening bracket
    and before every special character of the label and changing nothing else;
    any other message is left as it is. *)
Theorem markdown_escape_safe message :
  let '(safe, escaped) := _escape_leading_prefix_for_markdown message in
  prefix_definition safe = None ∧
  if escaped then
    ∃ label rest, message = u "[" ++ label ++ u "]:" ++ rest ∧
      safe = u "\[" ++ markdown_escape label ++ u "]:" ++ rest ∧
      markdown_unescape (markdown_escape label) = label
  else safe = message.
Proof.
  unfold _escape_leading_prefix_for_markdown.
  destruct (prefix_definition message) as [[[label spacing] rest]|] eqn:E; [|done].
  split; [done |]. exists label, (spacing ++ rest).
  split_and!; [| done | apply markdown_unescape_escape].
  unfold prefix_definition in E. destruct message as [|c s]; [done |].
  destruct (decide (c = 91)) as [-> | Hc].
  2:{ exfalso. revert E. by repeat (case_match; try done). }
  destruct (find_definition [] s) as [[text r]|] eqn:Ef; [|done]. simplify_eq/=.
  apply find_definition_spec in Ef as [Ef _]. simpl in Ef.
  rewrite take_drop_while. by rewrite Ef.
Qed.

(** ** Witnesses *)

Definition no_other : pystr → vars → res pystr := λ _ _, Raise ValueError.

Lemma meshtastic_prefix_truncates_witness :
  get_meshtastic_prefix no_other (λ _, []) (VDict [(u "meshtastic",
    VDict [(u "prefix_format", VStr (u "<{display3}> "))])]) (u "Alice") None = Ok (u "<Ali> ").
Proof.
  exact (proj1 (meshtastic_prefix_truncates no_other (λ _, []) [(u "meshtastic",
    VDict [(u "prefix_format", VStr (u "<{display3}> "))])]
    [(u "prefix_format", VStr (u "<{display3}> "))] (u "<") (u "> ") 3 (u "Alice") None
    eq_refl eq_refl ltac:(unfold MAX_TRUNCATION_LENGTH; lia) eq_refl) eq_refl).
Defined.

Lemma prefixes_fall_back_witness :
  ∃ r, get_matrix_prefix no_other (λ _, []) (VDict [(u "matrix",
    VDict [(u "prefix_format", VStr (u "{nope}"))])]) (u "Alice") (u "A") (u "net") = Ok r ∧
    r = u "[Alice/net]: ".
Proof.
  destruct (proj2 (prefixes_fall_back no_other (λ _, []) (VDict [(u "matrix",
    VDict [(u "prefix_format", VStr (u "{nope}"))])]) [] None (u "Alice") (u "A") (u "net")
    ltac:(by intros f d e [= <-]))) as (r & Hr & He).
  exists r. split; [exact Hr |]. exact (He _ eq_refl KeyError eq_refl eq_refl).
Defined.
