(* ===== verification/MeshSend.v ===== *)
(** * Towards the mesh

    What the Matrix side needs to put a message on the radio: the calls that are
    queued, the interface and channel of a room
    ([_get_meshtastic_interface_and_channel] of
    [src/mmrelay/matrix/command_bridge.py]), the mapping information of a
    message ([_create_mapping_info] of [matrix/room_mapping.py], with
    [strip_quoted_lines] of [matrix/replies.py]) and [send_text_reply] of
    [meshtastic/messaging.py].

    [OutQueue] is what the handlers rely on of the message queue; the queue of
    [QueueState] is an instance. *)

From Stdlib Require Import String QArith.
From stdpp Require Import base tactics list numbers sets.
From S2P Require Import Prelude PyStr PyValue Settings MessageMap QueueState QueueSystem.
Open Scope Z_scope.

(** ** Queued calls *)

(** [interface.sendText], [send_text_reply] and [interface.sendData], with the
    arguments the handlers give. *)
Inductive mesh_call :=
  | SendText (text : pystr) (channel : Z)
  | SendTextReply (text : pystr) (reply_id channel : Z)
  | SendData (data : list Z) (portnum channel : Z).

(** ** Contract of the queue *)

(** [oq_put] answers whether the call was accepted; the calls waiting afterwards
    are those waiting before and, last, the one accepted. *)
Class OutQueue (Q : Type) := {
  oq_calls : Q → list (mesh_call * option mapping_info);
  oq_put : mesh_call → pystr → option mapping_info → Q → Q * bool;
  oq_put_calls c d i q :
    oq_calls (oq_put c d i q).1 =
    oq_calls q ++ (if (oq_put c d i q).2 then [(c, i)] else []) }.

(** The environment of a call of [queue_message]: the finished tasks, whether a
    loop runs in this thread, the task it would create and the two clocks. *)
Record queue_env := {
  qe_done : nat → bool; qe_loop : bool; qe_task : nat; qe_wall : Q; qe_now : Q }.

Definition queue_put (env : queue_env) (c : mesh_call) (d : pystr)
    (i : option mapping_info) (q : @mq mesh_call) : @mq mesh_call * bool :=
  match queue_message (qe_done env) (qe_loop env) (qe_task env) (qe_wall env)
          (qe_now env) c d i q with
  | Some r => r
  | None => (q, false)
  end.

(** ** Quoted lines *)

Definition strip_quoted_lines (text : pystr) : pystr :=
  let lines := splitlines text in
  let filtered := strip <$> filter (λ l, startswith (strip l) (u ">") = false) lines in
  strip (join (u " ") (filter (λ l, nonempty l = true) filtered)).

(** ** Mapping information *)

(** [module_config] is what [_get_msgs_to_keep_config] reads when it gets no
    configuration. *)
Definition _create_mapping_info (module_config : pyval)
    (matrix_event_id room_id text : pystr) (meshnet : option pystr)
    (msgs_to_keep : option Z) : option mapping_info :=
  if negb (nonempty matrix_event_id) || negb (nonempty room_id) || negb (nonempty text)
  then None
  else Some {| mi_matrix_event_id := matrix_event_id; mi_room_id := room_id;
               mi_text := strip_quoted_lines text; mi_meshnet := meshnet;
               mi_msgs_to_keep := Some (default (_get_msgs_to_keep_config module_config VNone)
                                          msgs_to_keep) |}.

(** ** Interface and channel *)

(** [connected]: what the connection attempt gives. *)
Definition _get_meshtastic_interface_and_channel (connected : bool)
    (room_config : pydict) : option Z :=
  match dget_none room_config (u "meshtastic_channel") with
  | VInt channel =>
      if channel <? 0 then None else if connected then Some channel else None
  | _ => None
  end.

(** ** Structured replies *)

Record mesh_packet := {
  mp_payload : list Z; mp_portnum : Z; mp_reply_id : Z; mp_channel : Z; mp_id : Z }.

Section send_text_reply.
(** The interface and the protobuf messages belong to the Meshtastic package:
    [assign] is an assignment to an unsigned field, [generate] is
    [_generatePacketId] and [transmit] is [_sendPacket]. *)
Context {R : Type} (assign : Z → res Z) (generate : res Z) (transmit : mesh_packet → res R).

Definition is_send_error (e : pyexc) : bool :=
  match e with
  | AttributeError | OSError | RuntimeError _ | TypeError | ValueError
  | UnicodeEncodeError => true
  | _ => false
  end.

Definition send_text_reply (interface : bool) (text : pystr) (reply_id channelIndex : Z)
    : res (option R) :=
  if negb interface then Ok None else
  let! payload := match encode text with
                  | Some b => Ok b
                  | None => Raise UnicodeEncodeError
                  end in
  let! reply_id := assign reply_id in
  let! channel := assign channelIndex in
  let! id := generate in
  match transmit {| mp_payload := payload; mp_portnum := 1; mp_reply_id := reply_id;
                    mp_channel := channel; mp_id := id |} with
  | Ok r => Ok (Some r)
  | Raise e => if is_send_error e then Ok None else Raise e
  end.
End send_text_reply.

(** ** Lemmas *)

Definition queue_calls (q : @mq mesh_call) : list (mesh_call * option mapping_info) :=
  (λ m, (qm_call m, qm_mapping_info m)) <$> _queue q.

Lemma queue_put_calls env c d i q :
  queue_calls (queue_put env c d i q).1 =
  queue_calls q ++ (if (queue_put env c d i q).2 then [(c, i)] else []).
Proof.
  pose proof (queue_message_result (qe_done env) (qe_loop env) (qe_task env) (qe_wall env)
    (qe_now env) c d i q) as H.
  cbv zeta in H. destruct (enqueue_guard _ (ensure_processor_started _ _ _ q)) as [q2 open].
  destruct H as (q' & E & Hq & _). unfold queue_put. rewrite E. simpl.
  unfold queue_calls. rewrite Hq, fmap_app. by destruct (open && _).
Qed.

#[export] Instance mq_out_queue (env : queue_env) : OutQueue (@mq mesh_call) :=
  {| oq_calls := queue_calls; oq_put := queue_put env;
     oq_put_calls := queue_put_calls env |}.
