(* ===== verification/Replies.v ===== *)
(** * Replies from Matrix to the mesh

    Models [src/mmrelay/matrix/replies.py]: truncation to a byte limit, the
    removal of quoted lines (in [MeshSend]), the sender's display name, the text
    of a reply, and its way into the message queue as a structured reply to the
    Meshtastic message that the replied-to event is mapped to.

    The queue is any [OutQueue], the map any [MessageMapStore]. *)

From Stdlib Require Import String QArith.
From stdpp Require Import base tactics list numbers sets.
From S2P Require Import Prelude PyStr PyValue Settings Prefixes MessageMap QueueState MeshSend.
Open Scope Z_scope.

Definition DEFAULT_MESSAGE_TRUNCATE_BYTES : Z := 227.
Definition MESHNET_NAME_ABBREVIATION_LENGTH : nat := 4.
Definition SHORTNAME_FALLBACK_LENGTH : nat := 3.
Definition DEFAULT_BROADCAST_ENABLED : bool := true.

(** ** Truncation *)

Definition truncate_message (text : pystr) (max_bytes : Z) : res pystr :=
  if max_bytes <? 0 then Raise ValueError
  else if max_bytes =? 0 then Ok []
  else match encode text with
       | None => Raise UnicodeEncodeError
       | Some b => Ok (decode_ignore (take (Z.to_nat max_bytes) b))
       end.

(** ** Display names *)

(** What [get_displayname] of the client gives: a response of the success class,
    of another class, or an exception that is handled; with its [displayname]
    attribute. *)
Inductive name_response :=
  | NameResponse (displayname : option pystr)
  | NameOther (displayname : option pystr)
  | NameRaised.

(** [a or b] on strings that may be None. *)
Definition or_str (a : option pystr) (b : pystr) : pystr :=
  match a with Some s => if nonempty s then s else b | None => b end.

Definition get_user_display_name (room_display_name : option pystr) (client : bool)
    (response : name_response) (sender : pystr) : pystr :=
  or_str room_display_name
    (if client then
       match response with
       | NameResponse d | NameOther d => or_str d sender
       | NameRaised => sender
       end
     else sender).

(** ** The text of a reply *)

Section replies.
Context (format_other : pystr → vars → res pystr) (other_str : pyval → pystr).

(** The first non-empty candidate the text starts with is removed. *)
Definition remove_prefix (candidates : list pystr) (text : pystr) : pystr :=
  match first_some (λ c, if nonempty c && startswith text c then Some c else None)
          candidates with
  | Some c => lstrip (drop (length c) text)
  | None => text
  end.

Definition prefix_candidates (sender_long sender_short meshnet_name short_meshnet_name
    matrix_prefix_full matrix_prefix_short : pystr) : list pystr :=
  [u "[" ++ sender_long ++ u "/" ++ meshnet_name ++ u "]: ";
   u "[" ++ sender_long ++ u "/" ++ short_meshnet_name ++ u "]: ";
   sender_long ++ u "/" ++ meshnet_name ++ u ": ";
   sender_long ++ u "/" ++ short_meshnet_name ++ u ": ";
   sender_short ++ u "/" ++ meshnet_name ++ u ": ";
   sender_short ++ u "/" ++ short_meshnet_name ++ u ": ";
   matrix_prefix_full; matrix_prefix_short].

Definition format_reply_message (config : pyval) (full_display_name text : pystr)
    (longname shortname meshnet_name local_meshnet_name mesh_text_override user_id
     : option pystr) : res pystr :=
  let base_text := or_str mesh_text_override text in
  let clean_text := strip (strip_quoted_lines base_text) in
  let meshnet := or_str meshnet_name [] in
  let local := or_str local_meshnet_name [] in
  if nonempty meshnet && nonempty local && negb (str_eqb meshnet local) then
    let sender_long := or_str longname (or_str (Some full_display_name)
                         (or_str shortname (u "???"))) in
    let sender_short := or_str shortname
                          (or_str (Some (take SHORTNAME_FALLBACK_LENGTH sender_long)) (u "???")) in
    let short_meshnet_name := take MESHNET_NAME_ABBREVIATION_LENGTH meshnet in
    let! matrix_prefix_full :=
      get_matrix_prefix format_other other_str config sender_long sender_short meshnet in
    let! matrix_prefix_short :=
      get_matrix_prefix format_other other_str config sender_long sender_short
        short_meshnet_name in
    let clean_text := remove_prefix
      (prefix_candidates sender_long sender_short meshnet short_meshnet_name
         matrix_prefix_full matrix_prefix_short) clean_text in
    let clean_text :=
      match mesh_text_override with
      | Some o => if negb (nonempty clean_text) && nonempty o
                  then strip (strip_quoted_lines o) else clean_text
      | None => clean_text
      end in
    let mesh_prefix := or_str (Some matrix_prefix_short)
      (or_str (Some matrix_prefix_full)
         (sender_short ++ u "/" ++ short_meshnet_name ++ u ":")) in
    let reply_body := if nonempty clean_text then u " " ++ clean_text else [] in
    truncate_message (strip (mesh_prefix ++ reply_body)) DEFAULT_MESSAGE_TRUNCATE_BYTES
  else
    let! prefix := get_meshtastic_prefix format_other other_str config
                     full_display_name user_id in
    let reply_message :=
      if nonempty clean_text then prefix ++ clean_text else rstrip prefix in
    truncate_message reply_message DEFAULT_MESSAGE_TRUNCATE_BYTES.

(** ** Queueing *)

Definition broadcast_enabled (config : pyval) : bool :=
  truthy (meshtastic_value config (u "broadcast_enabled")
            (VBool DEFAULT_BROADCAST_ENABLED)).

(** The Matrix event at hand: its id, its room and its sender. *)
Record event_ref := { er_event_id : pystr; er_room_id : pystr; er_sender : pystr }.

(** [relay_config] falls back to [module_config], and that to an empty one. *)
Definition send_reply_to_meshtastic `{OutQueue Qu} (module_config : pyval) (connected : bool)
    (reply_message full_display_name : pystr) (room_config : pydict) (ev : event_ref)
    (text : pystr) (storage_enabled : bool) (local_meshnet_name : option pystr)
    (reply_id : option Z) (relay_config : pyval) (q : Qu) : Qu * bool :=
  match _get_meshtastic_interface_and_channel connected room_config with
  | None => (q, false)
  | Some channel =>
      let effective_config := if is_none relay_config then module_config else relay_config in
      let effective_config := if is_none effective_config then VDict [] else effective_config in
      if negb (broadcast_enabled effective_config) then (q, false) else
      let mapping_info :=
        if storage_enabled then
          _create_mapping_info module_config (er_event_id ev) (er_room_id ev) text
            local_meshnet_name
            (Some (_get_msgs_to_keep_config module_config effective_config))
        else None in
      match reply_id with
      | Some id =>
          oq_put (SendTextReply reply_message id channel)
            (u "Reply from " ++ full_display_name ++ u " to message " ++ str_of_int id)
            mapping_info q
      | None =>
          oq_put (SendText reply_message channel)
            (u "Reply from " ++ full_display_name ++ u " (fallback to regular message)")
            mapping_info q
      end
  end.

(** The id stored in the map, as a reply target: [None] when it is not made of
    digits; [int] refuses the digits that are not decimal. *)
Definition reply_target (meshtastic_id : pystr) : res (option Z) :=
  if isdigit meshtastic_id then
    match int_of_str meshtastic_id with
    | Some z => Ok (Some z)
    | None => Raise ValueError
    end
  else Ok None.

Definition handle_matrix_reply `{OutQueue Qu} `{MessageMapStore T} (module_config : pyval)
    (connected : bool) (db : T) (ev : event_ref) (display_name : pystr)
    (reply_to_event_id text : pystr) (room_config : pydict) (storage_enabled : bool)
    (local_meshnet_name : option pystr) (config : pyval)
    (mesh_text_override longname shortname meshnet_name : option pystr) (q : Qu)
    : res (Qu * bool) :=
  match mms_by_event db reply_to_event_id with
  | None => Ok (q, false)
  | Some orig =>
      let! original_meshtastic_id := reply_target (mm_meshtastic_id orig) in
      let! reply_message :=
        format_reply_message config display_name text longname shortname meshnet_name
          local_meshnet_name mesh_text_override (Some (er_sender ev)) in
      Ok (send_reply_to_meshtastic module_config connected reply_message display_name
            room_config ev text storage_enabled local_meshnet_name original_meshtastic_id
            config q)
  end.
End replies.

(** ** Lemmas *)

(** Decoding never yields a text longer than the bytes it reads. *)
Lemma decode_ignore_len b : (utf8_len (decode_ignore b) ≤ length b)%nat.
Proof.
  assert (∀ n b, (length b ≤ n)%nat → (utf8_len (decode_ignore b) ≤ length b)%nat) as H;
    [|by apply (H (length b))].
  clear b. induction n as [|n IH]; intros b Hn; [destruct b; [done | simpl in Hn; lia] |].
  destruct b as [|b0 r0]; [done |]. cbn [decode_ignore].
  destruct (b0 <? 128) eqn:E0.
  { rewrite utf8_len_cons. unfold enc1. rewrite E0. specialize (IH r0). simpl in *. lia. }
  destruct r0 as [|b1 r1]; [unfold utf8_len; simpl; lia |].
  assert (utf8_len (decode_ignore (b1 :: r1)) ≤ length (b0 :: b1 :: r1))%nat as Hskip.
  { specialize (IH (b1 :: r1)). simpl in *. lia. }
  destruct (dec2 b0 b1) as [c|] eqn:E2.
  { rewrite utf8_len_cons. specialize (IH r1).
    assert (length (enc1 c) ≤ 2)%nat; [|simpl in *; lia].
    unfold dec2 in E2. destruct (between 194 223 b0 && is_cont b1) eqn:E; simplify_eq.
    unfold is_cont in *. z_bool_hyps. unfold enc1.
    destruct (_ <? 128); [simpl; lia |]. destruct (_ <? 2048) eqn:E4; [simpl; lia |].
    z_bool_hyps. lia. }
  destruct r1 as [|b2 r2]; [exact Hskip |].
  destruct (dec3 b0 b1 b2) as [c|] eqn:E3.
  { rewrite utf8_len_cons. specialize (IH r2).
    assert (length (enc1 c) ≤ 3)%nat; [|simpl in *; lia].
    unfold dec3 in E3. destruct (between 224 239 b0 && _ && _ && _ && _) eqn:E; simplify_eq.
    unfold is_cont in *. z_bool_hyps. unfold enc1.
    destruct (_ <? 128); [simpl; lia |]. destruct (_ <? 2048); [simpl; lia |].
    destruct (_ <? 65536) eqn:E4; [simpl; lia |]. z_bool_hyps. lia. }
  destruct r2 as [|b3 r3]; [exact Hskip |].
  destruct (dec4 b0 b1 b2 b3) as [c|]; [|exact Hskip].
  rewrite utf8_len_cons. specialize (IH r3). pose proof (enc1_length c). simpl in *. lia.
Qed.

Lemma truncate_fits text n r :
  truncate_message text n = Ok r → Z.of_nat (utf8_len r) ≤ n.
Proof.
  unfold truncate_message. destruct (n <? 0) eqn:E1; [done |].
  destruct (n =? 0) eqn:E2; [intros [= <-]; z_bool_hyps; simpl; unfold utf8_len; simpl; lia |].
  destruct (encode text) as [b|]; [|done]. intros [= <-]. z_bool_hyps.
  pose proof (decode_ignore_len (take (Z.to_nat n) b)) as H. rewrite length_take in H. lia.
Qed.

Lemma format_reply_fits fo os config name text ln sn mn lm ov uid r :
  format_reply_message fo os config name text ln sn mn lm ov uid = Ok r →
  Z.of_nat (utf8_len r) ≤ DEFAULT_MESSAGE_TRUNCATE_BYTES.
Proof.
  unfold format_reply_message. destruct (_ && _ && _).
  - destruct (get_matrix_prefix _ _ _ _ _ _) as [p1|]; [|done]. simpl.
    destruct (get_matrix_prefix _ _ _ _ _ _) as [p2|]; [|done]. apply truncate_fits.
  - destruct (get_meshtastic_prefix _ _ _ _ _); [|done]. apply truncate_fits.
Qed.

(** Lines hold no line break, and a text without one is its only line. *)
Lemma splitlines_from_nobreak cur s :
  forallb (λ c, negb (is_linebreak c)) cur = true →
  Forall (λ l, forallb (λ c, negb (is_linebreak c)) l = true) (splitlines_from cur s).
Proof.
  assert (∀ l : pystr, forallb (λ c, negb (is_linebreak c)) l = true →
    forallb (λ c, negb (is_linebreak c)) (reverse l) = true) as Hrev.
  { intros l. rewrite !forallb_elem_of. intros H c Hc. apply H. by rewrite elem_of_reverse in Hc. }
  assert (∀ n s cur, (length s ≤ n)%nat → forallb (λ c, negb (is_linebreak c)) cur = true →
    Forall (λ l, forallb (λ c, negb (is_linebreak c)) l = true) (splitlines_from cur s)) as H;
    [|by apply (H (length s))].
  clear s cur. induction n as [|n IH]; intros [|c s] cur Hn Hc; simpl in Hn; try lia;
    cbn [splitlines_from].
  1, 2: destruct (nonempty cur); repeat constructor; by apply Hrev.
  destruct (is_linebreak c) eqn:E.
  - destruct s as [|d s]; [repeat constructor; by apply Hrev |]. simpl in Hn.
    destruct (_ && _); (constructor; [by apply Hrev |]); apply IH; simpl; done || lia.
  - apply IH; [lia |]. simpl. by rewrite E.
Qed.

Lemma splitlines_single s :
  forallb (λ c, negb (is_linebreak c)) s = true →
  splitlines s = if nonempty s then [s] else [].
Proof.
  unfold splitlines. intros H.
  assert (∀ cur, splitlines_from cur s =
    if nonempty (reverse cur ++ s) then [reverse cur ++ s] else []) as Hc; [|apply (Hc [])].
  revert H. induction s as [|c s IH]; intros H cur; simpl in *.
  - rewrite app_nil_r. destruct cur as [|d cur]; [done |].
    rewrite reverse_cons. by destruct (reverse cur).
  - apply andb_true_iff in H as [Hc H]. apply negb_true_iff in Hc. rewrite Hc, IH by done.
    by rewrite reverse_cons, <-app_assoc.
Qed.

Lemma drop_while_elem (f : Z → bool) s c : c ∈ drop_while f s → c ∈ s.
Proof.
  induction s as [|d s IH]; simpl; [done |]. destruct (f d); [|done].
  intros H. right. by apply IH.
Qed.

Lemma strip_elem s c : c ∈ strip s → c ∈ s.
Proof.
  unfold strip, rstrip, lstrip. rewrite elem_of_reverse. intros H%drop_while_elem.
  rewrite elem_of_reverse in H. by apply drop_while_elem in H.
Qed.

Lemma strip_head_space s c t : strip s = c :: t → is_space c = false.
Proof.
  intros H. pose proof (lstrip_strip s) as E. rewrite H in E.
  pose proof (drop_while_head is_space (c :: t)) as Hd.
  change (drop_while is_space (c :: t)) with (lstrip (c :: t)) in Hd. by rewrite E in Hd.
Qed.

Lemma strip_keeps_head c t : is_space c = false → ∃ t', strip (c :: t) = c :: t'.
Proof.
  intros Hc. unfold strip. assert (lstrip (c :: t) = c :: t) as ->.
  { apply drop_while_id. done. }
  unfold rstrip, lstrip. rewrite reverse_cons.
  destruct (drop_while_app_tail is_space (reverse t) c Hc) as [r ->].
  rewrite reverse_snoc. eauto.
Qed.

Lemma join_elem sep parts c :
  c ∈ join sep parts → c ∈ sep ∨ ∃ p, p ∈ parts ∧ c ∈ p.
Proof.
  induction parts as [|p [|p2 ps] IH]; cbn [join].
  - intros H. by apply elem_of_nil in H.
  - right. exists p. split; [by left | done].
  - rewrite !elem_of_app. intros [H | [H | H]]; [right | by left |].
    + exists p. split; [by left | done].
    + destruct (IH H) as [?|(p' & ? & ?)]; [by left | right].
      exists p'. split; [by right | done].
Qed.

(** The parts of a text that are kept. *)
Definition kept_lines (text : pystr) : list pystr :=
  filter (λ l, nonempty l = true)
    (strip <$> filter (λ l, startswith (strip l) (u ">") = false) (splitlines text)).

Lemma kept_lines_spec text p :
  p ∈ kept_lines text →
  p ≠ [] ∧ startswith p (u ">") = false ∧ strip p = p ∧
  forallb (λ c, negb (is_linebreak c)) p = true.
Proof.
  unfold kept_lines. rewrite list_elem_of_filter, list_elem_of_fmap.
  intros [Hne (l & -> & Hl)]. rewrite list_elem_of_filter in Hl. destruct Hl as [Hq Hl].
  split_and!; [by apply nonempty_spec | done | apply strip_idemp |].
  pose proof (splitlines_from_nobreak [] text eq_refl) as Hb.
  rewrite Forall_forall in Hb. specialize (Hb l Hl).
  rewrite forallb_elem_of in *. intros c Hc. by apply Hb, strip_elem.
Qed.

Lemma stripped_quotes text :
  forallb (λ c, negb (is_linebreak c)) (strip_quoted_lines text) = true ∧
  startswith (strip_quoted_lines text) (u ">") = false ∧
  strip (strip_quoted_lines text) = strip_quoted_lines text.
Proof.
  unfold strip_quoted_lines. fold (kept_lines text).
  pose proof (kept_lines_spec text) as Hk. split_and!; [| | apply strip_idemp].
  - apply forallb_elem_of. intros c Hc%strip_elem.
    apply join_elem in Hc as [Hc | (p & Hp & Hc)].
    + apply list_elem_of_singleton in Hc as ->. done.
    + destruct (Hk p Hp) as (_ & _ & _ & Hb). rewrite forallb_elem_of in Hb. by apply Hb.
  - destruct (kept_lines text) as [|p ps]; [done |].
    destruct (Hk p) as (Hne & Hq & Hs & _); [by left |].
    destruct p as [|c t]; [done |]. pose proof (strip_head_space _ _ _ Hs) as Hsp.
    assert (∃ t', join (u " ") ((c :: t) :: ps) = c :: t') as [t' ->].
    { destruct ps; cbn [join]; eexists; done. }
    destruct (strip_keeps_head c t' Hsp) as [t'' ->]. change (u ">") with [62] in *.
    cbn [startswith] in *. by destruct (62 =? c), t, t''.
Qed.

(** ** Properties *)

(** C28: truncation is optimal: for a limit that is not negative and a text that
    can be encoded, the result is a prefix of the text that fits the limit, and
    every prefix of the text that fits is a prefix of the result: no character
    is cut in two and none is dropped without need. *)
Theorem truncate_longest_prefix text max_bytes :
  0 ≤ max_bytes → forallb scalar text = true →
  ∃ r, truncate_message text max_bytes = Ok r ∧ r `prefix_of` text ∧
    Z.of_nat (utf8_len r) ≤ max_bytes ∧
    (∀ p, p `prefix_of` text → Z.of_nat (utf8_len p) ≤ max_bytes → p `prefix_of` r) ∧
    (Z.of_nat (utf8_len text) ≤ max_bytes → r = text).
Proof.
  intros Hn Hs.
  assert (truncate_message text max_bytes = Ok (utf8_prefix (Z.to_nat max_bytes) text)) as E.
  { unfold truncate_message. rewrite (proj2 (Z.ltb_ge max_bytes 0)) by lia.
    assert (encode text = Some (text ≫= enc1)) as ->.
    { unfold encode. assert (existsb is_surrogate text = false) as ->; [|done].
      apply not_true_iff_false. rewrite existsb_elem_of. intros (c & Hc & Hsur).
      rewrite forallb_elem_of in Hs. specialize (Hs c Hc). unfold scalar in Hs.
      rewrite Hsur, andb_false_r in Hs. done. }
    destruct (max_bytes =? 0) eqn:E0; z_bool_hyps.
    - subst. destruct text as [|c t]; [done |]. simpl.
      pose proof (enc1_length c). destruct (length (enc1 c)); [lia | done].
    - by rewrite decode_take. }
  assert (∀ p, p `prefix_of` text → Z.of_nat (utf8_len p) ≤ max_bytes →
    p `prefix_of` utf8_prefix (Z.to_nat max_bytes) text) as Hlong.
  { intros p Hp Hl. apply utf8_prefix_longest; [done | lia]. }
  eexists. split; [exact E |].
  pose proof (utf8_prefix_len (Z.to_nat max_bytes) text) as Hlen.
  pose proof (utf8_prefix_prefix (Z.to_nat max_bytes) text) as Hpre.
  split_and!; [done | lia | done |]. intros Hfit. by apply (anti_symm prefix); [|apply Hlong].
Qed.

(** Removing quoted lines leaves one line that is trimmed and is not itself
    quoted, and doing it again changes nothing. *)
Theorem strip_quoted_lines_clean text :
  let r := strip_quoted_lines text in
  forallb (λ c, negb (is_linebreak c)) r = true ∧ startswith r (u ">") = false ∧
  strip r = r ∧ strip_quoted_lines r = r.
Proof.
  intros r. destruct (stripped_quotes text) as (Hb & Hq & Hs). fold r in Hb, Hq, Hs.
  split_and!; [done..|]. unfold strip_quoted_lines. rewrite splitlines_single by done.
  destruct (nonempty r) eqn:Hne; [|by destruct r].
  rewrite filter_cons, filter_nil, Hs, decide_True by done.
  change (strip <$> [r]) with [strip r]. rewrite Hs.
  rewrite filter_cons, filter_nil, decide_True by done. done.
Qed.

(** A formatted reply always fits a packet: whatever the names, the text and
    the configured prefixes are, the result has at most 227 bytes. *)
Theorem reply_fits_packet fo os config name text ln sn mn lm ov uid r :
  format_reply_message fo os config name text ln sn mn lm ov uid = Ok r →
  Z.of_nat (utf8_len r) ≤ DEFAULT_MESSAGE_TRUNCATE_BYTES.
Proof. apply format_reply_fits. Qed.

(** A reply to a Matrix event that is mapped to a Meshtastic message is
    queued as a structured reply to exactly that message, on the channel of the
    room, and what is queued fits a packet; a reply to an event that is not
    mapped changes nothing. *)
Theorem matrix_reply_targets_original {Qu T} `{OutQueue Qu} `{MessageMapStore T}
    fo os mc (db : T) ev name reply_to text room_config storage lm config ov ln sn mn
    (q : Qu) :
  (mms_by_event db reply_to = None →
   handle_matrix_reply fo os mc true db ev name reply_to text room_config storage lm config
     ov ln sn mn q = Ok (q, false)) ∧
  ∀ m n channel msg,
    mms_by_event db reply_to = Some m → mm_meshtastic_id m = str_of_int n → 0 ≤ n →
    dget room_config (u "meshtastic_channel") = Some (VInt channel) → 0 ≤ channel →
    is_none config = false → broadcast_enabled config = true →
    format_reply_message fo os config name text ln sn mn lm ov (Some (er_sender ev)) = Ok msg →
    ∃ q' ok info,
      handle_matrix_reply fo os mc true db ev name reply_to text room_config storage lm
        config ov ln sn mn q = Ok (q', ok) ∧
      oq_calls q' = oq_calls q ++ (if ok then [(SendTextReply msg n channel, info)] else []) ∧
      Z.of_nat (utf8_len msg) ≤ DEFAULT_MESSAGE_TRUNCATE_BYTES ∧
      (storage = false → info = None).
Proof.
  split; [intros E; unfold handle_matrix_reply; by rewrite E |].
  intros m n channel msg Em Hid Hn Hch Hc0 Hnone Hb Hf.
  unfold handle_matrix_reply. rewrite Em, Hid. unfold reply_target.
  rewrite isdigit_str_of_int, int_of_str_of_int by done. cbn [res_bind]. rewrite Hf.
  cbn [res_bind]. unfold send_reply_to_meshtastic, _get_meshtastic_interface_and_channel.
  unfold dget_none, dget_or. rewrite Hch. cbn [default from_option id].
  rewrite (proj2 (Z.ltb_ge channel 0)) by lia. rewrite Hnone, Hnone, Hb. cbn [negb].
  match goal with |- context [oq_put ?c ?d ?i q] =>
    pose proof (oq_put_calls c d i q) as Hput; exists (oq_put c d i q).1, (oq_put c d i q).2, i end.
  split_and!; [by rewrite <-surjective_pairing | done | by eapply format_reply_fits | by intros ->].
Qed.

(** ** Witnesses *)

(** Three two-byte characters and a limit of five bytes. *)
Lemma truncate_longest_prefix_witness :
  ∃ r, truncate_message [233; 233; 233] 5 = Ok r ∧ r `prefix_of` [233; 233; 233] ∧
    Z.of_nat (utf8_len r) ≤ 5.
Proof.
  destruct (truncate_longest_prefix [233; 233; 233] 5 ltac:(lia) eq_refl)
    as (r & H1 & H2 & H3 & _).
  exists r. split; [exact H1 | split; [exact H2 | exact H3]].
Defined.

Definition demo_env : queue_env :=
  {| qe_done := λ _, false; qe_loop := true; qe_task := 7; qe_wall := 0; qe_now := 0 |}.
Definition demo_queue : @mq mesh_call :=
  (start (λ _, false) true 0 1 2.5 mq_init).1.
Definition demo_map : table :=
  store_message_map false [] (inl 4242) (u "$orig") (u "!r:s") (u "hello") None.
Definition demo_event : event_ref :=
  {| er_event_id := u "$reply"; er_room_id := u "!r:s"; er_sender := u "@a:s" |}.

Lemma reply_fits_packet_witness :
  ∃ r, format_reply_message no_other (λ _, []) (VDict []) (u "Alice") (u "> quote") None None
         None None None None = Ok r ∧ Z.of_nat (utf8_len r) ≤ 227.
Proof.
  eexists. split; [vm_compute; reflexivity |].
  refine (reply_fits_packet no_other (λ _, []) (VDict []) (u "Alice") (u "> quote") None None
    None None None None _ _). vm_compute. reflexivity.
Defined.

Lemma matrix_reply_targets_original_witness :
  ∃ q' ok info,
    handle_matrix_reply (H := mq_out_queue demo_env) no_other (λ _, []) VNone true
      demo_map demo_event (u "Alice") (u "$orig") (u "thanks")
      [(u "meshtastic_channel", VInt 2)] false None (VDict []) None None None None
      demo_queue = Ok (q', ok) ∧
    oq_calls (OutQueue := mq_out_queue demo_env) q' =
      oq_calls (OutQueue := mq_out_queue demo_env) demo_queue ++
      (if ok then [(SendTextReply (u "Alice[M]: thanks") 4242 2, info)] else []).
Proof.
  destruct (proj2 (matrix_reply_targets_original (H := mq_out_queue demo_env) (H0 := table_store)
    no_other (λ _, []) VNone demo_map demo_event (u "Alice") (u "$orig") (u "thanks")
    [(u "meshtastic_channel", VInt 2)] false None (VDict []) None None None None demo_queue)
    {| mm_meshtastic_id := u "4242"; mm_matrix_event_id := u "$orig";
       mm_matrix_room_id := u "!r:s"; mm_text := u "hello"; mm_meshnet := None |}
    4242 2 (u "Alice[M]: thanks") eq_refl eq_refl ltac:(lia) eq_refl ltac:(lia) eq_refl
    eq_refl ltac:(vm_compute; reflexivity)) as (q' & ok & info & H1 & H2 & _).
  exists q', ok, info. split; [exact H1 | exact H2].
Defined.
