(* ===== verification/RoomMapping.v ===== *)
(** * Room mapping

    Models [src/mmrelay/matrix/room_mapping.py]: the [matrix_rooms] section, a
    list or a dictionary whose entries are room identifiers or dictionaries with
    an [id], and its resolution of aliases in place.

    Entries that are dictionaries are objects: they live in a heap and an entry
    holds a reference, so that one object may stand in several places (a YAML
    anchor does that) and a setter writes to all of them.  The setters of
    [_iter_room_alias_entries] are first-class values here too. *)

From Stdlib Require Import String.
From stdpp Require Import base tactics list numbers gmap sets.
From S2P Require Import Prelude PyStr PyValue.
Open Scope Z_scope.

(** ** Data *)

Inductive room_entry := EVal (v : pyval) | ERef (loc : nat).

Inductive rooms_kind := RoomsList | RoomsDict | RoomsOther.

(** The keys of a list mapping are not used. *)
Record rooms := {
  rm_kind : rooms_kind;
  rm_entries : list (pystr * room_entry);
  rm_heap : gmap nat pydict }.

Definition set_entries (l : list (pystr * room_entry)) (st : rooms) : rooms :=
  {| rm_kind := rm_kind st; rm_entries := l; rm_heap := rm_heap st |}.
Definition set_heap (h : gmap nat pydict) (st : rooms) : rooms :=
  {| rm_kind := rm_kind st; rm_entries := rm_entries st; rm_heap := h |}.

(** The closures made by [_make_entry_setter], [_make_list_setter] and
    [_make_dict_setter]. *)
Inductive setter := SetEntryId (loc : nat) | SetListEntry (index : nat) | SetDictEntry (key : pystr).

Definition entry_object (h : gmap nat pydict) (loc : nat) : pydict := default [] (h !! loc).

Definition run_setter (s : setter) (new_id : pystr) (st : rooms) : rooms :=
  match s with
  | SetEntryId loc =>
      set_heap (<[loc := dset (entry_object (rm_heap st) loc) (u "id") (VStr new_id)]>
                  (rm_heap st)) st
  | SetListEntry i =>
      set_entries (alter (λ ke, (ke.1, EVal (VStr new_id))) i (rm_entries st)) st
  | SetDictEntry k =>
      set_entries ((λ ke, if str_eqb ke.1 k then (ke.1, EVal (VStr new_id)) else ke)
                     <$> rm_entries st) st
  end.

(** ** Operations *)

Definition _is_room_alias (value : pyval) : bool :=
  match value with VStr s => startswith s (u "#") | _ => false end.

Definition _get_valid_device_id (value : pyval) : option pystr :=
  match value with
  | VStr s => let s := strip s in if nonempty s then Some s else None
  | _ => None
  end.

Definition _extract_localpart_from_mxid (mxid : option pystr) : option pystr :=
  match mxid with
  | Some (64 :: s) => Some (split1 58 s).1
  | m => m
  end.

Definition is_collection (st : rooms) : bool :=
  match rm_kind st with RoomsOther => false | _ => true end.

(** The entries a generator goes through, with the setter of each. *)
Definition entry_setter (kind : rooms_kind) (i : nat) (ke : pystr * room_entry) : setter :=
  match ke.2, kind with
  | ERef loc, _ => SetEntryId loc
  | EVal _, RoomsList => SetListEntry i
  | EVal _, _ => SetDictEntry ke.1
  end.
Definition room_positions (st : rooms) : list (room_entry * setter) :=
  if is_collection st
  then imap (λ i ke, (ke.2, entry_setter (rm_kind st) i ke)) (rm_entries st)
  else [].

(** What is yielded for an entry, read when its turn comes. *)
Definition entry_alias (h : gmap nat pydict) (e : room_entry) : pyval :=
  match e with
  | EVal v => v
  | ERef loc => dget_or (entry_object h loc) (u "id") (VStr [])
  end.

Definition _iter_room_alias_entries (st : rooms) : list (pyval * setter) :=
  (λ es, (entry_alias (rm_heap st) es.1, es.2)) <$> room_positions st.

Definition _is_room_mapped (st : rooms) (room_id_or_alias : pystr) : bool :=
  existsb (λ a, py_eqb a.1 (VStr room_id_or_alias)) (_iter_room_alias_entries st).

(** One turn of the loop of [_resolve_aliases_in_mapping]. *)
Definition resolve_entry_alias (resolver : pystr → option pystr) (st : rooms)
    (es : room_entry * setter) : rooms :=
  match entry_alias (rm_heap st) es.1 with
  | VStr alias =>
      if startswith alias (u "#") then
        match resolver alias with
        | Some resolved_id =>
            if nonempty resolved_id then run_setter es.2 resolved_id st else st
        | None => st
        end
      else st
  | _ => st
  end.

Definition _resolve_aliases_in_mapping (resolver : pystr → option pystr) (st : rooms)
    : rooms :=
  foldl (resolve_entry_alias resolver) st (room_positions st).

Definition _update_room_id_in_mapping (alias resolved_id : pystr) (st : rooms)
    : rooms * bool :=
  match first_some (λ a, if py_eqb a.1 (VStr alias) then Some a.2 else None)
          (_iter_room_alias_entries st) with
  | Some s => (run_setter s resolved_id st, true)
  | None => (st, false)
  end.

(** ** Lemmas *)

(** The values of the entries, in order. *)
Definition alias_at (st : rooms) (i : nat) : option pyval :=
  (λ ke, entry_alias (rm_heap st) ke.2) <$> rm_entries st !! i.

Definition keys_ok (st : rooms) : Prop :=
  rm_kind st = RoomsDict → NoDup (rm_entries st).*1.

Lemma entry_object_insert h l l' d :
  entry_object (<[l := d]> h) l' = if decide (l = l') then d else entry_object h l'.
Proof.
  unfold entry_object. case_decide as E; [subst; by rewrite lookup_insert_eq |].
  by rewrite lookup_insert_ne.
Qed.

Lemma dget_or_dset d k v x : dget_or (dset d k v) k x = v.
Proof. unfold dget_or. by rewrite dget_dset_eq. Qed.

Lemma run_setter_shape s id st :
  rm_kind (run_setter s id st) = rm_kind st ∧
  (rm_entries (run_setter s id st)).*1 = (rm_entries st).*1.
Proof.
  destruct s as [l|i|k]; simpl; split; try done.
  - apply list_eq. intros j. rewrite !list_lookup_fmap.
    destruct (decide (i = j)) as [->|].
    + rewrite list_lookup_alter_eq. by destruct (rm_entries st !! j).
    + by rewrite list_lookup_alter_ne.
  - rewrite <-list_fmap_compose. apply list_fmap_ext. intros j [k' e] _. simpl. by case_match.
Qed.

(** A setter writes the identifier to the entries it touches and leaves the
    value of the others. *)
Lemma run_setter_alias s id st i v :
  alias_at st i = Some v →
  alias_at (run_setter s id st) i = Some v ∨
  alias_at (run_setter s id st) i = Some (VStr id).
Proof.
  unfold alias_at. intros ([k e] & Hi & ->)%fmap_Some. simpl.
  destruct s as [l|j|k']; simpl.
  - rewrite Hi. simpl. destruct e as [w|l']; [by left |]. simpl.
    rewrite entry_object_insert. case_decide; [right | by left].
    f_equal. f_equal. apply dget_or_dset.
  - destruct (decide (j = i)) as [->|].
    + rewrite list_lookup_alter_eq, Hi. by right.
    + rewrite list_lookup_alter_ne, Hi by done. by left.
  - rewrite list_lookup_fmap, Hi. simpl. case_match; [by right | by left].
Qed.

(** The setter of an entry reaches that entry. *)
Lemma run_setter_reaches st i k e id :
  is_collection st = true → rm_entries st !! i = Some (k, e) →
  alias_at (run_setter (entry_setter (rm_kind st) i (k, e)) id st) i = Some (VStr id).
Proof.
  intros Hc Hi. unfold alias_at, entry_setter, is_collection in *.
  destruct e as [v|l]; simpl.
  - destruct (rm_kind st); [| | done]; simpl.
    + by rewrite list_lookup_alter_eq, Hi.
    + rewrite list_lookup_fmap, Hi. simpl. by rewrite str_eqb_refl.
  - rewrite Hi. simpl. rewrite entry_object_insert, decide_True by done.
    f_equal. apply dget_or_dset.
Qed.

(** A setter leaves the entries at other positions alone, as entries. *)
Lemma run_setter_entry st i j k e id ke :
  keys_ok st → is_collection st = true → rm_entries st !! i = Some (k, e) → i ≠ j →
  rm_entries st !! j = Some ke →
  rm_entries (run_setter (entry_setter (rm_kind st) i (k, e)) id st) !! j = Some ke.
Proof.
  intros Hk Hc Hi Hne Hj. unfold entry_setter, is_collection in *.
  destruct e as [v|l]; simpl; [|done]. destruct (rm_kind st) eqn:Ek; [| | done]; simpl.
  - by rewrite list_lookup_alter_ne.
  - rewrite list_lookup_fmap, Hj. simpl. destruct (str_eqb ke.1 k) eqn:E; [|done].
    apply str_eqb_spec in E. destruct Hne.
    apply (NoDup_lookup (rm_entries st).*1 i j k); [by apply Hk | |];
      rewrite list_lookup_fmap; [by rewrite Hi | rewrite Hj; simpl; congruence].
Qed.

Definition not_alias (o : option pyval) : Prop :=
  ∀ v, o = Some v → _is_room_alias v = false.

Section resolve.
Context (resolver : pystr → option pystr).
Hypothesis resolves : ∀ a, startswith a (u "#") = true →
  ∃ id, resolver a = Some id ∧ id ≠ [] ∧ startswith id (u "#") = false.

Lemma resolve_step_keeps st es i :
  not_alias (alias_at st i) → not_alias (alias_at (resolve_entry_alias resolver st es) i).
Proof.
  intros H. unfold resolve_entry_alias.
  destruct (entry_alias _ _) as [| | | |a| | | |]; try done.
  destruct (startswith a _) eqn:E; [|done].
  destruct (resolves a E) as (id & -> & Hne & Hid).
  apply nonempty_spec in Hne as ->.
  destruct (alias_at st i) as [v|] eqn:Ev.
  - destruct (run_setter_alias es.2 id st i v Ev) as [-> | ->]; [done |].
    by intros ? [= <-].
  - intros v Hv. exfalso. unfold alias_at in *. apply fmap_None in Ev.
    apply fmap_Some in Hv as (ke & Hke & _).
    pose proof (proj2 (run_setter_shape es.2 id st)) as Hs.
    apply (f_equal (lookup i)) in Hs. rewrite !list_lookup_fmap, Hke, Ev in Hs. done.
Qed.

(** One turn: the entry at hand is no alias afterwards, and the entries at the
    other positions are the same. *)
Lemma resolve_step st i ke :
  keys_ok st → is_collection st = true → rm_entries st !! i = Some ke →
  let st' := resolve_entry_alias resolver st (ke.2, entry_setter (rm_kind st) i ke) in
  not_alias (alias_at st' i) ∧ keys_ok st' ∧ rm_kind st' = rm_kind st ∧
  ∀ j ke', j ≠ i → rm_entries st !! j = Some ke' → rm_entries st' !! j = Some ke'.
Proof.
  intros Hk Hc Hi st'. destruct ke as [k e].
  assert (alias_at st i = Some (entry_alias (rm_heap st) e)) as Ha
    by (unfold alias_at; by rewrite Hi).
  unfold st', resolve_entry_alias. cbn [fst snd].
  destruct (entry_alias (rm_heap st) e) as [| | | |a| | | |] eqn:Ee;
    try (by split_and!; [rewrite Ha; intros ? [= <-] | ..]).
  destruct (startswith a (u "#")) eqn:E.
  2:{ split_and!; [rewrite Ha; intros ? [= <-]; done | done..]. }
  destruct (resolves a E) as (id & -> & Hne & Hid). apply nonempty_spec in Hne as ->.
  destruct (run_setter_shape (entry_setter (rm_kind st) i (k, e)) id st) as [Sk Se].
  split_and!.
  - rewrite run_setter_reaches by done. by intros ? [= <-].
  - unfold keys_ok. rewrite Sk, Se. exact Hk.
  - done.
  - intros j ke' Hne' Hj. by apply run_setter_entry.
Qed.

Lemma resolve_suffix l : ∀ n st,
  keys_ok st → is_collection st = true →
  (∀ i, (i < n)%nat → not_alias (alias_at st i)) →
  (∀ i ke, l !! i = Some ke → rm_entries st !! (n + i)%nat = Some ke) →
  let st' := foldl (resolve_entry_alias resolver) st
    (imap (λ i ke, (ke.2, entry_setter (rm_kind st) (n + i) ke)) l) in
  ∀ i, (i < n + length l)%nat → not_alias (alias_at st' i).
Proof.
  induction l as [|ke l IH]; intros n st Hk Hc Hdone Hl; simpl.
  { intros i Hi. apply Hdone. lia. }
  assert (rm_entries st !! n = Some ke) as Hn by (rewrite <-(Nat.add_0_r n); by apply Hl).
  rewrite Nat.add_0_r. intros i Hi.
  destruct (resolve_step st n ke Hk Hc Hn) as (Hna & Hk' & Hkind & Hsame).
  set (st1 := resolve_entry_alias resolver st _) in *.
  assert (imap ((λ i ke, (ke.2, entry_setter (rm_kind st) (n + i) ke)) ∘ S) l =
          imap (λ i ke, (ke.2, entry_setter (rm_kind st1) (S n + i) ke)) l) as ->.
  { rewrite Hkind. apply imap_ext. intros j x _. simpl. by rewrite Nat.add_succ_r. }
  apply IH; [done | | | | lia].
  - unfold is_collection. by rewrite Hkind.
  - intros j Hj. destruct (decide (j = n)) as [->|]; [done |].
    apply resolve_step_keeps, Hdone. lia.
  - intros j x Hj. replace (S n + j)%nat with (n + S j)%nat by lia.
    apply Hsame; [lia |]. by apply Hl.
Qed.
End resolve.

(** What is not an entry of the mapping is not touched: the kind, the keys and
    the other fields of the entries. *)
Lemma run_setter_fields s id st l k :
  k ≠ u "id" →
  dget (entry_object (rm_heap (run_setter s id st)) l) k = dget (entry_object (rm_heap st) l) k.
Proof.
  intros Hk. destruct s as [l'| |]; simpl; [|done..].
  rewrite entry_object_insert. case_decide; [subst; by rewrite dget_dset_ne |]. done.
Qed.

Lemma resolve_entry_shape resolver st es :
  rm_kind (resolve_entry_alias resolver st es) = rm_kind st ∧
  (rm_entries (resolve_entry_alias resolver st es)).*1 = (rm_entries st).*1 ∧
  ∀ l k, k ≠ u "id" →
    dget (entry_object (rm_heap (resolve_entry_alias resolver st es)) l) k =
    dget (entry_object (rm_heap st) l) k.
Proof.
  unfold resolve_entry_alias. repeat (case_match; try done).
  match goal with |- context [run_setter _ ?i _] => destruct (run_setter_shape es.2 i st) end.
  split_and!; [done..|]. intros. by apply run_setter_fields.
Qed.

Lemma iter_lookup st i a s :
  _iter_room_alias_entries st !! i = Some (a, s) ↔
  is_collection st = true ∧ ∃ ke, rm_entries st !! i = Some ke ∧
    a = entry_alias (rm_heap st) ke.2 ∧ s = entry_setter (rm_kind st) i ke.
Proof.
  unfold _iter_room_alias_entries, room_positions. rewrite list_lookup_fmap.
  destruct (is_collection st); [|split; [done | by intros [? _]]].
  rewrite list_lookup_imap. destruct (rm_entries st !! i) as [ke|]; simpl.
  - split.
    + intros [= <- <-]. eauto.
    + by intros (_ & ke' & [= <-] & -> & ->).
  - split; [done |]. by intros (_ & ke & ? & _).
Qed.

(** ** Properties *)

(** After [_resolve_aliases_in_mapping] with a resolver that finds a room id
    for every alias, no entry is an alias any more, be the mapping a list or a
    dictionary and be entries shared or not; keys, kind and the other fields of
    every entry are as before. *)
Theorem resolve_leaves_no_alias resolver st :
  (∀ a, startswith a (u "#") = true →
     ∃ id, resolver a = Some id ∧ id ≠ [] ∧ startswith id (u "#") = false) →
  keys_ok st →
  let st' := _resolve_aliases_in_mapping resolver st in
  (is_collection st = true → ∀ i v, alias_at st' i = Some v → _is_room_alias v = false) ∧
  (is_collection st = false → st' = st) ∧
  rm_kind st' = rm_kind st ∧ (rm_entries st').*1 = (rm_entries st).*1 ∧
  ∀ l k, k ≠ u "id" →
    dget (entry_object (rm_heap st') l) k = dget (entry_object (rm_heap st) l) k.
Proof.
  intros Hres Hk st'.
  assert (∀ ps st0, let st1 := foldl (resolve_entry_alias resolver) st0 ps in
    rm_kind st1 = rm_kind st0 ∧ (rm_entries st1).*1 = (rm_entries st0).*1 ∧
    ∀ l k, k ≠ u "id" →
      dget (entry_object (rm_heap st1) l) k = dget (entry_object (rm_heap st0) l) k) as Hshape.
  { intros ps. induction ps as [|p ps IH]; intros st0; [done |]. simpl.
    destruct (IH (resolve_entry_alias resolver st0 p)) as (K1 & E1 & F1).
    destruct (resolve_entry_shape resolver st0 p) as (K2 & E2 & F2).
    split_and!; [congruence.. |]. intros. rewrite F1, F2; done. }
  destruct (Hshape (room_positions st) st) as (HK & HE & HF).
  split_and!; [| | done..].
  - intros Hc i v Hv.
    assert (i < length (rm_entries st))%nat as Hi.
    { unfold alias_at in Hv. apply fmap_Some in Hv as (ke & Hke & _).
      apply lookup_lt_Some in Hke. apply (f_equal length) in HE.
      rewrite !length_fmap in HE. unfold st' in Hke. unfold _resolve_aliases_in_mapping in Hke. lia. }
    refine (resolve_suffix resolver Hres (rm_entries st) 0 st Hk Hc _ _ i Hi v _).
    + intros j Hj. lia.
    + done.
    + unfold st', _resolve_aliases_in_mapping, room_positions in Hv. by rewrite Hc in Hv.
  - intros Hc. unfold st', _resolve_aliases_in_mapping, room_positions. by rewrite Hc.
Qed.

(** [_update_room_id_in_mapping] succeeds exactly when the alias is mapped,
    changes nothing otherwise, and on success the resolved id is mapped. *)
Theorem update_room_id_spec alias resolved_id st :
  let '(st', ok) := _update_room_id_in_mapping alias resolved_id st in
  ok = _is_room_mapped st alias ∧ (ok = false → st' = st) ∧
  (ok = true → _is_room_mapped st' resolved_id = true).
Proof.
  unfold _update_room_id_in_mapping, _is_room_mapped.
  destruct (first_some _ _) as [s|] eqn:E.
  - apply first_some_Some in E as (l1 & [a s'] & l2 & El & Ha & _). simpl in Ha.
    destruct (py_eqb a (VStr alias)) eqn:Ep; [|done]. injection Ha as ->.
    split_and!; [| done | intros _].
    + symmetry. apply existsb_elem_of. exists (a, s). split; [|done].
      rewrite El. apply elem_of_app. right. by left.
    + assert (_iter_room_alias_entries st !! length l1 = Some (a, s)) as Hl
        by (rewrite El; by apply list_lookup_middle).
      apply iter_lookup in Hl as (Hc & [k e] & Hke & -> & ->).
      pose proof (run_setter_reaches st _ k e resolved_id Hc Hke) as Hr.
      set (st1 := run_setter _ _ _) in *. unfold alias_at in Hr.
      apply fmap_Some in Hr as (ke & Hke1 & Hv).
      assert (is_collection st1 = true) as Hc1.
      { unfold is_collection, st1. by rewrite (proj1 (run_setter_shape _ _ _)). }
      apply existsb_elem_of.
      exists (VStr resolved_id, entry_setter (rm_kind st1) (length l1) ke).
      split; [|by apply py_eqb_str].
      apply (list_elem_of_lookup_2 _ (length l1)), iter_lookup. eauto.
  - split_and!; [| done | done]. symmetry. apply not_true_iff_false.
    rewrite existsb_elem_of. intros (a & Ha & Hp).
    rewrite first_some_None in E. specialize (E a Ha). by rewrite Hp in E.
Qed.

(** ** Witness: one entry object that stands in two places of a list. *)

Definition demo_rooms : rooms :=
  {| rm_kind := RoomsList;
     rm_entries := [([], ERef 0); ([], EVal (VStr (u "#b:s"))); ([], ERef 0)];
     rm_heap := {[ 0%nat := [(u "id", VStr (u "#a:s")); (u "meshtastic_channel", VInt 1)] ]} |}.
Definition demo_resolver (a : pystr) : option pystr := Some (u "!x:s").

Lemma resolve_leaves_no_alias_witness :
  alias_at (_resolve_aliases_in_mapping demo_resolver demo_rooms) 2 = Some (VStr (u "!x:s")) ∧
  ∀ i v, alias_at (_resolve_aliases_in_mapping demo_resolver demo_rooms) i = Some v →
    _is_room_alias v = false.
Proof.
  split; [vm_compute; reflexivity |].
  refine (proj1 (resolve_leaves_no_alias demo_resolver demo_rooms _ _) eq_refl).
  - intros a _. exists (u "!x:s"). split; [reflexivity | split; [discriminate | reflexivity]].
  - intros H. discriminate H.
Defined.
