(* ===== verification/MatrixRelay.v ===== *)
(** * From the mesh to a Matrix room

    Models [src/mmrelay/matrix/relay.py]: the capped exponential backoff, sending
    with retries under one transaction id, and [matrix_relay], which connects,
    builds the event content, sends it and records the mapping.

    The Matrix client and the Markdown and HTML packages are parameters: what
    each attempt observes and gives is an argument ([attempt_view]), and
    [markdown_html] is [nh3.clean(markdown.markdown(...))], [None] when a package
    is missing. *)

From Stdlib Require Import String QArith Lqa.
From stdpp Require Import base tactics list numbers sets.
From S2P Require Import Prelude PyStr PyValue Settings Prefixes MessageMap.
Open Scope Z_scope.

Definition RELAY_MAX_RETRIES : nat := 3.
Definition MAX_INIT_RETRIES : nat := 3.
Definition INIT_RETRY_DELAY : Q := 2.

(** ** Backoff *)

Definition _retry_backoff_delay (attempt_index : nat) (base_delay max_delay : Q) : Q :=
  qmin (base_delay * inject_Z (2 ^ Z.of_nat attempt_index)) max_delay.

(** ** Sending with retries *)

(** What [room_send] gives: a time-out, one of the communication exceptions of
    the client, an API error, a response with its [event_id] attribute, or any
    other exception. *)
Inductive send_result :=
  | SendTimeout | SendNetworkError | SendApiError
  | SendResponse (event_id : option pystr)
  | SendOther.

(** One attempt: whether the room is known, encrypted and the client's
    encryption switch; what [_get_e2ee_error_message] gives, which raises for a
    configuration with a null section (see [E2eeStatus]); the result of the send;
    the random fraction of the delay added to it, drawn from the interval
    [0, 0.1]. *)
Record attempt_view := {
  av_room : option bool; av_e2ee_enabled : bool; av_reason : res pystr;
  av_result : send_result; av_jitter : Q }.

Definition send_blocked (v : attempt_view) : bool :=
  match av_room v with
  | Some encrypted => encrypted && negb (av_e2ee_enabled v)
  | None => false
  end.

(** The effects, in order. *)
Inductive relay_effect := RoomSend (content : pydict) (tx_id : pystr) | Slept (secs : Q).

(** Result of the call: a response, None, or an exception it lets through. *)
Inductive send_return := RetResponse (event_id : option pystr) | RetNone | RetRaised.

(** [attempts] counts the attempts left. *)
Fixpoint send_loop (views : nat → attempt_view) (content : pydict) (tx_id : pystr)
    (max_retries : nat) (base_delay max_delay : Q) (attempts attempt : nat)
    : send_return * list relay_effect :=
  match attempts with
  | O => (RetNone, [])
  | S rest =>
      let v := views attempt in
      if send_blocked v then
        (match av_reason v with Ok _ => RetNone | Raise _ => RetRaised end, [])
      else
      let delay := _retry_backoff_delay attempt base_delay max_delay in
      let retry :=
        let '(r, t) := send_loop views content tx_id max_retries base_delay max_delay
                         rest (S attempt) in
        (r, RoomSend content tx_id ::
            (if Nat.ltb attempt max_retries then [Slept (delay + delay * av_jitter v)] else [])
            ++ t) in
      match av_result v with
      | SendTimeout | SendNetworkError | SendApiError => retry
      | SendResponse e => (RetResponse e, [RoomSend content tx_id])
      | SendOther => (RetRaised, [RoomSend content tx_id])
      end
  end.

(** [token]: the fresh transaction id used when none is given. *)
Definition _send_matrix_message_with_retry (views : nat → attempt_view) (content : pydict)
    (max_retries : nat) (base_delay max_delay : Q) (transaction_id : option pystr)
    (token : pystr) : send_return * list relay_effect :=
  let stable_transaction_id :=
    match transaction_id with
    | Some t => if nonempty t then t else token
    | None => token
    end in
  send_loop views content stable_transaction_id max_retries base_delay max_delay
    (S max_retries) 0.

(** ** Connecting *)

Inductive connect_outcome :=
  | ConnectClient      (* a client *)
  | ConnectNone        (* None *)
  | ConnectInitError   (* one of the handled initialisation errors *)
  | ConnectOSError.    (* re-raised *)

Fixpoint connect_loop (outcomes : nat → connect_outcome) (attempts attempt : nat)
    : send_return * list relay_effect :=
  match attempts with
  | O => (RetNone, [])
  | S rest =>
      match outcomes attempt with
      | ConnectClient => (RetResponse None, [])
      | ConnectOSError => (RetRaised, [])
      | ConnectNone | ConnectInitError =>
          if Nat.ltb attempt (MAX_INIT_RETRIES - 1) then
            let '(r, t) := connect_loop outcomes rest (S attempt) in
            (r, Slept INIT_RETRY_DELAY :: t)
          else (RetNone, [])
      end
  end.

(** ** The content of the event *)

(** [html.escape] with quotes. *)
Definition html_escape_char (c : Z) : pystr :=
  if c =? 38 then u "&amp;" else if c =? 60 then u "&lt;" else if c =? 62 then u "&gt;"
  else if c =? 34 then u "&quot;" else if c =? 39 then u "&#x27;" else [c].
Definition html_escape (s : pystr) : pystr := s ≫= html_escape_char.

(** [s.replace("\n", r)] *)
Definition replace_newlines (r s : pystr) : pystr := s ≫= λ c, if c =? 10 then r else [c].

Definition is_ascii_letter (c : Z) : bool := between 65 90 c || between 97 122 c.

(** The search for a tag: a less-than sign, an optional slash, a letter and a
    later greater-than sign. *)
Definition tag_here (s : pystr) : bool :=
  match s with
  | 60 :: s1 =>
      let s2 := match s1 with 47 :: t => t | t => t end in
      match s2 with
      | c :: t => is_ascii_letter c && existsb (Z.eqb 62) t
      | [] => false
      end
  | _ => false
  end.
Fixpoint has_html (s : pystr) : bool :=
  tag_here s || match s with [] => false | _ :: s' => has_html s' end.

Definition has_markdown (message : pystr) : bool :=
  existsb (λ c, existsb (Z.eqb c) [42; 95; 96; 126]) message.

Section relay.
Context (markdown_html : pystr → option pystr) (other_str : pyval → pystr).

Definition relay_formatted_body (message : pystr) : pystr :=
  let '(safe_message, has_prefix) := _escape_leading_prefix_for_markdown message in
  let plain := replace_newlines (u "<br/>") (html_escape message) in
  if (has_markdown message || has_prefix) || has_html message then
    match markdown_html safe_message with
    | Some h => h
    | None => plain
    end
  else plain.

(** The message to relay, with its metadata. *)
Record relay_message := {
  rl_message : pystr; rl_longname : pystr; rl_shortname : pystr; rl_meshnet_name : pystr;
  rl_portnum : pyval; rl_meshtastic_id : option Z; rl_meshtastic_replyId : option Z;
  rl_meshtastic_text : option pystr; rl_emote : bool; rl_emoji : bool;
  rl_reply_to_event_id : option pystr }.

Definition opt_field {A} (k : pystr) (v : option A) (f : A → pyval) (d : pydict) : pydict :=
  match v with Some a => dset d k (f a) | None => d end.

Definition relay_content (m : relay_message) (relay_meshnet_name : pyval)
    (formatted_body : pystr) : pydict :=
  let content :=
    [(u "msgtype", VStr (if rl_emote m then u "m.emote" else u "m.text"));
     (u "body", VStr (rl_message m));
     (u "meshtastic_longname", VStr (rl_longname m));
     (u "meshtastic_shortname", VStr (rl_shortname m));
     (u "meshtastic_meshnet", relay_meshnet_name);
     (u "meshtastic_portnum", rl_portnum m);
     (u "format", VStr (u "org.matrix.custom.html"));
     (u "formatted_body", VStr formatted_body)] in
  let content := opt_field (u "meshtastic_id") (rl_meshtastic_id m) VInt content in
  let content := opt_field (u "meshtastic_replyId") (rl_meshtastic_replyId m) VInt content in
  let content := opt_field (u "meshtastic_text") (rl_meshtastic_text m) VStr content in
  if rl_emoji m then dset content (u "meshtastic_emoji") (VInt 1) else content.

(** The relation to the event replied to and, when that event is known, the
    quotation.  [bot_user_id] is the text of the client's user id. *)
Definition relay_reply `{MessageMapStore T} (db : T) (room_id bot_user_id : pystr)
    (formatted_body : pystr) (m : relay_message) (content : pydict) : pydict :=
  match rl_reply_to_event_id m with
  | Some ((_ :: _) as event) =>
      let content := dset content (u "m.relates_to")
        (VDict [(u "m.in_reply_to", VDict [(u "event_id", VStr event)])]) in
      match mms_by_event db event with
      | Some orig =>
          let meshnet_label := match mm_meshnet orig with
                               | Some ((_ :: _) as n) => n
                               | _ => u "Mesh"
                               end in
          let quoted_text := u "> <" ++ bot_user_id ++ u "> [" ++ meshnet_label ++ u "]: "
                               ++ mm_text orig in
          let content := dset content (u "body")
            (VStr (quoted_text ++ [10; 10] ++ rl_message m)) in
          let reply_link := u "https://matrix.to/#/" ++ room_id ++ u "/" ++ event in
          let bot_link := u "https://matrix.to/#/" ++ bot_user_id in
          let q := [34] in
          let blockquote_content :=
            u "<a href=" ++ q ++ reply_link ++ q ++ u ">In reply to</a> " ++
            u "<a href=" ++ q ++ bot_link ++ q ++ u ">" ++ bot_user_id ++ u "</a><br>" ++
            u "[" ++ html_escape meshnet_label ++ u "]: " ++ html_escape (mm_text orig) in
          dset content (u "formatted_body")
            (VStr (u "<mx-reply><blockquote>" ++ blockquote_content ++
                   u "</blockquote></mx-reply>" ++ formatted_body))
      | None => content
      end
  | _ => content
  end.

(** ** Recording the mapping *)

(** A value stored in a text column. *)
Definition column_text (v : pyval) : option pystr :=
  match v with VNone => None | v => Some (to_str other_str v) end.

Definition relay_store `{MessageMapStore T} (storage_enabled : bool) (msgs_to_keep : Z)
    (room_id : pystr) (relay_meshnet_name : pyval) (m : relay_message)
    (event_id : option pystr) (db : T) : T :=
  match rl_meshtastic_id m, event_id with
  | Some id, Some event =>
      if storage_enabled && negb (rl_emote m) then
        let text := match rl_meshtastic_text m with
                    | Some ((_ :: _) as t) => t
                    | _ => rl_message m
                    end in
        let db := mms_put {| mm_meshtastic_id := str_of_int id; mm_matrix_event_id := event;
                             mm_matrix_room_id := room_id; mm_text := text;
                             mm_meshnet := column_text relay_meshnet_name |} db in
        if 0 <? msgs_to_keep then mms_prune msgs_to_keep db else db
      else db
  | _, _ => db
  end.

(** ** The whole call *)

(** What the call meets: the connection attempts, the join of a room not joined
    yet ([None]: already joined; [Some false]: the join raised), the attempts to
    send, the fresh transaction id and the client's user id. *)
Record relay_env := {
  re_connect : nat → connect_outcome; re_join : option bool;
  re_views : nat → attempt_view; re_token : pystr; re_bot_user_id : pystr }.

Definition matrix_relay `{MessageMapStore T} (env : relay_env) (config : pyval)
    (room_id : pystr) (m : relay_message) (db : T)
    : T * send_return * list relay_effect :=
  let '(r, t1) := connect_loop (re_connect env) MAX_INIT_RETRIES 0 in
  match r with
  | RetRaised => (db, RetRaised, t1)
  | RetNone => (db, RetNone, t1)
  | RetResponse _ =>
      if is_none config then (db, RetNone, t1) else
      let interactions := get_interaction_settings config in
      let storage_enabled := message_storage_enabled interactions in
      let msgs_to_keep := _get_msgs_to_keep_config config config in
      match re_join env with
      | Some false => (db, RetNone, t1)
      | _ =>
          let relay_meshnet_name :=
            if nonempty (rl_meshnet_name m) then VStr (rl_meshnet_name m)
            else meshtastic_value config (u "meshnet_name") (VStr []) in
          let formatted_body := relay_formatted_body (rl_message m) in
          let content := relay_content m relay_meshnet_name formatted_body in
          let content := relay_reply db room_id (re_bot_user_id env) formatted_body m content in
          let '(r, t2) := _send_matrix_message_with_retry (re_views env) content
                            RELAY_MAX_RETRIES 1 30 None (re_token env) in
          match r with
          | RetResponse event_id =>
              (relay_store storage_enabled msgs_to_keep room_id relay_meshnet_name m event_id db,
               r, t1 ++ t2)
          | _ => (db, RetNone, t1 ++ t2)
          end
      end
  end.
End relay.

(** ** Lemmas *)

(** The sends of a run, and its sleeps. *)
Definition sends (t : list relay_effect) : list (pydict * pystr) :=
  omap (λ e, match e with RoomSend c x => Some (c, x) | _ => None end) t.
Definition sleeps (t : list relay_effect) : list Q :=
  omap (λ e, match e with Slept d => Some d | _ => None end) t.

(** An attempt that is followed by another one. *)
Definition retried (v : attempt_view) : Prop :=
  send_blocked v = false ∧ av_result v ∈ [SendTimeout; SendNetworkError; SendApiError].

(** How the call ends when attempt [k], seen as [v], is not followed by another one. *)
Definition ends (v : attempt_view) (k : nat) (r : send_return) (sent : nat) : Prop :=
  if send_blocked v then
    sent = k ∧ r = match av_reason v with Ok _ => RetNone | Raise _ => RetRaised end
  else
    sent = S k ∧ match av_result v with
                 | SendResponse e => r = RetResponse e
                 | SendOther => r = RetRaised
                 | _ => False
                 end.

Lemma ends_S v k r sent : ends v k r sent → ends v (S k) r (S sent).
Proof. unfold ends. destruct (send_blocked v); intros [-> ?]; by split. Qed.

Lemma send_loop_ends views content tx n base mx attempts : ∀ attempt,
  let '(r, t) := send_loop views content tx n base mx attempts attempt in
  ∃ k, (k ≤ attempts)%nat ∧ (∀ j, (j < k)%nat → retried (views (attempt + j)%nat)) ∧
    (∀ s, s ∈ sends t → s = (content, tx)) ∧
    sleeps t = map (λ j, let d := _retry_backoff_delay j base mx in
                         (d + d * av_jitter (views j))%Q)
                   (seq attempt (k `min` (n - attempt))) ∧
    (if decide (k = attempts) then r = RetNone ∧ length (sends t) = k
     else ends (views (attempt + k)%nat) k r (length (sends t))).
Proof.
  induction attempts as [|attempts IH]; intros attempt; cbn [send_loop].
  { exists 0%nat. split_and!; [lia | lia | intros s Hs; by apply elem_of_nil in Hs | done | done]. }
  destruct (send_blocked (views attempt)) eqn:Eb.
  { destruct (av_reason (views attempt)) eqn:Ea; exists 0%nat; rewrite Nat.add_0_r, decide_False by done;
      (split_and!; [lia | lia | intros s Hs; by apply elem_of_nil in Hs | done |]);
      unfold ends; by rewrite Eb, Ea. }
  specialize (IH (S attempt)).
  destruct (send_loop views content tx n base mx attempts (S attempt)) as [r t].
  destruct IH as (k & Hk & Hr & Hs & Hsl & He).
  destruct (av_result (views attempt)) as [| | |e|] eqn:Er.
  4, 5: exists 0%nat; rewrite Nat.add_0_r, decide_False by done;
    (split_and!; [lia | lia | intros s ->%list_elem_of_singleton; done | done |]);
    unfold ends; by rewrite Eb, Er.
  all: exists (S k); split_and!; [lia | | | |].
  all: try (intros [|j] Hj; [rewrite Nat.add_0_r; split; [done | rewrite Er; set_solver] |];
    replace (attempt + S j)%nat with (S attempt + j)%nat by lia; apply Hr; lia).
  all: try (intros s; destruct (Nat.ltb attempt n); cbn; intros [-> | H]%elem_of_cons; [done | by apply Hs | done | by apply Hs]).
  all: try (destruct (Nat.ltb_spec attempt n);
    [ replace (n - attempt)%nat with (S (n - S attempt)) by lia; cbn; f_equal; exact Hsl
    | replace (n - attempt)%nat with 0%nat by lia; replace (n - S attempt)%nat with 0%nat in Hsl by lia;
      rewrite Nat.min_0_r in *; exact Hsl ]).
  all: replace (attempt + S k)%nat with (S attempt + k)%nat by lia; destruct (Nat.ltb attempt n); cbn;
    destruct (decide (k = attempts)), (decide (S k = S attempts)); try lia;
    solve [destruct He as [He1 He2]; split; [exact He1 | f_equal; exact He2] | by apply ends_S].
Qed.

(** The store after [relay_store]. *)
Lemma relay_store_cases `{MessageMapStore T} os se keep room mn m ev (db : T) :
  relay_store os se keep room mn m ev db = db ∨
  se = true ∧ rl_emote m = false ∧ ∃ mp event,
    ev = Some event ∧ mm_matrix_event_id mp = event ∧ mm_matrix_room_id mp = room ∧
    (∃ id, rl_meshtastic_id m = Some id ∧ mm_meshtastic_id mp = str_of_int id) ∧
    relay_store os se keep room mn m ev db =
      (if 0 <? keep then mms_prune keep (mms_put mp db) else mms_put mp db).
Proof.
  unfold relay_store. destruct (rl_meshtastic_id m) as [id|]; [|by left].
  destruct ev as [event|]; [|by left].
  destruct se; [|by left]. destruct (rl_emote m); [by left |]. right.
  split_and!; [done | done |]. eexists _, event. split_and!; [done | | | | done]; simpl; eauto.
Qed.

(** ** Properties *)

(** C26: sending with retries.  Let [k] be the first attempt (from 0) that is not
    followed by another one, an attempt being followed by another one when the
    send was made and ended in a time-out, a communication error or an error
    response.  When [k] goes beyond [max_retries], all [max_retries + 1] attempts
    were made and the answer is None.  Otherwise attempt [k] decides: its response
    is returned, any other exception of its send is let through, and when the
    room is encrypted and the client is not, nothing more is sent and the
    answer is None (or the exception of the text that says why).  So a response
    is returned exactly when all attempts before it failed in a way that is
    retried.  Every send has the same content under the same transaction id (the
    given one, or the fresh one), and between two attempts the call sleeps
    min(base * 2^j, max) and the random part of it. *)
Theorem retry_bounded_idempotent views content n base mx txid token :
  let '(r, t) := _send_matrix_message_with_retry views content n base mx txid token in
  ∃ k, (k ≤ S n)%nat ∧ (∀ j, (j < k)%nat → retried (views j)) ∧
    (if decide (k = S n) then r = RetNone ∧ length (sends t) = S n
     else ends (views k) k r (length (sends t))) ∧
    (∀ c tx, (c, tx) ∈ sends t → c = content ∧
       tx = match txid with Some ((_ :: _) as t0) => t0 | _ => token end) ∧
    sleeps t = map (λ j, let d := qmin (base * inject_Z (2 ^ Z.of_nat j)) mx in
                         (d + d * av_jitter (views j))%Q) (seq 0 (k `min` n)).
Proof.
  unfold _send_matrix_message_with_retry. set (tx := match txid with Some _ => _ | None => _ end).
  pose proof (send_loop_ends views content tx n base mx (S n) 0) as Hf.
  destruct (send_loop views content tx n base mx (S n) 0) as [r t].
  destruct Hf as (k & Hk & Hr & Hs & Hsl & He). exists k. rewrite Nat.sub_0_r in Hsl.
  split_and!; [done | done | | | done].
  - destruct (decide (k = S n)) as [->|]; done.
  - intros c x Hc. pose proof (Hs _ Hc) as [= -> ->]. split; [done |].
    unfold tx. by destruct txid as [[|? ?]|].
Qed.

(** What a relayed message leaves in the map: nothing when neither reactions
    nor replies are enabled, when no event id came back or when it is an emote;
    otherwise the map holds no mapping for that event but the one of this
    message, for this room and this Meshtastic id, and is pruned to the
    configured size. *)
Theorem relay_mapping `{MessageMapStore T} mh os env config room m (db : T) :
  mms_ok db →
  let '(db', r, _) := matrix_relay mh os env config room m db in
  let i := get_interaction_settings config in
  let keep := _get_msgs_to_keep_config config config in
  (message_storage_enabled i = false ∨ rl_emote m = true ∨
     (∀ e, r ≠ RetResponse (Some e)) → db' = db) ∧
  mms_ok db' ∧
  (db' ≠ db → ∃ event id, r = RetResponse (Some event) ∧ rl_meshtastic_id m = Some id ∧
     (∀ mp, mms_by_event db' event = Some mp →
        mm_meshtastic_id mp = str_of_int id ∧ mm_matrix_room_id mp = room) ∧
     (0 < keep → mms_size db' ≤ keep) ∧
     (keep ≤ 0 → is_Some (mms_by_event db' event))).
Proof.
  intros Hok. unfold matrix_relay.
  destruct (connect_loop (re_connect env) MAX_INIT_RETRIES 0) as [[e0| |] t1]; try done.
  destruct (is_none config); [done |].
  destruct (re_join env) as [[]|]; try done;
  match goal with |- context [_send_matrix_message_with_retry ?v ?c ?n ?b ?mx ?x ?tk] =>
    destruct (_send_matrix_message_with_retry v c n b mx x tk) as [[ev| |] t2] end; try done.
  all: set (keep := _get_msgs_to_keep_config config config);
    set (se := message_storage_enabled _); set (mn := if nonempty _ then _ else _).
  all: destruct (relay_store_cases os se keep room mn m ev db)
    as [-> | (Hse & Hem & mp & event & -> & He & Hroom & (id & Hid & Hmid) & ->)];
    [split_and!; done |].
  all: split_and!;
    [ intros [? | [? | Hno]]; [congruence | congruence | by destruct (Hno event)]
    | destruct (0 <? keep); [apply mms_prune_ok |]; by apply mms_put_ok
    | intros _; exists event, id; split_and!; [done | done | | |] ].
  all: try (intros Hk; apply Z.ltb_lt in Hk as Hk'; rewrite Hk';
    apply mms_prune_size; [by apply mms_put_ok | lia]).
  all: try (intros Hk; apply Z.ltb_ge in Hk; rewrite Hk; subst event; rewrite mms_put_get by done; eauto).
  all: intros mp' Hmp; assert (mms_by_event (mms_put mp db) event = Some mp') as Hmp2
    by (destruct (0 <? keep); [apply mms_prune_sound in Hmp; [done | by apply mms_put_ok] | done]);
    subst event; rewrite mms_put_get in Hmp2 by done; by simplify_eq.
Qed.

(** ** Witnesses *)

Definition demo_views (i : nat) : attempt_view :=
  {| av_room := Some false; av_e2ee_enabled := false; av_reason := Ok [];
     av_result := if Nat.ltb i 2 then SendTimeout else SendResponse (Some (u "$ev"));
     av_jitter := 0 |}.

Definition demo_relay_env : relay_env :=
  {| re_connect := λ _, ConnectClient; re_join := None; re_views := demo_views;
     re_token := u "tx"; re_bot_user_id := u "@bot:s" |}.
Definition demo_relay_config : pyval :=
  VDict [(u "meshtastic", VDict [(u "message_interactions",
    VDict [(u "replies", VBool true)])])].
Definition demo_relay_message : relay_message :=
  {| rl_message := u "hi"; rl_longname := u "Al"; rl_shortname := u "A";
     rl_meshnet_name := u "net"; rl_portnum := VInt 1; rl_meshtastic_id := Some 12;
     rl_meshtastic_replyId := None; rl_meshtastic_text := None; rl_emote := false;
     rl_emoji := false; rl_reply_to_event_id := None |}.

Lemma relay_mapping_witness :
  let '(db', r, _) := matrix_relay (λ _, None) (λ _, []) demo_relay_env demo_relay_config
                        (u "!r:s") demo_relay_message ([] : table) in
  r = RetResponse (Some (u "$ev")) ∧ table_ok db' ∧ length db' = 1%nat.
Proof.
  assert (table_ok []) as Hok by (split; constructor).
  pose proof (relay_mapping (λ _, None) (λ _, []) demo_relay_env demo_relay_config
    (u "!r:s") demo_relay_message ([] : table) Hok) as H.
  destruct (matrix_relay _ _ _ _ _ _ _) as [[db' r] t] eqn:E.
  split; [|split; [exact (proj1 (proj2 H)) |]]; vm_compute in E; by injection E as <- <- <-.
Defined.
