(* ===== verification/Health.v ===== *)
(** * Connection health and packet clocks

    Models [src/mmrelay/meshtastic/health.py]: request ids of probe responses and
    their tracking, the calibration of the skew between packet times and the
    local clock, the acknowledgment flags of a probe and the bounded wait for
    them, the health-check settings, and when a failed probe triggers a
    reconnection.

    The module-level variables the functions share are the record [relay_clock].
    [now_wall] and [now] are the readings of [time.time] and [time.monotonic]. *)

From Stdlib Require Import String QArith Lqa.
From stdpp Require Import base tactics list numbers gmap sets.
From S2P Require Import Prelude PyStr PyValue Coerce.
Open Scope Z_scope.

Definition HEALTH_PROBE_TRACK_GRACE_SECS : Q := 60.
Definition RX_TIME_SKEW_BOOTSTRAP_WINDOW_SECS : Q := 180.
Definition RX_TIME_SKEW_BOOTSTRAP_MAX_SKEW_SECS : Q := 172800.
Definition DEFAULT_HEALTH_CHECK_ENABLED : bool := false.
Definition DEFAULT_HEARTBEAT_INTERVAL_SECS : Z := 60.
Definition INITIAL_HEALTH_CHECK_DELAY : Z := 5.
Definition DEFAULT_MESHTASTIC_OPERATION_TIMEOUT : Z := 30.
Definition ACK_POLL_INTERVAL_SECS : Q := 0.1.

(** ** State *)

Record relay_clock := {
  rc_start_time : Q;                       (* RELAY_START_TIME *)
  rc_skew : option Q;                      (* _relay_rx_time_clock_skew_secs *)
  rc_connection_started : Q;               (* _relay_connection_started_monotonic_secs *)
  rc_drain_deadline : option Q;            (* _relay_startup_drain_deadline_monotonic_secs *)
  rc_drain_timer : option bool;            (* the expiry timer, and whether it is alive *)
  rc_bootstrap_deadline : option Q;        (* _relay_reconnect_prestart_bootstrap_... *)
  rc_drain_complete : bool;                (* _relay_startup_drain_complete_event is set *)
  rc_probes : gmap Z Q }.                  (* _health_probe_request_deadlines *)

Definition set_skew (v : option Q) (st : relay_clock) : relay_clock :=
  {| rc_start_time := rc_start_time st; rc_skew := v;
     rc_connection_started := rc_connection_started st;
     rc_drain_deadline := rc_drain_deadline st; rc_drain_timer := rc_drain_timer st;
     rc_bootstrap_deadline := rc_bootstrap_deadline st;
     rc_drain_complete := rc_drain_complete st; rc_probes := rc_probes st |}.
Definition set_bootstrap (v : option Q) (st : relay_clock) : relay_clock :=
  {| rc_start_time := rc_start_time st; rc_skew := rc_skew st;
     rc_connection_started := rc_connection_started st;
     rc_drain_deadline := rc_drain_deadline st; rc_drain_timer := rc_drain_timer st;
     rc_bootstrap_deadline := v;
     rc_drain_complete := rc_drain_complete st; rc_probes := rc_probes st |}.
(** The drain is over: its deadline and timer are cleared and the event is set. *)
Definition end_drain (st : relay_clock) : relay_clock :=
  {| rc_start_time := rc_start_time st; rc_skew := rc_skew st;
     rc_connection_started := rc_connection_started st; rc_drain_deadline := None;
     rc_drain_timer := None; rc_bootstrap_deadline := rc_bootstrap_deadline st;
     rc_drain_complete := true; rc_probes := rc_probes st |}.
Definition set_probes (v : gmap Z Q) (st : relay_clock) : relay_clock :=
  {| rc_start_time := rc_start_time st; rc_skew := rc_skew st;
     rc_connection_started := rc_connection_started st;
     rc_drain_deadline := rc_drain_deadline st; rc_drain_timer := rc_drain_timer st;
     rc_bootstrap_deadline := rc_bootstrap_deadline st;
     rc_drain_complete := rc_drain_complete st; rc_probes := v |}.

(** ** Probe tracking *)

(** The first candidate that is a positive integer. *)
Fixpoint first_request_id (candidates : list pyval) : res (option Z) :=
  match candidates with
  | [] => Ok None
  | c :: cs =>
      let! parsed := _coerce_positive_int_id c in
      match parsed with
      | Some id => Ok (Some id)
      | None => first_request_id cs
      end
  end.

Definition _extract_packet_request_id (packet : pyval) : res (option Z) :=
  match packet with
  | VDict p =>
      first_request_id
        ([dget_none p (u "requestId"); dget_none p (u "request_id")] ++
         match dget_none p (u "decoded") with
         | VDict d => [dget_none d (u "requestId"); dget_none d (u "request_id")]
         | _ => []
         end)
  | _ => Ok None
  end.

Definition _prune_health_probe_tracking (current : Q) (st : relay_clock) : relay_clock :=
  set_probes (filter (λ kd, qle kd.2 current = false) (rc_probes st)) st.

Definition _track_health_probe_request_id (now : Q) (raw_request_id : pyval)
    (timeout_secs : Q) (st : relay_clock) : res (relay_clock * option Z) :=
  let! request_id := _coerce_positive_int_id raw_request_id in
  match request_id with
  | None => Ok (st, None)
  | Some id =>
      let expires_at := (now + qmax timeout_secs 1 + HEALTH_PROBE_TRACK_GRACE_SECS)%Q in
      let st := _prune_health_probe_tracking now st in
      Ok (set_probes (<[id := expires_at]> (rc_probes st)) st, Some id)
  end.

(** The sender check of the two functions below: a packet from another node is
    no response to our probe. *)
Definition from_other_node (packet : pydict) (local_num_raw : pyval) : res bool :=
  let! sender := _coerce_int_id (dget_none packet (u "from")) in
  let! local_num := _coerce_int_id local_num_raw in
  Ok (match sender, local_num with
      | Some s, Some l => negb (s =? l)
      | _, _ => false
      end).

(** [local_num_raw]: the node number of the interface, None when unknown. *)
Definition _is_health_probe_response_packet (now : Q) (packet : pydict)
    (local_num_raw : pyval) (st : relay_clock) : res (relay_clock * bool) :=
  let! request_id := _extract_packet_request_id (VDict packet) in
  match request_id with
  | None => Ok (st, false)
  | Some id =>
      let! other := from_other_node packet local_num_raw in
      if other then Ok (st, false) else
      let st := _prune_health_probe_tracking now st in
      Ok (st, bool_decide (is_Some (rc_probes st !! id)))
  end.

(** ** Clock skew *)

(** A packet time that is a number; the callers pass positive ones only. *)
Inductive rx_time := RxTime (q : Q) | RxInfinite.

Definition skew_in_range (observed_skew : Q) : bool :=
  qle (qabs observed_skew) RX_TIME_SKEW_BOOTSTRAP_MAX_SKEW_SECS.

Definition _seed_connect_time_skew (now_wall now : Q) (rx : rx_time) (st : relay_clock)
    : relay_clock * bool :=
  if match rx with RxTime q => qle q 0 | RxInfinite => false end then (st, false) else
  match rc_skew st with
  | Some _ => (st, false)
  | None =>
      let startup_age := qmax 0 (now - rc_connection_started st) in
      let within_startup_window := qle startup_age RX_TIME_SKEW_BOOTSTRAP_WINDOW_SECS in
      let startup_drain_active :=
        match rc_drain_deadline st with Some _ => true | None => false end in
      let reconnect_bootstrap_active :=
        match rc_bootstrap_deadline st with Some d => qle now d | None => false end in
      let st :=
        match rc_bootstrap_deadline st with
        | Some d => if qlt d now then set_bootstrap None st else st
        | None => st
        end in
      let packet_is_post_start :=
        match rx with RxTime q => qle (rc_start_time st) q | RxInfinite => true end in
      if negb packet_is_post_start &&
         (negb within_startup_window ||
          (negb startup_drain_active && negb reconnect_bootstrap_active))
      then (st, false) else
      match rx with
      | RxInfinite => (st, false)
      | RxTime q =>
          let observed_skew := (now_wall - q)%Q in
          if negb (skew_in_range observed_skew) then (st, false) else
          let st := set_skew (Some observed_skew) st in
          let calibrated_from_reconnect_prestart :=
            negb packet_is_post_start && negb startup_drain_active &&
            reconnect_bootstrap_active in
          (if calibrated_from_reconnect_prestart then set_bootstrap None st else st, true)
      end
  end.

Definition _claim_health_probe_response_and_maybe_calibrate (now_wall now : Q)
    (packet : pydict) (local_num_raw : pyval) (rx : pyfloat) (st : relay_clock)
    : res (relay_clock * bool) :=
  let! request_id := _extract_packet_request_id (VDict packet) in
  match request_id with
  | None => Ok (st, false)
  | Some id =>
      let! other := from_other_node packet local_num_raw in
      if other then Ok (st, false) else
      let st := _prune_health_probe_tracking now st in
      match rc_probes st !! id with
      | None => Ok (st, false)
      | Some _ =>
          let st := set_probes (delete id (rc_probes st)) st in
          let st :=
            match rx, rc_skew st with
            | FFin q, None =>
                if qlt 0 q && skew_in_range (now_wall - q)
                then set_skew (Some (now_wall - q)%Q) st else st
            | _, _ => st
            end in
          Ok (st, true)
      end
  end.

(** ** Acknowledgments *)

(** The acknowledgment object: each flag, [None] when the attribute is missing,
    and whether it has a [reset] method. *)
Record ack_state := {
  ack_received : option bool; ack_nak : option bool; ack_implicit : option bool;
  ack_resettable : bool }.

Definition cleared (f : option bool) : option bool := (λ _, false) <$> f.

Definition _reset_probe_ack_state (a : ack_state) : ack_state :=
  {| ack_received := cleared (ack_received a); ack_nak := cleared (ack_nak a);
     ack_implicit := cleared (ack_implicit a); ack_resettable := ack_resettable a |}.

Definition has_attr (f : option bool) : bool := match f with Some _ => true | None => false end.

(** [local_num]: the node number of the interface's local node, if any. *)
Definition _set_probe_ack_flag_from_packet (ack : option ack_state) (local_num : option Z)
    (packet : pyval) : res (option ack_state * bool) :=
  match ack with
  | None => Ok (None, false)
  | Some a =>
      let sender_raw := match packet with VDict p => dget_none p (u "from") | _ => VNone end in
      let! sender_num := _coerce_int_id sender_raw in
      let from_local := match sender_num, local_num with
                        | Some s, Some l => s =? l
                        | _, _ => false
                        end in
      if from_local && has_attr (ack_implicit a) then
        Ok (Some {| ack_received := ack_received a; ack_nak := ack_nak a;
                    ack_implicit := Some true; ack_resettable := ack_resettable a |}, true)
      else if has_attr (ack_received a) then
        Ok (Some {| ack_received := Some true; ack_nak := ack_nak a;
                    ack_implicit := ack_implicit a; ack_resettable := ack_resettable a |}, true)
      else Ok (Some a, false)
  end.

Definition missing_local_node_ack_state : pystr :=
  u "Meshtastic local node missing acknowledgment state".
Definition missing_received_nak : pystr :=
  u "Meshtastic acknowledgment state missing receivedNak".
Definition failed_probe_ack_state : pystr :=
  u "Failed to set ACK state from health probe response".

Definition _handle_probe_ack_callback (ack : option ack_state) (local_num : option Z)
    (packet : pyval) : res (option ack_state) :=
  match ack with
  | None => Raise (RuntimeError missing_local_node_ack_state)
  | Some a =>
      let routing := match packet with
                     | VDict p => match dget_none p (u "decoded") with
                                  | VDict d => dget_none d (u "routing")
                                  | _ => VNone
                                  end
                     | _ => VNone
                     end in
      let refused := match routing with
                     | VDict r => let e := dget_none r (u "errorReason") in
                                  truthy e && negb (py_eqb e (VStr (u "NONE")))
                     | _ => false
                     end in
      if refused then
        if has_attr (ack_nak a) then
          Ok (Some {| ack_received := ack_received a; ack_nak := Some true;
                      ack_implicit := ack_implicit a; ack_resettable := ack_resettable a |})
        else Raise (RuntimeError missing_received_nak)
      else
        let! r := _set_probe_ack_flag_from_packet (Some a) local_num packet in
        if r.2 then Ok r.1 else Raise (RuntimeError failed_probe_ack_state)
  end.

Definition any_flag (a : ack_state) : bool :=
  default false (ack_received a) || default false (ack_nak a) || default false (ack_implicit a).

(** The wait over the states it looks at, each with the clock of the loop test
    and of the test before the sleep; [final] is the state of the last check.
    The result is the state left, or [None] for TimeoutError. *)
Fixpoint _wait_for_probe_ack (deadline : Q) (looks : list (Q * Q * ack_state))
    (final : ack_state) : option ack_state :=
  let last_check := if any_flag final then Some (_reset_probe_ack_state final) else None in
  match looks with
  | [] => last_check
  | (t1, t2, a) :: looks =>
      if negb (qlt t1 deadline) then last_check
      else if any_flag a then Some (_reset_probe_ack_state a)
      else if qle (deadline - t2) 0 then last_check
      else _wait_for_probe_ack deadline looks final
  end.

(** ** Settings *)

Definition requires_continuous_health_monitor (config : pydict) : bool :=
  match dget_none config (u "meshtastic") with
  | VDict m =>
      if py_eqb (dget_none m (u "connection_type")) (VStr (u "ble")) then false else
      match dget_none m (u "health_check") with
      | VDict h => _coerce_bool (dget_or h (u "enabled") (VBool DEFAULT_HEALTH_CHECK_ENABLED))
                     DEFAULT_HEALTH_CHECK_ENABLED
      | _ => DEFAULT_HEALTH_CHECK_ENABLED
      end
  | _ => DEFAULT_HEALTH_CHECK_ENABLED
  end.

Definition _parse_health_check_config (config : pydict) : res (option (pyval * Q * Q * Q)) :=
  let meshtastic_config :=
    match dget_none config (u "meshtastic") with VDict m => m | _ => [] end in
  let connection_type := dget_none meshtastic_config (u "connection_type") in
  let health_config :=
    match dget_or meshtastic_config (u "health_check") (VDict []) with
    | VDict h => h
    | _ => []
    end in
  if negb (_coerce_bool (dget_or health_config (u "enabled")
                           (VBool DEFAULT_HEALTH_CHECK_ENABLED))
             DEFAULT_HEALTH_CHECK_ENABLED)
  then Ok None else
  let setting k d := dget_or health_config k (VInt d) in
  let heartbeat_interval := setting (u "heartbeat_interval") DEFAULT_HEARTBEAT_INTERVAL_SECS in
  let heartbeat_interval :=
    match dget meshtastic_config (u "heartbeat_interval") with
    | Some v => if dmem health_config (u "heartbeat_interval") then heartbeat_interval else v
    | None => heartbeat_interval
    end in
  let! hb := _coerce_positive_float heartbeat_interval
               (inject_Z DEFAULT_HEARTBEAT_INTERVAL_SECS) in
  let! delay := _coerce_positive_float (setting (u "initial_delay") INITIAL_HEALTH_CHECK_DELAY)
                  (inject_Z INITIAL_HEALTH_CHECK_DELAY) in
  let! timeout := _coerce_positive_float
                    (setting (u "probe_timeout") DEFAULT_MESHTASTIC_OPERATION_TIMEOUT)
                    (inject_Z DEFAULT_MESHTASTIC_OPERATION_TIMEOUT) in
  Ok (Some (connection_type, hb.1, delay.1, timeout.1)).

(** ** Probing *)

(** How one probe ended: the executor is degraded, the submission failed, a
    probe was already in flight, it succeeded, or it failed. *)
Inductive probe_outcome :=
  | ProbeDegraded | ProbeSubmissionFailed | ProbeInFlight | ProbeSucceeded | ProbeFailed.

(** Whether the connection is declared lost; [reconnecting] and [same_client]
    are read after the outcome is known. *)
Definition _execute_health_probe (o : probe_outcome) (reconnecting same_client : bool) : bool :=
  match o with
  | ProbeDegraded | ProbeFailed => negb reconnecting && same_client
  | _ => false
  end.

(** ** Lemmas *)

(** A skew within the limit, when there is one. *)
Definition skew_ok (st : relay_clock) : Prop :=
  ∀ s, rc_skew st = Some s → skew_in_range s = true.

Lemma prune_skew now st : rc_skew (_prune_health_probe_tracking now st) = rc_skew st.
Proof. done. Qed.

Lemma seed_cases now_wall now rx st :
  let '(st', ok) := _seed_connect_time_skew now_wall now rx st in
  (rc_skew st' = rc_skew st ∧ ok = false) ∨
  (rc_skew st = None ∧ ok = true ∧
   ∃ q, rx = RxTime q ∧ (0 < q)%Q ∧ skew_in_range (now_wall - q) = true ∧
     rc_skew st' = Some (now_wall - q)%Q ∧
     ((rc_start_time st <= q)%Q ∨
      (now - rc_connection_started st <= RX_TIME_SKEW_BOOTSTRAP_WINDOW_SECS)%Q ∧
      (rc_drain_deadline st ≠ None ∨ ∃ d, rc_bootstrap_deadline st = Some d ∧ (now <= d)%Q))).
Proof.
  unfold _seed_connect_time_skew.
  destruct rx as [q|]; [destruct (qle q 0) eqn:Eq; [by left |] |];
    (destruct (rc_skew st) as [s|] eqn:Es; [by left; rewrite Es |]).
  2:{ left. split; [|repeat case_match; done].
      destruct (rc_bootstrap_deadline st) as [d|]; [destruct (qlt d now)|]; cbn [negb andb];
        exact Es. }
  set (st1 := match rc_bootstrap_deadline st with Some _ => _ | None => _ end).
  assert (rc_skew st1 = None ∧ rc_start_time st1 = rc_start_time st) as [Hs1 Ht1].
  { unfold st1. destruct (rc_bootstrap_deadline st) as [d|]; [destruct (qlt d now)|]; done. }
  clearbody st1. rewrite Ht1.
  destruct (negb (qle (rc_start_time st) q) && _) eqn:Eg; [by left; rewrite Hs1 |].
  destruct (skew_in_range (now_wall - q)) eqn:Er; [|by left; rewrite Hs1]. cbn [negb].
  set (st2 := if _ && _ && _ then _ else _).
  assert (rc_skew st2 = Some (now_wall - q)%Q) as Hs2 by (unfold st2; by destruct (_ && _ && _)).
  right. split_and!; [done | done |]. exists q. q_bool. split_and!; [done | done | done | done |].
  destruct (qle (rc_start_time st) q) eqn:Ep; [left; by q_bool | right].
  cbn [negb andb] in Eg. apply orb_false_iff in Eg as [Ew Eb].
  apply negb_false_iff in Ew. q_bool. split.
  - pose proof (qmax_le_r 0 (now - rc_connection_started st)). lra.
  - apply andb_false_iff in Eb as [Eb|Eb]; apply negb_false_iff in Eb.
    + left. by destruct (rc_drain_deadline st).
    + right. destruct (rc_bootstrap_deadline st) as [d|]; [|done]. exists d. by q_bool.
Qed.

Lemma claim_cases now_wall now packet local rx st st' ok :
  _claim_health_probe_response_and_maybe_calibrate now_wall now packet local rx st = Ok (st', ok) →
  (rc_skew st' = rc_skew st ∨
   rc_skew st = None ∧ ok = true ∧ ∃ s, rc_skew st' = Some s ∧ skew_in_range s = true) ∧
  (ok = true → ∃ id, _extract_packet_request_id (VDict packet) = Ok (Some id) ∧
     rc_probes st' = delete id (rc_probes (_prune_health_probe_tracking now st)) ∧
     from_other_node packet local = Ok false) ∧
  (ok = false → rc_skew st' = rc_skew st).
Proof.
  unfold _claim_health_probe_response_and_maybe_calibrate.
  destruct (_extract_packet_request_id (VDict packet)) as [[id|]|]; cbn [res_bind];
    [| intros [= <- <-]; by split_and!; [left | |] | done].
  destruct (from_other_node packet local) as [[]|] eqn:Eo; cbn [res_bind];
    [intros [= <- <-]; by split_and!; [left | |] | | done].
  set (st1 := _prune_health_probe_tracking now st).
  assert (rc_skew st1 = rc_skew st) as Hs1 by done.
  destruct (rc_probes st1 !! id) as [d|]; [|intros [= <- <-]; by split_and!; [left | |]].
  intros [= <- <-]. set (st2 := set_probes _ _).
  assert (rc_skew st2 = rc_skew st) as Hs2 by done.
  assert (rc_probes st2 = delete id (rc_probes st1)) as Hp2 by done.
  clearbody st2. split_and!; [| intros _; exists id; split_and!; [done | | done] | done].
  - destruct rx as [q| |]; [|by left..].
    destruct (rc_skew st) as [s|] eqn:Es; [left; congruence |].
    destruct (qlt 0 q && skew_in_range (now_wall - q)) eqn:Eg; [|left; congruence].
    apply andb_true_iff in Eg as [_ Eg]. right. split_and!; [done | done |].
    exists (now_wall - q)%Q. by split.
  - destruct rx as [q| |]; [|done..]. destruct (rc_skew st); [done |]. by case_match.
Qed.

(** What no packet changes: the start time and the start-up drain. *)
Definition same_session (st st' : relay_clock) : Prop :=
  rc_start_time st' = rc_start_time st ∧ rc_drain_deadline st' = rc_drain_deadline st.

Lemma seed_same_session now_wall now rx st :
  same_session st (_seed_connect_time_skew now_wall now rx st).1.
Proof. unfold _seed_connect_time_skew. by repeat case_match. Qed.

Lemma claim_same_session now_wall now packet local rx st st' ok :
  _claim_health_probe_response_and_maybe_calibrate now_wall now packet local rx st = Ok (st', ok) →
  same_session st st'.
Proof.
  unfold _claim_health_probe_response_and_maybe_calibrate, res_bind. intros H.
  by repeat (case_match; simplify_eq).
Qed.

(** ** Properties *)

(** The packet clock is calibrated at most once and never by more than 48
    hours: a calibration that exists is not replaced by a packet or a probe
    response, and one that is made is within the limit.  A packet from before
    the start calibrates only within the start-up window, while the drain or
    the reconnect bootstrap is active. *)
Theorem skew_calibrated_once now_wall now rx packet local prx st :
  skew_ok st →
  let '(st1, ok1) := _seed_connect_time_skew now_wall now rx st in
  (rc_skew st ≠ None → rc_skew st1 = rc_skew st ∧ ok1 = false) ∧ skew_ok st1 ∧
  (ok1 = true → ∃ q, rx = RxTime q ∧ rc_skew st1 = Some (now_wall - q)%Q ∧
     ((rc_start_time st <= q)%Q ∨
      (now - rc_connection_started st <= RX_TIME_SKEW_BOOTSTRAP_WINDOW_SECS)%Q ∧
      (rc_drain_deadline st ≠ None ∨
       ∃ d, rc_bootstrap_deadline st = Some d ∧ (now <= d)%Q))) ∧
  ∀ st2 ok2,
    _claim_health_probe_response_and_maybe_calibrate now_wall now packet local prx st
      = Ok (st2, ok2) →
    (rc_skew st ≠ None → rc_skew st2 = rc_skew st) ∧ skew_ok st2.
Proof.
  intros Hok. pose proof (seed_cases now_wall now rx st) as Hc.
  destruct (_seed_connect_time_skew now_wall now rx st) as [st1 ok1].
  split_and!.
  - intros Hn. destruct Hc as [[? ?]|(? & _)]; [by split | congruence].
  - intros s Hs. destruct Hc as [[E _]|(_ & _ & q & _ & _ & Hr & E & _)];
      rewrite E in Hs; [by apply Hok | by simplify_eq].
  - intros ->. destruct Hc as [[_ ?]|(_ & _ & q & -> & _ & _ & E & Hwhy)]; [done |]. eauto.
  - intros st2 ok2 (H1 & _ & _)%claim_cases. split.
    + intros Hn. destruct H1 as [?|[? _]]; congruence.
    + intros s Hs. destruct H1 as [E|(_ & _ & s' & E & Hr)]; rewrite E in Hs;
        [by apply Hok | by simplify_eq].
Qed.

(** A probe response is claimed once: after a packet has been claimed, the
    same packet is not claimed again, so that a late duplicate cannot be taken
    for a response, whatever the clocks say. *)
Theorem probe_claimed_once w1 t1 w2 t2 packet local rx1 rx2 st st1 :
  _claim_health_probe_response_and_maybe_calibrate w1 t1 packet local rx1 st = Ok (st1, true) →
  ∃ st2, _claim_health_probe_response_and_maybe_calibrate w2 t2 packet local rx2 st1
           = Ok (st2, false) ∧ rc_skew st2 = rc_skew st1.
Proof.
  intros (_ & H & _)%claim_cases. destruct (H eq_refl) as (id & Hid & Hp & Ho).
  unfold _claim_health_probe_response_and_maybe_calibrate. rewrite Hid, Ho. cbn [res_bind].
  set (st2 := _prune_health_probe_tracking t2 st1).
  assert (rc_probes st2 !! id = None) as ->.
  { unfold st2, _prune_health_probe_tracking. simpl. apply map_lookup_filter_None. left.
    rewrite Hp. apply lookup_delete_eq. }
  by exists st2.
Qed.

(** ** Witnesses *)

Definition demo_clock : relay_clock :=
  {| rc_start_time := 1000; rc_skew := None; rc_connection_started := 0;
     rc_drain_deadline := None; rc_drain_timer := None; rc_bootstrap_deadline := None;
     rc_drain_complete := true;
     rc_probes := {[ 7 := 100%Q ]} |}.
Definition demo_response : pydict := [(u "decoded", VDict [(u "requestId", VInt 7)])].

Lemma skew_calibrated_once_witness :
  let '(st1, ok1) := _seed_connect_time_skew 1010 5 (RxTime 1005) demo_clock in
  ok1 = true ∧ skew_ok st1.
Proof.
  assert (skew_ok demo_clock) as H by (intros s Hs; discriminate Hs).
  pose proof (skew_calibrated_once 1010 5 (RxTime 1005) [] VNone FNan demo_clock H) as Hc.
  destruct (_seed_connect_time_skew 1010 5 (RxTime 1005) demo_clock) as [st1 ok1] eqn:E.
  split; [vm_compute in E; by injection E | exact (proj1 (proj2 Hc))].
Defined.

Lemma probe_claimed_once_witness :
  ∃ st1 st2,
    _claim_health_probe_response_and_maybe_calibrate 1010 5 demo_response VNone FNan demo_clock
      = Ok (st1, true) ∧
    _claim_health_probe_response_and_maybe_calibrate 1011 6 demo_response VNone FNan st1
      = Ok (st2, false).
Proof.
  eexists. assert (_claim_health_probe_response_and_maybe_calibrate 1010 5 demo_response VNone
    FNan demo_clock = Ok (set_probes (delete 7 (filter (λ kd, qle kd.2 5 = false)
      {[ 7 := 100%Q ]})) demo_clock, true)) as H by (vm_compute; reflexivity).
  destruct (probe_claimed_once 1010 5 1011 6 demo_response VNone FNan FNan demo_clock _ H)
    as (st2 & H2 & _).
  exists st2. split; [exact H | exact H2].
Defined.
