(* ===== verification/Names.v ===== *)
(** * Node names

    Models the [longnames] and [shortnames] tables of [src/mmrelay/db_utils.py]
    and the lookups of [meshtastic/metadata.py] and [meshtastic/messaging.py] that
    turn a sender into a display name.  [err] tells that the statement raised
    [sqlite3.Error]. *)

From Stdlib Require Import String QArith.
From stdpp Require Import base tactics list numbers gmap sets.
From S2P Require Import Prelude PyStr PyValue Prefixes.
Open Scope Z_scope.

Record names := { nm_long : gmap pystr pystr; nm_short : gmap pystr pystr }.

Section names.
Context (other_str : pyval → pystr).

Definition get_longname (err : bool) (n : names) (meshtastic_id : pyval) : option pystr :=
  if err then None else nm_long n !! to_str other_str meshtastic_id.
Definition get_shortname (err : bool) (n : names) (meshtastic_id : pyval) : option pystr :=
  if err then None else nm_short n !! to_str other_str meshtastic_id.

Definition save_longname (err : bool) (meshtastic_id : pyval) (longname : pystr) (n : names)
    : names * bool :=
  if err then (n, false)
  else ({| nm_long := <[to_str other_str meshtastic_id := longname]> (nm_long n);
           nm_short := nm_short n |}, true).
Definition save_shortname (err : bool) (meshtastic_id : pyval) (shortname : pystr) (n : names)
    : names * bool :=
  if err then (n, false)
  else ({| nm_long := nm_long n;
           nm_short := <[to_str other_str meshtastic_id := shortname]> (nm_short n) |}, true).

(** [found] is what the lookup gave. *)
Definition _get_name_safely (found : option pystr) (sender : pyval) : pystr :=
  match found with
  | Some ((_ :: _) as s) => s
  | _ => to_str other_str sender
  end.

(** The [user] dictionary of a node; [nodes] is the node database of the
    interface.  A node or a user of another type has no [get]. *)
Definition node_user (nodes : pydict) (sender : pyval) : res (option pydict) :=
  match sender with
  | VStr s =>
      match dget_none nodes s with
      | VDict ((_ :: _) as node) =>
          match dget_none node (u "user") with
          | VDict ((_ :: _) as user) => Ok (Some user)
          | v => if truthy v then Raise AttributeError else Ok None
          end
      | v => if truthy v then Raise AttributeError else Ok None
      end
  | _ => Ok None
  end.

(** A name of the node database; they are strings. *)
Definition user_name (user : pydict) (key : pystr) : option pystr :=
  match dget_none user key with VStr ((_ :: _) as s) => Some s | _ => None end.

(** Falls back to the node database for a name that is missing, and saves what
    it finds there. *)
Definition resolve_names (err : bool) (nodes : pydict) (sender : pyval) (n : names)
    : res (names * pystr * pystr) :=
  let present (o : option pystr) :=
    match o with Some ((_ :: _) as s) => Some s | _ => None end in
  let longname := present (get_longname err n sender) in
  let shortname := present (get_shortname err n sender) in
  let! r :=
    match longname, shortname with
    | Some _, Some _ => Ok (n, longname, shortname)
    | _, _ =>
        let! user := node_user nodes sender in
        match user with
        | None => Ok (n, longname, shortname)
        | Some user =>
            let '(n, longname) :=
              match longname, user_name user (u "longName") with
              | None, Some v => ((save_longname err sender v n).1, Some v)
              | l, _ => (n, l)
              end in
            let '(n, shortname) :=
              match shortname, user_name user (u "shortName") with
              | None, Some v => ((save_shortname err sender v n).1, Some v)
              | l, _ => (n, l)
              end in
            Ok (n, longname, shortname)
        end
    end in
  let '(n, longname, shortname) := r in
  Ok (n, default (to_str other_str sender) longname,
      default (to_str other_str sender) shortname).

(** [nodes] is None when the interface has no node database. *)
Definition _get_node_display_name (err : bool) (n : names) (from_id : pyval)
    (nodes : option pydict) (fallback : option pystr) : pystr :=
  let from_id_str := to_str other_str from_id in
  let from_interface :=
    match nodes with
    | Some d =>
        match dget_none d from_id_str with
        | VDict node => match dget_none node (u "user") with
                        | VDict user => user_name user (u "shortName")
                        | _ => None
                        end
        | _ => None
        end
    | None => None
    end in
  let present (o : option pystr) :=
    match o with Some ((_ :: _) as s) => Some s | _ => None end in
  match from_interface with
  | Some s => s
  | None =>
      match present (get_shortname err n (VStr from_id_str)),
            present (get_longname err n (VStr from_id_str)) with
      | Some s, _ => s
      | None, Some l => l
      | None, None => default from_id_str fallback
      end
  end.
End names.
