(* ===== verification/NameSync.v ===== *)
(** * Synchronisation of node names

    Models the bulk operations on the [longnames] and [shortnames] tables of
    [src/mmrelay/db_utils.py]: the snapshot of a node database
    ([_collect_node_name_snapshot]), its transfer to both tables in one
    transaction ([_sync_name_tables_atomic]), the drift check, the pruning of
    stale rows, the cycle that ties them together
    ([sync_name_tables_if_changed]) and the older updates of one table
    ([_update_names_core]).

    A table maps an identifier to a name.  A transaction is committed as a whole
    or, when a statement raises [sqlite3.Error], leaves the tables as they were;
    which transactions fail is an input.  The two forms of the batched query,
    with [json_each] and with placeholders, select the same rows. *)

From Stdlib Require Import String Sorted.
From stdpp Require Import base tactics list numbers gmap sets sorting fin_maps.
From S2P Require Import Prelude PyStr PyValue Prefixes Names.
Open Scope Z_scope.

Definition DEFAULT_NAME_PRUNE_CHUNK_SIZE : nat := 900.
Definition PROTO_NODE_NAME_LONG : pystr := u "longName".
Definition PROTO_NODE_NAME_SHORT : pystr := u "shortName".

(** ** Order of strings *)

(** Python orders strings by code points. *)
Fixpoint str_leb (s t : pystr) : bool :=
  match s, t with
  | [], _ => true
  | _ :: _, [] => false
  | c :: s, d :: t => if c =? d then str_leb s t else c <? d
  end.

Definition str_le (s t : pystr) : Prop := str_leb s t = true.
#[export] Instance str_le_dec : RelDecision str_le := λ s t, bool_eq_dec _ _.

(** ** Batches *)

(** The slices of a list taken by [range(0, len(l), k)]. *)
Fixpoint chunks_from {A} (fuel k : nat) (l : list A) : list (list A) :=
  match fuel, l with
  | S fuel, _ :: _ => take k l :: chunks_from fuel k (drop k l)
  | _, _ => []
  end.
Definition chunks {A} (k : nat) (l : list A) : list (list A) := chunks_from (length l) k l.

(** ** State of a snapshot *)

Record NodeNameEntry := {
  ne_id : pystr; ne_long : option pystr; ne_short : option pystr }.

#[export] Instance NodeNameEntry_eq_dec : EqDecision NodeNameEntry.
Proof. solve_decision. Defined.

Inductive name_table := LONGNAMES | SHORTNAMES.

#[export] Instance name_table_eq_dec : EqDecision name_table.
Proof. solve_decision. Defined.

Definition tbl (t : name_table) (n : names) : gmap pystr pystr :=
  match t with LONGNAMES => nm_long n | SHORTNAMES => nm_short n end.
Definition set_tbl (t : name_table) (m : gmap pystr pystr) (n : names) : names :=
  match t with
  | LONGNAMES => {| nm_long := m; nm_short := nm_short n |}
  | SHORTNAMES => {| nm_long := nm_long n; nm_short := m |}
  end.
Definition entry_name (t : name_table) (e : NodeNameEntry) : option pystr :=
  match t with LONGNAMES => ne_long e | SHORTNAMES => ne_short e end.

Definition name_key_of (t : name_table) : pystr :=
  match t with LONGNAMES => PROTO_NODE_NAME_LONG | SHORTNAMES => PROTO_NODE_NAME_SHORT end.

(** [state_entries.sort(key=lambda entry: entry.meshtastic_id)] *)
Definition entry_le (a b : NodeNameEntry) : Prop := str_le (ne_id a) (ne_id b).
#[export] Instance entry_le_dec : RelDecision entry_le := λ a b, str_le_dec _ _.
Definition sort_entries (l : list NodeNameEntry) : list NodeNameEntry := merge_sort entry_le l.

(** ** Collecting a snapshot *)

Definition _normalize_node_name_value (name_value : pyval) : option pystr :=
  match name_value with
  | VStr ((_ :: _) as s) => Some s
  | _ => None
  end.

(** None: a conflict ([_CONFLICT_SENTINEL]). *)
Definition _merge_node_name_values (existing incoming : option pystr) : option (option pystr) :=
  match existing, incoming with
  | None, _ => Some incoming
  | _, None => Some existing
  | Some a, Some b => if str_eqb a b then Some existing else None
  end.

(** The [user] of a node and its identifier; None when the node has no usable
    one. *)
Definition node_identity (node : pyval) : option (pydict * pystr) :=
  match node with
  | VDict node =>
      match dget_none node (u "user") with
      | VDict user =>
          match dget_none user (u "id") with
          | VStr ((_ :: _) as s) => Some (user, s)
          | VInt z => Some (user, str_of_int z)
          | _ => None
          end
      | _ => None
      end
  | _ => None
  end.

(** A name that is neither missing nor a string. *)
Definition bad_name (v : pyval) : bool := negb (is_none v) && negb (is_str v).

Record snapshot := {
  sn_complete : bool; sn_ids : gset pystr;
  sn_state : gmap pystr (option pystr * option pystr); sn_skipped : gset pystr }.

Definition snapshot_init : snapshot :=
  {| sn_complete := true; sn_ids := ∅; sn_state := ∅; sn_skipped := ∅ |}.

(** What a duplicate leaves of an entry: [None] when the identifier is skipped. *)
Definition resolve_duplicate (existing incoming : option pystr * option pystr)
    : bool * option (option pystr * option pystr) :=
  match _merge_node_name_values existing.1 incoming.1,
        _merge_node_name_values existing.2 incoming.2 with
  | None, None => (false, None)
  | Some l, Some s => (true, Some (l, s))
  | l, s =>
      match default None l, default None s with
      | None, None => (false, None)
      | l, s => (false, Some (l, s))
      end
  end.

Definition collect_node (acc : snapshot) (node : pyval) : snapshot :=
  match node_identity node with
  | None => {| sn_complete := false; sn_ids := sn_ids acc; sn_state := sn_state acc;
               sn_skipped := sn_skipped acc |}
  | Some (user, id_key) =>
      if bool_decide (id_key ∈ sn_skipped acc) then acc else
      let raw_long_name := dget_none user PROTO_NODE_NAME_LONG in
      let raw_short_name := dget_none user PROTO_NODE_NAME_SHORT in
      let complete := sn_complete acc && negb (bad_name raw_long_name) &&
                      negb (bad_name raw_short_name) in
      let current_ids := {[ id_key ]} ∪ sn_ids acc in
      let incoming := (_normalize_node_name_value raw_long_name,
                       _normalize_node_name_value raw_short_name) in
      match sn_state acc !! id_key with
      | None =>
          {| sn_complete := complete; sn_ids := current_ids;
             sn_state := <[id_key := incoming]> (sn_state acc); sn_skipped := sn_skipped acc |}
      | Some existing =>
          match resolve_duplicate existing incoming with
          | (agree, Some e) =>
              {| sn_complete := complete && agree; sn_ids := current_ids;
                 sn_state := <[id_key := e]> (sn_state acc); sn_skipped := sn_skipped acc |}
          | (agree, None) =>
              {| sn_complete := complete && agree; sn_ids := current_ids;
                 sn_state := delete id_key (sn_state acc);
                 sn_skipped := {[ id_key ]} ∪ sn_skipped acc |}
          end
      end
  end.

Definition state_entries (m : gmap pystr (option pystr * option pystr)) : list NodeNameEntry :=
  sort_entries ((λ kv, {| ne_id := kv.1; ne_long := kv.2.1; ne_short := kv.2.2 |})
                  <$> map_to_list m).

Definition _collect_node_name_snapshot (nodes : pyval)
    : list NodeNameEntry * gset pystr * bool :=
  match nodes with
  | VDict [] => ([], ∅, true)
  | VDict d =>
      let acc := foldl collect_node snapshot_init d.*2 in
      (state_entries (sn_state acc), sn_ids acc, sn_complete acc)
  | _ => ([], ∅, false)
  end.

Definition build_node_name_state (nodes : pyval) : list NodeNameEntry :=
  (_collect_node_name_snapshot nodes).1.1.

(** ** Reading and pruning a table *)

(** The rows of a batch. *)
Definition select_rows (m : gmap pystr pystr) (ids : list pystr) : list (pystr * pystr) :=
  omap (λ id, pair id <$> m !! id) ids.

(** [rows_by_id.update(...)] with the rows of one batch. *)
Definition read_chunk (m : gmap pystr pystr) (rows_by_id : gmap pystr (option pystr))
    (chunk_ids : list pystr) : gmap pystr (option pystr) :=
  list_to_map ((λ r, (r.1, _normalize_node_name_value (VStr r.2))) <$> select_rows m chunk_ids)
  ∪ rows_by_id.

(** None on a database error. *)
Definition _read_name_values_for_ids (err : bool) (t : name_table) (current_ids : gset pystr)
    (n : names) : option (gmap pystr (option pystr)) :=
  if bool_decide (current_ids = ∅) then Some ∅
  else if err then None
  else
    let sorted_ids := merge_sort str_le (elements current_ids) in
    Some (foldl (read_chunk (tbl t n)) ∅ (chunks DEFAULT_NAME_PRUNE_CHUNK_SIZE sorted_ids)).

Definition _name_table_matches_state (err : bool) (t : name_table)
    (state : list NodeNameEntry) (n : names) : bool :=
  match _read_name_values_for_ids err t (list_to_set (ne_id <$> state)) n with
  | None => false
  | Some actual_by_id =>
      forallb (λ e,
        match entry_name t e with
        | None => true
        | Some expected_value =>
            match actual_by_id !! ne_id e with
            | Some (Some actual_value) =>
                nonempty actual_value && str_eqb expected_value actual_value
            | _ => false
            end
        end) state
  end.

Definition _name_tables_match_state (err_long err_short : bool) (state : list NodeNameEntry)
    (n : names) : bool :=
  match state with
  | [] => true
  | _ => _name_table_matches_state err_long LONGNAMES state n &&
         _name_table_matches_state err_short SHORTNAMES state n
  end.

(** [cursor.executemany(delete_sql, chunk)]: the rows left and the count with the
    [rowcount] added. *)
Definition delete_chunk (acc : gmap pystr pystr * nat) (chunk : list pystr)
    : gmap pystr pystr * nat :=
  (foldl (λ m id, delete id m) acc.1 chunk,
   (acc.2 + length (filter (λ id, is_Some (acc.1 !! id)) chunk))%nat).

(** The table without the rows of other nodes, and how many were deleted. *)
Definition _delete_stale_names_core (current_ids : gset pystr) (m : gmap pystr pystr)
    : gmap pystr pystr * nat :=
  let stale_ids := elements (dom m ∖ current_ids) in
  foldl delete_chunk (m, 0%nat) (chunks DEFAULT_NAME_PRUNE_CHUNK_SIZE stale_ids).

Definition _delete_stale_names (err : bool) (t : name_table) (current_ids : gset pystr)
    (n : names) : names * option nat :=
  if err then (n, None)
  else let '(m, deleted) := _delete_stale_names_core current_ids (tbl t n) in
       (set_tbl t m n, Some deleted).

Definition delete_stale_longnames (err : bool) (current_ids : gset pystr) (n : names)
    : names * nat :=
  let '(n, deleted) := _delete_stale_names err LONGNAMES current_ids n in (n, default 0%nat deleted).
Definition delete_stale_shortnames (err : bool) (current_ids : gset pystr) (n : names)
    : names * nat :=
  let '(n, deleted) := _delete_stale_names err SHORTNAMES current_ids n in (n, default 0%nat deleted).

(** ** Writing a snapshot *)

Definition sync_field (t : name_table) (snapshot_complete : bool) (e : NodeNameEntry)
    (n : names) : names :=
  match entry_name t e with
  | None => if snapshot_complete then set_tbl t (delete (ne_id e) (tbl t n)) n else n
  | Some name => set_tbl t (<[ne_id e := name]> (tbl t n)) n
  end.

Definition write_entry (snapshot_complete : bool) (n : names) (e : NodeNameEntry) : names :=
  sync_field SHORTNAMES snapshot_complete e (sync_field LONGNAMES snapshot_complete e n).

Definition prune_both (current_ids : gset pystr) (n : names) : names :=
  let n := set_tbl LONGNAMES (_delete_stale_names_core current_ids (tbl LONGNAMES n)).1 n in
  set_tbl SHORTNAMES (_delete_stale_names_core current_ids (tbl SHORTNAMES n)).1 n.

Definition _sync_name_tables_atomic (err : bool) (state : list NodeNameEntry)
    (current_ids : gset pystr) (snapshot_complete : bool) (n : names) : names * bool :=
  if err then (n, false) else
  let n := foldl (write_entry snapshot_complete) n state in
  (if snapshot_complete then prune_both current_ids n else n, true).

Definition _prune_stale_name_rows_atomic (err : bool) (current_ids : gset pystr) (n : names)
    : names * bool :=
  if err then (n, false) else (prune_both current_ids n, true).

(** ** One cycle *)

(** Which of the transactions of a cycle fail. *)
Record sync_errors := {
  se_prune : bool; se_read_long : bool; se_read_short : bool; se_sync : bool }.
Definition no_errors : sync_errors :=
  {| se_prune := false; se_read_long := false; se_read_short := false; se_sync := false |}.

(** A partial snapshot keeps what the previous one knew. *)
Definition merge_previous (previous current : list NodeNameEntry) : list NodeNameEntry :=
  let previous_by_id : gmap pystr NodeNameEntry :=
    foldl (λ m e, <[ne_id e := e]> m) ∅ previous in
  let merged := (λ e,
    match previous_by_id !! ne_id e with
    | Some p => {| ne_id := ne_id e;
                   ne_long := match ne_long e with Some l => Some l | None => ne_long p end;
                   ne_short := match ne_short e with Some s => Some s | None => ne_short p end |}
    | None => e
    end) <$> current in
  let rest := foldl (λ m e, delete (ne_id e) m) previous_by_id current in
  sort_entries (merged ++ (map_to_list rest).*2).

Definition sync_name_tables_if_changed (errs : sync_errors) (nodes : pyval)
    (previous_state : option (list NodeNameEntry)) (n : names)
    : names * option (list NodeNameEntry) :=
  match nodes with
  | VDict [] => (n, previous_state)
  | VDict _ =>
      let '(current_state, current_ids, snapshot_complete) :=
        _collect_node_name_snapshot nodes in
      let current_state :=
        match previous_state with
        | Some p => if snapshot_complete then current_state else merge_previous p current_state
        | None => current_state
        end in
      if negb snapshot_complete && bool_decide (current_state = []) then (n, previous_state)
      else if bool_decide (previous_state = Some current_state) then
        let '(n, pruned) :=
          if snapshot_complete then _prune_stale_name_rows_atomic (se_prune errs) current_ids n
          else (n, true) in
        if negb pruned then (n, previous_state)
        else if _name_tables_match_state (se_read_long errs) (se_read_short errs) current_state n
        then (n, Some current_state)
        else
          let '(n, synced) := _sync_name_tables_atomic (se_sync errs) current_state current_ids
                                snapshot_complete n in
          (n, if synced then Some current_state else previous_state)
      else
        let '(n, synced) := _sync_name_tables_atomic (se_sync errs) current_state current_ids
                              snapshot_complete n in
        (n, if synced then Some current_state else previous_state)
  | _ => (n, previous_state)
  end.

(** ** Updating one table *)

Definition _delete_name_by_id (err : bool) (t : name_table) (id : pystr) (n : names)
    : names * bool :=
  if err then (n, false) else (set_tbl t (delete id (tbl t n)) n, true).
Definition save_name (err : bool) (t : name_table) (id name : pystr) (n : names)
    : names * bool :=
  if err then (n, false) else (set_tbl t (<[id := name]> (tbl t n)) n, true).

Record name_snapshot := {
  ns_complete : bool; ns_ids : gset pystr; ns_state : gmap pystr (option pystr);
  ns_skipped : gset pystr }.

Definition collect_name (name_key : pystr) (acc : name_snapshot) (node : pyval)
    : name_snapshot :=
  match node_identity node with
  | None => {| ns_complete := false; ns_ids := ns_ids acc; ns_state := ns_state acc;
               ns_skipped := ns_skipped acc |}
  | Some (user, id_key) =>
      if bool_decide (id_key ∈ ns_skipped acc) then acc else
      let current_ids := {[ id_key ]} ∪ ns_ids acc in
      let raw_name := dget_none user name_key in
      if bad_name raw_name then
        {| ns_complete := false; ns_ids := current_ids; ns_state := ns_state acc;
           ns_skipped := ns_skipped acc |}
      else
        let normalized_name := _normalize_node_name_value raw_name in
        match mjoin (ns_state acc !! id_key) with
        | None =>
            {| ns_complete := ns_complete acc; ns_ids := current_ids;
               ns_state := <[id_key := normalized_name]> (ns_state acc);
               ns_skipped := ns_skipped acc |}
        | Some existing_name =>
            match _merge_node_name_values (Some existing_name) normalized_name with
            | None =>
                {| ns_complete := false; ns_ids := current_ids;
                   ns_state := delete id_key (ns_state acc);
                   ns_skipped := {[ id_key ]} ∪ ns_skipped acc |}
            | Some merged_name =>
                {| ns_complete := ns_complete acc; ns_ids := current_ids;
                   ns_state := <[id_key := merged_name]> (ns_state acc);
                   ns_skipped := ns_skipped acc |}
            end
        end
  end.

Definition _collect_single_name_snapshot (name_key : pystr) (nodes : list pyval)
    : name_snapshot :=
  foldl (collect_name name_key)
    {| ns_complete := true; ns_ids := ∅; ns_state := ∅; ns_skipped := ∅ |} nodes.

(** [errs]: which of the one-row transactions fail; [err_stale]: whether the
    pruning does. *)
Definition _update_names_core (errs : pystr → bool) (err_stale : bool) (t : name_table)
    (nodes : list pyval) (n : names) : names * bool :=
  match nodes with
  | [] => (n, true)
  | _ =>
      let acc := _collect_single_name_snapshot (name_key_of t) nodes in
      let '(n, all_saves_ok) :=
        foldl (λ st kv,
          match kv.2 with
          | None =>
              if ns_complete acc then
                let '(n, ok) := _delete_name_by_id (errs kv.1) t kv.1 st.1 in (n, st.2 && ok)
              else st
          | Some name => let '(n, ok) := save_name (errs kv.1) t kv.1 name st.1 in (n, st.2 && ok)
          end) (n, true) (map_to_list (ns_state acc)) in
      if bool_decide (ns_ids acc ≠ ∅) && ns_complete acc && all_saves_ok then
        let '(n, deleted) := _delete_stale_names err_stale t (ns_ids acc) n in
        (n, match deleted with Some _ => true | None => false end)
      else (n, all_saves_ok)
  end.

Definition update_longnames (errs : pystr → bool) (err_stale : bool) :=
  _update_names_core errs err_stale LONGNAMES.
Definition update_shortnames (errs : pystr → bool) (err_stale : bool) :=
  _update_names_core errs err_stale SHORTNAMES.

(** ** Batches cover the list *)

Lemma concat_chunks_from {A} (k fuel : nat) (l : list A) :
  (0 < k)%nat → (length l ≤ fuel)%nat → concat (chunks_from fuel k l) = l.
Proof.
  intros Hk. revert l. induction fuel as [|fuel IH]; intros [|x l] Hl; simpl in *; try lia; auto.
  destruct k as [|k]; [lia|]. cbn [take drop app concat].
  f_equal. rewrite IH.
  - apply take_drop.
  - rewrite length_drop. lia.
Qed.

Lemma concat_chunks {A} (k : nat) (l : list A) :
  (0 < k)%nat → concat (chunks k l) = l.
Proof. intros. by apply concat_chunks_from. Qed.

Lemma chunks_from_size {A} (k fuel : nat) (l : list A) :
  Forall (λ c, (length c ≤ k)%nat) (chunks_from fuel k l).
Proof.
  revert l. induction fuel as [|fuel IH]; intros [|x l]; simpl; constructor; auto.
  rewrite length_take. lia.
Qed.

Lemma foldl_concat {A B} (f : B → A → B) (b : B) (ls : list (list A)) :
  foldl (λ b l, foldl f b l) b ls = foldl f b (concat ls).
Proof.
  revert b. induction ls as [|l ls IH]; intros b; [done|].
  cbn [foldl concat]. by rewrite IH, foldl_app.
Qed.

Lemma delete_chunks_fst (cs : list (list pystr)) (acc : gmap pystr pystr * nat) :
  (foldl delete_chunk acc cs).1 = foldl (λ m id, delete id m) acc.1 (concat cs).
Proof.
  rewrite <- foldl_concat. revert acc. induction cs as [|c cs IH]; intros acc; [done|].
  cbn [foldl]. by rewrite IH.
Qed.

Lemma lookup_foldl_delete {V} (l : list pystr) (m : gmap pystr V) (i : pystr) :
  foldl (λ m id, delete id m) m l !! i = if bool_decide (i ∈ l) then None else m !! i.
Proof.
  revert m. induction l as [|j l IH]; intros m; [done|]. cbn [foldl]. rewrite IH.
  case_bool_decide as H1; case_bool_decide as H2.
  - done.
  - destruct H2. by right.
  - apply elem_of_cons in H2 as [->|?]; [|done]. apply lookup_delete_eq.
  - apply lookup_delete_ne. intros ->. apply H2. by left.
Qed.

(** The table that pruning leaves: the rows of the current nodes. *)
Lemma delete_stale_lookup ids m i :
  (_delete_stale_names_core ids m).1 !! i = if bool_decide (i ∈ ids) then m !! i else None.
Proof.
  unfold _delete_stale_names_core. cbv zeta.
  rewrite delete_chunks_fst, concat_chunks by (unfold DEFAULT_NAME_PRUNE_CHUNK_SIZE; lia).
  rewrite lookup_foldl_delete. cbn [fst].
  destruct (m !! i) eqn:Hm; [|by do 2 case_bool_decide].
  rewrite (bool_decide_ext _ (i ∉ ids)).
  - rewrite bool_decide_not. by case_bool_decide.
  - rewrite elem_of_elements, elem_of_difference, elem_of_dom, Hm. naive_solver.
Qed.

Lemma delete_stale_filter ids m :
  (_delete_stale_names_core ids m).1 = filter (λ kv, kv.1 ∈ ids) m.
Proof.
  apply map_eq. intros i. rewrite delete_stale_lookup.
  case_bool_decide as H.
  - destruct (m !! i) eqn:Hm; symmetry.
    + by apply map_lookup_filter_Some.
    + apply map_lookup_filter_None. by left.
  - symmetry. apply map_lookup_filter_None. right. intros x _. exact H.
Qed.

Lemma deleted_count_chunk (c : list pystr) (m : gmap pystr pystr) :
  (∀ i, i ∈ c → is_Some (m !! i)) →
  length (filter (λ id, is_Some (m !! id)) c) = length c.
Proof.
  induction c as [|i c IH]; intros H; [done|].
  rewrite filter_cons_True by (apply H; by left). cbn [length]. f_equal. apply IH.
  intros j Hj. apply H. by right.
Qed.

Lemma delete_stale_count_aux (cs : list (list pystr)) (m : gmap pystr pystr) (k : nat) :
  NoDup (concat cs) → (∀ i, i ∈ concat cs → is_Some (m !! i)) →
  (foldl delete_chunk (m, k) cs).2 = (k + length (concat cs))%nat.
Proof.
  revert m k. induction cs as [|c cs IH]; intros m k Hnd Hin; cbn [foldl concat].
  - simpl. lia.
  - cbn [concat] in *. apply NoDup_app in Hnd as (_ & Hdis & Hnd).
    unfold delete_chunk at 2. cbn [fst snd]. rewrite IH; [|done|].
    + rewrite deleted_count_chunk, length_app; [lia|].
      intros i Hi. apply Hin. apply elem_of_app. by left.
    + intros i Hi. rewrite lookup_foldl_delete. case_bool_decide as H.
      * by destruct (Hdis i H).
      * apply Hin. apply elem_of_app. by right.
Qed.

Lemma delete_stale_count ids m :
  (_delete_stale_names_core ids m).2 = size (dom m ∖ ids).
Proof.
  unfold _delete_stale_names_core. cbv zeta.
  rewrite delete_stale_count_aux;
    rewrite ?concat_chunks by (unfold DEFAULT_NAME_PRUNE_CHUNK_SIZE; lia).
  - done.
  - apply NoDup_elements.
  - intros i Hi. apply elem_of_elements, elem_of_difference in Hi as [Hi _].
    by apply elem_of_dom.
Qed.

Lemma select_rows_cons m j c :
  select_rows m (j :: c) =
  match m !! j with Some v => (j, v) :: select_rows m c | None => select_rows m c end.
Proof. unfold select_rows. simpl. by destruct (m !! j). Qed.

(** The rows a batched read returns: those of the identifiers asked for. *)
Lemma read_chunk_lookup m rows c i :
  read_chunk m rows c !! i =
  match (if bool_decide (i ∈ c) then m !! i else None) with
  | Some v => Some (_normalize_node_name_value (VStr v))
  | None => rows !! i
  end.
Proof.
  unfold read_chunk. rewrite lookup_union.
  assert (H : list_to_map (M := gmap pystr (option pystr))
            ((λ r, (r.1, _normalize_node_name_value (VStr r.2))) <$> select_rows m c) !! i
          = (λ v, _normalize_node_name_value (VStr v))
              <$> (if bool_decide (i ∈ c) then m !! i else None)).
  { induction c as [|j c IH]; [done|]. rewrite select_rows_cons.
    destruct (decide (i = j)) as [->|Hne].
    - rewrite (bool_decide_eq_true_2 (j ∈ j :: c)) by (by left).
      destruct (m !! j) eqn:Hj.
      + cbn [fmap list_fmap list_to_map foldr fst snd]. by rewrite lookup_insert_eq.
      + rewrite IH. case_bool_decide; [|done]. by rewrite ?Hj.
    - rewrite (bool_decide_ext (i ∈ j :: c) (i ∈ c)) by (rewrite elem_of_cons; naive_solver).
      destruct (m !! j) eqn:Hj; [|done].
      cbn [fmap list_fmap list_to_map foldr fst snd]. by rewrite lookup_insert_ne. }
  rewrite H. destruct (if bool_decide (i ∈ c) then m !! i else None); simpl.
  - by destruct (rows !! i).
  - by destruct (rows !! i).
Qed.

Lemma read_chunks_lookup m rows cs i :
  foldl (read_chunk m) rows cs !! i =
  match (if bool_decide (i ∈ concat cs) then m !! i else None) with
  | Some v => Some (_normalize_node_name_value (VStr v))
  | None => rows !! i
  end.
Proof.
  revert rows. induction cs as [|c cs IH]; intros rows; [done|]. cbn [foldl concat].
  rewrite IH, read_chunk_lookup.
  rewrite (bool_decide_ext (i ∈ c ++ concat cs) (i ∈ c ∨ i ∈ concat cs))
    by apply elem_of_app.
  destruct (m !! i); repeat case_bool_decide; naive_solver.
Qed.

Lemma read_names_lookup t ids n rows i :
  _read_name_values_for_ids false t ids n = Some rows →
  rows !! i = (λ v, _normalize_node_name_value (VStr v))
                <$> (if bool_decide (i ∈ ids) then tbl t n !! i else None).
Proof.
  unfold _read_name_values_for_ids. case_bool_decide as Hids.
  - subst ids. intros [= <-]. rewrite lookup_empty.
    by rewrite bool_decide_eq_false_2 by set_solver.
  - intros [= <-]. rewrite read_chunks_lookup, concat_chunks
      by (unfold DEFAULT_NAME_PRUNE_CHUNK_SIZE; lia).
    rewrite (bool_decide_ext (i ∈ merge_sort str_le (elements ids)) (i ∈ ids)).
    + by destruct (if bool_decide (i ∈ ids) then _ else _).
    + rewrite merge_sort_Permutation. apply elem_of_elements.
Qed.

(** ** What a complete snapshot says *)

(** A node of the database carries a name of the kind of [t] for [id]. *)
Definition announces (t : name_table) (node : pyval) (id name : pystr) : Prop :=
  ∃ user, node_identity node = Some (user, id) ∧
          _normalize_node_name_value (dget_none user (name_key_of t)) = Some name.

Definition pick (t : name_table) (e : option pystr * option pystr) : option pystr :=
  match t with LONGNAMES => e.1 | SHORTNAMES => e.2 end.

Lemma merge_values_spec a b r :
  _merge_node_name_values a b = Some r →
  ∀ name, r = Some name ↔ a = Some name ∨ b = Some name.
Proof.
  unfold _merge_node_name_values. intros H name.
  destruct a as [a|], b as [b|]; simplify_eq; try naive_solver.
  destruct (str_eqb a b) eqn:E; simplify_eq. apply str_eqb_spec in E as ->. naive_solver.
Qed.

Lemma resolve_agrees existing incoming e :
  resolve_duplicate existing incoming = (true, e) →
  ∃ p, e = Some p ∧
       ∀ t name, pick t p = Some name ↔ pick t existing = Some name ∨ pick t incoming = Some name.
Proof.
  unfold resolve_duplicate.
  destruct (_merge_node_name_values existing.1 incoming.1) as [l|] eqn:El;
    destruct (_merge_node_name_values existing.2 incoming.2) as [s|] eqn:Es; cbn [from_option id].
  - intros [= <-]. eexists. split; [done|]. intros [] name; simpl;
      by eapply merge_values_spec.
  - by destruct l.
  - by destruct s.
  - done.
Qed.

(** What a complete snapshot has gathered from the nodes seen so far. *)
Definition snapshot_ok (ns : list pyval) (acc : snapshot) : Prop :=
  sn_complete acc = true →
  sn_skipped acc = ∅ ∧
  (∀ id, id ∈ sn_ids acc ↔ is_Some (sn_state acc !! id)) ∧
  (∀ t id name, (∃ e, sn_state acc !! id = Some e ∧ pick t e = Some name) ↔
                ∃ node, node ∈ ns ∧ announces t node id name).

Lemma announces_snoc t ns node user id i name :
  node_identity node = Some (user, id) →
  (∃ nd, nd ∈ ns ++ [node] ∧ announces t nd i name) ↔
  (∃ nd, nd ∈ ns ∧ announces t nd i name) ∨
  (i = id ∧ _normalize_node_name_value (dget_none user (name_key_of t)) = Some name).
Proof.
  intros Hid. split.
  - intros (nd & [Hin|Hin%list_elem_of_singleton]%elem_of_app & Ha); [naive_solver|]. subst nd.
    right. destruct Ha as (us & Hus & Hn). rewrite Hid in Hus. by simplify_eq.
  - intros [(nd & Hin & Ha)|[-> Hn]].
    + exists nd. rewrite elem_of_app. auto.
    + exists node. rewrite elem_of_app, list_elem_of_singleton. split; [auto|]. by exists user.
Qed.

Lemma pick_normalized t user :
  pick t (_normalize_node_name_value (dget_none user PROTO_NODE_NAME_LONG),
          _normalize_node_name_value (dget_none user PROTO_NODE_NAME_SHORT))
  = _normalize_node_name_value (dget_none user (name_key_of t)).
Proof. by destruct t. Qed.

Lemma collect_step ns acc node :
  snapshot_ok ns acc → snapshot_ok (ns ++ [node]) (collect_node acc node).
Proof.
  unfold snapshot_ok at 2, collect_node. cbv zeta. intros Hok.
  destruct (node_identity node) as [[user id]|] eqn:Hid; [|done].
  case_bool_decide as Hsk.
  { intros Hc. destruct (Hok Hc) as (Hs & _). set_solver. }
  destruct (sn_state acc !! id) as [existing|] eqn:He.
  - destruct (resolve_duplicate existing _) as [agree e] eqn:Hr.
    destruct agree; [|destruct e; cbn [sn_complete]; rewrite andb_false_r; done].
    apply resolve_agrees in Hr as (p & -> & Hp). cbn [sn_complete sn_skipped sn_ids sn_state].
    intros Hc. apply andb_prop in Hc as [[[Hc _]%andb_prop _]%andb_prop _].
    destruct (Hok Hc) as (Hs & Hids & Hann). split; [done|]. split.
    + intros i. rewrite elem_of_union, elem_of_singleton, lookup_insert_is_Some', Hids.
      naive_solver.
    + intros t i name. rewrite (announces_snoc _ _ _ _ _ _ _ Hid), <- Hann.
      destruct (decide (i = id)) as [->|Hne].
      * rewrite lookup_insert_eq, He, <- pick_normalized.
        specialize (Hp t name). naive_solver.
      * rewrite lookup_insert_ne by done. naive_solver.
  - cbn [sn_complete sn_skipped sn_ids sn_state].
    intros Hc. apply andb_prop in Hc as [[Hc _]%andb_prop _].
    destruct (Hok Hc) as (Hs & Hids & Hann). split; [done|]. split.
    + intros i. rewrite elem_of_union, elem_of_singleton, lookup_insert_is_Some', Hids.
      naive_solver.
    + intros t i name. rewrite (announces_snoc _ _ _ _ _ _ _ Hid), <- Hann.
      destruct (decide (i = id)) as [->|Hne].
      * rewrite lookup_insert_eq, He, <- pick_normalized. naive_solver.
      * rewrite lookup_insert_ne by done. naive_solver.
Qed.

Lemma collect_ok ns : snapshot_ok ns (foldl collect_node snapshot_init ns).
Proof.
  induction ns as [|node ns IH] using rev_ind.
  - intros _. split; [done|]. split.
    + intros i. cbn [foldl snapshot_init sn_ids sn_state]. rewrite lookup_empty.
      split; [set_solver|]. by intros [? ?].
    + intros t i name. cbn [foldl snapshot_init sn_state]. split.
      * intros (e & He & _). by rewrite lookup_empty in He.
      * intros (nd & Hin & _). by apply elem_of_nil in Hin.
  - rewrite foldl_snoc. by apply collect_step.
Qed.

Lemma state_entries_elem m e :
  e ∈ state_entries m ↔ m !! ne_id e = Some (ne_long e, ne_short e).
Proof.
  unfold state_entries, sort_entries. rewrite merge_sort_Permutation, list_elem_of_fmap.
  split.
  - intros ([i [l s]] & -> & Hin). by apply elem_of_map_to_list in Hin.
  - intros H. exists (ne_id e, (ne_long e, ne_short e)). split; [by destruct e|].
    by apply elem_of_map_to_list.
Qed.

Lemma state_entries_NoDup m : NoDup (ne_id <$> state_entries m).
Proof.
  unfold state_entries, sort_entries. rewrite merge_sort_Permutation, <- list_fmap_compose.
  apply NoDup_fst_map_to_list.
Qed.

(** ** Writing a snapshot *)

Lemma tbl_set_tbl t t' m n :
  tbl t (set_tbl t' m n) = if decide (t = t') then m else tbl t n.
Proof. by destruct t, t'. Qed.

Lemma write_entry_lookup t c n e i :
  tbl t (write_entry c n e) !! i =
  if decide (i = ne_id e)
  then match entry_name t e with
       | Some name => Some name
       | None => if c then None else tbl t n !! i
       end
  else tbl t n !! i.
Proof.
  unfold write_entry, sync_field.
  destruct t; cbn [entry_name];
    destruct (ne_long e), (ne_short e), c; cbn [set_tbl tbl nm_long nm_short];
    case_decide as Hi; subst; rewrite ?lookup_insert_eq, ?lookup_delete_eq; try done;
    by rewrite ?lookup_insert_ne, ?lookup_delete_ne by congruence.
Qed.

Lemma write_entries_absent t c n es i :
  i ∉ (ne_id <$> es) → tbl t (foldl (write_entry c) n es) !! i = tbl t n !! i.
Proof.
  revert n. induction es as [|e es IH]; intros n Hi; [done|]. cbn [foldl].
  rewrite fmap_cons, not_elem_of_cons in Hi. destruct Hi as [Hne Hi].
  rewrite IH, write_entry_lookup by done. by rewrite decide_False.
Qed.

Lemma write_entries_present t c n es e :
  NoDup (ne_id <$> es) → e ∈ es →
  tbl t (foldl (write_entry c) n es) !! ne_id e =
  match entry_name t e with
  | Some name => Some name
  | None => if c then None else tbl t n !! ne_id e
  end.
Proof.
  revert n. induction es as [|e' es IH]; intros n Hnd Hin; [by apply elem_of_nil in Hin|].
  cbn [foldl]. rewrite fmap_cons in Hnd. apply NoDup_cons in Hnd as [Hni Hnd].
  apply elem_of_cons in Hin as [->|Hin].
  - rewrite write_entries_absent, write_entry_lookup by done. by rewrite decide_True.
  - rewrite IH, write_entry_lookup by done. rewrite decide_False; [done|].
    intros He. apply Hni. rewrite <- He. apply list_elem_of_fmap. by exists e.
Qed.

Lemma prune_both_lookup t ids n i :
  tbl t (prune_both ids n) !! i = if bool_decide (i ∈ ids) then tbl t n !! i else None.
Proof. unfold prune_both. destruct t; apply delete_stale_lookup. Qed.

(** The tables after a complete snapshot, row by row. *)
Lemma sync_atomic_complete t nodes n i name :
  let '(st, ids, c) := _collect_node_name_snapshot (VDict nodes) in
  nodes ≠ [] → c = true →
  tbl t (_sync_name_tables_atomic false st ids true n).1 !! i = Some name ↔
  ∃ node, node ∈ nodes.*2 ∧ announces t node i name.
Proof.
  unfold _collect_node_name_snapshot. destruct nodes as [|kv nodes]; [done|]. cbv zeta.
  set (ns := (kv :: nodes).*2). intros _ Hc.
  destruct (collect_ok ns Hc) as (_ & Hids & Hann). rewrite <- Hann.
  unfold _sync_name_tables_atomic. cbn [fst]. rewrite prune_both_lookup.
  rewrite (bool_decide_ext _ _ (Hids i)).
  destruct (sn_state (foldl collect_node snapshot_init ns) !! i) as [[l s]|] eqn:Hi.
  - rewrite bool_decide_eq_true_2 by done.
    pose (e := {| ne_id := i; ne_long := l; ne_short := s |}).
    rewrite (write_entries_present t true n _ e).
    + destruct t; cbn [entry_name e ne_long ne_short pick]; destruct l, s; naive_solver.
    + apply state_entries_NoDup.
    + by apply state_entries_elem.
  - rewrite bool_decide_eq_false_2; [naive_solver|]. by intros [? ?].
Qed.

(** C10: after a cycle on a complete, non-empty snapshot that differs from the
    previous one and is written without a database error, each of the two tables holds
    exactly the names that the nodes of the snapshot carry: a row is there
    if and only if some node announces it, whatever the tables held
    before. *)
Theorem complete_cycle_exact (errs : sync_errors) (nodes : pydict)
    (prev : option (list NodeNameEntry)) (n : names) (t : name_table) (id name : pystr) :
  nodes ≠ [] → (_collect_node_name_snapshot (VDict nodes)).2 = true →
  se_sync errs = false → prev ≠ Some (build_node_name_state (VDict nodes)) →
  tbl t (sync_name_tables_if_changed errs (VDict nodes) prev n).1 !! id = Some name ↔
  ∃ node, node ∈ nodes.*2 ∧ announces t node id name.
Proof.
  intros Hne Hc Herr Hprev. pose proof (sync_atomic_complete t nodes n id name) as H.
  unfold build_node_name_state in Hprev. unfold sync_name_tables_if_changed.
  destruct (_collect_node_name_snapshot (VDict nodes)) as [[st ids] c]. cbn [fst snd] in *.
  subst c. destruct nodes as [|kv nodes]; [done|]. specialize (H Hne eq_refl).
  rewrite <- H, Herr. cbn [negb andb]. destruct prev as [p|].
  - rewrite bool_decide_eq_false_2 by done.
    by destruct (_sync_name_tables_atomic false st ids true n).
  - rewrite bool_decide_eq_false_2 by done.
    by destruct (_sync_name_tables_atomic false st ids true n).
Qed.

(** ** Partial snapshots *)

(** Every row of [n] has a row in [n']. *)
Definition keeps_rows (n n' : names) : Prop :=
  ∀ t id, is_Some (tbl t n !! id) → is_Some (tbl t n' !! id).

#[export] Instance keeps_rows_preorder : PreOrder keeps_rows.
Proof. split; [by intros n t id|]. intros a b c Hab Hbc t id H. by apply Hbc, Hab. Qed.

Lemma write_entry_keeps n e : keeps_rows n (write_entry false n e).
Proof.
  intros t i. rewrite write_entry_lookup. case_decide; [|done]. by destruct (entry_name t e).
Qed.

Lemma partial_sync_keeps err st ids n :
  keeps_rows n (_sync_name_tables_atomic err st ids false n).1.
Proof.
  unfold _sync_name_tables_atomic. destruct err; [done|]. cbn [fst].
  revert n. induction st as [|e st IH]; intros n; [done|]. cbn [foldl].
  etrans; [apply write_entry_keeps|]. apply IH.
Qed.

(** A cycle on anything but a complete snapshot - no node database, an
    empty one, or one with a malformed, anonymous or contradictory node - never
    removes a row from either table, whatever the previous state and whichever
    transactions fail. *)
Theorem partial_cycle_keeps_rows (errs : sync_errors) (nodes : pyval)
    (prev : option (list NodeNameEntry)) (n : names) :
  nodes = VDict [] ∨ (_collect_node_name_snapshot nodes).2 = false →
  keeps_rows n (sync_name_tables_if_changed errs nodes prev n).1.
Proof.
  unfold sync_name_tables_if_changed. intros [->|Hc]; [done|].
  destruct nodes as [| | | | | | |d|]; try done. destruct d as [|kv d]; [done|].
  destruct (_collect_node_name_snapshot _) as [[st ids] c]. cbn [snd] in Hc. subst c.
  cbn [negb andb]. generalize (match prev with Some p => merge_previous p st | None => st end).
  intros st'. cbv zeta. repeat case_bool_decide; try done.
  - destruct (_name_tables_match_state _ _ _ _); [done|].
    pose proof (partial_sync_keeps (se_sync errs) st' ids n).
    by destruct (_sync_name_tables_atomic _ _ _ _ _).
  - pose proof (partial_sync_keeps (se_sync errs) st' ids n).
    by destruct (_sync_name_tables_atomic _ _ _ _ _).
Qed.

(** ** The drift check and the state handed to the next cycle *)

(** Every name of the state is in the tables, as a non-empty string. *)
Definition holds_state (st : list NodeNameEntry) (n : names) : Prop :=
  ∀ t e name, e ∈ st → entry_name t e = Some name →
              name ≠ [] ∧ tbl t n !! ne_id e = Some name.

Lemma table_matches_iff t st n :
  _name_table_matches_state false t st n = true ↔
  ∀ e name, e ∈ st → entry_name t e = Some name →
            name ≠ [] ∧ tbl t n !! ne_id e = Some name.
Proof.
  unfold _name_table_matches_state.
  destruct (_read_name_values_for_ids false t (list_to_set (ne_id <$> st)) n) as [rows|] eqn:Hr.
  2:{ exfalso. unfold _read_name_values_for_ids in Hr. by destruct (bool_decide _). }
  rewrite forallb_forall. split.
  - intros H e name Hin Hn. specialize (H e). rewrite <- list_elem_of_In, Hn in H.
    specialize (H Hin). rewrite (read_names_lookup _ _ _ _ _ Hr) in H.
    rewrite bool_decide_eq_true_2 in H
      by (apply elem_of_list_to_set, list_elem_of_fmap; by exists e).
    destruct (tbl t n !! ne_id e) as [[|c v]|]; try done. cbn in H.
    apply str_eqb_spec in H as ->. done.
  - intros H e Hin. apply list_elem_of_In in Hin.
    destruct (entry_name t e) as [name|] eqn:Hn; [|done].
    destruct (H e name Hin Hn) as [Hne Hl]. rewrite (read_names_lookup _ _ _ _ _ Hr).
    rewrite bool_decide_eq_true_2
      by (apply elem_of_list_to_set, list_elem_of_fmap; by exists e).
    rewrite Hl. destruct name as [|c name]; [done|]. cbn. by apply str_eqb_spec.
Qed.

Lemma tables_match_iff st n :
  _name_tables_match_state false false st n = true ↔ holds_state st n.
Proof.
  unfold _name_tables_match_state. destruct st as [|e st].
  { split; [|done]. intros _ t e name Hin. by apply elem_of_nil in Hin. }
  rewrite andb_true_iff, !table_matches_iff. unfold holds_state. split.
  - intros [Hl Hs] []; auto.
  - intros H. split; intros; by apply (H _).
Qed.

Lemma names_ext n n' : (∀ t i, tbl t n !! i = tbl t n' !! i) → n = n'.
Proof.
  intros H. destruct n as [l s], n' as [l' s']. f_equal; apply map_eq; intros i.
  - apply (H LONGNAMES).
  - apply (H SHORTNAMES).
Qed.

Lemma prune_both_idem ids n : prune_both ids (prune_both ids n) = prune_both ids n.
Proof.
  apply names_ext. intros t i. rewrite !prune_both_lookup. by case_bool_decide.
Qed.

Lemma sync_atomic_prune_fixed st ids n :
  prune_both ids (_sync_name_tables_atomic false st ids true n).1
  = (_sync_name_tables_atomic false st ids true n).1.
Proof. apply prune_both_idem. Qed.

Lemma normalize_nonempty v s : _normalize_node_name_value v = Some s → s ≠ [].
Proof. destruct v as [| | | |[|]| | | |]; simpl; congruence. Qed.

Lemma sync_atomic_holds nodes n :
  let '(st, ids, c) := _collect_node_name_snapshot (VDict nodes) in
  nodes ≠ [] → c = true → holds_state st (_sync_name_tables_atomic false st ids true n).1.
Proof.
  pose proof (λ t, sync_atomic_complete t nodes n) as H. revert H.
  unfold _collect_node_name_snapshot. destruct nodes as [|kv nodes]; [done|]. cbv zeta.
  set (ns := (kv :: nodes).*2). set (acc := foldl _ _ _). intros H Hne Hc t e name He Hn.
  destruct (collect_ok ns Hc) as (_ & _ & Hann). fold acc in Hann.
  apply state_entries_elem in He.
  assert (Ha : ∃ node, node ∈ ns ∧ announces t node (ne_id e) name).
  { apply Hann. eexists. split; [exact He|]. by destruct t. }
  split; [|by apply H].
  destruct Ha as (node & _ & user & _ & Hnm). by apply normalize_nonempty in Hnm.
Qed.

(** The cycle settles: on a complete, non-empty snapshot and without
    database errors, whatever the previous state, a second cycle given what
    the first returned changes neither the tables nor the state. *)
Theorem complete_cycle_fixpoint (nodes : pydict) (prev : option (list NodeNameEntry))
    (n : names) :
  nodes ≠ [] → (_collect_node_name_snapshot (VDict nodes)).2 = true →
  let cycle := sync_name_tables_if_changed no_errors (VDict nodes) in
  let '(n1, r1) := cycle prev n in cycle r1 n1 = (n1, r1).
Proof.
  intros Hne Hc. pose proof (λ n, sync_atomic_holds nodes n) as H.
  unfold sync_name_tables_if_changed.
  destruct (_collect_node_name_snapshot (VDict nodes)) as [[st ids] c]. cbn [fst snd] in *.
  subst c. destruct nodes as [|kv nodes]; [done|]. specialize (λ n, H n Hne eq_refl).
  cbn [no_errors se_prune se_read_long se_read_short se_sync negb andb
       _prune_stale_name_rows_atomic].
  set (cur := match prev with Some _ => st | None => st end).
  assert (Hcur : cur = st) by (by destruct prev).
  rewrite Hcur. case_bool_decide as Hp.
  - destruct (_name_tables_match_state false false st (prune_both ids n)) eqn:Hm.
    + rewrite bool_decide_eq_true_2 by done. by rewrite prune_both_idem, Hm.
    + pose proof (H (prune_both ids n)) as H1.
      pose proof (sync_atomic_prune_fixed st ids (prune_both ids n)) as H2.
      destruct (_sync_name_tables_atomic false st ids true (prune_both ids n)) as [n1 ok] eqn:E.
      assert (ok = true) as -> by (by injection E). cbn [fst] in H1, H2.
      rewrite bool_decide_eq_true_2 by done. rewrite H2.
      by rewrite (proj2 (tables_match_iff st n1) H1).
  - pose proof (H n) as H1. pose proof (sync_atomic_prune_fixed st ids n) as H2.
    destruct (_sync_name_tables_atomic false st ids true n) as [n1 ok] eqn:E.
    assert (ok = true) as -> by (by injection E). cbn [fst] in H1, H2.
    rewrite bool_decide_eq_true_2 by done. rewrite H2.
    by rewrite (proj2 (tables_match_iff st n1) H1).
Qed.

(** ** The state handed to the next cycle *)

(** One entry per node, and no empty name. *)
Definition wf_state (st : list NodeNameEntry) : Prop :=
  NoDup (ne_id <$> st) ∧
  ∀ t e name, e ∈ st → entry_name t e = Some name → name ≠ [].

Lemma resolve_from_inputs existing incoming p t name :
  (resolve_duplicate existing incoming).2 = Some p → pick t p = Some name →
  pick t existing = Some name ∨ pick t incoming = Some name.
Proof.
  unfold resolve_duplicate.
  destruct (_merge_node_name_values existing.1 incoming.1) as [l|] eqn:El;
    destruct (_merge_node_name_values existing.2 incoming.2) as [s|] eqn:Es; cbn [from_option id].
  - intros [= <-]. destruct t; simpl; [apply (merge_values_spec _ _ _ El)|
      apply (merge_values_spec _ _ _ Es)].
  - destruct l as [l|]; [|done]. intros [= <-]. destruct t; simpl; [|done].
    apply (merge_values_spec _ _ _ El).
  - destruct s as [s|]; [|done]. intros [= <-]. destruct t; simpl; [done|].
    apply (merge_values_spec _ _ _ Es).
  - done.
Qed.

Definition nonempty_names (m : gmap pystr (option pystr * option pystr)) : Prop :=
  ∀ id e t name, m !! id = Some e → pick t e = Some name → name ≠ [].

Lemma collect_node_nonempty acc node :
  nonempty_names (sn_state acc) → nonempty_names (sn_state (collect_node acc node)).
Proof.
  intros Hok. unfold collect_node. cbv zeta.
  destruct (node_identity node) as [[user id]|]; [|done].
  case_bool_decide; [done|].
  assert (Hin : ∀ t name,
    pick t (_normalize_node_name_value (dget_none user PROTO_NODE_NAME_LONG),
            _normalize_node_name_value (dget_none user PROTO_NODE_NAME_SHORT)) = Some name →
    name ≠ []).
  { intros t name. rewrite pick_normalized. apply normalize_nonempty. }
  destruct (sn_state acc !! id) as [existing|] eqn:He.
  - pose proof (resolve_from_inputs existing) as Hr.
    destruct (resolve_duplicate existing _) as [agree [p|]] eqn:E; cbn [sn_state];
      intros i e t name Hl Hn.
    + destruct (decide (i = id)) as [->|Hne].
      * rewrite lookup_insert_eq in Hl. injection Hl as <-.
        eapply (f_equal snd) in E. destruct (Hr _ _ _ _ E Hn); eauto.
      * rewrite lookup_insert_ne in Hl by done. by eapply Hok.
    + apply lookup_delete_Some in Hl as [_ Hl]. by eapply Hok.
  - cbn [sn_state]. intros i e t name Hl Hn. destruct (decide (i = id)) as [->|Hne].
    + rewrite lookup_insert_eq in Hl. injection Hl as <-. eauto.
    + rewrite lookup_insert_ne in Hl by done. by eapply Hok.
Qed.

Lemma state_entries_wf m : nonempty_names m → wf_state (state_entries m).
Proof.
  intros H. split; [apply state_entries_NoDup|]. intros t e name He Hn.
  apply state_entries_elem in He. apply (H _ _ t name He). by destruct t.
Qed.

Lemma snapshot_wf nodes : wf_state (_collect_node_name_snapshot nodes).1.1.
Proof.
  assert (Hnil : wf_state []) by (split; [constructor|]; intros ? ? ? H; by apply elem_of_nil in H).
  unfold _collect_node_name_snapshot. destruct nodes as [| | | | | | |d|]; try exact Hnil.
  destruct d as [|kv d]; [exact Hnil|]. apply state_entries_wf.
  induction ((kv :: d).*2) as [|nd ns IH] using rev_ind.
  - intros i e t name Hl. cbn in Hl. by rewrite lookup_empty in Hl.
  - rewrite foldl_snoc. by apply collect_node_nonempty.
Qed.

Definition by_id (previous : list NodeNameEntry) : gmap pystr NodeNameEntry :=
  foldl (λ m e, <[ne_id e := e]> m) ∅ previous.

Lemma by_id_lookup previous i e :
  by_id previous !! i = Some e → ne_id e = i ∧ e ∈ previous.
Proof.
  unfold by_id. induction previous as [|p previous IH] using rev_ind.
  - simpl. by rewrite lookup_empty.
  - rewrite foldl_snoc, elem_of_app, list_elem_of_singleton.
    rewrite lookup_insert_Some. naive_solver.
Qed.

Lemma lookup_foldl_delete_entries (l : list NodeNameEntry) (m : gmap pystr NodeNameEntry) i :
  foldl (λ m e, delete (ne_id e) m) m l !! i =
  if bool_decide (i ∈ (ne_id <$> l)) then None else m !! i.
Proof.
  rewrite <- (lookup_foldl_delete (ne_id <$> l)). f_equal.
  revert m. induction l as [|e l IH]; intros m; [done|]. cbn [foldl fmap list_fmap]. apply IH.
Qed.

Lemma merge_previous_wf previous current :
  wf_state previous → wf_state current → wf_state (merge_previous previous current).
Proof.
  intros [_ Hp] [Hnd Hc]. unfold merge_previous. fold (by_id previous). cbv zeta.
  set (merge := λ e : NodeNameEntry, match by_id previous !! ne_id e with Some _ => _ | None => _ end).
  set (rest := foldl _ _ _).
  assert (Hid : ne_id <$> (merge <$> current) = ne_id <$> current).
  { rewrite <- list_fmap_compose. apply list_fmap_ext. intros i e _.
    unfold merge, compose. by destruct (by_id previous !! ne_id e). }
  assert (Hrest : ∀ i e, (rest !! i) = Some e →
            (i ∉ (ne_id <$> current)) ∧ (ne_id e = i) ∧ e ∈ previous).
  { intros i e. unfold rest. rewrite lookup_foldl_delete_entries.
    case_bool_decide; [done|]. intros H1. split; [done|]. by apply by_id_lookup. }
  assert (Hkeys : ne_id <$> (map_to_list rest).*2 = (map_to_list rest).*1).
  { rewrite <- list_fmap_compose. apply list_fmap_ext. intros j [i e] Hj.
    apply list_elem_of_lookup_2, elem_of_map_to_list, Hrest in Hj. simpl. apply Hj. }
  split.
  - unfold sort_entries. rewrite merge_sort_Permutation, fmap_app, Hid, Hkeys.
    apply NoDup_app. split; [done|]. split; [|apply NoDup_fst_map_to_list].
    intros i Hi Hin. apply list_elem_of_fmap in Hin as ([j e] & -> & Hin).
    apply elem_of_map_to_list, Hrest in Hin as [H1 _]. by apply H1.
  - intros t e name He Hn. unfold sort_entries in He.
    rewrite merge_sort_Permutation, elem_of_app in He. destruct He as [He|He].
    + apply list_elem_of_fmap in He as (e0 & -> & He0). unfold merge in Hn.
      destruct (by_id previous !! ne_id e0) as [p|] eqn:Hb; [|by apply (Hc t e0)].
      apply by_id_lookup in Hb as [_ Hb].
      destruct t; cbn [entry_name ne_long ne_short] in Hn.
      * destruct (ne_long e0) eqn:E; [apply (Hc LONGNAMES e0); [done|]; simpl; congruence|].
        by apply (Hp LONGNAMES p).
      * destruct (ne_short e0) eqn:E; [apply (Hc SHORTNAMES e0); [done|]; simpl; congruence|].
        by apply (Hp SHORTNAMES p).
    + apply list_elem_of_fmap in He as ([j e0] & -> & He).
      apply elem_of_map_to_list, Hrest in He as (_ & _ & He). by apply (Hp t e0).
Qed.

Lemma sync_atomic_partial_holds st ids n :
  wf_state st → holds_state st (_sync_name_tables_atomic false st ids false n).1.
Proof.
  intros [Hnd Hne] t e name He Hn. split; [by eapply Hne|].
  unfold _sync_name_tables_atomic. cbn [fst]. rewrite write_entries_present by done.
  by rewrite Hn.
Qed.

(** The state a cycle hands to the next one is well formed (one entry per
    node, no empty name) when the previous one was, and it never runs ahead of
    the database: it is the previous state - so that the next cycle tries
    again - or every name in it has been committed to both tables, whichever
    transactions failed. *)
Theorem cycle_state_committed (errs : sync_errors) (nodes : pyval)
    (prev : option (list NodeNameEntry)) (n : names) :
  (∀ p, prev = Some p → wf_state p) →
  let '(n', r) := sync_name_tables_if_changed errs nodes prev n in
  (∀ st, r = Some st → wf_state st) ∧
  (r = prev ∨ ∃ st, r = Some st ∧ holds_state st n').
Proof.
  intros Hp. unfold sync_name_tables_if_changed.
  destruct nodes as [| | | | | | |d|]; auto. destruct d as [|kv d]; [auto|].
  pose proof (snapshot_wf (VDict (kv :: d))) as Hwf.
  pose proof (λ n, sync_atomic_holds (kv :: d) n) as Hh.
  destruct (_collect_node_name_snapshot _) as [[st ids] c]. cbn [fst] in Hwf.
  set (cur := match prev with Some p => _ | None => st end).
  assert (Hcur : wf_state cur).
  { unfold cur. destruct prev as [p|]; [|done]. destruct c; [done|].
    apply merge_previous_wf; auto. }
  assert (Hsync : ∀ n, holds_state cur (_sync_name_tables_atomic false cur ids c n).1).
  { intros n0. destruct c.
    - assert (cur = st) as -> by (by unfold cur; destruct prev). by apply Hh.
    - by apply sync_atomic_partial_holds. }
  assert (Hdone : ∀ n,
    let '(n', r) :=
      let '(n', synced) := _sync_name_tables_atomic (se_sync errs) cur ids c n in
      (n', if synced then Some cur else prev) in
    (∀ st, r = Some st → wf_state st) ∧
    (r = prev ∨ ∃ st, r = Some st ∧ holds_state st n')).
  { intros n0. destruct (se_sync errs) eqn:E; [by simpl; auto|].
    specialize (Hsync n0). destruct (_sync_name_tables_atomic false cur ids c n0) as [n1 ok] eqn:E1.
    assert (ok = true) as -> by (by injection E1). split.
    - by intros ? [= <-].
    - right. eauto. }
  destruct (negb c && bool_decide (cur = [])); [by auto|].
  case_bool_decide as Heq; [|exact (Hdone n)].
  destruct (if c then _ else _) as [n1 pruned]. destruct pruned; cbn [negb]; [|by auto].
  destruct (_name_tables_match_state _ _ cur n1).
  - split; [by intros ? [= <-]|]. left. by rewrite Heq.
  - exact (Hdone n1).
Qed.

(** The batched drift check decides what it is meant to: without database
    errors it accepts a well-formed state exactly when each of its names is in its table, however
    many nodes (hence batches) there are. *)
Theorem drift_check_exact (st : list NodeNameEntry) (n : names) :
  wf_state st →
  _name_tables_match_state false false st n = true ↔
  ∀ t e name, e ∈ st → entry_name t e = Some name → tbl t n !! ne_id e = Some name.
Proof.
  intros [_ Hne]. rewrite tables_match_iff. unfold holds_state. split.
  - intros H t e name He Hn. by apply (H t e name).
  - intros H t e name He Hn. split; [by eapply Hne|by apply (H t)].
Qed.

(** Pruning in batches is plain filtering: [_delete_stale_names_core]
    leaves the rows of the current nodes, unchanged, and reports the number of
    rows removed, whatever their number. *)
Theorem prune_is_filter (ids : gset pystr) (m : gmap pystr pystr) :
  _delete_stale_names_core ids m =
  (filter (λ kv, kv.1 ∈ ids) m, (size m - size (filter (λ kv, kv.1 ∈ ids) m))%nat).
Proof.
  rewrite (surjective_pairing (_delete_stale_names_core ids m)).
  rewrite delete_stale_filter, delete_stale_count. f_equal.
  rewrite <- !size_dom.
  assert (H : dom (filter (λ kv : pystr * pystr, kv.1 ∈ ids) m) = dom m ∩ ids).
  { apply set_eq. intros i. rewrite elem_of_intersection, !elem_of_dom. split.
    - intros [v Hv]. apply map_lookup_filter_Some in Hv as [? ?]. split; [eauto|done].
    - intros [[v Hv] Hi]. exists v. by apply map_lookup_filter_Some. }
  rewrite H, size_difference_alt. done.
Qed.

(** ** Order of the nodes *)

(** Every node can be read, and no two of them disagree on a name. *)
Definition consistent (ns : list pyval) : Prop :=
  (∀ node, node ∈ ns → ∃ user id, node_identity node = Some (user, id) ∧
     ∀ t, bad_name (dget_none user (name_key_of t)) = false) ∧
  ∀ t id a b, (∃ node, node ∈ ns ∧ announces t node id a) →
              (∃ node, node ∈ ns ∧ announces t node id b) → a = b.

Lemma consistent_snoc ns node :
  consistent (ns ++ [node]) → consistent ns.
Proof.
  intros [H1 H2]. split.
  - intros nd Hin. apply H1, elem_of_app. by left.
  - intros t id a b (x & Hx & Ha) (y & Hy & Hb).
    apply (H2 t id); [exists x|exists y]; (split; [apply elem_of_app; by left|done]).
Qed.

Lemma merge_values_agree a b :
  (∀ x y, a = Some x → b = Some y → x = y) → ∃ r, _merge_node_name_values a b = Some r.
Proof.
  intros H. unfold _merge_node_name_values. destruct a as [x|], b as [y|]; eauto.
  rewrite (H x y) by done. rewrite str_eqb_refl. eauto.
Qed.

Lemma resolve_agree existing incoming :
  (∀ t x y, pick t existing = Some x → pick t incoming = Some y → x = y) →
  (resolve_duplicate existing incoming).1 = true.
Proof.
  intros H. unfold resolve_duplicate.
  destruct (merge_values_agree existing.1 incoming.1 (H LONGNAMES)) as [l ->].
  by destruct (merge_values_agree existing.2 incoming.2 (H SHORTNAMES)) as [s ->].
Qed.

Lemma consistent_complete ns :
  consistent ns → sn_complete (foldl collect_node snapshot_init ns) = true.
Proof.
  induction ns as [|node ns IH] using rev_ind; intros Hc; [done|].
  pose proof (consistent_snoc _ _ Hc) as Hp. specialize (IH Hp). rewrite foldl_snoc.
  destruct (collect_ok ns IH) as (Hsk & _ & Hann). destruct Hc as [H1 H2].
  destruct (H1 node) as (user & id & Hid & Hbad).
  { apply elem_of_app. right. by apply list_elem_of_singleton. }
  set (acc := foldl collect_node snapshot_init ns) in *. clearbody acc.
  unfold collect_node. rewrite Hid. cbv zeta.
  rewrite (bool_decide_eq_false_2 (id ∈ _)) by (rewrite Hsk; set_solver).
  pose proof (Hbad LONGNAMES) as Hl. pose proof (Hbad SHORTNAMES) as Hs.
  cbn [name_key_of] in Hl, Hs. rewrite Hl, Hs, IH. cbn [negb andb].
  destruct (sn_state acc !! id) as [existing|] eqn:He; [|done].
  pose proof (resolve_agree existing
    (_normalize_node_name_value (dget_none user PROTO_NODE_NAME_LONG),
     _normalize_node_name_value (dget_none user PROTO_NODE_NAME_SHORT))) as Hr.
  destruct (resolve_duplicate existing _) as [agree e]. cbn [fst] in Hr.
  rewrite Hr; [by destruct e|]. intros t x y Hx Hy. rewrite pick_normalized in Hy.
  apply (H2 t id); rewrite (announces_snoc _ _ _ _ _ _ _ Hid).
  - left. apply Hann. eauto.
  - by right.
Qed.

Lemma collect_node_complete acc node :
  sn_complete (collect_node acc node) = true → sn_complete acc = true.
Proof.
  unfold collect_node. cbv zeta. destruct (node_identity node) as [[user id]|]; [|done].
  case_bool_decide; [done|]. destruct (sn_state acc !! id).
  - destruct (resolve_duplicate _ _) as [? []]; cbn [sn_complete]; by intros [[[? ?]%andb_prop ?]%andb_prop ?]%andb_prop.
  - by intros [[? ?]%andb_prop ?]%andb_prop.
Qed.

Lemma complete_consistent ns :
  sn_complete (foldl collect_node snapshot_init ns) = true → consistent ns.
Proof.
  intros Hc. split.
  - revert Hc. induction ns as [|node ns IH] using rev_ind; intros Hc nd Hin.
    { by apply elem_of_nil in Hin. }
    rewrite foldl_snoc in Hc. pose proof (collect_node_complete _ _ Hc) as Hc'.
    apply elem_of_app in Hin as [Hin|Hin%list_elem_of_singleton]; [auto|]. subst nd.
    destruct (collect_ok ns Hc') as (Hsk & _ & _). clear IH.
    set (acc := foldl collect_node snapshot_init ns) in *. clearbody acc.
    revert Hc. unfold collect_node. cbv zeta.
    destruct (node_identity node) as [[user id]|]; [|done].
    rewrite (bool_decide_eq_false_2 (id ∈ _)) by (rewrite Hsk; set_solver). intros Hc.
    exists user, id. split; [done|].
    assert (Hb : negb (bad_name (dget_none user PROTO_NODE_NAME_LONG)) = true ∧
                 negb (bad_name (dget_none user PROTO_NODE_NAME_SHORT)) = true).
    { destruct (sn_state acc !! id).
      - destruct (resolve_duplicate _ _) as [? []]; cbn [sn_complete] in Hc;
          by apply andb_prop in Hc as [[[? ?]%andb_prop ?]%andb_prop ?].
      - by apply andb_prop in Hc as [[? ?]%andb_prop ?]. }
    destruct Hb as [Hl%negb_true_iff Hs%negb_true_iff]. by intros [].
  - intros t id a b Ha Hb. destruct (collect_ok ns Hc) as (_ & _ & Hann).
    apply Hann in Ha as (e & He & Ha). apply Hann in Hb as (e' & He' & Hb). congruence.
Qed.

#[export] Instance consistent_proper : Proper ((≡ₚ) ==> iff) consistent.
Proof.
  intros ns ns' Hp. unfold consistent. by setoid_rewrite Hp.
Qed.

(** The identifiers gathered, complete or not. *)
Lemma collect_ids ns id :
  let acc := foldl collect_node snapshot_init ns in
  sn_skipped acc ⊆ sn_ids acc ∧
  (id ∈ sn_ids acc ↔ ∃ node user, node ∈ ns ∧ node_identity node = Some (user, id)).
Proof.
  cbv zeta. induction ns as [|node ns IH] using rev_ind.
  { cbn. split; [set_solver|]. split; [set_solver|].
    intros (? & ? & H & _). by apply elem_of_nil in H. }
  rewrite foldl_snoc. set (acc := foldl collect_node snapshot_init ns) in *. clearbody acc.
  destruct IH as [Hsub IH].
  assert (Hsnoc : (∃ nd user, nd ∈ ns ++ [node] ∧ node_identity nd = Some (user, id)) ↔
                  id ∈ sn_ids acc ∨ ∃ user, node_identity node = Some (user, id)).
  { rewrite IH. setoid_rewrite elem_of_app. setoid_rewrite list_elem_of_singleton. naive_solver. }
  rewrite Hsnoc. clear Hsnoc IH. unfold collect_node. cbv zeta.
  destruct (node_identity node) as [[user k]|]; [|split; [done|naive_solver]].
  case_bool_decide as Hk.
  { split; [done|]. split; [auto|]. intros [?|(us & Hus)]; [done|]. simplify_eq. set_solver. }
  assert (Hin : id ∈ {[ k ]} ∪ sn_ids acc ↔
                id ∈ sn_ids acc ∨ ∃ user0, Some (user, k) = Some (user0, id)).
  { rewrite elem_of_union, elem_of_singleton. naive_solver. }
  destruct (sn_state acc !! k).
  - destruct (resolve_duplicate _ _) as [? []]; cbn [sn_skipped sn_ids]; (split; [set_solver|done]).
  - cbn [sn_skipped sn_ids]. split; [set_solver|done].
Qed.

(** The order of the nodes does not matter to a complete snapshot: the
    same nodes in another order give a complete snapshot with the same state
    and the same identifiers. *)
Theorem complete_order_irrelevant (d d' : pydict) :
  d.*2 ≡ₚ d'.*2 → (_collect_node_name_snapshot (VDict d)).2 = true →
  _collect_node_name_snapshot (VDict d') = _collect_node_name_snapshot (VDict d).
Proof.
  intros Hp Hc. destruct d as [|kv d], d' as [|kv' d']; try done.
  { by apply Permutation_nil in Hp. }
  { symmetry in Hp. by apply Permutation_nil in Hp. }
  cbn [_collect_node_name_snapshot snd] in *.
  set (ns := (kv :: d).*2) in *. set (ns' := (kv' :: d').*2) in *. clearbody ns ns'.
  pose proof Hc as Hcons%complete_consistent. rewrite Hp in Hcons.
  pose proof (consistent_complete _ Hcons) as Hc'.
  destruct (collect_ok _ Hc) as (_ & Hi & Ha). destruct (collect_ok _ Hc') as (_ & Hi' & Ha').
  assert (Hids : sn_ids (foldl collect_node snapshot_init ns') = sn_ids (foldl collect_node snapshot_init ns)).
  { apply set_eq. intros id. destruct (collect_ids ns id) as [_ ->].
    destruct (collect_ids ns' id) as [_ ->]. by setoid_rewrite Hp. }
  rewrite Hc, Hc', Hids. do 3 f_equal. apply (map_eq (M := gmap pystr)). intros id.
  specialize (Hi id). specialize (Hi' id). rewrite Hids in Hi'.
  assert (Hpick : ∀ t e e',
    sn_state (foldl collect_node snapshot_init ns) !! id = Some e →
    sn_state (foldl collect_node snapshot_init ns') !! id = Some e' → pick t e' = pick t e).
  { intros t e e' He He'. apply option_eq. intros name.
    specialize (Ha t id name). specialize (Ha' t id name). rewrite He in Ha. rewrite He' in Ha'.
    setoid_rewrite <- Hp in Ha'. naive_solver. }
  destruct (sn_state (foldl collect_node snapshot_init ns) !! id) as [[l s]|] eqn:E,
    (sn_state (foldl collect_node snapshot_init ns') !! id) as [[l' s']|] eqn:E'.
  - f_equal. f_equal.
    + by apply (Hpick LONGNAMES (l, s) (l', s')).
    + by apply (Hpick SHORTNAMES (l, s) (l', s')).
  - rewrite Hi in Hi'. by destruct Hi' as [[? [=]] _].
  - rewrite Hi in Hi'. by destruct Hi' as [_ [? [=]]].
  - done.
Qed.

(** Without completeness it does: the long name that two entries dispute comes
    back when a third entry repeats one side. *)
Definition demo_node (long : string) : pyval :=
  VDict [(u "user", VDict [(u "id", VStr (u "!a")); (u "longName", VStr (u long));
                           (u "shortName", VStr (u "s"))])].

Lemma duplicates_order_matters :
  let d := [(u "1", demo_node "A"); (u "2", demo_node "A"); (u "3", demo_node "B")] in
  let d' := [(u "1", demo_node "A"); (u "2", demo_node "B"); (u "3", demo_node "A")] in
  d.*2 ≡ₚ d'.*2 ∧
  build_node_name_state (VDict d) = [{| ne_id := u "!a"; ne_long := None; ne_short := Some (u "s") |}] ∧
  build_node_name_state (VDict d') =
    [{| ne_id := u "!a"; ne_long := Some (u "A"); ne_short := Some (u "s") |}].
Proof.
  cbv zeta. split; [|split; vm_compute; reflexivity].
  cbn [fmap list_fmap snd]. constructor. constructor.
Qed.

(** A row whose node no longer carries a name is not cleared while the
    snapshot stays the same: the drift check looks at the names that are expected only. *)
Lemma drift_keeps_unnamed_row :
  let d := [(u "1", VDict [(u "user", VDict [(u "id", VStr (u "!a"))])])] in
  let n := {| nm_long := {[ u "!a" := u "old" ]}; nm_short := ∅ |} in
  let st := build_node_name_state (VDict d) in
  sync_name_tables_if_changed no_errors (VDict d) (Some st) n = (n, Some st).
Proof. vm_compute. reflexivity. Qed.

(** ** One table at a time *)

(** The older updates touch their own table only, and a snapshot that is not
    complete removes nothing. *)
Lemma update_names_other_table errs err_stale t t' nodes n :
  t ≠ t' → tbl t' (_update_names_core errs err_stale t nodes n).1 = tbl t' n.
Proof.
  intros Hne. unfold _update_names_core. destruct nodes as [|nd nodes]; [done|]. cbv zeta.
  set (acc := _collect_single_name_snapshot _ _). clearbody acc.
  set (step := λ (st : names * bool) (kv : pystr * option pystr), _).
  assert (Hstep : ∀ l (st : names * bool), tbl t' (foldl step st l).1 = tbl t' st.1).
  { induction l as [|[i o] l IH]; intros st; [done|]. cbn [foldl]. rewrite IH.
    unfold step, save_name, _delete_name_by_id. cbn [fst snd].
    destruct o, (ns_complete acc), (errs i); cbn [fst]; try done;
      rewrite tbl_set_tbl; by rewrite decide_False by congruence. }
  specialize (Hstep (map_to_list (ns_state acc)) (n, true)). cbn [fst] in Hstep.
  destruct (foldl step _ _) as [n1 ok]. cbn [fst] in Hstep.
  destruct (bool_decide (ns_ids acc ≠ ∅) && ns_complete acc && ok); [|done].
  unfold _delete_stale_names. destruct err_stale; [done|].
  destruct (_delete_stale_names_core _ _). cbn [fst].
  rewrite tbl_set_tbl. by rewrite decide_False by congruence.
Qed.

Lemma update_names_partial_keeps errs err_stale t nodes n :
  ns_complete (_collect_single_name_snapshot (name_key_of t) nodes) = false →
  keeps_rows n (_update_names_core errs err_stale t nodes n).1.
Proof.
  intros Hc. unfold _update_names_core. destruct nodes as [|nd nodes]; [done|]. cbv zeta.
  rewrite Hc, andb_false_r. cbn [andb].
  set (step := λ (st : names * bool) (kv : pystr * option pystr), _).
  assert (Hstep : ∀ l (st : names * bool), keeps_rows st.1 (foldl step st l).1).
  { induction l as [|[i o] l IH]; intros st; [done|]. cbn [foldl]. etrans; [|apply IH].
    unfold step, save_name. cbn [fst snd]. destruct o, (errs i); cbn [fst]; try done.
    intros t' j Hj. rewrite tbl_set_tbl. case_decide; [|done]. subst t'.
    destruct (decide (i = j)) as [->|]; [by rewrite lookup_insert_eq|by rewrite lookup_insert_ne]. }
  specialize (Hstep (map_to_list (ns_state
    (_collect_single_name_snapshot (name_key_of t) (nd :: nodes)))) (n, true)).
  by destruct (foldl step _ _) as [n1 ok].
Qed.

(** ** Witnesses *)

Definition demo_nodes : pydict := [(u "1", demo_node "A")].
Definition demo_names : names :=
  {| nm_long := {[ u "!a" := u "old"; u "!gone" := u "x" ]}; nm_short := ∅ |}.

Lemma complete_cycle_exact_witness :
  tbl LONGNAMES (sync_name_tables_if_changed no_errors (VDict demo_nodes) None demo_names).1
    !! u "!a" = Some (u "A").
Proof.
  apply (complete_cycle_exact no_errors demo_nodes None demo_names LONGNAMES); [done..|].
  exists (demo_node "A"). split; [apply list_elem_of_singleton; reflexivity|].
  eexists. split; vm_compute; reflexivity.
Defined.

Lemma partial_cycle_keeps_rows_witness :
  keeps_rows demo_names
    (sync_name_tables_if_changed no_errors
       (VDict [(u "1", demo_node "A"); (u "2", VNone)]) None demo_names).1.
Proof. apply partial_cycle_keeps_rows. right. vm_compute. reflexivity. Defined.

Lemma complete_cycle_fixpoint_witness :
  let cycle := sync_name_tables_if_changed no_errors (VDict demo_nodes) in
  let '(n1, r1) := cycle None demo_names in cycle r1 n1 = (n1, r1).
Proof. apply (complete_cycle_fixpoint demo_nodes None demo_names); [done|]. vm_compute. reflexivity. Defined.

Lemma cycle_state_committed_witness :
  let '(n', r) := sync_name_tables_if_changed no_errors (VDict demo_nodes) None demo_names in
  (∀ st, r = Some st → wf_state st) ∧ (r = None ∨ ∃ st, r = Some st ∧ holds_state st n').
Proof. apply (cycle_state_committed no_errors (VDict demo_nodes) None demo_names). done. Defined.

Lemma drift_check_exact_witness :
  let st := [{| ne_id := u "!a"; ne_long := Some (u "old"); ne_short := None |}] in
  _name_tables_match_state false false st demo_names = true ↔
  ∀ t e name, e ∈ st → entry_name t e = Some name → tbl t demo_names !! ne_id e = Some name.
Proof.
  apply drift_check_exact. split; [apply NoDup_singleton|].
  intros t e name ->%list_elem_of_singleton. destruct t; cbn [entry_name ne_long ne_short]; [|done].
  intros [= <-]. done.
Defined.

Lemma complete_order_irrelevant_witness :
  _collect_node_name_snapshot (VDict [(u "2", VDict [(u "user", VDict [(u "id", VInt 7)])]);
                                      (u "1", demo_node "A")])
  = _collect_node_name_snapshot (VDict [(u "1", demo_node "A");
                                        (u "2", VDict [(u "user", VDict [(u "id", VInt 7)])])]).
Proof.
  apply complete_order_irrelevant; [|vm_compute; reflexivity].
  cbn [fmap list_fmap snd]. constructor.
Defined.
