(* ===== verification/DbSchema.v ===== *)
(** * Initialisation and migration of the database schema

    Models [initialize_database] of [src/mmrelay/db_utils.py]: the creation of the
    tables, the added [meshtastic_meshnet] column, and the rebuilding of
    [message_map] when its identifier column is not TEXT, through the temporary
    tables that an interrupted run may have left behind.

    A run is a sequence of SQL statements.  The connection is the one the
    sqlite3 module of Python gives by default: a statement that changes the
    schema is committed on its own until the first INSERT opens a transaction,
    which then holds everything up to the commit at the end.  The states the
    database file goes through on disk are recorded, so that a theorem can speak of
    a crash at any point; which statements fail is an input, and whether a failure
    is one at which SQLite rolls the whole transaction back.  The conversion
    a column that is not TEXT applies to what is stored in it is a parameter. *)

From Stdlib Require Import String.
From stdpp Require Import base tactics list numbers gmap sets.
From S2P Require Import Prelude PyStr.
Open Scope Z_scope.

(** ** Tables *)

Inductive dbval := DNull | DInt (z : Z) | DText (s : pystr).

(** [CAST(x AS TEXT)], and what a TEXT column makes of a value. *)
Definition cast_text (v : dbval) : dbval :=
  match v with DInt z => DText (str_of_int z) | _ => v end.

Record mrow := {
  mr_event : pystr; mr_id : dbval; mr_room : pystr; mr_text : pystr;
  mr_meshnet : option pystr }.

(** [tb_text]: the type of [meshtastic_id] is TEXT; [tb_mesh]: there is a column
    [meshtastic_meshnet]. *)
Record tab := { tb_text : bool; tb_mesh : bool; tb_rows : list mrow }.

Inductive tname := TMap | TTemp | TStale | TLegacy.

Record db := {
  d_longnames : bool; d_shortnames : bool; d_plugin_data : bool;
  d_map : option tab; d_temp : option tab; d_stale : option tab; d_legacy : option tab }.

Definition get_tab (t : tname) (d : db) : option tab :=
  match t with
  | TMap => d_map d | TTemp => d_temp d | TStale => d_stale d | TLegacy => d_legacy d
  end.

Definition set_tab (t : tname) (x : option tab) (d : db) : db :=
  {| d_longnames := d_longnames d; d_shortnames := d_shortnames d;
     d_plugin_data := d_plugin_data d;
     d_map := match t with TMap => x | _ => d_map d end;
     d_temp := match t with TTemp => x | _ => d_temp d end;
     d_stale := match t with TStale => x | _ => d_stale d end;
     d_legacy := match t with TLegacy => x | _ => d_legacy d end |}.

Definition events (x : option tab) : gset pystr :=
  match x with Some x => list_to_set (mr_event <$> tb_rows x) | None => ∅ end.

(** ** Statements *)

(** Where the meshnet of a copied row comes from: the column of the source, NULL, or the
    column is not mentioned. *)
Inductive mesh_mode := WithMesh | NullMesh | OmitMesh.

Inductive stmt :=
  | CreateLongnames | CreateShortnames | CreatePluginData
  | CreateMapIfMissing
  | AddMeshColumn
  | CreateMap
  | Rename (src dst : tname)
  | Drop (t : tname)
  | Insert (or_ignore : bool) (dst src : tname) (cast : bool) (m : mesh_mode)
  | CreateIndex.

Definition is_insert (s : stmt) : bool := match s with Insert _ _ _ _ _ => true | _ => false end.

Section schema.
Context (other_affinity : dbval → dbval).

Definition stored (text : bool) (v : dbval) : dbval :=
  if text then cast_text v else other_affinity v.

Definition new_map : tab := {| tb_text := true; tb_mesh := true; tb_rows := [] |}.

(** A row as an INSERT ... SELECT writes it into [dst]. *)
Definition copied (dst : tab) (cast : bool) (m : mesh_mode) (r : mrow) : mrow :=
  {| mr_event := mr_event r;
     mr_id := stored (tb_text dst) (if cast then cast_text (mr_id r) else mr_id r);
     mr_room := mr_room r; mr_text := mr_text r;
     mr_meshnet := match m with WithMesh => mr_meshnet r | _ => None end |}.

Definition has_event (rows : list mrow) (e : pystr) : bool :=
  existsb (λ r, str_eqb (mr_event r) e) rows.

(** [matrix_event_id] is the primary key: [OR IGNORE] skips a row whose event is there,
    a plain INSERT fails. *)
Fixpoint insert_rows (or_ignore : bool) (rows new : list mrow) : option (list mrow) :=
  match new with
  | [] => Some rows
  | r :: new =>
      if has_event rows (mr_event r)
      then if or_ignore then insert_rows or_ignore rows new else None
      else insert_rows or_ignore (rows ++ [r]) new
  end.

Definition mesh_columns_exist (dst src : tab) (m : mesh_mode) : bool :=
  match m with
  | WithMesh => tb_mesh dst && tb_mesh src
  | NullMesh => tb_mesh dst
  | OmitMesh => true
  end.

(** None: sqlite3.Error. *)
Definition exec_stmt (s : stmt) (d : db) : option db :=
  match s with
  | CreateLongnames =>
      Some {| d_longnames := true; d_shortnames := d_shortnames d;
              d_plugin_data := d_plugin_data d; d_map := d_map d; d_temp := d_temp d;
              d_stale := d_stale d; d_legacy := d_legacy d |}
  | CreateShortnames =>
      Some {| d_longnames := d_longnames d; d_shortnames := true;
              d_plugin_data := d_plugin_data d; d_map := d_map d; d_temp := d_temp d;
              d_stale := d_stale d; d_legacy := d_legacy d |}
  | CreatePluginData =>
      Some {| d_longnames := d_longnames d; d_shortnames := d_shortnames d;
              d_plugin_data := true; d_map := d_map d; d_temp := d_temp d;
              d_stale := d_stale d; d_legacy := d_legacy d |}
  | CreateMapIfMissing =>
      match d_map d with
      | Some _ => Some d
      | None => Some (set_tab TMap (Some new_map) d)
      end
  | AddMeshColumn =>
      match d_map d with
      | Some x =>
          if tb_mesh x then None
          else Some (set_tab TMap (Some {| tb_text := tb_text x; tb_mesh := true;
                                           tb_rows := tb_rows x |}) d)
      | None => None
      end
  | CreateMap =>
      match d_map d with
      | Some _ => None
      | None => Some (set_tab TMap (Some new_map) d)
      end
  | Rename src dst =>
      match get_tab src d, get_tab dst d with
      | Some x, None => Some (set_tab dst (Some x) (set_tab src None d))
      | _, _ => None
      end
  | Drop t => Some (set_tab t None d)
  | Insert or_ignore dst src cast m =>
      match get_tab dst d, get_tab src d with
      | Some x, Some y =>
          if mesh_columns_exist x y m then
            match insert_rows or_ignore (tb_rows x) (copied x cast m <$> tb_rows y) with
            | Some rows =>
                Some (set_tab dst (Some {| tb_text := tb_text x; tb_mesh := tb_mesh x;
                                           tb_rows := rows |}) d)
            | None => None
            end
          else None
      | _, _ => None
      end
  | CreateIndex => match d_map d with Some _ => Some d | None => None end
  end.

(** ** The connection *)

(** [cn_durable]: the states on disk so far, latest first; [cn_current]: what the connection
    sees; [cn_clock]: the statements executed. *)
Record conn := {
  cn_durable : list db; cn_current : db; cn_in_transaction : bool; cn_clock : nat }.

Definition open_conn (d : db) : conn :=
  {| cn_durable := [d]; cn_current := d; cn_in_transaction := false; cn_clock := 0 |}.

Definition on_disk (c : conn) : db := hd (cn_current c) (cn_durable c).

(** A statement that fails is undone by itself, or SQLite rolls the whole transaction
    back (the disk is full, an I/O error, no memory): the connection is then outside
    of any transaction. *)
Inductive fault := Refused | RolledBack.
Context (fails : nat → option fault).

(** None: the error has been raised. *)
Definition sql (A : Type) : Type := conn → conn * option A.
Definition ret {A} (a : A) : sql A := λ c, (c, Some a).
Definition bind {A B} (m : sql A) (f : A → sql B) : sql B :=
  λ c, match m c with (c, Some a) => f a c | (c, None) => (c, None) end.

Definition after_fault (f : fault) (in_transaction : bool) (c : conn) : conn :=
  match f with
  | Refused => {| cn_durable := cn_durable c; cn_current := cn_current c;
                  cn_in_transaction := in_transaction; cn_clock := S (cn_clock c) |}
  | RolledBack => {| cn_durable := cn_durable c; cn_current := on_disk c;
                     cn_in_transaction := false; cn_clock := S (cn_clock c) |}
  end.

Definition execute (s : stmt) : sql unit := λ c,
  let in_transaction := cn_in_transaction c || is_insert s in
  match fails (cn_clock c) with
  | Some f => (after_fault f in_transaction c, None)
  | None =>
      match exec_stmt s (cn_current c) with
      | None => (after_fault Refused in_transaction c, None)
      | Some d =>
          ({| cn_durable := if in_transaction then cn_durable c else d :: cn_durable c;
              cn_current := d; cn_in_transaction := in_transaction;
              cn_clock := S (cn_clock c) |}, Some tt)
      end
  end.

(** Reading the schema: [PRAGMA table_info] and [sqlite_master]. *)
Definition read_tab (t : tname) : sql (option tab) := λ c,
  match fails (cn_clock c) with
  | Some f => (after_fault f (cn_in_transaction c) c, None)
  | None => ({| cn_durable := cn_durable c; cn_current := cn_current c;
                cn_in_transaction := cn_in_transaction c; cn_clock := S (cn_clock c) |},
             Some (get_tab t (cn_current c)))
  end.

Definition exists_tab (t : tname) : sql bool :=
  bind (read_tab t) (λ x, ret (match x with Some _ => true | None => false end)).
Definition has_mesh (t : tname) : sql bool :=
  bind (read_tab t) (λ x, ret (match x with Some x => tb_mesh x | None => false end)).

(** [except sqlite3.Error] around a part of the run: false when it failed. *)
Definition try_sql (m : sql unit) : sql bool := λ c,
  match m c with (c, Some _) => (c, Some true) | (c, None) => (c, Some false) end.
End schema.

Declare Scope sql_scope.
Delimit Scope sql_scope with sql.
Notation "'do!' x ':=' m 'in' k" := (bind m (λ x, k))
  (at level 10, x name, m at level 100, k at level 200) : sql_scope.
Notation "m ';;;' k" := (bind m (λ _, k)) (at level 100, right associativity) : sql_scope.
Open Scope sql_scope.

Section initialize.
Context (other_affinity : dbval → dbval) (fails : nat → option fault).

Abbreviation run s := (execute other_affinity fails s).
Abbreviation exists_table t := (exists_tab fails t).
Abbreviation mesh_column t := (has_mesh fails t).

(** The tables and the meshnet column.  The result says whether the identifier column
    of [message_map] is TEXT, and whether the meshnet column is there. *)
Definition create_tables : sql (bool * bool) :=
  run CreateLongnames ;;;
  run CreateShortnames ;;;
  run CreatePluginData ;;;
  run CreateMapIfMissing ;;;
  do! column_map := read_tab fails TMap in
  match column_map with
  | Some x =>
      if tb_mesh x then ret (tb_text x, true)
      else
        run AddMeshColumn ;;;
        do! column_map := read_tab fails TMap in
        match column_map with
        | Some x => ret (tb_text x, tb_mesh x)
        | None => ret (false, false)
        end
  | None => ret (false, false)
  end.

(** What an interrupted run left in the temporary tables; the result is [temp_exists]. *)
Definition recover_temp : sql bool :=
  do! temp_exists := exists_table TTemp in
  do! stale_table_exists := exists_table TStale in
  if stale_table_exists && negb temp_exists then
    run (Rename TStale TTemp) ;;;
    ret true
  else if stale_table_exists && temp_exists then
    do! temp_mesh := mesh_column TTemp in
    do! stale_mesh := mesh_column TStale in
    (if temp_mesh
     then if stale_mesh then run (Insert true TTemp TStale false WithMesh)
          else run (Insert true TTemp TStale false OmitMesh)
     else if stale_mesh then run (Insert true TMap TStale false WithMesh)
          else run (Insert true TTemp TStale false OmitMesh)) ;;;
    run (Drop TStale) ;;;
    ret temp_exists
  else ret temp_exists.

(** The rows of a side table into [message_map], identifiers cast to text; the statement
    depends on whether the side table has a meshnet column. *)
Definition insert_from (t : tname) : sql unit :=
  do! side_mesh := mesh_column t in
  run (Insert true TMap t true (if side_mesh then WithMesh else NullMesh)).

(** The temporary table into a [message_map] that is up to date. *)
Definition merge_temp (is_text temp_exists : bool) : sql bool :=
  if temp_exists && is_text then
    insert_from TTemp ;;;
    run (Drop TTemp) ;;;
    ret false
  else ret temp_exists.

(** The legacy table; the result is [legacy_exists]. *)
Definition merge_legacy (is_text : bool) : sql bool :=
  do! legacy_exists := exists_table TLegacy in
  if legacy_exists && is_text then
    insert_from TLegacy ;;;
    run (Drop TLegacy) ;;;
    ret false
  else ret legacy_exists.

(** [message_map] becomes the temporary table, and a new one takes its rows. *)
Definition move_aside (meshnet_column : bool) : sql unit :=
  run (Rename TMap TTemp) ;;;
  run CreateMap ;;;
  run (Insert false TMap TTemp true (if meshnet_column then WithMesh else NullMesh)).

(** What an earlier run left in the stale table, if anything; an error here is only
    logged. *)
Definition merge_stale (stale_temp_exists : bool) : sql unit :=
  if stale_temp_exists then
    do! merged_stale_temp := try_sql (
      do! stale_mesh := mesh_column TStale in
      run (Insert true TMap TStale false (if stale_mesh then WithMesh else NullMesh))) in
    if merged_stale_temp then run (Drop TStale) else ret tt
  else ret tt.

(** A [message_map] whose identifiers are not TEXT is rebuilt. *)
Definition rebuild_map (meshnet_column temp_exists legacy_exists : bool) : sql unit :=
  do! stale_temp_exists :=
    (if temp_exists then
       run (Drop TStale) ;;;
       run (Rename TTemp TStale) ;;;
       ret true
     else ret false) in
  move_aside meshnet_column ;;;
  (if legacy_exists then
     do! still := exists_table TLegacy in
     if still then insert_from TLegacy else ret tt
   else ret tt) ;;;
  run (Drop TTemp) ;;;
  merge_stale stale_temp_exists ;;;
  run (Drop TLegacy).

Definition _initialize : sql unit :=
  do! columns := create_tables in
  let '(is_text, meshnet_column) := columns in
  do! temp_exists := recover_temp in
  do! temp_exists := merge_temp is_text temp_exists in
  do! legacy_exists := merge_legacy is_text in
  (if is_text then ret tt else rebuild_map meshnet_column temp_exists legacy_exists) ;;;
  run CreateIndex.

(** [manager.run_sync(_initialize, write=True)]: commit, or roll back to what is on
    disk. *)
Definition initialize_database (d : db) : conn * bool :=
  match _initialize (open_conn d) with
  | (c, Some _) =>
      ({| cn_durable := cn_current c :: cn_durable c; cn_current := cn_current c;
          cn_in_transaction := false; cn_clock := cn_clock c |}, true)
  | (c, None) =>
      ({| cn_durable := cn_durable c; cn_current := on_disk c;
          cn_in_transaction := false; cn_clock := cn_clock c |}, false)
  end.
End initialize.

(** ** Well-formed databases and what they hold *)

(** The type of a table: events are unique, a table without a meshnet column carries
    no meshnet, and a TEXT column stores no integer. *)
Definition wf_tab (x : tab) : Prop :=
  NoDup (mr_event <$> tb_rows x) ∧
  (tb_mesh x = false → ∀ r, r ∈ tb_rows x → mr_meshnet r = None) ∧
  (tb_text x = true → ∀ r z, r ∈ tb_rows x → mr_id r ≠ DInt z).

Definition wf_db (d : db) : Prop := ∀ t x, get_tab t d = Some x → wf_tab x.

(** The events recorded in any of the four tables. *)
Definition all_events (d : db) : gset pystr :=
  events (d_map d) ∪ events (d_temp d) ∪ events (d_stale d) ∪ events (d_legacy d).

Lemma all_events_elem d e : e ∈ all_events d ↔ ∃ t, e ∈ events (get_tab t d).
Proof.
  unfold all_events. rewrite !elem_of_union. split.
  - intros [[[?|?]|?]|?]; [exists TMap|exists TTemp|exists TStale|exists TLegacy]; done.
  - intros [[] ?]; simpl in *; auto.
Qed.

#[export] Instance tname_eq_dec : EqDecision tname.
Proof. solve_decision. Defined.

Lemma get_set_tab t t' x d :
  get_tab t (set_tab t' x d) = if decide (t = t') then x else get_tab t d.
Proof. by destruct t, t'. Qed.

Lemma get_set_eq t x d : get_tab t (set_tab t x d) = x.
Proof. rewrite get_set_tab. by rewrite decide_True. Qed.

Lemma get_set_ne t t' x d : t ≠ t' → get_tab t (set_tab t' x d) = get_tab t d.
Proof. intros. rewrite get_set_tab. by rewrite decide_False. Qed.

Lemma wf_set_tab t x d :
  wf_db d → (∀ y, x = Some y → wf_tab y) → wf_db (set_tab t x d).
Proof.
  intros Hd Hx t' y. rewrite get_set_tab. case_decide; [apply Hx|apply Hd].
Qed.

Lemma events_elem x e : e ∈ events (Some x) ↔ ∃ r, r ∈ tb_rows x ∧ mr_event r = e.
Proof.
  unfold events. rewrite elem_of_list_to_set, list_elem_of_fmap. naive_solver.
Qed.

Lemma has_event_spec rows e : has_event rows e = true ↔ e ∈ (mr_event <$> rows).
Proof.
  unfold has_event. rewrite existsb_exists, list_elem_of_fmap. split.
  - intros (r & Hin & He). apply str_eqb_spec in He. exists r. by rewrite list_elem_of_In.
  - intros (r & -> & Hin). exists r. rewrite str_eqb_refl. by rewrite <- list_elem_of_In.
Qed.

(** *** INSERT OR IGNORE and INSERT *)

Lemma insert_rows_ignore new rows :
  NoDup (mr_event <$> rows) →
  ∃ added, insert_rows true rows new = Some (rows ++ added) ∧
    (∀ r, r ∈ added → r ∈ new) ∧ NoDup (mr_event <$> rows ++ added) ∧
    (∀ e, e ∈ (mr_event <$> rows ++ added) ↔ e ∈ (mr_event <$> rows) ∨ e ∈ (mr_event <$> new)).
Proof.
  revert rows. induction new as [|r new IH]; intros rows Hnd; cbn [insert_rows].
  - exists []. rewrite app_nil_r. split_and!; [done..|]. intros e. cbn. set_solver.
  - destruct (has_event rows (mr_event r)) eqn:He.
    + apply has_event_spec in He. destruct (IH rows Hnd) as (added & H1 & H2 & H3 & H4).
      exists added. split_and!; [done| |done|]; [set_solver|].
      intros e. rewrite H4, fmap_cons, elem_of_cons. naive_solver.
    + assert (Hr : mr_event r ∉ (mr_event <$> rows)) by (rewrite <- has_event_spec; congruence).
      destruct (IH (rows ++ [r])) as (added & H1 & H2 & H3 & H4).
      { rewrite fmap_app. apply NoDup_app. split; [done|]. cbn. split; [set_solver|].
        apply NoDup_singleton. }
      exists (r :: added). rewrite <- app_assoc in *. cbn [app] in *.
      split_and!; [done|set_solver|done|]. intros e. rewrite H4.
      rewrite fmap_app, fmap_cons, elem_of_app, !elem_of_cons. cbn. set_solver.
Qed.

Lemma insert_rows_plain new rows :
  NoDup (mr_event <$> rows ++ new) → insert_rows false rows new = Some (rows ++ new).
Proof.
  revert rows. induction new as [|r new IH]; intros rows Hnd; cbn [insert_rows].
  - by rewrite app_nil_r.
  - destruct (has_event rows (mr_event r)) eqn:He.
    + apply has_event_spec in He. rewrite fmap_app, fmap_cons in Hnd.
      apply NoDup_app in Hnd as (_ & H & _). destruct (H _ He). by left.
    + rewrite IH; rewrite <- app_assoc; done.
Qed.

Lemma copied_event dst c m r : ∀ aff, mr_event (copied aff dst c m r) = mr_event r.
Proof. done. Qed.

Section run.
Context (other_affinity : dbval → dbval) (fails : nat → option fault).

Lemma stored_text v z : stored other_affinity true v ≠ DInt z.
Proof. by destruct v. Qed.

Lemma copied_events (dst : tab) c m (rows : list mrow) :
  mr_event <$> (copied other_affinity dst c m <$> rows) = mr_event <$> rows.
Proof. by rewrite <- list_fmap_compose. Qed.

(** An insertion that the schema allows: the target keeps its rows in front, gets copies
    of rows of the source, and then has the events of both. *)
Lemma exec_insert_ignore dst src cast m d x y :
  wf_db d → get_tab dst d = Some x → get_tab src d = Some y →
  mesh_columns_exist x y m = true → (m = WithMesh → tb_mesh x = true) →
  ∃ added,
    let x' := {| tb_text := tb_text x; tb_mesh := tb_mesh x; tb_rows := tb_rows x ++ added |} in
    exec_stmt other_affinity (Insert true dst src cast m) d = Some (set_tab dst (Some x') d) ∧
    wf_tab x' ∧ events (Some x') = events (Some x) ∪ events (Some y) ∧
    (∀ r, r ∈ added → r ∈ (copied other_affinity x cast m <$> tb_rows y)).
Proof.
  intros Hwf Hx Hy Hm Hmesh. destruct (Hwf _ _ Hx) as (Hnd & Hn & Ht).
  destruct (insert_rows_ignore (copied other_affinity x cast m <$> tb_rows y) (tb_rows x) Hnd)
    as (added & H1 & H2 & H3 & H4).
  exists added. cbn [exec_stmt]. rewrite Hx, Hy, Hm, H1. cbv zeta. split_and!; [done|..|done].
  - split_and!; [done| |]; cbn [tb_mesh tb_text tb_rows].
    + intros Hf r [Hr|Hr]%elem_of_app; [auto|].
      apply H2, list_elem_of_fmap in Hr as (r0 & -> & _). cbn. destruct m; [|done..].
      by rewrite (Hmesh eq_refl) in Hf.
    + intros Hf r z [Hr|Hr]%elem_of_app; [auto|].
      apply H2, list_elem_of_fmap in Hr as (r0 & -> & _). cbn. rewrite Hf. apply stored_text.
  - apply set_eq. intros e. unfold events. cbn [tb_rows].
    rewrite elem_of_union, !elem_of_list_to_set, H4, copied_events. done.
Qed.
End run.

(** ** Reasoning about runs *)

Section triples.
Context (other_affinity : dbval → dbval) (fails : nat → option fault).

(** Some statement fails, or fails and takes the transaction with it. *)
Definition faulty : Prop := ∃ k, fails k ≠ None.
Definition rolled_back : Prop := ∃ k, fails k = Some RolledBack.

Lemma rolled_back_faulty : rolled_back → faulty.
Proof. intros [k Hk]. exists k. by rewrite Hk. Qed.

(** What never changes, on disk and in the connection; a transaction that is rolled back
    is only considered without a legacy table. *)
Definition holds_events (E : gset pystr) (d : db) : Prop :=
  wf_db d ∧ all_events d = E ∧ (rolled_back → d_legacy d = None).
Definition conn_inv (E : gset pystr) (c : conn) : Prop :=
  holds_events E (cn_current c) ∧ Forall (holds_events E) (cn_durable c).

Lemma conn_inv_disk E c : conn_inv E c → holds_events E (on_disk c).
Proof. intros [Hc Hd]. unfold on_disk. destruct (cn_durable c); [done|]. by apply Forall_cons in Hd as [? _]. Qed.

(** From a state where [P] holds, the run keeps the invariant and ends with [R], or
    a statement was made to fail and [X] holds, unless the transaction is gone. *)
Definition triple {A} (P : db → Prop) (m : sql A) (R : A → db → Prop) (X : db → Prop) : Prop :=
  ∀ E c, conn_inv E c → P (cn_current c) →
    let '(c', r) := m c in
    conn_inv E c' ∧
    match r with
    | Some a => R a (cn_current c')
    | None => faulty ∧ (X (cn_current c') ∨ rolled_back)
    end.

Lemma after_fault_inv E c k f b (X : db → Prop) :
  fails k = Some f → conn_inv E c → X (cn_current c) →
  conn_inv E (after_fault f b c) ∧ faulty ∧ (X (cn_current (after_fault f b c)) ∨ rolled_back).
Proof.
  intros Hk Hc HX. split; [|split; [exists k; by rewrite Hk|]]; destruct f.
  - exact Hc.
  - split; [by apply conn_inv_disk|]. apply Hc.
  - by left.
  - right. by exists k.
Qed.

Lemma triple_ret {A} (a : A) P R X : (∀ d, P d → R a d) → triple P (ret a) R X.
Proof. intros H E c Hc Hp. split; [done|]. by apply H. Qed.

Lemma triple_bind {A B} P (m : sql A) (f : A → sql B) R' R X :
  triple P m R' X → (∀ a, triple (R' a) (f a) R X) → triple P (bind m f) R X.
Proof.
  intros Hm Hf E c Hc Hp. unfold bind. specialize (Hm E c Hc Hp).
  destruct (m c) as [c' [a|]]; [|done]. destruct Hm as [Hc' Ha]. by apply (Hf a E).
Qed.

Lemma triple_weaken {A} P P' (m : sql A) R R' (X X' : db → Prop) :
  triple P' m R' X' → (∀ d, P d → P' d) → (∀ a d, R' a d → R a d) → (∀ d, X' d → X d) →
  triple P m R X.
Proof.
  intros Hm HP HR HX E c Hc Hp. specialize (Hm E c Hc (HP _ Hp)).
  destruct (m c) as [c' [a|]]; [naive_solver|]. destruct Hm as (? & ? & [?|?]); auto.
Qed.

(** No statement of the program makes a legacy table. *)
Definition no_legacy_made (s : stmt) : Prop := match s with Rename _ TLegacy => False | _ => True end.

Lemma exec_legacy s d d' :
  no_legacy_made s → exec_stmt other_affinity s d = Some d' → d_legacy d = None → d_legacy d' = None.
Proof.
  destruct s as [| | | | | |src dst|t|oi dst src cast m|]; intros Hs E Hl; cbn in E.
  all: try (destruct dst); try (destruct t); repeat case_match; try done; simplify_eq; try done;
    try (by destruct src); cbn in *; congruence.
Qed.

Lemma triple_execute P s (R : unit → db → Prop) (X : db → Prop) :
  no_legacy_made s →
  (∀ d, wf_db d → P d →
     ∃ d', exec_stmt other_affinity s d = Some d' ∧ wf_db d' ∧ all_events d' = all_events d ∧
           R tt d') →
  (∀ d, P d → X d) →
  triple P (execute other_affinity fails s) R X.
Proof.
  intros Hno H HX E c Hinv Hp. unfold execute.
  destruct (fails (cn_clock c)) as [f|] eqn:Hf.
  - eapply after_fault_inv; [done|done|]. by apply HX.
  - destruct Hinv as [(Hwf & He & Hl) Hd].
    destruct (H _ Hwf Hp) as (d' & Hs & Hwf' & He' & HR). rewrite Hs. split; [|done].
    assert (holds_events E d') as Hd'.
    { split_and!; [done|congruence|]. intros Hr. eapply exec_legacy; [done|done|by apply Hl]. }
    split; [done|]. cbn [cn_durable]. destruct (_ || _); [done|]. by constructor.
Qed.

Lemma triple_read P t (R : option tab → db → Prop) (X : db → Prop) :
  (∀ d, P d → R (get_tab t d) d) → (∀ d, P d → X d) →
  triple P (read_tab fails t) R X.
Proof.
  intros H HX E c Hc Hp. unfold read_tab. destruct (fails (cn_clock c)) as [f|] eqn:Hf.
  - eapply after_fault_inv; [done|done|]. by apply HX.
  - split; [done|]. by apply H.
Qed.

Definition is_there (x : option tab) : bool := match x with Some _ => true | None => false end.
Definition mesh_there (x : option tab) : bool :=
  match x with Some x => tb_mesh x | None => false end.

Lemma triple_exists P t (X : db → Prop) :
  (∀ d, P d → X d) →
  triple P (exists_tab fails t) (λ b d, P d ∧ b = is_there (get_tab t d)) X.
Proof.
  intros HX. eapply triple_bind.
  - apply (triple_read _ _ (λ x d, P d ∧ x = get_tab t d)); auto.
  - intros x. apply triple_ret. intros d [? ->]. by destruct (get_tab t d).
Qed.

Lemma triple_mesh P t (X : db → Prop) :
  (∀ d, P d → X d) →
  triple P (has_mesh fails t) (λ b d, P d ∧ b = mesh_there (get_tab t d)) X.
Proof.
  intros HX. eapply triple_bind.
  - apply (triple_read _ _ (λ x d, P d ∧ x = get_tab t d)); auto.
  - intros x. apply triple_ret. intros d [? ->]. by destruct (get_tab t d).
Qed.

Lemma triple_try P (m : sql unit) (R : unit → db → Prop) X X' :
  triple P m R X →
  triple P (try_sql m) (λ b d, if b : bool then R tt d else faulty ∧ (X d ∨ rolled_back)) X'.
Proof.
  intros Hm E c Hc Hp. unfold try_sql. specialize (Hm E c Hc Hp).
  destruct (m c) as [c' [[]|]]; done.
Qed.

(** Cases on a fact about the faults, and what is then known of the legacy table. *)
Lemma triple_or {A} P (Q : Prop) (m : sql A) R X :
  triple P m R X → (Q → triple (λ _, True) m R X) → triple (λ d, P d ∨ Q) m R X.
Proof. intros HP HQ E c Hc [H|H]; [by apply HP | by apply HQ]. Qed.

Lemma triple_no_legacy {A} (m : sql A) R X :
  rolled_back → triple (λ d, d_legacy d = None) m R X → triple (λ _, True) m R X.
Proof. intros Hr H E c Hc _. apply H; [done|]. destruct Hc as [(_ & _ & Hl) _]. auto. Qed.

Lemma triple_rolled_index (R : unit → db → Prop) :
  rolled_back → (∀ d, R tt d) → triple (λ _, True) (execute other_affinity fails CreateIndex) R (λ _, True).
Proof.
  intros Hr HR E c Hc _. unfold execute. destruct (fails (cn_clock c)) as [f|] eqn:Hf.
  - by apply (after_fault_inv E c (cn_clock c) f _ (λ _, True)).
  - cbn [exec_stmt]. destruct (d_map (cn_current c)).
    + split; [|done]. destruct Hc as [Hc Hd]. split; [done|]. cbn. destruct (_ || _); [done|]. by constructor.
    + split; [done|]. split; [by apply rolled_back_faulty | by left].
Qed.

(** *** Statements *)

Lemma all_events_insert dst src x d :
  events x = events (get_tab dst d) ∪ events (get_tab src d) →
  all_events (set_tab dst x d) = all_events d.
Proof.
  intros H. apply set_eq. intros e. rewrite !all_events_elem. split.
  - intros [t Ht]. rewrite get_set_tab in Ht. case_decide as Hd; [|by exists t].
    rewrite H, elem_of_union in Ht. destruct Ht; eauto.
  - intros [t Ht]. exists t. rewrite get_set_tab. case_decide; [|done]. subst.
    rewrite H. set_solver.
Qed.

(** Dropping a table whose events are elsewhere. *)
Lemma exec_drop t d :
  wf_db d → (∀ e, e ∈ events (get_tab t d) → ∃ t', t' ≠ t ∧ e ∈ events (get_tab t' d)) →
  wf_db (set_tab t None d) ∧ all_events (set_tab t None d) = all_events d.
Proof.
  intros Hwf H. split; [by apply wf_set_tab|]. apply set_eq. intros e.
  rewrite !all_events_elem. split.
  - intros [t' Ht']. rewrite get_set_tab in Ht'. case_decide; [set_solver|eauto].
  - intros [t' Ht']. destruct (decide (t' = t)) as [->|].
    + destruct (H e Ht') as (t'' & ? & ?). exists t''. by rewrite get_set_ne.
    + exists t'. by rewrite get_set_ne.
Qed.

Lemma exec_rename src dst x d :
  wf_db d → src ≠ dst → get_tab src d = Some x → get_tab dst d = None →
  let d' := set_tab dst (Some x) (set_tab src None d) in
  exec_stmt other_affinity (Rename src dst) d = Some d' ∧ wf_db d' ∧ all_events d' = all_events d.
Proof.
  intros Hwf Hne Hs Hd. cbv zeta. cbn [exec_stmt]. rewrite Hs, Hd. split; [done|]. split.
  - apply wf_set_tab; [by apply wf_set_tab|]. intros y [= <-]. by eapply Hwf.
  - apply set_eq. intros e. rewrite !all_events_elem. split.
    + intros [t Ht]. rewrite !get_set_tab in Ht. repeat case_decide; subst.
      * exists src. by rewrite Hs.
      * set_solver.
      * by exists t.
    + intros [t Ht]. destruct (decide (t = src)) as [->|].
      * exists dst. rewrite get_set_eq. by rewrite <- Hs.
      * exists t. rewrite !get_set_tab. repeat case_decide; subst; try done.
        rewrite Hd in Ht. set_solver.
Qed.

(** A statement that touches none of the four tables. *)
Lemma triple_aside P s (R : unit → db → Prop) (X : db → Prop) :
  no_legacy_made s →
  (∀ d, P d → ∃ d', exec_stmt other_affinity s d = Some d' ∧
                    (∀ t, get_tab t d' = get_tab t d) ∧ R tt d') →
  (∀ d, P d → X d) →
  triple P (execute other_affinity fails s) R X.
Proof.
  intros Hno H HX. apply triple_execute; [done| |done]. intros d Hwf Hp.
  destruct (H d Hp) as (d' & He & Ht & HR). exists d'. split_and!; [done|..|done].
  - intros t x. rewrite Ht. apply Hwf.
  - apply set_eq. intros e. rewrite !all_events_elem. by setoid_rewrite Ht.
Qed.

Lemma triple_insert P dst src cast m (R : unit → db → Prop) (X : db → Prop) :
  (∀ d, P d → ∃ x y, get_tab dst d = Some x ∧ get_tab src d = Some y ∧
     mesh_columns_exist x y m = true ∧ (m = WithMesh → tb_mesh x = true) ∧
     ∀ added,
       let x' := {| tb_text := tb_text x; tb_mesh := tb_mesh x; tb_rows := tb_rows x ++ added |} in
       events (Some x') = events (Some x) ∪ events (Some y) → R tt (set_tab dst (Some x') d)) →
  (∀ d, P d → X d) →
  triple P (execute other_affinity fails (Insert true dst src cast m)) R X.
Proof.
  intros H HX. apply triple_execute; [done| |done]. intros d Hwf Hp.
  destruct (H d Hp) as (x & y & Hx & Hy & Hm & Hmesh & HR).
  destruct (exec_insert_ignore other_affinity dst src cast m d x y Hwf Hx Hy Hm Hmesh)
    as (added & He & Hwf' & Hev & _).
  eexists. split; [exact He|]. split; [apply wf_set_tab; [done|by intros ? [= <-]]|].
  split; [|by apply HR]. apply (all_events_insert dst src). by rewrite Hx, Hy.
Qed.

Lemma triple_drop P t (R : unit → db → Prop) (X : db → Prop) :
  (∀ d, P d → (∀ e, e ∈ events (get_tab t d) → ∃ t', t' ≠ t ∧ e ∈ events (get_tab t' d)) ∧
              R tt (set_tab t None d)) →
  (∀ d, P d → X d) →
  triple P (execute other_affinity fails (Drop t)) R X.
Proof.
  intros H HX. apply triple_execute; [done| |done]. intros d Hwf Hp. destruct (H d Hp) as [Hcov HR].
  eexists. split; [done|]. destruct (exec_drop t d Hwf Hcov). done.
Qed.

Lemma triple_rename P src dst (R : unit → db → Prop) (X : db → Prop) :
  src ≠ dst → dst ≠ TLegacy →
  (∀ d, P d → get_tab dst d = None ∧ ∃ x, get_tab src d = Some x ∧
                R tt (set_tab dst (Some x) (set_tab src None d))) →
  (∀ d, P d → X d) →
  triple P (execute other_affinity fails (Rename src dst)) R X.
Proof.
  intros Hne Hl H HX. apply triple_execute; [by destruct dst| |done]. intros d Hwf Hp.
  destruct (H d Hp) as (Hd & x & Hx & HR). eexists.
  destruct (exec_rename src dst x d Hwf Hne Hx Hd) as (He & ? & ?). done.
Qed.
End triples.

(** ** The phases *)

(** The same row, identifiers compared as text. *)
Definition same_row (r r' : mrow) : Prop :=
  mr_event r' = mr_event r ∧ cast_text (mr_id r') = cast_text (mr_id r) ∧
  mr_room r' = mr_room r ∧ mr_text r' = mr_text r ∧ mr_meshnet r' = mr_meshnet r.
Definition kept (rows : list mrow) (x : tab) : Prop :=
  ∀ r, r ∈ rows → ∃ r', r' ∈ tb_rows x ∧ same_row r r'.

Lemma kept_app rows x added :
  kept rows x →
  kept rows {| tb_text := tb_text x; tb_mesh := tb_mesh x; tb_rows := tb_rows x ++ added |}.
Proof.
  intros H r Hr. destruct (H r Hr) as (r' & Hr' & Hs). exists r'. split; [|done].
  cbn. apply elem_of_app. by left.
Qed.

(** The tables other than [message_map] are there, and [message_map] has a meshnet column, the
    type of identifiers [b], and still the rows [rows]. *)
Definition mapped (rows : list mrow) (b : bool) (d : db) : Prop :=
  d_longnames d && d_shortnames d && d_plugin_data d = true ∧
  ∃ x, d_map d = Some x ∧ tb_text x = b ∧ tb_mesh x = true ∧ kept rows x.

Lemma mapped_set rows b t x d : t ≠ TMap → mapped rows b d → mapped rows b (set_tab t x d).
Proof. by destruct t. Qed.

Definition rows_of (x : option tab) : list mrow :=
  match x with Some x => tb_rows x | None => [] end.

Section phases.
Context (other_affinity : dbval → dbval) (fails : nat → option fault) (rows : list mrow).
Abbreviation triple := (triple fails).
Abbreviation any := (λ _ : db, True).

Lemma create_tables_spec (x0 : option tab) :
  rows = rows_of x0 →
  triple (λ d, d_map d = x0) (create_tables other_affinity fails)
    (λ r d, r.2 = true ∧ mapped rows r.1 d) any.
Proof.
  intros Hrows. unfold create_tables.
  eapply (triple_bind _ _ _ _ (λ _ d, d_map d = x0 ∧ d_longnames d = true)).
  { apply triple_aside; [done| |done]. intros d Hd. eexists. split; [done|]. split; [by intros []|done]. }
  intros _.
  eapply (triple_bind _ _ _ _ (λ _ d, d_map d = x0 ∧ d_longnames d && d_shortnames d = true)).
  { apply triple_aside; [done| |done]. intros d [Hd Hn]. eexists. split; [done|].
    split; [by intros []|]. cbn. by rewrite Hn. }
  intros _.
  eapply (triple_bind _ _ _ _
    (λ _ d, d_map d = x0 ∧ d_longnames d && d_shortnames d && d_plugin_data d = true)).
  { apply triple_aside; [done| |done]. intros d [Hd Hn]. eexists. split; [done|].
    split; [by intros []|]. cbn. by rewrite Hn. }
  intros _.
  eapply (triple_bind _ _ _ _
    (λ _ d, d_longnames d && d_shortnames d && d_plugin_data d = true ∧
            ∃ x, d_map d = Some x ∧ kept rows x)).
  { apply triple_execute; [done| |done]. intros d Hwf [Hd Hn]. cbn [exec_stmt].
    destruct (d_map d) as [x|] eqn:Hm.
    - eexists. split_and!; try done. exists x. split; [done|]. subst. intros r Hr. exists r.
      split; [done|]. by split_and!.
    - eexists. split; [done|]. split; [|split; [|split; [exact Hn|]]].
      + apply wf_set_tab; [done|]. intros y [= <-]. split_and!; [constructor|done|].
        intros _ r z Hr. by apply elem_of_nil in Hr.
      + apply (all_events_insert TMap TMap). simpl. rewrite Hm. set_solver.
      + eexists. split; [done|]. subst. intros r Hr. by apply elem_of_nil in Hr. }
  intros _.
  eapply (triple_bind _ _ _ _
    (λ cm d, cm = d_map d ∧ d_longnames d && d_shortnames d && d_plugin_data d = true ∧
            ∃ x, d_map d = Some x ∧ kept rows x)).
  { apply triple_read; [|done]. done. }
  intros [x|]; [|intros E c Hc (Hm & _ & x & Hx & _); congruence].
  destruct (tb_mesh x) eqn:Hx.
  { apply triple_ret. intros d (Hm & Hn & y & Hy & Hk). split; [done|]. split; [done|].
    exists y. rewrite <- Hm in Hy. simplify_eq. done. }
  eapply (triple_bind _ _ _ _ (λ _ d, mapped rows (tb_text x) d)).
  { apply triple_execute; [done| |done]. intros d Hwf (Hm & Hn & y & Hy & Hk). cbn [exec_stmt].
    rewrite <- Hm, Hx. rewrite <- Hm in Hy. injection Hy as <-. eexists. split; [done|].
    split; [|split].
    - apply wf_set_tab; [done|]. intros y [= <-].
      destruct (Hwf TMap x) as (H1 & _ & H3); [done|]. by split_and!.
    - apply (all_events_insert TMap TMap). simpl. rewrite <- Hm. set_solver.
    - split; [done|]. eexists. by split_and!. }
  intros _. eapply (triple_bind _ _ _ _ (λ cm d, cm = d_map d ∧ mapped rows (tb_text x) d)).
  { by apply triple_read. }
  intros [y|]; apply triple_ret.
  - intros d (Hm & Hn & z & Hz & Ht & Hme & Hk). rewrite <- Hm in Hz. injection Hz as <-.
    split; [done|]. split; [done|]. exists y. by split_and!.
  - intros d (Hm & _ & z & Hz & _). congruence.
Qed.

Lemma mapped_insert b d x added :
  mapped rows b d → d_map d = Some x →
  mapped rows b (set_tab TMap (Some {| tb_text := tb_text x; tb_mesh := tb_mesh x;
                                       tb_rows := tb_rows x ++ added |}) d).
Proof.
  intros (Hn & y & Hy & Ht & Hm & Hk) Hx. rewrite Hx in Hy. injection Hy as <-.
  split; [done|]. eexists. split_and!; [done..|]. by apply kept_app.
Qed.

(** Every event of the table is in [message_map] too. *)
Definition covered (t : tname) (d : db) : Prop := events (get_tab t d) ⊆ events (d_map d).

Lemma covered_elsewhere t d :
  t ≠ TMap → covered t d →
  ∀ e, e ∈ events (get_tab t d) → ∃ t', t' ≠ t ∧ e ∈ events (get_tab t' d).
Proof. intros Ht Hc e He. exists TMap. split; [done|]. by apply Hc. Qed.

Lemma recover_temp_spec b :
  triple (mapped rows b) (recover_temp other_affinity fails)
    (λ te d, mapped rows b d ∧ d_stale d = None ∧ te = is_there (d_temp d)) any.
Proof.
  unfold recover_temp. eapply triple_bind; [by apply triple_exists|]. intros te.
  eapply triple_bind; [by apply triple_exists|]. intros se. cbn beta.
  destruct se, te; cbn [andb negb].
  - eapply triple_bind; [by apply triple_mesh|]. intros tm.
    eapply triple_bind; [by apply triple_mesh|]. intros sm. cbn beta.
    eapply (triple_bind _ _ _ _ (λ _ d, mapped rows b d ∧ true = is_there (d_temp d) ∧
      events (d_stale d) ⊆ events (d_temp d) ∪ events (d_map d))).
    + destruct tm, sm; apply triple_insert; try done;
        intros d ((((Hmap & Ht) & Hs) & Htm) & Hsm); pose proof Hmap as (_ & x & Hx & _ & Hxm & _);
        simpl in Ht, Hs, Htm, Hsm;
        destruct (d_temp d) as [tmp|] eqn:Etmp; try done;
        destruct (d_stale d) as [st|] eqn:Est; try done; simpl in Htm, Hsm.
      * exists tmp, st. split; [done|]. split; [done|]. split; [cbn; by rewrite <- Htm, <- Hsm|].
        split; [done|]. intros added x' Hev. split; [by apply mapped_set|]. split; [done|].
        cbn [set_tab d_stale d_temp d_map]. rewrite Est, Hev. set_solver.
      * exists tmp, st. split; [done|]. split; [done|]. split; [done|].
        split; [done|]. intros added x' Hev. split; [by apply mapped_set|]. split; [done|].
        cbn [set_tab d_stale d_temp d_map]. rewrite Est, Hev. set_solver.
      * exists x, st. split; [done|]. split; [done|]. split; [cbn; by rewrite Hxm, <- Hsm|].
        split; [done|]. intros added x' Hev. split; [by apply mapped_insert|].
        cbn [set_tab d_stale d_temp d_map]. rewrite Etmp. split; [done|].
        rewrite Est, Hev. set_solver.
      * exists tmp, st. split; [done|]. split; [done|]. split; [done|].
        split; [done|]. intros added x' Hev. split; [by apply mapped_set|]. split; [done|].
        cbn [set_tab d_stale d_temp d_map]. rewrite Est, Hev. set_solver.
    + intros ?. eapply (triple_bind _ _ _ _ (λ _ d, mapped rows b d ∧ d_stale d = None ∧
        true = is_there (d_temp d))); [|intros ?; by apply triple_ret].
      apply triple_drop; [|done]. intros d (Hm & Ht & Hc). split.
      * intros e He%Hc. apply elem_of_union in He as [?|?]; [by exists TTemp|by exists TMap].
      * split; [by apply mapped_set|done].
  - eapply (triple_bind _ _ _ _ (λ _ d, mapped rows b d ∧ d_stale d = None ∧
        true = is_there (d_temp d))); [|intros ?; by apply triple_ret].
    apply triple_rename; [done|done| |done]. intros d ((Hm & Ht) & Hs). simpl in Ht, Hs.
    simpl. destruct (d_temp d); [done|]. split; [done|].
    destruct (d_stale d) as [x|]; [|done]. exists x. split; [done|]. split; [|done].
    by apply mapped_set, mapped_set.
  - apply triple_ret. intros d ((Hm & Ht) & Hs). simpl in Hs. destruct (d_stale d); [done|].
    split; [done|]. by simpl in Ht.
  - apply triple_ret. intros d ((Hm & Ht) & Hs). simpl in Hs. destruct (d_stale d); [done|].
    split; [done|]. by simpl in Ht.
Qed.

(** A side table copied into [message_map]. *)
Lemma copy_into_map_spec t b cast (I : db → Prop) :
  t ≠ TMap → (∀ x d, events (d_map d) ⊆ events x → I d → I (set_tab TMap x d)) →
  triple (λ d, mapped rows b d ∧ I d ∧ is_there (get_tab t d) = true)
    (do! side_mesh := has_mesh fails t in
     execute other_affinity fails
       (Insert true TMap t cast (if side_mesh then WithMesh else NullMesh)))
    (λ _ d, mapped rows b d ∧ I d ∧ covered t d ∧ is_there (get_tab t d) = true)
    (λ d, mapped rows b d ∧ I d ∧ is_there (get_tab t d) = true).
Proof.
  intros Ht HI. eapply triple_bind; [by apply triple_mesh|]. intros mesh. cbn beta.
  apply triple_insert; [|by intros d [? _]].
  intros d [(Hm & Hi & Hthere) Hmesh]. pose proof Hm as (_ & x & Hx & _ & Hxm & _).
  destruct (get_tab t d) as [y|] eqn:Hy; [|done]. simpl in Hmesh.
  exists x, y. split; [done|]. split; [done|].
  split; [destruct mesh; cbn; rewrite Hxm; done|].
  split; [by destruct mesh|]. intros added x' Hev. split; [by apply mapped_insert|].
  split; [apply HI; [rewrite Hev, Hx; set_solver|done]|]. rewrite get_set_ne, Hy by done. split; [|done].
  unfold covered. rewrite get_set_ne, Hy by done. cbn [set_tab d_map]. rewrite Hev. set_solver.
Qed.

Lemma drop_covered_spec t b (I : db → Prop) :
  t ≠ TMap → (∀ d, I d → I (set_tab t None d)) →
  triple (λ d, mapped rows b d ∧ I d ∧ covered t d)
    (execute other_affinity fails (Drop t))
    (λ _ d, mapped rows b d ∧ I d ∧ get_tab t d = None) any.
Proof.
  intros Ht HI. apply triple_drop; [|done]. intros d (Hm & Hi & Hc).
  split; [by apply covered_elsewhere|]. split; [by apply mapped_set|]. split; [auto|].
  apply get_set_eq.
Qed.

Lemma absorb_spec {A} t b (I : db → Prop) (a : A) :
  t ≠ TMap → (∀ x d, events (d_map d) ⊆ events x → I d → I (set_tab TMap x d)) → (∀ d, I d → I (set_tab t None d)) →
  triple (λ d, mapped rows b d ∧ I d ∧ is_there (get_tab t d) = true)
    (insert_from other_affinity fails t ;;;
     execute other_affinity fails (Drop t) ;;; ret a)
    (λ r d, r = a ∧ mapped rows b d ∧ I d ∧ get_tab t d = None) any.
Proof.
  intros Ht HI HI'. eapply triple_bind.
  { eapply triple_weaken; [by apply (copy_into_map_spec t b true I)|..]; [by auto| |done].
    intros a' d H. exact H. }
  intros ?. cbn beta. eapply (triple_bind _ _ _ _ (λ _ d, mapped rows b d ∧ I d ∧ get_tab t d = None)).
  { eapply triple_weaken; [by apply (drop_covered_spec t b I)|..]; [|by auto..].
    by intros d (? & ? & ? & ?). }
  intros ?. by apply triple_ret.
Qed.

Lemma merge_temp_spec b te :
  triple (λ d, mapped rows b d ∧ d_stale d = None ∧ te = is_there (d_temp d))
    (merge_temp other_affinity fails b te)
    (λ te' d, mapped rows b d ∧ d_stale d = None ∧ te' = is_there (d_temp d) ∧
              (b = true → d_temp d = None)) any.
Proof.
  unfold merge_temp. destruct (te && b) eqn:E.
  - apply andb_prop in E as [-> ->].
    eapply triple_weaken;
      [by apply (absorb_spec TTemp true (λ d, d_stale d = None) false)|..]; [|..|done].
    + intros d (? & ? & Hl). split_and!; [done..|]. by rewrite Hl.
    + intros r d (-> & ? & ? & Hl). simpl in Hl. rewrite Hl. done.
  - apply triple_ret. intros d (? & ? & Hl). split_and!; [done..|]. intros ->.
    rewrite andb_true_r in E. subst. destruct (d_temp d); done.
Qed.

Lemma merge_legacy_spec b te :
  triple (λ d, mapped rows b d ∧ d_stale d = None ∧ te = is_there (d_temp d) ∧
               (b = true → d_temp d = None))
    (merge_legacy other_affinity fails b)
    (λ le d, mapped rows b d ∧ (d_stale d = None ∧ te = is_there (d_temp d) ∧
               (b = true → d_temp d = None)) ∧
             le = is_there (d_legacy d) ∧ (b = true → d_legacy d = None)) any.
Proof.
  unfold merge_legacy. eapply triple_bind; [by apply triple_exists|]. intros le. cbn beta.
  destruct (le && b) eqn:E.
  - apply andb_prop in E as [-> ->].
    eapply triple_weaken;
      [apply (absorb_spec TLegacy true (λ d, d_stale d = None ∧ te = is_there (d_temp d) ∧
               (true = true → d_temp d = None)) false); done|..]; [|..|done].
    + intros d (Hp & Hl). split; [apply Hp|]. split; [apply Hp|]. by rewrite Hl.
    + intros r d (-> & ? & ? & Hl). simpl in Hl. rewrite Hl. done.
  - apply triple_ret. intros d (Hp & Hl). split; [apply Hp|]. split; [apply Hp|]. split; [done|]. intros ->.
    rewrite andb_true_r in E. subst. simpl in Hl. destruct (d_legacy d); done.
Qed.

(** The table out of the way, an empty [message_map] in its place, and the rows back with
    text identifiers. *)
Lemma move_aside_spec (I : db → Prop) :
  (∀ t x d, t = TMap ∨ t = TTemp → I d → I (set_tab t x d)) →
  triple (λ d, mapped rows false d ∧ d_temp d = None ∧ I d)
    (move_aside other_affinity fails true)
    (λ _ d, mapped rows true d ∧ covered TTemp d ∧ I d) any.
Proof.
  intros HI. unfold move_aside.
  eapply (triple_bind _ _ _ _ (λ _ d, (d_longnames d && d_shortnames d && d_plugin_data d = true ∧
    d_map d = None ∧ I d) ∧ ∃ x, d_temp d = Some x ∧ tb_mesh x = true ∧ kept rows x)).
  { apply triple_rename; [done|done| |done]. intros d ((Hn & x & Hx & _ & Hm & Hk) & Ht & Hi).
    split; [done|]. exists x. split; [done|].
    split; [split_and!; [done..|]; apply HI; auto|]. by exists x. }
  intros ?. eapply (triple_bind _ _ _ _ (λ _ d, (d_longnames d && d_shortnames d && d_plugin_data d = true ∧
    d_map d = Some new_map ∧ I d) ∧ ∃ x, d_temp d = Some x ∧ tb_mesh x = true ∧ kept rows x)).
  { apply triple_execute; [done| |done]. intros d Hwf ((Hn & Hm & Hi) & Hx). cbn [exec_stmt].
    rewrite Hm. eexists. split; [done|]. split; [|split; [|split]].
    - apply wf_set_tab; [done|]. intros y [= <-]. split_and!; [constructor|done|].
      intros _ r z Hr. by apply elem_of_nil in Hr.
    - apply (all_events_insert TMap TMap). simpl. rewrite Hm. set_solver.
    - split_and!; [done..|]. apply HI; auto.
    - done. }
  intros ?. apply triple_execute; [done| |done].
  intros d Hwf ((Hn & Hm & Hi) & x & Hx & Hxm & Hk). cbn [exec_stmt get_tab].
  rewrite Hm, Hx. cbn [mesh_columns_exist new_map tb_mesh tb_text tb_rows]. rewrite Hxm. cbn [andb].
  destruct (Hwf TTemp x Hx) as (Hnd & _ & _).
  rewrite insert_rows_plain by (cbn [app]; by rewrite copied_events).
  cbn [app]. set (new := copied other_affinity new_map true WithMesh <$> tb_rows x).
  assert (Hev : events (Some {| tb_text := true; tb_mesh := true; tb_rows := new |}) = events (Some x)).
  { unfold events, new. cbn [tb_rows]. by rewrite copied_events. }
  eexists. split; [done|]. split; [|split; [|split; [|split]]].
  - apply wf_set_tab; [done|]. intros y [= <-]. split_and!; [|done|].
    + unfold new. cbn [tb_rows]. by rewrite copied_events.
    + intros _ r z Hr. apply list_elem_of_fmap in Hr as (r0 & -> & _). apply stored_text.
  - apply (all_events_insert TMap TTemp). rewrite Hev. simpl. rewrite Hm, Hx. set_solver.
  - split; [done|]. eexists. split_and!; [done..|]. intros r Hr.
    destruct (Hk r Hr) as (r' & Hr' & He & Hid & Hroom & Htx & Hmn).
    exists (copied other_affinity new_map true WithMesh r').
    split; [apply list_elem_of_fmap; by exists r'|]. split_and!; try done. cbn.
    by destruct (mr_id r').
  - unfold covered. cbn [set_tab d_map get_tab d_temp]. rewrite Hev, Hx. set_solver.
  - apply HI; auto.
Qed.

Lemma stale_merge_spec se :
  triple (λ d, mapped rows true d ∧ (covered TLegacy d ∧ d_temp d = None) ∧ se = is_there (d_stale d))
    (merge_stale other_affinity fails se)
    (λ _ d, (mapped rows true d ∧ (covered TLegacy d ∧ d_temp d = None) ∧
             (d_stale d = None ∨ faulty fails)) ∨ rolled_back fails) any.
Proof.
  assert (HI : ∀ x d, events (d_map d) ⊆ events x → covered TLegacy d ∧ d_temp d = None →
    covered TLegacy (set_tab TMap x d) ∧ d_temp (set_tab TMap x d) = None).
  { intros x d Hx [Hc Ht]. split; [|done]. unfold covered in *. cbn [set_tab d_map get_tab d_legacy].
    set_solver. }
  unfold merge_stale. destruct se.
  2:{ apply triple_ret. intros d (Hm & Hi & Hs). left. split; [done|]. split; [done|]. left.
      by destruct (d_stale d). }
  eapply triple_bind.
  { apply triple_try. eapply triple_weaken;
      [apply (copy_into_map_spec TStale true false (λ d, covered TLegacy d ∧ d_temp d = None)); done|..].
    - intros d (Hm & Hi & Hs). split; [exact Hm|]. by split.
    - intros a d H. exact H.
    - intros d H. exact H. }
  intros merged. cbn beta. destruct merged.
  - eapply triple_weaken;
      [apply (drop_covered_spec TStale true (λ d, covered TLegacy d ∧ d_temp d = None)); done|..].
    + intros d (Hm & Hi & Hc & _). done.
    + intros a d (Hm & Hi & Hs). left. split; [done|]. split; [done|]. by left.
    + done.
  - apply triple_ret. intros d [Hk [(Hm & Hi & _)|Hr]]; [left|by right].
    split; [done|]. split; [done|]. by right.
Qed.

(** The end of a run, unless a transaction was rolled back. *)
Definition rebuilt (d : db) : Prop :=
  mapped rows true d ∧ d_temp d = None ∧ d_legacy d = None ∧ (d_stale d = None ∨ faulty fails).

Lemma rebuild_map_spec te le :
  triple (λ d, mapped rows false d ∧ (d_stale d = None ∧ te = is_there (d_temp d)) ∧
               le = is_there (d_legacy d))
    (rebuild_map other_affinity fails true te le)
    (λ _ d, rebuilt d ∨ rolled_back fails) any.
Proof.
  unfold rebuild_map.
  eapply (triple_bind _ _ _ _ (λ se d, mapped rows false d ∧ d_temp d = None ∧
            (se = is_there (d_stale d) ∧ le = is_there (d_legacy d)))).
  { destruct te.
    - eapply (triple_bind _ _ _ _ (λ _ d, mapped rows false d ∧ (d_stale d = None ∧
                true = is_there (d_temp d)) ∧ le = is_there (d_legacy d))).
      { apply triple_drop; [|done]. intros d (Hm & (Hs & Ht) & Hl). simpl. rewrite Hs.
        split; [intros e He; set_solver|]. by split; [apply mapped_set|]. }
      intros ?. eapply (triple_bind _ _ _ _ (λ _ d, mapped rows false d ∧ d_temp d = None ∧
            (true = is_there (d_stale d) ∧ le = is_there (d_legacy d)))); [|intros ?; by apply triple_ret].
      apply triple_rename; [done|done| |done]. intros d (Hm & (Hs & Ht) & Hl). split; [done|].
      simpl. destruct (d_temp d) as [x|]; [|done]. exists x. split; [done|].
      split; [by apply mapped_set, mapped_set|done].
    - apply triple_ret. intros d (Hm & (Hs & Ht) & Hl). rewrite Hs.
      destruct (d_temp d); done. }
  intros se. cbn beta.
  set (J d := se = is_there (d_stale d) ∧ le = is_there (d_legacy d)).
  eapply (triple_bind _ _ _ _ (λ _ d, mapped rows true d ∧ covered TTemp d ∧ J d)).
  { apply (move_aside_spec J). by intros t x d [->| ->]. }
  intros ?. cbn beta.
  eapply (triple_bind _ _ _ _ (λ _ d, mapped rows true d ∧
    (covered TLegacy d ∧ se = is_there (d_stale d)) ∧ covered TTemp d)).
  { destruct le.
    - eapply triple_bind; [by apply triple_exists|]. intros still. cbn beta.
      destruct still.
      + eapply triple_weaken;
          [apply (copy_into_map_spec TLegacy true true
             (λ d, covered TTemp d ∧ se = is_there (d_stale d))); [done|]|..].
        * intros x d Hx [Hc Hs]. split; [|done]. unfold covered in *.
          cbn [set_tab d_map get_tab d_temp]. set_solver.
        * intros d ((Hm & Hc & Hs & Hl) & _). done.
        * intros r1 d1 (Hm & (Hc & Hs) & Hl & _). done.
        * done.
      + apply triple_ret. intros d ((Hm & Hc & Hs & Hl) & Hf). simpl in Hl, Hf. congruence.
    - apply triple_ret. intros d (Hm & Hc & Hs & Hl). split; [done|]. split; [|done].
      split; [|done]. unfold covered. simpl. destruct (d_legacy d); [done|]. set_solver. }
  intros ?. cbn beta.
  eapply (triple_bind _ _ _ _ (λ _ d, mapped rows true d ∧
    (covered TLegacy d ∧ se = is_there (d_stale d)) ∧ d_temp d = None)).
  { eapply triple_weaken; [apply (drop_covered_spec TTemp true
      (λ d, covered TLegacy d ∧ se = is_there (d_stale d))); done|..]; done. }
  intros ?. cbn beta. eapply triple_bind.
  { eapply triple_weaken; [apply (stale_merge_spec se)|..]; [|by intros r1 d1 H; exact H|done].
    intros d (Hm & (Hc & Hs) & Ht). done. }
  intros ?. cbn beta. apply triple_or.
  - eapply triple_weaken; [apply (drop_covered_spec TLegacy true
      (λ d, d_temp d = None ∧ (d_stale d = None ∨ faulty fails))); done|..]; [|..|done].
    + intros d (Hm & (Hc & Ht) & Hs). done.
    + intros r1 d1 (Hm & (Ht & Hs) & Hl). by left.
  - intros Hr. apply triple_no_legacy; [done|]. apply triple_drop; [|done].
    intros d Hl. simpl. rewrite Hl. split; [set_solver|by right].
Qed.

Lemma initialize_spec (x0 : option tab) :
  rows = rows_of x0 →
  triple (λ d, d_map d = x0) (_initialize other_affinity fails)
    (λ _ d, rebuilt d ∨ rolled_back fails) any.
Proof.
  intros Hrows. unfold _initialize. eapply triple_bind; [by apply (create_tables_spec x0)|].
  intros [b mesh]. cbn [fst snd].
  destruct mesh; [|intros E c Hc [? _]; done].
  eapply triple_bind.
  { eapply triple_weaken; [apply (recover_temp_spec b)|..]; [by intros d [_ H]| |done].
    intros r1 d1 H. exact H. }
  intros te. cbn beta. eapply triple_bind; [apply (merge_temp_spec b te)|].
  intros te'. cbn beta. eapply triple_bind; [apply (merge_legacy_spec b te')|].
  intros le. cbn beta.
  eapply (triple_bind _ _ _ _ (λ _ d, rebuilt d ∨ rolled_back fails)).
  - destruct b.
    + apply triple_ret. intros d (Hm & (Hs & _ & Ht) & _ & Hl). left. split_and!; auto.
    + eapply triple_weaken; [apply (rebuild_map_spec te' le)|..]; [|done..].
      intros d (Hm & (Hs & Ht & _) & Hl & _). done.
  - intros ?. apply triple_or.
    + apply triple_aside; [done| |done]. intros d (Hm & H).
      pose proof Hm as (_ & x & Hx & _). cbn [exec_stmt]. rewrite Hx. exists d. split_and!; [done|done|]. by left.
    + intros Hr. apply triple_rolled_index; [done|]. by right.
Qed.
End phases.

(** ** Properties of [initialize_database] *)

(** The schema a completed initialisation leaves. *)
Definition up_to_date (d : db) (x : tab) : Prop :=
  d_longnames d && d_shortnames d && d_plugin_data d = true ∧
  d_map d = Some x ∧ tb_text x = true ∧ tb_mesh x = true ∧
  d_temp d = None ∧ d_stale d = None ∧ d_legacy d = None.

Section properties.
Context (other_affinity : dbval → dbval).

(** No statement fails. *)
Definition no_fault (k : nat) : option fault := None.

(** What a run may assume: there is no legacy table, or no transaction is rolled back. *)
Definition legacy_safe (fails : nat → option fault) (d : db) : Prop :=
  d_legacy d = None ∨ ∀ k, fails k ≠ Some RolledBack.

Lemma run_spec fails d :
  wf_db d → legacy_safe fails d →
  let '(c, ok) := initialize_database other_affinity fails d in
  conn_inv fails (all_events d) c ∧
  (if ok then rebuilt fails (rows_of (d_map d)) (on_disk c) ∨ rolled_back fails else faulty fails).
Proof.
  intros Hwf Hsafe. unfold initialize_database.
  pose proof (initialize_spec other_affinity fails _ (d_map d) eq_refl (all_events d) (open_conn d)) as H.
  assert (Hd : holds_events fails (all_events d) d).
  { split_and!; [done|done|]. intros [k Hk]. destruct Hsafe as [?|Hno]; [done|]. by destruct (Hno k). }
  specialize (H (conj Hd (proj2 (Forall_cons _ _ _) (conj Hd (Forall_nil_2 _)))) eq_refl).
  destruct (_initialize other_affinity fails (open_conn d)) as [c [[]|]].
  - destruct H as [[Hc Hdur] H]. split; [|exact H]. split; [done|]. by constructor.
  - destruct H as [Hinv [H _]]. split; [|done]. split; [by apply conn_inv_disk|]. apply Hinv.
Qed.

(** C11: no message is forgotten by a migration: whichever statements fail and
    wherever the process is killed, every state the database goes through on disk
    is well formed and records, over [message_map] and its temporary and legacy tables, exactly the
    events that were recorded at the start.  This is for a database without a legacy
    table, or for a run in which no failing statement makes SQLite roll the whole
    transaction back (full disk, I/O error, no memory): otherwise the events of the
    legacy table can be lost, see [rolled_back_merge_loses_legacy]. *)
Theorem migration_keeps_events (fails : nat → option fault) (d d' : db) :
  wf_db d → (d_legacy d = None ∨ ∀ k, fails k ≠ Some RolledBack) →
  d' ∈ cn_durable (initialize_database other_affinity fails d).1 →
  wf_db d' ∧ all_events d' = all_events d.
Proof.
  intros Hwf Hsafe Hin. pose proof (run_spec fails d Hwf Hsafe) as H.
  destruct (initialize_database other_affinity fails d) as [c ok].
  destruct H as [[_ Hdur] _]. rewrite Forall_forall in Hdur. by destruct (Hdur d' Hin) as (? & ? & _).
Qed.

Lemma run_success d :
  wf_db d →
  let '(c, ok) := initialize_database other_affinity no_fault d in
  ok = true ∧ ∃ x, up_to_date (on_disk c) x ∧ events (Some x) = all_events d ∧
                   kept (rows_of (d_map d)) x.
Proof.
  intros Hwf. assert (¬ faulty no_fault) as Hno by (intros [k Hk]; done).
  assert (legacy_safe no_fault d) as Hsafe by (by right).
  pose proof (run_spec no_fault d Hwf Hsafe) as H.
  destruct (initialize_database other_affinity no_fault d) as [c ok] eqn:E.
  destruct H as [Hinv H]. destruct ok; [|done].
  destruct H as [((Hn & x & Hx & Ht & Hm & Hk) & Htemp & Hleg & Hst)|Hr];
    [|by destruct Hno; apply rolled_back_faulty].
  destruct Hst as [Hst|?]; [|done]. split; [done|].
  exists x. split; [by split_and!|]. split; [|done].
  destruct (conn_inv_disk _ _ _ Hinv) as (_ & <- & _).
  unfold all_events. rewrite Hx, Htemp, Hst, Hleg. set_solver.
Qed.

(** An initialisation in which no statement is made to fail completes, from
    any well-formed combination of tables that earlier versions or interrupted runs
    left: [message_map] then has TEXT identifiers and a meshnet column, holds every
    event of all four tables, keeps each row it had, and the other three tables are gone. *)
Theorem migration_completes (d : db) :
  wf_db d →
  let '(c, ok) := initialize_database other_affinity no_fault d in
  ok = true ∧ ∃ x, up_to_date (on_disk c) x ∧ events (Some x) = all_events d ∧
                   kept (rows_of (d_map d)) x.
Proof. apply run_success. Qed.

(** C39: a run that follows a crash finishes the migration: started on any state the
    interrupted run had put on disk, it brings the schema up to date with every
    event recorded before the crash.  No statement fails in the second run; in the
    interrupted one any may, but when there is a legacy table none of those failures is one
    at which SQLite rolls the whole transaction back. *)
Theorem migration_recovers (fails : nat → option fault) (d d' : db) :
  wf_db d → (d_legacy d = None ∨ ∀ k, fails k ≠ Some RolledBack) →
  d' ∈ cn_durable (initialize_database other_affinity fails d).1 →
  let '(c, ok) := initialize_database other_affinity no_fault d' in
  ok = true ∧ ∃ x, up_to_date (on_disk c) x ∧ events (Some x) = all_events d.
Proof.
  intros Hwf Hsafe Hin. pose proof (run_spec fails d Hwf Hsafe) as H.
  destruct (initialize_database other_affinity fails d) as [c0 ok0].
  destruct H as [[_ Hdur] _]. rewrite Forall_forall in Hdur. destruct (Hdur d' Hin) as (Hwf' & <- & _).
  pose proof (run_success d' Hwf') as H.
  destruct (initialize_database other_affinity no_fault d') as [c ok].
  destruct H as (Hok & x & Hu & He & _). split; [done|]. by exists x.
Qed.

(** An initialisation of a database that is up to date changes nothing. *)
Theorem migration_idempotent (d : db) (x : tab) :
  up_to_date d x →
  let '(c, ok) := initialize_database other_affinity no_fault d in
  ok = true ∧ Forall (eq d) (cn_durable c).
Proof.
  intros (Hn & Hx & Ht & Hm & Htemp & Hst & Hleg).
  destruct d as [l s p m t st lg]; cbn in *. subst.
  apply andb_prop in Hn as [[-> ->]%andb_prop ->].
  destruct x as [tx me rows]; cbn in *; subst. vm_compute. split; [reflexivity|].
  repeat (apply Forall_cons_2; [reflexivity|]). apply Forall_nil_2.
Qed.
End properties.

(** ** Witnesses *)

(** An interrupted rebuild: integer identifiers in [message_map], and a temporary table
    without a meshnet column. *)
Definition demo_row (e : string) (id : Z) : mrow :=
  {| mr_event := u e; mr_id := DInt id; mr_room := u "!r"; mr_text := u "t"; mr_meshnet := None |}.
Definition demo_db : db :=
  {| d_longnames := true; d_shortnames := false; d_plugin_data := false;
     d_map := Some {| tb_text := false; tb_mesh := false; tb_rows := [demo_row "$1" 7] |};
     d_temp := Some {| tb_text := false; tb_mesh := false;
                       tb_rows := [demo_row "$1" 8; demo_row "$2" 9] |};
     d_stale := None; d_legacy := None |}.

(** The twelfth statement after the first takes the transaction with it. *)
Definition demo_faults (k : nat) : option fault := if decide (k = 12%nat) then Some RolledBack else None.

Lemma demo_db_wf : wf_db demo_db.
Proof.
  intros [] x; cbn; intros [= <-].
  - split_and!; [apply NoDup_singleton| |done]. intros _ r ->%list_elem_of_singleton. done.
  - split_and!; [|intros _ r Hr; apply elem_of_cons in Hr as [Hr|Hr%list_elem_of_singleton]; by subst|done]. cbn. apply NoDup_cons.
    split; [|apply NoDup_singleton]. intros H%list_elem_of_singleton. vm_compute in H. done.
Qed.

(** The row of [message_map] wins over that of the temporary table, and both events are
    there. *)
Lemma demo_migration :
  (λ r, (mr_event r, mr_id r)) <$>
    rows_of (d_map (on_disk (initialize_database id no_fault demo_db).1))
  = [(u "$1", DText (u "7")); (u "$2", DText (u "9"))].
Proof. vm_compute. reflexivity. Qed.

Lemma migration_keeps_events_witness :
  let c := (initialize_database id demo_faults demo_db).1 in
  wf_db (on_disk c) ∧ all_events (on_disk c) = all_events demo_db.
Proof.
  cbv zeta.
  apply (migration_keeps_events id demo_faults demo_db _ demo_db_wf); [by left|].
  vm_compute. by left.
Defined.

Lemma migration_completes_witness :
  let '(c, ok) := initialize_database id no_fault demo_db in
  ok = true ∧ ∃ x, up_to_date (on_disk c) x ∧ events (Some x) = all_events demo_db ∧
                   kept (rows_of (d_map demo_db)) x.
Proof. apply (migration_completes id demo_db demo_db_wf). Defined.

Lemma migration_recovers_witness :
  let d' := on_disk (initialize_database id demo_faults demo_db).1 in
  let '(c, ok) := initialize_database id no_fault d' in
  ok = true ∧ ∃ x, up_to_date (on_disk c) x ∧ events (Some x) = all_events demo_db.
Proof.
  apply (migration_recovers id demo_faults demo_db _ demo_db_wf); [by left|].
  vm_compute. by left.
Defined.

(** ** What modelling showed *)

(** A legacy table beside the interrupted rebuild. *)
Definition legacy_db : db :=
  set_tab TLegacy (Some {| tb_text := false; tb_mesh := true; tb_rows := [demo_row "$3" 5] |}) demo_db.

(** The event is recorded in one of the tables. *)
Definition recorded (e : pystr) (d : db) : bool :=
  existsb (λ t, has_event (rows_of (get_tab t d)) e) [TMap; TTemp; TStale; TLegacy].

(** The error that is swallowed when the preserved table is merged has rolled the transaction
    back: the legacy table, whose copy is gone, is then dropped for good, and the
    initialisation reports success. *)
Lemma rolled_back_merge_loses_legacy :
  let '(c, ok) := initialize_database id (λ i, if Nat.eqb i 20 then Some RolledBack else None) legacy_db in
  recorded (u "$3") legacy_db = true ∧ ok = true ∧ recorded (u "$3") (on_disk c) = false.
Proof. vm_compute. done. Qed.
