(* ===== verification/DbConfig.v ===== *)
(** * Database options, the path of the database, and plugin data

    Models the configuration side of [src/mmrelay/db_utils.py]: parsing of the options,
    the statements [_create_connection] of [db_runtime.py] issues for them (with the checks
    that keep configured values from changing a statement), the cached path, the
    cached manager, and the [plugin_data] table.

    [other_str] and [float_str] stand for [str()] of values and of floats, [repr_str] for
    [repr()]; [exists_path] is the file system, [default_dir] and [legacy_dirs] what [paths.py]
    resolves.  JSON text is not modelled: the signature of a configuration is the value that is
    dumped, and a row of [plugin_data] carries the text that [json.dumps] gave. *)

From Stdlib Require Import String QArith.
From stdpp Require Import base tactics list numbers gmap sorting.
From S2P Require Import Prelude PyStr PyValue Prefixes NameSync.
Open Scope Z_scope.

(** ** Options *)

Definition DEFAULT_ENABLE_WAL : bool := true.
Definition DEFAULT_BUSY_TIMEOUT_MS : Z := 5000.
Definition DEFAULT_EXTRA_PRAGMAS : pydict :=
  [(u "synchronous", VStr (u "NORMAL")); (u "temp_store", VStr (u "MEMORY"))].
Definition ENV_BOOL_TRUE_VALUES : list pystr := [u "true"; u "1"; u "yes"; u "on"].
Definition ENV_BOOL_FALSE_VALUES : list pystr := [u "false"; u "0"; u "no"; u "off"].
Definition DATABASE_FILENAME : pystr := u "meshtastic.sqlite".
Definition LEGACY_DATA_SUBDIR : pystr := u "data".
Definition LEGACY_DATABASE_SUBDIR : pystr := u "database".

Definition _parse_bool (value : pyval) (dflt : bool) : bool :=
  match value with
  | VBool b => b
  | VStr s =>
      let lowered := lower (strip s) in
      if bool_decide (lowered ∈ ENV_BOOL_TRUE_VALUES) then true
      else if bool_decide (lowered ∈ ENV_BOOL_FALSE_VALUES) then false
      else dflt
  | _ => dflt
  end.

Definition type_or_value_error (e : pyexc) : bool :=
  match e with TypeError | ValueError => true | _ => false end.

Definition _parse_int (value : pyval) (dflt : Z) : res Z :=
  catching type_or_value_error dflt (int_of_val value).

Definition _normalize_database_section (section : pyval) : pydict :=
  match section with VDict d => d | _ => [] end.

(** [config.get(key)] of the global configuration. *)
Definition config_get (config : pyval) (key : pystr) : pyval :=
  match config with VDict d => dget_none d key | _ => VNone end.

Record db_options := { do_wal : bool; do_busy_timeout_ms : Z; do_pragmas : pydict }.

Definition _resolve_database_options (config : pyval) : res db_options :=
  let database_cfg := _normalize_database_section (config_get config (u "database")) in
  let legacy_cfg := _normalize_database_section (config_get config (u "db")) in
  let enable_wal :=
    _parse_bool (dget_or database_cfg (u "enable_wal")
                   (dget_or legacy_cfg (u "enable_wal") (VBool DEFAULT_ENABLE_WAL)))
      DEFAULT_ENABLE_WAL in
  let raw_busy_timeout_ms :=
    dget_or database_cfg (u "busy_timeout_ms")
      (dget_or legacy_cfg (u "busy_timeout_ms") (VInt DEFAULT_BUSY_TIMEOUT_MS)) in
  let! busy_timeout_ms :=
    _parse_int (if is_bool raw_busy_timeout_ms then VInt DEFAULT_BUSY_TIMEOUT_MS
                else raw_busy_timeout_ms) DEFAULT_BUSY_TIMEOUT_MS in
  let pragmas_cfg := dget_or database_cfg (u "pragmas") (dget_none legacy_cfg (u "pragmas")) in
  let extra_pragmas :=
    match pragmas_cfg with
    | VDict d => foldl (λ acc kv, dset acc kv.1 kv.2) DEFAULT_EXTRA_PRAGMAS d
    | _ => DEFAULT_EXTRA_PRAGMAS
    end in
  Ok {| do_wal := enable_wal; do_busy_timeout_ms := busy_timeout_ms; do_pragmas := extra_pragmas |}.

(** ** Statements of a new connection *)

Definition is_alpha (c : Z) : bool := between 65 90 c || between 97 122 c.
Definition is_ascii_digit (c : Z) : bool := between 48 57 c.
(** [^[a-zA-Z_][a-zA-Z0-9_]*$], matched in full *)
Definition SQLITE_PRAGMA_NAME_PATTERN (s : pystr) : bool :=
  match s with
  | [] => false
  | c :: s => (is_alpha c || (c =? 95)) &&
              forallb (λ c, is_alpha c || is_ascii_digit c || (c =? 95)) s
  end.
(** [^(?!.*--)[a-zA-Z0-9_,.\-\\ ]+$], matched in full *)
Definition safe_char (c : Z) : bool :=
  is_alpha c || is_ascii_digit c || (c =? 95) || (c =? 44) || (c =? 46) || (c =? 45) ||
  (c =? 92) || (c =? 32).
Definition SQLITE_PRAGMA_SAFE_STRING_VALUE_PATTERN (s : pystr) : bool :=
  negb (contains s (u "--")) && nonempty s && forallb safe_char s.

Definition PRAGMA_JOURNAL_MODE_WAL : pystr := u "PRAGMA journal_mode=WAL".
Definition PRAGMA_FOREIGN_KEYS_ON : pystr := u "PRAGMA foreign_keys=ON".
Definition ends_with_backslash (s : pystr) : bool :=
  match last s with Some c => c =? 92 | None => false end.

Section config.
Context (float_str : pyfloat → pystr).

Definition pragma_statement (pragma : pystr) (value : pyval) : res pystr :=
  if negb (SQLITE_PRAGMA_NAME_PATTERN pragma) then Raise ValueError else
  let set_to v := u "PRAGMA " ++ pragma ++ u " = " ++ v in
  match value with
  | VStr s =>
      if negb (SQLITE_PRAGMA_SAFE_STRING_VALUE_PATTERN s) || ends_with_backslash s
      then Raise ValueError
      else Ok (set_to (u "'" ++ s ++ u "'"))
  | VBool b => Ok (set_to (if b then u "ON" else u "OFF"))
  | VInt z => Ok (set_to (str_of_int z))
  | VFloat f => Ok (set_to (float_str f))
  | _ => Raise TypeError
  end.

Fixpoint extra_statements (d : pydict) : res (list pystr) :=
  match d with
  | [] => Ok []
  | (pragma, value) :: d =>
      let! s := pragma_statement pragma value in
      let! rest := extra_statements d in
      Ok (s :: rest)
  end.

(** The statements [_create_connection] executes, in order; on an exception the
    connection is closed. *)
Definition connection_statements (o : db_options) : res (list pystr) :=
  let! extra := extra_statements (do_pragmas o) in
  Ok ((if do_busy_timeout_ms o =? 0 then []
       else [u "PRAGMA busy_timeout = " ++ str_of_int (do_busy_timeout_ms o)]) ++
      (if do_wal o then [PRAGMA_JOURNAL_MODE_WAL] else []) ++
      [PRAGMA_FOREIGN_KEYS_ON] ++ extra).
End config.

(** ** Version of the library *)

Fixpoint split_on (c : Z) (s : pystr) : list pystr :=
  match s with
  | [] => [[]]
  | d :: s =>
      if d =? c then [] :: split_on c s
      else match split_on c s with
           | p :: ps => (d :: p) :: ps
           | [] => [[d]]
           end
  end.

(** [version_info]: [sqlite3.sqlite_version_info]; [version]: [sqlite3.sqlite_version]. *)
Definition _get_sqlite_runtime_version_info (version_info : pyval) (version : pystr)
    : pyval * pyval * pyval :=
  let from_string :=
    let part n := VInt (default 0 (split_on 46 version !! n ≫= int_of_str)) in
    (part 0%nat, part 1%nat, part 2%nat) in
  match version_info with
  | VSeq KTuple (a :: b :: c :: _) =>
      if is_int a && is_int b && is_int c then (a, b, c) else from_string
  | _ => from_string
  end.

(** ** Signature of the configuration *)

(** Equality of the JSON texts of two canonical values: a bool, an int and a float are
    written differently. *)
Fixpoint json_eqb (a b : pyval) {struct a} : bool :=
  match a, b with
  | VNone, VNone => true
  | VBool x, VBool y => Bool.eqb x y
  | VInt x, VInt y => x =? y
  | VFloat (FFin p), VFloat (FFin q) => Qeq_bool p q
  | VFloat (FInf m), VFloat (FInf n) => Bool.eqb m n
  | VFloat FNan, VFloat FNan => true
  | VStr s, VStr t => str_eqb s t
  | VSeq _ l, VSeq _ m =>
      (fix go (l m : list pyval) : bool :=
         match l, m with
         | [], [] => true
         | x :: l, y :: m => json_eqb x y && go l m
         | _, _ => false
         end) l m
  | VDict d, VDict e =>
      (fix go (d e : pydict) : bool :=
         match d, e with
         | [], [] => true
         | (k, x) :: d, (k', y) :: e => str_eqb k k' && json_eqb x y && go d e
         | _, _ => false
         end) d e
  | _, _ => false
  end.

Definition signature_eqb (a b : option pyval) : bool :=
  match a, b with
  | None, None => true
  | Some a, Some b => json_eqb a b
  | _, _ => false
  end.

Section signature.
Context (other_str repr_str : pyval → pystr).

Definition key_le {A} (a b : pystr * A) : Prop := str_le a.1 b.1.
#[local] Instance key_le_dec {A} : RelDecision (@key_le A) := λ a b, str_le_dec a.1 b.1.
Definition sort_by_key {A} (l : list (pystr * A)) : list (pystr * A) := merge_sort key_le l.

(** [sorted(items)] before the values are converted gives the same list as after, since the order
    depends on the keys only. *)
Fixpoint _canonicalize_signature_value (value : pyval) : pyval :=
  match value with
  | VNone | VBool _ | VInt _ | VFloat _ | VStr _ => value
  | VDict d =>
      VDict (sort_by_key
        ((fix go (d : pydict) : pydict :=
            match d with
            | [] => []
            | (k, v) :: d => (k, _canonicalize_signature_value v) :: go d
            end) d))
  | VSeq KSet l =>
      VSeq KList (snd <$> sort_by_key
        ((fix go (l : list pyval) : list (pystr * pyval) :=
            match l with
            | [] => []
            | v :: l => (repr_str v, _canonicalize_signature_value v) :: go l
            end) l))
  | VSeq KList l | VSeq KTuple l =>
      VSeq KList
        ((fix go (l : list pyval) : list pyval :=
            match l with
            | [] => []
            | v :: l => _canonicalize_signature_value v :: go l
            end) l)
  | VSeq KFrozenset _ | VBytes _ | VObj _ =>
      VDict [(u "__type__", VStr (type_name value)); (u "__repr__", VStr (repr_str value))]
  end.

Definition _build_database_config_signature (raw_config : pyval) : option pyval :=
  match raw_config with
  | VDict d =>
      Some (_canonicalize_signature_value
        (VDict [(u "database", VDict (_normalize_database_section (dget_none d (u "database"))));
                (u "db", VDict (_normalize_database_section (dget_none d (u "db"))))]))
  | _ => None
  end.

(** ** The path of the database *)

(** The three module variables of the cache. *)
Record path_cache := {
  pc_path : option pystr; pc_logged : bool; pc_hash : option pyval }.

Definition clear_db_path_cache : path_cache :=
  {| pc_path := None; pc_logged := false; pc_hash := None |}.

(** [os.path.join(dir, name)] on POSIX for a relative name. *)
Definition path_join (dir name : pystr) : pystr :=
  match last dir with
  | None => name
  | Some c => if c =? 47 then dir ++ name else dir ++ u "/" ++ name
  end.

(** The path set in a section, when it is usable. *)
Definition section_path (section : pydict) : option pystr :=
  match dget section (u "path") with
  | Some (VStr ((_ :: _) as s)) => Some s
  | _ => None
  end.

(** Where versions with another layout kept the database, in a directory. *)
Definition legacy_candidates (legacy_dir : pystr) : list pystr :=
  [path_join legacy_dir DATABASE_FILENAME;
   path_join (path_join legacy_dir LEGACY_DATA_SUBDIR) DATABASE_FILENAME;
   path_join (path_join legacy_dir LEGACY_DATABASE_SUBDIR) DATABASE_FILENAME].

(** The resolution itself; the second component tells whether it is one of the paths that are
    announced in the log. *)
Definition resolve_db_path (config : pyval) (database_dir : pystr) (exists_path : pystr → bool)
    (deprecation_window_active : bool) (legacy_dirs : list pystr) : pystr * bool :=
  let configured :=
    match config with
    | VDict d =>
        match section_path (_normalize_database_section (dget_none d (u "database"))) with
        | Some p => Some p
        | None => section_path (_normalize_database_section (dget_none d (u "db")))
        end
    | _ => None
    end in
  match configured with
  | Some p => (p, true)
  | None =>
      let default_path := path_join database_dir DATABASE_FILENAME in
      if negb (exists_path default_path) && deprecation_window_active then
        match List.find exists_path (legacy_dirs ≫= legacy_candidates) with
        | Some candidate => (candidate, true)
        | None => (default_path, false)
        end
      else (default_path, false)
  end.

Definition get_db_path (config : pyval) (database_dir : pystr) (exists_path : pystr → bool)
    (deprecation_window_active : bool) (legacy_dirs : list pystr) (c : path_cache)
    : path_cache * pystr :=
  let current_config_hash := _build_database_config_signature config in
  let same := signature_eqb current_config_hash (pc_hash c) in
  match pc_path c with
  | Some p =>
      if same then (c, p) else
      let '(p, announced) := resolve_db_path config database_dir exists_path
                               deprecation_window_active legacy_dirs in
      ({| pc_path := Some p; pc_logged := announced; pc_hash := current_config_hash |}, p)
  | None =>
      let '(p, announced) := resolve_db_path config database_dir exists_path
                               deprecation_window_active legacy_dirs in
      ({| pc_path := Some p;
          pc_logged := (if same then pc_logged c else false) || announced;
          pc_hash := current_config_hash |}, p)
  end.
End signature.

(** ** The manager *)

(** A manager is known by the number of its construction; [mc_signature] is the path and the
    options it was made for. *)
Record manager_cache := {
  mc_manager : option nat; mc_signature : option (pystr * db_options) }.

Definition options_eqb (a b : pystr * db_options) : bool :=
  str_eqb a.1 b.1 && eqb (do_wal a.2) (do_wal b.2) &&
  (do_busy_timeout_ms a.2 =? do_busy_timeout_ms b.2) &&
  py_eqb (VDict (do_pragmas a.2)) (VDict (do_pragmas b.2)).

(** [created]: the manager that [DatabaseManager(...)] makes, or the exception it raises.  The
    second component is the manager that is closed afterwards, the third the result. *)
Definition _get_db_manager (signature : pystr * db_options) (created : res nat) (c : manager_cache)
    : manager_cache * option nat * res nat :=
  let current :=
    match mc_manager c, mc_signature c with
    | Some m, Some s => if options_eqb s signature then Some m else None
    | _, _ => None
    end in
  match current with
  | Some m => (c, None, Ok m)
  | None =>
      match created with
      | Ok m =>
          ({| mc_manager := Some m; mc_signature := Some signature |}, mc_manager c, Ok m)
      | Raise e =>
          match mc_manager c with
          | None => (c, None, Raise e)
          | Some old => (c, None, Ok old)
          end
      end
  end.

(** The second component is the manager to close. *)
Definition _reset_db_manager (c : manager_cache) : manager_cache * option nat :=
  match mc_manager c with
  | Some m => ({| mc_manager := None; mc_signature := None |}, Some m)
  | None => (c, None)
  end.

(** ** Plugin data *)

Abbreviation plugin_table := (gmap (pystr * pystr) pystr).

Section plugin_data.
Context (other_str : pyval → pystr).

(** [payload]: what [json.dumps] gave, None when the data is not serializable. *)
Definition store_plugin_data (err : bool) (plugin_name : pystr) (meshtastic_id : pyval)
    (payload : option pystr) (t : plugin_table) : plugin_table :=
  match payload with
  | None => t
  | Some payload =>
      if err then t else <[(plugin_name, to_str other_str meshtastic_id) := payload]> t
  end.

Definition delete_plugin_data (err : bool) (plugin_name : pystr) (meshtastic_id : pyval)
    (t : plugin_table) : plugin_table :=
  if err then t else delete (plugin_name, to_str other_str meshtastic_id) t.

(** [loads]: [json.loads], None on a decoding error. *)
Definition get_plugin_data_for_node (loads : pystr → option pyval) (err : bool)
    (plugin_name : pystr) (meshtastic_id : pyval) (t : plugin_table) : pyval :=
  if err then VSeq KList [] else
  let text := default (u "[]") (t !! (plugin_name, to_str other_str meshtastic_id)) in
  default (VSeq KList []) (loads text).

(** The rows of a plugin, in the order of the table. *)
Definition get_plugin_data (err : bool) (plugin_name : pystr) (t : plugin_table) : list pystr :=
  if err then []
  else (map_to_list (filter (λ kv, kv.1.1 = plugin_name) t)).*2.
End plugin_data.

(** ** The statements of a connection *)

(** The characters of a statement: none ends it, opens a comment block or a string in
    double quotes. *)
Definition statement_char (c : Z) : bool := safe_char c || (c =? 39) || (c =? 61).
Definition quotes (s : pystr) : nat := length (filter (λ c, c = 39) s).

Lemma quotes_app s t : quotes (s ++ t) = (quotes s + quotes t)%nat.
Proof. unfold quotes. by rewrite filter_app, length_app. Qed.

Lemma quotes_safe s : forallb safe_char s = true → quotes s = 0%nat.
Proof.
  intros H. unfold quotes. induction s as [|c s IH]; [done|]. cbn [forallb] in H.
  apply andb_prop in H as [Hc Hs]. rewrite filter_cons_False; [auto|]. by intros ->.
Qed.

Lemma forallb_impl (f g : Z → bool) s :
  (∀ c, f c = true → g c = true) → forallb f s = true → forallb g s = true.
Proof. intros H. rewrite !forallb_forall. auto. Qed.

Lemma safe_statement s : forallb safe_char s = true → forallb statement_char s = true.
Proof. apply forallb_impl. intros c Hc. unfold statement_char. by rewrite Hc. Qed.

Lemma name_safe s : SQLITE_PRAGMA_NAME_PATTERN s = true → forallb safe_char s = true.
Proof.
  destruct s as [|c s]; [done|]. cbn [SQLITE_PRAGMA_NAME_PATTERN forallb].
  intros [Hc Hs]%andb_prop. apply andb_true_intro. split.
  - unfold safe_char. destruct (is_alpha c); [done|]. cbn in Hc. by rewrite Hc, orb_true_r.
  - revert Hs. apply forallb_impl. intros d Hd. unfold safe_char. by rewrite Hd.
Qed.

Lemma str_of_int_safe z : forallb safe_char (str_of_int z) = true.
Proof.
  unfold str_of_int. destruct (str_of_int_digits (Z.abs z)) as (Ha & _); [lia|].
  assert (Hd : forallb safe_char (dec_digits (S (Z.to_nat (Z.log2 (Z.abs z)))) (Z.abs z) []) = true).
  { apply forallb_forall. intros c Hc. apply list_elem_of_In in Hc.
    unfold ascii_digits in Ha. rewrite Forall_forall in Ha. specialize (Ha c Hc).
    unfold safe_char, is_ascii_digit, between.
    replace ((48 <=? c) && (c <=? 57)) with true by lia. by rewrite orb_true_r. }
  destruct (z <? 0); [cbn [forallb]|]; by rewrite Hd.
Qed.

Section properties.
Context (float_str : pyfloat → pystr).

(** What a statement may look like: safe characters only, and either no string or one. *)
Definition contained (s : pystr) : Prop :=
  forallb statement_char s = true ∧ (quotes s = 0%nat ∨ quotes s = 2%nat).

Lemma pragma_statement_contained pragma value s :
  (∀ f, value = VFloat f → forallb safe_char (float_str f) = true) →
  pragma_statement float_str pragma value = Ok s → contained s.
Proof.
  intros Hf. unfold pragma_statement.
  destruct (SQLITE_PRAGMA_NAME_PATTERN pragma) eqn:Hn; [|done]. apply name_safe in Hn.
  assert (Hset : ∀ v, forallb statement_char v = true → (quotes v = 0 ∨ quotes v = 2)%nat →
            contained (u "PRAGMA " ++ pragma ++ u " = " ++ v)).
  { intros v Hv Hq. unfold contained. rewrite !forallb_app, Hv, (safe_statement _ Hn).
    split; [done|]. rewrite !quotes_app, (quotes_safe pragma Hn). exact Hq. }
  assert (Hsafe : ∀ v, forallb safe_char v = true →
            contained (u "PRAGMA " ++ pragma ++ u " = " ++ v)).
  { intros v Hv. apply Hset; [by apply safe_statement|]. left. by apply quotes_safe. }
  destruct value as [|b|z|f|t|b|k l|d|c]; try done.
  - intros [= <-]. apply Hsafe. by destruct b.
  - intros [= <-]. apply Hsafe, str_of_int_safe.
  - intros [= <-]. apply Hsafe. by apply Hf.
  - cbn [negb]. destruct (SQLITE_PRAGMA_SAFE_STRING_VALUE_PATTERN t) eqn:Ht; [|done].
    destruct (ends_with_backslash t); [done|]. intros [= <-].
    unfold SQLITE_PRAGMA_SAFE_STRING_VALUE_PATTERN in Ht. apply andb_prop in Ht as [_ Ht].
    apply (Hset (u "'" ++ t ++ u "'")).
    + by rewrite !forallb_app, (safe_statement _ Ht).
    + right. by rewrite !quotes_app, (quotes_safe _ Ht).
Qed.

Lemma contained_number p z :
  forallb safe_char p = true ∨ (forallb statement_char p = true ∧ quotes p = 0%nat) →
  contained (p ++ str_of_int z).
Proof.
  intros Hp. split.
  - rewrite forallb_app, (safe_statement _ (str_of_int_safe _)), andb_true_r.
    destruct Hp as [Hp|[Hp _]]; [by apply safe_statement|done].
  - left. rewrite quotes_app, (quotes_safe _ (str_of_int_safe _)).
    destruct Hp as [Hp|[_ ->]]; [by rewrite quotes_safe|done].
Qed.

Lemma extra_statements_contained d l :
  (∀ k f, (k, VFloat f) ∈ d → forallb safe_char (float_str f) = true) →
  extra_statements float_str d = Ok l → Forall contained l.
Proof.
  revert l. induction d as [|[k v] d IH]; intros l Hf; cbn [extra_statements res_bind].
  - intros [= <-]. constructor.
  - destruct (pragma_statement float_str k v) as [s|] eqn:Es; [|done].
    destruct (extra_statements float_str d) as [rest|] eqn:Er; [|done].
    intros [= <-]. constructor.
    + eapply pragma_statement_contained; [|exact Es]. intros f ->. apply (Hf k). by left.
    + apply IH; [|done]. intros k' f Hin. apply (Hf k'). by right.
Qed.

(** No configuration can smuggle SQL into the set-up of a connection: every
    statement that is executed consists of letters, digits, underscore, comma, point,
    hyphen, backslash, blank, equals sign and quote, and holds no string or exactly one quoted string - so no
    semicolon, comment or second statement - provided floats are written with such characters too. *)
Theorem connection_statements_safe (config : pyval) (o : db_options) (l : list pystr) :
  _resolve_database_options config = Ok o →
  (∀ k f, (k, VFloat f) ∈ do_pragmas o → forallb safe_char (float_str f) = true) →
  connection_statements float_str o = Ok l → Forall contained l.
Proof.
  intros _ Hf. unfold connection_statements.
  destruct (extra_statements float_str (do_pragmas o)) as [extra|] eqn:E; [|done].
  cbn [res_bind]. intros [= <-]. repeat rewrite Forall_app. split_and!.
  - destruct (_ =? 0); [constructor|]. apply Forall_singleton.
    apply (contained_number (u "PRAGMA busy_timeout = ")). by right.
  - destruct (do_wal o); [|constructor]. apply Forall_singleton. split; [done|]. by left.
  - apply Forall_cons. split; [split; [done|by left]|]. by eapply extra_statements_contained.
Qed.
End properties.

(** A value that would end the string, start a comment or escape the quote is refused. *)
Example unsafe_values_refused :
  (λ v, pragma_statement (λ _, []) (u "temp_store") (VStr v)) <$>
    [u "MEMORY'; DROP TABLE message_map"; u "a--b"; u "a\"; u "a/b"; u ""] =
  [Raise ValueError; Raise ValueError; Raise ValueError; Raise ValueError; Raise ValueError].
Proof. reflexivity. Qed.

(** ** Options *)

(** The options can be read from every configuration whose busy time-out is not an infinite
    float; for one that is, the OverflowError of [int()] is not caught. *)
Lemma options_total config :
  (∀ n, dget_or (_normalize_database_section (config_get config (u "database"))) (u "busy_timeout_ms")
          (dget_or (_normalize_database_section (config_get config (u "db"))) (u "busy_timeout_ms")
             (VInt DEFAULT_BUSY_TIMEOUT_MS)) ≠ VFloat (FInf n)) →
  ∃ o, _resolve_database_options config = Ok o.
Proof.
  unfold _resolve_database_options. cbv zeta. intros Hinf.
  set (raw := dget_or _ (u "busy_timeout_ms") _) in *.
  assert (Hp : ∃ z, _parse_int (if is_bool raw then VInt DEFAULT_BUSY_TIMEOUT_MS else raw)
                      DEFAULT_BUSY_TIMEOUT_MS = Ok z).
  { clearbody raw. unfold _parse_int, catching, int_of_val.
    destruct raw as [|b|z|[q|n|]|s|b|k l|d|c]; cbn; eauto.
    - by destruct (Hinf n).
    - destruct (int_of_str s); eauto.
    - destruct (forallb _ b); eauto. destruct (int_of_str b); eauto. }
  destruct Hp as [z ->]. cbn [res_bind]. eauto.
Qed.

Lemma infinite_busy_timeout_raises :
  _resolve_database_options
    (VDict [(u "database", VDict [(u "busy_timeout_ms", VFloat (FInf false))])])
  = Raise OverflowError.
Proof. reflexivity. Qed.

(** The section [database] has precedence over the older [db], option by option. *)
Example options_precedence :
  _resolve_database_options
    (VDict [(u "database", VDict [(u "enable_wal", VStr (u " Off "))]);
            (u "db", VDict [(u "enable_wal", VBool true); (u "busy_timeout_ms", VStr (u "250"))])])
  = Ok {| do_wal := false; do_busy_timeout_ms := 250; do_pragmas := DEFAULT_EXTRA_PRAGMAS |}.
Proof. vm_compute. reflexivity. Qed.

(** ** Path, manager and plugin data *)

Section cache.
Context (repr_str : pyval → pystr).

(** A configured path always wins, [database.path] over the older [db.path]. *)
Lemma configured_path_first d p dir exists_path active legacy :
  section_path (_normalize_database_section (dget_none d (u "database"))) = Some p →
  resolve_db_path (VDict d) dir exists_path active legacy = (p, true).
Proof. intros H. unfold resolve_db_path. by rewrite H. Qed.

(** A database of an older layout is used only when there is none in the new place. *)
Lemma legacy_path_last config dir exists_path active legacy :
  exists_path (path_join dir DATABASE_FILENAME) = true →
  (resolve_db_path config dir exists_path active legacy).1 = path_join dir DATABASE_FILENAME ∨
  ∃ d p, config = VDict d ∧
    (section_path (_normalize_database_section (dget_none d (u "database"))) = Some p ∨
     section_path (_normalize_database_section (dget_none d (u "db"))) = Some p) ∧
    (resolve_db_path config dir exists_path active legacy).1 = p.
Proof.
  intros H. unfold resolve_db_path. rewrite H. cbn [negb andb].
  destruct config as [| | | | | | |d|]; auto.
  destruct (section_path (_normalize_database_section (dget_none d (u "database")))) as [p|] eqn:E.
  { right. exists d, p. auto. }
  destruct (section_path (_normalize_database_section (dget_none d (u "db")))) as [p|] eqn:E'.
  { right. exists d, p. auto. }
  auto.
Qed.

(** The cached path goes with the configuration it was resolved for: after a call, the
    cache holds the returned path and the signature of the present configuration, and
    a path that is returned without being resolved again was cached for an equal signature. *)
Theorem db_path_cache_valid config dir exists_path active legacy c :
  let '(c', p) := get_db_path repr_str config dir exists_path active legacy c in
  pc_path c' = Some p ∧
  (p = (resolve_db_path config dir exists_path active legacy).1 ∨
   (c' = c ∧ signature_eqb (_build_database_config_signature repr_str config) (pc_hash c) = true)).
Proof.
  unfold get_db_path. cbv zeta.
  destruct (pc_path c) as [p|] eqn:Hp.
  - destruct (signature_eqb _ _) eqn:E; [auto|].
    destruct (resolve_db_path config dir exists_path active legacy). auto.
  - destruct (resolve_db_path config dir exists_path active legacy). auto.
Qed.
End cache.

(** A change of configuration that cannot be applied leaves the old manager in use and the
    old signature in place, so that the next call tries again; one that can replaces the
    manager and closes the old one. *)
Lemma manager_change sg sg' old created :
  options_eqb sg' sg = false →
  _get_db_manager sg created {| mc_manager := Some old; mc_signature := Some sg' |} =
  match created with
  | Ok m => ({| mc_manager := Some m; mc_signature := Some sg |}, Some old, Ok m)
  | Raise _ => ({| mc_manager := Some old; mc_signature := Some sg' |}, None, Ok old)
  end.
Proof. intros H. unfold _get_db_manager. cbn. rewrite H. by destruct created. Qed.

Section plugin_laws.
Context (other_str : pyval → pystr) (loads : pystr → option pyval).

(** Data that survives JSON is read back as it was stored, and the data of other plugins or
    nodes is not touched. *)
Lemma plugin_data_roundtrip name nid payload v t :
  loads payload = Some v →
  get_plugin_data_for_node other_str loads false name nid
    (store_plugin_data other_str false name nid (Some payload) t) = v.
Proof.
  intros Hl. unfold get_plugin_data_for_node, store_plugin_data.
  cbn beta iota. rewrite lookup_insert_eq. cbn [from_option id]. by rewrite Hl.
Qed.

Lemma plugin_data_frame err name nid payload name' nid' t :
  (name, to_str other_str nid) ≠ (name', to_str other_str nid') →
  get_plugin_data_for_node other_str loads false name' nid'
    (store_plugin_data other_str err name nid payload t)
  = get_plugin_data_for_node other_str loads false name' nid' t.
Proof.
  intros Hne. unfold get_plugin_data_for_node, store_plugin_data.
  destruct payload, err; try done. by rewrite lookup_insert_ne.
Qed.

Lemma plugin_data_deleted name nid t :
  loads (u "[]") = Some (VSeq KList []) →
  get_plugin_data_for_node other_str loads false name nid
    (delete_plugin_data other_str false name nid t) = VSeq KList [].
Proof.
  intros Hl. unfold get_plugin_data_for_node, delete_plugin_data.
  cbn beta iota. rewrite lookup_delete_eq. cbn [from_option id]. by rewrite Hl.
Qed.
End plugin_laws.

(** ** Witnesses *)

Lemma connection_statements_safe_witness :
  Forall contained
    [u "PRAGMA busy_timeout = 5000"; u "PRAGMA journal_mode=WAL"; u "PRAGMA foreign_keys=ON";
     u "PRAGMA synchronous = 'NORMAL'"; u "PRAGMA temp_store = 'MEMORY'"; u "PRAGMA cache_size = -64"].
Proof.
  apply (connection_statements_safe (λ _, [])
    (VDict [(u "database", VDict [(u "pragmas", VDict [(u "cache_size", VInt (-64))])])])
    {| do_wal := true; do_busy_timeout_ms := 5000;
       do_pragmas := DEFAULT_EXTRA_PRAGMAS ++ [(u "cache_size", VInt (-64))] |}).
  - vm_compute. reflexivity.
  - intros k f Hin. repeat (apply elem_of_cons in Hin as [Hin|Hin]; [discriminate Hin|]).
    by apply elem_of_nil in Hin.
  - vm_compute. reflexivity.
Defined.
