(* ===== verification/DbRuntime.v ===== *)
(** * The database manager

    Models [DatabaseManager] of [src/mmrelay/db_runtime.py] as seen by its threads: operations that
    enter and leave, the connection each thread keeps, the write lock, the work
    handed to the executor thread, and [close()], which may run at any moment in any
    thread.  A step is one of the blocks that the code runs under [_connections_lock] or
    [_executor_lock], the acquisition of the write lock, or one wait of [close()] that is over.

    Thread 0 is the executor thread ([DB_EXECUTOR_MAX_WORKERS] is one).  What an operation does
    with its cursor is not modelled, except for whether it ends in an exception;
    the SQL itself is the subject of the other database files. *)

From Stdlib Require Import String.
From stdpp Require Import base tactics list numbers gmap sets.
From S2P Require Import Prelude.

(** ** State *)

(** One activation of [read()] or [write()]: the flag [previously_admitted], the connection once there
    is one, and whether the write lock is held. *)
Record frame := {
  fr_admitted : bool; fr_write : bool; fr_conn : option nat; fr_locked : bool }.

(** [th_allow] is [_thread_local._allow_during_close], [th_conn] is [_thread_local.connection];
    the innermost activation comes first. *)
Record thread := { th_allow : bool; th_conn : option nat; th_stack : list frame }.
Definition new_thread : thread := {| th_allow := false; th_conn := None; th_stack := [] |}.

Record job := { jb_id : nat; jb_write : bool }.

Inductive closer := CloseShutdown | CloseWait | CloseDone.

(** [dm_open] are the connections that sqlite has open; [dm_submitted] and [dm_done] record the work
    given to the executor and the work it has finished. *)
Record manager := {
  dm_accepting : bool; dm_closing : bool; dm_active : nat;
  dm_pool : gset nat; dm_open : gset nat; dm_next : nat;
  dm_threads : list thread; dm_writer : option nat;
  dm_jobs : list job; dm_running : option job;
  dm_submitted : list job; dm_done : list job;
  dm_closers : gmap nat closer }.

(** [__init__] makes a first connection in the calling thread, here thread 1. *)
Definition dm_init (threads : nat) : manager :=
  {| dm_accepting := true; dm_closing := false; dm_active := 0;
     dm_pool := {[ 0 ]}; dm_open := {[ 0 ]}; dm_next := 1;
     dm_threads := <[1 := {| th_allow := false; th_conn := Some 0; th_stack := [] |}]>
                     (replicate threads new_thread);
     dm_writer := None; dm_jobs := []; dm_running := None; dm_submitted := []; dm_done := [];
     dm_closers := ∅ |}.

Definition upd_threads (f : list thread → list thread) (m : manager) : manager :=
  {| dm_accepting := dm_accepting m; dm_closing := dm_closing m; dm_active := dm_active m;
     dm_pool := dm_pool m; dm_open := dm_open m; dm_next := dm_next m;
     dm_threads := f (dm_threads m); dm_writer := dm_writer m; dm_jobs := dm_jobs m;
     dm_running := dm_running m; dm_submitted := dm_submitted m; dm_done := dm_done m;
     dm_closers := dm_closers m |}.
Definition set_thread (t : nat) (x : thread) : manager → manager :=
  upd_threads (λ l, <[t := x]> l).
Definition set_active (n : nat) (m : manager) : manager :=
  {| dm_accepting := dm_accepting m; dm_closing := dm_closing m; dm_active := n;
     dm_pool := dm_pool m; dm_open := dm_open m; dm_next := dm_next m;
     dm_threads := dm_threads m; dm_writer := dm_writer m; dm_jobs := dm_jobs m;
     dm_running := dm_running m; dm_submitted := dm_submitted m; dm_done := dm_done m;
     dm_closers := dm_closers m |}.
Definition set_writer (w : option nat) (m : manager) : manager :=
  {| dm_accepting := dm_accepting m; dm_closing := dm_closing m; dm_active := dm_active m;
     dm_pool := dm_pool m; dm_open := dm_open m; dm_next := dm_next m;
     dm_threads := dm_threads m; dm_writer := w; dm_jobs := dm_jobs m;
     dm_running := dm_running m; dm_submitted := dm_submitted m; dm_done := dm_done m;
     dm_closers := dm_closers m |}.
Definition set_conns (pool opened : gset nat) (next : nat) (m : manager) : manager :=
  {| dm_accepting := dm_accepting m; dm_closing := dm_closing m; dm_active := dm_active m;
     dm_pool := pool; dm_open := opened; dm_next := next;
     dm_threads := dm_threads m; dm_writer := dm_writer m; dm_jobs := dm_jobs m;
     dm_running := dm_running m; dm_submitted := dm_submitted m; dm_done := dm_done m;
     dm_closers := dm_closers m |}.
Definition set_work (jobs : list job) (running : option job) (submitted finished : list job)
    (m : manager) : manager :=
  {| dm_accepting := dm_accepting m; dm_closing := dm_closing m; dm_active := dm_active m;
     dm_pool := dm_pool m; dm_open := dm_open m; dm_next := dm_next m;
     dm_threads := dm_threads m; dm_writer := dm_writer m; dm_jobs := jobs;
     dm_running := running; dm_submitted := submitted; dm_done := finished;
     dm_closers := dm_closers m |}.
Definition set_closer (t : nat) (c : closer) (m : manager) : manager :=
  {| dm_accepting := dm_accepting m; dm_closing := dm_closing m; dm_active := dm_active m;
     dm_pool := dm_pool m; dm_open := dm_open m; dm_next := dm_next m;
     dm_threads := dm_threads m; dm_writer := dm_writer m; dm_jobs := dm_jobs m;
     dm_running := dm_running m; dm_submitted := dm_submitted m; dm_done := dm_done m;
     dm_closers := <[t := c]> (dm_closers m) |}.
Definition set_closing (m : manager) : manager :=
  {| dm_accepting := false; dm_closing := true; dm_active := dm_active m;
     dm_pool := dm_pool m; dm_open := dm_open m; dm_next := dm_next m;
     dm_threads := dm_threads m; dm_writer := dm_writer m; dm_jobs := dm_jobs m;
     dm_running := dm_running m; dm_submitted := dm_submitted m; dm_done := dm_done m;
     dm_closers := dm_closers m |}.

Definition thr (m : manager) (t : nat) : thread := default new_thread (dm_threads m !! t).

Inductive db_error := ProgrammingError | CloseInsideOperation.

(** ** Operations *)

(** Entry of [_sync_activity]. *)
Definition sync_enter (t : nat) (write : bool) (m : manager) : manager + db_error :=
  let th := thr m t in
  if dm_closing m && negb (th_allow th) then inr ProgrammingError
  else inl (set_active (S (dm_active m)) (set_thread t
         {| th_allow := true; th_conn := th_conn th;
            th_stack := {| fr_admitted := th_allow th; fr_write := write; fr_conn := None;
                           fr_locked := false |} :: th_stack th |} m)).

(** The innermost activation gets the connection [c]. *)
Definition connect_top (c : nat) (th : thread) : thread :=
  match th_stack th with
  | [] => th
  | f :: s => {| th_allow := th_allow th; th_conn := Some c;
                 th_stack := {| fr_admitted := fr_admitted f; fr_write := fr_write f;
                                fr_conn := Some c; fr_locked := fr_locked f |} :: s |}
  end.

Definition _get_connection (t : nat) (m : manager) : manager + db_error :=
  let th := thr m t in
  if dm_closing m && negb (th_allow th) then inr ProgrammingError else
  let fresh (pool : gset nat) :=
    let c := dm_next m in
    inl (set_thread t (connect_top c th)
           (set_conns ({[ c ]} ∪ pool) ({[ c ]} ∪ dm_open m) (S c) m)) in
  match th_conn th with
  | Some c =>
      if bool_decide (c ∈ dm_open m) then inl (set_thread t (connect_top c th) m)
      else fresh (dm_pool m ∖ {[ c ]})
  | None => fresh (dm_pool m)
  end.

(** [with self._write_lock], an RLock: None while another thread holds it. *)
Definition acquire_write_lock (t : nat) (m : manager) : option manager :=
  let th := thr m t in
  match th_stack th with
  | f :: s =>
      if fr_write f && negb (fr_locked f) && (match fr_conn f with Some _ => true | None => false end) &&
         (match dm_writer m with None => true | Some w => Nat.eqb w t end)
      then Some (set_writer (Some t) (set_thread t
             {| th_allow := th_allow th; th_conn := th_conn th;
                th_stack := {| fr_admitted := fr_admitted f; fr_write := true;
                               fr_conn := fr_conn f; fr_locked := true |} :: s |} m))
      else None
  | [] => None
  end.

(** The end of an activation, with or without an exception: commit or roll back, release the lock,
    leave [_sync_activity]. *)
Definition sync_leave (t : nat) (m : manager) : option manager :=
  let th := thr m t in
  match th_stack th with
  | f :: s =>
      let writer :=
        if fr_locked f && negb (existsb fr_locked s) then None else dm_writer m in
      Some (set_writer writer (set_active (pred (dm_active m)) (set_thread t
        {| th_allow := fr_admitted f; th_conn := th_conn th; th_stack := s |} m)))
  | [] => None
  end.

(** The part of [run_async] under [_executor_lock]. *)
Definition submit (j : job) (m : manager) : manager + db_error :=
  if dm_accepting m
  then inl (set_work (dm_jobs m ++ [j]) (dm_running m) (dm_submitted m ++ [j]) (dm_done m) m)
  else inr ProgrammingError.

(** A cancelled caller cancels the work it submitted only if that is a read which has not
    started. *)
Definition cancel (j : nat) (m : manager) : manager :=
  set_work (filter (λ x, negb (Nat.eqb (jb_id x) j && negb (jb_write x))) (dm_jobs m)) (dm_running m)
    (dm_submitted m) (dm_done m) m.

(** The executor thread takes the next piece of work ([executor_func] up to [run_sync]) and
    ends it (its [finally]). *)
Definition worker_take (m : manager) : option manager :=
  match dm_jobs m, dm_running m with
  | j :: jobs, None =>
      let th := thr m 0 in
      Some (set_work jobs (Some j) (dm_submitted m) (dm_done m) (set_thread 0
        {| th_allow := true; th_conn := th_conn th; th_stack := th_stack th |} m))
  | _, _ => None
  end.
Definition worker_end (m : manager) : option manager :=
  let th := thr m 0 in
  match dm_running m, th_stack th with
  | Some j, [] =>
      Some (set_work (dm_jobs m) None (dm_submitted m) (dm_done m ++ [j]) (set_thread 0
        {| th_allow := false; th_conn := th_conn th; th_stack := [] |} m))
  | _, _ => None
  end.

(** [close()]: its first block; [shutdown(wait=True)] returns when the executor is idle; the last block,
    once no operation is active. *)
Definition close_begin (t : nat) (m : manager) : manager + db_error :=
  if th_allow (thr m t) then inr CloseInsideOperation
  else inl (set_closer t CloseShutdown (set_closing m)).
Definition close_shutdown (t : nat) (m : manager) : option manager :=
  match dm_closers m !! t, dm_jobs m, dm_running m with
  | Some CloseShutdown, [], None => Some (set_closer t CloseWait m)
  | _, _, _ => None
  end.
Definition close_finish (t : nat) (m : manager) : option manager :=
  match dm_closers m !! t, dm_active m with
  | Some CloseWait, O =>
      Some (set_closer t CloseDone
        (upd_threads (λ l, replicate (length l) new_thread)
          (set_conns ∅ (dm_open m ∖ dm_pool m) (dm_next m) m)))
  | _, _ => None
  end.

(** ** Steps *)

(** A thread runs an operation of its own, the executor thread only while it has work. *)
Definition may_run (t : nat) (m : manager) : Prop :=
  t < length (dm_threads m) ∧ (t = 0 → is_Some (dm_running m)) ∧
  (dm_closers m !! t = None ∨ dm_closers m !! t = Some CloseDone).

Inductive step (m : manager) : manager → Prop :=
  | StEnter t w m' : may_run t m → sync_enter t w m = inl m' → step m m'
  | StConnect t m' : t < length (dm_threads m) → th_stack (thr m t) ≠ [] →
      _get_connection t m = inl m' → step m m'
  | StLock t m' : acquire_write_lock t m = Some m' → step m m'
  | StLeave t m' : sync_leave t m = Some m' → step m m'
  | StSubmit j m' : submit j m = inl m' → step m m'
  | StCancel j : step m (cancel j m)
  | StTake m' : worker_take m = Some m' → step m m'
  | StEnd m' : worker_end m = Some m' → step m m'
  | StClose t m' : may_run t m → close_begin t m = inl m' → step m m'
  | StShutdown t m' : close_shutdown t m = Some m' → step m m'
  | StFinish t m' : close_finish t m = Some m' → step m m'.

Definition reachable (threads : nat) : manager → Prop := star step (dm_init threads).

(** ** The invariant *)

Definition executing (m : manager) (t : nat) : bool :=
  Nat.eqb t 0 && match dm_running m with Some _ => true | None => false end.

Definition busy (l : list frame) : bool := match l with [] => false | _ => true end.

(** Each activation remembers whether the thread was admitted before it: when it is nested, or
    in the executor thread at work. *)
Fixpoint flags_ok (e : bool) (l : list frame) : Prop :=
  match l with [] => True | f :: l => fr_admitted f = busy l || e ∧ flags_ok e l end.

Record thread_ok (m : manager) (t : nat) (th : thread) : Prop := {
  to_allow : th_allow th = busy (th_stack th) || executing m t;
  to_flags : flags_ok (executing m t) (th_stack th);
  to_idle : t = 0 → dm_running m = None → th_stack th = [];
  to_conn : ∀ f c, f ∈ th_stack th → fr_conn f = Some c → c ∈ dm_open m;
  to_lock : ∀ f, f ∈ th_stack th → fr_locked f = true → dm_writer m = Some t }.

Definition depth (l : list thread) : nat := sum_list ((λ th, length (th_stack th)) <$> l).

Record manager_ok (m : manager) : Prop := {
  mo_threads : ∀ t th, dm_threads m !! t = Some th → thread_ok m t th;
  mo_active : dm_active m = depth (dm_threads m);
  mo_pool : dm_pool m = dm_open m;
  mo_writer : ∀ w, dm_writer m = Some w → ∃ f, f ∈ th_stack (thr m w) ∧ fr_locked f = true;
  mo_closing : dm_closing m = negb (dm_accepting m);
  mo_closers : ∀ t c, dm_closers m !! t = Some c → dm_closing m = true;
  mo_shut : ∀ t c, dm_closers m !! t = Some c → c ≠ CloseShutdown →
              dm_jobs m = [] ∧ dm_running m = None;
  mo_done : ∀ t, dm_closers m !! t = Some CloseDone → dm_active m = 0 ∧ dm_pool m = ∅;
  mo_work : filter jb_write (dm_submitted m)
            = filter jb_write (dm_done m ++ option_list (dm_running m) ++ dm_jobs m) }.

Lemma depth_cons x l : depth (x :: l) = length (th_stack x) + depth l.
Proof. done. Qed.

Lemma depth_insert l t th th' :
  l !! t = Some th →
  depth (<[t := th']> l) + length (th_stack th) = depth l + length (th_stack th').
Proof.
  revert t. induction l as [|x l IH]; intros [|t] H; try done.
  - injection H as ->. change (<[0:=th']> (th :: l)) with (th' :: l). rewrite !depth_cons. lia.
  - specialize (IH t H). change (<[S t:=th']> (x :: l)) with (x :: <[t:=th']> l).
    rewrite !depth_cons. lia.
Qed.

Lemma depth_zero l t th : depth l = 0 → l !! t = Some th → th_stack th = [].
Proof.
  revert t. induction l as [|x l IH]; intros [|t] Hd H; try done; rewrite depth_cons in Hd.
  - injection H as ->. apply nil_length_inv. lia.
  - apply (IH t); [lia|done].
Qed.

Lemma thr_lookup m t : t < length (dm_threads m) → dm_threads m !! t = Some (thr m t).
Proof.
  intros H. unfold thr. destruct (dm_threads m !! t) eqn:E; [done|].
  apply lookup_ge_None in E. lia.
Qed.

Lemma thr_stack_lookup m t f s : th_stack (thr m t) = f :: s → dm_threads m !! t = Some (thr m t).
Proof. unfold thr. by destruct (dm_threads m !! t). Qed.

(** A thread whose connection, lock and flags stay good while the rest of the manager moves. *)
Lemma thread_ok_mono m m' t th :
  thread_ok m t th → executing m' t = executing m t →
  (t = 0 → dm_running m' = None → dm_running m = None) →
  (dm_open m ⊆ dm_open m') → (dm_writer m = Some t → dm_writer m' = Some t) →
  thread_ok m' t th.
Proof.
  intros [H1 H2 H3 H4 H5] He Hr Ho Hw. constructor.
  - by rewrite He.
  - by rewrite He.
  - eauto.
  - intros f c Hf Hc. apply Ho. by eapply H4.
  - intros f Hf Hl. apply Hw. by eapply H5.
Qed.

(** The manager never starts work for a thread that is not admitted. *)
Lemma not_admitted_idle m t th :
  manager_ok m → dm_threads m !! t = Some th → th_allow th = false → th_stack th = [].
Proof.
  intros Hm Ht Ha. destruct (mo_threads _ Hm _ _ Ht) as [H _ _ _ _]. rewrite Ha in H.
  destruct (th_stack th); [done|]. by cbn in H.
Qed.

Lemma threads_update m m' t th th' :
  (∀ t th, dm_threads m !! t = Some th → thread_ok m t th) →
  dm_threads m !! t = Some th → dm_threads m' = <[t := th']> (dm_threads m) →
  thread_ok m' t th' →
  (∀ t' x, t' ≠ t → thread_ok m t' x → thread_ok m' t' x) →
  ∀ t' x, dm_threads m' !! t' = Some x → thread_ok m' t' x.
Proof.
  intros Hm Ht -> Hok Hother t' x. destruct (decide (t' = t)) as [->|Hne].
  - rewrite list_lookup_insert_eq by (by eapply lookup_lt_Some). by intros [= <-].
  - rewrite list_lookup_insert_ne by done. intros Hx. by apply Hother, Hm.
Qed.

Lemma thr_insert m m' t th' w :
  dm_threads m' = <[t := th']> (dm_threads m) → t < length (dm_threads m) →
  thr m' w = if decide (w = t) then th' else thr m w.
Proof.
  intros H Ht. unfold thr. rewrite H. case_decide; subst.
  - by rewrite list_lookup_insert_eq.
  - by rewrite list_lookup_insert_ne.
Qed.

(** Once a [close()] has finished, no thread is admitted and none is in an operation. *)
Lemma closed_not_admitted m t c :
  manager_ok m → dm_closers m !! c = Some CloseDone →
  th_allow (thr m t) = false ∧ th_stack (thr m t) = [].
Proof.
  intros Hm Hc. destruct (mo_done _ Hm _ Hc) as [Ha _].
  destruct (mo_shut _ Hm _ _ Hc) as [_ Hr]; [done|]. rewrite (mo_active _ Hm) in Ha.
  unfold thr. destruct (dm_threads m !! t) as [th|] eqn:Ht; [|done]. cbn [from_option id].
  pose proof (depth_zero _ _ _ Ha Ht) as Hs. split; [|done].
  rewrite (to_allow _ _ _ (mo_threads _ Hm _ _ Ht)), Hs. unfold executing. rewrite Hr.
  by rewrite andb_false_r.
Qed.

Lemma enter_ok t w m m' :
  manager_ok m → may_run t m → sync_enter t w m = inl m' → manager_ok m'.
Proof.
  intros Hm (Hlt & Hrun & _). unfold sync_enter.
  pose proof (thr_lookup m t Hlt) as Hth. set (th := thr m t) in *.
  destruct (dm_closing m && negb (th_allow th)) eqn:Hadm; [done|]. intros [= <-].
  pose proof (mo_threads _ Hm _ _ Hth) as Hok. constructor; try apply Hm.
  - eapply (threads_update m); [apply Hm|exact Hth|done|..].
    + constructor; cbn [th_allow th_stack].
      * done.
      * cbn. split; [apply Hok|]. apply Hok.
      * intros ->. destruct (Hrun eq_refl) as [j Hj]. cbn. rewrite Hj. done.
      * intros f c [->|Hf]%elem_of_cons; [done|]. by eapply Hok.
      * intros f [->|Hf]%elem_of_cons; [done|]. by eapply Hok.
    + intros t' x _ Hx. by eapply thread_ok_mono.
  - cbn [dm_active dm_threads set_active set_thread upd_threads set_conns]. pose proof (depth_insert (dm_threads m) t th
      {| th_allow := true; th_conn := th_conn th;
         th_stack := {| fr_admitted := th_allow th; fr_write := w; fr_conn := None;
                        fr_locked := false |} :: th_stack th |} Hth) as Hd.
    cbn [th_stack length] in Hd. rewrite (mo_active _ Hm). lia.
  - intros w' Hw. destruct (mo_writer _ Hm w' Hw) as (f & Hf & Hl). exists f. split; [|done].
    erewrite thr_insert; [|done|done]. case_decide; [|done]. subst. cbn. by right.
  - intros c Hc. destruct (closed_not_admitted m t c Hm Hc) as [Ha _].
    pose proof (mo_closers _ Hm _ _ Hc) as Hcl. fold th in Ha. by rewrite Ha, Hcl in Hadm.
Qed.

Lemma connect_ok t m m' :
  manager_ok m → t < length (dm_threads m) → th_stack (thr m t) ≠ [] →
  _get_connection t m = inl m' → manager_ok m'.
Proof.
  intros Hm Hlt Hne. unfold _get_connection.
  pose proof (thr_lookup m t Hlt) as Hth. set (th := thr m t) in *.
  destruct (dm_closing m && negb (th_allow th)); [done|].
  pose proof (mo_threads _ Hm _ _ Hth) as Hok.
  assert (Hdone : ∀ c, dm_closers m !! c = Some CloseDone → False).
  { intros c Hc. destruct (closed_not_admitted m t c Hm Hc) as [_ Hs]. by apply Hne. }
  assert (Hgen : ∀ c pool opened next, pool = opened → dm_open m ⊆ opened → c ∈ opened →
    manager_ok (set_thread t (connect_top c th) (set_conns pool opened next m))).
  { intros c pool opened next Hpool Hsub Hc.
    destruct (th_stack th) as [|f s] eqn:Hs; [done|].
    assert (Htop : th_stack (connect_top c th) =
      {| fr_admitted := fr_admitted f; fr_write := fr_write f; fr_conn := Some c;
         fr_locked := fr_locked f |} :: s) by (unfold connect_top; by rewrite Hs).
    assert (Hall : th_allow (connect_top c th) = th_allow th)
      by (unfold connect_top; by rewrite Hs).
    destruct Hok as [H1 H2 H3 H4 H5]. rewrite Hs in H1, H2, H3, H4, H5.
    constructor; try apply Hm.
    - eapply (threads_update m); [apply Hm|exact Hth|done|..].
      + constructor; rewrite ?Htop, ?Hall.
        * exact H1.
        * exact H2.
        * intros H0 Hr. by specialize (H3 H0 Hr).
        * intros g d [->|Hg]%elem_of_cons; [by intros [= <-]|].
          intros Hd. apply Hsub. apply (H4 g); [by right|done].
        * intros g [->|Hg]%elem_of_cons Hl; cbn in *; [apply (H5 f); [by left|done]|].
          apply (H5 g); [by right|done].
      + intros t' x _ Hx. by eapply thread_ok_mono.
    - cbn [dm_active dm_threads set_active set_thread upd_threads set_conns]. pose proof (depth_insert (dm_threads m) t th (connect_top c th) Hth) as Hd.
      rewrite Htop, Hs in Hd. cbn [length] in Hd. rewrite (mo_active _ Hm). lia.
    - exact Hpool.
    - intros w' Hw. destruct (mo_writer _ Hm w' Hw) as (g & Hg & Hl).
      erewrite thr_insert; [|done|done]. case_decide; [|by exists g]. subst. rewrite Htop.
      fold th in Hg. rewrite Hs in Hg. apply elem_of_cons in Hg as [->|Hg].
      + eexists. split; [by left|done].
      + exists g. split; [by right|done].
    - intros c' Hc'. by destruct (Hdone c'). }
  assert (Hp : dm_pool m = dm_open m) by apply Hm.
  destruct (th_conn th) as [c|].
  - case_bool_decide as Hc; intros [= <-].
    + assert (m = set_conns (dm_pool m) (dm_open m) (dm_next m) m) as Hm' by (by destruct m).
      rewrite Hm' at 1. by apply Hgen.
    + apply Hgen; [|set_solver|set_solver]. rewrite Hp. set_solver.
  - intros [= <-]. apply Hgen; [|set_solver|set_solver]. by rewrite Hp.
Qed.

Lemma lock_ok t m m' :
  manager_ok m → acquire_write_lock t m = Some m' → manager_ok m'.
Proof.
  intros Hm. unfold acquire_write_lock. destruct (th_stack (thr m t)) as [|f s] eqn:Hs; [done|].
  pose proof (thr_stack_lookup _ _ _ _ Hs) as Hth. set (th := thr m t) in *.
  destruct (fr_write f && negb (fr_locked f) && _ && _) eqn:Hg; [|done]. intros [= <-].
  apply andb_prop in Hg as [_ Hw].
  destruct (mo_threads _ Hm _ _ Hth) as [H1 H2 H3 H4 H5]. rewrite Hs in H1, H2, H3, H4, H5.
  pose proof (lookup_lt_Some _ _ _ Hth) as Hlt. constructor; try apply Hm.
  - eapply (threads_update m); [apply Hm|exact Hth|done|..].
    + constructor; cbn [th_allow th_stack]; [exact H1|exact H2|..].
      * intros H0 Hr. by specialize (H3 H0 Hr).
      * intros g d [->|Hg]%elem_of_cons; [apply (H4 f); by left|].
        apply (H4 g). by right.
      * done.
    + intros t' x Hne Hx. eapply thread_ok_mono; try done.
      intros Hw'. rewrite Hw' in Hw. apply Nat.eqb_eq in Hw. congruence.
  - cbn [dm_active dm_threads set_active set_thread upd_threads set_conns set_writer].
    pose proof (depth_insert (dm_threads m) t th
      {| th_allow := th_allow th; th_conn := th_conn th;
         th_stack := {| fr_admitted := fr_admitted f; fr_write := true;
                        fr_conn := fr_conn f; fr_locked := true |} :: s |} Hth) as Hd.
    rewrite Hs in Hd. cbn [th_stack length] in Hd. rewrite (mo_active _ Hm). lia.
  - intros w [= <-]. erewrite thr_insert; [|done|done]. rewrite decide_True by done.
    eexists. split; [by left|done].
Qed.

Lemma leave_ok t m m' : manager_ok m → sync_leave t m = Some m' → manager_ok m'.
Proof.
  intros Hm. unfold sync_leave. destruct (th_stack (thr m t)) as [|f s] eqn:Hs; [done|].
  pose proof (thr_stack_lookup _ _ _ _ Hs) as Hth. set (th := thr m t) in *. intros [= <-].
  destruct (mo_threads _ Hm _ _ Hth) as [H1 H2 H3 H4 H5]. rewrite Hs in H1, H2, H3, H4, H5.
  pose proof (lookup_lt_Some _ _ _ Hth) as Hlt. constructor; try apply Hm.
  - eapply (threads_update m); [apply Hm|exact Hth|done|..].
    + constructor; cbn [th_allow th_stack].
      * apply H2.
      * apply H2.
      * intros H0 Hr. by specialize (H3 H0 Hr).
      * intros g c Hg. apply H4. by right.
      * intros g Hg Hl. cbn [dm_writer set_writer]. replace (existsb fr_locked s) with true.
        { rewrite andb_false_r. apply (H5 g); [by right|done]. }
        symmetry. apply existsb_exists. exists g. split; [by apply list_elem_of_In|done].
    + intros t' x Hne Hx. eapply thread_ok_mono; try done. intros Hw. cbn [dm_writer set_writer].
      destruct (fr_locked f) eqn:Hl; [|done].
      assert (dm_writer m = Some t) by (apply (H5 f); [by left|done]). congruence.
  - cbn [dm_active dm_threads set_active set_thread upd_threads set_conns set_writer].
    pose proof (depth_insert (dm_threads m) t th
      {| th_allow := fr_admitted f; th_conn := th_conn th; th_stack := s |} Hth) as Hd.
    rewrite Hs in Hd. cbn [th_stack length] in Hd. rewrite (mo_active _ Hm). lia.
  - intros w. cbn [dm_writer set_writer]. intros Hw.
    destruct (fr_locked f && negb (existsb fr_locked s)) eqn:Hr; [done|].
    destruct (mo_writer _ Hm w Hw) as (g & Hg & Hl).
    erewrite thr_insert; [|done|done]. case_decide; [|by exists g]. subst. cbn [th_stack].
    fold th in Hg. rewrite Hs in Hg. apply elem_of_cons in Hg as [->|Hg]; [|by exists g].
    rewrite Hl in Hr. cbn in Hr. apply negb_false_iff, existsb_exists in Hr as (g & Hg & Hl').
    exists g. by rewrite list_elem_of_In.
  - intros c Hc. destruct (closed_not_admitted m t c Hm Hc) as [_ Hs']. fold th in Hs'. congruence.
Qed.

(** A step that leaves threads, connections and lock alone. *)
Lemma work_ok m jobs running submitted finished :
  manager_ok m → (match running with Some _ => true | None => false end)
                 = (match dm_running m with Some _ => true | None => false end) →
  (∀ t c, dm_closers m !! t = Some c → c ≠ CloseShutdown → jobs = [] ∧ running = None) →
  filter jb_write submitted = filter jb_write (finished ++ option_list running ++ jobs) →
  manager_ok (set_work jobs running submitted finished m).
Proof.
  intros Hm Hr Hs Hw. constructor; try apply Hm; try done.
  intros t th Hth. pose proof (mo_threads _ Hm _ _ Hth) as Hok.
  eapply thread_ok_mono; [exact Hok| | |done|done].
  - unfold executing. cbn [dm_running set_work]. by rewrite Hr.
  - cbn [dm_running set_work]. intros _ ->. by destruct (dm_running m).
Qed.

Lemma submit_ok j m m' : manager_ok m → submit j m = inl m' → manager_ok m'.
Proof.
  intros Hm. unfold submit. destruct (dm_accepting m) eqn:Ha; [|done]. intros [= <-].
  apply work_ok; [done|done|..].
  - intros t c Hc _. pose proof (mo_closers _ Hm _ _ Hc). pose proof (mo_closing _ Hm) as H0.
    rewrite Ha in H0. cbn in H0. congruence.
  - rewrite !app_assoc. rewrite filter_app, (filter_app _ (_ ++ _)).
    rewrite <- app_assoc, (mo_work _ Hm). done.
Qed.

Lemma cancel_ok j m : manager_ok m → manager_ok (cancel j m).
Proof.
  intros Hm. apply work_ok; [done|done|..].
  - intros t c Hc Hne. destruct (mo_shut _ Hm _ _ Hc Hne) as [-> ?]. done.
  - rewrite (mo_work _ Hm), !filter_app. do 2 f_equal. rewrite list_filter_filter.
    apply list_filter_iff. intros x. destruct (jb_write x); cbn [negb Is_true]; [|tauto].
    rewrite andb_false_r. cbn. tauto.
Qed.

Lemma take_ok m m' : manager_ok m → 0 < length (dm_threads m) → worker_take m = Some m' → manager_ok m'.
Proof.
  intros Hm Hlt. unfold worker_take. destruct (dm_jobs m) as [|j jobs] eqn:Hj; [done|].
  destruct (dm_running m) eqn:Hr; [done|]. intros [= <-].
  pose proof (thr_lookup m 0 Hlt) as Hth. set (th := thr m 0) in *.
  destruct (mo_threads _ Hm _ _ Hth) as [H1 H2 H3 H4 H5]. specialize (H3 eq_refl Hr).
  constructor; try apply Hm.
  - eapply (threads_update m); [apply Hm|exact Hth|done|..].
    + constructor; cbn [th_allow th_stack]; rewrite ?H3; try done.
      all: intros ? ?; try set_solver.
    + intros t' x Hne Hx. eapply thread_ok_mono; [exact Hx|..]; try done.
      unfold executing. by destruct t'.
  - cbn [dm_active dm_threads set_active set_thread upd_threads set_conns set_writer set_work].
    pose proof (depth_insert (dm_threads m) 0 th
      {| th_allow := true; th_conn := th_conn th; th_stack := th_stack th |} Hth) as Hd.
    cbn [th_stack length] in Hd. rewrite (mo_active _ Hm). lia.
  - intros w Hw. destruct (mo_writer _ Hm w Hw) as (g & Hg & Hl). exists g.
    erewrite thr_insert; [|done|done]. case_decide; [subst|]; done.
  - intros t c Hc Hne. destruct (mo_shut _ Hm _ _ Hc Hne). congruence.
  - cbn. rewrite (mo_work _ Hm), Hr, Hj. done.
Qed.

Lemma end_ok m m' : manager_ok m → 0 < length (dm_threads m) → worker_end m = Some m' → manager_ok m'.
Proof.
  intros Hm Hlt. unfold worker_end. destruct (dm_running m) as [j|] eqn:Hr; [|done].
  destruct (th_stack (thr m 0)) eqn:Hs; [|done]. intros [= <-].
  pose proof (thr_lookup m 0 Hlt) as Hth. set (th := thr m 0) in *.
  constructor; try apply Hm.
  - eapply (threads_update m); [apply Hm|exact Hth|done|..].
    + constructor; cbn [th_allow th_stack]; try done.
      all: intros ? ?; try set_solver.
    + intros t' x Hne Hx. eapply thread_ok_mono; [exact Hx|..]; try done.
      unfold executing. by destruct t'.
  - cbn [dm_active dm_threads set_active set_thread upd_threads set_conns set_writer set_work].
    pose proof (depth_insert (dm_threads m) 0 th
      {| th_allow := false; th_conn := th_conn th; th_stack := [] |} Hth) as Hd.
    rewrite Hs in Hd. cbn [th_stack length] in Hd. rewrite (mo_active _ Hm). lia.
  - intros w Hw. destruct (mo_writer _ Hm w Hw) as (g & Hg & Hl). exists g.
    erewrite thr_insert; [|done|done]. case_decide; [subst|done]. fold th in Hg.
    rewrite Hs in Hg. set_solver.
  - intros t c Hc Hne. destruct (mo_shut _ Hm _ _ Hc Hne). congruence.
  - cbn. rewrite (mo_work _ Hm), Hr. by rewrite <- app_assoc.
Qed.

Lemma close_begin_ok t m m' :
  manager_ok m → close_begin t m = inl m' → dm_closers m !! t ≠ Some CloseWait →
  manager_ok m'.
Proof.
  intros Hm. unfold close_begin. destruct (th_allow _); [done|]. intros [= <-] Ht.
  constructor; try apply Hm; try done.
  - intros t' th Hth. eapply thread_ok_mono; [by eapply Hm|done..].
  - cbn. intros t' c. destruct (decide (t' = t)) as [->|Hne].
    + rewrite lookup_insert_eq. by intros [= <-].
    + rewrite lookup_insert_ne by done. intros Hc Hn. by eapply (mo_shut _ Hm).
  - cbn. intros t'. destruct (decide (t' = t)) as [->|Hne].
    + by rewrite lookup_insert_eq.
    + rewrite lookup_insert_ne by done. apply (mo_done _ Hm).
Qed.

Lemma close_shutdown_ok t m m' : manager_ok m → close_shutdown t m = Some m' → manager_ok m'.
Proof.
  intros Hm. unfold close_shutdown. destruct (dm_closers m !! t) as [[]|] eqn:Ht; try done.
  destruct (dm_jobs m) eqn:Hj; [|done]. destruct (dm_running m) eqn:Hr; [done|].
  intros [= <-]. constructor; try apply Hm; try done.
  - intros t' th Hth. eapply thread_ok_mono; [by eapply Hm|done..].
  - intros t' c _. by eapply (mo_closers _ Hm).
  - cbn. intros t'. destruct (decide (t' = t)) as [->|Hne].
    + rewrite lookup_insert_eq. by intros [= <-].
    + rewrite lookup_insert_ne by done. apply (mo_done _ Hm).
Qed.

Lemma depth_new n : depth (replicate n new_thread) = 0.
Proof. induction n; [done|]. cbn [replicate]. rewrite depth_cons. done. Qed.

Lemma close_finish_ok t m m' : manager_ok m → close_finish t m = Some m' → manager_ok m'.
Proof.
  intros Hm. unfold close_finish. destruct (dm_closers m !! t) as [[]|] eqn:Ht; try done.
  destruct (dm_active m) eqn:Ha; [|done]. intros [= <-].
  destruct (mo_shut _ Hm _ _ Ht) as [Hj Hr]; [done|].
  assert (Hempty : dm_open m ∖ dm_pool m = ∅) by (rewrite (mo_pool _ Hm); set_solver).
  constructor; try apply Hm; try done.
  - cbn. intros t' th Hth. apply lookup_replicate in Hth as [-> _].
    constructor; cbn [th_allow th_stack new_thread]; try done.
    all: try (intros ? ?; set_solver).
    unfold executing. cbn. rewrite Hr. by rewrite andb_false_r.
  - cbn [dm_active dm_threads set_closer upd_threads set_conns]. rewrite depth_new. done.
  - intros w Hw. cbn in Hw. destruct (mo_writer _ Hm w Hw) as (g & Hg & _).
    rewrite (mo_active _ Hm) in Ha. unfold thr in Hg.
    destruct (dm_threads m !! w) as [th|] eqn:E; [|cbn in Hg; set_solver].
    cbn [from_option id] in Hg. rewrite (depth_zero _ _ _ Ha E) in Hg. set_solver.
  - intros t' c _. by eapply (mo_closers _ Hm).
Qed.

Lemma step_length m m' : step m m' → length (dm_threads m') = length (dm_threads m).
Proof.
  destruct 1 as [t w m' _ H|t m' _ _ H|t m' H|t m' H|j m' H|j|m' H|m' H|t m' _ H|t m' H|t m' H];
    try revert H.
  - unfold sync_enter. destruct (_ && _); [done|]. intros [= <-]. cbn. by rewrite length_insert.
  - unfold _get_connection. destruct (_ && _); [done|]. destruct (th_conn _).
    + case_bool_decide; intros [= <-]; cbn; by rewrite length_insert.
    + intros [= <-]. cbn. by rewrite length_insert.
  - unfold acquire_write_lock. destruct (th_stack _); [done|]. destruct (_ && _); [|done].
    intros [= <-]. cbn. by rewrite length_insert.
  - unfold sync_leave. destruct (th_stack _); [done|]. intros [= <-]. cbn. by rewrite length_insert.
  - unfold submit. destruct (dm_accepting m); [|done]. by intros [= <-].
  - done.
  - unfold worker_take. destruct (dm_jobs m), (dm_running m); try done. intros [= <-]. cbn.
    by rewrite length_insert.
  - unfold worker_end. destruct (dm_running m), (th_stack (thr m 0)); try done. intros [= <-]. cbn.
    by rewrite length_insert.
  - unfold close_begin. destruct (th_allow _); [done|]. by intros [= <-].
  - unfold close_shutdown. destruct (dm_closers m !! t) as [[]|], (dm_jobs m), (dm_running m);
      try done. by intros [= <-].
  - unfold close_finish. destruct (dm_closers m !! t) as [[]|], (dm_active m); try done.
    intros [= <-]. cbn. by rewrite length_replicate.
Qed.

Definition good (m : manager) : Prop := manager_ok m ∧ 0 < length (dm_threads m).

Lemma step_good : preserves step good.
Proof.
  intros m m' Hst [Hm Hlt]. split; [|by rewrite (step_length _ _ Hst)].
  destruct Hst as [t w m' ? ?|t m' ? ? ?|t m' ?|t m' ?|j m' ?|j|m' ?|m' ?|t m' (? & ? & Hc) ?|t m' ?|t m' ?].
  - by eapply enter_ok.
  - by apply (connect_ok t m m').
  - by eapply lock_ok.
  - by eapply leave_ok.
  - by eapply submit_ok.
  - by apply cancel_ok.
  - by eapply take_ok.
  - by eapply end_ok.
  - eapply close_begin_ok; [done..|]. intros H'. rewrite H' in Hc. by destruct Hc.
  - by eapply close_shutdown_ok.
  - by eapply close_finish_ok.
Qed.

Lemma init_good n : 0 < n → good (dm_init n).
Proof.
  intros Hn. assert (Hd : ∀ t th, dm_threads (dm_init n) !! t = Some th →
    th_stack th = [] ∧ th_allow th = false).
  { intros t th. cbn. destruct (decide (t = 1)) as [->|Hne].
    - destruct (decide (1 < n)) as [Hlt|Hge].
      + rewrite list_lookup_insert_eq by (by rewrite length_replicate). by intros [= <-].
      + rewrite list_insert_ge by (rewrite length_replicate; lia).
        intros H. by apply lookup_replicate in H as [-> _].
    - rewrite list_lookup_insert_ne by done. intros H. by apply lookup_replicate in H as [-> _]. }
  split; [|cbn; by rewrite length_insert, length_replicate].
  constructor; try done.
  - intros t th Hth. destruct (Hd t th Hth) as [Hs Ha].
    constructor; rewrite ?Hs, ?Ha; try done; try (intros ? ?; set_solver).
    unfold executing. cbn. by rewrite andb_false_r.
  - cbn [dm_init dm_active dm_threads]. destruct (decide (1 < n)) as [Hlt|Hge].
    + pose proof (depth_insert (replicate n new_thread) 1 new_thread
        {| th_allow := false; th_conn := Some 0; th_stack := [] |}) as H.
      rewrite depth_new in H. cbn [th_stack length new_thread] in H. rewrite lookup_replicate_2 in H by done.
      specialize (H eq_refl). lia.
    + rewrite list_insert_ge by (rewrite length_replicate; lia). by rewrite depth_new.
Qed.

Lemma reachable_good n m : 0 < n → reachable n m → good m.
Proof. intros Hn Hr. eapply star_invariant; [exact step_good|exact Hr|by apply init_good]. Qed.

(** ** Properties *)

(** C12: in every interleaving of operations, submitted work and calls of [close()], an
    operation that has its connection holds one that is open: [close()] never closes a connection
    under a running operation. *)
Theorem no_use_after_close (n t : nat) (m : manager) (f : frame) (c : nat) :
  0 < n → reachable n m → f ∈ th_stack (thr m t) → fr_conn f = Some c → c ∈ dm_open m.
Proof.
  intros Hn Hr Hf Hc. destruct (reachable_good n m Hn Hr) as [Hm _].
  destruct (th_stack (thr m t)) as [|f' s] eqn:Hs; [by apply elem_of_nil in Hf|].
  pose proof (thr_stack_lookup _ _ _ _ Hs) as Hth.
  eapply (to_conn _ _ _ (mo_threads _ Hm _ _ Hth)); [|exact Hc]. by rewrite Hs.
Qed.

(** Writes are serialised: the operations that hold the write lock at any moment belong to one
    thread, which is the lock's owner. *)
Theorem one_writer (n t t' : nat) (m : manager) (f f' : frame) :
  0 < n → reachable n m →
  f ∈ th_stack (thr m t) → fr_locked f = true →
  f' ∈ th_stack (thr m t') → fr_locked f' = true → t = t' ∧ dm_writer m = Some t.
Proof.
  intros Hn Hr Hf Hl Hf' Hl'. destruct (reachable_good n m Hn Hr) as [Hm _].
  assert (H : ∀ t f, f ∈ th_stack (thr m t) → fr_locked f = true → dm_writer m = Some t).
  { intros w g Hg Hgl. destruct (th_stack (thr m w)) as [|g' s] eqn:Hs; [by apply elem_of_nil in Hg|].
    pose proof (thr_stack_lookup _ _ _ _ Hs) as Hth.
    eapply (to_lock _ _ _ (mo_threads _ Hm _ _ Hth)); [|exact Hgl]. by rewrite Hs. }
  pose proof (H _ _ Hf Hl). pose proof (H _ _ Hf' Hl'). split; congruence.
Qed.

(** When a [close()] has returned, the manager is closed for good: no connection is open,
    no operation is active, every write that was handed to the executor has been carried out, in
    order, and any further operation or submission is refused. *)
Theorem close_is_final (n c : nat) (m : manager) :
  0 < n → reachable n m → dm_closers m !! c = Some CloseDone →
  dm_open m = ∅ ∧ dm_active m = 0 ∧
  filter jb_write (dm_done m) = filter jb_write (dm_submitted m) ∧
  (∀ t w, sync_enter t w m = inr ProgrammingError) ∧
  (∀ j, submit j m = inr ProgrammingError).
Proof.
  intros Hn Hr Hc. destruct (reachable_good n m Hn Hr) as [Hm _].
  destruct (mo_done _ Hm _ Hc) as [Ha Hp]. destruct (mo_shut _ Hm _ _ Hc) as [Hj Hrun]; [done|].
  pose proof (mo_closers _ Hm _ _ Hc) as Hcl. split_and!.
  - by rewrite <- (mo_pool _ Hm).
  - done.
  - rewrite (mo_work _ Hm), Hrun, Hj. cbn. by rewrite app_nil_r.
  - intros t w. unfold sync_enter. destruct (closed_not_admitted m t c Hm Hc) as [-> _].
    by rewrite Hcl.
  - intros j. unfold submit. pose proof (mo_closing _ Hm) as H. rewrite Hcl in H.
    by destruct (dm_accepting m).
Qed.

(** A [close()] from inside an operation is refused instead of waiting for itself. *)
Lemma close_inside_refused n t m :
  0 < n → reachable n m → th_stack (thr m t) ≠ [] → close_begin t m = inr CloseInsideOperation.
Proof.
  intros Hn Hr Hs. destruct (reachable_good n m Hn Hr) as [Hm _].
  destruct (th_stack (thr m t)) as [|f s] eqn:E; [done|].
  pose proof (thr_stack_lookup _ _ _ _ E) as Hth.
  unfold close_begin. rewrite (to_allow _ _ _ (mo_threads _ Hm _ _ Hth)), E. done.
Qed.

(** ** Witnesses *)

(** Thread 1 starts a write; the executor is given a write of its own. *)
Definition demo_run : manager :=
  match sync_enter 1 true (dm_init 2) with
  | inl m =>
      match _get_connection 1 m with
      | inl m =>
          match acquire_write_lock 1 m with
          | Some m =>
              match submit {| jb_id := 5; jb_write := true |} m with inl m => m | inr _ => m end
          | None => m
          end
      | inr _ => m
      end
  | inr _ => dm_init 2
  end.

Lemma demo_run_reachable : reachable 2 demo_run.
Proof.
  eapply star_step.
  { eapply (StEnter _ 1 true); [|reflexivity]. split_and!; [vm_compute; lia|done|by left]. }
  eapply star_step.
  { eapply (StConnect _ 1); [vm_compute; lia|done|reflexivity]. }
  eapply star_step; [by eapply (StLock _ 1)|].
  eapply star_step; [by eapply (StSubmit _ {| jb_id := 5; jb_write := true |})|].
  apply star_refl.
Qed.

Lemma no_use_after_close_witness : 0 ∈ dm_open demo_run.
Proof.
  eapply (no_use_after_close 2 1 demo_run); [lia|exact demo_run_reachable|by left|reflexivity].
Defined.

Lemma one_writer_witness : 1 = 1 ∧ dm_writer demo_run = Some 1.
Proof.
  eapply (one_writer 2 1 1 demo_run); [lia|exact demo_run_reachable|by left|reflexivity|by left|reflexivity].
Defined.

Definition demo_closed : manager :=
  let m := dm_init 2 in
  match close_begin 1 m with
  | inl m =>
      match close_shutdown 1 m with
      | Some m => match close_finish 1 m with Some m => m | None => m end
      | None => m
      end
  | inr _ => m
  end.

Lemma demo_closed_reachable : reachable 2 demo_closed.
Proof.
  eapply star_step.
  { eapply (StClose _ 1); [|reflexivity]. split_and!; [vm_compute; lia|done|by left]. }
  eapply star_step; [by eapply (StShutdown _ 1)|].
  eapply star_step; [by eapply (StFinish _ 1)|]. apply star_refl.
Qed.

Lemma close_is_final_witness :
  dm_open demo_closed = ∅ ∧ dm_active demo_closed = 0 ∧
  filter jb_write (dm_done demo_closed) = filter jb_write (dm_submitted demo_closed) ∧
  (∀ t w, sync_enter t w demo_closed = inr ProgrammingError) ∧
  (∀ j, submit j demo_closed = inr ProgrammingError).
Proof.
  apply (close_is_final 2 1 demo_closed); [lia|exact demo_closed_reachable|reflexivity].
Defined.
