(* ===== verification/MeshInbound.v ===== *)
(** * Packets from the mesh

    Models [on_meshtastic_message] of [src/mmrelay/meshtastic/events.py], with the
    plugin dispatch of [meshtastic/plugins.py], in the phases of the function:
    admission (guards, probe responses, start-up drain, clock filter), routing
    (classification, settings, addressee), reactions and replies, and text or
    plugin-only delivery.

    A relay that is scheduled ([matrix_relay] as a background task) is a
    [relay_request] of the result.  A call reads each clock once.  The text of a
    packet, its identifier and the name of the meshnet are a string, an integer
    and a string where they are present; log lines are left out. *)

From Stdlib Require Import String QArith Lqa.
From stdpp Require Import base tactics list numbers gmap sets.
From S2P Require Import Prelude PyStr PyValue Coerce Settings PacketRouting Prefixes.
From S2P Require Import MessageMap MatrixRelay Health Names.
Open Scope Z_scope.

Definition EMOJI_FLAG_VALUE : Z := 1.
Definition DEFAULT_CHANNEL_VALUE : Z := 0.

(** ** Plugins *)

(** What a handler gives: a value, an awaitable and its outcome, or an
    exception. *)
Inductive await_outcome := AwaitValue (b : bool) | AwaitNoFuture | AwaitTimeout | AwaitRaised.
Inductive plugin_reply := ReplyValue (b : bool) | ReplyAwaitable (o : await_outcome) | ReplyRaised.

(** [None]: the exception propagates. *)
Definition _resolve_plugin_result (o : plugin_reply) : option bool :=
  match o with
  | ReplyValue b => Some b
  | ReplyAwaitable (AwaitValue b) => Some b
  | ReplyAwaitable AwaitNoFuture => Some false
  | ReplyAwaitable AwaitTimeout => Some true
  | ReplyAwaitable AwaitRaised | ReplyRaised => None
  end.

(** Whether a plugin handled the packet, and how many were called. *)
Fixpoint _run_meshtastic_plugins (plugins : list plugin_reply) : bool * nat :=
  match plugins with
  | [] => (false, 0%nat)
  | p :: ps =>
      match _resolve_plugin_result p with
      | Some true => (true, 1%nat)
      | _ => let '(found, n) := _run_meshtastic_plugins ps in (found, S n)
      end
  end.

(** ** Admission *)

(** The session variables the guards read; a client is known by its id. *)
Record session := {
  se_shutting_down : bool; se_client : option Z; se_active_client_id : option Z;
  se_tearing_down : bool; se_subscribed : bool; se_reconnecting : bool;
  se_event_loop : bool }.

Definition ignore_interface (g : session) (interface_id : Z) : bool :=
  match se_client g with
  | None => se_tearing_down g || se_subscribed g || se_reconnecting g || se_shutting_down g
  | Some client =>
      let expected_client_id := default client (se_active_client_id g) in
      negb (interface_id =? expected_client_id)
  end.

Definition parse_rx_time (packet : pydict) : res pyfloat :=
  match float_of_val (dget_or packet (u "rxTime") (VInt 0)) with
  | Ok f => Ok f
  | Raise e => if is_type_or_value e then Ok (FFin 0) else Raise e
  end.

(** [if rx_time > 0: _seed_connect_time_skew(rx_time)] *)
Definition seed_from_packet (now_wall now : Q) (rx : pyfloat) (st : relay_clock)
    : relay_clock * bool :=
  match rx with
  | FFin q => if qlt 0 q then _seed_connect_time_skew now_wall now (RxTime q) st else (st, false)
  | FInf false => _seed_connect_time_skew now_wall now RxInfinite st
  | _ => (st, false)
  end.

(** [rx_time < t] *)
Definition rx_before (rx : pyfloat) (t : Q) : bool :=
  match rx with FFin q => qlt q t | FInf neg => neg | FNan => false end.

(** The start-up drain: [true] when the packet is dropped. *)
Definition startup_drain (now_wall now : Q) (rx : pyfloat) (st : relay_clock)
    : relay_clock * bool :=
  match rc_drain_deadline st with
  | None => (st, false)
  | Some deadline =>
      if qlt 0 (deadline - now) then ((seed_from_packet now_wall now rx st).1, true)
      else
        let timer_still_active := default false (rc_drain_timer st) in
        (if timer_still_active then st else end_drain st, false)
  end.

(** The cut-off of old packets: [true] when the packet is dropped. *)
Definition clock_filter (now_wall now : Q) (rx : pyfloat) (st : relay_clock)
    : relay_clock * bool :=
  let relay_start_time := rc_start_time st in
  let '(st, calibrated) := seed_from_packet now_wall now rx st in
  if calibrated && rx_before rx relay_start_time then (st, true) else
  let effective_relay_start_time :=
    match rc_skew st with
    | Some s => (rc_start_time st - s)%Q
    | None => rc_start_time st
    end in
  (st, fpos rx && rx_before rx effective_relay_start_time).

(** Everything up to the decoding: [true] when the packet is taken. *)
Definition admit_packet (g : session) (now_wall now : Q) (packet : pydict)
    (interface_id : Z) (local_num_raw : pyval) (st : relay_clock)
    : res (relay_clock * bool) :=
  match packet with
  | [] => Ok (st, false)
  | _ =>
      if se_shutting_down g then Ok (st, false)
      else if ignore_interface g interface_id then Ok (st, false)
      else
        let! rx := parse_rx_time packet in
        let! claim := _claim_health_probe_response_and_maybe_calibrate now_wall now packet
                        local_num_raw rx st in
        let '(st, is_health_probe_response) := claim in
        if is_health_probe_response then Ok (st, false) else
        let '(st, drained) := startup_drain now_wall now rx st in
        if drained then Ok (st, false) else
        let '(st, old) := clock_filter now_wall now rx st in
        Ok (st, negb old)
  end.

(** ** Routing *)

(** [config.get("logging", {}).get("debug", {}).get("full_packets")] *)
Definition full_packets_setting (config : pydict) : res pyval :=
  match config with
  | [] => Ok VNone
  | _ =>
      match dget_or config (u "logging") (VDict []) with
      | VDict l => match dget_or l (u "debug") (VDict []) with
                   | VDict d => Ok (dget_none d (u "full_packets"))
                   | _ => Raise AttributeError
                   end
      | _ => Raise AttributeError
      end
  end.

Definition emoji_flag (decoded : pydict) : bool :=
  dmem decoded (u "emoji") && py_eqb (dget_none decoded (u "emoji")) (VInt EMOJI_FLAG_VALUE).

(** Some true: a direct message to the relay; [None]: for another node.
    [BROADCAST_NUM] is the constant of the Meshtastic package. *)
Definition addressee (BROADCAST_NUM : Z) (to_id my_id : pyval) : option bool :=
  if py_eqb to_id my_id then Some true
  else if py_eqb to_id (VInt BROADCAST_NUM) || is_none to_id then Some false
  else None.

(** [a or b] on values. *)
Definition or_val (a b : pyval) : pyval := if truthy a then a else b.

Definition packet_sender (packet : pydict) : pyval :=
  or_val (dget_none packet (u "fromId")) (dget_none packet (u "from")).

Definition packet_text (decoded : pydict) : pystr :=
  match dget_none decoded (u "text") with VStr s => s | _ => [] end.
Definition text_option (decoded : pydict) : option pystr :=
  match dget_none decoded (u "text") with VStr s => Some s | _ => None end.
Definition packet_id (packet : pydict) : option Z :=
  match dget_none packet (u "id") with VInt z => Some z | _ => None end.
Definition reply_number (decoded : pydict) : option Z :=
  match dget_none decoded (u "replyId") with VInt z => Some z | _ => None end.

(** [config["meshtastic"]["meshnet_name"]]; a name that is no string cannot be
    cut for the prefix. *)
Definition config_meshnet_name (config : pydict) : res pystr :=
  match dget config (u "meshtastic") with
  | Some (VDict m) =>
      match dget m (u "meshnet_name") with
      | Some (VStr s) => Ok s
      | Some _ => Raise TypeError
      | None => Raise KeyError
      end
  | Some _ => Raise TypeError
  | None => Raise KeyError
  end.

(** ** Rooms and channels *)

Definition _get_iterable_matrix_rooms (matrix_rooms : pyval) : list pyval :=
  match matrix_rooms with
  | VDict d => d.*2
  | VSeq _ l => l
  | _ => []
  end.

Definition chat_portnum (portnum : pyval) : bool :=
  portnum_in portnum PORTNUM_TEXT_MESSAGE_APP TEXT_MESSAGE_APP ||
  portnum_in portnum PORTNUM_DETECTION_SENSOR_APP DETECTION_SENSOR_APP.

(** The channel of a packet that may be relayed; [None]: the relay is skipped. *)
Definition packet_channel (packet : pydict) (portnum : pyval) : res (option Z) :=
  let raw := dget_none packet (u "channel") in
  let dflt := if chat_portnum portnum then Some DEFAULT_CHANNEL_VALUE else None in
  if is_none raw then Ok dflt else
  match int_of_val raw with
  | Ok z => Ok (Some z)
  | Raise e => if is_type_or_value e then Ok dflt else Raise e
  end.

(** [None]: not a room for this channel; a room configuration whose channel
    cannot be read is skipped, unless the conversion raises. *)
Definition room_for_channel (channel : Z) (room : pyval) : res (option pydict) :=
  match room with
  | VDict r =>
      let! c := _normalize_room_channel r in
      Ok (match c with
          | Some c => if c =? channel then Some r else None
          | None => None
          end)
  | _ => Ok None
  end.

(** The search for one room of the channel, which stops at the first. *)
Fixpoint channel_mapped (channel : Z) (rooms : list pyval) : res bool :=
  match rooms with
  | [] => Ok false
  | room :: rooms =>
      let! r := room_for_channel channel room in
      match r with Some _ => Ok true | None => channel_mapped channel rooms end
  end.

(** ** Relaying *)

Record relay_request := { rq_room : pyval; rq_message : relay_message }.

(** The names, the warnings, the number of plugins called, the relays scheduled
    and the exception that ended the loop over the rooms, if one did. *)
Record inbound := {
  ib_names : names; ib_warnings : warn_state; ib_plugins : nat;
  ib_relays : list relay_request; ib_raised : option pyexc }.

(** Nothing relayed, [called] plugins called. *)
Definition no_relay (n : names) (w : warn_state) (called : nat) : inbound :=
  {| ib_names := n; ib_warnings := w; ib_plugins := called; ib_relays := [];
     ib_raised := None |}.

(** The loop over the rooms: a relay for each room of the channel.  A room
    without an [id] is logged and skipped. *)
Fixpoint relay_rooms (channel : Z) (m : relay_message) (rooms : list pyval)
    : list relay_request * option pyexc :=
  match rooms with
  | [] => ([], None)
  | room :: rooms =>
      match room_for_channel channel room with
      | Raise e => ([], Some e)
      | Ok r =>
          let '(qs, raised) := relay_rooms channel m rooms in
          match r ≫= (λ room, dget room (u "id")) with
          | Some id => ({| rq_room := id; rq_message := m |} :: qs, raised)
          | None => (qs, raised)
          end
      end
  end.

Section inbound.
Context (BROADCAST_NUM : Z) (PortNum_Name : Z → option pystr)
  (format_other : pystr → vars → res pystr) (other_str : pyval → pystr).

(** The message of a reaction: the emoji, or a warning sign, and the beginning
    of the original text. *)
Definition reaction_text (prefix text original : pystr) : pystr :=
  let abbreviated := if Nat.ltb 40 (length original) then take 40 original ++ u "..."
                     else original in
  let symbol := if nonempty (strip text) then strip text else [9888; 65039] in
  [10; 32] ++ prefix ++ u "reacted " ++ symbol ++ u " to " ++ [34] ++ abbreviated ++ [34].

(** Reactions and replies to a message of the map: [Some] the relay. *)
Definition interaction_relay `{MessageMapStore T} (config : pyval) (db : T) (n : names)
    (err : bool) (packet decoded : pydict) (meshnet_name : pystr)
    (interactions : Settings.interactions) : res (option relay_request) :=
  let portnum := dget_none decoded (u "portnum") in
  let reply_id := dget_none decoded (u "replyId") in
  let text := packet_text decoded in
  let sender := packet_sender packet in
  let emoji := emoji_flag decoded in
  if _is_text_message_portnum PortNum_Name portnum && truthy reply_id &&
     (if emoji then reactions interactions else replies interactions) then
    match mms_by_mesh db (to_str other_str reply_id) with
    | None => Ok None
    | Some orig =>
        let longname := _get_name_safely other_str (get_longname other_str err n sender) sender in
        let shortname := _get_name_safely other_str (get_shortname other_str err n sender) sender in
        let meshnet :=
          match mm_meshnet orig with Some ((_ :: _) as s) => s | _ => meshnet_name end in
        let! prefix := get_matrix_prefix format_other other_str config longname shortname meshnet in
        Ok (Some {| rq_room := VStr (mm_matrix_room_id orig);
          rq_message :=
            {| rl_message := if emoji then reaction_text prefix text (mm_text orig)
                             else prefix ++ to_str other_str (dget_none decoded (u "text"));
               rl_longname := longname; rl_shortname := shortname; rl_meshnet_name := meshnet;
               rl_portnum := dget_or decoded (u "portnum") (VInt 0);
               rl_meshtastic_id := packet_id packet;
               rl_meshtastic_replyId := reply_number decoded;
               rl_meshtastic_text := if emoji then Some (mm_text orig)
                                     else text_option decoded;
               rl_emote := emoji; rl_emoji := emoji;
               rl_reply_to_event_id :=
                 if emoji then None else Some (mm_matrix_event_id orig) |} |})
    end
  else Ok None.

(** A text: plugins first, then every room of its channel. *)
Definition deliver_text (config : pyval) (n : names) (err : bool) (nodes : pydict)
    (packet decoded : pydict) (action : PacketAction) (is_direct_message : bool)
    (meshnet_name : pystr) (matrix_rooms : pyval) (plugins : list plugin_reply)
    (w : warn_state) : res inbound :=
  let portnum := dget_none decoded (u "portnum") in
  let text := packet_text decoded in
  let sender := packet_sender packet in
  let rooms := _get_iterable_matrix_rooms matrix_rooms in
  let! channel := if decide (action = RELAY) then packet_channel packet portnum else Ok None in
  let! mapped := match channel with
                 | Some c => channel_mapped c rooms
                 | None => Ok false
                 end in
  let! r := resolve_names other_str err nodes sender n in
  let '(n, longname, shortname) := r in
  let! prefix := get_matrix_prefix format_other other_str config longname shortname meshnet_name in
  let formatted_message := prefix ++ text in
  let '(found_matching_plugin, called) := _run_meshtastic_plugins plugins in
  let message :=
    {| rl_message := formatted_message; rl_longname := longname;
       rl_shortname := shortname; rl_meshnet_name := meshnet_name;
       rl_portnum := dget_or decoded (u "portnum") (VInt 0);
       rl_meshtastic_id := packet_id packet; rl_meshtastic_replyId := None;
       rl_meshtastic_text := Some text; rl_emote := false; rl_emoji := false;
       rl_reply_to_event_id := None |} in
  let '(relays, raised) :=
    match channel with
    | Some c => if is_direct_message || found_matching_plugin || negb mapped then ([], None)
                else relay_rooms c message rooms
    | None => ([], None)
    end in
  Ok {| ib_names := n; ib_warnings := w; ib_plugins := called; ib_relays := relays;
        ib_raised := raised |}.

(** From the decoding to the end.  [my_id]: the node number of the interface,
    [None] when it has no [myInfo]. *)
Definition route_packet `{MessageMapStore T} (g : session) (config : pyval) (packet : pydict)
    (my_id : option pyval) (nodes : pydict) (matrix_rooms : pyval)
    (plugins : list plugin_reply) (err : bool) (db : T) (n : names) (w : warn_state)
    : res inbound :=
  let stop w := Ok (no_relay n w 0) in
  let decoded := match dget_none packet (u "decoded") with VDict d => d | _ => [] end in
  let portnum := dget_none decoded (u "portnum") in
  match config with
  | VDict c =>
      let '(action, w) := classify_packet PortNum_Name portnum config (Some packet) w in
      if decide (action = DROP) then stop w else
      let! _ := full_packets_setting c in
      let interactions := get_interaction_settings config in
      if _is_text_message_portnum PortNum_Name portnum && negb (reactions interactions) &&
         negb (is_none (dget_none decoded (u "replyId"))) && emoji_flag decoded
      then stop w else
      if negb (se_event_loop g) then stop w else
      match my_id with
      | None => stop w
      | Some my_id =>
          match addressee BROADCAST_NUM (dget_none packet (u "to")) my_id with
          | None => stop w
          | Some is_direct_message =>
              let! meshnet_name := config_meshnet_name c in
              let! r := if decide (action = RELAY)
                        then interaction_relay config db n err packet decoded meshnet_name
                               interactions
                        else Ok None in
              match r with
              | Some q =>
                  Ok {| ib_names := n; ib_warnings := w; ib_plugins := 0; ib_relays := [q];
                        ib_raised := None |}
              | None =>
                  if nonempty (packet_text decoded) then
                    deliver_text config n err nodes packet decoded action is_direct_message
                      meshnet_name matrix_rooms plugins w
                  else
                    Ok (no_relay n w (_run_meshtastic_plugins plugins).2)
              end
          end
      end
  | _ => stop w
  end.

(** [local_node_num]: the number of the interface's local node, which stands in
    for [myInfo] when a probe response is recognised. *)
Definition on_meshtastic_message `{MessageMapStore T} (g : session) (now_wall now : Q)
    (config : pyval) (packet : pydict) (interface_id : Z) (my_id : option pyval)
    (local_node_num : pyval) (nodes : pydict) (matrix_rooms : pyval) (plugins : list plugin_reply) (err : bool)
    (db : T) (n : names) (w : warn_state) (st : relay_clock)
    : res (relay_clock * inbound) :=
  let local_num_raw :=
    match my_id with Some v => if is_none v then local_node_num else v | None => local_node_num end in
  let! a := admit_packet g now_wall now packet interface_id local_num_raw st in
  let '(st, taken) := a in
  if taken then
    let! out := route_packet g config packet my_id nodes matrix_rooms plugins err db n w in
    Ok (st, out)
  else Ok (st, no_relay n w 0).
End inbound.

(** ** Lemmas *)

(** The cut-off after a packet has been looked at. *)
Definition cutoff (st : relay_clock) : Q := (rc_start_time st - default 0 (rc_skew st))%Q.

Lemma seed_from_packet_same now_wall now rx st :
  same_session st (seed_from_packet now_wall now rx st).1.
Proof.
  unfold seed_from_packet. destruct rx as [q|[]|]; [|done|apply seed_same_session|done].
  destruct (qlt 0 q); [apply seed_same_session | done].
Qed.

Lemma clock_filter_fresh now_wall now rx st st' :
  clock_filter now_wall now rx st = (st', false) →
  rc_start_time st' = rc_start_time st ∧
  ∀ q, rx = FFin q → (0 < q)%Q → (cutoff st' <= q)%Q.
Proof.
  unfold clock_filter, cutoff. pose proof (seed_from_packet_same now_wall now rx st) as [Hs _].
  destruct (seed_from_packet now_wall now rx st) as [st1 calibrated]; cbn [fst] in Hs.
  destruct (calibrated && rx_before rx (rc_start_time st)); [done |].
  intros [= <- Hold]. split; [done |]. intros q -> Hq.
  cbn [fpos rx_before] in Hold. rewrite (proj2 (qlt_spec 0 q) Hq) in Hold. cbn [andb] in Hold.
  destruct (rc_skew st1); cbn [from_option id] in *; q_lra.
Qed.

Lemma startup_drain_over now_wall now rx st st' :
  startup_drain now_wall now rx st = (st', false) →
  rc_start_time st' = rc_start_time st ∧ ∀ d, rc_drain_deadline st = Some d → (d <= now)%Q.
Proof.
  unfold startup_drain. destruct (rc_drain_deadline st) as [d|]; [|by intros [= ->]].
  destruct (qlt 0 (d - now)) eqn:E; [done |]. intros [= <-]. split.
  - by destruct (default false (rc_drain_timer st)).
  - intros ? [= <-]. q_lra.
Qed.

(** The identifier of a room that serves the channel. *)
Definition room_target (channel : Z) (room : pyval) : option pyval :=
  match room_for_channel channel room with
  | Ok (Some r) => dget r (u "id")
  | _ => None
  end.

Lemma room_for_channel_Some channel room r :
  room_for_channel channel room = Ok (Some r) →
  room = VDict r ∧ _normalize_room_channel r = Ok (Some channel).
Proof.
  destruct room; try done. cbn [room_for_channel].
  destruct (_normalize_room_channel _) as [[c|]|] eqn:E; cbn [res_bind]; [|done|done].
  destruct (Z.eqb_spec c channel) as [->|]; [|done]. by intros [= <-].
Qed.

Lemma relay_rooms_sound channel m rooms q :
  q ∈ (relay_rooms channel m rooms).1 →
  rq_message q = m ∧ ∃ room, VDict room ∈ rooms ∧
    _normalize_room_channel room = Ok (Some channel) ∧ dget room (u "id") = Some (rq_room q).
Proof.
  induction rooms as [|room rooms IH]; cbn [relay_rooms]; [set_solver |].
  destruct (room_for_channel channel room) as [r|] eqn:Er; [|set_solver].
  destruct (relay_rooms channel m rooms) as [qs raised]; cbn [fst] in *.
  destruct (r ≫= _) as [id|] eqn:Eid.
  - intros [->|Hq]%elem_of_cons;
      [|destruct (IH Hq) as (? & r' & ? & ?); split; [done | exists r'; by split; [right |]]].
    destruct r as [r|]; [|done]. apply room_for_channel_Some in Er as [-> Hn]. split; [done |].
    exists r. split_and!; [by left | done | done].
  - intros Hq. destruct (IH Hq) as (? & r' & ? & ?).
    split; [done | exists r'; by split; [right |]].
Qed.

Lemma relay_rooms_complete channel m rooms qs :
  relay_rooms channel m rooms = (qs, None) → rq_room <$> qs = omap (room_target channel) rooms.
Proof.
  revert qs. induction rooms as [|room rooms IH]; cbn [relay_rooms]; intros qs; [by intros [= <-] |].
  destruct (room_for_channel channel room) as [r|] eqn:Er; [|done].
  destruct (relay_rooms channel m rooms) as [qs' raised].
  cbn [omap list_omap]. unfold room_target at 1. rewrite Er.
  destruct r as [r|]; cbn [mbind option_bind]; [destruct (dget r (u "id"))|];
    intros [= <- ->]; csimpl; by rewrite <- (IH qs' eq_refl).
Qed.

Lemma channel_mapped_target channel rooms :
  channel_mapped channel rooms = Ok false → omap (room_target channel) rooms = [].
Proof.
  induction rooms as [|room rooms IH]; [done |]. cbn [channel_mapped].
  destruct (room_for_channel channel room) as [[r|]|] eqn:Er; cbn [res_bind]; [done | | done].
  intros H. cbn [omap list_omap]. unfold room_target at 1. rewrite Er. by apply IH.
Qed.

(** The interface is the active one; when there is none, no session is being
    used, made or torn down. *)
Definition from_active_session (g : session) (interface_id : Z) : Prop :=
  match se_client g with
  | Some c => interface_id = default c (se_active_client_id g)
  | None => se_subscribed g = false ∧ se_reconnecting g = false ∧ se_tearing_down g = false
  end.

(** What is known of a packet that is taken. *)
Lemma admit_packet_facts g now_wall now packet interface_id local st st' :
  admit_packet g now_wall now packet interface_id local st = Ok (st', true) →
  packet ≠ [] ∧ se_shutting_down g = false ∧
  from_active_session g interface_id ∧
  (∀ d, rc_drain_deadline st = Some d → (d <= now)%Q) ∧
  rc_start_time st' = rc_start_time st ∧
  ∃ rx, parse_rx_time packet = Ok rx ∧
    ∀ q, rx = FFin q → (0 < q)%Q → (cutoff st' <= q)%Q.
Proof.
  unfold admit_packet. destruct packet as [|kv packet]; [done |].
  destruct (se_shutting_down g) eqn:Esh; [done |].
  destruct (ignore_interface g interface_id) eqn:Ei; [done |].
  destruct (parse_rx_time _) as [rx|] eqn:Erx; cbn [res_bind]; [|done].
  destruct (_claim_health_probe_response_and_maybe_calibrate _ _ _ _ _ _) as [[st1 []]|] eqn:Ec;
    cbn [res_bind]; [done | | done].
  apply claim_same_session in Ec as [Hs1 Hd1].
  destruct (startup_drain now_wall now rx st1) as [st2 []] eqn:Ed; [done |].
  apply startup_drain_over in Ed as [Hs2 Hd2].
  destruct (clock_filter now_wall now rx st2) as [st3 []] eqn:Ef; [done |]. intros [= <-].
  apply clock_filter_fresh in Ef as [Hs3 Hf].
  split_and!; [done | done | | | congruence | by exists rx].
  - unfold ignore_interface in Ei. unfold from_active_session.
    destruct (se_client g); bool_prop; [lia | done].
  - intros d Hd. apply Hd2. congruence.
Qed.

(** ** Properties *)

(** C6: the handler acts on a packet (relays it, shows it to a plugin or saves a
    name) only if the packet is not empty, it arrived while the relay was not
    shutting down, on the active interface, after the start-up drain, and is not
    older than the start of the relay less the skew of the packet clock; a packet
    without a usable time is not judged by it.  When no interface is active, it
    acts only while the relay is not subscribed, not reconnecting and not tearing
    a session down. *)
Theorem admission_sound bn pn fo os `{MessageMapStore T} g now_wall now config packet interface_id
    my_id local nodes rooms plugins err (db : T) n w st st' out :
  on_meshtastic_message bn pn fo os g now_wall now config packet interface_id my_id local nodes
    rooms plugins err db n w st = Ok (st', out) →
  ib_relays out ≠ [] ∨ ib_plugins out ≠ 0%nat ∨ ib_names out ≠ n →
  packet ≠ [] ∧ se_shutting_down g = false ∧
  from_active_session g interface_id ∧
  (∀ d, rc_drain_deadline st = Some d → (d <= now)%Q) ∧
  rc_start_time st' = rc_start_time st ∧
  ∃ rx, parse_rx_time packet = Ok rx ∧
    ∀ q, rx = FFin q → (0 < q)%Q → (cutoff st' <= q)%Q.
Proof.
  unfold on_meshtastic_message. cbv zeta.
  destruct (admit_packet _ _ _ _ _ _ _) as [[st1 taken]|] eqn:Ea; cbn [res_bind]; [|done].
  destruct taken.
  - destruct (route_packet _ _ _ _ _ _ _ _ _ _ _ _ _ _ _); cbn [res_bind]; [|done].
    intros [= <- <-] _. by apply admit_packet_facts in Ea.
  - intros [= <- <-] [?|[?|?]]; done.
Qed.

(** Fresh traffic gets through: once the packet clock is calibrated and the
    drain is over, a packet of the active interface with no request identifier
    and a time at or after the cut-off is taken, and the clock state is left
    alone. *)
Theorem fresh_packet_admitted g now_wall now packet interface_id local st rx s :
  packet ≠ [] → se_shutting_down g = false → ignore_interface g interface_id = false →
  _extract_packet_request_id (VDict packet) = Ok None →
  rc_skew st = Some s → rc_drain_deadline st = None →
  parse_rx_time packet = Ok (FFin rx) → (rc_start_time st - s <= rx)%Q →
  admit_packet g now_wall now packet interface_id local st = Ok (st, true).
Proof.
  intros Hp Hsh Hi Hid Hs Hd Hrx Hf. unfold admit_packet.
  destruct packet as [|kv packet]; [done |]. rewrite Hsh, Hi, Hrx. cbn [res_bind].
  unfold _claim_health_probe_response_and_maybe_calibrate. rewrite Hid. cbn [res_bind].
  unfold startup_drain. rewrite Hd. unfold clock_filter.
  assert (seed_from_packet now_wall now (FFin rx) st = (st, false)) as ->.
  { unfold seed_from_packet, _seed_connect_time_skew. rewrite Hs. by repeat case_match. }
  cbn [andb]. rewrite Hs. cbn [rx_before].
  by rewrite (proj2 (qlt_false _ _) Hf), andb_false_r.
Qed.

Section routing.
Context (BROADCAST_NUM : Z) (PortNum_Name : Z → option pystr)
  (format_other : pystr → vars → res pystr) (other_str : pyval → pystr).
Context `{MessageMapStore T}.

(** What a delivered text gives, by the channel of the packet. *)
Lemma deliver_text_cases config n err nodes packet decoded action dm mn rooms plugins w out :
  deliver_text format_other other_str config n err nodes packet decoded action dm mn rooms
    plugins w = Ok out →
  (ib_relays out = [] ∧ ib_raised out = None ∧
   ∀ c, action = RELAY → packet_channel packet (dget_none decoded (u "portnum")) = Ok (Some c) →
     dm = true ∨ (_run_meshtastic_plugins plugins).1 = true ∨
     omap (room_target c) (_get_iterable_matrix_rooms rooms) = []) ∨
  (action = RELAY ∧ dm = false ∧ (_run_meshtastic_plugins plugins).1 = false ∧
   ∃ c m, packet_channel packet (dget_none decoded (u "portnum")) = Ok (Some c) ∧
     (ib_relays out, ib_raised out) = relay_rooms c m (_get_iterable_matrix_rooms rooms)).
Proof.
  unfold deliver_text. cbv zeta.
  destruct (if decide (action = RELAY) then _ else _) as [ch|] eqn:Ech; cbn [res_bind]; [|done].
  destruct (match ch with Some _ => _ | None => _ end) as [mapped|] eqn:Em; cbn [res_bind]; [|done].
  destruct (resolve_names _ _ _ _ _) as [[[n' ln] sn]|]; cbn [res_bind]; [|done].
  destruct (get_matrix_prefix _ _ _ _ _ _) as [prefix|]; cbn [res_bind]; [|done].
  destruct (_run_meshtastic_plugins plugins) as [found called]; cbn [fst].
  destruct ch as [c|].
  2:{ intros [= <-]. left. split_and!; [done | done |]. intros c -> Hc.
      rewrite decide_True in Ech by done. congruence. }
  destruct (decide (action = RELAY)) as [->|]; [|done].
  destruct dm; cbn [orb]; [intros [= <-]; left; split_and!; [done | done | by left] |].
  destruct found; cbn [orb]; [intros [= <-]; left; split_and!; [done | done | by right; left] |].
  destruct mapped; cbn [negb].
  - set (m := Build_relay_message _ _ _ _ _ _ _ _ _ _ _).
    destruct (relay_rooms c m _) as [qs raised] eqn:Er. intros [= <-]. right.
    split_and!; [done | done | done |]. by exists c, m.
  - intros [= <-]. left. split_and!; [done | done |]. intros c' _ Hc'. right; right.
    apply channel_mapped_target. congruence.
Qed.

(** The relay of a reaction or a reply goes to the room of the message it
    answers. *)
Lemma interaction_relay_cases config (db : T) n err packet decoded mn ix q :
  interaction_relay PortNum_Name format_other other_str config db n err packet decoded mn ix
    = Ok (Some q) →
  truthy (dget_none decoded (u "replyId")) = true ∧
  (if emoji_flag decoded then reactions ix else replies ix) = true ∧
  ∃ orig, mms_by_mesh db (to_str other_str (dget_none decoded (u "replyId"))) = Some orig ∧
    rq_room q = VStr (mm_matrix_room_id orig) ∧
    rl_reply_to_event_id (rq_message q) =
      (if emoji_flag decoded then None else Some (mm_matrix_event_id orig)).
Proof.
  unfold interaction_relay. cbv zeta. destruct (_ && _ && _) eqn:E; [|done]. bool_prop.
  destruct (mms_by_mesh _ _) as [orig|]; [|done].
  destruct (get_matrix_prefix _ _ _ _ _ _); cbn [res_bind]; [|done].
  intros [= <-]. split_and!; [done | done |]. by exists orig.
Qed.

(** The stages a packet goes through before it can be relayed. *)
Lemma route_packet_inv g c packet my_id nodes rooms plugins err (db : T) n w out q :
  route_packet BROADCAST_NUM PortNum_Name format_other other_str g (VDict c) packet my_id nodes rooms plugins
    err db n w = Ok out → q ∈ ib_relays out →
  let decoded := match dget_none packet (u "decoded") with VDict d => d | _ => [] end in
  ∃ w' dm mn,
    classify_packet PortNum_Name (dget_none decoded (u "portnum")) (VDict c) (Some packet) w
      = (RELAY, w') ∧
    my_id ≫= addressee BROADCAST_NUM (dget_none packet (u "to")) = Some dm ∧
    ((interaction_relay PortNum_Name format_other other_str (VDict c) db n err packet decoded mn
        (get_interaction_settings (VDict c)) = Ok (Some q) ∧ ib_relays out = [q]) ∨
     deliver_text format_other other_str (VDict c) n err nodes packet decoded RELAY dm mn rooms
       plugins w' = Ok out).
Proof.
  unfold route_packet. cbv zeta.
  set (decoded := match dget_none packet (u "decoded") with VDict d => d | _ => [] end).
  destruct (classify_packet _ _ _ _ _) as [action w'] eqn:Ea.
  destruct (decide (action = DROP)); [intros [= <-]; set_solver |].
  destruct (full_packets_setting c); cbn [res_bind]; [|done].
  destruct (_ && _ && _ && _); [intros [= <-]; set_solver |].
  destruct (negb (se_event_loop g)); [intros [= <-]; set_solver |].
  destruct my_id as [my_id|]; [|intros [= <-]; set_solver]. cbn [mbind option_bind].
  destruct (addressee _ _) as [dm|]; [|intros [= <-]; set_solver].
  destruct (config_meshnet_name c) as [mn|]; cbn [res_bind]; [|done].
  destruct (decide (action = RELAY)) as [->|Hr].
  - destruct (interaction_relay _ _ _ _ _ _ _ _ _ _ _) as [[q'|]|] eqn:Ei; cbn [res_bind]; [| |done].
    + intros [= <-] ->%list_elem_of_singleton. exists w', dm, mn. split_and!; [done | done |]. by left.
    + destruct (nonempty _); [|intros [= <-]; set_solver].
      intros Hd _. exists w', dm, mn. split_and!; [done | done |]. by right.
  - cbn [res_bind]. destruct (nonempty _); [|intros [= <-]; set_solver]. intros Hd Hq.
    apply deliver_text_cases in Hd as [[E _]|[? _]]; [|done]. rewrite E in Hq. set_solver.
Qed.

(** C4: a message leaves the mesh only where it may: every relay that is
    scheduled comes from a packet whose classification is RELAY and which is
    addressed to the relay or to everyone, and goes either to the room of the
    message it reacts or replies to, alone, with that interaction enabled, or
    to a configured room of the channel of the packet, which then is a
    broadcast no plugin has handled. *)
Theorem relays_sound g c packet my_id nodes rooms plugins err (db : T) n w out q :
  route_packet BROADCAST_NUM PortNum_Name format_other other_str g (VDict c) packet my_id nodes rooms plugins
    err db n w = Ok out → q ∈ ib_relays out →
  let decoded := match dget_none packet (u "decoded") with VDict d => d | _ => [] end in
  let portnum := dget_none decoded (u "portnum") in
  let interactions := get_interaction_settings (VDict c) in
  (classify_packet PortNum_Name portnum (VDict c) (Some packet) w).1 = RELAY ∧
  ∃ dm, my_id ≫= addressee BROADCAST_NUM (dget_none packet (u "to")) = Some dm ∧
    ((ib_relays out = [q] ∧
      (if emoji_flag decoded then reactions interactions else replies interactions) = true ∧
      ∃ orig, mms_by_mesh db (to_str other_str (dget_none decoded (u "replyId"))) = Some orig ∧
        rq_room q = VStr (mm_matrix_room_id orig) ∧
        rl_reply_to_event_id (rq_message q) =
          (if emoji_flag decoded then None else Some (mm_matrix_event_id orig))) ∨
     (dm = false ∧ (_run_meshtastic_plugins plugins).1 = false ∧
      ∃ ch room, packet_channel packet portnum = Ok (Some ch) ∧
        VDict room ∈ _get_iterable_matrix_rooms rooms ∧
        _normalize_room_channel room = Ok (Some ch) ∧ dget room (u "id") = Some (rq_room q))).
Proof.
  intros Hout Hq. cbv zeta.
  destruct (route_packet_inv _ _ _ _ _ _ _ _ _ _ _ _ _ Hout Hq) as (w' & dm & mn & -> & Hdm & Hc).
  split; [done |]. exists dm. split; [done |]. destruct Hc as [[Hi E]|Hd].
  - left. destruct (interaction_relay_cases _ _ _ _ _ _ _ _ _ Hi) as (_ & Hon & Ho). by split_and!.
  - right. apply deliver_text_cases in Hd as [[E _]|(_ & -> & Hp & ch & m & Hch & Er)].
    + rewrite E in Hq. set_solver.
    + split_and!; [done | done |].
      rewrite (f_equal fst Er : ib_relays out = _) in Hq.
      destruct (relay_rooms_sound _ _ _ _ Hq) as (_ & room & ?). by exists ch, room.
Qed.

(** A broadcast reaches every room: the text of a RELAY packet that is not
    a direct message and that no plugin handles is relayed to exactly the
    configured rooms of its channel, in order and once each. *)
Theorem broadcast_complete config n err nodes packet decoded mn rooms plugins w out ch :
  deliver_text format_other other_str config n err nodes packet decoded RELAY false mn rooms
    plugins w = Ok out →
  packet_channel packet (dget_none decoded (u "portnum")) = Ok (Some ch) →
  (_run_meshtastic_plugins plugins).1 = false → ib_raised out = None →
  rq_room <$> ib_relays out = omap (room_target ch) (_get_iterable_matrix_rooms rooms).
Proof.
  intros Hd Hch Hp Hr.
  apply deliver_text_cases in Hd as [(-> & _ & Hwhy)|(_ & _ & _ & c & m & Hc & Er)].
  - destruct (Hwhy ch eq_refl Hch) as [?|[?|Ht]]; [done | congruence | by rewrite Ht].
  - rewrite Hch in Hc. injection Hc as <-. rewrite Hr in Er. symmetry in Er.
    by apply relay_rooms_complete in Er.
Qed.

(** With reactions off, a reaction is neither relayed nor shown to a
    plugin, whatever it answers. *)
Theorem disabled_reaction_silent g c packet my_id nodes rooms plugins err (db : T) n w out :
  let decoded := match dget_none packet (u "decoded") with VDict d => d | _ => [] end in
  route_packet BROADCAST_NUM PortNum_Name format_other other_str g (VDict c) packet my_id nodes rooms plugins
    err db n w = Ok out →
  _is_text_message_portnum PortNum_Name (dget_none decoded (u "portnum")) = true →
  dget_none decoded (u "replyId") ≠ VNone → emoji_flag decoded = true →
  reactions (get_interaction_settings (VDict c)) = false →
  ib_relays out = [] ∧ ib_plugins out = 0%nat ∧ ib_names out = n.
Proof.
  cbv zeta. unfold route_packet. cbv zeta.
  set (decoded := match dget_none packet (u "decoded") with VDict d => d | _ => [] end).
  intros Hout Ht Hid He Hoff. rewrite Ht, He, Hoff in Hout.
  destruct (classify_packet _ _ _ _ _) as [action w'].
  destruct (decide (action = DROP)); [by simplify_eq |].
  destruct (full_packets_setting c); cbn [res_bind] in Hout; [|done].
  assert (is_none (dget_none decoded (u "replyId")) = false) as Hn
    by (by destruct (dget_none decoded (u "replyId"))).
  rewrite Hn in Hout. cbn [negb andb] in Hout. by simplify_eq.
Qed.

(** An empty [debug] section of the logging configuration stops the relay:
    every packet that is not dropped raises an [AttributeError] before it
    reaches a plugin or a room. *)
Theorem debug_section_none_raises g c l packet my_id nodes rooms plugins err (db : T) n w :
  dget c (u "logging") = Some (VDict l) → dget l (u "debug") = Some VNone →
  let decoded := match dget_none packet (u "decoded") with VDict d => d | _ => [] end in
  (classify_packet PortNum_Name (dget_none decoded (u "portnum")) (VDict c) (Some packet) w).1
    ≠ DROP →
  route_packet BROADCAST_NUM PortNum_Name format_other other_str g (VDict c) packet my_id nodes rooms plugins
    err db n w = Raise AttributeError.
Proof.
  intros Hl Hd. cbv zeta. unfold route_packet. cbv zeta.
  destruct (classify_packet _ _ _ _ _) as [action w']; cbn [fst]. intros Ha.
  rewrite decide_False by done.
  assert (full_packets_setting c = Raise AttributeError) as ->; [|done].
  unfold full_packets_setting. destruct c; [done |]. unfold dget_or. rewrite Hl. cbn [from_option id].
  by rewrite Hd.
Qed.
End routing.

(** ** Witnesses *)

Definition demo_session : session :=
  {| se_shutting_down := false; se_client := Some 5; se_active_client_id := Some 5;
     se_tearing_down := false; se_subscribed := true; se_reconnecting := false;
     se_event_loop := true |}.
Definition demo_running : relay_clock :=
  {| rc_start_time := 1000; rc_skew := Some 10%Q; rc_connection_started := 0;
     rc_drain_deadline := None; rc_drain_timer := None; rc_bootstrap_deadline := None;
     rc_drain_complete := true;
     rc_probes := ∅ |}.
Definition demo_broadcast : Z := 4294967295.
Definition demo_packet (decoded : pydict) : pydict :=
  [(u "fromId", VStr (u "!a")); (u "to", VInt demo_broadcast); (u "id", VInt 77);
   (u "channel", VInt 2); (u "rxTime", VInt 995); (u "decoded", VDict decoded)].
Definition demo_text : pydict :=
  [(u "portnum", VStr (u "TEXT_MESSAGE_APP")); (u "text", VStr (u "hello"))].
Definition demo_reaction : pydict :=
  [(u "portnum", VStr (u "TEXT_MESSAGE_APP")); (u "text", VStr (u "+"));
   (u "replyId", VInt 9); (u "emoji", VInt 1)].
Definition demo_inbound_config : pydict :=
  [(u "meshtastic", VDict [(u "meshnet_name", VStr (u "net"))])].
Definition demo_rooms : pyval :=
  VSeq KList [VDict [(u "id", VStr (u "!x:s")); (u "meshtastic_channel", VInt 2)];
              VDict [(u "id", VStr (u "!y:s")); (u "meshtastic_channel", VInt 1)];
              VDict [(u "id", VStr (u "!z:s")); (u "meshtastic_channel", VInt 2)]].
Definition demo_other (v : pyval) : pystr := [].
Definition demo_fmt (s : pystr) (v : vars) : res pystr := Ok s.
Definition no_names : names := {| nm_long := ∅; nm_short := ∅ |}.

Definition demo_route (decoded : pydict) : res inbound :=
  route_packet demo_broadcast demo_names demo_fmt demo_other demo_session (VDict demo_inbound_config)
    (demo_packet decoded) (Some (VInt 1)) [] demo_rooms [ReplyValue false] false ([] : table)
    no_names no_warnings.

Lemma admission_sound_witness :
  ∃ out, on_meshtastic_message demo_broadcast demo_names demo_fmt demo_other demo_session 2000 5
    (VDict demo_inbound_config) (demo_packet demo_text) 5 (Some (VInt 1)) VNone [] demo_rooms
    [ReplyValue false] false ([] : table) no_names no_warnings demo_running
    = Ok (demo_running, out) ∧ ib_relays out ≠ [] ∧ (cutoff demo_running <= 995)%Q.
Proof.
  destruct (demo_route demo_text) as [out|] eqn:E; [|vm_compute in E; discriminate E].
  exists out. assert (on_meshtastic_message demo_broadcast demo_names demo_fmt demo_other
    demo_session 2000 5 (VDict demo_inbound_config) (demo_packet demo_text) 5 (Some (VInt 1)) VNone
    [] demo_rooms [ReplyValue false] false ([] : table) no_names no_warnings demo_running
    = Ok (demo_running, out)) as H by (vm_compute in E; injection E as <-; vm_compute; reflexivity).
  assert (ib_relays out ≠ []) as Hr by (vm_compute in E; injection E as <-; discriminate).
  split; [exact H |]. split; [exact Hr |].
  destruct (admission_sound demo_broadcast demo_names demo_fmt demo_other _ _ _ _ _ _ _ _ _ _ _ _
    ([] : table) _ _ _ _ _ H (or_introl Hr)) as (_ & _ & _ & _ & _ & rx & Hrx & Hf).
  apply Hf; [vm_compute in Hrx; injection Hrx as <-; reflexivity | reflexivity].
Defined.

Lemma fresh_packet_admitted_witness :
  admit_packet demo_session 2000 5 (demo_packet demo_text) 5 (VInt 1) demo_running
    = Ok (demo_running, true).
Proof.
  apply (fresh_packet_admitted _ _ _ _ _ _ _ 995 10);
    [discriminate | reflexivity | reflexivity | vm_compute; reflexivity | reflexivity
    | reflexivity | vm_compute; reflexivity | vm_compute; discriminate].
Defined.

Lemma relays_sound_witness :
  ∃ out q, demo_route demo_text = Ok out ∧ q ∈ ib_relays out ∧
    (classify_packet demo_names (VStr (u "TEXT_MESSAGE_APP")) (VDict demo_inbound_config)
       (Some (demo_packet demo_text)) no_warnings).1 = RELAY.
Proof.
  destruct (demo_route demo_text) as [out|] eqn:E; [|vm_compute in E; discriminate E].
  destruct (ib_relays out) as [|q qs] eqn:Eq; [vm_compute in E; injection E as <-; discriminate Eq |].
  assert (q ∈ ib_relays out) as Hq by (rewrite Eq; left).
  exists out, q. split; [reflexivity |]. split; [exact Hq |].
  exact (proj1 (relays_sound demo_broadcast demo_names demo_fmt demo_other demo_session demo_inbound_config
    (demo_packet demo_text) (Some (VInt 1)) [] demo_rooms [ReplyValue false] false ([] : table)
    no_names no_warnings out q E Hq)).
Defined.

Lemma broadcast_complete_witness :
  ∃ out, deliver_text demo_fmt demo_other (VDict demo_inbound_config) no_names false []
    (demo_packet demo_text) demo_text RELAY false (u "net") demo_rooms [ReplyValue false]
    no_warnings = Ok out ∧
  rq_room <$> ib_relays out = [VStr (u "!x:s"); VStr (u "!z:s")].
Proof.
  destruct (deliver_text demo_fmt demo_other (VDict demo_inbound_config) no_names false []
    (demo_packet demo_text) demo_text RELAY false (u "net") demo_rooms [ReplyValue false]
    no_warnings) as [out|] eqn:E; [|vm_compute in E; discriminate E].
  exists out. split; [reflexivity |].
  rewrite (broadcast_complete demo_fmt demo_other _ _ _ _ _ _ _ _ _ _ out 2 E).
  - vm_compute. reflexivity.
  - vm_compute. reflexivity.
  - reflexivity.
  - vm_compute in E. injection E as <-. reflexivity.
Defined.

Lemma disabled_reaction_silent_witness :
  ∃ out, demo_route demo_reaction = Ok out ∧ ib_relays out = [].
Proof.
  destruct (demo_route demo_reaction) as [out|] eqn:E; [|vm_compute in E; discriminate E].
  exists out. split; [reflexivity |].
  apply (disabled_reaction_silent demo_broadcast demo_names demo_fmt demo_other demo_session demo_inbound_config
    (demo_packet demo_reaction) (Some (VInt 1)) [] demo_rooms [ReplyValue false] false
    ([] : table) no_names no_warnings out E); vm_compute; try discriminate; reflexivity.
Defined.

Lemma debug_section_none_raises_witness :
  route_packet demo_broadcast demo_names demo_fmt demo_other demo_session
    (VDict [(u "logging", VDict [(u "debug", VNone)])]) (demo_packet demo_text) None [] demo_rooms
    [] false ([] : table) no_names no_warnings = Raise AttributeError.
Proof.
  apply (debug_section_none_raises demo_broadcast demo_names demo_fmt demo_other demo_session _
    [(u "debug", VNone)]); [reflexivity | reflexivity | vm_compute; discriminate].
Defined.
