(* ===== verification/MatrixInbound.v ===== *)
(** * Events from Matrix

    Models the event handlers of [src/mmrelay/matrix/events.py]
    ([on_room_message], [on_invite], [on_decryption_failure]) with
    [_estimate_clock_rollback_ms], [_refresh_bot_start_timestamps] and
    [_handle_detection_sensor_packet] of [matrix/command_bridge.py].

    [on_room_message] is cut into its phases: the filter of stale events, the
    room, the reading of the event, reactions, replies, the text of the message,
    plugins, and the queue.  The queue is any [OutQueue], the map any
    [MessageMapStore].  The names, texts and identifiers in the content of an
    event are strings where they are present, and a relation is an object, as
    the schemas of the Matrix client require; log lines are left out. *)

From Stdlib Require Import String QArith Qround Lqa.
From stdpp Require Import base tactics list numbers gmap sets.
From S2P Require Import Prelude PyStr PyValue Settings PacketRouting Prefixes.
From S2P Require Import MessageMap QueueState MeshSend Replies RoomMapping MatrixRelay.
Open Scope Z_scope.

Definition MILLISECONDS_PER_SECOND : Z := 1000.
Definition MATRIX_EVENT_EPOCH_FLOOR_MS : Z := 946684800000.
Definition MATRIX_STARTUP_STALE_FILTER_WINDOW_MS : Z := 2 * 60 * MILLISECONDS_PER_SECOND.
Definition MATRIX_STALE_STARTUP_EVENT_DROP_MS : Z := 5 * 60 * MILLISECONDS_PER_SECOND.
Definition MATRIX_CLOCK_ROLLBACK_DISABLE_MS : Z := 60 * MILLISECONDS_PER_SECOND.
Definition MESSAGE_PREVIEW_LENGTH : nat := 40.
Definition MATRIX_SUPPRESS_KEY : pystr := u "mmrelay_suppress".
Definition E2EE_KEY_SHARING_DELAY_SECONDS : Q := 5.
Definition E2EE_KEY_REQUEST_MAX_ATTEMPTS : nat := 3.
Definition E2EE_KEY_REQUEST_BASE_DELAY : Q := 2.
Definition E2EE_KEY_REQUEST_MAX_DELAY : Q := 30.

(** ** Stale events *)

(** [int(secs * MILLISECONDS_PER_SECOND)] *)
Definition to_ms (secs : Q) : Z :=
  let ms := (secs * inject_Z MILLISECONDS_PER_SECOND)%Q in Z.quot (Qnum ms) (Zpos (Qden ms)).

(** When the bot started: wall clock in milliseconds and monotonic clock. *)
Record bot_start := { bs_time : Z; bs_monotonic : Q }.

Definition _refresh_bot_start_timestamps (now_wall now : Q) : bot_start :=
  {| bs_time := to_ms now_wall; bs_monotonic := now |}.

Definition _estimate_clock_rollback_ms (now_wall now : Q) (s : bot_start) : Z :=
  let now_ms := to_ms now_wall in
  let elapsed_ms := to_ms (now - bs_monotonic s) in
  let expected_now_ms := bs_time s + elapsed_ms in
  expected_now_ms - now_ms.

(** Whether an event is dropped because it predates the start. *)
Definition stale_event (now_wall now : Q) (s : bot_start) (message_timestamp : Z) : bool :=
  if message_timestamp <? bs_time s then
    let skew_ms := bs_time s - message_timestamp in
    let rollback_ms := _estimate_clock_rollback_ms now_wall now s in
    let elapsed_since_start_ms := Z.max 0 (to_ms (now - bs_monotonic s)) in
    let baseline_plausible :=
      (MATRIX_EVENT_EPOCH_FLOOR_MS <=? message_timestamp) &&
      (MATRIX_EVENT_EPOCH_FLOOR_MS <=? bs_time s) in
    let rollback_detected := MATRIX_CLOCK_ROLLBACK_DISABLE_MS <? rollback_ms in
    let startup_window_active :=
      elapsed_since_start_ms <=? MATRIX_STARTUP_STALE_FILTER_WINDOW_MS in
    baseline_plausible && startup_window_active && negb rollback_detected &&
    (MATRIX_STALE_STARTUP_EVENT_DROP_MS <? skew_ms)
  else false.

(** ** The room *)

Definition has_room_id (room_id : pystr) (conf : pyval) : option pydict :=
  match conf with
  | VDict r => if py_eqb (dget_none r (u "id")) (VStr room_id) then Some r else None
  | _ => None
  end.

(** The configuration of a room; an empty one counts as none. *)
Definition find_room_config (rooms : pyval) (room_id : pystr) : option pydict :=
  let found :=
    match rooms with
    | VDict d =>
        match dget d room_id with
        | Some (VDict r) => Some r
        | _ =>
            default None (first_some (λ kc,
              if str_eqb kc.1 room_id then
                Some (match kc.2 with VDict r => Some r | _ => None end)
              else Some <$> has_room_id room_id kc.2) d)
        end
    | VSeq _ l => first_some (has_room_id room_id) l
    | _ => None
    end in
  match found with Some [] => None | r => r end.

(** ** Reading an event *)

Inductive event_kind := RoomMessageText | RoomMessageNotice | RoomMessageEmote | ReactionEvent.

(** [me_body]: the [body] attribute; [me_content]: [event.source["content"]]. *)
Record mx_event := {
  me_kind : event_kind; me_ref : event_ref; me_timestamp : Z; me_body : option pystr;
  me_content : pydict }.

Definition str_field (d : pydict) (k : pystr) : option pystr :=
  match dget d k with Some (VStr s) => Some s | _ => None end.

(** A relation that is missing or empty reads as the empty object. *)
Definition obj_field (d : pydict) (k : pystr) : pydict :=
  match dget d k with Some (VDict r) => r | _ => [] end.

(** [re.search(r"reacted (.+?) to", body)], its group. *)
Fixpoint lazy_group (acc s : pystr) : option pystr :=
  match s with
  | [] => None
  | c :: s =>
      if c =? 10 then None
      else if startswith s (u " to") then Some (reverse (c :: acc))
      else lazy_group (c :: acc) s
  end.

Fixpoint reacted_group (s : pystr) : option pystr :=
  match s with
  | [] => None
  | _ :: s' =>
      match (if startswith s (u "reacted ") then lazy_group [] (drop 8 s) else None) with
      | Some g => Some g
      | None => reacted_group s'
      end
  end.

(** Whether the event is a reaction, its symbol and the event it reacts to. *)
Definition read_reaction (ev : mx_event) : bool * option pystr * option pystr :=
  let relates_to := obj_field (me_content ev) (u "m.relates_to") in
  match me_kind ev with
  | ReactionEvent =>
      if dmem relates_to (u "event_id") && dmem relates_to (u "key")
      then (true, str_field relates_to (u "key"), str_field relates_to (u "event_id"))
      else (true, None, None)
  | RoomMessageEmote =>
      let body := default [] (str_field (me_content ev) (u "body")) in
      if truthy (dget_none (me_content ev) (u "meshtastic_replyId")) ||
         py_eqb (dget_none relates_to (u "rel_type")) (VStr (u "m.annotation")) then
        (true, Some (match reacted_group body with Some g => strip g | None => u "?" end),
         str_field relates_to (u "event_id"))
      else (false, None, None)
  | _ => (false, None, None)
  end.

Definition read_override (ev : mx_event) : option pystr :=
  match str_field (me_content ev) (u "meshtastic_text") with
  | Some s => if nonempty (strip s) then Some (strip s) else None
  | None => None
  end.

Definition read_text (ev : mx_event) (is_reaction : bool) (override : option pystr) : pystr :=
  match is_reaction, override with
  | true, None => []
  | _, _ =>
      strip (or_str override
        (or_str (me_body ev) (default [] (str_field (me_content ev) (u "body")))))
  end.

Definition read_reply_to (ev : mx_event) : option pystr :=
  let relates_to := obj_field (me_content ev) (u "m.relates_to") in
  match str_field (obj_field relates_to (u "m.in_reply_to")) (u "event_id") with
  | Some ((_ :: _) as id) => Some id
  | _ => None
  end.

(** ** Texts *)

Definition preview (text : pystr) : pystr :=
  let text := (λ c, if (c =? 10) || (c =? 13) then 32 else c) <$> strip_quoted_lines text in
  if Nat.ltb MESSAGE_PREVIEW_LENGTH (length text)
  then take MESSAGE_PREVIEW_LENGTH text ++ u "..." else text.

Definition quoted_reaction (who symbol text : pystr) : pystr :=
  who ++ u "reacted " ++ symbol ++ u " to " ++ [34] ++ preview text ++ [34].

(** [text.encode("utf-8", "ignore")] *)
Definition encode_ignore (text : pystr) : list Z :=
  filter (λ c, is_surrogate c = false) text ≫= enc1.

(** ** Handling a message *)

(** What the handler meets: whether the two attempts to get an interface
    succeed (for a reply, for the message), the sender's names, and, of each
    plugin, what handling the message gives ([None]: it raised) and whether it
    claims the message as a command. *)
Record room_env := {
  rv_connected_reply : bool; rv_connected : bool; rv_room_name : option pystr;
  rv_client : bool; rv_name : name_response; rv_plugins : list (option bool * bool) }.

Definition display_name (env : room_env) (ev : mx_event) : pystr :=
  get_user_display_name (rv_room_name env) (rv_client env) (rv_name env)
    (er_sender (me_ref ev)).

(** Whether a plugin handled the message, and how many were called. *)
Fixpoint run_room_plugins (plugins : list (option bool * bool)) : bool * nat :=
  match plugins with
  | [] => (false, 0%nat)
  | (Some true, _) :: _ => (true, 1%nat)
  | _ :: ps => let '(found, n) := run_room_plugins ps in (found, S n)
  end.

Definition read_portnum (content : pydict) : pyval :=
  match dget_none content (u "meshtastic_portnum") with
  | VStr s =>
      if isdigit s then match int_of_str s with Some z => VInt z | None => VStr s end
      else if str_eqb s DETECTION_SENSOR_APP then VInt PORTNUM_DETECTION_SENSOR_APP
      else VStr s
  | v => v
  end.

Section room_message.
Context (format_other : pystr → vars → res pystr) (other_str : pyval → pystr).
(** [PortNum.DETECTION_SENSOR_APP] of the Meshtastic package. *)
Context (detection_port : Z).
Context `{OutQueue Qu} `{MessageMapStore T}.

Definition _handle_detection_sensor_packet (connected : bool) (config : pyval)
    (room_config : pydict) (full_display_name text : pystr) (q : Qu) : Qu :=
  let detection_enabled :=
    truthy (meshtastic_value config (u "detection_sensor") (VBool DEFAULT_DETECTION_SENSOR)) in
  if negb (broadcast_enabled config) then q
  else if negb detection_enabled then q
  else match _get_meshtastic_interface_and_channel connected room_config with
       | None => q
       | Some channel =>
           (oq_put (SendData (encode_ignore text) detection_port channel)
              (u "Detection sensor data from " ++ full_display_name) None q).1
       end.

(** The reaction of a user of another meshnet. *)
Definition relay_remote_reaction (env : room_env) (config : pyval) (room_config : pydict)
    (ev : mx_event) (symbol meshnet_name : pystr) (q : Qu) : Qu :=
  let short_meshnet_name := take MESHNET_NAME_ABBREVIATION_LENGTH meshnet_name in
  let shortname := or_str (str_field (me_content ev) (u "meshtastic_shortname"))
    (match str_field (me_content ev) (u "meshtastic_longname") with
     | Some ((_ :: _) as l) => take SHORTNAME_FALLBACK_LENGTH l
     | _ => u "???"
     end) in
  let text := default [] (str_field (me_content ev) (u "meshtastic_text")) in
  let reaction_message :=
    quoted_reaction (shortname ++ u "/" ++ short_meshnet_name ++ u " ") symbol text in
  match _get_meshtastic_interface_and_channel (rv_connected env) room_config with
  | None => q
  | Some channel =>
      if broadcast_enabled config then
        (oq_put (SendText reaction_message channel)
           (u "Remote reaction from " ++ meshnet_name) None q).1
      else q
  end.

(** A reaction to an event that is in the map. *)
Definition relay_local_reaction (env : room_env) (config : pyval) (room_config : pydict)
    (ev : mx_event) (symbol : pystr) (orig : mapping) (q : Qu) : res Qu :=
  let! meshtastic_reply_id := reply_target (mm_meshtastic_id orig) in
  let full_display_name := display_name env ev in
  let! prefix := get_meshtastic_prefix format_other other_str config full_display_name None in
  let reaction_message := quoted_reaction prefix symbol (mm_text orig) in
  Ok (match _get_meshtastic_interface_and_channel (rv_connected env) room_config with
      | None => q
      | Some channel =>
          if broadcast_enabled config then
            match meshtastic_reply_id with
            | Some id =>
                (oq_put (SendTextReply reaction_message id channel)
                   (u "Local reaction from " ++ full_display_name ++ u " (reply to " ++
                    str_of_int id ++ u ")") None q).1
            | None =>
                (oq_put (SendText reaction_message channel)
                   (u "Local reaction from " ++ full_display_name) None q).1
            end
          else q
      end).

(** The text of a message relayed from another meshnet, and what is sent. *)
Definition remote_message (config : pyval) (longname : pystr) (shortname : option pystr)
    (meshnet_name text : pystr) (override : option pystr) : res (pystr * pystr) :=
  let short_meshnet_name := take MESHNET_NAME_ABBREVIATION_LENGTH meshnet_name in
  let shortname := default (take SHORTNAME_FALLBACK_LENGTH longname) shortname in
  let text := or_str override text in
  let! original_prefix :=
    get_matrix_prefix format_other other_str config longname shortname meshnet_name in
  let text := if nonempty original_prefix && startswith text original_prefix
              then drop (length original_prefix) text else text in
  let text := if nonempty text then text else or_str override text in
  let! text := truncate_message text DEFAULT_MESSAGE_TRUNCATE_BYTES in
  let! prefix :=
    get_matrix_prefix format_other other_str config longname shortname short_meshnet_name in
  Ok (text, prefix ++ text).

(** The message of a Matrix user. *)
Definition local_message (config : pyval) (full_display_name sender text : pystr)
    : res pystr :=
  let! prefix := get_meshtastic_prefix format_other other_str config full_display_name
                   (Some sender) in
  truncate_message (prefix ++ text) DEFAULT_MESSAGE_TRUNCATE_BYTES.

(** The name to log, the text and the message to send; [None]: not relayed. *)
Definition outgoing_message (env : room_env) (config : pyval) (ev : mx_event)
    (local_meshnet_name : option pystr) (text : pystr) (override : option pystr)
    : res (option (pystr * pystr * pystr)) :=
  match str_field (me_content ev) (u "meshtastic_longname"),
        str_field (me_content ev) (u "meshtastic_meshnet") with
  | Some ((_ :: _) as longname), Some ((_ :: _) as meshnet_name) =>
      if bool_decide (Some meshnet_name = local_meshnet_name) then Ok None else
      let! r := remote_message config longname
                  (str_field (me_content ev) (u "meshtastic_shortname")) meshnet_name text
                  override in
      let '(text, full_message) := r in
      Ok (if nonempty text
          then Some (longname ++ u "/" ++ meshnet_name, text, full_message) else None)
  | _, _ =>
      let full_display_name := display_name env ev in
      let! full_message :=
        local_message config full_display_name (er_sender (me_ref ev)) text in
      Ok (Some (full_display_name, text, full_message))
  end.

(** Plugins, commands and detection data, then the queue. *)
Definition deliver_message (module_config : pyval) (env : room_env) (config : pyval)
    (room_config : pydict) (ev : mx_event) (storage_enabled : bool)
    (local_meshnet_name : option pystr) (full_display_name text full_message : pystr)
    (q : Qu) : Qu * nat :=
  let portnum := read_portnum (me_content ev) in
  let '(found_matching_plugin, called) := run_room_plugins (rv_plugins env) in
  if found_matching_plugin then (q, called)
  else if existsb snd (rv_plugins env) then (q, called)
  else if py_eqb portnum (VInt PORTNUM_DETECTION_SENSOR_APP) then
    (_handle_detection_sensor_packet (rv_connected env) config room_config full_display_name
       text q, called)
  else match _get_meshtastic_interface_and_channel (rv_connected env) room_config with
       | None => (q, called)
       | Some channel =>
           if broadcast_enabled config then
             let mapping_info :=
               if storage_enabled then
                 _create_mapping_info module_config (er_event_id (me_ref ev))
                   (er_room_id (me_ref ev)) text local_meshnet_name
                   (Some (_get_msgs_to_keep_config module_config config))
               else None in
             ((oq_put (SendText full_message channel)
                 (u "Message from " ++ full_display_name) mapping_info q).1, called)
           else (q, called)
       end.

(** Replies and ordinary messages. *)
Definition relay_message_event (env : room_env) (config : pyval) (room_config : pydict)
    (db : T) (ev : mx_event) (is_reaction : bool) (q : Qu) : res (Qu * nat) :=
  let interactions := get_interaction_settings config in
  let storage_enabled := message_storage_enabled interactions in
  let local_meshnet_name :=
    match meshtastic_value config (u "meshnet_name") (VStr []) with
    | VStr s => Some s
    | _ => None
    end in
  let override := read_override ev in
  let text := read_text ev is_reaction override in
  let! handled :=
    match (if is_reaction then None else read_reply_to ev) with
    | Some reply_to_event_id =>
        if replies interactions then
          handle_matrix_reply format_other other_str config (rv_connected_reply env) db
            (me_ref ev) (display_name env ev) reply_to_event_id text room_config
            storage_enabled local_meshnet_name config override
            (str_field (me_content ev) (u "meshtastic_longname"))
            (str_field (me_content ev) (u "meshtastic_shortname"))
            (str_field (me_content ev) (u "meshtastic_meshnet")) q
        else Ok (q, false)
    | None => Ok (q, false)
    end in
  let '(q, reply_handled) := handled in
  if reply_handled then Ok (q, 0%nat) else
  let! out := outgoing_message env config ev local_meshnet_name text override in
  match out with
  | None => Ok (q, 0%nat)
  | Some (full_display_name, text, full_message) =>
      Ok (deliver_message config env config room_config ev storage_enabled local_meshnet_name
            full_display_name text full_message q)
  end.

(** The result: the queue and the number of plugins called. *)
Definition on_room_message (now_wall now : Q) (start : bot_start) (bot_user_id : pystr)
    (rooms : pyval) (config : pyval) (env : room_env) (db : T) (ev : mx_event) (q : Qu)
    : res (Qu * nat) :=
  if stale_event now_wall now start (me_timestamp ev) then Ok (q, 0%nat)
  else if str_eqb (er_sender (me_ref ev)) bot_user_id then Ok (q, 0%nat)
  else match find_room_config rooms (er_room_id (me_ref ev)) with
  | None => Ok (q, 0%nat)
  | Some room_config =>
      if is_none config then Ok (q, 0%nat) else
      let interactions := get_interaction_settings config in
      let '(is_reaction, symbol, original) := read_reaction ev in
      if truthy (dget_none (me_content ev) MATRIX_SUPPRESS_KEY) then Ok (q, 0%nat)
      else if is_reaction && negb (reactions interactions) then Ok (q, 0%nat)
      else
        let local_meshnet_name := meshtastic_value config (u "meshnet_name") (VStr []) in
        let meshnet_name := str_field (me_content ev) (u "meshtastic_meshnet") in
        let remote :=
          match meshnet_name, me_kind ev with
          | Some ((_ :: _) as m), RoomMessageEmote =>
              if is_reaction && negb (py_eqb (VStr m) local_meshnet_name) &&
                 truthy (dget_none (me_content ev) (u "meshtastic_replyId"))
              then Some m else None
          | _, _ => None
          end in
        match remote with
        | Some m =>
            Ok (relay_remote_reaction env config room_config ev (default [] symbol) m q, 0%nat)
        | None =>
            match (if is_reaction then original else None) with
            | Some ((_ :: _) as original_matrix_event_id) =>
                match mms_by_event db original_matrix_event_id with
                | None => Ok (q, 0%nat)
                | Some orig =>
                    let! q := relay_local_reaction env config room_config ev
                                (default (u "None") symbol) orig q in
                    Ok (q, 0%nat)
                end
            | _ => relay_message_event env config room_config db ev is_reaction q
            end
        end
  end.
End room_message.

(** ** Invitations *)

(** Aliases that are no strings are skipped by the handler. *)
Record invite := {
  iv_state_key : pystr; iv_membership : pystr; iv_room_id : pystr;
  iv_canonical_alias : option pystr; iv_aliases : list pystr }.

(** Whether the room is joined: [client] is the set of rooms the client is in,
    [None] without a client. *)
Definition on_invite (bot_user_id : option pystr) (rooms : rooms) (client : option (list pystr))
    (i : invite) : bool :=
  match bot_user_id with
  | Some ((_ :: _) as bot) =>
      if negb (str_eqb (iv_state_key i) bot) then false
      else if negb (str_eqb (iv_membership i) (u "invite")) then false
      else
        let candidates :=
          iv_room_id i ::
          (match iv_canonical_alias i with Some ((_ :: _) as a) => [a] | _ => [] end) ++
          iv_aliases i in
        if negb (existsb (_is_room_mapped rooms) candidates) then false
        else match client with
             | None => false
             | Some joined => negb (bool_decide (iv_room_id i ∈ joined))
             end
  | _ => false
  end.

(** ** Missing keys *)

(** What a key request gives: a response, an error response, something else, or
    a communication error. *)
Inductive key_outcome := KeyResponse | KeyErrorResponse | KeyOtherResponse | KeyCommError.

Inductive key_effect := KeyRequested | KeySlept (secs : Q).

Fixpoint key_request_loop (outcomes : nat → key_outcome) (attempts attempt : nat)
    : list key_effect * bool :=
  match attempts with
  | O => ([], false)
  | S rest =>
      let is_last_attempt := match rest with O => true | S _ => false end in
      match outcomes attempt with
      | KeyResponse => ([KeyRequested; KeySlept E2EE_KEY_SHARING_DELAY_SECONDS], true)
      | _ =>
          if is_last_attempt then ([KeyRequested], false)
          else
            let backoff_delay := _retry_backoff_delay attempt E2EE_KEY_REQUEST_BASE_DELAY
                                   E2EE_KEY_REQUEST_MAX_DELAY in
            let '(t, ok) := key_request_loop outcomes rest (S attempt) in
            (KeyRequested :: KeySlept backoff_delay :: t, ok)
      end
  end.

(** What is done, and whether the keys were requested. *)
Definition on_decryption_failure (client device_id : bool) (outcomes : nat → key_outcome)
    : list key_effect * bool :=
  if negb client then ([], false)
  else if negb device_id then ([], false)
  else key_request_loop outcomes E2EE_KEY_REQUEST_MAX_ATTEMPTS 0.

(** ** Lemmas *)

Definition call_channel (c : mesh_call) : Z :=
  match c with SendText _ ch | SendTextReply _ _ ch | SendData _ _ ch => ch end.

Lemma interface_channel connected room_config channel :
  _get_meshtastic_interface_and_channel connected room_config = Some channel →
  dget room_config (u "meshtastic_channel") = Some (VInt channel) ∧ 0 ≤ channel.
Proof.
  unfold _get_meshtastic_interface_and_channel, dget_none, dget_or.
  destruct (dget room_config (u "meshtastic_channel")) as [[]|]; cbn [from_option id]; try done.
  destruct (_ <? 0) eqn:E; [done |]. destruct connected; [|done]. intros [= ->]. z_bool_hyps.
  split; [done | lia].
Qed.

Section adds.
Context `{OutQueue Qu} `{MessageMapStore T}.
Context (format_other : pystr → vars → res pystr) (other_str : pyval → pystr).
Context (detection_port : Z).

(** At most one call is added, and it is one of [P]. *)
Definition adds (P : mesh_call → Prop) (q q' : Qu) : Prop :=
  oq_calls q' = oq_calls q ∨ ∃ c i, P c ∧ oq_calls q' = oq_calls q ++ [(c, i)].

(** A call that may be made for a room: on its channel, with broadcasts on. *)
Definition room_call (config : pyval) (room_config : pydict) (c : mesh_call) : Prop :=
  dget room_config (u "meshtastic_channel") = Some (VInt (call_channel c)) ∧
  0 ≤ call_channel c ∧ broadcast_enabled config = true.

Lemma adds_refl P q : adds P q q.
Proof. by left. Qed.

Lemma put_adds (P : mesh_call → Prop) c d i q : P c → adds P q (oq_put c d i q).1.
Proof.
  intros Hc. pose proof (oq_put_calls c d i q) as E. destruct (oq_put c d i q).2.
  - right. by exists c, i.
  - left. by rewrite app_nil_r in E.
Qed.

(** A send to the room's channel, guarded by the interface and the setting. *)
Lemma guarded_put_adds config room_config connected (c : Z → mesh_call) d i q :
  (∀ ch, call_channel (c ch) = ch) →
  adds (room_call config room_config) q
    match _get_meshtastic_interface_and_channel connected room_config with
    | None => q
    | Some ch => if broadcast_enabled config then (oq_put (c ch) d i q).1 else q
    end.
Proof.
  intros Hc. destruct (_get_meshtastic_interface_and_channel _ _) as [ch|] eqn:E; [|by left].
  apply interface_channel in E as [E1 E2].
  destruct (broadcast_enabled config) eqn:Eb; [|by left].
  apply put_adds. unfold room_call. by rewrite Hc.
Qed.

Lemma detection_adds connected config room_config name text q :
  adds (room_call config room_config) q
    (_handle_detection_sensor_packet detection_port connected config room_config name text q).
Proof.
  unfold _handle_detection_sensor_packet. cbv zeta.
  pose proof (guarded_put_adds config room_config connected
    (λ ch, SendData (encode_ignore text) detection_port ch)
    (u "Detection sensor data from " ++ name) None q (λ ch, eq_refl)) as Ha.
  destruct (broadcast_enabled config); cbn [negb]; [|by left].
  by destruct (negb _); [left|].
Qed.

Lemma deliver_adds mc env config room_config ev se lm name text msg q :
  adds (room_call config room_config) q
    (deliver_message detection_port mc env config room_config ev se lm name text msg q).1.
Proof.
  unfold deliver_message. cbv zeta. destruct (run_room_plugins _) as [found called].
  destruct found; [by left |]. destruct (existsb _ _); [by left |].
  destruct (py_eqb _ _); [apply detection_adds |].
  set (info := if se then _ else _).
  pose proof (guarded_put_adds config room_config (rv_connected env) (SendText msg)
    (u "Message from " ++ name) info q (λ ch, eq_refl)) as Ha.
  destruct (_get_meshtastic_interface_and_channel _ _); [|by left].
  by destruct (broadcast_enabled config); [|left].
Qed.

Lemma reply_adds connected (db : T) ev name to text room_config se lm config ov ln sn mn q q' ok :
  is_none config = false →
  handle_matrix_reply format_other other_str config connected db ev name to text room_config se lm
    config ov ln sn mn q = Ok (q', ok) →
  (ok = false → oq_calls q' = oq_calls q) ∧ adds (room_call config room_config) q q'.
Proof.
  intros Hn. unfold handle_matrix_reply.
  destruct (mms_by_event db to) as [m|]; [|intros [= <- <-]; split; [done | by left]].
  destruct (reply_target _) as [target|]; cbn [res_bind]; [|done].
  destruct (format_reply_message _ _ _ _ _ _ _ _ _ _ _) as [msg|]; cbn [res_bind]; [|done].
  intros [= E]. unfold send_reply_to_meshtastic in E. rewrite Hn, Hn in E.
  destruct (_get_meshtastic_interface_and_channel _ _) as [ch|] eqn:Ech;
    [|simplify_eq; split; [done | by left]].
  apply interface_channel in Ech as [H1 H2].
  destruct (broadcast_enabled config) eqn:Eb; cbn [negb] in E;
    [|simplify_eq; split; [done | by left]].
  assert (∀ c d i, call_channel c = ch → (q', ok) = oq_put c d i q →
    (ok = false → oq_calls q' = oq_calls q) ∧ adds (room_call config room_config) q q') as Hput.
  { intros c d i Hc Hp. pose proof (oq_put_calls c d i q) as Hq. rewrite <- Hp in Hq.
    cbn [fst snd] in Hq. split; [intros ->; by rewrite app_nil_r in Hq |].
    change q' with (q', ok).1. rewrite Hp. apply put_adds. unfold room_call. by rewrite Hc. }
  destruct target as [id|]; symmetry in E; by apply Hput in E.
Qed.

Lemma message_event_adds env config room_config (db : T) ev is_reaction q q' n :
  is_none config = false →
  relay_message_event format_other other_str detection_port env config room_config db ev
    is_reaction q = Ok (q', n) →
  adds (room_call config room_config) q q'.
Proof.
  intros Hn. unfold relay_message_event. cbv zeta.
  destruct (match (if is_reaction then None else read_reply_to ev) with Some _ => _ | None => _ end)
    as [[q1 ok]|] eqn:E; cbn [res_bind]; [|done].
  assert ((ok = false → oq_calls q1 = oq_calls q) ∧ adds (room_call config room_config) q q1)
    as [H1 H2].
  { destruct (if is_reaction then None else _) as [to|];
      [|simplify_eq; split; [done | by left]].
    destruct (replies _); [by apply reply_adds in E | simplify_eq; split; [done | by left]]. }
  destruct ok; [by intros [= <- <-] |]. specialize (H1 eq_refl).
  destruct (outgoing_message _ _ _ _ _ _ _ _) as [[[[name text] msg]|]|]; cbn [res_bind]; [| |done].
  - intros [= Hd]. pose proof (deliver_adds config env config room_config ev
      (message_storage_enabled (get_interaction_settings config))
      match meshtastic_value config (u "meshnet_name") (VStr []) with
      | VStr s => Some s | _ => None end name text msg q1) as Ha.
    rewrite Hd in Ha. unfold adds in *. by rewrite H1 in Ha.
  - intros [= <- <-]. by left.
Qed.
End adds.


(** Milliseconds of a time that is not negative. *)
Lemma to_ms_floor q : (0 <= q)%Q → to_ms q = Qfloor (q * inject_Z 1000).
Proof.
  intros Hq. unfold to_ms, MILLISECONDS_PER_SECOND.
  assert (0 <= q * inject_Z 1000)%Q as Hm by (apply Qmult_le_0_compat; [done | discriminate]).
  destruct (q * inject_Z 1000)%Q as [n d]. cbn [Qfloor Qnum Qden].
  apply Z.quot_div_nonneg; [|lia]. unfold Qle in Hm. cbn [Qnum Qden] in Hm. lia.
Qed.

Lemma Qfloor_sum a b : Qfloor a + Qfloor b ≤ Qfloor (a + b) ≤ Qfloor a + Qfloor b + 1.
Proof.
  pose proof (Qfloor_le a). pose proof (Qfloor_le b). pose proof (Qfloor_le (a + b)).
  pose proof (Qlt_floor a). pose proof (Qlt_floor b). pose proof (Qlt_floor (a + b)).
  rewrite inject_Z_plus in *. split.
  - apply Z.lt_succ_r. rewrite Zlt_Qlt. unfold Z.succ. rewrite !inject_Z_plus. lra.
  - apply Z.lt_succ_r. rewrite Zlt_Qlt. unfold Z.succ. rewrite !inject_Z_plus. lra.
Qed.

(** With clocks that advance together, the estimated rollback is at most a
    millisecond of rounding. *)
Lemma steady_rollback wall mono d :
  (0 <= wall)%Q → (0 <= d)%Q →
  to_ms (mono + d - mono) = Qfloor (d * inject_Z 1000) ∧
  -1 ≤ _estimate_clock_rollback_ms (wall + d) (mono + d)
         (_refresh_bot_start_timestamps wall mono) ≤ 0.
Proof.
  intros Hw Hd. assert (mono + d - mono == d)%Q as E by ring.
  assert (to_ms (mono + d - mono) = Qfloor (d * inject_Z 1000)) as E1.
  { rewrite to_ms_floor by (by rewrite E). apply Qfloor_comp. by rewrite E. }
  split; [done |]. unfold _estimate_clock_rollback_ms, _refresh_bot_start_timestamps.
  cbn [bs_time bs_monotonic]. rewrite E1, !to_ms_floor by lra.
  assert (Qfloor ((wall + d) * inject_Z 1000) =
    Qfloor (wall * inject_Z 1000 + d * inject_Z 1000)) as -> by (apply Qfloor_comp; ring).
  pose proof (Qfloor_sum (wall * inject_Z 1000) (d * inject_Z 1000)). lia.
Qed.

(** ** Properties *)

Section gate.
Context `{OutQueue Qu} `{MessageMapStore T}.
Context (format_other : pystr → vars → res pystr) (other_str : pyval → pystr).
Context (detection_port : Z).

(** C5: what gets from Matrix to the mesh: an event adds at most one call to the
    queue, even when a reply could not be queued and goes on as a message; a
    call is added only for an event of another user in a configured room that
    is neither stale nor suppressed, when broadcasts are on, and it is for the
    channel of that room. *)
Theorem room_message_gate now_wall now start bot rooms config env (db : T) ev (q q' : Qu) n :
  on_room_message format_other other_str detection_port now_wall now start bot rooms config env db
    ev q = Ok (q', n) →
  oq_calls q' = oq_calls q ∨
  ∃ room_config c i,
    oq_calls q' = oq_calls q ++ [(c, i)] ∧
    stale_event now_wall now start (me_timestamp ev) = false ∧
    er_sender (me_ref ev) ≠ bot ∧
    find_room_config rooms (er_room_id (me_ref ev)) = Some room_config ∧
    truthy (dget_none (me_content ev) MATRIX_SUPPRESS_KEY) = false ∧
    broadcast_enabled config = true ∧
    dget room_config (u "meshtastic_channel") = Some (VInt (call_channel c)) ∧
    0 ≤ call_channel c.
Proof.
  unfold on_room_message.
  destruct (stale_event _ _ _ _); [intros [= <- _]; by left |].
  destruct (str_eqb _ _) eqn:Eb; [intros [= <- _]; by left |].
  destruct (find_room_config _ _) as [rc|]; [|intros [= <- _]; by left].
  destruct (is_none config) eqn:Ec; [intros [= <- _]; by left |].
  destruct (read_reaction ev) as [[is_reaction symbol] original].
  destruct (truthy _) eqn:Es; [intros [= <- _]; by left |].
  destruct (_ && _); [intros [= <- _]; by left |]. intros Hr.
  enough (adds (room_call config rc) q q') as [?|(c & i & (? & ? & ?) & ?)]; [by left | |].
  { right. exists rc, c, i. unfold str_eqb in Eb. bool_prop. by split_and!. }
  destruct (match str_field _ _ with Some _ => _ | None => _ end) as [m|].
  { simplify_eq. apply (guarded_put_adds config rc _ (SendText _)). done. }
  destruct (if is_reaction then original else None) as [[|? ?]|];
    [by eapply message_event_adds | | by eapply message_event_adds].
  destruct (mms_by_event _ _) as [orig|]; [|simplify_eq; by left].
  unfold relay_local_reaction in Hr. cbv zeta in Hr.
  destruct (reply_target _) as [[id|]|]; cbn [res_bind] in Hr; [| |done];
    (destruct (get_meshtastic_prefix _ _ _ _ _) as [p|]; cbn [res_bind] in Hr; [|done]);
    simplify_eq.
  - by apply (guarded_put_adds config rc _ (SendTextReply _ id)).
  - by apply (guarded_put_adds config rc _ (SendText _)).
Qed.


End gate.

(** The filter of old events, while the two clocks advance together: an
    event dated after 2000 is dropped exactly when it is more than five minutes
    older than the start and at most two minutes have passed since; once they
    have, nothing is dropped. *)
Theorem steady_clock_filter wall mono d ts :
  (0 <= wall)%Q → (0 <= d)%Q →
  let start := _refresh_bot_start_timestamps wall mono in
  MATRIX_EVENT_EPOCH_FLOOR_MS ≤ ts → MATRIX_EVENT_EPOCH_FLOOR_MS ≤ bs_time start →
  stale_event (wall + d) (mono + d) start ts = true ↔
  (ts + 300000 < bs_time start ∧ (d < 120 + (1 # 1000))%Q).
Proof.
  intros Hw Hd start Hts Hst. destruct (steady_rollback wall mono d Hw Hd) as [E1 E2].
  unfold stale_event. fold start in E2. change (bs_monotonic start) with mono. rewrite E1.
  assert (0 ≤ Qfloor (d * inject_Z 1000)) as H0.
  { change 0 with (Qfloor 0). apply Qfloor_resp_le. apply Qmult_le_0_compat; [done | discriminate]. }
  assert (Qfloor (d * inject_Z 1000) ≤ 120000 ↔ (d < 120 + (1 # 1000))%Q) as Hf.
  { pose proof (Qfloor_le (d * inject_Z 1000)) as F1. pose proof (Qlt_floor (d * inject_Z 1000)) as F2.
    split; intros Hx.
    - assert (inject_Z (Qfloor (d * inject_Z 1000) + 1) <= inject_Z 120001)%Q as F3
        by (rewrite <-Zle_Qle; lia).
      change (inject_Z 1000) with (1000 # 1) in *. change (inject_Z 120001) with (120001 # 1) in *. lra.
    - apply Z.lt_succ_r. rewrite Zlt_Qlt. change (inject_Z (Z.succ 120000)) with (120001 # 1).
      change (inject_Z 1000) with (1000 # 1) in *. lra. }
  rewrite <- Hf, Z.max_r by done.
  unfold MATRIX_CLOCK_ROLLBACK_DISABLE_MS, MATRIX_STARTUP_STALE_FILTER_WINDOW_MS,
    MATRIX_STALE_STARTUP_EVENT_DROP_MS, MILLISECONDS_PER_SECOND.
  destruct (Z.ltb_spec ts (bs_time start)); [|split; [done | lia]].
  rewrite !andb_true_iff, negb_true_iff, !Z.leb_le, Z.ltb_ge, Z.ltb_lt. lia.
Qed.

(** What a Matrix user writes fits a packet, whatever the prefix is: at most
    227 bytes.  For a message from another meshnet only the text is cut, and the
    prefix is put before it: what is sent is the prefix and up to 227 bytes, and
    does not fit when the text fills the packet. *)
Theorem message_sizes fo os :
  (∀ config name sender text msg,
     local_message fo os config name sender text = Ok msg →
     Z.of_nat (utf8_len msg) ≤ DEFAULT_MESSAGE_TRUNCATE_BYTES) ∧
  (∀ config ln sn mn text ov text' msg,
     remote_message fo os config ln sn mn text ov = Ok (text', msg) →
     Z.of_nat (utf8_len text') ≤ DEFAULT_MESSAGE_TRUNCATE_BYTES ∧
     ∃ prefix, msg = prefix ++ text') ∧
  ∃ msg, remote_message fo os (VDict []) (u "Alice") None (u "other") (replicate 230 120) None
           = Ok (replicate 227 120, msg) ∧
    Z.of_nat (utf8_len msg) = 241.
Proof.
  split_and!.
  - intros config name sender text msg. unfold local_message.
    destruct (get_meshtastic_prefix _ _ _ _ _); cbn [res_bind]; [|done]. apply truncate_fits.
  - intros config ln sn mn text ov text' msg. unfold remote_message. cbv zeta.
    destruct (get_matrix_prefix _ _ _ _ _ _); cbn [res_bind]; [|done].
    destruct (truncate_message _ _) as [t|] eqn:Et; cbn [res_bind]; [|done].
    destruct (get_matrix_prefix _ _ _ _ _ _) as [p|]; cbn [res_bind]; [|done].
    intros [= <- <-]. split; [by eapply truncate_fits | by exists p].
  - eexists. split; vm_compute; reflexivity.
Qed.

(** ** Witnesses *)

Definition demo_room_env : room_env :=
  {| rv_connected_reply := true; rv_connected := true; rv_room_name := Some (u "Alice");
     rv_client := true; rv_name := NameRaised; rv_plugins := [(Some false, false)] |}.
Definition demo_mx_event : mx_event :=
  {| me_kind := RoomMessageText; me_ref := demo_event; me_timestamp := 2000000;
     me_body := Some (u "hi"); me_content := [(u "body", VStr (u "hi"))] |}.
Definition demo_mx_rooms : pyval :=
  VSeq KList [VDict [(u "id", VStr (u "!r:s")); (u "meshtastic_channel", VInt 2)]].
Definition demo_start : bot_start := {| bs_time := 1000000; bs_monotonic := 0 |}.

(** The message of a user reaches the queue. *)
Lemma room_message_gate_witness :
  ∃ q', on_room_message (H := mq_out_queue demo_env) (H0 := table_store) no_other (λ _, []) 10
    2000 10 demo_start (u "@bot:s") demo_mx_rooms (VDict []) demo_room_env ([] : table)
    demo_mx_event demo_queue = Ok (q', 1%nat) ∧
  ∃ c i, oq_calls (OutQueue := mq_out_queue demo_env) q' = [(c, i)] ∧
    call_channel c = 2.
Proof.
  destruct (on_room_message (H := mq_out_queue demo_env) (H0 := table_store) no_other (λ _, []) 10
    2000 10 demo_start (u "@bot:s") demo_mx_rooms (VDict []) demo_room_env ([] : table)
    demo_mx_event demo_queue) as [[q' n]|] eqn:E; [|vm_compute in E; discriminate E].
  exists q'. split; [vm_compute in E; injection E as <- <-; reflexivity |].
  destruct (room_message_gate (H := mq_out_queue demo_env) (H0 := table_store) no_other (λ _, []) 10
    2000 10 demo_start (u "@bot:s") demo_mx_rooms (VDict []) demo_room_env ([] : table)
    demo_mx_event demo_queue q' n E) as [H|(rc & c & i & H & _ & _ & Hr & _ & _ & Hc & _)].
  - exfalso. vm_compute in E. injection E as <- <-. vm_compute in H. discriminate H.
  - exists c, i. split; [exact H |]. vm_compute in Hr. injection Hr as <-.
    injection Hc as Hc. symmetry. exact Hc.
Defined.

(** A relayed reply, to an event that is not in the map of this relay. *)
Definition demo_relayed_reply : relay_message :=
  {| rl_message := u "hi"; rl_longname := u "Al"; rl_shortname := u "A";
     rl_meshnet_name := u "net"; rl_portnum := VInt 1; rl_meshtastic_id := Some 12;
     rl_meshtastic_replyId := Some 11; rl_meshtastic_text := None; rl_emote := false;
     rl_emoji := false; rl_reply_to_event_id := Some (u "$orig") |}.
Definition replying_config : pyval :=
  VDict [(u "meshtastic", VDict [(u "meshnet_name", VStr (u "net"));
           (u "message_interactions", VDict [(u "replies", VBool true)])])].
Definition relayed_reply_event (db : table) : mx_event :=
  {| me_kind := RoomMessageText; me_ref := demo_event; me_timestamp := 2000000;
     me_body := Some (u "hi");
     me_content := relay_reply db (u "!r:s") (u "@other:s") (u "hi") demo_relayed_reply
                     (relay_content demo_relayed_reply (VStr (u "net")) (u "hi")) |}.

Lemma steady_clock_filter_witness :
  stale_event (1000000000 + 60) (5 + 60) (_refresh_bot_start_timestamps 1000000000 5)
    999999000000 = true.
Proof.
  apply (steady_clock_filter 1000000000 5 60 999999000000);
    [discriminate | discriminate | vm_compute; discriminate | vm_compute; discriminate |].
  split; reflexivity.
Defined.

(** A relayed reply is handled as a reply before its meshnet is looked at: when another account has put
    it into the room and the event it replies to is in the map, it goes back to the mesh. *)
Lemma relayed_reply_is_echoed :
  match on_room_message (H := mq_out_queue demo_env) (H0 := table_store) no_other (λ _, []) 10
    2000 10 demo_start (u "@bot:s") demo_mx_rooms replying_config demo_room_env
    demo_map (relayed_reply_event demo_map) demo_queue with
  | Ok (q', _) => length (oq_calls (OutQueue := mq_out_queue demo_env) q') = 1%nat ∧
                  oq_calls (OutQueue := mq_out_queue demo_env) demo_queue = []
  | Raise _ => False
  end.
Proof. vm_compute. by split. Qed.
