(* ===== verification/Commands.v ===== *)
(** * Commands in Matrix messages

    Models the command parser of [src/mmrelay/matrix/command_bridge.py]: the plain text a command is
    looked for in (the body, and the formatted body without its markup), the mention
    that may have to come first, and the [!command arguments] form.

    Regular expressions are written out as functions.  Parameters of the model: [html.unescape],
    [urllib.parse.unquote] and [str.casefold]; [ci_char], the comparison of two characters under
    [re.IGNORECASE]; [is_word], the characters of [\w]. *)

From Stdlib Require Import String.
From stdpp Require Import base tactics list numbers sets.
From S2P Require Import Prelude PyStr PyValue.
Open Scope Z_scope.

(** ** Strings *)

(** The rest after the first occurrence of a character, and what precedes it. *)
Fixpoint cut (c : Z) (s : pystr) : option (pystr * pystr) :=
  match s with
  | [] => None
  | d :: s =>
      if d =? c then Some ([], s)
      else match cut c s with Some (a, b) => Some (d :: a, b) | None => None end
  end.

(** [s.lstrip('/')] *)
Definition lstrip_slashes (s : pystr) : pystr := drop_while (λ c, c =? 47) s.

Section commands.
Context (unescape unquote casefold : pystr → pystr).
Context (ci_char : Z → Z → bool) (is_word : Z → bool).

(** [s] without the prefix [p], compared as [re.IGNORECASE] does. *)
Fixpoint ci_prefix (p s : pystr) : option pystr :=
  match p, s with
  | [], _ => Some s
  | c :: p, d :: s => if ci_char c d then ci_prefix p s else None
  | _ :: _, [] => None
  end.

(** What follows the first occurrence of [p]. *)
Fixpoint ci_find (p s : pystr) : option pystr :=
  match ci_prefix p s with
  | Some r => Some r
  | None => match s with [] => None | _ :: s => ci_find p s end
  end.

(** ** Text of a formatted body *)

(** [re.sub(pattern, " ", s)]: [at_pos] gives the replacement and the rest when the
    pattern matches at a position. *)
Fixpoint sub_all (fuel : nat) (at_pos : pystr → option (pystr * pystr)) (s : pystr) : pystr :=
  match fuel with
  | O => s
  | S fuel =>
      match at_pos s with
      | Some (new, rest) => new ++ sub_all fuel at_pos rest
      | None => match s with [] => [] | c :: s => c :: sub_all fuel at_pos s end
      end
  end.
Definition re_sub (at_pos : pystr → option (pystr * pystr)) (s : pystr) : pystr :=
  sub_all (S (length s)) at_pos s.

(** [<mx-reply>.*?</mx-reply>] *)
Definition reply_block (s : pystr) : option (pystr * pystr) :=
  match ci_prefix (u "<mx-reply>") s with
  | Some r => match ci_find (u "</mx-reply>") r with
              | Some rest => Some (u " ", rest)
              | None => None
              end
  | None => None
  end.

(** The value of an attribute: in double quotes, in single quotes, or up to a blank. *)
Definition attr_value (s : pystr) : option (pystr * pystr) :=
  let quoted :=
    match s with
    | c :: s => if (c =? 34) || (c =? 39) then cut c s else None
    | [] => None
    end in
  match quoted with
  | Some r => Some r
  | None =>
      let uq := take_while (λ c, negb (is_space c) && negb (c =? 62)) s in
      match uq with [] => None | _ => Some (uq, drop (length uq) s) end
  end.

(** Name, value and rest of an attribute that starts here. *)
Definition attr_here (s : pystr) : option (pystr * pystr * pystr) :=
  let name := take_while (λ c, negb (is_space c) && negb (c =? 61) && negb (c =? 47) &&
                               negb (c =? 62)) s in
  match name with
  | [] => None
  | _ =>
      match lstrip (drop (length name) s) with
      | c :: r =>
          if c =? 61 then
            match attr_value (lstrip r) with
            | Some (v, rest) => Some (name, v, rest)
            | None => None
            end
          else None
      | [] => None
      end
  end.

(** [finditer] of the attributes: an attribute starts at the beginning or after a blank. *)
Fixpoint attributes (fuel : nat) (at_start : bool) (s : pystr) : list (pystr * pystr) :=
  match fuel with
  | O => []
  | S fuel =>
      let here :=
        match (if at_start then attr_here s else None) with
        | Some r => Some r
        | None => match s with c :: s => if is_space c then attr_here s else None | [] => None end
        end in
      match here with
      | Some (n, v, rest) => (n, v) :: attributes fuel false rest
      | None => match s with [] => [] | _ :: s => attributes fuel false s end
      end
  end.

Definition _extract_anchor_href (anchor_attrs : pystr) : option pystr :=
  match List.find (λ nv, str_eqb (casefold nv.1) (u "href"))
          (attributes (S (length anchor_attrs)) true anchor_attrs) with
  | Some (_, v) => match strip v with [] => None | href => Some href end
  | None => None
  end.

(** [matrix\.to/#/(?P<target>[^?#]+)], searched for. *)
Fixpoint matrix_to_target (s : pystr) : option pystr :=
  let here :=
    match ci_prefix (u "matrix.to/#/") s with
    | Some r => match take_while (λ c, negb (c =? 63) && negb (c =? 35)) r with
                | [] => None
                | t => Some t
                end
    | None => None
    end in
  match here with
  | Some t => Some t
  | None => match s with [] => None | _ :: s => matrix_to_target s end
  end.

Definition if_mxid (t : pystr) : option pystr := if startswith t (u "@") then Some t else None.

Definition _extract_matrix_mxid_from_href (href : pystr) : option pystr :=
  let decoded_href := strip (unquote (unescape href)) in
  match decoded_href with
  | [] => None
  | _ =>
      match matrix_to_target decoded_href with
      | Some target => if_mxid (lstrip_slashes (unquote target))
      | None =>
          if startswith decoded_href (u "matrix:") then
            let target := lstrip_slashes (unquote (drop 7 decoded_href)) in
            let target :=
              if startswith target (u "u/") then
                let target := drop 2 target in
                if nonempty target && negb (startswith target (u "@")) then u "@" ++ target
                else target
              else target in
            if_mxid (split1 63 target).1
          else if startswith decoded_href (u "@") then Some (split1 63 decoded_href).1
          else None
      end
  end.

(** An element [a], from its tag to the first [</a>], and what [_replace_anchor] puts in its
    place. *)
Definition anchor (bot_mxid : option pystr) (s : pystr) : option (pystr * pystr) :=
  match ci_prefix (u "<a") s with
  | Some ((c :: _) as r) =>
      if is_word c then None else
      match cut 62 r with
      | Some (attrs, r) =>
          match ci_find (u "</a>") r with
          | Some rest =>
              let keep :=
                match bot_mxid with
                | Some ((_ :: _) as mxid) =>
                    match _extract_anchor_href attrs with
                    | Some href =>
                        if bool_decide (_extract_matrix_mxid_from_href href = Some mxid)
                        then Some mxid else None
                    | None => None
                    end
                | _ => None
                end in
              Some (default (u " ") keep, rest)
          | None => None
          end
      | None => None
      end
  | _ => None
  end.

(** [<br\s*/?>] *)
Definition line_break (s : pystr) : option (pystr * pystr) :=
  match ci_prefix (u "<br") s with
  | Some r =>
      match lstrip r with
      | 62 :: rest => Some (u " ", rest)
      | 47 :: 62 :: rest => Some (u " ", rest)
      | _ => None
      end
  | None => None
  end.

(** [<[^>]+>] *)
Definition any_tag (s : pystr) : option (pystr * pystr) :=
  match s with
  | 60 :: s =>
      match cut 62 s with
      | Some (_ :: _, rest) => Some (u " ", rest)
      | _ => None
      end
  | _ => None
  end.

(** [\s+] *)
Definition blanks (s : pystr) : option (pystr * pystr) :=
  match s with
  | c :: s => if is_space c then Some (u " ", lstrip s) else None
  | [] => None
  end.

Definition _normalize_formatted_body_for_command_detection (formatted_body : pyval)
    (bot_mxid : option pystr) : pystr :=
  match formatted_body with
  | VStr ((_ :: _) as s) =>
      let normalized := re_sub reply_block s in
      let normalized := re_sub (anchor bot_mxid) normalized in
      let normalized := re_sub line_break normalized in
      let normalized := re_sub any_tag normalized in
      strip (re_sub blanks (unescape normalized))
  | _ => []
  end.

(** ** Known commands *)

(** Case-folded name and spelling, in the order of the first mention. *)
Abbreviation lookup_table := (list (pystr * pystr)).

Definition find_command (t : lookup_table) (key : pystr) : option pystr :=
  snd <$> List.find (λ kv, str_eqb kv.1 key) t.

Definition command_spelling (command : pyval) : option pystr :=
  match command with
  | VStr s =>
      match strip s with
      | [] => None
      | 33 :: s => match s with [] => None | _ => Some s end
      | s => Some s
      end
  | _ => None
  end.

Definition _build_command_lookup (commands : list pyval) : lookup_table :=
  foldl (λ t command,
    match command_spelling command with
    | None => t
    | Some normalized =>
        let key := casefold normalized in
        match find_command t key with
        | Some _ => t
        | None => t ++ [(key, normalized)]
        end
    end) [] commands.

(** ** Candidate texts *)

(** What the parser reads of a message: a string, or an event with its [body] and the
    [formatted_body] of its content ([VStr []] when there is none). *)
Inductive message :=
  | TextMessage (s : pystr)
  | EventMessage (body formatted_body : pyval).

Definition _extract_candidate_bodies (m : message) (bot_mxid : option pystr) : list pystr :=
  match m with
  | TextMessage s => match strip s with [] => [] | s => [s] end
  | EventMessage body formatted_body =>
      let bodies :=
        match body with
        | VStr s => match strip s with [] => [] | s => [s] end
        | _ => []
        end in
      match _normalize_formatted_body_for_command_detection formatted_body bot_mxid with
      | [] => bodies
      | n => if bool_decide (n ∈ bodies) then bodies else bodies ++ [n]
      end
  end.

(** The configured user id or name of the bot; None also when its [str()] raises. *)
Definition configured_name (text : option pystr) : option pystr :=
  match text with
  | Some s => match strip s with [] => None | s => Some s end
  | None => None
  end.
Definition _resolve_bot_mxid (bot_user_id : option pystr) : option pystr := configured_name bot_user_id.
Definition _resolve_bot_display_name (bot_user_name : option pystr) : option pystr :=
  configured_name bot_user_name.

(** ** Mentions *)

(** What follows the separator between a mention and the command. *)
Definition after_mention (remainder : pystr) : option pystr :=
  match remainder with
  | [] => None
  | c :: r =>
      if is_space c then Some (lstrip remainder)
      else if c =? 58 then
        match r with
        | d :: _ => if is_space d then Some (lstrip r) else None
        | [] => None
        end
      else None
  end.

Definition _consume_mxid_mention_prefix (message bot_mxid : pystr) : option pystr :=
  if startswith message bot_mxid then after_mention (drop (length bot_mxid) message) else None.

Definition _consume_display_name_prefix (message display_name : pystr) : option pystr :=
  match display_name with
  | [] => None
  | _ =>
      if startswith (lower message) (lower display_name)
      then after_mention (drop (length display_name) message) else None
  end.

(** ** The command *)

Record ParsedMatrixCommand := { pm_command : pystr; pm_args : pystr }.

(** [sorted(commands, key=len, reverse=True)] *)
Fixpoint insert_longest (c : pystr) (l : list pystr) : list pystr :=
  match l with
  | [] => [c]
  | d :: l => if (length d <? length c)%nat then c :: d :: l else d :: insert_longest c l
  end.
Definition longest_first (l : list pystr) : list pystr :=
  foldl (λ acc c, insert_longest c acc) [] l.

(** The end of the pattern, after the command: a blank or the end, then the rest of the line as
    arguments, which are stripped.  The point does not match a line feed, and [$] also matches before one at
    the end. *)
Definition command_args (r : pystr) : option pystr :=
  match r with
  | [] => Some []
  | c :: _ =>
      if is_space c then
        let t := lstrip r in
        match cut 10 t with
        | None => Some (strip t)
        | Some (args, []) => Some (strip args)
        | Some _ => None
        end
      else None
  end.

(** The first alternative that the rest of the pattern accepts: the matched text and the
    arguments. *)
Fixpoint match_alternatives (alternatives : list pystr) (s : pystr) : option (pystr * pystr) :=
  match alternatives with
  | [] => None
  | c :: alternatives =>
      match ci_prefix c s with
      | Some r =>
          match command_args r with
          | Some args => Some (take (length c) s, args)
          | None => match_alternatives alternatives s
          end
      | None => match_alternatives alternatives s
      end
  end.

Definition _match_bang_command (message : pystr) (t : lookup_table) : option ParsedMatrixCommand :=
  match message with
  | 33 :: s =>
      match match_alternatives (longest_first t.*2) s with
      | Some (matched_command, args) =>
          Some {| pm_command := default matched_command (find_command t (casefold matched_command));
                  pm_args := args |}
      | None => None
      end
  | _ => None
  end.

(** A body of a mention, and one without. *)
Definition match_after (suffix : option pystr) (t : lookup_table) : option ParsedMatrixCommand :=
  match suffix with Some s => _match_bang_command s t | None => None end.

Definition _parse_matrix_message_command (bot_user_id bot_user_name : option pystr) (m : message)
    (commands : list pyval) (require_mention : bool) : option ParsedMatrixCommand :=
  let t := _build_command_lookup commands in
  match t with
  | [] => None
  | _ =>
      let bot_mxid := _resolve_bot_mxid bot_user_id in
      let candidate_bodies := _extract_candidate_bodies m bot_mxid in
      if require_mention then
        match bot_mxid with
        | None => None
        | Some mxid =>
            match first_some (λ body, match_after (_consume_mxid_mention_prefix body mxid) t)
                    candidate_bodies with
            | Some p => Some p
            | None =>
                match _resolve_bot_display_name bot_user_name with
                | Some name =>
                    first_some (λ body, match_after (_consume_display_name_prefix body name) t)
                      candidate_bodies
                | None => None
                end
            end
        end
      else
        first_some (λ body,
          match _match_bang_command body t with
          | Some p => Some p
          | None =>
              match bot_mxid with
              | Some mxid => match_after (_consume_mxid_mention_prefix body mxid) t
              | None => None
              end
          end) candidate_bodies
  end.

Definition bot_command (bot_user_id bot_user_name : option pystr) (command : pystr) (m : message)
    (require_mention : bool) : bool :=
  match command with
  | [] => false
  | _ =>
      match _parse_matrix_message_command bot_user_id bot_user_name m [VStr command] require_mention with
      | Some _ => true
      | None => false
      end
  end.
End commands.

(** ** Strings and prefixes *)

Lemma strip_last s t c : strip s = s → s = t ++ [c] → is_space c = false.
Proof.
  intros Hs ->. destruct (is_space c) eqn:Hc; [|done]. exfalso.
  assert (Hlen : (length (strip (t ++ [c])) ≤ length t)%nat).
  { unfold strip, rstrip. rewrite length_reverse.
    destruct (lstrip (t ++ [c])) as [|d r] eqn:E using rev_ind; [simpl; lia|].
    assert (Hl : (length (r ++ [d]) ≤ S (length t))%nat).
    { rewrite <- E. etrans; [apply drop_while_length|]. rewrite length_app. simpl. lia. }
    assert (d = c) as ->.
    { destruct (decide (forallb is_space (t ++ [c]) = true)) as [Ha|Ha].
      - unfold lstrip in E. rewrite drop_while_all in E by done. by destruct r.
      - clear -E Hc. revert E. unfold lstrip. induction t as [|x t IH]; simpl.
        + rewrite Hc. intros E. by destruct r.
        + destruct (is_space x); [done|]. intros E. change (x :: t ++ [c]) with ((x :: t) ++ [c]) in E.
          by apply app_inj_tail in E as [_ ->]. }
    rewrite reverse_snoc. unfold lstrip. cbn [drop_while]. rewrite Hc.
    etrans; [apply drop_while_length|].
    rewrite length_reverse. rewrite length_app in Hl. simpl in Hl. lia. }
  rewrite Hs, length_app in Hlen. simpl in Hlen. lia.
Qed.

Lemma strip_head s c t : strip s = s → s = c :: t → is_space c = false.
Proof.
  intros Hs ->. pose proof (lstrip_strip (c :: t)) as H. rewrite Hs in H.
  pose proof (drop_while_head is_space (c :: t)) as Hh.
  change (drop_while is_space (c :: t)) with (lstrip (c :: t)) in Hh. by rewrite H in Hh.
Qed.

Lemma strip_between c d s :
  is_space c = false → is_space d = false → strip (c :: s ++ [d]) = c :: s ++ [d].
Proof.
  intros Hc Hd. apply strip_id.
  - left. cbn. by rewrite Hc.
  - by intros ? ? [= -> _].
  - intros e t H. change (c :: s ++ [d]) with ((c :: s) ++ [d]) in H.
    by apply app_inj_tail in H as [_ <-].
Qed.

Lemma cut_None c s : c ∉ s → cut c s = None.
Proof.
  induction s as [|d s IH]; [done|]. intros [Hne Hs]%not_elem_of_cons. cbn.
  destruct (d =? c) eqn:E; [lia|]. by rewrite IH.
Qed.

Section properties.
Context (unescape unquote casefold : pystr → pystr).
Context (ci_char : Z → Z → bool) (is_word : Z → bool).

Lemma ci_prefix_app p r : (∀ c, ci_char c c = true) → ci_prefix ci_char p (p ++ r) = Some r.
Proof. intros Hr. induction p as [|c p IH]; [done|]. cbn. by rewrite Hr. Qed.

(** Every entry of the table is a spelling of a command, under its folded name. *)
Definition table_ok (commands : list pyval) (t : list (pystr * pystr)) : Prop :=
  ∀ k v, (k, v) ∈ t → k = casefold v ∧ ∃ c, c ∈ commands ∧ command_spelling c = Some v.

Lemma lookup_ok commands : table_ok commands (_build_command_lookup casefold commands).
Proof.
  unfold _build_command_lookup.
  assert (H : ∀ l t, table_ok commands t → (∀ c, c ∈ l → c ∈ commands) →
    table_ok commands (foldl (λ t command,
      match command_spelling command with
      | None => t
      | Some normalized =>
          match find_command t (casefold normalized) with
          | Some _ => t
          | None => t ++ [(casefold normalized, normalized)]
          end
      end) t l)).
  { induction l as [|c l IH]; intros t Ht Hl; [done|]. cbn [foldl]. apply IH.
    2:{ intros x Hx. apply Hl. by right. }
    destruct (command_spelling c) as [v|] eqn:Ec; [|done].
    destruct (find_command t (casefold v)); [done|].
    intros k w [Hin|Hin%list_elem_of_singleton]%elem_of_app; [by apply Ht|].
    injection Hin as -> ->. split; [done|]. exists c. split; [apply Hl; by left|done]. }
  apply H; [|done]. intros k v Hin. by apply elem_of_nil in Hin.
Qed.

Lemma find_command_in t k v : find_command t k = Some v → (k, v) ∈ t.
Proof.
  unfold find_command. destruct (List.find _ t) as [[k' v']|] eqn:E; [|done].
  intros [= <-]. apply find_some in E as [Hin Hk]. apply str_eqb_spec in Hk. cbn in Hk.
  subst. by apply list_elem_of_In.
Qed.

Lemma find_command_some t k v : (k, v) ∈ t → ∃ v', find_command t k = Some v'.
Proof.
  intros Hin. unfold find_command. destruct (List.find _ t) as [p|] eqn:E; [by eexists|].
  apply list_elem_of_In in Hin. pose proof (find_none _ _ E _ Hin) as H. cbn in H.
  by rewrite str_eqb_refl in H.
Qed.

Lemma insert_longest_elem c l x : x ∈ insert_longest c l ↔ x = c ∨ x ∈ l.
Proof.
  induction l as [|d l IH]; cbn; [set_solver|].
  case_match; rewrite !elem_of_cons; [done|]. rewrite IH. tauto.
Qed.

Lemma longest_first_elem l x : x ∈ longest_first l ↔ x ∈ l.
Proof.
  unfold longest_first. induction l as [|c l IH] using rev_ind; [done|].
  rewrite foldl_snoc, insert_longest_elem, IH, elem_of_app, list_elem_of_singleton. tauto.
Qed.

Lemma match_alternatives_sound alts s text args :
  match_alternatives ci_char alts s = Some (text, args) →
  ∃ c r, c ∈ alts ∧ ci_prefix ci_char c s = Some r ∧ text = take (length c) s ∧
         command_args r = Some args.
Proof.
  induction alts as [|c alts IH]; [done|]. cbn.
  destruct (ci_prefix ci_char c s) as [r|] eqn:Er.
  - destruct (command_args r) as [a|] eqn:Ea.
    + intros [= <- <-]. exists c, r. split_and!; [by left|done..].
    + intros H. destruct (IH H) as (c' & r' & Hc & Hr). exists c', r'. split; [by right|done].
  - intros H. destruct (IH H) as (c' & r' & Hc & Hr). exists c', r'. split; [by right|done].
Qed.

Lemma command_args_stripped r args : command_args r = Some args → strip args = args.
Proof.
  unfold command_args. destruct r as [|c r]; [by intros [= <-]|].
  destruct (is_space c); [|done]. cbv zeta.
  destruct (cut 10 _) as [[a [|? ?]]|]; try done; intros [= <-]; apply strip_idemp.
Qed.

(** The comparison under [re.IGNORECASE] is no coarser than that of the folded names. *)
Definition folds : Prop :=
  ∀ c s r, ci_prefix ci_char c s = Some r → casefold (take (length c) s) = casefold c.

Lemma match_bang_known commands m p :
  folds → _match_bang_command casefold ci_char m (_build_command_lookup casefold commands) = Some p →
  (∃ c, c ∈ commands ∧ command_spelling c = Some (pm_command p)) ∧ strip (pm_args p) = pm_args p.
Proof.
  intros Hf. pose proof (lookup_ok commands) as Ht.
  set (t := _build_command_lookup casefold commands) in *. unfold _match_bang_command.
  destruct m as [|h s]; [done|]. destruct h as [|h|h]; try done. do 6 (destruct h as [h|h|]; try done).
  destruct (match_alternatives ci_char (longest_first t.*2) s) as [[text args]|] eqn:E; [|done].
  intros [= <-]. cbn [pm_command pm_args].
  apply match_alternatives_sound in E as (c & r & Hc & Hr & -> & Ha).
  split; [|by eapply command_args_stripped].
  apply longest_first_elem, list_elem_of_fmap in Hc as ([k v] & -> & Hin). cbn [snd] in *.
  rewrite (Hf _ _ _ Hr). destruct (Ht _ _ Hin) as [-> _].
  destruct (find_command_some _ _ _ Hin) as [v' Hv']. rewrite Hv'. cbn.
  apply find_command_in in Hv'. by destruct (Ht _ _ Hv') as [_ ?].
Qed.
End properties.

Section parser.
Context (unescape unquote casefold : pystr → pystr).
Context (ci_char : Z → Z → bool) (is_word : Z → bool).
Abbreviation parse := (_parse_matrix_message_command unescape unquote casefold ci_char is_word).
Abbreviation candidates := (_extract_candidate_bodies unescape unquote casefold ci_char is_word).

(** Where a parsed command was read. *)
Lemma parse_source id name m commands require p :
  parse id name m commands require = Some p →
  ∃ text, _match_bang_command casefold ci_char text (_build_command_lookup casefold commands) = Some p.
Proof.
  unfold _parse_matrix_message_command. cbv zeta.
  destruct (_build_command_lookup casefold commands) as [|kv t]; [done|].
  set (tt := kv :: t).
  assert (Hafter : ∀ suffix, match_after casefold ci_char suffix tt = Some p →
            ∃ text, _match_bang_command casefold ci_char text tt = Some p).
  { intros [s|]; [|done]. cbn. eauto. }
  destruct require.
  - destruct (_resolve_bot_mxid id) as [mxid|]; [|done].
    destruct (first_some _ _) as [q|] eqn:E.
    + intros [= ->]. apply first_some_Some in E as (_ & x & _ & _ & H & _). eauto.
    + destruct (_resolve_bot_display_name name); [|done].
      intros H. apply first_some_Some in H as (_ & x & _ & _ & H & _). eauto.
  - intros H. apply first_some_Some in H as (_ & x & _ & _ & H & _).
    destruct (_match_bang_command casefold ci_char x tt) eqn:E; [by exists x; rewrite E|].
    destruct (_resolve_bot_mxid id); [eauto|done].
Qed.

(** A parsed command is one of the commands that were asked for, in their
    own spelling, and its arguments carry no blanks at either end - given that the case-insensitive
    comparison of characters is no coarser than the folding of case. *)
Theorem parsed_command_known id name m commands require p :
  folds casefold ci_char → parse id name m commands require = Some p →
  (∃ c, c ∈ commands ∧ command_spelling c = Some (pm_command p)) ∧ strip (pm_args p) = pm_args p.
Proof. intros Hf H. apply parse_source in H as [text H]. by apply match_bang_known in H. Qed.

(** A blank, or a colon and a blank. *)
Definition separated (r : pystr) : Prop :=
  ∃ c r', r = c :: r' ∧
    (is_space c = true ∨ c = 58 ∧ ∃ d r'', r' = d :: r'' ∧ is_space d = true).

Lemma after_mention_separated r s : after_mention r = Some s → separated r.
Proof.
  unfold after_mention. destruct r as [|c r]; [done|]. destruct (is_space c) eqn:Hc.
  - intros _. exists c, r. auto.
  - destruct (c =? 58) eqn:H58; [|done]. destruct r as [|d r]; [done|].
    destruct (is_space d) eqn:Hd; [|done]. intros _. exists c, (d :: r). split; [done|].
    right. split; [lia|]. eauto.
Qed.

(** Where a mention is required, a command is accepted only from a bot whose user id is
    known, and only in a text that starts with that id - or, case aside, with the display
    name - followed by a blank or by a colon and a blank.  In particular the compact
    form without a separator is refused. *)
Theorem mention_required id name m commands p :
  parse id name m commands true = Some p →
  ∃ mxid, _resolve_bot_mxid id = Some mxid ∧
  ∃ body, body ∈ candidates m (Some mxid) ∧
    (startswith body mxid = true ∧ separated (drop (length mxid) body) ∨
     ∃ display, _resolve_bot_display_name name = Some display ∧
       startswith (lower body) (lower display) = true ∧ separated (drop (length display) body)).
Proof.
  unfold _parse_matrix_message_command. cbv zeta.
  destruct (_build_command_lookup casefold commands) as [|kv t]; [done|].
  destruct (_resolve_bot_mxid id) as [mxid|] eqn:Hid; [|done].
  destruct (first_some (λ body, match_after casefold ci_char
              (_consume_mxid_mention_prefix body mxid) (kv :: t)) _) as [q|] eqn:E.
  - intros _. exists mxid. split; [done|].
    apply first_some_Some in E as (l1 & x & l2 & Hl & H & _). exists x.
    split; [rewrite Hl; set_solver|]. left. revert H. unfold _consume_mxid_mention_prefix.
    destruct (startswith x mxid); [|done]. destruct (after_mention _) eqn:Ha; [|done].
    intros _. split; [done|]. by eapply after_mention_separated.
  - destruct (_resolve_bot_display_name name) as [display|]; [|done].
    intros H. exists mxid. split; [done|].
    apply first_some_Some in H as (l1 & x & l2 & Hl & H & _). exists x.
    split; [rewrite Hl; set_solver|]. right. exists display. split; [done|].
    revert H. unfold _consume_display_name_prefix. destruct display as [|c display]; [done|].
    destruct (startswith _ _); [|done]. destruct (after_mention _) eqn:Ha; [|done].
    intros _. split; [done|]. by eapply after_mention_separated.
Qed.

(** Every command can be given: for a spelling without blanks around it, the text
    [!command arguments] is read back as that command with those arguments, if these are a single
    line without blanks around it; whatever the bot is called. *)
Theorem bang_roundtrip id name (c : Z) (cmd args : pystr) :
  (∀ x, ci_char x x = true) →
  command_spelling (VStr (c :: cmd)) = Some (c :: cmd) →
  strip args = args → args ≠ [] → 10 ∉ args →
  parse id name (TextMessage (u "!" ++ (c :: cmd) ++ u " " ++ args)) [VStr (c :: cmd)] false
  = Some {| pm_command := c :: cmd; pm_args := args |}.
Proof.
  intros Hci Hsp Hstrip Hne Hnl.
  assert (Ht : _build_command_lookup casefold [VStr (c :: cmd)] = [(casefold (c :: cmd), c :: cmd)]).
  { unfold _build_command_lookup. cbn [foldl]. by rewrite Hsp. }
  set (msg := u "!" ++ (c :: cmd) ++ u " " ++ args).
  assert (Hmsg : strip msg = msg).
  { destruct (exists_last Hne) as (l & d & ->). unfold msg.
    assert (Hd : is_space d = false) by (by eapply strip_last).
    replace (u "!" ++ (c :: cmd) ++ u " " ++ l ++ [d])
      with (33 :: ((c :: cmd) ++ u " " ++ l) ++ [d]) by (cbn; by rewrite <- !app_assoc).
    by apply strip_between. }
  assert (Hargs : command_args (u " " ++ args) = Some args).
  { change (u " " ++ args) with (32 :: args). unfold command_args.
    change (is_space 32) with true. cbn iota zeta.
    assert (Hl : lstrip (32 :: args) = args).
    { change (lstrip (32 :: args)) with (lstrip args). rewrite <- Hstrip at 1.
      rewrite lstrip_strip. exact Hstrip. }
    rewrite Hl, cut_None by done. by rewrite Hstrip. }
  assert (Hmatch : _match_bang_command casefold ci_char msg [(casefold (c :: cmd), c :: cmd)]
                   = Some {| pm_command := c :: cmd; pm_args := args |}).
  { change msg with (33 :: ((c :: cmd) ++ u " " ++ args)). unfold _match_bang_command.
    cbn [fmap list_fmap snd longest_first foldl insert_longest match_alternatives].
    rewrite ci_prefix_app by done. rewrite Hargs, take_app_length.
    unfold find_command. cbn [List.find fst]. rewrite str_eqb_refl. done. }
  unfold _parse_matrix_message_command. rewrite Ht. cbv zeta iota.
  assert (Hcand : candidates (TextMessage msg) (_resolve_bot_mxid id) = [msg]).
  { unfold _extract_candidate_bodies. by rewrite Hmsg. }
  rewrite Hcand. cbn [first_some]. by rewrite Hmatch.
Qed.
End parser.

(** ** Examples and witnesses

    With ASCII case folding, and texts without entities or escapes. *)

Definition ascii_fold_char (c : Z) : Z := if between 65 90 c then c + 32 else c.
Definition ascii_fold (s : pystr) : pystr := ascii_fold_char <$> s.
Definition ascii_ci (c d : Z) : bool := ascii_fold_char c =? ascii_fold_char d.
Definition ascii_word (c : Z) : bool :=
  between 48 57 c || between 65 90 c || between 97 122 c || (c =? 95).

Definition demo_parse (m : message) (commands : list pyval) (require : bool) :=
  _parse_matrix_message_command id id ascii_fold ascii_ci ascii_word
    (Some (u "@bot:server")) (Some (u "Bot")) m commands require.

Lemma ascii_folds : folds ascii_fold ascii_ci.
Proof.
  intros c s r. revert s. induction c as [|x c IH]; intros [|y s]; try done.
  cbn [ci_prefix length take]. unfold ascii_ci at 1.
  destruct (ascii_fold_char x =? ascii_fold_char y) eqn:E; [|done]. intros H.
  cbn. f_equal; [lia|]. by apply IH.
Qed.

(** A mention pill, a display name, and the compact form. *)
Example demo_mentions :
  demo_parse (EventMessage (VStr (u "Bot: hi"))
    (VStr (u "<a href='https://matrix.to/#/@bot:server'>Bot</a>: !Ping <b>now</b>"))) [VStr (u "!ping")] true
  = Some {| pm_command := u "ping"; pm_args := u "now" |} ∧
  demo_parse (TextMessage (u "bot: !ping")) [VStr (u "ping")] true
  = Some {| pm_command := u "ping"; pm_args := [] |} ∧
  demo_parse (TextMessage (u "@bot:server!ping")) [VStr (u "ping")] true = None.
Proof. vm_compute. done. Qed.

(** Arguments of more than one line are not accepted. *)
Example demo_two_lines :
  demo_parse (TextMessage (u "!drop one" ++ [10] ++ u "two")) [VStr (u "drop")] false = None.
Proof. vm_compute. done. Qed.

(** A mention is not limited to the user id: the display name will do. *)
Lemma display_name_accepted :
  bot_command id id ascii_fold ascii_ci ascii_word (Some (u "@bot:server")) (Some (u "Bot"))
    (u "ping") (TextMessage (u "BOT !ping")) true = true.
Proof. vm_compute. done. Qed.

Lemma parsed_command_known_witness :
  (∃ c, c ∈ [VStr (u "!ping")] ∧ command_spelling c = Some (u "ping")) ∧ strip (u "now") = u "now".
Proof.
  apply (parsed_command_known id id ascii_fold ascii_ci ascii_word (Some (u "@bot:server"))
    (Some (u "Bot")) (TextMessage (u "!PING now")) [VStr (u "!ping")] false
    {| pm_command := u "ping"; pm_args := u "now" |}).
  - exact ascii_folds.
  - vm_compute. reflexivity.
Defined.

Lemma mention_required_witness :
  ∃ mxid, _resolve_bot_mxid (Some (u "@bot:server")) = Some mxid ∧
  ∃ body, body ∈ _extract_candidate_bodies id id ascii_fold ascii_ci ascii_word
                   (TextMessage (u "@bot:server: !ping")) (Some mxid) ∧
    (startswith body mxid = true ∧ separated (drop (length mxid) body) ∨
     ∃ display, _resolve_bot_display_name (Some (u "Bot")) = Some display ∧
       startswith (lower body) (lower display) = true ∧ separated (drop (length display) body)).
Proof.
  apply (mention_required id id ascii_fold ascii_ci ascii_word (Some (u "@bot:server"))
    (Some (u "Bot")) (TextMessage (u "@bot:server: !ping")) [VStr (u "ping")]
    {| pm_command := u "ping"; pm_args := [] |}).
  vm_compute. reflexivity.
Defined.

Lemma bang_roundtrip_witness :
  _parse_matrix_message_command id id ascii_fold ascii_ci ascii_word None None
    (TextMessage (u "!" ++ u "drop" ++ u " " ++ u "a b")) [VStr (u "drop")] false
  = Some {| pm_command := u "drop"; pm_args := u "a b" |}.
Proof.
  apply (bang_roundtrip id id ascii_fold ascii_ci ascii_word None None 100 (u "rop") (u "a b")).
  - intros x. apply Z.eqb_refl.
  - vm_compute. reflexivity.
  - vm_compute. reflexivity.
  - discriminate.
  - vm_compute. intros H. repeat (apply elem_of_cons in H as [H|H]; [lia|]). by apply elem_of_nil in H.
Defined.
