(* ===== verification/BasePlugin.v ===== *)
(** * The base class of the plugins

    Models [BasePlugin] of [src/mmrelay/plugins/base_plugin.py]: how a plugin finds its configuration
    among the three sections, its channels, its delay and whether it wants to be mentioned; the decisions
    its handlers take with them; the data it keeps per node; the two command parsers; and the schedule of
    its background job.

    [tier] is the section inferred from the directory the plugin was loaded from.  Files, the
    scheduler and the clients are not modelled: a message to the mesh is the value that is queued,
    a Matrix event the content that is sent. *)

From Stdlib Require Import String QArith.
From stdpp Require Import base tactics list numbers gmap sets.
From S2P Require Import Prelude PyStr PyValue Prefixes NameSync DbConfig Commands QueueState.
Open Scope Z_scope.

Definition CONFIG_SECTION_PLUGINS : pystr := u "plugins".
Definition CONFIG_SECTION_COMMUNITY_PLUGINS : pystr := u "community-plugins".
Definition CONFIG_SECTION_CUSTOM_PLUGINS : pystr := u "custom-plugins".
Definition CONFIG_KEY_REQUIRE_BOT_MENTION : pystr := u "require_bot_mention".
Definition DEFAULT_REQUIRE_BOT_MENTION : bool := true.
Definition DEFAULT_TEXT_TRUNCATION_LENGTH : nat := 50.
Definition DEFAULT_MAX_DATA_ROWS_PER_NODE_BASE : Z := 100.
Definition PLUGIN_CONFIG_SECTIONS : list pystr :=
  [CONFIG_SECTION_PLUGINS; CONFIG_SECTION_COMMUNITY_PLUGINS; CONFIG_SECTION_CUSTOM_PLUGINS].

(** ** Configuration *)

(** [x in l] for values. *)
Definition py_in (x : pyval) (l : list pyval) : bool := existsb (py_eqb x) l.

(** A section of the configuration, if it is a mapping. *)
Definition section (config : pydict) (name : pystr) : option pydict :=
  match dget config name with Some (VDict d) => Some d | None => Some [] | _ => None end.

(** The entry of a plugin in a section; a section of another type has none. *)
Definition plugin_entry (config : pydict) (name sec : pystr) : option pyval :=
  match section config sec with Some d => dget d name | None => None end.

Definition candidate_sections (is_core : bool) (tier : option pystr) : list pystr :=
  if is_core then [CONFIG_SECTION_PLUGINS] else
  match tier with
  | Some t =>
      if bool_decide (t ∈ PLUGIN_CONFIG_SECTIONS)
      then t :: filter (λ s, s ≠ t) PLUGIN_CONFIG_SECTIONS
      else PLUGIN_CONFIG_SECTIONS
  | None => PLUGIN_CONFIG_SECTIONS
  end.

(** The first section that mentions the plugin. *)
Definition configured_section (config : pydict) (name : pystr) (sections : list pystr) : option pystr :=
  List.find (λ s, match plugin_entry config name s with Some _ => true | None => false end) sections.

(** The section whose general settings apply: that of the plugin, unless it was found in the
    core section while another tier is known. *)
Definition expected_section (is_core : bool) (tier found : option pystr) : option pystr :=
  let initial := if is_core then Some CONFIG_SECTION_PLUGINS else tier in
  match found with
  | Some s =>
      if bool_decide (initial = None) || negb (str_eqb s CONFIG_SECTION_PLUGINS) then Some s
      else initial
  | None => initial
  end.

Definition PLUGIN_SECTION_TYPES (sec : pystr) : option pystr :=
  if str_eqb sec CONFIG_SECTION_PLUGINS then Some (u "core")
  else if str_eqb sec CONFIG_SECTION_COMMUNITY_PLUGINS then Some (u "community")
  else if str_eqb sec CONFIG_SECTION_CUSTOM_PLUGINS then Some (u "custom")
  else None.

(** [self.plugin_type] *)
Definition plugin_type (is_core : bool) (tier found : option pystr) : option pystr :=
  let initial := if is_core then Some (u "core") else tier ≫= PLUGIN_SECTION_TYPES in
  let expected := if is_core then Some CONFIG_SECTION_PLUGINS else tier in
  match found with
  | Some s =>
      if bool_decide (expected = None) || negb (str_eqb s CONFIG_SECTION_PLUGINS) then
        match PLUGIN_SECTION_TYPES s with
        | Some ty =>
            if negb (str_eqb ty (u "core")) || bool_decide (initial = None) ||
               bool_decide (initial = Some (u "core"))
            then Some ty else initial
        | None => initial
        end
      else initial
  | None => initial
  end.

(** [self.config] *)
Definition plugin_config (config : pydict) (name : pystr) (sections : list pystr) : pydict :=
  match configured_section config name sections ≫= plugin_entry config name with
  | Some (VDict d) => d
  | Some _ => []
  | None => [(u "active", VBool false)]
  end.

(** [self._global_require_bot_mention] *)
Definition global_require_mention (config : pydict) (expected : option pystr) : option bool :=
  let sections :=
    match expected with
    | Some s => if str_eqb s CONFIG_SECTION_PLUGINS then [s] else [s; CONFIG_SECTION_PLUGINS]
    | None => [CONFIG_SECTION_PLUGINS]
    end in
  first_some (λ s,
    match section config s with
    | Some d => truthy <$> dget d CONFIG_KEY_REQUIRE_BOT_MENTION
    | None => None
    end) sections.

(** [self.mapped_channels]; a value that cannot be iterated raises. *)
Definition mapped_channels (config : pydict) : res (list pyval) :=
  let of_rooms l := (λ d, dget_none d (u "meshtastic_channel")) <$>
                    omap (λ r, match r with VDict d => Some d | _ => None end) l in
  match dget_or config (u "matrix_rooms") (VSeq KList []) with
  | VDict d => Ok (of_rooms d.*2)
  | VSeq _ l => Ok (of_rooms l)
  | VStr _ | VBytes _ => Ok []
  | _ => Raise TypeError
  end.

(** [self.response_delay]: a number below the minimum becomes the minimum. *)
Definition response_delay (config : pydict) : res pyval :=
  match dget_or config (u "meshtastic") (VDict []) with
  | VDict m =>
      let delay :=
        match dget m (u "message_delay") with
        | Some v => v
        | None => dget_none m (u "plugin_response_delay")
        end in
      match delay with
      | VNone => Ok (VFloat (FFin DEFAULT_MESSAGE_DELAY))
      | VInt _ | VBool _ | VFloat (FFin _) =>
          match num_value delay with
          | Some q => if qlt q MINIMUM_MESSAGE_DELAY
                      then Ok (VFloat (FFin MINIMUM_MESSAGE_DELAY)) else Ok delay
          | None => Ok delay
          end
      | VFloat (FInf true) => Ok (VFloat (FFin MINIMUM_MESSAGE_DELAY))
      | VFloat _ => Ok delay
      | _ => Raise TypeError
      end
  | VStr s =>
      if contains s (u "message_delay") || contains s (u "plugin_response_delay")
      then Raise TypeError else Ok (VFloat (FFin DEFAULT_MESSAGE_DELAY))
  | VSeq _ l =>
      if py_in (VStr (u "message_delay")) l || py_in (VStr (u "plugin_response_delay")) l
      then Raise TypeError else Ok (VFloat (FFin DEFAULT_MESSAGE_DELAY))
  | _ => Raise TypeError
  end.

Record plugin := {
  pl_name : pystr; pl_core : bool; pl_type : option pystr; pl_config : pydict;
  pl_channels : list pyval; pl_global_mention : option bool; pl_delay : pyval;
  pl_max_rows : Z }.

(** [BasePlugin.__init__] *)
Definition plugin_init (name : pystr) (is_core : bool) (tier : option pystr) (max_rows : Z)
    (config : option pydict) : res plugin :=
  match config with
  | None =>
      Ok {| pl_name := name; pl_core := is_core;
            pl_type := if is_core then Some (u "core") else None;
            pl_config := [(u "active", VBool false)]; pl_channels := [];
            pl_global_mention := None; pl_delay := VFloat (FFin DEFAULT_MESSAGE_DELAY);
            pl_max_rows := max_rows |}
  | Some config =>
      let tier := if is_core then None else tier in
      let sections := candidate_sections is_core tier in
      let found := configured_section config name sections in
      let cfg := plugin_config config name sections in
      let! mapped := mapped_channels config in
      let channels :=
        match dget cfg (u "channels") with
        | Some (VSeq KList l) => l
        | Some v => [v]
        | None => mapped
        end in
      let! delay := response_delay config in
      Ok {| pl_name := name; pl_core := is_core; pl_type := plugin_type is_core tier found;
            pl_config := cfg; pl_channels := channels;
            pl_global_mention := global_require_mention config (expected_section is_core tier found);
            pl_delay := delay; pl_max_rows := max_rows |}
  end.

Definition get_require_bot_mention (p : plugin) : bool :=
  match dget (pl_config p) CONFIG_KEY_REQUIRE_BOT_MENTION with
  | Some v => truthy v
  | None =>
      match pl_global_mention p with
      | Some b => b
      | None => if pl_core p then DEFAULT_REQUIRE_BOT_MENTION else false
      end
  end.

Definition is_channel_enabled (p : plugin) (channel : pyval) (is_direct_message : bool) : bool :=
  is_direct_message || py_in channel (pl_channels p).

(** [my_id]: the node number of the relay, when it is known. *)
Definition is_direct_message (my_id : option Z) (packet : pydict) : bool :=
  match dget_none packet (u "to") with
  | VNone => false
  | to_id => match my_id with Some n => py_eqb to_id (VInt n) | None => false end
  end.

(** ** Data of the nodes *)

(** [l[-n:]] *)
Definition py_last {A} (n : Z) (l : list A) : list A :=
  if n =? 0 then l
  else if 0 <? n then drop (length l - Z.to_nat n) l
  else drop (Z.to_nat (- n)) l.

Definition as_list (v : pyval) : list pyval := match v with VSeq KList l => l | _ => [v] end.

Definition appended (p : plugin) (old node_data : pyval) : list pyval :=
  py_last (pl_max_rows p) (as_list old ++ as_list node_data).

(** The list [set_node_data] keeps; a dictionary, a string or a scalar is one item. *)
Definition replaced (p : plugin) (node_data : pyval) : list pyval :=
  py_last (pl_max_rows p) (match node_data with VSeq _ l => l | v => [v] end).

Section data.
Context (other_str : pyval → pystr) (dumps : pyval → option pystr) (loads : pystr → option pyval).

(** [err]: the statement fails. *)
Definition get_node_data (err : bool) (p : plugin) (node : pyval) (t : gmap (pystr * pystr) pystr)
    : pyval :=
  get_plugin_data_for_node other_str loads err (pl_name p) node t.
Definition store_node_data (err_read err_write : bool) (p : plugin) (node node_data : pyval)
    (t : gmap (pystr * pystr) pystr) : gmap (pystr * pystr) pystr :=
  store_plugin_data other_str err_write (pl_name p) node
    (dumps (VSeq KList (appended p (get_node_data err_read p node t) node_data))) t.
Definition set_node_data (err : bool) (p : plugin) (node node_data : pyval)
    (t : gmap (pystr * pystr) pystr) : gmap (pystr * pystr) pystr :=
  store_plugin_data other_str err (pl_name p) node (dumps (VSeq KList (replaced p node_data))) t.
Definition delete_node_data (err : bool) (p : plugin) (node : pyval)
    (t : gmap (pystr * pystr) pystr) : gmap (pystr * pystr) pystr :=
  delete_plugin_data other_str err (pl_name p) node t.
End data.

(** [strip_raw]: the value after the mutation in place. *)
Fixpoint strip_raw (v : pyval) : pyval :=
  match v with
  | VDict d =>
      VDict ((fix go (d : pydict) : pydict :=
                match d with
                | [] => []
                | (k, w) :: d => if str_eqb k (u "raw") then go d else (k, strip_raw w) :: go d
                end) d)
  | VSeq KList l =>
      VSeq KList ((fix go (l : list pyval) : list pyval :=
                     match l with [] => [] | w :: l => strip_raw w :: go l end) l)
  | v => v
  end.

(** ** Messages *)

(** What [send_message] queues: an ordinary text, or a structured reply. *)
Inductive plugin_call :=
  | PluginText (text : pystr) (channel : pyval) (destination : option pyval)
  | PluginReply (text : pystr) (channel : pyval) (reply_id destination : pyval).

Definition plugin_description (p : plugin) (text : pystr) : pystr :=
  u "Plugin " ++ pl_name p ++ u ": " ++ take DEFAULT_TEXT_TRUNCATION_LENGTH text ++
  (if (DEFAULT_TEXT_TRUNCATION_LENGTH <? length text)%nat then u "..." else []).

Definition send_message (BROADCAST_NUM : Z) (connected : bool) (p : plugin) (text : pystr)
    (channel : pyval) (destination_id reply_id : option pyval) : option (plugin_call * pystr) :=
  if negb connected then None
  else Some (match reply_id with
             | Some r => PluginReply text channel r (default (VInt BROADCAST_NUM) destination_id)
             | None => PluginText text channel destination_id
             end, plugin_description p text).

(** The content of the event [send_matrix_message] sends; [html]: the Markdown rendering. *)
Definition matrix_content (html : pystr → pystr) (text : pystr) (formatted : bool)
    (reply_to_event_id : option pystr) : pydict :=
  [(u "msgtype", VStr (u "m.text")); (u "body", VStr text)] ++
  (if formatted then [(u "format", VStr (u "org.matrix.custom.html"));
                      (u "formatted_body", VStr (html text))] else []) ++
  match reply_to_event_id with
  | Some ((_ :: _) as e) =>
      [(u "m.relates_to", VDict [(u "m.in_reply_to", VDict [(u "event_id", VStr e)])])]
  | _ => []
  end.

Definition reaction_content (event_id emoji : pystr) : pydict :=
  [(u "m.relates_to", VDict [(u "rel_type", VStr (u "m.annotation"));
                             (u "event_id", VStr event_id); (u "key", VStr emoji)]);
   (u "mmrelay_suppress", VBool true)].

(** ** Commands *)

Section commands.
Context (unescape unquote casefold : pystr → pystr).
Context (ci_char : Z → Z → bool) (is_word : Z → bool).
Context (bot_user_id bot_user_name : option pystr).
Abbreviation parse := (_parse_matrix_message_command unescape unquote casefold ci_char is_word
                         bot_user_id bot_user_name).

(** [commands]: what [get_matrix_commands] of the plugin gives, by default its name. *)
Definition get_matrix_commands (p : plugin) : list pyval := [VStr (pl_name p)].

Definition get_matching_matrix_command_with_args (p : plugin) (commands : list pyval) (event : message)
    : option (pystr * pystr) :=
  (λ c, (pm_command c, pm_args c)) <$> parse event commands (get_require_bot_mention p).

Definition matches (p : plugin) (commands : list pyval) (event : message) : bool :=
  match get_matching_matrix_command_with_args p commands event with Some _ => true | None => false end.

(** With the event, or with a text ([pyval], since it is checked). *)
Definition extract_command_args (p : plugin) (commands : list pyval) (command : pystr)
    (event : option message) (text : pyval) : option pystr :=
  match event with
  | Some event =>
      match get_matching_matrix_command_with_args p commands event with
      | Some (matched, args) => if str_eqb (casefold matched) (casefold command) then Some args else None
      | None => None
      end
  | None =>
      match text with
      | VStr s => pm_args <$> parse (TextMessage s) [VStr command] (get_require_bot_mention p)
      | _ => None
      end
  end.

(** The end of a word after the matched text [m], before [r]. *)
Definition word_boundary (m r : pystr) : bool :=
  let before := match last m with Some c => is_word c | None => false end in
  let after := match r with c :: _ => is_word c | [] => false end in
  xorb before after.

(** The alternatives are tried in the order of the commands. *)
Fixpoint mesh_alternatives (alternatives : list pystr) (s : pystr) : option (pystr * pystr) :=
  match alternatives with
  | [] => None
  | c :: alternatives =>
      match ci_prefix ci_char c s with
      | Some r =>
          let m := take (length c) s in
          match (if word_boundary m r then command_args r else None) with
          | Some args => Some (m, args)
          | None => mesh_alternatives alternatives s
          end
      | None => mesh_alternatives alternatives s
      end
  end.

(** A bang and a command at the head. *)
Definition bang_here (alternatives : list pystr) (s : pystr) : option (pystr * pystr) :=
  match s with 33 :: s => mesh_alternatives alternatives s | _ => None end.

(** The first place, at the beginning or after a blank, where a command stands. *)
Fixpoint bang_anywhere (alternatives : list pystr) (allowed : bool) (s : pystr)
    : option (pystr * pystr) :=
  match (if allowed then bang_here alternatives s else None) with
  | Some r => Some r
  | None =>
      match s with
      | [] => None
      | c :: s => bang_anywhere alternatives (is_space c) s
      end
  end.

Definition parse_mesh_bang_command (text : pyval) (commands : list pyval) (allow_anywhere : bool)
    : option (pystr * pystr) :=
  match text with
  | VStr text =>
      let t := _build_command_lookup casefold commands in
      match t with
      | [] => None
      | _ =>
          let found := if allow_anywhere then bang_anywhere t.*2 true text
                       else bang_here t.*2 (lstrip text) in
          (λ r, (default r.1 (find_command t (casefold r.1)), r.2)) <$> found
      end
  | _ => None
  end.
End commands.

(** ** Schedule *)

(** The unit of the job, its interval, and its time of day when one is given. *)
Inductive schedule_unit := Hours | Minutes | Seconds.

Definition schedule_job_of (cfg : pydict) : option (schedule_unit * pyval * option pyval) :=
  match dget_none cfg (u "schedule") with
  | VDict s =>
      match dget s (u "at"), dget s (u "hours"), dget s (u "minutes"), dget s (u "seconds") with
      | Some a, Some h, _, _ => Some (Hours, h, Some a)
      | Some a, None, Some m, _ => Some (Minutes, m, Some a)
      | _, Some h, _, _ => Some (Hours, h, None)
      | _, None, Some m, _ => Some (Minutes, m, None)
      | _, None, None, Some s => Some (Seconds, s, None)
      | _, None, None, None => None
      end
  | _ => None
  end.


(** ** Lemmas *)

(** Induction on values, through the sequences and dictionaries. *)
Section induction.
Context (P : pyval → Prop).
Context (H_none : P VNone) (H_bool : ∀ b, P (VBool b)) (H_int : ∀ z, P (VInt z))
  (H_float : ∀ f, P (VFloat f)) (H_str : ∀ s, P (VStr s)) (H_bytes : ∀ b, P (VBytes b))
  (H_seq : ∀ k l, Forall P l → P (VSeq k l)) (H_dict : ∀ d, Forall (λ kv, P kv.2) d → P (VDict d))
  (H_obj : ∀ c, P (VObj c)).

Fixpoint pyval_nested_ind (v : pyval) : P v :=
  match v with
  | VNone => H_none
  | VBool b => H_bool b
  | VInt z => H_int z
  | VFloat f => H_float f
  | VStr s => H_str s
  | VBytes b => H_bytes b
  | VSeq k l =>
      H_seq k l ((fix go (l : list pyval) : Forall P l :=
                    match l with
                    | [] => Forall_nil_2 P
                    | w :: l => Forall_cons_2 P w l (pyval_nested_ind w) (go l)
                    end) l)
  | VDict d =>
      H_dict d ((fix go (d : pydict) : Forall (λ kv, P kv.2) d :=
                   match d with
                   | [] => Forall_nil_2 _
                   | kv :: d => Forall_cons_2 (λ kv, P kv.2) kv d (pyval_nested_ind kv.2) (go d)
                   end) d)
  | VObj c => H_obj c
  end.
End induction.

(** The clean-up of a dictionary and of a list. *)
Definition strip_dict (d : pydict) : pydict :=
  omap (λ kv, if str_eqb kv.1 (u "raw") then None else Some (kv.1, strip_raw kv.2)) d.

Lemma strip_raw_dict d : strip_raw (VDict d) = VDict (strip_dict d).
Proof.
  unfold strip_dict. cbn [strip_raw]. f_equal.
  induction d as [|[k w] d IH]; [done|]. cbn [omap list_omap fst snd].
  destruct (str_eqb k (u "raw")); [exact IH|]. by rewrite IH.
Qed.

Lemma strip_raw_list l : strip_raw (VSeq KList l) = VSeq KList (strip_raw <$> l).
Proof. reflexivity. Qed.

(** Steps from a value to one inside it: through a key of a dictionary, an index of a list. *)
Inductive path_step := Key (k : pystr) | Idx (n : nat).

Definition child (v : pyval) (p : path_step) : option pyval :=
  match v, p with
  | VDict d, Key k => dget d k
  | VSeq KList l, Idx n => l !! n
  | _, _ => None
  end.

(** The value at a path. *)
Fixpoint at_path (p : list path_step) (v : pyval) : option pyval :=
  match p with [] => Some v | s :: p => child v s ≫= at_path p end.

Lemma dget_strip d k :
  dget (strip_dict d) k = if str_eqb k (u "raw") then None else strip_raw <$> dget d k.
Proof.
  unfold strip_dict. induction d as [|[k' v] d IH]; [by destruct (str_eqb k _)|].
  cbn [omap list_omap fst snd dget]. destruct (str_eqb k' (u "raw")) eqn:E'.
  - rewrite IH. destruct (str_eqb k (u "raw")) eqn:E; [done|]. destruct (str_eqb k' k) eqn:Ek; [|done].
    apply str_eqb_spec in Ek as ->. congruence.
  - cbn [dget]. destruct (str_eqb k' k) eqn:Ek.
    + apply str_eqb_spec in Ek as ->. by rewrite E'.
    + exact IH.
Qed.

(** The step goes through a [raw] key. *)
Definition raw_key (p : path_step) : bool :=
  match p with Key k => str_eqb k (u "raw") | Idx _ => false end.

Lemma child_strip v p :
  child (strip_raw v) p = if raw_key p then None else strip_raw <$> child v p.
Proof.
  destruct v as [| | | | | |sk l|d|]; try (destruct p; cbn; by repeat case_match).
  - destruct sk; try (destruct p; cbn; by repeat case_match). rewrite strip_raw_list. destruct p as [k|n].
    + cbn [child raw_key]. by destruct (str_eqb _ _).
    + apply list_lookup_fmap.
  - rewrite strip_raw_dict. destruct p as [k|n]; [apply dget_strip|done].
Qed.

(** What is left of a packet after [strip_raw] is exactly what can be reached without
    going through a key [raw], at any depth of dictionaries and lists; nothing else is lost, moved
    or changed. *)
Theorem strip_raw_exact (p : list path_step) (v : pyval) :
  at_path p (strip_raw v) = if existsb raw_key p then None else strip_raw <$> at_path p v.
Proof.
  revert v. induction p as [|s p IH]; intros v; [done|]. cbn [at_path existsb].
  rewrite child_strip. destruct (raw_key s); [done|]. destruct (child v s) as [w|]; cbn; [apply IH|].
  by destruct (existsb _ _).
Qed.

Lemma strip_raw_idempotent v : strip_raw (strip_raw v) = strip_raw v.
Proof.
  induction v as [| | | | | |k l IH|d IH|] using pyval_nested_ind; try done.
  - destruct k; try done. rewrite !strip_raw_list. f_equal. rewrite <- list_fmap_compose.
    apply Forall_fmap_ext_1. by apply Forall_forall; rewrite Forall_forall in IH.
  - rewrite !strip_raw_dict. f_equal. unfold strip_dict.
    induction IH as [|[k w] d Hw _ IHd]; [done|]. cbn [omap list_omap fst snd].
    destruct (str_eqb k (u "raw")) eqn:E; [done|]. cbn [omap list_omap fst snd].
    rewrite E. cbn in Hw. by rewrite Hw, IHd.
Qed.

(** *** Data of the nodes *)

Lemma py_last_length {A} n (l : list A) : 0 < n → (length (py_last n l) ≤ Z.to_nat n)%nat.
Proof.
  intros Hn. unfold py_last. destruct (Z.eqb_spec n 0); [lia|].
  destruct (Z.ltb_spec 0 n); [|lia]. rewrite length_drop. lia.
Qed.

Lemma py_last_all {A} n (l : list A) : Z.of_nat (length l) ≤ n → py_last n l = l.
Proof.
  intros Hn. unfold py_last. destruct (Z.eqb_spec n 0); [done|].
  destruct (Z.ltb_spec 0 n); [|lia]. by replace (_ - _)%nat with 0%nat by lia.
Qed.

Lemma py_last_suffix {A} n (l : list A) : py_last n l `suffix_of` l.
Proof.
  unfold py_last. case_match; [done|].
  case_match; [exists (take (length l - Z.to_nat n) l)|exists (take (Z.to_nat (- n)) l)];
    by rewrite take_drop.
Qed.

Section data_laws.
Context (other_str : pyval → pystr) (dumps : pyval → option pystr) (loads : pystr → option pyval).

(** A list that is written as JSON is read back as a list of as many items. *)
Definition json_keeps_length : Prop :=
  ∀ l s, dumps (VSeq KList l) = Some s → ∃ l', loads s = Some (VSeq KList l') ∧ length l' = length l.
(** Every node has a list of at most as many rows as the plugin keeps. *)
Definition rows_ok (p : plugin) (t : gmap (pystr * pystr) pystr) : Prop :=
  ∀ node, ∃ l, get_node_data other_str loads false p node t = VSeq KList l ∧
               (length l ≤ Z.to_nat (pl_max_rows p))%nat.

(** What the handlers of all plugins do to the table, with statements that may fail. *)
Inductive data_op :=
  | StoreNode (err_read err_write : bool) (q : plugin) (node data : pyval)
  | SetNode (err : bool) (q : plugin) (node data : pyval)
  | DeleteNode (err : bool) (q : plugin) (node : pyval).

Definition op_plugin (o : data_op) : plugin :=
  match o with StoreNode _ _ q _ _ | SetNode _ q _ _ | DeleteNode _ q _ => q end.

Definition run_op (t : gmap (pystr * pystr) pystr) (o : data_op) : gmap (pystr * pystr) pystr :=
  match o with
  | StoreNode er ew q node data => store_node_data other_str dumps loads er ew q node data t
  | SetNode er q node data => set_node_data other_str dumps er q node data t
  | DeleteNode er q node => delete_node_data other_str er q node t
  end.

Lemma written_ok p q node err payload t l :
  json_keeps_length → rows_ok p t → (pl_name q = pl_name p → q = p) →
  payload = dumps (VSeq KList l) → (length l ≤ Z.to_nat (pl_max_rows q))%nat →
  rows_ok p (store_plugin_data other_str err (pl_name q) node payload t).
Proof.
  intros Hj Hok Hname Hp Hl nid. unfold store_plugin_data.
  destruct payload as [s|]; [|apply Hok]. destruct err; [apply Hok|].
  unfold get_node_data, get_plugin_data_for_node.
  destruct (decide ((pl_name q, to_str other_str node) = (pl_name p, to_str other_str nid))) as [E|E].
  - rewrite E, lookup_insert_eq. injection E as E _. apply Hname in E as ->.
    destruct (Hj _ _ (eq_sym Hp)) as (l' & Hl' & Hlen). exists l'. cbn. by rewrite Hl', Hlen.
  - rewrite lookup_insert_ne by done. apply Hok.
Qed.

Lemma data_op_ok p t o :
  json_keeps_length → loads (u "[]") = Some (VSeq KList []) → 0 < pl_max_rows (op_plugin o) →
  (pl_name (op_plugin o) = pl_name p → op_plugin o = p) → rows_ok p t → rows_ok p (run_op t o).
Proof.
  intros Hj H0 Hrows Hname Hok. destruct o as [er ew q node data|er q node data|er q node];
    cbn [run_op op_plugin] in *.
  - eapply written_ok; [done..|]. by apply py_last_length.
  - eapply written_ok; [done..|]. by apply py_last_length.
  - unfold delete_node_data, delete_plugin_data. destruct er; [done|]. intros nid.
    unfold get_node_data, get_plugin_data_for_node.
    destruct (decide ((pl_name q, to_str other_str node) = (pl_name p, to_str other_str nid))) as [E|E].
    + rewrite E, lookup_delete_eq. cbn. rewrite H0. exists []. split; [done|simpl; lia].
    + rewrite lookup_delete_ne by done. apply Hok.
Qed.

(** Whatever the plugins write, replace and delete, and whichever of their statements
    fail, the data of a node is a list of at most the number of rows the plugin keeps - provided
    plugins have different names, keep at least one row, and JSON keeps the length of a
    list. *)
Theorem node_data_bounded (p : plugin) (ops : list data_op) (node : pyval) :
  json_keeps_length → loads (u "[]") = Some (VSeq KList []) →
  Forall (λ o, 0 < pl_max_rows (op_plugin o) ∧
               (pl_name (op_plugin o) = pl_name p → op_plugin o = p)) ops →
  ∃ l, get_node_data other_str loads false p node (foldl run_op ∅ ops) = VSeq KList l ∧
       (length l ≤ Z.to_nat (pl_max_rows p))%nat.
Proof.
  intros Hj H0 Hops.
  assert (Hstart : rows_ok p ∅).
  { intros nid. exists []. split; [|simpl; lia]. unfold get_node_data, get_plugin_data_for_node.
    rewrite lookup_empty. cbn. by rewrite H0. }
  cut (∀ t, rows_ok p t → rows_ok p (foldl run_op t ops)); [intros H; apply (H ∅ Hstart)|].
  induction Hops as [|o ops [Hr Hn] _ IH]; intros t Ht; [done|]. cbn [foldl].
  apply IH. by apply data_op_ok.
Qed.

(** What is read after a successful write. *)
Lemma store_appends p node old new t s :
  get_node_data other_str loads false p node t = VSeq KList old →
  dumps (VSeq KList (py_last (pl_max_rows p) (old ++ as_list new))) = Some s →
  loads s = Some (VSeq KList (py_last (pl_max_rows p) (old ++ as_list new))) →
  get_node_data other_str loads false p node (store_node_data other_str dumps loads false false p node new t)
  = VSeq KList (py_last (pl_max_rows p) (old ++ as_list new)).
Proof.
  intros Hold Hd Hl. unfold store_node_data, appended. rewrite Hold. cbn [as_list]. rewrite Hd.
  by apply plugin_data_roundtrip.
Qed.
End data_laws.

(** *** Commands *)

(** The setting of a section or of a plugin. *)
Definition mention_setting (d : option pydict) : option bool :=
  d ≫= λ d, truthy <$> dget d CONFIG_KEY_REQUIRE_BOT_MENTION.

(** For a core plugin the first of these counts: its own entry, the section of the core plugins,
    the default. *)
Lemma core_mention name tier rows config p :
  plugin_init name true tier rows (Some config) = Ok p →
  get_require_bot_mention p
  = default DEFAULT_REQUIRE_BOT_MENTION
      (match mention_setting (Some (pl_config p)) with
       | Some b => Some b
       | None => mention_setting (section config CONFIG_SECTION_PLUGINS)
       end).
Proof.
  unfold plugin_init. destruct (mapped_channels config) as [mapped|]; [|done]. cbn [res_bind].
  destruct (response_delay config) as [delay|]; [|done]. cbn [res_bind]. intros [= <-].
  unfold get_require_bot_mention. cbn [pl_config pl_global_mention pl_core mention_setting].
  set (cfg := plugin_config _ _ _). unfold mention_setting. cbn [mbind option_bind].
  destruct (dget cfg CONFIG_KEY_REQUIRE_BOT_MENTION); [done|]. cbn [fmap option_fmap option_map].
  unfold global_require_mention, expected_section.
  match goal with |- context [first_some _ ?l] => replace l with [CONFIG_SECTION_PLUGINS] end.
  2:{ by destruct (match plugin_entry _ _ _ with Some _ => true | None => false end). }
  cbn [first_some].
  destruct (section config CONFIG_SECTION_PLUGINS) as [d|]; [|done]. cbn [mbind option_bind].
  by destruct (dget d CONFIG_KEY_REQUIRE_BOT_MENTION).
Qed.

Section command_laws.
Context (unescape unquote casefold : pystr → pystr).
Context (ci_char : Z → Z → bool) (is_word : Z → bool).

(** A core plugin answers no Matrix message that does not address the bot - its user
    id or display name in front, set apart by a blank or colon - unless the configuration of the
    plugin or of the section of the core plugins turns that off. *)
Theorem core_plugin_needs_mention id display name tier rows config p commands event :
  plugin_init name true tier rows (Some config) = Ok p →
  mention_setting (Some (pl_config p)) ≠ Some false →
  mention_setting (section config CONFIG_SECTION_PLUGINS) ≠ Some false ∨
    mention_setting (Some (pl_config p)) = Some true →
  matches unescape unquote casefold ci_char is_word id display p commands event = true →
  ∃ mxid, _resolve_bot_mxid id = Some mxid ∧
  ∃ body, body ∈ _extract_candidate_bodies unescape unquote casefold ci_char is_word event (Some mxid) ∧
    (startswith body mxid = true ∧ separated (drop (length mxid) body) ∨
     ∃ shown, _resolve_bot_display_name display = Some shown ∧
       startswith (lower body) (lower shown) = true ∧ separated (drop (length shown) body)).
Proof.
  intros Hinit Hown Hglobal. apply core_mention in Hinit. unfold matches,
    get_matching_matrix_command_with_args. rewrite Hinit.
  assert (E : default DEFAULT_REQUIRE_BOT_MENTION
      (match mention_setting (Some (pl_config p)) with
       | Some b => Some b
       | None => mention_setting (section config CONFIG_SECTION_PLUGINS)
       end) = true).
  { destruct (mention_setting (Some (pl_config p))) as [[]|]; [done|done|].
    destruct Hglobal as [Hg|]; [|done].
    by destruct (mention_setting (section config CONFIG_SECTION_PLUGINS)) as [[]|]. }
  rewrite E. destruct (_parse_matrix_message_command _ _ _ _ _ _ _ _ _ _) eqn:Hparse; [|done].
  intros _. by eapply mention_required.
Qed.

Lemma mesh_alternatives_sound alts s m args :
  mesh_alternatives ci_char is_word alts s = Some (m, args) →
  ∃ c r, c ∈ alts ∧ ci_prefix ci_char c s = Some r ∧ m = take (length c) s ∧
         word_boundary is_word m r = true ∧ command_args r = Some args.
Proof.
  induction alts as [|c alts IH]; [done|]. cbn [mesh_alternatives].
  assert (Hrec : mesh_alternatives ci_char is_word alts s = Some (m, args) →
    ∃ c0 r, c0 ∈ c :: alts ∧ ci_prefix ci_char c0 s = Some r ∧ m = take (length c0) s ∧
         word_boundary is_word m r = true ∧ command_args r = Some args).
  { intros H. destruct (IH H) as (c' & r' & Hc & Hr). exists c', r'. split; [by right|done]. }
  destruct (ci_prefix ci_char c s) as [r|] eqn:Er; [|exact Hrec]. cbv zeta.
  destruct (word_boundary is_word (take (length c) s) r) eqn:Hw; [|exact Hrec].
  destruct (command_args r) as [a|] eqn:Ea; [|exact Hrec].
  intros [= <- <-]. exists c, r. split_and!; [by left|done..].
Qed.

(** A command stands at [s]: a bang, one of the names, case aside, and the end of a word. *)
Definition command_at (commands : list pyval) (s : pystr) (r : pystr * pystr) : Prop :=
  ∃ key m rest, s = 33 :: m ++ rest ∧ casefold m = casefold key ∧
    word_boundary is_word m rest = true ∧ command_args rest = Some r.2 ∧
    casefold r.1 = casefold key ∧ ∃ c, c ∈ commands ∧ command_spelling c = Some r.1.

Lemma bang_anywhere_sound alts allowed s r :
  bang_anywhere ci_char is_word alts allowed s = Some r →
  ∃ pre s', s = pre ++ s' ∧ bang_here ci_char is_word alts s' = Some r ∧
    (pre = [] ∧ allowed = true ∨ ∃ pre' c, pre = pre' ++ [c] ∧ is_space c = true).
Proof.
  revert allowed. induction s as [|d s IH]; intros allowed; cbn [bang_anywhere].
  - destruct allowed; [|done]. destruct (bang_here _ _ _ _) eqn:E; [|done]. intros [= <-].
    exists [], []. auto.
  - destruct (if allowed then _ else None) as [r'|] eqn:E.
    + intros [= <-]. destruct allowed; [|done]. exists [], (d :: s). auto.
    + intros H. destruct (IH _ H) as (pre & s' & -> & Hs & [[-> Hd]|(pre' & c & -> & Hc)]).
      * exists [d], s'. split_and!; [done..|]. right. exists [], d. auto.
      * exists (d :: pre' ++ [c]), s'. split_and!; [done..|]. right. exists (d :: pre'), c. auto.
Qed.

Lemma ci_prefix_rest c s r : ci_prefix ci_char c s = Some r → s = take (length c) s ++ r.
Proof.
  revert s. induction c as [|x c IH]; intros [|y s]; cbn; try (by intros [= <-]).
  destruct (ci_char x y); [|done]. intros H. f_equal. by apply IH.
Qed.

Lemma bang_here_command commands s r :
  folds casefold ci_char →
  bang_here ci_char is_word (_build_command_lookup casefold commands).*2 s = Some r →
  command_at commands s
    (default r.1 (find_command (_build_command_lookup casefold commands) (casefold r.1)), r.2).
Proof.
  intros Hf. pose proof (lookup_ok casefold commands) as Ht.
  set (t := _build_command_lookup casefold commands) in *. unfold bang_here.
  destruct s as [|h s]; [done|]. destruct h as [|h|h]; try done. do 6 (destruct h as [h|h|]; try done).
  destruct r as [m args]. intros H. apply mesh_alternatives_sound in H as (c & rest & Hc & Hr & -> & Hw & Ha).
  apply list_elem_of_fmap in Hc as ([k v] & -> & Hin). cbn [snd fst] in *.
  pose proof (Hf _ _ _ Hr) as Hfold. destruct (Ht _ _ Hin) as [-> _].
  destruct (find_command_some _ _ _ Hin) as [v' Hv']. rewrite Hfold, Hv'.
  apply find_command_in in Hv'. destruct (Ht _ _ Hv') as [Hk Hv].
  exists v, (take (length v) s), rest. cbn [fst snd default]. split_and!; try done.
  f_equal. by apply ci_prefix_rest.
Qed.

(** A command found in a mesh message stands in it: after blanks only (or, where it may
    stand anywhere, at the start or after a blank) there is a bang and, case aside, the name of
    one of the commands, which ends as a word and is followed by the arguments; the command
    is returned in its own spelling. *)
Theorem mesh_command_sound text commands anywhere r :
  folds casefold ci_char →
  parse_mesh_bang_command casefold ci_char is_word (VStr text) commands anywhere = Some r →
  ∃ pre s, text = pre ++ s ∧ command_at commands s r ∧
    (pre = [] ∨ (if anywhere then ∃ c, last pre = Some c ∧ is_space c = true
                 else forallb is_space pre = true)).
Proof.
  intros Hf. unfold parse_mesh_bang_command.
  destruct (_build_command_lookup casefold commands) as [|kv t'] eqn:Et; [done|].
  rewrite <- Et. clear Et kv t'. cbv zeta.
  destruct anywhere.
  - destruct (bang_anywhere _ _ _ _ _) as [r'|] eqn:E; [|done]. intros [= <-].
    apply bang_anywhere_sound in E as (pre & s & -> & Hs & Hpre). exists pre, s. split; [done|].
    split; [by apply bang_here_command|].
    destruct Hpre as [[-> _]|(pre' & c & -> & Hc)]; [by left|]. right. exists c.
    by rewrite last_snoc.
  - destruct (bang_here _ _ _ _) as [r'|] eqn:E; [|done]. intros [= <-].
    exists (take (length text - length (lstrip text)) text), (lstrip text).
    assert (Hl : ∃ pre, text = pre ++ lstrip text ∧ forallb is_space pre = true).
    { clear. unfold lstrip. induction text as [|c text IH]; [by exists []|]. cbn [drop_while].
      destruct (is_space c) eqn:Hc; [|by exists []]. destruct IH as (pre & Hpre & Hall).
      exists (c :: pre). split; [cbn; by rewrite <- Hpre|]. cbn. by rewrite Hc. }
    destruct Hl as (pre & Hpre & Hall).
    assert (Hn : (length text - length (lstrip text))%nat = length pre).
    { rewrite Hpre at 1. rewrite length_app. lia. }
    rewrite Hn. assert (Htake : take (length pre) text = pre).
    { rewrite Hpre at 1. apply take_app_length. }
    rewrite Htake. split; [done|]. split; [by apply bang_here_command|by right].
Qed.
End command_laws.

(** ** Examples and witnesses *)

(** The listed channels, unless the message is a direct one. *)
Definition demo_config : pydict :=
  [(u "plugins", VDict [(u "ping", VDict [(u "active", VBool true)])]);
   (u "matrix_rooms", VSeq KList [VDict [(u "id", VStr (u "!a:b")); (u "meshtastic_channel", VInt 2)]])].
Definition demo_ping : plugin :=
  {| pl_name := u "ping"; pl_core := true; pl_type := Some (u "core");
     pl_config := [(u "active", VBool true)]; pl_channels := [VInt 2];
     pl_global_mention := None; pl_delay := VFloat (FFin DEFAULT_MESSAGE_DELAY);
     pl_max_rows := DEFAULT_MAX_DATA_ROWS_PER_NODE_BASE |}.

Example demo_init :
  plugin_init (u "ping") true None DEFAULT_MAX_DATA_ROWS_PER_NODE_BASE (Some demo_config) = Ok demo_ping ∧
  is_channel_enabled demo_ping (VInt 2) false = true ∧
  is_channel_enabled demo_ping (VInt 0) false = false ∧
  is_channel_enabled demo_ping (VInt 0) true = true.
Proof. vm_compute. done. Qed.

Definition demo_mesh (text : pystr) (anywhere : bool) :=
  parse_mesh_bang_command ascii_fold ascii_ci ascii_word (VStr text) [VStr (u "!Drop"); VStr (u "what?")] anywhere.

(** A command that ends in a character that is not part of a word is never found on the mesh. *)
Example demo_mesh_commands :
  demo_mesh (u "  !DROP it") false = Some (u "Drop", u "it") ∧
  demo_mesh (u "say !drop it ") true = Some (u "Drop", u "it") ∧
  demo_mesh (u "say !drop it ") false = None ∧
  demo_mesh (u "say!drop it ") true = None ∧
  demo_mesh (u "!dropped it") false = None ∧
  demo_mesh (u "!what?") false = None.
Proof. vm_compute. done. Qed.

(** A code of lists that keeps their length. *)
Definition demo_dumps (v : pyval) : option pystr :=
  match v with
  | VSeq KList [] => Some (u "[]")
  | VSeq KList l => Some (91 :: replicate (length l) 44)
  | _ => None
  end.
Definition demo_loads (s : pystr) : option pyval :=
  if str_eqb s (u "[]") then Some (VSeq KList [])
  else match s with 91 :: s => Some (VSeq KList (replicate (length s) VNone)) | _ => None end.

Lemma demo_json : json_keeps_length demo_dumps demo_loads.
Proof.
  intros [|v l] s; cbn; intros [= <-]; [by exists []|].
  eexists. split; [reflexivity|]. cbn. f_equal. by rewrite !length_replicate.
Qed.

Lemma node_data_bounded_witness :
  let p := demo_ping in
  ∃ l, get_node_data (λ _, []) demo_loads false p (VStr (u "!1"))
         (foldl (run_op (λ _, []) demo_dumps demo_loads) ∅
            [StoreNode false false p (VStr (u "!1")) (VInt 1); SetNode true p (VStr (u "!1")) (VInt 2)])
       = VSeq KList l ∧ (length l ≤ Z.to_nat (pl_max_rows p))%nat.
Proof.
  intros p. apply (node_data_bounded (λ _, []) demo_dumps demo_loads p).
  - exact demo_json.
  - reflexivity.
  - repeat constructor.
Defined.

Lemma core_plugin_needs_mention_witness :
  ∃ mxid, _resolve_bot_mxid (Some (u "@bot:server")) = Some mxid ∧
  ∃ body, body ∈ _extract_candidate_bodies id id ascii_fold ascii_ci ascii_word
                   (TextMessage (u "@bot:server: !ping")) (Some mxid) ∧
    (startswith body mxid = true ∧ separated (drop (length mxid) body) ∨
     ∃ shown, _resolve_bot_display_name None = Some shown ∧
       startswith (lower body) (lower shown) = true ∧ separated (drop (length shown) body)).
Proof.
  apply (core_plugin_needs_mention id id ascii_fold ascii_ci ascii_word (Some (u "@bot:server")) None
    (u "ping") None DEFAULT_MAX_DATA_ROWS_PER_NODE_BASE demo_config demo_ping
    (get_matrix_commands demo_ping) (TextMessage (u "@bot:server: !ping"))).
  - vm_compute. reflexivity.
  - discriminate.
  - left. discriminate.
  - vm_compute. reflexivity.
Defined.

Lemma mesh_command_sound_witness :
  ∃ pre s, u "say !drop it" = pre ++ s ∧
    command_at ascii_fold ascii_word [VStr (u "!Drop")] s (u "Drop", u "it") ∧
    (pre = [] ∨ (∃ c, last pre = Some c ∧ is_space c = true)).
Proof.
  apply (mesh_command_sound ascii_fold ascii_ci ascii_word (u "say !drop it") [VStr (u "!Drop")] true
    (u "Drop", u "it")).
  - exact ascii_folds.
  - vm_compute. reflexivity.
Defined.
