(* ===== verification/MeshRelay.v ===== *)
(** * Packets carried over Matrix

    Models [src/mmrelay/plugins/mesh_relay_plugin.py], which puts whole packets of the mesh
    into Matrix events and takes them out again at another relay: normalising and encoding a
    packet, recognising an event that carries one, and rebuilding the packet for the radio.

    Base64 is written out as [base64.b64encode] and [base64.b64decode] define it.  Parameters of
    the model: [dumps] and [loads], the JSON functions ([loads] gives None where [json.loads] raises
    JSONDecodeError or TypeError); [accepts], whether the protobuf message takes a channel and a port
    number; [has_send_packet], whether the client still has [_sendPacket]. *)

From Stdlib Require Import String.
From stdpp Require Import base tactics list numbers.
From S2P Require Import Prelude PyStr PyValue MatrixInbound BasePlugin.
Open Scope Z_scope.

(** ** Base64 *)

Definition b64_char (v : Z) : Z :=
  if v <? 26 then 65 + v else if v <? 52 then 71 + v else if v <? 62 then v - 4
  else if v =? 62 then 43 else 47.

Definition b64_value (c : Z) : option Z :=
  if between 65 90 c then Some (c - 65) else if between 97 122 c then Some (c - 71)
  else if between 48 57 c then Some (c + 4)
  else if c =? 43 then Some 62 else if c =? 47 then Some 63 else None.

(** [base64.b64encode(b).decode()] *)
Fixpoint b64encode (b : list Z) : pystr :=
  match b with
  | [] => []
  | [x] => [b64_char (x / 4); b64_char (x mod 4 * 16); 61; 61]
  | [x; y] => [b64_char (x / 4); b64_char (x mod 4 * 16 + y / 16); b64_char (y mod 16 * 4); 61]
  | x :: y :: z :: b =>
      b64_char (x / 4) :: b64_char (x mod 4 * 16 + y / 16) ::
      b64_char (y mod 16 * 4 + z / 64) :: b64_char (z mod 64) :: b64encode b
  end.

(** The decoder's loop: [quad] the place in the group of four, [left] the bits left over of the
    last character, [pads] the padding seen since.  Characters out of the alphabet are
    skipped; enough padding ends the input. *)
Fixpoint b64_loop (quad left pads : Z) (s : pystr) : option (list Z) :=
  match s with
  | [] => if quad =? 0 then Some [] else None
  | c :: s =>
      if c =? 61 then
        if (2 <=? quad) && (4 <=? quad + (pads + 1)) then Some []
        else b64_loop quad left (if 2 <=? quad then pads + 1 else pads) s
      else
        match b64_value c with
        | None => b64_loop quad left pads s
        | Some v =>
            if quad =? 0 then b64_loop 1 v 0 s
            else if quad =? 1 then cons (left * 4 + v / 16) <$> b64_loop 2 (v mod 16) 0 s
            else if quad =? 2 then cons (left * 16 + v / 4) <$> b64_loop 3 (v mod 4) 0 s
            else cons (left * 64 + v) <$> b64_loop 0 0 0 s
        end
  end.

(** [base64.b64decode(s)]; it raises for text that is not ASCII and for wrong padding. *)
Definition b64decode (s : pystr) : option (list Z) :=
  if forallb (between 0 127) s then b64_loop 0 0 0 s else None.

(** ** The plugin *)

Definition DEFAULT_MAX_DATA_ROWS_PER_NODE_MESH_RELAY : Z := 50.
Definition MATRIX_PACKET_KEY : pystr := u "meshtastic_packet".
Definition MESH_PACKET_DEFAULT_ID : Z := 0.

(** [k in v] and [v[k]] *)
Definition py_contains (v : pyval) (k : pystr) : res bool :=
  match v with
  | VDict d => Ok (dmem d k)
  | VStr s => Ok (contains s k)
  | VSeq _ l => Ok (py_in (VStr k) l)
  | _ => Raise TypeError
  end.
Definition py_getitem (v : pyval) (k : pystr) : res pyval :=
  match v with
  | VDict d => match dget d k with Some w => Ok w | None => Raise KeyError end
  | _ => Raise TypeError
  end.
(** [v.get] of something that may not be a dictionary. *)
Definition as_dict (v : pyval) : res pydict :=
  match v with VDict d => Ok d | _ => Raise AttributeError end.

(** [^Processed (.+) radio packet$] *)
Definition PROCESSED_PACKET_REGEX (body : pystr) : option pystr :=
  let tail := u " radio packet" in
  if startswith body (u "Processed ") then
    let rest := drop 10 body in
    let rest := if startswith (reverse rest) [10] then reverse (drop 1 (reverse rest)) else rest in
    if startswith (reverse rest) (reverse tail) then
      let g := take (length rest - length tail) rest in
      if nonempty g && negb (bool_decide (10 ∈ g)) then Some g else None
    else None
  else None.

Record mesh_packet := {
  mp_channel : pyval; mp_payload : list Z; mp_portnum : pyval; mp_want_response : bool;
  mp_id : Z; mp_destination : pyval }.

Section plugin.
Context (dumps : pyval → res pystr) (loads : pyval → option pyval).
Context (to_str : pyval → pystr) (accepts : pyval → pyval → bool).

Definition normalize (dict_obj : pyval) : pyval :=
  strip_raw (match dict_obj with
             | VDict _ => dict_obj
             | _ => default (VDict [(u "decoded", VDict [(u "text", dict_obj)])]) (loads dict_obj)
             end).

Definition process (packet : pyval) : res pyval :=
  let result := normalize packet in
  let! has_decoded := py_contains result (u "decoded") in
  if has_decoded then
    let! decoded := py_getitem result (u "decoded") in
    let! has_payload := py_contains decoded (u "payload") in
    if has_payload then
      let! payload := py_getitem decoded (u "payload") in
      Ok (match payload, result, decoded with
          | VBytes b, VDict r, VDict d =>
              VDict (dset r (u "decoded") (VDict (dset d (u "payload") (VStr (b64encode b)))))
          | _, _, _ => result
          end)
    else Ok result
  else Ok result.

(** [config]: the configuration of the relay. *)
Definition _iter_room_configs (config : option pydict) : list pydict :=
  match config with
  | None => []
  | Some config =>
      match dget_or config (u "matrix_rooms") (VSeq KList []) with
      | VDict d => omap (λ r, match r with VDict d => Some d | _ => None end) d.*2
      | VSeq KList l => omap (λ r, match r with VDict d => Some d | _ => None end) l
      | _ => []
      end
  end.

(** The event that is sent, to its room; [None]: the packet is not relayed. *)
Definition handle_meshtastic_message (matrix : bool) (config : option pydict) (packet : pyval)
    : res (option (pyval * pydict)) :=
  if negb matrix then Ok None else
  let! packet := process packet in
  let! p := as_dict packet in
  let! decoded := as_dict (dget_or p (u "decoded") (VDict [])) in
  match dget_none decoded (u "portnum") with
  | VNone => Ok None
  | packet_type =>
      let channel := dget_or p (u "channel") (VInt 0) in
      match List.find (λ r, py_eqb (dget_none r (u "meshtastic_channel")) channel)
              (_iter_room_configs config) with
      | None => Ok None
      | Some room =>
          let target_room_id := dget_none room (u "id") in
          if negb (truthy target_room_id) then Ok None else
          let! text := dumps packet in
          Ok (Some (target_room_id,
            [(u "msgtype", VStr (u "m.text")); (MATRIX_SUPPRESS_KEY, VBool true);
             (MATRIX_PACKET_KEY, VStr text);
             (u "body", VStr (u "Processed " ++ to_str packet_type ++ u " radio packet"))]))
      end
  end.

(** The answer, and the content of the event after the call: [matches] completes it in place. *)
Definition relay_matches (content : pydict) : res (bool * pydict) :=
  let! content :=
    match dget_none content MATRIX_PACKET_KEY with
    | VDict _ as packet => let! s := dumps packet in Ok (dset content MATRIX_PACKET_KEY (VStr s))
    | _ => Ok content
    end in
  let has_packet c := truthy (dget_none c MATRIX_PACKET_KEY) in
  let marked := match dget_none content MATRIX_SUPPRESS_KEY with VBool true => true | _ => false end in
  if marked && has_packet content then Ok (true, content) else
  match dget_or content (u "body") (VStr []) with
  | VStr body =>
      match PROCESSED_PACKET_REGEX body with
      | None => Ok (false, content)
      | Some group =>
          let! content :=
            if has_packet content then Ok content else
            let legacy_packet :=
              let first := dget_none content (u "packet") in
              if truthy first then first else dget_none content (u "meshtastic_packet") in
            let legacy_body_payload := strip group in
            let from_body :=
              if startswith legacy_body_payload (u "{") && startswith (reverse legacy_body_payload) (u "}")
              then dset content MATRIX_PACKET_KEY (VStr legacy_body_payload) else content in
            match legacy_packet with
            | VDict _ => let! s := dumps legacy_packet in Ok (dset content MATRIX_PACKET_KEY (VStr s))
            | VStr s => Ok (if nonempty (strip s) then dset content MATRIX_PACKET_KEY legacy_packet
                            else from_body)
            | _ => Ok from_body
            end in
          Ok (has_packet content, content)
      end
  | _ => Ok (false, content)
  end.

(** The packet given to the radio; [None]: nothing is sent. *)
Definition handle_room_message (config : option pydict) (client has_send_packet : bool)
    (room_id : pystr) (content : pydict) : res (option mesh_packet) :=
  let! answer := relay_matches content in
  let (matched, content) := answer in
  if negb matched then Ok None else
  let room := List.find (λ r, py_eqb (dget_none r (u "id")) (VStr room_id)) (_iter_room_configs config) in
  match default VNone ((λ r, dget_none r (u "meshtastic_channel")) <$> room) with
  | VNone => Ok None
  | channel =>
      let packet_json := dget_none content MATRIX_PACKET_KEY in
      if negb (truthy packet_json) then Ok None else
      match loads packet_json with
      | Some (VDict packet) =>
          if negb client then Ok None else
          match dget_or packet (u "decoded") (VDict []) with
          | VDict decoded =>
              let payload_b64 := dget_none decoded (u "payload") in
              let portnum := dget_none decoded (u "portnum") in
              let to_id := dget_none packet (u "toId") in
              if negb (truthy payload_b64) || is_none portnum || is_none to_id then Ok None else
              match payload_b64 with
              | VStr s =>
                  match b64decode s with
                  | Some payload =>
                      if accepts channel portnum && has_send_packet then
                        Ok (Some {| mp_channel := channel; mp_payload := payload; mp_portnum := portnum;
                                    mp_want_response := false; mp_id := MESH_PACKET_DEFAULT_ID;
                                    mp_destination := to_id |})
                      else Ok None
                  | None => Ok None
                  end
              | _ => Ok None
              end
          | _ => Ok None
          end
      | _ => Ok None
      end
  end.
End plugin.


(** ** Base64 round trip *)

Definition is_byte (b : Z) : Prop := 0 ≤ b < 256.

Lemma b64_char_value v : 0 ≤ v < 64 →
  b64_value (b64_char v) = Some v ∧ (b64_char v =? 61) = false ∧ between 0 127 (b64_char v) = true.
Proof.
  intros Hv.
  assert (H : forallb (λ v, bool_decide (b64_value (b64_char v) = Some v) &&
    negb (b64_char v =? 61) && between 0 127 (b64_char v)) (seqZ 0 64) = true) by (by vm_compute).
  rewrite forallb_forall in H. specialize (H v).
  rewrite !andb_true_iff, bool_decide_eq_true, negb_true_iff in H.
  destruct H as [[H1 H2] H3]; [|done]. apply list_elem_of_In, elem_of_seqZ. lia.
Qed.

(** One character of the alphabet in the loop. *)
Lemma b64_loop_char quad left pads v s : 0 ≤ v < 64 →
  b64_loop quad left pads (b64_char v :: s)
  = if quad =? 0 then b64_loop 1 v 0 s
    else if quad =? 1 then cons (left * 4 + v / 16) <$> b64_loop 2 (v mod 16) 0 s
    else if quad =? 2 then cons (left * 16 + v / 4) <$> b64_loop 3 (v mod 4) 0 s
    else cons (left * 64 + v) <$> b64_loop 0 0 0 s.
Proof. intros Hv. cbn [b64_loop]. by destruct (b64_char_value v Hv) as (-> & -> & _). Qed.

#[local] Arguments b64_loop : simpl never.
#[local] Arguments b64_char : simpl never.

Lemma b64_loop_pad quad left pads s :
  b64_loop quad left pads (61 :: s)
  = if (2 <=? quad) && (4 <=? quad + (pads + 1)) then Some []
    else b64_loop quad left (if 2 <=? quad then pads + 1 else pads) s.
Proof. done. Qed.
Lemma b64_loop_nil quad left pads : b64_loop quad left pads [] = if quad =? 0 then Some [] else None.
Proof. done. Qed.

Ltac b64_step := rewrite b64_loop_char by (Z.to_euclidean_division_equations; lia); cbn [Z.eqb Pos.eqb].

(** The pieces of three bytes, put together again. *)
Lemma b64_first x y : 0 ≤ x < 256 → 0 ≤ y < 256 → x / 4 * 4 + (x mod 4 * 16 + y / 16) / 16 = x.
Proof. intros. Z.to_euclidean_division_equations; lia. Qed.
Lemma b64_second a y z : 0 ≤ y < 256 → 0 ≤ z < 256 →
  (a * 16 + y / 16) mod 16 * 16 + (y mod 16 * 4 + z / 64) / 4 = y.
Proof.
  intros. rewrite (Z.add_comm (a * 16)), Z.mod_add by lia. rewrite (Z.mod_small (y / 16)) by (Z.to_euclidean_division_equations; lia).
  Z.to_euclidean_division_equations; lia.
Qed.
Lemma b64_third a z : 0 ≤ z < 256 → (a * 4 + z / 64) mod 4 * 64 + z mod 64 = z.
Proof.
  intros. rewrite (Z.add_comm (a * 4)), Z.mod_add by lia. rewrite (Z.mod_small (z / 64)) by (Z.to_euclidean_division_equations; lia).
  Z.to_euclidean_division_equations; lia.
Qed.

Lemma b64_loop_encode b : Forall is_byte b → b64_loop 0 0 0 (b64encode b) = Some b.
Proof.
  unfold is_byte. induction b as [b IH] using (well_founded_induction (well_founded_ltof _ length)). intros Hb.
  destruct b as [|x [|y [|z b]]]; [done| | |];
    decompose_Forall_hyps; cbn [b64encode]; repeat b64_step; rewrite ?b64_loop_pad, ?b64_loop_nil.
  - cbn.
    pose proof (b64_first x 0) as H1. change (0 / 16) with 0 in H1. rewrite Z.add_0_r in H1.
    by rewrite H1.
  - cbn. rewrite b64_first by done.
    pose proof (b64_second (x mod 4) y 0) as H2. change (0 / 64) with 0 in H2. rewrite Z.add_0_r in H2.
    by rewrite H2.
  - rewrite IH by (done || (unfold ltof; simpl; lia)). cbn.
    by rewrite b64_first, b64_second, b64_third.
Qed.

Lemma b64encode_ascii b : Forall is_byte b → forallb (between 0 127) (b64encode b) = true.
Proof.
  assert (Hc : ∀ v, 0 ≤ v < 64 → between 0 127 (b64_char v) = true) by (intros; by apply b64_char_value).
  unfold is_byte. induction b as [b IH] using (well_founded_induction (well_founded_ltof _ length)). intros Hb.
  destruct b as [|x [|y [|z b]]]; [done| | |];
    decompose_Forall_hyps; cbn [b64encode forallb];
    repeat (rewrite Hc by (Z.to_euclidean_division_equations; lia)); [done..|].
  apply IH; [unfold ltof; simpl; lia|done].
Qed.

Lemma b64_roundtrip b : Forall is_byte b → b64decode (b64encode b) = Some b.
Proof. intros Hb. unfold b64decode. by rewrite b64encode_ascii, b64_loop_encode. Qed.

Lemma b64encode_nonempty b : b ≠ [] → nonempty (b64encode b) = true.
Proof. by destruct b as [|? [|? [|? ?]]]. Qed.


(** ** From one relay to the other *)

Lemma is_none_strip v : is_none (strip_raw v) = is_none v.
Proof. by destruct v as [| | | | | |[] l| |]. Qed.

Section relay.
Context (dumps : pyval → res pystr) (loads : pyval → option pyval).
Context (to_str : pyval → pystr) (accepts : pyval → pyval → bool).

(** What becomes of a packet with a binary payload. *)
Lemma process_payload r d b :
  dget r (u "decoded") = Some (VDict d) → dget d (u "payload") = Some (VBytes b) →
  process loads (VDict r)
  = Ok (VDict (dset (strip_dict r) (u "decoded")
          (VDict (dset (strip_dict d) (u "payload") (VStr (b64encode b)))))).
Proof.
  intros Hd Hb. unfold process, normalize. cbv zeta. rewrite strip_raw_dict.
  assert (E1 : dget (strip_dict r) (u "decoded") = Some (VDict (strip_dict d))).
  { rewrite dget_strip, Hd. change (str_eqb (u "decoded") (u "raw")) with false. cbn [fmap option_fmap option_map].
    by rewrite strip_raw_dict. }
  assert (E2 : dget (strip_dict d) (u "payload") = Some (VBytes b)).
  { rewrite dget_strip, Hb. done. }
  unfold py_contains, py_getitem, dmem. cbn [res_bind]. rewrite E1. cbn [res_bind]. rewrite E2. done.
Qed.

(** The event of a packet is recognised, and nothing is added to it. *)
Lemma relayed_event_matches text packet_type :
  nonempty text = true →
  let content := [(u "msgtype", VStr (u "m.text")); (MATRIX_SUPPRESS_KEY, VBool true);
                  (MATRIX_PACKET_KEY, VStr text);
                  (u "body", VStr (u "Processed " ++ to_str packet_type ++ u " radio packet"))] in
  relay_matches dumps content = Ok (true, content).
Proof.
  intros Hne content. unfold relay_matches.
  assert (E : dget_none content MATRIX_PACKET_KEY = VStr text) by done.
  rewrite E. cbn [res_bind]. rewrite E. cbn [truthy]. by rewrite Hne.
Qed.

(** C34: a packet relayed to a Matrix room comes out unchanged at a relay that maps the room
    to a channel: same payload, byte for byte, same port number and same addressee, on that relay's
    channel.  This is for a packet with a payload that is not empty and with an addressee ([toId] is
    there; without it the receiver drops the packet, [packet_without_addressee_is_dropped]), for a channel
    and a port number that the protocol's message takes, when JSON reads back what it wrote, and while the
    receiving relay has a client that can send packets. *)
Theorem packet_over_matrix config r d b room content config' room_id channel :
  handle_meshtastic_message dumps loads to_str true config (VDict r) = Ok (Some (room, content)) →
  dget r (u "decoded") = Some (VDict d) → dget d (u "payload") = Some (VBytes b) →
  Forall is_byte b → b ≠ [] → dget_none r (u "toId") ≠ VNone →
  (∀ v s, process loads (VDict r) = Ok v → dumps v = Ok s → nonempty s = true ∧ loads (VStr s) = Some v) →
  (λ c, dget_none c (u "meshtastic_channel")) <$>
    List.find (λ c, py_eqb (dget_none c (u "id")) (VStr room_id)) (_iter_room_configs config')
  = Some channel →
  channel ≠ VNone →
  accepts channel (strip_raw (dget_none d (u "portnum"))) = true →
  handle_room_message dumps loads accepts config' true true room_id content
  = Ok (Some {| mp_channel := channel; mp_payload := b;
                mp_portnum := strip_raw (dget_none d (u "portnum")); mp_want_response := false;
                mp_id := MESH_PACKET_DEFAULT_ID;
                mp_destination := strip_raw (dget_none r (u "toId")) |}).
Proof.
  intros Hsend Hd Hb Hbytes Hne Hto Hjson Hroom Hch Hacc.
  unfold handle_meshtastic_message in Hsend. cbn [negb] in Hsend.
  rewrite (process_payload r d b Hd Hb) in Hsend, Hjson.
  set (d' := dset (strip_dict d) (u "payload") (VStr (b64encode b))) in *.
  set (r' := dset (strip_dict r) (u "decoded") (VDict d')) in *.
  cbn [res_bind as_dict] in Hsend.
  assert (Ed : dget_or r' (u "decoded") (VDict []) = VDict d').
  { unfold dget_or, r'. by rewrite dget_dset_eq. }
  assert (Hstrip : ∀ e k k' w, k ≠ k' → str_eqb k' (u "raw") = false →
            dget_none (dset (strip_dict e) k w) k' = strip_raw (dget_none e k')).
  { intros e k k' w Hk Hraw. unfold dget_none, dget_or. rewrite dget_dset_ne, dget_strip, Hraw by done.
    by destruct (dget e k'). }
  assert (Ep : dget_none d' (u "portnum") = strip_raw (dget_none d (u "portnum"))) by (by apply Hstrip).
  assert (Et : dget_none r' (u "toId") = strip_raw (dget_none r (u "toId"))) by (by apply Hstrip).
  rewrite Ed in Hsend. cbn [res_bind as_dict] in Hsend. rewrite Ep in Hsend.
  destruct (is_none (strip_raw (dget_none d (u "portnum")))) eqn:Hport.
  { by destruct (strip_raw (dget_none d (u "portnum"))). }
  assert (Hcontent : ∃ text, dumps (VDict r') = Ok text ∧ content =
    [(u "msgtype", VStr (u "m.text")); (MATRIX_SUPPRESS_KEY, VBool true); (MATRIX_PACKET_KEY, VStr text);
     (u "body", VStr (u "Processed " ++ to_str (strip_raw (dget_none d (u "portnum"))) ++ u " radio packet"))]).
  { destruct (strip_raw (dget_none d (u "portnum"))); try done; cbv zeta in Hsend;
      (destruct (List.find _ _); [|done]); (destruct (negb _); [done|]);
      (destruct (dumps (VDict r')) as [text|]; [|done]); injection Hsend as _ <-; by exists text. }
  destruct Hcontent as (text & Htext & Hcontent). destruct (Hjson _ _ eq_refl Htext) as [Htne Hloads].
  assert (Epl : dget_none d' (u "payload") = VStr (b64encode b)).
  { unfold dget_none, dget_or, d'. by rewrite dget_dset_eq. }
  assert (Hto' : is_none (dget_none r (u "toId")) = false) by (by destruct (dget_none r (u "toId"))).
  unfold handle_room_message. rewrite Hcontent, relayed_event_matches by done. cbn [res_bind negb].
  cbv zeta. rewrite Hroom. cbn [default].
  set (c := [_; _; _; _]).
  assert (Ec : dget_none c MATRIX_PACKET_KEY = VStr text) by done.
  rewrite Ec. cbn [truthy]. rewrite Htne. cbn [negb]. rewrite Hloads, Ed, Ep, Et, Epl.
  rewrite Hport, is_none_strip, Hto'. cbn [truthy]. rewrite b64encode_nonempty by done.
  rewrite b64_roundtrip by done. cbn [negb orb]. unfold id. destruct channel; [done|by rewrite Hacc..].
Qed.
End relay.

(** A packet of a node that is not known by an id has no addressee: it is relayed to the room, and
    the relay that receives it drops it. *)
Lemma packet_without_addressee_is_dropped dumps loads accepts config client has room_id content processed :
  (∀ v, loads v = Some (VDict processed)) → dget_none processed (u "toId") = VNone →
  ∀ p, handle_room_message dumps loads accepts config client has room_id content ≠ Ok (Some p).
Proof.
  intros Hl Hto p. unfold handle_room_message. destruct (relay_matches dumps content) as [[[] c]|]; [|done..].
  cbn [res_bind negb]. cbv zeta.
  assert (∀ a b : bool, a || b || is_none (dget_none processed (u "toId")) = true) as Hdrop.
  { intros a b. rewrite Hto. by rewrite orb_true_r. }
  destruct (default VNone _); [done|..]; (destruct (negb (truthy _)); [done|]); rewrite Hl;
    (destruct (negb client); [done|]); (destruct (dget_or processed _ _); try done); by rewrite Hdrop.
Qed.

(** Nothing goes to the radio from a room that is not mapped, or for an event that carries no packet. *)
Lemma room_message_gate_relay dumps loads accepts config client has room_id content p :
  handle_room_message dumps loads accepts config client has room_id content = Ok (Some p) →
  (∃ c, relay_matches dumps content = Ok (true, c)) ∧
  ∃ room, room ∈ _iter_room_configs config ∧ py_eqb (dget_none room (u "id")) (VStr room_id) = true ∧
    dget_none room (u "meshtastic_channel") ≠ VNone.
Proof.
  unfold handle_room_message. destruct (relay_matches dumps content) as [[[] c]|]; [|done..].
  cbn [res_bind negb]. cbv zeta. destruct (List.find _ _) as [room|] eqn:E; [|done].
  apply find_some in E as [Hin Hid]. intros H. split; [by eexists|]. exists room.
  split; [by apply list_elem_of_In|]. split; [done|]. cbn in H. intros E. by rewrite E in H.
Qed.

(** ** Examples and witnesses *)

Example base64_texts :
  b64encode [77; 97; 110; 255] = u "TWFu/w==" ∧ b64decode (u "TWFu/w==") = Some [77; 97; 110; 255] ∧
  b64decode (u "TW Fu") = Some [77; 97; 110] ∧ b64decode (u "TWF") = None.
Proof. vm_compute. done. Qed.

(** JSON for one packet. *)
Definition demo_processed : pyval :=
  VDict [(u "decoded", VDict [(u "portnum", VStr (u "PRIVATE_APP")); (u "payload", VStr (u "AQI="))]);
         (u "toId", VStr (u "!2"))].
Definition demo_packet : pydict :=
  [(u "raw", VObj (u "MeshPacket"));
   (u "decoded", VDict [(u "portnum", VStr (u "PRIVATE_APP")); (u "payload", VBytes [1; 2])]);
   (u "toId", VStr (u "!2"))].
Definition demo_rooms (channel : Z) : option pydict :=
  Some [(u "matrix_rooms", VSeq KList
          [VDict [(u "id", VStr (u "!r:s")); (u "meshtastic_channel", VInt channel)]])].

Lemma packet_over_matrix_witness :
  let content := [(u "msgtype", VStr (u "m.text")); (MATRIX_SUPPRESS_KEY, VBool true);
                  (MATRIX_PACKET_KEY, VStr (u "{}"));
                  (u "body", VStr (u "Processed PRIVATE_APP radio packet"))] in
  handle_room_message (λ _, Ok (u "{}")) (λ _, Some demo_processed) (λ _ _, true) (demo_rooms 3)
    true true (u "!r:s") content
  = Ok (Some {| mp_channel := VInt 3; mp_payload := [1; 2]; mp_portnum := VStr (u "PRIVATE_APP");
                mp_want_response := false; mp_id := MESH_PACKET_DEFAULT_ID;
                mp_destination := VStr (u "!2") |}).
Proof.
  intros content.
  apply (packet_over_matrix (λ _, Ok (u "{}")) (λ _, Some demo_processed)
    (λ v, match v with VStr s => s | _ => [] end) (λ _ _, true) (demo_rooms 0) demo_packet
    [(u "portnum", VStr (u "PRIVATE_APP")); (u "payload", VBytes [1; 2])] [1; 2] (VStr (u "!r:s"))
    content (demo_rooms 3) (u "!r:s") (VInt 3)).
  - vm_compute. reflexivity.
  - reflexivity.
  - reflexivity.
  - repeat constructor; done.
  - done.
  - done.
  - intros v s Hv Hs. vm_compute in Hv. injection Hv as <-. injection Hs as <-. split; reflexivity.
  - vm_compute. reflexivity.
  - done.
  - reflexivity.
Defined.
