(* ===== verification/PingDrop.v ===== *)
(** * The ping and drop plugins

    Models [src/mmrelay/plugins/ping_plugin.py] and [src/mmrelay/plugins/drop_plugin.py]: the
    answer to a ping on the mesh and in a Matrix room, and the messages left at a place for
    the nodes that come by.

    Parameters of the model: [ci_char], the comparison of characters under [re.IGNORECASE];
    [is_word] and [casefold] as in the command parsers; [other_str], the text of values that are not
    strings or numbers; [haversine], the distance in kilometres of a position from a stored location
    (None where the call raises ValueError or TypeError); [BROADCAST_NUM] of the
    Meshtastic package; [dumps] and [loads], the JSON functions. *)

From Stdlib Require Import String QArith.
From stdpp Require Import base tactics list numbers gmap sets.
From S2P Require Import Prelude PyStr PyValue PacketRouting Prefixes DbConfig Commands BasePlugin MeshRelay.
Open Scope Z_scope.

(** ** Ping *)

Definition MAX_PUNCTUATION_LENGTH : nat := 5.
Definition PING_FALLBACK_RESPONSE : pystr := u "Pong...".
Definition PING_RESPONSE : pystr := u "pong!".
Definition DEFAULT_CHANNEL : Z := 0.

(** The letters [match_case] meets: those of ASCII, and the dotted capital and the dotless small
    I, which the expression accepts for an I. *)
Definition is_upper (c : Z) : bool := between 65 90 c || (c =? 304).
Definition is_lower (c : Z) : bool := between 97 122 c || (c =? 305).
Definition to_upper (c : Z) : Z := if between 97 122 c then c - 32 else c.
Definition to_lower (c : Z) : Z := if between 65 90 c then c + 32 else c.

(** [str.isupper], [str.islower], [str.istitle], [str.capitalize] *)
Definition isupper (s : pystr) : bool := existsb is_upper s && negb (existsb is_lower s).
Definition islower (s : pystr) : bool := existsb is_lower s && negb (existsb is_upper s).
Fixpoint title_from (after_cased : bool) (s : pystr) : bool :=
  match s with
  | [] => true
  | c :: s =>
      if is_upper c then negb after_cased && title_from true s
      else if is_lower c then after_cased && title_from true s
      else title_from false s
  end.
Definition istitle (s : pystr) : bool := existsb (λ c, is_upper c || is_lower c) s && title_from false s.
Definition capitalize (s : pystr) : pystr :=
  match s with [] => [] | c :: s => to_upper c :: (to_lower <$> s) end.

Definition match_case (source target : pystr) : pystr :=
  match source, target with
  | [], _ => []
  | _, [] => []
  | _, _ =>
      let target := if (length source =? length target)%nat then target else take (length source) target in
      if isupper source then to_upper <$> target
      else if islower source then to_lower <$> target
      else if istitle source then capitalize target
      else zip_with (λ s t, if is_upper s then to_upper t else to_lower t) source target
  end.

Definition is_punctuation (c : Z) : bool := (c =? 33) || (c =? 63).

Section ping.
Context (other_str : pyval → pystr) (ci_char : Z → Z → bool) (BROADCAST_NUM : Z).

(** The expressions, which have to match the whole text: the punctuation before and after, and the
    word in between. *)
Definition PING_COMMAND_REGEX (s : pystr) : option (pystr * pystr * pystr) :=
  let pre := take_while is_punctuation s in
  let rest := drop_while is_punctuation s in
  match ci_prefix ci_char (u "ping") rest with
  | Some post => if forallb is_punctuation post then Some (pre, take 4 rest, post) else None
  | None => None
  end.
Definition PING_EXPLICIT_COMMAND_REGEX (s : pystr) : bool :=
  match s with
  | 33 :: s => match ci_prefix ci_char (u "ping") s with Some [] => true | _ => false end
  | _ => false
  end.

Definition get_mimic_mode (p : plugin) : bool :=
  match dget_or (pl_config p) (u "mimic_mode") (VBool false) with VBool b => b | _ => false end.

(** The text of the answer, before the hops; [None]: not a ping. *)
Definition ping_reply (mimic : bool) (message : pystr) : option pystr :=
  if mimic then
    match PING_COMMAND_REGEX message with
    | None => None
    | Some (pre_punc, matched_text, post_punc) =>
        let base_response := match_case matched_text (u "pong") in
        Some (if (MAX_PUNCTUATION_LENGTH <? length pre_punc)%nat ||
                 (MAX_PUNCTUATION_LENGTH <? length post_punc)%nat
              then PING_FALLBACK_RESPONSE else pre_punc ++ base_response ++ post_punc)
    end
  else if PING_EXPLICIT_COMMAND_REGEX message then Some PING_RESPONSE else None.

(** Hop counts are integers. *)
Definition hops_suffix (p : plugin) (packet : pydict) : res pystr :=
  if truthy (dget_or (pl_config p) (u "display_hops") (VBool false)) then
    match dget_none packet (u "hopStart"), dget_none packet (u "hopLimit") with
    | VNone, _ | _, VNone => Ok []
    | VInt hop_start, VInt hop_limit =>
        let hops := hop_start - hop_limit in
        Ok (if 0 <? hops
            then u " (" ++ str_of_int hops ++ u " hop" ++ (if 1 <? hops then u "s" else []) ++ u " "
                 ++ [129432] ++ u ")"
            else u " (0 hops " ++ [129432] ++ u ")")
    | _, _ => Raise TypeError
    end
  else Ok [].

(** [client]: None without a client; otherwise its node number, if it is known.  The result: the
    message was claimed, and the call that was queued. *)
Definition handle_ping (client : option (option Z)) (p : plugin) (packet : pydict)
    : res (bool * option (plugin_call * pystr)) :=
  match dget packet (u "decoded") with
  | None => Ok (false, None)
  | Some decoded =>
      let! has_text := py_contains decoded (u "text") in
      if negb has_text then Ok (false, None) else
      let! decoded := as_dict decoded in
      let portnum := dget_none decoded (u "portnum") in
      let text_port :=
        is_none portnum || str_eqb (to_str other_str portnum) TEXT_MESSAGE_APP ||
        str_eqb (to_str other_str portnum) (str_of_int PORTNUM_TEXT_MESSAGE_APP) in
      if negb text_port then Ok (false, None) else
      match dget_none decoded (u "text") with
      | VStr text =>
          let channel := match dget_none packet (u "channel") with VNone => VInt DEFAULT_CHANNEL | c => c end in
          match ping_reply (get_mimic_mode p) (strip text) with
          | None => Ok (false, None)
          | Some reply_message =>
              match client with
              | None | Some None => Ok (true, None)
              | Some (Some my_id) =>
                  let to_id := dget_none packet (u "to") in
                  let direct := py_eqb to_id (VInt my_id) in
                  if negb direct && negb (is_none to_id) && negb (py_eqb to_id (VInt BROADCAST_NUM))
                  then Ok (false, None) else
                  let from_id := dget_none packet (u "fromId") in
                  if direct && negb (truthy from_id) then Ok (true, None) else
                  if negb (is_channel_enabled p channel direct) then Ok (false, None) else
                  let! suffix := hops_suffix p packet in
                  let reply_id := match dget_none packet (u "id") with VNone => None | i => Some i end in
                  Ok (true, send_message BROADCAST_NUM true p (reply_message ++ suffix) channel
                              (if direct then Some from_id else None) reply_id)
              end
          end
      | _ => Raise AttributeError
      end
  end.
End ping.

(** What a plugin sends to a room. *)
Inductive room_output := RoomText (content : pydict) | RoomReaction (content : pydict).

(** A reply and a check mark, or a cross when the reply could not be sent: how the core plugins
    answer a command ([None]: the message is left to others). *)
Definition answer_command (matched send_ok : bool) (event_id : pystr) (content : pydict)
    : option (list room_output) :=
  if negb matched then None
  else Some (if send_ok then [RoomText content; RoomReaction (reaction_content event_id [9989])]
             else [RoomReaction (reaction_content event_id [10060])]).

Definition handle_ping_room (html : pystr → pystr) (matched send_ok : bool) (event_id : pystr)
    : option (list room_output) :=
  answer_command matched send_ok event_id (matrix_content html PING_RESPONSE true None).

(** ** Drop *)

Definition SPECIAL_NODE_MESSAGES : pystr := u "!NODE_MSGS!".
Definition DEFAULT_DISTANCE_KM_FALLBACK : Z := 1000.
Definition DEFAULT_RADIUS_KM : Z := 5.

(** [infos]: the entries of the client's nodes. *)
Fixpoint get_position (infos : list pyval) (node_id : pyval) : res pyval :=
  match infos with
  | [] => Ok VNone
  | info :: infos =>
      let! user := py_getitem info (u "user") in
      let! i := py_getitem user (u "id") in
      if py_eqb i node_id then
        let! known := py_contains info (u "position") in
        if known then py_getitem info (u "position") else Ok VNone
      else get_position infos node_id
  end.

(** [distance <= v] *)
Definition within (distance : Q) (v : pyval) : res bool :=
  match v with
  | VFloat (FInf negative) => Ok (negb negative)
  | VFloat FNan => Ok false
  | _ => match num_value v with Some q => Ok (qle distance q) | None => Raise TypeError end
  end.

(** [position and "latitude" in position and "longitude" in position] *)
Definition has_coordinates (position : pyval) : res bool :=
  if negb (truthy position) then Ok false else
  let! lat := py_contains position (u "latitude") in
  if lat then py_contains position (u "longitude") else Ok false.

Record drop_state := { dr_calls : list (plugin_call * pystr); dr_table : gmap (pystr * pystr) pystr }.

Section drop.
Context (other_str : pyval → pystr) (dumps : pyval → option pystr) (loads : pystr → option pyval).
Context (haversine : pyval → pyval → pyval → option Q).
Context (casefold : pystr → pystr) (ci_char : Z → Z → bool) (is_word : Z → bool).
Context (BROADCAST_NUM : Z).
Abbreviation special := (VStr SPECIAL_NODE_MESSAGES).

(** Is the message for the node that stands at this place? *)
Definition picks_up (p : plugin) (from_id lat lon message : pyval) : res bool :=
  let! has := py_contains message (u "originator") in
  let! own := if has then let! o := py_getitem message (u "originator") in Ok (py_eqb o from_id)
              else Ok false in
  if own then Ok false else
  let! distance :=
    match py_getitem message (u "location") with
    | Ok location =>
        Ok (default (inject_Z DEFAULT_DISTANCE_KM_FALLBACK) (haversine lat lon location))
    | Raise TypeError => Ok (inject_Z DEFAULT_DISTANCE_KM_FALLBACK)
    | Raise e => Raise e
    end in
  within distance (dget_or (pl_config p) (u "radius_km") (VInt DEFAULT_RADIUS_KM)).

Definition drop_call (p : plugin) (from_id : pyval) (text : pystr) : option (plugin_call * pystr) :=
  send_message BROADCAST_NUM true p text (VInt 0) (Some from_id) None.

(** The messages that are sent and those that stay; an exception ends the loop after the calls
    already made. *)
Fixpoint deliver_drops (p : plugin) (from_id lat lon : pyval) (messages : list pyval)
    : list (plugin_call * pystr) * res (list pyval) :=
  match messages with
  | [] => ([], Ok [])
  | m :: messages =>
      match picks_up p from_id lat lon m with
      | Raise e => ([], Raise e)
      | Ok false =>
          let '(calls, r) := deliver_drops p from_id lat lon messages in
          (calls, res_bind r (λ l, Ok (m :: l)))
      | Ok true =>
          match py_getitem m (u "text") with
          | Ok (VStr text) =>
              let '(calls, r) := deliver_drops p from_id lat lon messages in
              (option_list (drop_call p from_id text) ++ calls, r)
          | Ok _ => ([], Raise TypeError)
          | Raise e => ([], Raise e)
          end
      end
  end.

(** Where the sender of a packet stands, if it is not the relay and the place is known. *)
Definition sender_position (my_id : res pyval) (infos : list pyval) (from_id : pyval)
    : res (option (pyval * pyval)) :=
  let! mine := my_id in
  if py_eqb from_id mine then Ok None else
  let! position := get_position infos from_id in
  let! known := has_coordinates position in
  if negb known then Ok None else
  let! lat := py_getitem position (u "latitude") in
  let! lon := py_getitem position (u "longitude") in
  Ok (Some (lat, lon)).

(** The first part of the handler: the node that sent the packet may have come to a drop. *)
Definition deliver_to_sender (err_read err_write : bool) (p : plugin) (my_id : res pyval)
    (infos : list pyval) (packet : pydict) (s : drop_state) : drop_state * res unit :=
  match dget packet (u "fromId") with
  | None => (s, Ok tt)
  | Some from_id =>
      match sender_position my_id infos from_id with
      | Raise e => (s, Raise e)
      | Ok None => (s, Ok tt)
      | Ok (Some (lat, lon)) =>
          let data := get_node_data other_str loads err_read p special (dr_table s) in
          let messages := match data with VSeq KList l => l | _ => if truthy data then [data] else [] end in
          let '(calls, r) := deliver_drops p from_id lat lon messages in
          match r with
          | Raise e => ({| dr_calls := dr_calls s ++ calls; dr_table := dr_table s |}, Raise e)
          | Ok unsent_messages =>
              ({| dr_calls := dr_calls s ++ calls;
                  dr_table := set_node_data other_str dumps err_write p special
                                (VSeq KList unsent_messages) (dr_table s) |}, Ok tt)
          end
      end
  end.

(** The second part: the message to leave, with the place and who left it. *)
Definition dropped_message (p : plugin) (infos : list pyval) (packet : pydict)
    : res (bool * option pyval) :=
  match dget packet (u "decoded") with
  | None => Ok (false, None)
  | Some decoded =>
      let! has_port := py_contains decoded (u "portnum") in
      if negb has_port then Ok (false, None) else
      let! portnum := py_getitem decoded (u "portnum") in
      if negb (py_eqb portnum (VStr TEXT_MESSAGE_APP)) then Ok (false, None) else
      let! decoded := as_dict decoded in
      let text := match dget_none decoded (u "text") with v => if truthy v then v else VStr [] end in
      match parse_mesh_bang_command casefold ci_char is_word text [VStr (u "drop")] true with
      | None | Some (_, []) => Ok (false, None)
      | Some (_, drop_text) =>
          let dropping_from_id := dget_none packet (u "fromId") in
          if negb (truthy dropping_from_id) then Ok (false, None) else
          let! position := get_position infos dropping_from_id in
          let position := if truthy position then position else VDict [] in
          let! lat_known := py_contains position (u "latitude") in
          let! known := if lat_known then py_contains position (u "longitude") else Ok false in
          if negb known then Ok (true, None) else
          let! lat := py_getitem position (u "latitude") in
          let! lon := py_getitem position (u "longitude") in
          Ok (true, Some (VDict [(u "location", VSeq KTuple [lat; lon]); (u "text", VStr drop_text);
                                 (u "originator", dropping_from_id)]))
      end
  end.

Definition handle_drop (client : bool) (err_read err_write err_read' err_write' : bool) (p : plugin)
    (my_id : res pyval) (infos : list pyval) (packet : pydict) (s : drop_state)
    : drop_state * res bool :=
  if negb client then (s, Ok true) else
  match deliver_to_sender err_read err_write p my_id infos packet s with
  | (s, Raise e) => (s, Raise e)
  | (s, Ok _) =>
      match dropped_message p infos packet with
      | Raise e => (s, Raise e)
      | Ok (claimed, None) => (s, Ok claimed)
      | Ok (claimed, Some message) =>
          ({| dr_calls := dr_calls s;
              dr_table := store_node_data other_str dumps loads err_read' err_write' p special message
                            (dr_table s) |}, Ok claimed)
      end
  end.
End drop.


(** ** Properties of ping *)

Lemma match_case_length source target :
  length (match_case source target) = Nat.min (length source) (length target).
Proof.
  unfold match_case. destruct source as [|c source]; [done|].
  destruct target as [|d target]; [simpl; lia|].
  set (s := c :: source). set (t := d :: target). cbv zeta.
  set (t' := if (length s =? length t)%nat then t else take (length s) t).
  assert (Ht' : length t' = Nat.min (length s) (length t)).
  { unfold t'. destruct (Nat.eqb_spec (length s) (length t)); [lia|]. rewrite length_take. lia. }
  assert (Hcap : ∀ l, length (capitalize l) = length l).
  { intros [|x l]; [done|]. unfold capitalize. cbn. by rewrite length_fmap. }
  repeat case_match; rewrite ?length_fmap, ?Hcap, ?length_zip_with; lia.
Qed.

(** In mimic mode the answer is capitalised like the ping, letter by letter, whichever of
    the four rules applies. *)
Theorem mimic_same_capitals (s : pystr) :
  ascii_fold s = u "ping" →
  Forall2 (λ a b, is_upper a = is_upper b) s (match_case s (u "pong")) ∧
  ascii_fold (match_case s (u "pong")) = u "pong".
Proof.
  assert (Hfold : ∀ a b, ascii_fold_char a = b → between 97 122 b = true → a = b ∨ a = b - 32).
  { intros a b. unfold ascii_fold_char. destruct (between 65 90 a); intros; [right; lia|by left]. }
  destruct s as [|p [|i [|n [|g [|? ?]]]]]; try done. intros [=Hp Hi Hn Hg].
  apply Hfold in Hp as [->| ->]; [| |done]; apply Hfold in Hi as [->| ->]; try done;
    apply Hfold in Hn as [->| ->]; try done; apply Hfold in Hg as [->| ->]; try done;
    (split; [repeat constructor|reflexivity]).
Qed.

(** An answer to a ping is short: at most fourteen characters, however much
    punctuation there was around it. *)
Theorem ping_reply_bounded ci_char mimic message reply :
  ping_reply ci_char mimic message = Some reply → (length reply ≤ 14)%nat.
Proof.
  unfold ping_reply, PING_COMMAND_REGEX. destruct mimic; cbv zeta.
  - destruct (ci_prefix _ _ _) as [post|]; [|done]. destruct (forallb _ _); [|done].
    destruct (_ || _) eqn:E; intros [= <-]; [change (length PING_FALLBACK_RESPONSE) with 7%nat; lia|].
    apply orb_false_iff in E as [E1%Nat.ltb_ge E2%Nat.ltb_ge]. unfold MAX_PUNCTUATION_LENGTH in *.
    rewrite !length_app, match_case_length. change (length (u "pong")) with 4%nat. lia.
  - destruct (PING_EXPLICIT_COMMAND_REGEX _ _); [|done]. intros [= <-].
    change (length PING_RESPONSE) with 5%nat. lia.
Qed.

Lemma Ok_pair {A B} (a c : A) (b d : B) : Ok (a, b) = Ok (c, d) → a = c ∧ b = d.
Proof. by intros [= -> ->]. Qed.

(** Where a call goes. *)
Definition call_channel (c : plugin_call) : pyval :=
  match c with PluginText _ ch _ | PluginReply _ ch _ _ => ch end.
Definition call_to (BROADCAST_NUM : Z) (c : plugin_call) : pyval :=
  match c with PluginText _ _ d => default (VInt BROADCAST_NUM) d | PluginReply _ _ _ d => d end.

Section ping_laws.
Context (other_str : pyval → pystr) (ci_char : Z → Z → bool) (BROADCAST_NUM : Z).

Lemma send_message_target connected p text channel destination reply call descr :
  send_message BROADCAST_NUM connected p text channel destination reply = Some (call, descr) →
  call_channel call = channel ∧ call_to BROADCAST_NUM call = default (VInt BROADCAST_NUM) destination.
Proof. unfold send_message. destruct connected; [|done]. by destruct reply; intros [= <- <-]. Qed.

(** A ping is answered on the channel it came on, and in one of two ways: to its sender
    alone when it was addressed to the relay, or to all when it was addressed to nobody in
    particular and the channel is one of the plugin's.  A ping for another node is never answered. *)
Theorem ping_answer_addressed my_id p packet claimed call descr :
  handle_ping other_str ci_char BROADCAST_NUM (Some (Some my_id)) p packet = Ok (claimed, Some (call, descr)) →
  claimed = true ∧
  call_channel call = (match dget_none packet (u "channel") with VNone => VInt DEFAULT_CHANNEL | c => c end) ∧
  (py_eqb (dget_none packet (u "to")) (VInt my_id) = true ∧
     truthy (dget_none packet (u "fromId")) = true ∧
     call_to BROADCAST_NUM call = dget_none packet (u "fromId") ∨
   py_eqb (dget_none packet (u "to")) (VInt my_id) = false ∧
     (dget_none packet (u "to") = VNone ∨ py_eqb (dget_none packet (u "to")) (VInt BROADCAST_NUM) = true) ∧
     py_in (call_channel call) (pl_channels p) = true ∧
     call_to BROADCAST_NUM call = VInt BROADCAST_NUM).
Proof.
  unfold handle_ping. destruct (dget packet (u "decoded")) as [decoded|]; [|done].
  destruct (py_contains decoded (u "text")) as [[]|]; [|done..]. cbn [res_bind negb].
  destruct (as_dict decoded) as [d|]; [|done]. cbn [res_bind]. cbv zeta.
  set (channel := match dget_none packet (u "channel") with VNone => VInt DEFAULT_CHANNEL | c => c end).
  clearbody channel. destruct (negb (_ || _)); [done|].
  destruct (dget_none d (u "text")) as [| | | |text| | | |]; try done.
  destruct (ping_reply _ _ _) as [reply|]; [|done].
  set (to := dget_none packet (u "to")). set (from := dget_none packet (u "fromId")). clearbody to from.
  destruct (py_eqb to (VInt my_id)) eqn:Edirect; cbn [negb andb].
  - destruct (truthy from) eqn:Efrom; [|done]. cbn [negb]. destruct (negb (is_channel_enabled _ _ _)); [done|].
    destruct (hops_suffix p packet) as [suffix|]; [|done]. cbn [res_bind]. intros [<- Hsend]%Ok_pair.
    apply send_message_target in Hsend as [Hc Ht]. split; [done|]. split; [done|]. left. by rewrite Ht.
  - destruct (negb (is_none to) && negb (py_eqb to (VInt BROADCAST_NUM))) eqn:Eto; [done|].
    destruct (is_channel_enabled p channel false) eqn:Ech; [|done]. cbn [negb].
    destruct (hops_suffix p packet) as [suffix|]; [|done]. cbn [res_bind]. intros [<- Hsend]%Ok_pair.
    apply send_message_target in Hsend as [Hc Ht]. split; [done|]. split; [done|]. right.
    split; [done|]. split; [|split; [by rewrite Hc|done]].
    apply andb_false_iff in Eto as [E|E]; apply negb_false_iff in E; [|by right]. left. by destruct to.
Qed.
End ping_laws.


(** ** Properties of drop *)

Section drop_laws.
Context (other_str : pyval → pystr) (dumps : pyval → option pystr) (loads : pystr → option pyval).
Context (haversine : pyval → pyval → pyval → option Q).
Context (casefold : pystr → pystr) (ci_char : Z → Z → bool) (is_word : Z → bool).
Context (BROADCAST_NUM : Z).
Abbreviation special := (VStr SPECIAL_NODE_MESSAGES).
Abbreviation run p mine infos packet s :=
  (handle_drop other_str dumps loads haversine casefold ci_char is_word BROADCAST_NUM
     true false false false false p (Ok mine) infos packet s).

(** The message was left by this node. *)
Definition own (from_id message : pyval) : Prop :=
  ∃ o, py_contains message (u "originator") = Ok true ∧
       py_getitem message (u "originator") = Ok o ∧ py_eqb o from_id = true.

Lemma own_stays p from_id lat lon m : own from_id m → picks_up haversine p from_id lat lon m = Ok false.
Proof.
  intros (o & Hc & Ho & He). unfold picks_up. rewrite Hc. cbn [res_bind]. rewrite Ho. cbn [res_bind].
  by rewrite He.
Qed.

(** When a node comes by, each stored message is either sent to it or kept, none is
    lost or sent twice, and those that are kept keep their order; what is sent lies within the
    radius and was left by somebody else. *)
Theorem drop_delivery_exact p from_id lat lon messages calls unsent :
  deliver_drops haversine BROADCAST_NUM p from_id lat lon messages = (calls, Ok unsent) →
  ∃ sent texts,
    messages ≡ₚ sent ++ unsent ∧ unsent `sublist_of` messages ∧
    Forall2 (λ m text, py_getitem m (u "text") = Ok (VStr text)) sent texts ∧
    calls = omap (drop_call BROADCAST_NUM p from_id) texts ∧ length calls = length sent ∧
    Forall (λ m, picks_up haversine p from_id lat lon m = Ok true ∧ ¬ own from_id m) sent ∧
    Forall (λ m, picks_up haversine p from_id lat lon m = Ok false) unsent.
Proof.
  revert calls unsent. induction messages as [|m messages IH]; intros calls unsent; cbn [deliver_drops].
  { intros [= <- <-]. exists [], []. by repeat constructor. }
  destruct (picks_up haversine p from_id lat lon m) as [[]|e] eqn:Em; [| |done].
  - destruct (py_getitem m (u "text")) as [[| | | |text| | | |]|e] eqn:Et; try done.
    destruct (deliver_drops _ _ _ _ _ _ messages) as [calls' r] eqn:Er. intros [= <- ->].
    destruct (IH _ _ eq_refl) as (sent & texts & Hp & Hs & Ht & -> & Hlen & Hsent & Hunsent).
    exists (m :: sent), (text :: texts). split_and!.
    + cbn. by rewrite Hp.
    + by apply sublist_cons.
    + by constructor.
    + done.
    + cbn. by rewrite Hlen.
    + constructor; [|done]. split; [done|]. intros Hown. apply (own_stays p _ lat lon) in Hown. congruence.
    + done.
  - destruct (deliver_drops _ _ _ _ _ _ messages) as [calls' r] eqn:Er.
    destruct r as [l|]; [|done]. cbn [res_bind]. intros [= <- <-].
    destruct (IH _ _ eq_refl) as (sent & texts & Hp & Hs & Ht & -> & Hlen & Hsent & Hunsent).
    exists sent, texts. split_and!; try done.
    + rewrite Hp. apply Permutation_middle.
    + by apply sublist_skip.
    + by constructor.
Qed.

Lemma dropped_message_dict casefold' ci is_w p infos packet claimed m :
  dropped_message casefold' ci is_w p infos packet = Ok (claimed, Some m) → ∃ d, m = VDict d.
Proof.
  unfold dropped_message, res_bind. intros H. repeat (case_match; try done);
    injection H as _ <-; by eexists.
Qed.

(** A packet that drops nothing, where the stored messages are [l]. *)
Lemma run_delivers p mine infos packet s b lat lon l calls unsent claimed :
  dget packet (u "fromId") = Some b → sender_position (Ok mine) infos b = Ok (Some (lat, lon)) →
  get_node_data other_str loads false p special (dr_table s) = VSeq KList l →
  deliver_drops haversine BROADCAST_NUM p b lat lon l = (calls, Ok unsent) →
  dropped_message casefold ci_char is_word p infos packet = Ok (claimed, None) →
  run p mine infos packet s
  = ({| dr_calls := dr_calls s ++ calls;
        dr_table := set_node_data other_str dumps false p special (VSeq KList unsent) (dr_table s) |},
     Ok claimed).
Proof.
  intros Hf Hp Hl Hd Hn. unfold handle_drop, deliver_to_sender. cbn [negb].
  rewrite Hf, Hp, Hl. cbv zeta. rewrite Hd. cbv beta iota. by rewrite Hn.
Qed.

(** A message left at a place reaches the next node that comes within the radius, once:
    it is sent to that node, is stored no longer, and the same packet again brings nothing -
    given that JSON reads back a list of one message as such, with its text, place and originator. *)
Theorem drop_then_pickup p mine infos a_packet b_packet a place b lat lon m m' text json s claimed infos' :
  0 < pl_max_rows p →
  get_node_data other_str loads false p special (dr_table s) = VSeq KList [] →
  dget a_packet (u "fromId") = Some a → sender_position (Ok mine) infos a = Ok place →
  dropped_message casefold ci_char is_word p infos a_packet = Ok (true, Some m) →
  dumps (VSeq KList [m]) = Some json → loads json = Some (VSeq KList [m']) →
  dumps (VSeq KList []) = Some (u "[]") → loads (u "[]") = Some (VSeq KList []) →
  dget b_packet (u "fromId") = Some b → sender_position (Ok mine) infos' b = Ok (Some (lat, lon)) →
  dropped_message casefold ci_char is_word p infos' b_packet = Ok (claimed, None) →
  picks_up haversine p b lat lon m' = Ok true → py_getitem m' (u "text") = Ok (VStr text) →
  let s1 := (run p mine infos a_packet s).1 in
  let s2 := (run p mine infos' b_packet s1).1 in
  dr_calls s1 = dr_calls s ∧
  dr_calls s2 = dr_calls s1 ++ option_list (drop_call BROADCAST_NUM p b text) ∧
  get_node_data other_str loads false p special (dr_table s2) = VSeq KList [] ∧
  dr_calls (run p mine infos' b_packet s2).1 = dr_calls s2.
Proof.
  intros Hrows H0 Ha Hplace Hm Hdm Hlm Hd0 Hl0 Hb Hbpos Hbn Hpick Htext s1 s2.
  assert (Hempty : ∀ t, get_node_data other_str loads false p special
            (set_node_data other_str dumps false p special (VSeq KList []) t) = VSeq KList []).
  { intros t. unfold get_node_data, set_node_data, replaced.
    rewrite (py_last_all (pl_max_rows p) []) by (simpl; lia). rewrite Hd0. by apply plugin_data_roundtrip. }
  assert (Hs1 : dr_calls s1 = dr_calls s ∧
    get_node_data other_str loads false p special (dr_table s1) = VSeq KList [m']).
  { unfold s1, handle_drop, deliver_to_sender. cbn [negb].
    assert (Hstored : ∀ t, get_node_data other_str loads false p special t = VSeq KList [] →
              get_node_data other_str loads false p special
                (store_node_data other_str dumps loads false false p special m t) = VSeq KList [m']).
    { intros t Ht. unfold store_node_data, appended. rewrite Ht. cbn [as_list app].
      destruct (dropped_message_dict _ _ _ _ _ _ _ _ Hm) as [dm ->]. cbn [as_list].
      rewrite (py_last_all (pl_max_rows p) [VDict dm]) by (simpl; lia). rewrite Hdm.
      by apply plugin_data_roundtrip. }
    rewrite Ha, Hplace. destruct place as [[alat alon]|].
    - rewrite H0. cbn [deliver_drops]. rewrite Hm. cbn [fst dr_calls dr_table]. rewrite app_nil_r.
      split; [done|]. apply Hstored, Hempty.
    - rewrite Hm. cbn [fst dr_calls dr_table]. split; [done|]. by apply Hstored. }
  destruct Hs1 as [Hc1 Ht1]. split; [done|].
  assert (Hs2 : run p mine infos' b_packet s1
    = ({| dr_calls := dr_calls s1 ++ option_list (drop_call BROADCAST_NUM p b text);
          dr_table := set_node_data other_str dumps false p special (VSeq KList []) (dr_table s1) |},
       Ok claimed)).
  { eapply run_delivers; [done..| |done]. cbn [deliver_drops]. rewrite Hpick, Htext. by rewrite app_nil_r. }
  unfold s2. rewrite Hs2. cbn [fst dr_calls dr_table]. split; [done|]. split; [apply Hempty|].
  erewrite run_delivers; [|done|done|apply Hempty|done|done]. cbn [fst dr_calls]. by rewrite app_nil_r.
Qed.
End drop_laws.

(** ** Examples and witnesses *)

Example ping_answers :
  ping_reply ascii_ci true (u "?!pInG!") = Some (u "?!pOnG!") ∧
  ping_reply ascii_ci true (u "ping??????") = Some (u "Pong...") ∧
  ping_reply ascii_ci true (u "pinged") = None ∧
  ping_reply ascii_ci false (u "!PING") = Some (u "pong!") ∧
  ping_reply ascii_ci false (u "ping") = None.
Proof. vm_compute. done. Qed.

Lemma mimic_same_capitals_witness :
  Forall2 (λ a b, is_upper a = is_upper b) (u "PiNg") (match_case (u "PiNg") (u "pong")) ∧
  ascii_fold (match_case (u "PiNg") (u "pong")) = u "pong".
Proof. apply (mimic_same_capitals (u "PiNg")). vm_compute. reflexivity. Defined.

Lemma ping_reply_bounded_witness : (length (u "!Pong?") ≤ 14)%nat.
Proof. apply (ping_reply_bounded ascii_ci true (u "!Ping?")). vm_compute. reflexivity. Defined.

Definition demo_ping_packet : pydict :=
  [(u "decoded", VDict [(u "portnum", VStr TEXT_MESSAGE_APP); (u "text", VStr (u " !ping "))]);
   (u "to", VInt 7); (u "fromId", VStr (u "!9")); (u "id", VInt 5); (u "channel", VInt 1)].

Lemma ping_answer_addressed_witness :
  let call := PluginReply (u "pong!") (VInt 1) (VInt 5) (VStr (u "!9")) in
  true = true ∧ call_channel call = VInt 1 ∧
  (py_eqb (VInt 7) (VInt 7) = true ∧ truthy (VStr (u "!9")) = true ∧
     call_to 4294967295 call = VStr (u "!9") ∨
   py_eqb (VInt 7) (VInt 7) = false ∧
     (VInt 7 = VNone ∨ py_eqb (VInt 7) (VInt 4294967295) = true) ∧
     py_in (call_channel call) (pl_channels demo_ping) = true ∧ call_to 4294967295 call = VInt 4294967295).
Proof.
  apply (ping_answer_addressed (λ _, []) ascii_ci 4294967295 7 demo_ping demo_ping_packet true
    (PluginReply (u "pong!") (VInt 1) (VInt 5) (VStr (u "!9"))) (u "Plugin ping: pong!")).
  vm_compute. reflexivity.
Defined.

(** Places on a line: the distance is the difference of the latitudes. *)
Definition demo_haversine (lat lon location : pyval) : option Q :=
  match lat, location with
  | VInt a, VSeq _ (VInt b :: _) => Some (inject_Z (Z.abs (a - b)))
  | _, _ => None
  end.
Definition demo_drop : plugin :=
  {| pl_name := u "drop"; pl_core := true; pl_type := Some (u "core"); pl_config := [];
     pl_channels := []; pl_global_mention := None; pl_delay := VFloat (FFin 0);
     pl_max_rows := DEFAULT_MAX_DATA_ROWS_PER_NODE_BASE |}.
Definition demo_left (who : pystr) (lat : Z) : pyval :=
  VDict [(u "location", VSeq KList [VInt lat; VInt 0]); (u "text", VStr (u "hi")); (u "originator", VStr who)].

Lemma drop_delivery_exact_witness :
  ∃ sent texts,
    [demo_left (u "!a") 3; demo_left (u "!b") 3; demo_left (u "!a") 9]
      ≡ₚ sent ++ [demo_left (u "!b") 3; demo_left (u "!a") 9] ∧
    [demo_left (u "!b") 3; demo_left (u "!a") 9] `sublist_of`
      [demo_left (u "!a") 3; demo_left (u "!b") 3; demo_left (u "!a") 9] ∧
    Forall2 (λ m text, py_getitem m (u "text") = Ok (VStr text)) sent texts ∧
    [(PluginText (u "hi") (VInt 0) (Some (VStr (u "!b"))), u "Plugin drop: hi")]
      = omap (drop_call 4294967295 demo_drop (VStr (u "!b"))) texts ∧ 1%nat = length sent ∧
    Forall (λ m, picks_up demo_haversine demo_drop (VStr (u "!b")) (VInt 0) (VInt 0) m = Ok true ∧
                 ¬ own (VStr (u "!b")) m) sent ∧
    Forall (λ m, picks_up demo_haversine demo_drop (VStr (u "!b")) (VInt 0) (VInt 0) m = Ok false)
      [demo_left (u "!b") 3; demo_left (u "!a") 9].
Proof.
  apply (drop_delivery_exact demo_haversine 4294967295 demo_drop (VStr (u "!b")) (VInt 0) (VInt 0)
    [demo_left (u "!a") 3; demo_left (u "!b") 3; demo_left (u "!a") 9]
    [(PluginText (u "hi") (VInt 0) (Some (VStr (u "!b"))), u "Plugin drop: hi")]).
  vm_compute. reflexivity.
Defined.

(** JSON for at most one message, in which the tuple of the place becomes a list. *)
Definition one_dumps (v : pyval) : option pystr :=
  match v with VSeq KList [] => Some (u "[]") | _ => Some (u "[1]") end.
Definition one_loads (s : pystr) : option pyval :=
  Some (VSeq KList (if str_eqb s (u "[]") then [] else [demo_left (u "!a") 3])).
Definition demo_infos : list pyval :=
  [VDict [(u "user", VDict [(u "id", VStr (u "!a"))]);
          (u "position", VDict [(u "latitude", VInt 3); (u "longitude", VInt 0)])];
   VDict [(u "user", VDict [(u "id", VStr (u "!b"))]);
          (u "position", VDict [(u "latitude", VInt 5); (u "longitude", VInt 0)])]].
Definition a_packet : pydict :=
  [(u "fromId", VStr (u "!a"));
   (u "decoded", VDict [(u "portnum", VStr TEXT_MESSAGE_APP); (u "text", VStr (u "!drop hi"))])].
Definition b_packet : pydict := [(u "fromId", VStr (u "!b"))].
Abbreviation demo_run packet s :=
  (handle_drop (λ _, []) one_dumps one_loads demo_haversine ascii_fold ascii_ci ascii_word 4294967295
     true false false false false demo_drop (Ok (VStr (u "!me"))) demo_infos packet s).

Lemma drop_then_pickup_witness :
  let s := {| dr_calls := []; dr_table := ∅ |} in
  let s1 := (demo_run a_packet s).1 in
  let s2 := (demo_run b_packet s1).1 in
  dr_calls s1 = dr_calls s ∧
  dr_calls s2 = dr_calls s1 ++ option_list (drop_call 4294967295 demo_drop (VStr (u "!b")) (u "hi")) ∧
  get_node_data (λ _, []) one_loads false demo_drop (VStr SPECIAL_NODE_MESSAGES) (dr_table s2) = VSeq KList [] ∧
  dr_calls (demo_run b_packet s2).1 = dr_calls s2.
Proof.
  intros s.
  apply (drop_then_pickup (λ _, []) one_dumps one_loads demo_haversine ascii_fold ascii_ci ascii_word
    4294967295 demo_drop (VStr (u "!me")) demo_infos a_packet b_packet (VStr (u "!a"))
    (Some (VInt 3, VInt 0)) (VStr (u "!b")) (VInt 5) (VInt 0)
    (VDict [(u "location", VSeq KTuple [VInt 3; VInt 0]); (u "text", VStr (u "hi"));
            (u "originator", VStr (u "!a"))])
    (demo_left (u "!a") 3) (u "hi") (u "[1]") s false demo_infos);
    try (vm_compute; reflexivity).
Defined.
