(* ===== verification/CorePlugins.v ===== *)
(** * The reporting plugins

    Models the core plugins that report about the mesh: [src/mmrelay/plugins/help_plugin.py],
    [debug_plugin.py], [nodes_plugin.py], [health_plugin.py] and [telemetry_plugin.py]
    (the records it keeps and the averages it draws).

    Times are seconds of the naive local clock; [local] is [datetime.fromtimestamp] (None where it
    raises) and [long_date] the form [strftime] gives an old one.  Numbers are exact rationals: the
    rounding of a float sum is not modelled, that of the printed figures is.  The drawing of
    the graph and its upload are left out: the graph is the list of its values. *)

From Stdlib Require Import String QArith Qround Lqa.
From stdpp Require Import base tactics list numbers gmap sets sorting.
From S2P Require Import Prelude PyStr PyValue PacketRouting Prefixes NameSync Commands BasePlugin PingDrop.
Open Scope Z_scope.

(** ** Help and debug *)

Definition MSG_NO_SUCH_COMMAND (command : pystr) : pystr := u "No such command: " ++ command.
Definition MSG_COMMAND_HELP (command description : pystr) : pystr :=
  u "`!" ++ command ++ u "`: " ++ description.
Definition MSG_AVAILABLE_COMMANDS_PREFIX : pystr := u "Available commands: ".

(** What help sees of a loaded plugin. *)
Record listed_plugin := { lp_commands : list pystr; lp_description : pystr }.

Definition help_reply (plugins : list listed_plugin) (command : pystr) : pystr :=
  match command with
  | [] => MSG_AVAILABLE_COMMANDS_PREFIX ++
          join (u ", ") (merge_sort str_le (remove_dups (plugins ≫= lp_commands)))
  | _ =>
      match List.find (λ p, bool_decide (command ∈ lp_commands p)) plugins with
      | Some p => MSG_COMMAND_HELP command (lp_description p)
      | None => MSG_NO_SUCH_COMMAND command
      end
  end.

(** [parsed]: the command and arguments found in the event. *)
Definition handle_help (html : pystr → pystr) (parsed : option (pystr * pystr)) (plugins : list listed_plugin)
    (send_ok : bool) (event_id : pystr) : option (list room_output) :=
  match parsed with
  | None => None
  | Some (_, command) =>
      answer_command true send_ok event_id (matrix_content html (help_reply plugins command) true None)
  end.

(** The packet that is logged; nothing is claimed.  [strip_raw] works in place: the packet
    keeps that form for the plugins that come after. *)
Definition handle_debug (packet : pyval) : bool * pyval := (false, strip_raw packet).

(** ** Nodes *)

Definition SECONDS_PER_MINUTE : Z := 60.
Definition SECONDS_PER_HOUR : Z := 60 * SECONDS_PER_MINUTE.
Definition SECONDS_PER_DAY : Z := 24 * SECONDS_PER_HOUR.
Definition RELATIVE_TIME_DAYS_THRESHOLD : Z := 7.
Definition UNKNOWN_NODE_VALUE : pystr := u "Unknown".
Definition SNR_UNIT_SUFFIX : pystr := u " dB".

(** [int(x)] of a rational. *)
Definition truncate (x : Q) : Z := Z.quot (Qnum x) (Zpos (Qden x)).

(** [f"{n} day{'s' if n != 1 else ''} ago"] *)
Definition units_ago (n : Z) (unit : pystr) : pystr :=
  str_of_int n ++ u " " ++ unit ++ (if n =? 1 then [] else u "s") ++ u " ago".

Definition get_relative_time (now dt : Q) (long_date : pystr) : pystr :=
  let total_seconds := truncate (now - dt) in
  if total_seconds <=? 0 then u "Just now" else
  if RELATIVE_TIME_DAYS_THRESHOLD * SECONDS_PER_DAY <? total_seconds then long_date else
  let days := total_seconds / SECONDS_PER_DAY in
  if 1 <=? days then units_ago days (u "day") else
  let hours := total_seconds / SECONDS_PER_HOUR in
  if 1 <=? hours then units_ago hours (u "hour") else
  let minutes := total_seconds / SECONDS_PER_MINUTE in
  if 1 <=? minutes then units_ago minutes (u "minute") else
  u "Just now".

Definition py_or (v d : pyval) : pyval := if truthy v then v else d.

Section nodes.
Context (other_str : pyval → pystr) (local : pyfloat → option Q) (long_date : pyfloat → pystr) (now : Q).
Abbreviation str := (to_str other_str).

Definition hops_text (hops_away : pyval) : pystr :=
  match hops_away with
  | VNone => u "? hops away"
  | h => if py_eqb h (VInt 0) then u "direct"
         else if py_eqb h (VInt 1) then u "1 hop away"
         else str h ++ u " hops away"
  end.

Definition last_heard (timestamp : pyval) : pystr :=
  match timestamp with
  | VNone => u "?"
  | v =>
      match float_of_val v with
      | Raise _ => u "?"
      | Ok f =>
          let positive := match f with FFin q => qlt 0 q | FInf negative => negb negative | FNan => false end in
          if positive then
            match local f with
            | Some dt => get_relative_time now dt (long_date f)
            | None => u "?"
            end
          else u "?"
      end
  end.

(** [v] followed by the suffix, when there is a value. *)
Definition with_suffix (v : pyval) (suffix dflt : pystr) : pystr :=
  match v with VNone => dflt | v => str v ++ suffix end.

Definition node_line (info : pydict) : res pystr :=
  let user_info := match dget_none info (u "user") with VDict d => d | _ => [] end in
  let short_name := py_or (dget_none user_info (u "shortName")) (VStr UNKNOWN_NODE_VALUE) in
  let long_name := py_or (dget_none user_info (u "longName")) (VStr UNKNOWN_NODE_VALUE) in
  let hw_model := py_or (dget_none user_info (u "hwModel")) (VStr UNKNOWN_NODE_VALUE) in
  let snr := with_suffix (dget_none info (u "snr")) SNR_UNIT_SUFFIX [] in
  let metrics := match dget_none info (u "deviceMetrics") with VDict d => d | _ => [] end in
  let voltage := with_suffix (dget_none metrics (u "voltage")) (u "V") (u "?V") in
  let battery := with_suffix (dget_none metrics (u "batteryLevel")) (u "%") (u "?%") in
  match hw_model with
  | VStr hw_model =>
      let parts := [str short_name ++ u " " ++ str long_name; hw_model; battery ++ u " " ++ voltage;
                    snr; hops_text (dget_none info (u "hopsAway"));
                    last_heard (dget_none info (u "lastHeard"))] in
      Ok (join (u " / ") (filter (λ s, s ≠ []) parts) ++ [10])
  | _ => Raise TypeError
  end.

Fixpoint node_lines (infos : list pyval) : res (list pystr) :=
  match infos with
  | [] => Ok []
  | VDict info :: infos =>
      let! line := node_line info in
      let! lines := node_lines infos in
      Ok (line :: lines)
  | _ :: infos => node_lines infos
  end.

(** [nodes]: the entries of the client's nodes, if there is a client. *)
Definition nodes_response (nodes : option (list pyval)) : res pystr :=
  match nodes with
  | None => Ok (u "Unable to connect to Meshtastic device.")
  | Some infos =>
      let! lines := node_lines infos in
      Ok (u "Nodes: " ++ str_of_int (Z.of_nat (length lines)) ++ [10] ++ concat lines)
  end.
End nodes.

(** A report that is made and sent; an exception on the way is answered with a cross. *)
Definition handle_report (html : pystr → pystr) (matched send_ok : bool) (event_id : pystr)
    (report : res pystr) : option (list room_output) :=
  match report with
  | Ok text => answer_command matched send_ok event_id (matrix_content html text false None)
  | Raise _ => answer_command matched false event_id []
  end.

(** ** Health *)

Definition LOW_BATTERY_THRESHOLD_PERCENT : Z := 10.

(** The nearest integer, to even on a tie. *)
Definition round_half_even (x : Q) : Z :=
  let f := Qfloor x in
  let r := (x - inject_Z f)%Q in
  if qlt r (1 # 2) then f
  else if qlt (1 # 2) r then f + 1
  else if Z.even f then f else f + 1.

(** [f"{x:.nf}"] with n decimals, n > 0; a small negative number keeps its sign. *)
Definition fixed (n : nat) (x : Q) : pystr :=
  let scale := 10 ^ Z.of_nat n in
  let scaled := round_half_even (qabs x * inject_Z scale) in
  let fraction := str_of_int (scaled mod scale) in
  (if qlt x 0 then u "-" else []) ++ str_of_int (scaled / scale) ++ u "." ++
  replicate (n - length fraction) 48 ++ fraction.

Definition qsum (l : list Q) : Q := foldl Qplus 0%Q l.
(** [statistics.mean] and [statistics.median] of a list that is not empty. *)
Definition mean (l : list Q) : Q := (qsum l / inject_Z (Z.of_nat (length l)))%Q.

Definition q_le (a b : Q) : Prop := qle a b = true.
#[global] Instance q_le_dec a b : Decision (q_le a b).
Proof. unfold q_le. apply _. Defined.

Definition median (l : list Q) : Q :=
  let s := merge_sort q_le l in
  let n := length s in
  let at_ i := default 0%Q (s !! i) in
  if Nat.odd n then at_ (n / 2)%nat else ((at_ (n / 2 - 1)%nat + at_ (n / 2)%nat) / 2)%Q.

(** The values of the nodes that have one.  A value that is no number raises; infinities are not modelled. *)
Fixpoint numbers (values : list pyval) : res (list Q) :=
  match values with
  | [] => Ok []
  | VNone :: values => numbers values
  | v :: values =>
      match num_value v with
      | Some q => let! qs := numbers values in Ok (q :: qs)
      | None => Raise TypeError
      end
  end.

(** [info["deviceMetrics"][key]] where present. *)
Definition metric (key : pystr) (info : pydict) : option pyval :=
  match dget info (u "deviceMetrics") with Some (VDict d) => dget d key | _ => None end.

Definition summary_line (name : pystr) (decimals : nat) (unit : pystr) (values : list Q) : pystr :=
  match values with
  | [] => name ++ u ": N/A"
  | _ => name ++ u ": " ++ fixed decimals (mean values) ++ unit ++ u " / " ++
         fixed decimals (median values) ++ unit ++ u " (avg / median)"
  end.

(** [nodes]: the entries of the client's nodes, which are dictionaries. *)
Definition health_response (nodes : option (list pydict)) : res pystr :=
  match nodes with
  | None => Ok (u "Unable to connect to Meshtastic device.")
  | Some [] => Ok (u "No nodes discovered yet.")
  | Some infos =>
      let radios := str_of_int (Z.of_nat (length infos)) in
      let battery_values := omap (metric (u "batteryLevel")) infos in
      let air_values := omap (metric (u "airUtilTx")) infos in
      let snr_values := omap (λ info, dget info (u "snr")) infos in
      let present := List.filter (λ v, negb (is_none v)) in
      match present battery_values, present air_values, present snr_values with
      | [], [], [] => Ok (u "Nodes: " ++ radios ++ [10] ++ u "No nodes with health metrics found.")
      | _, _, _ =>
          let! battery_levels := numbers battery_values in
          let! air_util_tx := numbers air_values in
          let! snr := numbers snr_values in
          let low_battery :=
            length (List.filter (λ n, qle n (inject_Z LOW_BATTERY_THRESHOLD_PERCENT)) battery_levels) in
          Ok (u "Nodes: " ++ radios ++ [10] ++
              u " " ++ summary_line (u "Battery") 1 (u "%") battery_levels ++ [10] ++
              u " Nodes with Low Battery (<= " ++ str_of_int LOW_BATTERY_THRESHOLD_PERCENT ++ u "%): " ++
              str_of_int (Z.of_nat low_battery) ++ [10] ++
              u " " ++ summary_line (u "Air Util") 2 [] air_util_tx ++ [10] ++
              u " " ++ summary_line (u "SNR") 2 [] snr)
      end
  end.

(** ** Telemetry *)

Definition TELEMETRY_APP_PORTNUM : pystr := u "TELEMETRY_APP".
Definition TELEMETRY_DEFAULT_HOURS : nat := 12.
Definition TELEMETRY_MAX_DATA_ROWS : Z := 50.
Definition telemetry_commands : list pyval := [VStr (u "batteryLevel"); VStr (u "voltage"); VStr (u "airUtilTx")].

Section telemetry.
Context (PortNum_Name : Z → option pystr).
Context (other_str : pyval → pystr) (dumps : pyval → option pystr) (loads : pystr → option pyval).

(** [isinstance(v, (int, float)) and math.isfinite(v)] *)
Definition finite_number (v : pyval) : bool :=
  match num_value v with Some _ => true | None => false end.

(** The sender and the record of a telemetry packet. *)
Definition telemetry_record (packet : pydict) : option (pyval * pyval) :=
  match dget_none packet (u "decoded") with
  | VDict decoded =>
      if negb (str_eqb (_get_portnum_name PortNum_Name (dget_none decoded (u "portnum")) None)
                 TELEMETRY_APP_PORTNUM) then None else
      match dget_none decoded (u "telemetry") with
      | VDict telemetry =>
          match dget_none telemetry (u "deviceMetrics"), dget_none packet (u "fromId") with
          | _, VNone => None
          | VDict device_metrics, from_id =>
              let time := dget_none telemetry (u "time") in
              Some (from_id,
                VDict [(u "time", if finite_number time then time else dget_none packet (u "rxTime"));
                       (u "batteryLevel", dget_none device_metrics (u "batteryLevel"));
                       (u "voltage", dget_none device_metrics (u "voltage"));
                       (u "airUtilTx", dget_none device_metrics (u "airUtilTx"))])
          | _, _ => None
          end
      | _ => None
      end
  | _ => None
  end.

(** The packet is never claimed. *)
Definition handle_telemetry (err_read err_write : bool) (p : plugin) (packet : pydict)
    (t : gmap (pystr * pystr) pystr) : gmap (pystr * pystr) pystr :=
  match telemetry_record packet with
  | None => t
  | Some (from_id, record) =>
      let data := get_node_data other_str loads err_read p from_id t in
      let telemetry_data := if truthy data then as_list data else [] in
      set_node_data other_str dumps err_write p from_id (VSeq KList (telemetry_data ++ [record])) t
  end.
End telemetry.

(** [now] - 12 hours, and every hour from there up to [now]. *)
Definition _generate_timeperiods (now : Q) (hours : nat) : list Q :=
  (λ i : nat, now - inject_Z (SECONDS_PER_HOUR * Z.of_nat (hours - i)))%Q <$> seq 0 (S hours).

Section averages.
(** [datetime.fromtimestamp], None where it raises. *)
Context (fromtimestamp : pyval → option Q).

(** The time and the value of a record, if it has both. *)
Definition sample (telemetry_option : pystr) (record : pyval) : option (Q * Q) :=
  match record with
  | VDict r =>
      match dget_none r (u "time"), dget_none r telemetry_option with
      | VNone, _ | _, VNone => None
      | timestamp, value =>
          match fromtimestamp timestamp, float_of_val value with
          | Some t, Ok (FFin v) => Some (t, v)
          | _, _ => None
          end
      end
  | _ => None
  end.

(** The first hour that holds the time: [i] counts from the first interval on. *)
Fixpoint hour_of (intervals : list Q) (t : Q) (i : nat) : option nat :=
  match intervals with
  | a :: ((b :: _) as rest) => if qle a t && qlt t b then Some i else hour_of rest t (S i)
  | _ => None
  end.

Definition calculate_averages (telemetry_option : pystr) (intervals : list Q) (rows : list pyval)
    (hourly : gmap nat (list Q)) : gmap nat (list Q) :=
  foldl (λ hourly record,
    match sample telemetry_option record with
    | Some (t, v) =>
        match hour_of intervals t 0 with
        | Some i => <[i := default [] (hourly !! i) ++ [v]]> hourly
        | None => hourly
        end
    | None => hourly
    end) hourly rows.

Definition final_averages (intervals : list Q) (hourly : gmap nat (list Q)) : list Q :=
  (λ i, match hourly !! i with Some l => mean l | None => 0%Q end) <$> seq 0 (length intervals - 1).

(** The curve of the graph. *)
Definition telemetry_curve (now : Q) (telemetry_option : pystr) (data : list (list pyval)) : list Q :=
  let intervals := _generate_timeperiods now TELEMETRY_DEFAULT_HOURS in
  final_averages intervals
    (foldl (λ hourly rows, calculate_averages telemetry_option intervals rows hourly) ∅ data).
End averages.

Definition MSG_GRAPH_UPLOAD_FAILED : pystr := u "Failed to generate graph: Image upload failed.".

(** What the telemetry command sends. *)
Inductive graph_output :=
  | GraphReply (o : room_output)
  | GraphImage (title : pystr) (curve : list Q).

Definition graph_title (node : option pystr) (telemetry_option : pystr) : pystr :=
  match node with Some n => n | None => u "Network" end ++ u " Hourly " ++ telemetry_option ++ u " Averages".

(** [node_data]: the data of the node that was asked for; [network]: the data of all; [upload_ok]: the
    image was uploaded.  [None]: not a telemetry command. *)
Definition handle_telemetry_room (html : pystr → pystr) (fromtimestamp : pyval → option Q) (now : Q)
    (parsed : option (pystr * pystr)) (matrix upload_ok : bool) (event_id : pystr)
    (node_data : pystr → pyval) (network : list (list pyval)) : option (list graph_output) :=
  match parsed with
  | None => None
  | Some (telemetry_option, args) =>
      if negb matrix then Some [] else
      let check := GraphReply (RoomReaction (reaction_content event_id [9989])) in
      let cross := GraphReply (RoomReaction (reaction_content event_id [10060])) in
      let send_graph node data :=
        if (upload_ok : bool) then
          [GraphImage (graph_title node telemetry_option) (telemetry_curve fromtimestamp now telemetry_option data);
           check]
        else [GraphReply (RoomText [(u "msgtype", VStr (u "m.notice"));
                                    (u "body", VStr MSG_GRAPH_UPLOAD_FAILED)]); cross] in
      match args with
      | [] => Some (send_graph None network)
      | node =>
          let rows := node_data node in
          if truthy rows then Some (send_graph (Some node) [as_list rows])
          else Some [GraphReply (RoomText (matrix_content html
                       (u "No telemetry data found for node '" ++ node ++ u "'.") false None)); cross]
      end
  end.

(** ** Relative times *)

(** Between a minute and seven days the relative time names the largest unit that fits,
    with the number of whole units: [n unit ago] for a difference of at least [n] and less than
    [n + 1] units. *)
Theorem relative_time_exact now dt long_date :
  SECONDS_PER_MINUTE ≤ truncate (now - dt) ≤ RELATIVE_TIME_DAYS_THRESHOLD * SECONDS_PER_DAY →
  ∃ n unit seconds,
    (unit, seconds) ∈ [(u "minute", SECONDS_PER_MINUTE); (u "hour", SECONDS_PER_HOUR); (u "day", SECONDS_PER_DAY)] ∧
    get_relative_time now dt long_date = units_ago n unit ∧
    1 ≤ n ∧ n * seconds ≤ truncate (now - dt) < (n + 1) * seconds ∧
    (seconds < SECONDS_PER_DAY → truncate (now - dt) < 24 * seconds ∨ seconds = SECONDS_PER_MINUTE ∧
       truncate (now - dt) < SECONDS_PER_HOUR).
Proof.
  unfold get_relative_time. set (s := truncate (now - dt)). clearbody s.
  change SECONDS_PER_MINUTE with 60. change SECONDS_PER_HOUR with 3600. change SECONDS_PER_DAY with 86400.
  change RELATIVE_TIME_DAYS_THRESHOLD with 7. intros Hs. cbv zeta.
  destruct (Z.leb_spec s 0); [lia|]. destruct (Z.ltb_spec (7 * 86400) s); [lia|].
  destruct (Z.leb_spec 1 (s / 86400)).
  { exists (s / 86400), (u "day"), 86400. split_and!; [set_solver|done|done|..]; Z.to_euclidean_division_equations; lia. }
  destruct (Z.leb_spec 1 (s / 3600)).
  { exists (s / 3600), (u "hour"), 3600. split_and!; [set_solver|done|done|..]; Z.to_euclidean_division_equations; lia. }
  destruct (Z.leb_spec 1 (s / 60)); [|Z.to_euclidean_division_equations; lia].
  exists (s / 60), (u "minute"), 60. split_and!; [set_solver|done|done|..]; Z.to_euclidean_division_equations; lia.
Qed.

(** ** The curve of the telemetry *)

Section curve.
Context (fromtimestamp : pyval → option Q).

(** The start of an hour of the graph, and the times of that hour. *)
Definition hour_start (now : Q) (i : nat) : Q :=
  (now - inject_Z (SECONDS_PER_HOUR * Z.of_nat (TELEMETRY_DEFAULT_HOURS - i)))%Q.
Definition in_hour (now t : Q) (i : nat) : bool :=
  qle (hour_start now i) t && qlt t (hour_start now (S i)).

(** The values of an hour, in the order of the records. *)
Definition hour_values (telemetry_option : pystr) (now : Q) (i : nat) (rows : list pyval) : list Q :=
  omap (λ r, match sample fromtimestamp telemetry_option r with
             | Some (t, v) => if in_hour now t i then Some v else None
             | None => None
             end) rows.

Lemma hour_of_find (f : nat → Q) t k n :
  hour_of (f <$> seq k (S n)) t k = List.find (λ i, qle (f i) t && qlt t (f (S i))) (seq k n).
Proof.
  revert k. induction n as [|n IH]; intros k; [done|].
  specialize (IH (S k)). rewrite <- cons_seq, fmap_cons. cbn [seq fmap list_fmap hour_of List.find].
  destruct (qle (f k) t && qlt t (f (S k))); [done|]. exact IH.
Qed.

Lemma hour_start_mono now i j : (i ≤ j)%nat → (hour_start now i <= hour_start now j)%Q.
Proof.
  intros Hij. unfold hour_start. apply Qplus_le_compat; [lra|]. apply Qopp_le_compat.
  rewrite <- Zle_Qle. unfold SECONDS_PER_HOUR, SECONDS_PER_MINUTE. lia.
Qed.

Lemma in_hour_unique now t i j : in_hour now t i = true → in_hour now t j = true → i = j.
Proof.
  assert (H : ∀ a b, (a < b)%nat → in_hour now t a = true → in_hour now t b = true → False).
  { unfold in_hour, qle, qlt. intros a b Hab [_ Ha]%andb_true_iff [Hb _]%andb_true_iff.
    apply negb_true_iff, not_true_iff_false in Ha. apply Ha. apply Qle_bool_iff. apply Qle_bool_iff in Hb.
    eapply Qle_trans; [|exact Hb]. apply hour_start_mono. lia. }
  intros Hi Hj. destruct (lt_eq_lt_dec i j) as [[?|?]|?]; [|done|]; exfalso; eauto.
Qed.

Lemma hour_of_iff now t i :
  hour_of (_generate_timeperiods now TELEMETRY_DEFAULT_HOURS) t 0 = Some i
  ↔ (i < TELEMETRY_DEFAULT_HOURS)%nat ∧ in_hour now t i = true.
Proof.
  unfold _generate_timeperiods. rewrite hour_of_find.
  change (λ i0, qle _ t && qlt t _) with (in_hour now t). split.
  - intros [Hin Hi]%find_some. apply in_seq in Hin. split; [lia|done].
  - intros [Hlt Hi]. destruct (List.find _ _) as [j|] eqn:E.
    + apply find_some in E as [_ Hj]. f_equal. by eapply in_hour_unique.
    + exfalso. assert (Hin : In i (seq 0 TELEMETRY_DEFAULT_HOURS)) by (apply in_seq; lia).
      pose proof (find_none _ _ E _ Hin) as Hn. cbv beta in Hn. congruence.
Qed.

Lemma calculate_averages_lookup opt now rows hourly i :
  (i < TELEMETRY_DEFAULT_HOURS)%nat →
  default [] (calculate_averages fromtimestamp opt (_generate_timeperiods now TELEMETRY_DEFAULT_HOURS)
                rows hourly !! i)
  = default [] (hourly !! i) ++ hour_values opt now i rows.
Proof.
  intros Hi. unfold calculate_averages. revert hourly.
  induction rows as [|r rows IH]; intros hourly; [cbn; by rewrite app_nil_r|].
  cbn [foldl]. rewrite IH. unfold hour_values at 2. cbn [omap list_omap].
  destruct (sample _ _ r) as [[t v]|]; [|done].
  destruct (hour_of _ t 0) as [j|] eqn:E.
  - apply hour_of_iff in E as [Hj Ht]. destruct (in_hour now t i) eqn:Eti.
    + pose proof (in_hour_unique _ _ _ _ Ht Eti) as ->. rewrite lookup_insert_eq.
      cbn [default from_option id]. by rewrite <- app_assoc.
    + rewrite lookup_insert_ne; [done|]. intros ->. congruence.
  - destruct (in_hour now t i) eqn:Eti; [|done]. exfalso.
    assert (H : hour_of (_generate_timeperiods now TELEMETRY_DEFAULT_HOURS) t 0 = Some i)
      by (by apply hour_of_iff). congruence.
Qed.

(** Every list that is kept has a value. *)
Lemma calculate_averages_nonempty opt intervals rows hourly :
  (∀ i l, hourly !! i = Some l → l ≠ []) →
  ∀ i l, calculate_averages fromtimestamp opt intervals rows hourly !! i = Some l → l ≠ [].
Proof.
  unfold calculate_averages. revert hourly.
  induction rows as [|r rows IH]; intros hourly Hh; [done|]. cbn [foldl]. apply IH.
  destruct (sample _ _ r) as [[t v]|]; [|done]. destruct (hour_of _ t 0) as [j|]; [|done].
  intros i l. destruct (decide (j = i)) as [->|Hne].
  - rewrite lookup_insert_eq. intros [= <-]. by destruct (default [] _).
  - rewrite lookup_insert_ne by done. apply Hh.
Qed.

(** The graph shows, for each of the last twelve hours, the mean of the values recorded
    in that hour - all of them, each in one hour only - and zero for an hour without any. *)
Theorem telemetry_curve_exact now opt (data : list (list pyval)) :
  telemetry_curve fromtimestamp now opt data
  = (λ i, match hour_values opt now i (concat data) with [] => 0%Q | vs => mean vs end)
      <$> seq 0 TELEMETRY_DEFAULT_HOURS.
Proof.
  unfold telemetry_curve, final_averages. cbv zeta.
  set (intervals := _generate_timeperiods now TELEMETRY_DEFAULT_HOURS).
  assert (Hlen : (length intervals - 1)%nat = TELEMETRY_DEFAULT_HOURS) by done.
  rewrite Hlen. clear Hlen. apply list_fmap_ext. intros k i Hk. apply lookup_seq in Hk as [-> Hk].
  set (step := λ (hourly : gmap nat (list Q)) rows, calculate_averages fromtimestamp opt intervals rows hourly).
  assert (H : ∀ hourly, (∀ i l, hourly !! i = Some l → l ≠ []) →
    default [] (foldl step hourly data !! (0 + k)%nat)
      = default [] (hourly !! (0 + k)%nat) ++ hour_values opt now (0 + k)%nat (concat data) ∧
    ∀ i l, foldl step hourly data !! i = Some l → l ≠ []).
  { induction data as [|rows data IH]; intros hourly Hh; [cbn; by rewrite app_nil_r|].
    cbn [foldl concat]. destruct (IH (step hourly rows)) as [Hl Hne].
    { by apply calculate_averages_nonempty. }
    split; [|exact Hne]. rewrite Hl. unfold step, intervals. rewrite calculate_averages_lookup by (simpl; lia).
    unfold hour_values. rewrite <- app_assoc. f_equal. by rewrite omap_app. }
  destruct (H ∅) as [Hl Hne]; [by intros ? ?; rewrite lookup_empty|].
  rewrite lookup_empty in Hl. cbn [default from_option app] in Hl.
  destruct (foldl step ∅ data !! (0 + k)%nat) as [l|] eqn:E; cbn [default from_option id] in Hl.
  - rewrite <- Hl. apply Hne in E. by destruct l.
  - by rewrite <- Hl.
Qed.
End curve.

(** ** The median *)

#[global] Instance q_le_total : Total q_le.
Proof.
  intros a b. unfold q_le, qle. destruct (Qlt_le_dec a b) as [H|H]; [left|right]; apply Qle_bool_iff; lra.
Qed.
#[global] Instance q_le_trans : Transitive q_le.
Proof. intros a b c Ha Hb. apply Qle_bool_iff in Ha, Hb. apply Qle_bool_iff. lra. Qed.
#[global] Instance q_le_refl : Reflexive q_le.
Proof. intros a. apply Qle_bool_iff. lra. Qed.

Lemma sorted_lookup (l : list Q) i j a b :
  StronglySorted q_le l → (i ≤ j)%nat → l !! i = Some a → l !! j = Some b → q_le a b.
Proof.
  intros Hs. revert i j. induction Hs as [|x l _ IH Hx]; intros i j Hij Ha Hb; [done|].
  destruct i as [|i], j as [|j]; cbn in *; try lia.
  - injection Ha as <-. injection Hb as <-. reflexivity.
  - injection Ha as <-. eapply (proj1 (Forall_lookup _ _) Hx); eauto.
  - apply (IH i j); [lia|done..].
Qed.

(** At least the first, or the last, [k] elements satisfy [P]. *)
Lemma filter_prefix {A} (P : A → bool) (l : list A) k :
  (k ≤ length l)%nat → (∀ i x, (i < k)%nat → l !! i = Some x → P x = true) →
  (k ≤ length (List.filter P l))%nat.
Proof.
  revert k. induction l as [|y l IH]; intros k Hk H; [done|]. destruct k as [|k]; [lia|]. cbn.
  rewrite (H 0%nat y) by (done || lia). cbn. apply le_n_S, IH; [simpl in Hk; lia|].
  intros i x Hi Hx. apply (H (S i)); [lia|done].
Qed.

Lemma filter_suffix {A} (P : A → bool) (l : list A) k :
  (∀ i x, (k ≤ i)%nat → l !! i = Some x → P x = true) → (length l - k ≤ length (List.filter P l))%nat.
Proof.
  revert k. induction l as [|y l IH]; intros k H; [simpl; lia|]. destruct k as [|k]; cbn.
  - rewrite (H 0%nat y) by (done || lia). cbn. specialize (IH 0%nat). rewrite Nat.sub_0_r in IH.
    apply le_n_S, IH. intros i x _ Hx. apply (H (S i)); [lia|done].
  - specialize (IH k). destruct (P y); cbn; [etrans; [apply IH|lia]|apply IH];
      intros i x Hi Hx; apply (H (S i)); (done || lia).
Qed.

Lemma filter_length_perm {A} (P : A → bool) (l l' : list A) :
  l ≡ₚ l' → length (List.filter P l) = length (List.filter P l').
Proof.
  induction 1 as [|x l l' _ IH|x y l|l l' l'' _ IH1 _ IH2]; cbn; [done|..|congruence].
  - destruct (P x); cbn; congruence.
  - by destruct (P x), (P y).
Qed.

(** The median in the health report splits the values in the middle: at least half of them are
    not above it, and at least half are not below. *)
Theorem median_splits (l : list Q) :
  l ≠ [] →
  (length l ≤ 2 * length (List.filter (λ x, qle x (median l)) l))%nat ∧
  (length l ≤ 2 * length (List.filter (λ x, qle (median l) x) l))%nat.
Proof.
  intros Hne. set (m := median l). unfold median in m.
  set (s := merge_sort q_le l) in m. pose proof (merge_sort_Permutation q_le l) as Hp. fold s in Hp.
  assert (Hs : StronglySorted q_le s) by (apply (StronglySorted_merge_sort q_le)).
  rewrite <- !(filter_length_perm _ s l Hp), <- (Permutation_length Hp).
  assert (Hlen : (0 < length s)%nat).
  { rewrite (Permutation_length Hp). destruct l; [done|simpl; lia]. }
  set (n := length s) in *. cbv zeta in m.
  assert (Hat : ∀ i, (i < n)%nat → s !! i = Some (default 0%Q (s !! i))).
  { intros i Hi. destruct (lookup_lt_is_Some_2 s i Hi) as [x Hx]. by rewrite Hx. }
  set (lo := default 0%Q (s !! (if Nat.odd n then n / 2 else n / 2 - 1)%nat)).
  set (hi := default 0%Q (s !! (n / 2)%nat)).
  assert (Hdiv : (n = 2 * (n / 2) + (if Nat.odd n then 1 else 0))%nat).
  { rewrite (Nat.div_mod_eq n 2) at 1. f_equal. rewrite <- Nat.bit0_mod, Nat.bit0_odd. by destruct (Nat.odd n). }
  assert (Hlohi : q_le lo hi).
  { unfold lo, hi. destruct (Nat.odd n); [reflexivity|].
    eapply (sorted_lookup s (n / 2 - 1) (n / 2)); [done|lia|apply Hat; lia|apply Hat; lia]. }
  assert (Hm : q_le lo m ∧ q_le m hi).
  { unfold q_le, qle in *. rewrite Qle_bool_iff in Hlohi. rewrite !Qle_bool_iff. revert Hlohi.
    unfold m, lo, hi. fold n. destruct (Nat.odd n); intros Hlohi; [split; apply Qle_refl|].
    set (x := default 0%Q (s !! (n / 2 - 1)%nat)) in *. set (y := default 0%Q (s !! (n / 2)%nat)) in *.
    assert (E : ((x + y) / 2 == (1 # 2) * x + (1 # 2) * y)%Q) by field. rewrite E. split; lra. }
  destruct Hm as [Hlo Hhi]. split.
  - pose proof (filter_prefix (λ x, qle x m) s (S (if Nat.odd n then n / 2 else n / 2 - 1))) as H.
    assert (Hk : (n ≤ 2 * S (if Nat.odd n then n / 2 else n / 2 - 1))%nat) by (destruct (Nat.odd n); lia).
    etrans; [exact Hk|]. apply Nat.mul_le_mono_l, H; [fold n; destruct (Nat.odd n); lia|].
    intros i x Hi Hx. apply (q_le_trans _ lo); [|done].
    eapply (sorted_lookup s i); [done| |exact Hx|apply Hat; destruct (Nat.odd n); lia]. lia.
  - pose proof (filter_suffix (λ x, qle m x) s (n / 2)) as H. fold n in H.
    assert (Hk : (n ≤ 2 * (n - n / 2))%nat) by (destruct (Nat.odd n); lia).
    etrans; [exact Hk|]. apply Nat.mul_le_mono_l, H.
    intros i x Hi Hx. apply (q_le_trans _ hi); [done|].
    eapply (sorted_lookup s (n / 2) i); [done|done|apply Hat; destruct (Nat.odd n); lia|exact Hx].
Qed.

(** ** Examples and witnesses *)

Example demo_relative_times :
  get_relative_time 1000 (1000 - 59) [] = u "Just now" ∧
  get_relative_time 100000 (100000 - 3700) [] = u "1 hour ago" ∧
  get_relative_time 100000 (100000 + 5) [] = u "Just now" ∧
  get_relative_time 1000000 (1000000 - 172800) [] = u "2 days ago".
Proof. vm_compute. done. Qed.

Example demo_fixed :
  fixed 1 (165 # 2) = u "82.5" ∧ fixed 2 (1 # 8) = u "0.12" ∧ fixed 2 (- 3 # 1) = u "-3.00" ∧
  fixed 2 (1 # 100) = u "0.01".
Proof. vm_compute. done. Qed.

Example demo_health :
  health_response (Some [[(u "snr", VInt 5); (u "deviceMetrics", VDict [(u "batteryLevel", VInt 8)])];
                         [(u "snr", VFloat (FFin (13 # 2)))]])
  = Ok (u "Nodes: 2" ++ [10] ++ u " Battery: 8.0% / 8.0% (avg / median)" ++ [10] ++
        u " Nodes with Low Battery (<= 10%): 1" ++ [10] ++ u " Air Util: N/A" ++ [10] ++
        u " SNR: 5.75 / 5.75 (avg / median)").
Proof. vm_compute. done. Qed.

Example demo_nodes :
  nodes_response (λ _, []) (λ _, None) (λ _, []) 0
    (Some [VDict [(u "user", VDict [(u "shortName", VStr (u "AB")); (u "hwModel", VStr (u "TBEAM"))]);
                  (u "hopsAway", VInt 0)]])
  = Ok (u "Nodes: 1" ++ [10] ++ u "AB Unknown / TBEAM / ?% ?V / direct / ?" ++ [10]).
Proof. vm_compute. done. Qed.

Example demo_help :
  let plugins := [{| lp_commands := [u "ping"]; lp_description := u "Pong" |};
                  {| lp_commands := [u "help"; u "ping"]; lp_description := [] |}] in
  help_reply plugins [] = u "Available commands: help, ping" ∧
  help_reply plugins (u "ping") = u "`!ping`: Pong" ∧
  help_reply plugins (u "x") = u "No such command: x".
Proof. vm_compute. done. Qed.

Lemma relative_time_exact_witness :
  ∃ n unit seconds,
    (unit, seconds) ∈ [(u "minute", SECONDS_PER_MINUTE); (u "hour", SECONDS_PER_HOUR); (u "day", SECONDS_PER_DAY)] ∧
    get_relative_time 7300 0 [] = units_ago n unit ∧
    1 ≤ n ∧ n * seconds ≤ truncate (7300 - 0) < (n + 1) * seconds ∧
    (seconds < SECONDS_PER_DAY → truncate (7300 - 0) < 24 * seconds ∨ seconds = SECONDS_PER_MINUTE ∧
       truncate (7300 - 0) < SECONDS_PER_HOUR).
Proof. apply (relative_time_exact 7300 0 []). split; vm_compute; discriminate. Defined.

Lemma median_splits_witness :
  (3 ≤ 2 * length (List.filter (λ x, qle x (median [3; 1; 2]%Q)) [3; 1; 2]%Q))%nat ∧
  (3 ≤ 2 * length (List.filter (λ x, qle (median [3; 1; 2]%Q) x) [3; 1; 2]%Q))%nat.
Proof. apply (median_splits [3; 1; 2]%Q). discriminate. Defined.
