(* ===== verification/Connect.v ===== *)
(** * Connecting to the radio

    Models [_connect_meshtastic_impl] of [src/mmrelay/meshtastic/connection.py]: the settings it
    reads, the loop of its attempts with the policy that decides after an error, the set-up of a new
    client under the lock with its checks for a shutdown, and the rollback of a failed
    attempt; and the delays between attempts.

    What an attempt meets is its [attempt_env]: whether opening the device gave a client (and what
    the shared Bluetooth interface is afterwards), the errors of the calls on the client, the clock,
    and what [shutting_down] was at each place where it is read.  The opening itself - device I/O
    through third-party packages, with the worker that guards it for Bluetooth - is not modelled
    beyond that, nor are exceptions of closing a client, which are swallowed.  [ln_opened]
    and [ln_closed] record the clients opened and closed. *)

From Stdlib Require Import String QArith Lqa.
From stdpp Require Import base tactics list numbers gmap.
From S2P Require Import Prelude PyStr PyValue Coerce Health BasePlugin MeshRelay.
Open Scope Z_scope.

Definition INFINITE_RETRIES : Z := 0.
Definition MAX_TIMEOUT_RETRIES_INFINITE : Z := 5.
Definition DEFAULT_MESHTASTIC_TIMEOUT : Z := 300.
Definition DEFAULT_TCP_PORT : Z := 4403.
Definition CONNECTION_RETRY_BACKOFF_BASE : Z := 2.
Definition CONNECTION_RETRY_BACKOFF_MAX_SECS : Z := 60.
Definition STARTUP_PACKET_DRAIN_SECS : Q := 15.
Definition RECONNECT_PRESTART_BOOTSTRAP_WINDOW_SECS : Q := 5.

(** ** Settings *)

(** What is opened. *)
Inductive target :=
  | SerialPort (port : pyval) | BleAddress (address : pyval) | TcpHost (host : pyval) (port : res Z)
  | NoTarget.

Definition tcp_port (configured_port : pyval) : res Z :=
  match configured_port with
  | VNone => Ok DEFAULT_TCP_PORT
  | v =>
      match int_of_val v with
      | Ok p => Ok (if (p <=? 0) || (65535 <? p) then DEFAULT_TCP_PORT else p)
      | Raise e => if is_type_or_value e then Ok DEFAULT_TCP_PORT else Raise e
      end
  end.

(** [if not value: return None] *)
Definition if_given (v : pyval) (t : target) : target := if truthy v then t else NoTarget.

(** The section of the configuration and the type of the connection; [None]: no connection can be
    made. *)
Definition connection_section (config : option pydict) : res (option (pydict * pyval)) :=
  match config with
  | None => Ok None
  | Some config =>
      match dget_none config (u "meshtastic") with
      | VNone => Ok None
      | section =>
          let! has := py_contains section (u "connection_type") in
          if negb has then Ok None else
          let! connection_type := py_getitem section (u "connection_type") in
          let! d := as_dict section in
          match connection_type with VNone => Ok None | t => Ok (Some (d, t)) end
      end
  end.

Definition connection_target (section : pydict) (connection_type : pyval) : target :=
  if py_eqb connection_type (VStr (u "serial")) then
    let port := dget_none section (u "serial_port") in if_given port (SerialPort port)
  else if py_eqb connection_type (VStr (u "ble")) then
    let address := dget_none section (u "ble_address") in if_given address (BleAddress address)
  else if py_eqb connection_type (VStr (u "tcp")) || py_eqb connection_type (VStr (u "network")) then
    let host := dget_none section (u "host") in
    if_given host (TcpHost host (tcp_port (dget_none section (u "port"))))
  else NoTarget.

(** [int(v)], with a default for TypeError and ValueError; an infinite float raises. *)
Definition int_or (v : pyval) (dflt : Z) : res Z := catching is_type_or_value dflt (int_of_val v).

Definition retry_limit (section : pydict) : res Z :=
  let raw := match dget_none section (u "retries") with
             | VNone => dget_or section (u "retry_limit") (VInt INFINITE_RETRIES)
             | v => v
             end in
  int_or raw INFINITE_RETRIES.

Definition connect_timeout (section : pydict) : res Z :=
  let! timeout := int_or (dget_or section (u "timeout") (VInt DEFAULT_MESHTASTIC_TIMEOUT))
                    DEFAULT_MESHTASTIC_TIMEOUT in
  Ok (if timeout <=? 0 then DEFAULT_MESHTASTIC_TIMEOUT else timeout).

(** ** Delay between attempts *)

(** [math.ceil(math.log(m, b))] for [b > 1], [m > 0]: the least exponent that reaches [m]. *)
Fixpoint ceil_log (fuel : nat) (b m p : Z) : Z :=
  match fuel with
  | O => 0
  | S fuel => if m <=? p then 0 else 1 + ceil_log fuel b m (p * b)
  end.

Definition _get_connection_retry_wait_time (base max_secs attempts : Z) : Z :=
  if (attempts <=? 0) || (max_secs <=? 0) then 0
  else if base <=? 1 then Z.min (base ^ attempts) max_secs
  else
    let max_capped_attempt := ceil_log (Z.to_nat max_secs) base max_secs 1 in
    Z.min (base ^ Z.min attempts max_capped_attempt) max_secs.

Definition retry_wait (attempts : Z) : Z :=
  _get_connection_retry_wait_time CONNECTION_RETRY_BACKOFF_BASE CONNECTION_RETRY_BACKOFF_MAX_SECS attempts.

(** ** What to do after an error *)

(** The typed exceptions of the Bluetooth library. *)
Inductive typed_ble :=
  | AddressMismatch | DiscoveryOrNotFound | ConnectionTimeout | DBusTransport | ConnectionSuppressed.

Inductive conn_error :=
  | Refused                                   (* ConnectionRefusedError *)
  | Critical                                  (* MemoryError, BleExecutorDegradedError *)
  | ShutdownWait                              (* FutureWaitShutdownError *)
  | DiscoveryTransient                        (* BLEDiscoveryTransientError *)
  | Timeout (typed : bool)                    (* is or wraps BLEConnectionTimeoutError *)
  | Other (typed : option typed_ble).

(** [return None], [break], or [continue] after a delay. *)
Inductive action := Return | Break | Continue (wait_time : Z).

Record counters := { attempts : Z; timeout_attempts : Z }.

(** Another attempt is counted. *)
Definition count_attempt (limit : Z) (c : counters) : action * counters :=
  let c := {| attempts := attempts c + 1; timeout_attempts := timeout_attempts c |} in
  (if (limit =? INFINITE_RETRIES) || (attempts c <=? limit) then Continue (retry_wait (attempts c))
   else Return, c).

(** With unlimited retries the timeouts have a limit of their own. *)
Definition count_timeout (limit : Z) (c : counters) : action * counters :=
  let n := attempts c + 1 in
  if limit =? INFINITE_RETRIES then
    let t := timeout_attempts c + 1 in
    (if MAX_TIMEOUT_RETRIES_INFINITE <? t then Return else Continue (retry_wait n),
     {| attempts := n; timeout_attempts := t |})
  else (if limit <? n then Return else Continue (retry_wait n),
        {| attempts := n; timeout_attempts := timeout_attempts c |}).

Definition _handle_typed_ble_exception_after_rollback (shutting_down : bool) (limit : Z)
    (err : typed_ble) (c : counters) : action * counters :=
  match err with
  | AddressMismatch => (Return, c)
  | _ =>
      if shutting_down then (Break, c) else
      match err with
      | ConnectionTimeout => count_timeout limit c
      | _ => count_attempt limit c
      end
  end.

(** The handlers of the loop, after the rollback. *)
Definition after_error (shutting_down : bool) (limit : Z) (err : conn_error) (c : counters)
    : action * counters :=
  match err with
  | Refused | Critical => (Return, c)
  | ShutdownWait => (Break, c)
  | DiscoveryTransient => if shutting_down then (Break, c) else count_attempt limit c
  | Timeout true => _handle_typed_ble_exception_after_rollback shutting_down limit ConnectionTimeout c
  | Timeout false => if shutting_down then (Break, c) else count_timeout limit c
  | Other (Some t) => _handle_typed_ble_exception_after_rollback shutting_down limit t c
  | Other None => if shutting_down then (Break, c) else count_attempt limit c
  end.

(** ** Set-up of a client *)

Record link := {
  ln_client : option Z; ln_iface : option Z; ln_active_client_id : option Z;
  ln_clock : relay_clock; ln_drain_applied : bool; ln_probe_timer : bool; ln_subscribed : bool;
  ln_tearing_down : bool; ln_opened : list Z; ln_closed : list Z }.

Inductive open_result := Opened (client : Z) | OpenFails (e : conn_error).

Record attempt_env := {
  ae_loop_shut : bool;                 (* shutting_down at the loop's test *)
  ae_open : open_result; ae_iface : option Z;
  ae_wrong_device : bool;              (* the address validation of a Bluetooth client fails *)
  ae_time : Q; ae_monotonic : Q;
  ae_publish_shut : bool; ae_info_error : option conn_error; ae_info_shut : bool;
  ae_metadata_error : option conn_error; ae_metadata_shut : bool;
  ae_drain_monotonic : Q; ae_subscribe_shut : bool; ae_subscribe_error : option conn_error;
  ae_probe_timer : bool;               (* the probe of the new connection is put off *)
  ae_error_shut : bool }.              (* in the handlers *)

(** What this attempt has done so far. *)
Record progress := {
  pr_assigned : bool; pr_drain_armed : bool; pr_drain_applied : bool; pr_bootstrap_armed : bool }.

Definition with_iface (v : option Z) (s : link) : link :=
  {| ln_client := ln_client s; ln_iface := v; ln_active_client_id := ln_active_client_id s;
     ln_clock := ln_clock s; ln_drain_applied := ln_drain_applied s; ln_probe_timer := ln_probe_timer s;
     ln_subscribed := ln_subscribed s; ln_tearing_down := ln_tearing_down s;
     ln_opened := ln_opened s; ln_closed := ln_closed s |}.
Definition with_clock (v : relay_clock) (s : link) : link :=
  {| ln_client := ln_client s; ln_iface := ln_iface s; ln_active_client_id := ln_active_client_id s;
     ln_clock := v; ln_drain_applied := ln_drain_applied s; ln_probe_timer := ln_probe_timer s;
     ln_subscribed := ln_subscribed s; ln_tearing_down := ln_tearing_down s;
     ln_opened := ln_opened s; ln_closed := ln_closed s |}.
Definition with_client (v : option Z) (s : link) : link :=
  {| ln_client := v; ln_iface := ln_iface s; ln_active_client_id := v;
     ln_clock := ln_clock s; ln_drain_applied := ln_drain_applied s; ln_probe_timer := ln_probe_timer s;
     ln_subscribed := ln_subscribed s; ln_tearing_down := ln_tearing_down s;
     ln_opened := ln_opened s; ln_closed := ln_closed s |}.
Definition with_applied (v : bool) (s : link) : link :=
  {| ln_client := ln_client s; ln_iface := ln_iface s; ln_active_client_id := ln_active_client_id s;
     ln_clock := ln_clock s; ln_drain_applied := v; ln_probe_timer := ln_probe_timer s;
     ln_subscribed := ln_subscribed s; ln_tearing_down := ln_tearing_down s;
     ln_opened := ln_opened s; ln_closed := ln_closed s |}.
Definition with_probe_timer (v : bool) (s : link) : link :=
  {| ln_client := ln_client s; ln_iface := ln_iface s; ln_active_client_id := ln_active_client_id s;
     ln_clock := ln_clock s; ln_drain_applied := ln_drain_applied s; ln_probe_timer := v;
     ln_subscribed := ln_subscribed s; ln_tearing_down := ln_tearing_down s;
     ln_opened := ln_opened s; ln_closed := ln_closed s |}.
Definition log_open (c : Z) (s : link) : link :=
  {| ln_client := ln_client s; ln_iface := ln_iface s; ln_active_client_id := ln_active_client_id s;
     ln_clock := ln_clock s; ln_drain_applied := ln_drain_applied s; ln_probe_timer := ln_probe_timer s;
     ln_subscribed := ln_subscribed s; ln_tearing_down := ln_tearing_down s;
     ln_opened := ln_opened s ++ [c]; ln_closed := ln_closed s |}.

Definition is_iface (c : Z) (s : link) : bool := bool_decide (ln_iface s = Some c).

(** A client is closed: the shared interface is disconnected and forgotten. *)
Definition close_client (c : Z) (s : link) : link :=
  {| ln_client := ln_client s; ln_iface := if is_iface c s then None else ln_iface s;
     ln_active_client_id := ln_active_client_id s;
     ln_clock := ln_clock s; ln_drain_applied := ln_drain_applied s; ln_probe_timer := ln_probe_timer s;
     ln_subscribed := ln_subscribed s; ln_tearing_down := ln_tearing_down s;
     ln_opened := ln_opened s; ln_closed := ln_closed s ++ [c] |}.

Definition set_drain (deadline : option Q) (timer : option bool) (complete : bool) (c : relay_clock)
    : relay_clock :=
  {| rc_start_time := rc_start_time c; rc_skew := rc_skew c;
     rc_connection_started := rc_connection_started c; rc_drain_deadline := deadline;
     rc_drain_timer := timer; rc_bootstrap_deadline := rc_bootstrap_deadline c;
     rc_drain_complete := complete; rc_probes := rc_probes c |}.

Definition ensure_meshtastic_callbacks_subscribed (s : link) : link :=
  {| ln_client := ln_client s; ln_iface := ln_iface s; ln_active_client_id := ln_active_client_id s;
     ln_clock := ln_clock s; ln_drain_applied := ln_drain_applied s; ln_probe_timer := ln_probe_timer s;
     ln_subscribed := true; ln_tearing_down := false;
     ln_opened := ln_opened s; ln_closed := ln_closed s |}.

Definition _rollback_connect_attempt_state (client : option Z) (p : progress) (s : link) : link :=
  let s :=
    match client with
    | Some c =>
        if (pr_assigned p || is_iface c s) && (bool_decide (ln_client s = Some c) || is_iface c s) then
          let published := bool_decide (ln_client s = Some c) in
          let s := close_client c s in
          if published then with_client None s else s
        else s
    | None => s
    end in
  let s :=
    if pr_drain_armed p then
      let s := with_clock (set_drain None None true (ln_clock s)) s in
      if pr_drain_applied p then with_applied false s else s
    else s in
  let s := if pr_bootstrap_armed p then with_clock (set_bootstrap None (ln_clock s)) s else s in
  with_probe_timer false s.

(** The timing of a new connection; whether the start-up drain is still to come, and
    whether the window of a reconnection has been opened. *)
Definition init_clock (now mono : Q) (drain_applied : bool) (c : relay_clock)
    : relay_clock * bool * bool :=
  let fresh drain bootstrap complete :=
    {| rc_start_time := now; rc_skew := None; rc_connection_started := mono;
       rc_drain_deadline := drain; rc_drain_timer := rc_drain_timer c;
       rc_bootstrap_deadline := bootstrap; rc_drain_complete := complete; rc_probes := ∅ |} in
  let window := Some (mono + RECONNECT_PRESTART_BOOTSTRAP_WINDOW_SECS)%Q in
  if negb drain_applied then (fresh None None (rc_drain_complete c), true, false)
  else
    let active_startup_drain :=
      match rc_drain_deadline c with Some d => qlt mono d | None => false end in
    if active_startup_drain then (fresh (rc_drain_deadline c) window (rc_drain_complete c), false, true)
    else (fresh None window true, false, true).

Inductive outcome := Connected | Stopped | Failed (e : conn_error) (p : progress).

(** The set-up of [client] under the lock. *)
Definition setup_client (env : attempt_env) (client : Z) (s : link) : link * outcome :=
  let none := {| pr_assigned := false; pr_drain_armed := false; pr_drain_applied := false;
                 pr_bootstrap_armed := false |} in
  if ae_wrong_device env then (close_client client s, Failed Refused none) else
  let '(clock, drain_pending, bootstrap) :=
    init_clock (ae_time env) (ae_monotonic env) (ln_drain_applied s) (ln_clock s) in
  let s := with_clock clock s in
  if ae_publish_shut env then
    let s := close_client client s in
    (if bootstrap then with_clock (set_bootstrap None (ln_clock s)) s else s, Stopped)
  else
  let s := with_client (Some client) s in
  let p := {| pr_assigned := true; pr_drain_armed := false; pr_drain_applied := false;
              pr_bootstrap_armed := bootstrap |} in
  match ae_info_error env with
  | Some e => (s, Failed e p)
  | None =>
      if ae_info_shut env then (_rollback_connect_attempt_state (Some client) p s, Stopped) else
      match ae_metadata_error env with
      | Some e => (s, Failed e p)
      | None =>
          if ae_metadata_shut env then (_rollback_connect_attempt_state (Some client) p s, Stopped) else
          let arm := drain_pending && negb (ln_drain_applied s) in
          let s :=
            if arm then
              with_applied true
                (with_clock (set_drain (Some (ae_drain_monotonic env + STARTUP_PACKET_DRAIN_SECS)%Q)
                   (Some true) false (ln_clock s)) s)
            else s in
          let p := {| pr_assigned := true; pr_drain_armed := arm; pr_drain_applied := arm;
                      pr_bootstrap_armed := bootstrap |} in
          if ae_subscribe_shut env then (_rollback_connect_attempt_state (Some client) p s, Stopped) else
          let s := ensure_meshtastic_callbacks_subscribed s in
          match ae_subscribe_error env with
          | Some e => (s, Failed e p)
          | None => (with_probe_timer (ln_probe_timer s || ae_probe_timer env) s, Connected)
          end
      end
  end.

(** One turn of the loop, up to the handlers' rollback. *)
Definition attempt (env : attempt_env) (s : link) : link * option (option conn_error) :=
  let s := with_iface (ae_iface env) s in
  let none := {| pr_assigned := false; pr_drain_armed := false; pr_drain_applied := false;
                 pr_bootstrap_armed := false |} in
  match ae_open env with
  | OpenFails e => (_rollback_connect_attempt_state None none s, Some (Some e))
  | Opened client =>
      match setup_client env client (log_open client s) with
      | (s, Connected) => (s, None)
      | (s, Stopped) => (s, Some None)
      | (s, Failed e p) => (_rollback_connect_attempt_state (Some client) p s, Some (Some e))
      end
  end.

(** The loop: the state and the client that is returned; [None] when the fuel is used up.
    [envs k] is what the [k]-th attempt meets. *)
Fixpoint connect_loop (fuel : nat) (limit : Z) (envs : nat → attempt_env) (k : nat) (c : counters)
    (s : link) : option (link * option Z) :=
  if negb ((limit =? 0) || (attempts c <=? limit)) || ae_loop_shut (envs k) then Some (s, ln_client s)
  else
  match fuel with
  | O => None
  | S fuel =>
      match attempt (envs k) s with
      | (s, None) => Some (s, ln_client s)
      | (s, Some None) => Some (s, None)
      | (s, Some (Some e)) =>
          match after_error (ae_error_shut (envs k)) limit e c with
          | (Return, _) => Some (s, None)
          | (Break, _) => Some (s, ln_client s)
          | (Continue _, c) => connect_loop fuel limit envs (S k) c s
          end
      end
  end.

(** [_connect_meshtastic_impl], with the configuration already taken over.  An exception of the
    settings is raised; it leaves the previous client closed. *)
Definition _connect_meshtastic_impl (fuel : nat) (shutting_down reconnecting force_connect : bool)
    (config : option pydict) (envs : nat → attempt_env) (s : link)
    : res (option (link * option Z)) :=
  if shutting_down then Ok (Some (s, None))
  else if reconnecting && negb force_connect then Ok (Some (s, None))
  else
  match ln_client s, force_connect with
  | Some c, false => Ok (Some (s, Some c))
  | _, _ =>
      let s := match ln_client s with
               | Some c => with_client None (close_client c s)
               | None => s
               end in
      let! section := connection_section config in
      match section with
      | None => Ok (Some (s, None))
      | Some (section, connection_type) =>
          let! limit := retry_limit section in
          let! timeout := connect_timeout section in
          match connection_target section connection_type with
          | NoTarget =>
              if ((limit =? 0) || (0 <=? limit)) && negb (ae_loop_shut (envs 0%nat))
              then Ok (Some (s, None)) else Ok (Some (s, ln_client s))
          | _ => Ok (connect_loop fuel limit envs 0 {| attempts := 0; timeout_attempts := 0 |} s)
          end
      end
  end.


(** ** Delays *)

Lemma ceil_log_reaches fuel b m p :
  1 < b → 0 < p → m ≤ p + Z.of_nat fuel → m ≤ p * b ^ ceil_log fuel b m p ∧ 0 ≤ ceil_log fuel b m p.
Proof.
  intros Hb. revert p. induction fuel as [|fuel IH]; intros p Hp Hm; cbn [ceil_log].
  - rewrite Z.pow_0_r. lia.
  - destruct (Z.leb_spec m p); [rewrite Z.pow_0_r; lia|].
    destruct (IH (p * b)) as [H1 H2]; [nia|nia|]. split; [|lia].
    rewrite Z.pow_add_r, Z.pow_1_r by lia. lia.
Qed.

(** The delay computed with a capped exponent is the capped exponential, for every base
    and cap: the cap on the exponent never changes the result. *)
Theorem retry_wait_capped_exponential base max_secs n :
  0 < n → 0 < max_secs →
  _get_connection_retry_wait_time base max_secs n = Z.min (base ^ n) max_secs.
Proof.
  intros Hn Hm. unfold _get_connection_retry_wait_time.
  destruct (Z.leb_spec n 0); [lia|]. destruct (Z.leb_spec max_secs 0); [lia|]. cbn [orb].
  destruct (Z.leb_spec base 1); [done|]. cbv zeta.
  destruct (ceil_log_reaches (Z.to_nat max_secs) base max_secs 1) as [Hr Hk0]; [lia|lia|lia|].
  set (k := ceil_log _ _ _ _) in *. destruct (Z.min_spec n k) as [[Hlt ->]|[Hge ->]]; [done|].
  assert (Hpow : base ^ k ≤ base ^ n) by (apply Z.pow_le_mono_r; lia). lia.
Qed.

(** ** How often it is tried *)

Lemma typed_counts shut limit t c w c' :
  _handle_typed_ble_exception_after_rollback shut limit t c = (Continue w, c') →
  attempts c' = attempts c + 1.
Proof.
  unfold _handle_typed_ble_exception_after_rollback, count_attempt, count_timeout. cbv zeta.
  destruct t, shut; try done; repeat case_match; try done; by intros [= _ <-].
Qed.

Lemma after_error_counts shut limit e c w c' :
  after_error shut limit e c = (Continue w, c') → attempts c' = attempts c + 1.
Proof.
  destruct e as [| | | |[]|[t|]]; cbn [after_error]; try done; try apply typed_counts;
    unfold count_attempt, count_timeout; cbv zeta; repeat case_match; try done; by intros [= _ <-].
Qed.

(** C40: with a limit, connecting ends after at most that many retries, whatever the
    attempts meet: the loop has a result. *)
Theorem connect_terminates limit envs s :
  limit ≠ INFINITE_RETRIES →
  is_Some (connect_loop (S (Z.to_nat limit)) limit envs 0 {| attempts := 0; timeout_attempts := 0 |} s).
Proof.
  unfold INFINITE_RETRIES. intros Hl.
  cut (∀ fuel k c s, limit < attempts c + Z.of_nat fuel → is_Some (connect_loop fuel limit envs k c s)).
  { intros H. apply H. cbn [attempts]. lia. }
  induction fuel as [|fuel IH]; intros k c s' Hc; cbn [connect_loop].
  - destruct (Z.eqb_spec limit 0); [done|]. destruct (Z.leb_spec (attempts c) limit); [lia|]. by eexists.
  - destruct (_ || ae_loop_shut (envs k)); [by eexists|].
    destruct (attempt (envs k) s') as [s'' [[e|]|]]; [|by eexists..].
    destruct (after_error (ae_error_shut (envs k)) limit e c) as [[| |w] c'] eqn:E; [by eexists..|].
    apply after_error_counts in E. apply IH. lia.
Qed.

Definition is_timeout (e : conn_error) : bool :=
  match e with Timeout _ | Other (Some ConnectionTimeout) => true | _ => false end.

(** Without a limit, a radio that only ever times out is given up after the sixth
    timeout: the retries are unlimited for other errors alone. *)
Theorem timeouts_give_up envs s :
  (∀ k s1 s2 e, attempt (envs k) s1 = (s2, Some (Some e)) → is_timeout e = true) →
  is_Some (connect_loop 6 INFINITE_RETRIES envs 0 {| attempts := 0; timeout_attempts := 0 |} s).
Proof.
  intros Ht.
  cut (∀ fuel k c s, MAX_TIMEOUT_RETRIES_INFINITE < timeout_attempts c + Z.of_nat fuel → (0 < fuel)%nat →
         is_Some (connect_loop fuel INFINITE_RETRIES envs k c s)).
  { intros H. apply H; [vm_compute; done|lia]. }
  induction fuel as [|fuel IH]; intros k c s' Hc Hf; [lia|]. cbn [connect_loop].
  destruct (_ || ae_loop_shut (envs k)); [by eexists|].
  destruct (attempt (envs k) s') as [s'' [[e|]|]] eqn:Ea; [|by eexists..].
  apply Ht in Ea.
  assert (Hstep : ∀ c', count_timeout INFINITE_RETRIES c = c' →
    match c' with (Continue _, c') => is_Some (connect_loop fuel INFINITE_RETRIES envs (S k) c' s'') | _ => True end).
  { intros c' <-. unfold count_timeout. cbv zeta.
    change (INFINITE_RETRIES =? INFINITE_RETRIES) with true. cbn iota.
    destruct (Z.ltb_spec MAX_TIMEOUT_RETRIES_INFINITE (timeout_attempts c + 1)); [done|].
    apply IH; cbn [timeout_attempts]; lia. }
  assert (H : after_error (ae_error_shut (envs k)) INFINITE_RETRIES e c = (Break, c) ∨
              after_error (ae_error_shut (envs k)) INFINITE_RETRIES e c = count_timeout INFINITE_RETRIES c).
  { destruct e as [| | | |[]|[[]|]]; try done; cbn [after_error _handle_typed_ble_exception_after_rollback];
      destruct (ae_error_shut (envs k)); auto. }
  destruct H as [->| ->]; [by eexists|]. specialize (Hstep _ eq_refl).
  destruct (count_timeout INFINITE_RETRIES c) as [[| |w] c']; [by eexists..|done].
Qed.

(** ** Every client is closed or in use *)

(** The clients that were opened are the closed ones and the one in use; the guard of the
    callbacks follows the client. *)
Definition accounted (s : link) : Prop :=
  ln_opened s ≡ₚ ln_closed s ++ option_list (ln_client s) ∧ ln_active_client_id s = ln_client s.

(** No client is in use, and [extra] are open besides. *)
Definition idle (extra : list Z) (s : link) : Prop :=
  ln_client s = None ∧ ln_active_client_id s = None ∧ ln_opened s ≡ₚ ln_closed s ++ extra.

Lemma idle_accounted s : idle [] s → accounted s.
Proof. intros (Hc & Ha & Ho). split; [by rewrite Hc|by rewrite Ha, Hc]. Qed.

Definition no_progress : progress :=
  {| pr_assigned := false; pr_drain_armed := false; pr_drain_applied := false; pr_bootstrap_armed := false |}.

(** What the rollback does to the clients. *)
Lemma rollback_clients client p s :
  let s' := _rollback_connect_attempt_state client p s in
  match client with
  | Some c =>
      if (pr_assigned p || is_iface c s) && (bool_decide (ln_client s = Some c) || is_iface c s)
      then ln_closed s' = ln_closed s ++ [c] ∧
           ln_client s' = (if bool_decide (ln_client s = Some c) then None else ln_client s) ∧
           ln_active_client_id s' = (if bool_decide (ln_client s = Some c) then None else ln_active_client_id s)
      else ln_closed s' = ln_closed s ∧ ln_client s' = ln_client s ∧
           ln_active_client_id s' = ln_active_client_id s
  | None => ln_closed s' = ln_closed s ∧ ln_client s' = ln_client s ∧
            ln_active_client_id s' = ln_active_client_id s
  end ∧ ln_opened s' = ln_opened s.
Proof.
  unfold _rollback_connect_attempt_state. cbv zeta.
  destruct client as [c|]; [destruct (_ && _); [destruct (bool_decide _)|]|];
    destruct (pr_drain_armed p), (pr_drain_applied p), (pr_bootstrap_armed p); done.
Qed.

(** A client in use is closed and forgotten. *)
Lemma rollback_assigned c p s :
  pr_assigned p = true → ln_client s = Some c → ln_opened s ≡ₚ ln_closed s ++ [c] →
  idle [] (_rollback_connect_attempt_state (Some c) p s).
Proof.
  intros Hp Hc Ho. destruct (rollback_clients (Some c) p s) as [H1 H2].
  rewrite Hp, Hc, bool_decide_eq_true_2 in H1 by done. cbn [orb andb] in H1.
  destruct H1 as (Hcl & Hn & Ha). split_and!; [done..|]. by rewrite H2, Hcl, app_nil_r.
Qed.

Lemma setup_clients env c s :
  idle [c] s →
  match setup_client env c s with
  | (s', Connected) => ln_client s' = Some c ∧ accounted s'
  | (s', Stopped) => idle [] s'
  | (s', Failed _ p) => idle [] (_rollback_connect_attempt_state (Some c) p s')
  end.
Proof.
  intros (Hc & Ha & Ho). unfold setup_client. cbv zeta.
  destruct (ae_wrong_device env).
  { destruct (rollback_clients (Some c) no_progress (close_client c s)) as [H1 H2].
    assert (Hif : is_iface c (close_client c s) = false).
    { unfold is_iface at 1. unfold close_client. cbn [ln_iface]. destruct (is_iface c s) eqn:E; [done|exact E]. }
    rewrite Hif in H1. cbn [pr_assigned no_progress orb andb] in H1. destruct H1 as (H3 & H4 & H5).
    fold no_progress. split_and!; [by rewrite H4|by rewrite H5|]. rewrite H2, H3. cbn. by rewrite app_nil_r. }
  destruct (init_clock _ _ _ _) as [[clock pending] bootstrap].
  destruct (ae_publish_shut env).
  { destruct bootstrap; (split_and!; [done..|cbn; by rewrite app_nil_r]). }
  set (s1 := with_client (Some c) (with_clock clock s)).
  assert (Hr : ∀ p s2, pr_assigned p = true → ln_client s2 = Some c → ln_opened s2 = ln_opened s →
            ln_closed s2 = ln_closed s → idle [] (_rollback_connect_attempt_state (Some c) p s2)).
  { intros p s2 Hp H1 H2 H3. apply rollback_assigned; [done..|]. by rewrite H2, H3. }
  destruct (ae_info_error env); [by apply Hr|]. destruct (ae_info_shut env); [by apply Hr|].
  destruct (ae_metadata_error env); [by apply Hr|]. destruct (ae_metadata_shut env); [by apply Hr|].
  destruct (pending && negb (ln_drain_applied s1)); (destruct (ae_subscribe_shut env); [by apply Hr|]);
    (destruct (ae_subscribe_error env); [by apply Hr|]); (split; [done|split; [exact Ho|done]]).
Qed.

Lemma attempt_clients env s :
  idle [] s →
  match attempt env s with
  | (s', None) => is_Some (ln_client s') ∧ accounted s'
  | (s', Some _) => idle [] s'
  end.
Proof.
  intros (Hc & Ha & Ho). unfold attempt. cbv zeta. destruct (ae_open env) as [c|e].
  - pose proof (setup_clients env c (log_open c (with_iface (ae_iface env) s))) as H.
    destruct (setup_client _ _ _) as [s' [| |e p]].
    + destruct H as [H1 H2]; [|split; [by eexists|done]].
      split_and!; [done..|]. cbn. rewrite Ho, app_nil_r. done.
    + apply H. split_and!; [done..|]. cbn. rewrite Ho, app_nil_r. done.
    + apply H. split_and!; [done..|]. cbn. rewrite Ho, app_nil_r. done.
  - fold no_progress. destruct (rollback_clients None no_progress (with_iface (ae_iface env) s)) as [(H1 & H2 & H3) H4].
    split_and!; [by rewrite H2|by rewrite H3|]. by rewrite H4, H1.
Qed.

Lemma loop_clients fuel limit envs k c s s' r :
  idle [] s → connect_loop fuel limit envs k c s = Some (s', r) → accounted s' ∧ r = ln_client s'.
Proof.
  revert k c s. induction fuel as [|fuel IH]; intros k c s Hi; cbn [connect_loop];
    (destruct (_ || ae_loop_shut (envs k)); [intros [= <- <-]; split; [by apply idle_accounted|done]|]).
  { done. }
  pose proof (attempt_clients (envs k) s Hi) as H.
  destruct (attempt (envs k) s) as [s1 [[e|]|]].
  - destruct (after_error _ _ _ _) as [[| |w] c1].
    + intros [= <- <-]. split; [by apply idle_accounted|]. by destruct H as [-> _].
    + intros [= <- <-]. split; [by apply idle_accounted|done].
    + by apply IH.
  - intros [= <- <-]. split; [by apply idle_accounted|]. by destruct H as [-> _].
  - intros [= <- <-]. by destruct H as [_ H].
Qed.

(** C13: no client is ever leaked: however an attempt to connect goes - errors at any point, a
    shutdown in the middle, a wrong device, retries - every client that was opened has been
    closed once, but for the one that is in use afterwards, if any; and that one is exactly what
    is returned (nothing if none is in use), except when the call is turned away at once, because
    of a shutdown or because a reconnection is under way and this is not it: then nothing is
    touched and nothing is returned.  A client counts as opened once the opening has handed it
    over: an interface that the opening itself makes and drops, on a Bluetooth time-out, is not
    among them. *)
Theorem connect_no_leak fuel shutting_down reconnecting force config envs s s' r :
  accounted s →
  _connect_meshtastic_impl fuel shutting_down reconnecting force config envs s = Ok (Some (s', r)) →
  accounted s' ∧
  (if shutting_down || (reconnecting && negb force) then s' = s ∧ r = None else r = ln_client s').
Proof.
  intros Hs. unfold _connect_meshtastic_impl.
  destruct shutting_down; [intros [= <- <-]; by split_and!|].
  destruct (reconnecting && negb force); [intros [= <- <-]; by split_and!|]. cbn [orb].
  assert (Hbody : ∀ s0, idle [] s0 →
    (let! section := connection_section config in
     match section with
     | None => Ok (Some (s0, None))
     | Some (section, connection_type) =>
         let! limit := retry_limit section in
         let! timeout := connect_timeout section in
         match connection_target section connection_type with
         | NoTarget =>
             if ((limit =? 0) || (0 <=? limit)) && negb (ae_loop_shut (envs 0%nat))
             then Ok (Some (s0, None)) else Ok (Some (s0, ln_client s0))
         | _ => Ok (connect_loop fuel limit envs 0 {| attempts := 0; timeout_attempts := 0 |} s0)
         end
     end) = Ok (Some (s', r)) → accounted s' ∧ r = ln_client s').
  { intros s0 H0. assert (Hn : None = ln_client s0) by (by destruct H0 as [-> _]). destruct (connection_section config) as [[[d t]|]|]; cbn [res_bind]; [| |done].
    2:{ intros [= <- <-]. split; [by apply idle_accounted|done]. }
    destruct (retry_limit d) as [limit|]; cbn [res_bind]; [|done].
    destruct (connect_timeout d) as [timeout|]; cbn [res_bind]; [|done].
    assert (Hloop : Ok (connect_loop fuel limit envs 0 {| attempts := 0; timeout_attempts := 0 |} s0)
                    = Ok (Some (s', r)) → accounted s' ∧ r = ln_client s').
    { intros [= H]. apply loop_clients in H as [? ?]; auto. }
    destruct (connection_target d t); try exact Hloop.
    destruct (_ && _); intros [= <- <-]; (split; [by apply idle_accounted|auto]). }
  destruct (ln_client s) as [c|] eqn:Ec.
  - destruct force; [|intros [= <- <-]; rewrite Ec; auto]. apply Hbody.
    destruct Hs as [Ho Ha]. split_and!; [done..|]. cbn. by rewrite Ho, Ec, app_nil_r.
  - destruct force; apply Hbody; destruct Hs as [Ho Ha]; rewrite Ec in Ho, Ha; by split_and!.
Qed.

(** ** The client that is published *)

Lemma rollback_applied client p s :
  ln_drain_applied (_rollback_connect_attempt_state client p s)
  = if pr_drain_armed p && pr_drain_applied p then false else ln_drain_applied s.
Proof.
  unfold _rollback_connect_attempt_state. cbv zeta.
  destruct client as [c|]; [destruct (_ && _); [destruct (bool_decide _)|]|];
    destruct (pr_drain_armed p), (pr_drain_applied p), (pr_bootstrap_armed p); done.
Qed.

(** A failed attempt leaves the start-up drain to the next one. *)
Lemma attempt_failed_applied env s s' r :
  attempt env s = (s', Some r) → ln_drain_applied s' = ln_drain_applied s.
Proof.
  unfold attempt. cbv zeta. destruct (ae_open env) as [c|e].
  2:{ intros [= <- _]. by rewrite rollback_applied. }
  unfold setup_client. cbv zeta. destruct (ae_wrong_device env).
  { intros [= <- _]. by rewrite rollback_applied. }
  set (s0 := log_open c (with_iface (ae_iface env) s)).
  assert (Hs0 : ln_drain_applied s0 = ln_drain_applied s) by done.
  rewrite Hs0. clearbody s0. unfold init_clock. cbv zeta.
  destruct (ln_drain_applied s) eqn:Happ; cbn [negb];
    [destruct (match rc_drain_deadline (ln_clock s0) with Some d => qlt (ae_monotonic env) d | None => false end)|];
    cbn [andb];
    destruct (ae_publish_shut env), (ae_info_error env), (ae_info_shut env), (ae_metadata_error env),
      (ae_metadata_shut env), (ae_subscribe_shut env), (ae_subscribe_error env);
    intros [= <- _]; rewrite ?rollback_applied; cbn; by rewrite ?Hs0, ?Happ.
Qed.

(** The timing of a connection that has just been made; [applied]: the start-up drain was
    applied before. *)
Definition fresh_timing (env : attempt_env) (applied : bool) (old : option Q) (c : relay_clock) : Prop :=
  rc_start_time c = ae_time env ∧ rc_skew c = None ∧ rc_probes c = ∅ ∧
  if applied then
    rc_bootstrap_deadline c = Some (ae_monotonic env + RECONNECT_PRESTART_BOOTSTRAP_WINDOW_SECS)%Q ∧
    (rc_drain_deadline c = None ∧ rc_drain_complete c = true ∨
     ∃ d, rc_drain_deadline c = Some d ∧ old = Some d ∧ qlt (ae_monotonic env) d = true)
  else
    rc_bootstrap_deadline c = None ∧ rc_drain_complete c = false ∧
    rc_drain_deadline c = Some (ae_drain_monotonic env + STARTUP_PACKET_DRAIN_SECS)%Q.

Definition undisturbed (env : attempt_env) : Prop :=
  ae_wrong_device env = false ∧ ae_publish_shut env = false ∧ ae_info_error env = None ∧
  ae_info_shut env = false ∧ ae_metadata_error env = None ∧ ae_metadata_shut env = false ∧
  ae_subscribe_shut env = false ∧ ae_subscribe_error env = None.

Lemma attempt_connected env s s' :
  attempt env s = (s', None) →
  undisturbed env ∧ ∃ c, ae_open env = Opened c ∧ ln_client s' = Some c ∧
    ln_subscribed s' = true ∧ ln_tearing_down s' = false ∧ ln_drain_applied s' = true ∧
    fresh_timing env (ln_drain_applied s) (rc_drain_deadline (ln_clock s)) (ln_clock s').
Proof.
  unfold attempt, undisturbed. cbv zeta. destruct (ae_open env) as [c|e]; [|done].
  unfold setup_client. cbv zeta. destruct (ae_wrong_device env); [done|].
  set (s0 := log_open c (with_iface (ae_iface env) s)).
  assert (Hs0 : ln_drain_applied s0 = ln_drain_applied s ∧ ln_clock s0 = ln_clock s) by done.
  destruct Hs0 as [Ha0 ->]. rewrite Ha0. clearbody s0. unfold init_clock. cbv zeta. unfold fresh_timing.
  destruct (ln_drain_applied s) eqn:Happ; cbn [negb].
  1: destruct (rc_drain_deadline (ln_clock s)) as [d|] eqn:Ed; [destruct (qlt (ae_monotonic env) d) eqn:Elt|].
  all: destruct (ae_publish_shut env), (ae_info_error env), (ae_info_shut env), (ae_metadata_error env),
      (ae_metadata_shut env), (ae_subscribe_shut env), (ae_subscribe_error env); try done;
    intros [= <-]; (split; [by split_and!|]); exists c; split_and!; try done;
    cbn; rewrite ?Ha0; try done; (by left) || (right; by exists d).
Qed.

(** A client that connecting returns has passed every check: it was opened by one of the
    attempts, is the device that was asked for, and at none of the places where a shutdown is looked for was
    there one.  The callbacks are subscribed, and the timing starts afresh before any packet can
    use it: no clock skew, no probes of the last connection; on the first connection the start-up
    drain is armed, on a later one the window of a reconnection, and a drain that is
    still running is kept, not restarted. *)
Theorem connect_sound fuel limit envs s s' client :
  idle [] s →
  connect_loop fuel limit envs 0 {| attempts := 0; timeout_attempts := 0 |} s = Some (s', Some client) →
  ∃ k old, ae_open (envs k) = Opened client ∧ undisturbed (envs k) ∧ ae_loop_shut (envs k) = false ∧
    ln_client s' = Some client ∧ ln_subscribed s' = true ∧ ln_tearing_down s' = false ∧
    ln_drain_applied s' = true ∧ fresh_timing (envs k) (ln_drain_applied s) old (ln_clock s').
Proof.
  cut (∀ fuel k c s0, idle [] s0 → ln_drain_applied s0 = ln_drain_applied s →
    connect_loop fuel limit envs k c s0 = Some (s', Some client) →
    ∃ k old, ae_open (envs k) = Opened client ∧ undisturbed (envs k) ∧ ae_loop_shut (envs k) = false ∧
      ln_client s' = Some client ∧ ln_subscribed s' = true ∧ ln_tearing_down s' = false ∧
      ln_drain_applied s' = true ∧ fresh_timing (envs k) (ln_drain_applied s) old (ln_clock s')).
  { intros H Hs Hc. by eapply H. }
  clear fuel. induction fuel as [|fuel IH]; intros k c s0 Hi Happ; cbn [connect_loop];
    destruct (negb _); cbn [orb]; try (destruct Hi as [Hn _]; by intros [= <- ?]; congruence);
    destruct (ae_loop_shut (envs k)) eqn:Hshut; try (destruct Hi as [Hn _]; by intros [= <- ?]; congruence).
  pose proof (attempt_clients (envs k) s0 Hi) as Hcl.
  destruct (attempt (envs k) s0) as [s1 [[e|]|]] eqn:Ea.
  - apply attempt_failed_applied in Ea. destruct (after_error _ _ _ _) as [[| |w] c1]; [done| |].
    + destruct Hcl as [Hn _]. intros [= <- ?]. congruence.
    + intros H. eapply IH; [done|congruence|done].
  - done.
  - intros [= <- Hc]. destruct (attempt_connected _ _ _ Ea) as (Hu & c' & Ho & Hc' & Hsub & Ht & Hd & Hf).
    assert (c' = client) as -> by congruence.
    exists k, (rc_drain_deadline (ln_clock s0)). rewrite <- Happ. by split_and!.
Qed.

(** ** Examples and witnesses *)

Definition demo_clock : relay_clock :=
  {| rc_start_time := 0; rc_skew := Some 3%Q; rc_connection_started := 0; rc_drain_deadline := None;
     rc_drain_timer := None; rc_bootstrap_deadline := None; rc_drain_complete := false;
     rc_probes := {[ 4 := 9%Q ]} |}.
Definition demo_link : link :=
  {| ln_client := None; ln_iface := None; ln_active_client_id := None; ln_clock := demo_clock;
     ln_drain_applied := false; ln_probe_timer := false; ln_subscribed := false;
     ln_tearing_down := false; ln_opened := []; ln_closed := [] |}.
Definition demo_env (o : open_result) : attempt_env :=
  {| ae_loop_shut := false; ae_open := o; ae_iface := None; ae_wrong_device := false;
     ae_time := 100; ae_monotonic := 7; ae_publish_shut := false; ae_info_error := None;
     ae_info_shut := false; ae_metadata_error := None; ae_metadata_shut := false;
     ae_drain_monotonic := 8; ae_subscribe_shut := false; ae_subscribe_error := None;
     ae_probe_timer := false; ae_error_shut := false |}.
(** The first attempt times out, the second one gets through. *)
Definition demo_envs (k : nat) : attempt_env :=
  match k with O => demo_env (OpenFails (Timeout false)) | _ => demo_env (Opened 5) end.
Definition demo_start : counters := {| attempts := 0; timeout_attempts := 0 |}.

(** A refused connection is not tried again, whatever the number of retries - nor is a wrong
    device, though the log announces a retry. *)
Lemma refused_not_retried fuel limit envs s :
  (limit =? 0) || (0 <=? limit) = true → ae_loop_shut (envs 0%nat) = false → ln_client s = None →
  ae_open (envs 0%nat) = OpenFails Refused →
  ∃ s', connect_loop (S fuel) limit envs 0 demo_start s = Some (s', None).
Proof.
  intros Hl Hs Hc Ho. cbn [connect_loop attempts demo_start]. rewrite Hl, Hs. cbn [negb orb].
  unfold attempt. rewrite Ho. cbn [after_error]. by eexists.
Qed.

Lemma wrong_device_not_retried fuel limit envs s c :
  (limit =? 0) || (0 <=? limit) = true → ae_loop_shut (envs 0%nat) = false → ln_client s = None →
  ae_open (envs 0%nat) = Opened c → ae_wrong_device (envs 0%nat) = true →
  ∃ s', connect_loop (S fuel) limit envs 0 demo_start s = Some (s', None).
Proof.
  intros Hl Hs Hc Ho Hw. cbn [connect_loop attempts demo_start]. rewrite Hl, Hs. cbn [negb orb].
  unfold attempt. rewrite Ho. unfold setup_client. rewrite Hw. cbn [after_error]. by eexists.
Qed.

(** A value of [retries] that is an infinite float makes connecting raise. *)
Lemma infinite_retries_raise :
  retry_limit [(u "retries", VFloat (FInf false))] = Raise OverflowError.
Proof. reflexivity. Qed.

Lemma retry_wait_capped_exponential_witness : _get_connection_retry_wait_time 2 60 7 = Z.min (2 ^ 7) 60.
Proof. apply (retry_wait_capped_exponential 2 60 7); reflexivity. Defined.

Lemma connect_terminates_witness :
  is_Some (connect_loop 3 2 (λ _, demo_env (OpenFails DiscoveryTransient)) 0 demo_start demo_link).
Proof. apply (connect_terminates 2 (λ _, demo_env (OpenFails DiscoveryTransient)) demo_link). discriminate. Defined.

Lemma timeouts_give_up_witness :
  is_Some (connect_loop 6 INFINITE_RETRIES (λ _, demo_env (OpenFails (Timeout true))) 0 demo_start demo_link).
Proof.
  apply (timeouts_give_up (λ _, demo_env (OpenFails (Timeout true))) demo_link).
  intros k s1 s2 e H. vm_compute in H. by injection H as _ <-.
Defined.

Definition demo_result : option (link * option Z) :=
  Eval vm_compute in connect_loop 2 INFINITE_RETRIES demo_envs 0 demo_start demo_link.
Definition demo_connected : link := Eval vm_compute in match demo_result with Some (s, _) => s | None => demo_link end.

Lemma connect_no_leak_witness :
  accounted demo_connected ∧
  (if false || (true && negb true) then demo_connected = demo_link ∧ Some 5 = None
   else Some 5 = ln_client demo_connected).
Proof.
  apply (connect_no_leak 2 false true true
    (Some [(u "meshtastic", VDict [(u "connection_type", VStr (u "tcp")); (u "host", VStr (u "h"))])])
    demo_envs demo_link demo_connected (Some 5)).
  - by split.
  - vm_compute. reflexivity.
Defined.

Lemma connect_sound_witness :
  ∃ k old, ae_open (demo_envs k) = Opened 5 ∧ undisturbed (demo_envs k) ∧ ae_loop_shut (demo_envs k) = false ∧
    ln_client demo_connected = Some 5 ∧ ln_subscribed demo_connected = true ∧
    ln_tearing_down demo_connected = false ∧ ln_drain_applied demo_connected = true ∧
    fresh_timing (demo_envs k) (ln_drain_applied demo_link) old (ln_clock demo_connected).
Proof.
  apply (connect_sound 2 INFINITE_RETRIES demo_envs demo_link demo_connected 5).
  - by split_and!.
  - vm_compute. reflexivity.
Defined.
