(* ===== verification/Executors.v ===== *)
(** * Worker threads of the connection

    Models [src/mmrelay/meshtastic/executors.py]: the two single-worker executors that guard calls
    which may hang - one for Bluetooth, one for metadata probes -, the futures that are
    tracked, the workers that had to be abandoned, and the degraded state after too many of them;
    with the submission of [_connect_meshtastic_impl] ([connection.py]) and the clean-up when the
    connection is lost ([_clear_stale_ble_future_for_reconnect] and
    [_reset_ble_degraded_state_after_disconnect] of [events.py]).

    Executors and futures are numbers.  A future is live until its worker ends; a worker that
    runs cannot be cancelled.  The threshold for resets is the setting
    [_ble_timeout_reset_threshold] after coercion.  Locks protect each operation but for
    the gap between the test and the reset in [_ensure_ble_worker_available], which is modelled as
    one step.  The timers are the operations the watchdogs run. *)

From Stdlib Require Import String QArith.
From stdpp Require Import base tactics list numbers gmap sets.
From S2P Require Import Prelude PyStr.
#[local] Arguments Z.add : simpl never.
Open Scope Z_scope.

Definition EXECUTOR_ORPHAN_THRESHOLD : Z := 5.
Definition METADATA_WATCHDOG_SECS : Q := 30.

Record workers := {
  next_id : nat; live : gset nat; shut : gset nat;      (* futures that run; executors shut down *)
  ble_executor : option nat; ble_future : option nat; ble_address : option pystr;
  ble_started : option Q; ble_timeout : option Q;
  ble_timeouts : gmap pystr Z; ble_orphans : gmap pystr Z; ble_degraded : gset pystr;
  meta_executor : option nat; meta_future : option nat; meta_started : option Q;
  meta_orphans : Z; meta_degraded : bool }.

Definition is_live (f : option nat) (w : workers) : bool :=
  match f with Some f => bool_decide (f ∈ live w) | None => false end.
Definition is_open (e : option nat) (w : workers) : bool :=
  match e with Some e => negb (bool_decide (e ∈ shut w)) | None => false end.

Definition ble_part (id : nat) (e f : option nat) (a : option pystr) (s t : option Q)
    (ts os : gmap pystr Z) (d : gset pystr) (w : workers) : workers :=
  {| next_id := id; live := live w; shut := shut w; ble_executor := e; ble_future := f;
     ble_address := a; ble_started := s; ble_timeout := t; ble_timeouts := ts; ble_orphans := os;
     ble_degraded := d; meta_executor := meta_executor w; meta_future := meta_future w;
     meta_started := meta_started w; meta_orphans := meta_orphans w; meta_degraded := meta_degraded w |}.
Definition meta_part (id : nat) (e f : option nat) (s : option Q) (o : Z) (d : bool) (w : workers)
    : workers :=
  {| next_id := id; live := live w; shut := shut w; ble_executor := ble_executor w;
     ble_future := ble_future w; ble_address := ble_address w; ble_started := ble_started w;
     ble_timeout := ble_timeout w; ble_timeouts := ble_timeouts w; ble_orphans := ble_orphans w;
     ble_degraded := ble_degraded w; meta_executor := e; meta_future := f; meta_started := s;
     meta_orphans := o; meta_degraded := d |}.
Definition with_threads (l s : gset nat) (w : workers) : workers :=
  {| next_id := next_id w; live := l; shut := s; ble_executor := ble_executor w;
     ble_future := ble_future w; ble_address := ble_address w; ble_started := ble_started w;
     ble_timeout := ble_timeout w; ble_timeouts := ble_timeouts w; ble_orphans := ble_orphans w;
     ble_degraded := ble_degraded w; meta_executor := meta_executor w; meta_future := meta_future w;
     meta_started := meta_started w; meta_orphans := meta_orphans w; meta_degraded := meta_degraded w |}.

(** [executor.shutdown(wait=False, cancel_futures=True)] of an executor that may be missing. *)
Definition shutdown_executor (e : option nat) (w : workers) : workers :=
  with_threads (live w) (match e with Some e => {[ e ]} ∪ shut w | None => shut w end) w.

Definition set_timeouts (v : gmap pystr Z) (w : workers) : workers :=
  ble_part (next_id w) (ble_executor w) (ble_future w) (ble_address w) (ble_started w) (ble_timeout w)
    v (ble_orphans w) (ble_degraded w) w.
(** No Bluetooth future is tracked. *)
Definition untrack_ble (w : workers) : workers :=
  ble_part (next_id w) (ble_executor w) None None None None (ble_timeouts w) (ble_orphans w)
    (ble_degraded w) w.

(** ** Bluetooth *)

Definition _get_ble_executor (w : workers) : workers :=
  if is_open (ble_executor w) w then w
  else ble_part (S (next_id w)) (Some (next_id w)) (ble_future w) (ble_address w) (ble_started w)
         (ble_timeout w) (ble_timeouts w) (ble_orphans w) (ble_degraded w) w.

Inductive submit_result := Submitted (f : nat) | Busy | Degraded | InProgress.

(** A future is created, runs and is tracked. *)
Definition submit_ble (address : pystr) (timeout now : Q) (w : workers) : workers * submit_result :=
  if is_live (ble_future w) w then (w, Busy)
  else if bool_decide (address ∈ ble_degraded w) then (w, Degraded)
  else
    let w := _get_ble_executor w in
    let f := next_id w in
    (with_threads ({[ f ]} ∪ live w) (shut w)
       (ble_part (S f) (ble_executor w) (Some f) (Some address) (Some now) (Some timeout)
          (ble_timeouts w) (ble_orphans w) (ble_degraded w) w), Submitted f).

(** The callback of a future that is done. *)
Definition _clear_ble_future (f : nat) (w : workers) : workers :=
  if bool_decide (ble_future w = Some f) then
    let w := match ble_address w with
             | Some ((_ :: _) as a) => set_timeouts (delete a (ble_timeouts w)) w
             | _ => w
             end in
    untrack_ble w
  else w.

Definition _record_ble_timeout (address : pystr) (w : workers) : workers * Z :=
  let n := default 0 (ble_timeouts w !! address) + 1 in
  (set_timeouts (<[address := n]> (ble_timeouts w)) w, n).

Definition _maybe_reset_ble_executor (reset_threshold : Z) (address : pystr) (timeout_count : Z)
    (w : workers) : workers :=
  if bool_decide (address ∈ ble_degraded w) then w
  else if timeout_count <? reset_threshold then w
  else
    let current_orphans := default 0 (ble_orphans w !! address) in
    let stale_executor := ble_executor w in
    if EXECUTOR_ORPHAN_THRESHOLD <=? current_orphans + 1 then
      shutdown_executor stale_executor
        (ble_part (next_id w) (ble_executor w) None None None None (<[address := 0]> (ble_timeouts w))
           (ble_orphans w) ({[ address ]} ∪ ble_degraded w) w)
    else
      let running := is_open stale_executor w in
      let orphans :=
        if running then <[address := current_orphans + 1]> (ble_orphans w) else ble_orphans w in
      let w := ble_part (S (next_id w)) (Some (next_id w)) None None None None
                 (<[address := 0]> (ble_timeouts w)) orphans (ble_degraded w) w in
      if running then shutdown_executor stale_executor w else w.

(** The worker is free, or the call raises TimeoutError; a worker that exceeded its time is replaced. *)
Definition _ensure_ble_worker_available (reset_threshold : Z) (stale_grace now : Q) (address : pystr)
    (w : workers) : workers * bool :=
  if negb (is_live (ble_future w) w) then (w, true)
  else
    let stale :=
      match ble_started w, ble_timeout w with
      | Some started, Some timeout => qle (timeout + stale_grace) (now - started)
      | _, _ => false
      end in
    let w :=
      if stale then
        let stale_address := match ble_address w with Some ((_ :: _) as a) => a | _ => address end in
        let '(w, timeout_count) := _record_ble_timeout stale_address w in
        _maybe_reset_ble_executor reset_threshold stale_address (Z.max timeout_count reset_threshold) w
      else w in
    (w, negb (is_live (ble_future w) w)).

(** The watchdog of a future, when its time is up. *)
Definition ble_watchdog (reset_threshold : Z) (f : nat) (address : pystr) (w : workers) : workers :=
  if negb (bool_decide (f ∈ live w)) then w
  else if bool_decide (ble_future w = Some f)
  then _maybe_reset_ble_executor reset_threshold address reset_threshold w
  else w.

(** ** Metadata probes *)

Definition _get_metadata_executor (w : workers) : workers :=
  if is_open (meta_executor w) w then w
  else meta_part (S (next_id w)) (Some (next_id w)) (meta_future w) (meta_started w) (meta_orphans w)
         (meta_degraded w) w.

Definition _clear_metadata_future_if_current (f : nat) (w : workers) : workers :=
  if bool_decide (meta_future w = Some f)
  then meta_part (next_id w) (meta_executor w) None None (meta_orphans w) (meta_degraded w) w else w.

Definition _reset_metadata_executor_for_stale_probe (w : workers) : workers :=
  if meta_degraded w then w
  else
    let projected_orphans := meta_orphans w + 1 in
    let stale_executor := meta_executor w in
    if EXECUTOR_ORPHAN_THRESHOLD <=? projected_orphans then
      shutdown_executor stale_executor
        (meta_part (next_id w) None None None projected_orphans true w)
    else
      let running := is_open stale_executor w in
      let w := meta_part (S (next_id w)) (Some (next_id w)) None None
                 (if running then projected_orphans else meta_orphans w) false w in
      if running then shutdown_executor stale_executor w else w.

Definition metadata_watchdog (f : nat) (w : workers) : workers :=
  if bool_decide (f ∈ live w) && bool_decide (meta_future w = Some f)
  then _reset_metadata_executor_for_stale_probe w else w.

Definition _submit_metadata_probe (now : Q) (w : workers) : workers * submit_result :=
  let in_time :=
    match meta_started w with Some s => qlt (now - s) METADATA_WATCHDOG_SECS | None => true end in
  if is_live (meta_future w) w && in_time then (w, InProgress)
  else
    let w := if is_live (meta_future w) w then _reset_metadata_executor_for_stale_probe w else w in
    if meta_degraded w then (w, Degraded)
    else if is_live (meta_future w) w then (w, InProgress)
    else
      let w := _get_metadata_executor w in
      let f := next_id w in
      (with_threads ({[ f ]} ∪ live w) (shut w)
         (meta_part (S f) (meta_executor w) (Some f) (Some now) (meta_orphans w) (meta_degraded w) w),
       Submitted f).

(** ** Recovery *)

Definition reset_metadata_degraded (w : workers) : workers * bool :=
  if meta_degraded w then
    (shutdown_executor (meta_executor w)
       (meta_part (next_id w) None (meta_future w) (meta_started w) 0 false w), true)
  else (w, false).

(** [reset_executor_degraded_state(address)], and with [reset_all=True]. *)
Definition reset_executor_degraded_state (address : option pystr) (w : workers) : workers * bool :=
  let '(w, any) :=
    match address with
    | Some a =>
        if bool_decide (a ∈ ble_degraded w) then
          (shutdown_executor (ble_executor w)
             (ble_part (next_id w) None (ble_future w) (ble_address w) (ble_started w) (ble_timeout w)
                (ble_timeouts w) (delete a (ble_orphans w)) (ble_degraded w ∖ {[ a ]}) w), true)
        else (w, false)
    | None => (w, false)
    end in
  let '(w, any') := reset_metadata_degraded w in (w, any || any').

Definition reset_all_degraded_state (w : workers) : workers * bool :=
  let '(w, any) :=
    if bool_decide (ble_degraded w = ∅) then (w, false)
    else (shutdown_executor (ble_executor w)
            (ble_part (next_id w) None (ble_future w) (ble_address w) (ble_started w) (ble_timeout w)
               (ble_timeouts w) ∅ ∅ w), true) in
  let '(w, any') := reset_metadata_degraded w in (w, any || any').

(** [events.py]: the in-flight future is dropped with its executor; the address it was for. *)
Definition _clear_stale_ble_future_for_reconnect (w : workers) : workers * option pystr :=
  if is_live (ble_future w) w then
    let timeouts := match ble_address w with
                    | Some ((_ :: _) as a) => delete a (ble_timeouts w)
                    | _ => ble_timeouts w
                    end in
    (shutdown_executor (ble_executor w)
       (ble_part (next_id w) None None None None None timeouts (ble_orphans w) (ble_degraded w) w),
     ble_address w)
  else (w, ble_address w).

Definition _reset_ble_degraded_state_after_disconnect (stale_address : option pystr) (w : workers)
    : workers :=
  match stale_address with
  | Some a => (reset_executor_degraded_state (Some a) w).1
  | None => if bool_decide (ble_degraded w = ∅) then w else (reset_all_degraded_state w).1
  end.

(** The workers' part of a lost connection. *)
Definition disconnect_workers (w : workers) : workers :=
  let '(w, stale_address) := _clear_stale_ble_future_for_reconnect w in
  _reset_ble_degraded_state_after_disconnect stale_address w.

Definition _shutdown_shared_executors (w : workers) : workers :=
  let w := shutdown_executor (ble_executor w)
             (ble_part (next_id w) None None None None None ∅ ∅ ∅ w) in
  shutdown_executor (meta_executor w) (meta_part (next_id w) None None None 0 false w).

(** ** The operations, and what they keep *)

Inductive worker_op :=
  | SubmitBle (address : pystr) (timeout now : Q) | EnsureBle (grace now : Q) (address : pystr)
  | BleTimedOut (address : pystr)                  (* a timeout is recorded, and the reset tried *)
  | BleWatchdog (f : nat) (address : pystr) | ClearBle (f : nat)
  | Finished (f : nat)                             (* the worker of the future ends *)
  | Probe (now : Q) | MetadataWatchdog (f : nat)
  | Disconnect | Connected (address : option pystr) | Shutdown.

Section operations.
Context (reset_threshold : Z).

Definition run_op (w : workers) (o : worker_op) : workers :=
  match o with
  | SubmitBle a t now => (submit_ble a t now w).1
  | EnsureBle grace now a => (_ensure_ble_worker_available reset_threshold grace now a w).1
  | BleTimedOut a =>
      let '(w, n) := _record_ble_timeout a w in _maybe_reset_ble_executor reset_threshold a n w
  | BleWatchdog f a => ble_watchdog reset_threshold f a w
  | ClearBle f => _clear_ble_future f w
  | Finished f =>
      _clear_metadata_future_if_current f
        (_clear_ble_future f (with_threads (live w ∖ {[ f ]}) (shut w) w))
  | Probe now => (_submit_metadata_probe now w).1
  | MetadataWatchdog f => metadata_watchdog f w
  | Disconnect => disconnect_workers w
  | Connected a => (reset_executor_degraded_state a w).1
  | Shutdown => _shutdown_shared_executors w
  end.

Definition init_workers : workers :=
  {| next_id := 0; live := ∅; shut := ∅; ble_executor := None; ble_future := None; ble_address := None;
     ble_started := None; ble_timeout := None; ble_timeouts := ∅; ble_orphans := ∅; ble_degraded := ∅;
     meta_executor := None; meta_future := None; meta_started := None; meta_orphans := 0;
     meta_degraded := false |}.

(** The abandoned workers of each device stay below the threshold, and so do those of
    the probes until the executor is degraded. *)
Definition orphans_ok (os : gmap pystr Z) : Prop :=
  ∀ a n, os !! a = Some n → 1 ≤ n < EXECUTOR_ORPHAN_THRESHOLD.
Definition meta_ok (n : Z) (degraded : bool) : Prop :=
  0 ≤ n ∧ (if degraded then n = EXECUTOR_ORPHAN_THRESHOLD else n < EXECUTOR_ORPHAN_THRESHOLD).
(** A future is tracked with its device and times, or nothing is. *)
Definition tracked_ok (w : workers) : Prop :=
  match ble_future w with
  | Some _ => is_Some (ble_address w) ∧ is_Some (ble_started w) ∧ is_Some (ble_timeout w)
  | None => ble_address w = None ∧ ble_started w = None ∧ ble_timeout w = None
  end.
Definition workers_ok (w : workers) : Prop :=
  orphans_ok (ble_orphans w) ∧ meta_ok (meta_orphans w) (meta_degraded w) ∧ tracked_ok w.

Lemma orphans_empty : orphans_ok ∅.
Proof. intros a n H. by rewrite lookup_empty in H. Qed.

Lemma orphans_delete os a : orphans_ok os → orphans_ok (delete a os).
Proof. intros H b n Hb. apply lookup_delete_Some in Hb as [_ Hb]. by eapply H. Qed.

Lemma maybe_reset_ok a n w : workers_ok w → workers_ok (_maybe_reset_ble_executor reset_threshold a n w).
Proof.
  intros Hw. assert (Hw' := Hw). destruct Hw' as (Ho & Hm & Ht). unfold _maybe_reset_ble_executor.
  destruct (bool_decide _); [done|]. destruct (n <? reset_threshold); [done|]. cbv zeta.
  destruct (Z.leb_spec EXECUTOR_ORPHAN_THRESHOLD (default 0 (ble_orphans w !! a) + 1)) as [|Hlt]; [done|].
  assert (Hnew : orphans_ok (<[a := default 0 (ble_orphans w !! a) + 1]> (ble_orphans w))).
  { intros b m. destruct (decide (a = b)) as [->|Hne].
    - rewrite lookup_insert_eq. intros [= <-]. split; [|done].
      destruct (ble_orphans w !! b) as [x|] eqn:E; cbn; [apply Ho in E; lia|lia].
    - rewrite lookup_insert_ne by done. apply Ho. }
  by destruct (is_open (ble_executor w) w).
Qed.

Lemma reset_metadata_ok w : workers_ok w → workers_ok (_reset_metadata_executor_for_stale_probe w).
Proof.
  intros Hw. assert (Hw' := Hw). destruct Hw' as (Ho & Hm & Ht).
  unfold _reset_metadata_executor_for_stale_probe.
  destruct (meta_degraded w) eqn:Ed; [done|]. destruct Hm as [Hm0 Hm]. cbv zeta.
  destruct (Z.leb_spec EXECUTOR_ORPHAN_THRESHOLD (meta_orphans w + 1)) as [Hle|Hlt].
  - split; [done|]. split; [|done]. unfold meta_ok. cbn. unfold EXECUTOR_ORPHAN_THRESHOLD in *. lia.
  - destruct (is_open (meta_executor w) w); (split; [done|split; [|done]]); unfold meta_ok; cbn; lia.
Qed.

Lemma worker_op_ok w o : workers_ok w → workers_ok (run_op w o).
Proof.
  intros Hw. assert (Hw' := Hw). destruct Hw' as (Ho & Hm & Ht). destruct o; cbn [run_op].
  - unfold submit_ble. destruct (is_live _ _); [done|]. destruct (bool_decide _); [done|].
    unfold _get_ble_executor. destruct (is_open _ _); (split; [done|split; [done|by repeat eexists]]).
  - unfold _ensure_ble_worker_available. destruct (negb _); [done|]. cbn [fst].
    destruct (match ble_started w with Some _ => _ | None => false end); [|done].
    unfold _record_ble_timeout. by apply maybe_reset_ok.
  - unfold _record_ble_timeout. by apply maybe_reset_ok.
  - unfold ble_watchdog. destruct (negb _); [done|]. destruct (bool_decide _); [by apply maybe_reset_ok|done].
  - unfold _clear_ble_future. destruct (bool_decide _); [|done]. by destruct (ble_address w) as [[|? ?]|].
  - unfold _clear_metadata_future_if_current, _clear_ble_future. cbn [ble_future ble_address with_threads].
    destruct (bool_decide (ble_future w = Some f));
      [destruct (ble_address w) as [[|? ?]|]|]; cbn; by destruct (bool_decide (meta_future w = Some f)).
  - unfold _submit_metadata_probe. destruct (_ && _); [done|]. cbv zeta.
    assert (H1 : workers_ok (if is_live (meta_future w) w then _reset_metadata_executor_for_stale_probe w else w)).
    { destruct (is_live _ _); [by apply reset_metadata_ok|done]. }
    set (w1 := if is_live (meta_future w) w then _ else w) in *. clearbody w1.
    destruct (meta_degraded w1) eqn:Ed; [done|]. destruct (is_live (meta_future w1) w1); [done|].
    unfold _get_metadata_executor. by destruct (is_open (meta_executor w1) w1).
  - unfold metadata_watchdog. destruct (_ && _); [by apply reset_metadata_ok|done].
  - unfold disconnect_workers, _clear_stale_ble_future_for_reconnect.
    unfold _reset_ble_degraded_state_after_disconnect, reset_executor_degraded_state, reset_all_degraded_state,
      reset_metadata_degraded.
    assert (Hd : ∀ a, orphans_ok (delete a (ble_orphans w))) by (intros; by apply orphans_delete).
    assert (H0 : meta_ok 0 false) by (split; done). pose proof orphans_empty as He.
    destruct (is_live _ _), (ble_address w) as [a|] eqn:Ea; cbn;
      repeat (destruct (bool_decide _); cbn); destruct (meta_degraded w) eqn:Em; cbn;
      unfold workers_ok, tracked_ok in *; cbn; rewrite ?Ea, ?Em in *; auto.
  - unfold reset_executor_degraded_state, reset_metadata_degraded.
    assert (Hd : ∀ a, orphans_ok (delete a (ble_orphans w))) by (intros; by apply orphans_delete).
    assert (H0 : meta_ok 0 false) by (split; done).
    destruct address as [a|]; [destruct (bool_decide _)|]; cbn; destruct (meta_degraded w) eqn:Em; cbn;
      unfold workers_ok, tracked_ok in *; cbn; rewrite ?Em in *; auto.
  - split; [exact orphans_empty|split; [split; done|done]].
Qed.

(** Repeated hangs are contained: whatever happens to the workers, fewer than five of a
    device are ever abandoned, and five of the probes, the last of which ends in the degraded state;
    and a tracked future always has its device and its time limit. *)
Theorem orphans_bounded (ops : list worker_op) : workers_ok (foldl run_op init_workers ops).
Proof.
  cut (∀ w, workers_ok w → workers_ok (foldl run_op w ops)).
  { intros H. apply H. split; [exact orphans_empty|]. split; [split; done|done]. }
  induction ops as [|o ops IH]; intros w Hw; [done|]. apply IH. by apply worker_op_ok.
Qed.

(** Steps that leave the degraded devices alone. *)
Definition recovers (o : worker_op) : bool :=
  match o with Disconnect | Connected _ | Shutdown => true | _ => false end.

Lemma maybe_reset_degraded a n w :
  ble_degraded w ⊆ ble_degraded (_maybe_reset_ble_executor reset_threshold a n w).
Proof.
  unfold _maybe_reset_ble_executor. destruct (bool_decide _); [done|].
  destruct (n <? reset_threshold); [done|]. cbv zeta. destruct (_ <=? _); [cbn; set_solver|].
  by destruct (is_open _ _).
Qed.

Lemma reset_metadata_ble w : ble_degraded (_reset_metadata_executor_for_stale_probe w) = ble_degraded w.
Proof.
  unfold _reset_metadata_executor_for_stale_probe. destruct (meta_degraded w); [done|]. cbv zeta.
  destruct (_ <=? _); [done|]. by destruct (is_open _ _).
Qed.

Lemma run_op_degraded w o : recovers o = false → ble_degraded w ⊆ ble_degraded (run_op w o).
Proof.
  destruct o; cbn [recovers run_op]; try done; intros _.
  - unfold submit_ble. destruct (is_live _ _); [done|]. destruct (bool_decide _); [done|].
    unfold _get_ble_executor. by destruct (is_open _ _).
  - unfold _ensure_ble_worker_available. destruct (negb _); [done|]. cbn [fst].
    destruct (match ble_started w with Some _ => _ | None => false end); [|done].
    unfold _record_ble_timeout. etrans; [|apply maybe_reset_degraded]. done.
  - unfold _record_ble_timeout. etrans; [|apply maybe_reset_degraded]. done.
  - unfold ble_watchdog. destruct (negb _); [done|]. destruct (bool_decide _); [apply maybe_reset_degraded|done].
  - unfold _clear_ble_future. destruct (bool_decide _); [|done]. by destruct (ble_address w) as [[|? ?]|].
  - unfold _clear_metadata_future_if_current, _clear_ble_future. cbn [ble_future ble_address with_threads].
    destruct (bool_decide (ble_future w = Some f));
      [destruct (ble_address w) as [[|? ?]|]|]; cbn; by destruct (bool_decide (meta_future w = Some f)).
  - unfold _submit_metadata_probe. destruct (_ && _); [done|]. cbv zeta.
    assert (H1 : ble_degraded (if is_live (meta_future w) w then _reset_metadata_executor_for_stale_probe w else w)
                 = ble_degraded w) by (destruct (is_live _ _); [apply reset_metadata_ble|done]).
    set (w1 := if is_live (meta_future w) w then _ else w) in *. rewrite <- H1. clearbody w1.
    destruct (meta_degraded w1); [done|]. destruct (is_live (meta_future w1) w1); [done|].
    unfold _get_metadata_executor. by destruct (is_open (meta_executor w1) w1).
  - unfold metadata_watchdog. destruct (_ && _); [by rewrite reset_metadata_ble|done].
Qed.

(** A degraded device is refused until it is reset: no operation short of a reconnection
    or a shutdown makes its work acceptable again. *)
Theorem degraded_until_reset (w : workers) (ops : list worker_op) address timeout now f :
  address ∈ ble_degraded w → forallb (λ o, negb (recovers o)) ops = true →
  (submit_ble address timeout now (foldl run_op w ops)).2 ≠ Submitted f.
Proof.
  intros Ha Hops.
  assert (Hin : address ∈ ble_degraded (foldl run_op w ops)).
  { revert w Ha. induction ops as [|o ops IH]; intros w Ha; [done|].
    apply andb_true_iff in Hops as [Ho Hops]. apply (IH Hops). apply negb_true_iff in Ho.
    by apply (run_op_degraded w o Ho). }
  unfold submit_ble. destruct (is_live _ _); [done|]. by rewrite bool_decide_eq_true_2.
Qed.
End operations.

(** After a lost connection the workers are free again: no call for Bluetooth is in flight, and
    work is accepted for the device whose call was pending - for every device if none was. *)
Theorem disconnect_frees_workers (w : workers) address timeout now :
  tracked_ok w → (ble_future w = None ∨ ble_address w = Some address) →
  ∃ f, (submit_ble address timeout now (disconnect_workers w)).2 = Submitted f.
Proof.
  intros Ht Ha. unfold submit_ble.
  assert (Hd : is_live (ble_future (disconnect_workers w)) (disconnect_workers w) = false ∧
               address ∉ ble_degraded (disconnect_workers w)).
  { unfold disconnect_workers, _clear_stale_ble_future_for_reconnect, tracked_ok in *.
    unfold _reset_ble_degraded_state_after_disconnect, reset_executor_degraded_state,
      reset_all_degraded_state, reset_metadata_degraded.
    destruct Ha as [Hf|Ha].
    - rewrite Hf in Ht. destruct Ht as (Ha & _ & _). rewrite Hf, Ha. cbn.
      destruct (bool_decide (ble_degraded w = ∅)) eqn:E; cbn.
      + apply bool_decide_eq_true in E. rewrite Hf, E. split; [done|set_solver].
      + destruct (meta_degraded w); cbn; rewrite ?Hf; (split; [done|set_solver]).
    - rewrite Ha. destruct (is_live (ble_future w) w) eqn:El; cbn.
      + destruct (bool_decide (address ∈ ble_degraded w)) eqn:E; cbn; destruct (meta_degraded w); cbn;
          (split; [done|]); try set_solver; apply bool_decide_eq_false in E; done.
      + destruct (bool_decide (address ∈ ble_degraded w)) eqn:E; cbn; destruct (meta_degraded w); cbn;
          (split; [exact El|]); try set_solver; apply bool_decide_eq_false in E; done. }
  destruct Hd as [-> Hn]. rewrite bool_decide_eq_false_2 by done. by eexists.
Qed.

(** Without Bluetooth a reconnection does not restore the probes: the degraded state of their executor
    is only reset along with that of a Bluetooth device. *)
Lemma probes_stay_degraded (w : workers) (now : Q) :
  tracked_ok w → ble_future w = None → ble_degraded w = ∅ → meta_degraded w = true →
  is_live (meta_future w) w = false →
  (_submit_metadata_probe now (disconnect_workers w)).2 = Degraded.
Proof.
  intros Ht Hf Hd Hm Hl. unfold tracked_ok in Ht. rewrite Hf in Ht. destruct Ht as (Ha & _ & _).
  assert (E : disconnect_workers w = w).
  { unfold disconnect_workers, _clear_stale_ble_future_for_reconnect. rewrite Hf, Ha. cbn.
    by rewrite bool_decide_eq_true_2. }
  rewrite E. unfold _submit_metadata_probe. rewrite Hl. cbn [andb]. by rewrite Hm.
Qed.

(** ** Examples and witnesses *)

(** Five resets of a device whose worker hangs: the fifth degrades it. *)
Definition demo_hang (a : pystr) : list worker_op := [SubmitBle a 25 0; BleTimedOut a].
Definition demo_hung : workers :=
  foldl (run_op 1) init_workers (concat (replicate 5 (demo_hang (u "AA")))).

Example demo_degraded :
  (submit_ble (u "AA") 25 9 demo_hung).2 = Degraded ∧ (submit_ble (u "BB") 25 9 demo_hung).2 = Submitted 11 ∧
  (submit_ble (u "AA") 25 9 (disconnect_workers demo_hung)).2 = Submitted 11.
Proof. vm_compute. done. Qed.

Lemma degraded_until_reset_witness :
  (submit_ble (u "AA") 25 9
     (foldl (run_op 1) demo_hung [BleTimedOut (u "AA"); Finished 0])).2 ≠ Submitted 12.
Proof.
  apply (degraded_until_reset 1 demo_hung [BleTimedOut (u "AA"); Finished 0] (u "AA") 25 9 12).
  - vm_compute. reflexivity.
  - reflexivity.
Defined.

Lemma disconnect_frees_workers_witness :
  ∃ f, (submit_ble (u "AA") 25 9 (disconnect_workers demo_hung)).2 = Submitted f.
Proof.
  apply (disconnect_frees_workers demo_hung (u "AA") 25 9).
  - vm_compute. by split_and!.
  - left. vm_compute. reflexivity.
Defined.
