(* ===== verification/Reconnect.v ===== *)
(** * Loss of the connection and reconnection

    Models [on_lost_meshtastic_connection] and [reconnect] of [src/mmrelay/meshtastic/events.py] and
    the wrapper [connect_meshtastic] of [connection.py]: which events of a lost connection count, the
    tear-down of the client, the coroutine that tries to connect again with growing delays, and the gate
    that lets one attempt to connect run at a time.

    The set-up of a connection is [Connect.v], the workers are [Executors.v].  Here an attempt of the
    coroutine is known by its outcome.  The steps of a system are those of threads and
    coroutines between their locks and awaits: an event of the interface, a step of a reconnection,
    a shutdown, and the end of an attempt.  The countdown that is shown while waiting is one sleep. *)

From Stdlib Require Import String QArith.
From stdpp Require Import base tactics list numbers gmap.
From S2P Require Import Prelude PyStr Health Executors MeshInbound Connect.
Open Scope Z_scope.

Definition DEFAULT_BACKOFF_TIME : Z := 10.
Definition MAX_BACKOFF_TIME : Z := 300.

(** [min(backoff_time * 2, 300)] *)
Definition next_backoff (backoff_time : Z) : Z := Z.min (backoff_time * 2) MAX_BACKOFF_TIME.

(** Where a reconnection is: about to test for a shutdown, asleep, or connecting in a worker thread. *)
Inductive phase := AtTop | Sleeping | Connecting.
Record reconnection := { rn_backoff : Z; rn_phase : phase; rn_failures : nat }.

Record net := {
  nt_link : link; nt_workers : workers;
  nt_shutting_down : bool; nt_reconnecting : bool; nt_event_loop : bool;
  nt_tasks : list reconnection; nt_attempts : nat }.     (* coroutines alive; attempts begun *)

Definition with_tasks (l : list reconnection) (flag : bool) (s : net) : net :=
  {| nt_link := nt_link s; nt_workers := nt_workers s; nt_shutting_down := nt_shutting_down s;
     nt_reconnecting := flag; nt_event_loop := nt_event_loop s; nt_tasks := l;
     nt_attempts := nt_attempts s |}.

(** ** Losing the connection *)

(** [_derive_disconnect_detection_source]; [interface_source]: the interface's own note, if it is a
    string; [topic]: the name of the topic, if one was given. *)
Definition _derive_disconnect_detection_source (interface_source : option pystr) (detection_source : pystr)
    (topic : option pystr) : pystr :=
  if negb (str_eqb detection_source (u "unknown")) then detection_source else
  let noted :=
    match interface_source with
    | Some s =>
        let stripped := strip s in
        if startswith stripped (u "ble.") then strip (drop 4 stripped) else stripped
    | None => []
    end in
  match noted with
  | _ :: _ => noted
  | [] => match topic with Some name => name | None => u "meshtastic.connection.lost" end
  end.

(** The event is for the client in use, or there is none and it cannot be a late one. *)
Definition lost_event_counts (interface : option Z) (s : net) : bool :=
  match interface, ln_client (nt_link s) with
  | Some _, None =>
      negb (ln_tearing_down (nt_link s) || ln_subscribed (nt_link s) || nt_shutting_down s)
  | Some i, Some client => i =? default client (ln_active_client_id (nt_link s))
  | None, _ => true
  end.

(** The client is closed (the shared interface disconnected), and the probe put off is cancelled. *)
Definition tear_down (s : link) : link :=
  let s := match ln_client s with Some c => close_client c s | None => s end in
  with_probe_timer false (with_client None s).

(** [scheduled]: the event loop takes the coroutine. *)
Definition _schedule_reconnect_after_disconnect (scheduled : bool) (s : net) : net :=
  if nt_event_loop s && scheduled
  then with_tasks (nt_tasks s ++ [{| rn_backoff := DEFAULT_BACKOFF_TIME; rn_phase := AtTop; rn_failures := 0 |}])
         true s
  else with_tasks (nt_tasks s) false s.

Definition on_lost_meshtastic_connection (interface : option Z) (scheduled : bool) (s : net) : net :=
  if nt_shutting_down s then s
  else if negb (lost_event_counts interface s) then s
  else if nt_reconnecting s then s
  else
    _schedule_reconnect_after_disconnect scheduled
      {| nt_link := tear_down (nt_link s); nt_workers := disconnect_workers (nt_workers s);
         nt_shutting_down := nt_shutting_down s; nt_reconnecting := nt_reconnecting s;
         nt_event_loop := nt_event_loop s; nt_tasks := nt_tasks s; nt_attempts := nt_attempts s |}.

(** ** Reconnecting *)

(** How [connect_meshtastic(force_connect=True)] ends: with a client, without one, or by an exception. *)
Inductive connect_end := GotClient | NoClient | ConnectRaised.

(** What one step does to a coroutine: it goes on, begins an attempt, or is over. *)
Inductive advance := Goes (r : reconnection) | BeginsAttempt (r : reconnection) | Over.

Definition in_phase (p : phase) (r : reconnection) : reconnection :=
  {| rn_backoff := rn_backoff r; rn_phase := p; rn_failures := rn_failures r |}.
Definition failed (r : reconnection) : reconnection :=
  {| rn_backoff := next_backoff (rn_backoff r); rn_phase := AtTop; rn_failures := S (rn_failures r) |}.

(** [reconnect], from one await to the next. *)
Definition reconnect_step (shutting_down : bool) (e : connect_end) (r : reconnection) : advance :=
  match rn_phase r with
  | AtTop => if shutting_down then Over else Goes (in_phase Sleeping r)
  | Sleeping => if shutting_down then Over else BeginsAttempt (in_phase Connecting r)
  | Connecting =>
      match e with
      | GotClient => Over
      | NoClient | ConnectRaised => if shutting_down then Over else Goes (failed r)
      end
  end.

(** The steps of the system.  [Cancelled]: the coroutine is cancelled; the client is what an attempt
    published in the meantime. *)
Inductive net_step : net → net → Prop :=
  | StepLost s interface scheduled :
      net_step s (on_lost_meshtastic_connection interface scheduled s)
  | StepShutdown s :
      net_step s {| nt_link := nt_link s; nt_workers := nt_workers s; nt_shutting_down := true;
                    nt_reconnecting := nt_reconnecting s; nt_event_loop := nt_event_loop s;
                    nt_tasks := nt_tasks s; nt_attempts := nt_attempts s |}
  | StepConnection s l w :
      (* the client, the clock and the workers change: a connection is set up or torn down *)
      net_step s {| nt_link := l; nt_workers := w; nt_shutting_down := nt_shutting_down s;
                    nt_reconnecting := nt_reconnecting s; nt_event_loop := nt_event_loop s;
                    nt_tasks := nt_tasks s; nt_attempts := nt_attempts s |}
  | StepGoes s l1 r l2 e r' :
      nt_tasks s = l1 ++ r :: l2 → reconnect_step (nt_shutting_down s) e r = Goes r' →
      net_step s (with_tasks (l1 ++ r' :: l2) (nt_reconnecting s) s)
  | StepBegins s l1 r l2 e r' :
      nt_tasks s = l1 ++ r :: l2 → reconnect_step (nt_shutting_down s) e r = BeginsAttempt r' →
      net_step s {| nt_link := nt_link s; nt_workers := nt_workers s;
                    nt_shutting_down := nt_shutting_down s; nt_reconnecting := nt_reconnecting s;
                    nt_event_loop := nt_event_loop s; nt_tasks := l1 ++ r' :: l2;
                    nt_attempts := S (nt_attempts s) |}
  | StepOver s l1 r l2 e :
      nt_tasks s = l1 ++ r :: l2 → reconnect_step (nt_shutting_down s) e r = Over →
      net_step s (with_tasks (l1 ++ l2) false s)
  | StepCancelled s l1 r l2 :
      nt_tasks s = l1 ++ r :: l2 → net_step s (with_tasks (l1 ++ l2) false s).

Definition net_start (s : net) : Prop := nt_tasks s = [] ∧ nt_reconnecting s = false.

(** ** One attempt to connect at a time *)

(** A caller of [connect_meshtastic]: at the top of its loop or waiting, with its deadline; connecting; or
    returned. *)
Inductive caller := AtGate (deadline : Q) | Waits (deadline : Q) | Connects | Returned.

Record gate := { ga_in_progress : bool; ga_callers : list caller; ga_shutting_down : bool }.

(** What a caller does when it gets the lock: a waiting one is woken by a notification or after the
    poll time, and lets the lock go before it tries the gate again. *)
Definition take_turn (now : Q) (g : gate) (c : caller) : bool * caller :=
  match c with
  | AtGate deadline =>
      if negb (ga_in_progress g) then (true, Connects)
      else if qle deadline now then (true, Returned)
      else if ga_shutting_down g then (true, Returned)
      else (true, Waits deadline)
  | Waits deadline =>
      if ga_shutting_down g then (ga_in_progress g, Returned)
      else if ga_in_progress g then
        if qle deadline now then (true, Returned) else (true, Waits deadline)
      else (false, AtGate deadline)
  | Connects => (false, Returned)
  | Returned => (ga_in_progress g, Returned)
  end.

Definition arrive (now budget : Q) (g : gate) : gate :=
  {| ga_in_progress := ga_in_progress g; ga_callers := ga_callers g ++ [AtGate (now + budget)%Q];
     ga_shutting_down := ga_shutting_down g |}.

Inductive gate_step : gate → gate → Prop :=
  | GateArrive g now budget : gate_step g (arrive now budget g)
  | GateTurn g l1 c l2 now b c' :
      ga_callers g = l1 ++ c :: l2 → take_turn now g c = (b, c') →
      gate_step g {| ga_in_progress := b; ga_callers := l1 ++ c' :: l2;
                     ga_shutting_down := ga_shutting_down g |}
  | GateShutdown g :
      gate_step g {| ga_in_progress := ga_in_progress g; ga_callers := ga_callers g;
                     ga_shutting_down := true |}.

(** [wait_budget_secs] of a configuration that connects over Bluetooth, or not. *)
Definition _CONNECT_ATTEMPT_WAIT_MAX_SECS : Q := 5.
Definition _CONNECT_ATTEMPT_BLE_WAIT_MAX_SECS : Q := 25 + 5 + 20.
Definition wait_budget (ble : bool) : Q :=
  if ble then qmax _CONNECT_ATTEMPT_WAIT_MAX_SECS _CONNECT_ATTEMPT_BLE_WAIT_MAX_SECS
  else _CONNECT_ATTEMPT_WAIT_MAX_SECS.


(** ** One reconnection at a time *)

(** The delay after [n] failures. *)
Definition backoff_after (n : nat) : Z := Z.min (DEFAULT_BACKOFF_TIME * 2 ^ Z.of_nat n) MAX_BACKOFF_TIME.

Lemma backoff_succ n : backoff_after (S n) = next_backoff (backoff_after n).
Proof.
  unfold backoff_after, next_backoff, DEFAULT_BACKOFF_TIME, MAX_BACKOFF_TIME.
  rewrite Nat2Z.inj_succ, Z.pow_succ_r by lia.
  assert (0 < 2 ^ Z.of_nat n) by (apply Z.pow_pos_nonneg; lia). lia.
Qed.

(** At most one coroutine, which holds the flag and waits as long as its failures say. *)
Definition net_ok (s : net) : Prop :=
  (length (nt_tasks s) ≤ 1)%nat ∧ (nt_tasks s ≠ [] → nt_reconnecting s = true) ∧
  Forall (λ r, rn_backoff r = backoff_after (rn_failures r)) (nt_tasks s).

Lemma one_task (l1 l2 l : list reconnection) r : l = l1 ++ r :: l2 → (length l ≤ 1)%nat → l1 = [] ∧ l2 = [].
Proof. intros ->. rewrite length_app. destruct l1, l2; simpl; auto; lia. Qed.

Lemma step_goes shutting_down e r r' :
  reconnect_step shutting_down e r = Goes r' ∨ reconnect_step shutting_down e r = BeginsAttempt r' →
  rn_backoff r = backoff_after (rn_failures r) → rn_backoff r' = backoff_after (rn_failures r').
Proof.
  intros H Hr. unfold reconnect_step in H.
  destruct (rn_phase r), shutting_down, e, H as [H|H]; try done; injection H as <-; try exact Hr;
    cbn [failed rn_backoff rn_failures]; by rewrite backoff_succ, <- Hr.
Qed.

Lemma net_preserves : preserves net_step net_ok.
Proof.
  intros s s' Hstep (Hlen & Hflag & Hall). unfold net_ok.
  destruct Hstep as [s interface scheduled|s|s l w|s l1 r l2 e r' Ht Hr|s l1 r l2 e r' Ht Hr|s l1 r l2 e Ht Hr|s l1 r l2 Ht];
    try (split_and!; done).
  - unfold on_lost_meshtastic_connection. destruct (nt_shutting_down s); [by split_and!|].
    destruct (negb _); [by split_and!|]. destruct (nt_reconnecting s) eqn:Er; [by split_and!|].
    assert (Hnil : nt_tasks s = []) by (destruct (nt_tasks s); [done|by discriminate Hflag]).
    unfold _schedule_reconnect_after_disconnect. cbn [nt_event_loop nt_tasks]. rewrite Hnil.
    destruct (_ && _); cbn; split_and!; (lia || done || by repeat constructor).
  - destruct (one_task _ _ _ _ Ht Hlen) as [-> ->]. rewrite Ht in Hall, Hflag. cbn.
    apply Forall_inv in Hall.
    split_and!; [lia|by intros _; apply Hflag|]. constructor; [|done]. by eapply step_goes; eauto.
  - destruct (one_task _ _ _ _ Ht Hlen) as [-> ->]. rewrite Ht in Hall, Hflag. cbn.
    apply Forall_inv in Hall.
    split_and!; [lia|by intros _; apply Hflag|]. constructor; [|done]. by eapply step_goes; eauto.
  - destruct (one_task _ _ _ _ Ht Hlen) as [-> ->]. cbn. split_and!; [lia|done|constructor].
  - destruct (one_task _ _ _ _ Ht Hlen) as [-> ->]. cbn. split_and!; [lia|done|constructor].
Qed.

(** C14: however events of lost connections, attempts, cancellations and a shutdown
    interleave, there is never more than one reconnection under way; while there is one, the flag that
    turns other events away is set; and after [n] failures it waits [min(10 * 2^n, 300)] seconds. *)
Theorem single_reconnection s0 s r :
  net_start s0 → star net_step s0 s →
  (length (nt_tasks s) ≤ 1)%nat ∧
  (r ∈ nt_tasks s → nt_reconnecting s = true ∧ rn_backoff r = backoff_after (rn_failures r)).
Proof.
  intros [Ht Hf] Hs. assert (Hok : net_ok s).
  { apply (star_invariant net_step net_ok s0 s net_preserves Hs). unfold net_ok. rewrite Ht. split_and!; [simpl; lia|done|constructor]. }
  destruct Hok as (Hlen & Hflag & Hall). split; [done|]. intros Hr. split.
  - apply Hflag. intros E. rewrite E in Hr. by apply elem_of_nil in Hr.
  - by eapply (proj1 (Forall_forall _ _) Hall).
Qed.

(** Once a shutdown has begun no further attempt to connect is started, the flag stays up, and no
    further reconnection is begun. *)
Theorem no_attempt_after_shutdown s s' :
  nt_shutting_down s = true → star net_step s s' →
  nt_shutting_down s' = true ∧ nt_attempts s' = nt_attempts s ∧
  (length (nt_tasks s') ≤ length (nt_tasks s))%nat.
Proof.
  intros Hs Hstar.
  apply (star_invariant net_step
    (λ t, nt_shutting_down t = true ∧ nt_attempts t = nt_attempts s ∧ (length (nt_tasks t) ≤ length (nt_tasks s))%nat)
    s s'); [|exact Hstar|by split_and!].
  clear s' Hstar. intros t t' Hstep (Ht & Ha & Hl).
  destruct Hstep as [t interface scheduled|t|t l w|t l1 r l2 e r' Hts Hr|t l1 r l2 e r' Hts Hr|t l1 r l2 e Hts Hr|t l1 r l2 Hts].
  - unfold on_lost_meshtastic_connection. by rewrite Ht.
  - done.
  - done.
  - rewrite Ht in Hr. exfalso. unfold reconnect_step in Hr. destruct (rn_phase r), e; done.
  - rewrite Ht in Hr. exfalso. unfold reconnect_step in Hr. destruct (rn_phase r), e; done.
  - rewrite Hts in Hl. cbn. rewrite length_app in *. cbn in Hl. split_and!; [done..|lia].
  - rewrite Hts in Hl. cbn. rewrite length_app in *. cbn in Hl. split_and!; [done..|lia].
Qed.

(** An event of a lost connection for the client in use closes that client, forgets it with its guard,
    and starts one reconnection at the initial delay; one for another interface, during a
    shutdown or while a reconnection is under way changes nothing. *)
Theorem lost_connection_reconnects s client :
  ln_client (nt_link s) = Some client → ln_active_client_id (nt_link s) = Some client →
  nt_shutting_down s = false → nt_reconnecting s = false → nt_event_loop s = true →
  let s' := on_lost_meshtastic_connection (Some client) true s in
  ln_client (nt_link s') = None ∧ ln_active_client_id (nt_link s') = None ∧
  ln_closed (nt_link s') = ln_closed (nt_link s) ++ [client] ∧ nt_reconnecting s' = true ∧
  nt_tasks s' = nt_tasks s ++ [{| rn_backoff := DEFAULT_BACKOFF_TIME; rn_phase := AtTop; rn_failures := 0 |}] ∧
  (∀ other flag, other ≠ client → on_lost_meshtastic_connection (Some other) flag s = s) ∧
  (∀ i flag, on_lost_meshtastic_connection i flag s' = s').
Proof.
  intros Hc Ha Hs Hr He. cbv zeta.
  set (s' := on_lost_meshtastic_connection (Some client) true s).
  assert (Hs' : s' = _schedule_reconnect_after_disconnect true
      {| nt_link := tear_down (nt_link s); nt_workers := disconnect_workers (nt_workers s);
         nt_shutting_down := nt_shutting_down s; nt_reconnecting := nt_reconnecting s;
         nt_event_loop := nt_event_loop s; nt_tasks := nt_tasks s; nt_attempts := nt_attempts s |}).
  { unfold s', on_lost_meshtastic_connection, lost_event_counts. rewrite Hs, Hr, Hc, Ha. cbn. by rewrite Z.eqb_refl. }
  assert (Hrec : nt_reconnecting s' = true ∧ nt_shutting_down s' = false).
  { rewrite Hs'. unfold _schedule_reconnect_after_disconnect. cbn. by rewrite He, Hs. }
  destruct Hrec as [Hr' Hsd']. split_and!.
  1-5: rewrite Hs'; unfold _schedule_reconnect_after_disconnect; cbn; rewrite He; cbn; unfold tear_down; by rewrite ?Hc.
  - intros other flag Hne. unfold on_lost_meshtastic_connection, lost_event_counts. rewrite Hs, Hc, Ha. cbn.
    by destruct (Z.eqb_spec other client).
  - intros i flag. unfold on_lost_meshtastic_connection. rewrite Hsd', Hr'. by destruct (negb _).
Qed.

(** A connection lost again at once is overlooked: while the coroutine that made it has
    not ended yet, the event is taken for one of the reconnection under way, and no other is started. *)
Lemma lost_during_reconnection s client flag :
  nt_reconnecting s = true → ln_client (nt_link s) = Some client →
  on_lost_meshtastic_connection (Some client) flag s = s.
Proof.
  intros Hr Hc. unfold on_lost_meshtastic_connection. rewrite Hr.
  destruct (nt_shutting_down s); [done|]. by destruct (negb _).
Qed.

(** ** The gate *)

Definition connecting (c : caller) : bool := match c with Connects => true | _ => false end.
Definition running (g : gate) : nat := length (List.filter connecting (ga_callers g)).

Lemma running_split l1 c l2 :
  length (List.filter connecting (l1 ++ c :: l2))
  = (length (List.filter connecting (l1 ++ l2)) + (if connecting c then 1 else 0))%nat.
Proof.
  rewrite !List.filter_app, !length_app. cbn [List.filter]. destruct (connecting c); cbn [length]; lia.
Qed.

(** Attempts to connect never overlap: at any time at most one caller is connecting, and the
    marker tells exactly whether one is. *)
Theorem connect_exclusive g :
  star gate_step {| ga_in_progress := false; ga_callers := []; ga_shutting_down := false |} g →
  running g = if ga_in_progress g then 1%nat else 0%nat.
Proof.
  intros Hstar.
  apply (star_invariant gate_step (λ g, running g = if ga_in_progress g then 1%nat else 0%nat)
    {| ga_in_progress := false; ga_callers := []; ga_shutting_down := false |} g); [|exact Hstar|done].
  clear. unfold running. intros g g' Hstep Hg. destruct Hstep as [g now budget|g l1 c l2 now b c' Hc Ht|g]; [| |done].
  - cbn. by rewrite List.filter_app, length_app, Hg, Nat.add_0_r.
  - cbn [ga_callers ga_in_progress]. rewrite Hc, running_split in Hg. rewrite running_split.
    unfold take_turn in Ht. destruct c as [deadline|deadline| |]; cbn [connecting] in Hg;
      destruct (ga_in_progress g), (ga_shutting_down g); cbn [negb] in Ht;
      repeat destruct (qle _ _); injection Ht as <- <-; cbn [connecting]; lia.
Qed.

(** Nobody waits for ever: once its deadline has passed, or a shutdown has begun, a caller that waits is out of
    the loop after two turns, whatever the state of the gate at each of them; and it connects only if it found the
    gate free. *)
Theorem waiting_ends now g1 g2 deadline :
  qle deadline now = true ∨ ga_shutting_down g1 = true →
  let c1 := (take_turn now g1 (Waits deadline)).2 in
  let c2 := (take_turn now g2 c1).2 in
  (c2 = Connects ∨ c2 = Returned) ∧
  (c2 = Connects → ga_in_progress g1 = false ∧ ga_shutting_down g1 = false ∧ ga_in_progress g2 = false).
Proof.
  intros H. cbv zeta. unfold take_turn.
  destruct (ga_shutting_down g1); cbn; [by split; [right|]|].
  destruct H as [Hq|H]; [|done].
  destruct (ga_in_progress g1), (ga_in_progress g2); cbn; rewrite ?Hq; cbn; naive_solver.
Qed.

(** ** The hypotheses can be met *)

Definition demo_net : net :=
  {| nt_link := with_client (Some 7) demo_link; nt_workers := init_workers; nt_shutting_down := false;
     nt_reconnecting := false; nt_event_loop := true; nt_tasks := []; nt_attempts := 0 |}.

Definition demo_lost : net := Eval vm_compute in on_lost_meshtastic_connection (Some 7) true demo_net.
Definition demo_again : reconnection := {| rn_backoff := 20; rn_phase := AtTop; rn_failures := 1 |}.

(** The connection is lost and a first attempt fails. *)
Lemma demo_run : star net_step demo_net
  {| nt_link := nt_link demo_lost; nt_workers := nt_workers demo_lost; nt_shutting_down := false;
     nt_reconnecting := true; nt_event_loop := true; nt_tasks := [demo_again]; nt_attempts := 1 |}.
Proof.
  apply (star_step _ _ _ _ (StepLost demo_net (Some 7) true)).
  eapply star_step; [by eapply (StepGoes _ [] _ [] NoClient); vm_compute|].
  eapply star_step; [by eapply (StepBegins _ [] _ [] NoClient); vm_compute|].
  eapply star_step; [by eapply (StepGoes _ [] _ [] NoClient); vm_compute|].
  apply star_refl.
Qed.

Lemma single_reconnection_witness : (1 ≤ 1)%nat ∧ rn_backoff demo_again = backoff_after 1.
Proof.
  split; [lia|]. eapply (single_reconnection demo_net _ demo_again).
  - by split.
  - exact demo_run.
  - cbn. set_solver.
Defined.

Definition demo_closing : net :=
  {| nt_link := nt_link demo_lost; nt_workers := nt_workers demo_lost; nt_shutting_down := true;
     nt_reconnecting := true; nt_event_loop := true; nt_tasks := nt_tasks demo_lost; nt_attempts := 0 |}.

Lemma no_attempt_after_shutdown_witness : nt_attempts (with_tasks [] false demo_closing) = 0%nat.
Proof.
  apply (no_attempt_after_shutdown demo_closing).
  - reflexivity.
  - eapply star_step; [by apply (StepOver demo_closing [] _ [] NoClient eq_refl eq_refl)|]. apply star_refl.
Defined.

Lemma lost_connection_reconnects_witness :
  ln_closed (nt_link demo_lost) = [7] ∧ on_lost_meshtastic_connection (Some 8) true demo_net = demo_net.
Proof.
  edestruct (lost_connection_reconnects demo_net 7) as (_ & _ & Hc & _ & _ & Ho & _); try reflexivity.
  split; [exact Hc|]. apply Ho. discriminate.
Defined.

Lemma connect_exclusive_witness :
  running {| ga_in_progress := true; ga_callers := [Connects]; ga_shutting_down := false |} = 1%nat.
Proof.
  apply (connect_exclusive {| ga_in_progress := true; ga_callers := [Connects]; ga_shutting_down := false |}).
  apply (star_step _ _ _ _ (GateArrive _ 0 5)).
  eapply star_step; [by apply (GateTurn (arrive 0 5 _) [] (AtGate (0 + 5)) [] 1 true Connects)|]. apply star_refl.
Defined.

Definition demo_busy : gate := {| ga_in_progress := true; ga_callers := []; ga_shutting_down := false |}.

Lemma waiting_ends_witness :
  (take_turn 60 demo_busy (take_turn 60 demo_busy (Waits 50)).2).2 ≠ Waits 50.
Proof.
  edestruct (waiting_ends 60 demo_busy demo_busy 50) as [[H|H] _].
  - left. vm_compute. reflexivity.
  - intros E. rewrite E in H. discriminate H.
  - intros E. rewrite E in H. discriminate H.
Defined.
