(* ===== verification/NodeRefresh.v ===== *)
(** * Refresh of the node names, and metadata of the device

    Models [meshtastic/node_refresh.py] - the interval, the minimal copy of the node database, the
    task that synchronises the name tables from it ([NameSync]) -, the supervisor of that task in
    [main.py], and the device metadata of [meshtastic/metadata.py].

    The rounds of the task and the runs of the supervisor are given by what each of them finds.
    [other_str] is [str()] of containers and floats; [ci_char] and [is_word] are the comparison and
    the class of characters of [re], as in [Commands]. *)

From Stdlib Require Import String QArith Lqa.
From stdpp Require Import base tactics list numbers gmap sets.
From S2P Require Import Prelude PyStr PyValue Prefixes Settings Names NameSync Commands BasePlugin CorePlugins.
Open Scope Z_scope.

(** ** The interval *)

Definition CONFIG_KEY_NODEDB_REFRESH_INTERVAL : pystr := u "nodedb_refresh_interval".
Definition DEFAULT_NODEDB_REFRESH_INTERVAL : Q := 15.

Definition _parse_refresh_interval_seconds (raw_interval : pyval) : option Q :=
  if is_bool raw_interval then None else
  match float_of_val raw_interval with
  | Ok (FFin q) => if qlt q 0 then None else Some q
  | _ => None
  end.

(** [passed_config] None: the module's configuration is read. *)
Definition get_nodedb_refresh_interval_seconds (module_config : pyval) (passed_config : option pyval) : Q :=
  let config_source := default module_config passed_config in
  default DEFAULT_NODEDB_REFRESH_INTERVAL
    (_parse_refresh_interval_seconds
       (meshtastic_value config_source CONFIG_KEY_NODEDB_REFRESH_INTERVAL
          (VFloat (FFin DEFAULT_NODEDB_REFRESH_INTERVAL)))).

(** The interval of a run: an override that is no interval gives way to the configured one. *)
Definition refresh_interval (module_config : pyval) (refresh_interval_seconds : option pyval) : Q :=
  let configured := get_nodedb_refresh_interval_seconds module_config None in
  match refresh_interval_seconds with
  | None => configured
  | Some v => default configured (_parse_refresh_interval_seconds v)
  end.

(** ** The copy of the node database *)

Section snapshot.
Context (other_str : pyval → pystr).

Definition snapshot_row (raw_node : pyval) : pyval :=
  match raw_node with
  | VDict node =>
      match dget_none node (u "user") with
      | VDict raw_user =>
          VDict [(u "user", VDict [(u "id", dget_none raw_user (u "id"));
                                   (PROTO_NODE_NAME_LONG, dget_none raw_user PROTO_NODE_NAME_LONG);
                                   (PROTO_NODE_NAME_SHORT, dget_none raw_user PROTO_NODE_NAME_SHORT)])]
      | _ => VDict [(u "user", VDict [(u "id", VNone)])]
      end
  | _ => VDict [(u "user", VNone)]
  end.

Definition snapshot_rows (raw_nodes : list (pyval * pyval)) : pydict :=
  foldl (λ d kv, dset d (to_str other_str kv.1) (snapshot_row kv.2)) [] raw_nodes.

(** [client]: None without one, else its node database, which is None if it is no dictionary. *)
Definition _snapshot_node_name_rows (client : option (option (list (pyval * pyval))))
    : option pydict * bool :=
  match client with
  | None => (None, true)
  | Some None => (None, false)
  | Some (Some raw_nodes) => (Some (snapshot_rows raw_nodes), false)
  end.

(** ** The task *)

Inductive skip_reason := SkipReconnecting | SkipUnavailable.
#[export] Instance skip_reason_eq_dec : EqDecision skip_reason.
Proof. solve_decision. Defined.

(** What a round finds: the event at the top of the loop, the client, [reconnecting], the
    transactions that fail, whether the thread raises, and the event while it waits. *)
Record round := {
  rd_shutdown : bool; rd_client : option (option (list (pyval * pyval))); rd_reconnecting : bool;
  rd_errors : sync_errors; rd_raises : bool; rd_shutdown_waiting : bool }.

(** [rf_skips]: the messages logged about rounds without a client. *)
Record refresh_state := {
  rf_names : names; rf_previous : option (list NodeNameEntry);
  rf_reason : option skip_reason; rf_skips : list skip_reason }.

Definition refresh_round (r : round) (s : refresh_state) : refresh_state :=
  match _snapshot_node_name_rows (rd_client r) with
  | (None, true) =>
      let next_reason := if rd_reconnecting r then SkipReconnecting else SkipUnavailable in
      {| rf_names := rf_names s; rf_previous := rf_previous s; rf_reason := Some next_reason;
         rf_skips := if bool_decide (rf_reason s = Some next_reason) then rf_skips s
                     else rf_skips s ++ [next_reason] |}
  | (None, false) =>
      {| rf_names := rf_names s; rf_previous := rf_previous s; rf_reason := None; rf_skips := rf_skips s |}
  | (Some nodes_snapshot, _) =>
      let '(n, p) := sync_name_tables_if_changed (rd_errors r) (VDict nodes_snapshot) (rf_previous s)
                       (rf_names s) in
      {| rf_names := n; rf_previous := p; rf_reason := None; rf_skips := rf_skips s |}
  end.

Inductive refresh_end := RefreshReturns | RefreshRaises.

(** None: the task is still running after these rounds. *)
Fixpoint refresh_node_name_tables (interval : Q) (rounds : list round) (s : refresh_state)
    : refresh_state * option refresh_end :=
  match rounds with
  | [] => (s, None)
  | r :: rounds =>
      if rd_shutdown r then (s, Some RefreshReturns)
      else if rd_raises r then (s, Some RefreshRaises)
      else
        let s := refresh_round r s in
        if qle interval 0 then (s, Some RefreshReturns)
        else if rd_shutdown_waiting r then
          (* the next test of the event ends the loop *)
          (s, Some RefreshReturns)
        else refresh_node_name_tables interval rounds s
  end.
End snapshot.

Definition refresh_init (n : names) : refresh_state :=
  {| rf_names := n; rf_previous := None; rf_reason := None; rf_skips := [] |}.

(** ** The supervisor *)

Definition NODEDB_BACKOFF_INITIAL_SECS : Q := 1.
Definition NODEDB_BACKOFF_MAX_SECS : Q := 30.

(** How a run of the task ended, with the event at that time and while the supervisor waits. *)
Inductive run_end := RunCancelled | RunFailed | RunReturned.
Record supervised := { sv_end : run_end; sv_shutdown : bool; sv_shutdown_waiting : bool }.

(** The delays waited between the runs, and whether the supervisor has returned; [first]: the event
    is not looked at before the first run. *)
Fixpoint _node_name_refresh_supervisor (interval backoff_seconds : Q) (runs : list supervised)
    : list Q * bool :=
  match runs with
  | [] => ([], false)
  | r :: runs =>
      let wait (b : Q) :=
        if sv_shutdown_waiting r then ([b], true)
        else
          let '(delays, returned) :=
            _node_name_refresh_supervisor interval (qmin (b * 2) NODEDB_BACKOFF_MAX_SECS) runs in
          (b :: delays, returned) in
      match sv_end r with
      | RunCancelled => ([], true)
      | RunFailed => if sv_shutdown r || qle interval 0 then ([], true) else wait backoff_seconds
      | RunReturned => if sv_shutdown r || qle interval 0 then ([], true) else wait NODEDB_BACKOFF_INITIAL_SECS
      end
  end.

(** ** Firmware versions *)

Definition _normalize_firmware_version (value : pyval) : option pystr :=
  let text :=
    match value with VBytes b => Some (decode_ignore b) | VStr s => Some s | _ => None end in
  match text with
  | Some s =>
      let normalized := strip s in
      if nonempty normalized && negb (str_eqb (lower normalized) (u "unknown")) then Some normalized
      else None
  | None => None
  end.

(** A dictionary or an object with attributes; the two are read alike. *)
Definition _extract_firmware_version_from_metadata (metadata_source : option pydict) : option pystr :=
  match metadata_source with
  | None => None
  | Some m =>
      _normalize_firmware_version
        (py_or (dget_none m (u "firmware_version")) (dget_none m (u "firmwareVersion")))
  end.

Record local_node := {
  lo_metadata : option pydict; lo_iface_metadata : option pydict; lo_get_metadata : bool }.
Record mesh_client := { mc_metadata : option pydict; mc_local_node : option local_node }.

Definition _extract_firmware_version_from_client (client : mesh_client) : option pystr :=
  first_some _extract_firmware_version_from_metadata
    [mc_metadata client;
     match mc_local_node client with Some n => lo_metadata n | None => None end;
     match mc_local_node client with Some n => lo_iface_metadata n | None => None end].

Section firmware.
Context (ci_char : Z → Z → bool) (is_word : Z → bool).
Abbreviation prefix := (ci_prefix ci_char).

Definition is_quote (c : Z) : bool := (c =? 39) || (c =? 34).
Definition version_separator (c : Z) : bool := is_space c || (c =? 95) || (c =? 47) || (c =? 45).
Definition value_char (c : Z) : bool := negb (is_space c || is_quote c).

(** [firmware[\s_/-]*version\b\s*[:=]\s*['"]?\s*([^\s\r\n'"]+)] at the head of [s]. *)
Definition firmware_here (s : pystr) : option pystr :=
  match prefix (u "firmware") s with
  | None => None
  | Some r =>
      match prefix (u "version") (drop_while version_separator r) with
      | None => None
      | Some r =>
          match drop_while is_space r with
          | c :: r' =>
              if (match r with d :: _ => negb (is_word d) | [] => true end) && ((c =? 58) || (c =? 61)) then
                let r := drop_while is_space r' in
                let r := match r with c :: r' => if is_quote c then r' else r | [] => r end in
                match take_while value_char (drop_while is_space r) with
                | [] => None
                | v => Some v
                end
              else None
          | [] => None
          end
      end
  end.

(** [FIRMWARE_VERSION_REGEX.search]; [before]: the character in front is one of a word. *)
Fixpoint FIRMWARE_VERSION_REGEX (before : bool) (s : pystr) : option pystr :=
  match s with
  | [] => None
  | c :: s' =>
      match (if before then None else firmware_here s) with
      | Some v => Some v
      | None => FIRMWARE_VERSION_REGEX (is_word c) s'
      end
  end.

(** ** Device metadata *)

Definition METADATA_OUTPUT_MAX_LENGTH : Z := 4096.

Record device_metadata := { dv_firmware : pystr; dv_raw_output : pystr; dv_success : bool }.
Definition no_metadata : device_metadata :=
  {| dv_firmware := u "unknown"; dv_raw_output := []; dv_success := false |}.

(** Submitting the probe, and waiting for it. *)
Inductive probe_submission := ProbeDegraded | ProbeRefused | ProbeBusy | ProbeSubmitted.
Inductive probe_wait := ProbeDone | ProbeTimesOut | ProbeFails.
Inductive probe_error := MissingProbe | MetadataExecutorDegradedError | SubmissionError
  | ProbeTimeoutError | ProbeException.

(** [output]: what was captured by then (None: the buffer was closed); [client']: the client after
    the call. *)
Definition _get_device_metadata (client : mesh_client) (force_refresh raise_on_error : bool)
    (submission : probe_submission) (wait : probe_wait) (output : option pystr) (client' : mesh_client)
    : device_metadata + probe_error :=
  let failure e := if raise_on_error then inr e else inl no_metadata in
  let cached_firmware := _extract_firmware_version_from_client client in
  match (if force_refresh then None else cached_firmware) with
  | Some v => inl {| dv_firmware := v; dv_raw_output := []; dv_success := true |}
  | None =>
      if negb (match mc_local_node client with Some n => lo_get_metadata n | None => false end)
      then failure MissingProbe
      else
        match submission with
        | ProbeDegraded => failure MetadataExecutorDegradedError
        | ProbeRefused => failure SubmissionError
        | ProbeBusy => inl no_metadata
        | ProbeSubmitted =>
            match wait, raise_on_error with
            | ProbeFails, _ => failure ProbeException
            | ProbeTimesOut, true => inr ProbeTimeoutError
            | _, _ =>
                let console_output := default [] output in
                let raw_output :=
                  if METADATA_OUTPUT_MAX_LENGTH <? Z.of_nat (length console_output)
                  then take (Z.to_nat (Z.max (METADATA_OUTPUT_MAX_LENGTH - 1) 0)) console_output ++ [8230]
                  else console_output in
                let parsed_output_firmware :=
                  match FIRMWARE_VERSION_REGEX false console_output with
                  | Some v => _normalize_firmware_version (VStr v)
                  | None => None
                  end in
                match
                  match parsed_output_firmware with
                  | Some v => Some v
                  | None => _extract_firmware_version_from_client client'
                  end
                with
                | Some v => inl {| dv_firmware := v; dv_raw_output := raw_output; dv_success := true |}
                | None => inl {| dv_firmware := u "unknown"; dv_raw_output := raw_output; dv_success := false |}
                end
            end
        end
  end.
End firmware.

(** ** The copy is as good as the original *)

Section copy.
Context (other_str : pyval → pystr).
Abbreviation key := (to_str other_str).

Lemma collect_snapshot_row acc node : collect_node acc (snapshot_row node) = collect_node acc node.
Proof.
  unfold collect_node.
  destruct node as [| | | | | | |node|]; try done. unfold snapshot_row, node_identity.
  destruct (dget_none node (u "user")) as [| | | | | | |user|]; try done.
  change (dget_none [(u "user", ?v)] (u "user")) with v. cbv iota.
  change (dget_none ((u "id", ?v) :: _) (u "id")) with v.
  destruct (dget_none user (u "id")) as [| |z| |[|c s]| | | |]; reflexivity.
Qed.

Lemma dset_new (d : pydict) k v : k ∉ d.*1 → dset d k v = d ++ [(k, v)].
Proof.
  induction d as [|[k' w] d IH]; intros Hk; [done|]. cbn [fmap list_fmap fst] in Hk. cbn [dset app].
  apply not_elem_of_cons in Hk as [Hne Hk].
  destruct (str_eqb k' k) eqn:E; [apply str_eqb_spec in E; congruence|]. by rewrite IH.
Qed.

Lemma snapshot_rows_map raw :
  NoDup (key <$> raw.*1) → snapshot_rows other_str raw = (λ kv, (key kv.1, snapshot_row kv.2)) <$> raw.
Proof.
  unfold snapshot_rows. intros Hnd.
  enough (H : ∀ acc, (∀ k, k ∈ acc.*1 → k ∉ key <$> raw.*1) →
    foldl (λ d kv, dset d (key kv.1) (snapshot_row kv.2)) acc raw
    = acc ++ ((λ kv, (key kv.1, snapshot_row kv.2)) <$> raw)).
  { rewrite H; [done|]. intros k Hk. by apply elem_of_nil in Hk. }
  revert Hnd. induction raw as [|[k v] raw IH]; intros Hnd acc Hacc; [by rewrite app_nil_r|].
  cbn [fmap list_fmap fst snd foldl] in *. apply NoDup_cons in Hnd as [Hk Hnd].
  rewrite dset_new; [|intros Hin; apply (Hacc _ Hin); by left].
  rewrite IH; [by rewrite <- app_assoc|done|].
  intros k' Hk'. rewrite fmap_app in Hk'. apply elem_of_app in Hk' as [Hk'|Hk'].
  - intros Hin. apply (Hacc _ Hk'). by right.
  - cbn in Hk'. apply list_elem_of_singleton in Hk' as ->. done.
Qed.

Lemma foldl_snapshot_rows raw acc :
  foldl collect_node acc ((λ kv : pyval * pyval, (key kv.1, snapshot_row kv.2)) <$> raw).*2
  = foldl collect_node acc raw.*2.
Proof.
  revert acc. induction raw as [|[k v] raw IH]; intros acc; [done|].
  cbn [fmap list_fmap fst snd foldl] in *. by rewrite collect_snapshot_row, IH.
Qed.

(** The minimal copy of the node database that the task makes under the lock is as good as the
    database itself: a cycle on the copy gives the tables and the state that a cycle on the whole
    database would, whatever it holds, given that its keys are different as strings. *)
Theorem copy_loses_nothing errs raw prev n :
  NoDup (key <$> raw.*1) →
  sync_name_tables_if_changed errs (VDict (snapshot_rows other_str raw)) prev n
  = sync_name_tables_if_changed errs (VDict ((λ kv, (key kv.1, kv.2)) <$> raw)) prev n.
Proof.
  intros Hnd. rewrite (snapshot_rows_map raw Hnd).
  assert (H : ∀ l : pydict, l.*2 = raw.*2 →
    _collect_node_name_snapshot (VDict ((λ kv, (key kv.1, snapshot_row kv.2)) <$> raw))
    = _collect_node_name_snapshot (VDict l)).
  { intros l Hl. unfold _collect_node_name_snapshot. pose proof (foldl_snapshot_rows raw snapshot_init) as Hf.
    destruct raw as [|kv raw], l as [|kv' l]; try done. cbn [fmap list_fmap] in *. by rewrite Hf, <- Hl. }
  unfold sync_name_tables_if_changed. rewrite (H ((λ kv, (key kv.1, kv.2)) <$> raw)).
  - by destruct raw.
  - rewrite <- list_fmap_compose. by apply list_fmap_ext.
Qed.

(** ** The task *)

Definition quiet (r : round) : bool := negb (rd_shutdown r || rd_raises r || rd_shutdown_waiting r).

(** The task ends when it should: with the interval zero it makes one pass, and otherwise it
    runs on exactly as long as no round raises and the event is not set. *)
Theorem refresh_runs_while_quiet interval rounds s :
  (refresh_node_name_tables other_str interval rounds s).2 = None ↔
  rounds = [] ∨ qle interval 0 = false ∧ forallb quiet rounds = true.
Proof.
  revert s. induction rounds as [|r rounds IH]; intros s; [cbn; tauto|].
  cbn [refresh_node_name_tables forallb]. unfold quiet at 1.
  destruct (rd_shutdown r), (rd_raises r); cbn [orb negb andb snd]; try (split; [done|intros [?|[]]; done]).
  destruct (qle interval 0); cbn [snd]; [split; [done|intros [?|[]]; done]|].
  destruct (rd_shutdown_waiting r); cbn [snd negb andb]; [split; [done|intros [?|[]]; done]|].
  rewrite IH. split; [|intros [?|[_ ?]]; [done|auto]]. intros [->|[_ ?]]; auto.
Qed.

(** Once a round has read a complete node database and written it without an error, the task
    leaves the tables and its state as they are, for as long as the rounds find the same database. *)
Theorem refresh_settles interval raw r rounds s :
  raw ≠ [] → NoDup (key <$> raw.*1) →
  (_collect_node_name_snapshot (VDict (snapshot_rows other_str raw))).2 = true →
  Forall (λ r', rd_client r' = Some (Some raw) ∧ rd_errors r' = no_errors) (r :: rounds) →
  rd_shutdown r = false → rd_raises r = false →
  (refresh_node_name_tables other_str interval (r :: rounds) s).1 = refresh_round other_str r s.
Proof.
  intros Hne Hnd Hc Hall Hs Hr. apply Forall_cons in Hall as [[Hcl Herr] Hall].
  assert (Hne' : snapshot_rows other_str raw ≠ []).
  { rewrite (snapshot_rows_map raw Hnd). by destruct raw. }
  assert (Hfix : ∀ r', rd_client r' = Some (Some raw) ∧ rd_errors r' = no_errors →
    refresh_round other_str r' (refresh_round other_str r s) = refresh_round other_str r s).
  { intros r' [Hcl' Herr']. unfold refresh_round. rewrite Hcl, Hcl', Herr, Herr'. cbn [_snapshot_node_name_rows].
    pose proof (complete_cycle_fixpoint _ (rf_previous s) (rf_names s) Hne' Hc) as H. cbv zeta in H.
    destruct (sync_name_tables_if_changed no_errors _ (rf_previous s) (rf_names s)) as [n p].
    cbn [rf_previous rf_names rf_skips]. by rewrite H. }
  cbn [refresh_node_name_tables]. rewrite Hs, Hr.
  destruct (qle interval 0); [done|]. destruct (rd_shutdown_waiting r); [done|].
  clear Hs Hr. set (t := refresh_round other_str r s) in *. clearbody t.
  induction Hall as [|r' rounds Hr' _ IH]; [done|]. cbn [refresh_node_name_tables].
  destruct (rd_shutdown r'); [done|]. destruct (rd_raises r'); [done|].
  rewrite (Hfix r' Hr'). destruct (qle interval 0); [done|]. by destruct (rd_shutdown_waiting r').
Qed.
End copy.

(** ** The supervisor *)

(** The delay after [k] failures in a row. *)
Definition restart_delay (k : nat) : Q := inject_Z (Z.min (2 ^ Z.of_nat k) 30).

Lemma restart_delay_succ k : qmin (restart_delay k * 2) NODEDB_BACKOFF_MAX_SECS = restart_delay (S k).
Proof.
  unfold restart_delay, qmin, NODEDB_BACKOFF_MAX_SECS.
  change (inject_Z (Z.min (2 ^ Z.of_nat k) 30) * 2)%Q with (inject_Z (Z.min (2 ^ Z.of_nat k) 30 * 2)).
  change (30 : Q) with (inject_Z 30). rewrite Nat2Z.inj_succ, Z.pow_succ_r by lia.
  destruct (qle _ _) eqn:E; q_bool; [rewrite <- Zle_Qle in E|rewrite <- Zlt_Qlt in E]; f_equal; lia.
Qed.

Lemma delays_bounded interval b runs d :
  (1 <= b <= 30)%Q → d ∈ (_node_name_refresh_supervisor interval b runs).1 → (1 <= d <= 30)%Q.
Proof.
  revert b. induction runs as [|r runs IH]; intros b Hb; cbn; [by intros ?%elem_of_nil|].
  assert (Hq : ∀ b', (1 <= b' <= 30)%Q → (1 <= qmin (b' * 2) NODEDB_BACKOFF_MAX_SECS <= 30)%Q).
  { intros b' Hb'. unfold qmin, NODEDB_BACKOFF_MAX_SECS. destruct (qle _ _) eqn:E; q_bool; lra. }
  assert (Hwait : ∀ b', (1 <= b' <= 30)%Q →
    d ∈ (if sv_shutdown_waiting r then ([b'], true)
         else let '(delays, returned) :=
                _node_name_refresh_supervisor interval (qmin (b' * 2) NODEDB_BACKOFF_MAX_SECS) runs in
              (b' :: delays, returned)).1 → (1 <= d <= 30)%Q).
  { intros b' Hb'. specialize (IH _ (Hq b' Hb')).
    destruct (sv_shutdown_waiting r); [by intros ->%list_elem_of_singleton|].
    destruct (_node_name_refresh_supervisor _ _ _) as [l ret]. cbn [fst] in *.
    intros [->|Hd]%elem_of_cons; auto. }
  destruct (sv_end r); [by intros ?%elem_of_nil| |];
    destruct (_ || _); try (by intros ?%elem_of_nil); apply Hwait; [done|].
  unfold NODEDB_BACKOFF_INITIAL_SECS. lra.
Qed.

(** The supervisor restarts a task that keeps failing after 1, 2, 4, ... seconds, at most 30; whatever
    the runs do it never waits less than one second or more than 30, and it does not
    restart the task in one-shot mode or after a shutdown. *)
Theorem supervisor_backs_off interval n runs :
  qle interval 0 = false →
  _node_name_refresh_supervisor interval NODEDB_BACKOFF_INITIAL_SECS
    (replicate n {| sv_end := RunFailed; sv_shutdown := false; sv_shutdown_waiting := false |})
  = (restart_delay <$> seq 0 n, false) ∧
  (∀ d, d ∈ (_node_name_refresh_supervisor interval NODEDB_BACKOFF_INITIAL_SECS runs).1 → (1 <= d <= 30)%Q) ∧
  (∀ i r, i = 0%Q ∨ sv_shutdown r = true →
    _node_name_refresh_supervisor i NODEDB_BACKOFF_INITIAL_SECS (r :: runs) = ([], true)).
Proof.
  intros Hi. split_and!.
  - change NODEDB_BACKOFF_INITIAL_SECS with (restart_delay 0). generalize 0%nat.
    induction n as [|n IH]; intros k; [done|].
    cbn [replicate _node_name_refresh_supervisor sv_end sv_shutdown sv_shutdown_waiting orb seq fmap list_fmap].
    rewrite Hi, restart_delay_succ. specialize (IH (S k)).
    change (qmin (restart_delay (S k) * 2) NODEDB_BACKOFF_MAX_SECS) with
      (qmin (restart_delay (S k) * 2) NODEDB_BACKOFF_MAX_SECS) in IH.
    by rewrite IH.
  - intros d. apply delays_bounded. unfold NODEDB_BACKOFF_INITIAL_SECS. lra.
  - intros i r H. cbn [_node_name_refresh_supervisor]. destruct (sv_end r); [done| |];
      destruct H as [->| ->]; try done; by rewrite orb_true_r.
Qed.

(** ** Metadata *)

Lemma normalized_version v s :
  _normalize_firmware_version v = Some s → s ≠ [] ∧ strip s = s ∧ lower s ≠ u "unknown".
Proof.
  unfold _normalize_firmware_version. intros H.
  destruct v; try done; cbv zeta in H; destruct (_ && _) eqn:E in H; try done; injection H as <-;
    apply andb_true_iff in E as [E1 E2]; apply negb_true_iff in E2;
    (split_and!; [by apply nonempty_spec|by rewrite strip_idemp|intros Hu; by rewrite Hu, str_eqb_refl in E2]).
Qed.

Lemma client_version c s :
  _extract_firmware_version_from_client c = Some s → s ≠ [] ∧ strip s = s ∧ lower s ≠ u "unknown".
Proof.
  intros (? & [m|] & ? & _ & Hm & _)%first_some_Some; [by eapply normalized_version|done].
Qed.

(** A version that is one, or "unknown", and bounded output. *)
Definition metadata_ok (d : device_metadata) : Prop :=
  (if dv_success d
   then dv_firmware d ≠ [] ∧ strip (dv_firmware d) = dv_firmware d ∧ lower (dv_firmware d) ≠ u "unknown"
   else dv_firmware d = u "unknown") ∧
  Z.of_nat (length (dv_raw_output d)) ≤ METADATA_OUTPUT_MAX_LENGTH.

Lemma no_metadata_ok : metadata_ok no_metadata.
Proof. split; [done|]. done. Qed.

Lemma cut_output (o : pystr) :
  Z.of_nat (length (if METADATA_OUTPUT_MAX_LENGTH <? Z.of_nat (length o)
                    then take (Z.to_nat (Z.max (METADATA_OUTPUT_MAX_LENGTH - 1) 0)) o ++ [8230] else o))
  ≤ METADATA_OUTPUT_MAX_LENGTH.
Proof.
  destruct (Z.ltb_spec METADATA_OUTPUT_MAX_LENGTH (Z.of_nat (length o))); [|lia].
  rewrite length_app, length_take. cbn [length]. unfold METADATA_OUTPUT_MAX_LENGTH in *. lia.
Qed.

(** What is read after a probe: from the output, or else from the client. *)
Lemma probed_version ci_char is_word o client v :
  match (match FIRMWARE_VERSION_REGEX ci_char is_word false o with
         | Some v => _normalize_firmware_version (VStr v) | None => None end) with
  | Some v => Some v
  | None => _extract_firmware_version_from_client client
  end = Some v → v ≠ [] ∧ strip v = v ∧ lower v ≠ u "unknown".
Proof.
  intros Hv. destruct (FIRMWARE_VERSION_REGEX _ _ _ _) as [w|]; [|by eapply client_version].
  destruct (_normalize_firmware_version (VStr w)) as [x|] eqn:En; [|by eapply client_version].
  injection Hv as <-. by eapply normalized_version.
Qed.

Lemma found_ok (r : option pystr) (o : pystr) d :
  (∀ v, r = Some v → v ≠ [] ∧ strip v = v ∧ lower v ≠ u "unknown") →
  Z.of_nat (length o) ≤ METADATA_OUTPUT_MAX_LENGTH →
  match r with
  | Some v => inl {| dv_firmware := v; dv_raw_output := o; dv_success := true |}
  | None => @inl _ probe_error {| dv_firmware := u "unknown"; dv_raw_output := o; dv_success := false |}
  end = inl d → metadata_ok d.
Proof. intros Hr Ho. destruct r as [v|]; intros [= <-]; (split; [|done]); [by apply Hr|done]. Qed.

(** Metadata is optional: unless told to raise, [_get_device_metadata] returns whatever goes
    wrong; what it returns is marked a success exactly if it holds a version - not blank, stripped, not
    "unknown" - and "unknown" is reported otherwise; at most 4096 characters of output are kept; and
    a version that is known already is returned without a probe unless one is forced. *)
Theorem metadata_well_formed ci_char is_word client force submission wait output client' :
  let get raises :=
    _get_device_metadata ci_char is_word client force raises submission wait output client' in
  (∃ d, get false = inl d) ∧
  (∀ raises d, get raises = inl d → metadata_ok d) ∧
  (∀ v raises, force = false → _extract_firmware_version_from_client client = Some v →
    get raises = inl {| dv_firmware := v; dv_raw_output := []; dv_success := true |}).
Proof.
  cbv zeta. unfold _get_device_metadata. cbv zeta. split_and!.
  - destruct (if force then None else _) as [v|]; [by eexists|]. destruct (negb _); [by eexists|].
    destruct submission; try by eexists. destruct wait; try by eexists.
    all: destruct (match match FIRMWARE_VERSION_REGEX _ _ _ _ with Some _ => _ | None => _ end with
                   | Some _ => _ | None => _ end); by eexists.
  - intros raises d. pose proof no_metadata_ok as Hno.
    destruct (if force then None else _) as [v|] eqn:Ev.
    { intros [= <-]. destruct force; [done|]. apply client_version in Ev. by split. }
    destruct (negb _); [destruct raises; [done|]; by intros [= <-]|].
    destruct submission; try (destruct raises; [done|]; by intros [= <-]); [by intros [= <-]|].
    destruct wait; [|destruct raises; [done|]|destruct raises; [done|]; by intros [= <-]];
      exact (found_ok _ _ d (probed_version _ _ _ client') (cut_output _)).
  - intros v raises -> ->. done.
Qed.

(** ** Examples *)

Example demo_intervals :
  _parse_refresh_interval_seconds (VStr (u "2.5")) = Some (25 # 10)%Q ∧
  _parse_refresh_interval_seconds (VBool true) = None ∧
  _parse_refresh_interval_seconds (VFloat (FInf false)) = None ∧
  refresh_interval VNone (Some (VInt (-1))) = 15%Q.
Proof. vm_compute. done. Qed.

Example demo_firmware :
  FIRMWARE_VERSION_REGEX ascii_ci ascii_word false (u "Owner: x Firmware_Version : '2.7.1.ab' hw: 4")
    = Some (u "2.7.1.ab") ∧
  FIRMWARE_VERSION_REGEX ascii_ci ascii_word false (u "oldfirmware version: 1") = None ∧
  FIRMWARE_VERSION_REGEX ascii_ci ascii_word false (u "firmware versions: 1") = None.
Proof. vm_compute. done. Qed.

Definition demo_raw : list (pyval * pyval) :=
  [(VStr (u "!a"), VDict [(u "user", VDict [(u "id", VStr (u "!a")); (u "longName", VStr (u "Ann"))]);
                          (u "snr", VInt 5)])].
Definition demo_round : round :=
  {| rd_shutdown := false; rd_client := Some (Some demo_raw); rd_reconnecting := false;
     rd_errors := no_errors; rd_raises := false; rd_shutdown_waiting := false |}.

Lemma demo_raw_keys : NoDup (to_str (λ _, u "other") <$> demo_raw.*1).
Proof. repeat constructor. by intros ?%elem_of_nil. Qed.

Lemma copy_loses_nothing_witness :
  sync_name_tables_if_changed no_errors (VDict (snapshot_rows (λ _, u "other") demo_raw)) None
    {| nm_long := ∅; nm_short := ∅ |}
  = sync_name_tables_if_changed no_errors
      (VDict ((λ kv, (to_str (λ _, u "other") kv.1, kv.2)) <$> demo_raw)) None {| nm_long := ∅; nm_short := ∅ |}.
Proof. apply (copy_loses_nothing (λ _, u "other") no_errors demo_raw). exact demo_raw_keys. Defined.

Lemma refresh_settles_witness :
  (refresh_node_name_tables (λ _, u "other") 15 [demo_round; demo_round]
     (refresh_init {| nm_long := ∅; nm_short := ∅ |})).1
  = refresh_round (λ _, u "other") demo_round (refresh_init {| nm_long := ∅; nm_short := ∅ |}).
Proof.
  apply (refresh_settles (λ _, u "other") 15 demo_raw).
  - discriminate.
  - exact demo_raw_keys.
  - vm_compute. reflexivity.
  - repeat constructor.
  - reflexivity.
  - reflexivity.
Defined.

Lemma supervisor_backs_off_witness :
  _node_name_refresh_supervisor 15 NODEDB_BACKOFF_INITIAL_SECS
    (replicate 7 {| sv_end := RunFailed; sv_shutdown := false; sv_shutdown_waiting := false |})
  = ([1; 2; 4; 8; 16; 30; 30]%Q, false).
Proof.
  destruct (supervisor_backs_off 15 7 []) as [H _].
  - vm_compute. reflexivity.
  - rewrite H. vm_compute. reflexivity.
Defined.
