(* ===== verification/DaemonExecutor.v ===== *)
(** * The executor of daemon threads

    Models [DaemonThreadExecutor] of [meshtastic/daemon_executor.py] as a transition system: the
    queue of work and exit signals, the worker threads, the futures, and the calls of [submit],
    [cancel] and [shutdown] in any order.

    A worker's steps are cut at the points where it waits: it takes an item, its call ends, it
    leaves the set of threads.  [submit] and [shutdown] are atomic: they hold the executor's lock,
    and what a worker takes from the queue meanwhile it could have taken before.  Starting a thread
    is taken to succeed; with [wait], [shutdown] waits for the end of the threads besides. *)

From stdpp Require Import base tactics list numbers gmap sets.
From Stdlib Require Import Sorted.
From S2P Require Import Prelude.

Inductive item := Work (f : nat) | Stop.
Inductive worker := Idle | Running (f : nat) | Leaving.
Inductive future_state := Pending | RunningF | Cancelled | Finished.

(** [ex_started]: the calls begun, in their order. *)
Record executor := {
  ex_max : nat; ex_queue : list item; ex_threads : list worker; ex_shutdown : bool;
  ex_futures : gmap nat future_state; ex_next : nat; ex_started : list nat }.

Definition executor_init (max_workers : nat) : executor :=
  {| ex_max := max_workers; ex_queue := []; ex_threads := []; ex_shutdown := false;
     ex_futures := ∅; ex_next := 0; ex_started := [] |}.

(** [set_running_or_notify_cancel] *)
Definition is_cancelled (s : executor) (f : nat) : bool :=
  match ex_futures s !! f with Some Cancelled => true | _ => false end.

Definition _start_worker_if_needed_locked (max_workers : nat) (threads : list worker) : list worker :=
  if (max_workers <=? length threads)%nat then threads else threads ++ [Idle].

(** None: RuntimeError. *)
Definition submit (s : executor) : option (executor * nat) :=
  if ex_shutdown s then None else
  let future := ex_next s in
  Some ({| ex_max := ex_max s; ex_queue := ex_queue s ++ [Work future];
           ex_threads := _start_worker_if_needed_locked (ex_max s) (ex_threads s);
           ex_shutdown := false; ex_futures := <[future := Pending]> (ex_futures s);
           ex_next := S future; ex_started := ex_started s |}, future).

(** [Future.cancel] on a future that is not running or done. *)
Definition cancel_pending (m : gmap nat future_state) (f : nat) : gmap nat future_state :=
  match m !! f with Some Pending => <[f := Cancelled]> m | _ => m end.

Definition works (q : list item) : list nat := omap (λ i, match i with Work f => Some f | Stop => None end) q.

Definition shutdown (cancel_futures : bool) (s : executor) : executor :=
  {| ex_max := ex_max s;
     ex_queue := (if cancel_futures then [] else ex_queue s) ++ replicate (length (ex_threads s)) Stop;
     ex_threads := ex_threads s; ex_shutdown := true;
     ex_futures := if cancel_futures then foldl cancel_pending (ex_futures s) (works (ex_queue s))
                   else ex_futures s;
     ex_next := ex_next s; ex_started := ex_started s |}.

Definition set_threads (t : list worker) (s : executor) : executor :=
  {| ex_max := ex_max s; ex_queue := ex_queue s; ex_threads := t; ex_shutdown := ex_shutdown s;
     ex_futures := ex_futures s; ex_next := ex_next s; ex_started := ex_started s |}.
Definition set_futures (m : gmap nat future_state) (s : executor) : executor :=
  {| ex_max := ex_max s; ex_queue := ex_queue s; ex_threads := ex_threads s; ex_shutdown := ex_shutdown s;
     ex_futures := m; ex_next := ex_next s; ex_started := ex_started s |}.
Definition taken (q : list item) (started : list nat) (s : executor) : executor :=
  {| ex_max := ex_max s; ex_queue := q; ex_threads := ex_threads s; ex_shutdown := ex_shutdown s;
     ex_futures := ex_futures s; ex_next := ex_next s; ex_started := ex_started s ++ started |}.

(** The next step of a worker, and what becomes of it: None while it has to wait for an item, [[]] when
    it is gone. *)
Definition _worker (w : worker) (s : executor) : option (executor * list worker) :=
  match w with
  | Idle =>
      match ex_queue s with
      | [] => None
      | Stop :: q => Some (taken q [] s, [Leaving])
      | Work f :: q =>
          if is_cancelled s f then Some (taken q [] s, [Idle])
          else Some (set_futures (<[f := RunningF]> (ex_futures s)) (taken q [f] s), [Running f])
      end
  | Running f => Some (set_futures (<[f := Finished]> (ex_futures s)) s, [Idle])
  | Leaving => Some (s, [])
  end.

Inductive worker_step : executor → executor → Prop :=
  | WorkerStep s l1 w l2 s' w' :
      ex_threads s = l1 ++ w :: l2 → _worker w s = Some (s', w') →
      worker_step s (set_threads (l1 ++ w' ++ l2) s').

Inductive step : executor → executor → Prop :=
  | StepWorker s s' : worker_step s s' → step s s'
  | StepSubmit s s' f : submit s = Some (s', f) → step s s'
  | StepCancel s f : step s (set_futures (cancel_pending (ex_futures s) f) s)
  | StepShutdown s cancel_futures : step s (shutdown cancel_futures s).

Definition reachable (max_workers : nat) (s : executor) : Prop := star step (executor_init max_workers) s.

(** ** The invariant *)

Definition leaving (w : worker) : bool := match w with Leaving => true | _ => false end.
Fixpoint stops (q : list item) : nat :=
  match q with [] => 0 | Stop :: q => S (stops q) | Work _ :: q => stops q end.
(** The workers that have taken no exit signal yet. *)
Definition staying (t : list worker) : nat := length (List.filter (λ w, negb (leaving w)) t).

Record executor_ok (s : executor) : Prop := {
  eo_max : length (ex_threads s) ≤ ex_max s;
  eo_open : ex_shutdown s = false → stops (ex_queue s) = 0 ∧ forallb (λ w, negb (leaving w)) (ex_threads s) = true;
  eo_shut : ex_shutdown s = true → staying (ex_threads s) ≤ stops (ex_queue s);
  eo_served : ex_shutdown s = false → ex_queue s ≠ [] → ex_threads s ≠ [];
  eo_order : StronglySorted lt (ex_started s ++ works (ex_queue s));
  eo_next : Forall (λ f, f < ex_next s) (ex_started s ++ works (ex_queue s));
  eo_running : Forall (λ f, ex_futures s !! f = Some RunningF ∨ ex_futures s !! f = Some Finished) (ex_started s);
  eo_threads : Forall (λ w, match w with Running f => f ∈ ex_started s | _ => True end) (ex_threads s);
  eo_queued : Forall (λ f, ex_futures s !! f = Some Pending ∨ ex_futures s !! f = Some Cancelled)
                (works (ex_queue s)) }.

Lemma works_app q1 q2 : works (q1 ++ q2) = works q1 ++ works q2.
Proof. apply omap_app. Qed.
Lemma works_stops n : works (replicate n Stop) = [].
Proof. by induction n. Qed.
Lemma stops_app q1 q2 : stops (q1 ++ q2) = stops q1 + stops q2.
Proof. induction q1 as [|[f|] q1 IH]; cbn; by rewrite ?IH. Qed.
Lemma stops_replicate n : stops (replicate n Stop) = n.
Proof. induction n as [|n IH]; cbn; by rewrite ?IH. Qed.
Lemma staying_app t1 t2 : staying (t1 ++ t2) = staying t1 + staying t2.
Proof. unfold staying. by rewrite List.filter_app, length_app. Qed.
Lemma staying_le t : staying t ≤ length t.
Proof. unfold staying. induction t as [|[]]; cbn; lia. Qed.

Lemma sorted_drop_mid (l1 l2 : list nat) x : StronglySorted lt (l1 ++ x :: l2) → StronglySorted lt (l1 ++ l2).
Proof.
  induction l1 as [|y l1 IH]; cbn; intros H; apply StronglySorted_inv in H as [H Hf]; [done|].
  constructor; [by apply IH|]. rewrite Forall_app in Hf. destruct Hf as [? [_ ?]%Forall_cons].
  by apply Forall_app.
Qed.
Lemma sorted_prefix (l1 l2 : list nat) : StronglySorted lt (l1 ++ l2) → StronglySorted lt l1.
Proof.
  induction l1 as [|y l1 IH]; cbn; intros H; [constructor|]. apply StronglySorted_inv in H as [H Hf].
  constructor; [by apply IH|]. by apply Forall_app in Hf as [? _].
Qed.
Lemma sorted_add (l : list nat) x : StronglySorted lt l → Forall (λ y, y < x) l → StronglySorted lt (l ++ [x]).
Proof.
  induction l as [|y l IH]; cbn; intros H Hx; [repeat constructor|].
  apply StronglySorted_inv in H as [H Hf]. apply Forall_cons in Hx as [Hy Hx].
  constructor; [by apply IH|]. apply Forall_app. split; [done|by apply Forall_singleton].
Qed.

Lemma cancel_pending_keeps m f g v : v ≠ Pending → m !! g = Some v → cancel_pending m f !! g = Some v.
Proof.
  unfold cancel_pending. intros Hv Hg. destruct (m !! f) as [[]|] eqn:Hf; try done.
  rewrite lookup_insert_ne; [done|]. by intros <-; rewrite Hf in Hg; injection Hg as <-.
Qed.
Lemma cancel_pending_queued m f g :
  m !! g = Some Pending ∨ m !! g = Some Cancelled →
  cancel_pending m f !! g = Some Pending ∨ cancel_pending m f !! g = Some Cancelled.
Proof.
  intros [Hg|Hg]; [|right; by apply cancel_pending_keeps]. unfold cancel_pending.
  destruct (decide (f = g)) as [->|Hne]; [rewrite Hg; right; apply lookup_insert_eq|].
  destruct (m !! f) as [[]|]; rewrite ?lookup_insert_ne by done; auto.
Qed.
Lemma cancel_all_keeps l m g v : v ≠ Pending → m !! g = Some v → foldl cancel_pending m l !! g = Some v.
Proof. intros Hv. revert m. induction l as [|f l IH]; intros m Hg; [done|]. cbn. by apply IH, cancel_pending_keeps. Qed.

Lemma sorted_disjoint (l1 l2 : list nat) x : StronglySorted lt (l1 ++ l2) → x ∈ l1 → x ∈ l2 → False.
Proof.
  induction l1 as [|y l1 IH]; cbn; intros H H1 H2; [by apply elem_of_nil in H1|].
  apply StronglySorted_inv in H as [H Hf]. apply elem_of_cons in H1 as [->|H1]; [|by apply IH].
  rewrite Forall_app, !Forall_forall in Hf. destruct Hf as [_ Hf]. specialize (Hf _ H2). lia.
Qed.

(** A worker's step replaces it by what becomes of it. *)
Lemma threads_replaced (P : worker → Prop) l1 w (w' : list worker) l2 :
  Forall P (l1 ++ w :: l2) → Forall P w' → Forall P (l1 ++ w' ++ l2).
Proof. rewrite !Forall_app, Forall_cons. tauto. Qed.

Lemma open_threads l1 w w' l2 :
  forallb (λ w, negb (leaving w)) (l1 ++ w :: l2) = true →
  forallb (λ w, negb (leaving w)) (l1 ++ w' ++ l2) = forallb (λ w, negb (leaving w)) w'.
Proof.
  rewrite !forallb_app. cbn. intros H. apply andb_true_iff in H as [-> H]. apply andb_true_iff in H as [_ ->].
  cbn. by rewrite andb_true_r.
Qed.

Lemma staying_swap l1 w w' l2 :
  staying (l1 ++ [w'] ++ l2) + (if leaving w then 0 else 1)
  = staying (l1 ++ w :: l2) + (if leaving w' then 0 else 1).
Proof. rewrite !staying_app. destruct w, w'; cbn; unfold staying; cbn; lia. Qed.

Lemma length_swap {A} (l1 : list A) w w' l2 : length (l1 ++ [w'] ++ l2) = length (l1 ++ w :: l2).
Proof. rewrite !length_app. done. Qed.

Section worker_steps.
Context (s : executor) (l1 l2 : list worker).

(** The worker takes a call that was cancelled in the queue. *)
Lemma take_cancelled f q :
  ex_threads s = l1 ++ Idle :: l2 → ex_queue s = Work f :: q → executor_ok s →
  executor_ok (set_threads (l1 ++ [Idle] ++ l2) (taken q [] s)).
Proof.
  intros Ht Eq [Hmax Hopen Hshut Hserved Hord Hnext Hrun Hthr Hq]. rewrite Ht, Eq in *.
  constructor; cbn [ex_max ex_queue ex_threads ex_shutdown ex_futures ex_next ex_started set_threads taken];
    rewrite ?app_nil_r; auto;
    try (by intros _ _ ?; destruct l1).
  - by apply (sorted_drop_mid _ _ f).
  - cbn in Hnext. rewrite Forall_app, Forall_cons in Hnext. apply Forall_app. tauto.
  - by apply Forall_cons in Hq as [_ ?].
Qed.

(** It begins a call. *)
Lemma take_work f q :
  ex_threads s = l1 ++ Idle :: l2 → ex_queue s = Work f :: q → executor_ok s →
  executor_ok (set_threads (l1 ++ [Running f] ++ l2)
    (set_futures (<[f := RunningF]> (ex_futures s)) (taken q [f] s))).
Proof.
  intros Ht Eq [Hmax Hopen Hshut Hserved Hord Hnext Hrun Hthr Hq]. rewrite Ht, Eq in *.
  change (works (Work f :: q)) with (f :: works q) in *. apply Forall_cons in Hq as [Hf Hq].
  assert (Hf1 : f ∉ ex_started s).
  { intros Hin. apply (sorted_disjoint _ _ f Hord Hin). by left. }
  assert (Hf2 : f ∉ works q).
  { intros Hin. apply (sorted_disjoint (ex_started s ++ [f]) (works q) f); [by rewrite <- app_assoc| |done].
    apply elem_of_app. right. by apply list_elem_of_singleton. }
  rewrite Forall_forall in Hrun, Hq.
  constructor; cbn [ex_max ex_queue ex_threads ex_shutdown ex_futures ex_next ex_started set_threads
    set_futures taken]; rewrite <- ?app_assoc; auto;
    try (by intros _ _ ?; destruct l1).
  - by rewrite (length_swap l1 Idle).
  - intros Hs. destruct (Hopen Hs) as [H1 H2]. split; [done|]. by rewrite (open_threads _ Idle [Running f]).
  - intros Hs. specialize (Hshut Hs). pose proof (staying_swap l1 Idle (Running f) l2). cbn in *. lia.
  - apply Forall_app. split; [|apply Forall_singleton; left; apply lookup_insert_eq].
    apply Forall_forall. intros g Hg. rewrite lookup_insert_ne; [by apply Hrun|by intros <-].
  - eapply threads_replaced; [|apply Forall_singleton; apply elem_of_app; right; by apply list_elem_of_singleton].
    eapply Forall_impl; [exact Hthr|]. intros [|g|]; try done. intros ?. apply elem_of_app. by left.
  - apply Forall_forall. intros g Hg. rewrite lookup_insert_ne; [by apply Hq|by intros <-].
Qed.

(** It takes an exit signal. *)
Lemma take_stop q :
  ex_threads s = l1 ++ Idle :: l2 → ex_queue s = Stop :: q → executor_ok s →
  executor_ok (set_threads (l1 ++ [Leaving] ++ l2) (taken q [] s)).
Proof.
  intros Ht Eq [Hmax Hopen Hshut Hserved Hord Hnext Hrun Hthr Hq]. rewrite Ht, Eq in *.
  change (works (Stop :: q)) with (works q) in *. cbn [stops] in *.
  constructor; cbn [ex_max ex_queue ex_threads ex_shutdown ex_futures ex_next ex_started set_threads taken];
    rewrite ?app_nil_r; auto;
    try (by intros _ _ ?; destruct l1).
  - by rewrite (length_swap l1 Idle).
  - intros Hs. by destruct (Hopen Hs).
  - intros Hs. specialize (Hshut Hs). pose proof (staying_swap l1 Idle Leaving l2). cbn in *. lia.
  - by eapply threads_replaced; [exact Hthr|repeat constructor].
Qed.

(** Its call ends. *)
Lemma finish_work f :
  ex_threads s = l1 ++ Running f :: l2 → executor_ok s →
  executor_ok (set_threads (l1 ++ [Idle] ++ l2) (set_futures (<[f := Finished]> (ex_futures s)) s)).
Proof.
  intros Ht [Hmax Hopen Hshut Hserved Hord Hnext Hrun Hthr Hq]. rewrite Ht in *.
  rewrite Forall_forall in Hrun, Hq. pose proof Hthr as Hf. apply Forall_app in Hf as [_ Hf].
  apply Forall_cons in Hf as [Hf _].
  constructor; cbn [ex_max ex_queue ex_threads ex_shutdown ex_futures ex_next ex_started set_threads
    set_futures]; auto;
    try (by intros _ _ ?; destruct l1).
  - by rewrite (length_swap l1 (Running f)).
  - intros Hs. destruct (Hopen Hs) as [H1 H2]. split; [done|]. by rewrite (open_threads _ (Running f) [Idle]).
  - intros Hs. specialize (Hshut Hs). pose proof (staying_swap l1 (Running f) Idle l2). cbn in *. lia.
  - apply Forall_forall. intros g Hg. destruct (decide (f = g)) as [->|Hne]; [right; apply lookup_insert_eq|].
    rewrite lookup_insert_ne by done. by apply Hrun.
  - by eapply threads_replaced; [exact Hthr|repeat constructor].
  - apply Forall_forall. intros g Hg. rewrite lookup_insert_ne; [by apply Hq|].
    intros <-. by eapply (sorted_disjoint _ _ f Hord).
Qed.

(** It leaves the set of threads. *)
Lemma leave :
  ex_threads s = l1 ++ Leaving :: l2 → executor_ok s → executor_ok (set_threads (l1 ++ [] ++ l2) s).
Proof.
  intros Ht [Hmax Hopen Hshut Hserved Hord Hnext Hrun Hthr Hq]. rewrite Ht in *.
  assert (Hs : ex_shutdown s = true).
  { destruct (ex_shutdown s); [done|]. destruct (Hopen eq_refl) as [_ H].
    by rewrite forallb_app, andb_false_r in H. }
  constructor; cbn [ex_max ex_queue ex_threads ex_shutdown ex_futures ex_next ex_started set_threads];
    rewrite ?Hs; try done.
  - rewrite length_app in *. cbn in *. lia.
  - intros _. specialize (Hshut Hs). rewrite staying_app in *. done.
  - by eapply (threads_replaced _ l1 Leaving []); [exact Hthr|constructor].
Qed.
End worker_steps.

Lemma worker_ok s s' : executor_ok s → worker_step s s' → executor_ok s'.
Proof.
  intros Hok Hstep. destruct Hstep as [s l1 w l2 s' w' Ht Hw]. unfold _worker in Hw.
  destruct w as [|f|].
  - destruct (ex_queue s) as [|[f|] q] eqn:Eq; [done| |].
    + destruct (is_cancelled s f); injection Hw as <- <-; [by eapply take_cancelled|by eapply take_work].
    + injection Hw as <- <-. by eapply take_stop.
  - injection Hw as <- <-. by apply finish_work.
  - injection Hw as <- <-. by apply leave.
Qed.

Lemma daemon_submit_ok s s' f : 0 < ex_max s → executor_ok s → submit s = Some (s', f) → executor_ok s'.
Proof.
  intros Hpos [Hmax Hopen Hshut Hserved Hord Hnext Hrun Hthr Hq]. unfold submit.
  destruct (ex_shutdown s) eqn:Es; [done|]. intros [= <- <-]. destruct (Hopen eq_refl) as [Hst Hlv].
  assert (Hn : Forall (λ f, f < S (ex_next s)) (ex_started s ++ works (ex_queue s))).
  { eapply Forall_impl; [exact Hnext|]. cbn. lia. }
  assert (Hnew : ∀ g v, ex_futures s !! g = Some v → g ∈ ex_started s ++ works (ex_queue s) →
    <[ex_next s := Pending]> (ex_futures s) !! g = Some v).
  { intros g v Hg Hin. rewrite lookup_insert_ne; [done|]. intros <-.
    rewrite Forall_forall in Hnext. specialize (Hnext _ Hin). cbn in Hnext. lia. }
  rewrite Forall_forall in Hrun, Hq.
  constructor; cbn [ex_max ex_queue ex_threads ex_shutdown ex_futures ex_next ex_started];
    rewrite ?works_app, ?app_assoc; cbn [works omap list_omap].
  - unfold _start_worker_if_needed_locked. destruct (Nat.leb_spec (ex_max s) (length (ex_threads s))); [done|].
    rewrite length_app. cbn. lia.
  - intros _. rewrite stops_app, Hst. split; [done|]. unfold _start_worker_if_needed_locked.
    destruct (_ <=? _)%nat; [done|]. by rewrite forallb_app, Hlv.
  - done.
  - intros _ _. unfold _start_worker_if_needed_locked.
    destruct (Nat.leb_spec (ex_max s) (length (ex_threads s))) as [Hl|]; [|by destruct (ex_threads s)].
    intros E. rewrite E in Hl. cbn in Hl. lia.
  - by apply sorted_add.
  - apply Forall_app. split; [done|]. apply Forall_singleton. lia.
  - apply Forall_forall. intros g Hg. assert (g ∈ ex_started s ++ works (ex_queue s)) by (apply elem_of_app; auto).
    destruct (Hrun _ Hg); [left|right]; by apply Hnew.
  - unfold _start_worker_if_needed_locked. destruct (_ <=? _)%nat; [done|]. apply Forall_app. split; [done|].
    by apply Forall_singleton.
  - apply Forall_app. split; [|apply Forall_singleton; left; apply lookup_insert_eq].
    apply Forall_forall. intros g Hg. assert (g ∈ ex_started s ++ works (ex_queue s)) by (apply elem_of_app; auto).
    destruct (Hq _ Hg); [left|right]; by apply Hnew.
Qed.

Lemma daemon_cancel_ok s f : executor_ok s → executor_ok (set_futures (cancel_pending (ex_futures s) f) s).
Proof.
  intros [Hmax Hopen Hshut Hserved Hord Hnext Hrun Hthr Hq].
  constructor; cbn [ex_max ex_queue ex_threads ex_shutdown ex_futures ex_next ex_started set_futures]; auto.
  - eapply Forall_impl; [exact Hrun|]. cbn. intros g [Hg|Hg]; [left|right]; by apply cancel_pending_keeps.
  - eapply Forall_impl; [exact Hq|]. cbn. intros g Hg. by apply cancel_pending_queued.
Qed.

Lemma shutdown_ok c s : executor_ok s → executor_ok (shutdown c s).
Proof.
  intros [Hmax Hopen Hshut Hserved Hord Hnext Hrun Hthr Hq].
  constructor; cbn [ex_max ex_queue ex_threads ex_shutdown ex_futures ex_next ex_started shutdown];
    rewrite ?works_app, ?works_stops, ?app_nil_r, ?stops_app, ?stops_replicate; try done.
  - intros _. pose proof (staying_le (ex_threads s)). lia.
  - destruct c; [|done]. cbn. rewrite app_nil_r. by eapply sorted_prefix.
  - destruct c; [|done]. cbn. rewrite app_nil_r. by apply Forall_app in Hnext as [? _].
  - destruct c; [|done]. eapply Forall_impl; [exact Hrun|]. cbn.
    intros g [Hg|Hg]; [left|right]; by apply cancel_all_keeps.
  - destruct c; [constructor|done].
Qed.

Lemma step_max s s' : step s s' → ex_max s' = ex_max s.
Proof.
  intros [? ? Hw|? ? f Hs|? f|? c]; try done.
  - destruct Hw as [t l1 w l2 t' w' _ Hw]. unfold _worker in Hw.
    destruct w as [|f|]; [destruct (ex_queue t) as [|[f|] q]; [done|destruct (is_cancelled t f)|]|..];
      by injection Hw as <- <-.
  - unfold submit in Hs. destruct (ex_shutdown _); [done|]. by injection Hs as <- <-.
Qed.

Lemma daemon_step_ok n : 0 < n → preserves step (λ s, ex_max s = n ∧ executor_ok s).
Proof.
  intros Hn s s' Hstep [Hm Hok]. rewrite (step_max s s' Hstep). split; [done|].
  destruct Hstep as [t t' Hw|t t' f Hs|t f|t c].
  - by eapply worker_ok.
  - eapply daemon_submit_ok; [by rewrite Hm|done..].
  - by apply daemon_cancel_ok.
  - by apply shutdown_ok.
Qed.

Lemma daemon_init_ok n : executor_ok (executor_init n).
Proof. constructor; cbn; try done; try constructor; lia. Qed.

Lemma reachable_ok n s : 0 < n → reachable n s → ex_max s = n ∧ executor_ok s.
Proof.
  intros Hn Hr. apply (star_invariant step _ _ _ (daemon_step_ok n Hn) Hr). split; [done|apply daemon_init_ok].
Qed.

(** ** Properties *)

(** The executor keeps its promises in every order of calls: never more threads than asked
    for; calls begin in the order in which they were submitted and each at most once; a call that
    was cancelled never begins; and while the executor is open, work that is queued has a worker. *)
Theorem executor_sound n s :
  0 < n → reachable n s →
  length (ex_threads s) ≤ n ∧ StronglySorted lt (ex_started s) ∧
  (∀ f, ex_futures s !! f = Some Cancelled → f ∉ ex_started s) ∧
  (ex_shutdown s = false → ex_queue s ≠ [] → ex_threads s ≠ []).
Proof.
  intros Hn Hr. destruct (reachable_ok n s Hn Hr) as [Hm Hok]. rewrite <- Hm. split_and!.
  - apply (eo_max s Hok).
  - by eapply sorted_prefix, (eo_order s Hok).
  - intros f Hf Hin. destruct (proj1 (Forall_forall _ _) (eo_running s Hok) f Hin); congruence.
  - apply (eo_served s Hok).
Qed.

(** What is left to do: items to take, calls to end, threads to leave. *)
Definition weight (w : worker) : nat := match w with Idle => 1 | Running _ => 2 | Leaving => 1 end.
Definition measure (s : executor) : nat := 3 * length (ex_queue s) + sum_list_with weight (ex_threads s).

Lemma worker_step_measure s s' : worker_step s s' → S (measure s') ≤ measure s.
Proof.
  intros [t l1 w l2 t' w' Ht Hw]. unfold measure. rewrite Ht. unfold _worker in Hw.
  rewrite !sum_list_with_app. cbn [sum_list_with].
  destruct w as [|f|]; [destruct (ex_queue t) as [|[f|] q] eqn:Eq; [done|destruct (is_cancelled t f)|]|..];
    injection Hw as <- <-; cbn; rewrite ?Eq, ?sum_list_with_app; cbn; lia.
Qed.

Lemma worker_step_shutdown s s' : worker_step s s' → ex_shutdown s' = ex_shutdown s.
Proof.
  intros [t l1 w l2 t' w' Ht Hw]. unfold _worker in Hw.
  destruct w as [|f|]; [destruct (ex_queue t) as [|[f|] q] eqn:Eq; [done|destruct (is_cancelled t f)|]|..];
    by injection Hw as <- <-.
Qed.

(** A thread that is left after a shutdown can always go on. *)
Lemma worker_can_go s :
  executor_ok s → ex_shutdown s = true → ex_threads s ≠ [] → ∃ s', worker_step s s'.
Proof.
  intros Hok Hs Hne. destruct (ex_threads s) as [|w t] eqn:Et; [done|].
  assert (Hgo : ∀ s' w', _worker w s = Some (s', w') → ∃ s', worker_step s s').
  { intros s' w' Hw. exists (set_threads ([] ++ w' ++ t) s'). by apply (WorkerStep s [] w t). }
  destruct w as [|f|]; [|by eapply Hgo..]. cbn [_worker] in Hgo.
  destruct (ex_queue s) as [|[f|] q] eqn:Eq; [|destruct (is_cancelled s f); by eapply Hgo|by eapply Hgo].
  pose proof (eo_shut s Hok Hs) as H. rewrite Et, Eq in H. cbn in H. lia.
Qed.

(** A shutdown comes to its end: whatever was queued and however often [shutdown] was called, the
    threads make a bounded number of steps of their own, and when none of them can go on any more
    there are none left - given that the calls that run end. *)
Theorem shutdown_terminates n s k s' :
  0 < n → reachable n s → ex_shutdown s = true → nsteps worker_step k s s' →
  k ≤ measure s ∧ ((∀ t, ¬ worker_step s' t) → ex_threads s' = []).
Proof.
  intros Hn Hr Hs Hk. destruct (reachable_ok n s Hn Hr) as [_ Hok]. clear Hr.
  induction Hk as [s|k s1 s2 s3 Hstep Hk IH].
  - split; [lia|]. intros Hstuck. destruct (ex_threads s) as [|w t] eqn:Et; [done|].
    destruct (worker_can_go s Hok Hs) as [s' Hs']; [by rewrite Et|]. by destruct (Hstuck s').
  - destruct IH as [Hle Hend].
    + by rewrite (worker_step_shutdown s1 s2 Hstep).
    + by eapply worker_ok.
    + split; [|done]. pose proof (worker_step_measure s1 s2 Hstep). lia.
Qed.

(** After a shutdown that cancels, no call that was still waiting is ever begun: its future is cancelled, and
    nothing can be submitted any more. *)
Theorem shutdown_cancels n s f :
  0 < n → reachable n s → Work f ∈ ex_queue s →
  ex_futures (shutdown true s) !! f = Some Cancelled ∧ submit (shutdown true s) = None ∧
  (f ∉ ex_started s) ∧ works (ex_queue (shutdown true s)) = [].
Proof.
  intros Hn Hr Hin. destruct (reachable_ok n s Hn Hr) as [_ Hok].
  assert (Hw : f ∈ works (ex_queue s)). { apply list_elem_of_omap. by exists (Work f). }
  split_and!; [|done| |by cbn; apply works_stops].
  - cbn. pose proof (eo_queued s Hok) as Hq. revert Hq Hw. generalize (ex_futures s).
    induction (works (ex_queue s)) as [|g l IH]; intros m Hq Hw; [by apply elem_of_nil in Hw|].
    apply Forall_cons in Hq as [Hg Hq]. cbn [foldl]. apply elem_of_cons in Hw as [->|Hw].
    + apply cancel_all_keeps; [done|]. unfold cancel_pending. destruct Hg as [->|Hg]; [apply lookup_insert_eq|].
      by rewrite Hg.
    + apply IH; [|done]. eapply Forall_impl; [exact Hq|]. intros h Hh. by apply cancel_pending_queued.
  - intros Hst. by apply (sorted_disjoint _ _ f (eo_order s Hok)).
Qed.

(** ** The hypotheses can be met *)

Definition demo_submitted : executor :=
  Eval vm_compute in
    match submit (executor_init 1) with
    | Some (s, _) => match submit s with Some (s, _) => s | None => s end
    | None => executor_init 1
    end.
Definition demo_shut : executor := shutdown true demo_submitted.

Lemma demo_submitted_reachable : reachable 1 demo_submitted.
Proof.
  eapply star_step; [by apply (StepSubmit _ _ 0)|]. eapply star_step; [by apply (StepSubmit _ _ 1)|].
  apply star_refl.
Qed.
Lemma demo_shut_reachable : reachable 1 demo_shut.
Proof. eapply star_trans; [exact demo_submitted_reachable|]. apply star_one, StepShutdown. Qed.

Lemma executor_sound_witness : 0 < 1 ∧ length (ex_threads demo_submitted) ≤ 1.
Proof. split; [lia|]. apply (executor_sound 1 demo_submitted); [lia|exact demo_submitted_reachable]. Defined.

Lemma shutdown_terminates_witness : 0 ≤ measure demo_shut.
Proof.
  eapply (shutdown_terminates 1 demo_shut 0 demo_shut); [lia|exact demo_shut_reachable|reflexivity|constructor].
Defined.

Lemma shutdown_cancels_witness : ex_futures demo_shut !! 1 = Some Cancelled.
Proof.
  apply (shutdown_cancels 1 demo_submitted 1); [lia|exact demo_submitted_reachable|].
  vm_compute. right. left.
Defined.
