(* ===== verification/Ble.v ===== *)
(** * Bluetooth: addresses, generations and tear-down

    Models the bookkeeping of [meshtastic/ble.py] around Bluetooth interfaces: the normal form of
    addresses, the generation of each address with the interfaces that belong to one, the count of
    tear-downs that were given up while their worker thread still ran - with
    [_run_blocking_with_timeout] of [async_utils.py], whose caller and worker share that count -, the
    tear-down of an interface and of a stale connection, and the disposal of an interface that comes
    late.

    [sanitize_address] is the function of that name of the Meshtastic library, if it has one (None: it
    raises or gives no usable text).  The calls into the Bluetooth libraries are known by how they end.
    Attributes of other types than strings are left out: they are taken as absent. *)

From Stdlib Require Import String QArith Lqa.
From stdpp Require Import base tactics list numbers gmap sets sorting.
From S2P Require Import Prelude PyStr.
Open Scope Z_scope.

Definition by_generation (a b : Z * Z) : Prop := a.1 ≤ b.1.
#[export] Instance by_generation_dec : RelDecision by_generation := λ a b, decide (a.1 ≤ b.1).

(** ** Addresses *)

Section addresses.
Context (sanitize_address : option (pystr → option pystr)).

Definition separator (c : Z) : bool := (c =? 45) || (c =? 95) || (c =? 58).

Definition _sanitize_ble_address (address : pystr) : pystr :=
  if negb (nonempty address) then address else
  match sanitize_address ≫= (λ f, f address) with
  | Some ((_ :: _) as sanitized) => sanitized
  | _ => lower (List.filter (λ c, negb (separator c)) address)
  end.

Definition is_hex (c : Z) : bool := between 48 57 c || between 97 102 c.
Definition _is_ble_mac_like (value : pystr) : bool :=
  (length (lower value) =? 12)%nat && forallb is_hex (lower value).

Record ble_client := { bc_address : option pystr; bc_bleak_address : option pystr }.
Record ble_iface := {
  bi_bleAddress : option pystr; bi_ble_address : option pystr; bi_address : option pystr;
  bi_client : option ble_client }.

Definition mac_of (candidate : option pystr) : option pystr :=
  match candidate with
  | Some a => let sanitized := _sanitize_ble_address a in
              if _is_ble_mac_like sanitized then Some (lower sanitized) else None
  | None => None
  end.

Definition _extract_ble_address_from_interface (iface : option ble_iface) : option pystr :=
  match iface with
  | None => None
  | Some i =>
      first_some mac_of
        [bi_bleAddress i; bi_ble_address i; bi_address i;
         bi_client i ≫= bc_address; bi_client i ≫= bc_bleak_address]
  end.

(** The address an interface is connected to, where it can be told. *)
Definition actual_address (interface : ble_iface) : option pystr :=
  match bi_client interface with
  | None => None
  | Some c => match bc_bleak_address c with Some a => Some a | None => bc_address c end
  end.

Definition _validate_ble_connection_address (interface : ble_iface) (expected_address : pystr) : bool :=
  match actual_address interface with
  | None => true
  | Some a => str_eqb (_sanitize_ble_address a) (_sanitize_ble_address expected_address)
  end.

(** ** Errors *)

Definition BLE_DUP_CONNECT_SUPPRESSED_TOKEN : pystr := u "recently connected elsewhere".
Definition BLE_CONN_SUPPRESSED_TOKEN : pystr := u "connection suppressed".
Definition BLE_CONNECTED_ELSEWHERE_TOKEN : pystr := u "connected elsewhere".

(** [suppressed]: the exception is of the library's class for it. *)
Definition _is_ble_duplicate_connect_suppressed_error (suppressed : bool) (message : pystr) : bool :=
  suppressed ||
  let message := lower (strip message) in
  nonempty message &&
  (contains message BLE_DUP_CONNECT_SUPPRESSED_TOKEN ||
   contains message BLE_CONN_SUPPRESSED_TOKEN && contains message BLE_CONNECTED_ELSEWHERE_TOKEN).

(** The classes of the libraries an exception belongs to; [path_key]: a KeyError with the key "path". *)
Record ble_error := {
  be_discovery : bool; be_other_typed : bool; be_message : pystr; be_path_key : bool;
  be_ble_error : bool; be_mesh_error : bool }.

Definition _is_ble_discovery_error (e : ble_error) : bool :=
  if be_discovery e then true else if be_other_typed e then false else
  contains (be_message e) (u "No Meshtastic BLE peripheral") ||
  contains (be_message e) (u "Timed out waiting for connection completion") ||
  be_path_key e || be_ble_error e || be_mesh_error e.

(** ** Generations *)

Record ble_life := {
  bl_generation : gmap pystr Z; bl_iface : gmap Z (pystr * Z); bl_unresolved : gmap (pystr * Z) Z }.
Definition life_init : ble_life := {| bl_generation := ∅; bl_iface := ∅; bl_unresolved := ∅ |}.

Definition current_generation (s : ble_life) (key : pystr) : Z := default 0 (bl_generation s !! key).

Definition _advance_ble_generation (ble_address : pystr) (s : ble_life) : ble_life * Z :=
  let address_key := _sanitize_ble_address ble_address in
  if negb (nonempty address_key) then (s, 0) else
  let generation := current_generation s address_key + 1 in
  ({| bl_generation := <[address_key := generation]> (bl_generation s); bl_iface := bl_iface s;
      bl_unresolved := bl_unresolved s |}, generation).

Definition _get_ble_generation (ble_address : pystr) (s : ble_life) : Z :=
  let address_key := _sanitize_ble_address ble_address in
  if negb (nonempty address_key) then 0 else current_generation s address_key.

Definition _is_ble_generation_stale (ble_address : pystr) (generation : Z) (s : ble_life) : bool :=
  let address_key := _sanitize_ble_address ble_address in
  if negb (nonempty address_key) then false else negb (current_generation s address_key =? generation).

Definition _register_ble_iface_generation (iface : option Z) (ble_address : pystr) (generation : Z)
    (s : ble_life) : ble_life :=
  match iface with
  | None => s
  | Some i =>
      let address_key := _sanitize_ble_address ble_address in
      if negb (nonempty address_key) || (generation <=? 0) then s
      else {| bl_generation := bl_generation s; bl_iface := <[i := (address_key, generation)]> (bl_iface s);
              bl_unresolved := bl_unresolved s |}
  end.

(** [iface]: the interface's identity and attributes. *)
Definition _get_ble_iface_generation (iface : option (Z * ble_iface)) (fallback_address : option pystr)
    (s : ble_life) : option pystr * option Z :=
  let fallback_key := _sanitize_ble_address (default [] fallback_address) in
  match iface ≫= (λ i, bl_iface s !! i.1) with
  | Some (a, g) => (Some a, Some g)
  | None =>
      if nonempty fallback_key then (Some fallback_key, bl_generation s !! fallback_key) else
      match _extract_ble_address_from_interface (snd <$> iface) with
      | Some ((_ :: _) as extracted) => (Some extracted, bl_generation s !! extracted)
      | _ => (None, None)
      end
  end.

Definition _discard_ble_iface_generation (iface : option Z) (s : ble_life) : ble_life * option (pystr * Z) :=
  match iface with
  | None => (s, None)
  | Some i =>
      ({| bl_generation := bl_generation s; bl_iface := delete i (bl_iface s);
          bl_unresolved := bl_unresolved s |}, bl_iface s !! i)
  end.

(** ** Tear-downs given up *)

(** The key a tear-down is counted under: None when it is not counted. *)
Definition teardown_key (ble_address : option pystr) (generation : option Z) : option (pystr * Z) :=
  match ble_address, generation with
  | Some ((_ :: _) as a), Some g =>
      let address_key := _sanitize_ble_address a in
      if nonempty address_key && (0 <? g) then Some (address_key, g) else None
  | _, _ => None
  end.

Definition _record_ble_teardown_timeout (key : pystr * Z) (m : gmap (pystr * Z) Z) : gmap (pystr * Z) Z :=
  <[key := default 0 (m !! key) + 1]> m.

Definition _resolve_ble_teardown_timeout (key : pystr * Z) (m : gmap (pystr * Z) Z) : gmap (pystr * Z) Z :=
  let previous := default 0 (m !! key) in
  if previous <=? 1 then delete key m else <[key := previous - 1]> m.

Definition _get_ble_unresolved_teardown_generations (ble_address : pystr) (s : ble_life) : list (Z * Z) :=
  let address_key := _sanitize_ble_address ble_address in
  if negb (nonempty address_key) then [] else
  merge_sort by_generation
    (omap (λ e, if str_eqb e.1.1 address_key && (0 <? e.2) then Some (e.1.2, e.2) else None)
       (map_to_list (bl_unresolved s))).
End addresses.

(** One call of [_run_blocking_with_timeout]: its caller between its flags, and its worker. *)
Inductive caller_pc := CallerWaits | CallerTimedOut | CallerRecorded | CallerFlagged | CallerEnded (timed_out : bool).
Inductive worker_pc := WorkerRuns | WorkerDone | WorkerEnded.

Record blocking := {
  bk_key : option (pystr * Z);                (* what a time-out is recorded under *)
  bk_caller : caller_pc; bk_worker : worker_pc;
  bk_recorded : bool; bk_resolved : bool }.

Definition blocking_start (key : option (pystr * Z)) : blocking :=
  {| bk_key := key; bk_caller := CallerWaits; bk_worker := WorkerRuns;
     bk_recorded := false; bk_resolved := false |}.

(** [done_event], [timed_out_event] *)
Definition done_event (b : blocking) : bool := match bk_worker b with WorkerRuns => false | _ => true end.
Definition timed_out_event (b : blocking) : bool :=
  match bk_caller b with CallerFlagged | CallerEnded true => true | _ => false end.

Definition set_caller (c : caller_pc) (b : blocking) : blocking :=
  {| bk_key := bk_key b; bk_caller := c; bk_worker := bk_worker b;
     bk_recorded := bk_recorded b; bk_resolved := bk_resolved b |}.
Definition set_worker (w : worker_pc) (b : blocking) : blocking :=
  {| bk_key := bk_key b; bk_caller := bk_caller b; bk_worker := w;
     bk_recorded := bk_recorded b; bk_resolved := bk_resolved b |}.

Abbreviation unresolved_counts := (gmap (pystr * Z) Z).

Definition _resolve_recorded_teardown_timeout_once (b : blocking) (m : unresolved_counts)
    : blocking * unresolved_counts :=
  match bk_key b with
  | Some key =>
      if bk_recorded b && negb (bk_resolved b) then
        ({| bk_key := bk_key b; bk_caller := bk_caller b; bk_worker := bk_worker b;
            bk_recorded := true; bk_resolved := true |}, _resolve_ble_teardown_timeout key m)
      else (b, m)
  | None => (b, m)
  end.

(** The next step of the caller; [timeout]: its wait runs out. *)
Definition _run_blocking_with_timeout (timeout : bool) (b : blocking) (m : unresolved_counts)
    : option (blocking * unresolved_counts) :=
  match bk_caller b with
  | CallerWaits =>
      if done_event b then Some (set_caller (CallerEnded false) b, m)
      else if timeout then Some (set_caller CallerTimedOut b, m) else None
  | CallerTimedOut =>
      match bk_key b with
      | Some key =>
          Some ({| bk_key := bk_key b; bk_caller := CallerRecorded; bk_worker := bk_worker b;
                   bk_recorded := true; bk_resolved := bk_resolved b |}, _record_ble_teardown_timeout key m)
      | None => Some (set_caller CallerRecorded b, m)
      end
  | CallerRecorded => Some (set_caller CallerFlagged b, m)
  | CallerFlagged =>
      let '(b, m) := if done_event b then _resolve_recorded_teardown_timeout_once b m else (b, m) in
      Some (set_caller (CallerEnded true) b, m)
  | CallerEnded _ => None
  end.

(** The next step of the worker thread, whose action may end at any time. *)
Definition _runner (b : blocking) (m : unresolved_counts) : option (blocking * unresolved_counts) :=
  match bk_worker b with
  | WorkerRuns => Some (set_worker WorkerDone b, m)
  | WorkerDone =>
      let '(b, m) := if timed_out_event b then _resolve_recorded_teardown_timeout_once b m else (b, m) in
      Some (set_worker WorkerEnded b, m)
  | WorkerEnded => None
  end.

Inductive teardown_step : list blocking * unresolved_counts → list blocking * unresolved_counts → Prop :=
  | TeardownStarts l m key : teardown_step (l, m) (l ++ [blocking_start key], m)
  | TeardownCaller l1 b l2 m timeout b' m' :
      _run_blocking_with_timeout timeout b m = Some (b', m') →
      teardown_step (l1 ++ b :: l2, m) (l1 ++ b' :: l2, m')
  | TeardownWorker l1 b l2 m b' m' :
      _runner b m = Some (b', m') → teardown_step (l1 ++ b :: l2, m) (l1 ++ b' :: l2, m').

(** ** The tear-down of an interface *)

(** How an attempt to disconnect ends: with the timeout as an argument, after a call without it where
    the method does not take one, or by an exception or a time-out. *)
Inductive disconnect_end := DisconnectedModern | DisconnectedPlain | DisconnectFails.

Inductive teardown_action :=
  | Pause (secs : Q) | DisconnectIface | DisconnectClient | CloseIface | DiscardGeneration (iface : Z).

(** [te_attempt k]: how attempt [k] ends; [te_client_attempt k]: whether the client is there before
    attempt [k], and whether that attempt succeeds; [te_has_close]: the interface has [close]. *)
Record teardown_env := {
  te_has_disconnect : bool; te_attempt : nat → disconnect_end; te_has_client : bool;
  te_client_attempt : nat → option bool; te_has_close : bool }.

(** [more]: attempts after this one; the flag: a modern disconnect succeeded. *)
Fixpoint disconnect_attempts (e : teardown_env) (more attempt : nat) : list teardown_action * bool :=
  match te_attempt e attempt with
  | DisconnectedModern => ([DisconnectIface; Pause 1], true)
  | DisconnectedPlain => ([DisconnectIface; Pause 1], false)
  | DisconnectFails =>
      match more with
      | O => ([DisconnectIface], false)
      | S more =>
          let '(l, m) := disconnect_attempts e more (S attempt) in (DisconnectIface :: Pause 0.5 :: l, m)
      end
  end.

Fixpoint client_attempts (e : teardown_env) (more attempt : nat) : list teardown_action :=
  match te_client_attempt e attempt with
  | None => []
  | Some true => [DisconnectClient; Pause 1]
  | Some false =>
      match more with
      | O => [DisconnectClient]
      | S more => DisconnectClient :: Pause 0.3 :: client_attempts e more (S attempt)
      end
  end.

Definition _disconnect_ble_interface (iface : option Z) (e : teardown_env) : list teardown_action :=
  match iface with
  | None => []
  | Some i =>
      let '(disconnects, modern_disconnect_succeeded) :=
        if te_has_disconnect e then disconnect_attempts e 2 0 else ([], false) in
      let clients :=
        if negb modern_disconnect_succeeded && te_has_client e then client_attempts e 1 0 else [] in
      [Pause 0.5] ++ disconnects ++ clients ++ (if te_has_close e then [CloseIface] else []) ++
      [DiscardGeneration i; Pause 0.5]
  end.

(** ** A stale connection *)

Definition BLE_DISCONNECT_MAX_RETRIES : nat := 3.
Definition BLE_DISCONNECT_TIMEOUT_SECS : Q := 3.
Definition BLE_DISCONNECT_SETTLE_SECS : Q := 2.
Definition BLE_RETRY_DELAY_SECS : Q := 0.5.
Definition STALE_DISCONNECT_TIMEOUT_SECS : Q :=
  inject_Z (Z.of_nat BLE_DISCONNECT_MAX_RETRIES) * (BLE_DISCONNECT_TIMEOUT_SECS + BLE_DISCONNECT_SETTLE_SECS)
  + inject_Z (Z.max (Z.of_nat BLE_DISCONNECT_MAX_RETRIES - 1) 0) * BLE_RETRY_DELAY_SECS
  + (BLE_DISCONNECT_TIMEOUT_SECS + BLE_DISCONNECT_SETTLE_SECS).

(** A call of the Bluetooth library with the time it takes, at most its timeout. *)
Inductive call_end := CallEnds | CallTimesOut | CallRaises.
Record timed_call := { tc_end : call_end; tc_secs : Q }.

(** [st_status]: asking for the state of the connection; [st_connected]: what it tells. *)
Record stale_env := {
  st_status : timed_call; st_connected : bool; st_attempt : nat → timed_call; st_final : timed_call }.

(** The time an attempt series takes. *)
Fixpoint stale_attempts (e : stale_env) (more attempt : nat) : Q :=
  let c := st_attempt e attempt in
  match tc_end c with
  | CallEnds => tc_secs c + BLE_DISCONNECT_SETTLE_SECS
  | _ => match more with
         | O => tc_secs c
         | S more => tc_secs c + (BLE_RETRY_DELAY_SECS + stale_attempts e more (S attempt))
         end
  end%Q.

(** The time it takes, and whether the final disconnect is attempted. *)
Definition disconnect_stale_connection (e : stale_env) : Q * bool :=
  match tc_end (st_status e) with
  | CallRaises => (tc_secs (st_status e), false)
  | status =>
      let connected := match status with CallEnds => st_connected e | _ => false end in
      let tries := if connected then stale_attempts e (BLE_DISCONNECT_MAX_RETRIES - 1) 0 else 0%Q in
      let final :=
        match tc_end (st_final e) with
        | CallEnds => tc_secs (st_final e) + BLE_DISCONNECT_SETTLE_SECS
        | _ => tc_secs (st_final e)
        end%Q in
      (tc_secs (st_status e) + tries + final, true)%Q
  end.

(** ** Late interfaces *)

(** The interface that is disposed of when an abandoned future completes; [result]: None when it raises;
    [closable]: it has [disconnect] or [close]. *)
Definition _dispose (cancelled : bool) (result : option (option Z)) (fallback_iface active_iface : option Z)
    (closable : Z → bool) : option Z :=
  if cancelled then None else
  match match result with Some (Some i) => Some i | _ => fallback_iface end with
  | Some late_iface =>
      if closable late_iface && negb (bool_decide (active_iface = Some late_iface)) then Some late_iface
      else None
  | None => None
  end.

(** ** Properties of addresses and generations *)

Section generation_facts.
Context (sanitize_address : option (pystr → option pystr)).
Abbreviation key_of := (_sanitize_ble_address sanitize_address).

(** An address that is taken from an interface is twelve hexadecimal digits in lower case. *)
Lemma extracted_is_mac iface a :
  _extract_ble_address_from_interface sanitize_address iface = Some a →
  length a = 12%nat ∧ forallb is_hex a = true.
Proof.
  destruct iface as [i|]; [|done]. intros (l1 & c & l2 & _ & Hc & _)%first_some_Some.
  destruct c as [c|]; [|done]. unfold mac_of, _is_ble_mac_like in Hc. cbv zeta in Hc.
  destruct (_ && _) eqn:E; [|done]. injection Hc as <-. apply andb_true_iff in E as [E1 E2].
  by apply Nat.eqb_eq in E1.
Qed.

(** The validation refuses a connection only if the address is known and is another one. *)
Lemma validation_refuses interface expected :
  _validate_ble_connection_address sanitize_address interface expected = false ↔
  ∃ a, actual_address interface = Some a ∧ key_of a ≠ key_of expected.
Proof.
  unfold _validate_ble_connection_address. destruct (actual_address interface) as [a|].
  - split.
    + intros H. exists a. split; [done|]. intros E. by rewrite E, str_eqb_refl in H.
    + intros (b & [= <-] & Hne). destruct (str_eqb _ _) eqn:E; [|done]. by apply str_eqb_spec in E.
  - split; [done|]. by intros (a & ? & _).
Qed.

Inductive life_op :=
  | OpAdvance (ble_address : pystr) | OpRegister (iface : option Z) (ble_address : pystr) (generation : Z)
  | OpDiscard (iface : option Z).

Definition run_life (s : ble_life) (o : life_op) : ble_life :=
  match o with
  | OpAdvance a => (_advance_ble_generation sanitize_address a s).1
  | OpRegister i a g => _register_ble_iface_generation sanitize_address i a g s
  | OpDiscard i => (_discard_ble_iface_generation i s).1
  end.

Definition advances (key : pystr) (o : life_op) : bool :=
  match o with OpAdvance a => str_eqb (key_of a) key | _ => false end.

Lemma run_life_generation key s o :
  key ≠ [] → current_generation (run_life s o) key = current_generation s key + (if advances key o then 1 else 0).
Proof.
  intros Hk. destruct o as [a|[i|] a g|[i|]]; cbn; try lia.
  - unfold _advance_ble_generation. cbv zeta. destruct (str_eqb (key_of a) key) eqn:E.
    + apply str_eqb_spec in E as ->. destruct key as [|c k]; [done|]. cbn [nonempty negb fst].
      unfold current_generation at 1. cbn. by rewrite lookup_insert_eq.
    + destruct (negb _); cbn [fst]; [lia|]. unfold current_generation at 1. cbn.
      rewrite lookup_insert_ne; [unfold current_generation; lia|]. intros Hne. by rewrite Hne, str_eqb_refl in E.
  - destruct (_ || _); unfold current_generation; cbn; lia.
  - unfold current_generation; cbn; lia.
Qed.

Lemma generations_advance key s ops :
  key ≠ [] →
  current_generation (foldl run_life s ops) key
  = current_generation s key + Z.of_nat (length (List.filter (advances key) ops)).
Proof.
  intros Hk. revert s. induction ops as [|o ops IH]; intros s; cbn [foldl List.filter length]; [lia|].
  rewrite IH, (run_life_generation key s o Hk). destruct (advances key o); cbn [length]; lia.
Qed.

(** A token of a generation tells exactly whether the address has moved on: after any calls
    it is stale if and only if the generation of its address - in whatever spelling - was advanced since. *)
Theorem stale_exactly_after_advance s a b ops :
  key_of a ≠ [] → key_of b = key_of a →
  let '(s1, generation) := _advance_ble_generation sanitize_address a s in
  _is_ble_generation_stale sanitize_address b generation (foldl run_life s1 ops)
  = existsb (advances (key_of a)) ops.
Proof.
  intros Hk Hb. unfold _advance_ble_generation, _is_ble_generation_stale. cbv zeta. rewrite Hb.
  assert (Hn : nonempty (key_of a) = true) by (by apply nonempty_spec). rewrite Hn. cbn [negb].
  rewrite (generations_advance _ _ _ Hk). unfold current_generation at 1. cbn [bl_generation].
  rewrite lookup_insert_eq. cbn [default from_option id].
  set (g := current_generation s (key_of a)). clearbody g.
  induction ops as [|o ops IH]; cbn [List.filter existsb length].
  - unfold id. rewrite Z.add_0_r. by rewrite Z.eqb_refl.
  - destruct (advances (key_of a) o); [|exact IH]. cbn [length orb]. unfold id.
    by destruct (Z.eqb_spec (g + 1 + Z.of_nat (S (length (List.filter (advances (key_of a)) ops)))) (g + 1)); [lia|].
Qed.
End generation_facts.

(** ** The count of tear-downs given up *)

(** A tear-down that is counted. *)
Definition counted (key : pystr * Z) (b : blocking) : bool :=
  bool_decide (bk_key b = Some key) && bk_recorded b && negb (bk_resolved b).

Definition recorded_by (c : caller_pc) : bool :=
  match c with CallerRecorded | CallerFlagged | CallerEnded true => true | _ => false end.

Record blocking_ok (b : blocking) : Prop := {
  bo_recorded : bk_recorded b = true → recorded_by (bk_caller b) = true ∧ is_Some (bk_key b);
  bo_resolved : bk_resolved b = true → bk_recorded b = true ∧ timed_out_event b = true;
  bo_over : bk_caller b = CallerEnded true → bk_worker b = WorkerEnded → bk_recorded b = bk_resolved b }.

Definition counts_ok (s : list blocking * unresolved_counts) : Prop :=
  Forall blocking_ok s.1 ∧
  ∀ key, (default 0 (s.2 !! key) = Z.of_nat (length (List.filter (counted key) s.1))) ∧ s.2 !! key ≠ Some 0.

Lemma counted_split key l1 b l2 :
  Z.of_nat (length (List.filter (counted key) (l1 ++ b :: l2)))
  = Z.of_nat (length (List.filter (counted key) (l1 ++ l2))) + (if counted key b then 1 else 0).
Proof.
  rewrite !List.filter_app, !length_app. cbn [List.filter]. destruct (counted key b); cbn [length]; lia.
Qed.

(** Replacing a call by one that is counted alike. *)
Lemma counts_same l1 b b' l2 m :
  counts_ok (l1 ++ b :: l2, m) → blocking_ok b' → (∀ key, counted key b' = counted key b) →
  counts_ok (l1 ++ b' :: l2, m).
Proof.
  intros [Hl Hm] Hb Hc. split; cbn [fst snd] in *.
  - rewrite Forall_app, Forall_cons in *. tauto.
  - intros key. destruct (Hm key) as [H1 H2]. split; [|done]. rewrite H1, !counted_split, Hc. done.
Qed.

Lemma resolve_ok l1 b l2 m b' m' :
  counts_ok (l1 ++ b :: l2, m) → _resolve_recorded_teardown_timeout_once b m = (b', m') →
  bk_key b' = bk_key b ∧ bk_caller b' = bk_caller b ∧ bk_worker b' = bk_worker b ∧
  bk_recorded b' = bk_recorded b ∧ bk_recorded b' = bk_resolved b' ∧
  ∀ c, bk_recorded c = bk_recorded b' → bk_resolved c = bk_resolved b' → bk_key c = bk_key b' →
    blocking_ok c → counts_ok (l1 ++ c :: l2, m').
Proof.
  intros Hok H. pose proof Hok as [Hl Hm]. cbn [fst snd] in *. apply Forall_app in Hl as [Hl1 Hl2].
  apply Forall_cons in Hl2 as [Hb Hl2]. unfold _resolve_recorded_teardown_timeout_once in H.
  destruct (bk_key b) as [key|] eqn:Ek.
  - destruct (bk_recorded b) eqn:Er, (bk_resolved b) eqn:Es;
      [| |destruct (bo_resolved b Hb Es); congruence|]; cbn [andb negb] in H; injection H as <- <-;
      cbn [bk_key bk_caller bk_worker bk_recorded bk_resolved]; rewrite ?Ek, ?Er, ?Es; split_and!; try done;
      intros c Hc1 Hc2 Hc3 Hc.
    + apply (counts_same l1 b); [done..|]. intros k. unfold counted. by rewrite Hc1, Hc2, Hc3, Ek, Er, Es.
    + split; cbn [fst snd]; [by apply Forall_app; split; [|apply Forall_cons]|].
      intros k. destruct (Hm k) as [Hk1 Hk2]. rewrite counted_split in Hk1. rewrite counted_split.
      assert (Hcc : counted k c = false) by (unfold counted; by rewrite Hc2, andb_false_r). rewrite Hcc.
      unfold _resolve_ble_teardown_timeout. cbv zeta. destruct (decide (k = key)) as [->|Hne].
      * assert (Hcb : counted key b = true) by (unfold counted; by rewrite Ek, Er, Es, bool_decide_true).
        rewrite Hcb in Hk1. rewrite Hk1. destruct (Z.leb_spec (Z.of_nat (length (List.filter (counted key) (l1 ++ l2))) + 1) 1).
        -- rewrite lookup_delete_eq. cbn. unfold id. split; [lia|done].
        -- rewrite lookup_insert_eq. cbn. unfold id. split; [lia|]. intros [= ?]. lia.
      * assert (Hcb : counted k b = false).
        { unfold counted. rewrite Ek, bool_decide_false; [done|]. intros [= ->]. done. }
        rewrite Hcb in Hk1. destruct (_ <=? 1); [rewrite lookup_delete_ne by done|rewrite lookup_insert_ne by done]; done.
    + apply (counts_same l1 b); [done..|]. intros k. unfold counted. by rewrite Hc1, Hc2, Hc3, Ek, Er, Es.
  - injection H as <- <-. assert (Er : bk_recorded b = false).
    { destruct (bk_recorded b) eqn:Er; [|done]. destruct (bo_recorded b Hb Er) as [_ [? ?]]. congruence. }
    assert (Es : bk_resolved b = false).
    { destruct (bk_resolved b) eqn:Es; [|done]. destruct (bo_resolved b Hb Es). congruence. }
    rewrite Er, Es. split_and!; try done. intros c Hc1 Hc2 Hc3 Hc. apply (counts_same l1 b); [done..|].
    intros k. unfold counted. by rewrite Hc1, Hc2, Hc3, Er, Es, Ek.
Qed.

Lemma record_ok l1 b l2 m key :
  counts_ok (l1 ++ b :: l2, m) → bk_key b = Some key → bk_caller b = CallerTimedOut →
  counts_ok (l1 ++ {| bk_key := Some key; bk_caller := CallerRecorded; bk_worker := bk_worker b;
                      bk_recorded := true; bk_resolved := bk_resolved b |} :: l2,
             _record_ble_teardown_timeout key m).
Proof.
  intros [Hl Hm] Hk Hc. cbn [fst snd] in *. apply Forall_app in Hl as [Hl1 Hl2].
  apply Forall_cons in Hl2 as [Hb Hl2].
  assert (Er : bk_recorded b = false).
  { destruct (bk_recorded b) eqn:Er; [|done]. destruct (bo_recorded b Hb Er) as [H _]. by rewrite Hc in H. }
  assert (Es : bk_resolved b = false).
  { destruct (bk_resolved b) eqn:Es; [|done]. destruct (bo_resolved b Hb Es). congruence. }
  rewrite Es. split; cbn [fst snd].
  - apply Forall_app. split; [done|]. apply Forall_cons. split; [|done]. by split.
  - intros k. destruct (Hm k) as [H1 H2]. rewrite counted_split in H1. rewrite counted_split.
    assert (Hcb : counted k b = false) by (unfold counted; by rewrite Er, andb_false_r). rewrite Hcb in H1.
    unfold _record_ble_teardown_timeout, counted at 2. cbn [bk_key bk_recorded bk_resolved].
    destruct (decide (k = key)) as [->|Hne].
    + rewrite lookup_insert_eq, bool_decide_true by done. cbn [default from_option andb negb id].
      rewrite H1. split; [lia|]. intros [= ?]. lia.
    + rewrite lookup_insert_ne by done. rewrite bool_decide_false; [done|]. by intros [= ->].
Qed.

Lemma caller_step_ok l1 b l2 m timeout b' m' :
  counts_ok (l1 ++ b :: l2, m) → _run_blocking_with_timeout timeout b m = Some (b', m') →
  counts_ok (l1 ++ b' :: l2, m').
Proof.
  intros Hok Hs. pose proof Hok as [Hl Hm]. cbn [fst snd] in *. apply Forall_app in Hl as [_ Hl2].
  apply Forall_cons in Hl2 as [[Hrec Hres Hover] _]. unfold _run_blocking_with_timeout in Hs.
  unfold timed_out_event in Hres.
  destruct (bk_caller b) as [| | | |t] eqn:Ec; cbn [recorded_by] in *; [| | | |done].
  - assert (Hb' : ∀ c, c ≠ CallerEnded true → recorded_by c = false → blocking_ok (set_caller c b)).
    { intros c Hc1 Hc2. constructor; cbn [set_caller bk_recorded bk_resolved bk_caller bk_key bk_worker].
      - intros H. by destruct (Hrec H).
      - intros H. by destruct (Hres H).
      - done. }
    destruct (done_event b); [|destruct timeout; [|done]]; injection Hs as <- <-;
      (apply (counts_same l1 b); [done| |done]); by apply Hb'.
  - destruct (bk_key b) as [key|] eqn:Ek; injection Hs as <- <-; [by apply record_ok|].
    apply (counts_same l1 b); [done| |done]. constructor; cbn [set_caller bk_recorded bk_resolved bk_caller].
    + intros H. by destruct (Hrec H).
    + intros H. by destruct (Hres H).
    + done.
  - injection Hs as <- <-. apply (counts_same l1 b); [done| |done].
    constructor; cbn [set_caller bk_recorded bk_resolved bk_caller bk_key]; [exact Hrec| |done].
    intros H. by destruct (Hres H).
  - destruct (done_event b) eqn:Ed.
    + destruct (_resolve_recorded_teardown_timeout_once b m) as [c m1] eqn:Er. injection Hs as <- <-.
      destruct (resolve_ok _ _ _ _ _ _ Hok Er) as (Hk & _ & _ & Hr & Hrr & Hall). apply Hall; [done..|].
      constructor; cbn [set_caller bk_recorded bk_resolved bk_caller bk_key bk_worker]; rewrite ?Hk.
      * intros H. rewrite Hr in H. by apply Hrec.
      * intros H. by rewrite Hrr.
      * done.
    + injection Hs as <- <-. apply (counts_same l1 b); [done| |done].
      constructor; cbn [set_caller bk_recorded bk_resolved bk_caller bk_key bk_worker]; [exact Hrec|exact Hres|].
      intros _ Hw. unfold done_event in Ed. by rewrite Hw in Ed.
Qed.

Lemma runner_step_ok l1 b l2 m b' m' :
  counts_ok (l1 ++ b :: l2, m) → _runner b m = Some (b', m') → counts_ok (l1 ++ b' :: l2, m').
Proof.
  intros Hok Hs. pose proof Hok as [Hl Hm]. cbn [fst snd] in *. apply Forall_app in Hl as [_ Hl2].
  apply Forall_cons in Hl2 as [[Hrec Hres Hover] _]. unfold _runner in Hs.
  destruct (bk_worker b) eqn:Ew; [| |done].
  - injection Hs as <- <-. apply (counts_same l1 b); [done| |done]. by constructor.
  - destruct (timed_out_event b) eqn:Et.
    + destruct (_resolve_recorded_teardown_timeout_once b m) as [c m1] eqn:Er. injection Hs as <- <-.
      destruct (resolve_ok _ _ _ _ _ _ Hok Er) as (Hk & Hc & _ & Hr & Hrr & Hall). apply Hall; [done..|].
      constructor; unfold timed_out_event in *; cbn [set_worker bk_recorded bk_resolved bk_caller bk_key];
        rewrite ?Hk, ?Hc.
      * intros H. rewrite Hr in H. by apply Hrec.
      * intros H. by rewrite Hrr.
      * done.
    + injection Hs as <- <-. apply (counts_same l1 b); [done| |done]. constructor; [exact Hrec|by intros [_ ?]%Hres|].
      cbn [set_worker bk_caller]. intros Hc. unfold timed_out_event in Et. by rewrite Hc in Et.
Qed.

Lemma teardown_preserves : preserves teardown_step counts_ok.
Proof.
  intros s s' Hstep Hok. destruct Hstep as [l m key|l1 b l2 m timeout b' m' Hs|l1 b l2 m b' m' Hs].
  - destruct Hok as [Hl Hm]. split; cbn [fst snd] in *.
    + apply Forall_app. split; [done|]. apply Forall_singleton. by constructor.
    + intros k. destruct (Hm k) as [H1 H2]. split; [|done].
      rewrite H1, counted_split, app_nil_r. assert (Hc : counted k (blocking_start key) = false) by (unfold counted; cbn; by rewrite andb_false_r). rewrite Hc. lia.
  - by eapply caller_step_ok.
  - by eapply runner_step_ok.
Qed.

Definition over (b : blocking) : Prop :=
  (∃ t, bk_caller b = CallerEnded t) ∧ bk_worker b = WorkerEnded.

(** Tear-downs that are given up are counted exactly: in every interleaving of the callers and
    the worker threads, the count of an address and generation is the number of calls that timed out
    and were not settled, each is settled once - by whichever of the two sees the other's flag -, and when all
    calls and their threads are over nothing is left in the table. *)
Theorem unresolved_exact l m :
  star teardown_step ([], ∅) (l, m) →
  (∀ key, default 0 (m !! key) = Z.of_nat (length (List.filter (counted key) l))) ∧
  (Forall over l → m = ∅).
Proof.
  intros Hs. assert (Hok : counts_ok (l, m)).
  { apply (star_invariant teardown_step counts_ok _ _ teardown_preserves Hs). split; [constructor|].
    intros key. cbn. by rewrite lookup_empty. }
  destruct Hok as [Hl Hm]. cbn [fst snd] in *. split; [intros key; apply Hm|].
  intros Hover. apply map_eq. intros key. rewrite lookup_empty. destruct (Hm key) as [H1 H2].
  assert (Hz : List.filter (counted key) l = []).
  { clear H1 H2 Hm Hs. induction l as [|b l IH]; [done|]. apply Forall_cons in Hl as [Hb Hl].
    apply Forall_cons in Hover as [[[t Ht] Hw] Hover]. cbn [List.filter].
    assert (Hc : counted key b = false); [|rewrite Hc; by apply IH].
    - unfold counted. destruct t.
      + rewrite (bo_over b Hb Ht Hw). by destruct (bool_decide _), (bk_resolved b).
      + destruct (bk_recorded b) eqn:Er; [|by rewrite andb_false_r].
        destruct (bo_recorded b Hb Er) as [H _]. by rewrite Ht in H. }
  rewrite Hz in H1. destruct (m !! key) as [c|]; [|done]. cbn in H1. unfold id in H1. by subst c.
Qed.

(** ** Tear-downs of interfaces *)

Definition is_iface_call (a : teardown_action) : bool := match a with DisconnectIface => true | _ => false end.
Definition is_client_call (a : teardown_action) : bool := match a with DisconnectClient => true | _ => false end.
Definition is_close (a : teardown_action) : bool := match a with CloseIface => true | _ => false end.
Definition pause_of (a : teardown_action) : Q := match a with Pause q => q | _ => 0 end.
Fixpoint pauses (l : list teardown_action) : Q :=
  match l with [] => 0 | a :: l => pause_of a + pauses l end.
Definition calls (f : teardown_action → bool) (l : list teardown_action) : nat := length (List.filter f l).

Lemma calls_app f l1 l2 : calls f (l1 ++ l2) = (calls f l1 + calls f l2)%nat.
Proof. unfold calls. by rewrite List.filter_app, length_app. Qed.
Lemma pauses_app l1 l2 : (pauses (l1 ++ l2) == pauses l1 + pauses l2)%Q.
Proof.
  induction l1 as [|a l1 IH]; cbn [app pauses]; [lra|]. rewrite IH. lra.
Qed.

(** The attempts to disconnect the interface: at most one more than are left. *)
Lemma disconnect_attempts_bounds e n k :
  let '(l, _) := disconnect_attempts e n k in
  (calls is_iface_call l ≤ S n)%nat ∧ calls is_client_call l = 0%nat ∧ calls is_close l = 0%nat ∧
  (pauses l <= 1 + inject_Z (Z.of_nat n) * 0.5)%Q.
Proof.
  revert k. induction n as [|n IH]; intros k; cbn [disconnect_attempts].
  - change (inject_Z (Z.of_nat 0)) with 0%Q. destruct (te_attempt e k); unfold calls; cbn; split_and!; lia || lra.
  - assert (Hn : (0 <= inject_Z (Z.of_nat n))%Q) by (change 0%Q with (inject_Z 0); rewrite <- Zle_Qle; lia).
    assert (Hs : (inject_Z (Z.of_nat (S n)) == inject_Z (Z.of_nat n) + 1)%Q).
    { rewrite Nat2Z.inj_succ, <- Z.add_1_r, inject_Z_plus. reflexivity. }
    destruct (te_attempt e k); [unfold calls; cbn; split_and!; lia || lra..|].
    specialize (IH (S k)). destruct (disconnect_attempts e n (S k)) as [l b].
    destruct IH as (H1 & H2 & H3 & H4). unfold calls in *. cbn [List.filter is_iface_call is_client_call is_close length].
    split_and!; [lia|done|done|]. cbn [pauses pause_of]. lra.
Qed.

Lemma client_attempts_bounds e n k :
  calls is_iface_call (client_attempts e n k) = 0%nat ∧ (calls is_client_call (client_attempts e n k) ≤ S n)%nat ∧
  calls is_close (client_attempts e n k) = 0%nat ∧
  (pauses (client_attempts e n k) <= 1 + inject_Z (Z.of_nat n) * 0.3)%Q.
Proof.
  revert k. induction n as [|n IH]; intros k; cbn [client_attempts].
  - change (inject_Z (Z.of_nat 0)) with 0%Q.
    destruct (te_client_attempt e k) as [[]|]; unfold calls; cbn; split_and!; lia || lra.
  - assert (Hn : (0 <= inject_Z (Z.of_nat n))%Q) by (change 0%Q with (inject_Z 0); rewrite <- Zle_Qle; lia).
    assert (Hs : (inject_Z (Z.of_nat (S n)) == inject_Z (Z.of_nat n) + 1)%Q).
    { rewrite Nat2Z.inj_succ, <- Z.add_1_r, inject_Z_plus. reflexivity. }
    destruct (te_client_attempt e k) as [[]|]; [unfold calls; cbn; split_and!; lia || lra| |
      unfold calls; cbn; split_and!; lia || lra].
    destruct (IH (S k)) as (H1 & H2 & H3 & H4). unfold calls in *.
    cbn [List.filter is_iface_call is_client_call is_close length].
    split_and!; [done|lia|done|]. cbn [pauses pause_of]. lra.
Qed.

(** Whatever its calls do, the tear-down of an interface comes to its end: at most three attempts to
    disconnect the interface and two to disconnect its client, then exactly one [close] - where
    the interface has one - and at last its generation is forgotten; the pauses add up to less than 4.5
    seconds, and the client is spared its own disconnect only after a modern disconnect of the interface. *)
Theorem teardown_complete i e :
  let l := _disconnect_ble_interface (Some i) e in
  (∃ pre, l = pre ++ (if te_has_close e then [CloseIface] else []) ++ [DiscardGeneration i; Pause 0.5] ∧
          calls is_close pre = 0%nat) ∧
  (calls is_iface_call l ≤ 3)%nat ∧ (calls is_client_call l ≤ 2)%nat ∧ (pauses l < 4.5)%Q ∧
  (te_has_disconnect e = false → te_has_client e = true → te_client_attempt e 0%nat ≠ None →
   DisconnectClient ∈ l).
Proof.
  cbv zeta. unfold _disconnect_ble_interface.
  assert (Hd : let '(l, _) := if te_has_disconnect e then disconnect_attempts e 2 0 else ([], false) in
    (calls is_iface_call l ≤ 3)%nat ∧ calls is_client_call l = 0%nat ∧ calls is_close l = 0%nat ∧ (pauses l <= 2)%Q).
  { destruct (te_has_disconnect e); [|unfold calls; cbn; split_and!; lia || lra].
    pose proof (disconnect_attempts_bounds e 2 0) as H. destruct (disconnect_attempts e 2 0) as [l b].
    destruct H as (?&?&?&H). split_and!; [lia|done|done|]. change (inject_Z (Z.of_nat 2)) with 2%Q in H. lra. }
  assert (Hdc : te_has_disconnect e = false →
    (if te_has_disconnect e then disconnect_attempts e 2 0 else ([], false)) = ([], false)) by (by intros ->).
  destruct (if te_has_disconnect e then disconnect_attempts e 2 0 else ([], false)) as [l modern].
  destruct Hd as (H1 & H2 & H3 & H4).
  set (clients := if negb modern && te_has_client e then client_attempts e 1 0 else []).
  assert (Hc : calls is_iface_call clients = 0%nat ∧ (calls is_client_call clients ≤ 2)%nat ∧
    calls is_close clients = 0%nat ∧ (pauses clients <= 1.3)%Q).
  { unfold clients. destruct (_ && _); [|unfold calls; cbn; split_and!; lia || lra].
    destruct (client_attempts_bounds e 1 0) as (?&?&?&H). split_and!; [done|lia|done|]. change (inject_Z (Z.of_nat 1)) with 1%Q in H. lra. }
  destruct Hc as (C1 & C2 & C3 & C4).
  assert (Hcl : calls is_iface_call (if te_has_close e then [CloseIface] else []) = 0%nat ∧
    calls is_client_call (if te_has_close e then [CloseIface] else []) = 0%nat ∧
    (pauses (if te_has_close e then [CloseIface] else []) == 0)%Q).
  { destruct (te_has_close e); unfold calls; cbn; split_and!; done || lra. }
  destruct Hcl as (E1 & E2 & E3). split_and!.
  - exists ([Pause 0.5] ++ l ++ clients). split; [by rewrite <- !app_assoc|]. rewrite !calls_app, H3, C3. done.
  - rewrite !calls_app, C1, E1. change (calls is_iface_call [DiscardGeneration i; Pause 0.5]) with 0%nat.
    change (calls is_iface_call [Pause 0.5]) with 0%nat. lia.
  - rewrite !calls_app, H2, E2. change (calls is_client_call [DiscardGeneration i; Pause 0.5]) with 0%nat.
    change (calls is_client_call [Pause 0.5]) with 0%nat. lia.
  - rewrite !pauses_app, E3. change (pauses [Pause 0.5]) with (0.5 + 0)%Q.
    change (pauses [DiscardGeneration i; Pause 0.5]) with (0 + (0.5 + 0))%Q. lra.
  - intros Hno Hcli Hat. specialize (Hdc Hno). injection Hdc as -> ->. unfold clients. rewrite Hcli.
    cbn [negb andb client_attempts]. destruct (te_client_attempt e 0) as [[]|]; [| |done];
      rewrite !elem_of_app; right; right; left; by left.
Qed.

(** The clean-up of a stale connection fits its budget: if every call keeps to its timeout, it takes
    less than the time its caller waits for it, so that it is never cancelled half way; and the final
    disconnect is attempted unless asking for the state of the connection raises. *)
Theorem stale_disconnect_in_budget e :
  (∀ c, c = st_status e ∨ c = st_final e ∨ (∃ k, c = st_attempt e k) → (tc_secs c <= BLE_DISCONNECT_TIMEOUT_SECS)%Q) →
  let '(secs, final) := disconnect_stale_connection e in
  (secs < STALE_DISCONNECT_TIMEOUT_SECS)%Q ∧ (final = false ↔ tc_end (st_status e) = CallRaises).
Proof.
  intros H. unfold disconnect_stale_connection.
  assert (Hs : (tc_secs (st_status e) <= 3)%Q) by (apply H; auto).
  assert (Hf : (tc_secs (st_final e) <= 3)%Q) by (apply H; auto).
  assert (Ha : ∀ k, (tc_secs (st_attempt e k) <= 3)%Q) by (intros k; apply H; eauto).
  assert (Ht : (stale_attempts e (BLE_DISCONNECT_MAX_RETRIES - 1) 0 <= 12)%Q).
  { cbn. pose proof (Ha 0%nat). pose proof (Ha 1%nat). pose proof (Ha 2%nat).
    unfold BLE_DISCONNECT_SETTLE_SECS, BLE_RETRY_DELAY_SECS.
    destruct (tc_end (st_attempt e 0)), (tc_end (st_attempt e 1)), (tc_end (st_attempt e 2)); lra. }
  assert (Hb : (STALE_DISCONNECT_TIMEOUT_SECS == 21)%Q) by reflexivity.
  assert (He : (match tc_end (st_final e) with CallEnds => tc_secs (st_final e) + BLE_DISCONNECT_SETTLE_SECS
                | _ => tc_secs (st_final e) end <= 5)%Q).
  { unfold BLE_DISCONNECT_SETTLE_SECS. destruct (tc_end (st_final e)); lra. }
  destruct (tc_end (st_status e)) eqn:Es; cbv zeta; (split; [rewrite Hb|done]).
  - destruct (st_connected e); lra.
  - lra.
  - lra.
Qed.

(** An interface that comes late is disposed of unless it is the one in use. *)
Lemma dispose_late i active closable fallback :
  closable i = true →
  _dispose false (Some (Some i)) fallback active closable = if bool_decide (active = Some i) then None else Some i.
Proof. intros H. unfold _dispose. rewrite H. by destruct (bool_decide _). Qed.

(** ** The hypotheses can be met *)

Example demo_addresses :
  _sanitize_ble_address None (u "AA:bb-CC_01:02:03") = u "aabbcc010203" ∧
  _is_ble_mac_like (u "aabbcc010203") = true ∧ _is_ble_mac_like (u "my-radio") = false.
Proof. vm_compute. done. Qed.

Lemma stale_exactly_after_advance_witness :
  let '(s1, generation) := _advance_ble_generation None (u "AA:01") life_init in
  _is_ble_generation_stale None (u "aa-01") generation
    (foldl (run_life None) s1 [OpDiscard (Some 5); OpAdvance (u "aa01")])
  = existsb (advances None (_sanitize_ble_address None (u "AA:01"))) [OpDiscard (Some 5); OpAdvance (u "aa01")].
Proof.
  apply (stale_exactly_after_advance None life_init (u "AA:01") (u "aa-01")).
  - vm_compute. discriminate.
  - vm_compute. reflexivity.
Defined.

Definition demo_blocking : blocking :=
  {| bk_key := Some (u "aa01", 1); bk_caller := CallerRecorded; bk_worker := WorkerRuns;
     bk_recorded := true; bk_resolved := false |}.
Definition demo_counts : unresolved_counts := {[ (u "aa01", 1) := 1 ]}.

Lemma demo_teardown_reachable : star teardown_step ([], ∅) ([demo_blocking], demo_counts).
Proof.
  eapply star_step; [exact (TeardownStarts [] ∅ (Some (u "aa01", 1)))|].
  eapply star_step; [apply (TeardownCaller [] (blocking_start (Some (u "aa01", 1))) [] ∅ true); reflexivity|].
  eapply star_step; [eapply (TeardownCaller [] _ [] ∅ true); reflexivity|]. apply star_refl.
Qed.

Lemma unresolved_exact_witness : default 0 (demo_counts !! (u "aa01", 1)) = 1.
Proof.
  destruct (unresolved_exact [demo_blocking] demo_counts demo_teardown_reachable) as [H _]. rewrite H.
  vm_compute. reflexivity.
Defined.

Definition demo_stale : stale_env :=
  {| st_status := {| tc_end := CallEnds; tc_secs := 1 |}; st_connected := true;
     st_attempt := λ _, {| tc_end := CallTimesOut; tc_secs := 3 |};
     st_final := {| tc_end := CallEnds; tc_secs := 1 |} |}.

Lemma stale_disconnect_in_budget_witness :
  ((disconnect_stale_connection demo_stale).1 < STALE_DISCONNECT_TIMEOUT_SECS)%Q.
Proof.
  refine (proj1 (stale_disconnect_in_budget demo_stale _)).
  intros c [->|[->|[k ->]]]; vm_compute; discriminate.
Defined.
