(* ===== verification/Probes.v ===== *)
(** * Timers, probes and waits around a connection

    Models what watches over a connection in the background: the timer that ends the startup drain
    ([_schedule_startup_drain_deadline_cleanup] of [meshtastic/events.py]), the one-shot probe after
    connecting with its timer ([_schedule_connect_time_calibration_probe] of [connection.py]), a probe and
    the loop of health checks ([_probe_device_connection] and [check_connection] of [health.py]), and the
    waits of [async_utils.py] that must not block for ever.

    A timer that was cancelled may still run its callback, when it was about to; so a timer that was
    started stays able to fire once.  Every callback tells by itself whether it is still the current one. *)

From Stdlib Require Import String QArith Lqa.
From stdpp Require Import base tactics list numbers gmap.
From S2P Require Import Prelude PyStr PyValue Coerce Health Executors MeshInbound Connect Reconnect.
Open Scope Z_scope.

(** ** The end of the startup drain *)

(** [dt_started]: timers that were started and have not fired, with their deadlines. *)
Record drain_timers := {
  dt_deadline : option Q; dt_current : option nat; dt_started : gmap nat Q; dt_complete : bool;
  dt_next : nat }.

Definition same_deadline (a : option Q) (d : Q) : bool :=
  match a with Some q => Qeq_bool q d | None => false end.

(** [starts]: the timer thread can be started. *)
Definition _schedule_startup_drain_deadline_cleanup (starts : bool) (startup_drain_deadline : Q)
    (s : drain_timers) : drain_timers :=
  let timer := dt_next s in
  if starts then
    {| dt_deadline := dt_deadline s; dt_current := Some timer;
       dt_started := <[timer := startup_drain_deadline]> (dt_started s);
       dt_complete := dt_complete s; dt_next := S timer |}
  else
    let ours := same_deadline (dt_deadline s) startup_drain_deadline in
    {| dt_deadline := if ours then None else dt_deadline s; dt_current := None;
       dt_started := dt_started s; dt_complete := ours || dt_complete s; dt_next := S timer |}.

(** The callback of a timer, at the time [now]. *)
Definition _cleanup (starts : bool) (now : Q) (timer : nat) (s : drain_timers) : drain_timers :=
  match dt_started s !! timer with
  | None => s
  | Some startup_drain_deadline =>
      let s :=
        {| dt_deadline := dt_deadline s;
           dt_current := if bool_decide (dt_current s = Some timer) then None else dt_current s;
           dt_started := delete timer (dt_started s); dt_complete := dt_complete s;
           dt_next := dt_next s |} in
      match dt_deadline s with
      | Some current_deadline =>
          if negb (Qeq_bool current_deadline startup_drain_deadline) then s
          else if qlt now current_deadline
          then _schedule_startup_drain_deadline_cleanup starts current_deadline s
          else {| dt_deadline := None; dt_current := dt_current s; dt_started := dt_started s;
                  dt_complete := true; dt_next := dt_next s |}
      | None => s
      end
  end.

(** A connection begins a drain; a packet, a roll-back or a shutdown ends one. *)
Definition begin_drain (starts : bool) (deadline : Q) (s : drain_timers) : drain_timers :=
  _schedule_startup_drain_deadline_cleanup starts deadline
    {| dt_deadline := Some deadline; dt_current := dt_current s; dt_started := dt_started s;
       dt_complete := false; dt_next := dt_next s |}.
Definition stop_drain (s : drain_timers) : drain_timers :=
  {| dt_deadline := None; dt_current := None; dt_started := dt_started s; dt_complete := true;
     dt_next := dt_next s |}.

Inductive drain_step : drain_timers → drain_timers → Prop :=
  | DrainBegins s starts d : drain_step s (begin_drain starts d s)
  | DrainStops s : drain_step s (stop_drain s)
  | DrainFires s starts now timer : drain_step s (_cleanup starts now timer s).

Definition drain_start : drain_timers :=
  {| dt_deadline := None; dt_current := None; dt_started := ∅; dt_complete := true; dt_next := 0 |}.

(** ** The probe after connecting *)

Definition CONNECT_PROBE_POST_STABILIZATION_DELAY_SECS : Q := 2.

Definition _get_connect_time_probe_settings (active_config : option pyval) : res (bool * Q) :=
  let default_timeout := inject_Z DEFAULT_MESHTASTIC_OPERATION_TIMEOUT in
  let default_enabled := DEFAULT_HEALTH_CHECK_ENABLED in
  match active_config with
  | Some (VDict config) =>
      match dget_none config (u "meshtastic") with
      | VDict meshtastic_cfg =>
          match dget_none meshtastic_cfg (u "health_check") with
          | VDict health_cfg =>
              let inherited_enabled :=
                _coerce_bool (dget_or health_cfg (u "enabled") (VBool default_enabled)) default_enabled in
              let enabled :=
                _coerce_bool (dget_or health_cfg (u "connect_probe_enabled") (VBool inherited_enabled))
                  inherited_enabled in
              let! timeout_secs :=
                _coerce_positive_float
                  (dget_or health_cfg (u "probe_timeout") (VFloat (FFin default_timeout))) default_timeout in
              Ok (enabled, timeout_secs.1)
          | _ => Ok (default_enabled, default_timeout)
          end
      | _ => Ok (default_enabled, default_timeout)
      end
  | _ => Ok (default_enabled, default_timeout)
  end.

(** The later of the two windows, and its name. *)
Definition _get_connect_probe_stabilization_deadline (c : relay_clock) : option (Q * pystr) :=
  match rc_drain_deadline c, rc_bootstrap_deadline c with
  | None, None => None
  | Some d, None => Some (d, u "startup drain")
  | None, Some b => Some (b, u "reconnect bootstrap")
  | Some d, Some b => if qlt d b then Some (b, u "reconnect bootstrap") else Some (d, u "startup drain")
  end.

(** How long a probe has to wait yet; None: not at all. *)
Definition stabilization_delay (now : Q) (c : relay_clock) : option Q :=
  match _get_connect_probe_stabilization_deadline c with
  | Some (deadline, _) =>
      let delay := (deadline + CONNECT_PROBE_POST_STABILIZATION_DELAY_SECS - now)%Q in
      if qlt 0 delay then Some delay else None
  | None => None
  end.

(** [cp_timers]: the clients of the timers that were started and have not fired; [cp_checked]: timers
    whose callback has made its checks; [cp_probes]: the clients that were probed, with the time. *)
Record connect_probes := {
  cp_pending : option nat; cp_timers : gmap nat Z; cp_checked : gmap nat Z; cp_next : nat;
  cp_probes : list (Z * Q) }.

Definition probes_start : connect_probes :=
  {| cp_pending := None; cp_timers := ∅; cp_checked := ∅; cp_next := 0; cp_probes := [] |}.

Definition set_pending (v : option nat) (s : connect_probes) : connect_probes :=
  {| cp_pending := v; cp_timers := cp_timers s; cp_checked := cp_checked s; cp_next := cp_next s;
     cp_probes := cp_probes s |}.

Definition _arm_delayed_probe (client : Z) (s : connect_probes) : connect_probes :=
  {| cp_pending := Some (cp_next s); cp_timers := <[cp_next s := client]> (cp_timers s);
     cp_checked := cp_checked s; cp_next := S (cp_next s); cp_probes := cp_probes s |}.
Definition _submit_probe (client : Z) (now : Q) (s : connect_probes) : connect_probes :=
  {| cp_pending := cp_pending s; cp_timers := cp_timers s; cp_checked := cp_checked s;
     cp_next := cp_next s; cp_probes := cp_probes s ++ [(client, now)] |}.

(** [supported]: the client has a local node and [sendData]. *)
Definition _schedule_connect_time_calibration_probe (enabled supported : bool) (client : Z) (now : Q)
    (c : relay_clock) (s : connect_probes) : connect_probes :=
  if negb enabled || negb supported then s else
  match stabilization_delay now c with
  | Some _ => _arm_delayed_probe client s
  | None => _submit_probe client now s
  end.

(** The callback of a timer, up to its checks of the timer, of the shutdown and of the client; then the
    rest, which puts the probe off again or submits it. *)
Definition _delayed_checks (timer : nat) (shutting_down : bool) (active_client active_client_id : option Z)
    (s : connect_probes) : connect_probes :=
  match cp_timers s !! timer with
  | None => s
  | Some client =>
      let s := {| cp_pending := cp_pending s; cp_timers := delete timer (cp_timers s);
                  cp_checked := cp_checked s; cp_next := cp_next s; cp_probes := cp_probes s |} in
      if negb (bool_decide (cp_pending s = Some timer)) then s
      else if shutting_down then set_pending None s
      else if negb (bool_decide (active_client = Some client)) &&
              negb (bool_decide (active_client_id = Some client))
      then set_pending None s
      else {| cp_pending := cp_pending s; cp_timers := cp_timers s;
              cp_checked := <[timer := client]> (cp_checked s); cp_next := cp_next s;
              cp_probes := cp_probes s |}
  end.

Definition _delayed_submit (timer : nat) (now : Q) (c : relay_clock) (s : connect_probes) : connect_probes :=
  match cp_checked s !! timer with
  | None => s
  | Some client =>
      let s := {| cp_pending := cp_pending s; cp_timers := cp_timers s;
                  cp_checked := delete timer (cp_checked s); cp_next := cp_next s;
                  cp_probes := cp_probes s |} in
      match stabilization_delay now c with
      | Some _ => _arm_delayed_probe client s
      | None =>
          if bool_decide (cp_pending s = Some timer)
          then _submit_probe client now (set_pending None s) else s
      end
  end.

Inductive probe_step : connect_probes → connect_probes → Prop :=
  | ProbeScheduled s enabled supported client now c :
      probe_step s (_schedule_connect_time_calibration_probe enabled supported client now c s)
  | ProbeDropped s : probe_step s (set_pending None s)     (* the connection is lost or rolled back *)
  | ProbeChecked s timer shutting_down active active_id :
      probe_step s (_delayed_checks timer shutting_down active active_id s)
  | ProbeSent s timer now c : probe_step s (_delayed_submit timer now c s).

(** ** A probe *)

(** The client's shape: [pb_usable]: a local node and [sendData]; [pb_ack]: its acknowledgment object or
    else that of the local node's interface; [pb_can_wait]: it has [waitForAckNak]. *)
Record probe_client := {
  pb_usable : bool; pb_ack : option ack_state; pb_can_wait : bool }.

Definition missing_probe_transport : pystr :=
  u "Meshtastic client cannot perform metadata liveness probe".
Definition missing_probe_wait : pystr := u "Meshtastic client cannot wait for metadata probe ACK".

Inductive probe_result := ProbeAnswered | ProbeTimeout | ProbeError (e : pyexc).

(** [send]: the identifier of the packet sent; [looks], [final]: the flags as the wait sees them, which were
    reset before the packet was sent; [waited]: how [waitForAckNak] ends. *)
Definition _probe_device_connection (client : probe_client) (send : res pyval) (now now_waiting timeout_secs : Q)
    (looks : list (Q * Q * ack_state)) (final : ack_state) (waited : probe_result) (c : relay_clock)
    : relay_clock * probe_result :=
  if negb (pb_usable client) then (c, ProbeError (RuntimeError missing_probe_transport)) else
  match send with
  | Raise e => (c, ProbeError e)
  | Ok id =>
      match _track_health_probe_request_id now id timeout_secs c with
      | Raise e => (c, ProbeError e)
      | Ok (c, _) =>
          (c, match pb_ack client with
              | Some _ =>
                  match _wait_for_probe_ack (now_waiting + timeout_secs)%Q looks final with
                  | Some _ => ProbeAnswered
                  | None => ProbeTimeout
                  end
              | None => if pb_can_wait client then waited
                        else ProbeError (RuntimeError missing_probe_wait)
              end)
      end
  end.

(** ** Health checks *)

(** What one round of the loop finds: [client]: the client in use, [same]: it still is after the probe. *)
Record check_round := {
  cr_shutting_down : bool; cr_client : option Z; cr_reconnecting : bool; cr_outcome : probe_outcome;
  cr_reconnecting_after : bool; cr_same : bool }.

Inductive check_end := CheckReturns | CheckRuns.

(** The clients declared lost, in order. *)
Fixpoint check_loop (rounds : list check_round) : list Z * check_end :=
  match rounds with
  | [] => ([], CheckRuns)
  | r :: rounds =>
      if cr_shutting_down r then ([], CheckReturns) else
      let lost :=
        match cr_client r with
        | Some client =>
            if negb (cr_reconnecting r) &&
               _execute_health_probe (cr_outcome r) (cr_reconnecting_after r) (cr_same r)
            then [client] else []
        | None => []
        end in
      let '(l, e) := check_loop rounds in (lost ++ l, e)
  end.

(** [config]: None when there is none. *)
Definition check_connection (config : option pydict) (rounds : list check_round) : res (list Z * check_end) :=
  match config with
  | None => Ok ([], CheckReturns)
  | Some config =>
      if negb (requires_continuous_health_monitor config) then Ok ([], CheckReturns) else
      let! parsed := _parse_health_check_config config in
      match parsed with
      | None => Ok ([], CheckReturns)
      | Some _ => Ok (check_loop rounds)
      end
  end.

(** A round of the loop on a system whose connection may be lost: the probe is submitted to the
    executors, and a degraded executor is taken for a lost connection. *)
Definition check_degraded (now : Q) (s : net) : net :=
  match ln_client (nt_link s) with
  | Some client =>
      if nt_reconnecting s then s else
      let '(w, r) := _submit_metadata_probe now (nt_workers s) in
      let s := {| nt_link := nt_link s; nt_workers := w; nt_shutting_down := nt_shutting_down s;
                  nt_reconnecting := nt_reconnecting s; nt_event_loop := nt_event_loop s;
                  nt_tasks := nt_tasks s; nt_attempts := nt_attempts s |} in
      match r with
      | Degraded => on_lost_meshtastic_connection (Some client) true s
      | _ => s
      end
  | None => s
  end.

(** ** Waiting for a result *)

(** One poll of [_wait_for_future_result_with_shutdown]: the flag, the time before it, and the result that
    came or how long the poll took. *)
Record poll := { po_shutting_down : bool; po_now : Q; po_result : option Z; po_elapsed : Q }.

Inductive wait_end := WaitResult (v : Z) | WaitShutdown | WaitTimeout.

(** None: still waiting after these polls. *)
Fixpoint _wait_for_future_result_with_shutdown (deadline poll_budget : Q) (immediate_timeout_count : nat)
    (polls : list poll) : option wait_end :=
  match polls with
  | [] => None
  | p :: polls =>
      if po_shutting_down p then Some WaitShutdown else
      let remaining := (deadline - po_now p)%Q in
      if qle remaining 0 then Some WaitTimeout else
      let wait_budget := qmin remaining poll_budget in
      match po_result p with
      | Some v => Some (WaitResult v)
      | None =>
          if qlt (po_elapsed p) (qmin 0.01 (wait_budget * 0.1)) then
            if (3 <=? S immediate_timeout_count)%nat then Some WaitTimeout
            else _wait_for_future_result_with_shutdown deadline poll_budget (S immediate_timeout_count) polls
          else _wait_for_future_result_with_shutdown deadline poll_budget 0 polls
      end
  end.

(** An event loop as [_wait_for_result] sees it. *)
Record event_loop := { el_id : nat; el_closed : bool; el_running : bool }.

Inductive future_kind := FutureNone | ConcurrentFuture | AsyncioFuture | ResultObject | OtherAwaitable.

(** Where the wait takes place; [NoWait]: it is scheduled in the background and False is returned. *)
Inductive placement :=
  | NothingToWait | OnFuture | NoWait (loop : nat) | OnLoop (loop : nat) | RunsLoop (loop : nat) | NewLoop.

(** [running]: the loop that runs in this thread. *)
Definition _wait_for_result (k : future_kind) (loop running : option event_loop) : placement :=
  match k with
  | FutureNone => NothingToWait
  | ConcurrentFuture | ResultObject => OnFuture
  | AsyncioFuture | OtherAwaitable =>
      let from_running :=
        match running with
        | Some r => if el_closed r then NewLoop
                    else if el_running r then NoWait (el_id r) else RunsLoop (el_id r)
        | None => NewLoop
        end in
      match loop with
      | Some t =>
          if el_closed t then from_running
          else if el_running t then
            if bool_decide (el_id <$> running = Some (el_id t)) then NoWait (el_id t) else OnLoop (el_id t)
          else RunsLoop (el_id t)
      | None => from_running
      end
  end.

(** ** The drain always ends *)

Definition drain_ok (s : drain_timers) : Prop :=
  dt_complete s = bool_decide (dt_deadline s = None) ∧
  (∀ t d, dt_started s !! t = Some d → t < dt_next s)%nat ∧
  (∀ d, dt_deadline s = Some d → ∃ t d', dt_current s = Some t ∧ dt_started s !! t = Some d' ∧ (d == d')%Q).

Lemma schedule_ok starts d s :
  (∀ t d, dt_started s !! t = Some d → t < dt_next s)%nat →
  dt_complete s = bool_decide (dt_deadline s = None) →
  (∀ e, dt_deadline s = Some e → (e == d)%Q) →
  drain_ok (_schedule_startup_drain_deadline_cleanup starts d s).
Proof.
  intros Hn Hc Hd. unfold _schedule_startup_drain_deadline_cleanup. cbv zeta. destruct starts.
  - split_and!; cbn; [done| |].
    + intros t e [[<- <-]|[_ H]]%lookup_insert_Some; [lia|]. specialize (Hn _ _ H). lia.
    + intros e He. exists (dt_next s), d. split_and!; [done|apply lookup_insert_eq|by apply Hd].
  - destruct (same_deadline (dt_deadline s) d) eqn:E; split_and!; cbn; try done.
    + intros t e H. specialize (Hn _ _ H). lia.
    + intros t e H. specialize (Hn _ _ H). lia.
    + intros e He. specialize (Hd e He). rewrite He in E. cbn in E. by apply Qeq_bool_iff in Hd; rewrite Hd in E.
Qed.

Lemma drain_preserves : preserves drain_step drain_ok.
Proof.
  intros s s' Hstep (Hc & Hn & Hd). destruct Hstep as [s starts d|s|s starts now timer].
  - apply schedule_ok; cbn; [done|done|]. by intros e [= <-].
  - split_and!; cbn; done.
  - unfold _cleanup. destruct (dt_started s !! timer) as [d|] eqn:Et; [|done]. cbv zeta. cbn [dt_deadline dt_current dt_started].
    assert (Hn' : ∀ t e, delete timer (dt_started s) !! t = Some e → (t < dt_next s)%nat).
    { intros t e [_ H]%lookup_delete_Some. by eapply Hn. }
    destruct (dt_deadline s) as [c|] eqn:Ed; [|split_and!; cbn; [by rewrite ?Hc, ?Ed|done|by rewrite ?Ed]].
    destruct (Qeq_bool c d) eqn:Eq; cbn [negb].
    + destruct (qlt now c).
      * apply schedule_ok; cbn; [done|by rewrite ?Hc, ?Ed|]. rewrite ?Ed. by intros e [= <-].
      * split_and!; cbn; done.
    + split_and!; cbn; [by rewrite ?Hc, ?Ed|done|]. rewrite ?Ed. intros e [= <-].
      destruct (Hd c eq_refl) as (t & d' & Ht & Hs & Hq). exists t, d'.
      assert (Hne : timer ≠ t).
      { intros <-. rewrite Et in Hs. injection Hs as <-. apply Qeq_bool_iff in Hq. congruence. }
      rewrite Ht, bool_decide_false by congruence. split_and!; [done|by rewrite lookup_delete_ne|done].
Qed.

(** The startup drain never lasts for ever: while one is pending there is a started timer for its
    deadline, whose callback ends it when it runs at the deadline or later; and a drain that is over has
    been signalled - also when no timer could be started. *)
Theorem drain_ends s :
  star drain_step drain_start s →
  (dt_deadline s = None → dt_complete s = true) ∧
  (∀ d, dt_deadline s = Some d → ∃ timer, dt_current s = Some timer ∧
     ∀ starts now, (d <= now)%Q →
       dt_deadline (_cleanup starts now timer s) = None ∧ dt_complete (_cleanup starts now timer s) = true).
Proof.
  intros Hs. assert (Hok : drain_ok s).
  { apply (star_invariant drain_step drain_ok _ _ drain_preserves Hs). by split_and!. }
  destruct Hok as (Hc & _ & Hd). split; [intros E; by rewrite Hc, E|].
  intros d E. destruct (Hd d E) as (t & d' & Ht & Hst & Hq). exists t. split; [done|]. intros starts now Hnow.
  unfold _cleanup. rewrite Hst. cbv zeta. cbn [dt_deadline]. rewrite E.
  apply Qeq_bool_iff in Hq. rewrite Hq. cbn [negb].
  assert (Hlt : qlt now d = false) by (apply qlt_false; lra). rewrite Hlt. done.
Qed.

(** ** At most one probe for a connection *)

Inductive probe_run : nat → connect_probes → Prop :=
  | ProbeRunStart : probe_run 0 probes_start
  | ProbeRunSchedule n s enabled supported client now c :
      probe_run n s →
      probe_run (S n) (_schedule_connect_time_calibration_probe enabled supported client now c s)
  | ProbeRunDrop n s : probe_run n s → probe_run n (set_pending None s)
  | ProbeRunChecks n s timer shutting_down active active_id :
      probe_run n s → probe_run n (_delayed_checks timer shutting_down active active_id s)
  | ProbeRunSubmit n s timer now c : probe_run n s → probe_run n (_delayed_submit timer now c s).

Definition probes_ok (n : nat) (s : connect_probes) : Prop :=
  (length (cp_probes s) + size (cp_timers s) + size (cp_checked s) ≤ n)%nat ∧
  (∀ t c, cp_timers s !! t = Some c → t < cp_next s)%nat ∧
  (∀ t c, cp_checked s !! t = Some c → t < cp_next s ∧ cp_timers s !! t = None)%nat.

Lemma arm_ok n client s :
  (length (cp_probes s) + size (cp_timers s) + size (cp_checked s) < n)%nat →
  (∀ t c, cp_timers s !! t = Some c → t < cp_next s)%nat →
  (∀ t c, cp_checked s !! t = Some c → t < cp_next s ∧ cp_timers s !! t = None)%nat →
  probes_ok n (_arm_delayed_probe client s).
Proof.
  intros Hn Ht Hk. split_and!; cbn.
  - rewrite map_size_insert_None; [lia|]. destruct (cp_timers s !! cp_next s) eqn:E; [|done].
    specialize (Ht _ _ E). lia.
  - intros t c [[<- _]|[_ H]]%lookup_insert_Some; [lia|]. specialize (Ht _ _ H). lia.
  - intros t c H. destruct (Hk _ _ H) as [H1 H2]. split; [lia|]. rewrite lookup_insert_ne; [done|lia].
Qed.

Lemma probe_run_ok n s : probe_run n s → probes_ok n s.
Proof.
  induction 1 as [|n s en su client now c _ (Hn & Ht & Hk)|n s _ IH|n s t sh a ai _ (Hn & Ht & Hk)|n s t now c _ (Hn & Ht & Hk)].
  - split_and!; cbn; done.
  - unfold _schedule_connect_time_calibration_probe. destruct (_ || _); [split_and!; [lia|done..]|].
    destruct (stabilization_delay now c); [apply arm_ok; [lia|done..]|].
    split_and!; cbn; [rewrite length_app; cbn; lia|done..].
  - exact IH.
  - unfold _delayed_checks. destruct (cp_timers s !! t) as [client|] eqn:Et; [|by split_and!].
    assert (Hsz : size (delete t (cp_timers s)) = pred (size (cp_timers s))) by (apply map_size_delete_Some; eauto).
    assert (Hpos : size (cp_timers s) ≠ 0%nat).
    { intros E. apply map_size_empty_inv in E. by rewrite E, lookup_empty in Et. }
    assert (Hrest : probes_ok n {| cp_pending := cp_pending s; cp_timers := delete t (cp_timers s);
      cp_checked := cp_checked s; cp_next := cp_next s; cp_probes := cp_probes s |}).
    { split_and!; cbn; [lia| |].
      - intros t' c' [_ H]%lookup_delete_Some. by eapply Ht.
      - intros t' c' H. destruct (Hk _ _ H). split; [done|]. by apply lookup_delete_None; right. }
    cbv zeta. destruct (negb _); [exact Hrest|]. destruct sh; [exact Hrest|]. destruct (_ && _); [exact Hrest|].
    destruct Hrest as (_ & H2 & H3). cbn [cp_timers cp_checked cp_next] in *. split_and!; cbn.
    + rewrite map_size_insert_None; [lia|]. destruct (cp_checked s !! t) eqn:E; [|done].
      destruct (Hk _ _ E). congruence.
    + exact H2.
    + intros t' c' [[<- _]|[_ H]]%lookup_insert_Some; [split; [by eapply Ht|apply lookup_delete_eq]|by eapply H3].
  - unfold _delayed_submit. destruct (cp_checked s !! t) as [client|] eqn:Et; [|by split_and!].
    assert (Hsz : size (delete t (cp_checked s)) = pred (size (cp_checked s))) by (apply map_size_delete_Some; eauto).
    assert (Hpos : size (cp_checked s) ≠ 0%nat).
    { intros E. apply map_size_empty_inv in E. by rewrite E, lookup_empty in Et. }
    assert (H3 : ∀ t' c', delete t (cp_checked s) !! t' = Some c' → (t' < cp_next s)%nat ∧ cp_timers s !! t' = None).
    { intros t' c' [_ H]%lookup_delete_Some. by eapply Hk. }
    cbv zeta. destruct (stabilization_delay now c); [apply arm_ok; cbn; [lia|done..]|].
    destruct (bool_decide _); (split_and!; cbn; [rewrite ?length_app; cbn; lia|done..]).
Qed.

(** A connection is probed at most once after it is set up: however timers, shutdowns and changes of
    the client interleave, there are never more probes than connections that asked for one. *)
Theorem one_probe_per_connection n s : probe_run n s → (length (cp_probes s) ≤ n)%nat.
Proof. intros (H & _ & _)%probe_run_ok. lia. Qed.

(** A callback that has made its checks puts its probe off without looking again whether it is
    still the current one: it takes the place of the probe of a newer client, which is never sent. *)
Lemma rearm_displaces_newer_probe s timer client newer timer' now c delay :
  cp_checked s !! timer = Some client → cp_pending s = Some timer' → timer' ≠ timer →
  (timer' < cp_next s)%nat → cp_timers s !! timer' = Some newer → stabilization_delay now c = Some delay →
  let s' := _delayed_submit timer now c s in
  cp_timers s' !! cp_next s = Some client ∧
  ∀ sh a ai, cp_probes (_delayed_checks timer' sh a ai s') = cp_probes s ∧
             cp_checked (_delayed_checks timer' sh a ai s') !! timer' = cp_checked s' !! timer'.
Proof.
  intros Hk Hp Hne Hlt Ht Hd. unfold _delayed_submit. rewrite Hk. cbv zeta. rewrite Hd. cbn.
  split; [apply lookup_insert_eq|]. intros sh a ai. unfold _delayed_checks. cbn.
  rewrite lookup_insert_ne, Ht by lia. rewrite bool_decide_false by (intros [= ?]; lia). done.
Qed.

(** ** Health checks *)

Lemma check_loop_sound rounds client :
  client ∈ (check_loop rounds).1 →
  ∃ before r after, rounds = before ++ r :: after ∧ Forall (λ r, cr_shutting_down r = false) (before ++ [r]) ∧
    cr_client r = Some client ∧ cr_reconnecting r = false ∧ cr_reconnecting_after r = false ∧ cr_same r = true ∧
    (cr_outcome r = ProbeDegraded ∨ cr_outcome r = ProbeFailed).
Proof.
  induction rounds as [|r rounds IH]; cbn; [by intros ?%elem_of_nil|].
  destruct (cr_shutting_down r) eqn:Es; [by intros ?%elem_of_nil|].
  destruct (check_loop rounds) as [l e]. cbn [fst] in *. intros [H|H]%elem_of_app.
  - exists [], r, rounds. destruct (cr_client r) as [c|]; [|by apply elem_of_nil in H].
    destruct (cr_reconnecting r); [by apply elem_of_nil in H|]. cbn [negb andb] in H.
    unfold _execute_health_probe in H.
    destruct (cr_outcome r), (cr_reconnecting_after r), (cr_same r); cbn in H;
      try (by apply elem_of_nil in H); apply list_elem_of_singleton in H as ->; split_and!; auto;
      by apply Forall_singleton.
  - destruct (IH H) as (b & r' & a & -> & Hb & Hr). exists (r :: b), r', a. split; [done|].
    split; [by apply Forall_cons|exact Hr].
Qed.

(** A health check declares lost only a connection that is in trouble: the client that was probed is
    still the one in use, no reconnection is under way, the probe failed or the executor is degraded, and
    no shutdown had begun; and over Bluetooth, or where checks are off, there is no check at all. *)
Theorem health_checks_sound config rounds l e client :
  check_connection (Some config) rounds = Ok (l, e) → client ∈ l →
  requires_continuous_health_monitor config = true ∧
  ∃ before r after, rounds = before ++ r :: after ∧ Forall (λ r, cr_shutting_down r = false) (before ++ [r]) ∧
    cr_client r = Some client ∧ cr_reconnecting r = false ∧ cr_reconnecting_after r = false ∧ cr_same r = true ∧
    (cr_outcome r = ProbeDegraded ∨ cr_outcome r = ProbeFailed).
Proof.
  unfold check_connection. destruct (requires_continuous_health_monitor config); cbn [negb];
    [|by intros [= <- _] ?%elem_of_nil].
  destruct (_parse_health_check_config config) as [[p|]|]; cbn [res_bind]; [|by intros [= <- _] ?%elem_of_nil|done].
  intros [= H] Hin. split; [done|]. apply check_loop_sound. by rewrite H.
Qed.

(** On a connection that is not over Bluetooth, a metadata executor that is degraded makes
    every health check tear down the connection in use, however healthy, and start a reconnection; and as
    that leaves the executor as it was, so does the first check after each reconnection. *)
Theorem degraded_check_reconnects now s client :
  tracked_ok (nt_workers s) → ble_future (nt_workers s) = None → ble_degraded (nt_workers s) = ∅ →
  meta_degraded (nt_workers s) = true → is_live (meta_future (nt_workers s)) (nt_workers s) = false →
  ln_client (nt_link s) = Some client → ln_active_client_id (nt_link s) = Some client →
  nt_shutting_down s = false → nt_reconnecting s = false → nt_event_loop s = true →
  let s' := check_degraded now s in
  ln_client (nt_link s') = None ∧ ln_closed (nt_link s') = ln_closed (nt_link s) ++ [client] ∧
  nt_reconnecting s' = true ∧ nt_workers s' = nt_workers s.
Proof.
  intros Ht Hf Hb Hm Hl Hc Ha Hsd Hr He. cbv zeta. unfold check_degraded. rewrite Hc, Hr.
  assert (E : _submit_metadata_probe now (nt_workers s) = (nt_workers s, Degraded)).
  { unfold _submit_metadata_probe. rewrite Hl, Hm. done. }
  rewrite E. unfold on_lost_meshtastic_connection, lost_event_counts. cbn [nt_shutting_down nt_link nt_reconnecting].
  rewrite Hsd, Hc, Ha. cbn [default from_option id]. rewrite Z.eqb_refl. cbn [negb].
  unfold _schedule_reconnect_after_disconnect. cbn. rewrite He. cbn.
  assert (Hw : disconnect_workers (nt_workers s) = nt_workers s).
  { unfold tracked_ok in Ht. rewrite Hf in Ht. destruct Ht as (Haddr & _ & _).
    unfold disconnect_workers, _clear_stale_ble_future_for_reconnect. rewrite Hf, Haddr. cbn.
    by rewrite Hb. }
  unfold tear_down. rewrite Hc. by rewrite Hw.
Qed.

(** ** Waiting *)

Definition ends_wait (deadline : Q) (p : poll) : bool :=
  po_shutting_down p || qle deadline (po_now p) || (match po_result p with Some _ => true | None => false end).

(** The wait for a Bluetooth operation is bounded and heeds a shutdown: it is over with the first
    poll that sees the shutdown, the deadline or a result, and what it returns is a result that came;
    time-outs that come at once, three in a row, end it too. *)
Theorem wait_heeds_shutdown deadline budget polls n p :
  p ∈ polls → ends_wait deadline p = true →
  ∃ e, _wait_for_future_result_with_shutdown deadline budget n polls = Some e ∧
       ∀ v, e = WaitResult v → ∃ q, q ∈ polls ∧ po_result q = Some v ∧ po_shutting_down q = false.
Proof.
  revert n. induction polls as [|q polls IH]; intros n Hp He; [by apply elem_of_nil in Hp|].
  cbn [_wait_for_future_result_with_shutdown].
  destruct (po_shutting_down q) eqn:Es; [by eexists|].
  destruct (qle (deadline - po_now q) 0) eqn:Ed; [by eexists|]. cbv zeta.
  destruct (po_result q) as [v|] eqn:Er.
  { eexists. split; [done|]. intros w [= <-]. exists q. split_and!; [by left|done..]. }
  assert (Hp' : p ∈ polls).
  { apply elem_of_cons in Hp as [->|Hp]; [|done]. exfalso. unfold ends_wait in He. rewrite Es, Er in He.
    cbn in He. rewrite orb_false_r in He. apply qle_false in Ed. apply qle_spec in He. lra. }
  assert (Hrec : ∀ m, ∃ e, _wait_for_future_result_with_shutdown deadline budget m polls = Some e ∧
    ∀ v, e = WaitResult v → ∃ q', q' ∈ q :: polls ∧ po_result q' = Some v ∧ po_shutting_down q' = false).
  { intros m. destruct (IH m Hp' He) as (e & H1 & H2). exists e. split; [done|]. intros v Hv.
    destruct (H2 v Hv) as (q' & Hq & ?). exists q'. split; [by right|done]. }
  destruct (qlt _ _); [|apply Hrec]. destruct (3 <=? S n)%nat; [by eexists|apply Hrec].
Qed.

(** No deadlock on the event loop: [_wait_for_result] never blocks on the loop that runs in the calling
    thread, nor on one that is closed; there it schedules the work and returns at once. *)
Theorem never_blocks_own_loop k loop running l :
  _wait_for_result k loop running = OnLoop l →
  (∀ r, running = Some r → el_id r ≠ l) ∧
  ∃ t, loop = Some t ∧ el_id t = l ∧ el_closed t = false ∧ el_running t = true.
Proof.
  unfold _wait_for_result. destruct k; try done; destruct loop as [t|];
    try (destruct running as [r|]; [destruct (el_closed r), (el_running r)|]; done);
    destruct (el_closed t) eqn:Ec; try (destruct running as [r|]; [destruct (el_closed r), (el_running r)|]; done);
    destruct (el_running t) eqn:Er; try done;
    destruct (bool_decide _) eqn:Eb; try done; apply bool_decide_eq_false in Eb; intros [= <-];
    (split; [intros r -> E; apply Eb; cbn; by rewrite E|by exists t]).
Qed.

(** ** The hypotheses can be met *)

Definition demo_draining : drain_timers := Eval vm_compute in begin_drain true 10 drain_start.

Lemma drain_ends_witness : ∃ timer, dt_complete (_cleanup true 11 timer demo_draining) = true.
Proof.
  destruct (drain_ends demo_draining) as [_ H].
  - eapply star_step; [exact (DrainBegins drain_start true 10)|]. apply star_refl.
  - destruct (H 10%Q eq_refl) as (timer & _ & Ht). exists timer. apply Ht. discriminate.
Defined.

Definition demo_probed : connect_probes :=
  _schedule_connect_time_calibration_probe true true 7 0 demo_clock probes_start.

Lemma one_probe_per_connection_witness : length (cp_probes demo_probed) = 1%nat ∧ (length (cp_probes demo_probed) ≤ 1)%nat.
Proof.
  split; [reflexivity|]. apply (one_probe_per_connection 1 demo_probed). apply ProbeRunSchedule, ProbeRunStart.
Defined.

Definition demo_health_config : pydict :=
  [(u "meshtastic", VDict [(u "health_check", VDict [(u "enabled", VBool true)])])].
Definition demo_check : check_round :=
  {| cr_shutting_down := false; cr_client := Some 7; cr_reconnecting := false; cr_outcome := ProbeFailed;
     cr_reconnecting_after := false; cr_same := true |}.

Lemma health_checks_sound_witness : requires_continuous_health_monitor demo_health_config = true.
Proof.
  apply (health_checks_sound demo_health_config [demo_check] [7] CheckRuns 7).
  - vm_compute. reflexivity.
  - by left.
Defined.

Definition demo_degraded_workers : workers :=
  meta_part 0 None None None 5 true init_workers.
Definition demo_degraded_net : net :=
  {| nt_link := with_client (Some 7) demo_link; nt_workers := demo_degraded_workers; nt_shutting_down := false;
     nt_reconnecting := false; nt_event_loop := true; nt_tasks := []; nt_attempts := 0 |}.

Lemma degraded_check_reconnects_witness : nt_reconnecting (check_degraded 100 demo_degraded_net) = true.
Proof.
  apply (degraded_check_reconnects 100 demo_degraded_net 7); try reflexivity. vm_compute. auto.
Defined.

Lemma wait_heeds_shutdown_witness :
  _wait_for_future_result_with_shutdown 30 1 0
    [{| po_shutting_down := false; po_now := 0; po_result := None; po_elapsed := 1 |};
     {| po_shutting_down := true; po_now := 1; po_result := None; po_elapsed := 1 |}] = Some WaitShutdown.
Proof.
  destruct (wait_heeds_shutdown 30 1
    [{| po_shutting_down := false; po_now := 0; po_result := None; po_elapsed := 1 |};
     {| po_shutting_down := true; po_now := 1; po_result := None; po_elapsed := 1 |}] 0
    {| po_shutting_down := true; po_now := 1; po_result := None; po_elapsed := 1 |}) as (e & He & _).
  - right. by left.
  - reflexivity.
  - rewrite He. vm_compute in He. by rewrite <- He.
Defined.

Lemma never_blocks_own_loop_witness : ∃ t, t = {| el_id := 1; el_closed := false; el_running := true |} ∧ el_id t = 1%nat.
Proof.
  destruct (never_blocks_own_loop AsyncioFuture (Some {| el_id := 1; el_closed := false; el_running := true |})
    (Some {| el_id := 2; el_closed := false; el_running := true |}) 1 eq_refl) as [_ (t & [= <-] & H & _)].
  by eexists.
Defined.
