(* ===== verification/MainLoop.v ===== *)
(** * The life of the program

    Models [main.py]: the start of the components in their order and the roll-back when one of them
    fails, the loop around the Matrix synchronisation, the readiness file, the wait for background
    tasks and the shut-down of the components, and the exit status of [run_main].

    [main] is a coroutine, so other callbacks of the event loop run exactly where it awaits.  An
    [awaited] is such a point: the callbacks that run there and what the await gives or raises.  A
    program of the monad [M] changes the state [app] and returns, raises or is still waiting.  What
    the components do is an argument; their own behaviour is in the other files. *)

From Stdlib Require Import String QArith.
From stdpp Require Import base tactics list numbers sets.
From S2P Require Import Prelude PyStr PyValue Health.
Open Scope Z_scope.

(** ** Exceptions, tasks and effects *)

(** The classes of exceptions that [main] tells apart. *)
Inductive exc :=
  | ECancelled | EKeyboardInterrupt | ESystemExit
  | ETimeout | EClient | EConnection | EOS | ERuntime | EValue | EOther.
#[export] Instance exc_eq_dec : EqDecision exc.
Proof. solve_decision. Defined.

(** [isinstance(e, Exception)] *)
Definition is_exception (e : exc) : bool :=
  match e with ECancelled | EKeyboardInterrupt | ESystemExit => false | _ => true end.
(** [ClientError, ConnectionError, OSError, RuntimeError, ValueError]; TimeoutError is an OSError. *)
Definition is_sync_error (e : exc) : bool :=
  match e with ETimeout | EClient | EConnection | EOS | ERuntime | EValue => true | _ => false end.

(** A finished task has an outcome: None for a normal return. *)
Inductive task := NoTask | TaskRunning | TaskDone (outcome : option exc).
#[export] Instance task_eq_dec : EqDecision task.
Proof. solve_decision. Defined.
Definition task_done (t : task) : bool := match t with TaskDone _ => true | _ => false end.

Inductive task_id := THealth | TSync | TRefresh.
#[export] Instance task_id_eq_dec : EqDecision task_id.
Proof. solve_decision. Defined.

(** The task that touches the readiness file: between two touches, or with one in its thread. *)
Inductive heartbeat := HbNone | HbWaiting | HbTouching.
#[export] Instance heartbeat_eq_dec : EqDecision heartbeat.
Proof. solve_decision. Defined.

Inductive effect :=
  | InstallHandler | RestoreHandler | InitializeDatabase | WipeMessageMap
  | LoadPlugins | StartMessageQueue | ConnectMeshtastic | ConnectMatrix | JoinRoom (id : pystr)
  | RegisterCallbacks | InstallSignals | StartTask (t : task_id) | CancelTask (t : task_id)
  | EnsureProcessorStarted | PublishReady | RemoveReadyFile
  | CancelReconnect | UnsubscribeCallbacks | ShutdownPlugins | StopMessageQueue
  | CloseMatrix | DisconnectBle | CloseMeshtastic | ShutdownExecutors.
#[export] Instance effect_eq_dec : EqDecision effect.
Proof. solve_decision. Defined.

(** ** State *)

(** [a_shutdown]: [shutdown_event], set together with [meshtastic_utils.shutting_down];
    [a_drain]: the event of the startup drain (None: there is none); [a_health_callback]: the health
    task has finished and its callback has not run yet; [a_log]: the effects, the latest first. *)
Record app := {
  a_shutdown : bool; a_fatal : option exc; a_handler : bool; a_signals : bool;
  a_health : task; a_health_callback : bool; a_sync : task; a_refresh : task; a_heartbeat : heartbeat;
  a_ready_file : bool; a_published : bool; a_drain : option bool; a_log : list effect }.

Definition set_shutdown (s : app) : app :=
  {| a_shutdown := true; a_fatal := a_fatal s; a_handler := a_handler s; a_signals := a_signals s;
     a_health := a_health s; a_health_callback := a_health_callback s; a_sync := a_sync s;
     a_refresh := a_refresh s; a_heartbeat := a_heartbeat s; a_ready_file := a_ready_file s;
     a_published := a_published s; a_drain := a_drain s; a_log := a_log s |}.
Definition set_fatal (e : exc) (s : app) : app :=
  {| a_shutdown := a_shutdown s; a_fatal := Some e; a_handler := a_handler s; a_signals := a_signals s;
     a_health := a_health s; a_health_callback := a_health_callback s; a_sync := a_sync s;
     a_refresh := a_refresh s; a_heartbeat := a_heartbeat s; a_ready_file := a_ready_file s;
     a_published := a_published s; a_drain := a_drain s; a_log := a_log s |}.
Definition set_handlers (h g : bool) (s : app) : app :=
  {| a_shutdown := a_shutdown s; a_fatal := a_fatal s; a_handler := h; a_signals := g;
     a_health := a_health s; a_health_callback := a_health_callback s; a_sync := a_sync s;
     a_refresh := a_refresh s; a_heartbeat := a_heartbeat s; a_ready_file := a_ready_file s;
     a_published := a_published s; a_drain := a_drain s; a_log := a_log s |}.
Definition set_task (t : task_id) (v : task) (s : app) : app :=
  {| a_shutdown := a_shutdown s; a_fatal := a_fatal s; a_handler := a_handler s; a_signals := a_signals s;
     a_health := if bool_decide (t = THealth) then v else a_health s;
     a_health_callback := a_health_callback s;
     a_sync := if bool_decide (t = TSync) then v else a_sync s;
     a_refresh := if bool_decide (t = TRefresh) then v else a_refresh s;
     a_heartbeat := a_heartbeat s; a_ready_file := a_ready_file s;
     a_published := a_published s; a_drain := a_drain s; a_log := a_log s |}.
Definition set_health_callback (b : bool) (s : app) : app :=
  {| a_shutdown := a_shutdown s; a_fatal := a_fatal s; a_handler := a_handler s; a_signals := a_signals s;
     a_health := a_health s; a_health_callback := b; a_sync := a_sync s;
     a_refresh := a_refresh s; a_heartbeat := a_heartbeat s; a_ready_file := a_ready_file s;
     a_published := a_published s; a_drain := a_drain s; a_log := a_log s |}.
Definition set_heartbeat (h : heartbeat) (s : app) : app :=
  {| a_shutdown := a_shutdown s; a_fatal := a_fatal s; a_handler := a_handler s; a_signals := a_signals s;
     a_health := a_health s; a_health_callback := a_health_callback s; a_sync := a_sync s;
     a_refresh := a_refresh s; a_heartbeat := h; a_ready_file := a_ready_file s;
     a_published := a_published s; a_drain := a_drain s; a_log := a_log s |}.
Definition set_ready (file published : bool) (s : app) : app :=
  {| a_shutdown := a_shutdown s; a_fatal := a_fatal s; a_handler := a_handler s; a_signals := a_signals s;
     a_health := a_health s; a_health_callback := a_health_callback s; a_sync := a_sync s;
     a_refresh := a_refresh s; a_heartbeat := a_heartbeat s; a_ready_file := file;
     a_published := published; a_drain := a_drain s; a_log := a_log s |}.
Definition set_drain (d : option bool) (s : app) : app :=
  {| a_shutdown := a_shutdown s; a_fatal := a_fatal s; a_handler := a_handler s; a_signals := a_signals s;
     a_health := a_health s; a_health_callback := a_health_callback s; a_sync := a_sync s;
     a_refresh := a_refresh s; a_heartbeat := a_heartbeat s; a_ready_file := a_ready_file s;
     a_published := a_published s; a_drain := d; a_log := a_log s |}.
Definition logged (e : effect) (s : app) : app :=
  {| a_shutdown := a_shutdown s; a_fatal := a_fatal s; a_handler := a_handler s; a_signals := a_signals s;
     a_health := a_health s; a_health_callback := a_health_callback s; a_sync := a_sync s;
     a_refresh := a_refresh s; a_heartbeat := a_heartbeat s; a_ready_file := a_ready_file s;
     a_published := a_published s; a_drain := a_drain s; a_log := e :: a_log s |}.

Definition get_task (t : task_id) (s : app) : task :=
  match t with THealth => a_health s | TSync => a_sync s | TRefresh => a_refresh s end.

(** ** The monad *)

Inductive outcome (A : Type) := Returns (a : A) | Raises (e : exc) | Waits.
Arguments Returns {A} _.
Arguments Raises {A} _.
Arguments Waits {A}.

Definition M (A : Type) : Type := app → outcome A * app.

Definition ret {A} (a : A) : M A := λ s, (Returns a, s).
Definition raise {A} (e : exc) : M A := λ s, (Raises e, s).
Definition waiting {A} : M A := λ s, (Waits, s).
Definition gets {A} (f : app → A) : M A := λ s, (Returns (f s), s).
Definition modify (f : app → app) : M unit := λ s, (Returns tt, f s).
Definition bind {A B} (m : M A) (k : A → M B) : M B := λ s,
  match m s with
  | (Returns a, s') => k a s'
  | (Raises e, s') => (Raises e, s')
  | (Waits, s') => (Waits, s')
  end.
(** [try: m except ... as e: h e], for the exceptions [p] accepts. *)
Definition try_except {A} (p : exc → bool) (m : M A) (h : exc → M A) : M A := λ s,
  match m s with
  | (Raises e, s') => if p e then h e s' else (Raises e, s')
  | r => r
  end.
(** [try: m finally: f]; [f] gets the exception in flight. *)
Definition try_finally {A} (m : M A) (f : option exc → M unit) : M A := λ s,
  match m s with
  | (Returns a, s') => bind (f None) (λ _, ret a) s'
  | (Raises e, s') => bind (f (Some e)) (λ _, raise e) s'
  | (Waits, s') => (Waits, s')
  end.

Declare Scope main_scope.
Delimit Scope main_scope with main.
Notation "x <- m ;; k" := (bind m (λ x, k)) (at level 100, m at next level, right associativity) : main_scope.
Notation "m ;; k" := (bind m (λ _, k)) (at level 100, right associativity) : main_scope.
Open Scope main_scope.

Definition when (b : bool) (m : M unit) : M unit := if b then m else ret tt.
Definition emit (e : effect) : M unit := modify (logged e).
Definition raise_if (o : option exc) : M unit := match o with Some e => raise e | None => ret tt end.

(** ** Settings *)

Definition _coerce_config_bool (value : pyval) : bool :=
  match value with
  | VBool b => b
  | VStr s => bool_decide (lower (strip s) ∈ [u "1"; u "true"; u "yes"; u "on"])
  | VInt z => z =? 1
  | VFloat (FFin q) => Qeq_bool q 1
  | _ => false
  end.

(** [config.get(section).get("msg_map")], if both are dictionaries. *)
Definition msg_map_section (config : pydict) (section : pystr) : pydict :=
  match dget_none config section with
  | VDict d => match dget_none d (u "msg_map") with VDict m => m | _ => [] end
  | _ => []
  end.

(** The value in the section [database] is the one that counts, even when it is false; without one,
    that of the legacy section [db]. *)
Definition wipe_on_restart (config : pydict) : bool :=
  let preferred := msg_map_section config (u "database") in
  if dmem preferred (u "wipe_on_restart") then
    _coerce_config_bool (dget_none preferred (u "wipe_on_restart"))
  else
    _coerce_config_bool
      (dget_or (msg_map_section config (u "db")) (u "wipe_on_restart") (VBool false)).

(** The context given to the handler of exceptions of the loop; the task by the name of its
    coroutine and by its [repr]. *)
Record loop_context := {
  lx_message : pystr; lx_timeout : bool; lx_task : option (pystr * pystr) }.

Definition _should_suppress_unretrieved_matrix_task_timeout (context : loop_context) : bool :=
  if negb (contains (lx_message context) (u "Task exception was never retrieved")) then false
  else if negb (lx_timeout context) then false
  else
    match lx_task context with
    | None => false
    | Some (coro_name, task_repr) =>
        contains coro_name (u "keys_query") || contains task_repr (u "keys_query")
    end.

Inductive handled := HandledSuppressed | HandledPrevious | HandledDefault.
Definition _handler (previous_handler : bool) (context : loop_context) : handled :=
  if _should_suppress_unretrieved_matrix_task_timeout context then HandledSuppressed
  else if previous_handler then HandledPrevious
  else HandledDefault.

(** ** The readiness file *)

(** The step of writing it that raises OSError. *)
Inductive write_step := WDirectory | WTempFile | WTempClose | WReplace.

(** Whether the file exists afterwards, and whether a temporary file is left. *)
Definition _write_ready_file (path_set : bool) (fails : option write_step) (unlink_fails exists_ : bool)
    : bool * bool :=
  if negb path_set then (exists_, false) else
  match fails with
  | Some WDirectory | Some WTempFile => (exists_, false)
  | Some WTempClose | Some WReplace => (exists_, unlink_fails)
  | None => (true, false)
  end.

(** ** Awaiting *)

(** KeyboardInterrupt and SystemExit stop the event loop itself, so that no task ends with them. *)
Inductive callback :=
  | SignalReceived
  | TaskEnds (t : task_id) (outcome : option exc)
  | HealthCallback
  | DrainCompletes
  | HeartbeatTouches
  | TouchLands (fails : bool).

Record awaited (A : Type) := Awaited { aw_callbacks : list callback; aw_result : A + exc }.
Arguments Awaited {A} _ _.
Arguments aw_callbacks {A} _.
Arguments aw_result {A} _.

Section main.
(** [monitored]: the health task is the own one and expected to run on
    ([_requires_continuous_health_monitor]); [path_set]: MMRELAY_READY_FILE is set. *)
Context (monitored path_set : bool) (heartbeat_seconds : Z).

Definition signal_handler (s : app) : app :=
  if a_shutdown s then s else set_shutdown s.

Definition _on_check_connection_done (s : app) : app :=
  match a_health s with
  | TaskDone (Some ECancelled) => s
  | TaskDone o =>
      if a_shutdown s then s else
      match o with
      | Some e => set_shutdown (set_fatal e s)
      | None => if monitored then set_shutdown (set_fatal ERuntime s) else s
      end
  | _ => s
  end.

Definition run_callback (c : callback) (s : app) : app :=
  match c with
  | SignalReceived => if a_signals s then signal_handler s else s
  | TaskEnds t o =>
      match get_task t s, o with
      | _, Some EKeyboardInterrupt | _, Some ESystemExit => s
      | TaskRunning, _ =>
          let s := set_task t (TaskDone o) s in
          if bool_decide (t = THealth) then set_health_callback true s else s
      | _, _ => s
      end
  | HealthCallback =>
      if a_health_callback s then _on_check_connection_done (set_health_callback false s) else s
  | DrainCompletes => match a_drain s with Some _ => set_drain (Some true) s | None => s end
  | HeartbeatTouches =>
      if bool_decide (a_heartbeat s = HbWaiting) && negb (a_shutdown s) then set_heartbeat HbTouching s
      else s
  | TouchLands fails =>
      if bool_decide (a_heartbeat s = HbTouching)
      then set_ready (negb fails || a_ready_file s) (a_published s) (set_heartbeat HbWaiting s)
      else s
  end.

Definition run_callbacks (l : list callback) (s : app) : app := foldl (flip run_callback) s l.

Definition await {A} (w : awaited A) : M A :=
  modify (run_callbacks (aw_callbacks w));;
  match aw_result w with inl a => ret a | inr e => raise e end.

(** [asyncio.to_thread] of a function that lets no exception out: only a cancellation is raised. *)
Record thread_wait := { tw_callbacks : list callback; tw_cancelled : bool }.
Definition await_thread (w : thread_wait) : M unit :=
  modify (run_callbacks (tw_callbacks w));;
  when (tw_cancelled w) (raise ECancelled).

(** None: the result has not come yet. *)
Definition await_next {A} (w : option (awaited A)) : M A :=
  match w with Some w => await w | None => waiting end.

(** ** Waiting for the components *)

(** How [drain_complete_event] and the others are found between the polls. *)
Fixpoint _wait_for_startup_drain_completion (polls : list (awaited unit)) : M unit :=
  d <- gets a_drain;;
  shutdown <- gets a_shutdown;;
  sync_done <- gets (λ s, task_done (a_sync s));;
  if default true d || shutdown || sync_done then ret tt else
  match polls with
  | [] => waiting
  | w :: polls => await w;; _wait_for_startup_drain_completion polls
  end.

Definition cancel_task (t : task_id) : M unit := emit (CancelTask t).

(** The waits of [_await_background_task_shutdown]: the first for the task itself, the second for a
    cancelled or finished one. *)
Record bg_waits := { bw_first : awaited unit; bw_second : awaited unit }.

Definition bg_second (t : task_id) (w : bg_waits) : M unit :=
  d <- gets (λ s, task_done (get_task t s));;
  if d then await (bw_second w)
  else
    (* a cancellation of [main] while it waits for the cancelled task is dropped *)
    cancel_task t;; try_except (λ e, bool_decide (e = ECancelled) || bool_decide (e = ETimeout)) (await (bw_second w)) (λ _, ret tt).

Definition _await_background_task_shutdown (t : task_id) (w : bg_waits) : M unit :=
  v <- gets (get_task t);;
  match v with
  | NoTask => ret tt
  | TaskDone _ => bg_second t w
  | TaskRunning =>
      modify (run_callbacks (aw_callbacks (bw_first w)));;
      v <- gets (get_task t);;
      (* what the wait raises: an exception thrown into [main], or the one of the task *)
      match aw_result (bw_first w), v with
      | inr ECancelled, _ => cancel_task t
      | inr EKeyboardInterrupt, _ => raise EKeyboardInterrupt
      | inr ESystemExit, _ => raise ESystemExit
      | _, TaskDone (Some ECancelled) => cancel_task t
      | _, TaskDone (Some ETimeout) => cancel_task t;; bg_second t w
      | _, TaskDone _ => bg_second t w
      | _, _ => cancel_task t;; bg_second t w
      end
  end.

(** The task of the heartbeat ends by itself once the event is set, unless it is in a touch; a touch
    in its thread goes on when the task is cancelled. *)
Definition await_heartbeat_shutdown (w : bg_waits) : M unit :=
  h <- gets a_heartbeat;;
  match h with
  | HbNone => ret tt
  | _ =>
      modify (run_callbacks (aw_callbacks (bw_first w)));;
      match aw_result (bw_first w) with
      | inr ECancelled => ret tt
      | inr e => if is_exception e then ret tt else raise e
      | inl _ =>
          h <- gets a_heartbeat;;
          (if bool_decide (h = HbTouching)
           then try_except (λ e, bool_decide (e = ECancelled) || bool_decide (e = ETimeout))
                  (await (bw_second w)) (λ _, ret tt)
           else await (bw_second w))
      end
  end.

(** How a step of the shut-down run in a thread ends: it is done, with or without an exception, or
    the wait for it times out; both are logged only. *)
Inductive step_end := StepEnds (error : option exc) | StepTimesOut.

Definition _run_blocking_shutdown_step (step : effect) (w : awaited step_end) : M unit :=
  emit step;; await w;; ret tt.

(** [w] gives what [matrix_client.close()] raises, or the time-out. *)
Definition _close_matrix_client_best_effort (present : bool) (w : awaited unit) : M unit :=
  when present
    (emit CloseMatrix;;
     try_except (λ e, negb (bool_decide (e = ECancelled))) (await w) (λ _, ret tt)).

(** The client and the Bluetooth interface found at that time, the first by whether it is the
    second. *)
Definition _close_meshtastic_client_best_effort (client : option bool) (w : awaited unit) : M unit :=
  match client with
  | None => ret tt
  | Some is_iface =>
      emit (if is_iface then DisconnectBle else CloseMeshtastic);;
      try_except (λ e, negb (bool_decide (e = ECancelled))) (await w) (λ _, ret tt)
  end.

(** The reconnection task and the future of its worker found at that time: whether it is an
    [asyncio.Future], which is waited for. *)
Definition cancel_reconnect (found : option bool) (w : awaited unit) : M unit :=
  match found with
  | None => ret tt
  | Some is_future => emit CancelReconnect;; when is_future (try_except (λ e, bool_decide (e = ETimeout)) (await w) (λ _, ret tt))
  end.

Record reconnect_cleanup := {
  rc_task : option bool; rc_task_wait : awaited unit;
  rc_future : option bool; rc_future_wait : awaited unit }.

Definition _cleanup_meshtastic_reconnect_state (r : reconnect_cleanup) : M unit :=
  cancel_reconnect (rc_task r) (rc_task_wait r);;
  cancel_reconnect (rc_future r) (rc_future_wait r);;
  emit UnsubscribeCallbacks.

Definition _remove_ready_file (fails : bool) : M unit :=
  when path_set (modify (λ s, set_ready (a_ready_file s && fails) (a_published s) s));;
  emit RemoveReadyFile.

(** ** Start *)

(** What the calls of the start-up give.  [su_queue]: what [start_message_queue] returns;
    [su_mesh], [su_matrix]: whether there is a client; [su_drain]: the event of the drain after
    connecting; [su_register], [su_signals]: the exception of registering callbacks and signals. *)
Record startup := {
  su_database : option exc; su_wipe : option exc;
  su_load : awaited unit; su_queue : bool + exc;
  su_mesh : awaited bool; su_drain : option bool; su_matrix : awaited bool;
  su_joins : list (awaited unit); su_register : option exc; su_windows : bool; su_signals : option exc;
  su_yield : awaited unit }.

(** What the roll-back and the shut-down find. *)
Record cleanup := {
  cl_health : bg_waits; cl_heartbeat : bg_waits; cl_refresh : bg_waits;
  cl_reconnect : reconnect_cleanup; cl_remove_fails : bool;
  cl_plugins : awaited step_end; cl_queue : awaited step_end;
  cl_matrix : awaited unit; cl_client : option bool; cl_mesh : awaited unit;
  cl_executors : awaited unit; cl_wipe : option exc }.

Definition initialize (wipe : bool) (su : startup) : M unit :=
  try_except (λ _, true)
    (emit InitializeDatabase;; raise_if (su_database su);;
     when wipe (emit WipeMessageMap;; raise_if (su_wipe su)))
    (λ e, emit RestoreHandler;; modify (λ s, set_handlers false (a_signals s) s);; raise e).

(** The rooms of the configuration by their [id], None for one without. *)
Fixpoint join_rooms (rooms : list (option pystr)) (joins : list (awaited unit)) : M unit :=
  match rooms with
  | [] => ret tt
  | None :: _ => raise EOther
  | Some id :: rooms =>
      match joins with
      | [] => waiting
      | w :: joins => emit (JoinRoom id);; await w;; join_rooms rooms joins
      end
  end.

Definition set_shutdown_flag : M unit := modify set_shutdown.

(** The direct look at the health task, for when its callback has not run yet. *)
Definition check_health_task : M unit :=
  h <- gets a_health;;
  f <- gets a_fatal;;
  match h, f with
  | TaskDone _, Some e => raise e
  | TaskDone (Some ECancelled), None => ret tt
  | TaskDone (Some e), None => modify (set_fatal e);; set_shutdown_flag;; raise e
  | TaskDone None, None =>
      when monitored (modify (set_fatal ERuntime);; set_shutdown_flag;; raise ERuntime)
  | _, _ => ret tt
  end.

(** The stages of the start, each with what it leaves to be undone. *)
Definition start_components (rooms : list (option pystr)) (su : startup) : M unit :=
  emit LoadPlugins;; await (su_load su);;
  match su_queue su with
  | inr e => raise e
  | inl false => raise ERuntime
  | inl true => emit StartMessageQueue
  end;;
  connected <- await (su_mesh su);;
  modify (set_drain (su_drain su));;
  (if negb connected then raise EConnection else emit ConnectMeshtastic);;
  connected <- await (su_matrix su);;
  (if negb connected then raise EConnection else emit ConnectMatrix);;
  join_rooms rooms (su_joins su);;
  emit RegisterCallbacks;; raise_if (su_register su);;
  when (negb (su_windows su))
    (raise_if (su_signals su);; emit InstallSignals;; modify (λ s, set_handlers (a_handler s) true s));;
  emit (StartTask THealth);; modify (set_task THealth TaskRunning);;
  await (su_yield su);;
  check_health_task.

(** The roll-back; what is there to be closed is read off the effects: [plugins_cleanup_needed] is
    set before the plugins are loaded, [message_queue_cleanup_needed] once the queue runs,
    [matrix_client] once it is connected. *)
Definition stop_started_queue (cl : cleanup) : M unit :=
  message_queue_cleanup_needed <- gets (λ s, bool_decide (StartMessageQueue ∈ a_log s));;
  when message_queue_cleanup_needed (_run_blocking_shutdown_step StopMessageQueue (cl_queue cl)).
Definition close_connected_matrix (cl : cleanup) : M unit :=
  matrix_client <- gets (λ s, bool_decide (ConnectMatrix ∈ a_log s));;
  _close_matrix_client_best_effort matrix_client (cl_matrix cl).

Definition roll_back_steps (cl : cleanup) : M unit :=
  set_shutdown_flag;;
  h <- gets a_health;;
  when (negb (bool_decide (h = NoTask)))
    (cancel_task THealth;;
     try_except (λ e, bool_decide (e = ETimeout)) (await (bw_second (cl_health cl))) (λ _, ret tt));;
  _cleanup_meshtastic_reconnect_state (cl_reconnect cl);;
  _remove_ready_file (cl_remove_fails cl);;
  _run_blocking_shutdown_step ShutdownPlugins (cl_plugins cl);;
  stop_started_queue cl;;
  close_connected_matrix cl;;
  _close_meshtastic_client_best_effort (cl_client cl) (cl_mesh cl);;
  emit ShutdownExecutors;; await (cl_executors cl).

Definition roll_back (cl : cleanup) (e : exc) : M unit := roll_back_steps cl;; raise e.

(** ** The loop *)

(** One turn of the loop: the exception of starting the synchronisation; the polls of the drain; the
    writing of the readiness file with what runs before and after it, and its removal; the wait for
    the synchronisation or the event (None: neither has come); the clean-up of what is pending; the
    five seconds before the next turn, after a failure of the task or of the turn. *)
Record sync_round := {
  sr_start : option exc; sr_polls : list (awaited unit);
  sr_before_write : list callback; sr_write_fails : option write_step; sr_unlink_fails : bool;
  sr_write : thread_wait; sr_unpublish : thread_wait; sr_remove_fails : bool;
  sr_wait : option (awaited unit); sr_pending_sync : bg_waits; sr_pending_shutdown : awaited unit;
  sr_retry : awaited unit; sr_retry_error : awaited unit;
  sr_final_sync : bg_waits; sr_final_shutdown : awaited unit }.

Definition unpublish (r : sync_round) : M unit :=
  await_thread (sr_unpublish r);; _remove_ready_file (sr_remove_fails r).

(** The file is written in a thread; it stays, and the readiness is published, if the
    synchronisation runs and the event is not set after that. *)
Definition write_and_check (r : sync_round) : M unit :=
  modify (run_callbacks (sr_before_write r));;
  modify (λ s, set_ready
    (_write_ready_file path_set (sr_write_fails r) (sr_unlink_fails r) (a_ready_file s)).1 false s);;
  await_thread (sr_write r);;
  shutdown <- gets a_shutdown;;
  sync_done <- gets (λ s, task_done (a_sync s));;
  if shutdown || sync_done then unpublish r
  else
    emit PublishReady;;
    modify (λ s, set_ready (a_ready_file s) true s);;
    h <- gets a_heartbeat;;
    when ((0 <? heartbeat_seconds) && bool_decide (h = HbNone) && path_set)
      (modify (set_heartbeat HbWaiting)).

Definition publish_ready (r : sync_round) : M unit :=
  published <- gets a_published;;
  when (negb published)
    (_wait_for_startup_drain_completion (sr_polls r);;
     shutdown <- gets a_shutdown;;
     sync_done <- gets (λ s, task_done (a_sync s));;
     when (negb shutdown && negb sync_done) (write_and_check r)).

Inductive next_turn := GoOn | LeaveLoop.

(** What the result of the finished synchronisation calls for. *)
Definition handle_sync_result (r : sync_round) : M next_turn :=
  t <- gets a_sync;;
  match t with
  | TaskDone (Some e) => if is_sync_error e then await (sr_retry r);; ret GoOn else raise e
  | _ => await (sr_retry r);; ret GoOn
  end.

Definition sync_try (r : sync_round) : M next_turn :=
  raise_if (sr_start r);;
  emit (StartTask TSync);; modify (set_task TSync TaskRunning);;
  publish_ready r;;
  await_next (sr_wait r);;
  shutdown <- gets a_shutdown;;
  in_done <- gets (λ s, task_done (a_sync s));;
  (if negb (shutdown || in_done) then waiting else ret tt);;
  when (negb in_done) (_await_background_task_shutdown TSync (sr_pending_sync r));;
  await (sr_pending_shutdown r);;
  shutdown <- gets a_shutdown;;
  if shutdown then ret LeaveLoop
  else if in_done then handle_sync_result r else ret GoOn.

Definition sync_cleanup (r : sync_round) : M unit :=
  t <- gets a_sync;;
  when (bool_decide (t = TaskRunning)) (cancel_task TSync);;
  _await_background_task_shutdown TSync (sr_final_sync r);;
  await (sr_final_shutdown r).

Definition sync_turn (r : sync_round) : M next_turn :=
  modify (set_task TSync NoTask);;
  try_finally
    (try_except is_sync_error (sync_try r)
       (λ _, shutdown <- gets a_shutdown;;
             if shutdown then ret LeaveLoop else await (sr_retry_error r);; ret GoOn))
    (λ _, sync_cleanup r).

Fixpoint sync_loop (rounds : list sync_round) : M unit :=
  shutdown <- gets a_shutdown;;
  if shutdown then ret tt
  else
    match rounds with
    | [] => waiting
    | r :: rounds =>
        next <- sync_turn r;;
        match next with GoOn => sync_loop rounds | LeaveLoop => ret tt end
    end.

(** The refresh of the node names and the processor of the queue start unless the shut-down has
    been asked for. *)
Definition run (rounds : list sync_round) : M unit :=
  shutdown <- gets a_shutdown;;
  when (negb shutdown)
    (emit (StartTask TRefresh);; modify (set_task TRefresh TaskRunning);; emit EnsureProcessorStarted);;
  sync_loop rounds.

(** ** The end *)

Definition shut_down_steps (wipe : bool) (cl : cleanup) : M unit :=
  emit RestoreHandler;; modify (λ s, set_handlers false (a_signals s) s);;
  set_shutdown_flag;;
  await_heartbeat_shutdown (cl_heartbeat cl);;
  _remove_ready_file (cl_remove_fails cl);;
  _await_background_task_shutdown TRefresh (cl_refresh cl);;
  _await_background_task_shutdown THealth (cl_health cl);;
  _cleanup_meshtastic_reconnect_state (cl_reconnect cl);;
  _run_blocking_shutdown_step ShutdownPlugins (cl_plugins cl);;
  _run_blocking_shutdown_step StopMessageQueue (cl_queue cl);;
  _close_matrix_client_best_effort true (cl_matrix cl);;
  _close_meshtastic_client_best_effort (cl_client cl) (cl_mesh cl);;
  emit ShutdownExecutors;; await (cl_executors cl);;
  when wipe (emit WipeMessageMap;; raise_if (cl_wipe cl)).

(** An exception that is already on its way is not replaced by that of the health task. *)
Definition shut_down (wipe : bool) (cl : cleanup) (pending : option exc) : M unit :=
  shut_down_steps wipe cl;;
  fatal <- gets a_fatal;;
  match fatal, pending with Some e, None => raise e | _, _ => ret tt end.

(** [back]: what the roll-back finds; [cl]: the shut-down. *)
Definition main (wipe : bool) (rooms : list (option pystr)) (su : startup) (back cl : cleanup)
    (rounds : list sync_round) : M unit :=
  emit InstallHandler;; modify (λ s, set_handlers true (a_signals s) s);;
  initialize wipe su;;
  try_except (λ _, true) (start_components rooms su) (roll_back back);;
  try_finally
    (try_except (λ e, bool_decide (e = EKeyboardInterrupt)) (run rounds)
       (λ _, modify signal_handler))
    (shut_down wipe cl).
End main.

(** A process starts with nothing running; a readiness file may be left by an earlier one. *)
Definition app_init (ready_file : bool) : app :=
  {| a_shutdown := false; a_fatal := None; a_handler := false; a_signals := false;
     a_health := NoTask; a_health_callback := false; a_sync := NoTask; a_refresh := NoTask;
     a_heartbeat := HbNone; a_ready_file := ready_file; a_published := false; a_drain := None;
     a_log := [] |}.

(** ** The exit status *)

Definition required_keys (credentials : bool) : list pystr :=
  if credentials then [u "matrix_rooms"; u "meshtastic"]
  else [u "matrix"; u "matrix_rooms"; u "meshtastic"].

(** None: an exception that is not caught leaves [run_main]. *)
Definition run_main (config : pydict) (credentials : bool) (result : outcome unit) : option Z :=
  if negb (forallb (dmem config) (required_keys credentials)) then Some 1
  else
    match result with
    | Returns _ => Some 0
    | Raises EKeyboardInterrupt => Some 0
    | Raises e => if is_exception e then Some 1 else None
    | Waits => None
    end.

(** ** Invariants of programs *)

(** [m] keeps [I], however it ends. *)
Definition keeps {A} (I : app → Prop) (m : M A) : Prop := ∀ s, I s → I (m s).2.

Create HintDb main.

Section keeps.
Context (I : app → Prop).

Lemma keeps_ret {A} (a : A) : keeps I (ret a).
Proof. by intros s. Qed.
Lemma keeps_raise {A} e : keeps I (raise (A := A) e).
Proof. by intros s. Qed.
Lemma keeps_waiting {A} : keeps I (waiting (A := A)).
Proof. by intros s. Qed.
Lemma keeps_gets {A} (f : app → A) : keeps I (gets f).
Proof. by intros s. Qed.
Lemma keeps_raise_if o : keeps I (raise_if o).
Proof. intros s; by destruct o. Qed.
Lemma keeps_modify f : (∀ s, I s → I (f s)) → keeps I (modify f).
Proof. by intros Hf s Hs; apply Hf. Qed.
Lemma keeps_bind {A B} (m : M A) (k : A → M B) : keeps I m → (∀ a, keeps I (k a)) → keeps I (bind m k).
Proof.
  intros Hm Hk s Hs. unfold bind. specialize (Hm s Hs). destruct (m s) as [[a|e|] s']; [by apply Hk|done|done].
Qed.
Lemma bind_establishes {A B} (m : M A) (k : A → M B) s :
  I (m s).2 → (∀ a, keeps I (k a)) → I (bind m k s).2.
Proof. intros Hm Hk. unfold bind. destruct (m s) as [[a|e|] s']; [by apply Hk|done|done]. Qed.
Lemma keeps_except {A} p (m : M A) h : keeps I m → (∀ e, keeps I (h e)) → keeps I (try_except p m h).
Proof.
  intros Hm Hh s Hs. unfold try_except. specialize (Hm s Hs). destruct (m s) as [[a|e|] s']; [done| |done].
  destruct (p e); [by apply Hh|done].
Qed.
Lemma keeps_finally {A} (m : M A) f : keeps I m → (∀ o, keeps I (f o)) → keeps I (try_finally m f).
Proof.
  intros Hm Hf s Hs. unfold try_finally. specialize (Hm s Hs). destruct (m s) as [[a|e|] s']; [| |done].
  all: apply keeps_bind; [apply Hf|intros; by intros ??|done].
Qed.
Lemma keeps_when b m : keeps I m → keeps I (when b m).
Proof. destruct b; [done|intros _; apply keeps_ret]. Qed.
End keeps.

#[export] Hint Resolve keeps_ret keeps_raise keeps_waiting keeps_gets keeps_raise_if keeps_when : main.

(** What all programs preserve: an invariant that the effects and the changes of the state leave. *)
Class stable (I : app → Prop) := {
  stable_log e s : I s → I (logged e s);
  stable_handlers h g s : I s → I (set_handlers h g s);
  stable_task t v s : I s → I (set_task t v s);
  stable_callback b s : I s → I (set_health_callback b s);
  stable_shutdown s : I s → I (set_shutdown s);
  stable_fatal e s : I s → I (set_fatal e s);
  stable_touch f s : I s → a_heartbeat s = HbTouching →
    I (set_ready (negb f || a_ready_file s) (a_published s) (set_heartbeat HbWaiting s));
  stable_touches s : I s → a_heartbeat s = HbWaiting → a_shutdown s = false → I (set_heartbeat HbTouching s);
  stable_drained s : I s → a_drain s ≠ None → I (set_drain (Some true) s);
  stable_removed f s : I s → I (set_ready (a_ready_file s && f) (a_published s) s) }.

#[export] Hint Extern 0 (stable _) => typeclasses eauto : main.

(** Cuts a program into its primitive parts; leaves those that change the state. *)
Ltac keeps_step :=
  match goal with
  | |- keeps _ (bind _ _) => apply keeps_bind; [|intros ?]
  | |- keeps _ (try_except _ _ _) => apply keeps_except; [|intros ?]
  | |- keeps _ (try_finally _ _) => apply keeps_finally; [|intros ?]
  | |- keeps _ (when _ _) => apply keeps_when
  | |- keeps _ (modify (λ s, set_handlers _ _ s)) => apply keeps_modify; intros ? ?; by apply stable_handlers
  | |- keeps _ (if ?b then _ else _) => destruct b eqn:?
  | |- keeps _ (match ?x with _ => _ end) => destruct x eqn:?
  | |- _ => progress auto with main
  end.
Ltac keeps_tac := repeat keeps_step.

Section stable.
Context (monitored path_set : bool) (heartbeat_seconds : Z) (I : app → Prop) `{!stable I}.

Lemma run_callback_stable c s : I s → I (run_callback monitored c s).
Proof.
  intros Hs. destruct c as [|t o| | | |fails]; cbn [run_callback].
  - destruct (a_signals s); [|done]. unfold signal_handler. destruct (a_shutdown s); [done|by apply stable_shutdown].
  - destruct (get_task t s), o as [[]|]; try done.
    all: case_bool_decide; [apply stable_callback|]; by apply stable_task.
  - destruct (a_health_callback s); [|done]. pose proof (stable_callback false s Hs) as Hs'.
    unfold _on_check_connection_done. destruct (a_health _) as [| |[[]|]]; try done.
    all: destruct (a_shutdown _); [done|]; try (by apply stable_shutdown, stable_fatal).
    destruct monitored; [by apply stable_shutdown, stable_fatal|done].
  - destruct (a_drain s) eqn:E; [|done]. apply stable_drained; [done|by rewrite E].
  - case_bool_decide; [|done]. destruct (a_shutdown s) eqn:E; [done|]. by apply stable_touches.
  - case_bool_decide; [|done]. by apply stable_touch.
Qed.

Lemma run_callbacks_stable l s : I s → I (run_callbacks monitored l s).
Proof. revert s. induction l as [|c l IH]; intros s Hs; [done|]. by apply IH, run_callback_stable. Qed.

Lemma keeps_emit e : keeps I (emit e).
Proof. apply keeps_modify. intros s. apply stable_log. Qed.
Lemma keeps_callbacks l : keeps I (modify (run_callbacks monitored l)).
Proof. apply keeps_modify. intros s. apply run_callbacks_stable. Qed.
Lemma keeps_await {A} (w : awaited A) : keeps I (await monitored w).
Proof. unfold await. apply keeps_bind; [apply keeps_callbacks|intros _]. destruct (aw_result w); auto with main. Qed.
Lemma keeps_await_thread w : keeps I (await_thread monitored w).
Proof. apply keeps_bind; [apply keeps_callbacks|auto with main]. Qed.
Lemma keeps_await_next {A} (w : option (awaited A)) : keeps I (await_next monitored w).
Proof. destruct w; [apply keeps_await|apply keeps_waiting]. Qed.
Lemma keeps_set_task t v : keeps I (modify (set_task t v)).
Proof. apply keeps_modify. intros s. apply stable_task. Qed.
Lemma keeps_shutdown_flag : keeps I set_shutdown_flag.
Proof. apply keeps_modify. intros s. apply stable_shutdown. Qed.
Lemma keeps_set_fatal e : keeps I (modify (set_fatal e)).
Proof. apply keeps_modify. intros s. apply stable_fatal. Qed.
Lemma keeps_set_handlers h g : keeps I (modify (λ s, set_handlers (h s) (g s) s)).
Proof. apply keeps_modify. intros s. apply stable_handlers. Qed.
Lemma keeps_signal_handler : keeps I (modify signal_handler).
Proof. apply keeps_modify. intros s Hs. unfold signal_handler. destruct (a_shutdown s); [done|by apply stable_shutdown]. Qed.
End stable.
#[export] Hint Resolve keeps_emit keeps_callbacks keeps_await keeps_await_thread keeps_await_next keeps_set_task
  keeps_shutdown_flag keeps_set_fatal keeps_signal_handler : main.

Section stable_programs.
Context (monitored path_set : bool) (heartbeat_seconds : Z) (I : app → Prop) `{!stable I}.

Lemma keeps_bg_second t w : keeps I (bg_second monitored t w).
Proof. unfold bg_second, cancel_task. keeps_tac. Qed.
#[local] Hint Resolve keeps_bg_second : main.
Lemma keeps_background t w : keeps I (_await_background_task_shutdown monitored t w).
Proof. unfold _await_background_task_shutdown, cancel_task. keeps_tac. Qed.
Lemma keeps_heartbeat_shutdown w : keeps I (await_heartbeat_shutdown monitored w).
Proof. unfold await_heartbeat_shutdown. keeps_tac. Qed.
Lemma keeps_step e w : keeps I (_run_blocking_shutdown_step monitored e w).
Proof. unfold _run_blocking_shutdown_step. keeps_tac. Qed.
Lemma keeps_close_matrix p w : keeps I (_close_matrix_client_best_effort monitored p w).
Proof. unfold _close_matrix_client_best_effort. keeps_tac. Qed.
Lemma keeps_close_mesh c w : keeps I (_close_meshtastic_client_best_effort monitored c w).
Proof. unfold _close_meshtastic_client_best_effort. keeps_tac. Qed.
Lemma keeps_reconnect_cleanup r : keeps I (_cleanup_meshtastic_reconnect_state monitored r).
Proof. unfold _cleanup_meshtastic_reconnect_state, cancel_reconnect. keeps_tac. Qed.
Lemma keeps_remove f : keeps I (_remove_ready_file path_set f).
Proof.
  unfold _remove_ready_file. apply keeps_bind; [apply keeps_when|intros _; by apply keeps_emit].
  apply keeps_modify. intros s. apply stable_removed.
Qed.
Lemma keeps_drain_wait polls : keeps I (_wait_for_startup_drain_completion monitored polls).
Proof.
  induction polls as [|w polls IH]; cbn [_wait_for_startup_drain_completion]; keeps_tac.
Qed.
Lemma keeps_initialize wipe su : keeps I (initialize wipe su).
Proof. unfold initialize. keeps_tac. Qed.
Lemma keeps_join rooms joins : keeps I (join_rooms monitored rooms joins).
Proof.
  revert joins. induction rooms as [|[id|] rooms IH]; intros joins; cbn [join_rooms]; keeps_tac.
Qed.
Lemma keeps_check_health : keeps I (check_health_task monitored).
Proof. unfold check_health_task. keeps_tac. Qed.
End stable_programs.
#[export] Hint Resolve keeps_background keeps_heartbeat_shutdown keeps_step keeps_close_matrix
  keeps_close_mesh keeps_reconnect_cleanup keeps_remove keeps_drain_wait keeps_initialize keeps_join
  keeps_check_health : main.

Section stable_main.
Context (monitored path_set : bool) (heartbeat_seconds : Z) (I : app → Prop) `{!stable I}.

Lemma keeps_roll_back cl e : keeps I (roll_back monitored path_set cl e).
Proof. unfold roll_back, roll_back_steps, stop_started_queue, close_connected_matrix, cancel_task. keeps_tac. Qed.
Lemma keeps_shut_down wipe cl p : keeps I (shut_down monitored path_set wipe cl p).
Proof. unfold shut_down, shut_down_steps. keeps_tac. Qed.
Lemma keeps_start rooms su :
  (∀ s, I s → I (set_drain (su_drain su) s)) → keeps I (start_components monitored rooms su).
Proof.
  intros Hd. unfold start_components. keeps_tac.
  all: try (apply keeps_modify; done).
Qed.

Lemma keeps_sync_cleanup r : keeps I (sync_cleanup monitored r).
Proof. unfold sync_cleanup, cancel_task. keeps_tac. Qed.

Section loop.
Context (publish : ∀ r, keeps I (publish_ready monitored path_set heartbeat_seconds r)).

Lemma keeps_sync_turn r : keeps I (sync_turn monitored path_set heartbeat_seconds r).
Proof.
  unfold sync_turn, sync_try, sync_cleanup, handle_sync_result, cancel_task. keeps_tac; apply publish.
Qed.
Lemma keeps_sync_loop rounds : keeps I (sync_loop monitored path_set heartbeat_seconds rounds).
Proof.
  induction rounds as [|r rounds IH]; cbn [sync_loop]; keeps_tac; apply keeps_sync_turn.
Qed.
Lemma keeps_run rounds : keeps I (run monitored path_set heartbeat_seconds rounds).
Proof. unfold run. keeps_tac; apply keeps_sync_loop. Qed.

End loop.
End stable_main.

(** ** Programs that end *)

(** [m] returns or raises. *)
Definition ends {A} (m : M A) : Prop := ∀ s, (m s).1 ≠ Waits.

Lemma ends_bind {A B} (m : M A) (k : A → M B) : ends m → (∀ a, ends (k a)) → ends (bind m k).
Proof.
  intros Hm Hk s. unfold bind. specialize (Hm s). destruct (m s) as [[a|e|] s']; [apply Hk|done|done].
Qed.
Lemma ends_except {A} p (m : M A) h : ends m → (∀ e, ends (h e)) → ends (try_except p m h).
Proof.
  intros Hm Hh s. unfold try_except. specialize (Hm s). destruct (m s) as [[a|e|] s']; [done| |done].
  destruct (p e); [apply Hh|done].
Qed.
Lemma ends_when b m : ends m → ends (when b m).
Proof. by destruct b. Qed.
Lemma ends_raise_if o : ends (raise_if o).
Proof. intros s; by destruct o. Qed.
Lemma ends_await {A} mon (w : awaited A) : ends (await mon w).
Proof. unfold await. apply ends_bind; [done|]. intros _ s. by destruct (aw_result w). Qed.

Ltac ends_tac := repeat
  match goal with
  | |- ends (bind _ _) => apply ends_bind; [|intros ?]
  | |- ends (try_except _ _ _) => apply ends_except; [|intros ?]
  | |- ends (when _ _) => apply ends_when
  | |- ends (await _ _) => apply ends_await
  | |- ends (raise_if _) => apply ends_raise_if
  | |- ends (if ?b then _ else _) => destruct b
  | |- ends (match ?x with _ => _ end) => destruct x
  | |- ends _ => by intros ?
  end.

Lemma background_ends mon t w : ends (_await_background_task_shutdown mon t w).
Proof. unfold _await_background_task_shutdown, bg_second, cancel_task. ends_tac. Qed.
Lemma reconnect_cleanup_ends mon r : ends (_cleanup_meshtastic_reconnect_state mon r).
Proof. unfold _cleanup_meshtastic_reconnect_state, cancel_reconnect. ends_tac. Qed.
Lemma sync_cleanup_ends mon r : ends (sync_cleanup mon r).
Proof. unfold sync_cleanup, cancel_task. ends_tac; apply background_ends. Qed.
Lemma roll_back_ends mon p cl e : ends (roll_back mon p cl e).
Proof.
  unfold roll_back, roll_back_steps, stop_started_queue, close_connected_matrix, _remove_ready_file, _run_blocking_shutdown_step, _close_matrix_client_best_effort,
    _close_meshtastic_client_best_effort, cancel_task.
  ends_tac; apply reconnect_cleanup_ends.
Qed.
Lemma shut_down_ends mon p wipe cl o : ends (shut_down mon p wipe cl o).
Proof.
  unfold shut_down, shut_down_steps, _remove_ready_file, _run_blocking_shutdown_step, _close_matrix_client_best_effort,
    _close_meshtastic_client_best_effort, await_heartbeat_shutdown.
  ends_tac; first [apply reconnect_cleanup_ends | apply background_ends].
Qed.

(** ** The readiness file *)

(** [I] holds when [m] returns or waits, and when it raises an exception that ends a turn only. *)
Definition good {A} (I : app → Prop) (m : M A) : Prop := ∀ s, I s →
  match m s with
  | (Raises e, s') => is_sync_error e = true → I s'
  | (_, s') => I s'
  end.

Lemma good_keeps {A} I (m : M A) : keeps I m → good I m.
Proof. intros Hm s Hs. specialize (Hm s Hs). by destruct (m s) as [[a|e|] s']. Qed.
Lemma good_bind {A B} I (m : M A) (k : A → M B) : good I m → (∀ a, good I (k a)) → good I (bind m k).
Proof.
  intros Hm Hk s Hs. unfold bind. specialize (Hm s Hs). destruct (m s) as [[a|e|] s']; [by apply Hk|done|done].
Qed.

Section readiness.
Context (monitored : bool) (heartbeat_seconds : Z).
Abbreviation publish := (publish_ready monitored true heartbeat_seconds).

(** Before the loop. *)
Definition unready (s : app) : Prop :=
  a_published s = false ∧ a_heartbeat s = HbNone ∧ a_ready_file s = false.
(** In the loop. *)
Definition readiness (s : app) : Prop :=
  (a_published s = true → default true (a_drain s) = true) ∧
  (a_heartbeat s ≠ HbNone → a_published s = true) ∧
  (a_ready_file s = true → a_published s = true).
(** While the file is written. *)
Definition writing (s : app) : Prop :=
  a_published s = false ∧ a_heartbeat s = HbNone ∧ default true (a_drain s) = true.
(** Once the heartbeat has been stopped. *)
Definition withdrawn (s : app) : Prop :=
  a_shutdown s = true ∧ a_heartbeat s ≠ HbTouching ∧ a_ready_file s = false.
Definition touch_over (s : app) : Prop := a_shutdown s = true ∧ a_heartbeat s ≠ HbTouching.
Definition stopping (s : app) : Prop := a_shutdown s = true.

Ltac stable_tac := split; intros; unfold unready, readiness, writing, withdrawn, touch_over, stopping in *;
  cbn in *; repeat match goal with H : _ ∧ _ |- _ => destruct H end; repeat split; intros; cbn in *; auto; try congruence;
  try match goal with H : a_ready_file _ = false |- _ => by rewrite H end.

#[export] Instance unready_stable : stable unready.
Proof. stable_tac. Qed.
#[export] Instance readiness_stable : stable readiness.
Proof.
  stable_tac.
  all: try match goal with H : a_heartbeat ?s ≠ HbNone → _ |- _ => apply H; congruence end.
  by destruct (a_ready_file s); auto.
Qed.
#[export] Instance writing_stable : stable writing.
Proof. stable_tac. Qed.
#[export] Instance withdrawn_stable : stable withdrawn.
Proof. stable_tac. Qed.
#[export] Instance touch_over_stable : stable touch_over.
Proof. stable_tac. Qed.
#[export] Instance stopping_stable : stable stopping.
Proof. stable_tac. Qed.

Lemma unready_readiness s : unready s → readiness s.
Proof. intros (Hp & Hh & Hf). unfold readiness. rewrite Hp, Hh, Hf. repeat split; try done. Qed.

(** When the wait for the drain is over, the drain is complete, or the readiness is not published. *)
Lemma drain_wait_over polls s s' :
  _wait_for_startup_drain_completion monitored polls s = (Returns tt, s') →
  default true (a_drain s') || a_shutdown s' || task_done (a_sync s') = true.
Proof.
  revert s. induction polls as [|w polls IH]; intros s; cbn [_wait_for_startup_drain_completion];
    unfold bind, gets.
  - destruct (default true (a_drain s) || a_shutdown s || task_done (a_sync s)) eqn:E; [|done].
    by intros [= <-].
  - destruct (default true (a_drain s) || a_shutdown s || task_done (a_sync s)) eqn:E; [by intros [= <-]|].
    destruct (await monitored w s) as [[a|e|] s1]; [apply IH|done|done].
Qed.

Lemma write_and_check_good r s :
  sr_remove_fails r = false → writing s →
  match write_and_check monitored true heartbeat_seconds r s with
  | (Raises e, s') => is_sync_error e = true → readiness s'
  | (_, s') => readiness s'
  end.
Proof.
  intros Hr Hs. unfold write_and_check. unfold bind at 1, modify at 1.
  apply (run_callbacks_stable monitored _ (sr_before_write r)) in Hs. unfold bind at 1, modify at 1.
  set (s1 := set_ready _ _ _). assert (writing s1) as Hs1 by (destruct Hs as (? & ? & ?); by split). clearbody s1. clear Hs.
  unfold bind at 1. pose proof (keeps_await_thread monitored writing (sr_write r) s1 Hs1) as H.
  destruct (await_thread monitored (sr_write r) s1) as [[[]|e|] s2] eqn:E; [| |].
  - cbn in H. unfold bind, gets. destruct (a_shutdown s2 || task_done (a_sync s2)).
    + unfold unpublish, bind. pose proof (keeps_await_thread monitored writing (sr_unpublish r) s2 H) as H3.
      destruct (await_thread monitored (sr_unpublish r) s2) as [[[]|e|] s3] eqn:E3; cbn in H3.
      * unfold _remove_ready_file, when, bind, modify. rewrite Hr. destruct H3 as (Hp & Hh & Hd). split; [|split]; cbn; try congruence.
        by rewrite andb_false_r.
      * unfold await_thread, bind, modify, when in E3. by destruct (tw_cancelled (sr_unpublish r)); inversion E3.
      * unfold await_thread, bind, modify, when in E3. by destruct (tw_cancelled (sr_unpublish r)).
    + destruct H as (Hp & Hh & Hd). unfold when, modify. cbn.
      destruct (_ && _ && _); cbn; repeat split; cbn; intros; try done.
  - unfold await_thread, bind, modify, when in E. by destruct (tw_cancelled (sr_write r)); inversion E.
  - unfold await_thread, bind, modify, when in E. by destruct (tw_cancelled (sr_write r)).
Qed.
Lemma publish_good r : sr_remove_fails r = false → good readiness (publish r).
Proof.
  intros Hr s Hs. unfold publish_ready, bind at 1, gets at 1.
  destruct (a_published s) eqn:Hp; [done|]. cbn [negb when]. unfold bind at 1.
  assert (Hu : unready s).
  { destruct Hs as (_ & Hh & Hf). split; [done|]. rewrite Hp in Hh, Hf. split.
    - destruct (a_heartbeat s); [done| |]; by discriminate Hh.
    - destruct (a_ready_file s); [by discriminate Hf|done]. }
  pose proof (keeps_drain_wait monitored unready (sr_polls r) s Hu) as H.
  destruct (_wait_for_startup_drain_completion monitored (sr_polls r) s) as [[[]|e|] s1] eqn:E; cbn in H.
  2,3: intros; by apply unready_readiness.
  apply drain_wait_over in E. unfold bind, gets.
  destruct (a_shutdown s1), (task_done (a_sync s1)); cbn [negb andb when]; try by apply unready_readiness.
  rewrite !orb_false_r in E. apply write_and_check_good; [done|]. destruct H as (? & ? & ?). by split.
Qed.

Lemma sync_try_good r : sr_remove_fails r = false → good readiness (sync_try monitored true heartbeat_seconds r).
Proof.
  intros Hr. unfold sync_try.
  apply good_bind; [apply good_keeps; auto with main|intros _].
  apply good_bind; [apply good_keeps; auto with main|intros _].
  apply good_bind; [apply good_keeps; auto with main|intros _].
  apply good_bind; [by apply publish_good|intros _].
  apply good_keeps. unfold handle_sync_result. keeps_tac.
Qed.

(** Whatever a turn lets through, the loop goes on or waits only with [readiness]. *)
Lemma sync_turn_readiness r s o s' :
  sr_remove_fails r = false → readiness s →
  sync_turn monitored true heartbeat_seconds r s = (o, s') → (∀ e, o ≠ Raises e) → readiness s'.
Proof.
  intros Hr Hs. unfold sync_turn, bind at 1, modify at 1.
  set (s0 := set_task TSync NoTask s). assert (Hs0 : readiness s0) by by apply (stable_task (I := readiness)).
  clearbody s0. unfold try_finally, try_except.
  pose proof (sync_try_good r Hr s0 Hs0) as H.
  assert (Hc : keeps readiness (sync_cleanup monitored r)).
  { unfold sync_cleanup, cancel_task. keeps_tac. }
  destruct (sync_try monitored true heartbeat_seconds r s0) as [[a|e|] s1].
  - intros Heq Hne. specialize (Hc s1 H). unfold bind in Heq.
    destruct (sync_cleanup monitored r s1) as [[[]|e|] s2]; inversion Heq; subst; done.
  - destruct (is_sync_error e) eqn:Ee.
    + intros Heq Hne. set (m := bind (gets a_shutdown) _) in Heq.
      assert (Hm : keeps readiness m) by (unfold m; keeps_tac).
      specialize (Hm s1 (H eq_refl)). destruct (m s1) as [[a|e'|] s2]; cbn in Hm; unfold bind in Heq.
      * specialize (Hc s2 Hm).
        destruct (sync_cleanup monitored r s2) as [[[]|e'|] s3]; inversion Heq; subst; first [done|by edestruct Hne].
      * specialize (Hc s2 Hm).
        destruct (sync_cleanup monitored r s2) as [[[]|e''|] s3]; inversion Heq; subst; first [done|by edestruct Hne].
      * by inversion Heq; subst.
    + intros Heq Hne. unfold bind in Heq.
      destruct (sync_cleanup monitored r s1) as [[[]|e'|] s2] eqn:E; inversion Heq; subst; try by edestruct Hne.
      exfalso. apply (sync_cleanup_ends monitored r s1). by rewrite E.
  - intros [= <- <-] _. done.
Qed.

Lemma sync_loop_readiness rounds s o s' :
  Forall (λ r, sr_remove_fails r = false) rounds → readiness s →
  sync_loop monitored true heartbeat_seconds rounds s = (o, s') → (∀ e, o ≠ Raises e) → readiness s'.
Proof.
  intros Hr. revert s. induction Hr as [|r rounds Hr _ IH]; intros s Hs; cbn [sync_loop];
    unfold bind at 1, gets at 1; (destruct (a_shutdown s); [by intros [= _ <-]|]).
  - by intros [= _ <-].
  - unfold bind. destruct (sync_turn monitored true heartbeat_seconds r s) as [[[]|e|] s1] eqn:E.
    + intros Heq Hne. apply IH in Heq; [done| |done]. eapply sync_turn_readiness; [done..|]. done.
    + intros [= _ <-] _. eapply sync_turn_readiness; [done..|]. done.
    + by intros [= <- _] []%(λ H, H e eq_refl).
    + intros [= _ <-] _. eapply sync_turn_readiness; [done..|]. done.
Qed.
End readiness.

(** [m] never returns. *)
Definition only_raises {A} (m : M A) : Prop := ∀ s a s', m s ≠ (Returns a, s').
Lemma only_raises_bind {A B} (m : M A) (k : A → M B) : (∀ a, only_raises (k a)) → only_raises (bind m k).
Proof.
  intros Hk s b s'. unfold bind. destruct (m s) as [[a|e|] s1]; [apply Hk|done|done].
Qed.
Lemma roll_back_raises mon p cl e : only_raises (roll_back mon p cl e).
Proof. unfold roll_back, roll_back_steps. repeat (apply only_raises_bind; intros ?). by intros ???. Qed.

(** The ways through [main]. *)
Section paths.
Context (monitored path_set : bool) (heartbeat_seconds : Z) (wipe : bool) (rooms : list (option pystr))
  (su : startup) (back cl : cleanup) (rounds : list sync_round).

Definition installed (s : app) : app := set_handlers true (a_signals s) (logged InstallHandler s).
(** The loop, with a KeyboardInterrupt turned into a request to shut down. *)
Definition interruptible_run : M unit :=
  try_except (λ e, bool_decide (e = EKeyboardInterrupt)) (run monitored path_set heartbeat_seconds rounds)
    (λ _, modify signal_handler).

Inductive main_path (s : app) : outcome unit → app → Prop :=
  | path_initialize e s1 : initialize wipe su (installed s) = (Raises e, s1) → main_path s (Raises e) s1
  | path_starting s1 s2 :
      initialize wipe su (installed s) = (Returns tt, s1) →
      start_components monitored rooms su s1 = (Waits, s2) → main_path s Waits s2
  | path_roll_back s1 s2 e o s3 :
      initialize wipe su (installed s) = (Returns tt, s1) →
      start_components monitored rooms su s1 = (Raises e, s2) →
      roll_back monitored path_set back e s2 = (o, s3) → main_path s o s3
  | path_running s1 s2 s3 :
      initialize wipe su (installed s) = (Returns tt, s1) →
      start_components monitored rooms su s1 = (Returns tt, s2) →
      interruptible_run s2 = (Waits, s3) → main_path s Waits s3
  | path_end s1 s2 s3 pending o s4 :
      initialize wipe su (installed s) = (Returns tt, s1) →
      start_components monitored rooms su s1 = (Returns tt, s2) →
      interruptible_run s2 = (match pending with Some e => Raises e | None => Returns tt end, s3) →
      bind (shut_down monitored path_set wipe cl pending)
        (λ _, match pending with Some e => raise e | None => ret tt end) s3 = (o, s4) →
      main_path s o s4.

Lemma main_paths s o s' :
  main monitored path_set heartbeat_seconds wipe rooms su back cl rounds s = (o, s') → main_path s o s'.
Proof.
  unfold main, bind at 1, emit, modify at 1. unfold bind at 1, modify at 1.
  change (set_handlers true _ _) with (installed s). unfold bind at 1.
  destruct (initialize wipe su (installed s)) as [[[]|e|] s1] eqn:E1.
  2: intros [= <- <-]; by apply path_initialize.
  2: { exfalso. assert (H : ends (initialize wipe su)); [unfold initialize; ends_tac|].
       apply (H (installed s)). by rewrite E1. }
  unfold bind at 1, try_except at 1.
  destruct (start_components monitored rooms su s1) as [[[]|e|] s2] eqn:E2.
  - fold interruptible_run. unfold try_finally.
    destruct (interruptible_run s2) as [[[]|e|] s3] eqn:E3; intros H.
    + by eapply (path_end _ _ _ _ None).
    + by eapply (path_end _ _ _ _ (Some e)).
    + injection H as [= <- <-]. by eapply path_running.
  - destruct (roll_back monitored path_set back e s2) as [[[]|e'|] s3] eqn:E3.
    2: intros [= <- <-]; by eapply path_roll_back.
    2: intros [= <- <-]; by eapply path_roll_back.
    exfalso. by eapply roll_back_raises.
  - intros [= <- <-]. by eapply path_starting.
Qed.
End paths.

Section readiness_theorems.
Context (monitored : bool) (heartbeat_seconds : Z) (wipe : bool) (rooms : list (option pystr))
  (su : startup) (back cl : cleanup).
Abbreviation whole_run rounds := (main monitored true heartbeat_seconds wipe rooms su back cl rounds).

Lemma unready_before_loop s s1 :
  unready s → initialize wipe su (installed s) = (Returns tt, s1) →
  unready s1 ∧ unready (start_components monitored rooms su s1).2.
Proof.
  intros Hs H. pose proof (keeps_initialize unready wipe su (installed s) Hs) as H1.
  rewrite H in H1. split; [done|]. apply (keeps_start monitored unready rooms su); [|done]. by intros s' (? & ? & ?).
Qed.

Lemma run_readiness rounds s o s' :
  Forall (λ r, sr_remove_fails r = false) rounds → readiness s →
  run monitored true heartbeat_seconds rounds s = (o, s') → (∀ e, o ≠ Raises e) → readiness s'.
Proof.
  intros Hr Hs. unfold run, bind at 1, gets at 1. unfold bind at 1. set (m := when _ _).
  assert (Hm : keeps readiness m) by (unfold m; keeps_tac). specialize (Hm s Hs).
  assert (Hret : (m s).1 = Returns tt) by (unfold m; by destruct (a_shutdown s)).
  destruct (m s) as [o1 s1]. cbn in Hret, Hm. subst o1. by eapply sync_loop_readiness.
Qed.

Lemma keeps_interruptible_run I `{!stable I} p rounds :
  (∀ r, keeps I (publish_ready monitored p heartbeat_seconds r)) →
  keeps I (interruptible_run monitored p heartbeat_seconds rounds).
Proof. intros Hp. unfold interruptible_run. apply keeps_except; [by apply keeps_run|auto with main]. Qed.

(** C31: For a process that finds no readiness file when it starts and can remove its own: whenever the
    run is held up waiting for something that has not come (the join of a room, the next poll of the
    drain, the end of the synchronisation or the shut-down, the next turn of the loop), the readiness
    file exists only if the readiness has been published, and that happens only after the startup
    drain is complete.  The two short waits
    for the threads that write and remove the file are not among these: during them the file may
    exist although the readiness is not published. *)
Theorem readiness_sound rounds s :
  Forall (λ r, sr_remove_fails r = false) rounds →
  whole_run rounds (app_init false) = (Waits, s) → a_ready_file s = true →
  a_published s = true ∧ default true (a_drain s) = true.
Proof.
  intros Hr H. enough (readiness s) as (Hd & _ & Hf) by (intros Hfile; split; auto).
  assert (Hu : unready (app_init false)) by done.
  apply main_paths in H. inversion H as [| s1 s2 E1 E2| s1 s2 e o s3 E1 E2 E3
    |s1 s2 s3 E1 E2 E3|s1 s2 s3 pend o s4 E1 E2 E3 E4]; subst.
  - apply unready_before_loop in E1 as [_ Hu2]; [|done]. rewrite E2 in Hu2. by apply unready_readiness.
  - exfalso. apply (roll_back_ends monitored true back e s2). by rewrite E3.
  - apply unready_before_loop in E1 as [_ Hu2]; [|done]. rewrite E2 in Hu2.
    unfold interruptible_run, try_except in E3.
    destruct (run monitored true heartbeat_seconds rounds s2) as [[[]|e|] s5] eqn:E.
    + done.
    + by destruct (bool_decide (e = EKeyboardInterrupt)).
    + injection E3 as <-. eapply run_readiness in E; [done|done| |done]. by apply unready_readiness.
  - exfalso. unfold bind in E4.
    destruct (shut_down monitored true wipe cl pend s3) as [[[]|e|] s5] eqn:E; [by destruct pend|done|].
    apply (shut_down_ends monitored true wipe cl pend s3). by rewrite E.
Qed.

(** *** Withdrawal *)

Lemma touch_lands l s fails :
  TouchLands fails ∈ l → stopping s → touch_over (run_callbacks monitored l s).
Proof.
  intros Hin Hs. apply list_elem_of_split in Hin as (l1 & l2 & ->).
  unfold run_callbacks. rewrite foldl_app. cbn [foldl].
  apply (run_callbacks_stable monitored touch_over l2).
  assert (H : stopping (foldl (flip (run_callback monitored)) s l1))
    by by apply (run_callbacks_stable monitored stopping l1).
  revert H. generalize (foldl (flip (run_callback monitored)) s l1) as t. intros t Ht. unfold flip. cbn [run_callback].
  case_bool_decide as Hb; split; cbn; done.
Qed.

(** The wait for the heartbeat is not interrupted, a touch of the file in progress ends in its five
    seconds, and the file can be removed. *)
Definition withdrawable (cl : cleanup) : Prop :=
  aw_result (bw_first (cl_heartbeat cl)) = inl tt ∧ aw_result (bw_second (cl_heartbeat cl)) = inl tt ∧
  (∃ fails, TouchLands fails ∈ aw_callbacks (bw_first (cl_heartbeat cl))) ∧ cl_remove_fails cl = false.

Lemma heartbeat_withdrawn s :
  withdrawable cl → stopping s →
  ∃ s', await_heartbeat_shutdown monitored (cl_heartbeat cl) s = (Returns tt, s') ∧ touch_over s'.
Proof.
  intros (H1 & H2 & (f & Hf) & _) Hs. unfold await_heartbeat_shutdown, bind, gets, modify.
  destruct (a_heartbeat s) eqn:Eh.
  { exists s. split; [done|]. split; [done|congruence]. }
  all: rewrite H1; assert (Ht := touch_lands _ s f Hf Hs); rewrite bool_decide_eq_false_2; [|apply Ht].
  all: unfold await, bind, modify; rewrite H2; eexists; split; [done|];
    by apply (run_callbacks_stable monitored touch_over).
Qed.

Lemma shut_down_steps_withdrawn s :
  withdrawable cl → withdrawn (shut_down_steps monitored true wipe cl s).2.
Proof.
  intros Hw. unfold shut_down_steps. unfold bind at 1, emit, modify at 1. unfold bind at 1, modify at 1.
  unfold bind at 1, set_shutdown_flag, modify at 1. unfold bind at 1.
  destruct (heartbeat_withdrawn (set_shutdown (set_handlers false
    (a_signals (logged RestoreHandler s)) (logged RestoreHandler s)))) as (s1 & E & H1 & H2); [done|done|].
  rewrite E. destruct Hw as (_ & _ & _ & Hrem). apply bind_establishes.
  - unfold _remove_ready_file, bind, modify. rewrite Hrem. split; [done|]. split; [done|]. apply andb_false_r.
  - intros []. keeps_tac; apply (keeps_emit withdrawn).
Qed.

Lemma shut_down_withdraws pend s :
  withdrawable cl → a_ready_file (shut_down monitored true wipe cl pend s).2 = false.
Proof.
  intros Hw. unfold shut_down. apply (bind_establishes withdrawn); [by apply shut_down_steps_withdrawn|].
  intros ?; keeps_tac.
Qed.

(** However the program ends - a failed start, an exception of the loop, a shut-down that was asked
    for, failures of the shut-down itself -, it leaves no readiness file behind. *)
Theorem readiness_withdrawn rounds o s :
  withdrawable cl →
  whole_run rounds (app_init false) = (o, s) → o ≠ Waits → a_ready_file s = false.
Proof.
  intros Hw H Ho. assert (Hu : unready (app_init false)) by done.
  apply main_paths in H. inversion H as [e s1 E1| s1 s2 E1 E2| s1 s2 e o' s3 E1 E2 E3
    |s1 s2 s3 E1 E2 E3|s1 s2 s3 pend o' s4 E1 E2 E3 E4]; subst; try done.
  - pose proof (keeps_initialize unready wipe su (installed (app_init false)) Hu) as H1.
    rewrite E1 in H1. apply H1.
  - apply unready_before_loop in E1 as [_ Hu2]; [|done]. rewrite E2 in Hu2.
    pose proof (keeps_roll_back monitored true unready back e s2 Hu2) as H3. rewrite E3 in H3. apply H3.
  - pose proof (shut_down_withdraws pend s3 Hw) as H4. unfold bind in E4.
    destruct (shut_down monitored true wipe cl pend s3) as [[[]|e|] s5]; cbn in H4;
      destruct pend; by inversion E4; subst.
Qed.
End readiness_theorems.

(** ** What is started is stopped *)

(** The effects but for cancellations, the latest first. *)
Definition is_step (e : effect) : bool :=
  match e with CancelTask _ | CancelReconnect => false | _ => true end.
Definition steps (s : app) : list effect := filter (λ e, is_step e = true) (a_log s).

(** [m] returns, and changes the effects by [F]. *)
Definition does {A} (F : list effect → list effect) (m : M A) : Prop :=
  ∀ s, ∃ a s', m s = (Returns a, s') ∧ steps s' = F (steps s).

Section does.
Context (monitored path_set : bool).

Lemma does_ret {A} (a : A) : does (λ l, l) (ret a).
Proof. intros s. by exists a, s. Qed.
Lemma does_modify f : (∀ s, a_log (f s) = a_log s) → does (λ l, l) (modify f).
Proof. intros Hf s. exists tt, (f s). split; [done|]. unfold steps. by rewrite Hf. Qed.
Lemma does_emit e : is_step e = true → does (cons e) (emit e).
Proof. intros He s. exists tt, (logged e s). split; [done|]. unfold steps. cbn [logged a_log]. by rewrite filter_cons_True. Qed.
Lemma does_cancel e : is_step e = false → does (λ l, l) (emit e).
Proof.
  intros He s. exists tt, (logged e s). split; [done|]. unfold steps. cbn [logged a_log].
  rewrite filter_cons_False; [done|]. by rewrite He.
Qed.
Lemma does_bind {A B} F G (m : M A) (k : A → M B) :
  does F m → (∀ a, does G (k a)) → does (λ l, G (F l)) (bind m k).
Proof.
  intros Hm Hk s. destruct (Hm s) as (a & s1 & E1 & L1). destruct (Hk a s1) as (b & s2 & E2 & L2).
  exists b, s2. unfold bind. rewrite E1. split; [done|]. by rewrite L2, L1.
Qed.
Lemma does_ext {A} F G (m : M A) : does F m → (∀ l, F l = G l) → does G m.
Proof. intros Hm HF s. rewrite <- HF. apply Hm. Qed.
(** Reading the state, for a continuation that does the same whatever is read. *)
Lemma does_gets {A B} (f : app → A) F (k : A → M B) : (∀ a, does F (k a)) → does F (bind (gets f) k).
Proof. intros Hk s. apply (Hk (f s) s). Qed.
(** Reading whether an effect is among those of the past. *)
Lemma does_happened {B} e (F : bool → list effect → list effect) (k : bool → M B) :
  is_step e = true → (∀ b, does (F b) (k b)) →
  does (λ l, F (bool_decide (e ∈ l)) l) (bind (gets (λ s, bool_decide (e ∈ a_log s))) k).
Proof.
  intros He Hk s. unfold bind, gets. destruct (Hk (bool_decide (e ∈ a_log s)) s) as (a & s' & H1 & H2).
  exists a, s'. split; [done|]. rewrite H2. f_equal. apply bool_decide_ext. unfold steps.
  rewrite list_elem_of_filter. naive_solver.
Qed.
Lemma does_when_id b m : does (λ l, l) m → does (λ l, l) (when b m).
Proof. destruct b; [done|]. intros _. apply does_ret. Qed.
Lemma does_when (b : bool) F m : does F m → does (λ l, if b then F l else l) (when b m).
Proof. destruct b; [done|]. intros _. apply does_ret. Qed.

Lemma run_callbacks_log l s : a_log (run_callbacks monitored l s) = a_log s.
Proof.
  revert s. induction l as [|c l IH]; intros s; [done|]. unfold run_callbacks in *. cbn [foldl]. rewrite IH. unfold flip.
  destruct c as [|t o| | | |f]; cbn [run_callback].
  - unfold signal_handler. by destruct (a_signals s), (a_shutdown s).
  - destruct (get_task t s), o as [[]|]; try done; by case_bool_decide.
  - destruct (a_health_callback s); [|done]. unfold _on_check_connection_done.
    destruct (a_health _) as [| |[[]|]]; try done; destruct (a_shutdown _), monitored; done.
  - by destruct (a_drain s).
  - by case_bool_decide; destruct (a_shutdown s).
  - by case_bool_decide.
Qed.

Lemma does_callbacks l : does (λ l, l) (modify (run_callbacks monitored l)).
Proof. apply does_modify. intros s. apply run_callbacks_log. Qed.
Lemma does_await {A} (w : awaited A) x : aw_result w = inl x → does (λ l, l) (await monitored w).
Proof.
  intros Hw. unfold await. rewrite Hw. apply (does_bind (λ l, l) (λ l, l)); [apply does_callbacks|intros _; apply does_ret].
Qed.
(** An exception that is handled. *)
Lemma does_await_except p (w : awaited unit) :
  (∀ e, aw_result w = inr e → p e = true) →
  does (λ l, l) (try_except p (await monitored w) (λ _, ret tt)).
Proof.
  intros Hp s. unfold try_except, await, bind, modify. exists tt, (run_callbacks monitored (aw_callbacks w) s).
  split; [|unfold steps; by rewrite run_callbacks_log].
  destruct (aw_result w) as [[]|e]; [done|]. cbn. by rewrite Hp.
Qed.

(** *** Shut-downs that nobody interrupts *)

(** The task may fail, take too long, or not react to being cancelled; what is excluded is that
    the wait is interrupted by KeyboardInterrupt or SystemExit or, once the task is over, by anything. *)
Definition calm_wait (w : bg_waits) : Prop :=
  (∀ e, aw_result (bw_first w) = inr e → e ≠ EKeyboardInterrupt ∧ e ≠ ESystemExit) ∧
  aw_result (bw_second w) = inl tt.

Definition calm (cl : cleanup) : Prop :=
  calm_wait (cl_health cl) ∧ calm_wait (cl_heartbeat cl) ∧ calm_wait (cl_refresh cl) ∧
  (∀ e, aw_result (rc_task_wait (cl_reconnect cl)) = inr e → e = ETimeout) ∧
  (∀ e, aw_result (rc_future_wait (cl_reconnect cl)) = inr e → e = ETimeout) ∧
  (∃ r, aw_result (cl_plugins cl) = inl r) ∧ (∃ r, aw_result (cl_queue cl) = inl r) ∧
  aw_result (cl_matrix cl) ≠ inr ECancelled ∧ aw_result (cl_mesh cl) ≠ inr ECancelled ∧
  aw_result (cl_executors cl) = inl tt ∧ cl_wipe cl = None.

Lemma does_bg_second t w : aw_result (bw_second w) = inl tt → does (λ l, l) (bg_second monitored t w).
Proof.
  intros Hw. unfold bg_second. apply does_gets. intros [|]; [by eapply does_await|].
  apply (does_bind (λ l, l) (λ l, l)); [by apply does_cancel|intros _]. apply does_await_except. congruence.
Qed.

Lemma does_background t w : calm_wait w → does (λ l, l) (_await_background_task_shutdown monitored t w).
Proof.
  intros [H1 H2]. unfold _await_background_task_shutdown. apply does_gets. intros v.
  destruct v; [apply does_ret| |by apply does_bg_second].
  apply (does_bind (λ l, l) (λ l, l)); [apply does_callbacks|intros _]. apply does_gets. intros v.
  assert (Hc : does (λ l, l) (cancel_task t)) by by apply does_cancel.
  assert (Hs := does_bg_second t w H2).
  assert (Hcs : does (λ l, l) (bind (cancel_task t) (λ _, bg_second monitored t w)))
    by by apply (does_bind (λ l, l) (λ l, l)).
  destruct (aw_result (bw_first w)) as [[]|e].
  - by destruct v as [| |[[]|]].
  - destruct (H1 e eq_refl). by destruct e; try done; destruct v as [| |[[]|]].
Qed.

Lemma does_heartbeat w : calm_wait w → does (λ l, l) (await_heartbeat_shutdown monitored w).
Proof.
  intros [H1 H2]. unfold await_heartbeat_shutdown. apply does_gets. intros h.
  destruct h; [apply does_ret|..].
  all: apply (does_bind (λ l, l) (λ l, l)); [apply does_callbacks|intros _].
  all: destruct (aw_result (bw_first w)) as [[]|e]; [|destruct (H1 e eq_refl); destruct e; try done; apply does_ret].
  all: apply does_gets; intros h; case_bool_decide; [|by eapply does_await].
  all: apply does_await_except; congruence.
Qed.

Lemma does_step e w r : is_step e = true → aw_result w = inl r →
  does (cons e) (_run_blocking_shutdown_step monitored e w).
Proof.
  intros He Hw. unfold _run_blocking_shutdown_step. apply (does_bind (cons e) (λ l, l)); [by apply does_emit|intros _].
  apply (does_bind (λ l, l) (λ l, l)); [by eapply does_await|intros _; apply does_ret].
Qed.

Lemma does_remove f : does (cons RemoveReadyFile) (_remove_ready_file path_set f).
Proof.
  unfold _remove_ready_file. apply (does_bind (λ l, l) (cons RemoveReadyFile)); [|intros _; by apply does_emit].
  destruct path_set; [by apply does_modify|apply does_ret].
Qed.

Definition closed_client (client : option bool) : list effect :=
  match client with None => [] | Some true => [DisconnectBle] | Some false => [CloseMeshtastic] end.

Lemma does_close_matrix (b : bool) w : aw_result w ≠ inr ECancelled →
  does (λ l, if b then CloseMatrix :: l else l) (_close_matrix_client_best_effort monitored b w).
Proof.
  intros Hw. unfold _close_matrix_client_best_effort. apply (does_when b (cons CloseMatrix)).
  apply (does_bind (cons CloseMatrix) (λ l, l)); [by apply does_emit|intros _]. apply does_await_except.
  intros e He. rewrite bool_decide_eq_false_2; [done|congruence].
Qed.
Lemma does_close_mesh (c : option bool) w : aw_result w ≠ inr ECancelled →
  does (λ l, closed_client c ++ l) (_close_meshtastic_client_best_effort monitored c w).
Proof.
  intros Hw. unfold _close_meshtastic_client_best_effort. destruct c as [b|]; [|apply does_ret].
  replace (λ l, closed_client (Some b) ++ l) with (cons (if b then DisconnectBle else CloseMeshtastic)) by by destruct b.
  apply (does_bind (cons _) (λ l, l)); [apply does_emit; by destruct b|intros _]. apply does_await_except.
  intros e He. rewrite bool_decide_eq_false_2; [done|congruence].
Qed.
Lemma does_cancel_reconnect c w : (∀ e, aw_result w = inr e → e = ETimeout) →
  does (λ l, l) (cancel_reconnect monitored c w).
Proof.
  intros Hw. unfold cancel_reconnect. destruct c as [b|]; [|apply does_ret].
  apply (does_bind (λ l, l) (λ l, l)); [by apply does_cancel|intros _]. destruct b; [|apply does_ret].
  apply does_await_except. intros e He. apply bool_decide_eq_true. auto.
Qed.
Lemma does_reconnect_cleanup r :
  (∀ e, aw_result (rc_task_wait r) = inr e → e = ETimeout) →
  (∀ e, aw_result (rc_future_wait r) = inr e → e = ETimeout) →
  does (cons UnsubscribeCallbacks) (_cleanup_meshtastic_reconnect_state monitored r).
Proof.
  intros H1 H2. unfold _cleanup_meshtastic_reconnect_state.
  apply (does_bind (λ l, l) (cons UnsubscribeCallbacks)); [by apply does_cancel_reconnect|intros _].
  apply (does_bind (λ l, l) (cons UnsubscribeCallbacks)); [by apply does_cancel_reconnect|intros _].
  by apply does_emit.
Qed.

Ltac does_next := eapply does_bind; [|intros []].

(** The effects of the shut-down, the latest first. *)
Definition shut_down_effects (wipe : bool) (client : option bool) : list effect :=
  (if wipe then [WipeMessageMap] else []) ++ ShutdownExecutors :: closed_client client ++
  [CloseMatrix; StopMessageQueue; ShutdownPlugins; UnsubscribeCallbacks; RemoveReadyFile; RestoreHandler].

Lemma does_shut_down wipe cl :
  calm cl → does (λ l, shut_down_effects wipe (cl_client cl) ++ l) (shut_down_steps monitored path_set wipe cl).
Proof.
  intros (Hh & Hb & Hr & H1 & H2 & [? H3] & [? H4] & H5 & H6 & H7 & H8). unfold shut_down_steps.
  assert (Hend : does (λ l, if wipe then WipeMessageMap :: l else l)
    (when wipe (bind (emit WipeMessageMap) (λ _, raise_if (cl_wipe cl))))).
  { apply (does_when wipe (cons WipeMessageMap)). rewrite H8.
    apply (does_bind (cons _) (λ l, l)); [by apply does_emit|intros _; apply does_ret]. }
  eapply does_ext.
  - do 2 (does_next; [by first [apply does_emit|apply does_modify]|]).
    does_next; [by apply does_modify|]. does_next; [by apply does_heartbeat|]. does_next; [by apply does_remove|].
    do 2 (does_next; [by apply does_background|]). does_next; [by apply does_reconnect_cleanup|].
    do 2 (does_next; [by eapply does_step|]).
    does_next; [by apply does_close_matrix|]. does_next; [by apply does_close_mesh|].
    does_next; [by apply does_emit|]. does_next; [by eapply does_await|]. exact Hend.
  - intros l. unfold shut_down_effects. by destruct wipe; cbn; rewrite <- app_assoc.
Qed.

(** The effects of the roll-back after those of [l]. *)
Definition roll_back_effects (client : option bool) (l : list effect) : list effect :=
  ShutdownExecutors :: closed_client client ++
  (if bool_decide (ConnectMatrix ∈ l) then [CloseMatrix] else []) ++
  (if bool_decide (StartMessageQueue ∈ l) then [StopMessageQueue] else []) ++
  [ShutdownPlugins; RemoveReadyFile; UnsubscribeCallbacks].

Lemma does_stop_started cl r : aw_result (cl_queue cl) = inl r →
  does (λ l, if bool_decide (StartMessageQueue ∈ l) then StopMessageQueue :: l else l)
    (stop_started_queue monitored cl).
Proof.
  intros Hw. apply (does_happened StartMessageQueue (λ (b : bool) l, if b then StopMessageQueue :: l else l)); [done|].
  intros b. apply (does_when b (cons StopMessageQueue)). by eapply does_step.
Qed.
Lemma does_close_connected cl : aw_result (cl_matrix cl) ≠ inr ECancelled →
  does (λ l, if bool_decide (ConnectMatrix ∈ l) then CloseMatrix :: l else l)
    (close_connected_matrix monitored cl).
Proof.
  intros Hw. apply (does_happened ConnectMatrix (λ (b : bool) l, if b then CloseMatrix :: l else l)); [done|].
  intros b. by apply does_close_matrix.
Qed.

Lemma does_roll_back cl :
  calm cl → does (λ l, roll_back_effects (cl_client cl) l ++ l) (roll_back_steps monitored path_set cl).
Proof.
  intros (Hh & Hb & Hr & H1 & H2 & [? H3] & [? H4] & H5 & H6 & H7 & H8). unfold roll_back_steps.
  eapply does_ext.
  - does_next; [by apply does_modify|]. apply does_gets. intros h.
    does_next.
    { apply does_when_id. apply (does_bind (λ l, l) (λ l, l)); [by apply does_cancel|intros _].
      apply does_await_except. intros e. destruct Hh as [_ ->]. done. }
    does_next; [by apply does_reconnect_cleanup|]. does_next; [by apply does_remove|].
    does_next; [by eapply does_step|].
    does_next; [by eapply does_stop_started|]. does_next; [by apply does_close_connected|].
    does_next; [by apply does_close_mesh|]. does_next; [by apply does_emit|]. by eapply does_await.
  - intros l. cbv beta. unfold roll_back_effects.
    assert (Hq : bool_decide (StartMessageQueue ∈ [ShutdownPlugins; RemoveReadyFile; UnsubscribeCallbacks] ++ l)
      = bool_decide (StartMessageQueue ∈ l)) by (apply bool_decide_ext; set_unfold; naive_solver).
    cbn [Datatypes.app] in Hq. rewrite Hq. clear Hq.
    destruct (bool_decide (StartMessageQueue ∈ l)).
    all: rewrite (bool_decide_ext _ (ConnectMatrix ∈ l)) by (set_unfold; naive_solver).
    all: by destruct (bool_decide (ConnectMatrix ∈ l)), (cl_client cl) as [[]|].
Qed.
End does.

(** [release] follows each [acquired]; the latest effect comes first. *)
Definition released (l : list effect) (acquired release : effect) : Prop :=
  ∀ l1 l2, l = l1 ++ acquired :: l2 → release ∈ l1.

Lemma released_by (E l : list effect) a r : r ∈ E → a ∉ E → released (E ++ l) a r.
Proof.
  intros Hr Ha l1 l2 H. apply app_eq_inv in H as [(k & -> & H)|(k & -> & H)].
  - destruct k as [|x k]; [by rewrite app_nil_r in Hr|]. injection H as <- _. exfalso. apply Ha. set_solver.
  - apply elem_of_app. by left.
Qed.
Lemma released_absent (l : list effect) a r : a ∉ l → released l a r.
Proof. intros Ha l1 l2 ->. exfalso. apply Ha. set_solver. Qed.

(** What each component that is started needs at the end. *)
Definition obligations : list (effect * effect) :=
  [(LoadPlugins, ShutdownPlugins); (LoadPlugins, UnsubscribeCallbacks); (LoadPlugins, ShutdownExecutors);
   (StartMessageQueue, StopMessageQueue); (ConnectMatrix, CloseMatrix); (PublishReady, RemoveReadyFile)].

Section release_theorems.
Context (monitored path_set : bool) (heartbeat_seconds : Z) (wipe : bool) (rooms : list (option pystr))
  (su : startup) (back cl : cleanup).
Abbreviation whole_run rounds :=
  (main monitored path_set heartbeat_seconds wipe rooms su back cl rounds).

Lemma initialize_steps b s1 e : initialize wipe su (installed (app_init b)) = (Raises e, s1) →
  Forall (λ x, x ∈ [InstallHandler; InitializeDatabase; WipeMessageMap; RestoreHandler]) (steps s1).
Proof.
  unfold initialize, try_except, bind, emit, modify, raise_if, when.
  destruct (su_database su); [|destruct wipe; [destruct (su_wipe su)|]]; cbn; intros [= <- <-];
    unfold steps; cbn; rewrite ?filter_cons; cbn; repeat constructor; set_solver.
Qed.

(** C7: Whatever fails in the start-up or in the main loop, and wherever: each component that was
    started is stopped after that, before [main] ends - plugins, callbacks, executors, queue, Matrix
    client, readiness -, even when stopping the plugins, the queue or a client fails or takes too
    long, or a background task fails.  This is for a roll-back and a shut-down that are [calm]: nothing
    cancels or interrupts them, a second wait for a background task returns, a reconnection that is
    pending ends or times out, the executors can be shut down, and the wipe at the end works. *)
Theorem started_is_stopped b rounds o s :
  calm back → calm cl → whole_run rounds (app_init b) = (o, s) → o ≠ Waits →
  Forall (λ ar, released (steps s) ar.1 ar.2) obligations.
Proof.
  intros Hb Hc H Ho.
  apply main_paths in H. inversion H as [e s1 E1| s1 s2 E1 E2| s1 s2 e o' s3 E1 E2 E3
    |s1 s2 s3 E1 E2 E3|s1 s2 s3 pend o' s4 E1 E2 E3 E4]; subst; try done.
  - apply initialize_steps in E1. rewrite Forall_forall in E1.
    repeat constructor; apply released_absent; intros Hin; apply E1 in Hin; set_solver.
  - destruct (does_roll_back monitored path_set back Hb s2) as ([] & s' & Hs & Hl).
    unfold roll_back, bind in E3. rewrite Hs in E3. injection E3 as <- <-. rewrite Hl.
    assert (Hin : ∀ a x, bool_decide (a ∈ steps s2) = false →
      a ∉ [ShutdownPlugins; RemoveReadyFile; UnsubscribeCallbacks; ShutdownExecutors; DisconnectBle;
           CloseMeshtastic; CloseMatrix; StopMessageQueue] →
      released (roll_back_effects (cl_client back) (steps s2) ++ steps s2) a x).
    { intros a x Ha Hna. apply bool_decide_eq_false in Ha. apply released_absent.
      intros [Hin|Hin]%elem_of_app; [|done]. apply Hna. revert Hin. unfold roll_back_effects, closed_client.
      clear. destruct (cl_client back) as [[]|]; repeat case_bool_decide; set_solver. }
    repeat constructor; cbn [fst snd].
    4: destruct (bool_decide (StartMessageQueue ∈ steps s2)) eqn:E; [|apply Hin; [done|by_decide]].
    5: destruct (bool_decide (ConnectMatrix ∈ steps s2)) eqn:E; [|apply Hin; [done|by_decide]].
    all: apply released_by; unfold roll_back_effects, closed_client; rewrite ?E;
      destruct (cl_client back) as [[]|]; repeat case_bool_decide; by_decide.
  - destruct (does_shut_down monitored path_set wipe cl Hc s3) as ([] & s' & Hs & Hl).
    assert (steps s = shut_down_effects wipe (cl_client cl) ++ steps s3) as ->.
    { rewrite <- Hl. unfold shut_down, bind in E4. rewrite Hs in E4. unfold gets in E4.
      destruct (a_fatal s'), pend; by injection E4 as <- <-. }
    repeat constructor; apply released_by; unfold shut_down_effects, closed_client;
      destruct wipe, (cl_client cl) as [[]|]; by_decide.
Qed.

(** A start that fails is undone, and its exception is the one that [main] raises. *)
Theorem failed_start_reraised rounds s s1 s2 e :
  calm back → initialize wipe su (installed s) = (Returns tt, s1) →
  start_components monitored rooms su s1 = (Raises e, s2) →
  (whole_run rounds s).1 = Raises e.
Proof.
  intros Hb E1 E2. destruct (whole_run rounds s) as [o s'] eqn:H. apply main_paths in H.
  inversion H as [e' s1' E1'| s1' s2' E1' E2'| s1' s2' e' o' s3 E1' E2' E3
    |s1' s2' s3 E1' E2' E3|s1' s2' s3 pend o' s4 E1' E2' E3 E4]; subst.
  all: rewrite E1 in E1'; try congruence; injection E1' as <-; rewrite E2 in E2'; try congruence.
  injection E2' as <- <-. destruct (does_roll_back monitored path_set back Hb s2) as ([] & s3' & Hs & _).
  unfold roll_back, bind in E3. rewrite Hs in E3. by injection E3 as <- <-.
Qed.

(** *** The exit *)

(** [m] leaves the loop only once the shut-down has been asked for. *)
Definition leaves_stopping (m : M next_turn) : Prop :=
  ∀ s s', m s = (Returns LeaveLoop, s') → stopping s'.
Lemma leaves_bind {A} (m : M A) k : (∀ a, leaves_stopping (k a)) → leaves_stopping (bind m k).
Proof. intros Hk s s'. unfold bind. destruct (m s) as [[a|e|] s1]; [apply Hk|done|done]. Qed.
Lemma leaves_if_shutdown m :
  leaves_stopping m → leaves_stopping (bind (gets a_shutdown) (λ b, if b then ret LeaveLoop else m)).
Proof.
  intros Hm s s'. unfold bind, gets. destruct (a_shutdown s) eqn:E; [by intros [= <-]|apply Hm].
Qed.
Lemma leaves_go_on {A} (m : M A) : leaves_stopping (bind m (λ _, ret GoOn)).
Proof. apply leaves_bind. by intros ???. Qed.

Lemma sync_turn_leaves r : leaves_stopping (sync_turn monitored path_set heartbeat_seconds r).
Proof.
  intros s s'. unfold sync_turn, bind at 1, modify at 1, try_finally.
  match goal with |- match ?m ?s with _ => _ end = _ → _ => assert (Hm : leaves_stopping m); [|revert Hm; generalize m s] end.
  - intros t t'. unfold try_except.
    assert (Ht : leaves_stopping (sync_try monitored path_set heartbeat_seconds r)).
    { unfold sync_try. do 10 (apply leaves_bind; intros ?). apply leaves_if_shutdown.
      destruct a5; [|by intros ??]. unfold handle_sync_result. apply leaves_bind. intros [| |[e|]]; try apply leaves_go_on.
      destruct (is_sync_error e); [apply leaves_go_on|by intros ??]. }
    destruct (sync_try monitored path_set heartbeat_seconds r t) as [[n|e|] t1] eqn:E; [|destruct (is_sync_error e)|]; try done.
    + intros [= -> <-]. by eapply Ht.
    + apply leaves_if_shutdown, leaves_go_on.
  - intros m t Hm. destruct (m t) as [[n|e|] t1] eqn:E; [|intros H; by destruct (sync_cleanup monitored r t1) as [[[]|e'|] t2] eqn:E2; unfold bind in H; rewrite E2 in H|done].
    unfold bind. pose proof (λ I H, keeps_sync_cleanup monitored I (stable0 := H) r t1) as Hk.
    destruct (sync_cleanup monitored r t1) as [[[]|e'|] t2]; try done. intros [= -> <-].
    apply (Hk stopping _). by eapply Hm.
Qed.

Lemma run_stops rounds s s' :
  run monitored path_set heartbeat_seconds rounds s = (Returns tt, s') → a_shutdown s' = true.
Proof.
  unfold run, bind at 1, gets at 1. unfold bind at 1.
  set (m := when _ _). assert (Hm : ∃ s1, m s = (Returns tt, s1)) by (unfold m; destruct (a_shutdown s); by eexists).
  destruct Hm as [s1 ->]. clear m s. revert s1.
  induction rounds as [|r rounds IH]; intros s; cbn [sync_loop]; unfold bind at 1, gets at 1;
    (destruct (a_shutdown s) eqn:E; [by intros [= <-]|]); [done|].
  unfold bind. destruct (sync_turn monitored path_set heartbeat_seconds r s) as [[[]|e|] s2] eqn:E2; try done.
  - apply IH.
  - intros [= <-]. by eapply sync_turn_leaves.
Qed.

(** The exit status is 0 only after a shut-down that was asked for with no failure of the health
    check before it, or after an interrupt. *)
Theorem exit_zero config credentials rounds s :
  run_main config credentials (whole_run rounds s).1 = Some 0 →
  (whole_run rounds s).1 = Raises EKeyboardInterrupt ∨
  a_fatal (whole_run rounds s).2 = None ∧
  ∃ s1 s2, interruptible_run monitored path_set heartbeat_seconds rounds s1 = (Returns tt, s2) ∧
           a_shutdown s2 = true.
Proof.
  unfold run_main. destruct (negb _); [done|]. destruct (whole_run rounds s) as [o s'] eqn:H.
  destruct o as [[]|e|]; [|destruct e; cbn; try done; by left|done]. intros _. right. cbn [snd].
  apply main_paths in H. inversion H as [e' s1' E1'| s1' s2' E1' E2'| s1' s2' e' o' s3 E1' E2' E3
    |s1' s2' s3 E1' E2' E3|s1' s2' s3 pend o' s4 E1' E2' E3 E4]; subst.
  - by apply roll_back_raises in E3.
  - unfold shut_down, bind in E4.
    destruct (shut_down_steps monitored path_set wipe cl s3) as [[[]|e|] s5]; try done.
    unfold gets in E4. destruct pend as [e|]; [by destruct (a_fatal s5)|].
    destruct (a_fatal s5) eqn:Ef; [done|]. injection E4 as <-. split; [done|].
    exists s2', s3. split; [done|]. revert E3. unfold interruptible_run, try_except.
    destruct (run monitored path_set heartbeat_seconds rounds s2') as [[[]|e|] s6] eqn:E; [|case_bool_decide|]; try done.
    + intros [= <-]. by eapply run_stops.
    + intros [= <-]. unfold signal_handler. by destruct (a_shutdown s6) eqn:?.
Qed.
End release_theorems.

(** *** Retries *)

Section retries.
Context (monitored path_set : bool) (heartbeat_seconds : Z).

(** Neither a signal nor the callback of the health task. *)
Definition undisturbed (c : callback) : bool :=
  match c with SignalReceived | HealthCallback => false | _ => true end.
Definition calm_await (w : awaited unit) : Prop :=
  aw_result w = inl tt ∧ Forall undisturbed (aw_callbacks w).

Lemma bind_eq {A B} (m : M A) (k : A → M B) s a s' :
  m s = (Returns a, s') → bind m k s = k a s'.
Proof. intros H. unfold bind. by rewrite H. Qed.
Lemma bind_eq_ret {A} (m : M unit) (a : A) s s' :
  m s = (Returns tt, s') → bind m (λ _, ret a) s = (Returns a, s').
Proof. intros H. by rewrite (bind_eq _ _ _ _ _ H). Qed.
Ltac next_bind := etransitivity; [apply bind_eq; reflexivity|].

(** A turn in which the synchronisation fails, or returns, and nothing else happens. *)
Definition failing_turn (r : sync_round) : Prop :=
  sr_start r = None ∧
  (∃ o l, sr_wait r = Some (Awaited (TaskEnds TSync o :: l) (inl tt)) ∧ Forall undisturbed l ∧
          match o with Some e => is_sync_error e | None => true end = true) ∧
  calm_await (sr_pending_shutdown r) ∧ calm_await (sr_retry r) ∧
  calm_await (bw_second (sr_final_sync r)) ∧ calm_await (sr_final_shutdown r).

Definition failed_sync (o : option exc) (s : app) : Prop :=
  a_shutdown s = false ∧ a_published s = true ∧ a_sync s = TaskDone o.

Lemma undisturbed_callbacks o l s :
  Forall undisturbed l → failed_sync o s → failed_sync o (run_callbacks monitored l s).
Proof.
  intros Hl. revert s. induction Hl as [|c l Hc _ IH]; intros s Hs; [done|]. apply IH. clear IH.
  destruct Hs as (H1 & H2 & H3). unfold flip.
  destruct c as [|t o'| | | |f]; cbn [run_callback]; try done.
  - destruct (get_task t s) eqn:Et, o' as [[]|]; try done.
    all: destruct t; cbn in Et; try congruence; repeat case_bool_decide; done.
  - by destruct (a_drain s).
  - case_bool_decide; [|done]. by rewrite H1.
  - by case_bool_decide.
Qed.

Lemma calm_await_runs o w s : calm_await w → failed_sync o s →
  ∃ s', await monitored w s = (Returns tt, s') ∧ failed_sync o s' ∧ a_log s' = a_log s.
Proof.
  intros [Hw Hl] Hs. unfold await, bind, modify. rewrite Hw. eexists. split; [done|].
  split; [by apply undisturbed_callbacks|apply run_callbacks_log].
Qed.

Lemma failing_turn_goes_on r s :
  failing_turn r → a_shutdown s = false → a_published s = true →
  ∃ s', sync_turn monitored path_set heartbeat_seconds r s = (Returns GoOn, s') ∧
        a_shutdown s' = false ∧ a_published s' = true ∧ a_log s' = StartTask TSync :: a_log s.
Proof.
  intros (H1 & (o & l & H2 & Hl & Ho) & H3 & H4 & H5 & H6) Hs Hp.
  set (s1 := run_callbacks monitored (TaskEnds TSync o :: l)
    (set_task TSync TaskRunning (logged (StartTask TSync) (set_task TSync NoTask s)))).
  assert (F1 : failed_sync o s1 ∧ a_log s1 = StartTask TSync :: a_log s).
  { unfold s1. split; [|by rewrite run_callbacks_log]. unfold run_callbacks. cbn [foldl].
    apply (undisturbed_callbacks o l); [done|]. unfold flip. cbn. by destruct o as [[]|]. }
  destruct F1 as [F1 L1].
  destruct (calm_await_runs o _ s1 H3 F1) as (s2 & E2 & F2 & L2).
  destruct (calm_await_runs o _ s2 H4 F2) as (s3 & E3 & F3 & L3).
  destruct (calm_await_runs o _ s3 H5 F3) as (s4 & E4 & F4 & L4).
  destruct (calm_await_runs o _ s4 H6 F4) as (s5 & E5 & F5 & L5).
  exists s5. destruct F5 as (G1 & G2 & _). rewrite L5, L4, L3, L2, L1. split; [|done].
  pose proof F1 as (Hs1 & _ & Hy1). pose proof F2 as (Hs2 & _ & Hy2). pose proof F3 as (Hs3 & _ & Hy3).
  pose proof F4 as (_ & _ & Hy4).
  assert (Et : sync_try monitored path_set heartbeat_seconds r (set_task TSync NoTask s) = (Returns GoOn, s3)).
  { unfold sync_try. rewrite H1, H2. do 3 next_bind.
    etransitivity; [apply bind_eq; unfold publish_ready, bind, gets; cbn; rewrite Hp; reflexivity|].
    etransitivity; [apply (bind_eq _ _ _ tt s1); reflexivity|]. clearbody s1.
    do 2 next_bind.
    rewrite Hs1, Hy1. cbn [task_done orb negb when]. do 2 next_bind.
    etransitivity; [by apply bind_eq|]. next_bind. rewrite Hs2. unfold handle_sync_result. next_bind. rewrite Hy2.
    destruct o as [e|]; [rewrite Ho|]; by etransitivity; [by apply bind_eq|]. }
  unfold sync_turn. next_bind. unfold try_finally, try_except. rewrite Et.
  apply bind_eq_ret. unfold sync_cleanup. next_bind. rewrite Hy3. cbn [bool_decide when].
  rewrite bool_decide_eq_false_2 by done. next_bind.
  etransitivity; [apply bind_eq|exact E5].
  unfold _await_background_task_shutdown. next_bind. cbn [get_task]. rewrite Hy3.
  unfold bg_second. next_bind. cbn [get_task]. rewrite Hy3. exact E4.
Qed.

(** Failures of the synchronisation never stop the relay: after any number of turns in which it
    fails with an exception of the network or returns, the loop is still running, and it was started
    again each time. *)
Theorem sync_failures_retried rounds s :
  Forall failing_turn rounds → a_shutdown s = false → a_published s = true →
  ∃ s', sync_loop monitored path_set heartbeat_seconds rounds s = (Waits, s') ∧
        a_log s' = repeat (StartTask TSync) (length rounds) ++ a_log s.
Proof.
  intros Hr. revert s. induction Hr as [|r rounds Hr _ IH]; intros s Hs Hp; cbn [sync_loop].
  - exists s. unfold bind, gets. by rewrite Hs.
  - destruct (failing_turn_goes_on r s Hr Hs Hp) as (s1 & E1 & Hs1 & Hp1 & L1).
    destruct (IH s1 Hs1 Hp1) as (s2 & E2 & L2). exists s2. split.
    + next_bind. rewrite Hs. etransitivity; [by apply bind_eq|]. exact E2.
    + rewrite L2, L1. cbn [length repeat]. by rewrite repeat_cons, <- app_assoc.
Qed.
End retries.

(** ** Settings: which value counts *)

(** A value in the section [database] settles the question, whatever the legacy section says. *)
Lemma preferred_wipe_settles config d m v :
  dget config (u "database") = Some (VDict d) → dget d (u "msg_map") = Some (VDict m) →
  dget m (u "wipe_on_restart") = Some v → wipe_on_restart config = _coerce_config_bool v.
Proof.
  intros H1 H2 H3.
  assert (Hm : msg_map_section config (u "database") = m).
  { unfold msg_map_section, dget_none, dget_or. rewrite H1. cbn. by rewrite H2. }
  unfold wipe_on_restart. rewrite Hm. unfold dmem, dget_none, dget_or. by rewrite H3.
Qed.

(** ** Runs on concrete inputs *)

Definition now_ {A} (a : A) : awaited A := Awaited [] (inl a).
Definition quiet_bg : bg_waits := {| bw_first := now_ tt; bw_second := now_ tt |}.
Definition quiet_thread : thread_wait := {| tw_callbacks := []; tw_cancelled := false |}.
Definition demo_cleanup (client : option bool) (touch : list callback) : cleanup :=
  {| cl_health := quiet_bg;
     cl_heartbeat := {| bw_first := Awaited touch (inl tt); bw_second := now_ tt |};
     cl_refresh := quiet_bg;
     cl_reconnect := {| rc_task := None; rc_task_wait := now_ tt; rc_future := None; rc_future_wait := now_ tt |};
     cl_remove_fails := false; cl_plugins := now_ StepTimesOut; cl_queue := now_ (StepEnds (Some EOther));
     cl_matrix := Awaited [] (inr EOther); cl_client := client; cl_mesh := Awaited [] (inr ETimeout);
     cl_executors := now_ tt; cl_wipe := None |}.
(** [drain]: the event of the drain is there, and not set yet. *)
Definition demo_startup (mesh : bool) (drain : option bool) : startup :=
  {| su_database := None; su_wipe := None; su_load := now_ tt; su_queue := inl true;
     su_mesh := now_ mesh; su_drain := drain; su_matrix := now_ true; su_joins := [];
     su_register := None; su_windows := false; su_signals := None; su_yield := now_ tt |}.
Definition demo_turn (polls : list (awaited unit)) (wait : option (awaited unit)) : sync_round :=
  {| sr_start := None; sr_polls := polls; sr_before_write := []; sr_write_fails := None;
     sr_unlink_fails := false; sr_write := quiet_thread; sr_unpublish := quiet_thread;
     sr_remove_fails := false; sr_wait := wait; sr_pending_sync := quiet_bg;
     sr_pending_shutdown := now_ tt; sr_retry := now_ tt; sr_retry_error := now_ tt;
     sr_final_sync := quiet_bg; sr_final_shutdown := now_ tt |}.
(** The drain completes at the first poll; then the synchronisation runs. *)
Definition draining_turn (wait : option (awaited unit)) : sync_round :=
  demo_turn [Awaited [DrainCompletes] (inl tt)] wait.
(** A touch of the file begins, and a signal comes in. *)
Definition signal_during_touch : option (awaited unit) :=
  Some (Awaited [HeartbeatTouches; SignalReceived] (inl tt)).

Lemma readiness_sound_witness :
  ∃ s, main true true 60 false [] (demo_startup true (Some false)) (demo_cleanup None [])
         (demo_cleanup None []) [draining_turn None] (app_init false) = (Waits, s) ∧
       a_published s = true ∧ default true (a_drain s) = true.
Proof.
  eexists. split; [vm_compute; reflexivity|].
  eapply (readiness_sound true 60 false [] (demo_startup true (Some false)) (demo_cleanup None [])
    (demo_cleanup None []) [draining_turn None]); [repeat constructor|vm_compute; reflexivity..].
Defined.

Lemma readiness_withdrawn_witness :
  ∃ s, main true true 60 false [] (demo_startup true (Some false)) (demo_cleanup None [])
         (demo_cleanup (Some true) [TouchLands false]) [draining_turn signal_during_touch] (app_init false)
       = (Returns tt, s) ∧ a_ready_file s = false.
Proof.
  eexists. split; [vm_compute; reflexivity|].
  eapply (readiness_withdrawn true 60 false [] (demo_startup true (Some false)) (demo_cleanup None [])
    (demo_cleanup (Some true) [TouchLands false]) [draining_turn signal_during_touch] (Returns tt));
    [|vm_compute; reflexivity|discriminate].
  split; [reflexivity|]. split; [reflexivity|]. split; [|reflexivity]. exists false. by left.
Defined.

(** A touch that takes longer than the five seconds puts the file back after its removal. *)
Lemma late_touch_leaves_file :
  let cl := {| cl_health := quiet_bg; cl_heartbeat := quiet_bg; cl_refresh := quiet_bg;
     cl_reconnect := cl_reconnect (demo_cleanup None []); cl_remove_fails := false;
     cl_plugins := Awaited [TouchLands false] (inl (StepEnds None)); cl_queue := now_ (StepEnds None);
     cl_matrix := now_ tt; cl_client := Some true; cl_mesh := now_ tt;
     cl_executors := now_ tt; cl_wipe := None |} in
  let '(o, s) := main true true 60 false [] (demo_startup true (Some false)) (demo_cleanup None [])
                   cl [draining_turn signal_during_touch] (app_init false) in
  o = Returns tt ∧ a_ready_file s = true.
Proof. by vm_compute. Qed.

(** A readiness file left by a process that was killed stays until the readiness of the new process
    is published or withdrawn: it is there while the components are started and the drain runs. *)
Lemma stale_file_during_start drain :
  let '(o, s) := main true true 60 false [] (demo_startup true (Some drain)) (demo_cleanup None [])
                   (demo_cleanup None []) [demo_turn [] None] (app_init true) in
  drain = false → o = Waits ∧ a_ready_file s = true ∧ a_published s = false ∧ a_drain s = Some false.
Proof. by destruct drain; vm_compute. Qed.

(** When a component fails to start, the handler of the exceptions of the loop stays installed. *)
Lemma failed_start_keeps_handler :
  ∃ s, main true true 60 false [] (demo_startup false None) (demo_cleanup None [])
         (demo_cleanup None []) [] (app_init false) = (Raises EConnection, s) ∧
       a_handler s = true ∧ RestoreHandler ∉ a_log s.
Proof.
  eexists. split; [vm_compute; reflexivity|]. split; [vm_compute; reflexivity|]. by_decide.
Qed.

Lemma demo_calm client touch : calm (demo_cleanup client touch).
Proof.
  repeat split; cbn; try discriminate; try (intros; discriminate); try reflexivity;
    try (eexists; reflexivity).
Qed.

Lemma started_is_stopped_witness :
  ∃ s, main true true 60 true [] (demo_startup true (Some false)) (demo_cleanup None [])
         (demo_cleanup (Some true) [TouchLands false]) [draining_turn signal_during_touch] (app_init false)
       = (Returns tt, s) ∧
  steps s = [WipeMessageMap; ShutdownExecutors; DisconnectBle; CloseMatrix; StopMessageQueue;
    ShutdownPlugins; UnsubscribeCallbacks; RemoveReadyFile; RestoreHandler; PublishReady;
    StartTask TSync; EnsureProcessorStarted; StartTask TRefresh; StartTask THealth; InstallSignals;
    RegisterCallbacks; ConnectMatrix; ConnectMeshtastic; StartMessageQueue; LoadPlugins;
    WipeMessageMap; InitializeDatabase; InstallHandler] ∧
  Forall (λ ar, released (steps s) ar.1 ar.2) obligations.
Proof.
  eexists. split; [vm_compute; reflexivity|]. split; [vm_compute; reflexivity|].
  eapply (started_is_stopped true true 60 true [] (demo_startup true (Some false)) (demo_cleanup None [])
    (demo_cleanup (Some true) [TouchLands false]) false [draining_turn signal_during_touch] (Returns tt));
    [apply demo_calm|apply demo_calm|vm_compute; reflexivity|discriminate].
Defined.

Lemma failed_start_reraised_witness :
  (main true true 60 false [] (demo_startup false None) (demo_cleanup None []) (demo_cleanup None [])
     [] (app_init false)).1 = Raises EConnection.
Proof.
  eapply (failed_start_reraised true true 60 false [] (demo_startup false None) (demo_cleanup None []));
    [apply demo_calm|vm_compute; reflexivity|vm_compute; reflexivity].
Defined.

Lemma sync_failures_retried_witness :
  let s := set_ready true true (app_init false) in
  let r o := demo_turn [] (Some (Awaited [TaskEnds TSync o] (inl tt))) in
  ∃ s', sync_loop true true 60 [r (Some EClient); r None; r (Some ETimeout)] s = (Waits, s') ∧
        a_log s' = [StartTask TSync; StartTask TSync; StartTask TSync].
Proof.
  intros s r. apply (sync_failures_retried true true 60 [r (Some EClient); r None; r (Some ETimeout)] s);
    [|reflexivity|reflexivity].
  assert (H : ∀ o, match o with Some e => is_sync_error e | None => true end = true → failing_turn (r o)).
  { intros o Ho. split; [reflexivity|]. split; [exists o, []; repeat split; [constructor|done]|].
    repeat split; constructor. }
  repeat constructor; by apply H.
Defined.

Lemma exit_zero_witness :
  let config := [(u "matrix", VNone); (u "meshtastic", VNone); (u "matrix_rooms", VNone)] in
  let r := main true true 60 false [] (demo_startup true (Some false)) (demo_cleanup None [])
    (demo_cleanup None []) [draining_turn signal_during_touch] (app_init false) in
  run_main config false r.1 = Some 0 ∧
  (r.1 = Raises EKeyboardInterrupt ∨
   a_fatal r.2 = None ∧
   ∃ s1 s2, interruptible_run true true 60 [draining_turn signal_during_touch] s1 = (Returns tt, s2) ∧
            a_shutdown s2 = true).
Proof.
  split; [vm_compute; reflexivity|].
  apply (exit_zero true true 60 false [] (demo_startup true (Some false)) (demo_cleanup None [])
    (demo_cleanup None []) [(u "matrix", VNone); (u "meshtastic", VNone); (u "matrix_rooms", VNone)] false).
  vm_compute. reflexivity.
Defined.
