(* ===== verification/PyLib.v ===== *)
(** * Paths, URLs and shell words of Python's standard library

    The parts of [os.path] (on POSIX), [urllib.parse] and [shlex] that the loader of plugins and the
    layout of the files rely on, on the strings of [PyStr]. *)

From Stdlib Require Import String.
From stdpp Require Import base tactics list numbers sets.
From S2P Require Import Prelude PyStr PyValue.
Open Scope Z_scope.

(** ** More string methods *)

Definition endswith (s p : pystr) : bool := startswith (reverse s) (reverse p).

(** [s.partition(c)] for one character: the part before it, whether it is there, the part after. *)
Definition partition (c : Z) (s : pystr) : pystr * bool * pystr :=
  match split1 c s with
  | (a, Some b) => (a, true, b)
  | (a, None) => (a, false, [])
  end.
(** [s.rpartition(c)] *)
Definition rpartition (c : Z) (s : pystr) : pystr * bool * pystr :=
  match split1 c (reverse s) with
  | (a, Some b) => (reverse b, true, reverse a)
  | (a, None) => ([], false, s)
  end.

(** [s.split(c)] for one character. *)
Fixpoint split_all (c : Z) (s : pystr) : list pystr :=
  match s with
  | [] => [[]]
  | d :: s' =>
      match split_all c s' with
      | w :: ws => if d =? c then [] :: w :: ws else (d :: w) :: ws
      | [] => [[d]]
      end
  end.

(** [s.split()]: at runs of white space. *)
Fixpoint words_from (cur : pystr) (s : pystr) : list pystr :=
  match s with
  | [] => if nonempty cur then [reverse cur] else []
  | c :: s' =>
      if is_space c then (if nonempty cur then reverse cur :: words_from [] s' else words_from [] s')
      else words_from (c :: cur) s'
  end.
Definition words (s : pystr) : list pystr := words_from [] s.

Definition rstrip_char (c : Z) (s : pystr) : pystr := reverse (drop_while (Z.eqb c) (reverse s)).

Definition SLASH : Z := 47.
Definition DOT : Z := 46.
Definition COLON : Z := 58.

(** ** os.path *)

Definition isabs (p : pystr) : bool := startswith p (u "/").

(** [os.path.join(a, b)] *)
Definition path_join (a b : pystr) : pystr :=
  if isabs b then b
  else if negb (nonempty a) || endswith a (u "/") then a ++ b
  else a ++ [SLASH] ++ b.

(** The part up to and with the last slash, and the part after it. *)
Definition split_last (p : pystr) : pystr * pystr :=
  match rpartition SLASH p with
  | (a, true, b) => (a ++ [SLASH], b)
  | _ => ([], p)
  end.
Definition basename (p : pystr) : pystr := (split_last p).2.
Definition dirname (p : pystr) : pystr :=
  let head := (split_last p).1 in
  if forallb (Z.eqb SLASH) head then head else rstrip_char SLASH head.

(** [os.path.splitext] of a name without slashes: dots in front do not start an extension. *)
Definition splitext (p : pystr) : pystr * pystr :=
  let stem := drop_while (Z.eqb DOT) p in
  match rpartition DOT stem with
  | (a, true, b) => (take (length p - length stem) p ++ a, DOT :: b)
  | _ => (p, [])
  end.

(** The components of [normpath]; [up]: leading [..] are kept, in a relative path. *)
Fixpoint norm_comps (up : bool) (acc : list pystr) (l : list pystr) : list pystr :=
  match l with
  | [] => reverse acc
  | c :: l =>
      if negb (nonempty c) || str_eqb c (u ".") then norm_comps up acc l
      else if str_eqb c (u "..") then
        match acc with
        | [] => if up then norm_comps up [c] l else norm_comps up [] l
        | a :: acc' => if str_eqb a (u "..") then norm_comps up (c :: acc) l else norm_comps up acc' l
        end
      else norm_comps up (c :: acc) l
  end.
(** [os.path.normpath] *)
Definition normpath (p : pystr) : pystr :=
  let slashes :=
    if startswith p (u "//") && negb (startswith p (u "///")) then u "//"
    else if isabs p then u "/" else [] in
  let r := slashes ++ join [SLASH] (norm_comps (negb (isabs p)) [] (split_all SLASH p)) in
  if nonempty r then r else u ".".
(** [os.path.abspath], in the directory [cwd]. *)
Definition abspath (cwd p : pystr) : pystr := normpath (if isabs p then p else path_join cwd p).

Definition path_comps (p : pystr) : list pystr :=
  filter (λ c, nonempty c && negb (str_eqb c (u ".")) = true) (split_all SLASH p).
Fixpoint common_prefix (a b : list pystr) : list pystr :=
  match a, b with
  | x :: a, y :: b => if str_eqb x y then x :: common_prefix a b else []
  | _, _ => []
  end.
(** [os.path.commonpath([a, b])] of two absolute paths. *)
Definition commonpath (a b : pystr) : pystr :=
  SLASH :: join [SLASH] (common_prefix (path_comps a) (path_comps b)).

(** ** urllib.parse *)

Section url.
(** The checks of a host in brackets, and of a network location that is not ASCII, of the release at
    hand. *)
Context (bracketed_ok netloc_ok : pystr → bool).

Record split_result := {
  ur_scheme : pystr; ur_netloc : pystr; ur_path : pystr; ur_query : pystr; ur_fragment : pystr }.

Definition ascii_alpha (c : Z) : bool := between 65 90 c || between 97 122 c.
Definition scheme_char (c : Z) : bool :=
  ascii_alpha c || between 48 57 c || (c =? 43) || (c =? 45) || (c =? 46).

(** The control characters and the space in front, and the tabs and line ends anywhere. *)
Definition sanitize_url (url : pystr) : pystr :=
  filter (λ c, negb ((c =? 9) || (c =? 10) || (c =? 13)) = true) (drop_while (between 0 32) url).

Definition url_scheme (url : pystr) : pystr * pystr :=
  match split1 COLON url with
  | (c :: a, Some rest) =>
      if ascii_alpha c && forallb scheme_char (c :: a) then (lower (c :: a), rest) else ([], url)
  | _ => ([], url)
  end.

Definition netloc_end (c : Z) : bool := (c =? 47) || (c =? 63) || (c =? 35).

Definition urlsplit (url : pystr) : res split_result :=
  let '(scheme, url) := url_scheme (sanitize_url url) in
  let '(netloc, url) :=
    match url with
    | 47 :: 47 :: r => (take_while (λ c, negb (netloc_end c)) r, drop_while (λ c, negb (netloc_end c)) r)
    | _ => ([], url)
    end in
  let open := bool_decide (91 ∈ netloc) in
  let close := bool_decide (93 ∈ netloc) in
  if xorb open close then Raise ValueError
  else if open && close && negb (bracketed_ok netloc) then Raise ValueError
  else if negb (forallb (between 0 127) netloc) && negb (netloc_ok netloc) then Raise ValueError
  else
    let '(url, _, fragment) := partition 35 url in
    let '(path, _, query) := partition 63 url in
    Ok {| ur_scheme := scheme; ur_netloc := netloc; ur_path := path; ur_query := query;
          ur_fragment := fragment |}.

(** [hostname], with the empty string for None: without the user and the port, in lower case up to
    the zone of an IPv6 address. *)
Definition url_hostname (r : split_result) : pystr :=
  let '(_, _, hostinfo) := rpartition 64 (ur_netloc r) in
  let '(before, have_open_br, bracketed) := partition 91 hostinfo in
  let host :=
    if have_open_br then (partition 93 bracketed).1.1 else (partition COLON hostinfo).1.1 in
  let '(name, percent, zone) := partition 37 host in
  lower name ++ (if percent then 37 :: zone else []).
End url.

(** ** shlex *)

(** The states of the lexer: between words, in a word, in a quoted part, after a backslash (in a
    quoted part or not). *)
Inductive lex_state := LexSpace | LexWord | LexQuote (q : Z) | LexEscape (q : option Z).

Definition lex_space (c : Z) : bool := (c =? 32) || (c =? 9) || (c =? 13) || (c =? 10).
Definition lex_quote (c : Z) : bool := (c =? 39) || (c =? 34).

(** The words read so far, the latest first, with the word at hand. *)
Definition lex_emit (token : pystr) (quoted : bool) (acc : list pystr) : list pystr :=
  if nonempty token || quoted then reverse token :: acc else acc.

(** [shlex.split(s, posix=True, comments=True)] of one line; [token]: the word at hand, reversed;
    [quoted]: a part of it was quoted. *)
Fixpoint lex (s : pystr) (st : lex_state) (token : pystr) (quoted : bool) (acc : list pystr)
    : res (list pystr) :=
  match s with
  | [] =>
      match st with
      | LexSpace | LexWord => Ok (reverse (lex_emit token quoted acc))
      | LexQuote _ | LexEscape _ => Raise ValueError
      end
  | c :: s =>
      match st with
      | LexSpace | LexWord =>
          if lex_space c then lex s LexSpace [] false (lex_emit token quoted acc)
          else if c =? 35 then
            (* the rest of the line is a comment *)
            Ok (reverse (lex_emit token quoted acc))
          else if c =? 92 then lex s (LexEscape None) token quoted acc
          else if lex_quote c then lex s (LexQuote c) token true acc
          else lex s LexWord (c :: token) quoted acc
      | LexQuote q =>
          if c =? q then lex s LexWord token true acc
          else if (c =? 92) && (q =? 34) then lex s (LexEscape (Some q)) token true acc
          else lex s (LexQuote q) (c :: token) true acc
      | LexEscape None => lex s LexWord (c :: token) quoted acc
      | LexEscape (Some q) =>
          lex s (LexQuote q) (if (c =? 92) || (c =? q) then c :: token else c :: 92 :: token) true acc
      end
  end.
Definition shlex_split (s : pystr) : res (list pystr) := lex s LexSpace [] false [].

(** ** Lemmas *)

Lemma endswith_spec s p : endswith s p = true ↔ ∃ t, s = t ++ p.
Proof.
  unfold endswith. rewrite startswith_spec. split.
  - intros [t Ht]. exists (reverse t). apply (f_equal reverse) in Ht.
    by rewrite reverse_involutive, reverse_app, reverse_involutive in Ht.
  - intros [t ->]. exists (reverse t). by rewrite reverse_app.
Qed.

Lemma contains_spec s p : contains s p = true ↔ ∃ a b, s = a ++ p ++ b.
Proof.
  induction s as [|c s IH]; cbn [contains]; rewrite orb_true_iff, startswith_spec.
  - split; [intros [[t Ht]|]; [|done]; by exists [], t|].
    intros (a & b & H). left. destruct a; [by exists b|done].
  - rewrite IH. split.
    + intros [[t ->]|(a & b & ->)]; [by exists [], t|by exists (c :: a), b].
    + intros (a & b & H). destruct a as [|d a]; [left; by exists b|right]. injection H as -> ->. by exists a, b.
Qed.
Lemma contains_char s c : contains s [c] = true ↔ c ∈ s.
Proof.
  rewrite contains_spec. split.
  - intros (a & b & ->). apply elem_of_app. right. by left.
  - intros (a & b & ->)%list_elem_of_split. by exists a, b.
Qed.

Lemma split_all_nonempty c s : split_all c s ≠ [].
Proof. destruct s as [|d s]; cbn; [done|]. by destruct (split_all c s); destruct (d =? c). Qed.

Lemma split_all_cons c s : ∃ w ws, split_all c s = w :: ws.
Proof. destruct (split_all c s) as [|w ws] eqn:E; [by apply split_all_nonempty in E|eauto]. Qed.

Lemma split_all_last c s t : c ∉ t → split_all c (s ++ c :: t) = split_all c s ++ [t].
Proof.
  intros Ht.
  assert (Hw : ∀ t, c ∉ t → split_all c t = [t]).
  { clear. induction t as [|d t IH]; intros Ht; [done|]. apply not_elem_of_cons in Ht as [Hd Ht].
    cbn. rewrite IH by done. destruct (d =? c) eqn:E; [lia|done]. }
  induction s as [|d s IH]; cbn [app split_all].
  - rewrite Hw by done. by rewrite Z.eqb_refl.
  - rewrite IH. destruct (split_all_cons c s) as (w & ws & ->). cbn. by destruct (d =? c).
Qed.

Lemma split_all_single c t : c ∉ t → split_all c t = [t].
Proof.
  induction t as [|d t IH]; intros Ht; [done|]. apply not_elem_of_cons in Ht as [Hd Ht].
  cbn. rewrite IH by done. destruct (d =? c) eqn:E; [lia|done].
Qed.

Lemma join_snoc c l w : l ≠ [] → join [c] (l ++ [w]) = join [c] l ++ c :: w.
Proof.
  destruct l as [|v l]; [done|]. intros _. revert v.
  induction l as [|x l IH]; intros v; [done|]. cbn [join app] in *. rewrite IH. by rewrite <- !app_assoc.
Qed.

(** Splitting is the inverse of joining, for parts without the separator. *)
Lemma split_all_join c l : l ≠ [] → Forall (λ w, c ∉ w) l → split_all c (join [c] l) = l.
Proof.
  induction l as [|w l IH] using rev_ind; intros Hne Hl; [done|]. apply Forall_app in Hl as [Hl Hw].
  apply Forall_inv in Hw. destruct l as [|v l]; [by apply split_all_single|].
  rewrite join_snoc, split_all_last by done. by rewrite IH.
Qed.

(** A component of a canonical path. *)
Definition good_comp (c : pystr) : Prop := c ≠ [] ∧ c ≠ u "." ∧ SLASH ∉ c.
Definition canonical (p : pystr) (l : list pystr) : Prop := Forall good_comp l ∧ p = SLASH :: join [SLASH] l.

Lemma canonical_comps p l : canonical p l → path_comps p = l.
Proof.
  intros [Hl ->]. unfold path_comps. cbn [split_all].
  assert (Hf : filter (λ c, nonempty c && negb (str_eqb c (u ".")) = true) l = l).
  { induction Hl as [|c l (H1 & H2 & _) _ IH]; [done|]. rewrite filter_cons_True, IH; [done|].
    apply andb_true_iff. split; [by apply nonempty_spec|]. apply negb_true_iff. unfold str_eqb. by apply bool_decide_eq_false. }
  destruct l as [|w l]; [done|]. rewrite split_all_join.
  - cbn [Z.eqb]. rewrite (Z.eqb_refl SLASH). rewrite filter_cons_False; [done|by vm_compute].
  - done.
  - eapply Forall_impl; [done|]. by intros c (_ & _ & H).
Qed.

Lemma canonical_inj p l1 l2 : canonical p l1 → canonical p l2 → l1 = l2.
Proof. intros H1 H2. by rewrite <- (canonical_comps p l1), <- (canonical_comps p l2). Qed.

Lemma common_prefix_spec a b : common_prefix a b `prefix_of` a ∧ common_prefix a b `prefix_of` b.
Proof.
  revert b. induction a as [|x a IH]; intros [|y b]; cbn; try (split; apply prefix_nil).
  destruct (str_eqb x y) eqn:E; [|split; apply prefix_nil]. apply str_eqb_spec in E as <-.
  destruct (IH b). split; by apply prefix_cons.
Qed.
Lemma common_prefix_all a b : common_prefix a (a ++ b) = a.
Proof. induction a as [|x a IH]; cbn; [by destruct b|]. by rewrite str_eqb_refl, IH. Qed.

Lemma commonpath_canonical p q a b :
  canonical p a → canonical q b → canonical (commonpath p q) (common_prefix a b).
Proof.
  intros Hp Hq. unfold commonpath. rewrite (canonical_comps p a), (canonical_comps q b) by done.
  split; [|done]. destruct (common_prefix_spec a b) as [[k Hk] _]. destruct Hp as [Ha _].
  rewrite Hk in Ha. by apply Forall_app in Ha as [Ha _].
Qed.

Lemma norm_comps_last up acc l c :
  c ≠ [] → c ≠ u "." → c ≠ u ".." → norm_comps up acc (l ++ [c]) = norm_comps up acc l ++ [c].
Proof.
  intros H1 H2 H3.
  assert (E : negb (nonempty c) || str_eqb c (u ".") = false ∧ str_eqb c (u "..") = false).
  { destruct c; [done|]. cbn [nonempty negb orb]. unfold str_eqb. by rewrite !bool_decide_eq_false. }
  destruct E as [E1 E2].
  revert acc. induction l as [|d l IH]; intros acc; cbn [app norm_comps].
  - rewrite E1, E2. cbn [norm_comps]. by rewrite reverse_cons.
  - destruct (negb (nonempty d) || str_eqb d (u ".")); [apply IH|].
    destruct (str_eqb d (u "..")); [|apply IH]. destruct acc as [|a acc]; [by destruct up|].
    destruct (str_eqb a (u "..")); apply IH.
Qed.

Lemma norm_comps_good acc l :
  Forall good_comp l → Forall (λ c, c ≠ u "..") l → norm_comps false acc l = reverse acc ++ l.
Proof.
  intros Hl. revert acc. induction Hl as [|c l (H1 & H2 & _) _ IH]; intros acc Hdd; cbn [norm_comps].
  - by rewrite app_nil_r.
  - apply Forall_cons in Hdd as [Hc Hdd]. destruct (nonempty c) eqn:E; [|by destruct c].
    unfold str_eqb. rewrite !bool_decide_eq_false_2 by done. cbn [negb orb].
    rewrite IH by done. by rewrite reverse_cons, <- app_assoc.
Qed.

(** A canonical path other than the root does not end with a slash. *)
Lemma canonical_no_slash_end p l : canonical p l → l ≠ [] → endswith p (u "/") = false.
Proof.
  intros [Hl ->] Hne. destruct (endswith _ _) eqn:E; [|done]. exfalso.
  apply endswith_spec in E as [t Ht]. change (u "/") with [SLASH] in Ht.
  destruct l as [|w l _] using rev_ind; [done|]. clear Hne.
  apply Forall_app in Hl as [_ Hw]. apply Forall_inv in Hw as (Hw1 & _ & Hw3).
  assert (Hj : ∃ p, SLASH :: join [SLASH] (l ++ [w]) = p ++ w).
  { destruct l as [|v l]; [by exists [SLASH]|]. exists (SLASH :: join [SLASH] (v :: l) ++ [SLASH]).
    rewrite join_snoc by done. cbn. by rewrite <- app_assoc. }
  destruct Hj as [p Hp]. rewrite Hp in Ht.
  destruct w as [|c w _] using rev_ind; [done|]. rewrite app_assoc in Ht. apply app_inj_tail in Ht as [_ ->].
  apply Hw3. apply elem_of_app. right. by left.
Qed.

Lemma isabs_slash p : isabs p = true ↔ ∃ q, p = SLASH :: q.
Proof. unfold isabs. rewrite startswith_spec. change (u "/") with [SLASH]. done. Qed.

(** Joining a canonical directory and a name without a slash. *)
Lemma path_join_child p l name :
  canonical p l → l ≠ [] → SLASH ∉ name → path_join p name = p ++ SLASH :: name.
Proof.
  intros Hp Hne Hn. unfold path_join. destruct (isabs name) eqn:E.
  { apply isabs_slash in E as [q ->]. exfalso. apply Hn. by left. }
  rewrite (canonical_no_slash_end p l) by done. by destruct Hp as [_ ->].
Qed.

Lemma normpath_canonical p l :
  canonical p l → Forall (λ c, c ≠ u "..") l → normpath p = p.
Proof.
  intros [Hl ->] Hdd. unfold normpath.
  assert (Hss : startswith (SLASH :: join [SLASH] l) (u "//") = false).
  { destruct l as [|w l]; [done|]. apply Forall_cons in Hl as [(H1 & _ & H3) _]. destruct w as [|c w]; [done|].
    change (u "//") with [SLASH; SLASH]. destruct (startswith _ _) eqn:E; [|done]. exfalso. apply H3.
    apply startswith_spec in E as [t Ht]. destruct l; injection Ht as -> _; by left. }
  assert (Habs : isabs (SLASH :: join [SLASH] l) = true) by (apply isabs_slash; eauto).
  rewrite Hss, Habs. cbn [andb negb split_all].
  destruct l as [|w l]; [done|]. rewrite split_all_join.
  2: done.
  2: eapply Forall_impl; [exact Hl|by intros ? (_ & _ & ?)].
  rewrite Z.eqb_refl. change (u "/") with [SLASH]. change (norm_comps false [] ([] :: w :: l)) with (norm_comps false [] (w :: l)).
  by rewrite norm_comps_good.
Qed.

Lemma canonical_child p l name :
  canonical p l → l ≠ [] → good_comp name → canonical (p ++ SLASH :: name) (l ++ [name]).
Proof.
  intros [Hl ->] Hne Hn. split; [by apply Forall_app; split; [|constructor]|]. by rewrite join_snoc.
Qed.
