(* ===== verification/PluginSecurity.v ===== *)
(** * What plugins may be fetched and installed

    Models the checks of [plugin_loader.py] on what the configuration and the repositories name:
    plugin names and paths, repository URLs and references, requirement files and the filter of
    risky requirements, with the constants of [constants/plugins.py].

    The file system is given where it is read: [files] for requirement files, [exists_] and
    [realpath] for paths. *)

From Stdlib Require Import String.
From stdpp Require Import base tactics list numbers gmap sets fin_sets fin_map_dom.
From S2P Require Import Prelude PyStr PyValue PyLib.
Open Scope Z_scope.

(** ** Names and paths *)

(** On POSIX the separators tested are a slash and a backslash. *)
Definition _is_safe_plugin_name (name : pystr) : bool :=
  if negb (nonempty name) || negb (nonempty (strip name)) then false
  else if contains name (u "/") || contains name [92] then false
  else if contains name (u "..") then false
  else negb (isabs name).

Definition _is_path_contained (realpath : pystr → pystr) (root child : pystr) : bool :=
  let root_normalized := realpath root in
  let child_normalized := realpath child in
  let common := commonpath root_normalized child_normalized in
  str_eqb common root_normalized && negb (str_eqb child_normalized root_normalized).

Definition _should_ignore_plugin_file (filename : pystr) : bool :=
  startswith filename (u ".") ||
  (startswith filename (u "test_") && endswith filename (u ".py") &&
   (length (u "test_.py") <=? length filename)%nat) ||
  (endswith filename (u "_test.py")) ||
  str_eqb filename (u "conftest.py") || str_eqb filename (u "__init__.py").

Definition PLUGIN_IGNORED_DIR_NAMES : list pystr :=
  [u "tests"; u ".tests"; u "__pycache__"; u ".git"; u ".pytest_cache"].
Definition visited_dir (d : pystr) : bool :=
  negb (bool_decide (d ∈ PLUGIN_IGNORED_DIR_NAMES)) && negb (startswith d (u ".")).

(** ** Settings *)

Definition _get_security_settings (config : pyval) : pydict :=
  match config with
  | VDict d => match dget_or d (u "security") (VDict []) with VDict s => s | _ => [] end
  | _ => []
  end.

Definition DEFAULT_ALLOWED_COMMUNITY_HOSTS : list pystr :=
  [u "github.com"; u "gitlab.com"; u "codeberg.org"; u "bitbucket.org"].

Definition host_entry (v : pyval) : option pystr :=
  match v with
  | VStr h => if nonempty (strip h) then Some (lower (strip h)) else None
  | _ => None
  end.

Definition _get_allowed_repo_hosts (config : pyval) : list pystr :=
  match dget_none (_get_security_settings config) (u "community_repo_hosts") with
  | VNone => DEFAULT_ALLOWED_COMMUNITY_HOSTS
  | VStr h => omap host_entry [VStr h]
  | VSeq KList l => omap host_entry l
  | _ => DEFAULT_ALLOWED_COMMUNITY_HOSTS
  end.

Definition _allow_local_plugin_paths (config : pyval) : bool :=
  truthy (dget_or (_get_security_settings config) (u "allow_local_plugin_paths") (VBool false)).

Definition allow_untrusted_dependencies (config : pyval) : bool :=
  truthy (dget_or (_get_security_settings config) (u "allow_untrusted_dependencies") (VBool false)).

(** ** Repository URLs *)

Definition _host_in_allowlist (host : pystr) (allowlist : list pystr) : bool :=
  let host := lower host in
  if negb (nonempty host) then false
  else existsb (λ allowed,
         let allowed := lower allowed in
         str_eqb host allowed || endswith host (DOT :: allowed)) allowlist.

Section urls.
Context (bracketed_ok netloc_ok : pystr → bool).
Abbreviation split_url := (urlsplit bracketed_ok netloc_ok).

Definition _normalize_repo_target (repo_url : pystr) : res (pystr * pystr) :=
  let repo_url := strip repo_url in
  if startswith repo_url (u "git@") then
    let '(_, _, host_and_path) := partition 64 repo_url in
    let '(host, _, _) := partition COLON host_and_path in
    Ok (u "ssh", lower host)
  else
    let! parsed := split_url repo_url in
    let scheme := lower (ur_scheme parsed) in
    let host := lower (url_hostname parsed) in
    Ok (if bool_decide (scheme ∈ [u "git+ssh"; u "ssh+git"]) then u "ssh" else scheme, host).

(** [exists_]: [os.path.exists]. *)
Definition _is_repo_url_allowed (config : pyval) (exists_ : pystr → bool) (repo_url : pystr) : res bool :=
  let repo_url := strip repo_url in
  if negb (nonempty repo_url) then Ok false
  else if startswith repo_url (u "-") then Ok false
  else
    let! target := _normalize_repo_target repo_url in
    let scheme := target.1 in
    let host := target.2 in
    if negb (nonempty scheme) then Ok (_allow_local_plugin_paths config && exists_ repo_url)
    else if str_eqb scheme (u "file") then Ok (_allow_local_plugin_paths config)
    else if str_eqb scheme (u "http") then Ok false
    else if negb (bool_decide (scheme ∈ [u "https"; u "ssh"])) then Ok false
    else Ok (_host_in_allowlist host (_get_allowed_repo_hosts config)).

(** ** References *)

Definition hex_char (c : Z) : bool := between 48 57 c || between 97 102 c || between 65 70 c.
Definition alnum_char (c : Z) : bool := ascii_alpha c || between 48 57 c.

(** [COMMIT_HASH_PATTERN.fullmatch] *)
Definition COMMIT_HASH_PATTERN (s : pystr) : bool :=
  forallb hex_char s && (7 <=? length s)%nat && (length s <=? 40)%nat.
(** [REF_NAME_PATTERN.fullmatch] *)
Definition REF_NAME_PATTERN (s : pystr) : bool :=
  match s with
  | [] => false
  | c :: s => alnum_char c &&
              forallb (λ c, alnum_char c || (c =? 46) || (c =? 95) || (c =? 47) || (c =? 45)) s
  end.

Definition _is_full_commit_sha (value : pystr) : bool :=
  forallb hex_char (strip value) && (length (strip value) =? 40)%nat.

Definition _get_repo_name_from_url (repo_url : pystr) : res (option pystr) :=
  if negb (nonempty repo_url) then Ok None
  else
    let! parsed := split_url repo_url in
    let raw_path :=
      if nonempty (ur_path parsed) then ur_path parsed
      else if startswith repo_url (u "git@") && bool_decide (COLON ∈ repo_url)
           then (partition COLON repo_url).2
           else repo_url in
    let repo_name := (splitext (basename (rstrip_char SLASH raw_path))).1 in
    Ok (if nonempty repo_name then Some repo_name else None).

Inductive ref_type := RefTag | RefBranch | RefCommit.
#[export] Instance ref_type_eq_dec : EqDecision ref_type.
Proof. solve_decision. Defined.
Definition ref_type_of (s : pystr) : option ref_type :=
  if str_eqb s (u "tag") then Some RefTag
  else if str_eqb s (u "branch") then Some RefBranch
  else if str_eqb s (u "commit") then Some RefCommit else None.

(** A valid result; None is the one with [is_valid] false. *)
Record ValidationResult := {
  vr_repo_url : pystr; vr_ref_type : ref_type; vr_ref_value : pystr; vr_repo_name : pystr }.

Definition _validate_clone_inputs (config : pyval) (exists_ : pystr → bool)
    (repo_url type_ value : pystr) : res (option ValidationResult) :=
  let repo_url := strip repo_url in
  let ref_value := strip value in
  let! allowed := _is_repo_url_allowed config exists_ repo_url in
  if negb allowed then Ok None else
  match ref_type_of type_ with
  | None => Ok None
  | Some t =>
      if negb (nonempty ref_value) then Ok None
      else if startswith ref_value (u "-") then Ok None
      else if negb (match t with RefCommit => COMMIT_HASH_PATTERN ref_value
                    | _ => REF_NAME_PATTERN ref_value end) then Ok None
      else
        let! repo_name := _get_repo_name_from_url repo_url in
        match repo_name with
        | None => Ok None
        | Some n => Ok (Some {| vr_repo_url := repo_url; vr_ref_type := t; vr_ref_value := ref_value;
                                vr_repo_name := n |})
        end
  end.
End urls.

(** ** Requirement files *)

(** The lines of a file that is there, and how reading it ends. *)
Inductive read_end := ReadComplete | ReadOSError | ReadDecodeError.
Record req_file := { rq_lines : list pystr; rq_end : read_end }.

(** What a line asks for. *)
Inductive req_line := ReqSkip | ReqNested (path : pystr) | ReqEntry (line : pystr).

Fixpoint cut_comment (s : pystr) : pystr :=
  match s with
  | 32 :: 35 :: _ => []
  | c :: s => c :: cut_comment s
  | [] => []
  end.

(** [line.split(None, 1)[1].strip()], None when there is one word only. *)
Definition second_word (line : pystr) : option pystr :=
  let rest := strip (drop_while (λ c, negb (is_space c)) (strip line)) in
  if nonempty rest then Some rest else None.

Definition req_line_of (raw_line : pystr) : req_line :=
  let line := strip raw_line in
  if negb (nonempty line) || startswith line (u "#") then ReqSkip else
  let line := if contains line (u " #") then strip (cut_comment line) else line in
  if negb (nonempty line) then ReqSkip else
  let lower_line := lower line in
  if startswith lower_line (u "--requirement=") || startswith lower_line (u "--constraint=") then
    ReqNested (strip (partition 61 line).2)
  else if startswith lower_line (u "-r ") || startswith lower_line (u "--requirement ") ||
          startswith lower_line (u "-c ") || startswith lower_line (u "--constraint ") then
    match second_word line with Some p => ReqNested p | None => ReqSkip end
  else if bool_decide (lower_line ∈ [u "-r"; u "-c"; u "--requirement"; u "--constraint"]) then ReqSkip
  else ReqEntry line.

Section collect.
(** [files]: the readable files by absolute path; [cwd]: the working directory. *)
Context (files : gmap pystr req_file) (cwd : pystr).

(** The lines of one file, [nested] collecting the files it names; [visited] is shared by all. *)
Section one_file.
Context (nested : pystr → gset pystr → option (res (list pystr) * gset pystr)) (base_dir : pystr).
Fixpoint collect_lines (lines : list pystr) (visited : gset pystr)
    : option (res (list pystr) * gset pystr) :=
  match lines with
  | [] => Some (Ok [], visited)
  | raw_line :: lines =>
      match req_line_of raw_line with
      | ReqSkip => collect_lines lines visited
      | ReqEntry line =>
          match collect_lines lines visited with
          | Some (r, visited) => Some ((let! l := r in Ok (line :: l)), visited)
          | None => None
          end
      | ReqNested path =>
          match nested (if isabs path then path else path_join base_dir path) visited with
          | Some (Ok l1, visited) =>
              match collect_lines lines visited with
              | Some (r, visited) => Some ((let! l := r in Ok (l1 ++ l)), visited)
              | None => None
              end
          | r => r
          end
      end
  end.
End one_file.

(** None: the fuel was not enough.  An OSError while reading gives no lines, a file that is no UTF-8
    raises (UnicodeDecodeError is a ValueError). *)
Fixpoint _collect_requirements (fuel : nat) (requirements_file : pystr) (visited : gset pystr)
    : option (res (list pystr) * gset pystr) :=
  match fuel with
  | O => None
  | S fuel =>
      let normalized_path := abspath cwd requirements_file in
      if bool_decide (normalized_path ∈ visited) then Some (Ok [], visited)
      else
        let visited := {[normalized_path]} ∪ visited in
        match files !! normalized_path with
        | None => Some (Ok [], visited)
        | Some f =>
            match collect_lines (_collect_requirements fuel) (dirname normalized_path) (rq_lines f) visited with
            | Some (Ok l, visited) =>
                match rq_end f with
                | ReadComplete => Some (Ok l, visited)
                | ReadOSError => Some (Ok [], visited)
                | ReadDecodeError => Some (Raise ValueError, visited)
                end
            | r => r
            end
        end
  end.
End collect.

(** ** Risky requirements *)

Definition RISKY_REQUIREMENT_PREFIXES : list pystr :=
  [u "git+"; u "ssh://"; u "git://"; u "hg+"; u "bzr+"; u "svn+"; u "http://"; u "https://"].
Definition PIP_SOURCE_FLAGS : list pystr :=
  [u "-e"; u "--editable"; u "-f"; u "--find-links"; u "-i"; u "--index-url"; u "--extra-index-url"].
(** The characters of the flags of one character: e, f and i. *)
Definition PIP_SHORT_SOURCE_FLAGS : list Z := [101; 102; 105].

Definition _is_requirement_risky (req_string : pystr) : bool :=
  existsb (startswith (lower req_string)) RISKY_REQUIREMENT_PREFIXES ||
  (contains req_string (u "@") && contains req_string (u "://")).

(** Whether a token makes its line risky. *)
Definition risky_token (token : pystr) : bool :=
  if startswith token (u "-") && contains token (u "=") then
    let '(flag_name, _, flag_value) := partition 61 token in
    bool_decide (lower flag_name ∈ PIP_SOURCE_FLAGS) && _is_requirement_risky flag_value
  else
    match token with
    | 45 :: c :: flag_value =>
        if negb (c =? 45) && nonempty flag_value && bool_decide (c ∈ PIP_SHORT_SOURCE_FLAGS)
        then _is_requirement_risky flag_value
        else negb (bool_decide (lower token ∈ PIP_SOURCE_FLAGS)) && _is_requirement_risky token
    | _ => negb (bool_decide (lower token ∈ PIP_SOURCE_FLAGS)) && _is_requirement_risky token
    end.

Fixpoint _filter_risky_requirement_lines (requirement_lines : list pystr)
    : res (list pystr * list pystr) :=
  match requirement_lines with
  | [] => Ok ([], [])
  | line :: lines =>
      let! tokens := shlex_split line in
      let! r := _filter_risky_requirement_lines lines in
      match tokens with
      | [] => Ok r
      | _ => if existsb risky_token tokens then Ok (r.1, line :: r.2) else Ok (line :: r.1, r.2)
      end
  end.

(** [requirements_lines]: what [_collect_requirements] gave. *)
Definition _effective_requirements_for_repo (config : pyval) (requirements_lines : list pystr)
    : res (list pystr * list pystr) :=
  let! r := _filter_risky_requirement_lines requirements_lines in
  let '(safe_requirements, flagged_requirements) := r in
  Ok (if allow_untrusted_dependencies config then safe_requirements ++ flagged_requirements
      else safe_requirements, flagged_requirements).

Definition _installable_requirement_lines (requirements : list pystr) : list pystr :=
  filter (λ r, negb (startswith r (u "-")) = true) requirements.

(** ** Links to repositories *)

(** [([^/]+?)(?:\.git)?/?$]: the name of a repository at the end of a path. *)
Definition repo_segment (s : pystr) : option pystr :=
  let s := if endswith s (u "/") then take (length s - 1) s else s in
  let s := if endswith s (u ".git") && (4 <? length s)%nat then take (length s - 4) s else s in
  if nonempty s && negb (bool_decide (SLASH ∈ s)) then Some s else None.

(** [host], [owner] and [repo_name] *)
Definition _get_repo_host_info (bracketed_ok netloc_ok : pystr → bool) (repo_url : pystr)
    : res (option (pystr * pystr * pystr)) :=
  let trimmed_url := strip repo_url in
  if negb (nonempty trimmed_url) then Ok None else
  let owner_and_repo (host s : pystr) :=
    match partition SLASH s with
    | (owner, true, repo) =>
        match repo_segment repo with
        | Some repo_name => if nonempty owner && nonempty host then Some (lower host, owner, repo_name) else None
        | None => None
        end
    | _ => None
    end in
  let ssh :=
    match trimmed_url with
    | 103 :: 105 :: 116 :: 64 :: r =>
        match partition COLON r with (host, true, s) => owner_and_repo host s | _ => None end
    | _ => None
    end in
  match ssh with
  | Some i => Ok (Some i)
  | None =>
      let! parsed := urlsplit bracketed_ok netloc_ok trimmed_url in
      match strip (ur_path parsed) with
      | 47 :: s => Ok (owner_and_repo (url_hostname parsed) s)
      | _ => Ok None
      end
  end.

Definition _build_compare_url (bracketed_ok netloc_ok : pystr → bool) (repo_url base_sha head_sha : pystr)
    : res (option pystr) :=
  if negb (nonempty base_sha) || negb (nonempty head_sha) then Ok None else
  let! repo_info := _get_repo_host_info bracketed_ok netloc_ok repo_url in
  Ok match repo_info with
     | Some (host, owner, repo_name) =>
         if str_eqb host (u "github.com")
         then Some (u "https://github.com/" ++ owner ++ u "/" ++ repo_name ++ u "/compare/" ++ base_sha
                      ++ u "..." ++ head_sha)
         else None
     | None => None
     end.

(** Checks of the functions on concrete inputs. *)
Definition no_check (_ : pystr) : bool := true.
Example allowed_https :
  _is_repo_url_allowed no_check no_check VNone (λ _, false) (u " https://GitHub.com:443/a/b.git") = Ok true.
Proof. by vm_compute. Qed.
Example allowed_scp :
  _is_repo_url_allowed no_check no_check VNone (λ _, false) (u "git@gitlab.com:a/b") = Ok true.
Proof. by vm_compute. Qed.
Example not_allowed_userinfo :
  _is_repo_url_allowed no_check no_check VNone (λ _, false) (u "https://github.com@evil.org/a") = Ok false.
Proof. by vm_compute. Qed.
Example split_words :
  shlex_split (u "foo 'a b'c x\ y # no") = Ok [u "foo"; u "a bc"; u "x y"].
Proof. by vm_compute. Qed.
Example compare_link :
  _build_compare_url no_check no_check (u "git@github.com:o/r.git") (u "a") (u "b")
  = Ok (Some (u "https://github.com/o/r/compare/a...b")).
Proof. by vm_compute. Qed.

(** ** Paths of plugins *)

(** A plugin is taken from a directory only if its real path lies strictly below that of the
    directory: its components are those of the directory and at least one more.  A symbolic link
    that leads elsewhere, or to the directory itself, is refused. *)
Theorem contained_exact realpath root child r c :
  canonical (realpath root) r → canonical (realpath child) c →
  (_is_path_contained realpath root child = true ↔ ∃ k, k ≠ [] ∧ c = r ++ k).
Proof.
  intros Hr Hc. unfold _is_path_contained. rewrite andb_true_iff, negb_true_iff, str_eqb_spec.
  assert (Hp := commonpath_canonical _ _ r c Hr Hc). split.
  - intros [He Hne]. assert (E : common_prefix r c = r).
    { rewrite He in Hp. by eapply canonical_inj. }
    destruct (common_prefix_spec r c) as [_ [k Hk]]. rewrite E in Hk. exists k. split; [|done].
    intros ->. rewrite app_nil_r in Hk. subst c. destruct Hr as [_ Hr], Hc as [_ Hc].
    by rewrite Hr, Hc, str_eqb_refl in Hne.
  - intros (k & Hk & ->). rewrite common_prefix_all in Hp. split.
    + destruct Hp as [_ ->]. by destruct Hr as [_ ->].
    + apply not_true_iff_false. rewrite str_eqb_spec. intros He. rewrite He in Hc.
      apply Hk, (app_inv_head r). rewrite app_nil_r. by eapply canonical_inj.
Qed.

Lemma safe_name_spec name : _is_safe_plugin_name name = true →
  name ≠ [] ∧ (SLASH ∉ name) ∧ (92 ∉ name) ∧ name ≠ u "..".
Proof.
  unfold _is_safe_plugin_name. destruct (nonempty name) eqn:E1; [|done]. cbn [negb orb].
  destruct (nonempty (strip name)); [|done]. cbn [negb].
  destruct (contains name (u "/")) eqn:E2; [done|]. destruct (contains name [92]) eqn:E3; [done|]. cbn [orb].
  destruct (contains name (u "..")) eqn:E4; [done|]. intros _.
  repeat split.
  - by apply nonempty_spec.
  - intros Hin. apply contains_char in Hin. change [SLASH] with (u "/") in Hin. congruence.
  - intros Hin. apply contains_char in Hin. congruence.
  - intros ->. by vm_compute in E4.
Qed.

(** A name that passes names a direct child of the directory it is joined to: the path is not
    changed by normalisation, so that it climbs nowhere. *)
Theorem safe_name_is_child dir l name :
  canonical dir l → l ≠ [] → Forall (λ c, c ≠ u "..") l →
  _is_safe_plugin_name name = true → name ≠ u "." →
  normpath (path_join dir name) = dir ++ [SLASH] ++ name.
Proof.
  intros Hd Hne Hdd Hs Hdot. apply safe_name_spec in Hs as (Hn & Hslash & _ & Hdots).
  rewrite (path_join_child dir l) by done.
  apply (normpath_canonical _ (l ++ [name])); [by apply canonical_child|].
  apply Forall_app; split; [done|]. by constructor.
Qed.

(** ** Repositories and references *)

Lemma host_in_allowlist_spec host allowlist :
  _host_in_allowlist host allowlist = true →
  ∃ a, a ∈ allowlist ∧ (lower host = lower a ∨ ∃ p, lower host = p ++ [DOT] ++ lower a).
Proof.
  unfold _host_in_allowlist. destruct (nonempty (lower host)); [|done]. cbn [negb].
  rewrite existsb_exists. intros (a & Ha & H). exists a. split; [by apply list_elem_of_In|].
  apply orb_true_iff in H as [H|H]; [left; by apply str_eqb_spec|right].
  apply endswith_spec in H as [p Hp]. exists p. exact Hp.
Qed.

Section security.
Context (bracketed_ok netloc_ok : pystr → bool).

(** How a repository is named: an address [git@host:path], or a URL. *)
Definition repo_host (url host : pystr) : Prop :=
  (startswith url (u "git@") = true ∧ host = (partition COLON (partition 64 url).2).1.1) ∨
  (∃ r, urlsplit bracketed_ok netloc_ok url = Ok r ∧ host = url_hostname r ∧
        lower (ur_scheme r) ∈ [u "https"; u "ssh"; u "git+ssh"; u "ssh+git"]).

(** Without local paths, what passes is no option of git, is fetched over https or ssh, and its host
    is one of the allowed hosts or a subdomain of one, up to the case of letters. *)
Theorem allowed_repo_sound config exists_ repo_url :
  _is_repo_url_allowed bracketed_ok netloc_ok config exists_ repo_url = Ok true →
  _allow_local_plugin_paths config = false →
  startswith (strip repo_url) (u "-") = false ∧
  ∃ host a, repo_host (strip repo_url) host ∧ a ∈ _get_allowed_repo_hosts config ∧
    (lower (lower host) = lower a ∨ ∃ p, lower (lower host) = p ++ [DOT] ++ lower a).
Proof.
  unfold _is_repo_url_allowed. destruct (nonempty (strip repo_url)); [|done]. cbn [negb].
  destruct (startswith (strip repo_url) (u "-")); [done|]. intros H Hlocal. split; [done|].
  unfold _normalize_repo_target in H. rewrite strip_idemp, Hlocal in H.
  destruct (startswith (strip repo_url) (u "git@")) eqn:Eg.
  - destruct (partition 64 (strip repo_url)) as [[x y] z] eqn:E64.
    destruct (partition COLON z) as [[host y'] z'] eqn:Ec.
    change (Ok (_host_in_allowlist (lower host) (_get_allowed_repo_hosts config)) = Ok true) in H.
    injection H as H. apply host_in_allowlist_spec in H as (a & Ha & H). exists host, a.
    split; [|done]. left. rewrite E64. cbn [snd]. by rewrite Ec.
  - destruct (urlsplit bracketed_ok netloc_ok (strip repo_url)) as [r|e] eqn:Er; [|done].
    cbn [res_bind fst snd] in H. exists (url_hostname r).
    set (sch := lower (ur_scheme r)) in *.
    destruct (bool_decide (sch ∈ [u "git+ssh"; u "ssh+git"])) eqn:Es.
    + change (Ok (_host_in_allowlist (lower (url_hostname r)) (_get_allowed_repo_hosts config)) = Ok true) in H.
      injection H as H. apply host_in_allowlist_spec in H as (a & Ha & H). exists a. split; [|done].
      right. exists r. split; [done|]. split; [done|]. apply bool_decide_eq_true in Es.
      rewrite elem_of_cons, list_elem_of_singleton in Es. fold sch. destruct Es as [->| ->]; [do 2 right; left|do 3 right; left].
    + destruct (nonempty sch) eqn:En; [|done]. cbn [negb] in H.
      destruct (str_eqb sch (u "file")); [done|]. destruct (str_eqb sch (u "http")); [done|].
      destruct (bool_decide (sch ∈ [u "https"; u "ssh"])) eqn:Eh; [|done]. cbn [negb] in H.
      injection H as H. apply host_in_allowlist_spec in H as (a & Ha & H). exists a. split; [|done].
      right. exists r. split; [done|]. split; [done|]. apply bool_decide_eq_true in Eh.
      rewrite elem_of_cons, list_elem_of_singleton in Eh. fold sch. destruct Eh as [->| ->]; [left|right; left].
Qed.

Definition ref_char (c : Z) : Prop :=
  alnum_char c = true ∨ c ∈ [DOT; 95; SLASH; 45].

(** A reference that passes can be handed to git: it starts with a letter or a digit - it is no
    option - and has no white space, colon or other character with a meaning in a reference
    specification; a commit is a hexadecimal number of 7 to 40 digits. *)
Theorem validated_ref_sound config exists_ repo_url type_ value v :
  _validate_clone_inputs bracketed_ok netloc_ok config exists_ repo_url type_ value = Ok (Some v) →
  vr_ref_value v = strip value ∧ Forall ref_char (vr_ref_value v) ∧
  (∃ c s, vr_ref_value v = c :: s ∧ alnum_char c = true) ∧
  (vr_ref_type v = RefCommit → Forall (λ c, hex_char c = true) (vr_ref_value v) ∧
                               (7 ≤ length (vr_ref_value v) ≤ 40)%nat).
Proof.
  assert (Hhex : ∀ c, hex_char c = true → alnum_char c = true).
  { intros c. unfold hex_char, alnum_char, ascii_alpha. rewrite !orb_true_iff, !between_spec. lia. }
  unfold _validate_clone_inputs. destruct (_is_repo_url_allowed _ _ _ _ _) as [[]|e]; try done.
  cbn [res_bind negb]. destruct (ref_type_of type_) as [t|]; [|done].
  destruct (strip value) as [|c s] eqn:Es; [done|]. cbn [nonempty negb].
  destruct (startswith (c :: s) (u "-")); [done|].
  destruct (match t with RefCommit => _ | _ => _ end) eqn:Ep; [|done]. cbn [negb].
  destruct (_get_repo_name_from_url _ _ _) as [[n|]|]; try done. cbn [res_bind]. intros [= <-].
  cbn [vr_ref_value vr_ref_type]. split; [done|].
  assert (Hc : COMMIT_HASH_PATTERN (c :: s) = true →
    Forall (λ c, hex_char c = true) (c :: s) ∧ (7 ≤ length (c :: s) ≤ 40)%nat).
  { unfold COMMIT_HASH_PATTERN. rewrite !andb_true_iff, !Nat.leb_le, forallb_forall. intros [[H1 H2] H3].
    split; [|lia]. apply Forall_forall. intros x Hx. by apply H1, list_elem_of_In. }
  assert (Hr : REF_NAME_PATTERN (c :: s) = true → alnum_char c = true ∧ Forall ref_char (c :: s)).
  { unfold REF_NAME_PATTERN. rewrite andb_true_iff, forallb_forall. intros [H1 H2]. split; [done|].
    constructor; [by left|]. apply Forall_forall. intros x Hx%list_elem_of_In%H2. unfold ref_char.
    rewrite !elem_of_cons. unfold DOT, SLASH. rewrite !orb_true_iff, !Z.eqb_eq in Hx. tauto. }
  destruct t.
  1,2: destruct (Hr Ep) as [H1 H2]; split; [done|]; split; [by exists c, s|done].
  destruct (Hc Ep) as [H1 H2]. split; [eapply Forall_impl; [exact H1|]; intros x Hx; left; auto|].
  split; [|done]. exists c, s. split; [done|]. apply Hhex. by apply Forall_inv in H1.
Qed.
End security.

(** ** Requirements *)

Section requirements.

Definition blank_line (line : pystr) : bool := match shlex_split line with Ok [] => true | _ => false end.

(** A line whose words are harmless. *)
Definition vetted_line (line : pystr) : Prop :=
  ∃ tokens, shlex_split line = Ok tokens ∧ Forall (λ t, risky_token t = false) tokens.

Lemma effective_vetted config lines allowed flagged :
  _effective_requirements_for_repo config lines = Ok (allowed, flagged) →
  allow_untrusted_dependencies config = false →
  Forall vetted_line allowed ∧
  Forall (λ line, ∃ tokens, shlex_split line = Ok tokens ∧ Exists (λ t, risky_token t = true) tokens) flagged ∧
  allowed ++ flagged ≡ₚ filter (λ line, blank_line line = false) lines.
Proof.
  unfold _effective_requirements_for_repo. intros H Hu. rewrite Hu in H.
  destruct (_filter_risky_requirement_lines lines) as [[a f]|] eqn:E; [|done]. cbn [res_bind] in H.
  injection H as <- <-. revert a f E. induction lines as [|line lines IH]; intros a f; cbn [_filter_risky_requirement_lines].
  { intros [= <- <-]. repeat split; constructor. }
  destruct (shlex_split line) as [tokens|] eqn:Et; [|done]. cbn [res_bind].
  destruct (_filter_risky_requirement_lines lines) as [[a' f']|] eqn:Ef; [|done]. cbn [res_bind fst snd].
  destruct (IH a' f' eq_refl) as (Ha & Hf & Hp).
  destruct tokens as [|t ts].
  { intros [= <- <-]. split; [done|]. split; [done|]. rewrite filter_cons_False; [done|]. unfold blank_line. by rewrite Et. }
  rewrite filter_cons_True by (unfold blank_line; by rewrite Et).
  destruct (existsb risky_token (t :: ts)) eqn:Er; intros [= <- <-].
  - split; [done|]. split; [|by rewrite <- Permutation_middle, Hp]. constructor; [|done]. exists (t :: ts). split; [done|].
    apply existsb_exists in Er as (x & Hx & Hr). apply Exists_exists. exists x. split; [by apply list_elem_of_In|done].
  - split; [|split; [done|by rewrite <- app_comm_cons, Hp]]. constructor; [|done]. exists (t :: ts). split; [done|].
    apply Forall_forall. intros x Hx. apply not_true_iff_false. intros Hr. apply not_true_iff_false in Er. apply Er.
    apply existsb_exists. exists x. split; [by apply list_elem_of_In|done].
Qed.

(** The lines that pip is given without [allow_untrusted_dependencies] have no risky token, and the
    lines of the file are the allowed and the flagged ones, but for blank lines and comments. *)
Theorem requirements_vetted config lines allowed flagged :
  _effective_requirements_for_repo config lines = Ok (allowed, flagged) →
  allow_untrusted_dependencies config = false →
  Forall vetted_line allowed ∧
  Forall (λ line, ∃ tokens, shlex_split line = Ok tokens ∧ Exists (λ t, risky_token t = true) tokens) flagged ∧
  allowed ++ flagged ≡ₚ filter (λ line, blank_line line = false) lines.
Proof. apply effective_vetted. Qed.

(** A file of requirements at an address is not recognised when the address is attached to the
    option: the line is handed to pip, which reads requirements from there. *)
Lemma attached_requirement_url_allowed :
  _effective_requirements_for_repo VNone [u "requests"; u "-rhttps://evil.example/r.txt"]
  = Ok ([u "requests"; u "-rhttps://evil.example/r.txt"], []) ∧
  req_line_of (u "-rhttps://evil.example/r.txt") = ReqEntry (u "-rhttps://evil.example/r.txt").
Proof. by vm_compute. Qed.

(** A line continued with a backslash, as in files with hashes, raises. *)
Lemma continued_line_raises :
  _effective_requirements_for_repo VNone [u "requests==2.0 \"] = Raise ValueError ∧
  req_line_of (u "requests==2.0 \") = ReqEntry (u "requests==2.0 \").
Proof. by vm_compute. Qed.

(** Any path of the scheme [file] passes once local paths are allowed, whether it exists or not. *)
Lemma missing_file_url_allowed :
  let config := VDict [(u "security", VDict [(u "allow_local_plugin_paths", VBool true)])] in
  _is_repo_url_allowed no_check no_check config (λ _, false) (u "file:///nowhere") = Ok true ∧
  _is_repo_url_allowed no_check no_check config (λ _, false) (u "/nowhere") = Ok false.
Proof. by vm_compute. Qed.

(** The host of an address [git@...] may hold a slash, which git takes for a local path. *)
Lemma scp_host_with_slash_allowed :
  _is_repo_url_allowed no_check no_check VNone (λ _, false) (u "git@dir/x.github.com:repo") = Ok true.
Proof. by vm_compute. Qed.
End requirements.

(** *** Nested files *)

Section nested.
Context (files : gmap pystr req_file) (cwd : pystr).
Abbreviation collect := (_collect_requirements files cwd).
Definition unread (visited : gset pystr) : nat := size (dom files ∖ visited).

Lemma unread_mono v v' : v ⊆ v' → (unread v' ≤ unread v)%nat.
Proof. intros H. unfold unread. apply subseteq_size. set_solver. Qed.

Lemma unread_visit p f v : files !! p = Some f → p ∉ v → (unread ({[p]} ∪ v) < unread v)%nat.
Proof.
  intros Hp Hv. unfold unread. apply subset_size. split; [set_solver|]. intros H.
  assert (Hin : p ∈ dom files ∖ v) by (apply elem_of_difference; split; [by eapply elem_of_dom_2|done]).
  apply H in Hin. set_solver.
Qed.

(** Collecting gives a result, and the visited files only grow. *)
Definition total_from (nested : pystr → gset pystr → option (res (list pystr) * gset pystr)) (v0 : gset pystr) : Prop :=
  ∀ path v, v0 ⊆ v → ∃ r v', nested path v = Some (r, v') ∧ v ⊆ v'.

Lemma collect_lines_total nested base lines v0 v :
  total_from nested v0 → v0 ⊆ v → ∃ r v', collect_lines nested base lines v = Some (r, v') ∧ v ⊆ v'.
Proof.
  intros Hn. revert v. induction lines as [|raw lines IH]; intros v Hv; cbn [collect_lines]; [eauto|].
  destruct (req_line_of raw) as [|path|line].
  - by apply IH.
  - destruct (Hn (if isabs path then path else path_join base path) v Hv) as (r & v' & -> & Hvv').
    destruct r as [l|e]; [|eauto]. destruct (IH v') as (r & v'' & -> & Hv''); [set_solver|].
    do 2 eexists. split; [done|set_solver].
  - destruct (IH v Hv) as (r & v' & -> & Hv'). eauto.
Qed.

Lemma collect_total fuel path v :
  (unread v < fuel)%nat → ∃ r v', collect fuel path v = Some (r, v') ∧ v ⊆ v'.
Proof.
  revert path v. induction fuel as [|fuel IH]; intros path v Hf; [lia|]. cbn [_collect_requirements].
  case_bool_decide as Hv; [eauto|]. set (p := abspath cwd path) in *.
  destruct (files !! p) as [f|] eqn:Ep; [|eexists _, _; split; [done|set_solver]].
  pose proof (unread_visit p f v Ep Hv) as Hlt.
  destruct (collect_lines_total (collect fuel) (dirname p) (rq_lines f) ({[p]} ∪ v) ({[p]} ∪ v)) as (r & v' & -> & Hv').
  - intros path' v' Hsub. apply IH. pose proof (unread_mono _ _ Hsub). lia.
  - done.
  - destruct r as [l|e]; [destruct (rq_end f)|]; eexists _, _; (split; [done|set_solver]).
Qed.

(** Files that name each other, or themselves, in whatever way: collecting the requirements always
    ends, after a number of nested files bounded by the number of files. *)
Theorem collect_terminates path :
  ∃ r v, _collect_requirements files cwd (S (size files)) path ∅ = Some (r, v).
Proof.
  destruct (collect_total (S (size files)) path ∅) as (r & v & H & _); [|eauto].
  unfold unread. rewrite difference_empty_L, size_dom. lia.
Qed.
End nested.

(** What a file of constraints pins is collected as a requirement, to be installed. *)
Lemma constraints_become_requirements :
  let file l := {| rq_lines := l; rq_end := ReadComplete |} in
  let files := <[u "/p/requirements.txt" := file [u "requests"; u "-c pins.txt"; u "-r ./requirements.txt"]]>
              {[u "/p/pins.txt" := file [u "numpy==2.0  # pinned"]]} in
  _collect_requirements files (u "/") (S (size files)) (u "p/requirements.txt") ∅
  = Some (Ok [u "requests"; u "numpy==2.0"], {[u "/p/pins.txt"; u "/p/requirements.txt"]}).
Proof. vm_compute. f_equal. Qed.

(** ** Applications *)

Lemma contained_exact_witness :
  let realpath p := if str_eqb p (u "/p/link") then u "/etc" else p in
  _is_path_contained realpath (u "/p") (u "/p/a") = true ∧ _is_path_contained realpath (u "/p") (u "/p/link") = false ∧
  (_is_path_contained realpath (u "/p") (u "/p/a") = true ↔ ∃ k, k ≠ [] ∧ [u "p"; u "a"] = [u "p"] ++ k).
Proof.
  split; [vm_compute; reflexivity|]. split; [vm_compute; reflexivity|].
  apply contained_exact; (split; [repeat constructor; (discriminate || (vm_compute; intros H; repeat (apply elem_of_cons in H as [H|H]; [discriminate|]); inversion H))|reflexivity]).
Defined.

Lemma safe_name_is_child_witness :
  normpath (path_join (u "/p") (u "relay")) = u "/p" ++ [SLASH] ++ u "relay".
Proof.
  apply (safe_name_is_child (u "/p") [u "p"]); [|discriminate|repeat constructor; discriminate|vm_compute; reflexivity|discriminate].
  split; [|reflexivity]. repeat constructor; try discriminate. vm_compute. intros H. apply elem_of_cons in H as [H|H]; [discriminate|inversion H].
Defined.

Lemma allowed_repo_sound_witness :
  startswith (strip (u "https://GitHub.com/a/b")) (u "-") = false ∧
  ∃ host a, repo_host no_check no_check (strip (u "https://GitHub.com/a/b")) host ∧
    a ∈ _get_allowed_repo_hosts VNone ∧
    (lower (lower host) = lower a ∨ ∃ p, lower (lower host) = p ++ [DOT] ++ lower a).
Proof. apply (allowed_repo_sound no_check no_check VNone (λ _, false)); vm_compute; reflexivity. Defined.

Lemma validated_ref_sound_witness :
  let v := {| vr_repo_url := u "https://github.com/a/b.git"; vr_ref_type := RefCommit;
              vr_ref_value := u "0123456789abcdef"; vr_repo_name := u "b" |} in
  _validate_clone_inputs no_check no_check VNone (λ _, false) (u "https://github.com/a/b.git ") (u "commit")
    (u " 0123456789abcdef") = Ok (Some v) ∧ Forall ref_char (vr_ref_value v).
Proof.
  intros v. assert (H : _validate_clone_inputs no_check no_check VNone (λ _, false) (u "https://github.com/a/b.git ")
    (u "commit") (u " 0123456789abcdef") = Ok (Some v)) by (vm_compute; reflexivity).
  split; [exact H|]. exact (proj1 (proj2 (validated_ref_sound no_check no_check VNone (λ _, false) _ _ _ v H))).
Defined.

Lemma requirements_vetted_witness :
  let lines := [u "requests"; u "x @ git+https://evil.example/x"; u "-i https://mirror.example/simple"] in
  let allowed := [u "requests"] in
  let flagged := [u "x @ git+https://evil.example/x"; u "-i https://mirror.example/simple"] in
  _effective_requirements_for_repo VNone lines = Ok (allowed, flagged) ∧
  Forall (λ line, ∃ tokens, shlex_split line = Ok tokens ∧ Forall (λ t, risky_token t = false) tokens) allowed.
Proof.
  intros lines allowed flagged.
  assert (H : _effective_requirements_for_repo VNone lines = Ok (allowed, flagged)) by (vm_compute; reflexivity).
  split; [exact H|]. exact (proj1 (requirements_vetted VNone lines allowed flagged H eq_refl)).
Defined.
