(* ===== verification/PluginRepos.v ===== *)
(** * Fetching community plugins with git

    Models the part of [plugin_loader.py] that runs git: the validated runs of commands with their
    retries, the update of a repository to a commit, a branch or a tag with the fall-backs, the clone
    of a new one, and the check of pinned commits for upstream updates.

    git is not modelled: the outcome of each run of a command is an input, in the order of the runs,
    and a program records the commands it runs with their outcomes.  A program that has used up the
    outcomes is still running. *)

From Stdlib Require Import String.
From stdpp Require Import base tactics list numbers sets.
From S2P Require Import Prelude PyStr PyValue PyLib PluginSecurity.
Open Scope Z_scope.

(** ** Running commands *)

(** The end of one run of a command: its output, a non-zero status, a time-out, no such program,
    or another error of the operating system.  [BadCommand] is a ValueError: of a command that may
    not be run, or of the address of a repository. *)
Inductive run_result := RunOk (stdout : pystr) | RunFails | RunTimesOut | RunMissing | RunOSError.
Inductive run_exc := CalledProcessError | TimeoutExpired | FileNotFoundError | OtherOSError | BadCommand | ModuleNotFound.
#[export] Instance run_exc_eq_dec : EqDecision run_exc.
Proof. solve_decision. Defined.

(** What a program does: a run of a command, and the changes of files - of the clone, of the state and
    the requirements of a plugin. *)
Inductive git_event :=
  | Ran (cmd : list pystr) (r : run_result) | RemovedTree | MadeDirs
  | SavedState (state : pydict) | WroteRequirements (lines : list pystr)
  | MergedDependencies | WroteMarker (marker : pydict).

(** [gs_results]: the outcomes still to come; [gs_log]: what was done, the latest first. *)
Record git_state := { gs_results : list run_result; gs_log : list git_event }.

Inductive ran (A : Type) := Done (a : A) | Failed (e : run_exc) | StillRunning.
Arguments Done {A} _.
Arguments Failed {A} _.
Arguments StillRunning {A}.
Definition G (A : Type) : Type := git_state → ran A * git_state.

Definition g_ret {A} (a : A) : G A := λ s, (Done a, s).
Definition g_raise {A} (e : run_exc) : G A := λ s, (Failed e, s).
Definition g_bind {A B} (m : G A) (k : A → G B) : G B := λ s,
  match m s with
  | (Done a, s') => k a s'
  | (Failed e, s') => (Failed e, s')
  | (StillRunning, s') => (StillRunning, s')
  end.
Definition g_try {A} (p : run_exc → bool) (m : G A) (h : run_exc → G A) : G A := λ s,
  match m s with
  | (Failed e, s') => if p e then h e s' else (Failed e, s')
  | r => r
  end.
Definition g_emit (e : git_event) : G unit := λ s,
  (Done tt, {| gs_results := gs_results s; gs_log := e :: gs_log s |}).

Declare Scope git_scope.
Delimit Scope git_scope with git.
Notation "x <- m ;; k" := (g_bind m (λ x, k)) (at level 100, m at next level, right associativity) : git_scope.
Notation "m ;; k" := (g_bind m (λ _, k)) (at level 100, right associativity) : git_scope.
Open Scope git_scope.

(** [(CalledProcessError, TimeoutExpired)], and with FileNotFoundError, and with OSError. *)
Definition git_failed (e : run_exc) : bool :=
  match e with CalledProcessError | TimeoutExpired => true | _ => false end.
Definition git_failed_or_missing (e : run_exc) : bool :=
  match e with CalledProcessError | TimeoutExpired | FileNotFoundError => true | _ => false end.
Definition git_any_error (e : run_exc) : bool :=
  match e with BadCommand | ModuleNotFound => false | _ => true end.

Definition exc_of (r : run_result) : option run_exc :=
  match r with
  | RunOk _ => None
  | RunFails => Some CalledProcessError
  | RunTimesOut => Some TimeoutExpired
  | RunMissing => Some FileNotFoundError
  | RunOSError => Some OtherOSError
  end.

(** [attempts]: the runs left. *)
Fixpoint run_attempts (attempts : nat) (cmd : list pystr) : G pystr := λ s,
  match gs_results s with
  | [] => (StillRunning, s)
  | r :: rs =>
      let s' := {| gs_results := rs; gs_log := Ran cmd r :: gs_log s |} in
      match r with
      | RunOk stdout => (Done stdout, s')
      | RunFails | RunTimesOut =>
          match attempts with
          | S (S n as m) => run_attempts m cmd s'
          | _ => (match exc_of r with Some e => Failed e | None => StillRunning end, s')
          end
      | RunMissing => (Failed FileNotFoundError, s')
      | RunOSError => (Failed OtherOSError, s')
      end
  end.

Definition _run (retry_attempts : nat) (cmd : list pystr) : G pystr :=
  match cmd with
  | [] => g_raise BadCommand
  | _ =>
      if existsb (λ arg, negb (nonempty (strip arg))) cmd then g_raise BadCommand
      else run_attempts (Nat.max retry_attempts 1) cmd
  end.
(** Without prompts: the environment is not part of the model. *)
Definition _run_git (retry_attempts : nat) (cmd : list pystr) : G pystr := _run retry_attempts cmd.

Definition GIT_RETRY_ATTEMPTS : nat := 3.
Definition DEFAULT_BRANCHES : list pystr := [u "main"; u "master"].
Definition ORIGIN : pystr := u "origin".
Definition DEREF (ref_value : pystr) : pystr := ref_value ++ u "^{commit}".

Section repo.
Context (repo_path : pystr).

Definition in_repo (args : list pystr) : list pystr := u "git" :: u "-C" :: repo_path :: args.
Definition checkout (ref_value : pystr) : list pystr := in_repo [u "checkout"; ref_value].
Definition pull (ref_value : pystr) : list pystr := in_repo [u "pull"; ORIGIN; ref_value].
Definition rev_parse (rev : pystr) : list pystr := in_repo [u "rev-parse"; rev].
Definition fetch (args : list pystr) : list pystr := in_repo (u "fetch" :: args).

(** Whether HEAD and the reference are the same commit; false when one is not known. *)
Definition already_at (ref_value : pystr) (p : run_exc → bool) : G bool :=
  g_try p
    (current_full <- _run_git 1 (rev_parse (u "HEAD"));;
     target_full <- _run_git 1 (rev_parse (DEREF ref_value));;
     g_ret (str_eqb (strip current_full) (strip target_full)))
    (λ _, g_ret false).

(** ** Commits *)

Definition _fetch_commit_with_fallback (ref_value : pystr) : G bool :=
  g_try git_failed
    (_run_git GIT_RETRY_ATTEMPTS (fetch [u "--depth=1"; ORIGIN; ref_value]);; g_ret true)
    (λ _, g_try git_failed (_run_git GIT_RETRY_ATTEMPTS (fetch [ORIGIN]);; g_ret true)
            (λ _, g_ret false)).

(** The check-out of a commit that may have to be fetched first. *)
Definition checkout_or_fetch (ref_value : pystr) : G bool :=
  present <- g_try git_failed (_run_git 1 (checkout ref_value);; g_ret true) (λ _, g_ret false);;
  if present then g_ret true
  else
    fetched <- _fetch_commit_with_fallback ref_value;;
    if fetched then (_run_git 1 (checkout ref_value);; g_ret true) else g_ret false.

Definition _update_existing_repo_to_commit (ref_value : pystr) : G bool :=
  g_try git_failed_or_missing
    (same <- already_at ref_value git_failed;;
     if same then g_ret true else checkout_or_fetch ref_value)
    (λ _, g_ret false).

Definition clone (branch : option pystr) (repo_url repo_name : pystr) : list pystr :=
  [u "git"; u "clone"; u "--filter=blob:none"] ++
  (match branch with Some b => [u "--branch"; b] | None => [] end) ++ [repo_url; repo_name].

(** [dirs_fail]: the directory of the plugins cannot be made. *)
Definition _clone_new_repo_to_commit (repo_url ref_value repo_name : pystr) (dirs_fail : bool) : G bool :=
  if dirs_fail then g_ret false else
  g_emit MadeDirs;;
  g_try git_failed_or_missing
    (_run_git 1 (clone None repo_url repo_name);;
     same <- already_at ref_value git_failed;;
     if same then g_ret true else checkout_or_fetch ref_value)
    (λ _, g_ret false).

(** ** Branches and tags *)

(** [is_branch]: [ref_type] is "branch". *)
Definition _try_checkout_and_pull_ref (ref_value : pystr) (is_branch : bool) : G bool :=
  g_try (λ e, bool_decide (e = FileNotFoundError))
    (g_try git_failed
       (_run_git 1 (checkout ref_value);; _run_git 1 (pull ref_value);; g_ret true)
       (λ _,
          if is_branch then
            g_try git_failed_or_missing
              (_run_git GIT_RETRY_ATTEMPTS (fetch [ORIGIN; ref_value]);;
               _run_git 1 (in_repo [u "checkout"; u "-B"; ref_value; ORIGIN ++ u "/" ++ ref_value]);;
               g_ret true)
              (λ _, g_ret false)
          else g_ret false))
    (λ _, g_ret false).

Definition TAG_REF (ref_value : pystr) : pystr := u "refs/tags/" ++ ref_value.

Definition _try_fetch_and_checkout_tag (ref_value : pystr) : G bool :=
  g_try git_failed_or_missing
    (g_try git_failed
       (_run_git GIT_RETRY_ATTEMPTS (fetch [ORIGIN; TAG_REF ref_value]))
       (λ _, g_try git_failed
          (_run_git GIT_RETRY_ATTEMPTS (fetch [u "--tags"]))
          (λ _, _run_git GIT_RETRY_ATTEMPTS
                  (fetch [ORIGIN; TAG_REF ref_value ++ u ":" ++ TAG_REF ref_value])));;
     _run_git 1 (checkout ref_value);;
     g_ret true)
    (λ _, g_ret false).

Definition _try_checkout_as_branch (ref_value : pystr) : G bool :=
  g_try git_failed_or_missing
    (_run_git GIT_RETRY_ATTEMPTS (fetch [ORIGIN; ref_value]);;
     _run_git 1 (checkout ref_value);;
     _run_git 1 (pull ref_value);;
     g_ret true)
    (λ _, g_ret false).

Fixpoint _fallback_to_default_branches (default_branches : list pystr) : G bool :=
  match default_branches with
  | [] => g_ret false
  | b :: bs =>
      ok <- g_try git_failed (_run_git 1 (checkout b);; _run_git 1 (pull b);; g_ret true) (λ _, g_ret false);;
      if ok then g_ret true else _fallback_to_default_branches bs
  end.

(** The requested branch first, then the other default ones. *)
Definition default_branch_candidates (ref_value : pystr) : list pystr :=
  ref_value :: filter (λ b, b ≠ ref_value) DEFAULT_BRANCHES.

Fixpoint first_branch (candidates : list pystr) : G bool :=
  match candidates with
  | [] => g_ret false
  | b :: bs =>
      ok <- _try_checkout_and_pull_ref b true;;
      if ok then g_ret true else first_branch bs
  end.

(** [is_branch]: a branch, else a tag. *)
Definition _update_existing_repo_to_branch_or_tag (is_branch : bool) (ref_value : pystr)
    (is_default_branch : bool) : G bool :=
  go_on <- g_try git_failed_or_missing (_run_git GIT_RETRY_ATTEMPTS (fetch [ORIGIN]);; g_ret true)
             (λ e, g_ret (negb (bool_decide (e = FileNotFoundError))));;
  if negb go_on then g_ret false
  else if is_default_branch then first_branch (default_branch_candidates ref_value)
  else if is_branch then _try_checkout_and_pull_ref ref_value true
  else
    same <- already_at ref_value git_failed_or_missing;;
    if same then g_ret true
    else
      ok <- _try_fetch_and_checkout_tag ref_value;;
      if ok then g_ret true
      else
        ok <- _try_checkout_as_branch ref_value;;
        if ok then g_ret true else _fallback_to_default_branches DEFAULT_BRANCHES.

(** The commands to clone with, in the order they are tried. *)
Definition clone_commands (is_branch is_default_branch : bool) (repo_url ref_value repo_name : pystr)
    : list (list pystr) :=
  if is_default_branch then
    ((λ b, clone (Some b) repo_url repo_name) <$> default_branch_candidates ref_value) ++
    [clone None repo_url repo_name]
  else if is_branch then [clone (Some ref_value) repo_url repo_name; clone None repo_url repo_name]
  else [clone None repo_url repo_name].

(** What is done in a new clone. *)
Definition post_clone (is_branch is_default_branch : bool) (ref_value : pystr) : G bool :=
  if is_branch then
    if is_default_branch then g_ret true else _try_checkout_as_branch ref_value
  else
    same <- already_at ref_value git_failed;;
    if same then g_ret true else _try_fetch_and_checkout_tag ref_value.

Fixpoint try_clones (is_branch is_default_branch : bool) (ref_value : pystr) (commands : list (list pystr))
    : G bool :=
  match commands with
  | [] => g_ret false
  | c :: cs =>
      r <- g_try git_failed_or_missing
             (g_emit RemovedTree;;
              _run_git 1 c;;
              ok <- post_clone is_branch is_default_branch ref_value;;
              g_ret (if ok then Some true else None))
             (λ e, g_ret (if bool_decide (e = FileNotFoundError) then Some false else None));;
      match r with
      | Some b => g_ret b
      | None => try_clones is_branch is_default_branch ref_value cs
      end
  end.

Definition _clone_new_repo_to_branch_or_tag (is_branch : bool) (repo_url ref_value repo_name : pystr)
    (is_default_branch : bool) : G bool :=
  try_clones is_branch is_default_branch ref_value
    (clone_commands is_branch is_default_branch repo_url ref_value repo_name).

(** [present]: the directory of the repository exists. *)
Definition _clone_or_update_repo_validated (v : ValidationResult) (present dirs_fail : bool) : G bool :=
  let ref_value := vr_ref_value v in
  let is_branch := bool_decide (vr_ref_type v = RefBranch) in
  let is_commit := bool_decide (vr_ref_type v = RefCommit) in
  let is_default_branch := is_branch && bool_decide (ref_value ∈ DEFAULT_BRANCHES) in
  g_try git_failed_or_missing
    (if present then
       if is_commit then _update_existing_repo_to_commit ref_value
       else _update_existing_repo_to_branch_or_tag is_branch ref_value is_default_branch
     else
       if is_commit then
         _clone_new_repo_to_commit (vr_repo_url v) ref_value (vr_repo_name v) dirs_fail
       else
         _clone_new_repo_to_branch_or_tag is_branch (vr_repo_url v) ref_value (vr_repo_name v)
           is_default_branch)
    (λ _, g_ret false).

(** [repo_path] joined with the name is the path of this section. *)
Definition clone_or_update_repo (bracketed_ok netloc_ok : pystr → bool) (config : pyval)
    (exists_ : pystr → bool) (repo_url type_ value : pystr) (present dirs_fail : bool) : G bool :=
  match _validate_clone_inputs bracketed_ok netloc_ok config exists_ repo_url type_ value with
  | Raise _ => g_raise BadCommand
  | Ok None => g_ret false
  | Ok (Some v) => _clone_or_update_repo_validated v present dirs_fail
  end.

(** ** Upstream updates of pinned commits *)

Definition sha_of (s : pystr) : option pystr := if _is_full_commit_sha s then Some s else None.

Definition _resolve_local_head_commit : G (option pystr) :=
  g_try git_any_error
    (out <- _run_git 1 (rev_parse (u "HEAD"));; g_ret (sha_of (strip out)))
    (λ _, g_ret None).

Definition HEADS (branch_name : pystr) : pystr := u "refs/heads/" ++ branch_name.

(** The first line of the answer that is not empty, up to the first tab. *)
Definition remote_sha (out : pystr) : option pystr :=
  match filter (λ l, nonempty l = true) (splitlines out) with
  | [] => None
  | l :: _ =>
      if nonempty (strip l) then sha_of (strip (partition 9 (strip l)).1.1) else None
  end.
Definition _resolve_remote_branch_head_commit (branch_name : pystr) : G (option pystr) :=
  g_try git_any_error
    (out <- _run_git 1 (in_repo [u "ls-remote"; ORIGIN; HEADS branch_name]);; g_ret (remote_sha out))
    (λ _, g_ret None).

(** The branch of the first line [ref: refs/heads/b HEAD]. *)
Fixpoint symref_branch (lines : list pystr) : option pystr :=
  match lines with
  | [] => None
  | raw_line :: rest =>
      if startswith (strip raw_line) (u "ref:") then
        match words (strip raw_line) with
        | _ :: ref_value :: _ =>
            if startswith ref_value (u "refs/heads/") then Some (drop (length (u "refs/heads/")) ref_value)
            else symref_branch rest
        | _ => symref_branch rest
        end
      else symref_branch rest
  end.
Fixpoint first_remote_branch (branches : list pystr) : G (option pystr) :=
  match branches with
  | [] => g_ret None
  | b :: bs =>
      head <- _resolve_remote_branch_head_commit b;;
      match head with Some _ => g_ret (Some b) | None => first_remote_branch bs end
  end.
Definition _resolve_remote_default_branch : G (option pystr) :=
  named <- g_try git_any_error
             (out <- _run_git 1 (in_repo [u "ls-remote"; u "--symref"; ORIGIN; u "HEAD"]);;
              g_ret (symref_branch (splitlines out)))
             (λ _, g_ret None);;
  match named with
  | Some b => g_ret (Some b)
  | None => first_remote_branch DEFAULT_BRANCHES
  end.

(** Times in seconds: 24 hours. *)
Definition COMMUNITY_PLUGIN_UPDATE_CHECK_INTERVAL : Z := 86400.

Section pins.
(** Texts of times: [datetime.isoformat] and [_parse_state_timestamp]. *)
Context (isoformat : Z → pystr) (parse_timestamp : pystr → option Z).

Definition _parse_state_timestamp (value : pyval) : option Z :=
  match value with
  | VStr s => if nonempty (strip s) then parse_timestamp s else None
  | _ => None
  end.

(** [nt_compare]: the address that shows the difference. *)
Record notice := { nt_pinned : pystr; nt_upstream : pystr; nt_compare : option pystr }.

Definition checked_recently (now : Z) (state : pydict) : bool :=
  match _parse_state_timestamp (dget_none state (u "last_checked_at")) with
  | Some t => now - t <? COMMUNITY_PLUGIN_UPDATE_CHECK_INTERVAL
  | None => false
  end.

(** What is noted of the upstream, and whom to tell: [str_or] is the value noted when it is a text. *)
Definition note_seen (state : pydict) (default_branch upstream_sha : option pystr) : pydict :=
  let state := match default_branch with
               | Some b => dset state (u "last_seen_default_branch") (VStr b) | None => state end in
  match upstream_sha with
  | Some h => dset state (u "last_seen_default_branch_head") (VStr h) | None => state end.
Definition last_notified (state : pydict) : pystr :=
  match dget_none state (u "last_notified_upstream_head") with VStr s => s | _ => [] end.
Definition notify (compare : pystr → pystr → option pystr) (state : pydict)
    (pinned_sha upstream_sha : option pystr) : option notice :=
  match pinned_sha, upstream_sha with
  | Some p, Some h =>
      if str_eqb h p || str_eqb h (last_notified state) then None
      else Some {| nt_pinned := p; nt_upstream := h; nt_compare := compare p h |}
  | _, _ => None
  end.

(** The state to save and the notice given; None when nothing is checked. *)
Definition _check_commit_pin_for_upstream_updates (compare : pystr → pystr → option pystr) (now : Z)
    (state : pydict) : G (option (pydict * option notice)) :=
  g_try (λ _, true)
    (if checked_recently now state then g_ret None
     else
       pinned_sha <- _resolve_local_head_commit;;
       default_branch <- _resolve_remote_default_branch;;
       upstream_sha <- (match default_branch with
                        | Some b => if nonempty b then _resolve_remote_branch_head_commit b else g_ret None
                        | None => g_ret None
                        end);;
       let default_branch := match default_branch with Some b => if nonempty b then Some b else None | None => None end in
       let state := note_seen state default_branch upstream_sha in
       let n := notify compare state pinned_sha upstream_sha in
       let state := match n with
                    | Some n => dset state (u "last_notified_upstream_head") (VStr (nt_upstream n))
                    | None => state end in
       g_ret (Some (dset state (u "last_checked_at") (VStr (isoformat now)), n)))
    (λ _, g_ret None).
End pins.
End repo.

(** ** Reasoning about programs *)

(** What holds of the log before and, with the result, after a program that returns. *)
Definition hoare {A} (P : list git_event → Prop) (m : G A) (Q : A → list git_event → Prop) : Prop :=
  ∀ s a s', P (gs_log s) → m s = (Done a, s') → Q a (gs_log s').
Abbreviation anything := (λ _ : list git_event, True).

Create HintDb hoare.

Lemma hoare_post {A} P (m : G A) (Q Q' : A → list git_event → Prop) :
  hoare P m Q → (∀ a l, Q a l → Q' a l) → hoare P m Q'.
Proof. intros H HQ s a s' HP Hm. by eapply HQ, H. Qed.
Lemma hoare_pre {A} (P P' : list git_event → Prop) (m : G A) Q :
  hoare P m Q → (∀ l, P' l → P l) → hoare P' m Q.
Proof. intros H HP s a s' Hl Hm. eapply H; [by apply HP|done]. Qed.
Lemma hoare_ret {A} (P : list git_event → Prop) (a : A) Q : (∀ l, P l → Q a l) → hoare P (g_ret a) Q.
Proof. intros H s b s' HP [= <- <-]. by apply H. Qed.
Lemma hoare_raise {A} (P : list git_event → Prop) e (Q : A → list git_event → Prop) : hoare P (g_raise e) Q.
Proof. by intros s a s' _ [=]. Qed.
Lemma hoare_bind {A B} P (m : G A) (k : A → G B) Q R :
  hoare P m Q → (∀ a, hoare (Q a) (k a) R) → hoare P (g_bind m k) R.
Proof.
  intros Hm Hk s b s' HP. unfold g_bind. destruct (m s) as [[a|e|] s1] eqn:Em; intros H; try done.
  eapply Hk; [|exact H]. by eapply Hm.
Qed.
Lemma hoare_try {A} P p (m : G A) h Q :
  hoare P m Q → (∀ e, hoare anything (h e) Q) → hoare P (g_try p m h) Q.
Proof.
  intros Hm Hh s b s' HP. unfold g_try. destruct (m s) as [[a|e|] s1] eqn:Em; intros H; try done.
  - injection H as -> ->. by eapply Hm.
  - destruct (p e); [|done]. by eapply Hh.
Qed.
Lemma hoare_emit P e : hoare P (g_emit e) (λ _, anything).
Proof. done. Qed.
#[export] Hint Resolve hoare_raise hoare_emit : hoare.

(** The last thing done is a run of the command that ended well. *)
Definition last_ran (cmd : list pystr) (out : pystr) (l : list git_event) : Prop := head l = Some (Ran cmd (RunOk out)).

Lemma run_attempts_once n cmd : (n ≤ 1)%nat → run_attempts n cmd = run_attempts 0 cmd.
Proof. destruct n as [|[]]; [done|done|lia]. Qed.
(** One run and, when it fails, the others. *)
Lemma run_attempts_eq n cmd s :
  run_attempts n cmd s =
  match gs_results s with
  | [] => (StillRunning, s)
  | r :: rs =>
      let s' := {| gs_results := rs; gs_log := Ran cmd r :: gs_log s |} in
      match r with
      | RunOk stdout => (Done stdout, s')
      | RunFails => if (2 <=? n)%nat then run_attempts (n - 1) cmd s' else (Failed CalledProcessError, s')
      | RunTimesOut => if (2 <=? n)%nat then run_attempts (n - 1) cmd s' else (Failed TimeoutExpired, s')
      | RunMissing => (Failed FileNotFoundError, s')
      | RunOSError => (Failed OtherOSError, s')
      end
  end.
Proof. destruct n as [|[|n]]; cbn -[run_attempts]; unfold run_attempts at 1; by destruct (gs_results s) as [|[]]. Qed.
Lemma hoare_attempts P n cmd :
  hoare P (run_attempts n cmd)
    (λ out l, ∃ l', l = Ran cmd (RunOk out) :: l' ∧ ((n ≤ 1)%nat → P l')).
Proof.
  revert P. induction n as [n IH] using lt_wf_ind. intros P s out s' HP.
  rewrite run_attempts_eq. destruct (gs_results s) as [|[o| | | |] rs]; [done| | | |done|done].
  { intros [= -> <-]. by exists (gs_log s). }
  all: destruct (Nat.leb_spec 2 n) as [Hn|Hn]; [|done].
  all: intros H; eapply IH with (P := anything) in H as (l' & -> & _); [|lia|done]; exists l'; split; [done|lia].
Qed.
(** One run. *)
Lemma hoare_run P cmd :
  hoare P (_run_git 1 cmd) (λ out l, ∃ l', l = Ran cmd (RunOk out) :: l' ∧ P l').
Proof.
  unfold _run_git, _run. destruct cmd as [|c cmd]; [apply hoare_raise|].
  destruct (existsb _ _); [apply hoare_raise|].
  eapply hoare_post; [apply hoare_attempts|]. intros out l (l' & -> & H). exists l'. split; [done|]. apply H. done.
Qed.
(** Several runs. *)
Lemma hoare_runs n P cmd : hoare P (_run_git n cmd) (λ out, last_ran cmd out).
Proof.
  unfold _run_git, _run. destruct cmd as [|c cmd]; [apply hoare_raise|].
  destruct (existsb _ _); [apply hoare_raise|].
  eapply hoare_post; [apply hoare_attempts|]. by intros out l (l' & -> & _).
Qed.

(** What a program adds to the log has the property. *)
Definition adds_only {A} (C : git_event → Prop) (m : G A) : Prop :=
  ∀ s, ∃ new, gs_log (m s).2 = new ++ gs_log s ∧ Forall C new.

Section only.
Context (C : git_event → Prop).
Abbreviation only := (adds_only C).

Lemma only_ret {A} (a : A) : only (g_ret a).
Proof. intros s. by exists []. Qed.
Lemma only_raise {A} e : only (@g_raise A e).
Proof. intros s. by exists []. Qed.
Lemma only_emit e : C e → only (g_emit e).
Proof. intros He s. exists [e]. split; [done|]. by constructor. Qed.
Lemma only_trans {A} s s1 (r : ran A * git_state) :
  (∃ new, gs_log s1 = new ++ gs_log s ∧ Forall C new) →
  (∃ new, gs_log r.2 = new ++ gs_log s1 ∧ Forall C new) →
  ∃ new, gs_log r.2 = new ++ gs_log s ∧ Forall C new.
Proof.
  intros (n1 & H1 & F1) (n2 & H2 & F2). exists (n2 ++ n1). rewrite H2, H1, app_assoc. split; [done|]. by apply Forall_app.
Qed.
Lemma only_bind {A B} (m : G A) (k : A → G B) : only m → (∀ a, only (k a)) → only (g_bind m k).
Proof.
  intros Hm Hk s. specialize (Hm s). unfold g_bind. destruct (m s) as [[a|e|] s']; [|done|done].
  eapply only_trans; [exact Hm|apply Hk].
Qed.
Lemma only_try {A} p (m : G A) h : only m → (∀ e, only (h e)) → only (g_try p m h).
Proof.
  intros Hm Hh s. specialize (Hm s). unfold g_try. destruct (m s) as [[a|e|] s']; [done| |done].
  destruct (p e); [|done]. eapply only_trans; [exact Hm|apply Hh].
Qed.
Lemma only_run n cmd : (∀ r, C (Ran cmd r)) → only (_run_git n cmd).
Proof.
  intros HC. unfold _run_git, _run. destruct cmd as [|c cmd]; [apply only_raise|].
  destruct (existsb _ _); [apply only_raise|]. set (k := Nat.max n 1). clearbody k.
  induction k as [k IH] using lt_wf_ind. intros s. rewrite run_attempts_eq.
  destruct (gs_results s) as [|x rs]; [by exists []|]. cbn zeta.
  set (s1 := {| gs_results := rs; gs_log := Ran (c :: cmd) x :: gs_log s |}).
  assert (H1 : ∃ new, gs_log s1 = new ++ gs_log s ∧ Forall C new).
  { exists [Ran (c :: cmd) x]. split; [done|]. by constructor. }
  destruct x as [o| | | |]; [exact H1| | |exact H1|exact H1];
    (destruct (Nat.leb_spec 2 k); [eapply only_trans; [exact H1|apply IH; lia]|exact H1]).
Qed.
Lemma only_mono {A} (C' : git_event → Prop) (m : G A) : adds_only C' m → (∀ e, C' e → C e) → only m.
Proof. intros H HC s. destruct (H s) as (new & H1 & H2). exists new. split; [done|]. by eapply Forall_impl. Qed.
End only.

Ltac only_step :=
  lazymatch goal with
  | |- adds_only _ (g_ret _) => apply only_ret
  | |- adds_only _ (g_emit _) => by apply only_emit
  | |- adds_only _ (g_raise _) => apply only_raise
  | |- adds_only _ (_run_git _ _) => apply only_run; intros ?
  | |- adds_only _ (g_try _ _ _) => apply only_try; [|intros ?]
  | |- adds_only _ (g_bind _ _) => apply only_bind; [|intros ?]
  | |- adds_only _ (if ?b then _ else _) => destruct b
  | |- adds_only _ (match ?o with Some _ => _ | None => _ end) => destruct o
  end.

(** ** Failures *)

(** The command was run and did not end well; the program git is missing. *)
Definition failed_run (cmd : list pystr) (l : list git_event) : Prop := ∃ r, Ran cmd r ∈ l ∧ exc_of r ≠ None.
Definition git_missing (l : list git_event) : Prop := ∃ cmd, Ran cmd RunMissing ∈ l.
(** What stays true of a log that grows. *)
Definition lasting (E : list git_event → Prop) : Prop := ∀ new l, E l → E (new ++ l).
Lemma failed_lasting cmd : lasting (failed_run cmd).
Proof. intros new l (r & Hr & He). exists r. split; [|done]. apply elem_of_app. by right. Qed.
Lemma missing_lasting : lasting git_missing.
Proof. intros new l (cmd & H). exists cmd. apply elem_of_app. by right. Qed.
Lemma lasting_or E E' : lasting E → lasting E' → lasting (λ l, E l ∨ E' l).
Proof. intros H H' new l [?|?]; [left; by apply H|right; by apply H']. Qed.
Create HintDb lasting.
#[export] Hint Resolve failed_lasting missing_lasting lasting_or : lasting.

(** What holds when a program raises an error of [p], and when it answers false. *)
Definition raises {A} (m : G A) (p : run_exc → bool) (E : list git_event → Prop) : Prop :=
  ∀ s e s', m s = (Failed e, s') → p e = true → E (gs_log s').
Definition refuses (m : G bool) (E : list git_event → Prop) : Prop := ∀ s s', m s = (Done false, s') → E (gs_log s').

Lemma run_raises n cmd s e s' : _run_git n cmd s = (Failed e, s') →
  e = BadCommand ∨ ∃ r l, gs_log s' = Ran cmd r :: l ∧ exc_of r = Some e.
Proof.
  unfold _run_git, _run. destruct cmd as [|c cmd]; [intros [= <-]; by left|].
  destruct (existsb _ _); [intros [= <-]; by left|]. set (k := Nat.max n 1). clearbody k. revert s.
  induction k as [k IH] using lt_wf_ind. intros s. rewrite run_attempts_eq.
  destruct (gs_results s) as [|[o| | | |] rs]; [done..| | | |]; cbn zeta.
  1,2: destruct (Nat.leb_spec 2 k); [apply IH; lia|]; intros [= <- <-]; right; by eexists _, _.
  all: intros [= <- <-]; right; by eexists _, _.
Qed.
Lemma raises_run n cmd p : p BadCommand = false → raises (_run_git n cmd) p (failed_run cmd).
Proof.
  intros Hp s e s' H He. apply run_raises in H as [->|(r & l & -> & Hr)]; [congruence|].
  exists r. split; [left|by rewrite Hr].
Qed.
Lemma raises_missing n cmd p : (∀ e, p e = true → e = FileNotFoundError) → raises (_run_git n cmd) p git_missing.
Proof.
  intros Hp s e s' H ->%Hp. apply run_raises in H as [?|(r & l & -> & Hr)]; [done|].
  exists cmd. destruct r; try done. left.
Qed.
Lemma raises_ret {A} (a : A) p E : raises (g_ret a) p E.
Proof. by intros s e s' [=]. Qed.
Lemma raises_bind {A B} (m : G A) (k : A → G B) p E :
  raises m p E → (∀ a, raises (k a) p E) → raises (g_bind m k) p E.
Proof.
  intros Hm Hk s e s'. unfold g_bind. destruct (m s) as [[a|e1|] s1] eqn:Em; [apply Hk|intros [= -> ->]; by eapply Hm|done].
Qed.
Lemma raises_try {A} q (m : G A) h p E :
  raises m (λ e, p e && negb (q e)) E → (∀ e, raises (h e) p E) → raises (g_try q m h) p E.
Proof.
  intros Hm Hh s e s'. unfold g_try. destruct (m s) as [[a|e1|] s1] eqn:Em; [done| |done].
  destruct (q e1) eqn:Eq; [apply Hh|]. intros [= -> ->] He. eapply Hm; [exact Em|]. by rewrite He, Eq.
Qed.
Lemma raises_mono {A} (m : G A) p (E E' : list git_event → Prop) : raises m p E → (∀ l, E l → E' l) → raises m p E'.
Proof. intros H HE s e s' Hm He. by eapply HE, H. Qed.
Lemma refuses_true E : refuses (g_ret true) E.
Proof. by intros s s' [=]. Qed.
Lemma refuses_bind {A} (m : G A) (k : A → G bool) E : (∀ a, refuses (k a) E) → refuses (g_bind m k) E.
Proof. intros Hk s s'. unfold g_bind. destruct (m s) as [[a|e1|] s1]; [apply Hk|done|done]. Qed.
Lemma refuses_try p (m : G bool) h E : refuses m E → (∀ e, refuses (h e) E) → refuses (g_try p m h) E.
Proof.
  intros Hm Hh s s'. unfold g_try. destruct (m s) as [[a|e1|] s1] eqn:Em; [|destruct (p e1); [apply Hh|done]|done].
  intros [= -> ->]. by eapply Hm.
Qed.
Lemma refuses_caught p (m : G bool) E : refuses m E → raises m p E → refuses (g_try p m (λ _, g_ret false)) E.
Proof.
  intros Hm Hr s s'. unfold g_try. destruct (m s) as [[a|e1|] s1] eqn:Em; [intros [= -> ->]; by eapply Hm| |done].
  destruct (p e1) eqn:Ep; [|done]. intros [= <-]. by eapply Hr.
Qed.

(** Trying one after the other: the second only when the first has failed. *)
Lemma hoare_or_failed P (m m' : G bool) (Q Q' E : list git_event → Prop) :
  hoare P m (λ b l, b = true → Q l) → refuses m E → lasting E → adds_only (λ _, True) m' →
  hoare anything m' (λ b l, b = true → Q' l) →
  hoare P (ok <- m;; if ok : bool then g_ret true else m') (λ b l, b = true → Q l ∨ (E l ∧ Q' l)).
Proof.
  intros Hm Hr HE Hg Hm' s b s' HP. unfold g_bind. destruct (m s) as [[a|e|] s1] eqn:Em; [|done|done].
  destruct a; [intros [= <- <-] _; left; by eapply Hm|]. intros H Hb. right.
  split; [|by eapply Hm']. destruct (Hg s1) as (new & Hlog & _). rewrite H in Hlog. cbn [snd] in Hlog. rewrite Hlog.
  by eapply HE, Hr.
Qed.

Section arrival.
Context (repo_path : pystr).
Abbreviation rev_parse := (rev_parse repo_path).
Abbreviation checkout := (checkout repo_path).
Abbreviation pull := (pull repo_path).

(** The repository is at a reference: it has just been checked out, or it resolves to the commit the
    repository is at. *)
Definition at_ref (ref_value : pystr) (l : list git_event) : Prop :=
  (∃ out, last_ran (checkout ref_value) out l) ∨
  ∃ a b l', l = Ran (rev_parse (DEREF ref_value)) (RunOk b) :: Ran (rev_parse (u "HEAD")) (RunOk a) :: l' ∧
            strip a = strip b.
(** The repository is at what origin has for a branch: the branch was checked out and then pulled, or
    it was set to the branch of origin. *)
Definition on_branch (branch : pystr) (l : list git_event) : Prop :=
  (∃ a b l', l = Ran (pull branch) (RunOk a) :: Ran (checkout branch) (RunOk b) :: l') ∨
  ∃ out, last_ran (in_repo repo_path [u "checkout"; u "-B"; branch; ORIGIN ++ u "/" ++ branch]) out l.
Definition when (b : bool) (P : list git_event → Prop) : list git_event → Prop := λ l, b = true → P l.

Lemma hoare_already_at P r p : hoare P (already_at repo_path r p) (λ b, when b (at_ref r)).
Proof.
  apply hoare_try; [|intros e; by apply hoare_ret].
  eapply hoare_bind; [apply hoare_run|intros a]. eapply hoare_bind; [apply hoare_run|intros b].
  apply hoare_ret. intros l (l' & -> & l'' & -> & _) Heq. right. exists a, b, l''. split; [done|].
  by apply str_eqb_spec.
Qed.
Lemma hoare_checkout P r : hoare P (_run_git 1 (checkout r);; g_ret true) (λ b, when b (at_ref r)).
Proof.
  eapply hoare_bind; [apply hoare_run|intros a]. apply hoare_ret. intros l (l' & -> & _) _. left. by exists a.
Qed.
Lemma hoare_checkout_or_fetch P r : hoare P (checkout_or_fetch repo_path r) (λ b, when b (at_ref r)).
Proof.
  eapply hoare_bind.
  - apply hoare_try; [apply hoare_checkout|]. intros e. by apply hoare_ret.
  - intros []; [by apply hoare_ret|]. eapply hoare_bind with (Q := λ _, anything); [by intros s a s' _ _|].
    intros []; [apply hoare_checkout|by apply hoare_ret].
Qed.
Lemma hoare_pull P r :
  hoare P (_run_git 1 (checkout r);; _run_git 1 (pull r);; g_ret true) (λ b, when b (on_branch r)).
Proof.
  eapply hoare_bind; [apply hoare_run|intros a]. eapply hoare_bind; [apply hoare_run|intros b].
  apply hoare_ret. intros l (l' & -> & l'' & -> & _) _. left. by exists b, a, l''.
Qed.
Lemma hoare_checkout_and_pull P r : hoare P (_try_checkout_and_pull_ref repo_path r true) (λ b, when b (on_branch r)).
Proof.
  apply hoare_try; [|intros e; by apply hoare_ret]. apply hoare_try; [apply hoare_pull|]. intros e.
  apply hoare_try; [|intros e'; by apply hoare_ret].
  eapply hoare_bind; [apply hoare_runs|intros a]. eapply hoare_bind; [apply hoare_run|intros b].
  apply hoare_ret. intros l (l' & -> & _) _. right. by exists b.
Qed.
Lemma hoare_as_branch P r : hoare P (_try_checkout_as_branch repo_path r) (λ b, when b (on_branch r)).
Proof.
  apply hoare_try; [|intros e; by apply hoare_ret].
  eapply hoare_bind; [apply hoare_runs|intros a]. apply hoare_pull.
Qed.
Lemma hoare_tag P r : hoare P (_try_fetch_and_checkout_tag repo_path r) (λ b, when b (at_ref r)).
Proof.
  apply hoare_try; [|intros e; by apply hoare_ret].
  eapply hoare_bind with (Q := λ _, anything); [by intros s a s' _ _|]. intros a. apply hoare_checkout.
Qed.

(** Trying one after the other, until one succeeds. *)
Lemma hoare_or P m m' Q :
  hoare P m (λ b, when b Q) → hoare anything m' (λ b, when b Q) →
  hoare P (ok <- m;; if ok : bool then g_ret true else m') (λ b, when b Q).
Proof.
  intros H H'. eapply hoare_bind; [exact H|]. intros []; [by apply hoare_ret|].
  eapply hoare_pre; [exact H'|done].
Qed.
Lemma hoare_weaken P m (Q Q' : list git_event → Prop) :
  hoare P m (λ b : bool, when b Q) → (∀ l, Q l → Q' l) → hoare P m (λ b, when b Q').
Proof. intros H HQ. eapply hoare_post; [exact H|]. intros b l Hl Hb. by apply HQ, Hl. Qed.

Definition on_one_of (branches : list pystr) (l : list git_event) : Prop := ∃ b, b ∈ branches ∧ on_branch b l.

Lemma hoare_first_branch P bs : hoare P (first_branch repo_path bs) (λ b, when b (on_one_of bs)).
Proof.
  induction bs as [|b bs IH] in P |- *; cbn [first_branch]; [by apply hoare_ret|].
  apply hoare_or; (eapply hoare_weaken; [apply hoare_checkout_and_pull || apply IH|]).
  - intros l Hl. exists b. split; [apply list_elem_of_here|done].
  - intros l (b' & Hb & Hl). exists b'. split; [by apply list_elem_of_further|done].
Qed.
Lemma hoare_fallback P bs : hoare P (_fallback_to_default_branches repo_path bs) (λ b, when b (on_one_of bs)).
Proof.
  induction bs as [|b bs IH] in P |- *; cbn [_fallback_to_default_branches]; [by apply hoare_ret|].
  apply hoare_or.
  - apply hoare_try; [|intros e; by apply hoare_ret]. eapply hoare_weaken; [apply hoare_pull|].
    intros l Hl. exists b. split; [apply list_elem_of_here|done].
  - eapply hoare_weaken; [apply IH|]. intros l (b' & Hb & Hl). exists b'. split; [by apply list_elem_of_further|done].
Qed.

Lemma hoare_try_clones P is_branch is_default r commands Q :
  (∀ c, c ∈ commands → hoare (λ l, ∃ out, last_ran c out l) (post_clone repo_path is_branch is_default r) (λ b, when b Q)) →
  hoare P (try_clones repo_path is_branch is_default r commands) (λ b, when b Q).
Proof.
  revert P. induction commands as [|c cs IH]; intros P H; cbn [try_clones]; [by apply hoare_ret|].
  eapply hoare_bind with (Q := λ o l, o = Some true → Q l).
  - apply hoare_try; [|intros e; apply hoare_ret; intros l ?; by destruct (bool_decide _)].
    eapply hoare_bind; [apply hoare_emit|intros []]. eapply hoare_bind; [apply hoare_run|intros out].
    eapply hoare_bind.
    + eapply hoare_pre; [apply H, list_elem_of_here|]. intros l (l' & -> & _). by exists out.
    + intros []; apply hoare_ret; [by intros l Hl _; apply Hl|done].
  - intros [[]|]; [apply hoare_ret; by intros l Hl _; apply Hl|by apply hoare_ret|].
    apply IH. intros c' Hc. by apply H, list_elem_of_further.
Qed.

Lemma hoare_post_clone c r is_branch :
  hoare (λ l, ∃ out, last_ran c out l) (post_clone repo_path is_branch false r)
    (λ b, when b (if is_branch then on_branch r else at_ref r)).
Proof.
  destruct is_branch; [apply hoare_as_branch|]. apply hoare_or; [apply hoare_already_at|apply hoare_tag].
Qed.

(** Getting to a branch, to a tag, to what may be a branch has failed: one of the commands that all
    of it needs was run and did not end well, or there is no git. *)
Definition branch_failed (r : pystr) (l : list git_event) : Prop :=
  git_missing l ∨ failed_run (fetch repo_path [ORIGIN; r]) l ∨
  failed_run (in_repo repo_path [u "checkout"; u "-B"; r; ORIGIN ++ u "/" ++ r]) l.
Definition tag_failed (r : pystr) (l : list git_event) : Prop :=
  git_missing l ∨ failed_run (fetch repo_path [ORIGIN; TAG_REF r ++ u ":" ++ TAG_REF r]) l ∨ failed_run (checkout r) l.
Definition as_branch_failed (r : pystr) (l : list git_event) : Prop :=
  failed_run (fetch repo_path [ORIGIN; r]) l ∨ failed_run (checkout r) l ∨ failed_run (pull r) l.
Lemma branch_failed_lasting r : lasting (branch_failed r).
Proof. unfold branch_failed. auto with lasting. Qed.
Lemma tag_failed_lasting r : lasting (tag_failed r).
Proof. unfold tag_failed. auto with lasting. Qed.
Lemma as_branch_failed_lasting r : lasting (as_branch_failed r).
Proof. unfold as_branch_failed. auto with lasting. Qed.

Ltac raise_run := eapply raises_mono; [by apply raises_run|tauto].
Ltac raise_missing := eapply raises_mono; [apply raises_missing; by intros []|tauto].
Lemma tag_refuses r : refuses (_try_fetch_and_checkout_tag repo_path r) (tag_failed r).
Proof.
  unfold tag_failed. apply refuses_caught; [do 2 (apply refuses_bind; intros ?); apply refuses_true|].
  apply raises_bind; [|intros ?; apply raises_bind; [raise_run|intros ?; apply raises_ret]].
  apply raises_try; [raise_missing|intros e1]. apply raises_try; [raise_missing|intros e2]. raise_run.
Qed.
Lemma as_branch_refuses r : refuses (_try_checkout_as_branch repo_path r) (as_branch_failed r).
Proof.
  unfold as_branch_failed. apply refuses_caught; [do 3 (apply refuses_bind; intros ?); apply refuses_true|].
  repeat (apply raises_bind; [raise_run|intros ?]). apply raises_ret.
Qed.
Lemma branch_refuses r : refuses (_try_checkout_and_pull_ref repo_path r true) (branch_failed r).
Proof.
  unfold branch_failed. apply refuses_caught.
  - apply refuses_try; [do 2 (apply refuses_bind; intros ?); apply refuses_true|intros e].
    apply refuses_caught; [do 2 (apply refuses_bind; intros ?); apply refuses_true|].
    repeat (apply raises_bind; [raise_run|intros ?]). apply raises_ret.
  - apply raises_try; [repeat (apply raises_bind; [raise_missing|intros ?]); apply raises_ret|intros e].
    apply raises_try; [|intros e'; apply raises_ret]. repeat (apply raises_bind; [raise_missing|intros ?]). apply raises_ret.
Qed.

(** What the last commands did when a repository was fetched, and what had failed before. *)
Definition arrived (v : ValidationResult) (present : bool) (l : list git_event) : Prop :=
  let r := vr_ref_value v in
  match vr_ref_type v with
  | RefCommit => at_ref r l
  | RefBranch =>
      if bool_decide (r ∈ DEFAULT_BRANCHES) then
        if present then on_branch r l ∨ branch_failed r l ∧ on_one_of (filter (λ b, b ≠ r) DEFAULT_BRANCHES) l
        else (∃ out, last_ran (clone (Some r) (vr_repo_url v) (vr_repo_name v)) out l) ∨
             failed_run (clone (Some r) (vr_repo_url v) (vr_repo_name v)) l ∧
             ∃ c out, c ∈ clone_commands true true (vr_repo_url v) r (vr_repo_name v) ∧ last_ran c out l
      else on_branch r l
  | RefTag =>
      at_ref r l ∨
      present = true ∧ tag_failed r l ∧
        (on_branch r l ∨ as_branch_failed r l ∧ on_one_of DEFAULT_BRANCHES l)
  end.

Lemma grows_first_branch bs : adds_only (λ _, True) (first_branch repo_path bs).
Proof.
  induction bs as [|b bs IH]; cbn [first_branch]; [apply only_ret|]. unfold _try_checkout_and_pull_ref.
  repeat only_step; done.
Qed.
Lemma grows_fallback bs : adds_only (λ _, True) (_fallback_to_default_branches repo_path bs).
Proof.
  induction bs as [|b bs IH]; cbn [_fallback_to_default_branches]; [apply only_ret|]. repeat only_step; done.
Qed.
Lemma grows_clones r cs : adds_only (λ _, True) (try_clones repo_path true true r cs).
Proof.
  induction cs as [|c cs IH]; cbn [try_clones]; [apply only_ret|]. cbn [post_clone].
  apply only_bind; [repeat only_step; done|]. intros [[]|]; [apply only_ret|apply only_ret|done].
Qed.

(** A new clone of a default branch: other commands only when the first has failed. *)
Lemma hoare_clone_default P url r name :
  hoare P (try_clones repo_path true true r (clone_commands true true url r name))
    (λ b, when b (λ l, (∃ out, last_ran (clone (Some r) url name) out l) ∨
       failed_run (clone (Some r) url name) l ∧ ∃ c out, c ∈ clone_commands true true url r name ∧ last_ran c out l)).
Proof.
  assert (hoare P (try_clones repo_path true true r (clone_commands true true url r name))
    (λ b, when b (λ l, ∃ c out, c ∈ clone_commands true true url r name ∧ last_ran c out l))) as Hall.
  { apply hoare_try_clones. intros c Hc. apply hoare_ret. intros l [out Hl] _. by exists c, out. }
  intros s b s' HP H Hb. pose proof (Hall s b s' HP H Hb) as Hany.
  assert (∃ cs, clone_commands true true url r name = clone (Some r) url name :: cs) as [cs Hcs] by (eexists; reflexivity).
  rewrite Hcs in H. clear Hcs. revert H. cbn [try_clones post_clone]. unfold g_bind at 1, g_try, g_bind at 1, g_emit.
  set (s0 := {| gs_results := gs_results s; gs_log := RemovedTree :: gs_log s |}).
  unfold g_bind at 1. destruct (_run_git 1 (clone (Some r) url name) s0) as [[out|e|] s1] eqn:Er; [| |done].
  - cbn. intros [= <- <-]. left. exists out.
    pose proof (hoare_run anything (clone (Some r) url name) s0 out s1 I Er) as (l' & -> & _). done.
  - destruct (git_failed_or_missing e) eqn:Ee; [|done].
    assert (failed_run (clone (Some r) url name) (gs_log s1)) as Hf.
    { eapply (raises_run 1 _ git_failed_or_missing); done. }
    cbn. destruct (bool_decide (e = FileNotFoundError)); [by intros [= <- <-]|].
    intros H. right. split; [|done]. destruct (grows_clones r cs s1) as (new & Hlog & _).
    rewrite H in Hlog. cbn [snd] in Hlog. rewrite Hlog. by apply failed_lasting.
Qed.

Lemma hoare_fetch_first P m Q :
  hoare anything m (λ b, when b Q) →
  hoare P
    (go_on <- g_try git_failed_or_missing (_run_git GIT_RETRY_ATTEMPTS (fetch repo_path [ORIGIN]);; g_ret true)
                (λ e, g_ret (negb (bool_decide (e = FileNotFoundError))));;
     if negb go_on then g_ret false else m) (λ b, when b Q).
Proof.
  intros H. eapply hoare_bind with (Q := λ _, anything); [by intros s a s' _ _|].
  intros []; [exact H|by apply hoare_ret].
Qed.

Lemma hoare_update_branch P r :
  hoare P (_update_existing_repo_to_branch_or_tag repo_path true r (bool_decide (r ∈ DEFAULT_BRANCHES)))
    (λ b, when b (if bool_decide (r ∈ DEFAULT_BRANCHES)
                  then λ l, on_branch r l ∨ (branch_failed r l ∧ on_one_of (filter (λ b, b ≠ r) DEFAULT_BRANCHES) l)
                  else on_branch r)).
Proof.
  apply hoare_fetch_first. destruct (bool_decide _); [|apply hoare_checkout_and_pull].
  unfold default_branch_candidates. cbn [first_branch].
  apply hoare_or_failed; [apply hoare_checkout_and_pull|apply branch_refuses|apply branch_failed_lasting| |apply hoare_first_branch].
  apply grows_first_branch.
Qed.
Lemma hoare_update_tag P r :
  hoare P (_update_existing_repo_to_branch_or_tag repo_path false r false)
    (λ b, when b (λ l, at_ref r l ∨
       tag_failed r l ∧ (on_branch r l ∨ as_branch_failed r l ∧ on_one_of DEFAULT_BRANCHES l))).
Proof.
  apply hoare_fetch_first. apply hoare_or; [eapply hoare_weaken; [apply hoare_already_at|by left]|].
  apply hoare_or_failed; [apply hoare_tag|apply tag_refuses|apply tag_failed_lasting| |].
  - unfold _try_checkout_as_branch. repeat only_step; try done. apply grows_fallback.
  - apply hoare_or_failed; [apply hoare_as_branch|apply as_branch_refuses|apply as_branch_failed_lasting| |apply hoare_fallback].
    apply grows_fallback.
Qed.
Lemma hoare_clone_commit P url r name dirs_fail :
  hoare P (_clone_new_repo_to_commit repo_path url r name dirs_fail) (λ b, when b (at_ref r)).
Proof.
  unfold _clone_new_repo_to_commit. destruct dirs_fail; [by apply hoare_ret|].
  eapply hoare_bind; [apply hoare_emit|intros []].
  apply hoare_try; [|intros e; by apply hoare_ret]. eapply hoare_bind; [apply hoare_run|intros out].
  apply hoare_or; [apply hoare_already_at|apply hoare_checkout_or_fetch].
Qed.

Lemma hoare_validated P v present dirs_fail :
  hoare P (_clone_or_update_repo_validated repo_path v present dirs_fail) (λ b, when b (arrived v present)).
Proof.
  apply hoare_try; [|intros e; by apply hoare_ret].
  unfold arrived. destruct v as [url t r name]. cbn [vr_ref_type vr_ref_value vr_repo_url vr_repo_name].
  destruct present, t; rewrite ?bool_decide_eq_true_2, ?bool_decide_eq_false_2 by done; cbn [andb].
  - eapply hoare_weaken; [apply hoare_update_tag|]. intros l [H|H]; [by left|right; split; [done|exact H]].
  - eapply hoare_weaken; [apply hoare_update_branch|]. intros l. by destruct (bool_decide _).
  - apply hoare_try; [|intros e; by apply hoare_ret].
    apply hoare_or; [apply hoare_already_at|apply hoare_checkout_or_fetch].
  - eapply hoare_weaken; [apply hoare_try_clones; intros c _; apply (hoare_post_clone c r false)|by left].
  - destruct (bool_decide (r ∈ DEFAULT_BRANCHES)).
    + apply hoare_clone_default.
    + apply hoare_try_clones. intros c _. apply (hoare_post_clone c r true).
  - apply hoare_clone_commit.
Qed.

(** C22: When a plugin's repository is reported as fetched, the last commands put it where it was asked to
    be: at the commit or tag, or at what origin has for the branch.  The accepted exceptions are
    these, each only after the other way had failed: where a default branch was asked for, the other
    default one, or in a new clone that or whatever branch the server chooses; and for a tag in an existing
    clone, when it can be neither fetched nor checked out, a branch of its name, and when that fails too a default branch. *)
Theorem repository_at_ref v present dirs_fail s s' :
  _clone_or_update_repo_validated repo_path v present dirs_fail s = (Done true, s') →
  arrived v present (gs_log s').
Proof.
  intros H. exact (hoare_validated anything v present dirs_fail s true s' I H eq_refl).
Qed.
End arrival.

(** ** Ends and errors *)

(** Given [n] outcomes of runs, none an error of the operating system other than a missing program,
    the program ends after at most [n] runs, with a result or one of the errors [E]. *)
Definition total {A} (n : nat) (E : run_exc → bool) (m : G A) : Prop :=
  ∀ s, (n ≤ length (gs_results s))%nat → RunOSError ∉ gs_results s →
  ∃ s', ((∃ a, m s = (Done a, s')) ∨ (∃ e, m s = (Failed e, s') ∧ E e = true)) ∧
        (length (gs_results s) ≤ length (gs_results s') + n)%nat ∧ RunOSError ∉ gs_results s'.
Definition no_error (_ : run_exc) : bool := false.

Lemma total_le {A} n n' E (m : G A) : total n E m → (n ≤ n')%nat → total n' E m.
Proof. intros H Hn s Hs Ho. destruct (H s) as (s' & H1 & H2 & H3); [lia|done|]. exists s'. split; [done|]. split; [lia|done]. Qed.
Lemma total_ret {A} E (a : A) : total 0 E (g_ret a).
Proof. intros s _ Ho. exists s. split; [left; by exists a|]. split; [lia|done]. Qed.
Lemma total_emit E e : total 0 E (g_emit e).
Proof. intros s _ Ho. eexists. split; [left; by exists tt|]. split; [cbn; lia|done]. Qed.
Lemma total_bind {A B} n n' E (m : G A) (k : A → G B) :
  total n E m → (∀ a, total n' E (k a)) → total (n + n') E (g_bind m k).
Proof.
  intros Hm Hk s Hs Ho. unfold g_bind. destruct (Hm s) as (s1 & [[a ->]|(e & -> & He)] & H2 & H3); [lia|done| |].
  - destruct (Hk a s1) as (s2 & H4 & H5 & H6); [lia|done|]. exists s2. split; [done|]. split; [lia|done].
  - exists s1. split; [right; by exists e|]. split; [lia|done].
Qed.
Lemma total_try {A} n n' E E' p (m : G A) h :
  total n E m → (∀ e, total n' E' (h e)) → (∀ e, E e = true → p e = false → E' e = true) →
  total (n + n') E' (g_try p m h).
Proof.
  intros Hm Hh HE s Hs Ho. unfold g_try. destruct (Hm s) as (s1 & [[a ->]|(e & -> & He)] & H2 & H3); [lia|done| |].
  - exists s1. split; [left; by exists a|]. split; [lia|done].
  - destruct (p e) eqn:Ep.
    + destruct (Hh e s1) as (s2 & H4 & H5 & H6); [lia|done|]. exists s2. split; [done|]. split; [lia|done].
    + exists s1. split; [right; exists e; auto|]. split; [lia|done].
Qed.
Lemma total_if {A} (b : bool) n n' E (m m' : G A) :
  total n E m → total n' E m' → total (Nat.max n n') E (if b then m else m').
Proof. intros H H'. destruct b; eapply total_le; eauto; lia. Qed.

Lemma total_attempts n cmd : total (Nat.max n 1) git_failed_or_missing (run_attempts n cmd).
Proof.
  induction n as [n IH] using lt_wf_ind. intros s Hs Ho. rewrite run_attempts_eq.
  destruct (gs_results s) as [|r rs] eqn:Er; [cbn in Hs; lia|]. cbn [length] in Hs |- *.
  assert (Ho' : RunOSError ∉ rs) by (intros H; by apply Ho, list_elem_of_further). cbn zeta.
  assert (Hstop : ∀ e r, git_failed_or_missing e = true → ∃ s',
    ((∃ a : pystr, (Failed e, {| gs_results := rs; gs_log := Ran cmd r :: gs_log s |}) = (Done a, s')) ∨
     ∃ e' : run_exc, (@Failed pystr e, {| gs_results := rs; gs_log := Ran cmd r :: gs_log s |}) = (Failed e', s') ∧
       git_failed_or_missing e' = true) ∧
    (S (length rs) ≤ length (gs_results s') + Nat.max n 1)%nat ∧ RunOSError ∉ gs_results s').
  { intros e r' He. eexists. split; [right; by exists e|]. cbn [gs_results]. split; [lia|done]. }
  assert (Hretry : ∀ r, (2 ≤ n)%nat → ∃ s',
    ((∃ a, run_attempts (n - 1) cmd {| gs_results := rs; gs_log := Ran cmd r :: gs_log s |} = (Done a, s')) ∨
     ∃ e, run_attempts (n - 1) cmd {| gs_results := rs; gs_log := Ran cmd r :: gs_log s |} = (Failed e, s') ∧
       git_failed_or_missing e = true) ∧
    (S (length rs) ≤ length (gs_results s') + Nat.max n 1)%nat ∧ RunOSError ∉ gs_results s').
  { intros r' Hn. destruct (IH (n - 1)%nat ltac:(lia) {| gs_results := rs; gs_log := Ran cmd r' :: gs_log s |})
      as (s' & H1 & H2 & H3); [cbn [gs_results]; lia|done|]. exists s'. split; [done|].
    cbn [gs_results] in H2. split; [lia|done]. }
  destruct r as [o| | | |].
  - eexists. split; [left; by exists o|]. cbn [gs_results]. split; [lia|done].
  - destruct (Nat.leb_spec 2 n); [by apply Hretry|by apply Hstop].
  - destruct (Nat.leb_spec 2 n); [by apply Hretry|by apply Hstop].
  - by apply Hstop.
  - by destruct Ho; left.
Qed.

(** A text with something other than white space. *)
Definition inked (s : pystr) : bool := nonempty (strip s).
Lemma total_run n cmd :
  cmd ≠ [] → forallb inked cmd = true → total (Nat.max n 1) git_failed_or_missing (_run_git n cmd).
Proof.
  intros Hc Hi. unfold _run_git, _run. destruct cmd as [|c cmd]; [done|].
  destruct (existsb _ (c :: cmd)) eqn:Ee.
  { apply existsb_exists in Ee as (x & Hx & Hn). rewrite forallb_forall in Hi. apply Hi in Hx.
    unfold inked in Hx. by rewrite Hx in Hn. }
  eapply total_le; [apply total_attempts|lia].
Qed.

Lemma inked_spec s : inked s = true ↔ ∃ c, c ∈ s ∧ is_space c = false.
Proof.
  unfold inked. split.
  - intros H. destruct (strip s) as [|c t] eqn:Es; [done|].
    destruct (decide (Exists (λ c, is_space c = false) s)) as [He|He].
    + apply Exists_exists in He as (d & Hd & Hs). by exists d.
    + assert (Ha : forallb is_space s = true).
      { apply forallb_forall. intros d Hd. destruct (is_space d) eqn:Ed; [done|]. destruct He.
        apply Exists_exists. exists d. split; [by apply list_elem_of_In|done]. }
      unfold strip, lstrip in Es. by rewrite drop_while_all in Es.
  - intros (c & Hc & Hs).
    assert (Hd : ∀ t, c ∈ t → c ∈ drop_while is_space t).
    { induction t as [|d t IH]; [done|]. cbn [drop_while]. intros [->|Ht]%elem_of_cons.
      - rewrite Hs. left.
      - destruct (is_space d); [by apply IH|by right]. }
    assert (He : c ∈ strip s).
    { unfold strip, rstrip. apply elem_of_reverse, Hd, elem_of_reverse. by apply Hd. }
    by destruct (strip s); [apply not_elem_of_nil in He|].
Qed.
Lemma inked_app s t : inked s = true ∨ inked t = true → inked (s ++ t) = true.
Proof.
  rewrite !inked_spec. intros [(c & Hc & Hs)|(c & Hc & Hs)]; exists c; (split; [|done]); apply elem_of_app; auto.
Qed.

Ltac inked_cmd :=
  repeat (cbn [forallb in_repo checkout pull rev_parse fetch clone app]; rewrite ?andb_true_iff);
  repeat match goal with |- _ ∧ _ => split end;
  first [done | by apply inked_app; auto | apply inked_app; left; by apply inked_app; auto | by vm_compute | idtac].
Ltac total_step :=
  lazymatch goal with
  | |- total _ _ (g_ret _) => apply total_ret
  | |- total _ _ (g_emit _) => apply total_emit
  | |- total _ _ (_run_git _ _) => apply total_run; [discriminate|by inked_cmd]
  | |- total _ _ (g_try _ _ _) => eapply (total_try _ _ git_failed_or_missing); [|intros ?|by intros []]
  | |- total _ _ (g_bind _ _) => eapply total_bind; [|intros ?]
  | |- total _ _ (if _ then _ else _) => apply total_if
  | |- total _ _ (let _ := _ in _) => cbn zeta
  | |- _ => solve [eauto with total]
  end.
Tactic Notation "total_steps" := eapply total_le; [repeat total_step|cbn; lia].
Create HintDb total.

Section ends.
Context (repo_path : pystr) (Hpath : inked repo_path = true).

Section one_ref.
Context (r : pystr) (Hr : inked r = true).
Abbreviation E := git_failed_or_missing.

Lemma total_already_at : total 2 E (already_at repo_path r git_failed).
Proof using Hpath Hr. unfold already_at. total_steps. Qed.
Lemma total_already_at_any : total 2 E (already_at repo_path r git_failed_or_missing).
Proof using Hpath Hr. unfold already_at. total_steps. Qed.
Hint Resolve total_already_at total_already_at_any : total.
Lemma total_fetch_commit : total 6 E (_fetch_commit_with_fallback repo_path r).
Proof using Hpath Hr. unfold _fetch_commit_with_fallback. total_steps. Qed.
Hint Resolve total_fetch_commit : total.
Lemma total_checkout_or_fetch : total 8 E (checkout_or_fetch repo_path r).
Proof using Hpath Hr. unfold checkout_or_fetch. total_steps. Qed.
Hint Resolve total_checkout_or_fetch : total.
Lemma total_update_commit : total 10 E (_update_existing_repo_to_commit repo_path r).
Proof using Hpath Hr. unfold _update_existing_repo_to_commit. total_steps. Qed.
Lemma total_checkout_and_pull : total 6 E (_try_checkout_and_pull_ref repo_path r true).
Proof using Hpath Hr. unfold _try_checkout_and_pull_ref. total_steps. Qed.
Lemma total_tag : total 10 E (_try_fetch_and_checkout_tag repo_path r).
Proof using Hpath Hr. unfold _try_fetch_and_checkout_tag. total_steps. Qed.
Lemma total_as_branch : total 5 E (_try_checkout_as_branch repo_path r).
Proof using Hpath Hr. unfold _try_checkout_as_branch. total_steps. Qed.
Hint Resolve total_update_commit total_checkout_and_pull total_tag total_as_branch : total.
Lemma total_pull : total 2 E (g_try git_failed (_run_git 1 (checkout repo_path r);; _run_git 1 (pull repo_path r);; g_ret true) (λ _, g_ret false)).
Proof using Hpath Hr. total_steps. Qed.
End one_ref.
Hint Resolve total_already_at total_already_at_any total_checkout_or_fetch total_update_commit : total.
Hint Resolve total_checkout_and_pull total_tag total_as_branch total_pull : total.
Abbreviation E := git_failed_or_missing.

Lemma total_fallback bs :
  Forall (λ b, inked b = true) bs → total (2 * length bs) E (_fallback_to_default_branches repo_path bs).
Proof using Hpath.
  induction 1 as [|b bs Hb _ IH]; cbn [_fallback_to_default_branches length]; [apply total_ret|].
  eapply total_le; [eapply total_bind; [by apply total_pull|intros ok; apply total_if; [apply total_ret|exact IH]]|lia].
Qed.
Lemma total_first_branch bs :
  Forall (λ b, inked b = true) bs → total (6 * length bs) E (first_branch repo_path bs).
Proof using Hpath.
  induction 1 as [|b bs Hb _ IH]; cbn [first_branch length]; [apply total_ret|].
  eapply total_le; [eapply total_bind; [by apply total_checkout_and_pull|intros ok; apply total_if; [apply total_ret|exact IH]]|lia].
Qed.

Lemma candidates_inked r : inked r = true → Forall (λ b, inked b = true) (default_branch_candidates r).
Proof.
  intros Hr. constructor; [done|]. apply Forall_forall. intros b [_ Hb]%list_elem_of_filter.
  revert b Hb. apply Forall_forall. repeat constructor; vm_compute; done.
Qed.
Lemma candidates_length r : (length (default_branch_candidates r) ≤ 3)%nat.
Proof. unfold default_branch_candidates. cbn [length]. pose proof (length_filter (λ b, b ≠ r) DEFAULT_BRANCHES). cbn in *. lia. Qed.

Lemma total_update is_branch r is_default :
  inked r = true → total 24 E (_update_existing_repo_to_branch_or_tag repo_path is_branch r is_default).
Proof using Hpath.
  intros Hr. unfold _update_existing_repo_to_branch_or_tag.
  assert (H1 : total 18 E (first_branch repo_path (default_branch_candidates r))).
  { eapply total_le; [by apply total_first_branch, candidates_inked|]. pose proof (candidates_length r). lia. }
  assert (H2 : total 4 E (_fallback_to_default_branches repo_path DEFAULT_BRANCHES)).
  { apply (total_fallback DEFAULT_BRANCHES). by repeat constructor. }
  total_steps.
Qed.

Section clones.
Context (url name r : pystr) (Hurl : inked url = true) (Hname : inked name = true) (Hr : inked r = true).

Lemma total_clone b : match b with Some b => inked b = true | None => True end → total 1 E (_run_git 1 (clone b url name)).
Proof using Hurl Hname.
  intros Hb. apply (total_run 1); [by destruct b|].
  destruct b; cbn [clone Datatypes.app forallb]; by rewrite ?Hb, Hurl, Hname.
Qed.
Lemma total_clone_commit dirs_fail : total 11 E (_clone_new_repo_to_commit repo_path url r name dirs_fail).
Proof using Hpath Hurl Hname Hr.
  unfold _clone_new_repo_to_commit. pose proof (total_clone None I). 
  eapply total_le; [apply total_if; [apply total_ret|]; eapply total_bind; [apply total_emit|intros ?];
    eapply (total_try _ _ E); [eapply total_bind; [exact H|intros ?]; repeat total_step|intros ?; apply total_ret|done]|].
  vm_compute; lia.
Qed.
Definition post_runs (is_branch is_default : bool) : nat := if is_branch then if is_default then 0 else 5 else 12.
Lemma total_post_clone is_branch is_default :
  total (post_runs is_branch is_default) E (post_clone repo_path is_branch is_default r).
Proof using Hpath Hr.
  unfold post_clone, post_runs. destruct is_branch; [destruct is_default; repeat total_step|]. total_steps.
Qed.
Lemma total_try_clones is_branch is_default cs :
  Forall (λ c, total 1 E (_run_git 1 c)) cs →
  total (length cs * S (post_runs is_branch is_default)) E (try_clones repo_path is_branch is_default r cs).
Proof using Hpath Hr.
  induction 1 as [|c cs Hc _ IH]; cbn [try_clones length]; [apply total_ret|].
  eapply total_le.
  - eapply total_bind; [eapply (total_try _ _ E); [|intros e; apply total_ret|done]|].
    + eapply total_bind; [apply total_emit|intros ?]. eapply total_bind; [exact Hc|intros ?].
      eapply total_bind; [apply total_post_clone|intros ?; apply total_ret].
    + intros o. instantiate (1 := (length cs * S (post_runs is_branch is_default))%nat).
      destruct o; [eapply total_le; [apply total_ret|lia]|exact IH].
  - lia.
Qed.
Lemma total_clone_new is_branch d :
  total 13 E (_clone_new_repo_to_branch_or_tag repo_path is_branch url r name (is_branch && d)).
Proof using Hpath Hurl Hname Hr.
  assert (H0 : total 1 E (_run_git 1 (clone None url name))) by by apply total_clone.
  unfold _clone_new_repo_to_branch_or_tag, clone_commands. destruct is_branch; [destruct d|]; cbn [andb].
  - eapply total_le; [apply total_try_clones|].
    + apply Forall_app. split; [|by repeat constructor]. apply Forall_fmap.
      eapply Forall_impl; [by apply candidates_inked|]. intros b Hb. by apply total_clone.
    + pose proof (candidates_length r). rewrite length_app, length_fmap. cbn [length post_runs]. lia.
  - eapply total_le; [apply total_try_clones|cbn; lia]. repeat constructor; [by apply total_clone|done].
  - eapply total_le; [apply total_try_clones|cbn; lia]. by repeat constructor.
Qed.
End clones.
Hint Resolve total_update total_clone_commit total_clone_new : total.

(** Fetching a repository ends after at most 24 runs of git, with an answer: whatever git does, unless
    the operating system fails in another way than by lacking git, the loader goes on. *)
Theorem fetch_answers v present dirs_fail s :
  inked (vr_repo_url v) = true → inked (vr_repo_name v) = true → inked (vr_ref_value v) = true →
  (24 ≤ length (gs_results s))%nat → RunOSError ∉ gs_results s →
  ∃ b s', _clone_or_update_repo_validated repo_path v present dirs_fail s = (Done b, s') ∧
          (length (gs_results s) ≤ length (gs_results s') + 24)%nat.
Proof using Hpath.
  intros Hu Hn Hr Hs Ho.
  assert (H : total 24 no_error (_clone_or_update_repo_validated repo_path v present dirs_fail)).
  { eapply (total_try 24 0 E); [|intros e; apply total_ret|by intros []]. destruct present.
    - eapply total_le; [apply total_if; [by apply total_update_commit|by apply total_update]|lia].
    - eapply total_le; [apply total_if; [by apply total_clone_commit|by apply total_clone_new]|lia]. }
  destruct (H s Hs Ho) as (s' & [[b Hb]|(e & _ & He)] & Hlen & _); [|done]. by exists b, s'.
Qed.
End ends.

(** ** The commands that are run *)

Definition GIT_OPTIONS : list pystr :=
  [u "-C"; u "--filter=blob:none"; u "--branch"; u "--depth=1"; u "--tags"; u "-B"; u "--symref"].
(** A command of git none of whose arguments is an option, except the fixed ones and possibly the
    given one. *)
Definition option_free (a : pystr) : Prop := startswith a (u "-") = false.
Definition fixed_options (but : pystr) (cmd : list pystr) : Prop :=
  head cmd = Some (u "git") ∧ Forall (λ a, option_free a ∨ a ∈ GIT_OPTIONS ∨ a = but) cmd.

Definition git_event_ok (but : pystr) (e : git_event) : Prop :=
  match e with
  | Ran cmd _ => fixed_options but cmd
  | RemovedTree | MadeDirs => True
  | _ => False
  end.

(** A text that starts with something other than a hyphen. *)
Definition no_hyphen (r : pystr) : Prop := ∃ c t, r = c :: t ∧ c ≠ 45.
Lemma no_hyphen_free r : no_hyphen r → option_free r.
Proof.
  intros (c & t & -> & Hc). unfold option_free. change (u "-") with [45]. cbn [startswith].
  by destruct (Z.eqb_spec 45 c) as [<-|].
Qed.
Lemma no_hyphen_app r s : no_hyphen r → no_hyphen (r ++ s).
Proof. intros (c & t & -> & Hc). by exists c, (t ++ s). Qed.
Lemma default_no_hyphen b : b ∈ DEFAULT_BRANCHES → no_hyphen b.
Proof. revert b. apply Forall_forall. repeat constructor; (eexists _, _; split; [reflexivity|done]). Qed.
Lemma candidates_no_hyphen r : no_hyphen r → Forall no_hyphen (default_branch_candidates r).
Proof.
  intros Hr. constructor; [done|]. apply Forall_forall. intros b [_ Hb]%list_elem_of_filter. by apply default_no_hyphen.
Qed.

Section options.
Context (repo_path name url : pystr) (Hpath : option_free repo_path) (Hurl : option_free url).
Abbreviation only := (adds_only (git_event_ok name)).
Abbreviation ok_arg := (λ a, option_free a ∨ a ∈ GIT_OPTIONS ∨ a = name).

Lemma arg_app r s : no_hyphen r → ok_arg (r ++ s).
Proof. intros H. by left; apply no_hyphen_free, no_hyphen_app. Qed.
Lemma arg_ref r : no_hyphen r → ok_arg r.
Proof. intros H. by left; apply no_hyphen_free. Qed.
Lemma arg_prefixed p s : match p with c :: _ => c ≠ 45 | [] => False end → ok_arg (p ++ s).
Proof. intros H. destruct p as [|c p]; [done|]. apply arg_app. by exists c, p. Qed.

Ltac arg :=
  first [ assumption | by left | by left; vm_compute | by right; left; by_decide | by right; right
        | by apply arg_ref | by apply arg_app | by apply arg_prefixed ].
Ltac args := unfold git_event_ok, fixed_options, rev_parse, checkout, pull, fetch, in_repo; split; [reflexivity|]; repeat (constructor; [arg|]); try constructor.
Ltac only_steps := repeat only_step; try args.

Section one_ref.
Context (r : pystr) (Hr : no_hyphen r).
Lemma only_already_at p : only (already_at repo_path r p).
Proof using Hpath Hr. unfold already_at. only_steps.
Qed.
Lemma only_checkout_or_fetch : only (checkout_or_fetch repo_path r).
Proof using Hpath Hr. unfold checkout_or_fetch, _fetch_commit_with_fallback. only_steps. Qed.
Lemma only_checkout_and_pull : only (_try_checkout_and_pull_ref repo_path r true).
Proof using Hpath Hr. unfold _try_checkout_and_pull_ref. only_steps. Qed.
Lemma only_tag : only (_try_fetch_and_checkout_tag repo_path r).
Proof using Hpath Hr. unfold _try_fetch_and_checkout_tag. only_steps. Qed.
Lemma only_as_branch : only (_try_checkout_as_branch repo_path r).
Proof using Hpath Hr. unfold _try_checkout_as_branch. only_steps. Qed.
End one_ref.

Lemma only_first_branch bs : Forall no_hyphen bs → only (first_branch repo_path bs).
Proof using Hpath.
  induction 1 as [|b bs Hb _ IH]; cbn [first_branch]; [apply only_ret|].
  apply only_bind; [by apply only_checkout_and_pull|]. intros []; [apply only_ret|done].
Qed.
Lemma only_fallback bs : Forall no_hyphen bs → only (_fallback_to_default_branches repo_path bs).
Proof using Hpath.
  induction 1 as [|b bs Hb _ IH]; cbn [_fallback_to_default_branches]; [apply only_ret|].
  apply only_bind; [only_steps|]. intros []; [apply only_ret|done].
Qed.
Lemma only_update is_branch r is_default :
  no_hyphen r → only (_update_existing_repo_to_branch_or_tag repo_path is_branch r is_default).
Proof using Hpath.
  intros Hr. unfold _update_existing_repo_to_branch_or_tag. apply only_bind; [only_steps|]. intros go_on.
  destruct (negb go_on); [apply only_ret|].
  destruct is_default; [by apply only_first_branch, candidates_no_hyphen|].
  destruct is_branch; [by apply only_checkout_and_pull|].
  apply only_bind; [by apply only_already_at|]. intros []; [apply only_ret|].
  apply only_bind; [by apply only_tag|]. intros []; [apply only_ret|].
  apply only_bind; [by apply only_as_branch|]. intros []; [apply only_ret|].
  apply only_fallback, Forall_forall, default_no_hyphen.
Qed.
Lemma only_update_commit r : no_hyphen r → only (_update_existing_repo_to_commit repo_path r).
Proof using Hpath.
  intros Hr. apply only_try; [|intros e; apply only_ret]. apply only_bind; [by apply only_already_at|].
  intros []; [apply only_ret|by apply only_checkout_or_fetch].
Qed.
Lemma clone_fixed b : match b with Some b => no_hyphen b | None => True end → fixed_options name (clone b url name).
Proof using Hurl. intros Hb. destruct b; unfold clone; cbn [Datatypes.app]; args. Qed.
Lemma only_clone_commit r dirs_fail : no_hyphen r → only (_clone_new_repo_to_commit repo_path url r name dirs_fail).
Proof using Hpath Hurl.
  intros Hr. unfold _clone_new_repo_to_commit. destruct dirs_fail; [apply only_ret|].
  apply only_bind; [by apply only_emit|intros ?]. apply only_try; [|intros e; apply only_ret].
  apply only_bind; [by apply only_run; intros ?; apply (clone_fixed None)|intros ?]. apply only_bind; [by apply only_already_at|].
  intros []; [apply only_ret|by apply only_checkout_or_fetch].
Qed.
Lemma only_try_clones is_branch is_default r cs :
  no_hyphen r → Forall (fixed_options name) cs → only (try_clones repo_path is_branch is_default r cs).
Proof using Hpath.
  intros Hr. induction 1 as [|c cs Hc _ IH]; cbn [try_clones]; [apply only_ret|].
  apply only_bind; [|intros [[]|]; [apply only_ret|apply only_ret|done]].
  apply only_try; [|intros e; apply only_ret].
  apply only_bind; [by apply only_emit|intros ?]. apply only_bind; [by apply only_run; intros ?|intros ?].
  apply only_bind; [|intros ?; apply only_ret]. unfold post_clone.
  destruct is_branch, is_default; try apply only_ret; try by apply only_as_branch.
  all: apply only_bind; [by apply only_already_at|]; intros []; [apply only_ret|by apply only_tag].
Qed.
Lemma clone_commands_fixed is_branch is_default r :
  no_hyphen r → Forall (fixed_options name) (clone_commands is_branch is_default url r name).
Proof using Hurl.
  intros Hr. unfold clone_commands. destruct is_default.
  - apply Forall_app. split; [|by apply Forall_singleton, (clone_fixed None)].
    apply Forall_fmap. eapply Forall_impl; [by apply candidates_no_hyphen|]. intros b Hb. by apply (clone_fixed (Some b)).
  - destruct is_branch; [|by apply Forall_singleton, (clone_fixed None)].
    constructor; [by apply (clone_fixed (Some r))|]. by apply Forall_singleton, (clone_fixed None).
Qed.

Lemma only_local_head : only (_resolve_local_head_commit repo_path).
Proof using Hpath. unfold _resolve_local_head_commit. only_steps. Qed.
Lemma only_remote_head b : only (_resolve_remote_branch_head_commit repo_path b).
Proof using Hpath. unfold _resolve_remote_branch_head_commit, HEADS. only_steps. Qed.
Lemma only_first_remote bs : only (first_remote_branch repo_path bs).
Proof using Hpath.
  induction bs as [|b bs IH]; cbn [first_remote_branch]; [apply only_ret|].
  apply only_bind; [apply only_remote_head|]. intros []; [apply only_ret|done].
Qed.
Lemma only_pin_check isoformat parse compare now state :
  only (_check_commit_pin_for_upstream_updates repo_path isoformat parse compare now state).
Proof using Hpath.
  apply only_try; [|intros e; apply only_ret]. destruct (checked_recently _ _ _); [apply only_ret|].
  apply only_bind; [apply only_local_head|intros p]. apply only_bind.
  { apply only_bind; [only_steps|]. intros []; [apply only_ret|apply only_first_remote]. }
  intros d. apply only_bind; [|intros h; apply only_ret].
  destruct d as [b|]; [destruct (nonempty b); [apply only_remote_head|apply only_ret]|apply only_ret].
Qed.
End options.

Lemma only_validated repo_path v present dirs_fail :
  option_free repo_path → option_free (vr_repo_url v) → no_hyphen (vr_ref_value v) →
  adds_only (git_event_ok (vr_repo_name v)) (_clone_or_update_repo_validated repo_path v present dirs_fail).
Proof.
  intros Hpath Hurl Hr. apply only_try; [|intros e; apply only_ret].
  destruct present, (bool_decide (vr_ref_type v = RefCommit)).
  - by apply only_update_commit.
  - by apply only_update.
  - by apply only_clone_commit.
  - by apply only_try_clones, clone_commands_fixed.
Qed.


Section untrusted.
Context (bracketed_ok netloc_ok : pystr → bool).

(** What validation establishes for git. *)
Lemma validated_parts config exists_ repo_url type_ value v :
  _validate_clone_inputs bracketed_ok netloc_ok config exists_ repo_url type_ value = Ok (Some v) →
  vr_repo_url v = strip repo_url ∧ vr_repo_url v ≠ [] ∧ option_free (vr_repo_url v) ∧ no_hyphen (vr_ref_value v) ∧
  vr_ref_value v = strip value ∧
  _get_repo_name_from_url bracketed_ok netloc_ok (strip repo_url) = Ok (Some (vr_repo_name v)).
Proof.
  unfold _validate_clone_inputs. destruct (_is_repo_url_allowed _ _ _ _ _) as [[]|e] eqn:Ea; try done.
  cbn [res_bind negb]. destruct (ref_type_of type_) as [t|]; [|done].
  destruct (strip value) as [|c s] eqn:Es; [done|]. cbn [nonempty negb].
  destruct (startswith (c :: s) (u "-")) eqn:Eh; [done|].
  destruct (match t with RefCommit => _ | _ => _ end); [|done]. cbn [negb].
  destruct (_get_repo_name_from_url _ _ _) as [[n|]|]; try done. cbn [res_bind]. intros [= <-].
  cbn [vr_repo_url vr_ref_value vr_repo_name]. split; [done|].
  unfold _is_repo_url_allowed in Ea. rewrite strip_idemp in Ea. unfold option_free.
  destruct (strip repo_url) as [|d u']; [done|]. cbn [nonempty negb] in Ea.
  destruct (startswith (d :: u') (u "-")); [done|]. do 2 (split; [done|]).
  split; [|done]. exists c, s. split; [done|]. intros ->. destruct s; by vm_compute in Eh.
Qed.

(** No option can be passed to git through the address or the reference of a plugin: the arguments
    that start with a hyphen are the fixed options - or the name that the address gives the clone. *)
Theorem no_injected_option config exists_ repo_url type_ value repo_path present dirs_fail results r s' cmd o arg :
  clone_or_update_repo repo_path bracketed_ok netloc_ok config exists_ repo_url type_ value present dirs_fail
    {| gs_results := results; gs_log := [] |} = (r, s') →
  option_free repo_path → Ran cmd o ∈ gs_log s' → arg ∈ cmd → startswith arg (u "-") = true →
  arg ∈ GIT_OPTIONS ∨ _get_repo_name_from_url bracketed_ok netloc_ok (strip repo_url) = Ok (Some arg).
Proof.
  intros H Hpath Hc Harg Hopt. unfold clone_or_update_repo in H.
  destruct (_validate_clone_inputs _ _ _ _ _ _ _) as [[v|]|e] eqn:Ev.
  2: by injection H as <- <-; apply not_elem_of_nil in Hc.
  2: by injection H as <- <-; apply not_elem_of_nil in Hc.
  apply validated_parts in Ev as (Hu & _ & Hfree & Hr & _ & Hn).
  assert (Hcmd : git_event_ok (vr_repo_name v) (Ran cmd o)).
  { destruct (only_validated repo_path v present dirs_fail Hpath Hfree Hr {| gs_results := results; gs_log := [] |})
      as (new & Hlog & Hnew).
    rewrite H in Hlog. cbn [snd gs_log] in Hlog. rewrite app_nil_r in Hlog. subst new.
    rewrite Forall_forall in Hnew. by apply Hnew. }
  destruct Hcmd as [_ Hcmd]. rewrite Forall_forall in Hcmd. destruct (Hcmd arg Harg) as [Hf|[Hf| ->]]; [|by left|by right].
  unfold option_free in Hf. congruence.
Qed.
End untrusted.

(** ** Pinned commits *)

Section pin_theorems.
Context (repo_path : pystr) (isoformat : Z → pystr) (parse_timestamp : pystr → option Z).
(** A time that was written reads back. *)
Context (iso_roundtrip : ∀ t, nonempty (strip (isoformat t)) = true ∧ parse_timestamp (isoformat t) = Some t).
Abbreviation check := (_check_commit_pin_for_upstream_updates repo_path isoformat parse_timestamp).

Lemma dget_none_dset_ne d k k' v : k ≠ k' → dget_none (dset d k v) k' = dget_none d k'.
Proof. intros Hk. unfold dget_none, dget_or. by rewrite dget_dset_ne. Qed.
Lemma dget_none_dset_eq d k v : dget_none (dset d k v) k = v.
Proof. unfold dget_none, dget_or. by rewrite dget_dset_eq. Qed.
Lemma note_seen_notified state d h : last_notified (note_seen state d h) = last_notified state.
Proof. unfold last_notified, note_seen. destruct d, h; by rewrite ?dget_none_dset_ne. Qed.

Lemma bind_done {A B} (m : G A) (k : A → G B) s b s' :
  g_bind m k s = (Done b, s') → ∃ a s1, m s = (Done a, s1) ∧ k a s1 = (Done b, s').
Proof. unfold g_bind. destruct (m s) as [[a|e|] s1]; [|done|done]. intros H. by exists a, s1. Qed.
Lemma try_done {A} p (m : G A) h s b s' :
  g_try p m h s = (Done b, s') → m s = (Done b, s') ∨ ∃ e s1, m s = (Failed e, s1) ∧ h e s1 = (Done b, s').
Proof.
  unfold g_try. destruct (m s) as [[a|e|] s1]; [by left| |done]. destruct (p e); [|done]. intros H. right. by exists e, s1.
Qed.
(** A check that saves something. *)
Lemma check_saves compare now state s state' n s1 :
  check compare now state s = (Done (Some (state', n)), s1) →
  ∃ p d h, let noted := note_seen state d h in
    n = notify compare noted p h ∧
    state' = dset (match n with
                   | Some n => dset noted (u "last_notified_upstream_head") (VStr (nt_upstream n))
                   | None => noted end) (u "last_checked_at") (VStr (isoformat now)).
Proof.
  intros [H|(e & s2 & _ & H)]%try_done; [|done].
  destruct (checked_recently _ _ _); [done|].
  apply bind_done in H as (p & s2 & _ & H). apply bind_done in H as (d & s3 & _ & H).
  apply bind_done in H as (h & s4 & _ & H). injection H as <- <- <-. eexists p, _, h. split; reflexivity.
Qed.

(** After a check, no other one is made for a day: git is not run at all. *)
Theorem pin_check_throttled compare now state s state' n s1 now' s2 :
  check compare now state s = (Done (Some (state', n)), s1) →
  now' < now + COMMUNITY_PLUGIN_UPDATE_CHECK_INTERVAL →
  check compare now' state' s2 = (Done None, s2).
Proof using iso_roundtrip.
  intros (p & d & h & _ & ->)%check_saves Hnow. destruct (iso_roundtrip now) as [Hne Hiso].
  unfold _check_commit_pin_for_upstream_updates, checked_recently.
  rewrite dget_none_dset_eq. cbn [_parse_state_timestamp]. rewrite Hne, Hiso.
  by rewrite (proj2 (Z.ltb_lt _ _)) by lia.
Qed.

(** Nobody is told twice in a row of the same commit: whatever git answers, a notice is of another
    commit than the one last told of and than the pinned one, and it is noted. *)
Theorem pin_notice_new compare now state s state' n s1 :
  check compare now state s = (Done (Some (state', Some n)), s1) →
  nt_upstream n ≠ nt_pinned n ∧ last_notified state ≠ nt_upstream n ∧ last_notified state' = nt_upstream n.
Proof.
  intros (p & d & h & Hn & ->)%check_saves. unfold notify in Hn. rewrite note_seen_notified in Hn.
  destruct p as [p|], h as [h|]; [|done..]. destruct (str_eqb h p) eqn:E1; [done|].
  destruct (str_eqb h (last_notified state)) eqn:E2; [done|]. injection Hn as ->. cbn [nt_upstream nt_pinned].
  assert (Hneq : ∀ a b, str_eqb a b = false → a ≠ b) by (intros a b Hab <-; by rewrite str_eqb_refl in Hab).
  split; [by apply Hneq|]. split; [intros He; by apply (Hneq _ _ E2)|].
  unfold last_notified. by rewrite dget_none_dset_ne, dget_none_dset_eq.
Qed.
End pin_theorems.

(** ** What modelling showed *)

(** A repository whose name starts with a hyphen is an option of [git clone]. *)
Lemma name_is_clone_option :
  let cmd := [u "git"; u "clone"; u "--filter=blob:none"; u "--branch"; u "main";
              u "ssh://git@github.com/a/--config=core.sshCommand=evil.git"; u "--config=core.sshCommand=evil"] in
  let '(r, s) := clone_or_update_repo (u "/p/--config=core.sshCommand=evil") no_check no_check VNone (λ _, false)
                   (u "ssh://git@github.com/a/--config=core.sshCommand=evil.git") (u "branch") (u "main") false false
                   {| gs_results := [RunOk []]; gs_log := [] |} in
  r = Done true ∧ gs_log s = [Ran cmd (RunOk []); RemovedTree] ∧
  _is_safe_plugin_name (u "--config=core.sshCommand=evil") = true.
Proof. vm_compute. done. Qed.

(** A tag that origin does not have: the update of an existing clone ends well, at the main branch,
    where the fetch of a new clone fails. *)
Definition missing_tag : ValidationResult :=
  {| vr_repo_url := u "https://github.com/a/b"; vr_ref_type := RefTag; vr_ref_value := u "v9"; vr_repo_name := u "b" |}.
Lemma missing_tag_becomes_main :
  let results := [RunOk []; RunOk (u "1"); RunFails] ++ repeat RunFails 12 ++ [RunOk []; RunOk []] in
  let '(r, s) := _clone_or_update_repo_validated (u "/p/b") missing_tag true false {| gs_results := results; gs_log := [] |} in
  r = Done true ∧
  ∃ l, gs_log s = Ran (pull (u "/p/b") (u "main")) (RunOk []) :: Ran (checkout (u "/p/b") (u "main")) (RunOk []) :: l.
Proof. vm_compute. split; [reflexivity|]. eexists. reflexivity. Qed.

(** ** Applications *)

Lemma repository_at_ref_witness :
  ∃ s', _clone_or_update_repo_validated (u "/p/b") missing_tag true false
          {| gs_results := [RunOk []; RunOk (u "1"); RunFails; RunOk []; RunOk []]; gs_log := [] |} = (Done true, s') ∧
        arrived (u "/p/b") missing_tag true (gs_log s').
Proof.
  eexists. split; [vm_compute; reflexivity|]. apply (repository_at_ref (u "/p/b") missing_tag true false
    {| gs_results := [RunOk []; RunOk (u "1"); RunFails; RunOk []; RunOk []]; gs_log := [] |}). vm_compute. reflexivity.
Defined.

Lemma fetch_answers_witness :
  ∃ b s', _clone_or_update_repo_validated (u "/p/b") missing_tag true false
            {| gs_results := repeat RunTimesOut 24; gs_log := [] |} = (Done b, s') ∧
          (length (repeat RunTimesOut 24) ≤ length (gs_results s') + 24)%nat.
Proof.
  apply (fetch_answers (u "/p/b")); try (vm_compute; reflexivity).
  cbn. intros H. repeat (apply elem_of_cons in H as [H|H]; [discriminate|]). inversion H.
Defined.

Lemma no_injected_option_witness :
  let url := u "https://github.com/a/b" in
  ∃ s', clone_or_update_repo (u "/p/b") no_check no_check VNone (λ _, false) url (u "branch") (u "main") false false
          {| gs_results := [RunOk []]; gs_log := [] |} = (Done true, s') ∧
        (u "--branch" ∈ GIT_OPTIONS ∨ _get_repo_name_from_url no_check no_check (strip url) = Ok (Some (u "--branch"))).
Proof.
  intros url. eexists. split; [vm_compute; reflexivity|].
  eapply (no_injected_option no_check no_check VNone (λ _, false) url (u "branch") (u "main") (u "/p/b") false false [RunOk []] (Done true)
    _ (clone (Some (u "main")) url (u "b")) (RunOk [])).
  - vm_compute. reflexivity.
  - vm_compute. reflexivity.
  - left.
  - right. right. right. left.
  - vm_compute. reflexivity.
Defined.

Definition iso (t : Z) : pystr := u "t" ++ [t].
Definition iso_parse (s : pystr) : option Z := match s with [116; t] => Some t | _ => None end.
Definition pin_run (state : pydict) : git_state → ran (option (pydict * option notice)) * git_state :=
  _check_commit_pin_for_upstream_updates (u "/p/b") iso iso_parse (λ _ _, None) 1000 state.
Definition pin_answers : git_state :=
  {| gs_results := [RunOk (repeat 97 40); RunOk (u "ref: refs/heads/main HEAD"); RunOk (repeat 98 40)]; gs_log := [] |}.

Lemma iso_roundtrip_holds t : nonempty (strip (iso t)) = true ∧ iso_parse (iso t) = Some t.
Proof.
  split; [|done]. apply (inked_app (u "t") [t]). left. by vm_compute.
Defined.

Lemma pin_check_throttled_witness :
  ∃ state' n s1, pin_run [] pin_answers = (Done (Some (state', n)), s1) ∧
    _check_commit_pin_for_upstream_updates (u "/p/b") iso iso_parse (λ _ _, None) 2000 state' pin_answers
    = (Done None, pin_answers).
Proof.
  eexists _, _, _. split; [vm_compute; reflexivity|].
  eapply (pin_check_throttled (u "/p/b") iso iso_parse iso_roundtrip_holds (λ _ _, None) 1000 [] pin_answers); [vm_compute; reflexivity|].
  vm_compute. reflexivity.
Defined.

Lemma pin_notice_new_witness :
  ∃ state' n s1, pin_run [] pin_answers = (Done (Some (state', Some n)), s1) ∧
    nt_upstream n ≠ nt_pinned n ∧ last_notified [] ≠ nt_upstream n ∧ last_notified state' = nt_upstream n.
Proof.
  eexists _, _, _. split; [vm_compute; reflexivity|].
  apply (pin_notice_new (u "/p/b") iso iso_parse (λ _ _, None) 1000 [] pin_answers _ _
           (pin_run [] pin_answers).2). vm_compute. reflexivity.
Defined.
