(* ===== verification/PluginInstall.v ===== *)
(** * Preparing community plugins

    Models, of [plugin_loader.py], where the requirements of a plugin are installed and how an
    installation is recorded, the installation, and what is done for one entry of the community
    plugins: the choice of the reference, the checks, the fetch, the look at a pinned commit, and the
    gate of the installation.

    Commands are run by the programs of [PluginRepos].  The files of the repository are inputs: those
    that are there after the fetch. *)

From Stdlib Require Import String.
From stdpp Require Import base tactics list numbers sets.
From S2P Require Import Prelude PyStr PyValue PyLib PluginSecurity PluginRepos.
Open Scope Z_scope.

(** ** Where requirements go *)

(** The interpreter and its directories.  [pe_deps_dir] is no empty path; [pe_pipx]: one of the PIPX
    variables is set, [pe_pipx_home]: one other than PIPX_BIN_DIR is;
    [pe_site_packages]: [site.getsitepackages()]; [pe_purelib]: the paths of the two schemes;
    [pe_user_site]: [site.getusersitepackages()], one or several paths; [pe_writable]: a directory
    that can be written. *)
Record py_env := {
  pe_executable : pystr; pe_deps_dir : option pystr; pe_prefix : pystr; pe_base_prefix : pystr;
  pe_pipx : bool; pe_pipx_home : bool; pe_pipx_path : option pystr; pe_virtual_env : bool;
  pe_site_packages : option (list pystr); pe_purelib : list pystr; pe_user_site : option (pystr + list pystr);
  pe_cwd : pystr; pe_writable : pystr → bool; pe_realpath : pystr → pystr }.

Record RequirementsInstallTarget := { identity : pystr; marker_dir : option pystr }.

Section target.
Context (e : py_env).
Definition full (p : pystr) : pystr := abspath (pe_cwd e) p.

(** [prefix_path]: already absolute. *)
Definition _site_packages_for_prefix (prefix : pystr) : option pystr :=
  let candidates := default [] (pe_site_packages e) ++ filter (λ p, nonempty p = true) (pe_purelib e) in
  first_some (λ c, if _is_path_contained (pe_realpath e) (full prefix) (full c) then Some (full c) else None)
    candidates.

Definition _is_writable_directory (path : option pystr) : bool :=
  match path with Some p => nonempty p && pe_writable e p | None => false end.

(** The target of an environment with its own prefix. *)
Definition prefix_target (kind : pystr) : RequirementsInstallTarget :=
  let prefix := full (pe_prefix e) in
  let site_packages := _site_packages_for_prefix prefix in
  {| identity := kind ++ u ":" ++ prefix ++ u ":" ++
                 match site_packages with Some p => full p | None => u "site-packages:unknown" end;
     marker_dir := if _is_writable_directory site_packages then site_packages else None |}.

Definition in_venv : bool := negb (str_eqb (pe_prefix e) (pe_base_prefix e)) || pe_virtual_env e.

Definition _requirements_install_target : RequirementsInstallTarget :=
  match pe_deps_dir e with
  | Some d => {| identity := u "target:" ++ full d; marker_dir := Some (full d) |}
  | None =>
      if pe_pipx e then prefix_target (u "pipx")
      else if in_venv then prefix_target (u "python")
      else match pe_user_site e with
           | None => {| identity := u "user:unknown"; marker_dir := None |}
           | Some (inl p) =>
               {| identity := u "user:" ++ full p;
                  marker_dir := if _is_writable_directory (Some (full p)) then Some (full p) else None |}
           | Some (inr ps) =>
               {| identity := u "user:" ++ join (u ":") (full <$> ps);
                  marker_dir := find (λ p, _is_writable_directory (Some p)) (full <$> ps) |}
           end
  end.
Definition _requirements_install_target_identity : pystr := identity _requirements_install_target.

(** [sha256]: hexadecimal digests. *)
Context (sha256 : pystr → pystr).
Definition _requirements_hash (requirements : list pystr) : pystr := sha256 (join [10] requirements).
Definition _requirements_marker_repo_identity (repo_path repo_name : pystr) : pystr :=
  take 24 (sha256 (repo_name ++ u ":" ++ full repo_path)).
Definition _requirements_install_marker_path (repo_path repo_name : pystr) : pystr :=
  let marker_name := u ".mmrelay-requirements-installed-" ++
                     _requirements_marker_repo_identity repo_path repo_name ++ u ".json" in
  let d := match marker_dir _requirements_install_target with
           | Some d => if nonempty d then d else repo_path | None => repo_path end in
  path_join d marker_name.
End target.

(** The marker that an installation leaves. *)
Definition requirements_marker (repo_name requirements_hash target installed_at : pystr) : pydict :=
  [(u "requirements_hash", VStr requirements_hash); (u "target", VStr target);
   (u "installed_at", VStr installed_at); (u "repo", VStr repo_name)].
Definition holds_str (d : pydict) (k s : pystr) : bool :=
  match dget d k with Some (VStr t) => str_eqb t s | _ => false end.
(** [marker]: the contents of the marker's file when it can be read and holds a mapping. *)
Definition _requirements_install_target_valid (marker : option pydict) (repo_name requirements_hash target : pystr) : bool :=
  match marker with
  | None => false
  | Some m => holds_str m (u "requirements_hash") requirements_hash && holds_str m (u "target") target &&
              holds_str m (u "repo") repo_name
  end.

(** ** The repository of a plugin *)

(** [re_requirements]: the lines collected from the requirements file, None when there is none;
    [re_dirs], [re_merge], [re_marker_written]: what could be made, moved and written. *)
Record repo_env := {
  re_present : bool; re_dirs_fail : bool;
  re_requirements : option (res (list pystr));
  re_state : pydict; re_save : bool;
  re_marker : option pydict;
  re_dirs : bool; re_merge : bool; re_marker_written : bool }.

Definition pip_command (e : py_env) : list pystr :=
  [pe_executable e; u "-m"; u "pip"; u "install"; u "--disable-pip-version-check"; u "--no-input"].

Section install.
Context (config : pyval) (e : py_env) (sha256 : pystr → pystr) (isoformat : Z → pystr) (now : Z).
(** The names of the temporary directory and file. *)
Context (staged_dir temp_path : pystr).

Definition g_res {A} (r : res A) : G A := match r with Ok a => g_ret a | Raise _ => g_raise BadCommand end.
Definition g_when (b : bool) (err : run_exc) : G unit := if b then g_ret tt else g_raise err.

Definition _effective (re : repo_env) : G (list pystr) :=
  match re_requirements re with
  | None => g_ret []
  | Some collected =>
      lines <- g_res collected;;
      eff <- g_res (_effective_requirements_for_repo config lines);;
      g_ret eff.1
  end.

(** The installation of the packages, if there are any. *)
Definition install_packages (re : repo_env) (safe_requirements : list pystr) : G bool :=
  let packages := _installable_requirement_lines safe_requirements in
  match pe_deps_dir e with
  | Some _ =>
      match packages with
      | [] => g_ret false
      | _ =>
          g_when (re_dirs re) OtherOSError;;
          g_emit (WroteRequirements safe_requirements);;
          _run 1 (pip_command e ++ [u "--target"; staged_dir; u "-r"; temp_path]);;
          g_when (re_merge re) OtherOSError;;
          g_emit MergedDependencies;;
          g_ret true
      end
  | None =>
      if pe_pipx e then
        match pe_pipx_path e with
        | None => g_raise FileNotFoundError
        | Some pipx_path =>
            match packages with
            | [] => g_ret false
            | _ =>
                g_emit (WroteRequirements safe_requirements);;
                _run 1 [pipx_path; u "inject"; u "mmrelay"; u "--requirement"; temp_path];;
                g_ret true
            end
        end
      else
        match packages with
        | [] => g_ret false
        | _ =>
            g_emit (WroteRequirements safe_requirements);;
            _run 1 (pip_command e ++ (if in_venv e then [] else [u "--user"]) ++ [u "-r"; temp_path]);;
            g_ret true
        end
  end.

(** Whether packages were installed matters only for the import paths. *)
Definition _install_requirements_for_repo (re : repo_env) (repo_name target : pystr) : G bool :=
  match re_requirements re with
  | None => g_ret true
  | Some _ =>
      g_try git_any_error
        (safe_requirements <- _effective re;;
         install_packages re safe_requirements;;
         g_when (re_marker_written re) OtherOSError;;
         g_emit (WroteMarker (requirements_marker repo_name (_requirements_hash sha256 safe_requirements)
                                target (isoformat now)));;
         g_ret true)
        (λ _, g_ret false)
  end.

Definition LAST_COMMIT : pystr := u "last_installed_requirements_commit".
Definition LAST_HASH : pystr := u "last_installed_requirements_hash".
Definition LAST_TARGET : pystr := u "last_installed_requirements_target".
Definition LAST_AT : pystr := u "last_requirements_installed_at".

Definition state_matches_requirements (state : pydict) (pinned_sha requirements_hash target : pystr) : bool :=
  holds_str state LAST_COMMIT pinned_sha && holds_str state LAST_HASH requirements_hash &&
  holds_str state LAST_TARGET target.
Definition installed_state (state : pydict) (pinned_sha requirements_hash target : pystr) : pydict :=
  dset (dset (dset (dset state LAST_COMMIT (VStr pinned_sha)) LAST_HASH (VStr requirements_hash))
          LAST_TARGET (VStr target)) LAST_AT (VStr (isoformat now)).
Definition _save_plugin_state (re : repo_env) (state : pydict) : G unit :=
  if re_save re then g_emit (SavedState state) else g_ret tt.

(** What is done for [install_requirements]: [state] is what the state file holds then. *)
Definition install_stage (repo_path : pystr) (re : repo_env) (state : pydict) (repo_name : pystr) : G unit :=
  pinned <- _resolve_local_head_commit repo_path;;
  match pinned with
  | None => g_ret tt
  | Some pinned_sha =>
      match re_requirements re with
      | None => g_ret tt
      | Some _ =>
          allowed <- _effective re;;
          let requirements_hash := _requirements_hash sha256 allowed in
          let target := _requirements_install_target_identity e in
          if state_matches_requirements state pinned_sha requirements_hash target &&
             _requirements_install_target_valid (re_marker re) repo_name requirements_hash target
          then g_ret tt
          else
            ok <- _install_requirements_for_repo re repo_name target;;
            if ok then _save_plugin_state re (installed_state state pinned_sha requirements_hash target) else g_ret tt
      end
  end.

(** ** One entry of the community plugins *)

(** An optional text: None is also no value given; [Raise] when it is something else. *)
Definition text_field (info : pydict) (k : pystr) : res (option pystr) :=
  match dget_none info k with
  | VNone => Ok None
  | VStr s => Ok (Some s)
  | _ => Raise TypeError
  end.
Definition given (o : option pystr) : option pystr := match o with Some s => if nonempty s then Some s else None | None => None end.

(** The reference to use, and whether it was given. *)
Definition choose_ref (commit tag branch : option pystr) : pystr * pystr * bool :=
  match given commit, given tag, given branch with
  | Some c, _, _ => (u "commit", c, true)
  | None, Some t, _ => (u "tag", t, true)
  | None, None, Some b => (u "branch", b, true)
  | None, None, None => (u "branch", default [] (head DEFAULT_BRANCHES), false)
  end.

Context (bracketed_ok netloc_ok : pystr → bool) (exists_ : pystr → bool).
Context (parse_timestamp : pystr → option Z).

(** Whether a reference is good for an installation. *)
Definition install_eligible (type_ value : pystr) (has_explicit_ref : bool) : bool :=
  has_explicit_ref && negb (str_eqb type_ (u "commit") && negb (_is_full_commit_sha (strip value))).

(** What follows a fetch. *)
Definition after_fetch (v : ValidationResult) (repo_path type_ value : pystr) (has_explicit_ref : bool)
    (install_requirements : bool) (re : repo_env) : G bool :=
  checked <- (if str_eqb type_ (u "commit") then
                _check_commit_pin_for_upstream_updates repo_path isoformat parse_timestamp
                  (λ base head, match _build_compare_url bracketed_ok netloc_ok (vr_repo_url v) base head with
                                | Ok l => l | Raise _ => None end) now (re_state re)
              else g_ret None);;
  state <- (match checked with
            | Some (state', _) =>
                _save_plugin_state re state';; g_ret (if re_save re then state' else re_state re)
            | None => g_ret (re_state re)
            end);;
  (if install_requirements && install_eligible type_ value has_explicit_ref
   then install_stage repo_path re state (vr_repo_name v) else g_ret tt);;
  g_ret true.

(** The part after the checks: true when the plugin is ready. *)
Definition fetch_and_install (v : ValidationResult) (repo_path type_ value : pystr) (has_explicit_ref : bool)
    (install_requirements : bool) (re : repo_env) : G bool :=
  success <- clone_or_update_repo repo_path bracketed_ok netloc_ok config exists_ (vr_repo_url v) type_ value
               (re_present re) (re_dirs_fail re);;
  if negb success then g_ret false
  else after_fetch v repo_path type_ value has_explicit_ref install_requirements re.

(** [community_plugins_dir]: the first of the directories, None when there is none. *)
Definition prepare_community (community_plugins_dir : option pystr) (plugin_info : pyval) (re : repo_env) : G bool :=
  match plugin_info with
  | VDict info =>
      match dget_or info (u "active") (VBool false) with
      | VBool true =>
          match text_field info (u "repository"), text_field info (u "commit"), text_field info (u "tag"),
                text_field info (u "branch") with
          | Ok repo_url, Ok commit, Ok tag, Ok branch =>
              let install_requirements := match dget_or info (u "install_requirements") (VBool false) with
                                          | VBool b => b | _ => false end in
              let '(type_, value, has_explicit_ref) := choose_ref commit tag branch in
              match given repo_url, community_plugins_dir with
              | Some url, Some dir =>
                  validation <- g_res (_validate_clone_inputs bracketed_ok netloc_ok config exists_ url type_ value);;
                  match validation with
                  | None => g_ret false
                  | Some v =>
                      let repo_path := path_join dir (vr_repo_name v) in
                      if negb (_is_safe_plugin_name (vr_repo_name v)) then g_ret false
                      else if negb (_is_path_contained (pe_realpath e) dir repo_path) then g_ret false
                      else fetch_and_install v repo_path type_ value has_explicit_ref install_requirements re
                  end
              | _, _ => g_ret false
              end
          | _, _, _, _ => g_ret false
          end
      | _ => g_ret false
      end
  | _ => g_ret false
  end.
End install.

(** ** What is run and written *)

Lemma isabs_path_free dir name : isabs dir = true → option_free (path_join dir name).
Proof.
  intros [q ->]%isabs_slash. unfold path_join. destruct (isabs name) eqn:En.
  - apply isabs_slash in En as [q' ->]. apply no_hyphen_free. by exists SLASH, q'.
  - destruct (_ || _); apply no_hyphen_free; [by exists SLASH, (q ++ name)|by exists SLASH, (q ++ [SLASH] ++ name)].
Qed.

Ltac by_last := repeat first [by left | right].

Section gate.
Context (config : pyval) (e : py_env) (sha256 : pystr → pystr) (isoformat : Z → pystr) (now : Z).
Context (staged_dir temp_path : pystr) (bracketed_ok netloc_ok exists_ : pystr → bool).
Context (parse_timestamp : pystr → option Z).

Lemma only_g_res {A} C (r : res A) : adds_only C (g_res r).
Proof. destruct r; [apply only_ret|apply only_raise]. Qed.
Lemma only_when C b err : adds_only C (g_when b err).
Proof. destruct b; [apply only_ret|apply only_raise]. Qed.

(** The lines of a repository that may be installed. *)
Definition effective_lines (re : repo_env) (lines : list pystr) : Prop := ∀ s, _effective config re s = (Done lines, s).
Lemma effective_inv re s r s' :
  _effective config re s = (r, s') → s' = s ∧ ∀ lines, r = Done lines → effective_lines re lines.
Proof.
  unfold effective_lines, _effective. destruct (re_requirements re) as [[collected|err]|]; cbn [g_res].
  - unfold g_bind, g_res, g_ret. destruct (_effective_requirements_for_repo config collected) as [[a f]|];
      intros [= <- <-]; (split; [done|]); by intros lines [= <-].
  - intros [= <- <-]. split; [done|]. by intros lines [=].
  - intros [= <- <-]. split; [done|]. by intros lines [= <-].
Qed.
Lemma effective_lines_vetted re lines :
  effective_lines re lines → allow_untrusted_dependencies config = false → Forall vetted_line lines.
Proof.
  intros H Hu. specialize (H {| gs_results := []; gs_log := [] |}). unfold _effective in H.
  destruct (re_requirements re) as [[collected|err]|]; cbn [g_res] in H; [|done|].
  - unfold g_bind, g_res, g_ret in H. destruct (_effective_requirements_for_repo config collected) as [[a f]|] eqn:E; [|done].
    injection H as <-. by apply (effective_vetted config collected a f).
  - injection H as <-. constructor.
Qed.

(** What an installation does, for any property of it. *)
Section events.
Context (C : git_event → Prop) (re : repo_env) (repo_name target : pystr).
Context (Hran : ∀ cmd r, C (Ran cmd r)) (Hmerged : C MergedDependencies).
Context (Hlines : ∀ lines, effective_lines re lines → C (WroteRequirements lines)).
Context (Hmarker : ∀ lines, effective_lines re lines →
  C (WroteMarker (requirements_marker repo_name (_requirements_hash sha256 lines) target (isoformat now)))).

Lemma only_packages lines :
  effective_lines re lines → adds_only C (install_packages e staged_dir temp_path re lines).
Proof using Hran Hmerged Hlines.
  intros Hl. unfold install_packages.
  destruct (pe_deps_dir e); [|destruct (pe_pipx e); [destruct (pe_pipx_path e); [|apply only_raise]|]];
    (destruct (_installable_requirement_lines lines); [apply only_ret|]);
    repeat lazymatch goal with
    | |- adds_only _ (g_bind _ _) => apply only_bind; [|intros ?]
    | |- adds_only _ (g_when _ _) => apply only_when
    | |- adds_only _ (g_emit _) => apply only_emit; auto
    | |- adds_only _ (g_ret _) => apply only_ret
    | |- adds_only _ (_run ?n ?c) => apply (only_run _ n c); auto
    end.
Qed.

Lemma only_after_effective {A} (k : list pystr → G A) :
  (∀ lines, effective_lines re lines → adds_only C (k lines)) → adds_only C (g_bind (_effective config re) k).
Proof.
  intros Hk s. unfold g_bind. destruct (_effective config re s) as [r s1] eqn:E.
  apply effective_inv in E as [-> E]. destruct r as [lines|err|]; [|by exists []|by exists []].
  apply Hk. by apply E.
Qed.

Lemma only_install :
  adds_only C (_install_requirements_for_repo config e sha256 isoformat now staged_dir temp_path re repo_name target).
Proof using Hran Hmerged Hlines Hmarker.
  unfold _install_requirements_for_repo. destruct (re_requirements re); [|apply only_ret].
  apply only_try; [|intros err; apply only_ret]. apply only_after_effective. intros lines Hl.
  apply only_bind; [by apply only_packages|intros ?]. apply only_bind; [apply only_when|intros ?].
  apply only_bind; [apply only_emit; auto|intros ?; apply only_ret].
Qed.
End events.

(** The plugin's entry allows an installation: it is active and asks for it, its reference is given,
    and a commit is given in full. *)
Definition install_allowed (plugin_info : pyval) : Prop :=
  ∃ info commit tag branch type_ value,
    plugin_info = VDict info ∧ dget_or info (u "active") (VBool false) = VBool true ∧
    dget_or info (u "install_requirements") (VBool false) = VBool true ∧
    text_field info (u "commit") = Ok commit ∧ text_field info (u "tag") = Ok tag ∧
    text_field info (u "branch") = Ok branch ∧ choose_ref commit tag branch = (type_, value, true) ∧
    (type_ = u "commit" → _is_full_commit_sha (strip value) = true).

Definition community_event_ok (allowed : Prop) (ev : git_event) : Prop :=
  match ev with
  | Ran cmd _ => head cmd = Some (u "git") ∨ allowed
  | WroteRequirements lines => allowed ∧ (allow_untrusted_dependencies config = false → Forall vetted_line lines)
  | MergedDependencies | WroteMarker _ => allowed
  | _ => True
  end.

Lemma only_git_allowed name {A} (P : Prop) (m : G A) :
  adds_only (git_event_ok name) m → adds_only (community_event_ok P) m.
Proof. intros H. eapply only_mono; [exact H|]. intros [] Hev; cbn in *; try done. left. by destruct Hev. Qed.
Lemma only_save P re state : adds_only (community_event_ok P) (_save_plugin_state re state).
Proof. unfold _save_plugin_state. destruct (re_save re); [by apply only_emit|apply only_ret]. Qed.

Lemma only_install_stage (P : Prop) repo_path re state repo_name :
  P → option_free repo_path →
  adds_only (community_event_ok P)
    (install_stage config e sha256 isoformat now staged_dir temp_path repo_path re state repo_name).
Proof.
  intros HP Hpath. unfold install_stage.
  apply only_bind; [by apply (only_git_allowed []), only_local_head|]. intros [pinned|]; [|apply only_ret].
  destruct (re_requirements re); [|apply only_ret].
  apply only_after_effective with (re := re). intros allowed _. cbn zeta. destruct (_ && _); [apply only_ret|].
  apply only_bind; [|intros []; [apply only_save|apply only_ret]].
  apply only_install; cbn; auto. intros lines Hl. split; [done|]. by apply (effective_lines_vetted re).
Qed.

Lemma only_after_fetch (P : Prop) v repo_path type_ value explicit install re :
  (install && install_eligible type_ value explicit = true → P) → option_free repo_path →
  adds_only (community_event_ok P)
    (after_fetch config e sha256 isoformat now staged_dir temp_path bracketed_ok netloc_ok parse_timestamp
       v repo_path type_ value explicit install re).
Proof.
  intros HP Hpath. apply only_bind.
  { destruct (str_eqb type_ (u "commit")); [by apply (only_git_allowed []), only_pin_check|apply only_ret]. }
  intros checked. apply only_bind.
  { destruct checked as [[state' n]|]; [|apply only_ret]. apply only_bind; [apply only_save|intros ?; apply only_ret]. }
  intros state. apply only_bind; [|intros ?; apply only_ret].
  destruct (install && _) eqn:Ei; [|apply only_ret]. apply only_install_stage; [by apply HP|done].
Qed.
Lemma only_fetch_and_install (P : Prop) v repo_path type_ value explicit install re :
  (install && install_eligible type_ value explicit = true → P) → option_free repo_path →
  adds_only (community_event_ok P)
    (fetch_and_install config e sha256 isoformat now staged_dir temp_path bracketed_ok netloc_ok exists_ parse_timestamp
       v repo_path type_ value explicit install re).
Proof.
  intros HP Hpath. unfold fetch_and_install. apply only_bind.
  { unfold clone_or_update_repo. destruct (_validate_clone_inputs _ _ _ _ _ _ _) as [[w|]|err] eqn:Ev;
      [|apply only_ret|apply only_raise].
    apply validated_parts in Ev as (_ & _ & Hfree & Hr & _). by eapply only_git_allowed, only_validated. }
  intros []; cbn [negb]; [|apply only_ret]. by apply only_after_fetch.
Qed.

(** C21: For an entry of the community plugins, whose directory (if there is one) is an absolute path: nothing
    but git is run, nothing is written for pip, and no dependency or marker is put in place, unless the
    entry allows an installation - it is active, asks for it and gives a reference, and a commit in full.
    The lines then written for pip are vetted ones only, as long as the configuration does not set
    [allow_untrusted_dependencies]; with that setting the flagged lines are let through too. *)
Theorem community_install_gate dir plugin_info re s r s' :
  prepare_community config e sha256 isoformat now staged_dir temp_path bracketed_ok netloc_ok exists_ parse_timestamp
    dir plugin_info re s = (r, s') →
  (∀ d, dir = Some d → isabs d = true) →
  ∃ new, gs_log s' = new ++ gs_log s ∧ Forall (community_event_ok (install_allowed plugin_info)) new.
Proof.
  intros H Hdir.
  enough (Ho : adds_only (community_event_ok (install_allowed plugin_info))
    (prepare_community config e sha256 isoformat now staged_dir temp_path bracketed_ok netloc_ok exists_ parse_timestamp
       dir plugin_info re)) by (specialize (Ho s); by rewrite H in Ho).
  clear H. unfold prepare_community. destruct plugin_info; try apply only_ret.
  destruct (dget_or d (u "active") (VBool false)) as [|active| | | | | | |] eqn:Eact; try apply only_ret.
  destruct active; [|apply only_ret].
  destruct (text_field d (u "repository")) as [url|]; [|apply only_ret].
  destruct (text_field d (u "commit")) as [commit|] eqn:Ec; [|apply only_ret].
  destruct (text_field d (u "tag")) as [tag|] eqn:Et; [|apply only_ret].
  destruct (text_field d (u "branch")) as [branch|] eqn:Eb; [|apply only_ret].
  destruct (choose_ref commit tag branch) as [[type_ value] explicit] eqn:Er.
  destruct (given url) as [url'|]; [|apply only_ret]. destruct dir as [dir|]; [|apply only_ret].
  apply only_bind; [apply only_g_res|]. intros [v|]; [|apply only_ret].
  destruct (_is_safe_plugin_name (vr_repo_name v)) eqn:Esafe; [|apply only_ret]. cbn [negb].
  destruct (_is_path_contained _ _ _); [|apply only_ret]. cbn [negb].
  apply only_fetch_and_install.
  - intros [Hi He]%andb_true_iff. unfold install_eligible in He. apply andb_true_iff in He as [-> He].
    exists d, commit, tag, branch, type_, value. repeat (split; [done|]).
    split; [destruct (dget_or d (u "install_requirements") _); try done; by rewrite Hi|].
    repeat (split; [done|]). intros ->. rewrite str_eqb_refl in He. cbn in He. by destruct (_is_full_commit_sha _).
  - apply isabs_path_free. by apply Hdir.
Qed.

(** ** What is recorded *)

Abbreviation stage := (install_stage config e sha256 isoformat now staged_dir temp_path).
Abbreviation install := (_install_requirements_for_repo config e sha256 isoformat now staged_dir temp_path).

Definition not_saved (ev : git_event) : Prop := match ev with SavedState _ => False | _ => True end.
Lemma not_saved_in {A} (m : G A) s r s' st :
  adds_only not_saved m → m s = (r, s') → SavedState st ∈ gs_log s' → SavedState st ∈ gs_log s.
Proof.
  intros Hm H Hin. destruct (Hm s) as (new & Hlog & Hnew). rewrite H in Hlog. cbn [snd] in Hlog. rewrite Hlog in Hin.
  apply elem_of_app in Hin as [Hin|Hin]; [|done]. rewrite Forall_forall in Hnew. by apply Hnew in Hin.
Qed.

(** Packages are handed to pip in a file, and a run that was given the file ended well. *)
Definition handed_to_pip (lines : list pystr) (l : list git_event) : Prop :=
  ∃ cmd out, WroteRequirements lines ∈ l ∧ Ran cmd (RunOk out) ∈ l ∧ temp_path ∈ cmd.

Lemma hoare_emit_in (ev : git_event) : hoare anything (g_emit ev) (λ _ l, ev ∈ l).
Proof. intros s [] s' _ [= <-]. left. Qed.
Lemma hoare_when_keep (P : list git_event → Prop) b err : hoare P (g_when b err) (λ _, P).
Proof. destruct b; [by apply hoare_ret|apply hoare_raise]. Qed.
Lemma hoare_pip lines cmd :
  temp_path ∈ cmd → hoare (λ l, WroteRequirements lines ∈ l) (_run 1 cmd) (λ _, handed_to_pip lines).
Proof.
  intros Hc. eapply hoare_post; [apply hoare_run|]. intros out l (l' & -> & Hl). exists cmd, out.
  split; [by right|]. split; [by left|done].
Qed.
Lemma install_packages_done re lines :
  hoare anything (install_packages e staged_dir temp_path re lines)
    (λ _ l, _installable_requirement_lines lines = [] ∨ handed_to_pip lines l).
Proof.
  unfold install_packages.
  destruct (pe_deps_dir e); [|destruct (pe_pipx e); [destruct (pe_pipx_path e); [|apply hoare_raise]|]];
    (destruct (_installable_requirement_lines lines); [apply hoare_ret; by left|]).
  - eapply hoare_bind; [apply hoare_when_keep|intros ?]. eapply hoare_bind; [apply hoare_emit_in|intros []].
    eapply hoare_bind; [apply hoare_pip|intros ?]; [apply elem_of_app; right; by_last|].
    eapply hoare_bind; [apply hoare_when_keep|intros ?]. eapply hoare_bind with (Q := λ _, handed_to_pip lines).
    + intros s [] s' (cmd & out & H1 & H2 & H3) [= <-]. exists cmd, out. cbn [gs_log]. split; [by right|]. split; [by right|done].
    + intros ?. apply hoare_ret. by right.
  - eapply hoare_bind; [apply hoare_emit_in|intros []]. eapply hoare_bind; [apply hoare_pip; by_last|intros ?].
    apply hoare_ret. by right.
  - eapply hoare_bind; [apply hoare_emit_in|intros []]. eapply hoare_bind; [apply hoare_pip|intros ?].
    + apply elem_of_app; right. apply elem_of_app; right. by_last.
    + apply hoare_ret. by right.
Qed.

Abbreviation marker_of lines name target := (requirements_marker name (_requirements_hash sha256 lines) target (isoformat now)).
Abbreviation own_target := (_requirements_install_target_identity e).

Lemma hoare_effective re (P : list git_event → Prop) :
  hoare P (_effective config re) (λ lines l, P l ∧ effective_lines re lines).
Proof. intros s lines s' HP H. apply effective_inv in H as [-> H]. split; [done|by apply H]. Qed.

Lemma hoare_install re name tgt :
  hoare anything (install re name tgt)
    (λ b l, b = true → re_requirements re ≠ None → ∃ lines, effective_lines re lines ∧
       (_installable_requirement_lines lines = [] ∨ handed_to_pip lines l) ∧ WroteMarker (marker_of lines name tgt) ∈ l).
Proof.
  unfold _install_requirements_for_repo. destruct (re_requirements re) as [c|]; [|by apply hoare_ret].
  apply hoare_try; [|intros err; by apply hoare_ret].
  eapply hoare_bind; [apply hoare_effective|intros lines].
  eapply hoare_bind with (Q := λ _ l, effective_lines re lines ∧ (_installable_requirement_lines lines = [] ∨ handed_to_pip lines l)).
  { intros s b s' [_ Hl] H. split; [done|]. exact (install_packages_done re lines s b s' I H). }
  intros ?. eapply hoare_bind; [apply hoare_when_keep|intros ?].
  eapply hoare_bind with (Q := λ _ l, effective_lines re lines ∧
    (_installable_requirement_lines lines = [] ∨ handed_to_pip lines l) ∧ WroteMarker (marker_of lines name tgt) ∈ l).
  - intros s [] s' [Hl Hp] [= <-]. split; [done|]. split; [|by left]. destruct Hp as [Hp|(cmd & out & H1 & H2 & H3)]; [by left|].
    right. exists cmd, out. cbn [gs_log]. split; [by right|]. split; [by right|done].
  - intros ?. apply hoare_ret. intros l (H1 & H2 & H3) _ _. by exists lines.
Qed.

(** What is known when an installation is recorded in a state. *)
Lemma stage_saved repo_path re state name s s' st :
  stage repo_path re state name s = (Done tt, s') → gs_log s = [] → option_free repo_path → SavedState st ∈ gs_log s' →
  ∃ pinned lines s1,
    _resolve_local_head_commit repo_path s = (Done (Some pinned), s1) ∧
    re_requirements re ≠ None ∧ effective_lines re lines ∧
    st = installed_state isoformat now state pinned (_requirements_hash sha256 lines) own_target ∧
    (_installable_requirement_lines lines = [] ∨ handed_to_pip lines (gs_log s')) ∧
    WroteMarker (marker_of lines name own_target) ∈ gs_log s' ∧
    (∀ m, WroteMarker m ∈ gs_log s' → m = marker_of lines name own_target).
Proof.
  intros H Hlog Hpath Hst.
  apply bind_done in H as (pinned & s1 & Hhead & H).
  assert (H1 : ∀ ev, ev ∈ gs_log s1 → git_event_ok [] ev).
  { destruct (only_local_head repo_path [] Hpath s) as (new & Hn & HF). rewrite Hhead, Hlog, app_nil_r in Hn. cbn [snd] in Hn.
    rewrite Hn. intros ev. by apply Forall_forall. }
  assert (Hno : SavedState st ∉ gs_log s1) by (intros Hs; by apply H1 in Hs).
  destruct pinned as [pinned|]; [|by injection H as <-].
  destruct (re_requirements re) as [c|] eqn:Ereq; [|by injection H as <-].
  apply bind_done in H as (lines & s2 & Heff & H). apply effective_inv in Heff as [-> Heff]. specialize (Heff _ eq_refl).
  cbn zeta in H. destruct (_ && _); [by injection H as <-|].
  apply bind_done in H as (ok & s2 & Hinst & H).
  assert (Hsame : ∀ l', effective_lines re l' → l' = lines).
  { intros l' Hl. specialize (Hl s). specialize (Heff s). congruence. }
  assert (H2 : ∀ ev, ev ∈ gs_log s2 → match ev with SavedState _ => False | WroteMarker m => m = marker_of lines name own_target | _ => True end).
  { set (C := λ ev, match ev with SavedState _ => False | WroteMarker m => m = marker_of lines name own_target | _ => True end).
    destruct (only_install C re name own_target) with (s := s1) as (new & Hn & HF); try done.
    - intros l' Hl. cbn. by rewrite (Hsame l' Hl).
    - rewrite Hinst in Hn. cbn [snd] in Hn. rewrite Hn. intros ev [Hev|Hev]%elem_of_app.
      + rewrite Forall_forall in HF. by apply HF.
      + apply H1 in Hev. by destruct ev. }
  destruct ok; [|injection H as <-; by apply H2 in Hst].
  pose proof (hoare_install re name own_target s1 true s2 I Hinst eq_refl) as Hdone.
  rewrite Ereq in Hdone. destruct (Hdone ltac:(done)) as (l' & Hl' & Hp & Hm). rewrite (Hsame l' Hl') in Hp, Hm.
  unfold _save_plugin_state in H. destruct (re_save re); [|injection H as <-; by apply H2 in Hst].
  injection H as <-. cbn [gs_log] in *. exists pinned, lines, s1. split; [done|]. split; [done|]. split; [done|].
  split; [by apply elem_of_cons in Hst as [[= ->]|Hst]; [|by apply H2 in Hst]|].
  split; [destruct Hp as [Hp|(cmd & out & G1 & G2 & G3)]; [by left|]; right; exists cmd, out; split; [by right|]; split; [by right|done]|].
  split; [by right|]. intros m [Hm'|Hm']%elem_of_cons; [done|]. by apply H2 in Hm'.
Qed.

(** An installation is recorded only when there was nothing to install or pip ended well on a file of
    exactly the effective lines, and its marker was written: what fails is tried again at the next
    start. *)
Theorem install_recorded repo_path re state name s s' st :
  install_stage config e sha256 isoformat now staged_dir temp_path
    repo_path re state name s = (Done tt, s') → gs_log s = [] → option_free repo_path → SavedState st ∈ gs_log s' →
  ∃ lines, effective_lines re lines ∧
    (_installable_requirement_lines lines = [] ∨ handed_to_pip lines (gs_log s')) ∧
    WroteMarker (marker_of lines name own_target) ∈ gs_log s'.
Proof.
  intros H Hlog Hpath Hst. destruct (stage_saved _ _ _ _ _ _ _ H Hlog Hpath Hst) as (p & lines & s1 & _ & _ & H1 & _ & H2 & H3 & _).
  by exists lines.
Qed.

Lemma holds_str_dset_eq d k s : holds_str (dset d k (VStr s)) k s = true.
Proof. unfold holds_str. by rewrite dget_dset_eq, str_eqb_refl. Qed.
Lemma holds_str_dset_ne d k k' v s : k ≠ k' → holds_str (dset d k v) k' s = holds_str d k' s.
Proof. intros Hk. unfold holds_str. by rewrite dget_dset_ne. Qed.
Lemma installed_state_matches state p h t :
  state_matches_requirements (installed_state isoformat now state p h t) p h t = true.
Proof.
  unfold state_matches_requirements, installed_state.
  rewrite (holds_str_dset_ne _ LAST_AT LAST_TARGET), holds_str_dset_eq, andb_true_r by done.
  rewrite (holds_str_dset_ne _ LAST_AT LAST_HASH), (holds_str_dset_ne _ LAST_TARGET LAST_HASH), holds_str_dset_eq, andb_true_r by done.
  by rewrite (holds_str_dset_ne _ LAST_AT LAST_COMMIT), (holds_str_dset_ne _ LAST_TARGET LAST_COMMIT),
    (holds_str_dset_ne _ LAST_HASH LAST_COMMIT), holds_str_dset_eq by done.
Qed.
Lemma marker_valid lines name tgt :
  _requirements_install_target_valid (Some (marker_of lines name tgt)) name (_requirements_hash sha256 lines) tgt = true.
Proof.
  unfold _requirements_install_target_valid, holds_str.
  change (str_eqb (_requirements_hash sha256 lines) (_requirements_hash sha256 lines) && str_eqb tgt tgt && str_eqb name name = true).
  by rewrite !str_eqb_refl.
Qed.

(** An installation is not repeated: at the next start, with the recorded state and the marker in
    place, the same commit and the same requirements, only the commit is looked at. *)
Theorem install_once repo_path re re' state name s s' st m s2 s3 pinned :
  install_stage config e sha256 isoformat now staged_dir temp_path
    repo_path re state name s = (Done tt, s') → gs_log s = [] → option_free repo_path →
  SavedState st ∈ gs_log s' → WroteMarker m ∈ gs_log s' →
  re_requirements re' = re_requirements re → re_marker re' = Some m →
  (_resolve_local_head_commit repo_path s).1 = Done pinned → _resolve_local_head_commit repo_path s2 = (Done pinned, s3) →
  install_stage config e sha256 isoformat now staged_dir temp_path repo_path re' st name s2 = (Done tt, s3).
Proof.
  intros H Hlog Hpath Hst Hm Hreq Hmark Hp1 Hp2.
  destruct (stage_saved _ _ _ _ _ _ _ H Hlog Hpath Hst) as (p & lines & s1 & Hhead & Hne & Heff & -> & _ & _ & Honly).
  rewrite Hhead in Hp1. injection Hp1 as <-. apply Honly in Hm as ->.
  unfold install_stage. unfold g_bind at 1. rewrite Hp2, Hreq. destruct (re_requirements re) as [c|] eqn:Ereq; [|done].
  assert (Heff' : _effective config re' s3 = (Done lines, s3)).
  { rewrite <- (Heff s3). unfold _effective. by rewrite Hreq, Ereq. }
  unfold g_bind at 1. rewrite Heff'. cbn zeta. by rewrite installed_state_matches, Hmark, marker_valid.
Qed.

(** ** What is ready *)

Lemma revalidate url type_ value v :
  _validate_clone_inputs bracketed_ok netloc_ok config exists_ url type_ value = Ok (Some v) →
  _validate_clone_inputs bracketed_ok netloc_ok config exists_ (vr_repo_url v) type_ value = Ok (Some v).
Proof.
  intros H. destruct (validated_parts _ _ _ _ _ _ _ _ H) as (-> & _).
  unfold _validate_clone_inputs, _is_repo_url_allowed in *. by rewrite ?strip_idemp in *.
Qed.

(** The repository that an entry names has a permitted address and a directory of its own below that of
    the community plugins, and git has put it at the reference that the entry names. *)
Definition fetched_as_configured (dir : option pystr) (plugin_info : pyval) (re : repo_env) (log : list git_event) : Prop :=
  ∃ info url type_ value explicit v d repo_path l,
    plugin_info = VDict info ∧ text_field info (u "repository") = Ok (Some url) ∧ dir = Some d ∧
    (∃ commit tag branch, text_field info (u "commit") = Ok commit ∧ text_field info (u "tag") = Ok tag ∧
       text_field info (u "branch") = Ok branch ∧ choose_ref commit tag branch = (type_, value, explicit)) ∧
    _validate_clone_inputs bracketed_ok netloc_ok config exists_ url type_ value = Ok (Some v) ∧
    _is_safe_plugin_name (vr_repo_name v) = true ∧ repo_path = path_join d (vr_repo_name v) ∧
    _is_path_contained (pe_realpath e) d repo_path = true ∧
    l `suffix_of` log ∧ arrived repo_path v (re_present re) l.

(** A plugin is reported as ready only when its repository was fetched as configured. *)
Theorem ready_is_fetched dir plugin_info re s s' :
  prepare_community config e sha256 isoformat now staged_dir temp_path bracketed_ok netloc_ok exists_ parse_timestamp
    dir plugin_info re s = (Done true, s') →
  (∀ d, dir = Some d → isabs d = true) →
  fetched_as_configured dir plugin_info re (gs_log s').
Proof.
  intros H Hdir. unfold prepare_community in H. destruct plugin_info as [| | | | | | |info|]; try done.
  destruct (dget_or info (u "active") (VBool false)) as [|active| | | | | | |]; try done. destruct active; [|done].
  destruct (text_field info (u "repository")) as [url|] eqn:Eu; [|done].
  destruct (text_field info (u "commit")) as [commit|] eqn:Ec; [|done].
  destruct (text_field info (u "tag")) as [tag|] eqn:Et; [|done].
  destruct (text_field info (u "branch")) as [branch|] eqn:Eb; [|done].
  destruct (choose_ref commit tag branch) as [[type_ value] explicit] eqn:Er.
  destruct url as [url|]; [|done]. cbn [given] in H. destruct (nonempty url); [|done]. destruct dir as [d|]; [|done].
  apply bind_done in H as (v & s1 & Hv & H). destruct v as [v|]; [|done].
  destruct (_validate_clone_inputs _ _ _ _ _ _ _) as [v'|] eqn:Ev; [|done]. injection Hv as -> <-.
  destruct (_is_safe_plugin_name (vr_repo_name v)) eqn:Esafe; [|done]. cbn [negb] in H.
  destruct (_is_path_contained _ _ _) eqn:Econt; [|done]. cbn [negb] in H.
  assert (Hpath : option_free (path_join d (vr_repo_name v))) by (apply isabs_path_free; by apply Hdir).
  unfold fetch_and_install in H. apply bind_done in H as (ok & s2 & Hfetch & H). destruct ok; [|done].
  unfold clone_or_update_repo in Hfetch. rewrite (revalidate _ _ _ _ Ev) in Hfetch.
  pose proof (hoare_validated _ anything v (re_present re) (re_dirs_fail re) s true s2 I Hfetch eq_refl) as Harr.
  exists info, url, type_, value, explicit, v, d, (path_join d (vr_repo_name v)), (gs_log s2).
  repeat (split; [done|]). split; [by exists commit, tag, branch|]. repeat (split; [done|]). split; [|done].
  cbn [negb] in H. destruct (only_after_fetch True v (path_join d (vr_repo_name v)) type_ value explicit
    (match dget_or info (u "install_requirements") (VBool false) with VBool b => b | _ => false end) re
    (λ _, I) Hpath s2) as (new & Hn & _).
  rewrite H in Hn. by exists new.
Qed.
End gate.

(** ** What modelling showed *)

Definition posix_env : py_env :=
  {| pe_executable := u "python"; pe_deps_dir := Some (u "/h/plugins/deps"); pe_prefix := u "/usr"; pe_base_prefix := u "/usr";
     pe_pipx := false; pe_pipx_home := false; pe_pipx_path := None; pe_virtual_env := false; pe_site_packages := None; pe_purelib := [];
     pe_user_site := None; pe_cwd := u "/"; pe_writable := λ _, true; pe_realpath := id |}.
Definition repo_with (present : bool) (lines : list pystr) : repo_env :=
  {| re_present := present; re_dirs_fail := false; re_requirements := Some (Ok lines); re_state := []; re_save := true;
     re_marker := None; re_dirs := true; re_merge := true; re_marker_written := true |}.
Definition prepare_with (info : pydict) (re : repo_env) (results : list run_result) : ran bool * git_state :=
  prepare_community VNone posix_env id iso 1000 (u "/h/staged") (u "/tmp/r.txt") no_check no_check (λ _, false) iso_parse
    (Some (u "/h/plugins/community")) (VDict info) re {| gs_results := results; gs_log := [] |}.
Definition entry (more : pydict) : pydict :=
  [(u "active", VBool true); (u "repository", VStr (u "https://github.com/a/b")); (u "install_requirements", VBool true)] ++ more.
Definition head_sha : pystr := repeat 97 40.

(** An implicit reference to the main branch is not good for an installation, but a tag that does not
    exist is: the main branch takes its place. *)
Lemma missing_tag_installs_main :
  let run := prepare_with (entry [(u "tag", VStr (u "v9"))]) (repo_with true [u "requests"])
               ([RunOk []; RunOk (u "1"); RunFails] ++ repeat RunFails 12 ++ [RunOk []; RunOk []; RunOk head_sha; RunOk []]) in
  run.1 = Done true ∧ WroteRequirements [u "requests"] ∈ gs_log run.2 ∧
  Ran (pull (u "/h/plugins/community/b") (u "main")) (RunOk []) ∈ gs_log run.2 ∧
  (prepare_with (entry []) (repo_with true [u "requests"]) [RunOk []; RunOk []; RunOk []]).1 = Done true ∧
  Forall (λ ev, match ev with WroteRequirements _ => False | _ => True end)
    (gs_log (prepare_with (entry []) (repo_with true [u "requests"]) [RunOk []; RunOk []; RunOk []]).2).
Proof.
  intros run. split; [vm_compute; reflexivity|]. split; [vm_compute; by_last|].
  split; [vm_compute; by_last|]. split; [vm_compute; reflexivity|vm_compute; repeat constructor].
Qed.

(** A line of the requirements that cannot be split into words ends the loading of all plugins. *)
Lemma bad_requirements_abort :
  (prepare_with (entry [(u "tag", VStr (u "v1"))]) (repo_with true [u "requests==2.0 \"])
     [RunOk []; RunOk (u "1"); RunOk (u "1"); RunOk head_sha]).1 = Failed BadCommand.
Proof. vm_compute. reflexivity. Qed.

(** ** Applications *)

Definition full_commit : pydict := entry [(u "commit", VStr head_sha)].
Definition commit_results : list run_result :=
  [RunOk head_sha; RunOk head_sha; RunOk head_sha; RunOk (u "ref: refs/heads/main HEAD"); RunOk head_sha; RunOk head_sha; RunOk []].

Lemma community_install_gate_witness :
  ∃ s', prepare_with full_commit (repo_with true [u "requests"]) commit_results = (Done true, s') ∧
  ∃ new, gs_log s' = new ++ [] ∧ Forall (community_event_ok VNone (install_allowed (VDict full_commit))) new.
Proof.
  eexists. split; [vm_compute; reflexivity|].
  refine (community_install_gate VNone posix_env id iso 1000 (u "/h/staged") (u "/tmp/r.txt") no_check no_check (λ _, false) iso_parse
    (Some (u "/h/plugins/community")) (VDict full_commit) (repo_with true [u "requests"])
    {| gs_results := commit_results; gs_log := [] |} _ _ _ _).
  - vm_compute. reflexivity.
  - intros d [= <-]. vm_compute. reflexivity.
Defined.

Lemma ready_is_fetched_witness :
  ∃ s', prepare_with full_commit (repo_with true [u "requests"]) commit_results = (Done true, s') ∧
    fetched_as_configured VNone posix_env no_check no_check (λ _, false) (Some (u "/h/plugins/community"))
      (VDict full_commit) (repo_with true [u "requests"]) (gs_log s').
Proof.
  eexists. split; [vm_compute; reflexivity|].
  refine (ready_is_fetched VNone posix_env id iso 1000 (u "/h/staged") (u "/tmp/r.txt") no_check no_check (λ _, false) iso_parse
    (Some (u "/h/plugins/community")) (VDict full_commit) (repo_with true [u "requests"])
    {| gs_results := commit_results; gs_log := [] |} _ _ _).
  - vm_compute. reflexivity.
  - intros d [= <-]. vm_compute. reflexivity.
Defined.

Definition stage_with (re : repo_env) (state : pydict) : git_state → ran unit * git_state :=
  install_stage VNone posix_env id iso 1000 (u "/h/staged") (u "/tmp/r.txt") (u "/h/b") re state (u "b").
Definition stage_start : git_state := {| gs_results := [RunOk head_sha; RunOk []]; gs_log := [] |}.

Lemma install_recorded_witness :
  ∃ s' st, stage_with (repo_with true [u "requests"]) [] stage_start = (Done tt, s') ∧ SavedState st ∈ gs_log s' ∧
  ∃ lines, effective_lines VNone (repo_with true [u "requests"]) lines ∧
    (_installable_requirement_lines lines = [] ∨ handed_to_pip (u "/tmp/r.txt") lines (gs_log s')) ∧
    WroteMarker (requirements_marker (u "b") (_requirements_hash id lines)
      (_requirements_install_target_identity posix_env) (iso 1000)) ∈ gs_log s'.
Proof.
  eexists _, _. split; [vm_compute; reflexivity|]. split; [left|].
  eapply (install_recorded VNone posix_env id iso 1000 (u "/h/staged") (u "/tmp/r.txt") (u "/h/b")
    (repo_with true [u "requests"]) [] (u "b") stage_start).
  - vm_compute. reflexivity.
  - reflexivity.
  - vm_compute. reflexivity.
  - left.
Defined.

Lemma install_once_witness :
  ∃ s' st m, stage_with (repo_with true [u "requests"]) [] stage_start = (Done tt, s') ∧
  ∃ s3, stage_with {| re_present := true; re_dirs_fail := false; re_requirements := Some (Ok [u "requests"]); re_state := st;
                      re_save := true; re_marker := Some m; re_dirs := true; re_merge := true; re_marker_written := true |}
          st stage_start = (Done tt, s3).
Proof.
  eexists _, _, _. split; [vm_compute; reflexivity|]. eexists.
  eapply (install_once VNone posix_env id iso 1000 (u "/h/staged") (u "/tmp/r.txt") (u "/h/b")
    (repo_with true [u "requests"]) _ [] (u "b") stage_start).
  - vm_compute. reflexivity.
  - reflexivity.
  - vm_compute. reflexivity.
  - left.
  - right. left.
  - reflexivity.
  - reflexivity.
  - vm_compute. reflexivity.
  - vm_compute. reflexivity.
Defined.
