(* ===== verification/PluginLoader.v ===== *)
(** * Loading, starting and stopping plugins

    Models the rest of [plugin_loader.py]: which files of a directory are loaded and what is done about
    a missing dependency ([load_plugins_from_directory]), the scheduler that runs the jobs of all
    plugins ([schedule_job] to [stop_global_scheduler]), and [load_plugins] and [shutdown_plugins].

    The modules of plugins are not modelled: what importing a file gives, and how a plugin starts and
    stops, are inputs. *)

From Stdlib Require Import String Sorted.
From stdpp Require Import base tactics list numbers sets gmap sorting.
From S2P Require Import Prelude PyStr PyValue PyLib PluginSecurity PluginRepos PluginInstall.
Open Scope Z_scope.

(** ** Plugins *)

(** [p_priority]: the attribute, or the default one; [p_job]: starting schedules a job; [p_starts]: it
    starts; [p_stop]: None when it cannot be stopped, else whether stopping returns. *)
Record plugin := {
  p_id : nat; p_name : pystr; p_priority : pyval; p_job : bool; p_starts : bool; p_stop : option bool }.

(** What importing a file gives: a module, with what making its plugin gives when it has one. *)
Inductive build := Built (p : plugin) | BuildMissing (name : option pystr) (message : pystr) | BuildFails.
Inductive import := Imported (b : option build) | ImportMissing (name : option pystr) (message : pystr) | ImportFails.

(** [pf_spec]: there is a loader for it; [pf_retry]: what importing - or making the plugin, if the import
    was good - gives after the missing dependency was installed. *)
Record pyfile := { pf_name : pystr; pf_spec : bool; pf_import : import; pf_retry : import }.
Inductive dir := Dir (files : list pyfile) (subdirs : dirs)
with dirs := NoDirs | SubDir (name : pystr) (d : dir) (rest : dirs).

(** ** A directory of plugins *)

Definition plugin_file (filename : pystr) : bool :=
  endswith filename (u ".py") && negb (_should_ignore_plugin_file filename).
(** The files that are visited, in order. *)
Fixpoint walk (d : dir) : list pyfile :=
  match d with Dir files subdirs => files ++ walk_dirs subdirs end
with walk_dirs (l : dirs) : list pyfile :=
  match l with
  | NoDirs => []
  | SubDir name d rest => (if visited_dir name then walk d else []) ++ walk_dirs rest
  end.
Definition top_files (d : dir) : list pyfile := match d with Dir files _ => files end.

(** The search for the name in the message [No module named 'name']. *)
Definition is_quote (c : Z) : bool := (c =? 39) || (c =? 34).
Fixpoint take_while (f : Z → bool) (s : pystr) : pystr :=
  match s with [] => [] | c :: s' => if f c then c :: take_while f s' else [] end.
Fixpoint named_module (s : pystr) : option pystr :=
  match s with
  | [] => None
  | _ :: s' =>
      let here := match drop (length (u "No module named ")) s with
                  | q :: t =>
                      let m := take_while (λ c, negb (is_quote c)) t in
                      if is_quote q && nonempty m && bool_decide (length m < length t)%nat then Some m else None
                  | [] => None
                  end in
      if startswith s (u "No module named ") then match here with Some m => Some m | None => named_module s' end
      else named_module s'
  end.

Definition package_char (c : Z) : bool := alnum_char c || (c =? DOT) || (c =? 95) || (c =? 45).
(** The package to install for a missing module; None for a suspicious name. *)
Definition missing_package (name : option pystr) (message : pystr) : option pystr :=
  let missing_module := match name with
                        | Some n => if nonempty n then n else default message (named_module message)
                        | None => default message (named_module message)
                        end in
  let top := (partition DOT (strip missing_module)).1.1 in
  match top with
  | c :: s => if alnum_char c then Some (c :: take_while package_char s) else None
  | [] => None
  end.

Section load.
Context (e : py_env).

Definition auto_install (community : bool) (missing_pkg : pystr) : G unit :=
  if community then g_raise CalledProcessError
  else if pe_pipx_home e then
    match pe_pipx_path e with
    | None => g_raise FileNotFoundError
    | Some pipx_path => _run 1 [pipx_path; u "inject"; u "mmrelay"; missing_pkg];; g_ret tt
    end
  else
    _run 1 ([pe_executable e; u "-m"; u "pip"; u "install"; missing_pkg;
             u "--disable-pip-version-check"; u "--no-input"] ++ (if in_venv e then [] else [u "--user"]));;
    g_ret tt.

Definition built (b : option build) : list plugin := match b with Some (Built p) => [p] | _ => [] end.
Definition retried (i : import) : list plugin := match i with Imported b => built b | _ => [] end.

Definition load_file (community : bool) (f : pyfile) : G (list plugin) :=
  if negb (plugin_file (pf_name f)) || negb (pf_spec f) then g_ret []
  else
    let missing name message :=
      match missing_package name message with
      | None => g_raise ModuleNotFound
      | Some missing_pkg =>
          g_try git_any_error (auto_install community missing_pkg;; g_ret (retried (pf_retry f))) (λ _, g_ret [])
      end in
    match pf_import f with
    | Imported (Some (BuildMissing name message)) => missing name message
    | Imported b => g_ret (built b)
    | ImportMissing name message => missing name message
    | ImportFails => g_ret []
    end.

Fixpoint load_files (community : bool) (files : list pyfile) : G (list plugin) :=
  match files with
  | [] => g_ret []
  | f :: fs => ps <- load_file community f;; rest <- load_files community fs;; g_ret (ps ++ rest)
  end.

(** [None]: no directory. *)
Definition load_plugins_from_directory (directory : option dir) (recursive community : bool) : G (list plugin) :=
  match directory with
  | None => g_ret []
  | Some d => load_files community (if recursive then walk d else top_files d)
  end.

(** [fs path]: None when nothing is there, else the directory if it is one. *)
Context (fs : pystr → option (option dir)).

(** The first of the directories in which a plugin is found and loads. *)
Fixpoint load_from_dirs (community : bool) (dirs : list pystr) (name : pystr) : G (option (list plugin)) :=
  match dirs with
  | [] => g_ret None
  | d :: ds =>
      let plugin_path := path_join d name in
      if negb (_is_path_contained (pe_realpath e) d plugin_path) then load_from_dirs community ds name
      else match fs plugin_path with
           | None => load_from_dirs community ds name
           | Some directory =>
               ok <- g_try (λ _, true)
                       (ps <- load_plugins_from_directory directory community community;; g_ret (Some ps))
                       (λ _, g_ret None);;
               match ok with Some ps => g_ret (Some ps) | None => load_from_dirs community ds name end
           end
  end.

Fixpoint load_custom (dirs names : list pystr) : G (list plugin) :=
  match names with
  | [] => g_ret []
  | n :: ns =>
      if negb (_is_safe_plugin_name n) then load_custom dirs ns
      else found <- load_from_dirs false dirs n;; rest <- load_custom dirs ns;; g_ret (default [] found ++ rest)
  end.
End load.

(** ** The scheduler *)

(** [sc_current]: the thread that is known; [sc_running]: the threads that run; [sc_stopping]: those
    whose event is set; [sc_jobs]: the tags of the jobs. *)
Record scheduler := {
  sc_available : bool; sc_current : option nat; sc_running : gset nat; sc_stopping : gset nat; sc_next : nat;
  sc_jobs : list pystr }.
Definition new_scheduler (available : bool) : scheduler :=
  {| sc_available := available; sc_current := None; sc_running := ∅; sc_stopping := ∅; sc_next := 0; sc_jobs := [] |}.
Definition with_jobs (jobs : list pystr) (s : scheduler) : scheduler :=
  {| sc_available := sc_available s; sc_current := sc_current s; sc_running := sc_running s;
     sc_stopping := sc_stopping s; sc_next := sc_next s; sc_jobs := jobs |}.

Definition schedule_job (plugin_name : pystr) (s : scheduler) : scheduler :=
  if sc_available s then with_jobs (sc_jobs s ++ [plugin_name]) s else s.
Definition clear_plugin_jobs (plugin_name : pystr) (s : scheduler) : scheduler :=
  if sc_available s then with_jobs (filter (λ t, t ≠ plugin_name) (sc_jobs s)) s else s.

Definition alive (s : scheduler) : bool :=
  match sc_current s with Some t => bool_decide (t ∈ sc_running s) | None => false end.
Definition start_global_scheduler (s : scheduler) : scheduler :=
  if negb (sc_available s) then s
  else if alive s then s
  else {| sc_available := sc_available s; sc_current := Some (sc_next s); sc_running := {[sc_next s]} ∪ sc_running s;
          sc_stopping := sc_stopping s; sc_next := S (sc_next s); sc_jobs := sc_jobs s |}.
(** [ends]: the thread ends while it is waited for. *)
Definition stop_global_scheduler (ends : bool) (s : scheduler) : scheduler :=
  match sc_current s with
  | None => s
  | Some t =>
      {| sc_available := sc_available s; sc_current := None;
         sc_running := if ends then sc_running s ∖ {[t]} else sc_running s;
         sc_stopping := {[t]} ∪ sc_stopping s; sc_next := sc_next s;
         sc_jobs := if sc_available s then [] else sc_jobs s |}
  end.

(** The steps of the scheduler and its threads: a thread ends when it sees its event, or when a job that
    it runs raises. *)
Definition thread_ended (t : nat) (s : scheduler) : scheduler :=
  {| sc_available := sc_available s; sc_current := sc_current s; sc_running := sc_running s ∖ {[t]};
     sc_stopping := sc_stopping s; sc_next := sc_next s; sc_jobs := sc_jobs s |}.
Inductive sched_step : scheduler → scheduler → Prop :=
  | SchedStart s : sched_step s (start_global_scheduler s)
  | SchedStop s ends : sched_step s (stop_global_scheduler ends s)
  | SchedJob s name : sched_step s (schedule_job name s)
  | SchedClear s name : sched_step s (clear_plugin_jobs name s)
  | SchedEnds s t : t ∈ sc_running s → t ∈ sc_stopping s → sched_step s (thread_ended t s)
  | SchedJobRaises s t : t ∈ sc_running s → sc_jobs s ≠ [] → sched_step s (thread_ended t s).

(** ** Loading *)

Inductive life_event := Started (p : nat) | StartFailed (p : nat) | StopCalled (p : nat).

(** [ld_active]: the active plugins in order, with the priority that was set; [ld_life]: what was done
    to plugins, the latest first. *)
Record loader := {
  ld_loaded : bool; ld_active : list (plugin * Z); ld_sched : scheduler; ld_life : list life_event }.

Definition DEFAULT_PLUGIN_PRIORITY : Z := 100.
Definition section_dict (config : pydict) (section_name : pystr) : pydict :=
  match dget_or config section_name (VDict []) with VDict d => d | _ => [] end.
Definition entry_active (plugin_info : pydict) : bool :=
  match dget_or plugin_info (u "active") (VBool false) with VBool b => b | _ => false end.
Definition _active_plugin_names (section : pydict) : list pystr :=
  omap (λ '(name, info), match info with
                         | VDict d => if entry_active d then Some name else None
                         | _ => None
                         end) section.

Section lifecycle.
Context (core custom community : pydict) (core_plugins : list plugin).
Definition is_core (p : plugin) : bool := bool_decide (p_id p ∈ p_id <$> core_plugins).

(** The configuration of a plugin: custom plugins take precedence over community ones. *)
Definition plugin_config (p : plugin) : pydict :=
  let found := if is_core p then dget_or core (p_name p) (VDict [])
               else if dmem custom (p_name p) then dget_or custom (p_name p) (VDict [])
               else if dmem community (p_name p) then dget_or community (p_name p) (VDict [])
               else VDict [] in
  match found with VDict d => d | _ => [] end.
Definition plugin_priority (p : plugin) : Z :=
  let default_priority := match p_priority p with VInt z => z | _ => DEFAULT_PLUGIN_PRIORITY end in
  match dget_or (plugin_config p) (u "priority") (VInt default_priority) with VInt z => z | _ => default_priority end.

(** [start] replaces the job of the plugin; [stop] removes it. *)
Definition start_plugin (p : plugin) (s : scheduler) : scheduler :=
  let s := clear_plugin_jobs (p_name p) s in if p_job p then schedule_job (p_name p) s else s.
Definition stop_plugin (p : plugin) (st : scheduler * list life_event) : scheduler * list life_event :=
  let '(s, life) := st in
  match p_stop p with
  | None => (s, life)
  | Some returns => (if returns then clear_plugin_jobs (p_name p) s else s, StopCalled (p_id p) :: life)
  end.

Fixpoint activate (plugins : list plugin) (st : scheduler * list life_event)
    : list (plugin * Z) * (scheduler * list life_event) :=
  match plugins with
  | [] => ([], st)
  | p :: ps =>
      if entry_active (plugin_config p) then
        if p_starts p then
          let '(active, st') := activate ps (start_plugin p st.1, Started (p_id p) :: st.2) in
          ((p, plugin_priority p) :: active, st')
        else activate ps (stop_plugin p (st.1, StartFailed (p_id p) :: st.2))
      else activate ps st
  end.

(** [sorted] with the priorities as keys: stable. *)
Fixpoint insert_by_priority (x : plugin * Z) (l : list (plugin * Z)) : list (plugin * Z) :=
  match l with
  | [] => [x]
  | y :: l' => if x.2 <=? y.2 then x :: l else y :: insert_by_priority x l'
  end.
Fixpoint sort_by_priority (l : list (plugin * Z)) : list (plugin * Z) :=
  match l with [] => [] | x :: l' => insert_by_priority x (sort_by_priority l') end.
End lifecycle.

Section load_plugins.
Context (e : py_env) (sha256 : pystr → pystr) (isoformat : Z → pystr) (now : Z) (staged_dir temp_path : pystr).
Context (bracketed_ok netloc_ok exists_ : pystr → bool) (parse_timestamp : pystr → option Z).
Context (core_plugins : list plugin) (custom_dirs community_dirs : list pystr).
(** The repositories of the community plugins, by the names of the entries, and the files after they
    were fetched. *)
Context (repo_of : pystr → repo_env) (fs : pystr → option (option dir)).

Fixpoint prepare_all (config : pyval) (entries : pydict) : G (list pystr) :=
  match entries with
  | [] => g_ret []
  | (name, info) :: rest =>
      ready <- prepare_community config e sha256 isoformat now staged_dir temp_path bracketed_ok netloc_ok exists_
                 parse_timestamp (head community_dirs) info (repo_of name);;
      names <- prepare_all config rest;;
      g_ret (if ready then name :: names else names)
  end.

Fixpoint load_community (community : pydict) (names : list pystr) : G (list plugin) :=
  match names with
  | [] => g_ret []
  | n :: ns =>
      let info := match dget_none community n with VDict d => d | _ => [] end in
      match dget_none info (u "repository") with
      | VStr repo_url =>
          if nonempty repo_url then
            repo_name <- g_res (_get_repo_name_from_url bracketed_ok netloc_ok repo_url);;
            match repo_name with
            | Some repo_name_candidate =>
                if _is_safe_plugin_name repo_name_candidate then
                  found <- load_from_dirs e fs true community_dirs repo_name_candidate;;
                  rest <- load_community community ns;;
                  g_ret (default [] found ++ rest)
                else load_community community ns
            | None => load_community community ns
            end
          else load_community community ns
      | _ => load_community community ns
      end
  end.

(** The plugins that are there to be started. *)
Definition gather (config : pyval) (d : pydict) : G (list plugin) :=
  from_custom <- load_custom e fs custom_dirs (_active_plugin_names (section_dict d (u "custom-plugins")));;
  ready <- prepare_all config (section_dict d (u "community-plugins"));;
  from_community <- load_community (section_dict d (u "community-plugins")) ready;;
  g_ret (core_plugins ++ from_custom ++ from_community).

(** [config]: the configuration passed, or the one known. *)
Definition load_plugins (config : pyval) (l : loader) : G (list (plugin * Z) * loader) :=
  if ld_loaded l then g_ret (ld_active l, l)
  else match config with
       | VDict d =>
           plugins <- gather config d;;
           let '(active_plugins, (s, life)) :=
             activate (section_dict d (u "plugins")) (section_dict d (u "custom-plugins"))
               (section_dict d (u "community-plugins")) core_plugins plugins
               (start_global_scheduler (ld_sched l), ld_life l) in
           let sorted := sort_by_priority active_plugins in
           g_ret (sorted, {| ld_loaded := true; ld_active := sorted; ld_sched := s; ld_life := life |})
       | _ => g_ret ([], l)
       end.
End load_plugins.

(** [ends]: the scheduler's thread ends while it is waited for. *)
Definition shutdown_plugins (ends : bool) (l : loader) : loader :=
  match ld_active l with
  | [] => {| ld_loaded := false; ld_active := []; ld_sched := ld_sched l; ld_life := ld_life l |}
  | active =>
      let '(s, life) := foldl (λ st x, stop_plugin x.1 st) (ld_sched l, ld_life l) active in
      {| ld_loaded := false; ld_active := []; ld_sched := stop_global_scheduler ends s; ld_life := life |}
  end.

(** ** Order *)

Section order.
Abbreviation key := (λ x : plugin * Z, x.2).
Definition by_priority (x y : plugin * Z) : Prop := x.2 ≤ y.2.

Lemma insert_perm x l : insert_by_priority x l ≡ₚ x :: l.
Proof.
  induction l as [|y l IH]; [done|]. cbn [insert_by_priority]. destruct (x.2 <=? y.2); [done|].
  rewrite IH. by apply Permutation_swap.
Qed.
Lemma sort_perm l : sort_by_priority l ≡ₚ l.
Proof. induction l as [|x l IH]; [done|]. cbn [sort_by_priority]. by rewrite insert_perm, IH. Qed.
Lemma insert_sorted_priority x l : StronglySorted by_priority l → StronglySorted by_priority (insert_by_priority x l).
Proof.
  unfold by_priority. induction 1 as [|y l Hl IH Hy]; [repeat constructor|]. cbn [insert_by_priority].
  destruct (Z.leb_spec (x.2) (y.2)) as [Hxy|Hxy].
  - constructor; [by constructor|]. constructor; [done|]. eapply Forall_impl; [exact Hy|]. intros z Hz. cbn in *. lia.
  - constructor; [done|]. rewrite insert_perm. constructor; [lia|done].
Qed.
Lemma sort_sorted l : StronglySorted by_priority (sort_by_priority l).
Proof. induction l as [|x l IH]; [constructor|]. by apply insert_sorted_priority. Qed.
(** Plugins of one priority keep their order. *)
Lemma insert_stable x l k :
  StronglySorted by_priority l →
  filter (λ y, y.2 = k) (insert_by_priority x l) = filter (λ y, y.2 = k) (x :: l).
Proof.
  induction 1 as [|y l Hl IH Hy]; [done|]. cbn [insert_by_priority].
  destruct (Z.leb_spec (x.2) (y.2)) as [Hxy|Hxy]; [done|].
  rewrite !filter_cons, IH, filter_cons. destruct (decide (y.2 = k)), (decide (x.2 = k)); try done. lia.
Qed.
Lemma sort_stable l k : filter (λ y, y.2 = k) (sort_by_priority l) = filter (λ y, y.2 = k) l.
Proof.
  induction l as [|x l IH]; [done|]. cbn [sort_by_priority].
  rewrite insert_stable by apply sort_sorted. by rewrite !filter_cons, IH.
Qed.
End order.

(** ** The life of plugins *)

Section life.
Context (core custom community : pydict) (core_plugins : list plugin).
Abbreviation config_of := (plugin_config core custom community core_plugins).
Abbreviation priority := (plugin_priority core custom community core_plugins).
Abbreviation act := (activate core custom community core_plugins).
Definition comes_up (p : plugin) : bool := entry_active (config_of p) && p_starts p.

Lemma activate_active plugins st :
  (act plugins st).1 = (λ p, (p, priority p)) <$> filter (λ p, comes_up p = true) plugins.
Proof.
  induction plugins as [|p ps IH] in st |- *; [done|]. cbn [activate].
  rewrite filter_cons. destruct (decide (comes_up p = true)) as [Hc|Hc].
  - apply andb_true_iff in Hc as [-> ->]. specialize (IH (start_plugin p st.1, Started (p_id p) :: st.2)).
    destruct (act ps _) as [active st']. cbn [fst] in IH |- *. by rewrite IH.
  - unfold comes_up in Hc. destruct (entry_active (config_of p)); [|by rewrite IH].
    destruct (p_starts p); [done|by rewrite IH].
Qed.

(** What starting does to the events: they are kept, and the plugins are started, or fail to start and
    are then stopped. *)
Lemma stop_plugin_life p st : ∃ new, (stop_plugin p st).2 = new ++ st.2 ∧
  new = match p_stop p with Some _ => [StopCalled (p_id p)] | None => [] end.
Proof.
  destruct st as [s life]. unfold stop_plugin. destruct (p_stop p) as [b|]; [by exists [StopCalled (p_id p)]|by exists []].
Qed.

Lemma activate_life plugins st : ∃ new, (act plugins st).2.2 = new ++ st.2 ∧
  (∀ ev, ev ∈ new ↔ ∃ p, p ∈ plugins ∧ entry_active (config_of p) = true ∧
     (ev = if p_starts p then Started (p_id p) else StartFailed (p_id p)) ∨
     (p ∈ plugins ∧ entry_active (config_of p) = true ∧ p_starts p = false ∧ p_stop p ≠ None ∧ ev = StopCalled (p_id p))).
Proof.
  induction plugins as [|p ps IH] in st |- *; cbn [activate].
  { exists []. split; [done|]. intros ev. split; [by intros ?%not_elem_of_nil|]. intros (p & [(H & _)|(H & _)]); by apply not_elem_of_nil in H. }
  destruct (entry_active (config_of p)) eqn:Ea.
  2: { destruct (IH st) as (new & H1 & H2). exists new. split; [done|]. intros ev. rewrite H2. split.
       - intros (q & [(H & H')|(H & H')]); exists q; [left|right]; (split; [by right|done]).
       - intros (q & [(H & Hq & H')|(H & Hq & H')]); apply elem_of_cons in H as [->|H]; try congruence; exists q; auto. }
  destruct (p_starts p) eqn:Es.
  - destruct (IH (start_plugin p st.1, Started (p_id p) :: st.2)) as (new & H1 & H2).
    destruct (act ps _) as [active st']. cbn [fst snd] in H1 |- *. exists (new ++ [Started (p_id p)]).
    split; [by rewrite H1, <- app_assoc|]. intros ev. rewrite elem_of_app, list_elem_of_singleton, H2. split.
    + intros [(q & [(H & H')|(H & H')])| ->].
      * exists q. left. split; [by right|done].
      * exists q. right. split; [by right|done].
      * exists p. left. split; [by left|]. by rewrite Es.
    + intros (q & [(H & Hq & H')|(H & Hq & H')]); apply elem_of_cons in H as [->|H].
      * right. by rewrite Es in H'.
      * left. exists q. auto.
      * destruct H' as [H' _]. congruence.
      * left. exists q. auto.
  - destruct (IH (stop_plugin p (st.1, StartFailed (p_id p) :: st.2))) as (new & H1 & H2).
    destruct (stop_plugin_life p (st.1, StartFailed (p_id p) :: st.2)) as (sn & H3 & H4). cbn [snd] in H3.
    exists (new ++ sn ++ [StartFailed (p_id p)]). split; [by rewrite H1, H3, <- !app_assoc|].
    intros ev. rewrite !elem_of_app, list_elem_of_singleton, H2. split.
    + intros [(q & [(H & H')|(H & H')])|[Hs| ->]].
      * exists q. left. split; [by right|done].
      * exists q. right. split; [by right|done].
      * exists p. right. destruct (p_stop p); [|subst sn; by apply not_elem_of_nil in Hs]. subst sn.
        apply list_elem_of_singleton in Hs as ->. split; [by left|done].
      * exists p. left. split; [by left|]. by rewrite Es.
    + intros (q & [(H & Hq & H')|(H & Hq & H')]); apply elem_of_cons in H as [->|H].
      * right. right. by rewrite Es in H'.
      * left. exists q. auto.
      * right. left. destruct H' as (_ & Hst & ->). destruct (p_stop p); [|done]. subst sn. left.
      * left. exists q. auto.
Qed.
End life.

Lemma stop_all_life (active : list (plugin * Z)) st :
  ∃ new, (foldl (λ st x, stop_plugin x.1 st) st active).2 = new ++ st.2 ∧
  ∀ ev, ev ∈ new ↔ ∃ x, x ∈ active ∧ p_stop x.1 ≠ None ∧ ev = StopCalled (p_id x.1).
Proof.
  induction active as [|x l IH] in st |- *; cbn [foldl].
  { exists []. split; [done|]. intros ev. split; [by intros ?%not_elem_of_nil|]. by intros (x & ?%not_elem_of_nil & _). }
  destruct (IH (stop_plugin x.1 st)) as (new & H1 & H2). destruct (stop_plugin_life x.1 st) as (sn & H3 & H4).
  exists (new ++ sn). split; [by rewrite H1, H3, app_assoc|]. intros ev. rewrite elem_of_app, H2. split.
  - intros [(y & Hy & H)|Hs]; [exists y; by split; [right|]|]. exists x. destruct (p_stop x.1); subst sn; [|by apply not_elem_of_nil in Hs].
    apply list_elem_of_singleton in Hs as ->. split; [left|done].
  - intros (y & [->|Hy]%elem_of_cons & Hst & ->).
    + right. destruct (p_stop x.1); [|done]. subst sn. left.
    + left. by exists y.
Qed.

Section loading.
Context (e : py_env) (sha256 : pystr → pystr) (isoformat : Z → pystr) (now : Z) (staged_dir temp_path : pystr).
Context (bracketed_ok netloc_ok exists_ : pystr → bool) (parse_timestamp : pystr → option Z).
Context (core_plugins : list plugin) (custom_dirs community_dirs : list pystr).
Context (repo_of : pystr → repo_env) (fs : pystr → option (option dir)).
Abbreviation load := (load_plugins e sha256 isoformat now staged_dir temp_path bracketed_ok netloc_ok exists_ parse_timestamp
  core_plugins custom_dirs community_dirs repo_of fs).
Abbreviation gather_all := (gather e sha256 isoformat now staged_dir temp_path bracketed_ok netloc_ok exists_ parse_timestamp
  core_plugins custom_dirs community_dirs repo_of fs).
Abbreviation conf d := (plugin_config (section_dict d (u "plugins")) (section_dict d (u "custom-plugins"))
  (section_dict d (u "community-plugins")) core_plugins).
Abbreviation up d := (comes_up (section_dict d (u "plugins")) (section_dict d (u "custom-plugins"))
  (section_dict d (u "community-plugins")) core_plugins).
Abbreviation prio d := (plugin_priority (section_dict d (u "plugins")) (section_dict d (u "custom-plugins"))
  (section_dict d (u "community-plugins")) core_plugins).

(** A first load that returns. *)
Lemma load_inv d l s res l' s' :
  load (VDict d) l s = (Done (res, l'), s') → ld_loaded l = false →
  ∃ plugins, gather_all (VDict d) d s = (Done plugins, s') ∧
    let r := activate (section_dict d (u "plugins")) (section_dict d (u "custom-plugins"))
      (section_dict d (u "community-plugins")) core_plugins plugins (start_global_scheduler (ld_sched l), ld_life l) in
    res = sort_by_priority r.1 ∧ l' = {| ld_loaded := true; ld_active := res; ld_sched := r.2.1; ld_life := r.2.2 |}.
Proof.
  intros H Hl. unfold load_plugins in H. rewrite Hl in H. apply bind_done in H as (plugins & s1 & Hg & H).
  destruct (activate _ _ _ _ _ _) as [active [sc life]] eqn:Ea. injection H as <- <- <-.
  exists plugins. split; [done|]. cbn zeta. by rewrite Ea.
Qed.

(** *** What the configuration says of a plugin

    Its entry: a core plugin's is in [plugins]; another's is in [custom-plugins] or, only if its name is not
    there, in [community-plugins].  The priority of the entry, else that of the plugin, else 100. *)
Definition entry_of (d : pydict) (p : plugin) (info : pydict) : Prop :=
  if bool_decide (p_id p ∈ p_id <$> core_plugins) then dget (section_dict d (u "plugins")) (p_name p) = Some (VDict info)
  else dget (section_dict d (u "custom-plugins")) (p_name p) = Some (VDict info) ∨
       dget (section_dict d (u "custom-plugins")) (p_name p) = None ∧
       dget (section_dict d (u "community-plugins")) (p_name p) = Some (VDict info).
Definition stated_priority (p : plugin) (info : pydict) : Z :=
  match dget info (u "priority") with
  | Some (VInt k) => k
  | _ => match p_priority p with VInt k => k | _ => 100 end
  end.
(** The plugin is to be active, and has started, with this priority. *)
Definition active_with (d : pydict) (p : plugin) (k : Z) : Prop :=
  p_starts p = true ∧ ∃ info, entry_of d p info ∧ dget info (u "active") = Some (VBool true) ∧ k = stated_priority p info.

(** An entry that is a mapping and says so. *)
Definition marked_active (entry : pyval) : bool :=
  match entry with
  | VDict info => match dget info (u "active") with Some (VBool true) => true | _ => false end
  | _ => false
  end.
Lemma marked_names section : _active_plugin_names section = fst <$> filter (λ kv, marked_active kv.2 = true) section.
Proof.
  unfold _active_plugin_names. induction section as [|[name v] section IH]; [done|]. cbn [omap list_omap].
  assert (match v with VDict info => if entry_active info then Some name else None | _ => None end
    = if marked_active v then Some name else None) as ->.
  { unfold marked_active, entry_active, dget_or. destruct v as [| | | | | | |info|]; try done.
    by destruct (dget info (u "active")) as [[| [] | | | | | | |]|]. }
  rewrite filter_cons, IH. cbn [snd]. destruct (marked_active v).
  - by rewrite decide_True.
  - by rewrite decide_False.
Qed.

Lemma entry_active_true info : entry_active info = true ↔ dget info (u "active") = Some (VBool true).
Proof. unfold entry_active, dget_or. destruct (dget info (u "active")) as [[| [] | | | | | | |]|]; naive_solver. Qed.
Lemma entry_config d p info : entry_of d p info →
  plugin_config (section_dict d (u "plugins")) (section_dict d (u "custom-plugins"))
    (section_dict d (u "community-plugins")) core_plugins p = info.
Proof.
  unfold entry_of, plugin_config, is_core, dmem, dget_or. case_bool_decide; [by intros ->|].
  by intros [->|[-> ->]].
Qed.
Lemma config_entry d p : entry_active (conf d p) = true → entry_of d p (conf d p).
Proof.
  unfold entry_of, plugin_config, is_core, dmem, dget_or. case_bool_decide.
  - by destruct (dget _ (p_name p)) as [[]|].
  - destruct (dget (section_dict d (u "custom-plugins")) (p_name p)) as [[]|]; try done; [by left|].
    right. split; [done|]. by destruct (dget _ (p_name p)) as [[]|].
Qed.
Lemma priority_stated d p : prio d p = stated_priority p (conf d p).
Proof.
  unfold plugin_priority, stated_priority, dget_or. cbv zeta. by destruct (dget (conf d p) (u "priority")) as [[]|].
Qed.
Lemma active_with_spec d p k : active_with d p k ↔ up d p = true ∧ k = prio d p.
Proof.
  unfold active_with, comes_up. rewrite andb_true_iff. split.
  - intros (Hs & info & He & Ha & ->). rewrite priority_stated, (entry_config _ _ _ He). split; [|done].
    split; [by apply entry_active_true|done].
  - intros ([Ha Hs] & ->). split; [done|]. exists (conf d p). split; [by apply config_entry|].
    split; [by apply entry_active_true|]. apply priority_stated.
Qed.

(** C32: The plugins that are loaded.  The core plugins come first; then what the custom plugins that are active
    in the configuration give; then what the community plugins give that are ready after all of
    these were fetched.  Of them, exactly those are loaded that their entry makes active and that have started -
    the entry of a core plugin is in its own section, a custom one goes before a community
    one of the same name - in the order of the priorities of their entries (else their own, else 100), and those of
    the same priority in the order above. *)
Theorem loaded_in_order d l s res l' s' :
  load (VDict d) l s = (Done (res, l'), s') → ld_loaded l = false →
  ∃ from_custom s1 ready s2 from_community chosen,
    load_custom e fs custom_dirs
      (fst <$> filter (λ kv, marked_active kv.2 = true) (section_dict d (u "custom-plugins"))) s = (Done from_custom, s1) ∧
    prepare_all e sha256 isoformat now staged_dir temp_path bracketed_ok netloc_ok exists_ parse_timestamp
      community_dirs repo_of (VDict d) (section_dict d (u "community-plugins")) s1 = (Done ready, s2) ∧
    load_community e bracketed_ok netloc_ok community_dirs fs (section_dict d (u "community-plugins")) ready s2
      = (Done from_community, s') ∧
    (∀ p k, chosen p = Some k ↔ active_with d p k) ∧
    let wanted := omap (λ p, (p,.) <$> chosen p) (core_plugins ++ from_custom ++ from_community) in
    res ≡ₚ wanted ∧ StronglySorted by_priority res ∧
    (∀ k, filter (λ x, x.2 = k) res = filter (λ x, x.2 = k) wanted) ∧
    ld_active l' = res ∧ ld_loaded l' = true.
Proof.
  intros H Hl. destruct (load_inv _ _ _ _ _ _ H Hl) as (plugins & Hg & -> & ->). clear H. unfold gather in Hg.
  apply bind_done in Hg as (from_custom & s1 & H1 & Hg). apply bind_done in Hg as (ready & s2 & H2 & Hg).
  apply bind_done in Hg as (from_community & s3 & H3 & Hg). injection Hg as <- <-.
  exists from_custom, s1, ready, s2, from_community, (λ p, if up d p then Some (prio d p) else None).
  rewrite <- marked_names. do 3 (split; [done|]). split.
  { intros p k. rewrite active_with_spec. destruct (up d p); naive_solver. }
  cbn zeta. assert (∀ ps : list plugin, omap (λ p, (p,.) <$> (if up d p then Some (prio d p) else None)) ps
    = (λ p, (p, prio d p)) <$> filter (λ p, up d p = true) ps) as ->.
  { induction ps as [|p ps IH]; [done|]. cbn [omap list_omap]. rewrite filter_cons.
    destruct (up d p) eqn:E; [|by rewrite decide_False by done]. rewrite decide_True by done. cbn. by rewrite IH. }
  rewrite activate_active. split; [apply sort_perm|]. split; [apply sort_sorted|].
  split; [|done]. intros k. apply sort_stable.
Qed.

(** What was started is stopped: after a load and a shut-down every plugin that was started was asked to
    stop, if it can be, although others raise when they are; the scheduler is stopped with them; and
    nothing is loaded. *)
Theorem shutdown_stops_all d l s res l' s' ends :
  load (VDict d) l s = (Done (res, l'), s') → ld_loaded l = false → res ≠ [] →
  let l2 := shutdown_plugins ends l' in
  (∀ x, x ∈ res → p_stop x.1 ≠ None → StopCalled (p_id x.1) ∈ ld_life l2) ∧
  sc_current (ld_sched l2) = None ∧ ld_active l2 = [] ∧ ld_loaded l2 = false.
Proof.
  intros H Hl Hres. destruct (load_inv _ _ _ _ _ _ H Hl) as (plugins & _ & _ & ->). clear H.
  unfold shutdown_plugins. cbn [ld_active ld_sched ld_life]. destruct res as [|x0 xs]; [done|].
  match goal with |- context [foldl ?f ?st _] => destruct (stop_all_life (x0 :: xs) st) as (new & H1 & H2);
    destruct (foldl f st (x0 :: xs)) as [sc life] end.
  cbn [ld_life ld_sched ld_active ld_loaded snd] in *. split.
  - intros x Hx Hst. rewrite H1. apply elem_of_app. left. apply H2. by exists x.
  - split; [|done]. unfold stop_global_scheduler. by destruct (sc_current sc) eqn:Ec.
Qed.

(** Loading again changes nothing, and runs nothing. *)
Lemma load_twice d config l s res l' s' s2 :
  load (VDict d) l s = (Done (res, l'), s') → ld_loaded l = false → load config l' s2 = (Done (res, l'), s2).
Proof. intros H Hl. destruct (load_inv _ _ _ _ _ _ H Hl) as (plugins & _ & _ & ->). done. Qed.
End loading.

(** ** The scheduler *)

Definition sched_ok (s : scheduler) : Prop :=
  (∀ t, t ∈ sc_running s → (t < sc_next s)%nat ∧ (t ∈ sc_stopping s ∨ sc_current s = Some t)) ∧
  (∀ t, sc_current s = Some t → (t < sc_next s)%nat ∧ t ∉ sc_stopping s) ∧
  (∀ t, t ∈ sc_stopping s → (t < sc_next s)%nat).

Lemma sched_ok_jobs jobs s : sched_ok s → sched_ok (with_jobs jobs s).
Proof. done. Qed.
Lemma alive_spec s : alive s = true ↔ ∃ t, sc_current s = Some t ∧ t ∈ sc_running s.
Proof.
  unfold alive. destruct (sc_current s) as [t|]; [|split; [done|by intros (t & ? & _)]].
  rewrite bool_decide_eq_true. split; [by exists t|]. by intros (t' & [= ->] & H).
Qed.
Lemma sched_ok_start s : sched_ok s → sched_ok (start_global_scheduler s).
Proof.
  intros Hok. pose proof Hok as (H1 & H2 & H3). unfold start_global_scheduler. destruct (sc_available s); [|done]. cbn [negb].
  destruct (alive s) eqn:Ea; [done|]. split; [|split]; cbn.
  - intros t [->%elem_of_singleton|Ht]%elem_of_union; [split; [lia|by right]|]. destruct (H1 t Ht) as [Hlt [Hs|Hc]].
    + split; [lia|by left].
    + exfalso. apply not_true_iff_false in Ea. apply Ea, alive_spec. by exists t.
  - intros t [= <-]. split; [lia|]. intros Hs. apply H3 in Hs. lia.
  - intros t Ht. apply H3 in Ht. lia.
Qed.
Lemma sched_ok_stop ends s : sched_ok s → sched_ok (stop_global_scheduler ends s).
Proof.
  intros Hok. pose proof Hok as (H1 & H2 & H3). unfold stop_global_scheduler.
  destruct (sc_current s) as [c|] eqn:Ec; [|exact Hok].
  destruct (H2 c eq_refl) as [Hc _]. split; [|split]; cbn.
  - intros t Ht. assert (Hr : t ∈ sc_running s) by (destruct ends; set_solver).
    destruct (H1 t Hr) as [Hlt [Hs|[= ->]]]; (split; [done|left; set_solver]).
  - done.
  - intros t [->%elem_of_singleton|Ht]%elem_of_union; [done|by apply H3].
Qed.
Lemma sched_ok_ended t s : sched_ok s → sched_ok (thread_ended t s).
Proof.
  intros (H1 & H2 & H3). split; [|split]; cbn; [|exact H2|exact H3].
  intros t' Ht. apply H1. set_solver.
Qed.
Lemma sched_preserved : preserves sched_step sched_ok.
Proof.
  intros s s' Hstep Hok. destruct Hstep.
  - by apply sched_ok_start.
  - by apply sched_ok_stop.
  - unfold schedule_job. by destruct (sc_available s).
  - unfold clear_plugin_jobs. by destruct (sc_available s).
  - by apply sched_ok_ended.
  - by apply sched_ok_ended.
Qed.

(** Jobs are never run by two threads for long: whatever is started and stopped, and however threads
    end, at most one thread runs that was not told to stop - the known one - and after a stop none. *)
Theorem one_scheduler available s :
  star sched_step (new_scheduler available) s →
  (∀ t t', t ∈ sc_running s → t ∉ sc_stopping s → t' ∈ sc_running s → t' ∉ sc_stopping s → t = t') ∧
  (∀ ends t, t ∈ sc_running (stop_global_scheduler ends s) → t ∈ sc_stopping (stop_global_scheduler ends s)) ∧
  (available = true → alive (start_global_scheduler s) = true).
Proof.
  intros Hs.
  assert (Hok : sched_ok s).
  { eapply star_invariant; [apply sched_preserved|exact Hs|]. split; [|split]; cbn; set_solver. }
  assert (Hav : sc_available s = available).
  { apply (star_invariant sched_step (λ s, sc_available s = available) (new_scheduler available)); [|exact Hs|done].
    intros s1 s2 Hstep <-. destruct Hstep; try done;
      unfold start_global_scheduler, stop_global_scheduler, schedule_job, clear_plugin_jobs; by repeat case_match. }
  pose proof Hok as (H1 & _). split; [|split].
  - intros t t' Hr Hn Hr' Hn'. destruct (H1 t Hr) as [_ [?|Hc]]; [done|]. destruct (H1 t' Hr') as [_ [?|Hc']]; [done|]. congruence.
  - intros ends t Ht. destruct (sched_ok_stop ends s Hok) as (G1 & _). destruct (G1 t Ht) as [_ [?|Hc]]; [done|].
    unfold stop_global_scheduler in Hc. destruct (sc_current s) eqn:E; cbn in Hc; congruence.
  - intros ->. unfold start_global_scheduler. rewrite Hav. cbn [negb]. destruct (alive s) eqn:E; [done|].
    apply alive_spec. exists (sc_next s). cbn. split; [done|set_solver].
Qed.

(** ** Directories of plugins *)

Section directories.
Context (e : py_env).

(** A name that can be handed to pip or pipx: it is no option and no address. *)
Definition package_name (s : pystr) : Prop :=
  (∃ c t, s = c :: t ∧ alnum_char c = true) ∧ Forall (λ c, package_char c = true) s.

Lemma take_while_all f s : Forall (λ c, f c = true) (take_while f s).
Proof. induction s as [|c s IH]; cbn [take_while]; [constructor|]. destruct (f c) eqn:E; [by constructor|constructor]. Qed.
Lemma missing_package_name name message pkg : missing_package name message = Some pkg → package_name pkg.
Proof.
  unfold missing_package. set (top := (partition DOT _).1.1). destruct top as [|c s]; [done|].
  destruct (alnum_char c) eqn:Ec; [|done]. intros [= <-]. split; [by exists c, (take_while package_char s)|].
  constructor; [unfold package_char; by rewrite Ec|apply take_while_all].
Qed.

(** What loading a directory may run: the installation of one package, and for no community plugin. *)
Definition install_command (pkg : pystr) (cmd : list pystr) : Prop :=
  (∃ pipx, cmd = [pipx; u "inject"; u "mmrelay"; pkg]) ∨
  ∃ rest, cmd = [pe_executable e; u "-m"; u "pip"; u "install"; pkg] ++ rest ∧
          rest `prefix_of` [u "--disable-pip-version-check"; u "--no-input"; u "--user"].
Definition directory_event_ok (community : bool) (ev : git_event) : Prop :=
  match ev with
  | Ran cmd _ => community = false ∧ ∃ pkg, package_name pkg ∧ install_command pkg cmd
  | _ => False
  end.

Lemma only_auto_install community pkg :
  package_name pkg → adds_only (directory_event_ok community) (auto_install e community pkg).
Proof.
  intros Hp. unfold auto_install. destruct community; [apply only_raise|].
  destruct (pe_pipx_home e).
  - destruct (pe_pipx_path e) as [pipx|]; [|apply only_raise].
    apply only_bind; [|intros ?; apply only_ret]. apply (only_run _ 1). intros r. split; [done|].
    exists pkg. split; [done|]. left. by exists pipx.
  - apply only_bind; [|intros ?; apply only_ret]. apply (only_run _ 1). intros r. split; [done|].
    exists pkg. split; [done|]. right. eexists. split; [reflexivity|].
    destruct (in_venv e); [by exists [u "--user"]|done].
Qed.
Lemma only_load_file community f : adds_only (directory_event_ok community) (load_file e community f).
Proof.
  unfold load_file. destruct (_ || _); [apply only_ret|]. cbn zeta.
  assert (Hm : ∀ name message, adds_only (directory_event_ok community)
    match missing_package name message with
    | Some missing_pkg => g_try git_any_error (auto_install e community missing_pkg;; g_ret (retried (pf_retry f))) (λ _, g_ret [])
    | None => g_raise ModuleNotFound
    end).
  { intros name message. destruct (missing_package name message) as [pkg|] eqn:Ep; [|apply only_raise].
    apply only_try; [|intros err; apply only_ret].
    apply only_bind; [by eapply only_auto_install, missing_package_name|intros ?; apply only_ret]. }
  destruct (pf_import f) as [[[]|]| |]; try apply only_ret; apply Hm.
Qed.
Lemma only_load_files community files : adds_only (directory_event_ok community) (load_files e community files).
Proof.
  induction files as [|f fs IH]; cbn [load_files]; [apply only_ret|].
  apply only_bind; [apply only_load_file|intros ps]. apply only_bind; [done|intros rest; apply only_ret].
Qed.

(** The plugins of a file. *)
Definition made_by (f : pyfile) (p : plugin) : Prop :=
  plugin_file (pf_name f) = true ∧ pf_spec f = true ∧
  (pf_import f = Imported (Some (Built p)) ∨ pf_retry f = Imported (Some (Built p))).
Lemma load_file_made community f s ps s' :
  load_file e community f s = (Done ps, s') → Forall (made_by f) ps.
Proof.
  unfold load_file. destruct (plugin_file (pf_name f)) eqn:Ef, (pf_spec f) eqn:Es; cbn [negb orb]; try (intros [= <- _]; constructor).
  cbn zeta.
  assert (Hr : ∀ name message, match missing_package name message with
    | Some missing_pkg => g_try git_any_error (auto_install e community missing_pkg;; g_ret (retried (pf_retry f))) (λ _, g_ret [])
    | None => g_raise ModuleNotFound
    end s = (Done ps, s') → Forall (made_by f) ps).
  { intros name message. destruct (missing_package name message) as [pkg|]; [|done].
    intros [(x & s1 & _ & H)%bind_done|(err & s1 & _ & [= <- _])]%try_done; [|constructor].
    injection H as <- _. destruct (pf_retry f) as [[[]|]| |] eqn:Er; try constructor; [|constructor].
    split; [done|]. split; [done|]. by right. }
  destruct (pf_import f) as [[[p|name message|]|]|name message|] eqn:Ei; try (intros [= <- _]; constructor); try by apply Hr.
  - split; [done|]. split; [done|]. by left.
  - constructor.
Qed.
Lemma load_files_made community files s ps s' :
  load_files e community files s = (Done ps, s') → Forall (λ p, ∃ f, f ∈ files ∧ made_by f p) ps.
Proof.
  induction files as [|f fs IH] in s, ps, s' |- *; cbn [load_files]; [intros [= <- _]; constructor|].
  intros (ps1 & s1 & H1 & (ps2 & s2 & H2 & [= <- <-])%bind_done)%bind_done.
  apply Forall_app. split.
  - eapply Forall_impl; [by eapply load_file_made|]. intros p Hp. exists f. by split; [left|].
  - eapply Forall_impl; [by eapply IH|]. intros p (g & Hg & Hp). exists g. by split; [right|].
Qed.

(** Loading a directory imports only files of plugins - no tests, no hidden files, and below the
    directory only when asked to - and runs nothing but the installation of packages whose names are
    plain; for a community plugin it runs nothing at all. *)
Theorem directory_sound d recursive community s r s' :
  load_plugins_from_directory e (Some d) recursive community s = (r, s') →
  (∀ ps, r = Done ps → Forall (λ p, ∃ f, f ∈ (if recursive then walk d else top_files d) ∧ made_by f p) ps) ∧
  ∃ new, gs_log s' = new ++ gs_log s ∧ Forall (directory_event_ok community) new.
Proof.
  intros H. cbn [load_plugins_from_directory] in H. split.
  - intros ps ->. by eapply load_files_made.
  - destruct (only_load_files community (if recursive then walk d else top_files d) s) as (new & Hn & HF).
    rewrite H in Hn. by exists new.
Qed.

Context (fs : pystr → option (option dir)).

Definition never_fails {A} (m : G A) : Prop := ∀ s err s', m s ≠ (Failed err, s').
Lemma never_bind {A B} (m : G A) (k : A → G B) : never_fails m → (∀ a, never_fails (k a)) → never_fails (g_bind m k).
Proof.
  intros Hm Hk s err s'. unfold g_bind. destruct (m s) as [[a|e'|] s1] eqn:E; [apply Hk|by apply Hm in E|done].
Qed.
Lemma never_load_from_dirs community dirs name : never_fails (load_from_dirs e fs community dirs name).
Proof.
  induction dirs as [|d ds IH]; cbn [load_from_dirs]; [done|]. cbn zeta. destruct (negb _); [done|].
  destruct (fs _); [|done]. apply never_bind; [|by intros [ps|]].
  intros s err s'. unfold g_try. match goal with |- match ?m s with _ => _ end ≠ _ => by destruct (m s) as [[]] end.
Qed.

(** Whatever the files of custom plugins do - short of ending the process - loading them does not fail,
    so that a plugin that cannot be loaded does not keep the others from it; and names that are not
    safe are passed over. *)
Theorem custom_errors_contained custom_dirs names s :
  (∀ err, (load_custom e fs custom_dirs names s).1 ≠ Failed err) ∧
  load_custom e fs custom_dirs names s = load_custom e fs custom_dirs (filter (λ n, _is_safe_plugin_name n = true) names) s.
Proof.
  split.
  - assert (H : never_fails (load_custom e fs custom_dirs names)).
    { induction names as [|n ns IH]; cbn [load_custom]; [done|]. destruct (negb _); [done|].
      apply never_bind; [apply never_load_from_dirs|]. intros found. by apply never_bind. }
    intros err He. destruct (load_custom e fs custom_dirs names s) as [r s'] eqn:E. cbn in He. subst r. by apply H in E.
  - induction names as [|n ns IH] in s |- *; [done|]. rewrite filter_cons. cbn [load_custom].
    destruct (decide (_is_safe_plugin_name n = true)) as [Hn|Hn].
    + cbn [load_custom]. rewrite Hn. cbn [negb]. unfold g_bind.
      destruct (load_from_dirs e fs false custom_dirs n s) as [[found|err|] s1]; [|done|done]. by rewrite IH.
    + apply not_true_is_false in Hn. rewrite Hn. apply IH.
Qed.
End directories.

(** ** What modelling showed *)

Definition plug (id : nat) (name : pystr) (priority : Z) (starts : bool) (stop : option bool) : plugin :=
  {| p_id := id; p_name := name; p_priority := VInt priority; p_job := true; p_starts := starts; p_stop := stop |}.
Definition pyfile_of (name : pystr) (i : import) : pyfile :=
  {| pf_name := name; pf_spec := true; pf_import := i; pf_retry := i |}.
Definition nothing : git_state := {| gs_results := []; gs_log := [] |}.
Definition fresh (available : bool) : loader :=
  {| ld_loaded := false; ld_active := []; ld_sched := new_scheduler available; ld_life := [] |}.
Definition load_with (core : list plugin) (fs : pystr → option (option dir)) (config : pydict) (results : list run_result)
    : ran (list (plugin * Z) * loader) * git_state :=
  load_plugins posix_env id iso 1000 (u "/h/staged") (u "/tmp/r.txt") no_check no_check (λ _, false) iso_parse
    core [u "/h/plugins/custom"] [u "/h/plugins/community"] (λ _, repo_with false []) fs (VDict config) (fresh true)
    {| gs_results := results; gs_log := [] |}.
Definition switched_on (names : list pystr) : pyval := VDict ((λ n, (n, VDict [(u "active", VBool true)])) <$> names).

(** Without an active plugin the scheduler is started by [load_plugins] and not stopped by
    [shutdown_plugins]. *)
Lemma scheduler_left_running :
  ∃ l s, load_with [] (λ _, None) [] [] = (Done ([], l), s) ∧
    alive (ld_sched l) = true ∧ alive (ld_sched (shutdown_plugins true l)) = true.
Proof. eexists _, _. split; [vm_compute; reflexivity|]. split; vm_compute; reflexivity. Qed.

(** A module whose name starts with an underscore - such as [_cffi_backend] - cannot be imported: the
    whole directory is given up, with the plugins that were made before. *)
Lemma private_module_aborts_directory :
  let d := Dir [pyfile_of (u "a.py") (Imported (Some (Built (plug 0 (u "a") 5 true (Some true)))));
                pyfile_of (u "b.py") (ImportMissing (Some (u "_cffi_backend")) [])] NoDirs in
  (load_plugins_from_directory posix_env (Some d) false false nothing).1 = Failed ModuleNotFound ∧
  (load_from_dirs posix_env (λ _, Some (Some d)) false [u "/h/plugins/custom"] (u "p") nothing).1 = Done None.
Proof. vm_compute. done. Qed.

(** A job that raises ends the thread for the jobs of all plugins; nothing starts it again. *)
Lemma raising_job_stops_all :
  let s := schedule_job (u "b") (schedule_job (u "a") (start_global_scheduler (new_scheduler true))) in
  ∃ s', sched_step s s' ∧ alive s = true ∧ alive s' = false ∧ sc_jobs s' = [u "a"; u "b"].
Proof.
  intros s. exists (thread_ended 0 s). split; [|vm_compute; done]. apply SchedJobRaises; [by_decide|done].
Qed.

(** An address with a blank at its end is fetched without it and looked for with it. *)
Lemma spaced_url_not_loaded :
  let config := [(u "community-plugins", VDict [(u "p", VDict [(u "active", VBool true);
                   (u "repository", VStr (u "https://github.com/a/b "))])])] in
  let d := Dir [pyfile_of (u "a.py") (Imported (Some (Built (plug 0 (u "p") 5 true (Some true)))))] NoDirs in
  let fs path := if str_eqb path (u "/h/plugins/community/b") then Some (Some d) else None in
  ∃ l s, load_with [] fs config [RunOk []] = (Done ([], l), s) ∧
    gs_log s = [Ran (clone (Some (u "main")) (u "https://github.com/a/b") (u "b")) (RunOk []); RemovedTree].
Proof. eexists _, _. split; vm_compute; reflexivity. Qed.

(** ** Applications *)

Definition three_plugins : list plugin :=
  [plug 0 (u "ping") 50 true (Some false); plug 1 (u "map") 10 true (Some true); plug 2 (u "drop") 10 true None;
   plug 3 (u "debug") 1 false (Some true); plug 4 (u "help") 7 true (Some true)].
Definition three_config : pydict :=
  [(u "plugins", switched_on [u "ping"; u "map"; u "drop"; u "debug"])].

Lemma loaded_in_order_witness :
  ∃ res l s, load_with three_plugins (λ _, None) three_config [] = (Done (res, l), s) ∧
    ((λ x, p_id x.1) <$> res) = [1; 2; 0]%nat ∧ StronglySorted by_priority res.
Proof.
  eexists _, _, _. split; [vm_compute; reflexivity|]. split; [vm_compute; reflexivity|].
  edestruct (loaded_in_order posix_env id iso 1000 (u "/h/staged") (u "/tmp/r.txt") no_check no_check (λ _, false) iso_parse
    three_plugins [u "/h/plugins/custom"] [u "/h/plugins/community"] (λ _, repo_with false []) (λ _, None) three_config
    (fresh true) nothing) as (fc & s1 & ready & s2 & fm & chosen & _ & _ & _ & _ & _ & H & _).
  - vm_compute. reflexivity.
  - reflexivity.
  - exact H.
Defined.

Lemma shutdown_stops_all_witness :
  ∃ res l s, load_with three_plugins (λ _, None) three_config [] = (Done (res, l), s) ∧
    (∀ x, x ∈ res → p_stop x.1 ≠ None → StopCalled (p_id x.1) ∈ ld_life (shutdown_plugins false l)) ∧
    sc_current (ld_sched (shutdown_plugins false l)) = None.
Proof.
  eexists _, _, _. split; [vm_compute; reflexivity|].
  edestruct (shutdown_stops_all posix_env id iso 1000 (u "/h/staged") (u "/tmp/r.txt") no_check no_check (λ _, false) iso_parse
    three_plugins [u "/h/plugins/custom"] [u "/h/plugins/community"] (λ _, repo_with false []) (λ _, None) three_config
    (fresh true) nothing) with (ends := false) as (H1 & H2 & _).
  - vm_compute. reflexivity.
  - reflexivity.
  - discriminate.
  - split; [exact H1|exact H2].
Defined.

Lemma one_scheduler_witness :
  let s := stop_global_scheduler false (start_global_scheduler (new_scheduler true)) in
  star sched_step (new_scheduler true) s ∧
  (∀ t t', t ∈ sc_running s → t ∉ sc_stopping s → t' ∈ sc_running s → t' ∉ sc_stopping s → t = t').
Proof.
  intros s.
  assert (H : star sched_step (new_scheduler true) s)
    by (eapply star_step; [apply SchedStart|]; eapply star_step; [apply (SchedStop _ false)|]; apply star_refl).
  split; [exact H|]. exact (proj1 (one_scheduler true s H)).
Defined.

Lemma directory_sound_witness :
  let d := Dir [pyfile_of (u "a.py") (ImportMissing None (u "No module named 'requests.sessions'"))] NoDirs in
  ∃ r s', load_plugins_from_directory posix_env (Some d) true false {| gs_results := [RunOk []]; gs_log := [] |} = (r, s') ∧
    gs_log s' ≠ [] ∧ ∃ new, gs_log s' = new ++ [] ∧ Forall (directory_event_ok posix_env false) new.
Proof.
  intros d. eexists _, _. split; [vm_compute; reflexivity|]. split; [discriminate|].
  refine (proj2 (directory_sound posix_env d true false {| gs_results := [RunOk []]; gs_log := [] |} _ _ _)).
  vm_compute. reflexivity.
Defined.
