(* ===== verification/MigrateFs.v ===== *)
(** * The files a migration works on

    The part of [pathlib], [os] and [shutil] that [migrate.py] calls, and the programs built from it.

    A tree is the files and folders below the root; a path is the list of its names, the last one
    first, so that what lies below [p] are the paths that have [p] as a suffix.  Paths are absolute,
    without symbolic links.  Each change of the tree may break: an input says, change after change,
    whether it is made or ends in an error of the operating system, and what was done until then - a
    part of a copy, torn files in it, a part of a removal.  Reading never breaks, but for the text of a file. *)

From Stdlib Require Import QArith String.
From stdpp Require Import base tactics numbers sets gmap list.
From S2P Require Import Prelude PyStr.
Open Scope Z_scope.

Abbreviation path := (list pystr).
Inductive node := File (content : pystr) | Folder.
#[export] Instance node_eq_dec : EqDecision node.
Proof. solve_decision. Defined.
Abbreviation files := (gmap path node).

(** ** Paths and subtrees *)

Definition name (p : path) : pystr := default [] (head p).
Definition parent (p : path) : path := tail p.

(** [q] relative to [d]. *)
Definition rel (d q : path) : option path :=
  if decide (d `suffix_of` q) then Some (take (length q - length d) q) else None.

Definition below (p : path) (t : files) : files := filter (λ kv, p `suffix_of` kv.1) t.
Definition outside (p : path) (t : files) : files := filter (λ kv, ¬ p `suffix_of` kv.1) t.

(** The subtree at [s], as it looks at [d]. *)
Definition graft (s d : path) (t : files) : files :=
  list_to_map (omap (λ kv : path * node, match rel s kv.1 with
                                         | Some r => Some (r ++ d, kv.2)
                                         | None => None
                                         end) (map_to_list t : list (path * node))).

(** A path is there with what is below it. *)
Definition exists_at (p : path) (t : files) : bool := bool_decide (below p t ≠ ∅).
Definition is_file (p : path) (t : files) : bool :=
  match t !! p with Some (File _) => true | _ => false end.
Definition is_dir (p : path) (t : files) : bool := exists_at p t && negb (is_file p t).

(** The entry of the folder [p] that [q] is or lies in. *)
Definition entry (p q : path) : option path :=
  match rel p q with
  | Some r => match reverse r with n :: _ => Some (n :: p) | [] => None end
  | None => None
  end.
Definition iterdir (p : path) (t : files) : list path :=
  remove_dups (omap (entry p) ((map_to_list t).*1 : list path)).

(** ** Errors and programs *)

(** The error numbers the code can tell apart: a PermissionError is one of the first two, a
    FileExistsError the third.  The errors of [shutil] are OSErrors too. *)
Inductive errno := EACCES | EPERM | EEXIST | EOTHER.
Inductive exn :=
  | OSError (no : errno) (winerror : option Z)
  | MigrationError (step : pystr)
  | OtherError.
#[export] Instance errno_eq_dec : EqDecision errno.
Proof. solve_decision. Defined.
#[export] Instance exn_eq_dec : EqDecision exn.
Proof. solve_decision. Defined.

(** What has been touched when a change breaks: a path with None is done, one with Some text is a
    file that was torn and holds this.  [late]: the copy of a move was complete, and the removal of
    the source broke. *)
Abbreviation marks := (gmap path (option pystr)).
Inductive outcome := Works | Breaks (no : errno) (winerror : option Z) (touched : marks) (late : bool).

(** [stamps]: the texts of the times the program asks for; [slept]: its pauses, the latest first. *)
Record disk := Disk {
  tree : files;
  faults : list outcome;
  stamps : list pystr;
  slept : list Q;
}.

Inductive outcome_of (A : Type) := Done (a : A) | Raised (e : exn).
Arguments Done {A} _.
Arguments Raised {A} _.
Definition F (A : Type) : Type := disk → outcome_of A * disk.

Definition f_ret {A} (a : A) : F A := λ k, (Done a, k).
Definition f_raise {A} (e : exn) : F A := λ k, (Raised e, k).
Definition f_bind {A B} (m : F A) (f : A → F B) : F B := λ k,
  match m k with
  | (Done a, k') => f a k'
  | (Raised e, k') => (Raised e, k')
  end.
Definition f_try {A} (m : F A) (h : exn → F A) : F A := λ k,
  match m k with
  | (Raised e, k') => h e k'
  | r => r
  end.
Definition f_get {A} (f : files → A) : F A := λ k, (Done (f (tree k)), k).

Declare Scope files_scope.
Delimit Scope files_scope with files.
Notation "x <- m ;; k" := (f_bind m (λ x, k)) (at level 100, m at next level, right associativity) : files_scope.
Notation "m ;; k" := (f_bind m (λ _, k)) (at level 100, right associativity) : files_scope.
Open Scope files_scope.

Definition is_os_error (e : exn) : bool := match e with OSError _ _ => true | _ => false end.
Definition f_when (c : bool) (m : F unit) : F unit := if c then m else f_ret tt.
Fixpoint f_each {A} (f : A → F unit) (l : list A) : F unit :=
  match l with [] => f_ret tt | a :: l => f a;; f_each f l end.

(** [finally] with a clean-up that raises nothing but what its changes raise. *)
Definition f_finally {A} (m : F A) (clean : bool → F unit) : F A := λ k,
  match m k with
  | (Done a, k') => (clean true;; f_ret a) k'
  | (Raised e, k') => (clean false;; f_raise e) k'
  end.

(** The next time. *)
Definition now : F pystr := λ k,
  (Done (default [] (head (stamps k))),
   {| tree := tree k; faults := faults k; stamps := tail (stamps k); slept := slept k |}).
Definition sleep (q : Q) : F unit := λ k,
  (Done tt, {| tree := tree k; faults := faults k; stamps := stamps k; slept := q :: slept k |}).

(** ** The changes of a tree

    A file has nothing below it: what is done with the whole subtree at a path is right for a file and
    for a folder. *)

(** A change: [work] is what it does, None when the tree does not allow it; [broken] is what an
    error leaves. *)
Definition attempt (work : files → option files) (broken : marks → bool → files → files) : F unit := λ k,
  let to t := {| tree := t; faults := tail (faults k); stamps := stamps k; slept := slept k |} in
  match head (faults k) with
  | Some (Breaks no w touched late) => (Raised (OSError no w), to (broken touched late (tree k)))
  | _ =>
      match work (tree k) with
      | Some t => (Done tt, to t)
      | None => (Raised (OSError EOTHER None), to (tree k))
      end
  end.

Fixpoint tails (p : path) : list path :=
  p :: match p with [] => [] | _ :: p' => tails p' end.
Definition add_folder (q : path) (t : files) : files :=
  if decide (t !! q = None) then <[q := Folder]> t else t.
Definition add_folders (l : list path) (t : files) : files := foldr add_folder t l.
Definition make_dirs (p : path) (t : files) : option files :=
  if existsb (λ q, is_file q t) (tails p) then None else Some (add_folders (tails p) t).
(** [Path.mkdir(parents=True, exist_ok=True)] *)
Definition mkdirs (p : path) : F unit :=
  attempt (make_dirs p)
    (λ touched _ t, add_folders (filter (λ q, is_Some (touched !! q)) (tails p)) t).

Definition torn (n : node) (mark : option pystr) : node :=
  match n, mark with File _, Some w => File w | _, _ => n end.
(** A part of a copy. *)
Definition copied_part (s d : path) (touched : marks) (t : files) : files :=
  map_zip_with torn (graft s d t) touched ∪ t.
Definition removed_part (p : path) (touched : marks) (t : files) : files :=
  filter (λ kv, ¬ (p `suffix_of` kv.1 ∧ is_Some (touched !! kv.1))) t.

(** A copy or a move to a folder goes into it. *)
Definition into (s d : path) (t : files) : path := if is_dir d t then name s :: d else d.

Definition copy_file (s d : path) (t : files) : option files :=
  let d' := into s d t in
  if is_file s t && is_dir (parent d') t && negb (is_dir d' t) && bool_decide (s ≠ d') then
    Some (graft s d' t ∪ outside d' t)
  else None.
Definition copy2 (s d : path) : F unit :=
  attempt (copy_file s d) (λ touched _ t, copied_part s (into s d t) touched t).

(** The folders above the copy are made; a copy into itself is an error here. *)
Definition copy_tree (s d : path) (t : files) : option files :=
  if is_dir s t && negb (exists_at d t) && negb (bool_decide (s `suffix_of` d)) then
    match make_dirs (parent d) t with Some t' => Some (graft s d t ∪ t') | None => None end
  else None.
Definition copytree (s d : path) : F unit :=
  attempt (copy_tree s d)
    (λ touched _ t, if exists_at d t then t else copied_part s d touched t).

Definition rm_tree (p : path) (t : files) : option files :=
  if is_dir p t then Some (outside p t) else None.
Definition rmtree (p : path) : F unit :=
  attempt (rm_tree p) (λ touched _ t, removed_part p touched t).
(** [ignore_errors=True] *)
Definition rmtree_ignoring (p : path) : F unit := f_try (rmtree p) (λ _, f_ret tt).

Definition unlink_file (p : path) (t : files) : option files :=
  if is_file p t then Some (outside p t) else None.
Definition unlink (p : path) : F unit := attempt (unlink_file p) (λ _ _ t, t).

Definition remove_dir (p : path) (t : files) : option files :=
  match iterdir p t with
  | [] => if is_dir p t then Some (outside p t) else None
  | _ => None
  end.
Definition rmdir (p : path) : F unit := attempt (remove_dir p) (λ _ _ t, t).

(** [Path.replace] of a file. *)
Definition replace_file (s d : path) (t : files) : option files :=
  if is_file s t && is_dir (parent d) t && negb (is_dir d t) then
    Some (graft s d t ∪ outside s (outside d t))
  else None.
Definition replace (s d : path) : F unit := attempt (replace_file s d) (λ _ _ t, t).

(** [shutil.move]: a rename, or across file systems a copy and a removal of the source.  A file takes
    the place of a file; a folder is not moved onto a file or into itself, and nothing onto what is
    already in the folder it goes into. *)
Definition move_path (s d : path) (t : files) : option files :=
  let d' := into s d t in
  if bool_decide (s = d) then (if exists_at s t then Some t else None)
  else if negb (exists_at s t) then None
  else if is_dir d t && exists_at d' t then None
  else if is_file s t then
    if is_dir (parent d') t then Some (graft s d' t ∪ outside s (outside d' t)) else None
  else if exists_at d' t || bool_decide (s `suffix_of` d') then None
  else match make_dirs (parent d') t with Some t' => Some (graft s d' t ∪ outside s t') | None => None end.
Definition move (s d : path) : F unit :=
  attempt (move_path s d)
    (λ touched late t,
       let d' := into s d t in
       if bool_decide (s = d) || (is_dir d t && exists_at d' t) then t
       else if bool_decide (s `suffix_of` d') || (is_dir s t && exists_at d' t) then t
       else if late then removed_part s touched (graft s d' t ∪ outside d' t)
       else copied_part s d' touched t).

(** [Path.touch(exist_ok=False)] *)
Definition touch_new (p : path) : F unit :=
  there <- f_get (exists_at p);;
  if there then f_raise (OSError EEXIST None)
  else attempt (λ t, if is_dir (parent p) t then Some (<[p := File []]> t) else None) (λ _ _ t, t).

(** [open(...).read()]; the bytes are read as text by the caller. *)
Definition read_file_text (p : path) : F pystr :=
  attempt (λ t, if is_file p t then Some t else None) (λ _ _ t, t);;
  f_get (λ t, match t !! p with Some (File c) => c | _ => [] end).

(** [Path.write_text] *)
Definition write_text (p : path) (c : pystr) : F unit :=
  attempt (λ t, if is_dir (parent p) t && negb (is_dir p t) then Some (<[p := File c]> t) else None)
    (λ touched _ t, match touched !! p with Some (Some w) => <[p := File w]> t | _ => t end).

Lemma f_bind_get {A B : Type} (f : files → A) (m : A → F B) k : f_bind (f_get f) m k = m (f (tree k)) k.
Proof. done. Qed.

Lemma read_file_text_cases p k :
  ∃ fs, let k' := {| tree := tree k; faults := fs; stamps := stamps k; slept := slept k |} in
    (∃ c, read_file_text p k = (Done c, k')) ∨ (∃ no w, read_file_text p k = (Raised (OSError no w), k')).
Proof.
  exists (tail (faults k)). cbn zeta. unfold read_file_text, f_bind, attempt, f_get. cbv beta zeta.
  destruct (head (faults k)) as [[|no w m l]|], (is_file p (tree k)); cbn; eauto.
Qed.

(** ** Subtrees *)

Lemma rel_Some d q r : rel d q = Some r ↔ q = r ++ d.
Proof.
  unfold rel. case_decide as Hd.
  - destruct Hd as [r' ->]. rewrite length_app, Nat.add_sub, take_app_length.
    split; [by intros [= ->]|]. intros ?%(inj (.++ d)). by f_equal.
  - split; [done|]. intros ->. destruct Hd. by exists r.
Qed.
Lemma rel_app d r : rel d (r ++ d) = Some r.
Proof. by apply rel_Some. Qed.

Lemma lookup_below p t q n : below p t !! q = Some n ↔ t !! q = Some n ∧ p `suffix_of` q.
Proof. apply map_lookup_filter_Some. Qed.
Lemma lookup_outside p t q n : outside p t !! q = Some n ↔ t !! q = Some n ∧ ¬ p `suffix_of` q.
Proof. apply map_lookup_filter_Some. Qed.
Lemma lookup_removed p touched t q n : removed_part p touched t !! q = Some n →
  t !! q = Some n.
Proof. by intros [? _]%map_lookup_filter_Some. Qed.
Lemma lookup_removed_keeps p touched t q n : ¬ p `suffix_of` q → t !! q = Some n →
  removed_part p touched t !! q = Some n.
Proof. intros. apply map_lookup_filter_Some. naive_solver. Qed.

Lemma lookup_graft s d t q n : graft s d t !! q = Some n ↔ ∃ r, q = r ++ d ∧ t !! (r ++ s) = Some n.
Proof.
  unfold graft. rewrite <- elem_of_list_to_map.
  - rewrite list_elem_of_omap. split.
    + intros ([q' n'] & Hin & Hf). cbn in Hf. destruct (rel s q') as [r|] eqn:Hr; [|done].
      injection Hf as <- <-. apply rel_Some in Hr as ->.
      apply elem_of_map_to_list in Hin. eauto.
    + intros (r & -> & Hr). exists (r ++ s, n). split; [by apply elem_of_map_to_list|].
      cbn. by rewrite rel_app.
  - generalize (NoDup_fst_map_to_list t). generalize (map_to_list t) as l.
    induction l as [|[q' n'] l IH]; [constructor|]. cbn. intros [Hq Hl]%NoDup_cons.
    destruct (rel s q') as [r|] eqn:Hr; cbn; [|by apply IH]. constructor; [|by apply IH].
    intros ([q2 n2] & Heq & Hin)%list_elem_of_fmap. cbn in Heq. subst q2.
    apply list_elem_of_omap in Hin as ([q3 n3] & Hin & Hf). cbn in Hf.
    destruct (rel s q3) as [r3|] eqn:Hr3; [|done]. injection Hf as Hf _.
    apply (inj (.++ d)) in Hf as ->. apply rel_Some in Hr as ->, Hr3 as ->.
    apply Hq, list_elem_of_fmap. by exists (r ++ s, n3).
Qed.

Lemma exists_at_true p t : exists_at p t = true ↔ ∃ r n, t !! (r ++ p) = Some n.
Proof.
  unfold exists_at. rewrite bool_decide_eq_true. split.
  - intros (q & n & [Hq [r ->]]%lookup_below)%map_choose. eauto.
  - intros (r & n & Hr) He. assert (below p t !! (r ++ p) = Some n) as H.
    { apply lookup_below. split; [done|by exists r]. }
    by rewrite He in H.
Qed.
Lemma exists_at_false p t : exists_at p t = false ↔ ∀ r, t !! (r ++ p) = None.
Proof.
  rewrite <- not_true_iff_false, exists_at_true. split.
  - intros H r. destruct (t !! (r ++ p)) eqn:Hr; [|done]. destruct H. eauto.
  - intros H (r & n & Hr). by rewrite H in Hr.
Qed.
Lemma is_file_true p t : is_file p t = true ↔ ∃ c, t !! p = Some (File c).
Proof. unfold is_file. destruct (t !! p) as [[]|]; naive_solver. Qed.
Lemma is_dir_true p t : is_dir p t = true ↔ exists_at p t = true ∧ is_file p t = false.
Proof. unfold is_dir. by rewrite andb_true_iff, negb_true_iff. Qed.
Lemma is_file_exists p t : is_file p t = true → exists_at p t = true.
Proof. intros [c Hc]%is_file_true. apply exists_at_true. by exists [], (File c). Qed.

Lemma exists_at_outside p t : exists_at p (outside p t) = false.
Proof.
  apply exists_at_false. intros r. destruct (_ !! _) eqn:H; [|done].
  apply lookup_outside in H as [_ []]. by exists r.
Qed.

(** Two paths of which neither is above the other. *)
Definition apart (p q : path) : Prop := ¬ p `suffix_of` q ∧ ¬ q `suffix_of` p.
#[export] Instance apart_dec p q : Decision (apart p q).
Proof. unfold apart. apply _. Defined.
Lemma apart_sym p q : apart p q → apart q p.
Proof. unfold apart. tauto. Qed.
Lemma apart_below p q r : apart p q → ¬ q `suffix_of` r ++ p.
Proof.
  intros [H1 H2] H. destruct (suffix_weak_total q p (r ++ p)); [done|by exists r|done|done].
Qed.

(** Paths that part at a folder. *)
Lemma suffix_fork (n m : pystr) (r r' p : path) : n ≠ m → ¬ r ++ n :: p `suffix_of` r' ++ m :: p.
Proof.
  intros Hn [k Hk]. apply Hn. symmetry.
  assert ((r' ++ [m]) ++ p = ((k ++ r) ++ [n]) ++ p) as Heq by (by rewrite <- !app_assoc).
  by apply (inj (.++ p)), app_inj_2 in Heq as [_ [= ->]].
Qed.
Lemma apart_fork (n m : pystr) (r r' p : path) : n ≠ m → apart (r ++ n :: p) (r' ++ m :: p).
Proof. intros. split; by apply suffix_fork. Qed.

(** ** Folders *)

Lemma add_folder_file q t p c : t !! p = Some (File c) ↔ add_folder q t !! p = Some (File c).
Proof.
  unfold add_folder. case_decide; [|done]. destruct (decide (q = p)) as [->|].
  - rewrite lookup_insert_eq. naive_solver.
  - by rewrite lookup_insert_ne.
Qed.
Lemma add_folders_file l t p c : t !! p = Some (File c) ↔ add_folders l t !! p = Some (File c).
Proof.
  induction l as [|q l IH]; [done|]. cbn. rewrite IH. apply add_folder_file.
Qed.
Lemma make_dirs_file p t t' q c : make_dirs p t = Some t' →
  t !! q = Some (File c) ↔ t' !! q = Some (File c).
Proof.
  unfold make_dirs. case_match; [done|]. intros [= <-]. apply add_folders_file.
Qed.
Lemma add_folder_None q t p : q ≠ p → add_folder q t !! p = t !! p.
Proof. unfold add_folder. intros. case_decide; [|done]. by apply lookup_insert_ne. Qed.
Lemma add_folders_ne l t p : p ∉ l → add_folders l t !! p = t !! p.
Proof.
  induction l as [|q l IH]; [done|]. rewrite not_elem_of_cons. intros [? ?]. cbn.
  rewrite add_folder_None by done. by apply IH.
Qed.
Lemma elem_of_tails q p : q ∈ tails p ↔ q `suffix_of` p.
Proof.
  induction p as [|n p IH]; cbn.
  - rewrite list_elem_of_singleton. split; [by intros ->|by intros ?%suffix_nil_inv].
  - rewrite elem_of_cons, IH. split.
    + intros [->|?]; [done|by apply suffix_cons_r].
    + intros [[|m r] Hr]; simplify_eq/=; [by left|right; by exists r].
Qed.
(** Making folders leaves what is not above them. *)
Lemma make_dirs_ne p t t' q : make_dirs p t = Some t' → ¬ q `suffix_of` p → t' !! q = t !! q.
Proof.
  unfold make_dirs. case_match; [done|]. intros [= <-] Hq. apply add_folders_ne. by rewrite elem_of_tails.
Qed.
Lemma add_folder_mono q t p n : t !! p = Some n → add_folder q t !! p = Some n.
Proof.
  unfold add_folder. intros Hp. case_decide; [|done]. rewrite lookup_insert_ne; [done|congruence].
Qed.
Lemma add_folders_mono l t p n : t !! p = Some n → add_folders l t !! p = Some n.
Proof. induction l; [done|]. cbn. intros. by apply add_folder_mono, IHl. Qed.
Lemma add_folders_elem l t q : q ∈ l → is_Some (add_folders l t !! q).
Proof.
  induction l as [|q' l IH]; [by intros ?%not_elem_of_nil|]. intros [->|Hq]%elem_of_cons; cbn.
  - unfold add_folder. case_decide as Hd; [by rewrite lookup_insert_eq|].
    by destruct (add_folders l t !! q') eqn:?.
  - destruct (IH Hq) as [n Hn]. exists n. by apply add_folder_mono.
Qed.

(** ** What changes keep *)

(** The files of [t] that [p] lets through are files of [t']. *)
Definition keeps (p : path → Prop) (t t' : files) : Prop :=
  ∀ q c, p q → t !! q = Some (File c) → t' !! q = Some (File c).
(** The files at or below [s] in [t] are at or below [d] in [t'], under the same names. *)
Definition lands (s d : path) (t t' : files) : Prop :=
  ∀ r c, t !! (r ++ s) = Some (File c) → t' !! (r ++ d) = Some (File c).
Definition clear (p : path) (t : files) : Prop := exists_at p t = false.

Lemma keeps_trans p t1 t2 t3 : keeps p t1 t2 → keeps p t2 t3 → keeps p t1 t3.
Proof. unfold keeps. eauto. Qed.

Lemma clear_is_dir d t : clear d t → is_dir d t = false.
Proof. unfold clear, is_dir. by intros ->. Qed.
Lemma clear_into s d t : clear d t → into s d t = d.
Proof. intros Hd. unfold into. by rewrite clear_is_dir. Qed.
Lemma clear_lookup d t r : clear d t → t !! (r ++ d) = None.
Proof. intros H. by apply exists_at_false. Qed.
Lemma clear_suffix d t q : clear d t → d `suffix_of` q → t !! q = None.
Proof. intros H [r ->]. by apply clear_lookup. Qed.

Lemma make_dirs_keeps p t t' : make_dirs p t = Some t' → keeps (λ _, True) t t'.
Proof. intros H q c _. by apply (make_dirs_file _ _ _ _ _ H). Qed.
Lemma make_dirs_clear p q t t' : make_dirs p t = Some t' → ¬ q `suffix_of` p → clear q t → clear q t'.
Proof.
  intros H Hq Hc. apply exists_at_false. intros r.
  rewrite (make_dirs_ne _ _ _ _ H), (clear_lookup q t r Hc); [done|].
  intros Hr. apply Hq. etrans; [|done]. by exists r.
Qed.

(** What a copy of [s] to [d] over [t'] holds. *)
Lemma graft_lands s d t t' : lands s d t (graft s d t ∪ t').
Proof. intros r c Hr. apply lookup_union_Some_l, lookup_graft. eauto. Qed.
Lemma graft_keeps s d t t' q c : ¬ d `suffix_of` q → t' !! q = Some (File c) →
  (graft s d t ∪ t') !! q = Some (File c).
Proof.
  intros Hq H. rewrite lookup_union_r; [done|]. apply eq_None_not_Some. intros [n (r & -> & _)%lookup_graft].
  apply Hq. by exists r.
Qed.

Lemma copied_part_keeps s d m t : clear d t → keeps (λ _, True) t (copied_part s d m t).
Proof.
  intros Hd q c _ Hq. unfold copied_part. rewrite lookup_union_r; [done|].
  rewrite map_lookup_zip_with. destruct (graft s d t !! q) eqn:Hg; [|done].
  apply lookup_graft in Hg as (r & -> & _). by rewrite (clear_lookup _ _ _ Hd) in Hq.
Qed.

Lemma copy_file_spec s d t t' : clear d t → copy_file s d t = Some t' →
  keeps (λ _, True) t t' ∧ lands s d t t'.
Proof.
  unfold copy_file. intros Hd. rewrite (clear_into _ _ _ Hd). case_match; [|done]. intros [= <-].
  split; [|apply graft_lands]. intros q c _ Hq. apply graft_keeps.
  - intros Hs. by rewrite (clear_suffix _ _ _ Hd Hs) in Hq.
  - apply lookup_outside. split; [done|]. intros Hs. by rewrite (clear_suffix _ _ _ Hd Hs) in Hq.
Qed.
Lemma copy_tree_spec s d t t' : copy_tree s d t = Some t' →
  keeps (λ _, True) t t' ∧ lands s d t t'.
Proof.
  unfold copy_tree. destruct (is_dir s t && _ && _) eqn:Hg; [|done]. bool_prop.
  destruct (make_dirs _ t) as [t1|] eqn:Hm; [|done]. intros [= <-].
  split; [|apply graft_lands]. intros q c _ Hq. apply graft_keeps; [|by eapply make_dirs_keeps].
  intros Hs. rewrite (clear_suffix d t q) in Hq; done.
Qed.

Lemma rm_tree_spec p t t' : rm_tree p t = Some t' → t' = outside p t.
Proof. unfold rm_tree. case_match; naive_solver. Qed.
Lemma unlink_file_spec p t t' : unlink_file p t = Some t' → t' = outside p t.
Proof. unfold unlink_file. case_match; naive_solver. Qed.
Lemma outside_keeps p t : keeps (λ q, ¬ p `suffix_of` q) t (outside p t).
Proof. intros q c Hq H. by apply lookup_outside. Qed.
Lemma removed_part_keeps p m t : keeps (λ q, ¬ p `suffix_of` q) t (removed_part p m t).
Proof. intros q c Hq H. by apply lookup_removed_keeps. Qed.

Lemma replace_file_spec s d t t' : apart s d → replace_file s d t = Some t' →
  keeps (λ q, ¬ s `suffix_of` q ∧ ¬ d `suffix_of` q) t t' ∧ lands s d t t' ∧ clear s t'.
Proof.
  unfold replace_file. intros Ha. case_match; [|done]. intros [= <-]. split_and!; [|apply graft_lands|].
  - intros q c [Hs Hd] Hq. apply graft_keeps; [done|]. by apply lookup_outside; split; [apply lookup_outside|].
  - apply exists_at_false. intros r. apply eq_None_not_Some.
    intros [n [(r' & Hr & _)%lookup_graft|[_ Hn]]%lookup_union_Some_raw].
    + eapply (apart_below s d r Ha). by exists r'.
    + apply lookup_outside in Hn as [_ []]. by exists r.
Qed.

Lemma move_path_spec s d t t' : clear d t → apart s d → move_path s d t = Some t' →
  keeps (λ q, ¬ s `suffix_of` q) t t' ∧ lands s d t t' ∧ clear s t'.
Proof.
  intros Hd Ha. unfold move_path. rewrite (clear_into _ _ _ Hd), (clear_is_dir _ _ Hd). cbn [andb].
  assert (bool_decide (s = d) = false) as ->.
  { apply bool_decide_eq_false. intros ->. by destruct Ha as [[] _]. }
  destruct (exists_at s t); [|done]. cbn [negb].
  assert (∀ t1, keeps (λ _, True) t t1 ∨ t1 = outside d t →
    keeps (λ q, ¬ s `suffix_of` q) t (graft s d t ∪ outside s t1) ∧
    lands s d t (graft s d t ∪ outside s t1) ∧ clear s (graft s d t ∪ outside s t1)) as Hgo.
  { intros t1 Ht1. split_and!; [|apply graft_lands|].
    - intros q c Hs Hq.
      assert (¬ d `suffix_of` q) by (intros H; by rewrite (clear_suffix _ _ _ Hd H) in Hq).
      apply graft_keeps; [done|]. apply lookup_outside. split; [|done].
      destruct Ht1 as [Ht1| ->]; [by apply Ht1|by apply lookup_outside].
    - apply exists_at_false. intros r. apply eq_None_not_Some.
      intros [n [(r' & Hr & _)%lookup_graft|[_ Hn]]%lookup_union_Some_raw].
      + eapply (apart_below s d r Ha). by exists r'.
      + apply lookup_outside in Hn as [_ []]. by exists r. }
  destruct (is_file s t).
  - case_match; [|done]. intros [= <-]. apply Hgo. by right.
  - case_match; [done|]. destruct (make_dirs _ t) eqn:Hm; [|done]. intros [= <-].
    apply Hgo. left. by eapply make_dirs_keeps.
Qed.

(** No change makes a path, but for the folders above, the copies and what it is told to write. *)
Lemma graft_clear p s d t t' : apart p d → clear p t' → clear p (graft s d t ∪ t').
Proof.
  intros Ha Hp. apply exists_at_false. intros r. apply eq_None_not_Some.
  intros [n [(r' & Hr & _)%lookup_graft|[_ Hn]]%lookup_union_Some_raw].
  - eapply (apart_below p d r Ha). by exists r'.
  - by rewrite (clear_lookup p t' r Hp) in Hn.
Qed.
Lemma outside_clear p s t : clear p t → clear p (outside s t).
Proof.
  intros Hp. apply exists_at_false. intros r. apply eq_None_not_Some.
  intros [n [Hn _]%lookup_outside]. by rewrite (clear_lookup p t r Hp) in Hn.
Qed.
Lemma move_path_clear p s d t t' : clear d t → apart p d → clear p t → move_path s d t = Some t' →
  clear p t'.
Proof.
  intros Hd Ha Hp. unfold move_path. rewrite (clear_into _ _ _ Hd).
  repeat case_match; intros; simplify_eq; try done;
    apply graft_clear; try done; apply outside_clear; try by apply outside_clear.
  eapply make_dirs_clear; [done| |done]. intros Hs. destruct Ha as [[] _].
  etrans; [done|]. destruct d; [done|]. by apply suffix_cons_r.
Qed.
Lemma replace_file_clear p s d t t' : apart p d → clear p t → replace_file s d t = Some t' → clear p t'.
Proof.
  unfold replace_file. intros Ha Hp. case_match; [|done]. intros [= <-].
  by apply graft_clear, outside_clear, outside_clear.
Qed.

(** What is left when a move breaks: nothing is gone, or all is at the destination. *)
Lemma move_broken_spec s d m (late : bool) t : clear d t → apart s d →
  let t' := if late then removed_part s m (graft s d t ∪ outside d t) else copied_part s d m t in
  keeps (λ _, True) t t' ∨ (keeps (λ q, ¬ s `suffix_of` q) t t' ∧ lands s d t t').
Proof.
  intros Hd Ha. cbn zeta. destruct late; [right|left; by apply copied_part_keeps]. split.
  - intros q c Hs Hq. apply lookup_removed_keeps; [done|].
    assert (¬ d `suffix_of` q) by (intros H; by rewrite (clear_suffix _ _ _ Hd H) in Hq).
    apply graft_keeps; [done|]. by apply lookup_outside.
  - intros r c Hr. apply lookup_removed_keeps; [by apply apart_below, apart_sym|].
    by apply graft_lands.
Qed.

(** ** Assertions *)

(** The times a program asks for are of [ok]; it keeps what it asserts of the tree, [Q] when it
    returns and [E] when it raises. *)
Definition triple {A : Type} (ok : pystr → Prop) (P : files → Prop) (m : F A) (Q : A → files → Prop)
    (E : files → Prop) : Prop :=
  ∀ k, Forall ok (stamps k) → P (tree k) →
    Forall ok (stamps (m k).2) ∧
    match (m k).1 with Done a => Q a (tree (m k).2) | Raised _ => E (tree (m k).2) end.

(** ** Programs that only read *)

Definition reads {A : Type} (m : F A) : Prop := ∀ k, tree (m k).2 = tree k.

Create HintDb reads_db.
Lemma reads_ret {A : Type} (a : A) : reads (f_ret a).
Proof. done. Qed.
Lemma reads_raise {A : Type} (e : exn) : reads (A:=A) (f_raise e).
Proof. done. Qed.
Lemma reads_get {A : Type} (f : files → A) : reads (f_get f).
Proof. done. Qed.
Lemma reads_bind {A B : Type} (m : F A) (f : A → F B) : reads m → (∀ a, reads (f a)) → reads (f_bind m f).
Proof.
  intros Hm Hf k. unfold f_bind. specialize (Hm k). destruct (m k) as [[a|e] k']; cbn in *; [|done].
  by rewrite Hf.
Qed.
Lemma reads_try {A : Type} (m : F A) (h : exn → F A) : reads m → (∀ e, reads (h e)) → reads (f_try m h).
Proof.
  intros Hm Hh k. unfold f_try. specialize (Hm k). destruct (m k) as [[a|e] k']; cbn in *; [done|].
  by rewrite Hh.
Qed.
Lemma reads_file_text p : reads (read_file_text p).
Proof.
  intros k. destruct (read_file_text_cases p k) as (fs & [(c & ->)|(no & w & ->)]); done.
Qed.
#[export] Hint Resolve reads_ret reads_raise reads_get reads_file_text : reads_db.
(** Through binds, handlers and tests. *)
Ltac reads_tac :=
  repeat (intros; first
    [ solve [eauto with reads_db]
    | apply reads_bind
    | apply reads_try
    | case_match ]).

Section triples.
Context (ok : pystr → Prop) (Hok : ok []).
Implicit Types P E : files → Prop.

Lemma triple_done {A : Type} (a : A) P E : triple ok P (f_ret a) (λ b t, b = a ∧ P t) E.
Proof. intros k ??. done. Qed.
Lemma triple_raise {A : Type} (e : exn) P (Q : A → files → Prop) : triple ok P (f_raise e) Q P.
Proof. intros k ??. done. Qed.
Lemma triple_get {A : Type} (f : files → A) P E : triple ok P (f_get f) (λ a t, a = f t ∧ P t) E.
Proof. intros k ??. done. Qed.
Lemma triple_seq {A B : Type} (m : F A) (f : A → F B) P Q R E :
  triple ok P m Q E → (∀ a, triple ok (Q a) (f a) R E) → triple ok P (f_bind m f) R E.
Proof.
  intros Hm Hf k Hs HP. unfold f_bind. destruct (Hm k Hs HP) as [Hs' HQ].
  destruct (m k) as [[a|e] k']; cbn in *; [by apply Hf|done].
Qed.
Lemma triple_conseq {A : Type} (m : F A) (P P' : files → Prop) (Q Q' : A → files → Prop) (E E' : files → Prop) :
  triple ok P' m Q' E' → (∀ t, P t → P' t) → (∀ a t, Q' a t → Q a t) → (∀ t, E' t → E t) →
  triple ok P m Q E.
Proof.
  intros Hm HP HQ HE k Hs Hk. destruct (Hm k Hs (HP _ Hk)) as [Hs' H]. split; [done|].
  destruct (m k).1; auto.
Qed.
Lemma triple_pre {A : Type} (m : F A) (P P' : files → Prop) (Q : A → files → Prop) E :
  triple ok P' m Q E → (∀ t, P t → P' t) → triple ok P m Q E.
Proof. intros H HP. by eapply triple_conseq. Qed.
Lemma triple_post {A : Type} (m : F A) P (Q Q' : A → files → Prop) (E E' : files → Prop) :
  triple ok P m Q' E' → (∀ a t, Q' a t → Q a t) → (∀ t, E' t → E t) → triple ok P m Q E.
Proof. intros H HQ HE. by eapply triple_conseq. Qed.
Lemma triple_handle {A : Type} (m : F A) (h : exn → F A) P Q E E' :
  triple ok P m Q E' → (∀ e, triple ok E' (h e) Q E) → triple ok P (f_try m h) Q E.
Proof.
  intros Hm Hh k Hs HP. unfold f_try. destruct (Hm k Hs HP) as [Hs' H].
  destruct (m k) as [[a|e] k']; cbn in *; [done|by apply Hh].
Qed.
Lemma triple_finally {A : Type} (m : F A) (clean : bool → F unit) P Q E E' :
  triple ok P m Q E' → (∀ a, triple ok (Q a) (clean true) (λ _, Q a) E) →
  triple ok E' (clean false) (λ _, E) E → triple ok P (f_finally m clean) Q E.
Proof.
  intros Hm Ht Hf k Hs HP. unfold f_finally. destruct (Hm k Hs HP) as [Hs' H].
  destruct (m k) as [[a|e] k']; cbn in *.
  - by apply (triple_seq (clean true) (λ _, f_ret a) (Q a) (λ _, Q a)); [|intros ?? ? ?|..].
  - by apply (triple_seq (clean false) (λ _, f_raise e) E' (λ _, E)); [|intros ?? ? ?|..].
Qed.
Lemma triple_now P E : triple ok P now (λ s t, ok s ∧ P t) E.
Proof.
  intros k Hs HP. cbn. destruct Hs as [|s l]; cbn; [|done]. by split; [constructor|].
Qed.
Lemma triple_when c (m : F unit) P E Q :
  (c = true → triple ok P m (λ _, Q) E) → (c = false → ∀ t, P t → Q t) →
  triple ok P (f_when c m) (λ _, Q) E.
Proof.
  unfold f_when. destruct c; [auto|]. intros _ H k ??. split; [done|]. cbn. by apply H.
Qed.
Lemma triple_assume {A : Type} (φ : Prop) (m : F A) P (Q : A → files → Prop) E :
  (φ → triple ok P m Q E) → triple ok (λ t, φ ∧ P t) m Q E.
Proof. intros Hm k Hs [Hφ HP]. by apply Hm. Qed.
Lemma triple_attempt (work : files → option files) (broken : marks → bool → files → files) P (Q E : files → Prop) :
  (∀ t t', P t → work t = Some t' → Q t') → (∀ t, P t → work t = None → E t) →
  (∀ t m l, P t → E (broken m l t)) →
  triple ok P (attempt work broken) (λ _, Q) E.
Proof.
  intros HQ HE HB k Hs HP. unfold attempt.
  destruct (head (faults k)) as [[]|]; cbn; auto; destruct (work (tree k)) eqn:Hw; cbn; eauto.
Qed.

Lemma triple_mkdirs p P :
  (∀ t t', P t → keeps (λ _, True) t t' → (∀ q, ¬ q `suffix_of` p → clear q t → clear q t') → P t') →
  triple ok P (mkdirs p) (λ _, P) P.
Proof.
  intros HP. apply triple_attempt.
  - intros t t' Ht Hm. eapply HP; [done|by eapply make_dirs_keeps|].
    intros q Hq. by eapply make_dirs_clear.
  - done.
  - intros t m l Ht. eapply HP; [done| |].
    + intros q c _. apply add_folders_file.
    + intros q Hq Hc. apply exists_at_false. intros r. rewrite add_folders_ne; [by apply clear_lookup|].
      intros [_ Hr%elem_of_tails]%list_elem_of_filter. apply Hq. etrans; [|done]. by exists r.
Qed.

(** A loop of changes of the elements of a list. *)
Lemma triple_each {A : Type} (f : A → F unit) l P :
  (∀ a, a ∈ l → triple ok P (f a) (λ _, P) P) → triple ok P (f_each f l) (λ _, P) P.
Proof.
  induction l as [|a l IH]; intros Hf; [intros k ??; done|]. cbn [f_each].
  eapply triple_seq; [by apply Hf; left|]. intros []. apply IH. intros b Hb. apply Hf. by right.
Qed.
(** The same with what was reached for the elements before. *)
Lemma triple_each_from {A : Type} (f : A → F unit) (Inv : list A → files → Prop) l E : ∀ before,
  (∀ done a rest, before ++ l = done ++ a :: rest → triple ok (Inv done) (f a) (λ _, Inv (done ++ [a])) E) →
  triple ok (Inv before) (f_each f l) (λ _, Inv (before ++ l)) E.
Proof.
  induction l as [|a l IH]; intros before Hf.
  { intros k Hk Ht. by rewrite app_nil_r. }
  cbn [f_each]. eapply triple_seq; [by apply (Hf before a l)|]. intros [].
  replace (before ++ a :: l) with ((before ++ [a]) ++ l) by (by rewrite <- app_assoc).
  apply IH. intros done b rest Heq. apply (Hf done b rest). by rewrite <- Heq, <- app_assoc.
Qed.
Lemma triple_each_acc {A : Type} (f : A → F unit) (Inv : list A → files → Prop) l E :
  (∀ done a rest, l = done ++ a :: rest → triple ok (Inv done) (f a) (λ _, Inv (done ++ [a])) E) →
  triple ok (Inv []) (f_each f l) (λ _, Inv l) E.
Proof. apply (triple_each_from f Inv l E []). Qed.
End triples.
