(* ===== verification/Migrate.v ===== *)
(** * The steps of the migration

    Models the migrators of [migrate.py]: credentials, configuration, database, logs, E2EE store,
    plugins, GPX files and the service file, each a program on the tree of files of [MigrateFs.v].

    What a step logs is left out, and of what it reports the messages.  The Matrix credentials of a
    text and the configuration of a text, the check of a database by SQLite and the times of files are
    parameters.  [resolve] is the identity, as paths are absolute and there are no links. *)

From Stdlib Require Import QArith String.
From stdpp Require Import base tactics numbers sets gmap list sorting.
From S2P Require Import Prelude PyStr PyValue PyLib NameSync MigrateFs.
Open Scope Z_scope.

Definition CREDENTIALS_FILENAME : pystr := u "credentials.json".
Definition CONFIG_FILENAME : pystr := u "config.yaml".
Definition DATABASE_FILENAME : pystr := u "meshtastic.sqlite".
Definition MATRIX_DIRNAME : pystr := u "matrix".
Definition STORE_DIRNAME : pystr := u "store".
Definition SQLITE_SIDECAR_SUFFIXES : list pystr := [u "-wal"; u "-shm"; u "-journal"].
Definition MIGRATION_STAGING_DIRNAME : pystr := u ".migration_staging".
Definition MIGRATION_BACKUP_DIRNAME : pystr := u ".migration_backups".
Definition MIGRATION_MAX_RETRIES : nat := 5.

(** ** What a step reports *)

Inductive step_action :=
  | AlreadyAtTarget | AlreadyMigrated | NotFound | SkipForceRequired | Move | ScanSkippedPyyaml
  | NotApplicable | AlreadyUpToDate | Update | Updated | ActionError.
#[export] Instance step_action_eq_dec : EqDecision step_action.
Proof. solve_decision. Defined.

(** [backed_up_files]: where each backup is and what it is of. *)
Record step_result := StepResult {
  success : bool;
  act : option step_action;
  old_path : option path;
  new_path : option path;
  was_dry_run : bool;
  backed_up_files : list (path * path);
  migrated_files : list path;
  reported_backup : option path;
}.
Definition reported (a : step_action) (old new : option path) : step_result :=
  StepResult true (Some a) old new false [] [] None.
Definition would_move (old new : option path) : step_result :=
  StepResult true (Some Move) old new true [] [] None.
Definition no_database : step_result := StepResult false None None None false [] [] None.

(** ** Helpers *)

Definition _get_staging_path (new_home : path) (unit_name : pystr) : path :=
  unit_name :: MIGRATION_STAGING_DIRNAME :: new_home.

Definition backup_path (src_path : path) (suffix timestamp : pystr) : path :=
  (name src_path ++ suffix ++ u "." ++ timestamp) :: MIGRATION_BACKUP_DIRNAME :: parent src_path.
(** It makes the folder of the backup, and not the backup. *)
Definition _backup_file (src_path : path) (suffix : pystr) : F path :=
  timestamp <- now;;
  mkdirs (MIGRATION_BACKUP_DIRNAME :: parent src_path);;
  f_ret (backup_path src_path suffix timestamp).
Definition BAK : pystr := u ".bak".

Definition _dir_has_entries (p : path) (t : files) : bool :=
  is_dir p t && negb (bool_decide (iterdir p t = [])).

(** [name.removesuffix(suffix)] *)
Definition removesuffix (s suffix : pystr) : pystr := take (length s - length suffix) s.
Definition _get_db_base_path (p : path) : path :=
  default p
    (first_some (λ suffix, if endswith (name p) suffix then Some (removesuffix (name p) suffix :: parent p)
                           else None) SQLITE_SIDECAR_SUFFIXES).

Definition _collect_db_sidecars (db_path : path) (t : files) : list path :=
  filter (λ p, exists_at p t = true) ((λ suffix, (name db_path ++ suffix) :: parent db_path) <$> SQLITE_SIDECAR_SUFFIXES).

Inductive loaded := Loaded (v : pyval) | YAMLError | LoadFails.

Section steps.
Context (win32 : bool).
(** [json.load]: None when it raises a ValueError. *)
Context (json_load : pystr → option pyval).
(** [yaml.safe_load], None when the package is missing. *)
Context (yaml : option (pystr → loaded)).
(** The row of [PRAGMA integrity_check] on the database at a path is "ok". *)
Context (integrity_ok : files → path → bool).
(** [stat().st_mtime] *)
Context (st_mtime : files → path → Z).
(** [Path.home()], the current directory and the homes of other users. *)
Context (user_home cwd : path) (home_of : pystr → option path).

(** ** Retries *)

Definition _is_windows_file_in_use_error (e : exn) : bool :=
  win32 &&
  match e with
  | OSError no w => bool_decide (w = Some 5 ∨ w = Some 32 ∨ w = Some 33) || bool_decide (no = EACCES)
  | _ => false
  end.

Definition retry_delay (attempt : nat) : Q := qmin ((1 # 10) * inject_Z (2 ^ Z.of_nat attempt)) 2.

Fixpoint retry_attempts (left attempt : nat) (func : F unit) : F unit :=
  match left with
  | O => f_ret tt
  | S left' =>
      f_try func (λ e,
        if negb (_is_windows_file_in_use_error e) then f_raise e
        else match left' with
             | O => f_raise e
             | _ => sleep (retry_delay attempt);; retry_attempts left' (S attempt) func
             end)
  end.
Definition _retry_on_file_in_use (func : F unit) : F unit := retry_attempts MIGRATION_MAX_RETRIES 0 func.

Definition _finalize_move (staging_path dest_path : path) : F unit :=
  staged <- f_get (exists_at staging_path);;
  if negb staged then f_raise (OSError EOTHER None) else
  mkdirs (parent dest_path);;
  staged_file <- f_get (is_file staging_path);;
  there <- f_get (exists_at dest_path);;
  if staged_file : bool then
    dest_dir <- f_get (is_dir dest_path);;
    f_when (there && dest_dir) (_retry_on_file_in_use (rmtree dest_path));;
    replace staging_path dest_path
  else
    dest_file <- f_get (is_file dest_path);;
    f_when there (if dest_file : bool then _retry_on_file_in_use (unlink dest_path)
                  else _retry_on_file_in_use (rmtree dest_path));;
    _retry_on_file_in_use (move staging_path dest_path).

(** ** Finding what to migrate *)

Inductive scan := AtTarget (p : path) | Found (p : path) | FoundNone.

(** The first of the roots that has [file], unless the target is met before: [there] says whether the
    target counts. *)
Fixpoint scan_roots (there : path → files → bool) (file : pystr) (target : path) (roots : list path)
    (t : files) : scan :=
  match roots with
  | [] => FoundNone
  | root :: rest =>
      let candidate := file :: root in
      if bool_decide (candidate = target) then
        if there candidate t then AtTarget candidate else scan_roots there file target rest t
      else if exists_at candidate t then Found candidate
      else scan_roots there file target rest t
  end.

Definition with_home (legacy_roots : list path) (new_home : path) : list path :=
  if bool_decide (new_home ∈ legacy_roots) then legacy_roots else legacy_roots ++ [new_home].

(** ** Files that move whole *)

(** The backup of what is at the destination. *)
Definition back_up_destination (new : path) : F unit :=
  there <- f_get (exists_at new);;
  if there : bool then
    backup_path <- _backup_file new BAK;;
    folder <- f_get (is_dir new);;
    if folder : bool then copytree new backup_path else copy2 new backup_path
  else f_ret tt.

Definition clear_staging (staging_path : path) : F unit :=
  there <- f_get (exists_at staging_path);;
  if there : bool then
    folder <- f_get (is_dir staging_path);;
    if folder : bool then rmtree staging_path else unlink staging_path
  else f_ret tt.

(** Every error of a step becomes the MigrationError of the step. *)
Definition as_step {A} (step : pystr) (m : F A) : F A := f_try m (λ _, f_raise (MigrationError step)).

(** The move of one file through the staging area: backup, staging, final place. *)
Definition move_unit (step : pystr) (staging_path old new : path) : F step_result :=
  f_finally
    (as_step step
       (mkdirs (parent staging_path);;
        back_up_destination new;;
        clear_staging staging_path;;
        move old staging_path;;
        _finalize_move staging_path new;;
        f_ret (reported Move (Some old) (Some new))))
    (λ migration_succeeded,
       there <- f_get (exists_at staging_path);;
       f_when (migration_succeeded && there) (unlink staging_path)).

(** Once the legacy file is known. *)
Definition migrate_found (step : pystr) (new_home old new : path) (dry_run force : bool) : F step_result :=
  there <- f_get (exists_at new);;
  if there && negb force then f_ret (reported SkipForceRequired (Some old) (Some new))
  else if dry_run then f_ret (would_move (Some old) (Some new))
  else move_unit step (_get_staging_path new_home step) old new.

Definition nothing_found (present : path → files → bool) (new : path) : F step_result :=
  there <- f_get (present new);;
  f_ret (if there : bool then reported AlreadyMigrated None (Some new) else reported NotFound None None).

Definition REQUIRED_CREDENTIALS_KEYS : list pystr := [u "homeserver"; u "access_token"].
Definition _looks_like_matrix_credentials (p : path) : F bool :=
  f_try
    (text <- read_file_text p;;
     f_ret (match json_load text with
            | Some (VDict payload) =>
                forallb (λ key, match dget payload key with
                                | Some (VStr value) => nonempty (strip value)
                                | _ => false
                                end) REQUIRED_CREDENTIALS_KEYS
            | _ => false
            end))
    (λ e, if is_os_error e then f_ret false else f_raise e).

Definition CREDENTIALS : pystr := u "credentials".
Definition CONFIG : pystr := u "config".

Definition migrate_credentials (legacy_roots : list path) (new_home : path) (dry_run force : bool)
    : F step_result :=
  let new_creds := CREDENTIALS_FILENAME :: MATRIX_DIRNAME :: new_home in
  found <- f_get (scan_roots exists_at CREDENTIALS_FILENAME new_creds (with_home legacy_roots new_home));;
  match found with
  | AtTarget candidate => f_ret (reported AlreadyAtTarget (Some candidate) (Some new_creds))
  | Found old_creds => migrate_found CREDENTIALS new_home old_creds new_creds dry_run force
  | FoundNone =>
      let home_root_candidate := CREDENTIALS_FILENAME :: user_home in
      there <- f_get (exists_at home_root_candidate);;
      valid <- (if there : bool then _looks_like_matrix_credentials home_root_candidate else f_ret false);;
      if valid : bool then migrate_found CREDENTIALS new_home home_root_candidate new_creds dry_run force
      else nothing_found exists_at new_creds
  end.

Definition migrate_config (legacy_roots : list path) (new_home : path) (dry_run force : bool)
    : F step_result :=
  let new_config := CONFIG_FILENAME :: new_home in
  found <- f_get (scan_roots exists_at CONFIG_FILENAME new_config legacy_roots);;
  match found with
  | AtTarget candidate => f_ret (reported AlreadyAtTarget (Some candidate) (Some new_config))
  | Found old_config => migrate_found CONFIG new_home old_config new_config dry_run force
  | FoundNone => nothing_found exists_at new_config
  end.

(** ** The E2EE store *)

Definition STORE : pystr := u "store".
Definition move_store (staging_dir old_store_dir new_store_dir : path) : F step_result :=
  mkdirs (parent staging_dir);;
  f_finally
    (as_step STORE
       (there <- f_get (exists_at new_store_dir);;
        f_when there (backup_path <- _backup_file new_store_dir BAK;; copytree new_store_dir backup_path);;
        staged <- f_get (exists_at staging_dir);;
        f_when staged (rmtree staging_dir);;
        move old_store_dir staging_dir;;
        _finalize_move staging_dir new_store_dir;;
        f_ret (reported Move (Some old_store_dir) (Some new_store_dir))))
    (λ migration_succeeded,
       there <- f_get (exists_at staging_dir);;
       f_when (migration_succeeded && there) (rmtree_ignoring staging_dir)).

Definition migrate_store (legacy_roots : list path) (new_home : path) (dry_run force : bool)
    : F step_result :=
  if win32 then f_ret (StepResult true None None None false [] [] None) else
  let new_store_dir := STORE_DIRNAME :: MATRIX_DIRNAME :: new_home in
  found <- f_get (scan_roots _dir_has_entries STORE_DIRNAME new_store_dir (with_home legacy_roots new_home));;
  match found with
  | AtTarget candidate => f_ret (reported AlreadyAtTarget (Some candidate) (Some new_store_dir))
  | FoundNone => nothing_found _dir_has_entries new_store_dir
  | Found old_store_dir =>
      filled <- f_get (_dir_has_entries new_store_dir);;
      if filled && negb force then f_ret (reported SkipForceRequired (Some old_store_dir) (Some new_store_dir))
      else if dry_run then f_ret (would_move (Some old_store_dir) (Some new_store_dir))
      else move_store (_get_staging_path new_home STORE) old_store_dir new_store_dir
  end.
End steps.

(** ** Nothing is lost *)

Section posix.
Context (ok : pystr → Prop) (Hok : ok []).

(** Elsewhere than on Windows nothing is tried again. *)
Lemma retry_posix func : _retry_on_file_in_use false func = f_try func f_raise.
Proof. done. Qed.
Lemma triple_retry (func : F unit) P Q E :
  triple ok P func Q E → triple ok P (_retry_on_file_in_use false func) Q E.
Proof.
  intros H. rewrite retry_posix. eapply triple_handle; [done|]. intros e. apply triple_raise.
Qed.
Lemma triple_as_step {A : Type} step (m : F A) P Q E :
  triple ok P m Q E → triple ok P (as_step step m) Q E.
Proof. intros H. eapply triple_handle; [done|]. intros e. apply triple_raise. Qed.
End posix.

(** One unit moves from [old] to [new] by way of [stg]; the backup of [new] made at the time [s] is
    [bk s].  [t0] is the tree before. *)
Section unit.
Context (ok : pystr → Prop) (Hok : ok []).
Context (old new stg : path) (t0 : files).
#[local] Abbreviation bk := (backup_path new BAK).
Context (Hos : apart old stg) (Hon : apart old new) (Hns : apart new stg).
Context (Hnb : ∀ s, ok s → apart new (bk s)) (Hsb : ∀ s, ok s → apart stg (bk s)).
Context (Hob : ∀ s, ok s → apart old (bk s)).
Context (Hfresh : ∀ s, ok s → clear (bk s) t0).

Definition backed (t : files) : Prop := ∃ s, ok s ∧ lands new (bk s) t0 t.

(** In the order of the phases: the backup is made, the unit is staged, the destination is cleared,
    the unit is in place. *)
Definition untouched (t : files) : Prop := keeps (λ q, ¬ stg `suffix_of` q) t0 t.
Definition phase_backed (t : files) : Prop := untouched t ∧ backed t.
Definition phase_staged (t : files) : Prop :=
  keeps (λ q, ¬ stg `suffix_of` q ∧ ¬ old `suffix_of` q) t0 t ∧ lands old stg t0 t ∧ backed t.
Definition others (q : path) : Prop := ¬ stg `suffix_of` q ∧ ¬ old `suffix_of` q ∧ ¬ new `suffix_of` q.
Definition phase_cleared (t : files) : Prop := keeps others t0 t ∧ lands old stg t0 t ∧ backed t.
Definition phase_placed (t : files) : Prop := keeps others t0 t ∧ lands old new t0 t ∧ backed t.

(** Where each file can be after the step, whatever has gone wrong. *)
Definition survives (t : files) : Prop :=
  keeps others t0 t ∧
  (∀ r c, t0 !! (r ++ old) = Some (File c) →
     t !! (r ++ old) = Some (File c) ∨ t !! (r ++ stg) = Some (File c) ∨ t !! (r ++ new) = Some (File c)) ∧
  (∀ r c, t0 !! (r ++ new) = Some (File c) →
     t !! (r ++ new) = Some (File c) ∨ ∃ s, ok s ∧ t !! (r ++ bk s) = Some (File c)).

Lemma untouched_survives t : untouched t → survives t.
Proof.
  intros H. split_and!.
  - intros q c [Hq _]. by apply H.
  - intros r c Hr. left. apply H; [by apply apart_below|done].
  - intros r c Hr. left. apply H; [by apply apart_below|done].
Qed.
Lemma staged_survives t : phase_staged t → survives t.
Proof.
  intros (H & Hl & _). split_and!.
  - intros q c (? & ? & _). by apply H.
  - eauto.
  - intros r c Hr. left. apply H; [|done]. split; apply apart_below; [done|by apply apart_sym].
Qed.
Lemma cleared_survives t : phase_cleared t → survives t.
Proof. intros (H & Hl & s & Hs & Hb). split_and!; [done|eauto|eauto]. Qed.
Lemma placed_survives t : phase_placed t → survives t.
Proof. intros (H & Hl & s & Hs & Hb). split_and!; [done|eauto|eauto]. Qed.

Lemma backed_step p t t' : (∀ s r, ok s → p (r ++ bk s)) → keeps p t t' → backed t → backed t'.
Proof. intros Hp Hk (s & Hs & Hb). exists s. split; [done|]. intros r c Hr. apply Hk; eauto. Qed.
Lemma backed_below p t t' : (∀ s, ok s → apart p (bk s)) → keeps (λ q, ¬ p `suffix_of` q) t t' →
  backed t → backed t'.
Proof.
  intros Hp. apply (backed_step (λ q, ¬ p `suffix_of` q)). intros s r Hs.
  apply apart_below, apart_sym. auto.
Qed.

Lemma backed_all t t' : keeps (λ _, True) t t' → phase_backed t → phase_backed t'.
Proof.
  intros Hk [Hu Hb]. split; [|by eapply (backed_step (λ _, True))].
  intros q c Hq Hin. apply Hk; [done|]. by apply Hu.
Qed.
Lemma staged_all t t' : keeps (λ _, True) t t' → phase_staged t → phase_staged t'.
Proof.
  intros Hk (H & Hl & Hb). split_and!; [| |by eapply (backed_step (λ _, True))].
  - intros q c Hq Hin. apply Hk; [done|]. by apply H.
  - intros r c Hr. apply Hk; [done|]. by apply Hl.
Qed.
Lemma backed_wiped t t' : keeps (λ q, ¬ stg `suffix_of` q) t t' → phase_backed t → phase_backed t'.
Proof.
  intros Hk [Hu Hb]. split; [|by eapply (backed_below stg)].
  intros q c Hq Hin. apply Hk; [done|]. by apply Hu.
Qed.
Lemma backed_staged t t' : keeps (λ q, ¬ old `suffix_of` q) t t' → lands old stg t t' →
  phase_backed t → phase_staged t'.
Proof.
  intros Hk Hl [Hu Hb]. split_and!; [| |by eapply (backed_below old)].
  - intros q c [Hs Ho] Hin. apply Hk; [done|]. by apply Hu.
  - intros r c Hr. apply Hl, Hu; [by apply apart_below|done].
Qed.
Lemma staged_cleared t : phase_staged t → phase_cleared t.
Proof. intros (H & Hl & Hb). split_and!; try done. intros q c (? & ? & ?). by apply H. Qed.
Lemma cleared_all t t' : keeps (λ q, ¬ new `suffix_of` q) t t' → phase_cleared t → phase_cleared t'.
Proof.
  intros Hk (H & Hl & Hb). split_and!; [| |by eapply (backed_below new)].
  - intros q c Hq Hin. apply Hk; [by destruct Hq as (_ & _ & ?)|]. by apply H.
  - intros r c Hr. apply Hk; [|by apply Hl]. by apply apart_below, apart_sym.
Qed.
Lemma cleared_placed t t' : keeps (λ q, ¬ stg `suffix_of` q ∧ ¬ new `suffix_of` q) t t' → lands stg new t t' →
  phase_cleared t → phase_placed t'.
Proof.
  intros Hk Hl (H & Hs & Hb). split_and!.
  - intros q c (? & ? & ?) Hin. apply Hk; [done|]. by apply H.
  - intros r c Hr. by apply Hl, Hs.
  - eapply backed_step; [|exact Hk|done]. intros s r Hsk. split; apply apart_below, apart_sym; auto.
Qed.

Definition phase_start (t : files) : Prop := untouched t ∧ ∀ s, ok s → clear (bk s) t.

Lemma start_dirs p : (∀ s, ok s → ¬ bk s `suffix_of` p) →
  triple ok phase_start (mkdirs p) (λ _, phase_start) phase_start.
Proof.
  intros Hp. apply triple_mkdirs. intros t t' [Hu Hc] Hk Hcl. split; [|auto].
  intros q c Hq Hin. apply Hk; [done|]. by apply Hu.
Qed.

Lemma triple_backup_file :
  triple ok phase_start (_backup_file new BAK) (λ b t, (∃ s, ok s ∧ b = bk s) ∧ phase_start t) phase_start.
Proof.
  unfold _backup_file. eapply triple_seq; [apply (triple_now ok Hok)|]. intros s. apply triple_assume. intros Hs.
  eapply triple_seq; [apply start_dirs|].
  - intros s' Hs' [r Hr]. apply (f_equal length) in Hr. rewrite length_app in Hr.
    unfold backup_path in Hr. cbn in Hr. lia.
  - intros []. eapply triple_conseq; [apply (triple_done ok _ phase_start phase_start)|done| |done].
    intros b t [-> ?]. eauto.
Qed.

(** A backup that has all of the destination, or nothing more than a part of itself. *)
Lemma start_backed s t t' : ok s → phase_start t → keeps (λ _, True) t t' → lands new (bk s) t t' → phase_backed t'.
Proof.
  intros Hs [Hu _] Hk Hl. split.
  - intros q c Hq Hin. apply Hk; [done|]. by apply Hu.
  - exists s. split; [done|]. intros r c Hr. apply Hl, Hu; [by apply apart_below|done].
Qed.
Lemma start_untouched t t' : phase_start t → keeps (λ _, True) t t' → untouched t'.
Proof. intros [Hu _] Hk q c Hq Hin. apply Hk; [done|]. by apply Hu. Qed.
Lemma start_clear t : phase_start t → exists_at new t = false → phase_backed t.
Proof.
  intros [Hu _] Hn. split; [done|]. exists []. split; [done|]. intros r c Hr.
  apply Hu in Hr; [|by apply apart_below]. by rewrite (clear_lookup new t r Hn) in Hr.
Qed.

Lemma triple_copy_backup (folder : bool) b :
  triple ok (λ t, (∃ s, ok s ∧ b = bk s) ∧ phase_start t)
    (if folder then copytree new b else copy2 new b) (λ _, phase_backed) untouched.
Proof.
  apply triple_assume. intros (s & Hs & ->).
  destruct folder; apply triple_attempt.
  - intros t t' Ht Hw. apply copy_tree_spec in Hw as [??]. by eapply start_backed.
  - intros t [Hu _] _. done.
  - intros t m _ Ht. case_match; [by destruct Ht|].
    eapply start_untouched; [done|]. apply copied_part_keeps. by apply Ht.
  - intros t t' Ht Hw. apply copy_file_spec in Hw as [??]; [by eapply start_backed|by apply Ht].
  - intros t [Hu _] _. done.
  - intros t m _ Ht. rewrite clear_into by by apply Ht.
    eapply start_untouched; [done|]. apply copied_part_keeps. by apply Ht.
Qed.

Lemma triple_back_up :
  triple ok phase_start (back_up_destination new) (λ _, phase_backed) untouched.
Proof.
  unfold back_up_destination. eapply triple_seq; [apply (triple_get ok)|]. intros there.
  destruct there.
  - eapply triple_pre; [|intros t [_ Ht]; exact Ht]. eapply triple_seq.
    { eapply triple_post; [apply triple_backup_file|by intros b t Hb; exact Hb|by intros t [? _]]. }
    intros b. eapply triple_seq; [apply (triple_get ok)|]. intros folder.
    eapply triple_pre; [apply (triple_copy_backup folder b)|by intros t [_ ?]].
  - intros k Hs [He Ht]. split; [done|]. cbn. by apply start_clear.
Qed.

Lemma triple_clear_staging :
  triple ok phase_backed (clear_staging stg) (λ _ t, phase_backed t ∧ clear stg t) survives.
Proof.
  assert (∀ t, phase_backed t → survives t) as Hs by (intros t [? _]; by apply untouched_survives).
  unfold clear_staging. eapply triple_seq; [apply (triple_get ok)|]. intros [].
  - eapply triple_seq; [apply (triple_get ok)|]. intros folder.
    eapply triple_pre; [|intros t (_ & _ & Ht); exact Ht].
    destruct folder; apply triple_attempt; try (intros; by apply Hs).
    + intros t t' Ht ->%rm_tree_spec. split; [|apply exists_at_outside].
      eapply backed_wiped; [apply outside_keeps|done].
    + intros t m _ Ht. apply Hs. eapply backed_wiped; [apply removed_part_keeps|done].
    + intros t t' Ht ->%unlink_file_spec. split; [|apply exists_at_outside].
      eapply backed_wiped; [apply outside_keeps|done].
  - intros k Hk [Hc Ht]. done.
Qed.

Lemma triple_stage :
  triple ok (λ t, phase_backed t ∧ clear stg t) (move old stg) (λ _ t, phase_staged t ∧ clear old t) survives.
Proof.
  assert (∀ t, phase_backed t → survives t) as Hs by (intros t [? _]; by apply untouched_survives).
  apply triple_attempt.
  - intros t t' [Ht Hc] Hm. apply move_path_spec in Hm as (Hk & Hl & Ho); [|done..].
    split; [|done]. by eapply backed_staged.
  - intros t [Ht _] _. by apply Hs.
  - intros t m late [Ht Hc]. cbn zeta. rewrite (clear_into _ _ _ Hc).
    do 2 (case_match; [by apply Hs|]).
    destruct (move_broken_spec old stg m late t Hc Hos) as [Hk|[Hk Hl]].
    + apply Hs. by eapply backed_all.
    + by eapply staged_survives, backed_staged.
Qed.

Lemma parent_dirs p q : apart p q → ¬ p `suffix_of` parent q.
Proof.
  intros [Hp _] H. apply Hp. etrans; [done|]. destruct q; [done|]. by apply suffix_cons_r.
Qed.

Lemma triple_clear_dest (m : F unit) :
  (∃ work, m = attempt work (λ touched _ t, removed_part new touched t) ∧
     ∀ t t', work t = Some t' → t' = outside new t) ∨
  (∃ work, m = attempt work (λ _ _ t, t) ∧ ∀ t t', work t = Some t' → t' = outside new t) →
  triple ok (λ t, phase_staged t ∧ clear old t) m
    (λ _ t, phase_cleared t ∧ clear old t ∧ clear new t) survives.
Proof.
  intros [(work & -> & Hw)|(work & -> & Hw)]; apply triple_attempt.
  1, 4: intros t t' [Ht Ho] ->%Hw; split_and!;
    [eapply cleared_all; [apply outside_keeps|by apply staged_cleared]|by apply outside_clear|apply exists_at_outside].
  1, 3: intros t [Ht _] _; by apply staged_survives.
  - intros t mk _ [Ht _]. eapply cleared_survives, cleared_all; [apply removed_part_keeps|by apply staged_cleared].
  - intros t mk _ [Ht _]. by apply staged_survives.
Qed.

Lemma triple_replace :
  triple ok (λ t, phase_cleared t ∧ clear old t) (replace stg new)
    (λ _ t, phase_placed t ∧ clear old t) survives.
Proof.
  apply triple_attempt.
  - intros t t' [Ht Ho] Hr. split; [|by eapply replace_file_clear].
    apply replace_file_spec in Hr as (Hk & Hl & _); [|by apply apart_sym]. by eapply cleared_placed.
  - intros t [Ht _] _. by apply cleared_survives.
  - intros t _ _ [Ht _]. by apply cleared_survives.
Qed.
Lemma triple_move_dest :
  triple ok (λ t, phase_cleared t ∧ clear old t ∧ clear new t) (move stg new)
    (λ _ t, phase_placed t ∧ clear old t) survives.
Proof.
  apply triple_attempt.
  - intros t t' (Ht & Ho & Hn) Hm. split; [|by eapply move_path_clear].
    apply move_path_spec in Hm as (Hk & Hl & _); [|done|by apply apart_sym].
    eapply cleared_placed; [|done..]. intros q c [Hq _]. by apply Hk.
  - intros t [Ht _] _. by apply cleared_survives.
  - intros t mk late (Ht & Ho & Hn). cbn zeta. rewrite (clear_into _ _ _ Hn).
    do 2 (case_match; [by apply cleared_survives|]).
    destruct (move_broken_spec stg new mk late t Hn (apart_sym _ _ Hns)) as [Hk|[Hk Hl]].
    + eapply cleared_survives, cleared_all; [|done]. intros q c _. by apply Hk.
    + eapply placed_survives, cleared_placed; [|done..]. intros q c [Hq _]. by apply Hk.
Qed.

Lemma triple_finalize :
  triple ok (λ t, phase_staged t ∧ clear old t) (_finalize_move false stg new)
    (λ _ t, phase_placed t ∧ clear old t) survives.
Proof.
  assert (∀ t, phase_staged t ∧ clear old t → survives t) as Hs by (intros t [? _]; by apply staged_survives).
  unfold _finalize_move. eapply triple_seq; [apply (triple_get ok)|]. intros staged.
  eapply triple_pre; [|intros t [_ Ht]; exact Ht]. destruct staged; cbn [negb].
  2: { intros k Hk Ht. split; [done|]. by apply Hs. }
  eapply triple_seq.
  { eapply triple_post; [apply triple_mkdirs|by intros a t Ht; exact Ht|apply Hs].
    intros t t' [Ht Ho] Hk Hc. split; [by eapply staged_all|]. apply Hc; [by apply parent_dirs|done]. }
  intros []. eapply triple_seq; [apply (triple_get ok)|]. intros staged_file.
  eapply triple_pre; [|intros t [_ Ht]; exact Ht].
  eapply triple_seq; [apply (triple_get ok)|]. intros there.
  destruct staged_file.
  - eapply triple_seq; [apply (triple_get ok)|]. intros dest_dir.
    eapply triple_pre; [|intros t (_ & _ & Ht); exact Ht].
    apply (triple_seq ok _ _ _ (λ _ t, phase_cleared t ∧ clear old t)); [|intros []; apply triple_replace].
    apply triple_when.
    + intros _. apply triple_retry. eapply triple_post.
      * apply triple_clear_dest. left. eexists. split; [done|]. apply rm_tree_spec.
      * by intros _ t (? & ? & _).
      * done.
    + intros _ t [Ht Ho]. split; [by apply staged_cleared|done].
  - eapply triple_seq; [apply (triple_get ok)|]. intros dest_file.
    eapply triple_pre; [|intros t (_ & Ht); exact Ht].
    apply (triple_seq ok _ _ _ (λ _ t, phase_cleared t ∧ clear old t ∧ clear new t));
      [|intros []; apply triple_retry, triple_move_dest].
    apply triple_when.
    + intros ->. eapply triple_pre; [|intros t [_ Ht]; exact Ht].
      destruct dest_file; apply triple_retry, triple_clear_dest.
      * right. eexists. split; [done|]. apply unlink_file_spec.
      * left. eexists. split; [done|]. apply rm_tree_spec.
    + intros -> t (Hn & Ht & Ho). split_and!; [by apply staged_cleared|done|done].
Qed.

(** A unit that is reported as moved is in place with all its files, and the destination is backed up. *)
Definition moved (t : files) : Prop := phase_placed t ∧ clear old t.

Lemma moved_survives t : moved t → survives t.
Proof. intros [? _]. by apply placed_survives. Qed.
Lemma moved_wiped t t' : keeps (λ q, ¬ stg `suffix_of` q) t t' → (clear old t → clear old t') → moved t → moved t'.
Proof.
  intros Hk Hc [(H & Hl & Hb) Ho]. split; [|auto]. split_and!.
  - intros q c Hq Hin. apply Hk; [by destruct Hq|]. by apply H.
  - intros r c Hr. apply Hk; [by apply apart_below|]. by apply Hl.
  - by eapply (backed_below stg).
Qed.

Lemma triple_move_unit step : (∀ s, ok s → ¬ bk s `suffix_of` parent stg) →
  triple ok (λ t, t = t0) (move_unit false step stg old new)
    (λ r t, r = reported Move (Some old) (Some new) ∧ moved t) survives.
Proof.
  intros Hbs. unfold move_unit. eapply triple_pre.
  1: eapply triple_finally; [apply triple_as_step| |].
  - eapply triple_seq; [eapply triple_post; [apply (start_dirs (parent stg) Hbs)|by intros a t Ht; exact Ht|]|].
    { intros t [Ht _]. by apply untouched_survives. }
    intros []. eapply triple_seq; [eapply triple_post; [apply triple_back_up|by intros a t Ht; exact Ht|apply untouched_survives]|].
    intros []. eapply triple_seq; [apply triple_clear_staging|].
    intros []. eapply triple_seq; [apply triple_stage|].
    intros []. eapply triple_seq; [apply triple_finalize|].
    intros []. apply triple_done.
  - intros r. eapply triple_seq; [apply (triple_get ok)|]. intros there.
    eapply triple_pre; [|intros t [_ Ht]; exact Ht]. apply triple_when; [|done].
    intros _. apply triple_attempt.
    + intros t t' [-> Ht] ->%unlink_file_spec. split; [done|].
      eapply moved_wiped; [apply outside_keeps|apply outside_clear|done].
    + intros t [_ Ht] _. by apply moved_survives.
    + intros t _ _ [_ Ht]. by apply moved_survives.
  - eapply triple_seq; [apply (triple_get ok)|]. intros there. cbn [andb f_when].
    intros k Hk [_ Ht]. done.
  - intros t ->. split; [intros q c _ Hq; exact Hq|done].
Qed.

(** *** The store, which is a folder *)

Lemma triple_move_store : (∀ s, ok s → ¬ bk s `suffix_of` parent stg) →
  triple ok (λ t, t = t0) (move_store false stg old new)
    (λ r t, r = reported Move (Some old) (Some new) ∧ moved t) survives.
Proof.
  intros Hbs. assert (∀ t, phase_backed t → survives t) as Hs by (intros t [? _]; by apply untouched_survives).
  assert (∀ t, phase_start t → survives t) as Hst by (intros t [? _]; by apply untouched_survives).
  unfold move_store. apply (triple_pre ok _ _ phase_start); [|intros t ->; split; [intros q c _ Hq; exact Hq|exact Hfresh]].
  eapply triple_seq; [eapply triple_post; [apply (start_dirs (parent stg) Hbs)|by intros a t Ht; exact Ht|apply Hst]|].
  intros []. eapply triple_finally; [apply triple_as_step| |].
  - eapply triple_seq; [apply (triple_get ok)|]. intros there.
    apply (triple_seq ok _ _ _ (λ _, phase_backed)).
    { apply triple_when; [intros _|intros -> t [Hn Ht]; by apply start_clear].
      eapply triple_pre; [|intros t [_ Ht]; exact Ht].
      eapply triple_seq; [eapply triple_post; [apply triple_backup_file|by intros b t Hb; exact Hb|apply Hst]|].
      intros b. eapply triple_post; [apply (triple_copy_backup true b)|done|apply untouched_survives]. }
    intros []. eapply triple_seq; [apply (triple_get ok)|]. intros staged.
    apply (triple_seq ok _ _ _ (λ _ t, phase_backed t ∧ clear stg t)).
    { apply triple_when; [intros _|by intros -> t [Hn Ht]]. eapply triple_pre; [|intros t [_ Ht]; exact Ht].
      apply triple_attempt.
      - intros t t' Ht ->%rm_tree_spec. split; [|apply exists_at_outside].
        eapply backed_wiped; [apply outside_keeps|done].
      - intros t Ht _. by apply Hs.
      - intros t m _ Ht. apply Hs. eapply backed_wiped; [apply removed_part_keeps|done]. }
    intros []. eapply triple_seq; [apply triple_stage|].
    intros []. eapply triple_seq; [apply triple_finalize|].
    intros []. apply triple_done.
  - intros r. eapply triple_seq; [apply (triple_get ok)|]. intros there.
    eapply triple_pre; [|intros t [_ Ht]; exact Ht]. apply triple_when; [|done].
    intros _. eapply triple_handle.
    + apply triple_attempt.
      * intros t t' [-> Ht] ->%rm_tree_spec. split; [done|].
        eapply moved_wiped; [apply outside_keeps|apply outside_clear|done].
      * intros t Ht _. exact Ht.
      * intros t m _ [-> Ht]. split; [done|]. eapply moved_wiped; [apply removed_part_keeps| |done].
        intros Hc. apply exists_at_false. intros r. apply eq_None_not_Some. intros [n Hn%lookup_removed].
        by rewrite (clear_lookup old t r Hc) in Hn.
    + intros e k Hk Ht. done.
  - eapply triple_seq; [apply (triple_get ok)|]. intros there. cbn [andb f_when].
    intros k Hk [_ Ht]. done.
Qed.
End unit.

(** ** Whole steps *)

(** The times a run can ask for. *)
Definition times (k : disk) (s : pystr) : Prop := s ∈ [] :: stamps k.
Lemma times_stamps k : Forall (times k) (stamps k).
Proof. apply Forall_forall. intros s Hs. by right. Qed.

Definition moves (r : step_result) : bool := bool_decide (act r = Some Move) && negb (was_dry_run r).

(** What a step that moves one unit leaves of the tree of [k]: it has moved the unit, or changed
    nothing, or failed with every file still there. *)
Definition step_safe (new stg : path) (k : disk) (out : outcome_of step_result * disk) : Prop :=
  match out.1 with
  | Done r =>
      if moves r then ∃ old, old_path r = Some old ∧ moved (times k) old new stg (tree k) (tree out.2)
      else tree out.2 = tree k
  | Raised _ => ∃ old, survives (times k) old new stg (tree k) (tree out.2)
  end.

(** A legacy file that lies apart from the places of the step. *)
Definition legacy_apart (k : disk) (old new stg : path) : Prop :=
  apart old stg ∧ apart old new ∧ ∀ s, times k s → apart old (backup_path new BAK s).

Lemma step_safe_of k old new stg (m : F step_result) :
  triple (times k) (λ t, t = tree k) m
    (λ r t, r = reported Move (Some old) (Some new) ∧ moved (times k) old new stg (tree k) t)
    (survives (times k) old new stg (tree k)) →
  step_safe new stg k (m k).
Proof.
  intros Hm. destruct (Hm k (times_stamps k) eq_refl) as [_ Hr]. unfold step_safe.
  destruct (m k).1 as [r|e]; [|by exists old]. destruct Hr as [-> Hr]. by exists old.
Qed.

(** The places of a unit: they are apart, and the backups have names of their own. *)
Record places (k : disk) (new stg : path) : Prop := {
  pl_new_stg : apart new stg;
  pl_new_backup s : apart new (backup_path new BAK s);
  pl_stg_backup s : apart stg (backup_path new BAK s);
  pl_dirs s : ¬ backup_path new BAK s `suffix_of` parent stg;
  pl_fresh s : times k s → clear (backup_path new BAK s) (tree k);
}.

Lemma move_unit_safe k step old new stg : places k new stg → legacy_apart k old new stg →
  step_safe new stg k (move_unit false step stg old new k).
Proof.
  intros [????] (?&?&?). apply (step_safe_of k old).
  apply triple_move_unit; try done; [by left|auto..].
Qed.
Lemma move_store_safe k old new stg : places k new stg → legacy_apart k old new stg →
  step_safe new stg k (move_store false stg old new k).
Proof.
  intros [????] (?&?&?). apply (step_safe_of k old).
  apply triple_move_store; try done; [by left|auto..].
Qed.
Lemma unchanged_safe k new stg r : moves r = false → step_safe new stg k (Done r, k).
Proof. unfold step_safe. cbn. by intros ->. Qed.

Lemma step_safe_reads k fs new stg out :
  step_safe new stg (Disk (tree k) fs (stamps k) (slept k)) out → step_safe new stg k out.
Proof. done. Qed.

Lemma migrate_found_safe k step new_home old new dry_run force :
  places k new (_get_staging_path new_home step) → legacy_apart k old new (_get_staging_path new_home step) →
  step_safe new (_get_staging_path new_home step) k (migrate_found false step new_home old new dry_run force k).
Proof.
  intros Hp Ho. unfold migrate_found, f_bind, f_get. destruct (exists_at new (tree k) && negb force).
  - by apply unchanged_safe.
  - destruct dry_run; [by apply unchanged_safe|by apply move_unit_safe].
Qed.
Lemma nothing_found_safe k present new stg : step_safe new stg k (nothing_found present new k).
Proof. unfold nothing_found, f_bind, f_get. destruct (present new (tree k)); by apply unchanged_safe. Qed.

Lemma scan_roots_found there file target roots t p :
  scan_roots there file target roots t = Found p → p ≠ target ∧ ∃ root, root ∈ roots ∧ p = file :: root.
Proof.
  induction roots as [|root rest IH]; [done|]. cbn. case_bool_decide as Hc.
  - case_match; [done|]. intros [? (r & ? & ?)]%IH. split; [done|]. exists r. by split; [right|].
  - case_match.
    + intros [= <-]. split; [done|]. exists root. by split; [left|].
    + intros [? (r & ? & ?)]%IH. split; [done|]. exists r. by split; [right|].
Qed.
Lemma with_home_elem roots h r : r ∈ with_home roots h → r ∈ roots ∨ r = h.
Proof.
  unfold with_home. case_bool_decide; [by left|]. intros [?|?%list_elem_of_singleton]%elem_of_app; auto.
Qed.

(** Reading the credentials changes nothing but the faults to come. *)
Lemma looks_like_reads json_load p k :
  ∃ b fs, _looks_like_matrix_credentials json_load p k =
    (Done b, {| tree := tree k; faults := fs; stamps := stamps k; slept := slept k |}).
Proof.
  unfold _looks_like_matrix_credentials, f_try, f_bind.
  destruct (read_file_text_cases p k) as (fs & [(c & ->)|(no & w & ->)]); by eexists _, _.
Qed.

Lemma credentials_places k new_home :
  let new := CREDENTIALS_FILENAME :: MATRIX_DIRNAME :: new_home in
  (∀ s, times k s → clear (backup_path new BAK s) (tree k)) →
  places k new (_get_staging_path new_home CREDENTIALS).
Proof.
  intros new Hf. split; [| | | |done].
  - by apply (apart_fork _ _ [_] [_] new_home).
  - intros s. by apply (apart_fork _ _ [] [_]).
  - intros s. by apply (apart_fork _ _ [_] [_; _] new_home).
  - intros s. by apply (suffix_fork _ _ [_; _] [] new_home).
Qed.
(** The legacy paths a step may find are apart from its places. *)
Definition legacy_roots_apart (k : disk) (file : pystr) (roots : list path) (new stg : path) : Prop :=
  ∀ root, root ∈ roots → file :: root ≠ new → legacy_apart k (file :: root) new stg.

Lemma home_apart (file unit_name : pystr) k new_home new :
  (∃ f g, f ≠ file ∧ new = g ++ f :: new_home) → file ≠ MIGRATION_STAGING_DIRNAME →
  (∀ s, ∃ f g, f ≠ file ∧ backup_path new BAK s = g ++ f :: new_home) →
  legacy_apart k (file :: new_home) new (_get_staging_path new_home unit_name).
Proof.
  intros (f & g & Hf & ->) Hs Hb. split_and!.
  - by apply (apart_fork _ _ [] [_]).
  - apply (apart_fork _ _ [] g). done.
  - intros s _. destruct (Hb s) as (f' & g' & ? & ->). by apply (apart_fork _ _ [] g').
Qed.

Lemma credentials_home k new_home :
  legacy_apart k (CREDENTIALS_FILENAME :: new_home) (CREDENTIALS_FILENAME :: MATRIX_DIRNAME :: new_home)
    (_get_staging_path new_home CREDENTIALS).
Proof.
  apply home_apart; [by exists MATRIX_DIRNAME, [CREDENTIALS_FILENAME]|done|].
  intros s. by eexists MATRIX_DIRNAME, [_; MIGRATION_BACKUP_DIRNAME].
Qed.

(** The file that the search of the roots settles on: the first that is there. *)
Definition first_legacy (file : pystr) (roots : list path) (t : files) (old : path) : Prop :=
  ∃ i root, roots !! i = Some root ∧ old = file :: root ∧ exists_at old t = true ∧
    ∀ j r, (j < i)%nat → roots !! j = Some r → exists_at (file :: r) t = false.
Definition no_legacy (file : pystr) (roots : list path) (t : files) : Prop :=
  ∀ r, r ∈ roots → exists_at (file :: r) t = false.

Lemma scan_roots_cases file target roots t :
  match scan_roots exists_at file target roots t with
  | AtTarget _ => exists_at target t = true ∧ target ∈ (file ::.) <$> roots
  | Found old => first_legacy file roots t old
  | FoundNone => no_legacy file roots t
  end.
Proof.
  unfold first_legacy, no_legacy. induction roots as [|root rest IH]; cbn; [by intros r ?%not_elem_of_nil|].
  assert (exists_at (file :: root) t = false →
    match scan_roots exists_at file target rest t with
    | AtTarget _ => exists_at target t = true ∧ target ∈ (file ::.) <$> root :: rest
    | Found old => first_legacy file (root :: rest) t old
    | FoundNone => no_legacy file (root :: rest) t
    end) as Hskip.
  { intros Hn. destruct (scan_roots _ _ _ _ _);
      [destruct IH; split; [done|by right]| |intros r [->|Hr]%elem_of_cons; [done|by apply IH]].
    destruct IH as (i & r & Hi & Ho & He & Hfirst). exists (S i), r. split_and!; [done..|].
    intros [|j'] r' Hj; [by intros [= <-]|]. apply Hfirst. lia. }
  unfold first_legacy, no_legacy in Hskip. case_bool_decide as Hc.
  - subst target. destruct (exists_at (file :: root) t) eqn:He; [split; [done|by left]|by apply Hskip].
  - destruct (exists_at (file :: root) t) eqn:He; [|by apply Hskip].
    exists 0%nat, root. split_and!; [done..|]. intros j' r. lia.
Qed.

(** What the step of the credentials leaves of the tree of [k]: the legacy file - the first of those
    in the roots or, if there is none, that of the user's home - has been moved; or nothing has
    changed, with the reason; or the step failed with every file still there. *)
Definition credentials_safe (user_home : path) (legacy_roots : list path) (new_home : path) (dry_run force : bool)
    (k : disk) (out : outcome_of step_result * disk) : Prop :=
  let new := CREDENTIALS_FILENAME :: MATRIX_DIRNAME :: new_home in
  let stg := _get_staging_path new_home CREDENTIALS in
  let roots := with_home legacy_roots new_home in
  let legacy old :=
    first_legacy CREDENTIALS_FILENAME roots (tree k) old ∨
    no_legacy CREDENTIALS_FILENAME roots (tree k) ∧ old = CREDENTIALS_FILENAME :: user_home ∧
      exists_at old (tree k) = true in
  match out.1 with
  | Done r =>
      if moves r then
        ∃ old, legacy old ∧ old_path r = Some old ∧ moved (times k) old new stg (tree k) (tree out.2)
      else
        tree out.2 = tree k ∧
        (dry_run = true ∨ exists_at new (tree k) = true ∧ (force = false ∨ new ∈ (CREDENTIALS_FILENAME ::.) <$> roots) ∨
         no_legacy CREDENTIALS_FILENAME roots (tree k))
  | Raised _ => ∃ old, legacy old ∧ survives (times k) old new stg (tree k) (tree out.2)
  end.

Lemma move_unit_run k step old new stg : places k new stg → legacy_apart k old new stg →
  match move_unit false step stg old new k with
  | (Done r, k') => r = reported Move (Some old) (Some new) ∧ moved (times k) old new stg (tree k) (tree k')
  | (Raised _, k') => survives (times k) old new stg (tree k) (tree k')
  end.
Proof.
  intros [????] (?&?&?).
  assert (triple (times k) (λ t, t = tree k) (move_unit false step stg old new)
    (λ r t, r = reported Move (Some old) (Some new) ∧ moved (times k) old new stg (tree k) t)
    (survives (times k) old new stg (tree k))) as Hm by (apply triple_move_unit; try done; [by left|auto..]).
  destruct (Hm k (times_stamps k) eq_refl) as [_ Hr]. by destruct (move_unit _ _ _ _ _ k) as [[r|e] k'].
Qed.

Lemma credentials_safe_reads user_home roots new_home dry_run force k fs out :
  credentials_safe user_home roots new_home dry_run force (Disk (tree k) fs (stamps k) (slept k)) out →
  credentials_safe user_home roots new_home dry_run force k out.
Proof. done. Qed.
Lemma no_credentials user_home roots new_home dry_run force k new :
  no_legacy CREDENTIALS_FILENAME (with_home roots new_home) (tree k) →
  credentials_safe user_home roots new_home dry_run force k (nothing_found exists_at new k).
Proof.
  intros Hn. unfold nothing_found, f_bind, f_get. destruct (exists_at new (tree k)); (split; [done|by right; right]).
Qed.
Lemma migrate_found_credentials user_home roots new_home dry_run force k old :
  let new := CREDENTIALS_FILENAME :: MATRIX_DIRNAME :: new_home in
  let all := with_home roots new_home in
  (∀ s, times k s → clear (backup_path new BAK s) (tree k)) →
  first_legacy CREDENTIALS_FILENAME all (tree k) old ∨
    no_legacy CREDENTIALS_FILENAME all (tree k) ∧ old = CREDENTIALS_FILENAME :: user_home ∧ exists_at old (tree k) = true →
  legacy_apart k old new (_get_staging_path new_home CREDENTIALS) →
  credentials_safe user_home roots new_home dry_run force k
    (migrate_found false CREDENTIALS new_home old new dry_run force k).
Proof.
  intros new all Hf Hold Hapart. unfold migrate_found. rewrite f_bind_get.
  destruct (exists_at new (tree k) && negb force) eqn:Ht.
  { apply andb_prop in Ht as [He Hforce%negb_true_iff]. split; [done|]. right; left. auto. }
  destruct dry_run; [by split; [|left]|].
  pose proof (move_unit_run k CREDENTIALS old new _ (credentials_places k new_home Hf) Hapart) as Hm.
  unfold credentials_safe. fold new all.
  destruct (move_unit _ _ _ _ _ k) as [[r|e] k']; [destruct Hm as [-> Hm]|]; by exists old.
Qed.

(** C16: Outside Windows, where the legacy files lie apart from the destination and the staging area and
    no backup of that second is there yet: whatever errors the file system raises, at whatever point
    and with whatever part of a copy or a removal done, the migration of the credentials ends in one
    of three ways.  The legacy file - the first that is in one of the roots, or else the one in the
    user's home - is gone and all of it is in the place of the credentials, with what was there
    before in a backup.  Or nothing has changed, because the run was dry, the destination had
    credentials that were not to be replaced or are themselves the find, or no root has any.  Or
    the step failed, and the legacy file is still where it was, or in the staging area, or in
    place, and what was at the destination is still there or in the backup.  All other files are
    as they were, but for what an earlier run left in this step's staging area, which may be gone. *)
Theorem credentials_survive json_load user_home legacy_roots new_home dry_run force k :
  let new := CREDENTIALS_FILENAME :: MATRIX_DIRNAME :: new_home in
  let stg := _get_staging_path new_home CREDENTIALS in
  (∀ s, times k s → clear (backup_path new BAK s) (tree k)) →
  legacy_roots_apart k CREDENTIALS_FILENAME legacy_roots new stg →
  legacy_apart k (CREDENTIALS_FILENAME :: user_home) new stg →
  credentials_safe user_home legacy_roots new_home dry_run force k
    (migrate_credentials false json_load user_home legacy_roots new_home dry_run force k).
Proof.
  intros new stg Hf Hroots Hhome. unfold migrate_credentials. rewrite f_bind_get. fold new.
  pose proof (scan_roots_cases CREDENTIALS_FILENAME new (with_home legacy_roots new_home) (tree k)) as Hs.
  destruct (scan_roots _ _ _ _ _) as [p|p|] eqn:Hscan.
  - split; [done|]. destruct Hs. auto.
  - apply migrate_found_credentials; [done|by left|]. apply scan_roots_found in Hscan as (Hne & root & Hr & ->).
    apply with_home_elem in Hr as [Hr| ->]; [by apply Hroots|apply credentials_home].
  - rewrite f_bind_get. destruct (exists_at (_ :: user_home) (tree k)) eqn:He; [|by apply no_credentials].
    destruct (looks_like_reads json_load (CREDENTIALS_FILENAME :: user_home) k) as (b & fs & Hl).
    unfold f_bind at 1. rewrite Hl.
    apply (credentials_safe_reads _ _ _ _ _ k fs). destruct b; [|by apply no_credentials].
    apply migrate_found_credentials; [done|by right|exact Hhome].
Qed.

(** The step of the configuration file moves it, or changes nothing, or fails with it still there. *)
Theorem config_survive legacy_roots new_home dry_run force k :
  let new := CONFIG_FILENAME :: new_home in
  let stg := _get_staging_path new_home CONFIG in
  (∀ s, times k s → clear (backup_path new BAK s) (tree k)) →
  legacy_roots_apart k CONFIG_FILENAME legacy_roots new stg →
  step_safe new stg k (migrate_config false legacy_roots new_home dry_run force k).
Proof.
  intros new stg Hf Hroots. assert (places k new stg) as Hp.
  { split; [| | | |done].
    - by apply (apart_fork _ _ [] [_] new_home).
    - intros s. by apply (apart_fork _ _ [] [_] new_home).
    - intros s. by apply (apart_fork _ _ [_] [_] new_home).
    - intros s. by apply (suffix_fork _ _ [_] [] new_home). }
  unfold migrate_config. rewrite f_bind_get.
  destruct (scan_roots _ _ _ _ _) as [p|p|] eqn:Hs; [by apply unchanged_safe| |apply nothing_found_safe].
  apply migrate_found_safe; [done|]. apply scan_roots_found in Hs as (Hne & root & Hr & ->).
  by apply Hroots.
Qed.

(** The same for the E2EE store, a folder with all that is in it. *)
Theorem store_survives legacy_roots new_home dry_run force k :
  let new := STORE_DIRNAME :: MATRIX_DIRNAME :: new_home in
  let stg := _get_staging_path new_home STORE in
  (∀ s, times k s → clear (backup_path new BAK s) (tree k)) →
  legacy_roots_apart k STORE_DIRNAME legacy_roots new stg →
  step_safe new stg k (migrate_store false legacy_roots new_home dry_run force k).
Proof.
  intros new stg Hf Hroots. assert (places k new stg) as Hp.
  { split; [| | | |done].
    - by apply (apart_fork _ _ [_] [_] new_home).
    - intros s. by apply (apart_fork _ _ [] [_]).
    - intros s. by apply (apart_fork _ _ [_] [_; _] new_home).
    - intros s. by apply (suffix_fork _ _ [_; _] [] new_home). }
  unfold migrate_store. rewrite f_bind_get.
  destruct (scan_roots _ _ _ _ _) as [p|p|] eqn:Hs; [by apply unchanged_safe| |apply nothing_found_safe].
  rewrite f_bind_get. fold new. destruct (_dir_has_entries new (tree k) && negb force); [by apply unchanged_safe|].
  destruct dry_run; [by apply unchanged_safe|]. apply move_store_safe; [done|].
  apply scan_roots_found in Hs as (Hne & root & Hr & ->).
  apply with_home_elem in Hr as [Hr| ->]; [by apply Hroots|].
  apply home_apart; [by exists MATRIX_DIRNAME, [STORE_DIRNAME]|done|].
  intros s. by eexists MATRIX_DIRNAME, [_; MIGRATION_BACKUP_DIRNAME].
Qed.
