(* ===== verification/MigrateData.v ===== *)
(** * The migration of the database, the logs, the plugins and the service

    The steps of [migrate.py] that move several files: the database with its sidecars, which is copied,
    checked and only then removed, the logs and the GPX files, which get new names, the two tiers of
    plugins, and the service file of the user, which is written anew. *)

From Stdlib Require Import QArith String.
From stdpp Require Import base tactics numbers sets gmap list sorting.
From S2P Require Import Prelude PyStr PyValue PyLib NameSync MigrateFs Migrate.
Open Scope Z_scope.

(** [except OSError]: the changes that may fail. *)
Definition f_ignoring (m : F unit) : F unit :=
  f_try m (λ e, if is_os_error e then f_ret tt else f_raise e).
Definition f_succeeds (m : F unit) : F bool :=
  f_try (m;; f_ret true) (λ e, if is_os_error e then f_ret false else f_raise e).

Section data.
Context (win32 : bool) (yaml : option (pystr → loaded)) (integrity_ok : files → path → bool).
Context (st_mtime : files → path → Z).
Context (user_home cwd : path) (home_of : pystr → option path).

(** ** The database *)

(** The first with the greatest value. *)
Fixpoint max_by {A} (f : A → Z) (l : list A) : option A :=
  match l with
  | [] => None
  | a :: l =>
      match max_by f l with
      | Some b => if f a <? f b then Some b else Some a
      | None => Some a
      end
  end.

Fixpoint add_to_group (base p : path) (groups : list (path * list path)) : list (path * list path) :=
  match groups with
  | [] => [(base, [p])]
  | (b, ps) :: rest =>
      if bool_decide (b = base) then (b, ps ++ [p]) :: rest else (b, ps) :: add_to_group base p rest
  end.
Definition db_groups (candidates : list path) (t : files) : list (path * list path) :=
  foldl (λ groups db_path,
    let base := _get_db_base_path db_path in
    if exists_at db_path t && exists_at base t then add_to_group base db_path groups else groups)
    [] candidates.
Definition group_mtime (t : files) (g : path * list path) : Z :=
  foldr Z.max (match g.2 with p :: _ => st_mtime t p | [] => 0 end) (st_mtime t <$> g.2).
Definition _get_most_recent_database (candidates : list path) (t : files) : option path :=
  fst <$> max_by (group_mtime t) (db_groups candidates t).

(** The database files of one legacy root, or the database that is the only one and in place. *)
Definition root_candidates (single : bool) (target root : path) (t : files) : path + list path :=
  let found p := if exists_at p t then p :: _collect_db_sidecars p t else [] in
  let legacy_db := DATABASE_FILENAME :: root in
  if bool_decide (legacy_db = target) then
    if exists_at legacy_db t && single then inl legacy_db else inr []
  else
    let partial_data_dir := u "data" :: root in
    let partial_db := DATABASE_FILENAME :: partial_data_dir in
    if exists_at partial_data_dir t && bool_decide (partial_db = target) then inr (found legacy_db)
    else
      let candidates := found legacy_db ++ (if exists_at partial_data_dir t then found partial_db else []) in
      let legacy_db_dir := u "database" :: root in
      let legacy_db := DATABASE_FILENAME :: legacy_db_dir in
      if exists_at legacy_db_dir t then
        if bool_decide (legacy_db = target) then
          if exists_at legacy_db t && single then inl legacy_db else inr candidates
        else inr (candidates ++ found legacy_db)
      else inr candidates.
Fixpoint db_candidates (single : bool) (target : path) (roots : list path) (t : files) : path + list path :=
  match roots with
  | [] => inr []
  | root :: rest =>
      match root_candidates single target root t with
      | inl p => inl p
      | inr ps =>
          match db_candidates single target rest t with
          | inl p => inl p
          | inr qs => inr (ps ++ qs)
          end
      end
  end.

(** The chosen database with its sidecars. *)
Definition selected_group (most_recent : path) (candidates : list path) (t : files) : list path :=
  let selected := filter (λ c, _get_db_base_path c = most_recent) candidates in
  let selected := if bool_decide (most_recent ∈ selected) then selected else most_recent :: selected in
  foldl (λ ps sidecar, if bool_decide (sidecar ∈ ps) then ps else ps ++ [sidecar])
    selected (_collect_db_sidecars most_recent t).

Definition by_name (p q : path) : Prop := str_le (name p) (name q).
#[local] Instance by_name_dec : RelDecision by_name := λ p q, str_le_dec (name p) (name q).
Definition sorted_by_name (ps : list path) : list path := merge_sort by_name (remove_dups ps).

Definition DATABASE : pystr := u "database".

Section move_database.
Context (new_db_dir staging_dir most_recent : path) (group : list path).
Definition dest_of (db_path : path) : path := name db_path :: new_db_dir.
Definition staged_of (db_path : path) : path := name db_path :: staging_dir.

(** The backups of what is at the destination; the database itself is never one of the sources. *)
Fixpoint back_up_each (dests : list path) : F (list (path * path)) :=
  match dests with
  | [] => f_ret []
  | dest :: rest =>
      there <- f_get (exists_at dest);;
      if existsb (λ p, bool_decide (p = dest)) group || negb there then back_up_each rest
      else
        backup_path <- _backup_file dest BAK;;
        folder <- f_get (is_dir dest);;
        (if folder : bool then copytree dest backup_path else copy2 dest backup_path);;
        backed_up <- back_up_each rest;;
        f_ret ((backup_path, dest) :: backed_up)
  end.

Definition not_in_place (db_path : path) (m : F unit) : F unit :=
  if bool_decide (db_path = dest_of db_path) then f_ret tt else m.

Definition stage_file (db_path : path) : F unit := not_in_place db_path (copy2 db_path (staged_of db_path)).
Definition check_staged : F unit :=
  if existsb (endswith (name most_recent)) SQLITE_SIDECAR_SUFFIXES then f_ret tt
  else
    sound <- f_get (λ t, integrity_ok t (staged_of most_recent));;
    if sound : bool then f_ret tt else f_raise (MigrationError []).
Definition place_file (db_path : path) : F unit :=
  not_in_place db_path
    (there <- f_get (exists_at (dest_of db_path));;
     f_when there (_retry_on_file_in_use win32 (unlink (dest_of db_path)));;
     _retry_on_file_in_use win32 (move (staged_of db_path) (dest_of db_path))).
Definition delete_source (db_path : path) : F unit := not_in_place db_path (f_ignoring (unlink db_path)).
Definition remove_stale (source_names : list pystr) (dest : path) : F unit :=
  there <- f_get (exists_at dest);;
  if negb there || bool_decide (name dest ∈ source_names) then f_ret tt
  else
    folder <- f_get (is_dir dest);;
    _retry_on_file_in_use win32 (if folder : bool then rmtree dest else unlink dest).

Definition move_database : F step_result :=
  f_finally
    (as_step DATABASE
       (mkdirs staging_dir;;
        let main := DATABASE_FILENAME :: new_db_dir in
        destination_group <- f_get (λ t, main :: _collect_db_sidecars main t);;
        backed_up <- back_up_each (sorted_by_name ((dest_of <$> group) ++ destination_group));;
        f_each stage_file group;;
        check_staged;;
        mkdirs new_db_dir;;
        f_each place_file group;;
        f_each delete_source group;;
        f_each (remove_stale (name <$> group)) destination_group;;
        migrated <- f_get (λ t, sorted_by_name (filter (λ p, exists_at p t = true) (dest_of <$> group)));;
        f_ret (StepResult true (Some Move) (Some most_recent) (Some new_db_dir) false backed_up migrated None)))
    (λ migration_succeeded,
       there <- f_get (exists_at staging_dir);;
       f_when (migration_succeeded && there) (rmtree_ignoring staging_dir)).
End move_database.

Definition migrate_database (legacy_roots : list path) (new_home : path) (dry_run force : bool)
    : F step_result :=
  let new_db_dir := u "database" :: new_home in
  let target := DATABASE_FILENAME :: new_db_dir in
  let single := bool_decide (length legacy_roots = 1%nat) in
  found <- f_get (db_candidates single target legacy_roots);;
  in_place <- f_get (exists_at target);;
  match found with
  | inl legacy_db => f_ret (reported AlreadyAtTarget (Some legacy_db) (Some new_db_dir))
  | inr [] =>
      f_ret (if in_place : bool then reported AlreadyMigrated None (Some new_db_dir) else reported NotFound None None)
  | inr candidates =>
      if in_place && negb force then f_ret (reported SkipForceRequired None (Some new_db_dir))
      else if dry_run then f_ret (would_move None (Some new_db_dir))
      else
        recent <- f_get (_get_most_recent_database candidates);;
        match recent with
        | None => f_ret no_database
        | Some most_recent =>
            group <- f_get (selected_group most_recent candidates);;
            move_database new_db_dir (_get_staging_path new_home DATABASE) most_recent group
        end
  end.

(** ** Logs and GPX files *)

(** The stem of a name that ends in [ext], which is never empty. *)
Definition stem (file ext : pystr) : pystr :=
  if bool_decide (file = ext) then file else removesuffix file ext.
(** [glob] of a star and the extension. *)
Definition glob_ext (ext : pystr) (dir : path) (t : files) : list path :=
  filter (λ p, endswith (name p) ext = true) (iterdir dir t).
Definition migrated_name (file ext timestamp : pystr) (idx : nat) : pystr :=
  stem file ext ++ u "_migrated_" ++ timestamp ++ u "_" ++ str_of_int (Z.of_nat idx) ++ ext.

(** The files go to the staging area under names with the time and their number. *)
Fixpoint stage_renamed (ext : pystr) (staging_dir : path) (idx : nat) (found : list path) : F unit :=
  match found with
  | [] => f_ret tt
  | file :: rest =>
      timestamp <- now;;
      move file (migrated_name (name file) ext timestamp idx :: staging_dir);;
      stage_renamed ext staging_dir (S idx) rest
  end.
Definition place_staged (final_dir staged_file : path) : F unit :=
  let final_dest := name staged_file :: final_dir in
  there <- f_get (exists_at final_dest);;
  f_when there (_retry_on_file_in_use win32 (unlink final_dest));;
  _retry_on_file_in_use win32 (move staged_file final_dest).
Definition place_all_staged (staging_dir final_dir : path) : F unit :=
  mkdirs final_dir;;
  staged <- f_get (iterdir staging_dir);;
  f_each (place_staged final_dir) staged.

Definition first_existing (file : pystr) (roots : list path) (t : files) : option path :=
  first_some (λ root, if exists_at (file :: root) t then Some (file :: root) else None) roots.

Definition remove_staging (staging_dir : path) (migration_succeeded : bool) : F unit :=
  there <- f_get (exists_at staging_dir);;
  f_when (migration_succeeded && there) (rmtree_ignoring staging_dir).

Definition LOGS : pystr := u "logs".
Definition move_logs (staging_dir old_logs_dir new_logs_dir : path) : F step_result :=
  f_finally
    (as_step LOGS
       (mkdirs staging_dir;;
        there <- f_get (exists_at new_logs_dir);;
        f_when there (backup_path <- _backup_file new_logs_dir BAK;; copytree new_logs_dir backup_path);;
        found <- f_get (glob_ext (u ".log") old_logs_dir);;
        stage_renamed (u ".log") staging_dir 0 found;;
        place_all_staged staging_dir new_logs_dir;;
        f_ignoring (empty <- f_get (λ t, bool_decide (iterdir old_logs_dir t = []));;
                    f_when empty (rmdir old_logs_dir));;
        f_ret (reported Move (Some old_logs_dir) (Some new_logs_dir))))
    (remove_staging staging_dir).

Definition migrate_logs (legacy_roots : list path) (new_home : path) (dry_run force : bool) : F step_result :=
  let new_logs_dir := LOGS :: new_home in
  old <- f_get (first_existing LOGS legacy_roots);;
  match old with
  | None => nothing_found _dir_has_entries new_logs_dir
  | Some old_logs_dir =>
      old_filled <- f_get (_dir_has_entries old_logs_dir);;
      filled <- f_get (_dir_has_entries new_logs_dir);;
      if bool_decide (old_logs_dir = new_logs_dir) && old_filled then
        f_ret (reported AlreadyAtTarget (Some old_logs_dir) (Some new_logs_dir))
      else if filled && negb force then
        f_ret (reported SkipForceRequired (Some old_logs_dir) (Some new_logs_dir))
      else if dry_run then f_ret (would_move (Some old_logs_dir) (Some new_logs_dir))
      else move_logs (_get_staging_path new_home LOGS) old_logs_dir new_logs_dir
  end.

(** [Path(...).expanduser()], absolute; None for the home of a user there is none of. *)
Definition expand_path (s : pystr) : option path :=
  let comps := path_comps s in
  let under base rest := reverse (norm_comps false [] (reverse base ++ rest)) in
  if isabs s then Some (under [] comps)
  else match comps with
       | (126 :: user) :: rest =>
           (λ h, under h rest) <$> (match user with [] => Some user_home | _ => home_of user end)
       | _ => Some (under cwd comps)
       end.

Definition sub_dict (d : pydict) (key : pystr) : option pydict :=
  match dget d key with None => Some [] | Some (VDict d') => Some d' | Some _ => None end.

(** The configured folder of one configuration: None when it names none. *)
Definition gpx_directory (v : pyval) : option pyval :=
  match v with
  | VDict config =>
      match sub_dict config (u "community-plugins") with
      | Some plugins =>
          match sub_dict plugins (u "gpxtracker") with
          | Some gpx => match dget gpx (u "gpx_directory") with
                        | Some p => if truthy p then Some p else None
                        | None => None
                        end
          | None => None
          end
      | None => None
      end
  | _ => None
  end.

(** The folder of the first configuration that names one that exists, else of the last that names one.
    What is not a text, or not of a known user, raises what nothing catches. *)
Fixpoint scan_gpx (safe_load : pystr → loaded) (old : option path) (roots : list path) : F (option path) :=
  match roots with
  | [] => f_ret old
  | root :: rest =>
      let legacy_config := CONFIG_FILENAME :: root in
      there <- f_get (exists_at legacy_config);;
      if negb there then scan_gpx safe_load old rest
      else
        text <- f_try (c <- read_file_text legacy_config;; f_ret (Some c))
                  (λ e, if is_os_error e then f_ret None else f_raise e);;
        match safe_load <$> text with
        | None | Some YAMLError => scan_gpx safe_load old rest
        | Some LoadFails => f_raise OtherError
        | Some (Loaded v) =>
            match gpx_directory v with
            | None => scan_gpx safe_load old rest
            | Some (VStr s) =>
                match expand_path s with
                | None => f_raise OtherError
                | Some p =>
                    there <- f_get (exists_at p);;
                    if there : bool then f_ret (Some p) else scan_gpx safe_load (Some p) rest
                end
            | Some _ => f_raise OtherError
            end
        end
  end.

Definition GPXTRACKER : pystr := u "gpxtracker".
Definition move_gpx (staging_dir old_gpx_dir new_gpx_data_dir : path) : F step_result :=
  f_finally
    (as_step GPXTRACKER
       (mkdirs staging_dir;;
        filled <- f_get (λ t, exists_at new_gpx_data_dir t && negb (bool_decide (iterdir new_gpx_data_dir t = [])));;
        f_when filled (backup_path <- _backup_file new_gpx_data_dir BAK;; copytree new_gpx_data_dir backup_path);;
        found <- f_get (glob_ext (u ".gpx") old_gpx_dir);;
        stage_renamed (u ".gpx") staging_dir 0 found;;
        f_when (negb (bool_decide (found = []))) (place_all_staged staging_dir new_gpx_data_dir);;
        f_ret (reported Move (Some old_gpx_dir) (Some new_gpx_data_dir))))
    (remove_staging staging_dir).

Definition migrate_gpxtracker (legacy_roots : list path) (new_home : path) (dry_run force : bool)
    : F step_result :=
  let new_gpx_data_dir := u "data" :: u "gpxtracker" :: u "community" :: u "plugins" :: new_home in
  old <- (match yaml with
          | Some safe_load => scan_gpx safe_load None (with_home legacy_roots new_home)
          | None => f_ret None
          end);;
  filled <- f_get (_dir_has_entries new_gpx_data_dir);;
  old_there <- f_get (λ t, match old with Some p => exists_at p t | None => false end);;
  match old with
  | Some old_gpx_dir =>
      if bool_decide (old_gpx_dir = new_gpx_data_dir) && filled then
        f_ret (reported AlreadyAtTarget old (Some new_gpx_data_dir))
      else if negb old_there then nothing_found _dir_has_entries new_gpx_data_dir
      else if filled && negb force then f_ret (reported SkipForceRequired old (Some new_gpx_data_dir))
      else if dry_run then f_ret (would_move old (Some new_gpx_data_dir))
      else move_gpx (_get_staging_path new_home GPXTRACKER) old_gpx_dir new_gpx_data_dir
  | None =>
      match yaml with
      | None => f_ret (reported ScanSkippedPyyaml None None)
      | Some _ => nothing_found _dir_has_entries new_gpx_data_dir
      end
  end.

(** ** Plugins *)

(** The entries of a tier, with whether one was moved and whether one failed so far.  An entry of the
    destination that cannot be removed ends the loop. *)
Fixpoint tier_items (force : bool) (new_dir : path) (items : list path) (migrated failed : bool)
    : F (bool * bool) :=
  match items with
  | [] => f_ret (migrated, failed)
  | item :: rest =>
      folder <- f_get (is_dir item);;
      if negb folder then tier_items force new_dir rest migrated failed
      else
        let dest := name item :: new_dir in
        there <- f_get (exists_at dest);;
        if there && negb force then tier_items force new_dir rest migrated true
        else
          dest_folder <- f_get (is_dir dest);;
          removed <- f_succeeds (f_when there (if dest_folder : bool then rmtree dest else unlink dest));;
          if negb removed then f_ret (migrated, true)
          else
            staged <- f_succeeds (move item dest);;
            tier_items force new_dir rest (migrated || staged) (failed || negb staged)
  end.

(** Whether a plugin was moved, and whether something failed. *)
Definition _migrate_plugin_tier (old_dir new_dir : path) (force : bool) : F (bool * bool) :=
  there <- f_get (exists_at old_dir);;
  if negb there then f_ret (false, false)
  else
    made <- f_succeeds (mkdirs new_dir);;
    if negb made then f_ret (false, true)
    else
      items <- f_get (iterdir old_dir);;
      result <- tier_items force new_dir items false false;;
      f_ignoring (empty <- f_get (λ t, exists_at old_dir t && bool_decide (iterdir old_dir t = []));;
                  f_when empty (rmdir old_dir));;
      f_ret result.

Definition PLUGINS : pystr := u "plugins".
Definition PRE_MIGRATION : pystr := u "_pre_migration".
Definition move_plugins (staging_dir old_plugins_dir new_plugins_dir : path) (force : bool) : F step_result :=
  f_finally
    (as_step PLUGINS
       (mkdirs staging_dir;;
        there <- f_get (exists_at new_plugins_dir);;
        f_when there (backup_path <- _backup_file new_plugins_dir BAK;; copytree new_plugins_dir backup_path);;
        custom <- _migrate_plugin_tier (u "custom" :: old_plugins_dir) (u "custom" :: staging_dir) force;;
        community <- _migrate_plugin_tier (u "community" :: old_plugins_dir) (u "community" :: staging_dir) force;;
        (if custom.2 || community.2 then f_raise (OSError EOTHER None) else f_ret tt);;
        _finalize_move win32 staging_dir new_plugins_dir;;
        left <- f_get (exists_at old_plugins_dir);;
        f_when left
          (f_ignoring (backup_path <- _backup_file old_plugins_dir PRE_MIGRATION;; move old_plugins_dir backup_path));;
        f_ret (reported Move (Some old_plugins_dir) (Some new_plugins_dir))))
    (remove_staging staging_dir).

Definition migrate_plugins (legacy_roots : list path) (new_home : path) (dry_run force : bool) : F step_result :=
  let new_plugins_dir := PLUGINS :: new_home in
  old <- f_get (first_existing PLUGINS legacy_roots);;
  match old with
  | None => nothing_found _dir_has_entries new_plugins_dir
  | Some old_plugins_dir =>
      old_filled <- f_get (_dir_has_entries old_plugins_dir);;
      has_plugin_content <- f_get (λ t, existsb (λ plugin_type, _dir_has_entries (plugin_type :: new_plugins_dir) t)
                                          [u "custom"; u "community"; u "core"]);;
      if bool_decide (old_plugins_dir = new_plugins_dir) && old_filled then
        f_ret (reported AlreadyAtTarget (Some old_plugins_dir) (Some new_plugins_dir))
      else if has_plugin_content && negb force then
        f_ret (reported SkipForceRequired (Some old_plugins_dir) (Some new_plugins_dir))
      else if dry_run then f_ret (would_move (Some old_plugins_dir) (Some new_plugins_dir))
      else move_plugins (_get_staging_path new_home PLUGINS) old_plugins_dir new_plugins_dir force
  end.

(** ** The service file *)

(** What [setup_utils.py] finds: where the service file of the user is, whether it has to change, and
    the text of the new one, None without a template.  The reload of the daemon changes no file. *)
Record service := {
  user_service_path : path;
  service_needs_update : bool;
  service_content : option pystr;
}.

Definition create_service_file (sv : service) : F bool :=
  mkdirs (parent (user_service_path sv));;
  mkdirs (LOGS :: u ".mmrelay" :: user_home);;
  match service_content sv with
  | None => f_ret false
  | Some content => f_succeeds (write_text (user_service_path sv) content)
  end.

Definition service_result (ok : bool) (a : step_action) (backup : option path) : step_result :=
  StepResult ok (Some a) None None false [] [] backup.
Definition migrate_service (sv : service) (dry_run force : bool) : F step_result :=
  if win32 then f_ret (service_result true NotApplicable None) else
  there <- f_get (exists_at (user_service_path sv));;
  if negb there then f_ret (service_result true NotFound None)
  else if negb (service_needs_update sv) && negb force then f_ret (service_result true AlreadyUpToDate None)
  else if dry_run then f_ret (StepResult true (Some Update) None None true [] [] None)
  else
    backup_path <- _backup_file (user_service_path sv) (u ".service");;
    created <- create_service_file sv;;
    f_ret (if created : bool then service_result true Updated (Some backup_path)
           else service_result false ActionError None).
End data.

(** ** The greatest of a list *)

Lemma max_by_max {A : Type} (f : A → Z) l a : max_by f l = Some a → a ∈ l ∧ ∀ b, b ∈ l → f b ≤ f a.
Proof.
  revert a. induction l as [|b l IH]; intros a; cbn; [done|]. destruct (max_by f l) as [c|] eqn:Hc.
  - destruct (IH c eq_refl) as [Hin Hle].
    destruct (f b <? f c) eqn:Hlt; [apply Z.ltb_lt in Hlt|apply Z.ltb_ge in Hlt]; intros [= <-].
    + split; [by right|]. intros x [->|Hx]%elem_of_cons; [lia|by apply Hle].
    + split; [by left|]. intros x [->|Hx]%elem_of_cons; [lia|]. specialize (Hle x Hx). lia.
  - intros [= <-]. destruct l as [|c l]; [|by cbn in Hc; destruct (max_by f l); [case_match|]].
    split; [by left|]. intros x Hx%list_elem_of_singleton. subst. lia.
Qed.
Lemma max_by_some {A : Type} (f : A → Z) l a : a ∈ l → is_Some (max_by f l).
Proof. destruct l as [|b l]; [by intros ?%not_elem_of_nil|]. intros _. cbn. repeat case_match; by eexists. Qed.
