(* ===== verification/MigrateDatabase.v ===== *)
(** * No database is lost

    What the step of the database in [MigrateData.v] leaves of the files, whatever errors the file
    system raises: the sources stay until the copies of all of them are in place, and what was at the
    destination is in a backup before it is touched. *)

From Stdlib Require Import QArith String.
From stdpp Require Import base tactics numbers sets gmap list sorting.
From S2P Require Import Prelude PyStr PyValue PyLib NameSync MigrateFs Migrate MigrateData.
Open Scope Z_scope.

(** The names of a database and its sidecars. *)
Definition db_names : list pystr := DATABASE_FILENAME :: ((DATABASE_FILENAME ++.) <$> SQLITE_SIDECAR_SUFFIXES).

(** ** One move of a group of files *)

Section db.
Context (ok : pystr → Prop) (Hok : ok []).
Context (src newdb stg : path) (group : list path) (t0 : files).
#[local] Abbreviation bk d := (backup_path d BAK).
#[local] Abbreviation dest := (dest_of newdb).
#[local] Abbreviation staged := (staged_of stg).

Context (Hgroup : ∀ p, p ∈ group → ∃ n, n ∈ db_names ∧ p = n :: src).
Context (Hsrc_stg : ∀ n, n ∈ db_names → apart (n :: src) stg).
Context (Hsrc_dest : ∀ n m, n ∈ db_names → m ∈ db_names → apart (n :: src) (m :: newdb)).
Context (Hsrc_bk : ∀ n m s, n ∈ db_names → m ∈ db_names → ok s → apart (n :: src) (bk (m :: newdb) s)).
Context (Hdest_stg : ∀ n, n ∈ db_names → apart (n :: newdb) stg).
Context (Hbk_stg : ∀ m s, apart stg (bk (m :: newdb) s)).
Context (Hdest_bk : ∀ n m s, n ∈ db_names → apart (n :: newdb) (bk (m :: newdb) s)).
Context (Hbk_bk : ∀ n m s s', n ∈ db_names → m ∈ db_names → n ≠ m →
  apart (bk (n :: newdb) s) (bk (m :: newdb) s')).
Context (Hdirs : ∀ m s, ¬ bk (m :: newdb) s `suffix_of` stg ∧ ¬ bk (m :: newdb) s `suffix_of` newdb).
Context (Hdir_stg : ¬ stg `suffix_of` MIGRATION_BACKUP_DIRNAME :: newdb).
Context (Hfresh : ∀ m s, m ∈ db_names → ok s → clear (bk (m :: newdb) s) t0).
Context (Hclear : clear stg t0).

Lemma dest_apart n m : n ≠ m → apart (n :: newdb) (m :: newdb).
Proof. intros. by apply (apart_fork _ _ [] []). Qed.
Lemma staged_apart n m : n ≠ m → apart (n :: stg) (m :: stg).
Proof. intros. by apply (apart_fork _ _ [] []). Qed.
Lemma under_stg n q : n :: stg `suffix_of` q → stg `suffix_of` q.
Proof. apply suffix_cons_l. Qed.

Definition db_backed (m : pystr) (t : files) : Prop :=
  ∃ s, ok s ∧ lands (m :: newdb) (bk (m :: newdb) s) t0 t.
Definition all_backed (t : files) : Prop := ∀ m, m ∈ db_names → db_backed m t.
(** All but the staging area is as it was; or but that and the destination; or but the sources too. *)
Definition same_but_stg (t : files) : Prop := keeps (λ q, ¬ stg `suffix_of` q) t0 t.
Definition sources_kept (t : files) : Prop :=
  keeps (λ q, ¬ stg `suffix_of` q ∧ ∀ m, m ∈ db_names → ¬ m :: newdb `suffix_of` q) t0 t ∧ all_backed t.
Definition db_others (q : path) : Prop :=
  ¬ stg `suffix_of` q ∧ (∀ m, m ∈ db_names → ¬ m :: newdb `suffix_of` q) ∧ ∀ p, p ∈ group → ¬ p `suffix_of` q.
Definition all_placed (t : files) : Prop :=
  keeps db_others t0 t ∧ all_backed t ∧ ∀ p, p ∈ group → lands p (dest p) t0 t.

(** Where each file can be after the step, whatever has gone wrong. *)
Definition db_survives (t : files) : Prop :=
  keeps db_others t0 t ∧
  (∀ p r c, p ∈ group → t0 !! (r ++ p) = Some (File c) →
     t !! (r ++ p) = Some (File c) ∨ t !! (r ++ dest p) = Some (File c)) ∧
  (∀ m r c, m ∈ db_names → t0 !! (r ++ m :: newdb) = Some (File c) →
     t !! (r ++ m :: newdb) = Some (File c) ∨
     ∃ s, ok s ∧ t !! (r ++ bk (m :: newdb) s) = Some (File c)).

Lemma source_not_dest p r m : p ∈ group → m ∈ db_names → ¬ m :: newdb `suffix_of` r ++ p.
Proof. intros (n & Hn & ->)%Hgroup Hm. by apply apart_below, Hsrc_dest. Qed.
Lemma source_not_stg p r : p ∈ group → ¬ stg `suffix_of` r ++ p.
Proof. intros (n & Hn & ->)%Hgroup. by apply apart_below, Hsrc_stg. Qed.
Lemma dest_name p : p ∈ group → ∃ n, n ∈ db_names ∧ dest p = n :: newdb ∧ p = n :: src.
Proof. intros (n & Hn & ->)%Hgroup. by exists n. Qed.

Lemma same_survives t : same_but_stg t → db_survives t.
Proof.
  intros H. split_and!.
  - intros q c (Hq & _). by apply H.
  - intros p r c Hp Hr. left. apply H; [by apply source_not_stg|done].
  - intros m r c Hm Hr. left. apply H; [by apply apart_below, Hdest_stg|done].
Qed.
Lemma sources_survive t : sources_kept t → db_survives t.
Proof.
  intros [H Hb]. split_and!.
  - intros q c (? & ? & _). by apply H.
  - intros p r c Hp Hr. left. apply H; [|done]. split; [by apply source_not_stg|].
    intros m Hm. by apply source_not_dest.
  - intros m r c Hm Hr. right. destruct (Hb m Hm) as (s & Hs & Hl). eauto.
Qed.
Lemma placed_db_survives t : all_placed t → db_survives t.
Proof.
  intros (H & Hb & Hp). split_and!; [done| |].
  - intros p r c Hin Hr. right. by apply Hp.
  - intros m r c Hm Hr. right. destruct (Hb m Hm) as (s & Hs & Hl). eauto.
Qed.

Lemma all_backed_step (P : path → Prop) t t' : (∀ m s r, m ∈ db_names → ok s → P (r ++ bk (m :: newdb) s)) →
  keeps P t t' → all_backed t → all_backed t'.
Proof.
  intros HP Hk Hb m Hm. destruct (Hb m Hm) as (s & Hs & Hl). exists s. split; [done|].
  intros r c Hr. apply Hk; [by apply HP|]. by apply Hl.
Qed.
(** Changes of the staging area and the destination. *)
Definition movable (q : path) : Prop := ¬ stg `suffix_of` q ∧ ∀ m, m ∈ db_names → ¬ m :: newdb `suffix_of` q.
Lemma sources_step t t' : keeps movable t t' → sources_kept t → sources_kept t'.
Proof.
  intros Hk [H Hb]. split; [by eapply keeps_trans|].
  eapply all_backed_step; [|exact Hk|done]. intros m s r Hm Hs. split.
  - by apply apart_below, apart_sym.
  - intros m' Hm'. by apply apart_below, apart_sym, Hdest_bk.
Qed.

(** ** Backups *)

Definition backing_up (ds : list path) (t : files) : Prop :=
  same_but_stg t ∧ (∀ m, m ∈ db_names → m :: newdb ∉ ds → db_backed m t) ∧
  (∀ m s, m ∈ db_names → m :: newdb ∈ ds → ok s → clear (bk (m :: newdb) s) t) ∧ ∀ n, clear (n :: stg) t.

Lemma same_mono t t' : keeps (λ _, True) t t' → same_but_stg t → same_but_stg t'.
Proof. intros Hk H q c Hq Hin. apply Hk; [done|]. by apply H. Qed.
Lemma backed_mono m t t' : keeps (λ _, True) t t' → db_backed m t → db_backed m t'.
Proof. intros Hk (s & Hs & Hl). exists s. split; [done|]. intros r c Hr. apply Hk; [done|]. by apply Hl. Qed.

Lemma backing_up_dirs ds : triple ok (backing_up ds) (mkdirs (MIGRATION_BACKUP_DIRNAME :: newdb))
  (λ _, backing_up ds) same_but_stg.
Proof.
  eapply triple_post; [apply triple_mkdirs|by intros a t Ht; exact Ht|by intros t [? _]].
  intros t t' (H & Hb & Hc & Hst) Hk Hcl. split_and!; [by eapply same_mono|intros; eapply backed_mono; eauto| |].
  - intros m s Hm Hin Hs. apply Hcl; [|by apply Hc].
    intros [r Hr]. apply (f_equal length) in Hr. rewrite length_app in Hr. unfold backup_path in Hr.
    cbn in Hr. lia.
  - intros n. apply Hcl; [|done]. intros ?%under_stg. by destruct Hdir_stg.
Qed.

Lemma staged_bk n m s : apart (n :: stg) (bk (m :: newdb) s).
Proof.
  destruct (Hbk_stg m s) as [H1 H2]. split; [by intros ?%under_stg|].
  intros [[|x r] Heq]; cbn in Heq.
  - apply H1. rewrite <- Heq. by apply suffix_cons_r.
  - injection Heq as _ Heq. apply H2. by exists r.
Qed.
(** One backup is made in full and hits no other. *)
Lemma backing_up_step m ds t t' s : m ∈ db_names → m :: newdb ∉ ds → ok s →
  backing_up ((m :: newdb) :: ds) t → keeps (λ _, True) t t' → lands (m :: newdb) (bk (m :: newdb) s) t t' →
  (∀ p, apart p (bk (m :: newdb) s) → clear p t → clear p t') → backing_up ds t'.
Proof.
  intros Hm Hds Hs (H & Hb & Hc & Hst) Hk Hl Hcl. split_and!; [by eapply same_mono| | |].
  - intros n Hn Hin. destruct (decide (n = m)) as [->|Hne].
    + exists s. split; [done|]. intros r c Hr. apply Hl, H; [by apply apart_below, Hdest_stg|done].
    + eapply backed_mono; [done|]. apply Hb; [done|]. rewrite not_elem_of_cons. split; [congruence|done].
  - intros n s' Hn Hin Hs'. apply Hcl; [|apply Hc; [done|by right|done]].
    apply Hbk_bk; [done|done|]. by intros ->.
  - intros n. apply Hcl; [|done]. apply staged_bk.
Qed.
Lemma backing_up_absent m ds t : m ∈ db_names → exists_at (m :: newdb) t = false →
  backing_up ((m :: newdb) :: ds) t → backing_up ds t.
Proof.
  intros Hm Hn (H & Hb & Hc & Hst). split_and!; [done| | |done].
  - intros n Hnn Hin. destruct (decide (n = m)) as [->|Hne].
    + exists []. split; [done|]. intros r c Hr. apply H in Hr; [|by apply apart_below, Hdest_stg].
      by rewrite (clear_lookup _ _ _ Hn) in Hr.
    + apply Hb; [done|]. rewrite not_elem_of_cons. split; [congruence|done].
  - intros n s Hnn Hin Hs. apply Hc; [done|by right|done].
Qed.

Lemma copy_clear p s d t t' : clear d t → copy_file s d t = Some t' → apart p d → clear p t → clear p t'.
Proof.
  unfold copy_file. intros Hd. rewrite (clear_into _ _ _ Hd). case_match; [|done]. intros [= <-] Ha Hp.
  by apply graft_clear, outside_clear.
Qed.
Lemma copy_tree_clear p s d t t' : copy_tree s d t = Some t' → apart p d → clear p t → clear p t'.
Proof.
  unfold copy_tree. case_match; [|done]. destruct (make_dirs _ t) eqn:Hm; [|done]. intros [= <-] Ha Hp.
  apply graft_clear; [done|]. eapply make_dirs_clear; [done|by apply parent_dirs|done].
Qed.

Lemma triple_back_up_db (folder : bool) m ds b : m ∈ db_names → m :: newdb ∉ ds →
  triple ok (λ t, (∃ s, ok s ∧ b = bk (m :: newdb) s) ∧ backing_up ((m :: newdb) :: ds) t)
    (if folder then copytree (m :: newdb) b else copy2 (m :: newdb) b)
    (λ _, backing_up ds) same_but_stg.
Proof.
  intros Hm Hds. apply triple_assume. intros (s & Hs & ->).
  assert (∀ t, backing_up ((m :: newdb) :: ds) t → clear (bk (m :: newdb) s) t) as Hbc.
  { intros t (_ & _ & Hc & _). apply Hc; [done|by left|done]. }
  destruct folder; apply triple_attempt.
  - intros t t' Ht Hw. pose proof (copy_tree_spec _ _ _ _ Hw) as [??].
    eapply backing_up_step; [done..|]. intros p. by eapply copy_tree_clear.
  - by intros t [? _] _.
  - intros t mk _ Ht. case_match; [by destruct Ht|]. eapply same_mono; [by apply copied_part_keeps|by destruct Ht].
  - intros t t' Ht Hw. pose proof (copy_file_spec _ _ _ _ (Hbc t Ht) Hw) as [??].
    eapply backing_up_step; [done..|]. intros p. eapply copy_clear; [by apply Hbc|done].
  - by intros t [? _] _.
  - intros t mk _ Ht. rewrite clear_into by by apply Hbc.
    eapply same_mono; [by apply copied_part_keeps, Hbc|by destruct Ht].
Qed.

Lemma triple_backup_name m ds :
  triple ok (backing_up ((m :: newdb) :: ds)) (_backup_file (m :: newdb) BAK)
    (λ b t, (∃ s, ok s ∧ b = bk (m :: newdb) s) ∧ backing_up ((m :: newdb) :: ds) t) same_but_stg.
Proof.
  unfold _backup_file. eapply triple_seq; [apply (triple_now ok Hok)|]. intros s. apply triple_assume. intros Hs.
  eapply triple_seq; [apply backing_up_dirs|]. intros [].
  eapply triple_post; [apply (triple_done ok _ (backing_up ((m :: newdb) :: ds)) same_but_stg)| |done].
  intros b t [-> Ht]. split; [by exists s|done].
Qed.

Lemma triple_backups ds : (∀ d, d ∈ ds → ∃ m, m ∈ db_names ∧ d = m :: newdb) → NoDup ds →
  triple ok (backing_up ds) (back_up_each group ds) (λ _ t, same_but_stg t ∧ all_backed t ∧ ∀ n, clear (n :: stg) t) same_but_stg.
Proof.
  induction ds as [|d ds IH]; intros Hds Hnd.
  { intros k Hk (H & Hb & _ & Hst). split; [done|]. split_and!; [done| |done].
    intros m Hm. apply Hb; [done|]. apply not_elem_of_nil. }
  apply NoDup_cons in Hnd as [Hd Hnd]. destruct (Hds d) as (m & Hm & ->); [by left|].
  specialize (IH (λ d' Hd', Hds d' (list_elem_of_further _ _ _ Hd')) Hnd). cbn [back_up_each].
  eapply triple_seq; [apply (triple_get ok)|]. intros there.
  assert (existsb (λ p, bool_decide (p = m :: newdb)) group = false) as ->.
  { apply not_true_iff_false. rewrite existsb_elem_of. intros (p & Hp & Heq%bool_decide_eq_true).
    apply (source_not_dest p [] m Hp Hm). by subst. }
  destruct there; cbn [orb negb].
  - eapply triple_pre; [|intros t [_ Ht]; exact Ht].
    eapply triple_seq; [apply triple_backup_name|].
    intros b. eapply triple_seq; [apply (triple_get ok)|]. intros folder.
    eapply triple_pre; [|intros t [_ Ht]; exact Ht].
    eapply triple_seq; [by apply triple_back_up_db|]. intros [].
    eapply triple_seq; [apply IH|]. intros rest k Hk Ht. done.
  - eapply triple_pre; [apply IH|]. intros t [Hn Ht]. by eapply backing_up_absent.
Qed.

(** ** Staging *)

Definition staging (done : list path) (t : files) : Prop :=
  same_but_stg t ∧ all_backed t ∧ (∀ n, n ∈ db_names → is_dir (n :: stg) t = false) ∧
  ∀ p, p ∈ done → lands p (staged p) t0 t.

Lemma backed_outside_stg t t' : keeps (λ q, ¬ stg `suffix_of` q) t t' → all_backed t → all_backed t'.
Proof.
  apply all_backed_step. intros m s r Hm Hs. by apply apart_below, apart_sym, Hbk_stg.
Qed.
Lemma same_outside_stg t t' : keeps (λ q, ¬ stg `suffix_of` q) t t' → same_but_stg t → same_but_stg t'.
Proof. intros Hk H q c Hq Hin. apply Hk; [done|]. by apply H. Qed.

(** A copy to what is not a folder. *)
Lemma copy_file_to s d t t' : is_dir d t = false → copy_file s d t = Some t' →
  keeps (λ q, ¬ d `suffix_of` q) t t' ∧ lands s d t t' ∧ is_dir d t' = false ∧
  ∀ p, apart p d → is_dir p t = false → is_dir p t' = false.
Proof.
  unfold copy_file, into. intros Hd. rewrite Hd. destruct (is_file s t && _ && _ && _) eqn:Hg; [|done]. bool_prop.
  intros [= <-]. split_and!; [|apply graft_lands| |].
  - intros q c Hq Hin. apply graft_keeps; [done|]. by apply lookup_outside.
  - apply not_true_iff_false. intros [_ Hf]%is_dir_true. apply not_true_iff_false in Hf. apply Hf.
    match goal with H : is_file s t = true |- _ => apply is_file_true in H as [c Hc] end.
    apply is_file_true. exists c. apply (graft_lands s d t _ [] c). done.
  - intros p Ha Hp. apply not_true_iff_false. intros [He Hf]%is_dir_true. apply not_true_iff_false in Hf.
    assert (∀ r, (graft s d t ∪ outside d t) !! (r ++ p) = t !! (r ++ p)) as Hsame.
    { intros r. pose proof (apart_below p d r Ha) as Hr. apply option_eq. intros n.
      rewrite lookup_union_Some_raw, lookup_graft, lookup_outside. split.
      - intros [(r' & Heq & _)|[_ [? _]]]; [destruct Hr; by exists r'|done].
      - intros Hn. right. split; [|done]. apply eq_None_not_Some. intros [n' (r' & Heq & _)%lookup_graft].
        destruct Hr. by exists r'. }
    apply not_true_iff_false in Hp. apply Hp, is_dir_true. split.
    + apply exists_at_true in He as (r & n & Hr). rewrite Hsame in Hr. apply exists_at_true. eauto.
    + apply not_true_iff_false. intros [c Hc]%is_file_true. apply Hf, is_file_true. exists c.
      pose proof (Hsame []) as Hs0. cbn [app] in Hs0. by rewrite Hs0.
Qed.

Lemma not_in_place_group p (m : F unit) : p ∈ group → not_in_place newdb p m = m.
Proof.
  intros Hp. unfold not_in_place. rewrite bool_decide_eq_false_2; [done|].
  intros Heq. destruct (dest_name p Hp) as (n & Hn & Hd & ->). rewrite Hd in Heq.
  destruct (Hsrc_dest n n Hn Hn) as [[] _]. by rewrite Heq.
Qed.

Lemma triple_stage_file done p : p ∈ group → (∀ q, q ∈ done → q ∈ group) →
  triple ok (staging done) (stage_file newdb stg p) (λ _, staging (done ++ [p])) same_but_stg.
Proof.
  intros Hp Hdone. unfold stage_file. rewrite not_in_place_group by done.
  destruct (dest_name p Hp) as (n & Hn & _ & Heq).
  assert (staged p = n :: stg) as Hst by (by rewrite Heq). rewrite Hst.
  apply triple_attempt.
  - intros t t' (H & Hb & Hdir & Hl) Hw. apply copy_file_to in Hw as (Hk & Hland & Hd & Ho); [|by apply Hdir].
    assert (keeps (λ q, ¬ stg `suffix_of` q) t t') as Hks.
    { intros q c Hq. apply Hk. by intros ?%under_stg. }
    split_and!; [by eapply same_outside_stg|by eapply backed_outside_stg| |].
    + intros n' Hn'. destruct (decide (n' = n)) as [->|Hne]; [done|]. by apply Ho; [apply staged_apart|apply Hdir].
    + intros q Hq. destruct (decide (q = p)) as [->|Hne].
      * rewrite Hst. intros r c Hr. apply Hland, H; [by apply source_not_stg|done].
      * apply elem_of_app in Hq as [Hq|Hq%list_elem_of_singleton]; [|done].
        intros r c Hr. apply Hk; [|by apply Hl].
        destruct (dest_name q (Hdone q Hq)) as (n' & _ & _ & Heq'). rewrite Heq'.
        apply (apart_below (n' :: stg) (n :: stg)), staged_apart. intros ->. by rewrite Heq, Heq' in Hne.
  - by intros t [? _] _.
  - intros t m _ (H & Hb & Hdir & Hl). unfold into. rewrite Hdir by done.
    eapply same_outside_stg; [|done]. intros q c Hq Hin. unfold copied_part. rewrite lookup_union_r; [done|].
    rewrite map_lookup_zip_with. destruct (graft p (n :: stg) t !! q) eqn:Hg; [|done].
    apply lookup_graft in Hg as (r & -> & _). destruct Hq. apply (under_stg n). by exists r.
Qed.

(** ** Placing *)

Definition staged_or_gone (t : files) : Prop :=
  ∀ p, p ∈ group → lands p (staged p) t0 t ∨ clear (staged p) t.
Definition placing (done : list path) (t : files) : Prop :=
  sources_kept t ∧ (∀ p, p ∈ done → lands p (dest p) t0 t) ∧ staged_or_gone t.
Definition dest_cleared (p : path) (done : list path) (t : files) : Prop :=
  sources_kept t ∧ (∀ q, q ∈ done → q ≠ p → lands q (dest q) t0 t) ∧ staged_or_gone t ∧ clear (dest p) t.

Lemma movable_dest n t t' : n ∈ db_names → keeps (λ q, ¬ n :: newdb `suffix_of` q) t t' → keeps movable t t'.
Proof. intros Hn Hk q c [_ Hq]. apply Hk. auto. Qed.
Lemma movable_staged n t t' : keeps (λ q, ¬ n :: stg `suffix_of` q) t t' → keeps movable t t'.
Proof. intros Hk q c [Hq _]. apply Hk. by intros ?%under_stg. Qed.
Lemma staged_dest n m : m ∈ db_names → apart (n :: stg) (m :: newdb).
Proof.
  intros Hm. destruct (Hdest_stg m Hm) as [H1 H2]. split.
  - by intros ?%under_stg.
  - intros H. destruct H as [[|x r] Heq]; cbn in Heq.
    + injection Heq as _ Heq. apply H2. rewrite <- Heq. by apply suffix_cons_r.
    + injection Heq as _ Heq. apply H1. by exists r.
Qed.

Lemma triple_unlink_dest done p : p ∈ group → (∀ q, q ∈ done → q ∈ group) →
  triple ok (placing done) (unlink (dest p)) (λ _, dest_cleared p done) db_survives.
Proof.
  intros Hp Hdone. destruct (dest_name p Hp) as (n & Hn & -> & Heq). apply triple_attempt.
  - intros t t' (Hs & Hd & Hst) ->%unlink_file_spec. split_and!; [| | |rewrite Heq; apply exists_at_outside].
    + eapply sources_step; [|done]. eapply movable_dest, outside_keeps. done.
    + intros q Hq Hne r c Hr. apply lookup_outside. split; [by apply (Hd q Hq)|].
      destruct (dest_name q (Hdone q Hq)) as (n' & Hn' & -> & Heq'). apply apart_below, dest_apart.
      intros ->. by rewrite Heq, Heq' in Hne.
    + intros q Hq. destruct (dest_name q Hq) as (n' & Hn' & _ & Heq').
      destruct (Hst q Hq) as [Hl|Hc]; [left|right; by apply outside_clear].
      intros r c Hr. apply lookup_outside. split; [by apply Hl|]. rewrite Heq'. by apply apart_below, staged_dest.
  - intros t (Hs & _) _. by apply sources_survive.
  - intros t _ _ (Hs & _). by apply sources_survive.
Qed.

Lemma triple_move_db done p : p ∈ group → (∀ q, q ∈ done → q ∈ group) →
  triple ok (dest_cleared p done) (move (staged p) (dest p)) (λ _, placing (done ++ [p])) db_survives.
Proof.
  intros Hp Hdone. destruct (dest_name p Hp) as (n & Hn & Hd & Heq).
  assert (staged p = n :: stg) as Hst by (by rewrite Heq). unfold dest_cleared. rewrite Hd, Hst.
  pose proof (staged_dest n n Hn) as Ha. apply triple_attempt.
  - intros t t' (Hs & Hl & Hg & Hc) Hm. pose proof (move_path_clear) as Hmc.
    pose proof (move_path_spec _ _ _ _ Hc Ha Hm) as (Hk & Hland & Hgone). split_and!.
    + eapply sources_step; [|done]. by eapply movable_staged.
    + intros q Hq. destruct (decide (q = p)) as [->|Hne].
      * rewrite Hd. intros r c Hr. apply Hland. destruct (Hg p Hp) as [Hlp|Hcp].
        -- rewrite Hst in Hlp. by apply Hlp.
        -- exfalso. rewrite Hst in Hcp. unfold move_path in Hm. unfold clear in Hcp. rewrite !Hcp in Hm. cbn [negb] in Hm.
           destruct (bool_decide (n :: stg = n :: newdb)); done.
      * apply elem_of_app in Hq as [Hq|Hq%list_elem_of_singleton]; [|done].
        intros r c Hr. apply Hk; [|by apply (Hl q Hq Hne)].
        destruct (dest_name q (Hdone q Hq)) as (n' & Hn' & -> & _). by apply apart_below, apart_sym, staged_dest.
    + intros q Hq. destruct (dest_name q Hq) as (n' & Hn' & _ & Heq').
      destruct (decide (n' = n)) as [->|Hne]; [right; by rewrite Heq'|].
      destruct (Hg q Hq) as [Hlq|Hcq]; [left|right]; rewrite Heq' in *.
      * intros r c Hr. apply Hk; [by apply (apart_below (n' :: stg)), staged_apart|by apply Hlq].
      * eapply Hmc; [exact Hc|by apply (staged_dest n')|done|done].
  - intros t (Hs & _) _. by apply sources_survive.
  - intros t mk late (Hs & _ & _ & Hc). cbn zeta. rewrite (clear_into _ _ _ Hc).
    do 2 (case_match; [by apply sources_survive|]).
    apply sources_survive. eapply sources_step; [|done].
    destruct (move_broken_spec _ _ mk late t Hc Ha) as [Hk|[Hk _]]; [intros q c _; by apply Hk|].
    by eapply movable_staged.
Qed.

Lemma triple_place_file done p : p ∈ group → (∀ q, q ∈ done → q ∈ group) →
  triple ok (placing done) (place_file false newdb stg p) (λ _, placing (done ++ [p])) db_survives.
Proof.
  intros Hp Hdone. unfold place_file. rewrite not_in_place_group by done.
  eapply triple_seq; [apply (triple_get ok)|]. intros there.
  apply (triple_seq ok _ _ _ (λ _, dest_cleared p done)).
  - apply triple_when.
    + intros _. eapply triple_pre; [|intros t [_ Ht]; exact Ht]. by apply triple_retry, triple_unlink_dest.
    + intros -> t [Hn (Hs & Hd & Hst)]. split_and!; [done| |done|done]. intros q Hq _. by apply Hd.
  - intros []. by apply triple_retry, triple_move_db.
Qed.

(** ** Removing what is left *)

Lemma placed_step d t t' : (d ∈ group ∨ ∃ m, m ∈ db_names ∧ d = m :: newdb ∧ ∀ p, p ∈ group → name p ≠ m) →
  keeps (λ q, ¬ d `suffix_of` q) t t' → all_placed t → all_placed t'.
Proof.
  intros Hd Hk (H & Hb & Hp). split_and!.
  - intros q c (Hs & Hm & Hg) Hin. apply Hk; [|by apply H].
    destruct Hd as [Hd|(m & Hmm & -> & _)]; [by apply Hg|by apply Hm].
  - eapply all_backed_step; [|exact Hk|done]. intros m s r Hm Hs.
    destruct Hd as [(n & Hn & ->)%Hgroup|(m' & Hm' & -> & _)]; apply apart_below, apart_sym; [by apply Hsrc_bk|by apply Hdest_bk].
  - intros p Hin r c Hr. apply Hk; [|by apply Hp].
    destruct (dest_name p Hin) as (n & Hn & -> & Heq).
    destruct Hd as [(n' & Hn' & ->)%Hgroup|(m' & Hm' & -> & Hne)].
    + by apply apart_below, apart_sym, Hsrc_dest.
    + apply apart_below, dest_apart. intros ->. apply (Hne p Hin). by rewrite Heq.
Qed.
Lemma placed_stg t t' : keeps (λ q, ¬ stg `suffix_of` q) t t' → all_placed t → all_placed t'.
Proof.
  intros Hk (H & Hb & Hp). split_and!; [| by eapply backed_outside_stg|].
  - intros q c Hq Hin. apply Hk; [by destruct Hq|]. by apply H.
  - intros p Hin r c Hr. apply Hk; [|by apply Hp]. destruct (dest_name p Hin) as (n & Hn & -> & _).
    by apply apart_below, Hdest_stg.
Qed.

Lemma triple_delete_source p : p ∈ group → triple ok all_placed (delete_source newdb p) (λ _, all_placed) all_placed.
Proof.
  intros Hp. unfold delete_source. rewrite not_in_place_group by done. unfold f_ignoring.
  eapply triple_handle; [apply triple_attempt|].
  - intros t t' Ht ->%unlink_file_spec. eapply placed_step; [by left|apply outside_keeps|done].
  - intros t Ht _. exact Ht.
  - intros t _ _ Ht. exact Ht.
  - intros e k Hk Ht. by destruct (is_os_error e).
Qed.

Lemma triple_remove_stale d : (∃ m, m ∈ db_names ∧ d = m :: newdb) →
  triple ok all_placed (remove_stale false (name <$> group) d) (λ _, all_placed) all_placed.
Proof.
  intros (m & Hm & ->). unfold remove_stale. eapply triple_seq; [apply (triple_get ok)|]. intros there.
  eapply triple_pre; [|intros t [_ Ht]; exact Ht].
  destruct (negb there || _) eqn:Hc; [by intros k ??|]. bool_prop.
  assert (∀ p, p ∈ group → name p ≠ m) as Hne.
  { intros p Hp <-. match goal with H : ¬ (name _ ∈ _) |- _ => apply H end. cbn. by apply list_elem_of_fmap_2. }
  assert (∀ t t', keeps (λ q, ¬ m :: newdb `suffix_of` q) t t' → all_placed t → all_placed t') as Hstep.
  { intros t t'. apply placed_step. right. by exists m. }
  eapply triple_seq; [apply (triple_get ok)|]. intros folder.
  eapply triple_pre; [|intros t [_ Ht]; exact Ht].
  apply triple_retry. destruct folder; apply triple_attempt; try done.
  - intros t t' Ht ->%rm_tree_spec. eapply Hstep; [apply outside_keeps|done].
  - intros t mk _ Ht. eapply Hstep; [apply removed_part_keeps|done].
  - intros t t' Ht ->%unlink_file_spec. eapply Hstep; [apply outside_keeps|done].
Qed.

(** ** The whole move *)

Definition db_start (t : files) : Prop :=
  same_but_stg t ∧ (∀ m s, m ∈ db_names → ok s → clear (bk (m :: newdb) s) t) ∧ ∀ n, clear (n :: stg) t.

Lemma sidecars_named d t p : name d = DATABASE_FILENAME → p ∈ _collect_db_sidecars d t →
  ∃ n, n ∈ db_names ∧ p = n :: parent d.
Proof.
  intros Hd [_ (suffix & -> & Hs)%list_elem_of_fmap]%list_elem_of_filter. rewrite Hd. eexists. split; [|done].
  right. apply list_elem_of_fmap. eauto.
Qed.

Lemma start_backing ds t : db_start t →
  (∀ m, m ∈ db_names → m :: newdb ∉ ds → exists_at (m :: newdb) t = false) → backing_up ds t.
Proof.
  intros (H & Hc & Hst) Hds. split_and!; [done| |auto|done].
  intros m Hm Hin. exists []. split; [done|]. intros r c Hr. apply H in Hr; [|by apply apart_below, Hdest_stg].
  by rewrite (clear_lookup _ _ _ (Hds m Hm Hin)) in Hr.
Qed.

Lemma elem_of_sorted p ps : p ∈ sorted_by_name ps ↔ p ∈ ps.
Proof. unfold sorted_by_name. by rewrite merge_sort_Permutation, elem_of_remove_dups. Qed.
Lemma NoDup_sorted ps : NoDup (sorted_by_name ps).
Proof. unfold sorted_by_name. rewrite merge_sort_Permutation. apply NoDup_remove_dups. Qed.

(** What is backed up: all names of a database that are at the destination. *)
Lemma start_dests t : db_start t →
  let dg := (DATABASE_FILENAME :: newdb) :: _collect_db_sidecars (DATABASE_FILENAME :: newdb) t in
  let ds := sorted_by_name ((dest <$> group) ++ dg) in
  (∀ d, d ∈ ds → ∃ m, m ∈ db_names ∧ d = m :: newdb) ∧ (∀ d, d ∈ dg → ∃ m, m ∈ db_names ∧ d = m :: newdb) ∧
  backing_up ds t.
Proof.
  intros Ht dg ds. assert (∀ d, d ∈ dg → ∃ m, m ∈ db_names ∧ d = m :: newdb) as Hdg.
  { intros d [->|Hd]%elem_of_cons; [eexists; split; [by left|done]|]. by eapply sidecars_named in Hd. }
  split_and!; [|done|apply start_backing; [done|]].
  - intros d [Hd|Hd]%elem_of_sorted%elem_of_app; [|by apply Hdg].
    apply list_elem_of_fmap in Hd as (p & -> & Hp). destruct (dest_name p Hp) as (n & Hn & -> & _). by exists n.
  - intros m Hm Hds. apply not_true_iff_false. intros He. apply Hds, elem_of_sorted, elem_of_app. right.
    apply elem_of_cons in Hm as [->|(suffix & -> & Hs)%list_elem_of_fmap]; [by left|right].
    apply list_elem_of_filter. split; [done|]. by apply (list_elem_of_fmap_2 (λ suffix, (DATABASE_FILENAME ++ suffix) :: newdb)).
Qed.

Lemma triple_stage_group :
  triple ok (λ t, same_but_stg t ∧ all_backed t ∧ ∀ n, clear (n :: stg) t) (f_each (stage_file newdb stg) group)
    (λ _, staging group) db_survives.
Proof.
  eapply triple_pre; [eapply triple_post; [apply (triple_each_acc ok _ staging group same_but_stg)| |apply same_survives]|].
  - intros done p rest Heq. apply triple_stage_file; [rewrite Heq; set_solver|]. intros q Hq. rewrite Heq. set_solver.
  - by intros a t Ht.
  - intros t (H & Hb & Hst). split_and!; [done|done| |by intros p ?%not_elem_of_nil].
    intros n _. apply clear_is_dir, Hst.
Qed.
Lemma triple_check integrity_ok m : triple ok (staging group) (check_staged integrity_ok stg m) (λ _, staging group) db_survives.
Proof.
  unfold check_staged. case_match; [by intros k ??|].
  eapply triple_seq; [apply (triple_get ok)|]. intros sound.
  destruct sound; intros k Hk [_ Ht]; [done|]. split; [done|]. apply same_survives. apply Ht.
Qed.
Lemma triple_dest_dir : triple ok (staging group) (mkdirs newdb) (λ _, placing []) db_survives.
Proof.
  eapply triple_conseq; [apply (triple_mkdirs ok newdb
    (λ t, same_but_stg t ∧ all_backed t ∧ ∀ p, p ∈ group → lands p (staged p) t0 t))| | |].
  - intros t t' (H & Hb & Hl) Hk _. split_and!; [by eapply same_mono|by intros m Hm; eapply backed_mono; eauto|].
    intros p Hp r c Hr. apply Hk; [done|]. by apply Hl.
  - by intros t (H & Hb & _ & Hl).
  - intros [] t (H & Hb & Hl). split_and!; [split; [|done]|by intros p ?%not_elem_of_nil|intros p Hp; left; auto].
    intros q c [Hq _]. by apply H.
  - intros t (H & _). by apply same_survives.
Qed.
Lemma triple_place_group :
  triple ok (placing []) (f_each (place_file false newdb stg) group) (λ _, all_placed) db_survives.
Proof.
  eapply triple_post; [apply (triple_each_acc ok _ placing group db_survives)| |done].
  - intros done p rest Heq. apply triple_place_file; [rewrite Heq; set_solver|]. intros q Hq. rewrite Heq. set_solver.
  - intros [] t ((H & Hb) & Hl & _). split_and!; [|done|done]. intros q c (Hs & Hm & _). by apply H.
Qed.
Lemma triple_delete_all :
  triple ok all_placed (f_each (delete_source newdb) group) (λ _, all_placed) db_survives.
Proof.
  eapply triple_post; [apply triple_each; intros p Hp; by apply triple_delete_source| |apply placed_db_survives]. done.
Qed.
Lemma triple_remove_all dg : (∀ d, d ∈ dg → ∃ m, m ∈ db_names ∧ d = m :: newdb) →
  triple ok all_placed (f_each (remove_stale false (name <$> group)) dg) (λ _, all_placed) db_survives.
Proof.
  intros Hdg. eapply triple_post; [apply triple_each; intros d Hd; by apply triple_remove_stale, Hdg| |apply placed_db_survives].
  done.
Qed.
Lemma triple_remove_staging (P : step_result → Prop) r b :
  triple ok (λ t, P r ∧ all_placed t) (there <- f_get (exists_at stg);; f_when (b && there) (rmtree_ignoring stg))
    (λ _ t, P r ∧ all_placed t) db_survives.
Proof.
  eapply triple_seq; [apply (triple_get ok)|]. intros there.
  eapply triple_pre; [|intros t [_ Ht]; exact Ht]. apply triple_when; [|done].
  intros _. eapply triple_handle; [apply triple_attempt|].
  - intros t t' [HP Ht] ->%rm_tree_spec. split; [done|]. eapply placed_stg; [apply outside_keeps|done].
  - intros t Ht _. exact Ht.
  - intros t m _ [HP Ht]. split; [done|]. eapply placed_stg; [apply removed_part_keeps|done].
  - intros e k Hk Ht. done.
Qed.

Lemma triple_move_database integrity_ok :
  triple ok (λ t, t = t0) (move_database false integrity_ok newdb stg (DATABASE_FILENAME :: src) group)
    (λ r t, (moves r = true ∧ old_path r = Some (DATABASE_FILENAME :: src)) ∧ all_placed t) db_survives.
Proof.
  unfold move_database. apply (triple_pre ok _ _ db_start).
  2: { intros t ->. split_and!; [by intros q c _ Hq|auto|]. intros n. apply exists_at_false. intros r.
       apply (clear_suffix stg); [done|]. apply (under_stg n). by exists r. }
  eapply triple_finally; [apply triple_as_step| |].
  - apply (triple_seq ok _ _ _ (λ _, db_start)).
    { eapply triple_post; [apply triple_mkdirs|by intros a t Ht; exact Ht|intros t (H & _); by apply same_survives].
      intros t t' (H & Hc & Hst) Hk Hcl. split_and!; [by eapply same_mono| |].
      - intros m s Hm Hs. apply Hcl; [apply Hdirs|by apply Hc].
      - intros n. apply Hcl; [|done]. apply suffix_cons_not. }
    intros []. cbv zeta. eapply triple_seq; [apply (triple_get ok)|]. intros dg.
    apply (triple_pre ok _ _ (λ t, (∀ d, d ∈ dg → ∃ m, m ∈ db_names ∧ d = m :: newdb) ∧
      (∀ d, d ∈ sorted_by_name ((dest <$> group) ++ dg) → ∃ m, m ∈ db_names ∧ d = m :: newdb) ∧
      backing_up (sorted_by_name ((dest <$> group) ++ dg)) t)).
    2: { intros t [-> Ht]. destruct (start_dests t Ht) as (? & ? & ?). done. }
    apply triple_assume. intros Hdg. apply triple_assume. intros Hds.
    eapply triple_seq; [eapply triple_post;
      [by apply triple_backups, NoDup_sorted|by intros a t Ht; exact Ht|apply same_survives]|].
    intros backed_up. eapply triple_seq; [apply triple_stage_group|].
    intros []. eapply triple_seq; [apply triple_check|].
    intros []. eapply triple_seq; [apply triple_dest_dir|].
    intros []. eapply triple_seq; [apply triple_place_group|].
    intros []. eapply triple_seq; [by apply triple_delete_all|].
    intros []. eapply triple_seq; [by apply triple_remove_all|].
    intros []. eapply triple_seq; [apply (triple_get ok)|]. intros migrated k Hk [_ Ht]. done.
  - intros r. apply (triple_remove_staging (λ r, moves r = true ∧ old_path r = Some (DATABASE_FILENAME :: src))).
  - eapply triple_seq; [apply (triple_get ok)|]. intros there. cbn [andb f_when].
    intros k Hk [_ Ht]. done.
Qed.
End db.

(** ** The whole step *)

Lemma base_of_name n (d : path) : n ∈ db_names → _get_db_base_path (n :: d) = DATABASE_FILENAME :: d.
Proof.
  unfold db_names. cbn [fmap list_fmap SQLITE_SIDECAR_SUFFIXES].
  rewrite !elem_of_cons, elem_of_nil. by intros [->|[->|[->|[->|[]]]]].
Qed.

(** The legacy databases: under each root the step comes to the root itself, [data] and
    [database], until one of them is the destination. *)
Definition db_dirs (root : path) : list path := [root; u "data" :: root; u "database" :: root].
Definition comes_to (newdb root d : path) (t : files) : Prop :=
  root ≠ newdb ∧ d ≠ newdb ∧
  (d = root ∨ d = u "data" :: root ∨
   d = u "database" :: root ∧ (u "data" :: root = newdb → exists_at newdb t = false)).
Definition legacy_db (newdb : path) (roots : list path) (t : files) (d : path) : Prop :=
  exists_at (DATABASE_FILENAME :: d) t = true ∧ ∃ root, root ∈ roots ∧ comes_to newdb root d t.

(** The files of the database in [d]. *)
Definition database_at (d : path) (t : files) : list path :=
  filter (λ p, exists_at p t = true) ((λ n, n :: d) <$> db_names).

Lemma elem_of_database_at d t p : p ∈ database_at d t ↔ ∃ n, n ∈ db_names ∧ p = n :: d ∧ exists_at p t = true.
Proof.
  unfold database_at. rewrite list_elem_of_filter, list_elem_of_fmap. naive_solver.
Qed.

Lemma elem_of_found d t p :
  p ∈ (if exists_at (DATABASE_FILENAME :: d) t
       then (DATABASE_FILENAME :: d) :: _collect_db_sidecars (DATABASE_FILENAME :: d) t else []) ↔
  exists_at (DATABASE_FILENAME :: d) t = true ∧ p ∈ database_at d t.
Proof.
  rewrite elem_of_database_at. destruct (exists_at _ t) eqn:He; [|by split; [intros ?%not_elem_of_nil|intros [??]]].
  rewrite elem_of_cons. split.
  - intros [->|Hp]; (split; [done|]); [exists DATABASE_FILENAME; split; [by left|done]|].
    pose proof Hp as [Hx _]%list_elem_of_filter. apply sidecars_named in Hp as (n & ? & ->); [|done]. by exists n.
  - intros (_ & n & Hn & -> & Hx). apply elem_of_cons in Hn as [->|(s & -> & Hs)%list_elem_of_fmap]; [by left|right].
    apply list_elem_of_filter. split; [done|].
    by apply (list_elem_of_fmap_2 (λ suffix, (DATABASE_FILENAME ++ suffix) :: d)).
Qed.

Lemma exists_at_above n p t : exists_at (n :: p) t = true → exists_at p t = true.
Proof.
  rewrite !exists_at_true. intros (r & c & H). exists (r ++ [n]), c. by rewrite <- app_assoc.
Qed.

Lemma root_candidates_files single newdb root t ps p :
  root_candidates single (DATABASE_FILENAME :: newdb) root t = inr ps →
  (p ∈ ps ↔ ∃ d, comes_to newdb root d t ∧ exists_at (DATABASE_FILENAME :: d) t = true ∧ p ∈ database_at d t).
Proof.
  unfold root_candidates, comes_to. cbv zeta. pose proof (elem_of_found root t p) as H1.
  pose proof (elem_of_found (u "data" :: root) t p) as H2. pose proof (elem_of_found (u "database" :: root) t p) as H3.
  pose proof (exists_at_above DATABASE_FILENAME (u "data" :: root) t) as E2.
  pose proof (exists_at_above DATABASE_FILENAME (u "database" :: root) t) as E3.
  assert (∀ d, (root ≠ newdb ∧ d ≠ newdb ∧ (d = root ∨ d = u "data" :: root ∨
    d = u "database" :: root ∧ (u "data" :: root = newdb → exists_at newdb t = false))) →
    exists_at (DATABASE_FILENAME :: d) t = true ∧ p ∈ database_at d t → ∃ d,
    (root ≠ newdb ∧ d ≠ newdb ∧ (d = root ∨ d = u "data" :: root ∨
    d = u "database" :: root ∧ (u "data" :: root = newdb → exists_at newdb t = false))) ∧
    exists_at (DATABASE_FILENAME :: d) t = true ∧ p ∈ database_at d t) as Hin by eauto.
  case_bool_decide as C1.
  { injection C1 as C1. destruct (_ && single); [done|]. intros [= <-].
    split; [by intros ?%not_elem_of_nil|]. by intros (d & (? & _) & _). }
  assert (root ≠ newdb) as R1 by congruence.
  destruct (exists_at (u "data" :: root) t) eqn:X2; cbn [andb].
  - case_bool_decide as C2.
    + injection C2 as C2. intros [= <-]. rewrite H1. split; [intros Hp; apply (Hin root); (clear H1 H2 H3 E2 E3 Hin; tauto)|].
      intros (d & (_ & Hd & [->|[->|[-> Hx]]]) & Hp); [done|by destruct Hd|]. rewrite <- C2, X2 in Hx. by specialize (Hx eq_refl).
    + assert (u "data" :: root ≠ newdb) as R2 by congruence.
      destruct (exists_at (u "database" :: root) t) eqn:X3.
      * case_bool_decide as C3.
        -- injection C3 as C3. destruct (_ && single); [done|]. intros [= <-]. rewrite elem_of_app, H1, H2. split.
           ++ intros [Hp|Hp]; [apply (Hin root)|apply (Hin (u "data" :: root))]; (clear H1 H2 H3 E2 E3 Hin; tauto).
           ++ intros (d & (_ & Hd & [->|[->|[-> Hx]]]) & Hp); [by left|by right|by destruct Hd].
        -- assert (u "database" :: root ≠ newdb) as R3 by congruence. intros [= <-].
           rewrite !elem_of_app, H1, H2, H3. split.
           ++ intros [[Hp|Hp]|Hp];
                [apply (Hin root)|apply (Hin (u "data" :: root))|apply (Hin (u "database" :: root))]; (clear H1 H2 H3 E2 E3 Hin; tauto).
           ++ intros (d & (_ & Hd & [->|[->|[-> Hx]]]) & Hp); (clear H1 H2 H3 E2 E3 Hin; tauto).
      * intros [= <-]. rewrite elem_of_app, H1, H2. split.
        -- intros [Hp|Hp]; [apply (Hin root)|apply (Hin (u "data" :: root))]; (clear H1 H2 H3 E2 E3 Hin; tauto).
        -- intros (d & (_ & Hd & [->|[->|[-> Hx]]]) & He & Hp); [by left|by right|]. by specialize (E3 He).
  - assert (exists_at (DATABASE_FILENAME :: u "data" :: root) t = true → False) as N2 by (by intros ?%E2).
    destruct (exists_at (u "database" :: root) t) eqn:X3.
    + case_bool_decide as C3.
      * injection C3 as C3. destruct (_ && single); [done|]. intros [= <-]. rewrite app_nil_r, H1. split.
        -- intros Hp. apply (Hin root); (clear H1 H2 H3 E2 E3 Hin; tauto).
        -- intros (d & (_ & Hd & [->|[->|[-> Hx]]]) & He & Hp); [done|by destruct N2|by destruct Hd].
      * assert (u "database" :: root ≠ newdb) as R3 by congruence. intros [= <-].
        rewrite app_nil_r, !elem_of_app, H1, H3. split.
        -- intros [Hp|Hp]; [apply (Hin root); (clear H1 H2 H3 E2 E3 Hin; tauto)|]. apply (Hin (u "database" :: root)); [|done].
           split_and!; [done..|]. right; right. split; [done|]. by intros <-.
        -- intros (d & (_ & Hd & [->|[->|[-> Hx]]]) & He & Hp); [by left|by destruct N2|by right].
    + intros [= <-]. rewrite app_nil_r, H1. split.
      * intros Hp. apply (Hin root); (clear H1 H2 H3 E2 E3 Hin; tauto).
      * intros (d & (_ & Hd & [->|[->|[-> Hx]]]) & He & Hp); [done|by destruct N2|by specialize (E3 He)].
Qed.

Lemma db_candidates_files single newdb roots t ps p :
  db_candidates single (DATABASE_FILENAME :: newdb) roots t = inr ps →
  (p ∈ ps ↔ ∃ d, legacy_db newdb roots t d ∧ p ∈ database_at d t).
Proof.
  unfold legacy_db. revert ps. induction roots as [|root roots IH]; intros ps; cbn [db_candidates].
  { intros [= <-]. split; [by intros ?%not_elem_of_nil|]. by intros (d & (_ & r & ?%not_elem_of_nil & _) & _). }
  destruct (root_candidates _ _ root t) as [|qs] eqn:Hr; [done|].
  destruct (db_candidates _ _ roots t) as [|rs] eqn:Hrs; [done|].
  intros [= <-]. rewrite elem_of_app, (root_candidates_files _ _ _ _ _ p Hr), (IH rs eq_refl). split.
  - intros [(d & Hd & He & Hp)|(d & (He & r & Hin & Hd) & Hp)]; exists d; (split; [split; [done|]|done]).
    + exists root. split; [by left|done].
    + exists r. split; [by right|done].
  - intros (d & (He & r & [->|Hin]%elem_of_cons & Hd) & Hp); [left; by exists d|right].
    exists d. split; [split; [done|]|done]. by exists r.
Qed.

(** Each group holds the candidates of its database that are there. *)
Lemma add_to_group_spec base p gs b q :
  (∃ ps, (b, ps) ∈ add_to_group base p gs ∧ q ∈ ps) ↔ (b = base ∧ q = p) ∨ ∃ ps, (b, ps) ∈ gs ∧ q ∈ ps.
Proof.
  induction gs as [|[b' ps'] gs IH]; cbn [add_to_group].
  - split.
    + intros (ps & [= -> ->]%list_elem_of_singleton & ->%list_elem_of_singleton). by left.
    + intros [[-> ->]|(? & []%not_elem_of_nil & _)]. exists [p]. split; by left.
  - case_bool_decide as Hb; setoid_rewrite elem_of_cons.
    + subst b'. split.
      * intros (ps & [[= -> ->]|Hin] & Hq); [|eauto 6].
        apply elem_of_app in Hq as [Hq|Hq%list_elem_of_singleton]; [eauto 6|by left].
      * intros [[-> ->]|(ps & [[= -> ->]|Hin] & Hq)]; [exists (ps' ++ [p])|exists (ps' ++ [p])|by eauto].
        -- split; [by left|]. apply elem_of_app. right. by left.
        -- split; [by left|]. apply elem_of_app. by left.
    + split.
      * intros (ps & [Heq|Hin] & Hq); [eauto 6|].
        destruct (proj1 IH (ex_intro _ ps (conj Hin Hq))) as [|(ps2 & ? & ?)]; eauto 6.
      * intros [Heq|(ps & [Heq|Hin] & Hq)]; [| by eauto|].
        -- destruct (proj2 IH (or_introl Heq)) as (ps & ? & ?). eauto.
        -- destruct (proj2 IH (or_intror (ex_intro _ ps (conj Hin Hq)))) as (ps2 & ? & ?). eauto.
Qed.
Lemma db_groups_spec cs t b q :
  (∃ ps, (b, ps) ∈ db_groups cs t ∧ q ∈ ps) ↔
  q ∈ cs ∧ b = _get_db_base_path q ∧ exists_at q t = true ∧ exists_at b t = true.
Proof.
  unfold db_groups. induction cs as [|c cs IH] using rev_ind.
  { cbn. split; [by intros (ps & ?%not_elem_of_nil & _)|by intros (?%not_elem_of_nil & _)]. }
  rewrite foldl_app. cbn [foldl]. rewrite elem_of_app, list_elem_of_singleton.
  destruct (exists_at c t && exists_at (_get_db_base_path c) t) eqn:Hc.
  - apply andb_prop in Hc as [Hc1 Hc2]. rewrite add_to_group_spec, IH. split.
    + intros [[-> ->]|(? & ? & ? & ?)]; auto.
    + intros ([Hq| ->] & -> & ? & ?); auto.
  - rewrite IH. apply andb_false_iff in Hc. split; [intros (? & ? & ? & ?); auto|].
    intros ([Hq| ->] & -> & H1 & H2); [auto|]. destruct Hc as [Hc|Hc]; congruence.
Qed.
Lemma db_groups_inhabited cs t b ps : (b, ps) ∈ db_groups cs t → ps ≠ [].
Proof.
  unfold db_groups. assert (∀ c p gs, (∀ ps, (b, ps) ∈ gs → ps ≠ []) →
    ∀ ps, (b, ps) ∈ add_to_group c p gs → ps ≠ []) as Hadd.
  { intros c p gs. induction gs as [|[b' ps'] gs IH]; intros Hgs qs; cbn [add_to_group].
    - by intros [= -> ->]%list_elem_of_singleton.
    - case_bool_decide; intros [[= -> ->]|Hin]%elem_of_cons.
      + by destruct ps'.
      + apply (Hgs qs). by right.
      + apply (Hgs ps'). by left.
      + apply IH; [|done]. intros q Hq. apply Hgs. by right. }
  revert ps. induction cs as [|c cs IH] using rev_ind; [by intros ps ?%not_elem_of_nil|].
  rewrite foldl_app. cbn [foldl]. case_match; [|done]. intros ps. apply Hadd. exact IH.
Qed.
Lemma group_mtime_max st_mtime t g p : p ∈ g.2 → st_mtime t p ≤ group_mtime st_mtime t g.
Proof.
  unfold group_mtime. generalize (match g.2 with p :: _ => st_mtime t p | [] => 0 end). intros z.
  induction g.2 as [|q ps IH]; [by intros ?%not_elem_of_nil|]. cbn. intros [->|Hp]%elem_of_cons; [lia|].
  specialize (IH Hp). lia.
Qed.
Lemma group_mtime_reached st_mtime t g : g.2 ≠ [] → ∃ p, p ∈ g.2 ∧ group_mtime st_mtime t g = st_mtime t p.
Proof.
  unfold group_mtime. destruct g as [b [|p ps]]; [done|]. cbn [snd]. intros _.
  assert (∀ qs, ∃ q, q ∈ p :: qs ∧ foldr Z.max (st_mtime t p) (st_mtime t <$> qs) = st_mtime t q) as H.
  { induction qs as [|q qs (q' & Hin & IH)]; [exists p; split; [by left|done]|]. cbn. rewrite IH.
    destruct (Z.max_spec (st_mtime t q) (st_mtime t q')) as [[_ ->]|[_ ->]].
    - exists q'. split; [|done]. apply elem_of_cons in Hin as [->|Hin]; [by left|]. right. by right.
    - exists q. split; [right; by left|done]. }
  destruct (H (p :: ps)) as (q & Hq & Heq). exists q. split; [|done].
  apply elem_of_cons in Hq as [->|Hq]; [by left|done].
Qed.

(** The legacy database with the newest file. *)
Definition newest (st_mtime : files → path → Z) (newdb : path) (roots : list path) (t : files) (src : path) : Prop :=
  legacy_db newdb roots t src ∧
  ∀ d p, legacy_db newdb roots t d → p ∈ database_at d t → ∃ q, q ∈ database_at src t ∧ st_mtime t p ≤ st_mtime t q.

Lemma base_of_file d t p : p ∈ database_at d t → _get_db_base_path p = DATABASE_FILENAME :: d.
Proof. intros (n & Hn & -> & _)%elem_of_database_at. by apply base_of_name. Qed.
Lemma main_file d t : exists_at (DATABASE_FILENAME :: d) t = true → DATABASE_FILENAME :: d ∈ database_at d t.
Proof. intros He. apply elem_of_database_at. exists DATABASE_FILENAME. split; [by left|done]. Qed.

Lemma most_recent_newest st_mtime single newdb roots t cs m :
  db_candidates single (DATABASE_FILENAME :: newdb) roots t = inr cs →
  _get_most_recent_database st_mtime cs t = Some m →
  ∃ src, m = DATABASE_FILENAME :: src ∧ newest st_mtime newdb roots t src.
Proof.
  intros Hcs. pose proof (λ p, db_candidates_files _ _ _ _ _ p Hcs) as Hfiles.
  unfold _get_most_recent_database. intros ([b ps] & [Hin Hmax]%max_by_max & ->)%fmap_Some. cbn [fst].
  destruct (group_mtime_reached st_mtime t (b, ps)) as (q & Hq & Hqt); [by eapply db_groups_inhabited|].
  cbn [snd] in Hq. destruct (proj1 (db_groups_spec cs t b q) (ex_intro _ ps (conj Hin Hq))) as (Hqc & -> & _ & _).
  apply Hfiles in Hqc as (src & Hsrc & Hqs). rewrite (base_of_file _ _ _ Hqs) in *. exists src. split; [done|split; [done|]].
  intros d p Hd Hp. exists q. split; [done|]. rewrite <- Hqt. pose proof Hd as [He _].
  assert (p ∈ cs) as Hpc by (apply Hfiles; eauto).
  pose proof (base_of_file _ _ _ Hp) as Hb. pose proof Hp as (n & _ & _ & Hx)%elem_of_database_at.
  destruct (proj2 (db_groups_spec cs t (DATABASE_FILENAME :: d) p)) as (ps' & Hg & Hpp); [by rewrite Hb|].
  etrans; [|by apply (Hmax _ Hg)]. by apply (group_mtime_max _ _ (_, _)).
Qed.
Lemma most_recent_found st_mtime single newdb roots t cs c :
  db_candidates single (DATABASE_FILENAME :: newdb) roots t = inr cs → c ∈ cs →
  is_Some (_get_most_recent_database st_mtime cs t).
Proof.
  intros Hcs Hc. pose proof Hc as (d & (He & _) & Hp)%(db_candidates_files _ _ _ _ _ _ Hcs).
  pose proof (base_of_file _ _ _ Hp) as Hb. pose proof Hp as (n & _ & _ & Hx)%elem_of_database_at.
  destruct (proj2 (db_groups_spec cs t (DATABASE_FILENAME :: d) c)) as (ps & Hg & _); [by rewrite Hb|].
  destruct (max_by_some (group_mtime st_mtime t) _ _ Hg) as [g Hm].
  unfold _get_most_recent_database. rewrite Hm. by eexists.
Qed.

Lemma add_sidecars (sidecars ps : list path) p :
  p ∈ foldl (λ ps sidecar, if bool_decide (sidecar ∈ ps) then ps else ps ++ [sidecar]) ps sidecars →
  p ∈ ps ∨ p ∈ sidecars.
Proof.
  revert ps. induction sidecars as [|q qs IH]; intros ps; cbn; [by left|]. intros [Hp|Hp]%IH.
  - case_bool_decide; [by left|]. apply elem_of_app in Hp as [Hp|Hp%list_elem_of_singleton]; [by left|].
    right. subst. left.
  - right. by right.
Qed.
Lemma add_sidecars_keeps (sidecars ps : list path) p : p ∈ ps →
  p ∈ foldl (λ ps sidecar, if bool_decide (sidecar ∈ ps) then ps else ps ++ [sidecar]) ps sidecars.
Proof.
  revert ps. induction sidecars as [|q qs IH]; intros ps Hp; cbn; [done|]. apply IH.
  case_bool_decide; [done|]. apply elem_of_app. by left.
Qed.
Lemma selected_main m cs t : m ∈ selected_group m cs t.
Proof. apply add_sidecars_keeps. case_bool_decide; [done|]. by left. Qed.
Lemma add_sidecars_all (sidecars ps : list path) p : p ∈ sidecars →
  p ∈ foldl (λ ps sidecar, if bool_decide (sidecar ∈ ps) then ps else ps ++ [sidecar]) ps sidecars.
Proof.
  revert ps. induction sidecars as [|q qs IH]; intros ps; [by intros ?%not_elem_of_nil|]. cbn.
  intros [->|Hp]%elem_of_cons; [|by apply IH]. apply add_sidecars_keeps.
  case_bool_decide; [done|]. apply elem_of_app. right. by left.
Qed.
(** The group that is moved is the database with all its sidecars. *)
Lemma selected_files newdb roots cs t d p :
  (∀ c, c ∈ cs ↔ ∃ d, legacy_db newdb roots t d ∧ c ∈ database_at d t) → exists_at (DATABASE_FILENAME :: d) t = true →
  (p ∈ selected_group (DATABASE_FILENAME :: d) cs t ↔ p ∈ database_at d t).
Proof.
  intros Hcs He. pose proof (main_file d t He) as Hmain. pose proof (elem_of_found d t p) as Hf. rewrite He, elem_of_cons in Hf.
  split.
  - intros [Hp|Hp]%add_sidecars; [|by apply Hf; right].
    assert (p ∈ filter (λ c, _get_db_base_path c = DATABASE_FILENAME :: d) cs ∨ p = DATABASE_FILENAME :: d) as [Hq| ->]; [|..|done].
    { case_bool_decide; [by left|]. apply elem_of_cons in Hp as [->|]; [by right|by left]. }
    apply list_elem_of_filter in Hq as [Hb (d' & _ & Hp')%Hcs].
    pose proof (base_of_file _ _ _ Hp') as Hb'. rewrite Hb in Hb'. by injection Hb' as ->.
  - intros Hp. destruct (proj2 Hf (conj eq_refl Hp)) as [->|Hs]; [apply selected_main|by apply add_sidecars_all].
Qed.

(** A folder with a legacy database lies apart from the places of the step. *)
Definition db_dir_apart (k : disk) (src newdb stg : path) : Prop :=
  ∀ n, n ∈ db_names → apart (n :: src) stg ∧ ∀ m, m ∈ db_names → apart (n :: src) (m :: newdb) ∧
    ∀ s, times k s → apart (n :: src) (backup_path (m :: newdb) BAK s).

(** What the step of the database leaves of the tree of [k]. *)
Definition database_safe (st_mtime : files → path → Z) (roots : list path) (new_home : path) (dry_run force : bool)
    (k : disk) (out : outcome_of step_result * disk) : Prop :=
  let newdb := u "database" :: new_home in
  let stg := _get_staging_path new_home DATABASE in
  let there := exists_at (DATABASE_FILENAME :: newdb) (tree k) in
  match out.1 with
  | Done r =>
      if moves r then
        ∃ src, newest st_mtime newdb roots (tree k) src ∧ old_path r = Some (DATABASE_FILENAME :: src) ∧
          all_placed (times k) newdb stg (database_at src (tree k)) (tree k) (tree out.2)
      else
        tree out.2 = tree k ∧
        (dry_run = true ∨ there = true ∧ (force = false ∨ length roots = 1%nat) ∨
         ∀ d, ¬ legacy_db newdb roots (tree k) d)
  | Raised _ =>
      ∃ src, newest st_mtime newdb roots (tree k) src ∧
        db_survives (times k) newdb stg (database_at src (tree k)) (tree k) (tree out.2)
  end.

(** The names of a database differ in a way that no time can make up for. *)
Lemma db_backup_names n m s s' : n ∈ db_names → m ∈ db_names → n ≠ m →
  n ++ BAK ++ u "." ++ s ≠ m ++ BAK ++ u "." ++ s'.
Proof.
  unfold db_names. cbn [fmap list_fmap SQLITE_SIDECAR_SUFFIXES]. rewrite !elem_of_cons, !elem_of_nil.
  intros [->|[->|[->|[->|[]]]]] [->|[->|[->|[->|[]]]]] Hne; try done.
Qed.

(** The places of the step are apart. *)
Lemma db_name_plain n : n ∈ db_names → n ≠ MIGRATION_BACKUP_DIRNAME.
Proof.
  unfold db_names. cbn [fmap list_fmap SQLITE_SIDECAR_SUFFIXES]. rewrite !elem_of_cons, elem_of_nil.
  by intros [->|[->|[->|[->|[]]]]].
Qed.

Lemma move_database_safe integrity_ok k new_home src group :
  let newdb := u "database" :: new_home in
  let stg := _get_staging_path new_home DATABASE in
  clear stg (tree k) →
  (∀ m s, m ∈ db_names → times k s → clear (backup_path (m :: newdb) BAK s) (tree k)) →
  db_dir_apart k src newdb stg → (∀ p, p ∈ group → ∃ n, n ∈ db_names ∧ p = n :: src) →
  DATABASE_FILENAME :: src ∈ group →
  match (move_database false integrity_ok newdb stg (DATABASE_FILENAME :: src) group k) with
  | (Done r, k') => moves r = true ∧ old_path r = Some (DATABASE_FILENAME :: src) ∧
      all_placed (times k) newdb stg group (tree k) (tree k')
  | (Raised _, k') => db_survives (times k) newdb stg group (tree k) (tree k')
  end.
Proof.
  intros newdb stg Hc Hf Ha Hg Hin.
  assert (triple (times k) (λ t, t = tree k)
    (move_database false integrity_ok newdb stg (DATABASE_FILENAME :: src) group)
    (λ r t, (moves r = true ∧ old_path r = Some (DATABASE_FILENAME :: src)) ∧
            all_placed (times k) newdb stg group (tree k) t)
    (db_survives (times k) newdb stg group (tree k))) as Hm.
  { apply triple_move_database; try done.
    - by left.
    - intros n Hn. by apply Ha.
    - intros n m Hn Hm. by apply Ha.
    - intros n m s Hn Hm. by apply Ha.
    - intros n Hn. by apply (apart_fork _ _ [_] [_] new_home).
    - intros m s. by apply (apart_fork _ _ [_] [_; _] new_home).
    - intros n m s Hn. apply (apart_fork _ _ [] [_] newdb). by apply db_name_plain.
    - intros n m s s' Hn Hm Hne. apply (apart_fork _ _ [] [] (MIGRATION_BACKUP_DIRNAME :: newdb)). by apply db_backup_names.
    - intros m s. split; [by apply (suffix_fork _ _ [_; _] [_] new_home)|].
      intros [r Hr]. apply (f_equal length) in Hr. rewrite length_app in Hr. unfold backup_path in Hr. cbn in Hr. lia.
    - by apply (suffix_fork _ _ [_] [_] new_home). }
  destruct (Hm k (times_stamps k) eq_refl) as [_ Hr].
  destruct (move_database _ _ _ _ _ _ k) as [[r|e] k']; [|done]. by destruct Hr as ((-> & Ho) & Hp).
Qed.

Lemma all_placed_group ok newdb stg g g' t0 t : (∀ p, p ∈ g ↔ p ∈ g') →
  all_placed ok newdb stg g t0 t → all_placed ok newdb stg g' t0 t.
Proof.
  intros Hg (H & Hb & Hp). split_and!; [|done|intros p ?; apply Hp; by apply Hg].
  intros q c (? & ? & Hq). apply H. split_and!; [done..|]. intros p ?. apply Hq. by apply Hg.
Qed.
Lemma db_survives_group ok newdb stg g g' t0 t : (∀ p, p ∈ g ↔ p ∈ g') →
  db_survives ok newdb stg g t0 t → db_survives ok newdb stg g' t0 t.
Proof.
  intros Hg (H & Hp & Hd). split_and!; [|intros p r c ?; apply Hp; by apply Hg|done].
  intros q c (? & ? & Hq). apply H. split_and!; [done..|]. intros p ?. apply Hq. by apply Hg.
Qed.

Lemma db_candidates_in_place single target roots t p :
  db_candidates single target roots t = inl p → single = true ∧ exists_at target t = true.
Proof.
  induction roots as [|root roots IH]; cbn [db_candidates]; [done|].
  destruct (root_candidates single target root t) as [p0|] eqn:Hr.
  - intros _. unfold root_candidates in Hr. cbv zeta in Hr.
    assert (∀ q (l : list path), (if exists_at q t && single then inl q else inr l) = inl p0 → q = target →
      single = true ∧ exists_at target t = true) as Hin.
    { intros q l Hq <-. destruct (exists_at q t), single; try done. }
    case_bool_decide; [by eapply Hin|]. destruct (_ && bool_decide _); [done|].
    destruct (exists_at (u "database" :: root) t); [|done]. case_bool_decide; [by eapply Hin|done].
  - by destruct (db_candidates single target roots t).
Qed.

(** C15: Outside Windows, where the legacy folders lie apart from the destination, the staging area is
    empty and no backup of that second is there yet: whatever errors the file system raises, the
    migration of the database ends in one of three ways.  The newest of the legacy databases - the
    one with the file that was written last among all their files - is in place with every one of
    its sidecars that was there, and what was there before is in backups.  Or nothing has changed,
    because the run was dry, the destination had a database that was not to be replaced, or there is
    no legacy database.  Or the step failed, and the newest database and each of its sidecars is still
    where it was or in place, and what was at the destination is still there or in a backup.  All
    other files, other databases with them, are as they were. *)
Theorem database_survives integrity_ok st_mtime legacy_roots new_home dry_run force k :
  let newdb := u "database" :: new_home in
  let stg := _get_staging_path new_home DATABASE in
  clear stg (tree k) →
  (∀ m s, m ∈ db_names → times k s → clear (backup_path (m :: newdb) BAK s) (tree k)) →
  (∀ d, legacy_db newdb legacy_roots (tree k) d → db_dir_apart k d newdb stg) →
  database_safe st_mtime legacy_roots new_home dry_run force k
    (migrate_database false integrity_ok st_mtime legacy_roots new_home dry_run force k).
Proof.
  intros newdb stg Hc Hf Ha. unfold migrate_database. rewrite !f_bind_get. fold newdb. unfold database_safe.
  destruct (db_candidates _ _ _ _) as [p|cs] eqn:Hcs.
  { split; [done|]. apply db_candidates_in_place in Hcs as [Hs He]. right; left. split; [done|]. right.
    by apply bool_decide_eq_true in Hs. }
  pose proof (λ p, db_candidates_files _ _ _ _ _ p Hcs) as Hfiles.
  destruct cs as [|c cs].
  { assert (∀ d, ¬ legacy_db newdb legacy_roots (tree k) d) as Hno.
    { intros d Hd. apply (not_elem_of_nil (DATABASE_FILENAME :: d)), Hfiles. exists d. split; [done|].
      by apply main_file, Hd. }
    destruct (exists_at _ (tree k)); (split; [done|by right; right]). }
  destruct (exists_at (DATABASE_FILENAME :: newdb) (tree k) && negb force) eqn:Ht.
  { apply andb_prop in Ht as [He Hforce%negb_true_iff]. split; [done|]. right; left. auto. }
  destruct dry_run; [by split; [|left]|]. rewrite f_bind_get.
  destruct (most_recent_found st_mtime _ _ _ _ _ c Hcs) as [m Hm]; [by left|]. rewrite Hm.
  apply (most_recent_newest _ _ _ _ _ _ _ Hcs) in Hm as (src & -> & Hnew). rewrite f_bind_get.
  pose proof Hnew as [[He Hroot] _]. pose proof (λ p, selected_files _ _ _ _ _ p Hfiles He) as Hg.
  pose proof (move_database_safe integrity_ok k new_home src (selected_group (DATABASE_FILENAME :: src) (c :: cs) (tree k))
    Hc Hf) as Hs. fold newdb stg in Hs. specialize (Hs (Ha src (conj He Hroot))).
  assert (∀ p, p ∈ selected_group (DATABASE_FILENAME :: src) (c :: cs) (tree k) → ∃ n, n ∈ db_names ∧ p = n :: src) as Hn.
  { intros p (n & ? & ? & _)%Hg%elem_of_database_at. by exists n. }
  specialize (Hs Hn (proj2 (Hg _) (main_file _ _ He))).
  destruct (move_database _ _ _ _ _ _ k) as [[r|e] k']; cbn [fst snd].
  - destruct Hs as (-> & Ho & Hp). exists src. split_and!; [done..|]. by eapply all_placed_group.
  - exists src. split; [done|]. by eapply db_survives_group.
Qed.
