(* ===== verification/MigrateRun.v ===== *)
(** * The run of a migration

    [perform_migration] of [migrate.py] - the check for a running instance and for disk space, the lock,
    the steps in their order with the record of each, the rollback of what was completed when one
    fails, the release of the lock - with [rollback_migration] and [verify_migration].

    The steps are those of [Migrate.v] and [MigrateData.v]; the home and the legacy roots are what
    [resolve_all_paths] gives, and whether an instance runs and what space is free are inputs. *)

From Stdlib Require Import QArith String.
From stdpp Require Import base tactics numbers sets gmap list sorting.
From S2P Require Import Prelude PyStr PyValue PyLib NameSync MigrateFs Migrate MigrateData.
Open Scope Z_scope.

(** ** Verification *)

Inductive artifact := Credentials | DatabaseDir | Database | E2eeStore | Logs | Plugins | Config.
#[export] Instance artifact_eq_dec : EqDecision artifact.
Proof. solve_decision. Defined.

Section verify.
Context (win32 : bool) (home : path).

Definition credentials_path : path := CREDENTIALS_FILENAME :: MATRIX_DIRNAME :: home.
Definition database_dir : path := u "database" :: home.
Definition store_dir : path := STORE_DIRNAME :: MATRIX_DIRNAME :: home.

(** What there is of a legacy layout below a root; no path twice. *)
Definition _find_legacy_data (legacy_root : path) (t : files) : list (artifact * path) :=
  let there a p := if exists_at p t then [(a, p)] else [] in
  let filled a p := if _dir_has_entries p t then [(a, p)] else [] in
  let database p := if exists_at p t
                    then (Database, p) :: ((λ s, (Database, s)) <$> _collect_db_sidecars p t) else [] in
  there Credentials (CREDENTIALS_FILENAME :: legacy_root) ++
  there Config (CONFIG_FILENAME :: legacy_root) ++
  database (DATABASE_FILENAME :: legacy_root) ++
  database (DATABASE_FILENAME :: u "data" :: legacy_root) ++
  database (DATABASE_FILENAME :: u "database" :: legacy_root) ++
  filled Logs (LOGS :: legacy_root) ++
  filled E2eeStore (u "store" :: legacy_root) ++
  filled Plugins (PLUGINS :: legacy_root).

(** The findings of the legacy roots, and what is left of the old layout in the home itself. *)
Definition legacy_findings (legacy_sources : list path) (t : files) : list (path * list (artifact * path)) :=
  let same_home :=
    (if exists_at (CREDENTIALS_FILENAME :: home) t then [(Credentials, CREDENTIALS_FILENAME :: home)] else []) ++
    (if negb win32 && exists_at (STORE_DIRNAME :: home) t then [(E2eeStore, STORE_DIRNAME :: home)] else []) in
  filter (λ f, f.2 ≠ []) ((λ root, (root, _find_legacy_data root t)) <$> legacy_sources) ++
  (match same_home with [] => [] | _ => [(home, same_home)] end).

Definition artifact_has_content (t : files) (a : artifact) : bool :=
  match a with
  | Credentials => exists_at credentials_path t
  | DatabaseDir => exists_at database_dir t
  | Database => exists_at (DATABASE_FILENAME :: database_dir) t
  | E2eeStore => negb win32 && _dir_has_entries store_dir t
  | Logs => _dir_has_entries (LOGS :: home) t
  | Plugins => _dir_has_entries (PLUGINS :: home) t
  | Config => false
  end.
Definition artifact_exists (t : files) (a : artifact) : bool :=
  match a with
  | E2eeStore => negb win32 && exists_at store_dir t
  | Logs => exists_at (LOGS :: home) t
  | Plugins => exists_at (PLUGINS :: home) t
  | _ => artifact_has_content t a
  end.

Record verify_report := VerifyReport {
  credentials_missing : bool;
  legacy_data_found : bool;
  split_roots : bool;
  cleanup_needed : list path;
  migration_needed : list path;
  verify_ok : bool;
}.
(** All artifacts of the home are inside it. *)
Definition verify_migration (legacy_sources : list path) (t : files) : verify_report :=
  let findings := legacy_findings legacy_sources t in
  let items := findings ≫= snd in
  let missing := negb (exists_at credentials_path t) in
  let found := negb (bool_decide (findings = [])) in
  let split := found && existsb (artifact_exists t) [Credentials; DatabaseDir; Database; E2eeStore; Logs; Plugins] in
  let cleanup := snd <$> filter (λ i, artifact_has_content t i.1 = true) items in
  let needed := snd <$> filter (λ i, artifact_has_content t i.1 = false) items in
  VerifyReport missing found split cleanup needed (negb missing && bool_decide (needed = [])).
Definition is_migration_needed (legacy_sources : list path) (t : files) : bool :=
  legacy_data_found (verify_migration legacy_sources t).
End verify.

Section run.
Context (win32 : bool) (json_load : pystr → option pyval) (yaml : option (pystr → loaded)).
Context (integrity_ok : files → path → bool) (st_mtime : files → path → Z).
Context (user_home cwd : path) (home_of : pystr → option path) (sv : service).

(** ** Rollback *)

Inductive rolled_back :=
  | Restored (step : pystr) (from to : path)
  | Removed (step : pystr) (p : path)
  | Skipped (step : pystr) (p : path).
(** [rb_errors]: the steps with an error, one entry for each. *)
Record rollback_report := RollbackReport {
  rb_success : bool;
  rolled_back_steps : list rolled_back;
  rb_errors : list pystr;
}.
Definition rb_done (x : rolled_back) (r : rollback_report) : rollback_report :=
  RollbackReport (rb_success r) (rolled_back_steps r ++ [x]) (rb_errors r).
Definition rb_fail (step : pystr) (r : rollback_report) : rollback_report :=
  RollbackReport false (rolled_back_steps r) (rb_errors r ++ [step]).

(** The newest entry of the folders of backups whose name starts like the destination. *)
Definition find_backup_for_step (new_home dest_path : path) (t : files) : option path :=
  first_some (λ backup_dir,
      if exists_at backup_dir t
      then max_by (st_mtime t) (filter (λ b, startswith (name b) (name dest_path) = true) (iterdir backup_dir t))
      else None)
    [MIGRATION_BACKUP_DIRNAME :: parent dest_path; MIGRATION_BACKUP_DIRNAME :: new_home].

Definition restore_from_backup (backup_path restore_path : path) : F bool :=
  f_succeeds
    (mkdirs (parent restore_path);;
     there <- f_get (exists_at restore_path);;
     folder <- f_get (is_dir restore_path);;
     f_when there (if folder : bool then rmtree restore_path else unlink restore_path);;
     backup_folder <- f_get (is_dir backup_path);;
     if backup_folder : bool then copytree backup_path restore_path else copy2 backup_path restore_path).

Fixpoint restore_each (step : pystr) (backed_up : list (path * path)) (all_restored : bool) (r : rollback_report)
    : F (bool * rollback_report) :=
  match backed_up with
  | [] => f_ret (all_restored, r)
  | (backup_path, restore_path) :: rest =>
      ok <- restore_from_backup backup_path restore_path;;
      if ok : bool then restore_each step rest all_restored (rb_done (Restored step backup_path restore_path) r)
      else restore_each step rest false (rb_fail step r)
  end.
Fixpoint remove_each (step : pystr) (restored migrated : list path) (r : rollback_report) : F rollback_report :=
  match migrated with
  | [] => f_ret r
  | p :: rest =>
      there <- f_get (exists_at p);;
      if bool_decide (p ∈ restored) || negb there then remove_each step restored rest r
      else
        folder <- f_get (is_dir p);;
        ok <- f_succeeds (if folder : bool then rmtree p else unlink p);;
        remove_each step restored rest (if ok : bool then rb_done (Removed step p) r else rb_fail step r)
  end.

(** Only sidecars of the database were restored, and not the database. *)
Definition only_sidecars (step : pystr) (restored : list path) : bool :=
  bool_decide (step = DATABASE) &&
  negb (bool_decide (DATABASE_FILENAME ∈ (name <$> restored))) &&
  bool_decide (DATABASE_FILENAME ∈ ((λ p, name (_get_db_base_path p)) <$> restored)).

Definition rollback_step (new_home : path) (step : pystr) (result : step_result) (r : rollback_report)
    : F rollback_report :=
  match act result, new_path result with
  | Some (AlreadyAtTarget | AlreadyMigrated | NotFound | SkipForceRequired), _ | _, None => f_ret r
  | _, Some new =>
      match backed_up_files result with
      | [] =>
          found <- f_get (find_backup_for_step new_home new);;
          match found with
          | Some backup =>
              ok <- restore_from_backup backup new;;
              f_ret (if ok : bool then rb_done (Restored step backup new) r else rb_fail step r)
          | None => f_ret (rb_done (Skipped step new) r)
          end
      | backed_up =>
          restored <- restore_each step backed_up true r;;
          if negb (restored.1) || bool_decide (migrated_files result = [])
             || only_sidecars step (snd <$> backed_up)
          then f_ret restored.2
          else remove_each step (snd <$> backed_up) (migrated_files result) restored.2
      end
  end.

Definition result_of (step : pystr) (migrations : list (pystr * step_result)) : option step_result :=
  snd <$> first_some (λ m, if bool_decide (m.1 = step) then Some m else None) migrations.

Fixpoint rollback_steps (new_home : path) (migrations : list (pystr * step_result)) (steps : list pystr)
    (r : rollback_report) : F rollback_report :=
  match steps with
  | [] => f_ret r
  | step :: rest =>
      r' <- (match result_of step migrations with
             | None => f_ret r
             | Some result =>
                 f_try (rollback_step new_home step result r)
                   (λ e, if is_os_error e then f_ret (rb_fail step r) else f_raise e)
             end);;
      rollback_steps new_home migrations rest r'
  end.

Definition rollback_migration (completed_steps : list pystr) (migrations : list (pystr * step_result))
    (new_home : path) : F rollback_report :=
  r <- rollback_steps new_home migrations (reverse completed_steps) (RollbackReport true [] []);;
  let staging_dir := MIGRATION_STAGING_DIRNAME :: new_home in
  there <- f_get (exists_at staging_dir);;
  f_when (rb_success r && there) (rmtree_ignoring staging_dir);;
  f_ret r.

(** ** The run *)

Inductive run_error := InstanceRunning | NoSpace | NoHome | Locked | StepFailed (e : exn).
Record report := Report {
  rp_success : bool;
  rp_error : option run_error;
  migrations : list (pystr * step_result);
  completed_steps : list pystr;
  rollback : option rollback_report;
  rollback_failed : bool;
}.
Definition refused (e : run_error) : report := Report false (Some e) [] [] None false.

Definition failure_result : step_result := StepResult false None None None false [] [] None.

(** The steps in order until one fails: what each gave, which were completed, and the error. *)
Fixpoint run_steps (steps : list (pystr * F step_result)) (ms : list (pystr * step_result)) (done : list pystr)
    : F (list (pystr * step_result) * list pystr * option exn) :=
  match steps with
  | [] => f_ret (ms, done, None)
  | (step, func) :: rest =>
      result <- f_try (r <- func;; f_ret (inr r)) (λ e, f_ret (inl e));;
      match result with
      | inl e => f_ret (ms ++ [(step, failure_result)], done, Some e)
      | inr r =>
          if success r then run_steps rest (ms ++ [(step, r)]) (done ++ [step])
          else f_ret (ms ++ [(step, r)], done, Some (MigrationError step))
      end
  end.

Definition SERVICE : pystr := u "service".
Definition migration_steps (legacy_roots : list path) (new_home : path) (dry_run force : bool)
    : list (pystr * F step_result) :=
  [(CREDENTIALS, migrate_credentials win32 json_load user_home legacy_roots new_home dry_run force);
   (CONFIG, migrate_config win32 legacy_roots new_home dry_run force);
   (DATABASE, migrate_database win32 integrity_ok st_mtime legacy_roots new_home dry_run force);
   (LOGS, migrate_logs win32 legacy_roots new_home dry_run force);
   (STORE, migrate_store win32 legacy_roots new_home dry_run force);
   (PLUGINS, migrate_plugins win32 legacy_roots new_home dry_run force);
   (GPXTRACKER, migrate_gpxtracker win32 yaml user_home cwd home_of legacy_roots new_home dry_run force);
   (SERVICE, migrate_service win32 user_home sv dry_run force)].

Definition release_lock (dry_run : bool) (lock_file : path) : F unit :=
  there <- f_get (exists_at lock_file);;
  f_when (negb dry_run && there) (f_ignoring (unlink lock_file)).

(** At the exit of the process: the lock that was taken and not released. *)
Definition _cleanup_lock_file (current_lock_file : option path) : F unit :=
  match current_lock_file with
  | Some lock_file =>
      there <- f_get (exists_at lock_file);;
      f_when there (f_ignoring (unlink lock_file))
  | None => f_ret tt
  end.

(** The steps under the lock.  Only some errors are caught; others leave the run. *)
Definition run_locked (steps : list (pystr * F step_result)) (new_home lock_file : path) (dry_run : bool)
    (warned : option run_error) : F report :=
  ran <- run_steps steps [] [];;
  match ran with
  | (ms, done, None) =>
      release_lock dry_run lock_file;;
      f_ret (Report true warned ms done None false)
  | (_, _, Some OtherError) => f_raise OtherError
  | (ms, done, Some e) =>
      rb <- (if negb dry_run && negb (bool_decide (done = []))
             then f_try (r <- rollback_migration done ms new_home;; f_ret (Some r, false))
                    (λ _, f_ret (None, true))
             else f_ret (None, false));;
      release_lock dry_run lock_file;;
      f_ret (Report false (Some (StepFailed e)) ms done rb.1 rb.2)
  end.

Definition MIGRATION_LOCK_FILENAME : pystr := u ".migration.lock".
Definition BYTES_PER_MIB : Z := 1024 * 1024.
Definition MIGRATION_MIN_FREE_SPACE_BYTES : Z := 500 * BYTES_PER_MIB.
(** [free]: None when the usage of the disk cannot be told.  The factor is 1.5. *)
Definition _check_disk_space (free : option Z) : bool :=
  match free with
  | None => true
  | Some free => MIGRATION_MIN_FREE_SPACE_BYTES * 3 / 2 <=? free
  end.

(** Whether the lock was taken; with another error than that it is there the run goes on without. *)
Definition acquire_lock (lock_file : path) : F bool :=
  f_try (touch_new lock_file;; f_ret true)
    (λ e, match e with OSError EEXIST _ => f_ret false | OSError _ _ => f_ret true | _ => f_raise e end).

(** [running]: an instance of the program runs. *)
Definition perform_migration (legacy_sources : list path) (new_home : path) (running : bool) (free : option Z)
    (dry_run force : bool) : F report :=
  needed <- f_get (is_migration_needed win32 new_home legacy_sources);;
  let legacy_roots := match legacy_sources with
                      | [] => if needed : bool then [new_home] else []
                      | _ => legacy_sources
                      end in
  match legacy_roots with
  | [] => f_ret (Report true None [] [] None false)
  | _ =>
      if negb dry_run && running && negb force then f_ret (refused InstanceRunning)
      else if negb dry_run && negb (_check_disk_space free) then f_ret (refused NoSpace)
      else
        home_made <- f_succeeds (f_when (negb dry_run) (mkdirs new_home));;
        if negb home_made then f_ret (refused NoHome)
        else
          let lock_file := MIGRATION_LOCK_FILENAME :: new_home in
          free_to_go <- (if dry_run then f_ret true else acquire_lock lock_file);;
          if negb free_to_go then f_ret (refused Locked)
          else run_locked (migration_steps legacy_roots new_home dry_run force) new_home lock_file dry_run
                 (if negb dry_run && running then Some InstanceRunning else None)
  end.
End run.

(** ** A dry run *)

Section dry.
Context (win32 : bool) (json_load : pystr → option pyval) (yaml : option (pystr → loaded)).
Context (integrity_ok : files → path → bool) (st_mtime : files → path → Z).
Context (user_home cwd : path) (home_of : pystr → option path) (sv : service).
Context (roots : list path) (new_home : path) (force : bool).

Lemma dry_found step old new : reads (migrate_found win32 step new_home old new true force).
Proof. unfold migrate_found. reads_tac. Qed.
Lemma reads_nothing present new : reads (nothing_found present new).
Proof. unfold nothing_found. reads_tac. Qed.
#[local] Hint Resolve dry_found reads_nothing : reads_db.
Lemma reads_scan_gpx load old l : reads (scan_gpx user_home cwd home_of load old l).
Proof. revert old. induction l; intros old; cbn [scan_gpx]; reads_tac. Qed.
#[local] Hint Resolve reads_scan_gpx : reads_db.

Lemma dry_credentials : reads (migrate_credentials win32 json_load user_home roots new_home true force).
Proof. unfold migrate_credentials, _looks_like_matrix_credentials. reads_tac. Qed.
Lemma dry_config : reads (migrate_config win32 roots new_home true force).
Proof. unfold migrate_config. reads_tac. Qed.
Lemma dry_database : reads (migrate_database win32 integrity_ok st_mtime roots new_home true force).
Proof. unfold migrate_database. reads_tac. Qed.
Lemma dry_logs : reads (migrate_logs win32 roots new_home true force).
Proof. unfold migrate_logs. reads_tac. Qed.
Lemma dry_store : reads (migrate_store win32 roots new_home true force).
Proof. unfold migrate_store. reads_tac. Qed.
Lemma dry_plugins : reads (migrate_plugins win32 roots new_home true force).
Proof. unfold migrate_plugins. reads_tac. Qed.
Lemma dry_gpxtracker : reads (migrate_gpxtracker win32 yaml user_home cwd home_of roots new_home true force).
Proof. unfold migrate_gpxtracker. reads_tac. Qed.
Lemma dry_service : reads (migrate_service win32 user_home sv true force).
Proof. unfold migrate_service. reads_tac. Qed.
#[local] Hint Resolve dry_credentials dry_config dry_database dry_logs dry_store dry_plugins dry_gpxtracker
  dry_service : reads_db.

Lemma reads_run_steps steps : Forall (λ s, reads s.2) steps → ∀ ms done, reads (run_steps steps ms done).
Proof. induction 1 as [|[step func] rest Hf _ IH]; intros ms done; cbn [run_steps]; reads_tac. Qed.
Lemma dry_steps ms done :
  reads (run_steps (migration_steps win32 json_load yaml integrity_ok st_mtime user_home cwd home_of sv
                      roots new_home true force) ms done).
Proof. apply reads_run_steps. repeat constructor; cbn; auto with reads_db. Qed.
End dry.

(** A dry run changes no file, whatever it finds and whatever cannot be read: the tree after it is
    the tree before. *)
Theorem dry_run_changes_nothing win32 json_load yaml integrity_ok st_mtime user_home cwd home_of sv
    legacy_sources new_home running free force k :
  tree (perform_migration win32 json_load yaml integrity_ok st_mtime user_home cwd home_of sv
          legacy_sources new_home running free true force k).2 = tree k.
Proof.
  revert k. change (reads (perform_migration win32 json_load yaml integrity_ok st_mtime user_home cwd home_of sv
    legacy_sources new_home running free true force)).
  unfold perform_migration, run_locked, release_lock, f_when, f_succeeds. cbn [negb andb].
  pose proof (dry_steps win32 json_load yaml integrity_ok st_mtime user_home cwd home_of sv) as Hs.
  reads_tac.
Qed.

(** ** Without --force *)

(** Whether the destination of a step counts as there already. *)
Definition destination_there (step : pystr) (new_home : path) (t : files) : bool :=
  if bool_decide (step = CREDENTIALS) then exists_at (credentials_path new_home) t
  else if bool_decide (step = CONFIG) then exists_at (CONFIG_FILENAME :: new_home) t
  else if bool_decide (step = DATABASE) then exists_at (DATABASE_FILENAME :: database_dir new_home) t
  else if bool_decide (step = LOGS) then _dir_has_entries (LOGS :: new_home) t
  else if bool_decide (step = STORE) then _dir_has_entries (store_dir new_home) t
  else if bool_decide (step = PLUGINS) then
    existsb (λ plugin_type, _dir_has_entries (plugin_type :: PLUGINS :: new_home) t)
      [u "custom"; u "community"; u "core"]
  else if bool_decide (step = GPXTRACKER) then
    _dir_has_entries (u "data" :: u "gpxtracker" :: u "community" :: u "plugins" :: new_home) t
  else false.

Definition stays {A : Type} (t0 : files) (m : F A) : Prop := ∀ k, tree k = t0 → tree (m k).2 = t0.
Lemma stays_reads {A : Type} (t0 : files) (m : F A) : reads m → stays t0 m.
Proof. intros H k Hk. by rewrite H. Qed.
Lemma stays_get {A B : Type} (t0 : files) (f : files → A) (m : A → F B) : stays t0 (m (f t0)) → stays t0 (f_bind (f_get f) m).
Proof. intros H k Hk. rewrite f_bind_get, Hk. by apply H. Qed.
Lemma stays_bind {A B : Type} (t0 : files) (m : F A) (f : A → F B) : stays t0 m → (∀ a, stays t0 (f a)) → stays t0 (f_bind m f).
Proof.
  intros Hm Hf k Hk. unfold f_bind. specialize (Hm k Hk). destruct (m k) as [[a|e] k']; cbn in *; [|done].
  by apply Hf.
Qed.
Ltac stays_tac := repeat first [done | by apply stays_reads; reads_tac | apply stays_get; cbv beta | case_match | apply stays_bind; intros].

Lemma unforced_found win32 step new_home old new dry_run t : exists_at new t = true →
  stays t (migrate_found win32 step new_home old new dry_run false).
Proof. intros H. unfold migrate_found. apply stays_get. rewrite H. stays_tac. Qed.
Lemma stays_nothing t present new : stays t (nothing_found present new).
Proof. apply stays_reads, reads_nothing. Qed.

(** Without [--force] a step whose destination is there - the file, or a folder with entries - leaves
    every file as it is: there is no overwriting, and no moving away of legacy data that then has no
    place to go to.  This is for the steps in their order, but for the service file. *)
Theorem unforced_keeps_destination win32 json_load yaml integrity_ok st_mtime user_home cwd home_of sv
    roots new_home dry_run step func k :
  (step, func) ∈ migration_steps win32 json_load yaml integrity_ok st_mtime user_home cwd home_of sv
                   roots new_home dry_run false →
  destination_there step new_home (tree k) = true →
  tree (func k).2 = tree k.
Proof.
  intros Hin Hd. cut (stays (tree k) func); [by auto|]. unfold migration_steps in Hin.
  rewrite !elem_of_cons, elem_of_nil in Hin.
  destruct Hin as [[= -> ->]|[[= -> ->]|[[= -> ->]|[[= -> ->]|[[= -> ->]|[[= -> ->]|[[= -> ->]|[[= -> ->]|[]]]]]]]]].
  - change (exists_at (credentials_path new_home) (tree k) = true) in Hd.
    pose proof (λ s h o, unforced_found win32 s h o _ dry_run _ Hd) as Hf.
    unfold migrate_credentials, _looks_like_matrix_credentials. apply stays_get.
    case_match; [by apply stays_reads; reads_tac|apply Hf|].
    apply stays_get. apply stays_bind; [apply stays_reads; reads_tac|]. intros []; [apply Hf|apply stays_nothing].
  - change (exists_at (CONFIG_FILENAME :: new_home) (tree k) = true) in Hd.
    unfold migrate_config. apply stays_get. case_match; [by apply stays_reads; reads_tac| |apply stays_nothing].
    by apply unforced_found.
  - change (exists_at (DATABASE_FILENAME :: database_dir new_home) (tree k) = true) in Hd.
    unfold migrate_database. do 2 apply stays_get. fold (database_dir new_home). rewrite Hd. stays_tac.
  - change (_dir_has_entries (LOGS :: new_home) (tree k) = true) in Hd.
    unfold migrate_logs. apply stays_get. case_match; [|apply stays_nothing].
    do 2 apply stays_get. rewrite Hd. stays_tac.
  - change (_dir_has_entries (store_dir new_home) (tree k) = true) in Hd.
    unfold migrate_store. case_match; [stays_tac|]. apply stays_get.
    case_match; [stays_tac| |apply stays_nothing]. apply stays_get. fold (store_dir new_home). rewrite Hd. stays_tac.
  - change (existsb (λ plugin_type, _dir_has_entries (plugin_type :: PLUGINS :: new_home) (tree k))
            [u "custom"; u "community"; u "core"] = true) in Hd.
    unfold migrate_plugins. apply stays_get. case_match; [|apply stays_nothing].
    do 2 apply stays_get. cbv beta. rewrite Hd. stays_tac.
  - change (_dir_has_entries (u "data" :: u "gpxtracker" :: u "community" :: u "plugins" :: new_home) (tree k) = true) in Hd.
    unfold migrate_gpxtracker. apply stays_bind.
    { apply stays_reads. case_match; [apply reads_scan_gpx|apply reads_ret]. }
    intros old. do 2 apply stays_get. rewrite Hd.
    stays_tac; apply stays_nothing.
  - done.
Qed.

(** ** Order, errors and the lock *)

Definition never_raises {A : Type} (m : F A) : Prop := ∀ k, ∃ a k', m k = (Done a, k').
Lemma attempt_errors work broken k : match (attempt work broken k).1 with
                                     | Done _ => True | Raised e => is_os_error e = true end.
Proof.
  unfold attempt. cbv zeta. destruct (head (faults k)) as [[|no w m l]|]; [|done|]; by destruct (work (tree k)).
Qed.
Lemma ignoring_never work broken : never_raises (f_ignoring (attempt work broken)).
Proof.
  intros k. unfold f_ignoring, f_try. pose proof (attempt_errors work broken k) as H.
  destruct (attempt work broken k) as [[[]|e] k']; cbn in H; [by eexists _, _|]. rewrite H. by eexists _, _.
Qed.
Lemma succeeds_never work broken : never_raises (f_succeeds (attempt work broken)).
Proof.
  intros k. unfold f_succeeds, f_try, f_bind. pose proof (attempt_errors work broken k) as H.
  destruct (attempt work broken k) as [[[]|e] k']; cbn in H; [by eexists _, _|]. rewrite H. by eexists _, _.
Qed.
Lemma release_never dry_run lock_file : never_raises (release_lock dry_run lock_file).
Proof.
  intros k. unfold release_lock. rewrite f_bind_get. unfold f_when.
  destruct (negb dry_run && _); [apply ignoring_never|by eexists _, _].
Qed.

Lemma touch_errors p k : match (touch_new p k).1 with Done _ => True | Raised e => is_os_error e = true end.
Proof.
  unfold touch_new. rewrite f_bind_get. destruct (exists_at p (tree k)); [done|]. apply attempt_errors.
Qed.
Lemma acquire_never lock_file : never_raises (acquire_lock lock_file).
Proof.
  intros k. unfold acquire_lock, f_try, f_bind. pose proof (touch_errors lock_file k) as H.
  destruct (touch_new lock_file k) as [[[]|e] k']; cbn in H; [by eexists _, _|].
  destruct e as [no w| |]; [|done|done]. destruct no; by eexists _, _.
Qed.
(** Making the home makes folders only. *)
Lemma mkdirs_made p k : ∃ made k', f_succeeds (mkdirs p) k = (Done made, k') ∧
  (∀ q c, tree k !! q = Some (File c) ↔ tree k' !! q = Some (File c)) ∧
  (∀ q, exists_at q (tree k) = true → exists_at q (tree k') = true).
Proof.
  assert (∀ l q, exists_at q (tree k) = true → exists_at q (add_folders l (tree k)) = true) as Hmono.
  { intros l q (r & n & Hr)%exists_at_true. apply exists_at_true. exists r, n. by apply add_folders_mono. }
  unfold f_succeeds, f_try, f_bind, mkdirs, attempt, make_dirs. cbv beta zeta.
  destruct (head (faults k)) as [[|no w m l]|]; [| |]; try destruct (existsb _ _); cbn;
    eexists _, _; (split; [done|]); split; cbn; auto; intros q c; apply add_folders_file.
Qed.

(** A run of steps from a disk to a disk, with what is recorded of each, which were complete, and the
    error that ended it. *)
Inductive ran : list (pystr * F step_result) → disk → list (pystr * step_result) → list pystr → option exn →
    disk → Prop :=
  | ran_all k : ran [] k [] [] None k
  | ran_done step func rest k r k1 ms done err k2 :
      func k = (Done r, k1) → success r = true → ran rest k1 ms done err k2 →
      ran ((step, func) :: rest) k ((step, r) :: ms) (step :: done) err k2
  | ran_unsuccessful step func rest k r k1 :
      func k = (Done r, k1) → success r = false →
      ran ((step, func) :: rest) k [(step, r)] [] (Some (MigrationError step)) k1
  | ran_raised step func rest k e k1 :
      func k = (Raised e, k1) →
      ran ((step, func) :: rest) k [(step, failure_result)] [] (Some e) k1.

Lemma run_steps_ran steps : ∀ ms done k, ∃ ms' done' err k',
  run_steps steps ms done k = (Done (ms ++ ms', done ++ done', err), k') ∧ ran steps k ms' done' err k'.
Proof.
  induction steps as [|[step func] rest IH]; intros ms done k.
  { exists [], [], None, k. rewrite !app_nil_r. split; [done|constructor]. }
  cbn [run_steps]. unfold f_bind, f_try at 1. destruct (func k) as [[r|e] k1] eqn:Hf; cbn.
  - destruct (success r) eqn:Hr.
    + destruct (IH (ms ++ [(step, r)]) (done ++ [step]) k1) as (ms' & done' & err & k' & -> & Hran).
      exists ((step, r) :: ms'), (step :: done'), err, k'. rewrite <- !app_assoc. split; [done|]. by econstructor.
    + exists [(step, r)], [], (Some (MigrationError step)), k1. rewrite app_nil_r. split; [done|]. by econstructor.
  - exists [(step, failure_result)], [], (Some e), k1. rewrite app_nil_r. split; [done|]. by econstructor.
Qed.

(** ** What a rollback does *)

(** The entries of a rollback's report, as changes of the tree: the files of a backup are at the
    restored place, and those elsewhere are still there; a removed path is gone. *)
Inductive undoes : files → list rolled_back → files → Prop :=
  | undoes_nil t : undoes t [] t
  | undoes_restored step b p l t t1 t2 :
      lands b p t t1 → keeps (λ q, ¬ p `suffix_of` q) t t1 → undoes t1 l t2 → undoes t (Restored step b p :: l) t2
  | undoes_removed step p l t t2 : undoes (outside p t) l t2 → undoes t (Removed step p :: l) t2
  | undoes_skipped step p l t t2 : undoes t l t2 → undoes t (Skipped step p :: l) t2.

Lemma undoes_app t l t1 l' t2 : undoes t l t1 → undoes t1 l' t2 → undoes t (l ++ l') t2.
Proof. induction 1; intros; cbn; [done|econstructor; eauto..]. Qed.

(** The backups of a destination: in the folder of backups beside it or, if that has none, in the
    one of the home; the newest of them. *)
Section undone.
Context (st_mtime : files → path → Z) (new_home : path).
Definition backups_in (dir new : path) (t : files) : list path :=
  filter (λ b, startswith (name b) (name new) = true) (iterdir dir t).
Definition backups_of (new : path) (t : files) : list path :=
  match backups_in (MIGRATION_BACKUP_DIRNAME :: parent new) new t with
  | [] => backups_in (MIGRATION_BACKUP_DIRNAME :: new_home) new t
  | l => l
  end.
Definition newest_backup (new : path) (t : files) (b : path) : Prop :=
  b ∈ backups_of new t ∧ ∀ b', b' ∈ backups_of new t → st_mtime t b' ≤ st_mtime t b.

(** What is to be done for a step, from its recorded result: every backup it names is restored, and
    then files it brought may go; without backups the newest one of its destination is restored, if
    there is one; a step that moved nothing has nothing to undo. *)
Definition covers (t : files) (step : pystr) (result : option step_result) (l : list rolled_back) : Prop :=
  match result with
  | None => l = []
  | Some r =>
      match act r, new_path r with
      | Some (AlreadyAtTarget | AlreadyMigrated | NotFound | SkipForceRequired), _ | _, None => l = []
      | _, Some new =>
          match backed_up_files r with
          | [] => backups_of new t = [] ∧ l = [Skipped step new] ∨ ∃ b, newest_backup new t b ∧ l = [Restored step b new]
          | backups => ∃ gone, gone `sublist_of` migrated_files r ∧ (∀ p, p ∈ gone → p ∉ snd <$> backups) ∧
              l = ((λ b, Restored step b.1 b.2) <$> backups) ++ (Removed step <$> gone)
          end
      end
  end.
(** Steps undone one after the other, from a tree to a tree. *)
Inductive undoing (results : pystr → option step_result) : list pystr → files → list rolled_back → files → Prop :=
  | undoing_nil t : undoing results [] t [] t
  | undoing_cons step steps l l' t t1 t2 : covers t step (results step) l → undoes t l t1 →
      undoing results steps t1 l' t2 → undoing results (step :: steps) t (l ++ l') t2.
End undone.

Lemma iterdir_absent p t : exists_at p t = false → iterdir p t = [].
Proof.
  intros Hp. unfold iterdir. assert (omap (entry p) ((map_to_list t).*1 : list path) = []) as ->; [|done].
  apply elem_of_nil_inv. intros q (q' & ([q2 n] & -> & Hin)%list_elem_of_fmap & He)%list_elem_of_omap.
  apply elem_of_map_to_list in Hin. cbn in He. unfold entry in He. destruct (rel p q2) as [r|] eqn:Hr; [|done].
  apply rel_Some in Hr as ->. rewrite exists_at_false in Hp. by rewrite Hp in Hin.
Qed.
Lemma find_backup_newest st_mtime new_home new t :
  match find_backup_for_step st_mtime new_home new t with
  | Some b => newest_backup st_mtime new_home new t b
  | None => backups_of new_home new t = []
  end.
Proof.
  unfold find_backup_for_step, newest_backup, backups_of. cbn [first_some].
  assert (∀ dir, (if exists_at dir t then max_by (st_mtime t)
      (filter (λ b, startswith (name b) (name new) = true) (iterdir dir t)) else None)
    = max_by (st_mtime t) (backups_in dir new t)) as Hdir.
  { intros dir. unfold backups_in. destruct (exists_at dir t) eqn:He; [done|]. by rewrite iterdir_absent. }
  rewrite !Hdir.
  assert (∀ l, match max_by (st_mtime t) l with
               | Some b => b ∈ l ∧ ∀ b', b' ∈ l → st_mtime t b' ≤ st_mtime t b | None => l = [] end) as Hmax.
  { intros l. destruct (max_by (st_mtime t) l) as [b|] eqn:Hm; [by apply max_by_max|]. destruct l as [|b l]; [done|].
    destruct (max_by_some (st_mtime t) (b :: l) b) as [c Hc]; [by left|]. congruence. }
  pose proof (Hmax (backups_in (MIGRATION_BACKUP_DIRNAME :: parent new) new t)) as H1.
  pose proof (Hmax (backups_in (MIGRATION_BACKUP_DIRNAME :: new_home) new t)) as H2.
  destruct (max_by _ (backups_in (_ :: parent new) new t)) as [b|].
  - destruct (backups_in (_ :: parent new) new t); [by destruct H1 as [?%not_elem_of_nil _]|done].
  - rewrite H1. by destruct (max_by _ (backups_in (_ :: new_home) new t)).
Qed.

Definition os_only {A : Type} (m : F A) : Prop :=
  ∀ k, match (m k).1 with Done _ => True | Raised e => is_os_error e = true end.
Lemma os_only_bind {A B : Type} (m : F A) (f : A → F B) : os_only m → (∀ a, os_only (f a)) → os_only (f_bind m f).
Proof.
  intros Hm Hf k. unfold f_bind. specialize (Hm k). destruct (m k) as [[a|e] k1]; cbn in *; [apply Hf|done].
Qed.
Lemma succeeds_os_only (m : F unit) : os_only m → never_raises (f_succeeds m).
Proof.
  intros Hm k. unfold f_succeeds, f_try, f_bind. specialize (Hm k).
  destruct (m k) as [[[]|e] k1]; cbn in Hm; [by eexists _, _|]. rewrite Hm. by eexists _, _.
Qed.
Lemma succeeds_true (m : F unit) k k' : f_succeeds m k = (Done true, k') → m k = (Done tt, k').
Proof.
  unfold f_succeeds, f_try, f_bind. destruct (m k) as [[[]|e] k1]; cbn; [by intros [= ->]|]. by destruct (is_os_error e).
Qed.
Lemma attempt_done work broken k k' : attempt work broken k = (Done tt, k') → work (tree k) = Some (tree k').
Proof.
  unfold attempt. cbv zeta. destruct (head (faults k)) as [[|no w m l]|]; [|done|];
    destruct (work (tree k)); intros [= <-]; done.
Qed.

Lemma restore_os_only b p :
  os_only (mkdirs (parent p);; there <- f_get (exists_at p);; folder <- f_get (is_dir p);;
     f_when there (if folder : bool then rmtree p else unlink p);;
     backup_folder <- f_get (is_dir b);; if backup_folder : bool then copytree b p else copy2 b p).
Proof.
  repeat first [apply os_only_bind; [|intros ?] | exact (λ k, I) | intros k; apply attempt_errors | progress unfold f_when | case_match].
Qed.
(** What has been cleared away is not there, and neither is what the copy is made of, if it lay there. *)
Lemma restore_from_backup_true b p k k' : restore_from_backup b p k = (Done true, k') →
  lands b p (tree k) (tree k') ∧ keeps (λ q, ¬ p `suffix_of` q) (tree k) (tree k').
Proof.
  unfold restore_from_backup. intros Hs%succeeds_true. unfold f_bind at 1 in Hs.
  destruct (mkdirs (parent p) k) as [[[]|] k1] eqn:Hm; [|done]. apply attempt_done in Hm.
  rewrite !f_bind_get in Hs. unfold f_bind at 1 in Hs.
  assert (∃ k2, f_when (exists_at p (tree k1)) (if is_dir p (tree k1) then rmtree p else unlink p) k1 = (Done tt, k2) ∧
    (b_dir <- f_get (is_dir b);; if b_dir : bool then copytree b p else copy2 b p) k2 = (Done tt, k')) as (k2 & Hw & Hc).
  { destruct (f_when _ _ k1) as [[[]|] k2]; [by exists k2|done]. }
  assert (clear p (tree k2) ∧ keeps (λ q, ¬ p `suffix_of` q) (tree k1) (tree k2) ∧
    ∀ q n, tree k2 !! q = Some n → tree k1 !! q = Some n) as (Hclear & Hkeep & Hback).
  { destruct (exists_at p (tree k1)) eqn:He; cbn [f_when] in Hw; [|injection Hw as <-; split_and!; [done|intros ??|]; done].
    assert (tree k2 = outside p (tree k1)) as ->.
    { destruct (is_dir p (tree k1)); apply attempt_done in Hw; [by apply rm_tree_spec|by apply unlink_file_spec]. }
    split_and!; [apply exists_at_outside|apply outside_keeps|]. by intros q n [? _]%lookup_outside. }
  assert (lands b p (tree k2) (tree k') ∧ keeps (λ q, ¬ p `suffix_of` q) (tree k2) (tree k') ∧
    exists_at b (tree k2) = true ∧ (is_file b (tree k2) = true ∨ ¬ b `suffix_of` p)) as (Hl & Hk & Hb & Hkind).
  { rewrite f_bind_get in Hc. destruct (is_dir b (tree k2)) eqn:Hd; apply attempt_done in Hc.
    - pose proof (copy_tree_spec _ _ _ _ Hc) as [??]. unfold copy_tree in Hc. rewrite Hd in Hc.
      destruct (_ && _) eqn:Hg in Hc; [|done]. bool_prop.
      split_and!; [done| |by apply is_dir_true in Hd as [? _]|by right]. intros q c _. auto.
    - pose proof (copy_file_spec _ _ _ _ Hclear Hc) as [??]. unfold copy_file in Hc.
      destruct (is_file b (tree k2)) eqn:Hf; [|done].
      split_and!; [done| |by apply is_file_exists|by left]. intros q c _. auto. }
  split.
  - intros r c Hr. apply Hl, Hkeep; [|by apply (make_dirs_file _ _ _ _ _ Hm)].
    intros [s Hrs]. destruct (suffix_weak_total b p (r ++ b)) as [Hbp|Hpb]; [by exists r|by exists s|..].
    + destruct Hkind as [[c' Hf]%is_file_true|Hn]; [|done].
      destruct Hbp as [[|x y] ->]; [by rewrite (clear_suffix _ _ _ Hclear) in Hf|].
      apply Hback, (make_dirs_file _ _ _ _ _ Hm) in Hf. unfold make_dirs in Hm.
      destruct (existsb _ _) eqn:Hx; [done|]. apply not_true_iff_false in Hx. apply Hx, existsb_elem_of.
      exists b. split; [apply elem_of_tails; by exists y|]. apply is_file_true. eauto.
    + apply exists_at_true in Hb as (r' & n & Hn). rewrite (clear_suffix p) in Hn; [done|done|].
      etrans; [exact Hpb|by exists r'].
  - eapply keeps_trans; [|exact Hk]. eapply keeps_trans; [|exact Hkeep].
    intros q c _. by apply (make_dirs_file _ _ _ _ _ Hm).
Qed.

(** From a report to a later one: if that says success, so did the first, and the entries that
    were added are changes of the tree that [spec] allows. *)
Definition reports (spec : list rolled_back → Prop) (r : rollback_report) (k : disk) (r' : rollback_report) (k' : disk) : Prop :=
  rb_success r' = true → rb_success r = true ∧
    ∃ l, spec l ∧ rolled_back_steps r' = rolled_back_steps r ++ l ∧ undoes (tree k) l (tree k').

Lemma reports_none (spec : list rolled_back → Prop) r k : spec [] → reports spec r k r k.
Proof. intros Hs H. split; [done|]. exists []. rewrite app_nil_r. split_and!; [done..|constructor]. Qed.
Lemma reports_failed spec step r k k' : reports spec r k (rb_fail step r) k'.
Proof. done. Qed.
Lemma reports_trans (s1 s2 s3 : list rolled_back → Prop) r k r1 k1 r2 k2 :
  (∀ l l', s1 l → s2 l' → s3 (l ++ l')) → reports s1 r k r1 k1 → reports s2 r1 k1 r2 k2 → reports s3 r k r2 k2.
Proof.
  intros Hs H1 H2 H. destruct (H2 H) as (Hm & l2 & ? & Hr2 & ?). destruct (H1 Hm) as (? & l1 & ? & Hr1 & ?).
  split; [done|]. exists (l1 ++ l2). split_and!; [by apply Hs|by rewrite Hr2, Hr1, app_assoc|by eapply undoes_app].
Qed.
Lemma reports_done (x : rolled_back) r k k' : undoes (tree k) [x] (tree k') → reports (.= [x]) r k (rb_done x r) k'.
Proof. intros Hx H. split; [done|]. by exists [x]. Qed.

Lemma restore_never b p : never_raises (restore_from_backup b p).
Proof. apply succeeds_os_only, restore_os_only. Qed.
Lemma restored_reports step b p r k ok k' : restore_from_backup b p k = (Done ok, k') →
  reports (.= [Restored step b p]) r k (if ok then rb_done (Restored step b p) r else rb_fail step r) k'.
Proof.
  destruct ok; [|intros; apply reports_failed]. intros [??]%restore_from_backup_true. apply reports_done.
  econstructor; [done..|constructor].
Qed.

Lemma restore_each_reports step bs : ∀ all r k, ∃ ok r' k', restore_each step bs all r k = (Done (ok, r'), k') ∧
  reports (.= (λ b, Restored step b.1 b.2) <$> bs) r k r' k'.
Proof.
  induction bs as [|[b p] bs IH]; intros all r k; cbn [restore_each].
  { exists all, r, k. split; [done|]. by apply reports_none. }
  unfold f_bind at 1. destruct (restore_never b p k) as (ok & k1 & Hr). rewrite Hr.
  pose proof (restored_reports step b p r k ok k1 Hr) as H1.
  destruct ok; [destruct (IH all (rb_done (Restored step b p) r) k1) as (ok & r' & k' & -> & H2)
               |destruct (IH false (rb_fail step r) k1) as (ok & r' & k' & -> & H2)];
    exists ok, r', k'; (split; [done|]); by eapply reports_trans; [|exact H1|exact H2]; intros l l' -> ->.
Qed.

Lemma remove_each_reports step restored ps : ∀ r k, ∃ r' k', remove_each step restored ps r k = (Done r', k') ∧
  reports (λ l, ∃ gone, gone `sublist_of` ps ∧ (∀ p, p ∈ gone → p ∉ restored) ∧ l = Removed step <$> gone) r k r' k'.
Proof.
  induction ps as [|p ps IH]; intros r k; cbn [remove_each].
  { exists r, k. split; [done|]. apply reports_none. exists []. split_and!; [done|by intros p ?%not_elem_of_nil|done]. }
  rewrite f_bind_get. destruct (bool_decide (p ∈ restored) || negb (exists_at p (tree k))) eqn:Hc.
  { destruct (IH r k) as (r' & k' & -> & H). exists r', k'. split; [done|].
    intros Hs. destruct (H Hs) as (? & l & (gone & ? & ? & ->) & ? & ?). split; [done|]. eexists.
    split_and!; [|done..]. exists gone. split_and!; [by apply sublist_cons|done..]. }
  apply orb_false_iff in Hc as [Hc%bool_decide_eq_false _]. rewrite f_bind_get. unfold f_bind at 1.
  assert (os_only (if is_dir p (tree k) then rmtree p else unlink p)) as Hos
    by (destruct (is_dir p (tree k)); intros k0; apply attempt_errors).
  destruct (succeeds_os_only _ Hos k) as (ok & k1 & Hr). rewrite Hr.
  assert (reports (.= [Removed step p]) r k (if ok then rb_done (Removed step p) r else rb_fail step r) k1) as H1.
  { destruct ok; [|apply reports_failed]. apply reports_done. apply succeeds_true in Hr.
    assert (tree k1 = outside p (tree k)) as ->; [|repeat constructor].
    destruct (is_dir p (tree k)); apply attempt_done in Hr; [by apply rm_tree_spec|by apply unlink_file_spec]. }
  destruct (IH (if ok then rb_done (Removed step p) r else rb_fail step r) k1) as (r' & k' & -> & H2).
  exists r', k'. split; [done|]. eapply reports_trans; [|exact H1|exact H2].
  intros l l' -> (gone & ? & Hg & ->). exists (p :: gone). split_and!; [by apply sublist_skip| |done].
  intros q [->|Hq]%elem_of_cons; [done|by apply Hg].
Qed.

Lemma rollback_step_reports st_mtime new_home step result r k : ∃ r' k',
  rollback_step st_mtime new_home step result r k = (Done r', k') ∧
  reports (covers st_mtime new_home (tree k) step (Some result)) r k r' k'.
Proof.
  unfold rollback_step, covers.
  destruct (act result) as [[]|], (new_path result) as [new|];
    try (exists r, k; split; [done|by apply reports_none]); (destruct (backed_up_files result) as [|b bs] eqn:Hb;
    [rewrite f_bind_get; pose proof (find_backup_newest st_mtime new_home new (tree k)) as Hnew;
     destruct (find_backup_for_step _ _ _ _) as [backup|];
       [unfold f_bind; destruct (restore_never backup new k) as (ok & k1 & Hr); rewrite Hr;
        eexists _, k1; split; [done|]; intros Hs;
        destruct (restored_reports step backup new r k ok k1 Hr) as (? & l & -> & ?); [done|split; [done|]; eauto 6]
       |eexists _, k; split; [done|]; intros Hs; split; [done|]; eexists; split_and!; [by left|done|repeat constructor]]
    |unfold f_bind at 1;
     destruct (restore_each_reports step (b :: bs) true r k) as (ok & r1 & k1 & -> & H1); cbn [fst snd];
     destruct (_ || only_sidecars step _);
       [exists r1, k1; split; [done|]; intros Hs; destruct (H1 Hs) as (? & l & -> & ?); split; [done|]; eexists;
        split; [|done]; exists []; split_and!; [apply sublist_nil_l|by intros p ?%not_elem_of_nil|by rewrite app_nil_r]
       |destruct (remove_each_reports step (snd <$> b :: bs) (migrated_files result) r1 k1) as (r2 & k2 & -> & H2);
        exists r2, k2; split; [done|]; eapply reports_trans; [|exact H1|exact H2];
        intros l l' -> (gone & ? & ? & ->); by exists gone]]).
Qed.

Lemma rollback_steps_reports st_mtime new_home ms steps : ∀ r k, ∃ r' k',
  rollback_steps st_mtime new_home ms steps r k = (Done r', k') ∧
  (rb_success r' = true → rb_success r = true ∧ ∃ l, rolled_back_steps r' = rolled_back_steps r ++ l ∧
     undoing st_mtime new_home (λ step, result_of step ms) steps (tree k) l (tree k')).
Proof.
  induction steps as [|step steps IH]; intros r k; cbn [rollback_steps].
  { exists r, k. split; [done|]. intros Hs. split; [done|]. exists []. rewrite app_nil_r. split; [done|constructor]. }
  unfold f_bind at 1.
  assert (∃ r1 k1, match result_of step ms with
      | Some result => f_try (rollback_step st_mtime new_home step result r)
          (λ e, if is_os_error e then f_ret (rb_fail step r) else f_raise e)
      | None => f_ret r end k = (Done r1, k1) ∧
      reports (covers st_mtime new_home (tree k) step (result_of step ms)) r k r1 k1) as (r1 & k1 & -> & H1).
  { destruct (result_of step ms) as [result|]; [|exists r, k; split; [done|by apply reports_none]].
    destruct (rollback_step_reports st_mtime new_home step result r k) as (r1 & k1 & Hr & H1).
    exists r1, k1. unfold f_try. by rewrite Hr. }
  destruct (IH r1 k1) as (r2 & k2 & -> & H2). exists r2, k2. split; [done|].
  intros Hs. destruct (H2 Hs) as (Hm & l2 & Hr2 & Hu2). destruct (H1 Hm) as (? & l1 & Hc & Hr1 & Hu1).
  split; [done|]. exists (l1 ++ l2). split; [by rewrite Hr2, Hr1, app_assoc|]. by econstructor.
Qed.

(** A rollback never raises; when its report says success, the completed steps are undone, from the last to
    the first, before the staging area goes. *)
Definition undone (st_mtime : files → path → Z) (new_home : path) (ms : list (pystr * step_result)) (done : list pystr) (k : disk)
    (rb : rollback_report) (k' : disk) : Prop :=
  rb_success rb = true → ∃ t,
    undoing st_mtime new_home (λ step, result_of step ms) (reverse done) (tree k) (rolled_back_steps rb) t ∧
    keeps (λ q, ¬ MIGRATION_STAGING_DIRNAME :: new_home `suffix_of` q) t (tree k').

Lemma rmtree_ignoring_keeps p k : ∃ k', rmtree_ignoring p k = (Done tt, k') ∧
  keeps (λ q, ¬ p `suffix_of` q) (tree k) (tree k').
Proof.
  unfold rmtree_ignoring, f_try, rmtree, attempt. cbv zeta. destruct (head (faults k)) as [[|no w m l]|]; cbn.
  2:{ eexists. split; [done|]. apply removed_part_keeps. }
  all: destruct (rm_tree p (tree k)) as [t|] eqn:Hr; eexists; (split; [done|]); cbn;
    [apply rm_tree_spec in Hr as ->; apply outside_keeps|by intros q c _].
Qed.

Lemma rollback_migration_undone st_mtime done ms new_home k : ∃ rb k',
  rollback_migration st_mtime done ms new_home k = (Done rb, k') ∧ undone st_mtime new_home ms done k rb k'.
Proof.
  unfold rollback_migration, undone. unfold f_bind at 1.
  destruct (rollback_steps_reports st_mtime new_home ms (reverse done) (RollbackReport true [] []) k)
    as (rb & k1 & -> & H). rewrite f_bind_get.
  assert (∃ k2, f_when (rb_success rb && exists_at (MIGRATION_STAGING_DIRNAME :: new_home) (tree k1))
     (rmtree_ignoring (MIGRATION_STAGING_DIRNAME :: new_home)) k1 = (Done tt, k2) ∧
     keeps (λ q, ¬ MIGRATION_STAGING_DIRNAME :: new_home `suffix_of` q) (tree k1) (tree k2)) as (k2 & Hw & Hk).
  { unfold f_when. destruct (_ && _); [apply rmtree_ignoring_keeps|]. exists k1. split; [done|]. by intros q c _. }
  unfold f_bind. rewrite Hw. exists rb, k2. split; [done|]. intros Hs.
  destruct (H Hs) as (_ & l & Heq & Hu). cbn in Heq. rewrite Heq. eauto.
Qed.

(** The files but for the lock are kept. *)
Abbreviation tree_but_lock new_home k k' :=
  (keeps (λ q, ¬ MIGRATION_LOCK_FILENAME :: new_home `suffix_of` q) (tree k) (tree k')).

(** What a run under the lock does, from the disk [k]: the steps, and the rollback if one fails. *)
Definition run_reported (st_mtime : files → path → Z) (steps : list (pystr * F step_result)) (new_home : path) (dry_run : bool)
    (k : disk) (r : report) (k' : disk) : Prop :=
  ∃ err k1, ran steps k (migrations r) (completed_steps r) err k1 ∧ rollback_failed r = false ∧
    match err with
    | None => rp_success r = true ∧ rollback r = None ∧ tree_but_lock new_home k1 k'
    | Some e =>
        rp_success r = false ∧ rp_error r = Some (StepFailed e) ∧ e ≠ OtherError ∧
        if dry_run || bool_decide (completed_steps r = []) then rollback r = None ∧ tree_but_lock new_home k1 k'
        else ∃ rb k2, rollback r = Some rb ∧ undone st_mtime new_home (migrations r) (completed_steps r) k1 rb k2 ∧
               tree_but_lock new_home k2 k'
    end.

Lemma release_keeps dry_run new_home k :
  ∃ k', release_lock dry_run (MIGRATION_LOCK_FILENAME :: new_home) k = (Done tt, k') ∧ tree_but_lock new_home k k'.
Proof.
  destruct (release_never dry_run (MIGRATION_LOCK_FILENAME :: new_home) k) as ([] & k' & Hr).
  exists k'. split; [done|]. revert Hr. unfold release_lock. rewrite f_bind_get. unfold f_when.
  destruct (_ && _); [|intros [= <-]; by intros q c].
  unfold f_ignoring, f_try, unlink, attempt. cbv zeta. destruct (head (faults k)) as [[|no w m l]|]; cbn.
  2: intros [= <-]; by intros q c.
  all: destruct (unlink_file _ (tree k)) as [t|] eqn:Hu; cbn; intros [= <-]; [|by intros q c];
    apply unlink_file_spec in Hu as ->; apply outside_keeps.
Qed.

Lemma run_locked_reported st_mtime steps new_home dry_run warned k :
  match run_locked st_mtime steps new_home (MIGRATION_LOCK_FILENAME :: new_home) dry_run warned k with
  | (Done r, k') => run_reported st_mtime steps new_home dry_run k r k'
  | (Raised e, _) => e = OtherError ∧ ∃ ms done k1, ran steps k ms done (Some OtherError) k1
  end.
Proof.
  unfold run_locked. unfold f_bind at 1.
  destruct (run_steps_ran steps [] [] k) as (ms & done & err & k1 & -> & Hr). cbn [app].
  destruct err as [e|].
  2:{ unfold f_bind. destruct (release_keeps dry_run new_home k1) as (k2 & -> & Hk). by exists None, k1. }
  assert (e ≠ OtherError → match (f_bind (if negb dry_run && negb (bool_decide (done = []))
      then f_try (f_bind (rollback_migration st_mtime done ms new_home) (λ r, f_ret (Some r, false)))
             (λ _, f_ret (None, true))
      else f_ret (None, false)) (λ rb, f_bind (release_lock dry_run (MIGRATION_LOCK_FILENAME :: new_home)) (λ _,
        f_ret (Report false (Some (StepFailed e)) ms done rb.1 rb.2))) k1) with
    | (Done r, k') => run_reported st_mtime steps new_home dry_run k r k'
    | (Raised e, _) => e = OtherError ∧ ∃ ms done k1, ran steps k ms done (Some OtherError) k1
    end) as Hgo; [|destruct e; [by apply Hgo|by apply Hgo|split; [done|by exists ms, done, k1]]].
  intros He. unfold f_bind at 1. destruct (negb dry_run && negb (bool_decide (done = []))) eqn:Hc.
  - destruct (rollback_migration_undone st_mtime done ms new_home k1) as (rb & k2 & Hrb & Hu).
    unfold f_try, f_bind at 1. rewrite Hrb. cbn [f_ret]. unfold f_bind.
    destruct (release_keeps dry_run new_home k2) as (k3 & -> & Hk). cbn.
    exists (Some e), k1. split_and!; [done..|]. cbn [completed_steps]. apply andb_prop in Hc as [->%negb_true_iff ->%negb_true_iff].
    by exists rb, k2.
  - unfold f_bind, f_ret. destruct (release_keeps dry_run new_home k1) as (k3 & -> & Hk). cbn.
    exists (Some e), k1. split_and!; [done..|]. cbn [completed_steps].
    by destruct dry_run, (bool_decide (done = [])).
Qed.

(** Why a run is refused, on the disk it starts from. *)
Definition refusal (running : bool) (free : option Z) (force : bool) (new_home : path) (k : disk) (e : run_error) : Prop :=
  match e with
  | InstanceRunning => running = true ∧ force = false
  | NoSpace => _check_disk_space free = false
  | NoHome => ∃ e k1, mkdirs new_home k = (Raised e, k1)
  | Locked => ∃ k1 w, mkdirs new_home k = (Done tt, k1) ∧
      (touch_new (MIGRATION_LOCK_FILENAME :: new_home) k1).1 = Raised (OSError EEXIST w)
  | StepFailed _ => False
  end.

Lemma acquire_cases lock_file k : ∃ go k', acquire_lock lock_file k = (Done go, k') ∧
  keeps (λ _, True) (tree k) (tree k') ∧ (go = false → ∃ w, (touch_new lock_file k).1 = Raised (OSError EEXIST w)).
Proof.
  unfold acquire_lock, f_try, f_bind. pose proof (touch_errors lock_file k) as H.
  assert (keeps (λ _, True) (tree k) (tree (touch_new lock_file k).2)) as Hk.
  { unfold touch_new. rewrite f_bind_get. destruct (exists_at lock_file (tree k)) eqn:He; [by intros q c|].
    assert (∀ c, keeps (λ _, True) (tree k) (<[lock_file := File c]> (tree k))) as Hi.
    { intros c q c' _ Hq. rewrite lookup_insert_ne; [done|]. intros <-.
      pose proof (clear_lookup lock_file (tree k) [] He) as Hn. cbn in Hn. by rewrite Hn in Hq. }
    unfold attempt. cbv zeta. destruct (head (faults k)) as [[|no w m l]|]; [|by intros q c|];
      destruct (is_dir _ (tree k)); cbn; first [apply Hi|by intros q c]. }
  destruct (touch_new lock_file k) as [[[]|e] k']; cbn in *; [by exists true, k'|].
  destruct e as [no w| |]; [|done|done]. destruct no; [by exists true, k'..| |by exists true, k'].
  exists false, k'. split_and!; [done..|]. by exists w.
Qed.

Lemma run_prepared st_mtime steps new_home running free dry_run force k (nothing : report → disk → Prop) :
  match
    (if negb dry_run && running && negb force then f_ret (refused InstanceRunning)
     else if negb dry_run && negb (_check_disk_space free) then f_ret (refused NoSpace)
     else f_bind (f_succeeds (f_when (negb dry_run) (mkdirs new_home))) (λ home_made,
       if negb home_made then f_ret (refused NoHome)
       else f_bind (if dry_run then f_ret true else acquire_lock (MIGRATION_LOCK_FILENAME :: new_home)) (λ go,
         if negb go then f_ret (refused Locked)
         else run_locked st_mtime steps new_home (MIGRATION_LOCK_FILENAME :: new_home) dry_run
                (if negb dry_run && running then Some InstanceRunning else None)))) k with
  | (Done r, k') =>
      nothing r k' ∨ (∃ e, r = refused e ∧ dry_run = false ∧ refusal running free force new_home k e) ∨
      ∃ k0, keeps (λ _, True) (tree k) (tree k0) ∧ run_reported st_mtime steps new_home dry_run k0 r k'
  | (Raised e, _) => e = OtherError ∧
      ∃ k0 ms done k1, keeps (λ _, True) (tree k) (tree k0) ∧ ran steps k0 ms done (Some OtherError) k1
  end.
Proof.
  assert (∀ k0 warned, keeps (λ _, True) (tree k) (tree k0) →
    match run_locked st_mtime steps new_home (MIGRATION_LOCK_FILENAME :: new_home) dry_run warned k0 with
    | (Done r, k') =>
        nothing r k' ∨ (∃ e, r = refused e ∧ dry_run = false ∧ refusal running free force new_home k e) ∨
        ∃ k0, keeps (λ _, True) (tree k) (tree k0) ∧ run_reported st_mtime steps new_home dry_run k0 r k'
    | (Raised e, _) => e = OtherError ∧
        ∃ k0 ms done k1, keeps (λ _, True) (tree k) (tree k0) ∧ ran steps k0 ms done (Some OtherError) k1
    end) as Hrun.
  { intros k0 warned Hk. pose proof (run_locked_reported st_mtime steps new_home dry_run warned k0) as H.
    destruct (run_locked _ _ _ _ _ _ k0) as [[r|e] k']; [right; right; by exists k0|].
    destruct H as (-> & ms & done & k1 & H). split; [done|]. by exists k0, ms, done, k1. }
  destruct dry_run; cbn [negb andb].
  { unfold f_bind, f_when. cbn. apply Hrun. by intros q c. }
  destruct (running && negb force) eqn:Hi.
  { apply andb_prop in Hi as [-> Hf%negb_true_iff]. right; left. by exists InstanceRunning. }
  destruct (_check_disk_space free) eqn:Hs; cbn [negb]; [|right; left; by exists NoSpace].
  unfold f_bind at 1, f_when. destruct (mkdirs_made new_home k) as (made & k1 & Hm & Hfiles & _). rewrite Hm.
  assert (keeps (λ _, True) (tree k) (tree k1)) as Hk1 by (intros q c _; apply Hfiles).
  destruct made; cbn [negb].
  2:{ right; left. exists NoHome. split_and!; [done..|]. cbn. unfold f_succeeds, f_try, f_bind in Hm.
      destruct (mkdirs new_home k) as [[[]|e] k2]; [done|]. by exists e, k2. }
  apply succeeds_true in Hm.
  unfold f_bind at 1. destruct (acquire_cases (MIGRATION_LOCK_FILENAME :: new_home) k1) as (go & k2 & -> & Hk2 & Hgo).
  destruct go; cbn [negb]; [by apply Hrun; eapply keeps_trans|].
  destruct (Hgo eq_refl) as [w Hw]. right; left. exists Locked. split_and!; [done..|]. by exists k1, w.
Qed.

(** C30: A migration with nothing to do reports success; one that is refused is so for its reason - an
    instance runs, there is no space, the home cannot be made, the lock is there - and a dry run
    never is.  Any other run calls the eight steps, each on the files the one before has left, in
    their order - credentials, configuration, database, logs, store, plugins, GPX files, service -
    and records what each gave.  It succeeds if all do.  It stops at the first that fails: that
    one is recorded and not complete, those before it are, and unless there is none or it is a dry
    run these are rolled back, from the last to the first: each backup a step names is copied back
    to its place, or the newest one found for a step that names none, and what a step brought
    may be removed; or the report of the rollback says that it did not succeed.  No error that a change of the
    files raises leaves a run; only another error of a step does.  (Tests whether a path exists are taken to answer.) *)
Theorem run_in_order win32 json_load yaml integrity_ok st_mtime user_home cwd home_of sv
    legacy_sources new_home running free dry_run force k :
  let roots := match legacy_sources with [] => [new_home] | _ => legacy_sources end in
  let steps :=
    [(CREDENTIALS, migrate_credentials win32 json_load user_home roots new_home dry_run force);
     (CONFIG, migrate_config win32 roots new_home dry_run force);
     (DATABASE, migrate_database win32 integrity_ok st_mtime roots new_home dry_run force);
     (LOGS, migrate_logs win32 roots new_home dry_run force);
     (STORE, migrate_store win32 roots new_home dry_run force);
     (PLUGINS, migrate_plugins win32 roots new_home dry_run force);
     (GPXTRACKER, migrate_gpxtracker win32 yaml user_home cwd home_of roots new_home dry_run force);
     (SERVICE, migrate_service win32 user_home sv dry_run force)] in
  match perform_migration win32 json_load yaml integrity_ok st_mtime user_home cwd home_of sv
          legacy_sources new_home running free dry_run force k with
  | (Done r, k') =>
      legacy_sources = [] ∧ is_migration_needed win32 new_home [] (tree k) = false ∧
        r = Report true None [] [] None false ∧ k' = k ∨
      (∃ e, r = refused e ∧ dry_run = false ∧ refusal running free force new_home k e) ∨
      ∃ k0, keeps (λ _, True) (tree k) (tree k0) ∧ run_reported st_mtime steps new_home dry_run k0 r k'
  | (Raised e, _) => e = OtherError ∧
      ∃ k0 ms done k1, keeps (λ _, True) (tree k) (tree k0) ∧ ran steps k0 ms done (Some OtherError) k1
  end.
Proof.
  cbv zeta. unfold perform_migration. rewrite f_bind_get.
  destruct legacy_sources as [|root roots] eqn:Hsrc.
  - destruct (is_migration_needed win32 new_home [] (tree k)) eqn:Hneed; [|by left].
    apply run_prepared.
  - apply run_prepared.
Qed.

(** While the lock is there no migration starts: the run is refused, and no file is written,
    moved or removed. *)
Theorem lock_excludes win32 json_load yaml integrity_ok st_mtime user_home cwd home_of sv
    root roots new_home running free force k :
  exists_at (MIGRATION_LOCK_FILENAME :: new_home) (tree k) = true →
  ∃ e k', perform_migration win32 json_load yaml integrity_ok st_mtime user_home cwd home_of sv
      (root :: roots) new_home running free false force k = (Done (refused e), k') ∧
    ∀ q c, tree k !! q = Some (File c) ↔ tree k' !! q = Some (File c).
Proof.
  intros Hlock. unfold perform_migration. rewrite f_bind_get. cbv zeta.
  destruct (negb false && running && negb force); [by eexists _, k|].
  destruct (negb false && negb (_check_disk_space free)); [by eexists _, k|].
  unfold f_bind at 1. cbn [negb f_when].
  destruct (mkdirs_made new_home k) as (made & k1 & -> & Hf & Hmono).
  destruct made; cbn [negb]; [|by eexists _, k1].
  unfold f_bind at 1. unfold acquire_lock, f_try, f_bind, touch_new. rewrite f_bind_get.
  rewrite Hmono by done. by eexists _, k1.
Qed.
