(* ===== verification/MigrateRuns.v ===== *)
(** * Runs of the migration on concrete trees

    Witnesses of the theorems on the migration, and runs that show what it does to data in some
    corners: rollbacks that discard what was staged or moved, a second run that leaves staged data
    behind, a backup of the service file that is never made. *)

From Stdlib Require Import QArith String.
From stdpp Require Import base tactics numbers sets gmap list sorting.
From S2P Require Import Prelude PyStr PyValue PyLib NameSync MigrateFs Migrate MigrateData MigrateDatabase MigrateRun.
Open Scope Z_scope.

Definition old_home : path := [u "old"; u "h"].
Definition the_home : path := [u "new"; u "h"].
Definition user : path := [u "h"].
Definition folders (l : list path) : files := add_folders (l ≫= tails) ∅.
Definition with_files (l : list (path * pystr)) : files :=
  foldr (λ f t, <[f.1 := File f.2]> t) (folders (parent <$> l.*1)) l.
Definition disk_of (l : list (path * pystr)) (faults : list outcome) : disk :=
  Disk (with_files l) faults [u "20250101_000000"; u "20250101_000001"; u "20250101_000002"] [].

Definition no_service : service := {| user_service_path := u "mmrelay.service" :: user;
                                      service_needs_update := false; service_content := None |}.
Definition migrate (force : bool) (k : disk) : outcome_of report * disk :=
  perform_migration false (λ _, None) None (λ _ _, true) (λ _ _, 0) user user (λ _, None) no_service
    [old_home] the_home false None false force k.

Definition has_content (c : pystr) (t : files) : bool :=
  existsb (λ kv : path * node, bool_decide (kv.2 = File c)) (map_to_list t).
Definition report_of (out : outcome_of report * disk) : option report :=
  match out.1 with Done r => Some r | Raised _ => None end.
Definition store_disk (faults : list outcome) : disk :=
  disk_of [(u "keys" :: STORE_DIRNAME :: old_home, u "olm keys")] faults.

(** The first [n] changes work, the next one breaks without a trace. *)
Definition breaks_after (n : nat) : list outcome := replicate n Works ++ [Breaks EOTHER None ∅ false].

(** The E2EE store was staged when its last move failed: the rollback of the steps before, which had
    nothing to do, succeeds and removes the staging area, and the keys with it. *)
Theorem staged_store_discarded :
  let k := store_disk (breaks_after 5) in
  let out := migrate false k in
  has_content (u "olm keys") (tree k) = true ∧ has_content (u "olm keys") (tree out.2) = false ∧
  match report_of out with
  | Some r => completed_steps r = [CREDENTIALS; CONFIG; DATABASE; LOGS] ∧
              rollback r = Some (RollbackReport true [] [])
  | None => False
  end.
Proof. by vm_compute. Qed.

(** The credentials were moved with [--force]; the store then failed.  The rollback puts the old
    credentials back over the new ones, which are nowhere else. *)
Definition forced_disk (faults : list outcome) : disk :=
  disk_of [(u "keys" :: STORE_DIRNAME :: old_home, u "olm keys");
           (CREDENTIALS_FILENAME :: old_home, u "legacy");
           (CREDENTIALS_FILENAME :: MATRIX_DIRNAME :: the_home, u "current")] faults.
Theorem moved_credentials_discarded :
  let k := forced_disk (breaks_after 8) in
  let out := migrate true k in
  has_content (u "legacy") (tree k) = true ∧ has_content (u "legacy") (tree out.2) = false ∧
  match rollback <$> report_of out with
  | Some (Some r) => rb_success r = true ∧ rb_errors r = []
  | _ => False
  end.
Proof. by vm_compute. Qed.

(** The credentials were staged when the first step failed: nothing is rolled back and they are kept.
    The run after it finds no credentials, reports success, and leaves them in the staging area. *)
Definition credentials_disk (faults : list outcome) : disk :=
  disk_of [(CREDENTIALS_FILENAME :: old_home, u "legacy")] faults.
Theorem staged_credentials_forgotten :
  let k := (migrate false (credentials_disk (breaks_after 5))).2 in
  let out := migrate false k in
  tree k !! (_get_staging_path the_home CREDENTIALS) = Some (File (u "legacy")) ∧
  match report_of out with
  | Some r => rp_success r = true ∧ act <$> result_of CREDENTIALS (migrations r) = Some (Some NotFound)
  | None => False
  end ∧
  exists_at (credentials_path the_home) (tree out.2) = false ∧
  tree out.2 !! (_get_staging_path the_home CREDENTIALS) = Some (File (u "legacy")).
Proof. by vm_compute. Qed.

(** The service file is written over, and the backup that is reported was never made. *)
Theorem service_backup_missing :
  let sv := {| user_service_path := u "mmrelay.service" :: user; service_needs_update := true;
               service_content := Some (u "new unit") |} in
  let k := disk_of [(u "mmrelay.service" :: user, u "my unit")] [] in
  let out := migrate_service false user sv false false k in
  match out.1 with
  | Done r => success r = true ∧
              match reported_backup r with Some b => exists_at b (tree out.2) = false | None => False end
  | Raised _ => False
  end ∧
  has_content (u "my unit") (tree k) = true ∧ has_content (u "my unit") (tree out.2) = false.
Proof. by vm_compute. Qed.

(** A GPX folder in the configuration that is a number ends the run in an error that nothing catches,
    with the steps before it done, no report, and the lock there until the process ends. *)
Definition gpx_config (_ : pystr) : loaded :=
  Loaded (VDict [(u "community-plugins", VDict [(u "gpxtracker", VDict [(u "gpx_directory", VInt 5)])])]).
Theorem bad_gpx_directory_escapes :
  let k := disk_of [(CONFIG_FILENAME :: old_home, u "config"); (CREDENTIALS_FILENAME :: old_home, u "legacy")] [] in
  let out := perform_migration false (λ _, None) (Some gpx_config) (λ _ _, true) (λ _ _, 0) user user (λ _, None)
    no_service [old_home] the_home false None false false k in
  out.1 = Raised OtherError ∧
  exists_at (credentials_path the_home) (tree out.2) = true ∧
  exists_at (MIGRATION_LOCK_FILENAME :: the_home) (tree out.2) = true ∧
  exists_at (MIGRATION_LOCK_FILENAME :: the_home)
    (tree (_cleanup_lock_file (Some (MIGRATION_LOCK_FILENAME :: the_home)) out.2).2) = false.
Proof. by vm_compute. Qed.

(** On Windows the move of a folder that was copied, and whose source could not be removed, is tried
    again: what is left of the source then goes into the destination, as a folder of it. *)
Theorem windows_retry_nests :
  let staging := _get_staging_path the_home PLUGINS in
  let k := disk_of [(u "a.py" :: staging, u "code")] [Works; Breaks EACCES (Some 32) ∅ true] in
  let out := _finalize_move true staging (PLUGINS :: the_home) k in
  out.1 = Done tt ∧
  tree out.2 !! (u "a.py" :: PLUGINS :: the_home) = Some (File (u "code")) ∧
  tree out.2 !! (u "a.py" :: PLUGINS :: PLUGINS :: the_home) = Some (File (u "code")).
Proof. by vm_compute. Qed.

(** ** Witnesses *)

Ltac for_times := unfold times, clear; apply Forall_forall; by_decide.
Ltac for_root := intros root ->%list_elem_of_singleton _; split_and!; [by_decide|by_decide|for_times].

Lemma credentials_survive_witness :
  let k := credentials_disk (breaks_after 3) in
  legacy_roots_apart k CREDENTIALS_FILENAME [old_home] (credentials_path the_home) (_get_staging_path the_home CREDENTIALS) ∧
  credentials_safe user [old_home] the_home false true k
    (migrate_credentials false (λ _, None) user [old_home] the_home false true k).
Proof.
  intros k. split; [for_root|]. apply credentials_survive; [for_times|for_root|].
  split_and!; [by_decide|by_decide|for_times].
Defined.
Lemma config_survive_witness :
  let k := disk_of [(CONFIG_FILENAME :: old_home, u "config")] (breaks_after 3) in
  legacy_roots_apart k CONFIG_FILENAME [old_home] (CONFIG_FILENAME :: the_home) (_get_staging_path the_home CONFIG) ∧
  step_safe (CONFIG_FILENAME :: the_home) (_get_staging_path the_home CONFIG) k
    (migrate_config false [old_home] the_home false true k).
Proof. intros k. split; [for_root|]. apply config_survive; [for_times|for_root]. Defined.
Lemma store_survives_witness :
  let k := store_disk (breaks_after 3) in
  legacy_roots_apart k STORE_DIRNAME [old_home] (store_dir the_home) (_get_staging_path the_home STORE) ∧
  step_safe (store_dir the_home) (_get_staging_path the_home STORE) k
    (migrate_store false [old_home] the_home false true k).
Proof. intros k. split; [for_root|]. apply store_survives; [for_times|for_root]. Defined.

Definition database_disk : disk :=
  disk_of [(DATABASE_FILENAME :: old_home, u "rows"); ((DATABASE_FILENAME ++ u "-wal") :: old_home, u "wal")] [].
Lemma database_dirs_apart d : legacy_db (database_dir the_home) [old_home] (tree database_disk) d →
  db_dir_apart database_disk d (database_dir the_home) (_get_staging_path the_home DATABASE).
Proof.
  intros (_ & root & ->%list_elem_of_singleton & _ & _ & Hdirs).
  assert (d ∈ db_dirs old_home) as Hd by (unfold db_dirs; rewrite !elem_of_cons; tauto).
  assert (Forall (λ d, Forall (λ n, apart (n :: d) (_get_staging_path the_home DATABASE) ∧
    Forall (λ m, apart (n :: d) (m :: database_dir the_home) ∧
      Forall (λ s, apart (n :: d) (backup_path (m :: database_dir the_home) BAK s)) ([] :: stamps database_disk))
    db_names) db_names) (db_dirs old_home)) as H by by_decide.
  rewrite Forall_forall in H. specialize (H d Hd). rewrite Forall_forall in H. intros n Hn.
  destruct (H n Hn) as [Ha Hm]. split; [done|]. intros m Hmm. rewrite Forall_forall in Hm.
  destruct (Hm m Hmm) as [Hb Hs]. split; [done|]. by apply Forall_forall.
Qed.
Lemma database_survives_witness :
  let newdb := database_dir the_home in
  let stg := _get_staging_path the_home DATABASE in
  clear stg (tree database_disk) ∧
  database_safe (λ _ _, 0) [old_home] the_home false true database_disk
    (migrate_database false (λ _ _, true) (λ _ _, 0) [old_home] the_home false true database_disk) ∧
  tree (migrate_database false (λ _ _, true) (λ _ _, 0) [old_home] the_home false true database_disk).2
    !! ((DATABASE_FILENAME ++ u "-wal") :: newdb) = Some (File (u "wal")).
Proof.
  intros newdb stg. assert (clear stg (tree database_disk)) as Hc by by vm_compute.
  split_and!; [done| |by vm_compute]. apply database_survives; [done| |apply database_dirs_apart].
  intros m s Hm Hs.
  assert (Forall (λ m, Forall (λ s, clear (backup_path (m :: newdb) BAK s) (tree database_disk)) ([] :: stamps database_disk))
    db_names) as H by (unfold clear; by_decide).
  rewrite Forall_forall in H. specialize (H m Hm). rewrite Forall_forall in H. by apply H.
Defined.

Lemma unforced_keeps_destination_witness :
  let k := forced_disk [] in
  let func := migrate_credentials false (λ _, None) user [old_home] the_home false false in
  destination_there CREDENTIALS the_home (tree k) = true ∧ tree (func k).2 = tree k.
Proof.
  intros k func. assert (destination_there CREDENTIALS the_home (tree k) = true) as Hd by by vm_compute.
  split; [done|].
  apply (unforced_keeps_destination false (λ _, None) None (λ _ _, true) (λ _ _, 0) user user (λ _, None)
    no_service [old_home] the_home false CREDENTIALS func k); [by left|done].
Defined.

Lemma lock_excludes_witness :
  let k := disk_of [(MIGRATION_LOCK_FILENAME :: the_home, []); (CREDENTIALS_FILENAME :: old_home, u "legacy")] [] in
  exists_at (MIGRATION_LOCK_FILENAME :: the_home) (tree k) = true ∧
  ∃ e k', migrate true k = (Done (refused e), k') ∧
    ∀ q c, tree k !! q = Some (File c) ↔ tree k' !! q = Some (File c).
Proof.
  intros k. assert (exists_at (MIGRATION_LOCK_FILENAME :: the_home) (tree k) = true) as Hl by by vm_compute.
  split; [done|]. by apply lock_excludes.
Defined.
