(* ===== verification/PurePath.v ===== *)
(** * Paths of pathlib

    [PurePosixPath] and [PureWindowsPath] of the standard library: a path is its drive, its root and
    the list of its names.  Both flavours are needed, because names of plugins are checked against
    both whatever the platform is. *)

From Stdlib Require Import String.
From stdpp Require Import base tactics list numbers sets.
From S2P Require Import Prelude PyStr PyValue PyLib.
Open Scope Z_scope.

Inductive flavour := Posix | Windows.
#[export] Instance flavour_eq_dec : EqDecision flavour.
Proof. solve_decision. Defined.

Record ppath := PPath { p_drive : pystr; p_root : pystr; p_tail : list pystr }.
#[export] Instance ppath_eq_dec : EqDecision ppath.
Proof. solve_decision. Defined.

Definition BACKSLASH : Z := 92.
Definition sep (f : flavour) : Z := match f with Posix => SLASH | Windows => BACKSLASH end.

(** [s.replace(altsep, sep)] *)
Definition use_sep (f : flavour) (s : pystr) : pystr :=
  match f with
  | Posix => s
  | Windows => map (λ c, if c =? SLASH then BACKSLASH else c) s
  end.

(** ASCII letters only: what [upper] is needed for is compared with ASCII text. *)
Definition ascii_upper (s : pystr) : pystr := map (λ c, if between 97 122 c then c - 32 else c) s.
Definition unc_prefix : pystr := u "\\?\UNC\".

(** [splitroot] of posixpath and ntpath, on a text without [altsep]. *)
Definition splitroot (f : flavour) (p : pystr) : pystr * pystr * pystr :=
  match f with
  | Posix =>
      if negb (startswith p (u "/")) then ([], [], p)
      else if negb (startswith p (u "//")) || startswith p (u "///") then ([], u "/", drop 1 p)
      else ([], take 2 p, drop 2 p)
  | Windows =>
      if startswith p (u "\") then
        if startswith p (u "\\") then
          let start := if str_eqb (ascii_upper (take 8 p)) unc_prefix then 8%nat else 2%nat in
          let '(server, rest) := split1 BACKSLASH (drop start p) in
          match rest with
          | None => (p, [], [])
          | Some rest =>
              let '(share, rest) := split1 BACKSLASH rest in
              match rest with
              | None => (p, [], [])
              | Some rest => (take start p ++ server ++ u "\" ++ share, u "\", rest)
              end
          end
        else ([], take 1 p, drop 1 p)
      else if startswith (drop 1 p) (u ":") then
        if startswith (drop 2 p) (u "\") then (take 2 p, u "\", drop 3 p)
        else (take 2 p, [], drop 2 p)
      else ([], [], p)
  end.

Definition is_name (c : pystr) : bool := nonempty c && negb (str_eqb c (u ".")).

(** [PurePath._parse_path] *)
Definition parse (f : flavour) (text : pystr) : ppath :=
  let s := use_sep f text in
  let '(drive, root, rel) := splitroot f s in
  let root :=
    if negb (nonempty root) && startswith drive [sep f] && negb (endswith drive [sep f]) then
      let drv_parts := split_all (sep f) drive in
      if ((length drv_parts =? 4)%nat
          && negb (contains (u "?.") (nth 2 drv_parts [])))
         || (length drv_parts =? 6)%nat
      then [sep f] else root
    else root in
  PPath drive root (filter (λ c, is_name c = true) (split_all (sep f) rel)).

(** [path.parts] *)
Definition parts (p : ppath) : list pystr :=
  if nonempty (p_drive p) || nonempty (p_root p) then (p_drive p ++ p_root p) :: p_tail p else p_tail p.

Definition is_absolute (f : flavour) (p : ppath) : bool :=
  match f with
  | Posix => nonempty (p_root p)
  | Windows => nonempty (p_drive p) && nonempty (p_root p)
  end.

(** [str(path)] *)
Definition path_str (f : flavour) (p : ppath) : pystr :=
  let names := join [sep f] (p_tail p) in
  let s := if nonempty (p_drive p) || nonempty (p_root p) then p_drive p ++ p_root p ++ names
           else match p_tail p with
                | c :: _ => if nonempty (splitroot f c).1.1 then u "." ++ [sep f] ++ names else names
                | [] => names
                end in
  if nonempty s then s else u ".".

(** [a == b] *)
Definition path_eqb (f : flavour) (a b : ppath) : bool :=
  match f with
  | Posix => str_eqb (path_str f a) (path_str f b)
  | Windows => str_eqb (lower (path_str f a)) (lower (path_str f b))
  end.

(** [p / q] for a parsed [q]. *)
Definition path_append (f : flavour) (p q : ppath) : ppath :=
  if nonempty (p_root q) then
    PPath (if nonempty (p_drive q) || negb (nonempty (p_drive p)) then p_drive q else p_drive p)
          (p_root q) (p_tail q)
  else if nonempty (p_drive q) && negb (str_eqb (p_drive q) (p_drive p)) then
    if str_eqb (lower (p_drive q)) (lower (p_drive p))
    then PPath (p_drive q) (p_root p) (p_tail p ++ p_tail q)
    else q
  else PPath (p_drive p) (p_root p) (p_tail p ++ p_tail q).
(** [p / text] *)
Definition joinpath (f : flavour) (p : ppath) (text : pystr) : ppath := path_append f p (parse f text).

(** ** Facts *)

Lemma parse_tail f s : Forall (λ c, is_name c = true) (p_tail (parse f s)).
Proof.
  unfold parse. destruct (splitroot f (use_sep f s)) as [[drive root] rel].
  cbn [p_tail]. apply list.Forall_forall. intros c [Hc _]%list_elem_of_filter. done.
Qed.

(** A relative text only adds names. *)
Lemma joinpath_relative f p s :
  p_drive (parse f s) = [] → p_root (parse f s) = [] →
  joinpath f p s = PPath (p_drive p) (p_root p) (p_tail p ++ p_tail (parse f s)).
Proof. intros Hd Hr. unfold joinpath, path_append. by rewrite Hd, Hr. Qed.

Lemma split_all_names c s : Forall (λ w, c ∉ w) (split_all c s).
Proof.
  induction s as [|d s IH]; simpl; [repeat constructor; set_solver |].
  destruct (Z.eqb_spec d c) as [->|Hd].
  - destruct (split_all c s) as [|w ws] eqn:E; [by destruct (split_all_nonempty c s) |].
    constructor; [set_solver | done].
  - destruct (split_all c s) as [|w ws] eqn:E; [by destruct (split_all_nonempty c s) |].
    inversion_clear IH. constructor; [set_solver | done].
Qed.

(** The names of a path hold no separator. *)
Lemma parse_no_sep f s : Forall (λ c, sep f ∉ c) (p_tail (parse f s)).
Proof.
  unfold parse. destruct (splitroot f (use_sep f s)) as [[drive root] rel]. cbn [p_tail].
  apply list.Forall_forall. intros c [_ Hc]%list_elem_of_filter.
  pose proof (split_all_names (sep f) rel) as H. rewrite list.Forall_forall in H. by apply H.
Qed.
