(* ===== verification/Paths.v ===== *)
(** * Where the files of the relay are

    Models [paths.py]: the choice of the home directory from the command line, the environment and
    the platform, with the scores that decide between two homes on Windows; the folders below it;
    the candidates for the configuration file; the folders of plugins, from names that are checked;
    the older directories that a migration looks at.

    What the functions read - environment variables, working directory, which files there are - is
    the record [host].  They change nothing but, in [ensure_directories], the folders they make; the
    flag that keeps a warning from being logged twice is left out with the warnings. *)

From Stdlib Require Import String.
From stdpp Require Import base tactics list numbers sets.
From S2P Require Import Prelude PyStr PyValue PyLib PurePath.
Open Scope Z_scope.

(** [h_expanduser] and [h_user_data] are [os.path.expanduser] and [platformdirs.user_data_dir];
    [h_cwd] gives the working directory of a drive; [h_package] is the folder of the program. *)
Record host := {
  h_windows : bool;
  h_override : option pystr; h_override_source : option pystr;
  h_env : pystr → option pystr;
  h_expanduser : pystr → pystr; h_cwd : pystr → pystr; h_user_data : res pystr;
  h_exists : ppath → res bool; h_is_dir : ppath → res bool; h_has_entry : ppath → res bool;
  h_package : ppath }.

Definition CONFIG_FILENAME : pystr := u "config.yaml".
Definition CREDENTIALS_FILENAME : pystr := u "credentials.json".
Definition MATRIX_DIRNAME : pystr := u "matrix".
Definition STORE_DIRNAME : pystr := u "store".
Definition DATABASE_DIRNAME : pystr := u "database".
Definition DATABASE_FILENAME : pystr := u "meshtastic.sqlite".
Definition LOGS_DIRNAME : pystr := u "logs".
Definition LOG_FILENAME : pystr := u "mmrelay.log".
Definition PLUGINS_DIRNAME : pystr := u "plugins".
Definition PLUGIN_DATA_DIRNAME : pystr := u "data".
Definition WINDOWS_INSTALLER_DIR_NAME : pystr := u "MM Relay".
Definition DOCKER_LEGACY_PATHS : list pystr := [u "/data"; u "/app/data"; u "/var/lib/mmrelay"].
Definition WINDOWS_INSTALLER_SWITCH_MARGIN : Z := 3.

Section paths.
Context (h : host).

Definition fl : flavour := if h_windows h then Windows else Posix.
Definition div (p : ppath) (names : list pystr) : ppath := foldl (joinpath fl) p names.
Notation "p // l" := (div p l) (at level 40).

(** [os.getenv(name)] when it is a non-empty text. *)
Definition getenv (name : string) : option pystr :=
  match h_env h (u name) with Some v => if nonempty v then Some v else None | None => None end.

(** [Path.expanduser()] *)
Definition expanduser (p : ppath) : res ppath :=
  match p_drive p, p_root p, p_tail p with
  | [], [], c :: rest =>
      if startswith c (u "~") then
        let home := h_expanduser h c in
        if startswith home (u "~") then Raise (RuntimeError (u "Could not determine home directory."))
        else let q := parse fl home in Ok (PPath (p_drive q) (p_root q) (p_tail q ++ rest))
      else Ok p
  | _, _, _ => Ok p
  end.
(** [Path.absolute()] *)
Definition absolute (p : ppath) : ppath :=
  if is_absolute fl p then p else path_append fl (parse fl (h_cwd h (p_drive p))) p.
Definition user_path (text : pystr) : res ppath :=
  let! p := expanduser (parse fl text) in Ok (absolute p).
(** [Path.home()] *)
Definition path_home : res ppath := expanduser (parse fl (u "~")).

Definition str (p : ppath) : pystr := path_str fl p.

(** [any(f(x) for x in l)] *)
Fixpoint any_res {A} (f : A → res bool) (l : list A) : res bool :=
  match l with
  | [] => Ok false
  | x :: l => let! b := f x in if b : bool then Ok true else any_res f l
  end.

(** ** How much a directory looks like a home *)

Definition _has_mmrelay_artifacts (root : ppath) : res bool :=
  let! found := any_res (h_exists h)
    [root // [CONFIG_FILENAME]; root // [CREDENTIALS_FILENAME];
     root // [MATRIX_DIRNAME; CREDENTIALS_FILENAME]; root // [DATABASE_FILENAME];
     root // [PLUGIN_DATA_DIRNAME; DATABASE_FILENAME]; root // [DATABASE_DIRNAME; DATABASE_FILENAME];
     root // [LOGS_DIRNAME; LOG_FILENAME]] in
  if found : bool then Ok true
  else any_res (λ marker, let! d := h_is_dir h marker in
                          if d : bool
                          then catching (λ e, match e with OSError => true | _ => false end) false
                                        (h_has_entry h marker)
                          else Ok false)
         [root // [STORE_DIRNAME]; root // [MATRIX_DIRNAME; STORE_DIRNAME]; root // [LOGS_DIRNAME];
          root // [PLUGINS_DIRNAME]; root // [MATRIX_DIRNAME; PLUGINS_DIRNAME]].

Definition _has_windows_installer_markers (root : ppath) : res bool :=
  any_res (λ marker, h_exists h (root // [marker])) [u "mmrelay.bat"; u "setup-auth.bat"; u "logout.bat"].

Definition _dir_has_entries (path : ppath) : res bool :=
  let! d := h_is_dir h path in
  if d : bool then catching (λ e, match e with OSError => true | _ => false end) false (h_has_entry h path)
  else Ok false.

Definition or_res (a b : res bool) : res bool := let! x := a in if x : bool then Ok true else b.
Definition points (n : Z) (b : bool) : Z := if b then n else 0.

Definition _score_mmrelay_home_state (root : ppath) : res Z :=
  let! there := h_exists h root in
  if negb there then Ok 0
  else
    let! has_config := h_exists h (root // [CONFIG_FILENAME]) in
    let! has_credentials := any_res (h_exists h)
      [root // [CREDENTIALS_FILENAME]; root // [MATRIX_DIRNAME; CREDENTIALS_FILENAME]] in
    let! has_database := any_res (h_exists h)
      [root // [DATABASE_FILENAME]; root // [PLUGIN_DATA_DIRNAME; DATABASE_FILENAME];
       root // [DATABASE_DIRNAME; DATABASE_FILENAME]] in
    let! has_store_content := or_res (_dir_has_entries (root // [STORE_DIRNAME]))
                                     (_dir_has_entries (root // [MATRIX_DIRNAME; STORE_DIRNAME])) in
    let! has_plugins_content := or_res (_dir_has_entries (root // [PLUGINS_DIRNAME]))
                                       (_dir_has_entries (root // [MATRIX_DIRNAME; PLUGINS_DIRNAME])) in
    let! has_log_file := h_exists h (root // [LOGS_DIRNAME; LOG_FILENAME]) in
    let! has_logs_content := _dir_has_entries (root // [LOGS_DIRNAME]) in
    Ok (points 6 has_config + points 6 has_credentials + points 6 has_database
        + points 3 has_store_content + points 2 has_plugins_content
        + points 1 has_log_file + points 1 has_logs_content).

(** ** The home directory *)

(** The choice between the two homes of Windows. *)
Definition windows_home (platform_home : ppath) : res ppath :=
  let! platform_score := _score_mmrelay_home_state platform_home in
  match getenv "LOCALAPPDATA" with
  | None => Ok platform_home
  | Some local_app_data =>
      let installer_path := parse fl local_app_data // [u "Programs"; WINDOWS_INSTALLER_DIR_NAME] in
      let! there := h_exists h installer_path in
      if negb there then Ok platform_home
      else
        let! installer_score := _score_mmrelay_home_state installer_path in
        let! installer_has_markers := _has_windows_installer_markers installer_path in
        if (0 <? installer_score) && (0 <? platform_score) then
          if WINDOWS_INSTALLER_SWITCH_MARGIN <=? installer_score - platform_score
          then Ok installer_path else Ok platform_home
        else if 0 <? installer_score then
          if 6 <=? installer_score then Ok installer_path else Ok platform_home
        else if installer_has_markers : bool then
          if 0 <? platform_score then Ok platform_home else Ok installer_path
        else Ok platform_home
  end.

Definition platform_default : res ppath :=
  if h_windows h then
    let! user_data := h_user_data h in windows_home (parse fl user_data)
  else let! user := path_home in Ok (user // [u ".mmrelay"]).

Definition get_home_dir : res ppath :=
  match h_override h with
  | Some ((_ :: _) as override) => user_path override
  | _ =>
      match getenv "MMRELAY_HOME" with
      | Some env_home => user_path env_home
      | None =>
          match getenv "MMRELAY_BASE_DIR", getenv "MMRELAY_DATA_DIR" with
          | Some env_base_dir, _ => user_path env_base_dir
          | None, Some env_data_dir => user_path env_data_dir
          | None, None => platform_default
          end
      end
  end.

(** ** The folders of the home *)

Definition in_home (names : list pystr) : res ppath := let! home := get_home_dir in Ok (home // names).

Definition get_credentials_path : res ppath := in_home [MATRIX_DIRNAME; CREDENTIALS_FILENAME].
Definition get_matrix_dir : res ppath := in_home [MATRIX_DIRNAME].
Definition get_database_dir : res ppath := in_home [DATABASE_DIRNAME].
Definition get_database_path : res ppath :=
  let! d := get_database_dir in Ok (d // [DATABASE_FILENAME]).
Definition get_logs_dir : res ppath := in_home [LOGS_DIRNAME].

(** [expandvars]: [os.path.expandvars]. *)
Definition get_log_file (expandvars : pystr → pystr) : res ppath :=
  match getenv "MMRELAY_LOG_PATH" with
  | Some env_log => Ok (absolute (parse fl (expandvars (h_expanduser h env_log))))
  | None => let! d := get_logs_dir in Ok (d // [LOG_FILENAME])
  end.

(** E2EENotSupportedError is a RuntimeError. *)
Definition get_e2ee_store_dir : res ppath :=
  if h_windows h then Raise (RuntimeError (u "E2EE not supported on Windows"))
  else let! d := get_matrix_dir in Ok (d // [STORE_DIRNAME]).

Definition get_plugins_dir : res ppath := in_home [PLUGINS_DIRNAME].
Definition get_custom_plugins_dir : res ppath := let! d := get_plugins_dir in Ok (d // [u "custom"]).
Definition get_community_plugins_dir : res ppath := let! d := get_plugins_dir in Ok (d // [u "community"]).
Definition get_core_plugins_dir : res ppath := let! d := get_plugins_dir in Ok (d // [u "core"]).

(** ** Candidates for the configuration file *)

Definition path_in (p : ppath) (l : list ppath) : bool := existsb (path_eqb fl p) l.
Definition add_new (p : ppath) (l : list ppath) : list ppath := if path_in p l then l else l ++ [p].

(** The last loop: the first of the paths with one absolute text. *)
Fixpoint unique_paths (seen : list pystr) (l : list ppath) : list ppath :=
  match l with
  | [] => []
  | p :: l =>
      let s := str (absolute p) in
      if bool_decide (s ∈ seen) then unique_paths seen l else p :: unique_paths (seen ++ [s]) l
  end.

Definition path_errors (e : pyexc) : bool :=
  match e with OSError | RuntimeError _ => true | _ => false end.

Definition get_config_paths (explicit : option pystr) : res (list ppath) :=
  let! explicit_paths := match explicit with
                         | Some ((_ :: _) as text) => let! p := user_path text in Ok [p]
                         | _ => Ok []
                         end in
  let! home := get_home_dir in
  let candidates := add_new (home // [CONFIG_FILENAME]) explicit_paths in
  let cwd := parse fl (h_cwd h []) in
  let candidates := if path_eqb fl cwd home then candidates
                    else add_new (cwd // [CONFIG_FILENAME]) candidates in
  let! user := path_home in
  let legacy_home := user // [u ".mmrelay"] in
  let! candidates := if path_eqb fl legacy_home home then Ok candidates
                     else let! there := h_exists h legacy_home in
                          Ok (if there : bool then add_new (legacy_home // [CONFIG_FILENAME]) candidates
                              else candidates) in
  let! candidates := catching path_errors candidates
    (let! user_data := h_user_data h in
     let platform_user_data := parse fl user_data in
     if path_eqb fl platform_user_data home then Ok candidates
     else let! there := h_exists h platform_user_data in
          Ok (if there : bool then add_new (platform_user_data // [CONFIG_FILENAME]) candidates
              else candidates)) in
  Ok (unique_paths [] candidates).

(** ** Folders of plugins *)

(** [_normalize_plugin_type]; UnknownPluginTypeError is a ValueError. *)
Definition _normalize_plugin_type (plugin_type : option pystr) : res (option pystr) :=
  match plugin_type with
  | None => Ok None
  | Some t =>
      let normalized := lower (strip t) in
      if bool_decide (normalized ∈ [u "custom"; u "community"; u "core"]) then Ok (Some normalized)
      else Raise ValueError
  end.
End paths.

Definition anchored (f : flavour) (p : ppath) : bool :=
  is_absolute f p || nonempty (p_drive p) || nonempty (p_root p).
Definition DOTS : list pystr := [u "."; u ".."].

Definition _validate_plugin_name (plugin_name : pystr) : res pystr :=
  if negb (nonempty plugin_name) then Raise ValueError
  else if existsb (λ f, let pure := parse f plugin_name in
                        anchored f pure || negb (length (parts pure) =? 1)%nat
                        || bool_decide (default [] (head (parts pure)) ∈ DOTS)) [Posix; Windows]
  then Raise ValueError
  else Ok plugin_name.

Definition _validate_plugin_subdir (subdir : pystr) : res pystr :=
  if existsb (λ f, let pure := parse f subdir in
                   anchored f pure || existsb (λ part, bool_decide (part ∈ [] :: DOTS)) (parts pure))
             [Posix; Windows]
  then Raise ValueError
  else Ok subdir.

Section folders.
Context (h : host).
Abbreviation fl := (fl h).
Abbreviation str := (str h).
Notation "p // l" := (div h p l) (at level 40).

(** The first of the custom and community folders that has the plugin. *)
Definition installed_at (plugin_name : pystr) : res (option ppath) :=
  let! custom := get_custom_plugins_dir h in
  let! community := get_community_plugins_dir h in
  let! there := h_exists h (custom // [plugin_name]) in
  if there : bool then Ok (Some (custom // [plugin_name]))
  else let! there := h_exists h (community // [plugin_name]) in
       Ok (if there : bool then Some (community // [plugin_name]) else None).

Definition get_plugin_code_dir (plugin_name : pystr) (plugin_type : option pystr) : res ppath :=
  let! plugin_name := _validate_plugin_name plugin_name in
  let! normalized_type := _normalize_plugin_type plugin_type in
  let bundled := h_package h // [PLUGINS_DIRNAME; plugin_name] in
  match normalized_type with
  | Some t =>
      if str_eqb t (u "custom") then let! d := get_custom_plugins_dir h in Ok (d // [plugin_name])
      else if str_eqb t (u "community") then let! d := get_community_plugins_dir h in Ok (d // [plugin_name])
      else Ok bundled
  | None => let! found := installed_at plugin_name in Ok (default bundled found)
  end.

(** The folder of the plugin, whose [data] is returned. *)
Definition plugin_base_dir (plugin_name : pystr) (normalized_type : option pystr) : res ppath :=
  let core := let! d := get_core_plugins_dir h in Ok (d // [plugin_name]) in
  match normalized_type with
  | Some t =>
      if str_eqb t (u "custom") then let! d := get_custom_plugins_dir h in Ok (d // [plugin_name])
      else if str_eqb t (u "community") then let! d := get_community_plugins_dir h in Ok (d // [plugin_name])
      else core
  | None => let! found := installed_at plugin_name in
            match found with Some base_dir => Ok base_dir | None => core end
  end.

Definition get_plugin_data_dir (plugin_name : pystr) (subdir plugin_type : option pystr) : res ppath :=
  let! plugin_name := _validate_plugin_name plugin_name in
  let! normalized_type := _normalize_plugin_type plugin_type in
  let! base_dir := plugin_base_dir plugin_name normalized_type in
  let data_dir := base_dir // [PLUGIN_DATA_DIRNAME] in
  match subdir with
  | Some ((_ :: _) as subdir) => let! subdir := _validate_plugin_subdir subdir in Ok (data_dir // [subdir])
  | _ => Ok data_dir
  end.

Definition get_plugin_database_path (plugin_name : pystr) : res ppath :=
  let! plugin_name := _validate_plugin_name plugin_name in
  let! d := get_database_dir h in
  Ok (d // [u "plugin_data_" ++ plugin_name ++ u ".sqlite"]).

(** ** Making the folders *)

Definition required_dirs : res (list ppath) :=
  let! home := get_home_dir h in
  let! matrix := get_matrix_dir h in
  let! database := get_database_dir h in
  let! logs := get_logs_dir h in
  let! store := if h_windows h then Ok [] else let! d := get_e2ee_store_dir h in Ok [d] in
  let! plugins := get_plugins_dir h in
  let! custom := get_custom_plugins_dir h in
  let! community := get_community_plugins_dir h in
  let! core := get_core_plugins_dir h in
  Ok ([home; matrix; database; logs] ++ store ++ [plugins; custom; community; core]).

(** The folders that were made; [mkdir] tells whether making one works, and an OSError is logged. *)
Definition ensure_directories (create_missing : bool) (mkdir : ppath → bool) : res (list ppath) :=
  let! dirs := required_dirs in
  if create_missing then Ok (filter (λ d, mkdir d = true) dirs)
  else let! _ := any_res (λ d, let! there := h_exists h d in Ok false) dirs in Ok [].

(** ** Older directories *)

Definition get_legacy_env_vars : list pystr :=
  filter (λ v, match h_env h v with Some t => nonempty t | None => false end = true)
         [u "MMRELAY_BASE_DIR"; u "MMRELAY_DATA_DIR"].

(** An empty MMRELAY_HOME counts as set. *)
Definition is_deprecation_window_active : bool :=
  match h_env h (u "MMRELAY_HOME") with
  | Some _ => false
  | None => negb (bool_decide (get_legacy_env_vars = []))
  end.

(** [legacy_dirs] and [seen]; [text] is what is compared. *)
Definition collected := (list ppath * list pystr)%type.
Definition collect (home_str : pystr) (p : ppath) (text : pystr) (acc : collected) : collected :=
  if bool_decide (text = home_str) || bool_decide (text ∈ acc.2) then acc
  else (acc.1 ++ [p], acc.2 ++ [text]).
Definition consider (home_str : pystr) (acc : collected) (p : ppath) (text : pystr) : res collected :=
  let! there := h_exists h p in Ok (if there : bool then collect home_str p text acc else acc).

Definition consider_user_data (home_str : pystr) (acc : collected) : res collected :=
  catching path_errors acc
    (let! user_data := h_user_data h in
     let p := parse fl user_data in consider home_str acc p (str (absolute h p))).
Definition consider_installer (home_str : pystr) (acc : collected) : res collected :=
  if h_windows h then
    catching path_errors acc
      match getenv h "LOCALAPPDATA" with
      | Some local_app_data =>
          let p := parse fl local_app_data // [u "Programs"; WINDOWS_INSTALLER_DIR_NAME] in
          consider home_str acc p (str (absolute h p))
      | None => Ok acc
      end
  else Ok acc.
Definition consider_variable (name : string) (home_str : pystr) (acc : collected) : res collected :=
  match getenv h name with
  | Some text => let! p := user_path h text in consider home_str acc p (str p)
  | None => Ok acc
  end.
Fixpoint consider_docker (home_str : pystr) (acc : collected) (l : list pystr) : res collected :=
  match l with
  | [] => Ok acc
  | text :: l =>
      let p := parse fl text in
      let! there := h_exists h p in
      let! artifacts := if there : bool then _has_mmrelay_artifacts h p else Ok false in
      consider_docker home_str
        (if there && artifacts then collect home_str p (str (absolute h p)) acc else acc) l
  end.

Definition get_legacy_dirs : res (list ppath) :=
  match get_home_dir h with
  | Raise e => if path_errors e then Ok [] else Raise e
  | Ok home =>
      let home_str := str home in
      let! user := path_home h in
      let default_legacy := user // [u ".mmrelay"] in
      let! acc := consider home_str ([], []) default_legacy (str (absolute h default_legacy)) in
      let! acc := consider_user_data home_str acc in
      let! acc := consider_installer home_str acc in
      let! acc := consider_variable "MMRELAY_BASE_DIR" home_str acc in
      let! acc := consider_variable "MMRELAY_DATA_DIR" home_str acc in
      let! acc := consider_docker home_str acc DOCKER_LEGACY_PATHS in
      Ok acc.1
  end.

(** ** What is reported *)

Definition detected (name : pystr) : pydict :=
  match h_env h name with Some t => [(name, VStr t)] | None => [] end.
Definition env_vars_detected : pydict :=
  detected (u "MMRELAY_HOME") ++ detected (u "MMRELAY_BASE_DIR") ++ detected (u "MMRELAY_DATA_DIR")
  ++ detected (u "MMRELAY_LOG_PATH").

Definition home_source : pystr :=
  let cli s := bool_decide (h_override_source h = Some s) in
  let set s := dmem env_vars_detected s in
  if cli (u "--home") then u "CLI (--home)"
  else if cli (u "--base-dir") then u "CLI (--base-dir)"
  else if cli (u "--data-dir") then u "CLI (--data-dir)"
  else if set (u "MMRELAY_HOME") then u "MMRELAY_HOME env var"
  else if set (u "MMRELAY_BASE_DIR") then u "MMRELAY_BASE_DIR env var"
  else if set (u "MMRELAY_DATA_DIR") then u "MMRELAY_DATA_DIR env var"
  else u "Platform defaults".

Definition as_str (p : ppath) : pyval := VStr (str p).

Definition resolve_all_paths (expandvars : pystr → pystr) : res pydict :=
  let! home := get_home_dir h in
  let! legacy_dirs := get_legacy_dirs in
  let! matrix_dir := get_matrix_dir h in
  let! credentials_path := get_credentials_path h in
  let! database_dir := get_database_dir h in
  let! store_dir := if h_windows h then Ok (VStr (u "N/A (Windows)"))
                    else let! d := get_e2ee_store_dir h in Ok (as_str d) in
  let! logs_dir := get_logs_dir h in
  let! log_file := get_log_file h expandvars in
  let! plugins_dir := get_plugins_dir h in
  let! custom := get_custom_plugins_dir h in
  let! community := get_community_plugins_dir h in
  Ok [(u "home", as_str home); (u "matrix_dir", as_str matrix_dir);
      (u "legacy_sources", VSeq KList (map as_str legacy_dirs));
      (u "credentials_path", as_str credentials_path); (u "database_dir", as_str database_dir);
      (u "store_dir", store_dir); (u "logs_dir", as_str logs_dir); (u "log_file", as_str log_file);
      (u "plugins_dir", as_str plugins_dir); (u "custom_plugins_dir", as_str custom);
      (u "community_plugins_dir", as_str community); (u "deps_dir", as_str (plugins_dir // [u "deps"]));
      (u "env_vars_detected", VDict env_vars_detected);
      (u "cli_override", match h_override_source h with Some s => VStr s | None => VNone end);
      (u "home_source", VStr home_source)].

Definition get_diagnostics (expandvars : pystr → pystr) : res pydict :=
  let! resolved := resolve_all_paths expandvars in
  let! database_path := get_database_path h in
  let entry k from := (k, dget_none resolved from) in
  Ok [entry (u "home_dir") (u "home"); entry (u "matrix_dir") (u "matrix_dir"); entry (u "credentials_path") (u "credentials_path");
      entry (u "database_dir") (u "database_dir"); (u "database_path", as_str database_path);
      entry (u "logs_dir") (u "logs_dir"); entry (u "log_file") (u "log_file"); entry (u "plugins_dir") (u "plugins_dir");
      entry (u "custom_plugins_dir") (u "custom_plugins_dir"); entry (u "community_plugins_dir") (u "community_plugins_dir");
      entry (u "env_vars") (u "env_vars_detected"); entry (u "cli_override") (u "cli_override");
      entry (u "sources_used") (u "home_source"); (u "legacy_active", VBool is_deprecation_window_active)].
End folders.

(** ** The override of the command line *)

Definition set_home_override (path : pystr) (source : option pystr) (h : host) : host :=
  {| h_windows := h_windows h; h_override := Some path; h_override_source := source; h_env := h_env h;
     h_expanduser := h_expanduser h; h_cwd := h_cwd h; h_user_data := h_user_data h;
     h_exists := h_exists h; h_is_dir := h_is_dir h; h_has_entry := h_has_entry h; h_package := h_package h |}.
Definition reset_home_override (h : host) : host :=
  {| h_windows := h_windows h; h_override := None; h_override_source := None; h_env := h_env h;
     h_expanduser := h_expanduser h; h_cwd := h_cwd h; h_user_data := h_user_data h;
     h_exists := h_exists h; h_is_dir := h_is_dir h; h_has_entry := h_has_entry h; h_package := h_package h |}.

(** ** Absolute paths

    What is relied on of the operating system: the working directory of a drive is an absolute path
    on that drive. *)

Class sane (h : host) : Prop := {
  cwd_absolute d : is_absolute (fl h) (parse (fl h) (h_cwd h d)) = true;
  cwd_drive d : d = [] ∨ h_windows h = false
                ∨ lower d = lower (p_drive (parse (fl h) (h_cwd h d))) }.

(** On POSIX no path has a drive. *)
Definition wf_path (h : host) (p : ppath) : Prop := h_windows h = false → p_drive p = [].

Lemma parse_wf h text : wf_path h (parse (fl h) text).
Proof.
  intros Hw. unfold fl. rewrite Hw. unfold parse. destruct (splitroot Posix (use_sep Posix text)) as [[d r] t] eqn:E.
  unfold splitroot in E. repeat (case_match; simplify_eq; try done).
Qed.

Section absolute.
Context (h : host) `{!sane h}.

Lemma absolute_is_absolute p : wf_path h p → is_absolute (fl h) (absolute h p) = true.
Proof.
  intros Hwf. unfold absolute. destruct (is_absolute (fl h) p) eqn:Ep; [done |].
  pose proof (cwd_absolute (p_drive p)) as Hc. pose proof (cwd_drive (p_drive p)) as Hd.
  set (c := parse (fl h) (h_cwd h (p_drive p))) in *. unfold path_append.
  unfold fl in *. destruct (h_windows h) eqn:Ew; cbn [is_absolute] in *.
  - apply andb_true_iff in Hc as [Hcd Hcr].
    destruct (nonempty (p_drive p)) eqn:Edr, (nonempty (p_root p)) eqn:Er; cbn [p_drive p_root andb negb orb] in *;
      try done; rewrite ?Edr, ?Er, ?Hcd, ?Hcr; cbn [negb]; rewrite ?Hcd; try done.
    destruct Hd as [Hd|[Hd|Hd]]; [by rewrite Hd in Edr | done |].
    destruct (str_eqb (p_drive p) (p_drive c)); cbn [p_drive p_root andb negb orb]; [by rewrite Hcd, Hcr |].
    rewrite Hd, str_eqb_refl. cbn [p_drive p_root]. by rewrite Edr, Hcr.
  - rewrite Ep, (Hwf Ew). done.
Qed.

Lemma absolute_idemp p : wf_path h p → absolute h (absolute h p) = absolute h p.
Proof. intros Hwf. unfold absolute at 1. by rewrite absolute_is_absolute. Qed.

Lemma user_path_absolute text p : user_path h text = Ok p → absolute h p = p.
Proof.
  unfold user_path. destruct (expanduser h (parse (fl h) text)) as [q|] eqn:E; simpl; [| done].
  intros [= <-]. apply absolute_idemp.
  unfold expanduser in E. pose proof (parse_wf h text) as Hwf.
  repeat case_match; simplify_eq; try done. intros Hw. by apply parse_wf.
Qed.
End absolute.

(** ** Scores *)

Lemma res_bind_inv {A B : Type} (m : res A) (f : A → res B) b :
  res_bind m f = Ok b → ∃ a, m = Ok a ∧ f a = Ok b.
Proof. destruct m; simpl; [eauto | done]. Qed.
Ltac res_inv :=
  repeat match goal with
  | H : res_bind _ _ = Ok _ |- _ => apply res_bind_inv in H as (? & ? & ?)
  end.

Section scores.
Context (h : host).
Notation "p // l" := (div h p l) (at level 40).

(** A directory holds a file under one of several names. *)
Definition holds (root : ppath) (names : list (list pystr)) : Prop :=
  any_res (h_exists h) (map (λ l, root // l) names) = Ok true.
Definition config_names : list (list pystr) := [[CONFIG_FILENAME]].
Definition credentials_names : list (list pystr) :=
  [[CREDENTIALS_FILENAME]; [MATRIX_DIRNAME; CREDENTIALS_FILENAME]].
Definition database_names : list (list pystr) :=
  [[DATABASE_FILENAME]; [PLUGIN_DATA_DIRNAME; DATABASE_FILENAME]; [DATABASE_DIRNAME; DATABASE_FILENAME]].
(** Configuration, credentials and database are all there. *)
Definition established (root : ppath) : Prop :=
  holds root config_names ∧ holds root credentials_names ∧ holds root database_names.

Lemma score_cases root n : _score_mmrelay_home_state h root = Ok n →
  n = 0 ∨ ∃ config credentials database store plugins log_file logs : bool,
    any_res (h_exists h) (map (λ l, root // l) config_names) = Ok config
    ∧ any_res (h_exists h) (map (λ l, root // l) credentials_names) = Ok credentials
    ∧ any_res (h_exists h) (map (λ l, root // l) database_names) = Ok database
    ∧ n = points 6 config + points 6 credentials + points 6 database + points 3 store
          + points 2 plugins + points 1 log_file + points 1 logs.
Proof.
  unfold _score_mmrelay_home_state. intros H. apply res_bind_inv in H as ([] & _ & H).
  2: { cbn [negb] in H. left. by simplify_eq. }
  right. cbn [negb] in H. apply res_bind_inv in H as (c & Hc & H). apply res_bind_inv in H as (r & Hr & H).
  apply res_bind_inv in H as (d & Hd & H).
  res_inv. exists c, r, d. do 4 eexists. repeat split; [| done | done | by simplify_eq].
  unfold config_names. cbn [map any_res]. rewrite Hc. by destruct c.
Qed.

Lemma score_bounds root n : _score_mmrelay_home_state h root = Ok n → 0 ≤ n ≤ 25.
Proof.
  intros [->|(c & r & d & s & p & f & l & _ & _ & _ & ->)]%score_cases; [lia |].
  destruct c, r, d, s, p, f, l; simpl; lia.
Qed.

Lemma high_score_established root n : _score_mmrelay_home_state h root = Ok n → 20 ≤ n → established root.
Proof.
  intros [->|(c & r & d & s & p & f & l & Hc & Hr & Hd & ->)]%score_cases Hn; [lia |].
  unfold established, holds. rewrite Hc, Hr, Hd.
  destruct c, r, d, s, p, f, l; simpl in Hn; try lia; done.
Qed.


Lemma established_score root n :
  established root → h_exists h root = Ok true → _score_mmrelay_home_state h root = Ok n → 18 ≤ n.
Proof.
  intros (Hc & Hr & Hd) Hroot Hn. unfold holds in *.
  destruct (score_cases root n Hn) as [->|(c & r & d & s & p & f & l & Hc' & Hr' & Hd' & ->)].
  - unfold _score_mmrelay_home_state in Hn. rewrite Hroot in Hn. cbn [negb res_bind] in Hn.
    apply res_bind_inv in Hn as (c & Hc2 & Hn). apply res_bind_inv in Hn as (r & Hr2 & Hn).
    apply res_bind_inv in Hn as (d & Hd2 & Hn).
    unfold config_names in Hc. cbn [map any_res] in Hc. rewrite Hc2 in Hc.
    assert (c = true) as -> by (by destruct c). 
    change (any_res (h_exists h) (map (λ l, root // l) credentials_names) = Ok r) in Hr2.
    change (any_res (h_exists h) (map (λ l, root // l) database_names) = Ok d) in Hd2.
    rewrite Hr in Hr2. rewrite Hd in Hd2. res_inv. simplify_eq. unfold points in *.
    repeat case_match; lia.
  - rewrite Hc' in Hc. rewrite Hr' in Hr. rewrite Hd' in Hd. simplify_eq. unfold points. repeat case_match; lia.
Qed.
End scores.

(** ** Properties *)

(** The home directory is the one of the command line, else of MMRELAY_HOME, else of
    MMRELAY_BASE_DIR, else of MMRELAY_DATA_DIR - the first that is not empty, expanded and made
    absolute - and the default of the platform when there is none. *)
Theorem home_dir_precedence h :
  get_home_dir h =
    match first_some (λ o : option pystr, match o with Some ((_ :: _) as t) => Some t | _ => None end)
            [h_override h; h_env h (u "MMRELAY_HOME"); h_env h (u "MMRELAY_BASE_DIR");
             h_env h (u "MMRELAY_DATA_DIR")] with
    | Some text => user_path h text
    | None => platform_default h
    end.
Proof.
  unfold get_home_dir, getenv.
  destruct (h_override h) as [[]|], (h_env h (u "MMRELAY_HOME")) as [[]|],
    (h_env h (u "MMRELAY_BASE_DIR")) as [[]|], (h_env h (u "MMRELAY_DATA_DIR")) as [[]|]; done.
Qed.

(** On Windows a home that holds configuration, credentials and database is left for the folder of
    the installer only when that folder holds all three as well. *)
Theorem established_home_is_kept h platform_home home :
  established h platform_home → h_exists h platform_home = Ok true →
  windows_home h platform_home = Ok home → home ≠ platform_home → established h home.
Proof.
  intros Hest Hthere H Hne. unfold windows_home in H.
  apply res_bind_inv in H as (ps & Hps & H).
  pose proof (established_score _ _ _ Hest Hthere Hps) as H18.
  destruct (getenv h "LOCALAPPDATA") as [text|]; [| by simplify_eq].
  apply res_bind_inv in H as ([] & _ & H); [| by simplify_eq/=].
  cbn [negb] in H. apply res_bind_inv in H as (ns & His & H). apply res_bind_inv in H as (m & _ & H).
  rewrite (proj2 (Z.ltb_lt 0 ps)) in H by lia. destruct (Z.ltb_spec 0 ns); cbn [andb] in H.
  - destruct (Z.leb_spec WINDOWS_INSTALLER_SWITCH_MARGIN (ns - ps)) as [Hm|Hm]; simplify_eq.
    unfold WINDOWS_INSTALLER_SWITCH_MARGIN in Hm. eapply high_score_established; [done | lia].
  - destruct m; by simplify_eq.
Qed.

(** ** Older directories are never the home *)

Section legacy.
Context (h : host) `{!sane h} (home_str : pystr).
Abbreviation text p := (str h (absolute h p)).

(** What the collection keeps: the directories exist, are not the home, and have different texts. *)
Definition well_collected (acc : collected) : Prop :=
  acc.2 = ((λ p, text p) <$> acc.1) ∧ NoDup acc.2 ∧ (home_str ∉ acc.2)
  ∧ ∀ p, p ∈ acc.1 → h_exists h p = Ok true.

Lemma collect_well p acc :
  h_exists h p = Ok true → well_collected acc → well_collected (collect home_str p (text p) acc).
Proof.
  intros Hp (Hm & Hnd & Hh & He). unfold collect.
  destruct (bool_decide (text p = home_str)) eqn:E1; [done |].
  destruct (bool_decide (text p ∈ acc.2)) eqn:E2; [done |]. bool_prop. cbn [orb]. split; cbn [fst snd].
  - by rewrite fmap_app, Hm.
  - repeat split.
    + apply NoDup_app. split; [done |]. split; [set_solver | apply NoDup_singleton].
    + set_solver.
    + set_solver.
Qed.

Lemma consider_well acc p s acc' :
  s = text p → consider h home_str acc p s = Ok acc' → well_collected acc → well_collected acc'.
Proof.
  intros -> H Hacc. unfold consider in H. apply res_bind_inv in H as (b & Hb & H). simplify_eq.
  destruct b; [by apply collect_well | done].
Qed.

Lemma user_data_well acc acc' :
  consider_user_data h home_str acc = Ok acc' → well_collected acc → well_collected acc'.
Proof.
  unfold consider_user_data, catching. intros H Hacc.
  destruct (h_user_data h) as [t|e]; cbn [res_bind] in H; [| destruct (path_errors e); by simplify_eq].
  destruct (consider _ _ _ _ _) as [a|e] eqn:E; [| destruct (path_errors e); by simplify_eq].
  simplify_eq. by eapply consider_well in E.
Qed.

Lemma installer_well acc acc' :
  consider_installer h home_str acc = Ok acc' → well_collected acc → well_collected acc'.
Proof.
  unfold consider_installer, catching. intros H Hacc. destruct (h_windows h); [| by simplify_eq].
  destruct (getenv h "LOCALAPPDATA"); [| by simplify_eq].
  destruct (consider _ _ _ _ _) as [a|e] eqn:E; [| destruct (path_errors e); by simplify_eq].
  simplify_eq. by eapply consider_well in E.
Qed.

Lemma variable_well name acc acc' :
  consider_variable h name home_str acc = Ok acc' → well_collected acc → well_collected acc'.
Proof.
  unfold consider_variable. intros H Hacc. destruct (getenv h name); [| by simplify_eq].
  apply res_bind_inv in H as (p & Hp & H). eapply consider_well; [| done ..].
  by rewrite (user_path_absolute h _ _ Hp).
Qed.

Lemma docker_well l acc acc' :
  consider_docker h home_str acc l = Ok acc' → well_collected acc → well_collected acc'.
Proof.
  revert acc. induction l as [|t l IH]; simpl; intros acc H Hacc; [by simplify_eq |].
  apply res_bind_inv in H as (there & Hthere & H). apply res_bind_inv in H as (artifacts & _ & H).
  eapply IH; [done |]. destruct (there && artifacts) eqn:E; [| done]. bool_prop. subst.
  by apply collect_well.
Qed.
End legacy.

(** The older directories that are reported exist, are not the home in use, and are all different,
    so that a migration never takes the home for a source. *)
Theorem legacy_dirs_exclude_home h `{!sane h} home dirs :
  get_home_dir h = Ok home → get_legacy_dirs h = Ok dirs →
  NoDup ((λ p, str h (absolute h p)) <$> dirs)
  ∧ ∀ p, p ∈ dirs → h_exists h p = Ok true ∧ str h (absolute h p) ≠ str h home.
Proof.
  intros Hhome H. unfold get_legacy_dirs in H. rewrite Hhome in H.
  apply res_bind_inv in H as (user & _ & H). apply res_bind_inv in H as (a1 & H1 & H).
  apply res_bind_inv in H as (a2 & H2 & H). apply res_bind_inv in H as (a3 & H3 & H).
  apply res_bind_inv in H as (a4 & H4 & H). apply res_bind_inv in H as (a5 & H5 & H).
  apply res_bind_inv in H as (a6 & H6 & H). simplify_eq.
  assert (well_collected h (str h home) ([], [])) as Hw.
  { split; [done |]. split; [constructor |]. set_solver. }
  pose proof (consider_well h _ _ _ _ _ eq_refl H1 Hw) as W1. pose proof (user_data_well h _ _ _ H2 W1) as W2.
  pose proof (installer_well h _ _ _ H3 W2) as W3. pose proof (variable_well h _ _ _ _ H4 W3) as W4.
  pose proof (variable_well h _ _ _ _ H5 W4) as W5.
  destruct (docker_well h _ _ _ _ H6 W5) as (Hm & Hnd & Hh & He).
  rewrite <- Hm. split; [done |]. intros p Hp. split; [by apply He |].
  intros Heq. apply Hh. rewrite Hm, <- Heq. by apply (list_elem_of_fmap_2 (λ p, str h (absolute h p))).
Qed.

(** ** Candidates for the configuration *)

Lemma unique_paths_spec h seen l :
  NoDup ((λ p, str h (absolute h p)) <$> unique_paths h seen l)
  ∧ ∀ p, p ∈ unique_paths h seen l → str h (absolute h p) ∉ seen.
Proof.
  revert seen. induction l as [|p l IH]; intros seen; simpl; [split; [constructor | set_solver] |].
  destruct (bool_decide (str h (absolute h p) ∈ seen)) eqn:E; [apply IH |]. bool_prop.
  destruct (IH (seen ++ [str h (absolute h p)])) as [Hnd Hseen]. split; simpl.
  - constructor; [| done]. intros (q & Hq & Hin)%list_elem_of_fmap. apply Hseen in Hin. set_solver.
  - intros q [->|Hq]%elem_of_cons; [done |]. apply Hseen in Hq. set_solver.
Qed.

(** ** Folders of plugins stay where they belong *)

Lemma anchored_false f p : anchored f p = false → p_drive p = [] ∧ p_root p = [].
Proof.
  unfold anchored. intros [[_ Hd]%orb_false_iff Hr]%orb_false_iff.
  by destruct (p_drive p), (p_root p).
Qed.

Lemma validate_name_single n m :
  _validate_plugin_name n = Ok m →
  m = n ∧ ∀ f, ∃ c, parse f n = PPath [] [] [c] ∧ (c ∉ DOTS) ∧ (sep f ∉ c).
Proof.
  unfold _validate_plugin_name. destruct (nonempty n); [| done]. cbn [negb].
  destruct (existsb _ _) eqn:E; [done |]. intros [= <-]. split; [done |]. intros f.
  assert (anchored f (parse f n) || negb (length (parts (parse f n)) =? 1)%nat
          || bool_decide (default [] (head (parts (parse f n))) ∈ DOTS) = false) as Hf.
  { cbn [existsb] in E. apply orb_false_iff in E as [E1 E2]. rewrite orb_false_r in E2. by destruct f. }
  apply orb_false_iff in Hf as [[Ha Hl]%orb_false_iff Hd].
  apply anchored_false in Ha as [Hdr Hro]. bool_prop.
  unfold parts in *. rewrite Hdr, Hro in *. cbn [nonempty orb] in *. apply Nat.eqb_eq in Hl.
  pose proof (parse_no_sep f n) as Hsep.
  destruct (parse f n) as [dr ro [|c [|]]]; simpl in *; try done. subst.
  exists c. split; [done |]. split; [done |]. by inversion Hsep.
Qed.

Lemma validate_subdir_inside s m :
  _validate_plugin_subdir s = Ok m →
  m = s ∧ ∀ f, ∃ l, parse f s = PPath [] [] l ∧ Forall (λ c, c ∉ DOTS) l.
Proof.
  unfold _validate_plugin_subdir. destruct (existsb _ _) eqn:E; [done |]. intros [= <-]. split; [done |].
  intros f.
  assert (anchored f (parse f s) || existsb (λ part, bool_decide (part ∈ [] :: DOTS)) (parts (parse f s)) = false)
    as Hf.
  { cbn [existsb] in E. apply orb_false_iff in E as [E1 E2]. rewrite orb_false_r in E2. by destruct f. }
  apply orb_false_iff in Hf as [Ha Hp]. apply anchored_false in Ha as [Hdr Hro].
  unfold parts in Hp. rewrite Hdr, Hro in Hp. cbn [nonempty orb] in Hp.
  destruct (parse f s) as [dr ro l]; simpl in *. subst. exists l. split; [done |].
  apply list.Forall_forall. intros c Hc Hdots. apply not_true_iff_false in Hp. apply Hp.
  apply existsb_elem_of. exists c. split; [done |]. apply bool_decide_eq_true. by right.
Qed.

Section containment.
Context (h : host).

Lemma div_names p n l :
  parse (fl h) n = PPath [] [] l → div h p [n] = PPath (p_drive p) (p_root p) (p_tail p ++ l).
Proof. intros Hn. cbn [div foldl]. rewrite joinpath_relative; by rewrite Hn. Qed.

Lemma data_parse : parse (fl h) PLUGIN_DATA_DIRNAME = PPath [] [] [PLUGIN_DATA_DIRNAME].
Proof. unfold fl. by destruct (h_windows h). Qed.

(** The three folders for plugins under the home. *)
Definition plugin_root (root : ppath) : Prop :=
  get_custom_plugins_dir h = Ok root ∨ get_community_plugins_dir h = Ok root ∨ get_core_plugins_dir h = Ok root.

Lemma base_dir_under n t b :
  plugin_base_dir h n t = Ok b → ∃ root, plugin_root root ∧ b = div h root [n].
Proof.
  unfold plugin_base_dir, plugin_root. intros H.
  destruct t as [t|].
  - destruct (str_eqb t (u "custom")); [| destruct (str_eqb t (u "community"))].
    all: apply res_bind_inv in H as (d & Hd & H); simplify_eq; exists d; auto.
  - apply res_bind_inv in H as (found & Hf & H). unfold installed_at in Hf.
    apply res_bind_inv in Hf as (custom & Hcu & Hf). apply res_bind_inv in Hf as (community & Hco & Hf).
    apply res_bind_inv in Hf as ([] & _ & Hf); [simplify_eq; eauto |].
    apply res_bind_inv in Hf as ([] & _ & Hf); simplify_eq; [eauto 10 |].
    apply res_bind_inv in H as (d & Hd & H). simplify_eq. eauto 10.
Qed.
End containment.

(** A text is read as names below the place it is joined to: no drive, no root, no way upwards. *)
Definition reads_as (f : flavour) (text : pystr) (names : list pystr) : Prop :=
  parse f text = PPath [] [] names ∧ Forall (λ part, (part ∉ DOTS) ∧ (sep f ∉ part)) names.

(** C37: The data folder of a plugin is one of the three plugin folders of the home, then the one name that
    the plugin's name is read as on this system, then [data], then the names that the subfolder is
    read as, if there is one.  And wherever it is read, as a POSIX or as a Windows path, an accepted
    name is one name and an accepted subfolder is names: neither is absolute, has a drive or leads
    upwards. *)
Theorem plugin_data_stays_inside h name subdir plugin_type p :
  get_plugin_data_dir h name subdir plugin_type = Ok p →
  ∃ root c rest, plugin_root h root
    ∧ p = PPath (p_drive root) (p_root root) (p_tail root ++ c :: PLUGIN_DATA_DIRNAME :: rest)
    ∧ reads_as (fl h) name [c]
    ∧ match subdir with Some ((_ :: _) as s) => reads_as (fl h) s rest | _ => rest = [] end
    ∧ ∀ f, (∃ c', reads_as f name [c']) ∧
           match subdir with Some ((_ :: _) as s) => ∃ l, reads_as f s l | _ => True end.
Proof.
  unfold get_plugin_data_dir. intros H.
  apply res_bind_inv in H as (n & Hn & H). apply validate_name_single in Hn as [-> Hn].
  apply res_bind_inv in H as (t & _ & H). apply res_bind_inv in H as (b & Hb & H).
  apply base_dir_under in Hb as (root & Hroot & ->).
  assert (∀ f, ∃ c, reads_as f name [c]) as Hname.
  { intros f. destruct (Hn f) as (c & Hc & ? & ?). exists c. split; [done |]. by apply Forall_singleton. }
  destruct (Hname (fl h)) as (c & Hc). pose proof Hc as [Hp _].
  rewrite (div_names h root name [c] Hp), (div_names h _ _ _ (data_parse h)) in H. simpl in H.
  destruct subdir as [[|z s]|].
  1,3: exists root, c, []; rewrite <- app_assoc in H; simplify_eq; by split_and!.
  apply res_bind_inv in H as (m & Hm & H). apply validate_subdir_inside in Hm as [-> Hm].
  assert (∀ f, ∃ l, reads_as f (z :: s) l) as Hsub.
  { intros f. destruct (Hm f) as (l & Hl & Hdl). exists l. split; [done |].
    pose proof (parse_no_sep f (z :: s)) as Hsep. rewrite Hl in Hsep. apply Forall_and. by split. }
  destruct (Hsub (fl h)) as (l & Hl). pose proof Hl as [Hpl _]. exists root, c, l. split_and!; [done | | done..| by auto].
  injection H as <-. etrans; [apply (div_names h _ _ _ Hpl) |]. cbn [p_drive p_root p_tail]. by rewrite <- !app_assoc.
Qed.

(** The folder of a plugin's code: below the folder of its kind, or bundled with the program. *)
Lemma plugin_code_stays_inside h name plugin_type p :
  get_plugin_code_dir h name plugin_type = Ok p →
  ∃ root c, (plugin_root h root ∨ root = div h (h_package h) [PLUGINS_DIRNAME])
    ∧ p = PPath (p_drive root) (p_root root) (p_tail root ++ [c]) ∧ (c ∉ DOTS) ∧ (sep (fl h) ∉ c).
Proof.
  unfold get_plugin_code_dir. intros H.
  apply res_bind_inv in H as (n & Hn & H). apply validate_name_single in Hn as [-> Hn].
  destruct (Hn (fl h)) as (c & Hc & Hdots & Hsep).
  assert (∃ root, (plugin_root h root ∨ root = div h (h_package h) [PLUGINS_DIRNAME]) ∧ p = div h root [name])
    as (root & Hroot & ->).
  { apply res_bind_inv in H as (t & _ & H). unfold plugin_root. destruct t as [t|].
    - destruct (str_eqb t (u "custom")); [| destruct (str_eqb t (u "community"))].
      + apply res_bind_inv in H as (d & Hd & H). simplify_eq. exists d. auto.
      + apply res_bind_inv in H as (d & Hd & H). simplify_eq. exists d. auto.
      + simplify_eq. eexists. split; [by right | done].
    - apply res_bind_inv in H as (found & Hf & H). unfold installed_at in Hf.
      apply res_bind_inv in Hf as (custom & Hcu & Hf). apply res_bind_inv in Hf as (community & Hco & Hf).
      apply res_bind_inv in Hf as ([] & _ & Hf); [simplify_eq; eauto |].
      apply res_bind_inv in Hf as ([] & _ & Hf); simplify_eq; [eauto 10 |].
      eexists. split; [by right | done]. }
  exists root, c. by rewrite (div_names h root name [c] Hc).
Qed.

(** The candidates for the configuration are different files; the one of the command line comes
    first, and without one the file of the home. *)
Lemma config_paths_order h explicit l :
  get_config_paths h explicit = Ok l →
  NoDup ((λ p, str h (absolute h p)) <$> l)
  ∧ match explicit with
    | Some ((_ :: _) as text) => ∃ p, user_path h text = Ok p ∧ head l = Some p
    | _ => ∃ home, get_home_dir h = Ok home ∧ head l = Some (div h home [CONFIG_FILENAME])
    end.
Proof.
  unfold get_config_paths. intros H.
  apply res_bind_inv in H as (ex & Hex & H). apply res_bind_inv in H as (home & Hhome & H).
  apply res_bind_inv in H as (user & _ & H).
  assert (∀ p l, head l = Some p → head (unique_paths h [] l) = Some p) as Huniq.
  { intros p [|q l0]; [done |]. intros [= ->]. cbn [unique_paths].
    by rewrite bool_decide_eq_false_2 by set_solver. }
  assert (∀ p q l, head l = Some p → head (add_new h q l) = Some p) as Hadd.
  { intros p q l0 Hl. unfold add_new. destruct (path_in h q l0); [done |]. by destruct l0. }
  set (first := match ex with p :: _ => p | [] => div h home [CONFIG_FILENAME] end).
  assert (head (add_new h (div h home [CONFIG_FILENAME]) ex) = Some first) as H1.
  { unfold add_new. destruct ex as [|p ex']; [done |]. by destruct (path_in _ _ _). }
  set (c1 := add_new h (div h home [CONFIG_FILENAME]) ex) in *. clearbody c1.
  apply res_bind_inv in H as (c2 & Hc2 & H). apply res_bind_inv in H as (c3 & Hc3 & H).
  assert (∀ (b : bool) q c p (m : res bool) c',
    (if b then Ok c else let! t := m in Ok (if t : bool then add_new h q c else c)) = Ok c' →
    head c = Some p → head c' = Some p) as Hstep.
  { intros [] q c p m c' Hc Hp; [by simplify_eq |]. apply res_bind_inv in Hc as ([] & _ & Hc); simplify_eq; auto. }
  assert (head c2 = Some first) as H2.
  { eapply Hstep; [exact Hc2 |]. clear Hc2.
    destruct (path_eqb (fl h) _ home); [exact H1 | apply Hadd, H1]. }
  assert (head c3 = Some first) as H3.
  { unfold catching in Hc3. destruct (res_bind (h_user_data h) _) as [c|e] eqn:E; [| destruct (path_errors e); by simplify_eq].
    simplify_eq. apply res_bind_inv in E as (t & _ & E). by eapply Hstep. }
  simplify_eq. split; [apply unique_paths_spec |]. apply Huniq in H3.
  destruct explicit as [[|z text]|].
  - simplify_eq. by exists home.
  - apply res_bind_inv in Hex as (p & Hp & Hex). simplify_eq. by exists p.
  - simplify_eq. by exists home.
Qed.

(** The report names the source that decided, when the command line set both the path and its option
    or neither, and no variable is set to the empty text. *)
Lemma home_source_names_choice h :
  (∀ v, v ∈ [u "MMRELAY_HOME"; u "MMRELAY_BASE_DIR"; u "MMRELAY_DATA_DIR"] → h_env h v ≠ Some []) →
  match h_override h with
  | Some (_ :: _) => ∃ o, o ∈ [u "--home"; u "--base-dir"; u "--data-dir"] ∧ h_override_source h = Some o
  | _ => h_override_source h = None
  end →
  home_source h =
    match h_override h, getenv h "MMRELAY_HOME", getenv h "MMRELAY_BASE_DIR", getenv h "MMRELAY_DATA_DIR" with
    | Some (_ :: _), _, _, _ => u "CLI (" ++ default [] (h_override_source h) ++ u ")"
    | _, Some _, _, _ => u "MMRELAY_HOME env var"
    | _, _, Some _, _ => u "MMRELAY_BASE_DIR env var"
    | _, _, _, Some _ => u "MMRELAY_DATA_DIR env var"
    | _, _, _, _ => u "Platform defaults"
    end.
Proof.
  intros Hne Hov. unfold home_source, getenv, env_vars_detected, detected.
  assert (∀ v, v ∈ [u "MMRELAY_HOME"; u "MMRELAY_BASE_DIR"; u "MMRELAY_DATA_DIR"] →
    (∃ t, h_env h v = Some t ∧ nonempty t = true) ∨ h_env h v = None) as Hv.
  { intros v Hin. specialize (Hne v Hin). destruct (h_env h v) as [[|z t]|]; [done | left; by eexists | by right]. }
  assert (Hv1 := Hv (u "MMRELAY_HOME") ltac:(by left)).
  assert (Hv2 := Hv (u "MMRELAY_BASE_DIR") ltac:(by right; left)).
  assert (Hv3 := Hv (u "MMRELAY_DATA_DIR") ltac:(by right; right; left)).
  destruct Hv1 as [(t1 & E1 & N1)|E1], Hv2 as [(t2 & E2 & N2)|E2], Hv3 as [(t3 & E3 & N3)|E3].
  all: rewrite E1, E2, E3, ?N1, ?N2, ?N3.
  all: destruct (h_override h) as [[|z o]|];
    [rewrite Hov | destruct Hov as (f & Hf & ->); rewrite !elem_of_cons in Hf; destruct Hf as [-> | [-> | [-> | []%elem_of_nil]]] | rewrite Hov].
  all: by destruct (h_env h (u "MMRELAY_LOG_PATH")); vm_compute.
Qed.

(** ** Concrete hosts *)

(** A host with the files [there]; its directories are the ones with something below them. *)
Definition demo_host (windows : bool) (override : option pystr) (env : list (pystr * pystr)) (there : list pystr)
    : host :=
  let f := if windows then Windows else Posix in
  let at_or_below p := existsb (λ t, bool_decide (p_tail p `prefix_of` p_tail (parse f t))) there in
  let below p := existsb (λ t, bool_decide (p_tail p `prefix_of` p_tail (parse f t))
                               && negb (bool_decide (p_tail p = p_tail (parse f t)))) there in
  {| h_windows := windows; h_override := override;
     h_override_source := match override with Some _ => Some (u "--home") | None => None end;
     h_env := λ v, first_some (λ kv : pystr * pystr, if str_eqb kv.1 v then Some kv.2 else None) env;
     h_expanduser := λ c, if str_eqb c (u "~") then u "/home/me" else c;
     h_cwd := λ d, if windows then (if nonempty d then d else u "C:") ++ u "\work" else u "/work";
     h_user_data := Ok (if windows then u "C:\Data\mmrelay" else u "/home/me/.local/share/mmrelay");
     h_exists := λ p, Ok (at_or_below p); h_is_dir := λ p, Ok (below p); h_has_entry := λ p, Ok (below p);
     h_package := parse f (u "/usr/lib/mmrelay") |}.

#[export] Instance demo_sane override env there : sane (demo_host false override env there).
Proof. split; [intros d; by vm_compute | by right; left]. Qed.

Definition legacy_host : host :=
  demo_host false None [(u "MMRELAY_HOME", u "/data"); (u "MMRELAY_BASE_DIR", u "/data")]
    [u "/data/config.yaml"; u "/home/me/.mmrelay/config.yaml"; u "/var/lib/mmrelay/meshtastic.sqlite"].

Lemma legacy_dirs_exclude_home_witness :
  let dirs := [parse Posix (u "/home/me/.mmrelay"); parse Posix (u "/var/lib/mmrelay")] in
  NoDup ((λ p, str legacy_host (absolute legacy_host p)) <$> dirs)
  ∧ ∀ p, p ∈ dirs → h_exists legacy_host p = Ok true
                    ∧ str legacy_host (absolute legacy_host p) ≠ str legacy_host (parse Posix (u "/data")).
Proof. intros dirs. apply (legacy_dirs_exclude_home legacy_host); by vm_compute. Defined.

Lemma plugin_data_stays_inside_witness :
  ∃ root c rest, plugin_root legacy_host root
    ∧ parse Posix (u "/data/plugins/custom/map/data/tiles/7")
      = PPath (p_drive root) (p_root root) (p_tail root ++ c :: PLUGIN_DATA_DIRNAME :: rest)
    ∧ reads_as Posix (u "map") [c] ∧ reads_as Posix (u "tiles/7") rest
    ∧ ∀ f, (∃ c', reads_as f (u "map") [c']) ∧ ∃ l, reads_as f (u "tiles/7") l.
Proof.
  apply (plugin_data_stays_inside legacy_host (u "map") (Some (u "tiles/7")) (Some (u " Custom "))).
  by vm_compute.
Defined.

(** Names and subfolders that lead out are refused. *)
Example traversal_refused :
  forallb (λ n, match _validate_plugin_name n with Raise ValueError => true | _ => false end)
    [u ""; u "."; u ".."; u "/etc"; u "a/b"; u "..\x"; u "C:x"; u "C:\x"; u "\\srv\share"; u "a\b"] = true
  ∧ forallb (λ n, match _validate_plugin_subdir n with Raise ValueError => true | _ => false end)
    [u "../x"; u "a/../../b"; u "a\..\b"; u "/x"; u "D:y"] = true.
Proof. by vm_compute. Qed.

(** Two homes on Windows, each with configuration, credentials and database; [extra] lies in the
    folder of the installer besides. *)
Definition windows_host (extra : list pystr) : host :=
  demo_host true None [(u "LOCALAPPDATA", u "C:\Local")]
    ([u "C:\Data\mmrelay\config.yaml"; u "C:\Data\mmrelay\credentials.json";
      u "C:\Data\mmrelay\data\meshtastic.sqlite"; u "C:\Local\Programs\MM Relay\config.yaml";
      u "C:\Local\Programs\MM Relay\matrix\credentials.json";
      u "C:\Local\Programs\MM Relay\database\meshtastic.sqlite";
      u "C:\Local\Programs\MM Relay\logs\mmrelay.log"] ++ extra).
Definition data_home : ppath := parse Windows (u "C:\Data\mmrelay").
Definition installer_home : ppath := parse Windows (u "C:\Local\Programs\MM Relay").
Definition two_homes : host := windows_host [u "C:\Local\Programs\MM Relay\store\keys.db"].

(** A log does not outweigh the home in use, a key store does. *)
Lemma established_home_is_kept_witness :
  windows_home (windows_host []) data_home = Ok data_home ∧ established two_homes installer_home.
Proof.
  split; [by vm_compute |].
  apply (established_home_is_kept two_homes data_home); [by vm_compute .. | discriminate].
Defined.

(** ** What modelling showed *)

(** An empty MMRELAY_HOME counts as not set for the home, but as set for the report, which then names
    it as the source, and for the deprecation window, which it closes although an old variable is in
    use. *)
Definition empty_home_host : host :=
  demo_host false None [(u "MMRELAY_HOME", []); (u "MMRELAY_BASE_DIR", u "/srv/relay")] [].
Lemma empty_home_misreported :
  get_home_dir empty_home_host = Ok (parse Posix (u "/srv/relay"))
  ∧ home_source empty_home_host = u "MMRELAY_HOME env var"
  ∧ is_deprecation_window_active empty_home_host = false.
Proof. by vm_compute. Qed.

(** A lead of three points switches the home, where the comment asks for four: the installer has 21
    points here, the home in use 18. *)
Definition three_points_ahead : host :=
  demo_host true None [(u "LOCALAPPDATA", u "C:\Local")]
    [u "C:\Data\mmrelay\config.yaml"; u "C:\Data\mmrelay\credentials.json";
     u "C:\Data\mmrelay\data\meshtastic.sqlite"; u "C:\Local\Programs\MM Relay\config.yaml";
     u "C:\Local\Programs\MM Relay\matrix\credentials.json";
     u "C:\Local\Programs\MM Relay\database\meshtastic.sqlite";
     u "C:\Local\Programs\MM Relay\store\keys.db"].
Lemma three_points_switch :
  _score_mmrelay_home_state three_points_ahead installer_home = Ok 21
  ∧ _score_mmrelay_home_state three_points_ahead data_home = Ok 18
  ∧ windows_home three_points_ahead data_home = Ok installer_home.
Proof. by vm_compute. Qed.

(** A name that ends in a slash passes the check, and its database file lies in a folder of its own. *)
Lemma trailing_slash_database :
  get_plugin_database_path legacy_host (u "map/")
    = Ok (parse Posix (u "/data/database/plugin_data_map/.sqlite")).
Proof. by vm_compute. Qed.
