(* ===== verification/Interact.v ===== *)
(** * Programs that call out

    The coroutines of the Matrix session call a client library, the file system and each other, and
    go on by what they are answered.  A signature [Op] lists the calls with the types of their
    answers; an environment gives the answer of a call from all the calls made before, so that it
    may change its mind, fail or be cancelled at any point.  A program of the monad [prog] has a
    state of its own and leaves a history of its calls with their answers.

    The rules at the end prove assertions on what a program returns or raises and on its history,
    for every environment. *)

From Stdlib Require Import String.
From stdpp Require Import base tactics list.
From S2P Require Import Prelude PyStr PyValue.

(** ** Exceptions

    The classes of exceptions that the session tells apart.  [XDeadline] is a CancelledError that
    the running [asyncio.timeout] sends into its own body; [XTimeout] is asyncio.TimeoutError, which
    is an OSError; the errors of a sync are ConnectionErrors. *)
Inductive xn :=
  | XCancelled | XDeadline | XExit
  | XTimeout | XOS | XConnection | XSyncTimeout | XSyncFailed | XSyncFailedDetails
  | XNio | XSchema
  | XValue | XJson | XMissingRooms
  | XType | XCredentialsPathType | XKey | XAttribute | XImport
  | XRuntime | XE2EENotSupported | XOther.
#[export] Instance xn_eq_dec : EqDecision xn.
Proof. solve_decision. Defined.

(** [isinstance(e, Exception)] and the classes named in the handlers. *)
Definition is_exception_x (e : xn) : bool :=
  match e with XCancelled | XDeadline | XExit => false | _ => true end.
Definition is_os_error (e : xn) : bool :=
  match e with
  | XTimeout | XOS | XConnection | XSyncTimeout | XSyncFailed | XSyncFailedDetails => true
  | _ => false
  end.
Definition is_value_error (e : xn) : bool :=
  match e with XValue | XJson | XMissingRooms => true | _ => false end.
Definition is_type_error (e : xn) : bool :=
  match e with XType | XCredentialsPathType => true | _ => false end.
Definition is_runtime_error (e : xn) : bool :=
  match e with XRuntime | XE2EENotSupported => true | _ => false end.
(** The tuples of [matrix_utils.py]. *)
Definition NIO_COMM_EXCEPTIONS (e : xn) : bool :=
  match e with XNio | XTimeout => true | _ => false end.
Definition SYNC_RETRY_EXCEPTIONS (e : xn) : bool :=
  NIO_COMM_EXCEPTIONS e || match e with XSchema => true | _ => false end.
Definition WHOAMI_USER_ID_FALLBACK_EXCEPTIONS (e : xn) : bool :=
  NIO_COMM_EXCEPTIONS e || is_os_error e || is_type_error e || is_value_error e || is_runtime_error e
  || match e with XAttribute => true | _ => false end.
Definition LOGIN_EXCEPTIONS (e : xn) : bool := NIO_COMM_EXCEPTIONS e || is_os_error e.

(** ** Programs *)

Inductive outcome_x (A : Type) := Returns (a : A) | Raises (e : xn) | Running.
Arguments Returns {A} _.
Arguments Raises {A} _.
Arguments Running {A}.

Section programs.
Context {Op : Type → Type} {St : Type}.

Inductive event := Event (X : Type) (o : Op X) (answer : X + xn).
(** The latest event first. *)
Definition env := ∀ X, list event → Op X → X + xn.
Definition world := (St * list event)%type.
Definition prog (A : Type) := env → world → outcome_x A * world.

Definition ret {A} (a : A) : prog A := λ _ w, (Returns a, w).
Definition raise {A} (e : xn) : prog A := λ _ w, (Raises e, w).
Definition running {A} : prog A := λ _ w, (Running, w).
Definition gets {A} (f : St → A) : prog A := λ _ w, (Returns (f w.1), w).
Definition modify (f : St → St) : prog unit := λ _ w, (Returns tt, (f w.1, w.2)).
Definition bind {A B} (m : prog A) (k : A → prog B) : prog B := λ env w,
  match m env w with
  | (Returns a, w) => k a env w
  | (Raises e, w) => (Raises e, w)
  | (Running, w) => (Running, w)
  end.
Definition of_answer {A} (r : A + xn) : outcome_x A :=
  match r with inl a => Returns a | inr e => Raises e end.
Definition call {X} (o : Op X) : prog X := λ env w,
  let r := env X w.2 o in (of_answer r, (w.1, Event X o r :: w.2)).
(** [try: m except p as e: h e] *)
Definition try_except {A} (p : xn → bool) (m : prog A) (h : xn → prog A) : prog A := λ env w,
  match m env w with
  | (Raises e, w) => if p e then h e env w else (Raises e, w)
  | r => r
  end.
(** [try: m finally: f]; what [f] raises replaces the outcome. *)
Definition try_finally {A} (m : prog A) (f : prog unit) : prog A := λ env w,
  match m env w with
  | (Running, w) => (Running, w)
  | (o, w) => match f env w with
              | (Returns _, w) => (o, w)
              | (Raises e, w) => (Raises e, w)
              | (Running, w) => (Running, w)
              end
  end.
(** [async with asyncio.timeout(...): m] *)
Definition with_timeout {A} (m : prog A) : prog A := λ env w,
  match m env w with
  | (Raises XDeadline, w) => (Raises XTimeout, w)
  | r => r
  end.
Definition when (b : bool) (m : prog unit) : prog unit := if b then m else ret tt.
(** A function that fails in the ordinary way. *)
Definition of_option {A} (e : xn) (o : option A) : prog A :=
  match o with Some a => ret a | None => raise e end.
End programs.

Arguments event : clear implicits.
Arguments env : clear implicits.
Arguments world : clear implicits.
Arguments prog : clear implicits.
Arguments Event {Op X} _ _.

Declare Scope prog_scope.
Delimit Scope prog_scope with prog.
Notation "x <- m ;; k" := (bind m (λ x, k))
  (at level 100, m at next level, right associativity) : prog_scope.
Notation "m ;; k" := (bind m (λ _, k)) (at level 100, right associativity) : prog_scope.

(** ** Assertions

    [wp env m Q w]: from [w] the program [m] ends in an outcome and a world that satisfy [Q]. *)

Section assertions.
Context {Op : Type → Type} {St : Type} (e : env Op).
Abbreviation W := (world Op St).

Definition wp {A} (m : prog Op St A) (Q : outcome_x A → W → Prop) (w : W) : Prop :=
  Q (m e w).1 (m e w).2.

(** What a bind does with the outcome of its first part. *)
Definition bound {A B} (k : A → prog Op St B) (Q : outcome_x B → W → Prop) : outcome_x A → W → Prop :=
  λ o w, match o with
         | Returns a => wp (k a) Q w
         | Raises x => Q (Raises x) w
         | Running => Q Running w
         end.

Lemma wp_mono {A} (m : prog Op St A) (P Q : outcome_x A → W → Prop) w :
  wp m P w → (∀ o w', P o w' → Q o w') → wp m Q w.
Proof. unfold wp. auto. Qed.

Lemma wp_ret {A} (a : A) (Q : outcome_x A → W → Prop) w : Q (Returns a) w → wp (ret a) Q w.
Proof. done. Qed.

Lemma wp_raise {A} x (Q : outcome_x A → W → Prop) w : Q (Raises x) w → wp (raise x) Q w.
Proof. done. Qed.

Lemma wp_gets {A} (f : St → A) (Q : outcome_x A → W → Prop) w : Q (Returns (f w.1)) w → wp (gets f) Q w.
Proof. done. Qed.

Lemma wp_modify (f : St → St) (Q : outcome_x unit → W → Prop) w : Q (Returns tt) (f w.1, w.2) → wp (modify f) Q w.
Proof. done. Qed.

Lemma wp_bind {A B} (m : prog Op St A) (k : A → prog Op St B) (Q : outcome_x B → W → Prop) w :
  wp m (bound k Q) w → wp (bind m k) Q w.
Proof. unfold wp, bound, bind. by destruct (m e w) as [[a|x|] w']. Qed.

Lemma wp_call {X} (o : Op X) (Q : outcome_x X → W → Prop) w :
  (∀ r, e X w.2 o = r → Q (of_answer r) (w.1, Event o r :: w.2)) → wp (call o) Q w.
Proof. intros H. by apply H. Qed.

Lemma wp_try {A} (p : xn → bool) (m : prog Op St A) (h : xn → prog Op St A) (Q : outcome_x A → W → Prop) w :
  wp m (λ o w', match o with
                | Raises x => if p x then wp (h x) Q w' else Q (Raises x) w'
                | o => Q o w'
                end) w →
  wp (try_except p m h) Q w.
Proof.
  unfold wp, try_except. destruct (m e w) as [[a|x|] w']; simpl; [done | | done].
  destruct (p x); auto.
Qed.

Lemma wp_finally {A} (m : prog Op St A) (f : prog Op St unit) (Q : outcome_x A → W → Prop) w :
  wp m (λ o w', match o with
                | Running => Q Running w'
                | o => wp f (λ o2 w2, match o2 with
                                      | Returns _ => Q o w2
                                      | Raises x => Q (Raises x) w2
                                      | Running => Q Running w2
                                      end) w'
                end) w →
  wp (try_finally m f) Q w.
Proof.
  unfold wp, try_finally. destruct (m e w) as [[a|x|] w']; simpl; [| | done].
  all: by destruct (f e w') as [[b|y|] w2].
Qed.

Lemma wp_timeout {A} (m : prog Op St A) (Q : outcome_x A → W → Prop) w :
  wp m (λ o w', match o with Raises XDeadline => Q (Raises XTimeout) w' | o => Q o w' end) w →
  wp (with_timeout m) Q w.
Proof. unfold wp, with_timeout. by destruct (m e w) as [[a|[]|] w']. Qed.
End assertions.

(** [wp_run] takes a program apart along its binds, handlers and conditions, down to its calls; a
    lemma on a part is applied through [wp_use]. *)
Lemma wp_use {Op : Type → Type} {St A} (e : env Op) (m : prog Op St A) (P Q : outcome_x A → world Op St → Prop) w :
  wp e m P w → (∀ o w', P o w' → Q o w') → wp e m Q w.
Proof. apply wp_mono. Qed.

Ltac wp_step :=
  lazymatch goal with
  | |- wp _ (bind _ _) _ _ => apply wp_bind
  | |- bound _ _ _ (Returns _) _ => cbn beta iota delta [bound]
  | |- bound _ _ _ (Raises _) _ => cbn beta iota delta [bound]
  | |- bound _ _ _ Running _ => cbn beta iota delta [bound]
  | |- wp _ (ret _) _ _ => apply wp_ret
  | |- wp _ (raise _) _ _ => apply wp_raise
  | |- wp _ (gets _) _ _ => apply wp_gets
  | |- wp _ (modify _) _ _ => apply wp_modify
  | |- wp _ (when ?b _) _ _ => unfold when; destruct b eqn:?
  | |- wp _ (try_except _ _ _) _ _ => apply wp_try
  | |- wp _ (try_finally _ _) _ _ => apply wp_finally
  | |- wp _ (with_timeout _) _ _ => apply wp_timeout
  | |- wp _ (call _) _ _ => apply wp_call; intros [?|?] ?; cbn [of_answer]
  end.

(** ** What a program leaves

    [leaves m Φ]: however the environment answers, [m] adds calls to the history that satisfy [Φ],
    together with its outcome. *)

Section leaves.
Context {Op : Type → Type} {St : Type}.
Abbreviation trace := (list (event Op)).

Definition leaves {A : Type} (m : prog Op St A) (Φ : outcome_x A → trace → Prop) : Prop :=
  ∀ e w, wp e m (λ o w', ∃ l, w'.2 = l ++ w.2 ∧ Φ o l) w.

Lemma leaves_mono {A} (m : prog Op St A) (Φ Ψ : outcome_x A → trace → Prop) :
  leaves m Φ → (∀ o l, Φ o l → Ψ o l) → leaves m Ψ.
Proof. intros H HΦ e w. eapply wp_use; [apply H |]. naive_solver. Qed.

Lemma leaves_ret {A} (a : A) (Φ : outcome_x A → trace → Prop) : Φ (Returns a) [] → leaves (ret a) Φ.
Proof. intros H e w. by exists []. Qed.

Lemma leaves_raise {A} x (Φ : outcome_x A → trace → Prop) : Φ (Raises x) [] → leaves (raise x) Φ.
Proof. intros H e w. by exists []. Qed.

Lemma leaves_call {X} (o : Op X) (Φ : outcome_x X → trace → Prop) :
  (∀ r, Φ (of_answer r) [Event o r]) → leaves (call o) Φ.
Proof. intros H e w. unfold wp, call. eexists [_]. simpl. eauto. Qed.

Lemma leaves_option {A} x (o : option A) (Φ : outcome_x A → trace → Prop) :
  match o with Some a => Φ (Returns a) [] | None => Φ (Raises x) [] end → leaves (of_option x o) Φ.
Proof. destruct o; [apply leaves_ret | apply leaves_raise]. Qed.

(** What follows a part, given what the part left. *)
Definition then_leaves {A B : Type} (k : A → prog Op St B) (Φ : outcome_x B → trace → Prop)
  : outcome_x A → trace → Prop :=
  λ o l, match o with
         | Returns a => leaves (k a) (λ o' l', Φ o' (l' ++ l))
         | Raises x => Φ (Raises x) l
         | Running => Φ Running l
         end.

Lemma leaves_seq {A B} (m : prog Op St A) (k : A → prog Op St B) (Φ : outcome_x B → trace → Prop) :
  leaves m (then_leaves k Φ) → leaves (bind m k) Φ.
Proof.
  intros H e w. apply wp_bind. eapply wp_use; [apply H |]. simpl.
  intros [a|x|] w' (l & Hw & Hl); simpl in *; [| eauto | eauto].
  eapply wp_use; [apply Hl |]. simpl. intros o w2 (l' & Hw2 & HΦ).
  exists (l' ++ l). split; [| done]. by rewrite Hw2, Hw, app_assoc.
Qed.

Lemma leaves_try {A} (p : xn → bool) (m : prog Op St A) (h : xn → prog Op St A) (Φ : outcome_x A → trace → Prop) :
  leaves m (λ o l, match o with
                   | Raises x => if p x then leaves (h x) (λ o' l', Φ o' (l' ++ l)) else Φ (Raises x) l
                   | o => Φ o l
                   end) →
  leaves (try_except p m h) Φ.
Proof.
  intros H e w. apply wp_try. eapply wp_use; [apply H |]. simpl.
  intros [a|x|] w' (l & Hw & Hl); [eauto | | eauto].
  destruct (p x); [| eauto]. eapply wp_use; [apply Hl |]. simpl. intros o w2 (l' & Hw2 & HΦ).
  exists (l' ++ l). split; [| done]. by rewrite Hw2, Hw, app_assoc.
Qed.

Lemma leaves_timeout {A} (m : prog Op St A) (Φ : outcome_x A → trace → Prop) :
  leaves m (λ o l, match o with Raises XDeadline => Φ (Raises XTimeout) l | o => Φ o l end) →
  leaves (with_timeout m) Φ.
Proof.
  intros H e w. apply wp_timeout. eapply wp_use; [apply H |]. simpl.
  intros [a|[]|] w' (l & Hw & Hl); eauto.
Qed.
End leaves.

(** [leaves_run] follows a program through its binds, calls and conditions. *)
Ltac leaves_step :=
  lazymatch goal with
  | |- leaves (bind _ _) _ => apply leaves_seq
  | |- then_leaves _ _ _ _ => cbn beta iota delta [then_leaves]
  | |- leaves (ret _) _ => apply leaves_ret
  | |- leaves (raise _) _ => apply leaves_raise
  | |- leaves (call _) _ => apply leaves_call; intros [?|?]; cbn beta iota delta [of_answer]
  | |- leaves (of_option _ ?o) _ => apply leaves_option; destruct o eqn:?
  | |- leaves (try_except _ _ _) _ => apply leaves_try
  | |- leaves (with_timeout _) _ => apply leaves_timeout
  | |- leaves (if ?b then _ else _) _ => destruct b eqn:?
  | |- leaves (let '(_, _) := ?x in _) _ => destruct x
  | |- leaves (match ?x with _ => _ end) _ => destruct x eqn:?
  | |- if ?b then leaves _ _ else _ => destruct b eqn:?
  end.
(** A call is found in a history, from the latest on. *)
Ltac in_trace :=
  lazymatch goal with
  | |- _ ∈ _ ++ _ => apply elem_of_app; first [left; in_trace | right; in_trace]
  | |- _ ∈ _ :: _ => first [left | right; in_trace]
  | |- _ => eassumption
  end.
Ltac leaves_run := repeat first [leaves_step | progress cbn beta iota].

(** ** What a program does to its state

    [runs m s Φ]: started in the state [s], however the environment answers, [m] ends in an outcome, a
    state and added calls that satisfy [Φ]. *)

Section runs.
Context {Op : Type → Type} {St : Type}.
Abbreviation trace := (list (event Op)).

Definition runs {A : Type} (m : prog Op St A) (s : St) (Φ : outcome_x A → St → trace → Prop) : Prop :=
  ∀ e h, wp e m (λ o w', ∃ l, w'.2 = l ++ h ∧ Φ o w'.1 l) (s, h).

Lemma runs_mono {A} (m : prog Op St A) s (Φ Ψ : outcome_x A → St → trace → Prop) :
  runs m s Φ → (∀ o s' l, Φ o s' l → Ψ o s' l) → runs m s Ψ.
Proof. intros H HΦ e h. eapply wp_use; [apply H |]. naive_solver. Qed.

Lemma runs_ret {A} (a : A) s (Φ : outcome_x A → St → trace → Prop) : Φ (Returns a) s [] → runs (ret a) s Φ.
Proof. intros H e h. by exists []. Qed.

Lemma runs_raise {A} x s (Φ : outcome_x A → St → trace → Prop) : Φ (Raises x) s [] → runs (raise x) s Φ.
Proof. intros H e h. by exists []. Qed.

Lemma runs_running {A} s (Φ : outcome_x A → St → trace → Prop) : Φ Running s [] → runs running s Φ.
Proof. intros H e h. by exists []. Qed.

Lemma runs_gets {A} (f : St → A) s (Φ : outcome_x A → St → trace → Prop) : Φ (Returns (f s)) s [] → runs (gets f) s Φ.
Proof. intros H e h. by exists []. Qed.

Lemma runs_modify (f : St → St) s (Φ : outcome_x unit → St → trace → Prop) :
  Φ (Returns tt) (f s) [] → runs (modify f) s Φ.
Proof. intros H e h. by exists []. Qed.

Lemma runs_call {X} (o : Op X) s (Φ : outcome_x X → St → trace → Prop) :
  (∀ r, Φ (of_answer r) s [Event o r]) → runs (call o) s Φ.
Proof. intros H e h. unfold wp, call. eexists [_]. simpl. eauto. Qed.

Lemma runs_option {A} x (o : option A) s (Φ : outcome_x A → St → trace → Prop) :
  match o with Some a => Φ (Returns a) s [] | None => Φ (Raises x) s [] end → runs (of_option x o) s Φ.
Proof. destruct o; [apply runs_ret | apply runs_raise]. Qed.

Definition then_runs {A B : Type} (k : A → prog Op St B) (Φ : outcome_x B → St → trace → Prop)
  : outcome_x A → St → trace → Prop :=
  λ o s l, match o with
           | Returns a => runs (k a) s (λ o' s' l', Φ o' s' (l' ++ l))
           | Raises x => Φ (Raises x) s l
           | Running => Φ Running s l
           end.

Lemma runs_bind {A B} (m : prog Op St A) (k : A → prog Op St B) s (Φ : outcome_x B → St → trace → Prop) :
  runs m s (then_runs k Φ) → runs (bind m k) s Φ.
Proof.
  intros H e h. apply wp_bind. eapply wp_use; [apply H |]. simpl.
  intros [a|x|] [s' h'] (l & Hw & Hl); simpl in *; [| eauto | eauto]. subst h'.
  eapply wp_use; [apply Hl |]. simpl. intros o w2 (l' & Hw2 & HΦ).
  exists (l' ++ l). split; [| done]. by rewrite Hw2, app_assoc.
Qed.

(** What a handler does with the outcome of the body. *)
Definition handled {A : Type} (p : xn → bool) (h : xn → prog Op St A) (Φ : outcome_x A → St → trace → Prop)
  : outcome_x A → St → trace → Prop :=
  λ o s l, match o with
           | Raises x => if p x then runs (h x) s (λ o' s' l', Φ o' s' (l' ++ l)) else Φ (Raises x) s l
           | o => Φ o s l
           end.

Lemma runs_try {A} (p : xn → bool) (m : prog Op St A) (h : xn → prog Op St A) s
    (Φ : outcome_x A → St → trace → Prop) :
  runs m s (handled p h Φ) → runs (try_except p m h) s Φ.
Proof.
  intros H e hs. apply wp_try. eapply wp_use; [apply H |]. simpl.
  intros [a|x|] [s' h'] (l & Hw & Hl); simpl in *; [eauto | | eauto]. subst h'.
  destruct (p x); [| eauto]. eapply wp_use; [apply Hl |]. simpl. intros o w2 (l' & Hw2 & HΦ).
  exists (l' ++ l). split; [| done]. by rewrite Hw2, app_assoc.
Qed.

(** What a final clause does with the outcome of the body. *)
Definition finished {A : Type} (f : prog Op St unit) (Φ : outcome_x A → St → trace → Prop)
  : outcome_x A → St → trace → Prop :=
  λ o s l, match o with
           | Running => Φ Running s l
           | o => runs f s (λ o' s' l', match o' with
                                        | Returns _ => Φ o s' (l' ++ l)
                                        | Raises x => Φ (Raises x) s' (l' ++ l)
                                        | Running => Φ Running s' (l' ++ l)
                                        end)
           end.

Lemma runs_finally {A} (m : prog Op St A) (f : prog Op St unit) s (Φ : outcome_x A → St → trace → Prop) :
  runs m s (finished f Φ) → runs (try_finally m f) s Φ.
Proof.
  intros H e hs. apply wp_finally. eapply wp_use; [apply H |]. simpl.
  intros [a|x|] [s' h'] (l & Hw & Hl); simpl in *; [| | eauto]; subst h'.
  all: eapply wp_use; [apply Hl |]; simpl; intros [[]|y|] w2 (l' & Hw2 & HΦ);
    exists (l' ++ l); (split; [by rewrite Hw2, app_assoc | done]).
Qed.

Lemma runs_if {A} (b : bool) (m1 m2 : prog Op St A) s (Φ : outcome_x A → St → trace → Prop) :
  (b = true → runs m1 s Φ) → (b = false → runs m2 s Φ) → runs (if b then m1 else m2) s Φ.
Proof. destruct b; auto. Qed.
End runs.

(** [runs_run] follows a program through its binds, calls, handlers and conditions. *)
Ltac runs_step :=
  lazymatch goal with
  | |- runs (bind _ _) _ _ => apply runs_bind
  | |- then_runs _ _ _ _ _ => cbn beta iota delta [then_runs]
  | |- handled _ _ _ _ _ _ => cbn beta iota delta [handled]
  | |- finished _ _ _ _ _ => cbn beta iota delta [finished]
  | |- runs (ret _) _ _ => apply runs_ret
  | |- runs (raise _) _ _ => apply runs_raise
  | |- runs running _ _ => apply runs_running
  | |- runs (gets _) _ _ => apply runs_gets
  | |- runs (modify _) _ _ => apply runs_modify
  | |- runs (when ?b _) _ _ => unfold when
  | |- runs (call _) _ _ => apply runs_call; intros [?|?]; cbn beta iota delta [of_answer]
  | |- runs (of_option _ ?o) _ _ => apply runs_option; destruct o eqn:?
  | |- runs (try_except _ _ _) _ _ => apply runs_try
  | |- runs (try_finally _ _) _ _ => apply runs_finally
  | |- runs (if ?b then _ else _) _ _ => destruct b eqn:?
  | |- runs (let '(_, _) := ?x in _) _ _ => destruct x
  | |- runs (match ?x with _ => _ end) _ _ => destruct x eqn:?
  | |- if ?b then runs _ _ _ else _ => destruct b eqn:?
  end.
Ltac runs_run := repeat first [runs_step | progress cbn beta iota].

Lemma runs_and {Op : Type → Type} {St A} (m : prog Op St A) s (Φ Ψ : outcome_x A → St → list (event Op) → Prop) :
  runs m s Φ → runs m s Ψ → runs m s (λ o s' l, Φ o s' l ∧ Ψ o s' l).
Proof.
  intros H1 H2 e h. destruct (H1 e h) as (l1 & E1 & ?), (H2 e h) as (l2 & E2 & ?). exists l1.
  assert (l2 = l1) as -> by (apply (app_inv_tail h); by rewrite <- E1, <- E2). done.
Qed.

(** ** Programs that change the state in a certain way only

    [steady R P m]: [m] takes a state to one that [R] relates it to, and all the calls it makes
    satisfy [P]. *)

Section steady.
Context {Op : Type → Type} {St : Type} (R : relation St) `{!PreOrder R} (P : event Op → Prop).

Definition steady {A : Type} (m : prog Op St A) : Prop := ∀ s, runs m s (λ _ s' l, R s s' ∧ Forall P l).

Lemma steady_ret {A} (a : A) : steady (ret a).
Proof. intros s. by apply runs_ret. Qed.

Lemma steady_raise {A} x : steady (raise x : prog Op St A).
Proof. intros s. by apply runs_raise. Qed.

Lemma steady_running {A} : steady (running : prog Op St A).
Proof. intros s. by apply runs_running. Qed.

Lemma steady_call {X} (o : Op X) : (∀ r, P (Event o r)) → steady (call o).
Proof. intros H s. apply runs_call. intros r. split; [done |]. by constructor. Qed.

Lemma steady_gets {A} (f : St → A) : steady (gets f).
Proof. intros s. by apply runs_gets. Qed.

Lemma steady_modify (f : St → St) : (∀ s, R s (f s)) → steady (modify f).
Proof. intros H s. by apply runs_modify. Qed.

Lemma steady_bind {A B} (m : prog Op St A) (k : A → prog Op St B) :
  steady m → (∀ a, steady (k a)) → steady (bind m k).
Proof.
  intros Hm Hk s. apply runs_bind. eapply runs_mono; [apply Hm |]. intros [a|x|] s' l [? Hl]; [| done | done].
  eapply runs_mono; [apply Hk |]. intros o s2 l' [? Hl']. split; [by etrans |]. by apply Forall_app.
Qed.

Lemma steady_try {A} (p : xn → bool) (m : prog Op St A) (h : xn → prog Op St A) :
  steady m → (∀ x, steady (h x)) → steady (try_except p m h).
Proof.
  intros Hm Hh s. apply runs_try. eapply runs_mono; [apply Hm |]. intros [a|x|] s' l [? Hl]; [done | | done].
  cbn. destruct (p x); [| done]. eapply runs_mono; [apply Hh |]. intros o s2 l' [? Hl'].
  split; [by etrans |]. by apply Forall_app.
Qed.

Lemma steady_finally {A} (m : prog Op St A) (f : prog Op St unit) :
  steady m → steady f → steady (try_finally m f).
Proof.
  intros Hm Hf s. apply runs_finally. eapply runs_mono; [apply Hm |].
  intros [a|x|] s' l [? Hl]; [| | done]; (eapply runs_mono; [apply Hf |]); intros [[]|y|] s2 l' [? Hl'].
  all: split; [by etrans |]; by apply Forall_app.
Qed.

Lemma steady_when (b : bool) (m : prog Op St unit) : steady m → steady (when b m).
Proof. destruct b; [done | intros _; apply steady_ret]. Qed.
End steady.

Lemma steady_mono {Op : Type → Type} {St A} (R : relation St) (P Q : event Op → Prop) (m : prog Op St A) :
  (∀ ev, P ev → Q ev) → steady R P m → steady R Q m.
Proof.
  intros HPQ H s. eapply runs_mono; [apply H |]. intros o s' l [? Hl]. split; [done |].
  eapply Forall_impl; [exact Hl |]. apply HPQ.
Qed.

(** [steady_run] takes a program apart; what is left are the calls, and parts that it does not know. *)
Ltac steady_step :=
  lazymatch goal with
  | |- steady _ _ (bind _ _) => apply steady_bind; [exact _ | | intros ?]
  | |- steady _ _ (ret _) => apply steady_ret; exact _
  | |- steady _ _ (raise _) => apply steady_raise; exact _
  | |- steady _ _ running => apply steady_running; exact _
  | |- steady _ _ (gets _) => apply steady_gets; exact _
  | |- steady _ _ (modify _) => apply steady_modify; try exact _; try (intros ?; done)
  | |- steady _ _ (when _ _) => apply steady_when; [exact _ |]
  | |- steady _ _ (try_except _ _ _) => apply steady_try; [exact _ | | intros ?]
  | |- steady _ _ (try_finally _ _) => apply steady_finally; [exact _ | |]
  | |- steady _ _ (let '(_, _) := ?x in _) => destruct x
  | |- steady _ _ (match ?x with _ => _ end) => destruct x eqn:?
  | |- steady _ _ (call _) => apply steady_call; [exact _ |]; intros ?; try done
  end.
Ltac steady_run := repeat first [steady_step | progress cbn beta iota].
