(* ===== verification/ConfigEnv.v ===== *)
(** * Settings from the environment

    Models the part of [config.py] that turns environment variables into settings and merges them into
    the configuration, with the style checks of a configuration text.

    The environment is a function from names to texts.  The configuration is the value that came out
    of the YAML file, which need not be a dictionary. *)

From Stdlib Require Import String QArith.
From stdpp Require Import base tactics list numbers sets.
From S2P Require Import Prelude PyStr PyValue PyLib Interact.
Open Scope Z_scope.

Abbreviation environ := (pystr → option pystr).

(** ** Conversions *)

Definition ENV_BOOL_TRUE_VALUES : list pystr := [u "true"; u "1"; u "yes"; u "on"].
Definition ENV_BOOL_FALSE_VALUES : list pystr := [u "false"; u "0"; u "no"; u "off"].

Definition _convert_env_bool (value : pystr) : res bool :=
  if bool_decide (lower value ∈ ENV_BOOL_TRUE_VALUES) then Ok true
  else if bool_decide (lower value ∈ ENV_BOOL_FALSE_VALUES) then Ok false
  else Raise ValueError.

Definition _convert_env_int (value : pystr) (min_value max_value : option Z) : res Z :=
  match int_of_str value with
  | None => Raise ValueError
  | Some z =>
      if match min_value with Some m => z <? m | None => false end then Raise ValueError
      else if match max_value with Some m => m <? z | None => false end then Raise ValueError
      else Ok z
  end.

Definition _convert_env_float (value : pystr) (min_value max_value : option Q) : res pyfloat :=
  match float_of_str value with
  | Some (FFin q) =>
      if match min_value with Some m => qlt q m | None => false end then Raise ValueError
      else if match max_value with Some m => qlt m q | None => false end then Raise ValueError
      else Ok (FFin q)
  | _ => Raise ValueError
  end.

(** ** Mappings *)

(** The [type] of a mapping with the keys that go with it; the transform of an enum is [lower]. *)
Inductive env_type :=
  | TString | TInt (min_value max_value : option Z) | TFloat (min_value max_value : option Q)
  | TBool | TEnum (valid_values : list pystr) | TUnknown.
Record env_mapping := { env_var : pystr; config_key : pystr; em_type : env_type }.

Definition MESHTASTIC_ENV_VAR_MAPPINGS : list env_mapping :=
  [ {| env_var := u "MMRELAY_MESHTASTIC_CONNECTION_TYPE"; config_key := u "connection_type";
       em_type := TEnum [u "tcp"; u "serial"; u "ble"] |};
    {| env_var := u "MMRELAY_MESHTASTIC_HOST"; config_key := u "host"; em_type := TString |};
    {| env_var := u "MMRELAY_MESHTASTIC_PORT"; config_key := u "port";
       em_type := TInt (Some 1) (Some 65535) |};
    {| env_var := u "MMRELAY_MESHTASTIC_SERIAL_PORT"; config_key := u "serial_port"; em_type := TString |};
    {| env_var := u "MMRELAY_MESHTASTIC_BLE_ADDRESS"; config_key := u "ble_address"; em_type := TString |};
    {| env_var := u "MMRELAY_MESHTASTIC_BROADCAST_ENABLED"; config_key := u "broadcast_enabled";
       em_type := TBool |};
    {| env_var := u "MMRELAY_MESHTASTIC_MESHNET_NAME"; config_key := u "meshnet_name"; em_type := TString |};
    {| env_var := u "MMRELAY_MESHTASTIC_MESSAGE_DELAY"; config_key := u "message_delay";
       em_type := TFloat (Some 2%Q) None |};
    {| env_var := u "MMRELAY_MESHTASTIC_NODEDB_REFRESH_INTERVAL"; config_key := u "nodedb_refresh_interval";
       em_type := TFloat (Some 0%Q) None |} ].
Definition LOGGING_ENV_VAR_MAPPINGS : list env_mapping :=
  [ {| env_var := u "MMRELAY_LOGGING_LEVEL"; config_key := u "level";
       em_type := TEnum [u "debug"; u "info"; u "warning"; u "error"; u "critical"] |};
    {| env_var := u "MMRELAY_LOG_FILE"; config_key := u "filename"; em_type := TString |} ].
Definition DATABASE_ENV_VAR_MAPPINGS : list env_mapping :=
  [ {| env_var := u "MMRELAY_DATABASE_PATH"; config_key := u "path"; em_type := TString |} ].
Definition MATRIX_ENV_VAR_MAPPINGS : list env_mapping :=
  [ {| env_var := u "MMRELAY_MATRIX_HOMESERVER"; config_key := u "homeserver"; em_type := TString |};
    {| env_var := u "MMRELAY_MATRIX_BOT_USER_ID"; config_key := u "bot_user_id"; em_type := TString |};
    {| env_var := u "MMRELAY_MATRIX_PASSWORD"; config_key := u "password"; em_type := TString |};
    {| env_var := u "MMRELAY_MATRIX_ACCESS_TOKEN"; config_key := u "access_token"; em_type := TString |} ].

(** The value a mapping takes from a text; None: the setting is skipped. *)
Definition env_setting (t : env_type) (env_value : pystr) : option pyval :=
  match t with
  | TString => Some (VStr env_value)
  | TInt lo hi => match _convert_env_int env_value lo hi with Ok z => Some (VInt z) | Raise _ => None end
  | TFloat lo hi => match _convert_env_float env_value lo hi with Ok q => Some (VFloat q) | Raise _ => None end
  | TBool => match _convert_env_bool env_value with Ok b => Some (VBool b) | Raise _ => None end
  | TEnum valid_values =>
      let transformed_value := lower env_value in
      if bool_decide (transformed_value ∈ valid_values) then Some (VStr transformed_value) else None
  | TUnknown => None
  end.

Fixpoint load_mappings (env : environ) (mappings : list env_mapping) (config : pydict) : pydict :=
  match mappings with
  | [] => config
  | m :: mappings =>
      load_mappings env mappings
        match env (env_var m) with
        | None => config
        | Some env_value => match env_setting (em_type m) env_value with
                            | Some value => dset config (config_key m) value
                            | None => config
                            end
        end
  end.
Definition _load_config_from_env_mapping (env : environ) (mappings : list env_mapping) : option pydict :=
  match load_mappings env mappings [] with [] => None | config => Some config end.

Definition load_meshtastic_config_from_env (env : environ) : option pydict :=
  _load_config_from_env_mapping env MESHTASTIC_ENV_VAR_MAPPINGS.
Definition load_logging_config_from_env (env : environ) : option pydict :=
  match _load_config_from_env_mapping env LOGGING_ENV_VAR_MAPPINGS with
  | Some config => Some (if truthy (dget_none config (u "filename"))
                         then dset config (u "log_to_file") (VBool true) else config)
  | None => None
  end.
Definition load_database_config_from_env (env : environ) : option pydict :=
  _load_config_from_env_mapping env DATABASE_ENV_VAR_MAPPINGS.
Definition load_matrix_config_from_env (env : environ) : option pydict :=
  _load_config_from_env_mapping env MATRIX_ENV_VAR_MAPPINGS.

(** ** Merging *)

Definition NORMALIZABLE_CONFIG_SECTIONS : list pystr :=
  [u "matrix"; u "meshtastic"; u "logging"; u "database"; u "db"; u "plugins"; u "custom-plugins";
   u "community-plugins"].

(** [name in config] *)
Definition has_key (config : pyval) (name : pystr) : res bool :=
  match config with
  | VDict d => Ok (dmem d name)
  | VStr s => Ok (contains s name)
  | VSeq _ l => Ok (existsb (λ v, py_eqb v (VStr name)) l)
  | _ => Raise TypeError
  end.

(** [config[name]] with a text works on dictionaries only. *)
Fixpoint _normalize_optional_dict_sections (config : pyval) (section_names : list pystr) : res pyval :=
  match section_names with
  | [] => Ok config
  | name :: section_names =>
      let! present := has_key config name in
      if negb present then _normalize_optional_dict_sections config section_names
      else match config with
           | VDict d => _normalize_optional_dict_sections
                          (if is_none (dget_none d name) then VDict (dset d name (VDict [])) else config)
                          section_names
           | _ => Raise TypeError
           end
  end.

(** [section.update(fragment)] *)
Definition dict_update (section fragment : pydict) : pydict :=
  foldl (λ d (kv : pystr * pyval), dset d kv.1 kv.2) section fragment.

(** [_get_mapping_section] and the update of the section; None: it is not a mapping. *)
Definition _get_mapping_section (config : pydict) (section_name : pystr) : option pydict :=
  match dget_none config section_name with
  | VNone => Some []
  | VDict section => Some section
  | _ => None
  end.
Definition override_section (section_name : pystr) (fragment : option pydict) (config : pyval) : res pyval :=
  match fragment with
  | None => Ok config
  | Some fragment =>
      match config with
      | VDict d => Ok match _get_mapping_section d section_name with
                      | Some section => VDict (dset d section_name (VDict (dict_update section fragment)))
                      | None => config
                      end
      | _ => Raise AttributeError
      end
  end.

(** The four sections in the order of the code. *)
Definition env_sections (env : environ) : list (pystr * option pydict) :=
  [(u "meshtastic", load_meshtastic_config_from_env env); (u "logging", load_logging_config_from_env env);
   (u "database", load_database_config_from_env env); (u "matrix", load_matrix_config_from_env env)].
Fixpoint override_sections (sections : list (pystr * option pydict)) (config : pyval) : res pyval :=
  match sections with
  | [] => Ok config
  | (name, fragment) :: sections =>
      let! config := override_section name fragment config in override_sections sections config
  end.

Definition apply_env_config_overrides (env : environ) (config : pyval) : res pyval :=
  let! config := if negb (truthy config) then Ok (VDict [])
                 else _normalize_optional_dict_sections config NORMALIZABLE_CONFIG_SECTIONS in
  override_sections (env_sections env) config.

(** ** End-to-end encryption *)

Definition bool_setting (v : pyval) : bool := match v with VBool b => b | _ => false end.
Definition as_dict (v : pyval) : pydict := match v with VDict d => d | _ => [] end.

Definition is_e2ee_enabled (windows : bool) (config : pydict) : bool :=
  if windows then false
  else match config with
       | [] => false
       | _ =>
           match dget_or config (u "matrix") (VDict []) with
           | VDict ((_ :: _) as matrix_cfg) =>
               let enabled k := bool_setting (dget_or (as_dict (dget_none matrix_cfg k)) (u "enabled") (VBool false)) in
               enabled (u "encryption") || enabled (u "e2ee")
           | _ => false
           end
       end.

(** ** Style of a configuration text *)

Definition style_words : list pystr :=
  [u "yes"; u "no"; u "on"; u "off"; u "Yes"; u "No"; u "YES"; u "NO"].

(** The first colon after which only one of the words and white space follow. *)
Fixpoint bool_word (line : pystr) : option pystr :=
  match line with
  | [] => None
  | c :: line =>
      if (c =? COLON) && bool_decide (strip line ∈ style_words) then Some (strip line) else bool_word line
  end.

(** A line that is neither empty nor a comment; [true] marks an error, [false] a warning.  The two are
    told apart by the words of the message, which quotes the line. *)
Definition line_issues (number : Z) (line : pystr) : list (bool * Z) :=
  if negb (nonempty (strip line)) || startswith (strip line) (u "#") then []
  else (if negb (contains line (u ":")) && contains line (u "=")
        then [(negb (contains (strip line) (u "Style warning")), number)] else [])
       ++ match bool_word line with Some _ => [(false, number)] | None => [] end.
Fixpoint syntax_issues (number : Z) (lines : list pystr) : list (bool * Z) :=
  match lines with
  | [] => []
  | line :: lines => line_issues number line ++ syntax_issues (number + 1) lines
  end.

(** [parsed] is what [yaml.safe_load] gives, None for a YAMLError.  The message is the lines it names:
    the issues, when there are any. *)
Definition validate_yaml_syntax (config_content : pystr) (parsed : option pyval)
    : bool * list (bool * Z) * option pyval :=
  let issues := syntax_issues 1 (split_all 10 config_content) in
  match parsed with
  | None => (false, issues, None)
  | Some v =>
      let errors := filter (λ i : bool * Z, i.1 = true) issues in
      match errors with
      | _ :: _ => (false, errors, None)
      | [] => (true, issues, Some v)
      end
  end.

(** ** Facts *)

Section facts.
Implicit Types (d f : pydict) (env : environ).

Definition keys (d : pydict) : list pystr := d.*1.

Lemma keys_cons k v d : keys ((k, v) :: d) = k :: keys d.
Proof. done. Qed.

Lemma dset_keys d k v : keys (dset d k v) = if dmem d k then keys d else keys d ++ [k].
Proof.
  unfold dmem. induction d as [|[k' v'] d IH]; [done |]. cbn [dset dget].
  destruct (str_eqb k' k); [done |]. rewrite !keys_cons, IH. by destruct (dget d k).
Qed.

Lemma dmem_keys d k : dmem d k = true ↔ k ∈ keys d.
Proof.
  unfold dmem. induction d as [|[k' v'] d IH]; [set_solver |].
  rewrite keys_cons. cbn [dget]. destruct (str_eqb k' k) eqn:E.
  - apply str_eqb_spec in E as ->. split; [by left | done].
  - rewrite IH. rewrite elem_of_cons. split; [by right |]. intros [->|?]; [| done].
    by rewrite str_eqb_refl in E.
Qed.

Lemma dset_NoDup d k v : NoDup (keys d) → NoDup (keys (dset d k v)).
Proof.
  intros H. rewrite dset_keys. destruct (dmem d k) eqn:E; [done |].
  apply NoDup_app. split; [done |]. split; [| apply NoDup_singleton].
  intros x Hx ->%list_elem_of_singleton. apply dmem_keys in Hx. congruence.
Qed.

Lemma dget_dset d k v k' : dget (dset d k v) k' = if str_eqb k k' then Some v else dget d k'.
Proof.
  destruct (str_eqb k k') eqn:E.
  - apply str_eqb_spec in E as ->. apply dget_dset_eq.
  - apply dget_dset_ne. intros ->. by rewrite str_eqb_refl in E.
Qed.

Lemma dget_update section fragment k : NoDup (keys fragment) →
  dget (dict_update section fragment) k =
    match dget fragment k with Some v => Some v | None => dget section k end.
Proof.
  unfold dict_update. revert section.
  induction fragment as [|[k' v'] f IH]; intros section Hnd; [done |].
  rewrite keys_cons in Hnd. apply NoDup_cons in Hnd as [Hk' Hnd].
  cbn [foldl fst snd dget]. rewrite IH, dget_dset by done.
  destruct (str_eqb k' k) eqn:E; [| done]. apply str_eqb_spec in E as ->.
  destruct (dget f k) eqn:Ef; [| done]. exfalso. apply Hk', dmem_keys. unfold dmem. by rewrite Ef.
Qed.

(** What a setting of a type may be. *)
Definition conforms (t : env_type) (v : pyval) : Prop :=
  match t with
  | TString => ∃ s, v = VStr s
  | TInt lo hi => ∃ z, v = VInt z ∧ (∀ m, lo = Some m → m ≤ z) ∧ (∀ m, hi = Some m → z ≤ m)
  | TFloat lo hi => ∃ q, v = VFloat (FFin q) ∧ (∀ m, lo = Some m → (m <= q)%Q) ∧ (∀ m, hi = Some m → (q <= m)%Q)
  | TBool => ∃ b, v = VBool b
  | TEnum valid_values => ∃ s, v = VStr s ∧ s ∈ valid_values
  | TUnknown => False
  end.

Lemma env_setting_conforms t text v : env_setting t text = Some v → conforms t v.
Proof.
  destruct t as [|lo hi|lo hi| |valid|]; simpl; try by eauto.
  - intros [= <-]. by exists text.
  - unfold _convert_env_int. intros H. destruct (int_of_str text) as [z|]; [| done].
    destruct lo as [lo|], hi as [hi|]; split_hyp H; simplify_eq/=; exists z; (split; [done |]); split; intros; simplify_eq;
      by apply Z.ltb_ge.
  - unfold _convert_env_float. intros H. destruct (float_of_str text) as [[q| |]|]; try done.
    destruct lo as [lo|], hi as [hi|]; split_hyp H; simplify_eq/=; exists q; (split; [done |]); split; intros; simplify_eq; by q_bool.
  - unfold _convert_env_bool. intros H. split_hyp H; by eexists.
  - case_bool_decide; [| done]. intros [= <-]. by eexists.
Qed.

(** Where the settings of a fragment come from. *)
Lemma load_mappings_spec env mappings config :
  NoDup (keys config) →
  NoDup (keys (load_mappings env mappings config))
  ∧ ∀ k v, dget (load_mappings env mappings config) k = Some v →
      (∃ m text, m ∈ mappings ∧ config_key m = k ∧ env (env_var m) = Some text ∧ env_setting (em_type m) text = Some v)
      ∨ dget config k = Some v.
Proof.
  revert config. induction mappings as [|m ms IH]; intros config Hnd; simpl; [auto |].
  set (config' := match env (env_var m) with Some _ => _ | None => _ end).
  assert (NoDup (keys config')) as Hnd'.
  { unfold config'. destruct (env (env_var m)); [| done]. destruct (env_setting _ _); [by apply dset_NoDup | done]. }
  destruct (IH config' Hnd') as [H1 H2]. split; [done |]. intros k v Hk.
  destruct (H2 k v Hk) as [(m' & text & Hm' & ?)|Hc]; [left; exists m', text; split; [by right | done] |].
  unfold config' in Hc. destruct (env (env_var m)) as [text|] eqn:Et; [| by right].
  destruct (env_setting (em_type m) text) as [w|] eqn:Ew; [| by right].
  rewrite dget_dset in Hc. destruct (str_eqb (config_key m) k) eqn:Ek; [| by right].
  apply str_eqb_spec in Ek. simplify_eq. left. exists m, text. split; [by left | done].
Qed.

Lemma fragment_spec env mappings fragment :
  _load_config_from_env_mapping env mappings = Some fragment →
  NoDup (keys fragment) ∧ fragment ≠ [] ∧
  ∀ k v, dget fragment k = Some v →
    ∃ m text, m ∈ mappings ∧ config_key m = k ∧ env (env_var m) = Some text ∧ env_setting (em_type m) text = Some v.
Proof.
  unfold _load_config_from_env_mapping. intros H.
  destruct (load_mappings_spec env mappings []) as [H1 H2]; [constructor |].
  destruct (load_mappings env mappings []) as [|kv c] eqn:E; [done |]. injection H as <-.
  split; [done |]. split; [done |]. intros k v Hk. by destruct (H2 k v Hk) as [?|?].
Qed.
End facts.

(** ** Properties *)

Definition fragment_of (sections : list (pystr * option pydict)) (name : pystr) : option pydict :=
  first_some (λ nf : pystr * option pydict, if str_eqb nf.1 name then nf.2 else None) sections.
Definition env_fragment (env : environ) (name : pystr) : option pydict := fragment_of (env_sections env) name.
(** The entries of a section as a dictionary: a null section has none. *)
Definition section_of (d : pydict) (name : pystr) : pydict := as_dict (dget_none d name).

Lemma fragment_NoDup env section f : env_fragment env section = Some f → NoDup (keys f).
Proof.
  assert (∀ ms c, _load_config_from_env_mapping env ms = Some c → NoDup (keys c)) as Hf.
  { intros ms c Hc. by apply fragment_spec in Hc as (? & _). }
  intros (l1 & [name g] & l2 & Hl & Hg & _)%first_some_Some. cbn [fst snd] in Hg.
  destruct (str_eqb name section); [| done]. subst g.
  assert ((name, Some f) ∈ env_sections env) as Hin by (rewrite Hl; set_solver). clear Hl.
  unfold env_sections in Hin. rewrite !elem_of_cons in Hin.
  destruct Hin as [Hin|[Hin|[Hin|[Hin|[]%elem_of_nil]]]]; injection Hin as _ Hin; symmetry in Hin; try by eapply Hf.
  unfold load_logging_config_from_env in Hin. destruct (_load_config_from_env_mapping _ _) as [c|] eqn:E; [| done].
  injection Hin as <-. destruct (truthy _); [apply dset_NoDup |]; by eapply Hf.
Qed.

Lemma normalize_spec names d :
  ∃ d', _normalize_optional_dict_sections (VDict d) names = Ok (VDict d') ∧
    ∀ k, dget d' k = match dget d k with
                     | Some VNone => if bool_decide (k ∈ names) then Some (VDict []) else Some VNone
                     | o => o
                     end.
Proof.
  revert d. induction names as [|name names IH]; intros d; cbn [_normalize_optional_dict_sections].
  { exists d. split; [done |]. intros k. by destruct (dget d k) as [[]|]. }
  cbn [has_key res_bind]. destruct (dmem d name) eqn:Em; cbn [negb].
  - destruct (is_none (dget_none d name)) eqn:En.
    + destruct (IH (dset d name (VDict []))) as (d' & -> & Hd'). exists d'. split; [done |]. intros k.
      rewrite Hd', dget_dset. destruct (str_eqb name k) eqn:Ek.
      * apply str_eqb_spec in Ek as ->. unfold dget_none, dget_or, dmem in *.
        destruct (dget d k) as [[]|]; try done. by rewrite bool_decide_eq_true_2 by by left.
      * destruct (dget d k) as [[]|]; try done. repeat case_bool_decide; try done; exfalso; set_unfold; 
          naive_solver (by rewrite str_eqb_refl in Ek).
    + destruct (IH d) as (d' & -> & Hd'). exists d'. split; [done |]. intros k. rewrite Hd'.
      destruct (dget d k) as [[]|] eqn:Ek; try done.
      assert (k ≠ name) by (intros ->; unfold dget_none, dget_or in En; by rewrite Ek in En).
      repeat case_bool_decide; try done; exfalso; set_unfold; naive_solver.
  - destruct (IH d) as (d' & -> & Hd'). exists d'. split; [done |]. intros k. rewrite Hd'.
    destruct (dget d k) as [[]|] eqn:Ek; try done.
    assert (k ≠ name) by (intros ->; unfold dmem in Em; by rewrite Ek in Em).
    repeat case_bool_decide; try done; exfalso; set_unfold; naive_solver.
Qed.

(** Sections that a fragment may be merged into: missing, null or a dictionary. *)
Definition mergeable (d : pydict) (name : pystr) : bool :=
  match dget_none d name with VNone | VDict _ => true | _ => false end.

Lemma override_spec name fragment d :
  ∃ d', override_section name fragment (VDict d) = Ok (VDict d') ∧
    ∀ k, dget d' k = match fragment with
                     | Some f => if str_eqb name k && mergeable d name
                                 then Some (VDict (dict_update (section_of d name) f)) else dget d k
                     | None => dget d k
                     end.
Proof.
  unfold override_section, _get_mapping_section, mergeable, section_of. destruct fragment as [f|]; [| by exists d].
  destruct (dget_none d name) eqn:En; eexists; (split; [reflexivity |]); intros key;
    rewrite ?andb_false_r, ?andb_true_r, ?dget_dset; by destruct (str_eqb name key).
Qed.

(** A section after the merge. *)
Definition merged (fragment : option pydict) (d : pydict) (name : pystr) : option pyval :=
  match fragment with
  | Some f => if mergeable d name then Some (VDict (dict_update (section_of d name) f)) else dget d name
  | None => dget d name
  end.

Lemma override_sections_spec sections d :
  NoDup (sections.*1) →
  ∃ d', override_sections sections (VDict d) = Ok (VDict d') ∧
    ∀ k, dget d' k = merged (fragment_of sections k) d k.
Proof.
  revert d. induction sections as [|[name f] sections IH]; intros d Hnd; [by exists d |].
  apply NoDup_cons in Hnd as [Hname Hnd]. cbn [override_sections].
  destruct (override_spec name f d) as (d1 & -> & H1). cbn [res_bind].
  destruct (IH d1 Hnd) as (d' & -> & Hd'). exists d'. split; [done |]. intros k. rewrite Hd'.
  unfold fragment_of. cbn [first_some fst snd]. destruct (str_eqb name k) eqn:Ek.
  - apply str_eqb_spec in Ek as ->.
    assert (first_some (λ nf : pystr * option pydict, if str_eqb nf.1 k then nf.2 else None) sections = None) as ->.
    { apply first_some_None. intros [n g] Hin. cbn [fst snd]. destruct (str_eqb n k) eqn:E; [| done].
      apply str_eqb_spec in E as ->. destruct Hname. by apply (list_elem_of_fmap_2 fst) in Hin. }
    unfold merged. rewrite H1, str_eqb_refl. destruct f; [by destruct (mergeable d k) | done].
  - assert (dget d1 k = dget d k) as Hk by (rewrite H1, Ek; by destruct f).
    unfold merged, mergeable, section_of, dget_none, dget_or. by rewrite Hk.
Qed.

Lemma overrides_on_mapping env d : ∃ d', apply_env_config_overrides env (VDict d) = Ok (VDict d').
Proof.
  unfold apply_env_config_overrides.
  assert (∃ d0, (if negb (truthy (VDict d)) then Ok (VDict [])
                 else _normalize_optional_dict_sections (VDict d) NORMALIZABLE_CONFIG_SECTIONS) = Ok (VDict d0))
    as [d0 ->].
  { destruct d as [|kv d]; [by exists [] |].
    destruct (normalize_spec NORMALIZABLE_CONFIG_SECTIONS (kv :: d)) as (d0 & H & _). by exists d0. }
  cbn [res_bind]. destruct (override_sections_spec (env_sections env) d0) as (d' & -> & _); [by_decide |].
  by exists d'.
Qed.

(** An entry that is there and is null. *)
Definition is_null (v : option pyval) : bool := match v with Some VNone => true | _ => false end.

(** *** What the variables say

    The setting of a key from the variables of a table, and of a key of a section: a log file turns
    the logging to a file on. *)
Definition variable_setting (env : environ) (mappings : list env_mapping) (key : pystr) : option pyval :=
  match first_some (λ m, if str_eqb (config_key m) key then Some m else None) mappings with
  | Some m => match env (env_var m) with Some text => env_setting (em_type m) text | None => None end
  | None => None
  end.
Definition setting (env : environ) (name key : pystr) : option pyval :=
  if str_eqb name (u "meshtastic") then variable_setting env MESHTASTIC_ENV_VAR_MAPPINGS key
  else if str_eqb name (u "logging") then
    if str_eqb key (u "log_to_file") then
      match env (u "MMRELAY_LOG_FILE") with Some (_ :: _) => Some (VBool true) | _ => None end
    else variable_setting env LOGGING_ENV_VAR_MAPPINGS key
  else if str_eqb name (u "database") then variable_setting env DATABASE_ENV_VAR_MAPPINGS key
  else if str_eqb name (u "matrix") then variable_setting env MATRIX_ENV_VAR_MAPPINGS key
  else None.

Lemma load_mappings_get env mappings config key : NoDup (config_key <$> mappings) →
  dget (load_mappings env mappings config) key =
    match variable_setting env mappings key with Some v => Some v | None => dget config key end.
Proof.
  unfold variable_setting. revert config. induction mappings as [|m ms IH]; intros config; [done |].
  rewrite fmap_cons, NoDup_cons. intros [Hm Hnd]. cbn [load_mappings first_some]. rewrite IH by done. clear IH.
  destruct (str_eqb (config_key m) key) eqn:Ek; [apply str_eqb_spec in Ek as <- |].
  - assert (first_some (λ m', if str_eqb (config_key m') (config_key m) then Some m' else None) ms = None) as ->.
    { apply first_some_None. intros m' Hin. destruct (str_eqb _ _) eqn:E; [| done]. apply str_eqb_spec in E.
      destruct Hm. rewrite <- E. by apply list_elem_of_fmap_2. }
    destruct (env (env_var m)) as [text|]; [| done]. destruct (env_setting _ text); [| done]. by rewrite dget_dset_eq.
  - assert (dget match env (env_var m) with
                 | Some env_value => match env_setting (em_type m) env_value with
                                     | Some value => dset config (config_key m) value | None => config end
                 | None => config end key = dget config key) as ->; [| done].
    destruct (env (env_var m)) as [text|]; [| done]. destruct (env_setting _ text); [| done]. by rewrite dget_dset, Ek.
Qed.

(** A fragment has the settings of its variables, and there is none when no variable gives one. *)
Definition fragment_says (fragment : option pydict) (says : pystr → option pyval) : Prop :=
  match fragment with
  | Some f => f ≠ [] ∧ ∀ key, dget f key = says key
  | None => ∀ key, says key = None
  end.
Lemma mapping_says env mappings : NoDup (config_key <$> mappings) →
  fragment_says (_load_config_from_env_mapping env mappings) (variable_setting env mappings).
Proof.
  intros Hnd. unfold _load_config_from_env_mapping, fragment_says. pose proof (λ k, load_mappings_get env mappings [] k Hnd) as H.
  destruct (load_mappings env mappings []) as [|kv c].
  - intros key. specialize (H key). by destruct (variable_setting env mappings key).
  - split; [done |]. intros key. rewrite H. by destruct (variable_setting env mappings key).
Qed.
Lemma logging_says env : fragment_says (load_logging_config_from_env env) (setting env (u "logging")).
Proof.
  unfold load_logging_config_from_env. pose proof (mapping_says env LOGGING_ENV_VAR_MAPPINGS) as H.
  assert (∀ key, setting env (u "logging") key = if str_eqb key (u "log_to_file") then
      match env (u "MMRELAY_LOG_FILE") with Some (_ :: _) => Some (VBool true) | _ => None end
    else variable_setting env LOGGING_ENV_VAR_MAPPINGS key) as Hs by done.
  assert (variable_setting env LOGGING_ENV_VAR_MAPPINGS (u "filename")
    = match env (u "MMRELAY_LOG_FILE") with Some text => Some (VStr text) | None => None end) as Hfile by done.
  assert (variable_setting env LOGGING_ENV_VAR_MAPPINGS (u "log_to_file") = None) as Hno by done.
  unfold fragment_says in *. destruct (_load_config_from_env_mapping _ _) as [c|].
  - destruct H as [Hne H]; [by_decide |]. unfold dget_none, dget_or. rewrite H, Hfile.
    destruct (env (u "MMRELAY_LOG_FILE")) as [[|x text]|] eqn:Ef; cbn [default from_option truthy nonempty id].
    2:{ split; [by destruct c as [|[k0 v0] c]; [| cbn; destruct (str_eqb _ _)] |]. intros key. rewrite Hs, dget_dset, H.
        destruct (str_eqb key (u "log_to_file")) eqn:Ek; [apply str_eqb_spec in Ek as ->; by rewrite str_eqb_refl |].
        destruct (str_eqb (u "log_to_file") key) eqn:Ek'; [| done].
        apply str_eqb_spec in Ek' as <-. by rewrite str_eqb_refl in Ek. }
    all: split; [done |]; intros key; rewrite Hs, H; destruct (str_eqb key (u "log_to_file")) eqn:Ek; [| done];
      by apply str_eqb_spec in Ek as ->.
  - intros key. specialize (H ltac:(by_decide)). rewrite Hs, H. pose proof (H (u "filename")) as Hn. rewrite Hfile in Hn.
    by destruct (env (u "MMRELAY_LOG_FILE")), (str_eqb key _).
Qed.
Lemma env_fragment_says env name : fragment_says (env_fragment env name) (setting env name).
Proof.
  unfold env_fragment, fragment_of, env_sections. cbn [first_some fst snd].
  assert (∀ s, str_eqb s name = str_eqb name s) as Hsym.
  { intros s. destruct (str_eqb s name) eqn:E; [apply str_eqb_spec in E as ->; by rewrite str_eqb_refl |].
    destruct (str_eqb name s) eqn:E'; [| done]. apply str_eqb_spec in E' as ->. by rewrite str_eqb_refl in E. }
  rewrite !Hsym. destruct (str_eqb name (u "meshtastic")) eqn:E1.
  { apply str_eqb_spec in E1 as ->. pose proof (mapping_says env MESHTASTIC_ENV_VAR_MAPPINGS ltac:(by_decide)) as H.
    fold (load_meshtastic_config_from_env env) in H. by destruct (load_meshtastic_config_from_env env). }
  destruct (str_eqb name (u "logging")) eqn:E2.
  { apply str_eqb_spec in E2 as ->. pose proof (logging_says env) as H. by destruct (load_logging_config_from_env env). }
  destruct (str_eqb name (u "database")) eqn:E3.
  { apply str_eqb_spec in E3 as ->. pose proof (mapping_says env DATABASE_ENV_VAR_MAPPINGS ltac:(by_decide)) as H.
    fold (load_database_config_from_env env) in H. by destruct (load_database_config_from_env env). }
  destruct (str_eqb name (u "matrix")) eqn:E4.
  { apply str_eqb_spec in E4 as ->. pose proof (mapping_says env MATRIX_ENV_VAR_MAPPINGS ltac:(by_decide)) as H.
    fold (load_matrix_config_from_env env) in H. by destruct (load_matrix_config_from_env env). }
  intros key. unfold setting. by rewrite E1, E2, E3, E4.
Qed.

(** C29: Merging the environment into a configuration never fails on a mapping.  In the result, a section that
    was a mapping, null or missing has for each key the setting of its variable, where there is a valid one, and
    otherwise the entry it had; a section that is something else is as it was; and a
    section for which no variable gives a setting is as it was, but that a null section of the
    known names is an empty mapping afterwards. *)
Theorem overrides_merge_exactly env d :
  ∃ d', apply_env_config_overrides env (VDict d) = Ok (VDict d') ∧ ∀ name,
    (mergeable d name = true → ∀ key, dget (section_of d' name) key =
       match setting env name key with Some v => Some v | None => dget (section_of d name) key end)
    ∧ (mergeable d name = false → dget d' name = dget d name)
    ∧ ((∀ key, setting env name key = None) → dget d' name =
         if is_null (dget d name) && bool_decide (name ∈ NORMALIZABLE_CONFIG_SECTIONS) then Some (VDict [])
         else dget d name).
Proof.
  assert (∃ d0, (if negb (truthy (VDict d)) then Ok (VDict [])
                 else _normalize_optional_dict_sections (VDict d) NORMALIZABLE_CONFIG_SECTIONS) = Ok (VDict d0)
    ∧ ∀ k, dget d0 k = if is_null (dget d k) && bool_decide (k ∈ NORMALIZABLE_CONFIG_SECTIONS) then Some (VDict [])
                       else dget d k) as (d0 & H0 & Hd0).
  { destruct d as [|kv d]; [by exists [] |].
    destruct (normalize_spec NORMALIZABLE_CONFIG_SECTIONS (kv :: d)) as (d0 & H & Hd0).
    exists d0. split; [done |]. intros k. rewrite Hd0. unfold is_null.
    destruct (dget (kv :: d) k) as [[]|]; by try case_bool_decide. }
  assert (∀ name, section_of d0 name = section_of d name ∧ mergeable d0 name = mergeable d name) as Hsame.
  { intros name. unfold section_of, mergeable, dget_none, dget_or. rewrite Hd0. unfold is_null.
    destruct (dget d name) as [[]|]; by try case_bool_decide. }
  unfold apply_env_config_overrides. rewrite H0. cbn [res_bind].
  destruct (override_sections_spec (env_sections env) d0) as (d' & -> & Hd'); [by_decide |].
  exists d'. split; [done |]. intros name. destruct (Hsame name) as [Hs Hm].
  specialize (Hd' name). fold (env_fragment env name) in Hd'. pose proof (env_fragment_says env name) as Hsay.
  unfold merged in Hd'. rewrite Hs, Hm in Hd'. split_and!.
  - intros Hmerge key. rewrite Hmerge in Hd'. unfold fragment_says in Hsay.
    destruct (env_fragment env name) as [f|] eqn:Ef.
    + unfold section_of at 1, dget_none, dget_or. rewrite Hd'. cbn [default from_option id as_dict].
      rewrite dget_update by (by eapply fragment_NoDup). by rewrite (proj2 Hsay).
    + rewrite Hsay, <- Hs. unfold section_of, dget_none, dget_or. by rewrite Hd'.
  - intros Hmerge. rewrite Hmerge, Hd0 in Hd'. assert (is_null (dget d name) = false) as Hn.
    { unfold mergeable, dget_none, dget_or in Hmerge. by destruct (dget d name) as [[]|]. }
    rewrite Hn in Hd'. by destruct (env_fragment env name).
  - intros Hnone. rewrite <- Hd0. unfold fragment_says in Hsay. destruct (env_fragment env name) as [f|]; [| done].
    destruct Hsay as [Hne Hsay]. destruct f as [|[k v] f]; [done |]. specialize (Hsay k). cbn [dget] in Hsay.
    by rewrite str_eqb_refl, Hnone in Hsay.
Qed.


(** C38: Every setting taken from the environment has the type and the bounds that its variable asks
    for: a port between 1 and 65535, a delay of at least two seconds, a finite interval that is not
    negative, one of the connection types or levels, a boolean or a text. *)
Theorem env_settings_conform env mappings fragment m v :
  mappings ∈ [MESHTASTIC_ENV_VAR_MAPPINGS; LOGGING_ENV_VAR_MAPPINGS; DATABASE_ENV_VAR_MAPPINGS;
              MATRIX_ENV_VAR_MAPPINGS] →
  _load_config_from_env_mapping env mappings = Some fragment → m ∈ mappings →
  dget fragment (config_key m) = Some v → conforms (em_type m) v.
Proof.
  intros Hms (_ & _ & Hf)%fragment_spec Hm Hv.
  destruct (Hf _ _ Hv) as (m' & text & Hm' & Hkey & _ & Hset). apply env_setting_conforms in Hset.
  assert (NoDup (config_key <$> mappings)) as Hnd.
  { rewrite !elem_of_cons in Hms. destruct Hms as [-> | [-> | [-> | [-> | []%elem_of_nil]]]]; by_decide. }
  apply list_elem_of_lookup in Hm as [i Hi], Hm' as [j Hj].
  assert (i = j) as <-.
  { eapply NoDup_lookup; [exact Hnd | |]; rewrite list_lookup_fmap; [by rewrite Hi | rewrite Hj; by rewrite <- Hkey]. }
  by simplify_eq.
Qed.

Definition docker_env : environ := λ name,
  if str_eqb name (u "MMRELAY_MESHTASTIC_PORT") then Some (u " 4403 ")
  else if str_eqb name (u "MMRELAY_MESHTASTIC_CONNECTION_TYPE") then Some (u "TCP")
  else if str_eqb name (u "MMRELAY_MESHTASTIC_BROADCAST_ENABLED") then Some (u "maybe")
  else if str_eqb name (u "MMRELAY_MESHTASTIC_NODEDB_REFRESH_INTERVAL") then Some (u "nan")
  else if str_eqb name (u "MMRELAY_LOG_FILE") then Some (u "/data/relay.log")
  else None.

Example docker_meshtastic :
  load_meshtastic_config_from_env docker_env
  = Some [(u "connection_type", VStr (u "tcp")); (u "port", VInt 4403)].
Proof. by vm_compute. Qed.

Example docker_logging :
  load_logging_config_from_env docker_env
  = Some [(u "filename", VStr (u "/data/relay.log")); (u "log_to_file", VBool true)].
Proof. by vm_compute. Qed.

Lemma env_settings_conform_witness :
  conforms (TInt (Some 1) (Some 65535)) (VInt 4403).
Proof.
  apply (env_settings_conform docker_env MESHTASTIC_ENV_VAR_MAPPINGS
           [(u "connection_type", VStr (u "tcp")); (u "port", VInt 4403)]
           {| env_var := u "MMRELAY_MESHTASTIC_PORT"; config_key := u "port"; em_type := TInt (Some 1) (Some 65535) |}).
  - by left.
  - by vm_compute.
  - by right; right; left.
  - by vm_compute.
Defined.

(** ** What modelling showed *)

(** A configuration file whose top level is a number is accepted by the YAML parser and makes the merge
    raise TypeError; one whose top level is a text does so when the text holds the name of a section. *)
Lemma scalar_configuration_raises env :
  apply_env_config_overrides env (VInt 5) = Raise TypeError
  ∧ apply_env_config_overrides env (VStr (u "matrix")) = Raise TypeError.
Proof. split; by vm_compute. Qed.

(** A line that uses = instead of : is an error, unless it quotes the words that mark warnings. *)
Lemma quoted_warning_hides_error :
  (validate_yaml_syntax (u "topic = one") (Some (VStr (u "topic = one")))).1.1 = false
  ∧ (validate_yaml_syntax (u "topic = Style warning") (Some (VStr (u "topic = Style warning")))).1.1 = true.
Proof. split; by vm_compute. Qed.
