(* ===== verification/ConfigFiles.v ===== *)
(** * Configuration and credentials files

    Models the part of [config.py] that finds, reads and writes files: the configuration and its
    silent reader, the credentials with their candidates and the place they are saved to, and the
    folders that are made on the way.

    The disk maps resolved names to what is there; [located] resolves a path, symbolic links
    included.  Reading a document gives its value, so the texts of YAML and JSON are left out; the
    calls of [os.path] are those of POSIX. *)

From Stdlib Require Import String QArith.
From stdpp Require Import base tactics list numbers sets.
From S2P Require Import Prelude PyStr PyValue PyLib PurePath Paths ConfigEnv.
Open Scope Z_scope.

(** ** The disk *)

(** [Malformed]: no JSON or YAML; [Undecodable]: reading it raises ValueError, for bytes that are no
    UTF-8 or a date that does not exist; [Unreadable]: opening it raises OSError. *)
Inductive node := Absent | Folder | Document (v : pyval) | Malformed | Undecodable | Unreadable.
Abbreviation disk := (pystr → node).

Definition node_exists (n : node) : bool := match n with Absent => false | _ => true end.
Definition node_isdir (n : node) : bool := match n with Folder => true | _ => false end.
Definition node_isfile (n : node) : bool := match n with Absent | Folder => false | _ => true end.

(** What [json.load] gives for the text that [json.dump] writes; None: [dump] raises TypeError. *)
Fixpoint json_value (v : pyval) : option pyval :=
  match v with
  | VNone | VBool _ | VInt _ | VFloat _ | VStr _ => Some v
  | VSeq KList l | VSeq KTuple l =>
      (fix items (l : list pyval) (acc : list pyval) :=
         match l with
         | [] => Some (VSeq KList (reverse acc))
         | x :: l => match json_value x with Some y => items l (y :: acc) | None => None end
         end) l []
  | VDict d =>
      (fix entries (d : list (pystr * pyval)) (acc : list (pystr * pyval)) :=
         match d with
         | [] => Some (VDict (reverse acc))
         | (k, x) :: d => match json_value x with Some y => entries d ((k, y) :: acc) | None => None end
         end) d []
  | VSeq _ _ | VBytes _ | VObj _ => None
  end.

(** What goes wrong: folders that cannot be made, files that cannot be opened for writing, and a
    write that breaks. *)
Record trouble := { no_mkdir : pystr → bool; no_open : pystr → bool; broken_write : bool }.

Section files.
Context (h : host) (located : pystr → pystr).
Implicit Types (dk : disk).

Definition at_path dk (p : pystr) : node := dk (located p).
Definition put dk (p : pystr) (n : node) : disk := λ q, if str_eqb q (located p) then n else dk q.

(** The folders that lead to a path, from the root on, with the path itself. *)
Fixpoint ancestors_from (prefix : pystr) (l : list pystr) : list pystr :=
  match l with
  | [] => []
  | c :: l => (prefix ++ SLASH :: c) :: ancestors_from (prefix ++ SLASH :: c) l
  end.
Fixpoint make_each (t : trouble) dk (l : list pystr) : disk * res unit :=
  match l with
  | [] => (dk, Ok tt)
  | d :: l =>
      match dk d with
      | Folder => make_each t dk l
      | Absent => if no_mkdir t d then (dk, Raise OSError)
                  else make_each t (λ q, if str_eqb q d then Folder else dk q) l
      | _ => (dk, Raise OSError)
      end
  end.
(** [os.makedirs(path, exist_ok=True)] *)
Definition makedirs (t : trouble) dk (p : pystr) : disk * res unit :=
  make_each t dk (ancestors_from [] (path_comps (located p))).

Definition _expand_path (path : pystr) : pystr := abspath (h_cwd h []) (h_expanduser h path).
Definition abs (path : pystr) : pystr := abspath (h_cwd h []) path.

(** ** Paths named by the configuration *)

(** InvalidCredentialsPathTypeError is a TypeError. *)
Definition get_explicit_credentials_path (config : pyval) : res (option pystr) :=
  match getenv h "MMRELAY_CREDENTIALS_PATH" with
  | Some env_path => Ok (Some env_path)
  | None =>
      match config with
      | VDict d =>
          let explicit_path := dget_none d (u "credentials_path") in
          if truthy explicit_path then
            match explicit_path with VStr s => Ok (Some s) | _ => Raise TypeError end
          else
            match dget_none d (u "matrix") with
            | VDict matrix_section =>
                match dget_none matrix_section (u "credentials_path") with
                | VNone => Ok None
                | VStr s => Ok (if nonempty s then Some s else None)
                | _ => Raise TypeError
                end
            | _ => Ok None
            end
      | _ => Ok None
      end
  end.

(** The warnings, emitted once per process: [shown] is the flag. *)
Definition legacy_overrides (config : pyval) : list pystr :=
  let present (d : pydict) (key text : pystr) := if truthy (dget_none d key) then [text] else [] in
  match getenv h "MMRELAY_CREDENTIALS_PATH" with
  | Some _ => [u "MMRELAY_CREDENTIALS_PATH environment variable is set"]
  | None => []
  end
  ++ match config with
     | VDict d =>
         present d (u "credentials_path") (u "top-level 'credentials_path' config key is present")
         ++ match dget_none d (u "matrix") with
            | VDict m =>
                present m (u "credentials_path") (u "'matrix.credentials_path' config key is present")
                ++ match dget_none m (u "e2ee") with
                   | VDict s => present s (u "store_path") (u "'matrix.e2ee.store_path' config key is present")
                   | _ => []
                   end
                ++ match dget_none m (u "encryption") with
                   | VDict s => present s (u "store_path") (u "'matrix.encryption.store_path' config key is present")
                   | _ => []
                   end
            | _ => []
            end
     | _ => []
     end.
Definition _warn_on_legacy_path_overrides (config : pyval) (shown : bool) : bool * option (list pystr) :=
  if shown then (true, None)
  else match legacy_overrides config with
       | [] => (false, None)
       | warnings_to_emit => (true, Some warnings_to_emit)
       end.

(** ** Candidates for the credentials *)

Definition add_path (path : pystr) (candidate_paths : list pystr) : list pystr :=
  if negb (nonempty path) || bool_decide (path ∈ candidate_paths) then candidate_paths
  else candidate_paths ++ [path].

Definition add_config_dir (candidate_paths : list pystr) (config_path : pystr) : list pystr :=
  if nonempty config_path then
    let config_dir := dirname (abs config_path) in
    add_path (path_join (path_join config_dir MATRIX_DIRNAME) CREDENTIALS_FILENAME)
      (add_path (path_join config_dir CREDENTIALS_FILENAME) candidate_paths)
  else candidate_paths.
Definition add_legacy_dir (candidate_paths : list pystr) (legacy_dir : ppath) : list pystr :=
  add_path (path_join (path_join (str h legacy_dir) MATRIX_DIRNAME) CREDENTIALS_FILENAME)
    (add_path (path_join (str h legacy_dir) CREDENTIALS_FILENAME) candidate_paths).

Definition explicit_candidate dk (explicit_path : option pystr) : list pystr :=
  match explicit_path with
  | Some ((_ :: _) as raw_path) =>
      let expanded_path := _expand_path raw_path in
      if node_isdir (at_path dk expanded_path)
      then add_path (path_join (normpath expanded_path) CREDENTIALS_FILENAME) []
      else add_path (normpath expanded_path) []
  | _ => []
  end.

Definition get_credentials_search_paths dk (explicit_path : option pystr) (config_paths : list pystr)
    (include_base_data : bool) : res (list pystr) :=
  let candidate_paths := explicit_candidate dk explicit_path in
  let! candidate_paths := if include_base_data
                          then let! p := get_credentials_path h in Ok (add_path (str h p) candidate_paths)
                          else Ok candidate_paths in
  let candidate_paths := foldl add_config_dir candidate_paths config_paths in
  let! home := get_home_dir h in
  let candidate_paths := add_path (path_join (str h home) CREDENTIALS_FILENAME) candidate_paths in
  if is_deprecation_window_active h
  then let! legacy_dirs := get_legacy_dirs h in Ok (foldl add_legacy_dir candidate_paths legacy_dirs)
  else Ok candidate_paths.

(** ** Reading the credentials *)

Definition REQUIRED_CREDENTIALS_KEYS : list pystr := [u "homeserver"; u "access_token"].
(** [isinstance(v, str) and v.strip()] *)
Definition filled (v : pyval) : bool := match v with VStr s => nonempty (strip s) | _ => false end.
Definition missing_required (credentials : pydict) : list pystr :=
  filter (λ key, filled (dget_none credentials key) = false) REQUIRED_CREDENTIALS_KEYS.
Definition with_device_id (credentials : pydict) : pydict :=
  if filled (dget_none credentials (u "device_id")) then credentials
  else dset credentials (u "device_id") VNone.

(** The credentials a file holds; JSONDecodeError is caught, UnicodeDecodeError is not. *)
Definition credentials_of (n : node) : res (option pydict) :=
  match n with
  | Document (VDict loaded) =>
      Ok match missing_required loaded with [] => Some (with_device_id loaded) | _ :: _ => None end
  | Undecodable => Raise ValueError
  | _ => Ok None
  end.

Fixpoint first_credentials dk (candidate_paths : list pystr) : res (option (pystr * pydict)) :=
  match candidate_paths with
  | [] => Ok None
  | credentials_path :: candidate_paths =>
      let! found := credentials_of (at_path dk credentials_path) in
      match found with
      | Some credentials => Ok (Some (credentials_path, credentials))
      | None => first_credentials dk candidate_paths
      end
  end.

(** Whether the place of the credentials is an old one. *)
Definition legacy_location (legacy_dirs : list pystr) (primary_credentials_path legacy_home_credentials : pystr)
    (credentials_path : pystr) : bool :=
  let creds_dir := abs (dirname credentials_path) in
  let is_primary := str_eqb (abs credentials_path) primary_credentials_path in
  let is_legacy := negb is_primary
                   && (bool_decide (creds_dir ∈ legacy_dirs)
                       || existsb (λ legacy_dir, str_eqb creds_dir (abs (path_join legacy_dir MATRIX_DIRNAME)))
                            legacy_dirs) in
  is_legacy || (str_eqb (abs credentials_path) legacy_home_credentials && negb is_primary).

(** The globals of the module, with the flag of the warnings. *)
Record globals := { relay_config : pyval; config_path : option pystr; override_warned : bool }.

Definition credentials_candidates dk (g : globals) (config_override : option pydict)
    (config_path_override : option pystr) : res (list pystr) :=
  let config_for_paths := match config_override with Some d => VDict d | None => relay_config g end in
  let effective_config_path := match config_path_override with Some p => Some p | None => config_path g end in
  let! explicit_path := get_explicit_credentials_path config_for_paths in
  get_credentials_search_paths dk explicit_path
    match effective_config_path with Some ((_ :: _) as p) => [p] | _ => [] end true.

(** The credentials with their file, and whether the warning about an old place is logged. *)
Definition load_credentials dk (g : globals) (config_override : option pydict)
    (config_path_override : option pystr) : res (option (pystr * pydict * bool)) :=
  match credentials_candidates dk g config_override config_path_override with
  | Raise OSError | Raise TypeError => Ok None
  | Raise e => Raise e
  | Ok candidate_paths =>
      let! legacy_dirs := if is_deprecation_window_active h then get_legacy_dirs h else Ok [] in
      let legacy_dirs := map (λ p, abs (str h p)) legacy_dirs in
      let! primary := get_credentials_path h in
      let! home := get_home_dir h in
      let! found := first_credentials dk candidate_paths in
      Ok match found with
         | Some (path, credentials) =>
             Some (path, credentials,
                   legacy_location legacy_dirs (abs (str h primary))
                     (abs (path_join (str h home) CREDENTIALS_FILENAME)) path)
         | None => None
         end
  end.

(** ** Saving the credentials *)

Definition save_target dk (g : globals) (credentials_path : option pystr) : res pystr :=
  let! target :=
    match credentials_path with
    | Some ((_ :: _) as p) => Ok (p, normpath (_expand_path p))
    | _ =>
        let! explicit_path := get_explicit_credentials_path (relay_config g) in
        match explicit_path with
        | Some ((_ :: _) as p) => Ok (p, normpath (_expand_path p))
        | _ => let! p := get_credentials_path h in Ok (str h p, normpath (str h p))
        end
    end in
  let '(raw_target_path, target_path) := target in
  Ok (if node_isdir (at_path dk target_path) || endswith raw_target_path [SLASH]
      then path_join (normpath target_path) CREDENTIALS_FILENAME else target_path).

(** [open(target_path, "w")] and [json.dump]: the file is emptied before anything is written, and the
    text is written in pieces. *)
Definition write_json (t : trouble) dk (target_path : pystr) (value : pydict) : disk * res unit :=
  if node_isdir (at_path dk target_path) || no_open t target_path then (dk, Raise OSError)
  else if broken_write t then (put dk target_path Malformed, Raise OSError)
  else match json_value (VDict value) with
       | Some v => (put dk target_path (Document v), Ok tt)
       | None => (put dk target_path Malformed, Raise TypeError)
       end.

Definition save_credentials (t : trouble) dk (g : globals) (credentials : pydict)
    (credentials_path : option pystr) : disk * res unit :=
  match save_target dk g credentials_path with
  | Raise e => (dk, Raise e)
  | Ok target_path =>
      let target_dir := if nonempty (dirname target_path) then dirname target_path else u "." in
      let '(dk, made) := makedirs t dk target_dir in
      match made with
      | Raise e => (dk, Raise e)
      | Ok _ => write_json t dk target_path credentials
      end
  end.

(** [set_secure_file_permissions] after a save changes the mode on Linux and macOS and raises
    nothing. *)

(** ** The configuration *)

(** [open] and [yaml.load]; YAMLError and OSError are always caught together. *)
Definition read_yaml (n : node) : res pyval :=
  match n with
  | Document v => Ok v
  | Undecodable => Raise ValueError
  | _ => Raise OSError
  end.

(** [args.config] when there are arguments that name a file. *)
Abbreviation given_config := (option pystr).
Definition named (explicit : given_config) : option pystr :=
  match explicit with Some ((_ :: _) as p) => Some p | _ => None end.

Definition get_config_paths (explicit : given_config) : res (list pystr) :=
  let! paths := Paths.get_config_paths h (named explicit) in Ok (map (λ p, str h (absolute h p)) paths).

Definition with_relay_config (g : globals) (v : pyval) : globals :=
  {| relay_config := v; config_path := config_path g; override_warned := override_warned g |}.
Definition with_config_path (g : globals) (p : pystr) : globals :=
  {| relay_config := relay_config g; config_path := Some p; override_warned := override_warned g |}.

(** What follows the reading of a document. *)
Definition accept_config (g : globals) (v : pyval) : globals * res pyval :=
  let v := if is_none v then VDict [] else v in
  let g := with_relay_config g v in
  match apply_env_config_overrides (h_env h) v with
  | Raise e => (g, Raise e)
  | Ok v => let g := with_relay_config g v in
            ({| relay_config := v; config_path := config_path g;
                override_warned := (_warn_on_legacy_path_overrides v (override_warned g)).1 |}, Ok v)
  end.

(** The candidates in order: files that cannot be read are passed over; the last file tried stays in
    [config_path]. *)
Fixpoint load_first dk (g : globals) (config_paths : list pystr) : globals * option (res pyval) :=
  match config_paths with
  | [] => (g, None)
  | path :: config_paths =>
      if node_isfile (at_path dk path) then
        let g := with_config_path g path in
        match read_yaml (at_path dk path) with
        | Raise OSError => load_first dk g config_paths
        | Raise e => (g, Some (Raise e))
        | Ok v => let '(g, r) := accept_config g v in (g, Some r)
        end
      else load_first dk g config_paths
  end.

(** Nothing but the environment. *)
Definition environment_only (g : globals) : globals * res pyval :=
  match apply_env_config_overrides (h_env h) (VDict []) with
  | Raise e => (g, Raise e)
  | Ok v => (with_relay_config g v, Ok (if truthy v then v else VDict []))
  end.

Definition search_config dk (g : globals) (explicit : given_config) (config_paths : option (list pystr))
    : globals * res pyval :=
  match config_paths, get_config_paths explicit with
  | None, Raise e => (g, Raise e)
  | Some config_paths, _ | None, Ok config_paths =>
      match load_first dk g config_paths with
      | (g, Some r) => (g, r)
      | (g, None) => environment_only g
      end
  end.

Definition load_config dk (g : globals) (config_file : option pystr) (explicit : given_config)
    (config_paths : option (list pystr)) : globals * res pyval :=
  let rest :=
    match named explicit with
    | Some explicit_path =>
        if node_isfile (at_path dk explicit_path) then search_config dk g explicit config_paths
        else (g, Ok (VDict []))
    | None => search_config dk g explicit config_paths
    end in
  match named config_file with
  | Some config_file =>
      if node_isfile (at_path dk config_file) then
        match read_yaml (at_path dk config_file) with
        | Raise OSError => (g, Ok (VDict []))
        | Raise e => (g, Raise e)
        | Ok v => accept_config (with_config_path g config_file) v
        end
      else rest
  | None => rest
  end.

(** ** The silent reader *)

Definition config_path_errors (e : pyexc) : bool :=
  match e with AttributeError | OSError | TypeError | ValueError => true | _ => false end.

(** The documents of the candidates that can be read. *)
Definition readable_config dk (path : pystr) : option pydict :=
  if node_isfile (at_path dk path) then
    match read_yaml (at_path dk path) with
    | Ok v => Some (match v with VDict d => d | _ => [] end)
    | Raise _ => None
    end
  else None.
Definition _iter_readable_config_mappings dk (explicit : given_config) : res (list pydict) :=
  let! config_paths := catching config_path_errors [] (get_config_paths explicit) in
  Ok (omap (readable_config dk) config_paths).

Definition load_config_silently dk (explicit : given_config) : res pydict :=
  let first := let! mappings := _iter_readable_config_mappings dk explicit in
               Ok (match mappings with mapping :: _ => mapping | [] => [] end) in
  match named explicit with
  | Some explicit_path => if node_isfile (at_path dk explicit_path) then first else Ok []
  | None => first
  end.

(** An empty mapping does not enable anything. *)
Definition check_e2ee_enabled_silently dk (explicit : given_config) : res bool :=
  if h_windows h then Ok false
  else let! mappings := _iter_readable_config_mappings dk explicit in
       Ok (existsb (is_e2ee_enabled (h_windows h)) mappings).

(** ** Folders *)

Definition get_base_dir : res pystr := let! p := get_home_dir h in Ok (str h p).
Definition get_data_dir (t : trouble) dk (create : bool) : disk * res pystr :=
  match get_home_dir h with
  | Raise e => (dk, Raise e)
  | Ok home => if create then let '(dk, made) := makedirs t dk (str h home) in
                              (dk, let! _ := made in Ok (str h home))
               else (dk, Ok (str h home))
  end.
Definition get_log_dir (t : trouble) dk : disk * res pystr :=
  match get_logs_dir h with
  | Raise e => (dk, Raise e)
  | Ok d => let '(dk, made) := makedirs t dk (str h d) in (dk, let! _ := made in Ok (str h d))
  end.

(** The kind of a plugin, from the sections it is configured in. *)
Definition infer_plugin_type (config : pyval) (plugin_name : pystr) (plugin_type : option pystr) : option pystr :=
  match plugin_type, config with
  | None, VDict d =>
      let configured section := match dget_none d section with
                                | VDict plugins => dmem plugins plugin_name
                                | _ => false
                                end in
      if configured (u "community-plugins") then Some (u "community")
      else if configured (u "custom-plugins") then Some (u "custom") else Some (u "core")
  | _, _ => plugin_type
  end.

Definition get_plugin_data_dir (t : trouble) dk (g : globals) (plugin_name subdir plugin_type : option pystr)
    : disk * res pystr :=
  match get_plugins_dir h with
  | Raise e => (dk, Raise e)
  | Ok d =>
      let '(dk, made) := makedirs t dk (str h d) in
      match made, named plugin_name with
      | Raise e, _ => (dk, Raise e)
      | Ok _, None => (dk, Ok (str h d))
      | Ok _, Some plugin_name =>
          match Paths.get_plugin_data_dir h plugin_name subdir
                  (infer_plugin_type (relay_config g) plugin_name plugin_type) with
          | Raise e => (dk, Raise e)
          | Ok p => let '(dk, made) := makedirs t dk (str h p) in (dk, let! _ := made in Ok (str h p))
          end
      end
  end.

(** On Windows the unified resolver refuses, and the fallback is returned; the fallback is also the
    answer when the folder cannot be made. *)
Definition _get_fallback_store_dir : res pystr :=
  let! home := get_home_dir h in
  Ok (if h_windows h then str h (div h home [MATRIX_DIRNAME; STORE_DIRNAME])
      else path_join (path_join (str h home) MATRIX_DIRNAME) STORE_DIRNAME).
Definition get_e2ee_store_dir (t : trouble) dk : disk * res pystr :=
  if h_windows h then (dk, _get_fallback_store_dir)
  else match Paths.get_e2ee_store_dir h with
       | Raise OSError => (dk, _get_fallback_store_dir)
       | Raise e => (dk, Raise e)
       | Ok p => let '(dk, made) := makedirs t dk (str h p) in
                 (dk, match made with Ok _ => Ok (str h p) | Raise _ => _get_fallback_store_dir end)
       end.

(** ** Access to settings *)

(** The attributes of a module after the configuration was assigned; [setup_config] is called after
    that when the module has it. *)
Definition propagate_rooms (attributes passed_config : pydict) : pydict :=
  match dget passed_config (u "matrix_rooms") with
  | Some rooms => if dmem attributes (u "matrix_rooms") then dset attributes (u "matrix_rooms") rooms else attributes
  | None => attributes
  end.
Definition propagate_matrix (attributes passed_config : pydict) : pydict :=
  match dget_none passed_config (u "matrix") with
  | VDict m =>
      match dget m (u "homeserver"), dget m (u "access_token"), dget m (u "bot_user_id") with
      | Some homeserver, Some access_token, Some bot_user_id =>
          if dmem attributes (u "matrix_homeserver")
          then dset (dset (dset attributes (u "matrix_homeserver") homeserver)
                       (u "matrix_access_token") access_token) (u "bot_user_id") bot_user_id
          else attributes
      | _, _, _ => attributes
      end
  | _ => attributes
  end.
Definition set_config (module_name : pystr) (attributes passed_config : pydict) : pydict :=
  let attributes := dset attributes (u "config") (VDict passed_config) in
  if str_eqb module_name (u "matrix_utils")
  then propagate_matrix (propagate_rooms attributes passed_config) passed_config
  else if str_eqb module_name (u "meshtastic_utils") then propagate_rooms attributes passed_config
  else attributes.
End files.

(** ** Facts about paths *)

Section path_facts.

(** A component that [normpath] keeps. *)
Definition plain_comp (c : pystr) : Prop := good_comp c ∧ c ≠ u "..".

Lemma norm_comps_plain acc l :
  Forall plain_comp acc → Forall (λ c, SLASH ∉ c) l → Forall plain_comp (norm_comps false acc l).
Proof.
  intros Hacc Hl. revert acc Hacc. induction Hl as [|c l Hc Hl IH]; intros acc Hacc; cbn [norm_comps].
  - by apply Forall_reverse.
  - destruct (negb (nonempty c) || str_eqb c (u ".")) eqn:E; [by apply IH |].
    destruct (str_eqb c (u "..")) eqn:E2.
    + destruct acc as [|a acc]; [by apply IH |]. apply Forall_cons in Hacc as [[_ Ha] Hacc].
      destruct (str_eqb a (u "..")) eqn:E3; [by apply str_eqb_spec in E3 | by apply IH].
    + apply IH. constructor; [| done]. apply orb_false_iff in E as [E0 E1].
      apply negb_false_iff, nonempty_spec in E0.
      assert (∀ d, str_eqb c d = false → c ≠ d) as Hne by (intros d H ->; by rewrite str_eqb_refl in H).
      repeat split; auto.
Qed.

Definition comps_of (p : pystr) : list pystr := norm_comps false [] (split_all SLASH p).
Lemma comps_plain p : Forall plain_comp (comps_of p).
Proof. apply norm_comps_plain; [constructor | apply split_all_names]. Qed.








End path_facts.



(** ** Facts about the disk *)

(** Paths resolve to canonical names. *)
Class resolves (located : pystr → pystr) : Prop :=
  located_canonical p : ∃ l, canonical (located p) l.

(** A disk without symbolic links. *)
Definition no_links (p : pystr) : pystr := SLASH :: join [SLASH] (comps_of p).
#[export] Instance no_links_resolves : resolves no_links.
Proof.
  intros p. exists (comps_of p). split; [| done]. eapply Forall_impl; [apply comps_plain |]. by intros c [? _].
Qed.

Section disk_facts.
Context (located : pystr → pystr) `{!resolves located}.
Implicit Types (dk : disk).


Lemma make_each_spec t dk l dk' r : make_each t dk l = (dk', r) →
  (∀ q, dk q ≠ Absent → dk' q = dk q) ∧ (∀ q, dk' q = dk q ∨ dk' q = Folder)
  ∧ (r = Ok tt → ∀ d, d ∈ l → dk' d = Folder) ∧ (r = Ok tt ∨ r = Raise OSError).
Proof.
  revert dk. induction l as [|d l IH]; intros dk; cbn [make_each].
  { intros [= <- <-]. split_and!; auto. by intros _ d ?%elem_of_nil. }
  destruct (dk d) eqn:Ed; try by (intros [= <- <-]; split_and!; auto).
  - destruct (no_mkdir t d); [by (intros [= <- <-]; split_and!; auto) |].
    intros (H1 & H2 & H3 & H4)%IH. split_and!.
    + intros q Hq. rewrite H1; destruct (str_eqb q d) eqn:E; try done. apply str_eqb_spec in E as ->. congruence.
    + intros q. destruct (H2 q) as [->|?]; [| by right]. destruct (str_eqb q d); auto.
    + intros Hr x [-> | Hx]%elem_of_cons; [| by auto]. rewrite H1; by rewrite str_eqb_refl.
    + done.
  - intros (H1 & H2 & H3 & H4)%IH. split_and!; [done.. | | done].
    intros Hr x [-> | Hx]%elem_of_cons; [| by auto]. rewrite H1; congruence.
Qed.


End disk_facts.

(** ** Properties of the credentials *)

Section credentials.
Context (h : host) (located : pystr → pystr).
Implicit Types (dk : disk).

Lemma first_credentials_spec dk l r : first_credentials located dk l = Ok r →
  match r with
  | Some (path, c) => ∃ l1 l2 loaded, l = l1 ++ path :: l2
      ∧ Forall (λ q, credentials_of (at_path located dk q) = Ok None) l1
      ∧ at_path located dk path = Document (VDict loaded) ∧ missing_required loaded = [] ∧ c = with_device_id loaded
  | None => Forall (λ q, credentials_of (at_path located dk q) = Ok None) l
  end.
Proof.
  revert r. induction l as [|p l IH]; intros r; cbn [first_credentials]; [by intros [= <-] |].
  destruct (credentials_of (at_path located dk p)) as [[c|]|] eqn:E; cbn [res_bind]; [| | done].
  - intros [= <-]. unfold credentials_of in E. destruct (at_path located dk p) as [| |v| | |] eqn:En; try done.
    destruct v as [| | | | | | |d|]; try done. destruct (missing_required d) eqn:Em; [| done]. injection E as <-.
    exists [], l, d. by split_and!.
  - intros H%IH. destruct r as [[path c]|]; [| by constructor].
    destruct H as (l1 & l2 & loaded & -> & Hl1 & ?). exists (p :: l1), l2, loaded.
    split; [done |]. split; [by constructor | done].
Qed.

Lemma missing_required_nil c : missing_required c = [] →
  filled (dget_none c (u "homeserver")) = true ∧ filled (dget_none c (u "access_token")) = true.
Proof.
  unfold missing_required, REQUIRED_CREDENTIALS_KEYS. intros H. rewrite !filter_cons in H.
  destruct (decide _) as [|H1]; [done |]. destruct (decide _) as [|H2]; [done |].
  split; by apply not_false_is_true.
Qed.

Lemma filled_spec v : filled v = true → ∃ s, v = VStr s ∧ strip s ≠ [].
Proof. destruct v; try done. intros ?%nonempty_spec. by eexists. Qed.

(** The credentials that are loaded come from the first candidate that holds a homeserver and an
    access token: every candidate before it is missing, unreadable, no JSON object or without one of
    the two; only the device id of the file is changed, to null when it is no text or blank; and when
    nothing is loaded, no candidate qualifies. *)
Theorem first_valid_credentials_win dk g config_override config_path_override r :
  load_credentials h located dk g config_override config_path_override = Ok r →
  ∀ candidates, credentials_candidates h located dk g config_override config_path_override = Ok candidates →
  match r with
  | None => ∀ q, q ∈ candidates → credentials_of (at_path located dk q) = Ok None
  | Some (path, c, _) => ∃ l1 l2 loaded, candidates = l1 ++ path :: l2
      ∧ (∀ q, q ∈ l1 → credentials_of (at_path located dk q) = Ok None)
      ∧ at_path located dk path = Document (VDict loaded)
      ∧ (∀ key, key ∈ REQUIRED_CREDENTIALS_KEYS → ∃ s, dget c key = Some (VStr s) ∧ strip s ≠ [])
      ∧ (∀ key, key ≠ u "device_id" → dget c key = dget loaded key)
      ∧ (dget c (u "device_id") = Some VNone
         ∨ ∃ s, dget c (u "device_id") = Some (VStr s) ∧ strip s ≠ [] ∧ c = loaded)
  end.
Proof.
  unfold load_credentials. intros H candidates Hc. rewrite Hc in H.
  apply res_bind_inv in H as (ld & _ & H). apply res_bind_inv in H as (pr & _ & H).
  apply res_bind_inv in H as (hm & _ & H). apply res_bind_inv in H as (found & Hf & H). injection H as <-.
  apply first_credentials_spec in Hf. destruct found as [[path c]|]; [| by apply list.Forall_forall].
  destruct Hf as (l1 & l2 & loaded & -> & Hl1 & Hat & Hreq & ->).
  assert (∀ key, key ≠ u "device_id" → dget (with_device_id loaded) key = dget loaded key) as Hkeep.
  { intros key Hk. unfold with_device_id. destruct (filled _); [done |]. rewrite dget_dset_ne; [done | congruence]. }
  exists l1, l2, loaded. split_and!; [done | by apply list.Forall_forall | done | | done |].
  - apply missing_required_nil in Hreq as [[s1 [H1 N1]]%filled_spec [s2 [H2 N2]]%filled_spec].
    assert (∀ key s, dget_none loaded key = VStr s → dget loaded key = Some (VStr s)) as Hsome.
    { intros key s. unfold dget_none, dget_or. destruct (dget loaded key); simpl; [by intros -> | done]. }
    intros key [-> | [-> | []%elem_of_nil]%elem_of_cons]%elem_of_cons; rewrite Hkeep by by_decide; eauto.
  - unfold with_device_id. destruct (filled _) eqn:E; [| left; apply dget_dset_eq].
    right. apply filled_spec in E as (s & Hs & Hn). exists s. split; [| done].
    unfold dget_none, dget_or in Hs. destruct (dget loaded _); simpl in Hs; [by subst | done].
Qed.


(** Saving credentials changes nothing but the file they are saved to and folders that were not
    there: whatever goes wrong, no other file and no other folder is touched, and the file itself is
    then either as it was or holds no JSON. *)
Theorem save_is_confined t dk g credentials credentials_path dk' r :
  save_credentials h located t dk g credentials credentials_path = (dk', r) →
  dk' = dk ∨ ∃ target, save_target h located dk g credentials_path = Ok target ∧ ∀ q,
    (q ≠ located target → dk' q = dk q ∨ dk q = Absent ∧ dk' q = Folder)
    ∧ (dk' (located target) = dk (located target) ∨ dk (located target) = Absent ∧ dk' (located target) = Folder
       ∨ match r with
         | Ok _ => ∃ v, json_value (VDict credentials) = Some v ∧ dk' (located target) = Document v
         | Raise _ => dk' (located target) = Malformed
         end).
Proof.
  unfold save_credentials. destruct (save_target h located dk g credentials_path) as [target|e] eqn:Et;
    [| intros [= <- <-]; by left].
  set (d := if nonempty (dirname target) then dirname target else u ".").
  destruct (makedirs located t dk d) as [dk1 made] eqn:Em. unfold makedirs in Em.
  apply make_each_spec in Em as (H1 & H2 & _ & _).
  assert (∀ q, dk1 q = dk q ∨ dk q = Absent ∧ dk1 q = Folder) as Hq.
  { intros q. destruct (dk q) eqn:E; try (left; rewrite H1; congruence).
    destruct (H2 q) as [?|?]; [left; congruence | by right]. }
  intros H. right. exists target. split; [done |]. intros q. specialize (Hq q) as Hq1. specialize (Hq (located target)) as Hq2.
  destruct made as [u0|e]; [| injection H as <- <-; naive_solver].
  unfold write_json in H. destruct (_ || _); [injection H as <- <-; naive_solver |].
  assert (∀ n, put located dk1 target n (located target) = n) as Hp by (intros n; unfold put; by rewrite str_eqb_refl).
  assert (∀ n, q ≠ located target → put located dk1 target n q = dk1 q) as Hp2.
  { intros n Hne. unfold put. destruct (str_eqb q _) eqn:E; [by apply str_eqb_spec in E | done]. }
  destruct (broken_write t); [injection H as <- <-; rewrite Hp; split; [intros ?; by rewrite Hp2 | by auto] |].
  destruct (json_value (VDict credentials)) as [v|] eqn:Ej; injection H as <- <-; rewrite Hp;
    (split; [intros ?; by rewrite Hp2 | by eauto 10]).
Qed.
End credentials.

(** ** Saved credentials are found again *)

Section saved.
Context (h : host) (located : pystr → pystr) `{!resolves located}.
Implicit Types (dk : disk).








End saved.

(** ** The silent reader agrees with the loader *)

Section silent.
Context (h : host) (located : pystr → pystr).
Implicit Types (dk : disk).

(** The first document that can be read. *)
Lemma load_first_spec dk g l g' r : load_first h located dk g l = (g', r) →
  match r with
  | None => omap (readable_config located dk) l = []
  | Some (Ok v) => ∃ l1 path doc l2, l = l1 ++ path :: l2
      ∧ omap (readable_config located dk) l1 = []
      ∧ node_isfile (at_path located dk path) = true ∧ read_yaml (at_path located dk path) = Ok doc
      ∧ config_path g' = Some path
      ∧ apply_env_config_overrides (h_env h) (if is_none doc then VDict [] else doc) = Ok v
  | Some (Raise _) => True
  end.
Proof.
  revert g. induction l as [|p l IH]; intros g; cbn [load_first]; [by intros [= _ <-] |].
  assert (readable_config located dk p = None →
          load_first h located dk g l = (g', r) ∨ load_first h located dk (with_config_path g p) l = (g', r) →
          match r with
          | None => omap (readable_config located dk) (p :: l) = []
          | Some (Ok v) => ∃ l1 path doc l2, p :: l = l1 ++ path :: l2
              ∧ omap (readable_config located dk) l1 = []
              ∧ node_isfile (at_path located dk path) = true ∧ read_yaml (at_path located dk path) = Ok doc
              ∧ config_path g' = Some path
              ∧ apply_env_config_overrides (h_env h) (if is_none doc then VDict [] else doc) = Ok v
          | Some (Raise _) => True
          end) as Hskip.
  { intros Hp Hl. assert (match r with
      | None => omap (readable_config located dk) l = []
      | Some (Ok v) => ∃ l1 path doc l2, l = l1 ++ path :: l2
          ∧ omap (readable_config located dk) l1 = []
          ∧ node_isfile (at_path located dk path) = true ∧ read_yaml (at_path located dk path) = Ok doc
          ∧ config_path g' = Some path
          ∧ apply_env_config_overrides (h_env h) (if is_none doc then VDict [] else doc) = Ok v
      | Some (Raise _) => True end) as H by (by destruct Hl as [Hl|Hl]; apply IH in Hl).
    destruct r as [[v|]|]; [| done | by cbn [omap list_omap]; rewrite Hp].
    destruct H as (l1 & path & doc & l2 & -> & Hl1 & H). exists (p :: l1), path, doc, l2.
    split; [done |]. split; [by cbn [omap list_omap]; rewrite Hp | done]. }
  destruct (node_isfile (at_path located dk p)) eqn:Ef.
  - destruct (read_yaml (at_path located dk p)) as [v|e] eqn:Er.
    + unfold accept_config. destruct (apply_env_config_overrides _ _) as [v'|e] eqn:Ea; intros [= <- <-]; [| done].
      exists [], p, v, l. by split_and!.
    + destruct e; try (intros [= _ <-]; done). intros H. apply Hskip; [| by right].
      unfold readable_config. by rewrite Ef, Er.
  - intros H. apply Hskip; [| by left]. unfold readable_config. by rewrite Ef.
Qed.

(** C35: Whenever the loader answers, the silent reader answers from the same source: the mapping of the
    file that the loader took its configuration from, before the environment was merged in; and
    nothing when the loader fell back on the environment, or refused because the file named on the
    command line does not exist. *)
Theorem silent_mirrors_load dk g explicit g' v :
  load_config h located dk g None explicit None = (g', Ok v) →
  (∃ path doc, node_isfile (at_path located dk path) = true ∧ read_yaml (at_path located dk path) = Ok doc
     ∧ config_path g' = Some path
     ∧ apply_env_config_overrides (h_env h) (if is_none doc then VDict [] else doc) = Ok v
     ∧ load_config_silently h located dk explicit = Ok (as_dict doc))
  ∨ load_config_silently h located dk explicit = Ok []
    ∧ (apply_env_config_overrides (h_env h) (VDict []) = Ok v
       ∨ ∃ path, named explicit = Some path ∧ node_isfile (at_path located dk path) = false
                 ∧ v = VDict [] ∧ g' = g).
Proof.
  unfold load_config, load_config_silently. cbn [named].
  assert (search_config h located dk g explicit None = (g', Ok v) →
    (∃ path doc, node_isfile (at_path located dk path) = true ∧ read_yaml (at_path located dk path) = Ok doc
       ∧ config_path g' = Some path
       ∧ apply_env_config_overrides (h_env h) (if is_none doc then VDict [] else doc) = Ok v
       ∧ (let! mappings := _iter_readable_config_mappings h located dk explicit in
          Ok match mappings with mapping :: _ => mapping | [] => [] end) = Ok (as_dict doc))
    ∨ (let! mappings := _iter_readable_config_mappings h located dk explicit in
       Ok match mappings with mapping :: _ => mapping | [] => [] end) = Ok []
      ∧ apply_env_config_overrides (h_env h) (VDict []) = Ok v) as Hs.
  { unfold search_config, _iter_readable_config_mappings.
    destruct (get_config_paths h explicit) as [paths|e]; cbn [catching res_bind]; [| done].
    destruct (load_first h located dk g paths) as [g1 r] eqn:El. apply load_first_spec in El.
    destruct r as [[v1|e]|]; intros H; [left | by injection H | right].
    - injection H as <- <-. destruct El as (l1 & path & doc & l2 & -> & Hl1 & Hf & Hr & Hp & Ha).
      exists path, doc. split_and!; [done.. |]. rewrite omap_app, Hl1. cbn [app omap list_omap].
      unfold readable_config at 1. by rewrite Hf, Hr.
    - rewrite El. split; [done |]. unfold environment_only in H.
      destruct (apply_env_config_overrides (h_env h) (VDict [])) as [w|] eqn:Ea; [| done].
      destruct (overrides_on_mapping (h_env h) []) as [d Hd]. rewrite Hd in Ea. injection Ea as <-.
      injection H as <- <-. by destruct d. }
  destruct (named explicit) as [p|]; [| intros H; destruct (Hs H) as [?|[? ?]]; auto].
  destruct (node_isfile (at_path located dk p)) eqn:Ef; [intros H; destruct (Hs H) as [?|[? ?]]; auto |].
  intros [= <- <-]. right. split; [done |]. right. by exists p.
Qed.
End silent.

(** ** Concrete files *)

Definition relay_host : host := demo_host false None [(u "MMRELAY_HOME", u "/data")] [].
Definition smooth : trouble := {| no_mkdir := λ _, false; no_open := λ _, false; broken_write := false |}.
Definition fresh : globals := {| relay_config := VDict []; config_path := None; override_warned := false |}.
Definition disk_of (l : list (string * node)) : disk := λ q,
  if str_eqb q (u "/") then Folder
  else default Absent (first_some (λ e : string * node, if str_eqb q (u e.1) then Some e.2 else None) l).
Definition demo_credentials : pydict :=
  [(u "homeserver", VStr (u "https://m.org")); (u "access_token", VStr (u "secret"));
   (u "rooms", VSeq KTuple [VInt 1])].
Definition loaded_credentials : pydict :=
  [(u "homeserver", VStr (u "https://m.org")); (u "access_token", VStr (u "secret"));
   (u "rooms", VSeq KList [VInt 1])].


(** A configured path that ends in a slash is a folder, also when it is not there yet. *)
Definition folder_configured : globals :=
  {| relay_config := VDict [(u "credentials_path", VStr (u "/srv/keys/"))]; config_path := None;
     override_warned := false |}.
Example saved_in_folder :
  let dk := (save_credentials relay_host no_links smooth (disk_of []) folder_configured demo_credentials None).1 in
  dk (u "/srv/keys/credentials.json") = Document (VDict loaded_credentials)
  ∧ load_credentials relay_host no_links dk folder_configured None None
    = Ok (Some (u "/srv/keys/credentials.json", with_device_id loaded_credentials, false)).
Proof. by vm_compute. Qed.

(** A blank token disqualifies a file; the next candidate is taken. *)
Definition two_files : disk :=
  disk_of [("/data/matrix/credentials.json"%string,
            Document (VDict [(u "homeserver", VStr (u "h")); (u "access_token", VStr (u "  "))]));
           ("/data/credentials.json"%string, Document (VDict loaded_credentials))].
Lemma first_valid_credentials_win_witness :
  ∃ l1 l2 loaded,
    [u "/data/matrix/credentials.json"; u "/data/credentials.json"] = l1 ++ u "/data/credentials.json" :: l2
    ∧ (∀ q, q ∈ l1 → credentials_of (at_path no_links two_files q) = Ok None)
    ∧ at_path no_links two_files (u "/data/credentials.json") = Document (VDict loaded)
    ∧ (∀ key, key ∈ REQUIRED_CREDENTIALS_KEYS →
         ∃ s, dget (with_device_id loaded_credentials) key = Some (VStr s) ∧ strip s ≠ [])
    ∧ (∀ key, key ≠ u "device_id" → dget (with_device_id loaded_credentials) key = dget loaded key)
    ∧ (dget (with_device_id loaded_credentials) (u "device_id") = Some VNone
       ∨ ∃ s, dget (with_device_id loaded_credentials) (u "device_id") = Some (VStr s) ∧ strip s ≠ []
              ∧ with_device_id loaded_credentials = loaded).
Proof.
  apply (first_valid_credentials_win relay_host no_links two_files fresh None None
           (Some (u "/data/credentials.json", with_device_id loaded_credentials, true))); by vm_compute.
Defined.

Lemma save_is_confined_witness :
  let dk := (save_credentials relay_host no_links smooth (disk_of []) fresh demo_credentials None).1 in
  dk = disk_of [] ∨ ∃ target, save_target relay_host no_links (disk_of []) fresh None = Ok target ∧ ∀ q,
    (q ≠ no_links target → dk q = disk_of [] q ∨ disk_of [] q = Absent ∧ dk q = Folder)
    ∧ (dk (no_links target) = disk_of [] (no_links target)
       ∨ disk_of [] (no_links target) = Absent ∧ dk (no_links target) = Folder
       ∨ ∃ v, json_value (VDict demo_credentials) = Some v ∧ dk (no_links target) = Document v).
Proof.
  intros dk. apply (save_is_confined relay_host no_links smooth (disk_of []) fresh demo_credentials None dk (Ok tt)).
  unfold dk. by vm_compute.
Defined.

(** Two configuration files: the one of the home turns encryption off, the one below it turns it on. *)
Definition matrix_section (enabled : bool) : pyval :=
  VDict [(u "matrix", VDict [(u "e2ee", VDict [(u "enabled", VBool enabled)])])].
Definition two_configs : disk :=
  disk_of [("/data/config.yaml"%string, Document (matrix_section false));
           ("/work/config.yaml"%string, Document (matrix_section true))].
Lemma silent_mirrors_load_witness :
  let g' := (load_config relay_host no_links two_configs fresh None None None).1 in
  (∃ path doc, node_isfile (at_path no_links two_configs path) = true
     ∧ read_yaml (at_path no_links two_configs path) = Ok doc ∧ config_path g' = Some path
     ∧ apply_env_config_overrides (h_env relay_host) (if is_none doc then VDict [] else doc)
       = Ok (matrix_section false)
     ∧ load_config_silently relay_host no_links two_configs None = Ok (as_dict doc))
  ∨ load_config_silently relay_host no_links two_configs None = Ok []
    ∧ (apply_env_config_overrides (h_env relay_host) (VDict []) = Ok (matrix_section false)
       ∨ ∃ path, named None = Some path ∧ node_isfile (at_path no_links two_configs path) = false
                 ∧ matrix_section false = VDict [] ∧ g' = fresh).
Proof.
  intros g'. apply (silent_mirrors_load relay_host no_links two_configs fresh None g'). unfold g'. by vm_compute.
Defined.

(** ** What modelling showed *)

(** [check_e2ee_enabled_silently] says that it looks at the first file that can be read; it looks at
    all of them. *)
Lemma later_file_enables_e2ee :
  check_e2ee_enabled_silently relay_host no_links two_configs None = Ok true
  ∧ load_config_silently relay_host no_links two_configs None = Ok (as_dict (matrix_section false)).
Proof. by vm_compute. Qed.

(** A candidate that is no UTF-8 is meant to be ignored like any other unreadable one; UnicodeDecodeError
    is a ValueError, which no clause catches, and a good candidate behind it is not reached. *)
Lemma undecodable_credentials_escape :
  load_credentials relay_host no_links
    (disk_of [("/data/matrix/credentials.json"%string, Undecodable);
              ("/data/credentials.json"%string, Document (VDict loaded_credentials))]) fresh None None
  = Raise ValueError.
Proof. by vm_compute. Qed.

(** The same for a configuration file, which the silent reader passes over. *)
Lemma undecodable_config_escapes :
  let dk := disk_of [("/data/config.yaml"%string, Undecodable);
                     ("/work/config.yaml"%string, Document (matrix_section true))] in
  (load_config relay_host no_links dk fresh None None None).2 = Raise ValueError
  ∧ load_config_silently relay_host no_links dk None = Ok (as_dict (matrix_section true)).
Proof. by vm_compute. Qed.

(** When the default place is a folder - a container engine makes one for a file that is mounted before
    it exists - the credentials are saved into the folder, where they are not looked for. *)
Lemma folder_in_default_place :
  let '(dk, saved) := save_credentials relay_host no_links smooth
                        (disk_of [("/data/matrix/credentials.json"%string, Folder);
                                  ("/data/matrix"%string, Folder); ("/data"%string, Folder)])
                        fresh demo_credentials None in
  saved = Ok tt ∧ load_credentials relay_host no_links dk fresh None None = Ok None.
Proof. by vm_compute. Qed.

(** The candidates expand a leading tilde of the file named on the command line; the test that comes
    first does not, and refuses the file. *)
Lemma tilde_config_refused :
  let dk := disk_of [("/home/me/relay.yaml"%string, Document (matrix_section true))] in
  (load_config relay_host no_links dk fresh None (Some (u "~/relay.yaml")) None).2 = Ok (VDict [])
  ∧ match get_config_paths relay_host (Some (u "~/relay.yaml")) with
    | Ok (p :: _) => node_isfile (at_path no_links dk p) = true
    | _ => False
    end.
Proof. by vm_compute. Qed.
