(* ===== verification/E2eeStatus.v ===== *)
(** * Whether encryption works here

    Models [matrix/compat.py], which finds out which Matrix library and which cryptography are
    installed, [e2ee_utils.py], which puts that together with the configuration and the credentials,
    and [matrix/client_config.py].

    What is installed is the record [installation]; the cache of the result is left out.  The texts
    of the instructions are in; the program name in them is a parameter. *)

From Stdlib Require Import String.
From stdpp Require Import base tactics list numbers sets.
From S2P Require Import Prelude PyStr PyValue PyLib PurePath Paths ConfigEnv.
Open Scope Z_scope.

(** ** The library at hand *)

Inductive distribution := MatrixNio | MindroomNio | UnknownDistribution.
Inductive crypto_backend := BackendOlm | BackendVodozemac | BackendUnavailable | BackendUnknown.
#[export] Instance crypto_backend_eq_dec : EqDecision crypto_backend.
Proof. solve_decision. Defined.

(** Versions of the two distributions; which modules can be imported, with the attributes that are
    looked at: [ENCRYPTION_ENABLED] is None when it is missing or None, and else whether it is True. *)
Record installation := {
  in_matrix_nio : option pystr; in_mindroom_nio : option pystr; in_nio : bool;
  in_olm : bool; in_vodozemac : bool;
  in_crypto : option (bool * option bool);
  in_store : option bool;
  in_stop_sync : bool; in_receipt_marker : bool; in_allow_remote : bool }.

Record capabilities := {
  provider_name : pystr; provider_version : pystr; provider_distribution : distribution;
  backend : crypto_backend; encryption_available : bool;
  store_available : bool; sqlite_store_available : bool;
  olm_available : bool; vodozemac_available : bool;
  nio_crypto_available : bool; nio_crypto_encryption_enabled : option bool;
  nio_crypto_olm_device_available : bool;
  recommended_e2ee_extra : pystr; install_hint : pystr;
  both_known_providers_installed : bool;
  supports_stop_sync_forever : bool; supports_thread_receipts : bool; supports_authenticated_media : bool }.

Definition _detect_provider (i : installation) : pystr * pystr * distribution * bool :=
  match in_matrix_nio i, in_mindroom_nio i with
  | None, Some mindroom_version => (u "mindroom-nio", mindroom_version, MindroomNio, false)
  | Some matrix_version, None => (u "matrix-nio", matrix_version, MatrixNio, false)
  | Some matrix_version, Some mindroom_version =>
      (u "multiple nio providers installed",
       u "matrix-nio=" ++ matrix_version ++ u ", mindroom-nio=" ++ mindroom_version,
       UnknownDistribution, true)
  | None, None => (if in_nio i then u "nio" else u "unavailable", u "unknown", UnknownDistribution, false)
  end.

Definition _e2ee_install_guidance (d : distribution) (b : crypto_backend) (both : bool) : pystr * pystr :=
  if both then
    (u "one nio provider E2EE extra",
     u "matrix-nio and mindroom-nio are both installed; uninstall one nio namespace owner before enabling E2EE")
  else
    match d, b with
    | MindroomNio, _ | _, BackendVodozemac =>
        (u "mindroom-nio[e2e]",
         u "install mindroom-nio[e2e] / vodozemac as a replacement provider, not alongside matrix-nio")
    | MatrixNio, _ | _, BackendOlm => (u "matrix-nio[e2e]", u "install matrix-nio[e2e] / python-olm")
    | _, _ =>
        (u "nio provider E2EE extra",
         u "install the active nio provider's E2EE extra; no usable nio crypto backend was detected")
    end.

Definition _build_conflict_capabilities (provider_name provider_version : pystr) : capabilities :=
  let '(extra, hint) := _e2ee_install_guidance UnknownDistribution BackendUnavailable true in
  {| provider_name := provider_name; provider_version := provider_version;
     provider_distribution := UnknownDistribution; backend := BackendUnavailable;
     encryption_available := false; store_available := false; sqlite_store_available := false;
     olm_available := false; vodozemac_available := false; nio_crypto_available := false;
     nio_crypto_encryption_enabled := None; nio_crypto_olm_device_available := false;
     recommended_e2ee_extra := extra; install_hint := hint; both_known_providers_installed := true;
     supports_stop_sync_forever := false; supports_thread_receipts := false;
     supports_authenticated_media := false |}.

(** The cryptography of a distribution, and whether it is complete. *)
Definition choose_backend (d : distribution) (legacy_olm_ready vodozemac_ready olm_seen vodozemac_seen crypto : bool)
    : crypto_backend * bool :=
  match d with
  | MindroomNio =>
      if vodozemac_ready then (BackendVodozemac, true)
      else if vodozemac_seen then (BackendVodozemac, false)
      else if crypto then (BackendUnavailable, false) else (BackendUnknown, false)
  | MatrixNio =>
      if legacy_olm_ready then (BackendOlm, true)
      else if olm_seen then (BackendOlm, false)
      else if crypto then (BackendUnavailable, false) else (BackendUnknown, false)
  | UnknownDistribution =>
      if vodozemac_ready then (BackendVodozemac, true)
      else if legacy_olm_ready then (BackendOlm, true)
      else if vodozemac_seen then (BackendVodozemac, false)
      else if olm_seen then (BackendOlm, false)
      else if crypto then (BackendUnavailable, false) else (BackendUnknown, false)
  end.

Definition is_true (b : option bool) : bool := default false b.

Definition detect_matrix_capabilities (i : installation) : capabilities :=
  let '(provider_name, provider_version, d, both_installed) := _detect_provider i in
  if both_installed then _build_conflict_capabilities provider_name provider_version
  else
    let olm_device := match in_crypto i with Some (has_device, _) => has_device | None => false end in
    let enabled := match in_crypto i with Some (_, e) => e | None => None end in
    let sqlite := default false (in_store i) in
    let crypto := match in_crypto i with Some _ => true | None => false end in
    let '(b, available) :=
      choose_backend d (in_olm i && olm_device && sqlite) (in_vodozemac i && is_true enabled && sqlite)
        (in_olm i || olm_device) (in_vodozemac i || is_true enabled) crypto in
    let '(extra, hint) := _e2ee_install_guidance d b both_installed in
    {| provider_name := provider_name; provider_version := provider_version; provider_distribution := d;
       backend := b; encryption_available := available;
       store_available := match in_store i with Some _ => true | None => false end;
       sqlite_store_available := sqlite; olm_available := in_olm i; vodozemac_available := in_vodozemac i;
       nio_crypto_available := crypto; nio_crypto_encryption_enabled := enabled;
       nio_crypto_olm_device_available := olm_device;
       recommended_e2ee_extra := extra; install_hint := hint; both_known_providers_installed := both_installed;
       supports_stop_sync_forever := in_stop_sync i; supports_thread_receipts := in_receipt_marker i;
       supports_authenticated_media := in_allow_remote i |}.

Definition backend_name (b : crypto_backend) : pystr :=
  match b with
  | BackendOlm => u "olm" | BackendVodozemac => u "vodozemac"
  | BackendUnavailable => u "unavailable" | BackendUnknown => u "unknown"
  end.
Definition format_e2ee_unavailable_message (c : capabilities) : pystr :=
  let details := u "provider=" ++ provider_name c ++ u " version=" ++ provider_version c
                 ++ u " crypto_backend=" ++ backend_name (backend c) in
  if both_known_providers_installed c
  then u "E2EE is unavailable because matrix-nio and mindroom-nio are both installed (" ++ details ++ u ")"
  else u "E2EE dependencies not installed (" ++ install_hint c ++ u "; " ++ details ++ u ")".

(** ** The client configuration *)

Record client_config := {
  limits : option (Z * Z); encryption_enabled : bool; replace_rotated_device_keys : bool }.

(** [has_option]: the library has the option for rotated keys; [assignable], [replaceable]: it can be
    set by assignment, and by making a copy. *)
Definition build_matrix_client_config (has_option assignable replaceable : bool) (e2ee_enabled : bool)
    (max_limit_exceeded max_timeouts : option Z) : res client_config :=
  let config l := {| limits := l; encryption_enabled := e2ee_enabled;
                     replace_rotated_device_keys := e2ee_enabled && has_option && (assignable || replaceable) |} in
  match max_limit_exceeded, max_timeouts with
  | None, None => Ok (config None)
  | Some a, Some b => Ok (config (Some (a, b)))
  | _, _ => Raise ValueError
  end.

(** ** The status *)

Definition MSG_E2EE_WINDOWS_UNSUPPORTED : pystr := u "E2EE is not supported on Windows".
Definition MSG_E2EE_WINDOWS_UNSUPPORTED_DETAIL : pystr := u "Use Linux or macOS for E2EE support".
Definition MSG_E2EE_WINDOWS_UNSUPPORTED_SHORT : pystr := u "E2EE not supported on Windows".
Definition MSG_E2EE_DISABLED : pystr := u "E2EE is disabled in configuration".
Definition MSG_E2EE_DISABLED_SHORT : pystr := u "E2EE disabled".
Definition MSG_E2EE_NO_AUTH : pystr := u "Matrix authentication not configured".
Definition INCOMPLETE_STATUS : pystr := u "E2EE setup is incomplete".

Inductive overall := Ready | Disabled | Unavailable | Incomplete.
#[export] Instance overall_eq_dec : EqDecision overall.
Proof. solve_decision. Defined.

Record status := {
  enabled : pyval; available : bool; configured : bool; platform_supported : bool;
  dependencies_installed : bool; credentials_available : bool; overall_status : overall;
  issues : list pystr }.

(** [section.get(key, default)] *)
Definition get_from (section : pyval) (key : pystr) (default : pyval) : res pyval :=
  match section with VDict d => Ok (dget_or d key default) | _ => Raise AttributeError end.

(** Whether the configuration enables encryption. *)
Definition configured_value (config : pydict) : res pyval :=
  let matrix_section := dget_or config (u "matrix") (VDict []) in
  let! e2ee_config := get_from matrix_section (u "e2ee") (VDict []) in
  let! encryption_config := get_from matrix_section (u "encryption") (VDict []) in
  let! enabled := get_from e2ee_config (u "enabled") (VBool false) in
  if truthy enabled then Ok enabled else get_from encryption_config (u "enabled") (VBool false).

(** [supported]: the platform is not Windows, MSYS or Cygwin; [c]: the capabilities; [found]: what
    [_check_credentials_available] answers once the paths are resolved. *)
Definition get_e2ee_status (supported : bool) (c : capabilities) (found : res bool) (config : pydict)
    : res status :=
  let dependencies_installed := supported && encryption_available c in
  let! enabled := configured_value config in
  let! credentials_available := found in
  let available := supported && dependencies_installed in
  Ok {| enabled := enabled; available := available; configured := credentials_available;
        platform_supported := supported; dependencies_installed := dependencies_installed;
        credentials_available := credentials_available;
        overall_status :=
          if negb supported then Unavailable
          else if truthy enabled && available && credentials_available then Ready
          else if negb (truthy enabled) then Disabled
          else Incomplete;
        issues := (if supported then [] else [MSG_E2EE_WINDOWS_UNSUPPORTED])
                  ++ (if supported && negb (encryption_available c) then [format_e2ee_unavailable_message c] else [])
                  ++ (if truthy enabled then [] else [MSG_E2EE_DISABLED])
                  ++ (if credentials_available : bool then [] else [MSG_E2EE_NO_AUTH]) |}.

(** [exists_]: [os.path.exists]; [legacy_sources]: those of [resolve_all_paths] while the deprecation
    window is open, and else none. *)
Definition credentials_places (config_path : option pystr) (credentials_path home : pystr)
    (legacy_sources : list pystr) : list pystr :=
  let at_root root := [path_join root CREDENTIALS_FILENAME;
                       path_join (path_join root MATRIX_DIRNAME) CREDENTIALS_FILENAME] in
  match config_path with Some ((_ :: _) as p) => at_root (dirname p) | _ => [] end
  ++ [credentials_path; path_join home CREDENTIALS_FILENAME]
  ++ (legacy_sources ≫= at_root).
Definition _check_credentials_available (exists_ : pystr → bool) (config_path : option pystr)
    (credentials_path home : pystr) (legacy_sources : list pystr) : bool :=
  existsb exists_ (credentials_places config_path credentials_path home legacy_sources).

(** ** Messages *)

(** A room as its name and whether it is encrypted. *)
Definition WARNING_SIGN : pystr := [9888; 65039; 32].
Definition get_room_encryption_warnings (rooms : list (pystr * bool)) (s : overall) : list pystr :=
  let encrypted_rooms := filter (λ r : pystr * bool, r.2 = true) rooms in
  match s, encrypted_rooms with
  | Ready, _ | _, [] => []
  | _, _ =>
      [WARNING_SIGN ++ str_of_int (Z.of_nat (length encrypted_rooms)) ++ u " encrypted room(s) detected but "
         ++ match s with
            | Unavailable => MSG_E2EE_WINDOWS_UNSUPPORTED
            | Disabled => MSG_E2EE_DISABLED
            | _ => INCOMPLETE_STATUS
            end;
       match s with
       | Incomplete => u "   Messages to encrypted rooms may be blocked"
       | _ => u "   Messages to encrypted rooms will be blocked"
       end]
  end.

Definition format_room (s : overall) (room : pystr * bool) : pystr :=
  let '(room_name, encrypted) := room in
  if negb encrypted then u "   " ++ [9989; 32] ++ room_name
  else match s with
       | Ready => u "   " ++ [128274; 32] ++ room_name ++ u " - Encrypted"
       | Unavailable => u "   " ++ WARNING_SIGN ++ room_name ++ u " - Encrypted ("
                        ++ MSG_E2EE_WINDOWS_UNSUPPORTED_SHORT ++ u " - messages will be blocked)"
       | Disabled => u "   " ++ WARNING_SIGN ++ room_name ++ u " - Encrypted ("
                     ++ MSG_E2EE_DISABLED_SHORT ++ u " - messages will be blocked)"
       | Incomplete => u "   " ++ WARNING_SIGN ++ room_name ++ u " - Encrypted ("
                       ++ INCOMPLETE_STATUS ++ u " - messages may be blocked)"
       end.
Definition format_room_list (rooms : list (pystr * bool)) (s : overall) : list pystr :=
  map (format_room s) rooms.

Section messages.
Context (command : pystr → pystr) (c : capabilities) (install_command : pystr).

Definition get_e2ee_error_message (s : status) : pystr :=
  if bool_decide (overall_status s = Ready) then []
  else if negb (platform_supported s)
  then MSG_E2EE_WINDOWS_UNSUPPORTED ++ u " - messages to encrypted rooms will be blocked"
  else if negb (truthy (enabled s)) then MSG_E2EE_DISABLED ++ u " - messages to encrypted rooms will be blocked"
  else if negb (dependencies_installed s) then format_e2ee_unavailable_message c
  else if negb (credentials_available s) then MSG_E2EE_NO_AUTH ++ u " - run: " ++ command (u "auth_login")
  else INCOMPLETE_STATUS ++ u " - messages to encrypted rooms may be blocked".

(** [_get_e2ee_error_message] of the relay to Matrix, for a send that is blocked. *)
Definition _get_e2ee_error_message (supported : bool) (found : res bool) (config : option pydict)
    : res pystr :=
  let! s := get_e2ee_status supported c found (default [] config) in
  Ok (get_e2ee_error_message s).

(** The steps, numbered from the given one on. *)
Fixpoint number_steps (step : Z) (steps : list (list pystr)) : list pystr :=
  match steps with
  | [] => []
  | [] :: steps => number_steps step steps
  | (title :: details) :: steps =>
      (str_of_int step ++ u ". " ++ title) :: details ++ number_steps (step + 1) steps
  end.
Definition get_e2ee_fix_instructions (s : status) : list pystr :=
  if bool_decide (overall_status s = Ready) then [[9989; 32] ++ u "E2EE is fully configured and ready"]
  else if negb (platform_supported s) then [MSG_E2EE_WINDOWS_UNSUPPORTED; MSG_E2EE_WINDOWS_UNSUPPORTED_DETAIL]
  else number_steps 1
    [if dependencies_installed s then [] else [u "Install E2EE dependencies:"; u "   " ++ install_command];
     if credentials_available s then [] else [u "Set up Matrix authentication:"; u "   " ++ command (u "auth_login")];
     if truthy (enabled s) then []
     else [u "Enable E2EE in configuration:"; u "   Edit config.yaml and add under matrix section:";
           u "   e2ee:"; u "     enabled: true"];
     [u "Verify configuration:"; u "   " ++ command (u "check_config")]].
End messages.

(** ** Properties *)

(** Encryption is reported as available exactly when one library is installed, the store of that
    library is there, and the cryptography that belongs to it is complete: olm for matrix-nio,
    vodozemac, enabled in the library, for mindroom-nio, either for a library of unknown origin. *)
Theorem encryption_available_exact i :
  encryption_available (detect_matrix_capabilities i) = true ↔
  in_store i = Some true
  ∧ (let olm := in_olm i = true ∧ ∃ e, in_crypto i = Some (true, e) in
     let vodozemac := in_vodozemac i = true ∧ ∃ b, in_crypto i = Some (b, Some true) in
     match in_matrix_nio i, in_mindroom_nio i with
     | Some _, Some _ => False
     | Some _, None => olm
     | None, Some _ => vodozemac
     | None, None => olm ∨ vodozemac
     end).
Proof.
  unfold detect_matrix_capabilities, _detect_provider.
  destruct i as [[mx|] [mi|] nio olm vz [[dev [[]|]]|] [[]|] ? ? ?]; cbn; destruct olm, vz; try destruct dev; cbn;
    naive_solver.
Qed.

(** The status is ready exactly when the platform supports encryption, the library at hand has its
    cryptography, the configuration enables it and credentials were found; a status that is not ready
    names a reason, and only a ready one has no issue. *)
Theorem ready_exact supported c found config s :
  get_e2ee_status supported c found config = Ok s →
  (overall_status s = Ready ↔
     supported = true ∧ encryption_available c = true ∧ found = Ok true
     ∧ ∃ v, configured_value config = Ok v ∧ truthy v = true)
  ∧ (overall_status s = Ready ↔ issues s = [])
  ∧ (overall_status s = Unavailable ↔ supported = false)
  ∧ (overall_status s = Disabled → ∃ v, configured_value config = Ok v ∧ truthy v = false)
  ∧ (∀ command, get_e2ee_error_message command c s = [] ↔ overall_status s = Ready).
Proof.
  unfold get_e2ee_status. destruct (configured_value config) as [v|]; cbn [res_bind]; [| done].
  destruct found as [b|]; cbn [res_bind]; [| done]. intros H. apply Ok_inj in H as <-.
  unfold get_e2ee_error_message. cbn [overall_status issues platform_supported enabled dependencies_installed credentials_available].
  destruct supported, (encryption_available c) eqn:Ea, (truthy v) eqn:Ev, b; cbn [negb andb app].
  all: split_and!; try done; try naive_solver.
  all: try (split; [done |]; intros (_ & _ & _ & v0 & Hv0 & Ht); apply Ok_inj in Hv0 as <-; congruence).
  all: try (intros command; split; [| done]; unfold format_e2ee_unavailable_message; cbn;
            destruct (both_known_providers_installed c); done).
Qed.

(** ** Concrete installations *)

Definition plain_installation (matrix mindroom : bool) : installation :=
  {| in_matrix_nio := if matrix then Some (u "0.25.2") else None;
     in_mindroom_nio := if mindroom then Some (u "0.40.0") else None; in_nio := matrix || mindroom;
     in_olm := false; in_vodozemac := true; in_crypto := Some (false, Some true); in_store := Some true;
     in_stop_sync := true; in_receipt_marker := true; in_allow_remote := true |}.
Definition e2ee_config (v : pyval) : pydict := [(u "matrix", VDict [(u "e2ee", VDict [(u "enabled", v)])])].
Definition demo_status (v : pyval) (mindroom : bool) : res status :=
  get_e2ee_status true (detect_matrix_capabilities (plain_installation (negb mindroom) mindroom)) (Ok true) (e2ee_config v).

Example statuses :
  match demo_status (VBool true) true with Ok s => overall_status s = Ready | Raise _ => False end
  ∧ match demo_status (VBool true) false with Ok s => overall_status s = Incomplete | Raise _ => False end
  ∧ match demo_status (VBool false) true with Ok s => overall_status s = Disabled | Raise _ => False end
  ∧ encryption_available (detect_matrix_capabilities (plain_installation true true)) = false.
Proof. by vm_compute. Qed.

Lemma ready_exact_witness :
  ∃ s, demo_status (VBool true) true = Ok s ∧ overall_status s = Ready ∧ issues s = [].
Proof.
  destruct (demo_status (VBool true) true) as [s|] eqn:E; [| by vm_compute in E].
  exists s. pose proof (ready_exact true (detect_matrix_capabilities (plain_installation false true)) (Ok true)
                          (e2ee_config (VBool true)) s E) as (H1 & H2 & _).
  assert (overall_status s = Ready) as Hr.
  { apply H1. split_and!; [done | by vm_compute | done |]. exists (VBool true). by vm_compute. }
  split_and!; [done | done | by apply H2].
Defined.

(** ** What modelling showed *)

(** A section that is there but empty, which the loader accepts, makes the status raise; it is asked for
    after every first sync, so the connection to Matrix fails, and for the reason of a blocked send. *)
Lemma null_section_raises supported c found :
  get_e2ee_status supported c found [(u "matrix", VDict [(u "e2ee", VNone)])] = Raise AttributeError
  ∧ (∀ command, _get_e2ee_error_message command c supported found
                  (Some [(u "matrix", VDict [(u "e2ee", VNone)])]) = Raise AttributeError)
  ∧ is_e2ee_enabled false [(u "matrix", VDict [(u "e2ee", VNone)])] = false.
Proof. by destruct supported. Qed.

(** A text counts as enabled for the status, as not enabled for the session that is set up. *)
Lemma text_enables_status_only :
  match demo_status (VStr (u "false")) true with Ok s => overall_status s = Ready | Raise _ => False end
  ∧ is_e2ee_enabled false (e2ee_config (VStr (u "false"))) = false.
Proof. by vm_compute. Qed.
