(* ===== verification/MatrixIds.v ===== *)
(** * User ids of the bot

    Models [_normalize_bot_user_id] of [matrix/prefixes.py] and [_get_bot_user_id] of
    [matrix/credentials.py]: a user name, with or without its server, becomes a full Matrix id. *)

From Stdlib Require Import String.
From stdpp Require Import base tactics list numbers sets.
From S2P Require Import Prelude PyStr PyValue PyLib.
Open Scope Z_scope.

Definition AT : Z := 64.

(** [re.sub(r":\d+$", "", s)]; the end is also in front of a final line end. *)
Definition decimal (c : Z) : bool := match digit_value c with Some _ => true | None => false end.
Definition drop_port_at_end (s : pystr) : option pystr :=
  match rpartition COLON s with
  | (a, true, b) => if nonempty b && forallb decimal b then Some a else None
  | _ => None
  end.
Definition drop_port (s : pystr) : pystr :=
  match drop_port_at_end s with
  | Some a => a
  | None =>
      match reverse s with
      | 10 :: r => match drop_port_at_end (reverse r) with Some a => a ++ [10] | None => s end
      | _ => s
      end
  end.

(** [s.split("://")[-1]] *)
Fixpoint after_last (s : pystr) : option pystr :=
  match s with
  | [] => None
  | _ :: s' => match after_last s' with
               | Some r => Some r
               | None => if startswith s (u "://") then Some (drop 3 s) else None
               end
  end.
Definition host_part (homeserver : pystr) : pystr :=
  (split1 SLASH (default homeserver (after_last homeserver))).1.

(** [s.count(c)] *)
Definition count_char (c : Z) (s : pystr) : nat := length (filter (λ d, (d =? c) = true) s).

(** None and the empty text are told apart by nobody. *)
Definition _canonical_server (value : pystr) : pystr :=
  if negb (nonempty value) then value
  else
    let value := strip value in
    let value := match value with
                 | 91 :: rest => match split1 93 rest with (inside, Some _) => inside | _ => value end
                 | _ => value
                 end in
    let value := match drop_port_at_end value with
                 | Some a => if (count_char COLON value =? 1)%nat then a else value
                 | None => value
                 end in
    if bool_decide (COLON ∈ value) && negb (startswith value (u "[")) then [91] ++ value ++ [93] else value.

Section ids.
Context (bracketed_ok netloc_ok : pystr → bool).

(** [urlparse(url).hostname], with the empty text for None. *)
Definition hostname (url : pystr) : res pystr :=
  let! parsed := urlsplit bracketed_ok netloc_ok url in Ok (url_hostname parsed).

Definition derive_domain (homeserver : pystr) : res pystr :=
  let! domain := hostname homeserver in
  let! domain := if nonempty domain then Ok domain else hostname (u "//" ++ homeserver) in
  Ok (if nonempty domain then domain else drop_port (host_part homeserver)).

(** The part in front of the first colon, and the server when one is named. *)
Definition split_user_id (bot_user_id : pystr) : pystr * pystr :=
  let '(localpart, serverpart) := split1 COLON (drop_while (Z.eqb AT) bot_user_id) in
  (rstrip_char COLON (strip localpart), default [] serverpart).

Definition _normalize_bot_user_id (homeserver : pystr) (bot_user_id : option pystr) : res (option pystr) :=
  match bot_user_id with
  | Some ((_ :: _) as bot_user_id) =>
      let! domain := derive_domain homeserver in
      let domain := _canonical_server domain in
      let '(localpart, raw_server) := split_user_id bot_user_id in
      if negb (nonempty localpart) then Ok None
      else
        let full server := if nonempty server then Some ([AT] ++ localpart ++ [COLON] ++ server) else None in
        if nonempty raw_server then
          let! server := hostname (u "//" ++ raw_server) in
          Ok (full (_canonical_server (if nonempty server then server else drop_port raw_server)))
        else Ok (full domain)
  | _ => Ok bot_user_id
  end.

Definition _get_bot_user_id (homeserver : pystr) (raw_user_id : pyval) : res pystr :=
  match raw_user_id with
  | VStr ((_ :: _) as raw_user_id) =>
      let! normalized := _normalize_bot_user_id homeserver (Some raw_user_id) in
      Ok (default [] normalized)
  | _ => Ok []
  end.

(** ** Properties *)

Lemma split1_no_sep c s : c ∉ (split1 c s).1.
Proof.
  induction s as [|d s IH]; simpl; [by apply not_elem_of_nil |].
  destruct (Z.eqb_spec d c); [by apply not_elem_of_nil |].
  destruct (split1 c s) as [a b]; cbn [fst] in *. apply not_elem_of_cons. split; [congruence | done].
Qed.

Lemma drop_while_sub f s x : x ∈ drop_while f s → x ∈ s.
Proof. induction s as [|c s IH]; simpl; [done |]. destruct (f c); [intros ?; right; auto | done]. Qed.
Lemma strip_sub s x : x ∈ strip s → x ∈ s.
Proof.
  unfold strip, rstrip, lstrip. rewrite elem_of_reverse. intros H%drop_while_sub.
  rewrite elem_of_reverse in H. by apply drop_while_sub in H.
Qed.

Lemma drop_while_none f s : (∀ x, x ∈ s → f x = false) → drop_while f s = s.
Proof. destruct s as [|c s]; [done |]. intros H. cbn [drop_while]. by rewrite (H c) by by left. Qed.

Lemma split_user_id_local bot_user_id :
  let '(localpart, _) := split_user_id bot_user_id in (COLON ∉ localpart) ∧ (strip localpart = localpart).
Proof.
  unfold split_user_id. pose proof (split1_no_sep COLON (drop_while (Z.eqb AT) bot_user_id)) as Hc.
  destruct (split1 COLON (drop_while (Z.eqb AT) bot_user_id)) as [localpart serverpart]. cbn [fst] in Hc.
  assert (COLON ∉ strip localpart) as Hs by (intros ?%strip_sub; done).
  assert (rstrip_char COLON (strip localpart) = strip localpart) as ->.
  { unfold rstrip_char. rewrite drop_while_none; [apply reverse_involutive |].
    intros x Hx. rewrite elem_of_reverse in Hx. apply Z.eqb_neq. intros <-. done. }
  split; [done | apply strip_idemp].
Qed.

(** A normalized id is complete: an at sign, a part without a colon and without white space around
    it, a colon and a server that is not empty.  So the part in front of the first colon is the name
    the server knows. *)
Lemma normalized_id_is_complete homeserver bot_user_id id :
  _normalize_bot_user_id homeserver (Some bot_user_id) = Ok (Some id) → bot_user_id ≠ [] →
  ∃ localpart server, id = [AT] ++ localpart ++ [COLON] ++ server
    ∧ localpart ≠ [] ∧ (COLON ∉ localpart) ∧ (strip localpart = localpart) ∧ server ≠ [].
Proof.
  unfold _normalize_bot_user_id. destruct bot_user_id as [|c s]; [done |]. intros H _.
  pose proof (split_user_id_local (c :: s)) as Hl. set (b := c :: s) in *. clearbody b.
  destruct (derive_domain homeserver) as [domain|]; cbn [res_bind] in H; [| done].
  destruct (split_user_id b) as [localpart raw_server]. destruct Hl as [Hc Hs].
  destruct (nonempty localpart) eqn:El; cbn [negb] in H; [| done]. apply nonempty_spec in El.
  assert (∀ server, (if nonempty server then Some ([AT] ++ localpart ++ [COLON] ++ server) else None) = Some id →
          ∃ l s0, id = [AT] ++ l ++ [COLON] ++ s0 ∧ l ≠ [] ∧ (COLON ∉ l) ∧ (strip l = l) ∧ s0 ≠ []) as Hfull.
  { intros server Hi. destruct (nonempty server) eqn:E; [| done]. injection Hi as <-.
    exists localpart, server. split_and!; [done..|]. by apply nonempty_spec. }
  destruct (nonempty raw_server).
  - destruct (hostname _) as [server|]; cbn [res_bind] in H; [| done]. eapply Hfull. by apply Ok_inj in H.
  - eapply Hfull. by apply Ok_inj in H.
Qed.
End ids.

Definition norm_demo (homeserver user : string) : res (option pystr) :=
  _normalize_bot_user_id (λ _, true) (λ _, true) (u homeserver) (Some (u user)).
Example normalized :
  norm_demo "https://matrix.org:8448/path" " bot " = Ok (Some (u "@bot:matrix.org"))
  ∧ norm_demo "matrix.org" "@bot:Example.com:443" = Ok (Some (u "@bot:example.com"))
  ∧ norm_demo "https://[::1]:8448" "@bot" = Ok (Some (u "@bot:[::1]"))
  ∧ norm_demo "matrix.org" "@@bot:" = Ok (Some (u "@bot:matrix.org"))
  ∧ norm_demo "matrix.org" "@ :matrix.org" = Ok None.
Proof. by vm_compute. Qed.
