(* ===== verification/CrossSigning.v ===== *)
(** * Signing the bot's own device

    Models [matrix/e2ee_identity.py]: before the first sync the bot lets the client library sign its
    device with its cross-signing identity, and checks on the server that the signatures are there.
    A Matrix account has one identity; making a new one would untrust every other client of the
    account, so the module decides when the library may be asked.

    The client, its identity object and the server are behind the calls [client_op]. *)

From Stdlib Require Import String.
From stdpp Require Import base tactics list numbers sets.
From S2P Require Import Prelude PyStr PyValue Interact.
Open Scope Z_scope.
Open Scope prog_scope.

(** ** Calls *)

(** What reading an attribute gives: a value, something callable, or an object with a handle. *)
Inductive attr := AVal (v : pyval) | ACallable | AObject (i : nat).

(** [ClientAttr] and [IdentityAttr] are [getattr(..., None)], [IdentityKey] reads a public key of an
    identity that has one; the answers of [SendKeysQuery] are statuses, [ResponseText] and
    [ResponseJson] read the response of the last query. *)
Inductive client_op : Type → Type :=
  | ClientAttr (name : pystr) : client_op attr
  | SendKeysQuery (user token : pystr) (device_ids : list pystr) : client_op Z
  | ResponseText : client_op pystr
  | ResponseJson : client_op pyval
  | EnsureCrossSigning (password : option pystr) : client_op pyval
  | UploadOwnDeviceSignature (identity : attr) : client_op unit
  | IdentityAttr (i : nat) (name : pystr) : client_op attr
  | IdentityKey (i : nat) (name : pystr) : client_op pystr
  | SelfSigningKeyPayload (i : nat) : client_op pyval
  | SignedDevicePayload (i : nat) (device_keys : pydict) : client_op pyval.

Abbreviation cprog := (prog client_op unit).
Abbreviation cevent := (event client_op).

Definition is_callable (a : attr) : bool := match a with ACallable => true | _ => false end.
Definition is_none_attr (a : attr) : bool := match a with AVal VNone => true | _ => false end.
(** [isinstance(a, str) and a] *)
Definition text_attr (a : attr) : option pystr :=
  match a with AVal (VStr s) => if nonempty s then Some s else None | _ => None end.

(** ** Diagnostics *)

Definition hide_newlines (s : pystr) : pystr :=
  s ≫= λ c, if c =? 13 then u "\r" else if c =? 10 then u "\n" else [c].

Definition failure_label (failure : pystr * pyval) : pystr :=
  let server_label := take 80 (hide_newlines failure.1) in
  match failure.2 with
  | VDict detail =>
      match dget_none detail (u "errcode") with
      | VStr errcode =>
          if nonempty errcode
          then server_label ++ u " (" ++ take 64 (hide_newlines errcode) ++ u ")"
          else server_label
      | _ => server_label
      end
  | _ => server_label
  end.

Definition _summarize_keys_query_failures (failures : pydict) : pystr :=
  let summaries := map failure_label (take 5 failures) in
  let more := if 5 <? Z.of_nat (length failures)
              then [u "+" ++ str_of_int (Z.of_nat (length failures) - 5) ++ u " more"] else [] in
  take 300 (join (u ", ") (summaries ++ more)).

(** None stands for the text <unknown>. *)
Definition _client_label (attribute : pystr) : cprog (option attr) :=
  try_except is_exception_x
    (value <- call (ClientAttr attribute) ;;
     ret (match value with
          | AVal v => if truthy v then Some value else None
          | _ => Some value
          end))
    (λ _, ret None).
(** A warning that names the device or the user. *)
Definition warn_about (attribute : pystr) : cprog unit := _client_label attribute ;; ret tt.

(** ** The query of the account's own keys *)

Definition _query_own_keys (device_ids : list pystr) : cprog (pystr * pydict) :=
  user_attr <- call (ClientAttr (u "user_id")) ;;
  token_attr <- call (ClientAttr (u "access_token")) ;;
  send <- call (ClientAttr (u "send")) ;;
  user_id <- of_option XRuntime (text_attr user_attr) ;;
  access_token <- of_option XRuntime (text_attr token_attr) ;;
  if negb (is_callable send) then raise XRuntime
  else
    status <- call (SendKeysQuery user_id access_token device_ids) ;;
    if negb (status =? 200) then call ResponseText ;; raise XRuntime
    else
      payload <- try_except (λ e, is_value_error e || is_type_error e) (call ResponseJson)
                            (λ _, raise XRuntime) ;;
      match payload with
      | VDict payload =>
          match dget_none payload (u "failures") with
          | VDict (_ :: _) => raise XRuntime
          | _ => ret (user_id, payload)
          end
      | _ => raise XRuntime
      end.

(** [_nested_dict(container, *keys)] *)
Fixpoint _nested_dict (current : pyval) (keys : list pystr) : option pydict :=
  match current with
  | VDict d => match keys with
               | [] => Some d
               | k :: keys => _nested_dict (dget_none d k) keys
               end
  | _ => None
  end.

Definition has_master_key (payload : pydict) (user_id : pystr) : bool :=
  match dget_none payload (u "master_keys") with
  | VDict master_keys => is_dict (dget_none master_keys user_id)
  | _ => false
  end.

Definition _server_has_own_cross_signing_identity : cprog bool :=
  r <- _query_own_keys [] ;;
  ret (has_master_key r.2 r.1).

Definition _signature_value (payload : pyval) (user_id key_id : pystr) : option pystr :=
  match _nested_dict payload [u "signatures"; user_id] with
  | Some signatures =>
      match dget_none signatures key_id with
      | VStr signature => if nonempty signature then Some signature else None
      | _ => None
      end
  | None => None
  end.

(** ** The chain of signatures on the server *)

Definition _verifiable_cross_signing_identity (identity : attr) : cprog (option nat) :=
  match identity with
  | AObject i =>
      try_except is_exception_x
        (master <- call (IdentityAttr i (u "master_public_key")) ;;
         self_signing <- call (IdentityAttr i (u "self_signing_public_key")) ;;
         self_signing_payload <- call (IdentityAttr i (u "self_signing_key_payload")) ;;
         signed_device_payload <- call (IdentityAttr i (u "signed_device_payload")) ;;
         ret (match text_attr master, text_attr self_signing with
              | Some _, Some _ => if is_callable self_signing_payload && is_callable signed_device_payload
                                  then Some i else None
              | _, _ => None
              end))
        (λ _, ret None)
  | _ => ret None
  end.

Definition key_id (public_key : pystr) : pystr := u "ed25519:" ++ public_key.

(** A key of the account as the server shows it: of this user, for this use, with this public key. *)
Definition key_matches (key : option pydict) (user_id usage public_key : pystr) : bool :=
  match key with
  | Some key =>
      py_eqb (dget_none key (u "user_id")) (VStr user_id)
      && py_eqb (dget_none key (u "usage")) (VSeq KList [VStr usage])
      && match _nested_dict (VDict key) [u "keys"] with
         | Some keys => py_eqb (VDict keys) (VDict [(key_id public_key, VStr public_key)])
         | None => false
         end
  | None => false
  end.

(** [expected is None or observed != expected] is the negation. *)
Definition signature_agrees (expected observed : option pystr) : bool :=
  match expected with Some s => bool_decide (observed = Some s) | None => false end.

Definition signable_device (device : pydict) : pydict :=
  filter (λ kv : pystr * pyval, kv.1 ≠ u "signatures" ∧ kv.1 ≠ u "unsigned") device.

(** (valid, repairable, reason) *)
Definition _server_own_device_cross_signing_status (identity : nat) : cprog (bool * bool * pystr) :=
  device_attr <- call (ClientAttr (u "device_id")) ;;
  device_id <- of_option XRuntime (text_attr device_attr) ;;
  query <- _query_own_keys [device_id] ;;
  let '(user_id, payload) := query in
  master_public_key <- call (IdentityKey identity (u "master_public_key")) ;;
  self_signing_public_key <- call (IdentityKey identity (u "self_signing_public_key")) ;;
  if negb (key_matches (_nested_dict (VDict payload) [u "master_keys"; user_id])
                       user_id (u "master") master_public_key)
  then ret (false, false, u "the server master key does not match MMRelay's identity")
  else
    let self_signing := _nested_dict (VDict payload) [u "self_signing_keys"; user_id] in
    if negb (key_matches self_signing user_id (u "self_signing") self_signing_public_key)
    then ret (false, false, u "the server self-signing key does not match the persisted identity")
    else
      expected_self_signing <- call (SelfSigningKeyPayload identity) ;;
      let observed := VDict (default [] self_signing) in
      if negb (signature_agrees (_signature_value expected_self_signing user_id (key_id master_public_key))
                                (_signature_value observed user_id (key_id master_public_key)))
      then ret (false, false, u "the server self-signing key has an invalid master signature")
      else
        match _nested_dict (VDict payload) [u "device_keys"; user_id; device_id] with
        | None => ret (false, false, u "the server does not expose keys for the current device")
        | Some device =>
            if negb (py_eqb (dget_none device (u "user_id")) (VStr user_id)
                     && py_eqb (dget_none device (u "device_id")) (VStr device_id))
            then ret (false, false, u "the server returned inconsistent current-device keys")
            else
              expected_signed_device <- call (SignedDevicePayload identity (signable_device device)) ;;
              if negb (signature_agrees
                         (_signature_value expected_signed_device user_id (key_id self_signing_public_key))
                         (_signature_value (VDict device) user_id (key_id self_signing_public_key)))
              then ret (false, true, u "the current device is missing a valid owner self-signing signature")
              else ret (true, false, u "server-visible cross-signing chain is valid")
        end.

Definition _republish_own_device_signature (identity : attr) : cprog bool :=
  upload <- try_except is_exception_x
              (a <- call (ClientAttr (u "_upload_own_device_signature")) ;; ret (Some a))
              (λ _, ret None) ;;
  match upload with
  | Some a => if is_callable a then call (UploadOwnDeviceSignature identity) ;; ret true else ret false
  | None => ret false
  end.

(** The second half of [_confirm_server_visible_cross_signing]: sign the device again and look again. *)
Definition repair_device_signature (identity : attr) (i : nat) : cprog bool :=
  refreshed <- try_except is_exception_x
                 (r <- _republish_own_device_signature identity ;; ret (Some r))
                 (λ _, warn_about (u "device_id") ;; ret None) ;;
  match refreshed with
  | None => ret false
  | Some false => warn_about (u "device_id") ;; ret false
  | Some true =>
      status <- _server_own_device_cross_signing_status i ;;
      let '(valid, _, _) := status in
      warn_about (u "device_id") ;; ret valid
  end.

Definition _confirm_server_visible_cross_signing (identity : attr) : cprog bool :=
  verifiable_identity <- _verifiable_cross_signing_identity identity ;;
  match verifiable_identity with
  | None => ret true
  | Some i =>
      status <- _server_own_device_cross_signing_status i ;;
      let '(valid, repairable, _) := status in
      if valid then warn_about (u "device_id") ;; ret true
      else if negb repairable then warn_about (u "device_id") ;; ret false
      else repair_device_signature identity i
  end.

(** ** The policy *)

(** The provider has [ensure_cross_signing]; its local identity comes with it. *)
Definition _inspect_cross_signing_provider : cprog (option attr) :=
  ensure_method <- try_except is_exception_x
                     (a <- call (ClientAttr (u "ensure_cross_signing")) ;; ret (Some a))
                     (λ _, warn_about (u "device_id") ;; ret None) ;;
  match ensure_method with
  | None => ret None
  | Some a =>
      if negb (is_callable a) then ret None
      else try_except is_exception_x
             (local_identity <- call (ClientAttr (u "cross_signing_identity")) ;;
              ret (Some local_identity))
             (λ _, warn_about (u "device_id") ;; ret None)
  end.

Definition given (password : option pystr) : bool :=
  match password with Some p => nonempty p | None => false end.

Definition _resolve_cross_signing_reset_policy (local_identity : attr) (password : option pystr)
    (reset_cross_signing : bool) : cprog bool :=
  if negb (is_none_attr local_identity) then ret true
  else
    server_has_identity <- try_except is_exception_x
                             (b <- _server_has_own_cross_signing_identity ;; ret (Some b))
                             (λ _, warn_about (u "device_id") ;; ret None) ;;
    match server_has_identity with
    | None => ret false
    | Some false => ret true
    | Some true =>
        warn_about (u "user_id") ;;
        ret (reset_cross_signing && given password)
    end.

Definition UPLOADED_AND_SIGNED : pystr := u "uploaded_and_signed".
Definition DEVICE_SIGNED : pystr := u "device_signed".
Definition ALREADY_SIGNED : pystr := u "already_signed".
Definition signed_results : list pystr := [UPLOADED_AND_SIGNED; DEVICE_SIGNED; ALREADY_SIGNED].

(** [hash(v)] works. *)
Fixpoint hashable (v : pyval) : bool :=
  match v with
  | VSeq KTuple l => forallb hashable l
  | VSeq KList _ | VSeq KSet _ | VDict _ => false
  | _ => true
  end.

(** [result in {...}]; the membership test hashes [result]. *)
Definition signed_result (result : pyval) : res (option pystr) :=
  if hashable result
  then Ok (match result with
           | VStr s => if bool_decide (s ∈ signed_results) then Some s else None
           | _ => None
           end)
  else Raise TypeError.

Definition _verify_cross_signing_postcondition (result : pyval) : cprog (option pystr) :=
  _client_label (u "device_id") ;;
  match signed_result result with
  | Raise _ => raise XType
  | Ok None => ret None
  | Ok (Some s) =>
      current_identity <- try_except is_exception_x
                            (a <- call (ClientAttr (u "cross_signing_identity")) ;; ret (Some a))
                            (λ _, ret None) ;;
      match current_identity with
      | None => ret None
      | Some a =>
          confirmed <- try_except is_exception_x (_confirm_server_visible_cross_signing a) (λ _, ret false) ;;
          ret (if confirmed : bool then Some s else None)
      end
  end.

(** The body under the time limit of 120 seconds. *)
Definition bootstrap (local_identity : attr) (password : option pystr) (reset_cross_signing : bool)
    : cprog (option pystr) :=
  allowed <- _resolve_cross_signing_reset_policy local_identity password reset_cross_signing ;;
  if negb allowed then ret None
  else
    result <- try_except is_exception_x
                (r <- call (EnsureCrossSigning password) ;; ret (Some r))
                (λ _, warn_about (u "device_id") ;; ret None) ;;
    match result with
    | None => ret None
    | Some r => _verify_cross_signing_postcondition r
    end.

Definition _ensure_own_device_cross_signed (password : option pystr) (reset_cross_signing : bool)
    : cprog (option pystr) :=
  provider <- _inspect_cross_signing_provider ;;
  match provider with
  | None => ret None
  | Some local_identity =>
      result <- try_except (λ e, bool_decide (e = XTimeout))
                  (with_timeout (bootstrap local_identity password reset_cross_signing))
                  (λ _, warn_about (u "device_id") ;; ret None) ;;
      match result with
      | None => ret None
      | Some s => _client_label (u "device_id") ;; ret (Some s)
      end
  end.

(** ** What the calls may be *)

(** Calls that only look: neither the identity nor a signature changes. *)
Definition looks (ev : cevent) : Prop :=
  match ev with
  | Event (EnsureCrossSigning _) _ | Event (UploadOwnDeviceSignature _) _ => False
  | _ => True
  end.

(** A chain of signatures on the server, checked against what an identity signs. *)
Record chain_shown (user_id device_id master self_signing : pystr) (payload : pydict)
    (own_self_signing own_device : pyval) : Prop := {
  master_shown : key_matches (_nested_dict (VDict payload) [u "master_keys"; user_id])
                   user_id (u "master") master = true;
  self_signing_shown : key_matches (_nested_dict (VDict payload) [u "self_signing_keys"; user_id])
                         user_id (u "self_signing") self_signing = true;
  self_signing_signed : ∃ d s, _nested_dict (VDict payload) [u "self_signing_keys"; user_id] = Some d
    ∧ _signature_value own_self_signing user_id (key_id master) = Some s
    ∧ _signature_value (VDict d) user_id (key_id master) = Some s;
  device_signed : ∃ d s, _nested_dict (VDict payload) [u "device_keys"; user_id; device_id] = Some d
    ∧ dget_none d (u "user_id") = VStr user_id ∧ dget_none d (u "device_id") = VStr device_id
    ∧ _signature_value own_device user_id (key_id self_signing) = Some s
    ∧ _signature_value (VDict d) user_id (key_id self_signing) = Some s }.

(** The part of it that holds before the device is signed again. *)
Definition keys_shown (i : nat) (l : list cevent) : Prop :=
  ∃ user_id payload master self_signing,
    Event ResponseJson (inl (VDict payload)) ∈ l
    ∧ Event (IdentityKey i (u "master_public_key")) (inl master) ∈ l
    ∧ Event (IdentityKey i (u "self_signing_public_key")) (inl self_signing) ∈ l
    ∧ key_matches (_nested_dict (VDict payload) [u "master_keys"; user_id]) user_id (u "master") master = true
    ∧ key_matches (_nested_dict (VDict payload) [u "self_signing_keys"; user_id])
        user_id (u "self_signing") self_signing = true.

(** The server answered a query with the whole chain of the identity [i]. *)
Definition chain_verified (i : nat) (l : list cevent) : Prop :=
  ∃ user_id device_id token master self_signing payload own_self_signing d own_device,
    Event (SendKeysQuery user_id token [device_id]) (inl 200) ∈ l
    ∧ Event ResponseJson (inl (VDict payload)) ∈ l
    ∧ Event (ClientAttr (u "device_id")) (inl (AVal (VStr device_id))) ∈ l
    ∧ Event (IdentityKey i (u "master_public_key")) (inl master) ∈ l
    ∧ Event (IdentityKey i (u "self_signing_public_key")) (inl self_signing) ∈ l
    ∧ Event (SelfSigningKeyPayload i) (inl own_self_signing) ∈ l
    ∧ Event (SignedDevicePayload i (signable_device d)) (inl own_device) ∈ l
    ∧ _nested_dict (VDict payload) [u "device_keys"; user_id; device_id] = Some d
    ∧ chain_shown user_id device_id master self_signing payload own_self_signing own_device.

(** ** Parts that only look *)

Section looking.
Implicit Types l : list cevent.

Lemma text_attr_Some a s : text_attr a = Some s → a = AVal (VStr s).
Proof.
  destruct a as [[| | | |t| | | |]| |]; simpl; try done. destruct (nonempty t); [by intros [= ->] | done].
Qed.

Lemma signature_agrees_spec expected observed :
  signature_agrees expected observed = true → ∃ s, expected = Some s ∧ observed = Some s.
Proof. destruct expected; simpl; [| done]. intros ?%bool_decide_eq_true. eauto. Qed.

Ltac looks_tac := rewrite ?Forall_app; repeat first [split | constructor]; done.

Lemma client_label_looks name :
  leaves (_client_label name) (λ o l, Forall looks l ∧
    match o with Raises x => is_exception_x x = false | Running => False | _ => True end).
Proof. unfold _client_label. leaves_run; (split; [looks_tac | done]). Qed.

Lemma query_own_keys_looks ids :
  leaves (_query_own_keys ids) (λ o l, Forall looks l ∧
    match o with
    | Returns (user_id, payload) =>
        ∃ token, Event (SendKeysQuery user_id token ids) (inl 200) ∈ l
                 ∧ Event ResponseJson (inl (VDict payload)) ∈ l
    | Raises _ => True
    | Running => False
    end).
Proof.
  unfold _query_own_keys. leaves_run; (split; [looks_tac |]); try done.
  all: bool_prop; repeat match goal with H : (_ =? _) = true |- _ => apply Z.eqb_eq in H as -> end.
  all: eexists; split; in_trace.
Qed.

Lemma status_looks i :
  leaves (_server_own_device_cross_signing_status i) (λ o l, Forall looks l ∧
    match o with
    | Returns (true, _, _) => chain_verified i l
    | Returns (false, true, _) => keys_shown i l
    | Returns (false, false, _) | Raises _ => True
    | Running => False
    end).
Proof.
  unfold _server_own_device_cross_signing_status. leaves_run; [| split; [looks_tac | done] ..].
  apply text_attr_Some in Heqo as ->.
  eapply leaves_mono; [apply query_own_keys_looks |].
  intros [[user_id payload]|x|] lq [Hq Hkeys]; [| split; [looks_tac | done] | done].
  destruct Hkeys as (token & Hsend & Hjson). leaves_run.
  all: split; [looks_tac |]; try done.
  all: bool_prop.
  - by exists user_id, payload, l0, l1; repeat split; [in_trace ..].
  - apply signature_agrees_spec in Heqb1 as (s1 & Hs1 & Ho1), Heqb3 as (s2 & Hs2 & Ho2).
    apply py_eqb_str in H, H0.
    destruct (_nested_dict _ [u "self_signing_keys"; user_id]) as [d|] eqn:Hd; [| done].
    exists user_id, l, token, l0, l1, payload, p, l2, p0.
    repeat (split; [first [in_trace | done] |]).
    split; [done | by rewrite Hd | by eauto | by eauto 10].
Qed.

(** The identity offers no way to check the server. *)
Definition unusable (name : pystr) (r : attr + xn) : bool :=
  match r with
  | inl a => if bool_decide (name ∈ [u "master_public_key"; u "self_signing_public_key"])
             then match text_attr a with Some _ => false | None => true end
             else negb (is_callable a)
  | inr _ => true
  end.
Definition unverifiable (identity : attr) (l : list cevent) : Prop :=
  match identity with
  | AObject i => ∃ name r, Event (IdentityAttr i name) r ∈ l ∧ unusable name r = true
  | _ => True
  end.

(** Nothing is changed but, at most once, the signature of the device, after the server showed the
    keys of the identity that signs it. *)
Definition repairs (identity : attr) (l : list cevent) : Prop :=
  Forall looks l
  ∨ ∃ i l1 r l0, identity = AObject i ∧ l = l1 ++ Event (UploadOwnDeviceSignature identity) r :: l0
                 ∧ Forall looks l1 ∧ Forall looks l0 ∧ keys_shown i l0.
(** The chain was checked by the calls after the last change. *)
Definition verified (identity : attr) (l : list cevent) : Prop :=
  ∃ i l1 l0, identity = AObject i ∧ l = l1 ++ l0 ∧ Forall looks l1 ∧ chain_verified i l1.

Lemma repairs_later identity l' l : Forall looks l' → repairs identity l → repairs identity (l' ++ l).
Proof.
  intros Hl' [Hl|(i & l1 & r & l0 & -> & -> & H1 & H0 & Hk)].
  - left. by rewrite Forall_app.
  - right. exists i, (l' ++ l1), r, l0. rewrite Forall_app, <- app_assoc. naive_solver.
Qed.

Lemma chain_verified_mono i l l' : (∀ ev, ev ∈ l → ev ∈ l') → chain_verified i l → chain_verified i l'.
Proof.
  intros H (user_id & device_id & token & master & self_signing & payload & p & d & p' & H').
  exists user_id, device_id, token, master, self_signing, payload, p, d, p'. naive_solver.
Qed.

Lemma keys_shown_mono i l l' : (∀ ev, ev ∈ l → ev ∈ l') → keys_shown i l → keys_shown i l'.
Proof.
  intros H (user_id & payload & master & self_signing & H').
  exists user_id, payload, master, self_signing. naive_solver.
Qed.

Lemma verified_later identity l' l : Forall looks l' → verified identity l → verified identity (l' ++ l).
Proof.
  intros Hl' (i & l1 & l0 & -> & -> & H1 & Hc). exists i, (l' ++ l1), l0.
  rewrite Forall_app, <- app_assoc. repeat split; [done ..|].
  eapply chain_verified_mono; [| done]. intros. apply elem_of_app. by right.
Qed.

Ltac unusable_tac H :=
  unfold unusable; destruct (bool_decide _) eqn:Eb; first [by rewrite H | by vm_compute in Eb].

Lemma verifiable_looks identity :
  leaves (_verifiable_cross_signing_identity identity) (λ o l, Forall looks l ∧
    match o with
    | Returns (Some i) => identity = AObject i
    | Returns None => unverifiable identity l
    | Raises x => is_exception_x x = false
    | Running => False
    end).
Proof.
  unfold _verifiable_cross_signing_identity. destruct identity as [v| |i]; leaves_run.
  all: split; [looks_tac |]; try done.
  2-5: by eexists _, (inr x); split; [in_trace | done].
  destruct (text_attr a) eqn:Ea; [| by eexists _, (inl a); split; [in_trace | by unusable_tac Ea]].
  destruct (text_attr a0) eqn:Ea0; [| by eexists _, (inl a0); split; [in_trace | by unusable_tac Ea0]].
  destruct (is_callable a1) eqn:Ea1; [| by eexists _, (inl a1); split; [in_trace | by unusable_tac Ea1]].
  destruct (is_callable a2) eqn:Ea2; [done |].
  eexists _, (inl a2); split; [in_trace | by unusable_tac Ea2].
Qed.

(** [warn_about] and the like leave only looks. *)
Lemma warn_about_looks name :
  leaves (warn_about name) (λ o l, Forall looks l ∧
    match o with Raises x => is_exception_x x = false | Running => False | _ => True end).
Proof.
  apply leaves_seq. eapply leaves_mono; [apply client_label_looks |].
  intros [a|x|] l [Hl H]; [| done | done]. leaves_run. split; [looks_tac | done].
Qed.

Lemma warn_then {A} name (a : A) :
  leaves (warn_about name ;; ret a) (λ o l, Forall looks l ∧
    (o = Returns a ∨ ∃ x, o = Raises x ∧ is_exception_x x = false)).
Proof.
  apply leaves_seq. eapply leaves_mono; [apply warn_about_looks |].
  intros [b|x|] l [Hl H]; simpl; [leaves_run | by eauto | done]. split; [looks_tac | by left].
Qed.

(** At most one upload of a signature. *)
Definition uploads_once (identity : attr) (l : list cevent) : Prop :=
  Forall looks l
  ∨ ∃ l1 r l0, l = l1 ++ Event (UploadOwnDeviceSignature identity) r :: l0
               ∧ Forall looks l1 ∧ Forall looks l0.

Lemma uploads_once_later identity l' l :
  Forall looks l' → uploads_once identity l → uploads_once identity (l' ++ l).
Proof.
  intros Hl' [Hl|(l1 & r & l0 & -> & H1 & H0)].
  - left. by rewrite Forall_app.
  - right. exists (l' ++ l1), r, l0. by rewrite Forall_app, <- app_assoc.
Qed.

Lemma uploads_once_repairs i l' l :
  Forall looks l → keys_shown i l → uploads_once (AObject i) l' → repairs (AObject i) (l' ++ l).
Proof.
  intros Hl Hk [Hl'|(l1 & r & l0 & -> & H1 & H0)].
  - left. by rewrite Forall_app.
  - right. exists i, l1, r, (l0 ++ l). rewrite Forall_app, <- app_assoc. repeat split; [done ..|].
    eapply keys_shown_mono; [| done]. intros. apply elem_of_app. by right.
Qed.

Lemma republish_leaves identity :
  leaves (_republish_own_device_signature identity) (λ o l, uploads_once identity l ∧ o ≠ Running).
Proof.
  unfold _republish_own_device_signature. leaves_run.
  1-2: split; [right; by eexists [], _, _; split; [reflexivity | split; looks_tac] | done].
  all: split; [left; looks_tac | done].
Qed.

Lemma refresh_leaves identity :
  leaves (try_except is_exception_x
            (r <- _republish_own_device_signature identity ;; ret (Some r))
            (λ _, warn_about (u "device_id") ;; ret None))
    (λ o l, uploads_once identity l ∧ o ≠ Running).
Proof.
  apply leaves_try, leaves_seq. eapply leaves_mono; [apply republish_leaves |].
  intros [b|x|] l [Hl Hr]; simpl; [leaves_run; by split | | done].
  destruct (is_exception_x x); [| by split]. eapply leaves_mono; [apply warn_then |].
  intros o l' [Hl' Ho]. split; [by apply uploads_once_later | naive_solver].
Qed.

Lemma repair_leaves i :
  leaves (repair_device_signature (AObject i) i) (λ o l, uploads_once (AObject i) l ∧
    match o with Returns true => verified (AObject i) l | Running => False | _ => True end).
Proof.
  apply leaves_seq. eapply leaves_mono; [apply refresh_leaves |].
  intros [[[]|]|x|] l [Hl Hr]; simpl; [| | leaves_run; by split | by split | done].
  - apply leaves_seq. eapply leaves_mono; [apply status_looks |].
    intros [[[v r] reason]|x|] l0 [Hl0 Hs]; simpl; [| split; [by apply uploads_once_later | done] | done].
    eapply leaves_mono; [apply warn_then |]. intros o l' [Hl' Ho]. rewrite <- app_assoc.
    split; [by repeat apply uploads_once_later |].
    destruct Ho as [->|(x & -> & _)]; [destruct v | done]; [| done].
    apply verified_later; [done |]. by exists i, l0, l.
  - eapply leaves_mono; [apply warn_then |]. intros o l' [Hl' Ho].
    split; [by apply uploads_once_later |]. destruct Ho as [->|(x & -> & _)]; done.
Qed.

Lemma confirm_leaves identity :
  leaves (_confirm_server_visible_cross_signing identity) (λ o l, repairs identity l ∧
    match o with
    | Returns true => verified identity l ∨ unverifiable identity l
    | Returns false | Raises _ => True
    | Running => False
    end).
Proof.
  apply leaves_seq. eapply leaves_mono; [apply verifiable_looks |].
  intros [[i|]|x|] l [Hl H]; simpl; [| | split; [by left | done] | done].
  2: { apply leaves_ret. split; [by left | by right]. }
  subst identity. apply leaves_seq. eapply leaves_mono; [apply status_looks |].
  intros [[[v r] reason]|x|] l0 [Hl0 Hs]; simpl; [| by split; [left; apply Forall_app | done] | done].
  assert (∀ l', Forall looks l' → Forall looks ((l' ++ l0) ++ l)) as Hlooks.
  { intros l' ?. rewrite !Forall_app. done. }
  destruct v; [| destruct r; simpl].
  - eapply leaves_mono; [apply warn_then |].
    intros o l' [Hl' [->|(x & -> & _)]]; (split; [left; by auto |]); [| done].
    left. exists i, ((l' ++ l0) ++ l), []. rewrite app_nil_r. repeat split; [by auto |].
    eapply chain_verified_mono; [| done]. set_solver.
  - eapply leaves_mono; [apply repair_leaves |]. intros o l' [Hl' Ho]. rewrite <- app_assoc. split.
    + apply uploads_once_repairs; [by apply Forall_app | | done].
      eapply keys_shown_mono; [| done]. set_solver.
    + destruct o as [[]|x|]; [| done ..]. left. destruct Ho as (j & l1 & l2 & ? & -> & ?).
      exists j, l1, (l2 ++ l0 ++ l). by rewrite <- app_assoc.
  - eapply leaves_mono; [apply warn_then |].
    intros o l' [Hl' [->|(x & -> & _)]]; (split; [left; by auto | done]).
Qed.

Lemma repairs_earlier identity l' l : Forall looks l' → repairs identity l → repairs identity (l ++ l').
Proof.
  intros Hl' [Hl|(i & l1 & r & l0 & -> & -> & H1 & H0 & Hk)].
  - left. by rewrite Forall_app.
  - right. exists i, l1, r, (l0 ++ l'). rewrite Forall_app, <- app_assoc. repeat split; [done ..|].
    eapply keys_shown_mono; [| done]. set_solver.
Qed.

Lemma verified_earlier identity l' l : verified identity l → verified identity (l ++ l').
Proof. intros (i & l1 & l0 & -> & -> & H). exists i, l1, (l0 ++ l'). by rewrite <- app_assoc. Qed.

Lemma unverifiable_mono identity l l' :
  (∀ ev, ev ∈ l → ev ∈ l') → unverifiable identity l → unverifiable identity l'.
Proof. intros H. destruct identity; simpl; [done ..|]. naive_solver. Qed.

(** ** When the library may be asked *)

(** There is a local identity, or the server said that the account has none, or a reset was asked
    for and a password given. *)
Definition permitted (local_identity : attr) (password : option pystr) (reset : bool) (l : list cevent) : Prop :=
  local_identity ≠ AVal VNone
  ∨ (∃ user_id token payload, Event (SendKeysQuery user_id token []) (inl 200) ∈ l
      ∧ Event ResponseJson (inl (VDict payload)) ∈ l ∧ has_master_key payload user_id = false)
  ∨ reset = true ∧ given password = true.

Lemma server_identity_looks :
  leaves (b <- _server_has_own_cross_signing_identity ;; ret (Some b)) (λ o l, Forall looks l ∧
    match o with
    | Returns (Some false) => ∃ user_id token payload, Event (SendKeysQuery user_id token []) (inl 200) ∈ l
        ∧ Event ResponseJson (inl (VDict payload)) ∈ l ∧ has_master_key payload user_id = false
    | Returns _ | Raises _ => True
    | Running => False
    end).
Proof.
  apply leaves_seq, leaves_seq. eapply leaves_mono; [apply query_own_keys_looks |].
  intros [[user_id payload]|x|] l [Hl Hk]; simpl; [| done ..]. leaves_run. split; [by rewrite Forall_app |].
  simpl. destruct (has_master_key payload user_id) eqn:E; [done |].
  destruct Hk as (token & ? & ?). eauto 10.
Qed.

Lemma policy_leaves local_identity password reset :
  leaves (_resolve_cross_signing_reset_policy local_identity password reset) (λ o l, Forall looks l ∧
    match o with
    | Returns true => permitted local_identity password reset l
    | Returns false => True
    | Raises x => is_exception_x x = false
    | Running => False
    end).
Proof.
  unfold _resolve_cross_signing_reset_policy. destruct (negb (is_none_attr local_identity)) eqn:E.
  { apply leaves_ret. split; [done |]. left. by intros ->. }
  apply leaves_seq, leaves_try. eapply leaves_mono; [apply server_identity_looks |].
  intros [[[]|]|x|] l [Hl Hk]; simpl; [| | leaves_run; done | | done].
  - eapply leaves_mono; [apply warn_then |]. intros o l' [Hl' Ho]. split; [by apply Forall_app |].
    destruct Ho as [->|(x & -> & Hx)]; [| done]. destruct (reset && given password) eqn:Er; [| done].
    bool_prop. by right; right.
  - apply leaves_ret. split; [by rewrite app_nil_l | by right; left].
  - destruct (is_exception_x x) eqn:Ex; [| done]. eapply leaves_mono; [apply warn_then |].
    intros o l' [Hl' Ho]. destruct Ho as [->|(y & -> & Hy)]; simpl; [leaves_run |]; by rewrite ?Forall_app.
Qed.

Lemma signed_result_spec result o : signed_result result = Ok o →
  match o with Some s => result = VStr s ∧ s ∈ signed_results | None => True end.
Proof.
  unfold signed_result. destruct (hashable result); [| done]. intros [= <-].
  destruct result; try done. case_bool_decide; [by split | done].
Qed.

(** What a reported signature rests on. *)
Definition reported (s : pystr) (l : list cevent) : Prop :=
  s ∈ signed_results ∧ ∃ identity,
    Event (ClientAttr (u "cross_signing_identity")) (inl identity) ∈ l
    ∧ (verified identity l ∨ unverifiable identity l).

Lemma postcondition_leaves result :
  leaves (_verify_cross_signing_postcondition result) (λ o l, (∃ identity, repairs identity l) ∧
    match o with
    | Returns (Some s) => result = VStr s ∧ reported s l
    | Returns None => True
    | Raises x => is_exception_x x = false ∨ hashable result = false
    | Running => False
    end).
Proof.
  apply leaves_seq. eapply leaves_mono; [apply client_label_looks |].
  intros [label|x|] l [Hl H]; simpl; [| by split; [exists ACallable; left | left] | done].
  destruct (signed_result result) as [[s|]|] eqn:E.
  2: { apply leaves_ret. split; [by exists ACallable; left | done]. }
  2: { apply leaves_raise. split; [by exists ACallable; left |]. right.
       unfold signed_result in E. by destruct (hashable result). }
  apply signed_result_spec in E as [-> Hs]. leaves_run.
  2-3: by split; [exists ACallable; left; looks_tac | first [done | by left]].
  eapply leaves_mono; [apply confirm_leaves |].
  intros o l' [Hl' Ho]. set (read := Event _ (inl a)).
  assert (∃ identity, repairs identity ((l' ++ [read]) ++ l)) as Hrep.
  { exists a. rewrite <- app_assoc. apply repairs_earlier; [looks_tac | done]. }
  destruct o as [[]|x|]; [| | destruct (is_exception_x x) eqn:Ex | done]; leaves_run; simpl.
  - split; [done |]. split; [done |]. split; [done |]. exists a. split; [set_solver |].
    destruct Ho as [Ho|Ho]; [left; rewrite <- app_assoc; by apply verified_earlier | right].
    eapply unverifiable_mono; [| done]. set_solver.
  - done.
  - done.
  - split; [done | by left].
Qed.

(** A run of the policy: nothing is changed, or the library is asked once, when it is permitted. *)
Definition asks_once (local_identity : attr) (password : option pystr) (reset : bool) (l : list cevent) : Prop :=
  Forall looks l
  ∨ ∃ l1 r l0 identity, l = l1 ++ Event (EnsureCrossSigning password) r :: l0
      ∧ Forall looks l0 ∧ permitted local_identity password reset l0 ∧ repairs identity l1.

Definition after_asking (password : option pystr) (s : pystr) (l : list cevent) : Prop :=
  ∃ l1 l0, l = l1 ++ Event (EnsureCrossSigning password) (inl (VStr s)) :: l0 ∧ reported s l1.

Lemma bootstrap_leaves local_identity password reset :
  leaves (bootstrap local_identity password reset) (λ o l, asks_once local_identity password reset l ∧
    match o with
    | Returns (Some s) => after_asking password s l
    | Returns None => True
    | Raises x => is_exception_x x = false
                  ∨ ∃ r, Event (EnsureCrossSigning password) (inl r) ∈ l ∧ hashable r = false
    | Running => False
    end).
Proof.
  apply leaves_seq. eapply leaves_mono; [apply policy_leaves |].
  intros [[]|x|] l0 [Hl0 Hp]; simpl; [| leaves_run; by split; [left |] | by split; [left | left] | done].
  apply leaves_seq, leaves_try, leaves_seq, leaves_call.
  intros [r|x]; simpl; [leaves_run | destruct (is_exception_x x) eqn:Ex].
  - eapply leaves_mono; [apply postcondition_leaves |]. intros o l1 [[identity Hr] Ho].
    replace ((l1 ++ [] ++ [Event (EnsureCrossSigning password) (inl r)]) ++ l0)
      with (l1 ++ Event (EnsureCrossSigning password) (inl r) :: l0) by by rewrite <- app_assoc.
    split; [right; by exists l1, (inl r), l0, identity |].
    destruct o as [[s|]|x|]; [| done | | done].
    + destruct Ho as [-> ?]. by exists l1, l0.
    + destruct Ho as [?|?]; [by left | right]. exists r. split; [set_solver | done].
  - eapply leaves_mono; [apply warn_then |]. intros o l1 [Hl1 Ho].
    assert (asks_once local_identity password reset
              ((l1 ++ [Event (EnsureCrossSigning password) (inr x)]) ++ l0)) as Hask.
    { right. exists l1, (inr x), l0, ACallable. rewrite <- app_assoc. repeat split; [done ..|]. by left. }
    destruct Ho as [->|(y & -> & ?)]; simpl; leaves_run; [by split | by split; [| left]].
  - split; [| by left]. right. exists [], (inr x), l0, ACallable. repeat split; [done ..|]. by left.
Qed.

Lemma read_or_warn name :
  leaves (try_except is_exception_x (a <- call (ClientAttr name) ;; ret (Some a))
            (λ _, warn_about (u "device_id") ;; ret None))
    (λ o l, Forall looks l ∧
      match o with
      | Returns (Some a) => Event (ClientAttr name) (inl a) ∈ l
      | Returns None => True
      | Raises x => is_exception_x x = false
      | Running => False
      end).
Proof.
  apply leaves_try, leaves_seq, leaves_call. intros [a|x]; simpl.
  - leaves_run. split; [looks_tac | set_solver].
  - destruct (is_exception_x x) eqn:Ex; [| split; [looks_tac | done]].
    eapply leaves_mono; [apply warn_then |]. intros o l [Hl [->|(y & -> & ?)]]; (split; [looks_tac | done]).
Qed.

Lemma inspect_leaves :
  leaves _inspect_cross_signing_provider (λ o l, Forall looks l ∧
    match o with
    | Returns (Some local_identity) =>
        Event (ClientAttr (u "cross_signing_identity")) (inl local_identity) ∈ l
    | Returns None => True
    | Raises x => is_exception_x x = false
    | Running => False
    end).
Proof.
  apply leaves_seq. eapply leaves_mono; [apply read_or_warn |].
  intros [[a|]|x|] l [Hl Hin]; simpl; [| by leaves_run | done | done].
  destruct (negb (is_callable a)); [by leaves_run |].
  eapply leaves_mono; [apply read_or_warn |]. intros o l' [Hl' Ho]. split; [by apply Forall_app |].
  destruct o as [[b|]|x|]; try done. set_solver.
Qed.

(** The whole run, with the identity that the inspection found. *)
Definition whole_run (password : option pystr) (reset : bool) (l : list cevent) : Prop :=
  Forall looks l
  ∨ ∃ l1 r l0 identity local_identity, l = l1 ++ Event (EnsureCrossSigning password) r :: l0
      ∧ Forall looks l0 ∧ Event (ClientAttr (u "cross_signing_identity")) (inl local_identity) ∈ l0
      ∧ permitted local_identity password reset l0 ∧ repairs identity l1.

Lemma permitted_mono local_identity password reset l l' :
  (∀ ev, ev ∈ l → ev ∈ l') → permitted local_identity password reset l →
  permitted local_identity password reset l'.
Proof.
  intros H [Hp|[(user_id & token & payload & Hp)|Hp]]; [by left | | by right; right].
  right; left. exists user_id, token, payload. naive_solver.
Qed.

Lemma asks_once_whole local_identity password reset l' l0 l :
  Forall looks l0 → Event (ClientAttr (u "cross_signing_identity")) (inl local_identity) ∈ l0 →
  asks_once local_identity password reset l → Forall looks l' →
  whole_run password reset ((l' ++ l) ++ l0).
Proof.
  intros Hl0 Hin Hask Hl'. destruct Hask as [Hl|(l1 & r & l2 & identity & -> & Hl2 & Hp & Hr)].
  - left. by rewrite !Forall_app.
  - right. exists (l' ++ l1), r, (l2 ++ l0), identity, local_identity.
    rewrite <- !app_assoc. simpl. repeat split.
    + by apply Forall_app.
    + set_solver.
    + eapply permitted_mono; [| done]. set_solver.
    + by apply repairs_later.
Qed.

Lemma reported_later s l' l : Forall looks l' → reported s l → reported s (l' ++ l).
Proof.
  intros Hl' [Hs (identity & Hi & Hv)]. split; [done |]. exists identity. split; [set_solver |].
  destruct Hv as [Hv|Hv]; [left; by apply verified_later | right].
  eapply unverifiable_mono; [| done]. set_solver.
Qed.

Lemma ensure_leaves password reset :
  leaves (_ensure_own_device_cross_signed password reset) (λ o l, whole_run password reset l ∧
    match o with
    | Returns (Some s) => after_asking password s l
    | Returns None => True
    | Raises x => is_exception_x x = false
                  ∨ ∃ r, Event (EnsureCrossSigning password) (inl r) ∈ l ∧ hashable r = false
    | Running => False
    end).
Proof.
  apply leaves_seq. eapply leaves_mono; [apply inspect_leaves |].
  intros [[local_identity|]|x|] l0 [Hl0 Hin]; simpl; [| leaves_run; by split; [left |] | by split; [left | left] | done].
  apply leaves_seq, leaves_try, leaves_timeout. eapply leaves_mono; [apply bootstrap_leaves |].
  intros o l [Hask Ho].
  assert (∀ l', Forall looks l' → whole_run password reset ((l' ++ l) ++ l0)) as Hwhole.
  { intros l'. by apply (asks_once_whole local_identity). }
  destruct o as [[s|]|x|]; simpl; [| | | done].
  - apply leaves_seq. eapply leaves_mono; [apply client_label_looks |].
    intros [label|x|] l' [Hl' Hx]; simpl; [| | done].
    + apply leaves_ret. split; [by apply Hwhole |].
      destruct Ho as (l1 & l2 & -> & Hr). exists (l' ++ l1), (l2 ++ l0). rewrite <- !app_assoc.
      split; [done | by apply reported_later].
    + split; [by apply Hwhole | by left].
  - apply leaves_ret. split; [by apply Hwhole | done].
  - assert (leaves (warn_about (u "device_id") ;; ret None) (λ o' l',
      then_leaves (λ result : option pystr, match result with
                                            | Some s => _client_label (u "device_id") ;; ret (Some s)
                                            | None => ret None
                                            end)
        (λ o2 l2, whole_run password reset (l2 ++ l0) ∧
          match o2 with
          | Returns (Some s) => after_asking password s (l2 ++ l0)
          | Returns None => True
          | Raises x => is_exception_x x = false
                        ∨ ∃ r, Event (EnsureCrossSigning password) (inl r) ∈ l2 ++ l0 ∧ hashable r = false
          | Running => False
          end) o' (l' ++ l))) as Hwarn.
    { eapply leaves_mono; [apply warn_then |].
      intros o' l' [Hl' [->|(y & -> & ?)]]; simpl; [leaves_run |]; (split; [by apply Hwhole | auto]). }
    assert (whole_run password reset (l ++ l0)) as Hraise by by apply (Hwhole []).
    destruct Ho as [Hx|(r & Hr & Hh)].
    + destruct x; try done; simpl; (split; [done | by left]).
    + destruct x; simpl; try done; (split; [done | right]; exists r; split; [set_solver | done]).
Qed.
End looking.

(** ** Properties *)

(** C18: The library is asked to sign the device at most once per run, and only when the bot has its
    identity at hand, or the server has just answered that the account has no identity yet, or a
    reset was asked for and a password given; so no identity is replaced that nobody asked to
    replace.  Besides that, at most the signature of the own device is uploaded, once, and only
    after the server showed the master and self-signing keys of this very identity. *)
Theorem identity_replaced_only_when_permitted e password reset w :
  ∃ l, (_ensure_own_device_cross_signed password reset e w).2.2 = l ++ w.2 ∧ whole_run password reset l.
Proof. destruct (ensure_leaves password reset e w) as (l & Hl & Hr & _). eauto. Qed.

(** C36: A device is reported as signed only after the library said so with one of its three results,
    and the server then showed the whole chain of signatures: the master key of the identity, its
    self-signing key signed by the master key, and the device signed by the self-signing key -
    unless the identity offers nothing to compare with. *)
Theorem reported_signature_was_verified e password reset w s :
  (_ensure_own_device_cross_signed password reset e w).1 = Returns (Some s) →
  ∃ l1 l0, (_ensure_own_device_cross_signed password reset e w).2.2
             = l1 ++ Event (EnsureCrossSigning password) (inl (VStr s)) :: l0
           ∧ reported s l1.
Proof.
  intros Hs. destruct (ensure_leaves password reset e w) as (l & Hl & _ & Ho). rewrite Hs in Ho.
  destruct Ho as (l1 & l0 & -> & Hr). exists l1, (l0 ++ w.2). by rewrite Hl, <- app_assoc.
Qed.

(** Whatever the library, the server and the getters of the client raise, nothing but a
    cancellation or an exit leaves the module, so that start-up goes on - but for a result of the
    library that cannot be hashed. *)
Theorem only_cancellation_escapes e password reset w :
  match (_ensure_own_device_cross_signed password reset e w).1 with
  | Returns _ => True
  | Raises x => is_exception_x x = false
      ∨ ∃ r, Event (EnsureCrossSigning password) (inl r)
             ∈ (_ensure_own_device_cross_signed password reset e w).2.2 ∧ hashable r = false
  | Running => False
  end.
Proof.
  destruct (ensure_leaves password reset e w) as (l & Hl & _ & Ho).
  destruct (_ensure_own_device_cross_signed password reset e w).1 as [o|x|]; [done | | done].
  destruct Ho as [?|(r & Hr & ?)]; [by left | right]. exists r. rewrite Hl. split; [set_solver | done].
Qed.

Lemma hide_newlines_clean s : Forall (λ c, c ≠ 10 ∧ c ≠ 13) (hide_newlines s).
Proof.
  unfold hide_newlines. induction s as [|c s IH]; simpl; [constructor |].
  apply Forall_app. split; [| done].
  destruct (Z.eqb_spec c 13); [by repeat constructor |]. destruct (Z.eqb_spec c 10); by repeat constructor.
Qed.

Lemma join_Forall (P : Z → Prop) sep l : Forall P sep → Forall (Forall P) l → Forall P (join sep l).
Proof.
  intros Hsep. induction 1 as [|w l Hw Hl IH]; simpl; [constructor |]. destruct l as [|w2 l]; [done |].
  by rewrite !Forall_app.
Qed.

Lemma str_of_int_clean n : 0 ≤ n → Forall (λ c, c ≠ 10 ∧ c ≠ 13) (str_of_int n).
Proof.
  intros Hn. unfold str_of_int. rewrite Z.abs_eq by done.
  destruct (n <? 0) eqn:E; [apply Z.ltb_lt in E; lia |].
  destruct (str_of_int_digits n Hn) as (H & _). eapply Forall_impl; [exact H |]. simpl. lia.
Qed.

Lemma failure_label_clean f : Forall (λ c, c ≠ 10 ∧ c ≠ 13) (failure_label f).
Proof.
  assert (∀ n s, Forall (λ c, c ≠ 10 ∧ c ≠ 13) (take n (hide_newlines s))) as H
    by (intros; apply Forall_take, hide_newlines_clean).
  unfold failure_label. repeat case_match; auto. rewrite !Forall_app.
  split; [done |]. split; [by repeat constructor |]. split; [done | by repeat constructor].
Qed.

(** The summary of what other servers answered is one line of bounded length. *)
Lemma summary_bounded failures :
  (length (_summarize_keys_query_failures failures) ≤ 300)%nat
  ∧ Forall (λ c, c ≠ 10 ∧ c ≠ 13) (_summarize_keys_query_failures failures).
Proof.
  unfold _summarize_keys_query_failures. split; [rewrite length_take; lia |].
  apply Forall_take, join_Forall; [by repeat constructor |]. apply Forall_app. split.
  - apply Forall_map, Forall_true. apply failure_label_clean.
  - destruct (5 <? Z.of_nat (length failures)) eqn:E; [| done]. apply Z.ltb_lt in E.
    apply Forall_cons_2; [| constructor]. rewrite !Forall_app.
    split; [by repeat constructor |]. split; [apply str_of_int_clean; lia | by repeat constructor].
Qed.

(** ** Runs on a concrete server *)

Section demo.
(** The server answers a query with [server]; the client has [identity] at first and the object 1
    after the library made one; the signature of the device is there once it has been asked for
    or uploaded. *)
Context (identity : attr) (result : pyval).

Definition sig (key value : string) : pyval :=
  VDict [(u "@bot:s", VDict [(u "ed25519:" ++ u key, VStr (u value))])].
Definition demo_device (signed : bool) : pydict :=
  [(u "user_id", VStr (u "@bot:s")); (u "device_id", VStr (u "DEV"))]
  ++ if signed then [(u "signatures", sig "SSK" "d-sig")] else [].
Definition demo_payload (signed : bool) : pydict :=
  [(u "master_keys", VDict [(u "@bot:s", VDict
     [(u "user_id", VStr (u "@bot:s")); (u "usage", VSeq KList [VStr (u "master")]);
      (u "keys", VDict [(u "ed25519:MSK", VStr (u "MSK"))])])]);
   (u "self_signing_keys", VDict [(u "@bot:s", VDict
     [(u "user_id", VStr (u "@bot:s")); (u "usage", VSeq KList [VStr (u "self_signing")]);
      (u "keys", VDict [(u "ed25519:SSK", VStr (u "SSK"))]); (u "signatures", sig "MSK" "s-sig")])]);
   (u "device_keys", VDict [(u "@bot:s", VDict [(u "DEV", VDict (demo_device signed))])])].

Definition asked (ev : cevent) : bool :=
  match ev with Event (EnsureCrossSigning _) _ => true | _ => false end.
Definition uploaded (ev : cevent) : bool :=
  match ev with Event (UploadOwnDeviceSignature _) _ => true | _ => false end.

(** [signs]: the library uploads the signature of the device when it is asked. *)
Definition demo_env (signs : bool) : env client_op := λ X h o,
  match o in client_op X return X + xn with
  | ClientAttr name =>
      inl (if str_eqb name (u "user_id") then AVal (VStr (u "@bot:s"))
           else if str_eqb name (u "access_token") then AVal (VStr (u "tok"))
           else if str_eqb name (u "device_id") then AVal (VStr (u "DEV"))
           else if str_eqb name (u "cross_signing_identity")
                then if existsb asked h then AObject 1 else identity
           else ACallable)
  | SendKeysQuery _ _ _ => inl 200
  | ResponseText => inl []
  | ResponseJson => inl (VDict (demo_payload (existsb uploaded h || (signs && existsb asked h))))
  | EnsureCrossSigning _ => inl result
  | UploadOwnDeviceSignature _ => inl tt
  | IdentityAttr _ name => inl (if str_eqb name (u "master_public_key") then AVal (VStr (u "MSK"))
                                else if str_eqb name (u "self_signing_public_key") then AVal (VStr (u "SSK"))
                                else ACallable)
  | IdentityKey _ name => inl (if str_eqb name (u "master_public_key") then u "MSK" else u "SSK")
  | SelfSigningKeyPayload _ => inl (VDict [(u "signatures", sig "MSK" "s-sig")])
  | SignedDevicePayload _ _ => inl (VDict [(u "signatures", sig "SSK" "d-sig")])
  end.
End demo.

Definition demo_run (identity : attr) (result : pyval) (signs : bool) (password : option pystr) (reset : bool) :=
  _ensure_own_device_cross_signed password reset (demo_env identity result signs) (tt, []).
Definition counts (r : outcome_x (option pystr) * world client_op unit) : nat * nat :=
  (length (filter (λ ev, asked ev = true) r.2.2), length (filter (λ ev, uploaded ev = true) r.2.2)).

(** With the identity at hand the device is signed, and signed again when the server lost the signature. *)
Example signs_with_identity :
  (demo_run (AObject 1) (VStr DEVICE_SIGNED) true None false).1 = Returns (Some DEVICE_SIGNED)
  ∧ counts (demo_run (AObject 1) (VStr DEVICE_SIGNED) true None false) = (1, 0)%nat
  ∧ (demo_run (AObject 1) (VStr ALREADY_SIGNED) false None false).1 = Returns (Some ALREADY_SIGNED)
  ∧ counts (demo_run (AObject 1) (VStr ALREADY_SIGNED) false None false) = (1, 1)%nat.
Proof. by vm_compute. Qed.

(** Without it the library is asked only for a reset with a password. *)
Example asks_only_for_reset :
  counts (demo_run (AVal VNone) (VStr DEVICE_SIGNED) true None false) = (0, 0)%nat
  ∧ counts (demo_run (AVal VNone) (VStr DEVICE_SIGNED) true (Some (u "pw")) false) = (0, 0)%nat
  ∧ counts (demo_run (AVal VNone) (VStr DEVICE_SIGNED) true (Some []) true) = (0, 0)%nat
  ∧ counts (demo_run (AVal VNone) (VStr UPLOADED_AND_SIGNED) true (Some (u "pw")) true) = (1, 0)%nat.
Proof. by vm_compute. Qed.

Lemma reported_signature_was_verified_witness :
  ∃ l1 l0, (demo_run (AObject 1) (VStr DEVICE_SIGNED) true None false).2.2
             = l1 ++ Event (EnsureCrossSigning None) (inl (VStr DEVICE_SIGNED)) :: l0
           ∧ reported DEVICE_SIGNED l1.
Proof. apply reported_signature_was_verified. by vm_compute. Defined.

(** ** What modelling showed

    A result that cannot be hashed - a list, say - is not reported as unexpected: the membership
    test itself raises a TypeError, which leaves the module and stops the start-up it must not stop. *)
Lemma unhashable_result_escapes :
  (demo_run (AObject 1) (VSeq KList [VStr DEVICE_SIGNED]) true None false).1 = Raises XType.
Proof. by vm_compute. Qed.
