(* ===== verification/MatrixSession.v ===== *)
(** * The session with the Matrix server

    Models [matrix/auth.py] and the first half of [matrix/sync_bootstrap.py]: encryption is set up, the
    stored login is restored and completed, keys are uploaded, and the first sync is retried until it
    succeeds, in a mode that leaves invites out when the server sends invalid ones.

    The coroutines are programs of the monad of [Interact]: the client library, files and the clock
    are behind the calls [session_op], whose answers the environment chooses, errors and cancellation
    included.  Log lines are left out.  The globals of the facade, the attribute of the library that
    is replaced for one sync, and the mapping of rooms are the state. *)

From Stdlib Require Import String QArith Lqa.
From stdpp Require Import base tactics list numbers gmap sets.
From S2P Require Import Prelude PyStr PyValue RoomMapping PyLib PurePath Paths Interact ConfigEnv E2eeStatus.
Open Scope Z_scope.
Open Scope prog_scope.

(** ** Calls *)

(** What the answers hold; None stands for an attribute that is missing or None. *)
Record whoami := { who_user : option pystr; who_device : option pystr }.
Record login_answer := { la_user : option pystr; la_token : option pystr; la_device : option pystr }.
Inductive sync_answer := Synced | SyncErrorAnswer.
Inductive question := AskHomeserver | AskUsername | AskPassword | AskLogout.
Inductive client_attribute := AttrToken | AttrUser | AttrDevice | AttrSyncFilters | AttrE2ee.

(** A configuration: a dictionary, whose entry [matrix_rooms] is the object [cf_rooms].  That object is
    changed in place, so it lives in the heap of the session; of the entry in [cf_value] only the type
    counts. *)
Record configuration := { cf_value : pyval; cf_rooms : nat }.

(** The globals of the facade that a connection publishes; [facade_rooms] is [matrix_rooms]. *)
Record shared := {
  matrix_client : option nat; facade_config : option configuration;
  matrix_homeserver : option pystr; matrix_access_token : option pystr; bot_user_id : option pystr;
  facade_rooms : option nat }.
Abbreviation rooms_heap := (gmap nat rooms).

(** A client is the number that [NewClient] answers.  [StartupLock] answers with the globals and
    the objects of rooms as the coroutine before left them; [CreateStore], [InspectStore], [ResolveSavePath], [LoadCredentials],
    [SaveCredentials], [LoadJson] are functions run in a thread; [EnsureCrossSigned] is the program of
    CrossSigning; [DisplayRooms] stands for the summary of the rooms that is logged. *)
Inductive session_op : Type → Type :=
  | NewClient (homeserver user : pystr) (device_id store_path : option pystr) (e2ee : bool) : session_op nat
  | CloseClient (c : nat) : session_op unit
  | SetAttribute (c : nat) (a : client_attribute) (text : option pystr) : session_op unit
  | ClientUserId (c : nat) : session_op (option pystr)
  | RestoreLogin (c : nat) (user_id device_id access_token : pystr) : session_op unit
  | Login (c : nat) (password device_name : pystr) : session_op login_answer
  | Whoami (c : nat) : session_op whoami
  | ShouldUploadKeys (c : nat) : session_op bool
  | KeysUpload (c : nat) : session_op unit
  | EnsureCrossSigned (c : nat) (password : option pystr) (reset : bool) : session_op (option pystr)
  | DiscoveryInfo (c : nat) : session_op (option pystr)
  | Sync (c : nat) (full_state invite_safe : bool) : session_op sync_answer
  | ResolveAlias (c : nat) (alias : pystr) : session_op (option pystr)
  | RoomsEncrypted (c : nat) : session_op (list (pystr * bool))
  | GetDisplayname (c : nat) (user : pystr) : session_op (option pystr)
  | JoinRoom (c : nat) (room : pystr) : session_op (option pystr)
  | Sleep (seconds : Q) : session_op unit
  | StartupLock : session_op (option (shared * rooms_heap))
  | PatchLock : session_op unit
  | ImportResponses : session_op unit
  | CreateSslContext : session_op bool
  | RefreshStartTime : session_op unit
  | DisplayRooms (c : nat) : session_op unit
  | EncryptionAvailable : session_op bool
  | StoreDir : session_op pystr
  | CreateStore (path : pystr) : session_op unit
  | InspectStore (path : pystr) : session_op unit
  | E2eeStatusOf (config : pydict) : session_op overall
  | LoadConfig : session_op pydict
  | ResolveSavePath (config : option pydict) : session_op (option pystr)
  | LoadCredentials (config : option pydict) (config_path : option pystr) : session_op (option pydict)
  | SaveCredentials (credentials : pydict) (path : option pystr) : session_op unit
  | PathExists (path : pystr) : session_op bool
  | LoadJson (path : pystr) : session_op (option pyval)
  | Ask (q : question) : session_op pystr.

(** What [SyncResponse._get_invite_state] is in the class: the method of the library or the wrapper;
    None: the class has no such entry of its own. *)
Inductive descriptor := LibraryMethod | SafeWrapper.
Record session := {
  globals : shared; bot_user_name : option pystr; room_maps : rooms_heap; invite_state : option descriptor }.

Abbreviation sprog := (prog session_op session).
Abbreviation sevent := (event session_op).

Definition set_globals (g : shared) (s : session) : session :=
  {| globals := g; bot_user_name := bot_user_name s; room_maps := room_maps s; invite_state := invite_state s |}.
Definition set_name (n : pystr) (s : session) : session :=
  {| globals := globals s; bot_user_name := Some n; room_maps := room_maps s; invite_state := invite_state s |}.
Definition set_heap (h : rooms_heap) (s : session) : session :=
  {| globals := globals s; bot_user_name := bot_user_name s; room_maps := h; invite_state := invite_state s |}.
Definition no_rooms : rooms := {| rm_kind := RoomsList; rm_entries := []; rm_heap := ∅ |}.
Definition rooms_at (s : session) (loc : nat) : rooms := default no_rooms (room_maps s !! loc).
Definition set_rooms (loc : nat) (r : rooms) (s : session) : session := set_heap (<[loc := r]> (room_maps s)) s.
Definition set_invite_state (d : option descriptor) (s : session) : session :=
  {| globals := globals s; bot_user_name := bot_user_name s; room_maps := room_maps s; invite_state := d |}.

Definition one_of (l : list xn) (e : xn) : bool := bool_decide (e ∈ l).
(** [try: ... ; except ...: pass] *)
Definition ignoring {A} (p : xn → bool) (m : sprog A) : sprog (option A) :=
  try_except p (a <- m ;; ret (Some a)) (λ _, ret None).
(** A text that is there and not empty. *)
Definition nonempty_option (o : option pystr) : option pystr :=
  match o with Some s => if nonempty s then Some s else None | None => None end.

(** ** Encryption *)

Definition store_override (matrix_section : pyval) : option pystr :=
  match matrix_section with
  | VDict m =>
      let path_of section := match dget_none m section with VDict d => dget_none d (u "store_path") | _ => VNone end in
      let chosen := if truthy (path_of (u "e2ee")) then path_of (u "e2ee") else path_of (u "encryption") in
      match chosen with VStr s => nonempty_option (Some s) | _ => None end
  | _ => None
  end.

(** [expanduser]: [os.path.expanduser]. *)
(** KeyError and TypeError end the set-up with what it has so far. *)
Definition set_up_errors (e : xn) : bool := is_type_error e || one_of [XKey] e.
(** A file operation: OSError, which is handled on the spot, is told apart from these. *)
Inductive attempt := Done | IoFailed | SetUpFailed.
Definition attempted (m : sprog unit) : sprog attempt :=
  try_except (λ e, is_os_error e || set_up_errors e) (m ;; ret Done)
    (λ e, ret (if is_os_error e then IoFailed else SetUpFailed)).

Definition set_up_store (expanduser : pystr → pystr) (matrix_section : pyval) : sprog (bool * option pystr) :=
  found <- match store_override matrix_section with
           | Some s => ret (Some (expanduser s))
           | None => ignoring set_up_errors (call StoreDir)
           end ;;
  match found with
  | None => ret (true, None)
  | Some path =>
      made <- attempted (call (CreateStore path)) ;;
      match made with
      | IoFailed => ret (false, None)
      | SetUpFailed => ret (true, Some path)
      | Done =>
          if nonempty path then
            seen <- attempted (call (InspectStore path)) ;;
            ret (match seen with IoFailed => (false, None) | _ => (true, Some path) end)
          else ret (true, Some path)
      end
  end.

Definition _configure_e2ee (windows : bool) (expanduser : pystr → pystr) (config_data : pydict)
    (matrix_section : pyval) : sprog (bool * option pystr) :=
  if negb (is_e2ee_enabled windows config_data) then ret (false, None)
  else
    available <- ignoring set_up_errors (call EncryptionAvailable) ;;
    match available with
    | None => ret (true, None)
    | Some false => ret (false, None)
    | Some true => set_up_store expanduser matrix_section
    end.

Definition _maybe_upload_e2ee_keys (c : nat) : sprog unit :=
  try_except NIO_COMM_EXCEPTIONS
    (wanted <- call (ShouldUploadKeys c) ;; when wanted (call (KeysUpload c)))
    (λ _, ret tt).

Definition _close_matrix_client_after_failure (c : nat) : sprog unit :=
  try_finally
    (try_except NIO_COMM_EXCEPTIONS (call (CloseClient c)) (λ _, ret tt))
    (modify (λ s, if bool_decide (matrix_client (globals s) = Some c)
                  then set_globals {| matrix_client := None; facade_config := facade_config (globals s);
                                      matrix_homeserver := matrix_homeserver (globals s);
                                      matrix_access_token := matrix_access_token (globals s);
                                      bot_user_id := bot_user_id (globals s);
                                      facade_rooms := facade_rooms (globals s) |} s
                  else s)).

Definition _initialize_matrix_client (homeserver user_id : pystr) (device_id : option pystr)
    (e2ee_enabled : bool) (e2ee_store_path : option pystr) : sprog nat :=
  call (NewClient homeserver user_id (nonempty_option device_id)
          (if e2ee_enabled then e2ee_store_path else None) e2ee_enabled).

(** ** Login with stored credentials *)

(** [MatrixAuthInfo] *)
Record auth_info := {
  ai_homeserver : pystr; ai_access_token : pystr; ai_user_id : pystr; ai_device_id : option pystr;
  ai_credentials : option pydict; ai_credentials_path : option pystr }.
Definition with_user (a : auth_info) (user : pystr) : auth_info :=
  {| ai_homeserver := ai_homeserver a; ai_access_token := ai_access_token a; ai_user_id := user;
     ai_device_id := ai_device_id a; ai_credentials := ai_credentials a;
     ai_credentials_path := ai_credentials_path a |}.

(** What [whoami] tells: a user id and a device id that differ from the known ones. *)
Definition discovered (known : option pystr) (answer : option pystr) : option pystr :=
  match nonempty_option answer with
  | Some s => if bool_decide (known = Some s) then None else Some s
  | None => None
  end.
Definition update_entry (key : pystr) (found : option pystr) (credentials : pydict) : pydict :=
  match found with Some s => dset credentials key (VStr s) | None => credentials end.

(** [save_credentials] and the second attempt to restore the session. *)
Definition persist_discovered (c : nat) (a : auth_info) (credentials : pydict) (user device : option pystr)
    : sprog unit :=
  ignoring is_os_error (call (SaveCredentials credentials (ai_credentials_path a))) ;;
  match nonempty_option user, nonempty_option device with
  | Some user, Some device => call (RestoreLogin c user device (ai_access_token a))
  | _, _ => ret tt
  end.

(** What is done with the answer of the server.  The changes made before an error stay. *)
Definition record_answer (c : nat) (a : auth_info) (credentials : pydict) (w : whoami) : sprog auth_info :=
  let user := discovered (Some (ai_user_id a)) (who_user w) in
  let device := discovered (ai_device_id a) (who_device w) in
  ignoring WHOAMI_USER_ID_FALLBACK_EXCEPTIONS
    (match device with Some s => call (SetAttribute c AttrDevice (Some s)) | None => ret tt end ;;
     match user, device with
     | None, None => ret tt
     | _, _ =>
         persist_discovered c a
           (update_entry (u "device_id") device (update_entry (u "user_id") user credentials))
           (Some (default (ai_user_id a) user))
           (match device with Some s => Some s | None => ai_device_id a end)
     end) ;;
  ret (match user with Some s => with_user a s | None => a end).

(** The credentials have no user or no device: the server is asked. *)
Definition complete_credentials (c : nat) (a : auth_info) (credentials : pydict) : sprog auth_info :=
  call (SetAttribute c AttrToken (Some (ai_access_token a))) ;;
  call (SetAttribute c AttrUser (Some (ai_user_id a))) ;;
  answer <- ignoring WHOAMI_USER_ID_FALLBACK_EXCEPTIONS
              (w <- call (Whoami c) ;;
               match discovered (Some (ai_user_id a)) (who_user w) with
               | Some s => call (SetAttribute c AttrUser (Some s)) ;; ret w
               | None => ret w
               end) ;;
  match answer with
  | None => ret a
  | Some w => record_answer c a credentials w
  end.

Definition _perform_matrix_login (c : nat) (a : auth_info) : sprog auth_info :=
  match ai_credentials a with
  | Some ((_ :: _) as credentials) =>
      match nonempty_option (ai_device_id a), nonempty_option (Some (ai_user_id a)) with
      | Some device, Some user => call (RestoreLogin c user device (ai_access_token a)) ;; ret a
      | _, _ => complete_credentials c a credentials
      end
  | _ =>
      call (SetAttribute c AttrToken (Some (ai_access_token a))) ;;
      if nonempty (ai_user_id a) then call (SetAttribute c AttrUser (Some (ai_user_id a))) ;; ret a
      else
        answer <- ignoring NIO_COMM_EXCEPTIONS (call (Whoami c)) ;;
        match nonempty_option (w ← answer; who_user w) with
        | Some user => call (SetAttribute c AttrUser (Some user)) ;; ret (with_user a user)
        | None => ret a
        end
  end.

(** ** The first sync *)

Definition MATRIX_INITIAL_SYNC_MAX_ATTEMPTS : Z := 0.
Definition MATRIX_SYNC_RETRY_DELAY_SECS : Q := 5.
Definition MATRIX_INITIAL_SYNC_RETRY_MAX_DELAY_SECS : Q := 60.
Definition E2EE_KEY_SHARING_DELAY_SECONDS : Q := 5.

(** The wrapper that the library gets for one sync: [parsed] is the events of the payload, if it is an
    object that has any; [original] is the method of the library, if it is there, which may find the
    events invalid. *)
Definition _safe_get_invite_state {E P : Type} (original : option (P → option (list E))) (parsed : option P) : list E :=
  match parsed, original with
  | Some p, Some f => default [] (f p)
  | _, _ => []
  end.

(** A sync with the wrapper in place; the class is put back as it was. *)
Definition _sync_ignore_invalid_invites (c : nat) : sprog sync_answer :=
  call ImportResponses ;;
  original_descriptor <- gets invite_state ;;
  call PatchLock ;;
  try_finally
    (modify (set_invite_state (Some SafeWrapper)) ;; call (Sync c false true))
    (modify (set_invite_state original_descriptor)).

(** [client.mmrelay_sync_filter] and [client.mmrelay_first_sync_filter] *)
Definition disable_invites (c : nat) (m : sprog sync_answer) : sprog sync_answer :=
  r <- m ;; call (SetAttribute c AttrSyncFilters None) ;; ret r.

(** The retry after invalid data. *)
Definition retry_ignoring_invites (c : nat) : sprog (option sync_answer) :=
  ignoring (λ e, SYNC_RETRY_EXCEPTIONS e || one_of [XImport; XAttribute] e)
    (disable_invites c (_sync_ignore_invalid_invites c)).
Definition retry_without_invites (c : nat) : sprog sync_answer :=
  answer <- try_except SYNC_RETRY_EXCEPTIONS
              (r <- disable_invites c (call (Sync c false true)) ;; ret (Some r))
              (λ e, if one_of [XSchema] e then retry_ignoring_invites c else ret None) ;;
  of_option XSyncFailed answer.

(** How one attempt ends. *)
Inductive first_sync := FirstSynced (r : sync_answer) | FirstTimedOut | FirstInvalid.
Definition try_first_sync (c : nat) : sprog first_sync :=
  try_except SYNC_RETRY_EXCEPTIONS
    (r <- call (Sync c true false) ;; ret (FirstSynced r))
    (λ e, if one_of [XTimeout] e then ret FirstTimedOut
          else if one_of [XSchema] e then ret FirstInvalid
          else raise XSyncFailed).

Fixpoint sync_attempts (fuel : nat) (c : nat) (max_sync_attempts sync_attempt : Z) (retry_delay : Q)
    : sprog sync_answer :=
  match fuel with
  | O => running
  | S fuel =>
      r <- try_first_sync c ;;
      match r with
      | FirstSynced r => ret r
      | FirstInvalid => retry_without_invites c
      | FirstTimedOut =>
          if (0 <? max_sync_attempts) && (max_sync_attempts <=? sync_attempt) then raise XSyncTimeout
          else
            call (Sleep retry_delay) ;;
            sync_attempts fuel c max_sync_attempts (sync_attempt + 1)
              (qmin (retry_delay * 2) MATRIX_INITIAL_SYNC_RETRY_MAX_DELAY_SECS)
      end
  end.
Definition _perform_initial_sync (fuel : nat) (max_sync_attempts : Z) (c : nat) : sprog sync_answer :=
  sync_attempts fuel c max_sync_attempts 1 MATRIX_SYNC_RETRY_DELAY_SECS.

(** ** After the first sync *)

Definition alias_errors (e : xn) : bool :=
  NIO_COMM_EXCEPTIONS e || is_type_error e || is_value_error e || one_of [XAttribute] e || is_os_error e.
Definition _resolve_alias (c : nat) (alias : pystr) : sprog (option pystr) :=
  room_id <- ignoring alias_errors (call (ResolveAlias c alias)) ;;
  ret (nonempty_option (default None room_id)).

(** [_resolve_aliases_in_mapping] on the object [loc], with a resolver that asks the server, entry by
    entry. *)
Fixpoint resolve_aliases (c loc : nat) (positions : list (room_entry * setter)) : sprog unit :=
  match positions with
  | [] => ret tt
  | position :: positions =>
      alias <- gets (λ s, entry_alias (rm_heap (rooms_at s loc)) position.1) ;;
      match alias with
      | VStr a =>
          when (startswith a (u "#"))
            (resolved <- _resolve_alias c a ;;
             modify (λ s, set_rooms loc (resolve_entry_alias (λ _, resolved) (rooms_at s loc) position) s))
      | _ => ret tt
      end ;;
      resolve_aliases c loc positions
  end.

Definition fetch_display_name (c : nat) (bot_user_id : pystr) : sprog unit :=
  try_except NIO_COMM_EXCEPTIONS
    (displayname <- call (GetDisplayname c bot_user_id) ;;
     modify (set_name (default bot_user_id (nonempty_option displayname))))
    (λ _, modify (set_name bot_user_id)).

Definition _post_sync_setup (c : nat) (sync_response : sync_answer) (config_data : pydict)
    (matrix_rooms : nat) (bot_user_id : pystr) (e2ee_enabled : bool) : sprog unit :=
  match sync_response with
  | SyncErrorAnswer => raise XSyncFailedDetails
  | Synced =>
      call (E2eeStatusOf config_data) ;;
      positions <- gets (λ s, room_positions (rooms_at s matrix_rooms)) ;;
      resolve_aliases c matrix_rooms positions ;;
      call (DisplayRooms c) ;;
      call (RoomsEncrypted c) ;;
      when e2ee_enabled (call (Sleep E2EE_KEY_SHARING_DELAY_SECONDS)) ;;
      fetch_display_name c bot_user_id ;;
      call (SetAttribute c AttrE2ee None)
  end.

(** ** The first sync: properties *)

(** The pause after attempt [i + 1]. *)
Fixpoint backoff (i : nat) : Q :=
  match i with
  | O => MATRIX_SYNC_RETRY_DELAY_SECS
  | S i => qmin (backoff i * 2) MATRIX_INITIAL_SYNC_RETRY_MAX_DELAY_SECS
  end.

(** [n] attempts that timed out, each with its pause, the latest first. *)
Fixpoint timed_out (c : nat) (n : nat) : list sevent :=
  match n with
  | O => []
  | S n => Event (Sleep (backoff n)) (inl tt) :: Event (Sync c true false) (inr XTimeout) :: timed_out c n
  end.

Lemma timed_out_app c n k :
  timed_out c n ++ [Event (Sleep (backoff k)) (inl tt); Event (Sync c true false) (inr XTimeout)] ++ timed_out c k
  = timed_out c n ++ timed_out c (S k).
Proof. done. Qed.

Section first_sync_facts.
Implicit Types (l : list sevent) (s : session).

(** The last attempt: a sync that gives the answer, in one of the two modes. *)
Definition answered (c : nat) (r : sync_answer) (l : list sevent) : Prop :=
  ∃ full, Event (Sync c full (negb full)) (inl r) ∈ l.
Definition raised_in (x : xn) (l : list sevent) : Prop := ∃ X (o : session_op X), Event o (inr x) ∈ l.
(** No pause, and no sync with the full state. *)
Definition no_attempt (l : list sevent) : Prop :=
  Forall (λ ev : sevent, match ev with
                         | Event (Sleep _) _ => False
                         | Event (Sync _ full _) _ => full = false
                         | _ => True
                         end) l.

Lemma one_of_spec (xs : list xn) e : one_of xs e = true ↔ e ∈ xs.
Proof. apply bool_decide_eq_true. Qed.

Lemma ignoring_runs {A} (p : xn → bool) (m : sprog A) s (Φ : outcome_x (option A) → session → list sevent → Prop) :
  runs m s (λ o s' l, match o with
                      | Returns a => Φ (Returns (Some a)) s' l
                      | Raises x => if p x then Φ (Returns None) s' l else Φ (Raises x) s' l
                      | Running => Φ Running s' l
                      end) →
  runs (ignoring p m) s Φ.
Proof.
  intros H. apply runs_try, runs_bind. eapply runs_mono; [apply H |]. intros [a|x|] s' l Hl; cbn.
  - by apply runs_ret.
  - destruct (p x); [by apply runs_ret | done].
  - done.
Qed.

Lemma safe_sync_restores c s :
  runs (_sync_ignore_invalid_invites c) s (λ o s' l, s' = s ∧ no_attempt l ∧
    match o with Returns r => answered c r l | Raises x => raised_in x l | Running => False end).
Proof.
  unfold _sync_ignore_invalid_invites. destruct s as [g n m d]. runs_run.
  all: split_and!; try done; try (repeat constructor; done).
  all: try (by eexists _, _; in_trace). exists false. in_trace.
Qed.

Lemma disable_invites_runs c (m : sprog sync_answer) s :
  runs m s (λ o s' l, s' = s ∧ no_attempt l ∧
    match o with Returns r => answered c r l | Raises x => raised_in x l | Running => False end) →
  runs (disable_invites c m) s (λ o s' l, s' = s ∧ no_attempt l ∧
    match o with Returns r => answered c r l | Raises x => raised_in x l | Running => False end).
Proof.
  intros H. apply runs_bind. eapply runs_mono; [apply H |]. intros [r|x|] s' l (-> & Hl & Ho); [| done | done].
  cbn. runs_run; cbn [app]; (split_and!; [done | by constructor |]).
  - destruct Ho as [full Hin]. exists full. by right.
  - eexists _, _. by left.
Qed.

Lemma retry_without_invites_runs c s :
  runs (retry_without_invites c) s (λ o s' l, s' = s ∧ no_attempt l ∧
    match o with
    | Returns r => answered c r l
    | Raises x => x = XSyncFailed ∨ raised_in x l
    | Running => False
    end).
Proof.
  unfold retry_without_invites. apply runs_bind, runs_try, runs_bind.
  eapply runs_mono.
  { apply (disable_invites_runs c (call (Sync c false true)) s). runs_run; (split_and!; [done | by repeat constructor |]).
    - exists false. by left.
    - eexists _, _. by left. }
  intros [r|x|] s' l (-> & Hl & Ho); [| | done]; cbn.
  { runs_run; [| done]. simplify_eq. cbn [app]. by split_and!. }
  destruct (SYNC_RETRY_EXCEPTIONS x); [| split_and!; by auto].
  destruct (one_of [XSchema] x); [| runs_run; cbn [app]; first [done | split_and!; by auto]].
  apply ignoring_runs. eapply runs_mono; [apply (disable_invites_runs c), safe_sync_restores |].
  assert (∀ (l0 l' : list sevent), no_attempt l' → no_attempt l0 → no_attempt (l' ++ l0)) as Happ
    by (intros; by apply Forall_app).
  intros [r|y|] s' l' (-> & Hl' & Ho'); [| | done].
  - runs_run; try done. simplify_eq. cbn [app]. split_and!; [done | by apply Happ |].
    destruct Ho' as [full Hin]. exists full. apply elem_of_app. by left.
  - assert (raised_in y (l' ++ l)) as Hr.
    { destruct Ho' as (X & o & Hin). exists X, o. apply elem_of_app. by left. }
    destruct (_ || _).
    + runs_run; try done. cbn [app]. split_and!; [done | by apply Happ | by left].
    + cbn. split_and!; [done | by apply Happ | by right].
Qed.

(** How the first sync ends after [n] attempts that timed out and were followed by a pause, when the
    next full sync is answered by [r0]; [last] is what is called after that. *)
Definition attempt_ends (c : nat) (limit : Z) (n : nat) (r0 : sync_answer + xn) (o : outcome_x sync_answer)
    (last : list sevent) : Prop :=
  match r0 with
  | inl r => o = Returns r ∧ last = []
  | inr x =>
      if negb (SYNC_RETRY_EXCEPTIONS x) then o = Raises x ∧ last = []
      else if one_of [XTimeout] x then
        if (0 <? limit) && (limit <=? Z.of_nat n + 1) then o = Raises XSyncTimeout ∧ last = []
        else ∃ y, o = Raises y ∧ last = [Event (Sleep (backoff n)) (inr y)]
      else if one_of [XSchema] x then
        no_attempt last ∧ match o with
                          | Returns r => answered c r last
                          | Raises y => y = XSyncFailed ∨ raised_in y last
                          | Running => False
                          end
      else o = Raises XSyncFailed ∧ last = []
  end.

(** What the attempts may come to, after [k] that timed out. *)
Definition sync_result (c : nat) (limit : Z) (k : nat) (fuel : nat) (o : outcome_x sync_answer) (l : list sevent) : Prop :=
  ∃ n, (k ≤ n)%nat ∧ (0 < limit → Z.of_nat n < limit)
    ∧ (o = Running ∧ n = (k + fuel)%nat ∧ l ++ timed_out c k = timed_out c n
       ∨ ∃ r0 last, attempt_ends c limit n r0 o last
           ∧ l ++ timed_out c k = last ++ Event (Sync c true false) r0 :: timed_out c n).

(** The attempt after [k] ends it all. *)
Lemma sync_result_now c limit k fuel o r0 last : (0 < limit → Z.of_nat k < limit) →
  attempt_ends c limit k r0 o last → sync_result c limit k fuel o (last ++ [Event (Sync c true false) r0]).
Proof.
  intros Hk H. exists k. split_and!; [done | done |]. right. exists r0, last. split; [done |]. by rewrite <- app_assoc.
Qed.

Lemma sync_attempts_runs fuel c limit k s :
  (0 < limit → Z.of_nat k < limit) →
  runs (sync_attempts fuel c limit (Z.of_nat k + 1) (backoff k)) s (λ o s' l, s' = s ∧ sync_result c limit k fuel o l).
Proof.
  revert k. induction fuel as [|fuel IH]; intros k Hk; cbn [sync_attempts].
  { apply runs_running. split; [done |]. exists k. split_and!; [done | lia | left]. split_and!; [done | lia | done]. }
  assert (∀ x, one_of [XTimeout] x = true → x = XTimeout) as Htimeout.
  { intros x Hx. apply one_of_spec in Hx. by rewrite list_elem_of_singleton in Hx. }
  unfold try_first_sync. runs_run; cbn [app].
  - (* answered *)
    split; [done |]. by apply (sync_result_now c limit k (S fuel) _ (inl s0) []).
  - (* timed out for the last time *)
    split; [done |]. apply (sync_result_now c limit k (S fuel) _ (inr x) []); [done |].
    unfold attempt_ends. by rewrite Heqb, Heqb0, Heqb1.
  - (* timed out *)
    apply Htimeout in Heqb0 as ->.
    destruct u. change (qmin (backoff k * 2) MATRIX_INITIAL_SYNC_RETRY_MAX_DELAY_SECS) with (backoff (S k)).
    replace (Z.of_nat k + 1 + 1) with (Z.of_nat (S k) + 1) by lia.
    eapply runs_mono; [apply IH; intros; apply andb_false_iff in Heqb1 as [?%Z.ltb_ge|?%Z.leb_gt]; lia |].
    intros o s' l (-> & n & Hn & Hlim & Ho). split; [done |]. exists n. split_and!; [lia | done |].
    rewrite <- !app_assoc.
    destruct Ho as [(Ho & -> & Hl) | Ho]; [left; split_and!; [done | lia | exact Hl] | right; exact Ho].
  - (* the pause is broken off *)
    split; [done |]. apply (sync_result_now c limit k (S fuel) _ (inr x) [Event (Sleep (backoff k)) (inr x0)]); [done |].
    unfold attempt_ends. rewrite Heqb, Heqb0, Heqb1. by exists x0.
  - (* invalid data *)
    eapply runs_mono; [apply retry_without_invites_runs |].
    intros o s' l (-> & Hl & Ho). split; [done |].
    apply (sync_result_now c limit k (S fuel) _ (inr x)); [done |].
    unfold attempt_ends. rewrite Heqb, Heqb0, Heqb1. split; [done |]. by destruct o.
  - split; [done |]. apply (sync_result_now c limit k (S fuel) _ (inr x) []); [done |].
    unfold attempt_ends. by rewrite Heqb, Heqb0, Heqb1.
  - split; [done |]. apply (sync_result_now c limit k (S fuel) _ (inr x) []); [done |].
    unfold attempt_ends. by rewrite Heqb.
Qed.
End first_sync_facts.

Lemma backoff_exact i : (backoff i == qmin (5 * inject_Z (2 ^ Z.of_nat i)) 60)%Q.
Proof.
  assert (∀ a b : Q, (a == b)%Q → ∀ x : Q, (qmin a x == qmin b x)%Q) as Hmin.
  { intros a b Hab x. unfold qmin, qle. destruct (Qle_bool a x) eqn:E1, (Qle_bool b x) eqn:E2; try done.
    - apply Qle_bool_iff in E1. assert (b <= x)%Q as H by (by rewrite <- Hab). apply Qle_bool_iff in H. congruence.
    - apply Qle_bool_iff in E2. assert (a <= x)%Q as H by (by rewrite Hab). apply Qle_bool_iff in H. congruence. }
  induction i as [|i IH]; [by vm_compute |].
  cbn [backoff]. unfold MATRIX_INITIAL_SYNC_RETRY_MAX_DELAY_SECS.
  rewrite (Hmin _ (qmin (5 * inject_Z (2 ^ Z.of_nat i)) 60 * 2)%Q) by (by rewrite IH).
  rewrite Nat2Z.inj_succ, Z.pow_succ_r by lia. rewrite inject_Z_mult. change (inject_Z 2) with (2%Q).
  set (p := inject_Z (2 ^ Z.of_nat i)). unfold qmin at 2. destruct (qle (5 * p) 60) eqn:E.
  - apply Hmin. ring.
  - apply qle_false in E. unfold qmin. destruct (qle (60 * 2) 60) eqn:E2; [by vm_compute in E2 |].
    destruct (qle (5 * (2 * p)) 60) eqn:E3; [| done]. apply qle_spec in E3. exfalso. lra.
Qed.

(** C27: The first sync does no harm and gives up in time: it leaves the globals and the class of the
    library as they were, however it ends; a full sync that times out is repeated after a pause that
    doubles from five seconds up to a minute, and after nothing else; a limit on the attempts is kept,
    and makes it end.  The answer to the last full sync decides how it ends ([attempt_ends]): an answer
    is returned; a time-out ends it only with the limit used up, with the error for a time-out (or when
    the pause is broken off); after invalid data the answer of a sync without invites is returned,
    or the error for a failed sync or one that a call raised is raised, with no pause and no full sync
    any more; other errors of the connection become the error for a failed sync, and all others are
    let through. *)
Theorem first_sync_backs_off fuel limit c s :
  runs (_perform_initial_sync fuel limit c) s (λ o s' l,
    s' = s ∧ (0 < limit → limit ≤ Z.of_nat fuel → o ≠ Running)
    ∧ (∀ i, (backoff i == qmin (5 * inject_Z (2 ^ Z.of_nat i)) 60)%Q)
    ∧ ∃ n, (0 < limit → Z.of_nat n < limit)
      ∧ (o = Running ∧ n = fuel ∧ l = timed_out c n
         ∨ ∃ r0 last, attempt_ends c limit n r0 o last
             ∧ l = last ++ Event (Sync c true false) r0 :: timed_out c n)).
Proof.
  unfold _perform_initial_sync. change 1 with (Z.of_nat 0 + 1). change MATRIX_SYNC_RETRY_DELAY_SECS with (backoff 0).
  eapply runs_mono; [apply sync_attempts_runs; lia |].
  intros o s' l (-> & n & Hn & Hlim & Ho). cbn [timed_out] in Ho. rewrite app_nil_r in Ho.
  split; [done |]. split; [| split; [apply backoff_exact | exists n; by split]].
  intros H1 H2 ->. destruct Ho as [(_ & -> & _) | (r0 & last & Ho & _)]; [lia |].
  unfold attempt_ends in Ho. repeat case_match; naive_solver.
Qed.

(** Without a limit the first sync outlasts every outage: if the server lets the first [n] attempts
    time out, however many, and then answers, the answer is returned. *)
Theorem first_sync_outlasts_outage n c r s (e : env session_op) :
  (∀ h, e _ h (Sync c true false) = if (length h <? 2 * n)%nat then inr XTimeout else inl r) →
  (∀ h d, e _ h (Sleep d) = inl tt) →
  ∀ fuel, (n < fuel)%nat →
  (_perform_initial_sync fuel MATRIX_INITIAL_SYNC_MAX_ATTEMPTS c e (s, [])).1 = Returns r.
Proof.
  intros Hsync Hsleep fuel Hfuel. unfold _perform_initial_sync.
  assert (∀ k h d a fuel, length h = (2 * k)%nat → (k ≤ n)%nat → (n - k < fuel)%nat →
            (sync_attempts fuel c MATRIX_INITIAL_SYNC_MAX_ATTEMPTS a d e (s, h)).1 = Returns r) as H.
  { clear fuel Hfuel. intros k h d a fuel. revert k h d a.
    induction fuel as [|fuel IH]; intros k h d a Hh Hk Hf; [lia |]. cbn [sync_attempts].
    unfold try_first_sync, bind at 1, try_except, bind at 1, call at 1. cbn [fst snd].
    rewrite Hsync, Hh. destruct (Nat.ltb_spec (2 * k) (2 * n)) as [Hlt|Hge]; cbn; [| done].
    assert (one_of [XTimeout] XTimeout = true) as -> by (by vm_compute).
    unfold bind, call, ret. cbn [fst snd]. rewrite Hsleep. cbn. apply (IH (S k)); [cbn; lia | lia | lia]. }
  apply (H 0%nat); [done | lia | lia].
Qed.

(** ** Restoring a login: properties *)

Section login_facts.
Implicit Types (l : list sevent) (s : session).

(** The credentials completed by the answer of the server: nothing but the two ids changes. *)
Definition completed (c0 : pydict) (w : whoami) (credentials : pydict) : Prop :=
  (∀ key, key ≠ u "user_id" → key ≠ u "device_id" → dget credentials key = dget c0 key)
  ∧ (dget credentials (u "user_id") = dget c0 (u "user_id")
     ∨ ∃ x, who_user w = Some x ∧ dget credentials (u "user_id") = Some (VStr x))
  ∧ (dget credentials (u "device_id") = dget c0 (u "device_id")
     ∨ ∃ x, who_device w = Some x ∧ dget credentials (u "device_id") = Some (VStr x)).

(** The calls that a login with stored data may make; [w] is what the server told about the login. *)
Definition login_call (c : nat) (a : auth_info) (w : option whoami) (ev : sevent) : Prop :=
  match ev with
  | Event (SaveCredentials credentials path) _ =>
      path = ai_credentials_path a
      ∧ ∃ c0 w', ai_credentials a = Some c0 ∧ w = Some w' ∧ completed c0 w' credentials
  | Event (RestoreLogin c' user device token) _ =>
      c' = c ∧ token = ai_access_token a
      ∧ (user = ai_user_id a ∨ ∃ w', w = Some w' ∧ who_user w' = Some user)
      ∧ (ai_device_id a = Some device ∨ ∃ w', w = Some w' ∧ who_device w' = Some device)
  | Event (SetAttribute c' AttrToken token) _ => c' = c ∧ token = Some (ai_access_token a)
  | Event (SetAttribute c' AttrUser user) _ =>
      c' = c ∧ (user = Some (ai_user_id a) ∨ ∃ w', w = Some w' ∧ who_user w' = user)
  | Event (SetAttribute c' AttrDevice device) _ => c' = c ∧ ∃ w', w = Some w' ∧ who_device w' = device
  | Event (Whoami c') r => c' = c ∧ (∀ w', r = inl w' → w = Some w')
  | _ => False
  end.

Lemma discovered_spec known answer x : discovered known answer = Some x → answer = Some x ∧ x ≠ [].
Proof.
  unfold discovered, nonempty_option. destruct answer as [y|]; [| done].
  destruct (nonempty y) eqn:E; [| done]. case_bool_decide; [done |]. intros [= <-].
  split; [done | by apply nonempty_spec].
Qed.

Lemma nonempty_option_spec o x : nonempty_option o = Some x → o = Some x ∧ x ≠ [].
Proof.
  unfold nonempty_option. destruct o as [y|]; [| done]. destruct (nonempty y) eqn:E; [| done].
  intros [= <-]. split; [done | by apply nonempty_spec].
Qed.

Lemma update_completed c0 known_user known_device w :
  completed c0 w (update_entry (u "device_id") (discovered known_device (who_device w))
                    (update_entry (u "user_id") (discovered known_user (who_user w)) c0)).
Proof.
  assert (∀ found k key d, key ≠ k → dget (update_entry k found d) key = dget d key) as Hne.
  { intros [x|] k key d Hk; [| done]. cbn [update_entry]. apply dget_dset_ne. congruence. }
  assert (u "user_id" ≠ u "device_id") as Hud by by_decide.
  split_and!.
  - intros key H1 H2. by rewrite !Hne.
  - rewrite Hne by done. destruct (discovered known_user (who_user w)) as [x|] eqn:E; [| by left].
    apply discovered_spec in E as [E _]. right. exists x. split; [done |]. apply dget_dset_eq.
  - destruct (discovered known_device (who_device w)) as [x|] eqn:E; cbn [update_entry].
    + apply discovered_spec in E as [E _]. right. exists x. split; [done |]. apply dget_dset_eq.
    + left. by apply Hne.
Qed.

Definition login_result (c : nat) (a : auth_info) (w : option whoami) (o : outcome_x auth_info) (l : list sevent) : Prop :=
  Forall (login_call c a w) l
  ∧ match o with
    | Returns a' => a' = a ∨ ∃ w' x, w = Some w' ∧ who_user w' = Some x ∧ x ≠ [] ∧ a' = with_user a x
    | Raises _ => True
    | Running => False
    end.

Lemma persist_runs c a credentials user device s w :
  (∀ c0, ai_credentials a = Some c0 → completed c0 w credentials) → is_Some (ai_credentials a) →
  (∀ x, user = Some x → x = ai_user_id a ∨ who_user w = Some x) →
  (∀ x, device = Some x → ai_device_id a = Some x ∨ who_device w = Some x) →
  runs (persist_discovered c a credentials user device) s (λ o s' l, s' = s ∧ Forall (login_call c a (Some w)) l
    ∧ o ≠ Running).
Proof.
  intros Hc [c0 H0] Hu Hd. unfold persist_discovered.
  assert (∀ r, login_call c a (Some w) (Event (SaveCredentials credentials (ai_credentials_path a)) r)) as Hsave.
  { intros r. split; [done |]. exists c0, w. split_and!; auto. }
  assert (runs (match nonempty_option user, nonempty_option device with
                | Some user, Some device => call (RestoreLogin c user device (ai_access_token a))
                | _, _ => ret tt
                end) s (λ o s' l, s' = s ∧ Forall (login_call c a (Some w)) l ∧ o ≠ Running)) as Hrest.
  { runs_run; split_and!; try done; try by constructor.
    all: repeat match goal with H : nonempty_option _ = Some _ |- _ => apply nonempty_option_spec in H as [H _] end.
    all: apply Forall_singleton; cbn; destruct (Hu _ Heqo), (Hd _ Heqo0); split_and!; eauto. }
  apply runs_bind, ignoring_runs, runs_call. intros [[]|x]; cbn [of_answer then_runs].
  - eapply runs_mono; [exact Hrest |]. intros o s' l (-> & Hl & Ho).
    split_and!; [done | apply Forall_app; split; [done | by constructor] | done].
  - destruct (is_os_error x); [| split_and!; [done | by constructor | done]].
    eapply runs_mono; [exact Hrest |]. intros o s' l (-> & Hl & Ho).
    split_and!; [done | apply Forall_app; split; [done | by constructor] | done].
Qed.

Ltac login_calls := rewrite ?Forall_app, ?Forall_cons; cbn [login_call]; split_and?; try apply Forall_nil_2; naive_solver.
Ltac login_ends w := split; [done |]; exists w; split; [login_calls | naive_solver].

Lemma record_answer_runs c a c0 w s : ai_credentials a = Some c0 →
  runs (record_answer c a c0 w) s (λ o s' l, s' = s ∧ login_result c a (Some w) o l).
Proof.
  intros Hcred. unfold record_answer.
  pose proof (update_completed c0 (Some (ai_user_id a)) (ai_device_id a) w) as Hcomp.
  pose proof (discovered_spec (Some (ai_user_id a)) (who_user w)) as Huser.
  pose proof (discovered_spec (ai_device_id a) (who_device w)) as Hdevice.
  cbn zeta. set (user := discovered (Some (ai_user_id a)) (who_user w)) in *.
  set (device := discovered (ai_device_id a) (who_device w)) in *.
  set (p := persist_discovered _ _ _ _ _).
  assert (runs p s (λ o s' l, s' = s ∧ Forall (login_call c a (Some w)) l ∧ o ≠ Running)) as Hp.
  { apply persist_runs.
    - intros c1 Hc1. rewrite Hcred in Hc1. by injection Hc1 as <-.
    - by rewrite Hcred.
    - intros x [= <-]. destruct user as [y|]; [right; by apply Huser | by left].
    - intros x Hx. destruct device as [y|]; [right; injection Hx as <-; by apply Hdevice | by left]. }
  apply runs_bind, ignoring_runs, runs_bind. clearbody p user device.
  assert (runs match device with Some x => call (SetAttribute c AttrDevice (Some x)) | None => ret tt end s
            (λ o s' l, s' = s ∧ Forall (login_call c a (Some w)) l ∧ o ≠ Running)) as Hset.
  { destruct device as [x|]; runs_run; (split_and!; [done | | done]); [| | by constructor].
    all: apply Forall_singleton; cbn; split; [done |]; exists w; split; [done |]; by apply Hdevice. }
  assert (∀ l, Forall (login_call c a (Some w)) l →
    runs (ret (match user with Some x => with_user a x | None => a end)) s
      (λ o s' l', s' = s ∧ login_result c a (Some w) o (l' ++ l))) as Hret.
  { intros l Hl. apply runs_ret. split; [done |]. split; [done |].
    destruct user as [y|]; [right | by left]. destruct (Huser y eq_refl). by exists w, y. }
  eapply runs_mono; [exact Hset |]. intros [[]|x|] s' l (-> & Hl & Ho); cbn [then_runs]; [| | done].
  2: { destruct (WHOAMI_USER_ID_FALLBACK_EXCEPTIONS x); [by apply Hret | by split]. }
  assert (runs (match user, device with None, None => ret tt | _, _ => p end) s
            (λ o s' l, s' = s ∧ Forall (login_call c a (Some w)) l ∧ o ≠ Running)) as Hm
    by (destruct user, device; [exact Hp.. | by apply runs_ret]).
  eapply runs_mono; [exact Hm |]. intros [[]|x|] s' l' (-> & Hl' & Ho'); [| | done].
  - apply Hret. by apply Forall_app.
  - destruct (WHOAMI_USER_ID_FALLBACK_EXCEPTIONS x); [apply Hret | split; [done |]; split; [| done]]; by apply Forall_app.
Qed.

Lemma complete_credentials_runs c a c0 s : ai_credentials a = Some c0 →
  runs (complete_credentials c a c0) s (λ o s' l, s' = s ∧ ∃ w, login_result c a w o l).
Proof.
  intros Hcred. unfold complete_credentials.
  apply runs_bind, runs_call; intros [[]|?]; cbn [of_answer then_runs]; [| login_ends (@None whoami)].
  apply runs_bind, runs_call; intros [[]|?]; cbn [of_answer then_runs]; [| login_ends (@None whoami)].
  apply runs_bind, ignoring_runs, runs_bind, runs_call; intros [w|x]; cbn [of_answer then_runs].
  2: { destruct (WHOAMI_USER_ID_FALLBACK_EXCEPTIONS x); runs_run; cbn [app]; login_ends (@None whoami). }
  pose proof (discovered_spec (Some (ai_user_id a)) (who_user w)) as Huser.
  destruct (discovered (Some (ai_user_id a)) (who_user w)) as [y|].
  - destruct (Huser y eq_refl) as [Hy _]. apply runs_bind, runs_call; intros [[]|x]; cbn [of_answer then_runs].
    + apply runs_ret. cbn [then_runs]. eapply runs_mono; [by apply record_answer_runs |].
      intros o s' l (-> & Hl & Ho). split; [done |]. exists (Some w). split; [login_calls | done].
    + destruct (WHOAMI_USER_ID_FALLBACK_EXCEPTIONS x); runs_run; cbn [app]; login_ends (Some w).
  - apply runs_ret. cbn [then_runs]. eapply runs_mono; [by apply record_answer_runs |].
    intros o s' l (-> & Hl & Ho). split; [done |]. exists (Some w). split; [login_calls | done].
Qed.

(** A login with stored data uses the token it was given and no other; credentials are written back
    only after the server told whose token it is, to the place they came with, with nothing changed
    but the user id and the device id, which are those the server told; and the user that the session
    goes on with is the stored one or the one the server told. *)
Theorem login_completed_by_server c a s :
  runs (_perform_matrix_login c a) s (λ o s' l, s' = s ∧ ∃ w, login_result c a w o l).
Proof.
  unfold _perform_matrix_login.
  assert (∀ m, m = (call (SetAttribute c AttrToken (Some (ai_access_token a))) ;;
      if nonempty (ai_user_id a) then call (SetAttribute c AttrUser (Some (ai_user_id a))) ;; ret a
      else
        answer <- ignoring NIO_COMM_EXCEPTIONS (call (Whoami c)) ;;
        match nonempty_option (w ← answer; who_user w) with
        | Some user => call (SetAttribute c AttrUser (Some user)) ;; ret (with_user a user)
        | None => ret a
        end) → runs m s (λ o s' l, s' = s ∧ ∃ w, login_result c a w o l)) as Hplain.
  { intros m ->. apply runs_bind, runs_call; intros [?|?]; cbn [of_answer then_runs]; [| login_ends (@None whoami)].
    destruct (nonempty (ai_user_id a)); [runs_run; cbn [app]; login_ends (@None whoami) |].
    apply runs_bind, ignoring_runs, runs_call; intros [w|x]; cbn [of_answer then_runs].
    - cbn [mbind option_bind]. destruct (nonempty_option (who_user w)) as [y|] eqn:Ey.
      + apply nonempty_option_spec in Ey as [Ey ?]. runs_run; cbn [app]; login_ends (Some w).
      + runs_run; cbn [app]; login_ends (Some w).
    - destruct (NIO_COMM_EXCEPTIONS x); runs_run; cbn [app]; login_ends (@None whoami). }
  destruct (ai_credentials a) as [[|kv d]|] eqn:Hcred; [by apply Hplain | | by apply Hplain].
  destruct (nonempty_option (ai_device_id a)) as [device|] eqn:Ed,
    (nonempty_option (Some (ai_user_id a))) as [user|] eqn:Eu; try by apply complete_credentials_runs.
  apply nonempty_option_spec in Ed as [Ed _], Eu as [Eu _]. injection Eu as <-.
  runs_run; cbn [app]; login_ends (@None whoami).
Qed.
End login_facts.

(** A server that is out for three attempts. *)
Definition outage : env session_op := λ X h o,
  match o in session_op X return X + xn with
  | Sync _ _ _ => if (length h <? 2 * 3)%nat then inr XTimeout else inl Synced
  | Sleep _ => inl tt
  | _ => inr XTimeout
  end.

Lemma first_sync_outlasts_outage_witness :
  ∃ s, (_perform_initial_sync 4 MATRIX_INITIAL_SYNC_MAX_ATTEMPTS 1 outage (s, [])).1 = Returns Synced.
Proof.
  exists {| globals := {| matrix_client := Some 1%nat; facade_config := None; matrix_homeserver := None;
                     matrix_access_token := None; bot_user_id := None; facade_rooms := None |};
       bot_user_name := None; room_maps := ∅; invite_state := None |}.
  apply (first_sync_outlasts_outage 3); [done | done | lia].
Defined.
