(* ===== verification/MatrixConnect.v ===== *)
(** * Connecting to the Matrix server

    Models [matrix/credentials.py] and the second half of [matrix/sync_bootstrap.py]: the credentials
    are found or obtained by a login with the password, a client is set up, logged in and synced, and
    only then published; [login_matrix_bot] makes and saves credentials; [join_matrix_room].

    The programs are those of the monad of [Interact] over the calls of MatrixSession.  Log lines,
    the look at the login request before it is sent, and the text of the errors are left out. *)

From Stdlib Require Import String QArith.
From stdpp Require Import base tactics list numbers gmap sets.
From S2P Require Import Prelude PyStr PyValue Coerce Settings RoomMapping PyLib PurePath Paths Interact.
From S2P Require Import ConfigEnv ConfigFiles E2eeStatus MatrixIds MatrixSession.
Open Scope Z_scope.
Open Scope prog_scope.

(** ** Credentials *)

(** What a function of the standard library raises, as an exception of a program. *)
Definition raised (e : pyexc) : xn :=
  match e with
  | TypeError => XType | ValueError | UnicodeEncodeError => XValue | KeyError => XKey
  | AttributeError => XAttribute | OSError => XOS | RuntimeError _ => XRuntime
  | OverflowError | IndexError => XOther
  end.
Definition of_res {A} (r : res A) : sprog A := match r with Ok a => ret a | Raise e => raise (raised e) end.

(** None for the three kinds of errors: InvalidCredentialsPathTypeError is a TypeError, and
    UnicodeEncodeError a ValueError. *)
Definition path_errors (e : pyexc) : bool :=
  match e with TypeError | OSError | ValueError | UnicodeEncodeError => true | _ => false end.
Definition _resolve_credentials_save_path (h : host) (config_data : option pydict) : res (option pystr) :=
  catching path_errors None
    (let! explicit_path := get_explicit_credentials_path h (default VNone (VDict <$> config_data)) in
     match explicit_path with
     | Some ((_ :: _) as p) => Ok (Some (h_expanduser h p))
     | _ => let! p := get_credentials_path h in Ok (Some (str h p))
     end).

Definition _missing_credentials_keys (credentials : pydict) : list pystr := missing_required credentials.

(** A text of a dictionary that was checked to hold one. *)
Definition text_of (v : pyval) : pystr := match v with VStr s => s | _ => [] end.

Section session_start.
Context (windows : bool) (expanduser : pystr → pystr) (bracketed_ok netloc_ok : pystr → bool).
Abbreviation normalize := (_normalize_bot_user_id bracketed_ok netloc_ok).

Definition normalized (homeserver : pystr) (user : option pystr) : sprog (option pystr) :=
  of_res (normalize homeserver user).

(** ** The login with a password *)

Record login_request := {
  lr_homeserver : option pystr; lr_username : option pystr; lr_password : option pystr;
  lr_logout_others : option bool; lr_config : option pydict; lr_reset : bool }.

(** What is known when the client is created. *)
Record login_plan := {
  lp_homeserver : pystr; lp_username : pystr; lp_password : pystr; lp_config : option pydict;
  lp_device : option pystr; lp_store : option pystr; lp_e2ee : bool }.

(** [if not x: x = input(...)], with the flag that the user was asked. *)
Definition ask_unless (q : question) (given : option pystr) (prompted : bool) : sprog (pystr * bool) :=
  match nonempty_option given with
  | Some s => ret (s, prompted)
  | None => s <- call (Ask q) ;; ret (s, true)
  end.

Definition with_scheme (homeserver : pystr) : pystr :=
  if startswith homeserver (u "https://") || startswith homeserver (u "http://") then homeserver
  else u "https://" ++ homeserver.

(** Server discovery: a homeserver other than the given one, if the server names it. *)
Definition discover (homeserver : pystr) : sprog pystr :=
  call CreateSslContext ;;
  temp_client <- call (NewClient homeserver [] None None false) ;;
  try_finally
    (try_except is_exception_x
       (url <- call (DiscoveryInfo temp_client) ;; ret (default homeserver url))
       (λ _, ret homeserver))
    (call (CloseClient temp_client)).

(** The device of earlier credentials of the same user. *)
Definition earlier_errors (e : xn) : bool := is_os_error e || is_type_error e || one_of [XJson; XKey] e.
Definition earlier_device (server username : pystr) (config : option pydict) : sprog (option pystr) :=
  try_except earlier_errors
    (credentials_path <- call (ResolveSavePath config) ;;
     match nonempty_option credentials_path with
     | None => ret None
     | Some path =>
         path_exists <- call (PathExists path) ;;
         if negb path_exists then ret None
         else
           existing_creds <- call (LoadJson path) ;;
           match existing_creds with
           | Some v =>
               if negb (truthy v) then ret None
               else match v with
                    | VDict creds =>
                        existing_user_id <-
                          match _first_nonblank_str [dget_none creds (u "user_id"); dget_none creds (u "bot_user_id")] with
                          | Some user => normalized server (Some user)
                          | None => ret None
                          end ;;
                        if bool_decide (existing_user_id = Some username)
                        then ret (_get_valid_device_id (dget_none creds (u "device_id")))
                        else ret None
                    | _ => raise XAttribute
                    end
           | None => ret None
           end
     end)
    (λ _, ret None).

(** The store of the keys; None: encryption is off for this login. *)
Definition login_store : sprog (option pystr) :=
  store <- try_except (λ e, is_os_error e || one_of [XE2EENotSupported] e)
             (s <- call StoreDir ;; ret (Some s)) (λ _, ret None) ;;
  match store with
  | Some path => call (CreateStore path) ;; ret (Some path)
  | None => ret None
  end.

Definition config_errors (e : xn) : bool :=
  is_os_error e || is_value_error e || one_of [XKey] e || is_type_error e || is_runtime_error e.

(** All that comes before the client; None: the login is refused. *)
Definition plan_login (r : login_request) : sprog (option login_plan) :=
  x <- ask_unless AskHomeserver (lr_homeserver r) false ;;
  let '(given, prompted) := x in
  let homeserver := with_scheme given in
  original_domain <- of_res (derive_domain bracketed_ok netloc_ok homeserver) ;;
  homeserver <- discover homeserver ;;
  x <- ask_unless AskUsername (lr_username r) prompted ;;
  let '(given_name, prompted) := x in
  let server := if nonempty original_domain then original_domain else homeserver in
  username <- normalized server (Some given_name) ;;
  match nonempty_option username with
  | None => ret None
  | Some username =>
      x <- ask_unless AskPassword (lr_password r) prompted ;;
      let '(password, prompted) := x in
      when (bool_decide (lr_logout_others r = None) && prompted) (call (Ask AskLogout) ;; ret tt) ;;
      config <- match lr_config r with
                | Some d => ret (Some d)
                | None => ignoring config_errors (call LoadConfig)
                end ;;
      existing_device_id <- earlier_device server username config ;;
      store_path <- (if match config with Some d => is_e2ee_enabled windows d | None => false end
                     then login_store else ret None) ;;
      let e2ee_enabled := match store_path with Some _ => true | None => false end in
      if lr_reset r && (negb e2ee_enabled || negb (nonempty password)) then ret None
      else ret (Some {| lp_homeserver := homeserver; lp_username := username; lp_password := password;
                        lp_config := config; lp_device := existing_device_id; lp_store := store_path;
                        lp_e2ee := e2ee_enabled |})
  end.

Definition first_nonblank (text : option pystr) : option pystr :=
  _first_nonblank_str [default VNone (VStr <$> text)].

(** The user id of the new credentials: that of [whoami], else that of the answer to the login. *)
Definition login_user (c : nat) (answer : login_answer) : sprog (option pystr) :=
  let response_user_id := first_nonblank (la_user answer) in
  try_except WHOAMI_USER_ID_FALLBACK_EXCEPTIONS
    (w <- call (Whoami c) ;;
     ret (match first_nonblank (who_user w) with Some s => Some s | None => response_user_id end))
    (λ _, ret response_user_id).

Definition new_credentials (p : login_plan) (answer : login_answer) (token : pystr) (user : option pystr) : pydict :=
  let resolved_device_id :=
    match _get_valid_device_id (default VNone (VStr <$> la_device answer)) with
    | Some s => Some s
    | None => lp_device p
    end in
  let credentials := dset (dset (dset [] (u "homeserver") (VStr (lp_homeserver p)))
                            (u "access_token") (VStr token))
                       (u "device_id") (default VNone (VStr <$> resolved_device_id)) in
  match user with Some s => dset credentials (u "user_id") (VStr s) | None => credentials end.

(** Cross-signing of the new device; a cancellation closes the client. *)
Definition sign_device (c : nat) (p : login_plan) (reset : bool) : sprog unit :=
  try_except (one_of [XCancelled])
    (call (EnsureCrossSigned c (Some (lp_password p)) reset) ;; ret tt)
    (λ e, ignoring is_exception_x (call (CloseClient c)) ;; raise e).

Definition login_with (c : nat) (p : login_plan) (reset : bool) : sprog bool :=
  response <- ignoring is_exception_x
                (match lp_device p with Some d => call (SetAttribute c AttrDevice (Some d)) | None => ret tt end ;;
                 call (Login c (lp_password p) (if lp_e2ee p then u "mmrelay-e2ee" else u "mmrelay"))) ;;
  match response with
  | None => call (CloseClient c) ;; ret false
  | Some answer =>
      match nonempty_option (la_token answer) with
      | None => call (CloseClient c) ;; ret false
      | Some token =>
          user <- login_user c answer ;;
          credentials_path <- call (ResolveSavePath (lp_config p)) ;;
          match nonempty_option credentials_path with
          | None => call (CloseClient c) ;; ret false
          | Some path =>
              call (SaveCredentials (new_credentials p answer token user) (Some path)) ;;
              when (lp_e2ee p) (sign_device c p reset) ;;
              call (CloseClient c) ;;
              ret true
          end
      end
  end.

Definition cleanup_errors (e : xn) : bool := is_os_error e || is_runtime_error e.

(** The login with a client of its own. *)
Definition run_login (p : login_plan) (reset : bool) : sprog bool :=
  created <- ignoring LOGIN_EXCEPTIONS
               (call (NewClient (lp_homeserver p) (default [] (_extract_localpart_from_mxid (Some (lp_username p))))
                        (lp_device p) (lp_store p) (lp_e2ee p))) ;;
  match created with
  | None => ret false
  | Some c =>
      try_except LOGIN_EXCEPTIONS (login_with c p reset)
        (λ _, ignoring cleanup_errors (call (CloseClient c)) ;; ret false)
  end.

Definition login_matrix_bot (r : login_request) : sprog bool :=
  plan <- try_except LOGIN_EXCEPTIONS (plan_login r) (λ _, ret None) ;;
  match plan with
  | None => ret false
  | Some p => run_login p (lr_reset r)
  end.

(** ** The credentials of a connection *)

Definition load_errors (e : xn) : bool := is_type_error e || is_os_error e || is_value_error e.

(** The login information that stored credentials hold. *)
Definition info_of (credentials : pydict) (path : option pystr) (user : pystr) : auth_info :=
  {| ai_homeserver := text_of (dget_none credentials (u "homeserver"));
     ai_access_token := text_of (dget_none credentials (u "access_token"));
     ai_user_id := user;
     ai_device_id := _get_valid_device_id (dget_none credentials (u "device_id"));
     ai_credentials := Some credentials; ai_credentials_path := path |}.

Definition stored_info (credentials : pydict) (candidate_path : option pystr) : sprog auth_info :=
  user <- match _first_nonblank_str [dget_none credentials (u "user_id"); dget_none credentials (u "bot_user_id")] with
          | Some raw => normalized (text_of (dget_none credentials (u "homeserver"))) (Some raw)
          | None => ret None
          end ;;
  ret (info_of credentials candidate_path (default [] user)).

(** Credentials made by a login with the password of the configuration. *)
Definition automatic_login (config_data : option pydict) (section : pydict) (config_path : option pystr)
    : sprog (option auth_info) :=
  let homeserver := text_of (dget_none section (u "homeserver")) in
  username <- match _first_nonblank_str [dget_none section (u "bot_user_id"); dget_none section (u "user_id")] with
              | Some raw => normalized homeserver (Some raw)
              | None => ret None
              end ;;
  try_except is_os_error
    (success <- login_matrix_bot
       {| lr_homeserver := Some homeserver; lr_username := username;
          lr_password := Some (text_of (dget_none section (u "password")));
          lr_logout_others := Some false; lr_config := config_data; lr_reset := false |} ;;
     if negb success then ret None
     else
       loaded <- try_except load_errors (call (LoadCredentials config_data config_path)) (λ _, ret None) ;;
       match loaded with
       | Some ((_ :: _) as credentials) =>
           match _missing_credentials_keys credentials with
           | _ :: _ => ret None
           | [] =>
               path <- call (ResolveSavePath config_data) ;;
               user <- of_res (_get_bot_user_id bracketed_ok netloc_ok
                                 (text_of (dget_none credentials (u "homeserver")))
                                 (dget_none credentials (u "user_id"))) ;;
               ret (Some (info_of credentials path user))
           end
       | _ => ret None
       end)
    (λ _, ret None).

(** The access token of the configuration. *)
Definition configured_info (config_data : option pydict) (matrix_section : pyval) : sprog (option auth_info) :=
  match config_data, matrix_section with
  | Some d, VDict section =>
      if negb (dmem d (u "matrix")) then ret None
      else if negb (filled (dget_none section (u "access_token"))) then ret None
      else if negb (filled (dget_none section (u "homeserver"))) then ret None
      else
        let homeserver := text_of (dget_none section (u "homeserver")) in
        let info user := {| ai_homeserver := homeserver;
                            ai_access_token := text_of (dget_none section (u "access_token"));
                            ai_user_id := user; ai_device_id := None; ai_credentials := None;
                            ai_credentials_path := None |} in
        match _first_nonblank_str [dget_none section (u "bot_user_id"); dget_none section (u "user_id")] with
        | Some raw => user <- normalized homeserver (Some raw) ;; ret (info <$> user)
        | None => ret (Some (info []))
        end
  | _, _ => ret None
  end.

(** The candidate path is looked at to log a warning about a file that is not valid. *)
Definition _resolve_and_load_credentials (config_data : option pydict) (matrix_section : pyval)
    (config_path : option pystr) : sprog (option auth_info) :=
  candidate_path <- call (ResolveSavePath config_data) ;;
  credentials <- try_except load_errors (call (LoadCredentials config_data config_path)) (λ _, ret None) ;;
  match credentials, nonempty_option candidate_path with
  | None, Some p => call (PathExists p) ;; ret tt
  | _, _ => ret tt
  end ;;
  let otherwise :=
    match matrix_section with
    | VDict section => if _can_auto_create_credentials matrix_section
                       then automatic_login config_data section config_path
                       else configured_info config_data matrix_section
    | _ => configured_info config_data matrix_section
    end in
  match credentials with
  | Some ((_ :: _) as c) =>
      match _missing_credentials_keys c with
      | [] => a <- stored_info c candidate_path ;; ret (Some a)
      | _ :: _ => otherwise
      end
  | _ => otherwise
  end.

(** ** Connecting *)

Definition config_dict (config : configuration) : pydict := match cf_value config with VDict d => d | _ => [] end.

(** [config]: the one that was passed; [matrix_rooms]: the rooms of the one that was used, as they are now. *)
Definition publish (config : option configuration) (matrix_rooms : nat) (a : auth_info) (user : pystr) (c : nat) (s : session) : session :=
  set_globals {| matrix_client := Some c;
                 facade_config := match config with Some d => Some d | None => facade_config (globals s) end;
                 matrix_homeserver := Some (ai_homeserver a); matrix_access_token := Some (ai_access_token a);
                 bot_user_id := Some user; facade_rooms := Some matrix_rooms |} s.

(** The client is closed whatever happens, and the error goes on. *)
Definition closing_on_failure {A} (c : nat) (m : sprog A) : sprog A :=
  try_except (λ _, true) m (λ e, _close_matrix_client_after_failure c ;; raise e).

(** Keys and first sync, for the user of the session. *)
Definition sync_session (fuel : nat) (c : nat) (config : configuration) (e2ee_enabled : bool) (user : pystr)
    : sprog (option pystr) :=
  when e2ee_enabled (_maybe_upload_e2ee_keys c ;; call (EnsureCrossSigned c None false) ;; ret tt) ;;
  sync_response <- _perform_initial_sync fuel MATRIX_INITIAL_SYNC_MAX_ATTEMPTS c ;;
  _post_sync_setup c sync_response (config_dict config) (cf_rooms config) user e2ee_enabled ;;
  ret (Some user).

(** Login, keys, first sync; the user id of the session, None when there is none. *)
Definition start_session (fuel : nat) (c : nat) (a : auth_info) (config : configuration) (e2ee_enabled : bool)
    : sprog (option pystr) :=
  closing_on_failure c
    (a' <- _perform_matrix_login c a ;;
     effective <- (match nonempty_option (Some (ai_user_id a')) with
                   | Some user => ret (Some user)
                   | None => user <- call (ClientUserId c) ;; ret (nonempty_option user)
                   end) ;;
     match effective with
     | None => _close_matrix_client_after_failure c ;; ret None
     | Some user => sync_session fuel c config e2ee_enabled user
     end).

(** Under the lock; [config] is the configuration in use, and [passed]: it was passed, and is to be
    published. *)
Definition connect_once (fuel : nat) (a : auth_info) (config : configuration) (passed : bool)
    (e2ee_enabled : bool) (e2ee_store_path : option pystr) : sprog (option nat) :=
  earlier <- call StartupLock ;;
  modify (λ s, match earlier with Some (g, h) => set_heap h (set_globals g s) | None => s end) ;;
  published <- gets (λ s, matrix_client (globals s)) ;;
  match published with
  | Some c => ret (Some c)
  | None =>
      call RefreshStartTime ;;
      c <- _initialize_matrix_client (ai_homeserver a) (ai_user_id a) (ai_device_id a) e2ee_enabled e2ee_store_path ;;
      user <- start_session fuel c a config e2ee_enabled ;;
      match user with
      | None => ret None
      | Some user =>
          modify (publish (if passed then Some config else None) (cf_rooms config) a user c) ;;
          ret (Some c)
      end
  end.

Definition is_container (v : pyval) : bool := match v with VDict _ | VSeq KList _ => true | _ => false end.

(** [config_path]: the path of the configuration file; it is used when no configuration is passed. *)
Definition connect_matrix (fuel : nat) (config_path : option pystr) (passed_config : option configuration)
    : sprog (option nat) :=
  published <- gets (λ s, matrix_client (globals s)) ;;
  match published with
  | Some c => ret (Some c)
  | None =>
      own_config <- gets (λ s, facade_config (globals s)) ;;
      match match passed_config with Some v => Some v | None => own_config end with
      | None => ret None
      | Some local_config =>
          let matrix_section := match cf_value local_config with VDict d => dget_none d (u "matrix") | _ => VNone end in
          auth_info <- _resolve_and_load_credentials (match cf_value local_config with VDict d => Some d | _ => None end)
                         matrix_section (match passed_config with None => config_path | Some _ => None end) ;;
          match auth_info, cf_value local_config with
          | None, _ => ret None
          | Some a, VDict d =>
              if negb (is_container (dget_none d (u "matrix_rooms"))) then raise XMissingRooms
              else
                call CreateSslContext ;;
                x <- _configure_e2ee windows expanduser d matrix_section ;;
                let '(e2ee_enabled, e2ee_store_path) := x in
                if negb (nonempty (ai_homeserver a)) || negb (nonempty (ai_access_token a)) then ret None
                else connect_once fuel a local_config (match passed_config with Some _ => true | None => false end)
                       e2ee_enabled e2ee_store_path
          | Some _, _ => ret None
          end
      end
  end.

(** ** Joining a room *)

(** [joined]: the rooms of the client, as it is asked. *)
Definition join_known (joined : pystr → bool) (c : nat) (room_id : pystr) : sprog unit :=
  try_except is_exception_x
    (if joined room_id then ret tt else call (JoinRoom c room_id) ;; ret tt)
    (λ _, ret tt).
Definition join_matrix_room (joined : pystr → bool) (c : nat) (room_id_or_alias : pyval) : sprog unit :=
  match room_id_or_alias with
  | VStr room =>
      if startswith room (u "#") then
        answer <- ignoring NIO_COMM_EXCEPTIONS (call (ResolveAlias c room)) ;;
        match nonempty_option (default None answer) with
        | None => ret tt
        | Some room_id =>
            modify (λ s, match facade_rooms (globals s) with
                         | Some loc => set_rooms loc (_update_room_id_in_mapping room room_id (rooms_at s loc)).1 s
                         | None => s
                         end) ;;
            join_known joined c room_id
        end
      else join_known joined c room
  | _ => ret tt
  end.
End session_start.

(** ** Connecting: properties *)

Section connect_facts.
Implicit Types (l : list sevent) (s : session).

(** A client was made; its [close] was called, whatever that answered; a sync of it was answered. *)
Definition created (c : nat) l : Prop := ∃ h user d p e, Event (NewClient h user d p e) (inl c) ∈ l.
Definition closed (c : nat) l : Prop := ∃ r, Event (CloseClient c) r ∈ l.
Definition synced (c : nat) l : Prop := ∃ full, Event (Sync c full (negb full)) (inl Synced) ∈ l.

Lemma closed_app c l l' : closed c l ∨ closed c l' → closed c (l ++ l').
Proof. intros [[r Hr]|[r Hr]]; exists r; apply elem_of_app; auto. Qed.
Lemma synced_app c l l' : synced c l ∨ synced c l' → synced c (l ++ l').
Proof. intros [[f Hr]|[f Hr]]; exists f; apply elem_of_app; auto. Qed.

(** The calls that make no client. *)
Definition no_client (ev : sevent) : Prop := match ev with Event (NewClient _ _ _ _ _) _ => False | _ => True end.

(** The client that a call made. *)
Definition made (ev : sevent) : option nat :=
  match ev with Event (NewClient _ _ _ _ _) (inl c) => Some c | _ => None end.

Lemma no_client_created c l : Forall no_client l → ¬ created c l.
Proof. intros H (? & ? & ? & ? & ? & Hin). rewrite Forall_forall in H. by apply H in Hin. Qed.

Definition same_globals : relation session := λ s s', globals s = globals s' ∧ room_maps s = room_maps s'.
#[local] Instance same_globals_preorder : PreOrder same_globals.
Proof. split; unfold same_globals; [done |]. intros s1 s2 s3 [-> ->] [-> ->]. done. Qed.

Lemma steady_ignoring {A} (R : relation session) `{!PreOrder R} P p (m : sprog A) :
  steady R P m → steady R P (ignoring p m).
Proof. intros H. unfold ignoring. steady_run. done. Qed.

Lemma login_steady c a : steady same_globals no_client (_perform_matrix_login c a).
Proof.
  unfold _perform_matrix_login, complete_credentials, record_answer, persist_discovered.
  repeat first [steady_step | apply steady_ignoring; [exact _ |] | progress cbn beta iota zeta].
Qed.

Lemma first_sync_steady fuel c limit a d : steady same_globals no_client (sync_attempts fuel c limit a d).
Proof.
  revert a d. induction fuel as [|fuel IH]; intros a d; cbn [sync_attempts]; [steady_run |].
  unfold try_first_sync, retry_without_invites, retry_ignoring_invites, disable_invites, _sync_ignore_invalid_invites.
  repeat first [steady_step | apply IH | apply steady_ignoring; [exact _ |] | progress unfold of_option
               | progress cbn beta iota].
Qed.

(** What may happen to the rooms [loc] in place: their number, their keys and the other objects stay; the
    value of an entry is as it was, or an identifier that the server gave for an alias. *)
Definition rooms_kept (loc : nat) (h h' : rooms_heap) l : Prop :=
  let r := default no_rooms (h !! loc) in let r' := default no_rooms (h' !! loc) in
  (∀ loc', loc' ≠ loc → h' !! loc' = h !! loc')
  ∧ rm_kind r' = rm_kind r ∧ (rm_entries r').*1 = (rm_entries r).*1
  ∧ ∀ i v, alias_at r i = Some v → alias_at r' i = Some v
      ∨ ∃ c alias id, alias_at r' i = Some (VStr id) ∧ Event (ResolveAlias c alias) (inl (Some id)) ∈ l.

Lemma rooms_kept_refl loc h l : rooms_kept loc h h l.
Proof. split_and!; [done | done | done |]. by left. Qed.
Lemma rooms_kept_trans loc h1 h2 h3 l l' :
  rooms_kept loc h1 h2 l → rooms_kept loc h2 h3 l' → rooms_kept loc h1 h3 (l' ++ l).
Proof.
  intros (A1 & A2 & A3 & A4) (B1 & B2 & B3 & B4). split_and!; [intros; by rewrite B1, A1 | congruence | congruence |].
  intros i v Hv. destruct (A4 i v Hv) as [H|(c & al & id & H & Hin)].
  - destruct (B4 i v H) as [H'|(c & al & id & H' & Hin)]; [by left | right].
    exists c, al, id. split; [done |]. apply elem_of_app. by left.
  - destruct (B4 i _ H) as [H'|(c' & al' & id' & H' & Hin')]; right.
    + exists c, al, id. split; [done |]. apply elem_of_app. by right.
    + exists c', al', id'. split; [done |]. apply elem_of_app. by left.
Qed.

(** Nothing but the rooms [loc] changes, and they as above. *)
Definition rooms_only (loc : nat) s s' l : Prop :=
  globals s' = globals s ∧ Forall no_client l ∧ rooms_kept loc (room_maps s) (room_maps s') l.

Lemma rooms_only_bind {A B} loc (m : sprog A) (k : A → sprog B) s :
  runs m s (λ _ s' l, rooms_only loc s s' l) →
  (∀ a s', runs (k a) s' (λ _ s2 l, rooms_only loc s' s2 l)) →
  runs (bind m k) s (λ _ s' l, rooms_only loc s s' l).
Proof.
  intros Hm Hk. apply runs_bind. eapply runs_mono; [exact Hm |].
  intros [a|x|] s1 l1 (H1 & H2 & H3); cbn [then_runs]; [| by split_and! ..].
  eapply runs_mono; [apply Hk |]. intros o s2 l2 (H4 & H5 & H6).
  split_and!; [congruence | by apply Forall_app | by eapply rooms_kept_trans].
Qed.

Lemma steady_rooms_only {A} loc (m : sprog A) s :
  steady same_globals no_client m → runs m s (λ _ s' l, rooms_only loc s s' l).
Proof.
  intros H. eapply runs_mono; [apply H |]. intros o s' l [[Hg Hr] Hl].
  split_and!; [done | done |]. rewrite Hr. apply rooms_kept_refl.
Qed.

Lemma set_entry_kept loc id s position c alias l : Event (ResolveAlias c alias) (inl (Some id)) ∈ l →
  rooms_kept loc (room_maps s)
    (room_maps (set_rooms loc (resolve_entry_alias (λ _, Some id) (rooms_at s loc) position) s)) l.
Proof.
  intros Hin. unfold rooms_kept, set_rooms, set_heap, rooms_at. cbn [room_maps].
  rewrite lookup_insert_eq. cbn [default from_option].
  assert (∀ loc', loc' ≠ loc → ∀ r, <[loc:=r]> (room_maps s) !! loc' = room_maps s !! loc') as Hne
    by (intros; by rewrite lookup_insert_ne).
  set (r := default no_rooms _). unfold resolve_entry_alias.
  repeat case_match; try (split_and!; [auto | done | done | by left]).
  destruct (run_setter_shape position.2 id r) as [Hk Hs]. split_and!; [auto | done | done |].
  intros i v Hv. destruct (run_setter_alias position.2 id r i v Hv) as [H'|H']; [by left | right]. by exists c, alias, id.
Qed.

Lemma resolve_aliases_runs c loc positions s :
  runs (resolve_aliases c loc positions) s (λ _ s' l, rooms_only loc s s' l).
Proof.
  revert s. induction positions as [|position positions IH]; intros s; cbn [resolve_aliases].
  { apply steady_rooms_only, steady_ret; exact _. }
  apply rooms_only_bind; [apply steady_rooms_only, steady_gets; exact _ | intros alias s1].
  apply rooms_only_bind; [| intros _ s2; apply IH].
  destruct alias as [| | | |a| | | |]; try (apply steady_rooms_only, steady_ret; exact _).
  destruct (startswith a (u "#")); [| apply steady_rooms_only, steady_ret; exact _]. cbn [when].
  unfold _resolve_alias. apply runs_bind, runs_bind, ignoring_runs, runs_call.
  intros [found|x]; cbn [of_answer then_runs].
  - apply runs_ret. cbn [then_runs]. apply runs_modify. cbn [app].
    assert (Forall no_client [Event (ResolveAlias c a) (inl found)]) by (by repeat constructor).
    destruct (nonempty_option (default None (Some found))) as [id|] eqn:Ei; cbn in Ei.
    + apply nonempty_option_spec in Ei as [-> _]. split_and!; [done | done |]. apply (set_entry_kept _ _ _ _ c a). left.
    + split_and!; [done | done |]. unfold rooms_kept, set_rooms, set_heap, rooms_at. cbn [room_maps].
      rewrite lookup_insert_eq. cbn [default from_option].
      assert (resolve_entry_alias (λ _, None) (default no_rooms (room_maps s1 !! loc)) position
              = default no_rooms (room_maps s1 !! loc)) as -> by (unfold resolve_entry_alias; by repeat case_match).
      split_and!; [intros; by rewrite lookup_insert_ne | done | done | by left].
  - destruct (alias_errors x); [apply runs_ret; cbn [then_runs]; apply runs_modify |]; cbn [app then_runs].
    + split_and!; [done | by repeat constructor |]. unfold rooms_kept, set_rooms, set_heap, rooms_at. cbn.
      rewrite lookup_insert_eq. cbn [default from_option].
      assert (resolve_entry_alias (λ _, None) (default no_rooms (room_maps s1 !! loc)) position
              = default no_rooms (room_maps s1 !! loc)) as -> by (unfold resolve_entry_alias; by repeat case_match).
      split_and!; [intros; by rewrite lookup_insert_ne | done | done | by left].
    + split_and!; [done | by repeat constructor | apply rooms_kept_refl].
Qed.

Lemma set_up_runs c r config loc user e s :
  runs (_post_sync_setup c r config loc user e) s (λ _ s' l, rooms_only loc s s' l).
Proof.
  unfold _post_sync_setup. destruct r; [| apply steady_rooms_only, steady_raise; exact _].
  apply rooms_only_bind; [apply steady_rooms_only; by steady_run | intros _ s1].
  apply rooms_only_bind; [apply steady_rooms_only; by steady_run | intros positions s2].
  apply rooms_only_bind; [apply resolve_aliases_runs | intros _ s3].
  apply steady_rooms_only. unfold fetch_display_name. by steady_run.
Qed.

(** The sync that gives the answer is one of its calls. *)
Lemma first_sync_answers fuel c s :
  runs (_perform_initial_sync fuel MATRIX_INITIAL_SYNC_MAX_ATTEMPTS c) s (λ o s' l,
    same_globals s s' ∧ Forall no_client l
    ∧ match o with Returns r => answered c r l | _ => True end).
Proof.
  unfold _perform_initial_sync. change 1 with (Z.of_nat 0 + 1). change MATRIX_SYNC_RETRY_DELAY_SECS with (backoff 0).
  eapply runs_mono.
  { apply runs_and; [apply sync_attempts_runs; done | apply first_sync_steady]. }
  intros o s' l [(-> & n & _ & _ & Ho) [_ Hno]]. split_and!; [done | done |].
  destruct o as [r|x|]; [| done | done]. cbn [timed_out] in Ho. rewrite app_nil_r in Ho.
  destruct Ho as [(Ho & _) | (r0 & last & Ho & ->)]; [done |]. unfold attempt_ends in Ho.
  destruct r0 as [r1|x].
  - destruct Ho as [[= <-] ->]. exists true. left.
  - repeat case_match; try (by destruct Ho as [? _]); try (by destruct Ho as (? & ? & _)).
    destruct Ho as [_ [full Hin]]. exists full. apply elem_of_app. by left.
Qed.

(** The client is closed, and the other globals stay. *)
Lemma close_after_failure_runs c s : matrix_client (globals s) ≠ Some c →
  runs (_close_matrix_client_after_failure c) s (λ o s' l,
    s' = s ∧ Forall no_client l ∧ closed c l ∧ o ≠ Running).
Proof.
  intros Hc. unfold _close_matrix_client_after_failure.
  assert ((if bool_decide (matrix_client (globals s) = Some c)
           then set_globals {| matrix_client := None; facade_config := facade_config (globals s);
                               matrix_homeserver := matrix_homeserver (globals s);
                               matrix_access_token := matrix_access_token (globals s);
                               bot_user_id := bot_user_id (globals s);
                               facade_rooms := facade_rooms (globals s) |} s
           else s) = s) as Heq by (by rewrite bool_decide_false).
  runs_run; rewrite ?Heq; (split_and!; [done | by repeat constructor | eexists; cbn [app]; in_trace | done]).
Qed.

(** How the part before the handler ends, started in [s]. *)
Definition session_ended (c loc : nat) s (o : outcome_x (option pystr)) (s' : session) l : Prop :=
  rooms_only loc s s' l
  ∧ match o with
    | Returns (Some user) => user ≠ [] ∧ synced c l
    | Returns None => closed c l
    | _ => True
    end.

Lemma rooms_only_after loc s s1 s' l l0 :
  same_globals s s1 → Forall no_client l0 → rooms_only loc s1 s' l → rooms_only loc s s' (l ++ l0).
Proof.
  intros [Hg Hr] H0 (H1 & H2 & H3). split_and!; [congruence | by apply Forall_app |].
  rewrite Hr. eapply rooms_kept_trans; [apply rooms_kept_refl | done].
Qed.

Lemma session_ended_app c loc s s1 l0 (m : sprog (option pystr)) :
  same_globals s s1 → Forall no_client l0 →
  runs m s1 (session_ended c loc s1) → runs m s1 (λ o s' l, session_ended c loc s o s' (l ++ l0)).
Proof.
  intros Hg H0 H. eapply runs_mono; [exact H |]. intros o s' l (Hs & Ho).
  split; [by eapply rooms_only_after |].
  destruct o as [[user|]|x|]; [| apply closed_app; by left | done | done].
  destruct Ho. split; [done |]. apply synced_app. by left.
Qed.

Lemma rooms_only_same loc s s' l : same_globals s s' → Forall no_client l → rooms_only loc s s' l.
Proof. intros [Hg Hr] Hl. split_and!; [done | done |]. rewrite Hr. apply rooms_kept_refl. Qed.

Lemma sync_session_runs fuel c config e2ee user s : user ≠ [] →
  runs (sync_session fuel c config e2ee user) s (session_ended c (cf_rooms config) s).
Proof.
  intros Hu. unfold sync_session. apply runs_bind.
  eapply runs_mono with (Φ := λ _ s' l, same_globals s s' ∧ Forall no_client l).
  { unfold _maybe_upload_e2ee_keys. apply (steady_when _ _ e2ee). steady_run. }
  intros [[]|x|] s2 l2 [Hg2 Hl2]; cbn [then_runs]; [| split; [by apply rooms_only_same | done] ..].
  apply session_ended_app; [done | done |]. clear s l2 Hg2 Hl2.
  apply runs_bind. eapply runs_mono; [apply first_sync_answers |].
  intros [r|x|] s3 l3 (Hg3 & Hl3 & Hr); cbn [then_runs]; [| split; [by apply rooms_only_same | done] ..].
  apply runs_bind. eapply runs_mono.
  { apply runs_and; [apply set_up_runs |]. instantiate (1 := λ o _ _, o = Returns tt → r = Synced).
    destruct r; [eapply runs_mono; [apply set_up_runs | done] | apply runs_raise; done]. }
  intros o s4 l4 [H4 Hret]. apply (rooms_only_after _ s2 s3 s4 l4 l3) in H4; [| done | done].
  destruct o as [[]|x|]; cbn [then_runs]; [| by split ..].
  apply runs_ret. cbn [app]. split; [done |]. split; [done |].
  rewrite (Hret eq_refl) in Hr. apply synced_app. by right.
Qed.

Lemma closing_on_failure_runs c loc s (m : sprog (option pystr)) : matrix_client (globals s) = None →
  runs m s (session_ended c loc s) →
  runs (closing_on_failure c m) s (λ o s' l, session_ended c loc s o s' l
    ∧ match o with Raises _ => closed c l | _ => True end).
Proof.
  intros Hnone H. apply runs_try. eapply runs_mono; [exact H |].
  intros [o|x|] s' l ((Hg & Hl & Hk) & Ho); cbn; [done | | done].
  assert (∀ l', Forall no_client l' → rooms_only loc s s' (l' ++ l)) as Hr.
  { intros l' Hl'. split_and!; [done | by apply Forall_app |]. eapply rooms_kept_trans; [done | apply rooms_kept_refl]. }
  apply runs_bind. eapply runs_mono; [apply close_after_failure_runs; by rewrite Hg, Hnone |].
  intros [[]|y|] s2 l' (-> & Hl' & Hc & Hn); [| | done]; cbn [then_runs].
  - apply runs_raise. cbn [app]. split; [| apply closed_app; by left]. split; [by apply Hr | done].
  - split; [| apply closed_app; by left]. split; [by apply Hr | done].
Qed.

Lemma start_session_runs fuel c a config e2ee s : matrix_client (globals s) = None →
  runs (start_session fuel c a config e2ee) s (λ o s' l, session_ended c (cf_rooms config) s o s' l
    ∧ match o with Raises _ => closed c l | _ => True end).
Proof.
  intros Hnone. apply closing_on_failure_runs; [done |].
  apply runs_bind. eapply runs_mono; [apply login_steady |].
  intros [a'|x|] s1 l1 [Hg1 Hl1]; cbn [then_runs]; [| split; [by apply rooms_only_same | done] ..].
  apply session_ended_app; [done | done |].
  assert (∀ effective : option pystr, effective ≠ Some [] → runs (
     match effective with
     | None => _close_matrix_client_after_failure c ;; ret None
     | Some user => sync_session fuel c config e2ee user
     end) s1 (session_ended c (cf_rooms config) s1)) as Heff.
  { intros [user|] He; [apply sync_session_runs; congruence |].
    apply runs_bind. eapply runs_mono; [apply close_after_failure_runs; destruct Hg1 as [<- _]; by rewrite Hnone |].
    intros [[]|x|] s2 l2 (-> & Hl2 & Hc & Hn); [| | done]; cbn [then_runs].
    - apply runs_ret. split; [by apply rooms_only_same | done].
    - split; [by apply rooms_only_same | done]. }
  apply runs_bind. destruct (nonempty_option (Some (ai_user_id a'))) as [user|] eqn:Eu.
  - apply nonempty_option_spec in Eu as [_ Hne]. apply runs_ret. apply session_ended_app; [done | done |].
    apply (Heff (Some user)). congruence.
  - apply runs_bind, runs_call. intros [user|x]; cbn [of_answer then_runs].
    2: { split; [by apply rooms_only_same; [| constructor] | done]. }
    apply runs_ret. apply (session_ended_app c (cf_rooms config) s1 s1 [_]); [done | by constructor |].
    apply Heff. intros He. by apply nonempty_option_spec in He as [_ He].
Qed.

(** What there was when the lock was taken: the globals and the objects of rooms that the coroutine
    before left, or those of the call. *)
Definition found_under_lock s (g : shared) (h : rooms_heap) l : Prop :=
  g = globals s ∧ h = room_maps s ∨ Event StartupLock (inl (Some (g, h))) ∈ l.

(** C8: A connection is published whole or not at all: if the one that was started has not come to its
    end, with a sync of the client that was answered, the globals are what the coroutine before left,
    and close was called on the new client, even when it was cancelled; if it has, client, homeserver,
    token, user, configuration and rooms are published together.  A client that is there already is
    returned as it is, and no second one is made.  The rooms of the configuration in use are changed in
    place, also by a connection that fails later, whether or not the globals refer to them: there, an
    entry that is not as before is an identifier that the server gave for an alias; their number and
    keys, and all other rooms, stay. *)
Theorem connection_all_or_nothing fuel a config passed e2ee store s :
  runs (connect_once fuel a config passed e2ee store) s (λ o s' l,
    ∃ g h, found_under_lock s g h l
    ∧ rooms_kept (cf_rooms config) h (room_maps s') l
    ∧ match o with
      | Returns (Some c) =>
          matrix_client g = Some c ∧ globals s' = g ∧ room_maps s' = h ∧ (∀ c', ¬ created c' l)
          ∨ matrix_client g = None ∧ created c l ∧ synced c l
            ∧ ∃ user, user ≠ [] ∧ globals s' =
                {| matrix_client := Some c;
                   facade_config := if passed then Some config else facade_config g;
                   matrix_homeserver := Some (ai_homeserver a); matrix_access_token := Some (ai_access_token a);
                   bot_user_id := Some user; facade_rooms := Some (cf_rooms config) |}
      | Returns None | Raises _ => globals s' = g ∧ ∀ c, created c l → closed c l
      | Running => globals s' = g
      end).
Proof.
  unfold connect_once. apply runs_bind, runs_call. intros [earlier|x]; cbn [of_answer then_runs].
  2: { exists (globals s), (room_maps s). split_and!; [by left | apply rooms_kept_refl | done |].
       intros c (?&?&?&?&?& Hin). set_solver. }
  apply runs_bind, runs_modify. cbn [then_runs app].
  set (s0 := match earlier with Some _ => _ | None => s end).
  assert (∀ l, found_under_lock s (globals s0) (room_maps s0) (l ++ [Event StartupLock (inl earlier)])) as Hg.
  { intros l. unfold s0. destruct earlier as [[g h]|]; [right | by left]. apply elem_of_app. right. left. }
  clearbody s0. apply runs_bind, runs_gets. cbn [then_runs app].
  destruct (matrix_client (globals s0)) as [c|] eqn:Ec.
  { apply runs_ret. exists (globals s0), (room_maps s0). split; [apply (Hg []) |]. split; [apply rooms_kept_refl |].
    left. split_and!; [done | done | done |]. intros c' (?&?&?&?&?& Hin). cbn in Hin. set_solver. }
  apply runs_bind, runs_call. intros [[]|x]; cbn [of_answer then_runs].
  2: { exists (globals s0), (room_maps s0). split_and!; [apply (Hg [_]) | apply rooms_kept_refl | done |].
       intros c (?&?&?&?&?& Hin). cbn in Hin. set_solver. }
  apply runs_bind. unfold _initialize_matrix_client. apply runs_call. intros [c|x]; cbn [of_answer then_runs].
  2: { exists (globals s0), (room_maps s0). split_and!; [apply (Hg [_; _]) | apply rooms_kept_refl | done |].
       intros c (?&?&?&?&?& Hin). cbn in Hin. set_solver. }
  apply runs_bind. eapply runs_mono; [by apply start_session_runs |].
  intros o s' l [((Hs & Hl & Hk) & Ho) Hx].
  set (fresh := [Event (NewClient _ _ _ _ _) (inl c)]).
  assert (∀ c', created c' (((l ++ fresh) ++ [Event RefreshStartTime (inl tt)]) ++ [Event StartupLock (inl earlier)]) → c' = c) as Hone.
  { intros c' (h & us & d & p & e & Hin). rewrite <- !app_assoc in Hin. apply elem_of_app in Hin as [Hin|Hin].
    - exfalso. apply (no_client_created c' l Hl). by exists h, us, d, p, e.
    - cbn in Hin. rewrite !elem_of_cons in Hin.
      destruct Hin as [Hin|[Hin|[Hin|Hin%elem_of_nil]]]; [| | | done].
      all: apply (f_equal made) in Hin; cbn in Hin; by simplify_eq. }
  assert (∀ c0 l, closed c0 l → ∀ l', closed c0 (l ++ l')) as Hcl by (intros; apply closed_app; by left).
  assert (rooms_kept (cf_rooms config) (room_maps s0) (room_maps s')
    (((l ++ fresh) ++ [Event RefreshStartTime (inl tt)]) ++ [Event StartupLock (inl earlier)])) as Hk'.
  { rewrite <- !app_assoc. eapply rooms_kept_trans; [apply rooms_kept_refl | done]. }
  destruct o as [[user|]|x|]; cbn [then_runs].
  - destruct Ho as [Hu Hsy]. apply runs_bind, runs_modify. cbn [then_runs]. apply runs_ret. cbn [app].
    rewrite ?app_nil_r. exists (globals s0), (room_maps s0). split; [apply Hg |]. split; [exact Hk' |].
    right. split_and!; [done | | rewrite <- !app_assoc; apply synced_app; by left |].
    + eexists _, _, _, _, _. rewrite <- !app_assoc. apply elem_of_app. right. left.
    + exists user. split; [done |]. unfold publish. cbn. destruct passed; cbn; by rewrite ?Hs.
  - apply runs_ret. cbn [app]. rewrite ?app_nil_r.
    exists (globals s0), (room_maps s0). split; [apply Hg |]. split; [done |]. split; [done |].
    intros c' ->%Hone. auto.
  - rewrite ?app_nil_r.
    exists (globals s0), (room_maps s0). split; [apply Hg |]. split; [done |]. split; [done |]. intros c' ->%Hone. auto.
  - rewrite ?app_nil_r. exists (globals s0), (room_maps s0). split; [apply Hg |]. by split.
Qed.
End connect_facts.

(** ** The login: properties *)

Section login_bot_facts.
Context (windows : bool) (expanduser : pystr → pystr) (bracketed_ok netloc_ok : pystr → bool).
Implicit Types (l : list sevent) (s : session).

Definition no_save (ev : sevent) : Prop := match ev with Event (SaveCredentials _ _) _ => False | _ => True end.
Definition calm (ev : sevent) : Prop := no_client ev ∧ no_save ev.
Definition all_closed l : Prop := ∀ c, created c l → closed c l.

Lemma created_app c l l' : created c (l ++ l') → created c l ∨ created c l'.
Proof. intros (h & us & d & p & e & Hin). apply elem_of_app in Hin as [Hin|Hin]; [left | right]; by exists h, us, d, p, e. Qed.
Lemma all_closed_app l l' : all_closed l → all_closed l' → all_closed (l ++ l').
Proof. intros H1 H2 c [H|H]%created_app; apply closed_app; auto. Qed.
Lemma no_client_all_closed l : Forall no_client l → all_closed l.
Proof. intros H c Hc. by apply no_client_created in Hc. Qed.

(** A program that saves nothing and leaves no client open. *)
Definition tidy {A} (m : sprog A) : Prop :=
  ∀ s, runs m s (λ _ s' l, s = s' ∧ Forall no_save l ∧ all_closed l).

Lemma steady_tidy {A} (m : sprog A) : steady eq calm m → tidy m.
Proof.
  intros H s. eapply runs_mono; [apply H |]. intros o s' l [-> Hl]. split; [done |].
  unfold calm in Hl. rewrite Forall_and in Hl. destruct Hl. split; [done | by apply no_client_all_closed].
Qed.

Lemma tidy_bind {A B} (m : sprog A) (k : A → sprog B) : tidy m → (∀ a, tidy (k a)) → tidy (bind m k).
Proof.
  intros Hm Hk s. apply runs_bind. eapply runs_mono; [apply Hm |]. intros [a|x|] s' l (-> & Hl & Hc); [| done | done].
  eapply runs_mono; [apply Hk |]. intros o s2 l' (-> & Hl' & Hc').
  split_and!; [done | by apply Forall_app | by apply all_closed_app].
Qed.

(** What is not looked into: functions of the library. *)
Lemma of_res_steady {A} (r : res A) : steady eq calm (of_res r).
Proof. unfold of_res. steady_run. Qed.

Lemma ask_steady q given prompted : steady eq calm (ask_unless q given prompted).
Proof. unfold ask_unless. steady_run. Qed.

Ltac calm_run :=
  repeat first [steady_step | apply of_res_steady | apply ask_steady | apply steady_ignoring; [exact _ |]
               | progress cbn beta iota zeta].

Lemma earlier_device_steady server username config :
  steady eq calm (earlier_device bracketed_ok netloc_ok server username config).
Proof. unfold earlier_device, normalized. calm_run. Qed.

Lemma discover_tidy homeserver : tidy (discover homeserver).
Proof.
  unfold discover. apply tidy_bind; [apply steady_tidy; calm_run | intros _].
  intros s. apply runs_bind, runs_call. intros [c|x]; cbn [of_answer then_runs].
  2: { split_and!; [done | by repeat constructor |]. intros c (?&?&?&?&?& Hin). apply elem_of_cons in Hin as [Hin|Hin%elem_of_nil]; [| done].
       apply (f_equal made) in Hin. by cbn in Hin. }
  apply runs_finally. eapply runs_mono with (Φ := λ o s' l, s = s' ∧ Forall calm l ∧ o ≠ Running).
  { runs_run; (split_and!; [done | by repeat constructor | done]). }
  assert (∀ r l, Forall calm l → Forall no_save (([Event (CloseClient c) r] ++ l) ++ [Event (NewClient homeserver [] None None false) (inl c)])
            ∧ all_closed (([Event (CloseClient c) r] ++ l) ++ [Event (NewClient homeserver [] None None false) (inl c)])) as Hend.
  { intros r l Hl. unfold calm in Hl. rewrite Forall_and in Hl. destruct Hl as [Hc Hs]. split.
    - apply Forall_app; split; [by apply Forall_cons | by repeat constructor].
    - intros c' [Hc'|(?&?&?&?&?& Hin)]%created_app.
      + exfalso. revert Hc'. apply no_client_created. by apply Forall_cons.
      + apply elem_of_cons in Hin as [Hin|Hin%elem_of_nil]; [| done].
        apply (f_equal made) in Hin. cbn in Hin. simplify_eq. exists r. left. }
  intros [a|x|] s' l (-> & Hl & Hn); [| | done]; cbn [finished]; apply runs_call; intros [[]|y]; cbn [of_answer].
  all: split; [done |]; by apply Hend.
Qed.

Lemma plan_tidy r : tidy (plan_login windows bracketed_ok netloc_ok r).
Proof.
  unfold plan_login, login_store, normalized.
  apply tidy_bind; [apply steady_tidy, ask_steady | intros [given prompted]].
  apply tidy_bind; [apply steady_tidy, of_res_steady | intros domain].
  apply tidy_bind; [apply discover_tidy | intros homeserver]. apply steady_tidy.
  repeat first [apply earlier_device_steady | steady_step | apply of_res_steady | apply ask_steady
               | apply steady_ignoring; [exact _ |] | progress cbn beta iota zeta].
Qed.

(** The login of the client was answered, and with this. *)
Definition logged_in (c : nat) (answer : login_answer) l : Prop :=
  ∃ password name, Event (Login c password name) (inl answer) ∈ l.
(** The user that the server told, in answer to a question or to the login. *)
Definition told_user (c : nat) (answer : login_answer) (user : option pystr) l : Prop :=
  user = first_nonblank (la_user answer)
  ∨ ∃ w, Event (Whoami c) (inl w) ∈ l ∧ user = first_nonblank (who_user w).

(** What a call saved, and where. *)
Definition saved_by (ev : sevent) : option (pydict * option pystr) :=
  match ev with Event (SaveCredentials creds path) _ => Some (creds, path) | _ => None end.

(** What a saved dictionary has to do with what happened before. *)
Definition saves_rightly (c : nat) l : Prop :=
  ∀ creds path r, Event (SaveCredentials creds path) r ∈ l →
    ∃ answer token user config saved_to,
      logged_in c answer l ∧ la_token answer = Some token ∧ token ≠ []
      ∧ dget creds (u "access_token") = Some (VStr token)
      ∧ told_user c answer user l ∧ dget creds (u "user_id") = VStr <$> user
      ∧ path = Some saved_to ∧ Event (ResolveSavePath config) (inl (Some saved_to)) ∈ l.

Lemma login_answered c p s :
  runs (ignoring is_exception_x
          (match lp_device p with Some d => call (SetAttribute c AttrDevice (Some d)) | None => ret tt end ;;
           call (Login c (lp_password p) (if lp_e2ee p then u "mmrelay-e2ee" else u "mmrelay")))) s
    (λ o s' l, s = s' ∧ Forall calm l
       ∧ match o with Returns (Some answer) => logged_in c answer l | Running => False | _ => True end).
Proof.
  apply ignoring_runs, runs_bind.
  eapply runs_mono with (Φ := λ o s' l, s = s' ∧ Forall calm l ∧ o ≠ Running).
  { destruct (lp_device p); runs_run; (split_and!; [done | by repeat constructor | done]). }
  intros [[]|x|] s' l (-> & Hl & Hn); cbn [then_runs]; [| by destruct (is_exception_x x) | done].
  apply runs_call. intros [answer|x]; cbn [of_answer].
  - split_and!; [done | by constructor |]. eexists _, _. left.
  - destruct (is_exception_x x); (split_and!; [done | by constructor | done]).
Qed.

Lemma login_user_told c answer s :
  runs (login_user c answer) s (λ o s' l, s = s' ∧ Forall calm l
    ∧ match o with Returns user => told_user c answer user l | Raises _ => True | Running => False end).
Proof.
  unfold login_user. apply runs_try, runs_bind, runs_call. intros [w|x]; cbn [of_answer then_runs].
  - apply runs_ret. cbn [handled app]. split_and!; [done | by repeat constructor |].
    destruct (first_nonblank (who_user w)) as [y|] eqn:E; [right | by left].
    exists w. split; [left | done].
  - cbn [handled]. destruct (WHOAMI_USER_ID_FALLBACK_EXCEPTIONS x); [apply runs_ret |];
      (split_and!; [done | by repeat constructor |]); [by left | done].
Qed.

Lemma sign_device_calm c p reset s :
  runs (when (lp_e2ee p) (sign_device c p reset)) s (λ o s' l, s = s' ∧ Forall calm l ∧ o ≠ Running).
Proof.
  unfold sign_device. runs_run; try (split_and!; [done | by repeat constructor | done]).
  apply ignoring_runs, runs_call. intros [[]|y]; cbn [of_answer then_runs]; [apply runs_raise |].
  - split_and!; [done | by repeat constructor | done].
  - destruct (is_exception_x y); [apply runs_raise |]; (split_and!; [done | by repeat constructor | done]).
Qed.

Lemma new_credentials_spec p answer token user :
  dget (new_credentials p answer token user) (u "access_token") = Some (VStr token)
  ∧ dget (new_credentials p answer token user) (u "user_id") = VStr <$> user.
Proof.
  unfold new_credentials. set (device := default VNone _). clearbody device.
  destruct user; split; vm_compute; done.
Qed.

Lemma logged_in_app c answer l l' : logged_in c answer l' → logged_in c answer (l ++ l').
Proof. intros (pw & n & H). exists pw, n. apply elem_of_app. by right. Qed.
Lemma calm_saves_rightly c l : Forall calm l → saves_rightly c l.
Proof. intros H creds path r Hin. rewrite Forall_forall in H. by apply H in Hin as [_ []]. Qed.

Lemma saves_rightly_app c l l' : Forall no_save l' → saves_rightly c l → saves_rightly c (l' ++ l).
Proof.
  intros Hl' Hs creds path r Hin. apply elem_of_app in Hin as [Hin|Hin].
  { rewrite Forall_forall in Hl'. by apply Hl' in Hin. }
  destruct (Hs creds path r Hin) as (answer & token & user & config & to & H1 & H2 & H3 & H4 & H5 & H6 & H7 & H8).
  exists answer, token, user, config, to. split_and!; try done; [by apply logged_in_app | | apply elem_of_app; by right].
  destruct H5 as [H5|(w & Hw & H5)]; [by left | right]. exists w. split; [apply elem_of_app; by right | done].
Qed.

(** How the login of a client ends. *)
Definition login_ended (c : nat) (o : outcome_x bool) l : Prop :=
  Forall no_client l ∧ saves_rightly c l
  ∧ match o with
    | Returns b => closed c l ∧ (b = true → ∃ creds path, Event (SaveCredentials creds path) (inl tt) ∈ l)
    | Raises _ => True
    | Running => False
    end.

Lemma closing_ends c b l :
  Forall no_client l → saves_rightly c l → (b = true → ∃ creds path, Event (SaveCredentials creds path) (inl tt) ∈ l) →
  ∀ s, runs (call (CloseClient c) ;; ret b) s (λ o s' l', s = s' ∧ login_ended c o (l' ++ l)).
Proof.
  intros Hl Hs Hb s.
  assert (∀ r, saves_rightly c (Event (CloseClient c) r :: l)) as Hs'
    by (intros r; apply (saves_rightly_app _ _ [_]); [by repeat constructor | done]).
  apply runs_bind, runs_call. intros [[]|x]; cbn [of_answer then_runs]; [apply runs_ret |]; cbn [app].
  - split; [done |]. split_and!; [by constructor | apply Hs' | eexists; left |].
    intros (creds & path & Hin)%Hb. exists creds, path. by right.
  - split; [done |]. split_and!; [by constructor | apply Hs' | done].
Qed.

Lemma calm_parts l : Forall calm l → Forall no_client l ∧ Forall no_save l.
Proof. unfold calm. by rewrite Forall_and. Qed.

(** What is left to show when the calls [l0] have been made. *)
Definition login_left (c : nat) s l0 (o : outcome_x bool) (s' : session) l : Prop :=
  s = s' ∧ (∀ b, o = Returns b → login_ended c (Returns b) (l ++ l0)) ∧ o ≠ Running
  ∧ Forall no_client (l ++ l0) ∧ saves_rightly c (l ++ l0).

Lemma login_left_app c s l0 l1 (m : sprog bool) :
  runs m s (login_left c s (l1 ++ l0)) → runs m s (λ o s' l, login_left c s l0 o s' (l ++ l1)).
Proof. intros H. eapply runs_mono; [exact H |]. intros o s' l. unfold login_left. by rewrite <- !app_assoc. Qed.

Lemma login_left_raise c s l0 x : Forall calm l0 → login_left c s [] (Raises x) s l0.
Proof. intros H. rewrite <- (app_nil_r l0) in H. split_and!; [done | done | done | by apply calm_parts | by apply calm_saves_rightly]. Qed.

Lemma login_left_close c s l0 b : Forall no_client l0 → saves_rightly c l0 →
  (b = true → ∃ creds path, Event (SaveCredentials creds path) (inl tt) ∈ l0) →
  runs (call (CloseClient c) ;; ret b) s (login_left c s l0).
Proof.
  intros H1 H2 H3. eapply runs_mono; [by apply (closing_ends c b l0) |]. intros o s' l' (-> & H4 & H5 & H6).
  split_and!; [done | by intros b' -> | by destruct o | done | done].
Qed.

Lemma login_with_runs c p reset s : runs (login_with c p reset) s (login_left c s []).
Proof.
  unfold login_with. apply runs_bind. eapply runs_mono; [apply login_answered |].
  intros [[answer|]|x|] s1 l1 (-> & Hl1 & H1); [| | | done]; cbn [then_runs]; [| | by apply login_left_raise].
  all: apply login_left_app; rewrite app_nil_r.
  2: { apply login_left_close; [by apply calm_parts | by apply calm_saves_rightly | done]. }
  destruct (nonempty_option (la_token answer)) as [token|] eqn:Et.
  2: { apply login_left_close; [by apply calm_parts | by apply calm_saves_rightly | done]. }
  apply nonempty_option_spec in Et as [Et Hne].
  apply runs_bind. eapply runs_mono; [apply login_user_told |].
  intros [user|x|] s2 l2 (-> & Hl2 & H2); [| | done]; cbn [then_runs].
  all: assert (Forall calm (l2 ++ l1)) as Hl by (by apply Forall_app).
  2: { unfold login_left. split_and!; [done | done | done | by apply calm_parts | by apply calm_saves_rightly]. }
  apply login_left_app, runs_bind, runs_call. intros [saved|x]; cbn [of_answer then_runs app].
  2: { assert (Forall calm (Event (ResolveSavePath (lp_config p)) (inr x) :: l2 ++ l1)) by (by constructor).
       split_and!; [done | done | done | by apply calm_parts | by apply calm_saves_rightly]. }
  assert (Forall calm (Event (ResolveSavePath (lp_config p)) (inl saved) :: l2 ++ l1)) as Hl' by (by constructor).
  apply (login_left_app c s2 _ [_]). cbn [app].
  destruct (nonempty_option saved) as [path|] eqn:Es.
  2: { apply login_left_close; [by apply calm_parts | by apply calm_saves_rightly | done]. }
  apply nonempty_option_spec in Es as [-> Hpath].
  set (before := Event (ResolveSavePath _) _ :: l2 ++ l1) in *.
  destruct (new_credentials_spec p answer token user) as [Htoken Huser].
  assert (∀ r, saves_rightly c (Event (SaveCredentials (new_credentials p answer token user) (Some path)) r :: before)) as Hright.
  { intros r creds path' r' Hin. exists answer, token, user, (lp_config p), path.
    assert (creds = new_credentials p answer token user ∧ path' = Some path) as [-> ->].
    { apply elem_of_cons in Hin as [Hin|Hin].
      - apply (f_equal saved_by) in Hin. cbn [saved_by] in Hin. by injection Hin.
      - rewrite Forall_forall in Hl'. by apply Hl' in Hin as [_ []]. }
    split_and!; try done.
    - destruct H1 as (pw & n & H1). exists pw, n. right. right. apply elem_of_app. by right.
    - destruct H2 as [H2|(w & Hw & H2)]; [by left | right]. exists w. split; [right; right; apply elem_of_app; by left | done].
    - right. left. }
  assert (∀ r, Forall no_client (Event (SaveCredentials (new_credentials p answer token user) (Some path)) r :: before)) as Hnc
    by (intros r; constructor; [done | by apply calm_parts]).
  apply runs_bind, runs_call. intros [[]|x]; cbn [of_answer then_runs app]; [| by (split_and!; [done | done | done | apply Hnc | apply Hright])].
  apply (login_left_app c s2 _ [_]). cbn [app].
  apply runs_bind. eapply runs_mono; [apply sign_device_calm |].
  intros [[]|x|] s3 l3 (-> & Hl3 & Hn); cbn [then_runs]; apply calm_parts in Hl3 as [Hl3 Hl3'].
  - apply login_left_app, login_left_close; [by apply Forall_app | by apply saves_rightly_app |].
    intros _. eexists _, _. apply elem_of_app. right. left.
  - split_and!; [done | done | done | by apply Forall_app | by apply saves_rightly_app].
  - done.
Qed.

(** How a login ends, after the calls [l]. *)
Definition login_done (o : outcome_x bool) l : Prop :=
  (Forall no_save l ∨ ∃ c, created c l ∧ saves_rightly c l)
  ∧ (o = Returns true → ∃ creds path, Event (SaveCredentials creds path) (inl tt) ∈ l)
  ∧ (∀ b, o = Returns b → all_closed l).

Lemma created_before c l l' : created c l → created c (l ++ l').
Proof. intros (h & us & d & p & e & Hin). exists h, us, d, p, e. apply elem_of_app. by left. Qed.

Lemma saves_rightly_before c l l' : Forall no_save l' → saves_rightly c l → saves_rightly c (l ++ l').
Proof.
  intros Hl' H creds path r Hin. apply elem_of_app in Hin as [Hin|Hin].
  2: { rewrite Forall_forall in Hl'. by apply Hl' in Hin. }
  destruct (H creds path r Hin) as (answer & token & user & config & to & (pw & n & H1) & H2 & H3 & H4 & H5 & H6 & H7 & H8).
  exists answer, token, user, config, to.
  split_and!; try done; [exists pw, n; apply elem_of_app; by left | | apply elem_of_app; by left].
  destruct H5 as [H5|(w & Hw & H5)]; [by left | right]. exists w. split; [apply elem_of_app; by left | done].
Qed.

Lemma login_done_before o l l' : Forall no_save l' → all_closed l' → login_done o l → login_done o (l ++ l').
Proof.
  intros Hs Hc (H1 & H2 & H3). split_and!.
  - destruct H1 as [H1|(c & H1 & H4)]; [left; by apply Forall_app | right].
    exists c. split; [by apply created_before | by apply saves_rightly_before].
  - intros Ho. destruct (H2 Ho) as (creds & path & Hin). exists creds, path. apply elem_of_app. by left.
  - intros b Hb. apply all_closed_app; [by apply (H3 b) | done].
Qed.

Lemma login_done_calm o l : Forall no_save l → all_closed l → o ≠ Returns true → login_done o l.
Proof. intros H1 H2 H3. split_and!; [by left | done | done]. Qed.

Lemma made_nothing ev : made ev = None → all_closed [ev].
Proof.
  intros Hev c (?&?&?&?&?&[Hin|Hin%elem_of_nil]%elem_of_cons); [| done].
  apply (f_equal made) in Hin. by rewrite Hev in Hin.
Qed.

Lemma client_closed c ev l : made ev = Some c → Forall no_client l → closed c l → all_closed (l ++ [ev]).
Proof.
  intros Hev Hl Hc c' [H|H]%created_app; [by apply no_client_created in H |].
  destruct H as (h & us & d & p & e & [Hin|Hin%elem_of_nil]%elem_of_cons); [| done].
  apply (f_equal made) in Hin. rewrite Hev in Hin. cbn in Hin. simplify_eq. apply closed_app. by left.
Qed.

Lemma run_login_runs p reset s : runs (run_login p reset) s (λ o s' l, s = s' ∧ login_done o l).
Proof.
  unfold run_login. apply runs_bind, ignoring_runs, runs_call. intros [c|x]; cbn [of_answer then_runs].
  2: { assert (∀ ev, made ev = None → no_save ev → ∀ o : outcome_x bool, o ≠ Returns true → login_done o [ev]) as H.
       { intros ev H1 H2 o Ho. apply login_done_calm; [by constructor | by apply made_nothing | done]. }
       destruct (LOGIN_EXCEPTIONS x); [apply runs_ret |]; (split; [done |]); by apply H. }
  set (new := Event (NewClient _ _ _ _ _) (inl c)).
  assert (∀ l, created c (l ++ [new])) as Hcr
    by (intros l; eexists _, _, _, _, _; apply elem_of_app; right; left).
  assert (∀ l, saves_rightly c l → saves_rightly c (l ++ [new])) as Hsr
    by (intros l; apply saves_rightly_before; by constructor).
  apply runs_try. eapply runs_mono; [apply login_with_runs |].
  intros o s2 l2 (<- & Hret & Hn & Hc2 & Hs2). rewrite app_nil_r in *.
  destruct o as [b|x|]; [| | done]; cbn [handled].
  - destruct (Hret b eq_refl) as (_ & _ & Hcl & Hsaved). split; [done |].
    split_and!; [right; exists c; auto | | intros; by apply (client_closed c)].
    intros [= ->]. destruct (Hsaved eq_refl) as (creds & path & Hin). exists creds, path. apply elem_of_app. by left.
  - destruct (LOGIN_EXCEPTIONS x); [| split; [done |]; split_and!; [right; exists c; auto | done | done]].
    apply runs_bind, ignoring_runs, runs_call.
    assert (∀ res (o : outcome_x bool), o ≠ Returns true → login_done o (([Event (CloseClient c) res] ++ l2) ++ [new])) as Hend.
    { intros res o Ho. split_and!; [right; exists c; split; [apply Hcr | apply Hsr] | done | intros b _].
      - by apply saves_rightly_app; [repeat constructor |].
      - apply (client_closed c); [done | by constructor | eexists; left]. }
    intros [[]|y]; cbn [of_answer then_runs]; [| destruct (cleanup_errors y)]; [apply runs_ret ..|];
      (split; [done |]); by apply (Hend (_ : unit + xn)).
Qed.

Lemma login_matrix_bot_runs r s :
  runs (login_matrix_bot windows bracketed_ok netloc_ok r) s (λ o s' l,
    s = s'
    ∧ (Forall no_save l ∨ ∃ c, created c l ∧ saves_rightly c l)
    ∧ (o = Returns true → ∃ creds path, Event (SaveCredentials creds path) (inl tt) ∈ l)
    ∧ (∀ b, o = Returns b → all_closed l)).
Proof.
  unfold login_matrix_bot. apply runs_bind, runs_try. eapply runs_mono; [apply plan_tidy |].
  intros [[p|]|x|] s1 l1 (<- & Hl1 & Hc1); cbn [handled then_runs]; [| | | split; [done | by apply login_done_calm]].
  - eapply runs_mono; [apply run_login_runs |]. intros o s' l [<- H]. split; [done |]. by apply login_done_before.
  - apply runs_ret. split; [done |]. by apply login_done_calm.
  - destruct (LOGIN_EXCEPTIONS x); [| split; [done | by apply login_done_calm]].
    apply runs_ret. cbn [then_runs]. apply runs_ret. split; [done |]. by apply login_done_calm.
Qed.
(** C9: A login saves only what the server gave: credentials are saved only after the server answered
    the login of a client made for it, with the token of that answer, with the user that the server
    told, and at a path that was resolved as the place for credentials; True is returned only after
    they were saved; and however a login returns, it has called close on every client that it made. *)
Theorem login_saves_what_the_server_gave r s :
  runs (login_matrix_bot windows bracketed_ok netloc_ok r) s (λ o s' l,
    s = s'
    ∧ (Forall no_save l ∨ ∃ c, created c l ∧ saves_rightly c l)
    ∧ (o = Returns true → ∃ creds path, Event (SaveCredentials creds path) (inl tt) ∈ l)
    ∧ (∀ b, o = Returns b → all_closed l)).
Proof. apply login_matrix_bot_runs. Qed.
End login_bot_facts.

(** ** The credentials of a connection: properties *)

Section credentials_facts.
Context (windows : bool) (expanduser : pystr → pystr) (bracketed_ok netloc_ok : pystr → bool).
Implicit Types (l : list sevent) (s : session).

Definition usable (c : pydict) : Prop := c ≠ [] ∧ _missing_credentials_keys c = [].
Definition no_login (ev : sevent) : Prop := match ev with Event (Login _ _ _) _ => False | _ => True end.
Definition loaded (config : option pydict) (path : option pystr) (c : pydict) l : Prop :=
  Event (LoadCredentials config path) (inl (Some c)) ∈ l.

Lemma filled_text v : filled v = true → strip (text_of v) ≠ [] ∧ v = VStr (text_of v).
Proof. destruct v; cbn; try done. intros H%nonempty_spec. done. Qed.

(** Information that comes from the configuration: its address and its token, both not blank. *)
Definition configured (section : pyval) (a : auth_info) : Prop :=
  ai_credentials a = None
  ∧ ∃ m, section = VDict m ∧ ai_device_id a = None
    ∧ Some (VStr (ai_homeserver a)) = dget m (u "homeserver")
    ∧ Some (VStr (ai_access_token a)) = dget m (u "access_token")
    ∧ strip (ai_homeserver a) ≠ [] ∧ strip (ai_access_token a) ≠ [].
(** Information that comes from credentials loaded after a login that saved some. *)
Definition logged_in_first (config : option pydict) (path : option pystr) (a : auth_info) l : Prop :=
  (∃ creds to, Event (SaveCredentials creds to) (inl tt) ∈ l)
  ∧ ∃ c to user, usable c ∧ loaded config path c l ∧ a = info_of c to user.

Lemma dget_none_text d k : dget_none d k = VStr (text_of (dget_none d k)) → Some (VStr (text_of (dget_none d k))) = dget d k.
Proof. unfold dget_none, dget_or. by destruct (dget d k) as [v|]; [intros <- |]. Qed.

Lemma configured_info_runs config section s :
  runs (configured_info bracketed_ok netloc_ok config section) s (λ o _ l, l = []
    ∧ ∀ a, o = Returns (Some a) → configured section a).
Proof.
  unfold configured_info, normalized, of_res, configured. runs_run; (split; [done |]); intros info [= Hinfo]; subst; cbn.
  all: try match goal with H : _ <$> ?o = Some _ |- _ => destruct o; cbn in H; simplify_eq end.
  all: cbn; split; [done |]; eexists; bool_prop; repeat match goal with H : negb _ = false |- _ => apply negb_false_iff in H end.
  all: repeat match goal with H : filled _ = true |- _ => apply filled_text in H as [? ?] end.
  all: split_and!; try done; by apply dget_none_text.
Qed.

Lemma automatic_login_runs config m path s :
  runs (automatic_login windows bracketed_ok netloc_ok config m path) s (λ o _ l,
    ∀ a, o = Returns (Some a) → logged_in_first config path a l).
Proof.
  unfold automatic_login. apply runs_bind.
  eapply runs_mono with (Φ := λ _ _ _, True); [unfold normalized, of_res; runs_run; done |].
  intros [username|x|] s1 l1 _; cbn [then_runs]; [| done | done].
  apply runs_try, runs_bind. eapply runs_mono; [apply login_matrix_bot_runs |].
  intros [b|x|] s2 l2 (<- & _ & Hsaved & _); cbn [then_runs handled];
    [| destruct (is_os_error x); [by apply runs_ret | done] | done].
  destruct b; cbn [negb]; [| by apply runs_ret]. destruct (Hsaved eq_refl) as (creds & saved_to & Hin).
  apply runs_bind, runs_try, runs_call. intros [[c|]|x]; cbn [of_answer handled then_runs].
  2: { by apply runs_ret. }
  2: { destruct (load_errors x); [apply runs_ret; cbn [then_runs]; by apply runs_ret |]. cbn [then_runs handled].
       destruct (is_os_error x); [by apply runs_ret | done]. }
  destruct c as [|kv c]; [by apply runs_ret |].
  destruct (_missing_credentials_keys (kv :: c)) as [|] eqn:Em; [| by apply runs_ret].
  unfold of_res. runs_run; try done; intros info; try done. intros [= <-]. split.
  - exists creds, saved_to. rewrite !elem_of_app. tauto.
  - exists (kv :: c). eexists _, _. split_and!; [done | | done]. unfold loaded. in_trace.
Qed.

Lemma stored_info_runs c to s :
  runs (stored_info bracketed_ok netloc_ok c to) s (λ o s' l, l = []
    ∧ ∀ a, o = Returns a → ∃ user, a = info_of c to user).
Proof.
  unfold stored_info, normalized, of_res. runs_run; (split; [done |]); intros info [= <-]; by eexists.
Qed.

(** What follows when the stored credentials cannot be used. *)
Definition no_stored (config : option pydict) (section : pyval) (path : option pystr) : sprog (option auth_info) :=
  match section with
  | VDict m => if _can_auto_create_credentials section then automatic_login windows bracketed_ok netloc_ok config m path
               else configured_info bracketed_ok netloc_ok config section
  | _ => configured_info bracketed_ok netloc_ok config section
  end.

(** How it ends, with the calls [l]. *)
Definition found_elsewhere (config : option pydict) (section : pyval) (path : option pystr)
    (o : outcome_x (option auth_info)) l : Prop :=
  if _can_auto_create_credentials section
  then ∀ a, o = Returns (Some a) → logged_in_first config path a l
  else Forall no_login l ∧ ∀ a, o = Returns (Some a) → configured section a.

Lemma no_stored_runs config section path l1 s : Forall no_login l1 →
  runs (no_stored config section path) s (λ o _ l, found_elsewhere config section path o (l ++ l1)).
Proof.
  intros Hl1. unfold found_elsewhere. destruct (_can_auto_create_credentials section) eqn:Ea.
  - unfold no_stored. destruct section as [| | | | | | |m|]; try done. rewrite Ea.
    eapply runs_mono; [apply automatic_login_runs |]. intros o s' l H a Ho.
    destruct (H a Ho) as [(creds & to & Hin) (c & to' & user & Hu & Hl & Hi)]. split.
    + exists creds, to. apply elem_of_app. by left.
    + exists c, to', user. split_and!; [done | | done]. apply elem_of_app. by left.
  - assert (no_stored config section path = configured_info bracketed_ok netloc_ok config section) as ->
      by (unfold no_stored; destruct section; by rewrite ?Ea).
    eapply runs_mono; [apply configured_info_runs |]. intros o s' l (-> & H). by split.
Qed.

(** The search: where the credentials are to be saved is found out, then they are loaded, with the answer
    [r]; [l] are the calls after that. *)
Definition search_ends (config : option pydict) (section : pyval) (path : option pystr)
    (r : option pydict + xn) (o : outcome_x (option auth_info)) l : Prop :=
  (∃ c, r = inl (Some c) ∧ usable c ∧ l = [] ∧ (∀ a, o = Returns a → ∃ to user, a = Some (info_of c to user)))
  ∨ (∀ c, r = inl (Some c) → ¬ usable c) ∧ found_elsewhere config section path o l.

Lemma found_nothing config section path (o : outcome_x (option auth_info)) l :
  (∀ a, o ≠ Returns a) → Forall no_login l → found_elsewhere config section path o l.
Proof. intros Ho Hl. unfold found_elsewhere. destruct (_can_auto_create_credentials section); [| split; [done |]]; intros a Ha; by destruct (Ho (Some a)). Qed.

(** C23: Stored credentials come first, then a login with the password, then the token of the
    configuration.  Once it is known where credentials would be saved, stored ones are loaded.  If they
    are complete, nothing more is called, and what is returned are they, with nothing changed but the
    form of the user id.  If not, and the configuration has the address, the user and the password
    for a login, what is returned are complete credentials that were loaded after a login that saved
    some; and if it does not, nothing is logged in, and what is returned are the homeserver and the
    token of the configuration, neither of them blank. *)
Theorem stored_credentials_come_first config section path s :
  runs (_resolve_and_load_credentials windows bracketed_ok netloc_ok config section path) s (λ o _ l,
    (∃ x, o = Raises x ∧ l = [Event (ResolveSavePath config) (inr x)])
    ∨ ∃ l' r to, l = l' ++ [Event (LoadCredentials config path) r; Event (ResolveSavePath config) (inl to)]
        ∧ search_ends config section path r o l').
Proof.
  unfold _resolve_and_load_credentials. cbv zeta. fold (no_stored config section path).
  apply runs_bind, runs_call. intros [to|x]; cbn [of_answer then_runs].
  2: { left. by exists x. }
  apply runs_bind, runs_try, runs_call. intros [c|x]; cbn [of_answer handled then_runs].
  2: { destruct (load_errors x).
       2: { right. exists [], (inr x), to. split; [done | right]. split; [done |]. by apply found_nothing. }
       apply runs_ret. cbn [then_runs]. apply runs_bind.
       eapply runs_mono with (Φ := λ _ _ l, Forall no_login l); [destruct (nonempty_option to); runs_run; by repeat constructor |].
       intros [[]|y|] s1 l1 Hl1; cbn [then_runs app].
       - eapply runs_mono; [apply (no_stored_runs config section path l1); done |].
         intros o s' l H. right. exists (l ++ l1), (inr x), to. split; [by rewrite <- !app_assoc | by right].
       - right. exists l1, (inr x), to. split; [by rewrite <- ?app_assoc | right]. split; [done |]. by apply found_nothing.
       - right. exists l1, (inr x), to. split; [by rewrite <- ?app_assoc | right]. split; [done |]. by apply found_nothing. }
  apply runs_bind. eapply runs_mono with (Φ := λ o _ l, Forall no_login l ∧ (c ≠ None → l = [] ∧ o = Returns tt)).
  { destruct c, (nonempty_option to); runs_run; by repeat constructor. }
  intros o1 s1 l1 [Hl1 Hnil].
  assert ((∀ c', c = Some c' → ¬ usable c') → runs (no_stored config section path) s1
            (λ o _ l, ∃ l' r to', ((l ++ l1) ++ [Event (LoadCredentials config path) (inl c)]) ++ [Event (ResolveSavePath config) (inl to)]
               = l' ++ [Event (LoadCredentials config path) r; Event (ResolveSavePath config) (inl to')]
               ∧ search_ends config section path r o l')) as Hnot.
  { intros H. eapply runs_mono; [apply (no_stored_runs config section path l1); done |].
    intros o s' l H'. exists (l ++ l1), (inl c), to. split; [by rewrite <- !app_assoc | right]. split; [| done].
    intros c' [= ->]. by apply H. }
  destruct o1 as [[]|y|]; cbn [then_runs app].
  2, 3: right; exists l1, (inl c), to; (split; [by rewrite <- ?app_assoc | right]); split;
    [intros c' [= ->]; by destruct (Hnil ltac:(done)) | by apply found_nothing].
  destruct c as [[|kv c]|].
  1, 3: eapply runs_mono; [apply Hnot; intros ? [= <-]; by intros [] | intros; by right].
  destruct (_missing_credentials_keys (kv :: c)) eqn:Em.
  2: { eapply runs_mono; [apply Hnot; intros ? [= <-] [_ H]; by rewrite Em in H | intros; by right]. }
  destruct (Hnil ltac:(done)) as [-> _]. apply runs_bind. eapply runs_mono; [apply stored_info_runs |].
  intros o s2 l2 [-> Ha].
  assert (∀ o : outcome_x (option auth_info), (∀ a, o = Returns a → ∃ to user, a = Some (info_of (kv :: c) to user)) →
    search_ends config section path (inl (Some (kv :: c))) o []) as Hfound by (intros o' Ho'; left; by exists (kv :: c)).
  destruct o as [a|x|]; cbn [then_runs]; [apply runs_ret |..]; right; eexists [], _, to; (split; [done |]); apply Hfound.
  - intros a' [= <-]. destruct (Ha a eq_refl) as [user ->]. by exists to, user.
  - done.
  - done.
Qed.
End credentials_facts.

(** ** Findings *)

Section findings.

(** A server that accepts the login; [json] is in the file of credentials, [close] answers to [close]. *)
Definition kind_server (json : option pyval) (close : unit + xn) : env session_op := λ X h o,
  match o in session_op X return X + xn with
  | NewClient _ _ _ _ _ => inl (length h)
  | CloseClient c => if (c <? 3)%nat then inl tt else close
  | SetAttribute _ _ _ => inl tt
  | Login _ _ _ => inl {| la_user := Some (u "@bot:example.org"); la_token := Some (u "token"); la_device := Some (u "DEVICE") |}
  | Whoami _ => inl {| who_user := Some (u "@bot:example.org"); who_device := Some (u "DEVICE") |}
  | DiscoveryInfo _ => inl None
  | CreateSslContext => inl true
  | ResolveSavePath _ => inl (Some (u "/home/bot/credentials.json"))
  | SaveCredentials _ _ => inl tt
  | PathExists _ => inl match json with Some _ => true | None => false end
  | LoadJson _ => inl json
  | _ => inr XOther
  end.

Definition demo_session : session :=
  {| globals := {| matrix_client := None; facade_config := None; matrix_homeserver := None;
                   matrix_access_token := None; bot_user_id := None; facade_rooms := None |};
     bot_user_name := None; room_maps := ∅; invite_state := None |}.
Definition demo_request (homeserver : string) : login_request :=
  {| lr_homeserver := Some (u homeserver); lr_username := Some (u "bot"); lr_password := Some (u "secret");
     lr_logout_others := Some false; lr_config := Some []; lr_reset := false |}.
Definition demo_login (homeserver : string) (json : option pyval) (close : unit + xn) : outcome_x bool * list sevent :=
  let '(o, (_, l)) := login_matrix_bot false (λ _, true) (λ _, true) (demo_request homeserver) (kind_server json close) (demo_session, [])
  in (o, l).

Lemma login_demo : (demo_login "example.org" None (inl tt)).1 = Returns true.
Proof. by vm_compute. Qed.

(** A file of credentials that holds a list ends the login with AttributeError, which no handler
    expects. *)
Lemma list_credentials_escape :
  (demo_login "example.org" (Some (VSeq KList [VStr (u "x")])) (inl tt)).1 = Raises XAttribute.
Proof. by vm_compute. Qed.

(** An address that urlparse refuses ends it with ValueError. *)
Lemma bracket_address_escapes : (demo_login "https://[example.org" None (inl tt)).1 = Raises XValue.
Proof. by vm_compute. Qed.

(** The client cannot be closed after the credentials were saved: False is returned. *)
Lemma saved_login_reported_failed :
  let '(o, l) := demo_login "example.org" None (inr XOS) in
  o = Returns false ∧ Exists (λ ev, is_Some (saved_by ev)) l.
Proof.
  assert (∀ l, existsb (λ ev, match saved_by ev with Some _ => true | None => false end) l = true →
            Exists (λ ev, is_Some (saved_by ev)) l) as H.
  { intros l. induction l as [|ev l IH]; cbn; [done |]. destruct (saved_by ev) eqn:E; intros Hl; [left; by eexists | right; auto]. }
  destruct (demo_login "example.org" None (inr XOS)) as [o l] eqn:E. split.
  - change o with (o, l).1. rewrite <- E. by vm_compute.
  - apply H. change l with (o, l).2. rewrite <- E. by vm_compute.
Qed.
End findings.
