(* ===== verification/Weather.v ===== *)
(** * The weather plugin

    Models [src/mmrelay/plugins/weather_plugin.py]: the command with its aliases and its location, the
    requests to the weather service, the texts made of the answers, whatever these hold, and what is
    sent to the mesh and to a room.

    Parameters: [http], what a request for an address comes to; [geocode], the same for the search of a
    place; [fromisoformat], the hour, the text of the hour and the weekday of a time stamp, None where
    it raises ValueError; [local_hour], the hour of the local clock; [circle_mean], the average of
    longitudes on the unit circle; [other_str] as elsewhere.  Numbers are exact rationals: a number of a
    size that Python prints with an exponent is printed without. *)

From Stdlib Require Import String QArith Lqa.
From stdpp Require Import base tactics list numbers sets.
From S2P Require Import Prelude PyStr PyValue PacketRouting Prefixes Replies Commands BasePlugin MeshRelay PingDrop CorePlugins.
Open Scope Z_scope.

(** ** Constants *)

Definition WEATHER_COMMANDS : list pystr := [u "weather"; u "hourly"; u "daily"].
Definition WEATHER_MODE_CURRENT : pystr := u "weather".
Definition WEATHER_MODE_HOURLY : pystr := u "hourly".
Definition WEATHER_MODE_DAILY : pystr := u "daily".
Definition WEATHER_UNITS_METRIC : pystr := u "metric".
Definition WEATHER_UNITS_IMPERIAL : pystr := u "imperial".
Definition DAILY_FORECAST_DAYS : nat := 5.
Definition HOURLY_FORECAST_DAYS : nat := 3.
Definition HOURLY_FORECAST_SLOTS : list (nat * pystr) := [(3%nat, u "+3h"); (6%nat, u "+6h"); (12%nat, u "+12h")].
Definition MAX_FORECAST_LENGTH : nat := 200.
Definition CELSIUS_TO_FAHRENHEIT_MULTIPLIER : Q := 9 # 5.
Definition FAHRENHEIT_OFFSET : Q := 32.
Definition KM_TO_MILES_FACTOR : Q := 621371 # 1000000.
Definition DEGREE_SYMBOL : pystr := [176].
Definition LATITUDE_MAX : Q := 90.
Definition LONGITUDE_MAX : Q := 180.
Definition MSG_UNAVAILABLE : pystr := u "Weather data temporarily unavailable.".
Definition MSG_FETCH : pystr := u "Error fetching weather data.".
Definition MSG_PARSE : pystr := u "Error parsing weather data.".

Definition day_night (day night : pystr) : pystr := u "DAY:" ++ day ++ u "|NIGHT:" ++ night.
Definition both (text : pystr) : pystr := u "BOTH:" ++ text.
Definition WEATHER_CODE_TEXT_MAPPING : list (Z * pystr) :=
  [
   (0, day_night ([9728; 65039] ++ u " Clear sky") ([127769] ++ u " Clear sky"));
   (1, day_night ([127780; 65039] ++ u " Mainly clear") ([127769; 127780; 65039] ++ u " Mainly clear"));
   (2, day_night ([9925; 65039] ++ u " Partly cloudy") ([127769; 9925; 65039] ++ u " Partly cloudy"));
   (3, day_night ([9729; 65039] ++ u " Overcast") ([127769; 9729; 65039] ++ u " Overcast"));
   (45, day_night ([127787; 65039] ++ u " Fog") ([127769; 127787; 65039] ++ u " Fog"));
   (48, day_night ([127787; 65039] ++ u " Depositing rime fog") ([127769; 127787; 65039] ++ u " Depositing rime fog"));
   (51, both ([127783; 65039] ++ u " Light drizzle"));
   (53, both ([127783; 65039] ++ u " Moderate drizzle"));
   (55, both ([127783; 65039] ++ u " Dense drizzle"));
   (56, both ([127783; 65039] ++ u " Light freezing drizzle"));
   (57, both ([127783; 65039] ++ u " Dense freezing drizzle"));
   (61, both ([127783; 65039] ++ u " Light rain"));
   (63, both ([127783; 65039] ++ u " Moderate rain"));
   (65, both ([127783; 65039] ++ u " Heavy rain"));
   (66, both ([127783; 65039] ++ u " Light freezing rain"));
   (67, both ([127783; 65039] ++ u " Heavy freezing rain"));
   (71, both ([10052; 65039] ++ u " Light snow fall"));
   (73, both ([10052; 65039] ++ u " Moderate snow fall"));
   (75, both ([10052; 65039] ++ u " Heavy snow fall"));
   (77, both ([10052; 65039] ++ u " Snow grains"));
   (80, both ([127783; 65039] ++ u " Light rain showers"));
   (81, both ([127783; 65039] ++ u " Moderate rain showers"));
   (82, both ([127783; 65039] ++ u " Violent rain showers"));
   (85, both ([10052; 65039] ++ u " Light snow showers"));
   (86, both ([10052; 65039] ++ u " Heavy snow showers"));
   (95, both ([9928; 65039] ++ u " Thunderstorm"));
   (96, both ([9928; 65039] ++ u " Thunderstorm with slight hail"));
   (99, both ([9928; 65039] ++ u " Thunderstorm with heavy hail"))].

(** ** Values of an answer *)

(** [v[key]], [v.get(key, default)] for a text as key. *)
Definition item (v : pyval) (key : pystr) : res pyval :=
  match v with
  | VDict d => match dget d key with Some x => Ok x | None => Raise KeyError end
  | _ => Raise TypeError
  end.
Definition get_or (v : pyval) (key : pystr) (dflt : pyval) : res pyval :=
  match v with VDict d => Ok (dget_or d key dflt) | _ => Raise AttributeError end.
Definition empty_dict : pyval := VDict [].
Definition empty_list : pyval := VSeq KList [].
(** [v.get(key) or []] *)
Definition series (v : pyval) (key : pystr) : res pyval :=
  let! x := get_or v key VNone in Ok (if truthy x then x else empty_list).

Definition py_len (v : pyval) : res nat :=
  match v with
  | VStr s => Ok (length s)
  | VBytes b => Ok (length b)
  | VSeq _ l => Ok (length l)
  | VDict d => Ok (length d)
  | _ => Raise TypeError
  end.
(** [v[i]] for an index that is not negative. *)
Definition index_at (v : pyval) (i : nat) : res pyval :=
  match v with
  | VStr s => match s !! i with Some c => Ok (VStr [c]) | None => Raise IndexError end
  | VSeq KList l | VSeq KTuple l => match l !! i with Some x => Ok x | None => Raise IndexError end
  | VDict _ => Raise KeyError
  | _ => Raise TypeError
  end.
Definition iterate (v : pyval) : res (list pyval) :=
  match v with
  | VStr s => Ok ((λ c, VStr [c]) <$> s)
  | VSeq _ l => Ok l
  | VDict d => Ok ((λ kv : pystr * pyval, VStr kv.1) <$> d)
  | _ => Raise TypeError
  end.
(** [v[i] if i < len(v) else None] *)
Definition at_or_none (v : pyval) (i : nat) : res pyval :=
  let! n := py_len v in if (i <? n)%nat then index_at v i else Ok VNone.
Definition _safe_get (v : pyval) (i : nat) : pyval :=
  match index_at v i with Ok x => x | Raise _ => VNone end.

(** [v.index(x)] for a text [x], where the call is in a handler of ValueError and AttributeError. *)
Fixpoint position_of (x : pystr) (l : list pyval) (i : nat) : option nat :=
  match l with
  | [] => None
  | v :: l => if py_eqb v (VStr x) then Some i else position_of x l (S i)
  end.
Fixpoint text_position (x s : pystr) (i : nat) : option nat :=
  if startswith s x then Some i
  else match s with [] => None | _ :: s => text_position x s (S i) end.
Definition index_of (v : pyval) (x : pystr) : option nat :=
  match v with
  | VStr s => text_position x s 0
  | VSeq KList l | VSeq KTuple l => position_of x l 0
  | _ => None
  end.

(** [s.replace("Z", "+00:00")] *)
Definition replace_z (s : pystr) : pystr := s ≫= λ c, if c =? 90 then u "+00:00" else [c].

(** The text of [round(v, 1)] and of [round(v)]. *)
Definition round1 (v : pyval) : res pystr :=
  match v with
  | VBool b => Ok (str_of_int (if b then 1 else 0))
  | VInt z => Ok (str_of_int z)
  | VFloat (FFin q) => Ok (fixed 1 q)
  | VFloat (FInf negative) => Ok (if negative then u "-inf" else u "inf")
  | VFloat FNan => Ok (u "nan")
  | _ => Raise TypeError
  end.
Definition round0 (v : pyval) : res pystr :=
  match v with
  | VBool b => Ok (str_of_int (if b then 1 else 0))
  | VInt z => Ok (str_of_int z)
  | VFloat (FFin q) => Ok (str_of_int (round_half_even q))
  | VFloat (FInf _) => Raise OverflowError
  | VFloat FNan => Raise ValueError
  | _ => Raise TypeError
  end.
(** [v * factor + offset] for a factor that is a float. *)
Definition scaled (v : pyval) (factor offset : Q) : res pyval :=
  match v with
  | VBool _ | VInt _ | VFloat _ =>
      let! f := float_of_val v in
      Ok (VFloat match f with FFin q => FFin (q * factor + offset)%Q | f => f end)
  | _ => Raise TypeError
  end.

(** ** The command *)

(** The plugin, with the aliases of its commands. *)
Record weather_plugin := { w_plugin : plugin; _command_aliases : pydict }.

Section weather.
Context (other_str : pyval → pystr).
Abbreviation str := (to_str other_str).

(** Keys of a dictionary are texts here; an alias is stored under its last target. *)
Definition load_aliases (raw_aliases : pydict) : pydict :=
  foldl (λ aliases '(alias, target),
           let target_lc := lower (str target) in
           if bool_decide (target_lc ∈ WEATHER_COMMANDS) then dset aliases (lower alias) (VStr target_lc) else aliases)
    [] raw_aliases.
Definition _load_command_aliases (p : plugin) : weather_plugin :=
  {| w_plugin := p;
     _command_aliases := match dget_or (pl_config p) (u "command_aliases") (VDict []) with
                         | VDict raw_aliases => load_aliases raw_aliases
                         | _ => []
                         end |}.

Definition alias_target (w : weather_plugin) (cmd : pystr) : pystr :=
  match dget (_command_aliases w) cmd with Some (VStr target) => target | _ => cmd end.
Definition _normalize_mode (w : weather_plugin) (mode : pystr) : pystr :=
  let cmd := alias_target w (lower (if nonempty mode then mode else WEATHER_MODE_CURRENT)) in
  if bool_decide (cmd ∈ WEATHER_COMMANDS) then cmd else WEATHER_MODE_CURRENT.

Definition get_mesh_commands (w : weather_plugin) : list pystr :=
  WEATHER_COMMANDS ++ filter (λ a, a ∉ WEATHER_COMMANDS) (_command_aliases w).*1.

(** The configured units. *)
Definition weather_units (w : weather_plugin) : pystr :=
  let units := match dget_or (pl_config (w_plugin w)) (u "units") (VStr WEATHER_UNITS_METRIC) with
               | VStr s => lower (strip s)
               | _ => WEATHER_UNITS_METRIC
               end in
  if bool_decide (units ∈ [WEATHER_UNITS_METRIC; WEATHER_UNITS_IMPERIAL]) then units else WEATHER_UNITS_METRIC.
Definition imperial (units : pystr) : bool := str_eqb units WEATHER_UNITS_IMPERIAL.

(** The hours that are shown, with their labels. *)
Definition HOURLY_CONFIG (mode_key : pystr) : list (nat * pystr) :=
  if str_eqb mode_key WEATHER_MODE_HOURLY then HOURLY_FORECAST_SLOTS else [].

(** ** Texts *)

(** The part in front of [sep] and the part behind it. *)
Fixpoint split_at (sep s : pystr) : pystr * option pystr :=
  if startswith s sep then ([], Some (drop (length sep) s))
  else match s with
       | [] => ([], None)
       | c :: s => let '(a, b) := split_at sep s in (c :: a, b)
       end.

(** A code that cannot be hashed raises. *)
Definition hashable_code (v : pyval) : bool :=
  match v with VSeq KList _ | VSeq KSet _ | VDict _ => false | _ => true end.
Definition code_text (weather_code : pyval) : option pystr :=
  snd <$> List.find (λ kv : Z * pystr, py_eqb weather_code (VInt kv.1)) WEATHER_CODE_TEXT_MAPPING.
Definition _weather_code_to_text (weather_code : pyval) (is_day : bool) : res pystr :=
  if negb (hashable_code weather_code) then Raise TypeError
  else Ok match code_text weather_code with
          | None => [10067] ++ u " Unknown"
          | Some text =>
              if startswith text (u "DAY:") then
                if is_day then (split_at (u "|") (drop 4 text)).1
                else match split_at (u "|NIGHT:") text with
                     | (_, Some night) => (split_at (u "|NIGHT:") night).1
                     | (day, None) => drop 4 day
                     end
              else if startswith text (u "BOTH:") then drop 5 text
              else text
          end.

Definition _trim_to_max_bytes (text : pystr) : res pystr :=
  match encode text with
  | None => Raise UnicodeEncodeError
  | Some encoded => Ok (if (length encoded <=? MAX_FORECAST_LENGTH)%nat then text
                        else decode_ignore (take MAX_FORECAST_LENGTH encoded))
  end.
Definition BAR : pystr := u " | ".

(** [x is not None]: a text made of [x], else nothing. *)
Definition unless_none (v : pyval) (text : pyval → res pystr) : res pystr :=
  match v with VNone => Ok [] | v => text v end.

(** The wave of one slot, without its label. *)
Definition height_unit (units : pystr) : pystr := if imperial units then u "ft" else u "m".
Definition wave_text (height period direction : pyval) (units : pystr) : res pystr :=
  let! h := round1 height in
  let! p := unless_none period (λ v, let! t := round1 v in Ok (u " (" ++ t ++ u "s)")) in
  let! d := unless_none direction (λ v, let! t := round0 v in Ok (u " " ++ t ++ DEGREE_SYMBOL)) in
  Ok (h ++ height_unit units ++ p ++ d).
Definition WAVES : pystr := [127754] ++ u " Waves ".

(** ** Requests *)

(** [HttpFailed]: the request, or the status of the answer, raised RequestException; otherwise the
    document of the body, None when it is not JSON. *)
Inductive http_answer := HttpFailed | HttpBody (document : option pyval).
Record datetime := { dt_hour : nat; dt_hour_key : pystr; dt_weekday : pystr }.
Context (http : pystr → http_answer) (geocode : pystr → http_answer)
  (fromisoformat : pystr → option datetime) (local_hour : nat) (circle_mean : list Q → Q).

Definition json_of (document : option pyval) : res pyval :=
  match document with Some v => Ok v | None => Raise ValueError end.
(** [datetime.fromisoformat(v)] *)
Definition parse_time (v : pyval) : res datetime :=
  match v with
  | VStr s => match fromisoformat s with Some t => Ok t | None => Raise ValueError end
  | _ => Raise TypeError
  end.
(** [datetime.fromisoformat(v.replace("Z", "+00:00"))] *)
Definition parse_z_time (v : pyval) : res datetime :=
  match v with
  | VStr s => match fromisoformat (replace_z s) with Some t => Ok t | None => Raise ValueError end
  | _ => Raise AttributeError
  end.

(** ** The sea *)

Definition marine_url (latitude longitude : pyval) (mode_key units : pystr) : pystr :=
  u "https://marine-api.open-meteo.com/v1/marine?latitude=" ++ str latitude ++ u "&longitude=" ++ str longitude
  ++ (if str_eqb mode_key WEATHER_MODE_DAILY then
        u "&daily=wave_height_max,wave_direction_dominant,wave_period_max&forecast_days="
        ++ str_of_int (Z.of_nat DAILY_FORECAST_DAYS)
      else if str_eqb mode_key WEATHER_MODE_CURRENT then u "&current=wave_height,wave_direction,wave_period"
      else u "&hourly=wave_height,wave_direction,wave_period&current=wave_height")
  ++ u "&timezone=auto&length_unit=" ++ units.

Definition _format_current_marine (data : pyval) (units : pystr) : res (option pystr) :=
  let! current := get_or data (u "current") empty_dict in
  let! wave_height := get_or current (u "wave_height") VNone in
  let! wave_dir := get_or current (u "wave_direction") VNone in
  let! wave_period := get_or current (u "wave_period") VNone in
  match wave_height with
  | VNone => Ok None
  | h => let! t := wave_text h wave_period wave_dir units in Ok (Some (WAVES ++ t))
  end.

(** The parts of the days from [i] on. *)
Fixpoint marine_days (times periods directions : pyval) (units : pystr) (i : nat) (heights : list pyval)
    : res (list pystr) :=
  match heights with
  | [] => Ok []
  | VNone :: heights => marine_days times periods directions units (S i) heights
  | height :: heights =>
      let! label := catching (λ e, match e with IndexError | ValueError => true | _ => false end)
                      (u "D" ++ str_of_int (Z.of_nat i))
                      (let! time := index_at times i in let! t := parse_time time in Ok (dt_weekday t)) in
      let! period := at_or_none periods i in
      let! direction := at_or_none directions i in
      let! part := wave_text height period direction units in
      let! parts := marine_days times periods directions units (S i) heights in
      Ok ((label ++ u ": " ++ part) :: parts)
  end.
Definition _format_daily_marine (data : pyval) (units : pystr) : res (option pystr) :=
  let! daily := get_or data (u "daily") empty_dict in
  let! heights := series daily (u "wave_height_max") in
  let! directions := series daily (u "wave_direction_dominant") in
  let! periods := series daily (u "wave_period_max") in
  let! times := series daily (u "time") in
  if negb (truthy heights) then Ok None
  else
    let! heights := iterate heights in
    let! day_parts := marine_days times periods directions units 0 heights in
    match day_parts with
    | [] => Ok None
    | _ => let! t := _trim_to_max_bytes (WAVES ++ join BAR day_parts) in Ok (Some t)
    end.

Definition marine_slot (heights periods directions : pyval) (units label : pystr) (idx : nat) : res (list pystr) :=
  let! h := at_or_none heights idx in
  match h with
  | VNone => Ok []
  | h =>
      let! p := at_or_none periods idx in
      let! d := at_or_none directions idx in
      let! part := wave_text h p d units in
      Ok [label ++ u ": " ++ part]
  end.
Fixpoint marine_slots (heights periods directions : pyval) (units : pystr) (base_index last_index : nat)
    (slots : list (nat * pystr)) : res (list pystr) :=
  match slots with
  | [] => Ok []
  | (offset, label) :: slots =>
      let! part := marine_slot heights periods directions units label (Nat.min (base_index + offset) last_index) in
      let! parts := marine_slots heights periods directions units base_index last_index slots in
      Ok (part ++ parts)
  end.
Definition _format_hourly_marine (data : pyval) (base_index : nat) (slots : list (nat * pystr)) (units : pystr)
    : res (option pystr) :=
  let! hourly := get_or data (u "hourly") empty_dict in
  let! heights := series hourly (u "wave_height") in
  let! directions := series hourly (u "wave_direction") in
  let! periods := series hourly (u "wave_period") in
  if negb (truthy heights) then Ok None
  else
    let! now_height := at_or_none heights base_index in
    match now_height with
    | VNone => Ok None
    | _ =>
        let! now := marine_slot heights periods directions units (u "Now") base_index in
        let! n := py_len heights in
        let! parts := marine_slots heights periods directions units base_index (n - 1) slots in
        match now ++ parts with
        | [] => Ok None
        | slot_parts => let! t := _trim_to_max_bytes (WAVES ++ join BAR slot_parts) in Ok (Some t)
        end
    end.

(** The index of the present hour. *)
Definition marine_base (data : pyval) : res nat :=
  let! current := get_or data (u "current") empty_dict in
  let! current_time := get_or current (u "time") VNone in
  if negb (truthy current_time) then Ok 0%nat
  else
    catching (λ e, match e with ValueError | AttributeError => true | _ => false end) local_hour
      (let! t := parse_z_time current_time in
       let! hourly := get_or data (u "hourly") empty_dict in
       let! hourly_times := get_or hourly (u "time") empty_list in
       if truthy hourly_times then
         match index_of hourly_times (dt_hour_key t) with Some i => Ok i | None => Raise ValueError end
       else Ok 0%nat).

(** Whatever is raised is answered with None. *)
Definition generate_marine_forecast (w : weather_plugin) (latitude longitude : pyval) (mode units : pystr)
    : option pystr :=
  let mode_key := _normalize_mode w mode in
  match http (marine_url latitude longitude mode_key units) with
  | HttpFailed => None
  | HttpBody document =>
      match (let! data := json_of document in
             if str_eqb mode_key WEATHER_MODE_DAILY then _format_daily_marine data units
             else if str_eqb mode_key WEATHER_MODE_CURRENT then _format_current_marine data units
             else let! base_index := marine_base data in
                  _format_hourly_marine data base_index (HOURLY_CONFIG mode_key) units) with
      | Ok text => text
      | Raise _ => None
      end
  end.

(** ** The land *)

Definition OPEN_METEO_HOURLY_FIELDS : list pystr :=
  [u "temperature_2m"; u "precipitation_probability"; u "weathercode"; u "is_day"; u "relativehumidity_2m";
   u "windspeed_10m"; u "winddirection_10m"].
Definition OPEN_METEO_DAILY_FIELDS : list pystr :=
  [u "weathercode"; u "temperature_2m_max"; u "temperature_2m_min"].
Definition forecast_url (latitude longitude : pyval) (daily_days : nat) : pystr :=
  u "https://api.open-meteo.com/v1/forecast?latitude=" ++ str latitude ++ u "&longitude=" ++ str longitude
  ++ u "&hourly=" ++ join (u ",") OPEN_METEO_HOURLY_FIELDS ++ u "&daily=" ++ join (u ",") OPEN_METEO_DAILY_FIELDS
  ++ u "&forecast_days=" ++ str_of_int (Z.of_nat daily_days) ++ u "&timezone=auto&current_weather=true".

(** [t * 9 / 5 + 32 if t is not None else None] for imperial units. *)
Definition in_units (units : pystr) (t : pyval) : res pyval :=
  match t with
  | VNone => Ok VNone
  | t => if imperial units then scaled t CELSIUS_TO_FAHRENHEIT_MULTIPLIER FAHRENHEIT_OFFSET else Ok t
  end.
Fixpoint all_in_units (units : pystr) (l : list pyval) : res (list pyval) :=
  match l with
  | [] => Ok []
  | t :: l => let! t := in_units units t in let! l := all_in_units units l in Ok (t :: l)
  end.
Definition series_in_units (units : pystr) (v : pyval) : res pyval :=
  if imperial units then let! l := iterate v in let! l := all_in_units units l in Ok (VSeq KList l) else Ok v.

Definition day_segment (codes maxima minima times : pyval) (temperature_unit : pystr) (i : nat) : res pystr :=
  let! time := index_at times i in
  let! t := parse_time time in
  let! max_temp := index_at maxima i in
  let! min_temp := index_at minima i in
  let! code := index_at codes i in
  match max_temp, min_temp, code with
  | VNone, _, _ | _, VNone, _ | _, _, VNone => Ok (dt_weekday t ++ u ": Data unavailable")
  | _, _, _ =>
      let! text := _weather_code_to_text code true in
      let! a := round1 max_temp in
      let! b := round1 min_temp in
      Ok (dt_weekday t ++ u ": " ++ text ++ u " " ++ a ++ temperature_unit ++ u "/" ++ b ++ temperature_unit)
  end.
(** [days] segments from [i] on. *)
Fixpoint day_segments (codes maxima minima times : pyval) (temperature_unit : pystr) (i days : nat)
    : res (list pystr) :=
  match days with
  | O => Ok []
  | S days =>
      let! segment := day_segment codes maxima minima times temperature_unit i in
      let! segments := day_segments codes maxima minima times temperature_unit (S i) days in
      Ok (segment :: segments)
  end.
Definition _build_daily_forecast (data : pyval) (units temperature_unit : pystr) (daily_days : nat) : res pystr :=
  let! daily := get_or data (u "daily") empty_dict in
  let! daily_codes := series daily (u "weathercode") in
  let! daily_max := series daily (u "temperature_2m_max") in
  let! daily_min := series daily (u "temperature_2m_min") in
  let! daily_times := series daily (u "time") in
  let! daily_max := series_in_units units daily_max in
  let! daily_min := series_in_units units daily_min in
  let! n1 := py_len daily_codes in
  let! n2 := py_len daily_max in
  let! n3 := py_len daily_min in
  let! n4 := py_len daily_times in
  match Nat.min n1 (Nat.min n2 (Nat.min n3 (Nat.min n4 daily_days))) with
  | O => Ok MSG_UNAVAILABLE
  | days =>
      let! segments := day_segments daily_codes daily_max daily_min daily_times temperature_unit 0 days in
      _trim_to_max_bytes (join BAR segments)
  end.

(** What is known of one hour; the temperature is rounded, in the units that are shown. *)
Record hour_data := {
  hd_temp : option pystr; hd_precip : pyval; hd_code : pyval; hd_day : pyval;
  hd_humidity : pyval; hd_wind : pyval; hd_wind_dir : pyval }.
Definition rounded (t : pyval) : res (option pystr) :=
  match t with VNone => Ok None | t => let! s := round1 t in Ok (Some s) end.

(** The values at an index, the temperature still as it came. *)
Definition get_hourly (hourly temps precips humidities windspeeds winddirs is_day : pyval) (idx : nat)
    : res (pyval * hour_data) :=
  let! codes := get_or hourly (u "weathercode") empty_list in
  let! days := get_or hourly (u "is_day") VNone in
  Ok (_safe_get temps idx,
      {| hd_temp := None; hd_precip := _safe_get precips idx; hd_code := _safe_get codes idx;
         hd_day := if truthy days then _safe_get days idx else is_day;
         hd_humidity := _safe_get humidities idx; hd_wind := _safe_get windspeeds idx;
         hd_wind_dir := _safe_get winddirs idx |}).
Fixpoint fetch_hours (hourly temps precips humidities windspeeds winddirs is_day : pyval) (idxs : list nat)
    : res (list (pyval * hour_data)) :=
  match idxs with
  | [] => Ok []
  | idx :: idxs =>
      let! h := get_hourly hourly temps precips humidities windspeeds winddirs is_day idx in
      let! hs := fetch_hours hourly temps precips humidities windspeeds winddirs is_day idxs in
      Ok (h :: hs)
  end.
Fixpoint convert_hours (units : pystr) (l : list (pyval * hour_data)) : res (list (pyval * hour_data)) :=
  match l with
  | [] => Ok []
  | (t, h) :: l => let! t := in_units units t in let! l := convert_hours units l in Ok ((t, h) :: l)
  end.
Definition set_temp (t : option pystr) (h : hour_data) : hour_data :=
  {| hd_temp := t; hd_precip := hd_precip h; hd_code := hd_code h; hd_day := hd_day h;
     hd_humidity := hd_humidity h; hd_wind := hd_wind h; hd_wind_dir := hd_wind_dir h |}.
Fixpoint round_hours (l : list (pyval * hour_data)) : res (list hour_data) :=
  match l with
  | [] => Ok []
  | (t, h) :: l => let! t := rounded t in let! l := round_hours l in Ok (set_temp t h :: l)
  end.

(** The beginning of the text: the weather now. *)
Definition now_text (current_temp : option pystr) (code is_day : pyval) (temperature_unit : pystr) : res pystr :=
  let! text := _weather_code_to_text code (truthy is_day) in
  Ok (u "Now: " ++ text ++ u " - "
      ++ match current_temp with Some t => t ++ temperature_unit | None => u "Data unavailable" end).

Definition current_forecast (now : hour_data) (current_temp : option pystr) (code is_day : pyval)
    (units temperature_unit : pystr) : res pystr :=
  let! wind := match hd_wind now with
               | VNone => Ok VNone
               | v => if imperial units then scaled v KM_TO_MILES_FACTOR 0 else Ok v
               end in
  let! first := now_text current_temp code is_day temperature_unit in
  let! humidity := unless_none (hd_humidity now) (λ v, let! t := round0 v in Ok (BAR ++ u "Humidity " ++ t ++ u "%")) in
  let! wind := unless_none wind (λ v,
    let! t := round1 v in
    let! d := unless_none (hd_wind_dir now) (λ v, let! t := round0 v in Ok (u " " ++ t ++ DEGREE_SYMBOL)) in
    Ok (BAR ++ u "Wind " ++ t ++ (if imperial units then u "mph" else u "km/h") ++ d)) in
  let! precip := unless_none (hd_precip now) (λ v, Ok (BAR ++ u "Precip " ++ str v ++ u "%")) in
  _trim_to_max_bytes (first ++ humidity ++ wind ++ precip).

Fixpoint slot_texts (temperature_unit : pystr) (slots : list pystr) (hours : list hour_data) : res pystr :=
  match slots, hours with
  | slot :: slots, h :: hours =>
      let! text :=
        match hd_temp h, hd_precip h, hd_code h with
        | None, _, _ | _, VNone, _ | _, _, VNone => Ok (u "Data unavailable")
        | Some temp, precip, code =>
            let! text := _weather_code_to_text code (truthy (hd_day h)) in
            Ok (text ++ u " - " ++ temp ++ temperature_unit ++ u " " ++ str precip ++ u "%")
        end in
      let! rest := slot_texts temperature_unit slots hours in
      Ok (BAR ++ slot ++ u ": " ++ text ++ rest)
  | _, _ => Ok []
  end.
Definition _build_hourly_forecast (current_temp : option pystr) (code is_day : pyval) (hours : list hour_data)
    (temperature_unit : pystr) (slots : list pystr) : res pystr :=
  let! first := now_text current_temp code is_day temperature_unit in
  let! rest := slot_texts temperature_unit slots hours in
  _trim_to_max_bytes (first ++ rest).

(** The hour of the time stamp, and the index it stands for. *)
Definition forecast_base (hourly current_time_str : pyval) : res nat :=
  let! current_time := catching (λ e, match e with ValueError => true | _ => false end) None
                         (let! t := parse_z_time current_time_str in Ok (Some t)) in
  let! hourly_times := get_or hourly (u "time") empty_list in
  Ok match current_time with
     | Some t =>
         if truthy hourly_times then default (dt_hour t) (index_of hourly_times (dt_hour_key t)) else dt_hour t
     | None => 0%nat
     end.

(** The weather now and in the hours of [mode_key]. *)
Definition hours_forecast (data : pyval) (mode_key units temperature_unit : pystr) : res pystr :=
  let! current := item data (u "current_weather") in
  let! current_temp := item current (u "temperature") in
  let! current_weather_code := item current (u "weathercode") in
  let! is_day := item current (u "is_day") in
  let! current_time_str := item current (u "time") in
  let! hourly := item data (u "hourly") in
  let! base_index := forecast_base hourly current_time_str in
  let! temps := series hourly (u "temperature_2m") in
  let! precips := series hourly (u "precipitation_probability") in
  let! humidities := series hourly (u "relativehumidity_2m") in
  let! windspeeds := series hourly (u "windspeed_10m") in
  let! winddirs := series hourly (u "winddirection_10m") in
  if negb (truthy temps) then Ok MSG_UNAVAILABLE
  else
    let! n := py_len temps in
    let idxs := (λ slot : nat * pystr, Nat.min (base_index + slot.1) (n - 1)) <$> HOURLY_CONFIG mode_key in
    let! hours := fetch_hours hourly temps precips humidities windspeeds winddirs is_day
                    (idxs ++ [Nat.min base_index (n - 1)]) in
    let! current_temp := in_units units current_temp in
    let! hours := convert_hours units hours in
    let! current_temp := rounded current_temp in
    let! hours := round_hours hours in
    if str_eqb mode_key WEATHER_MODE_CURRENT then
      match last hours with
      | Some now => current_forecast now current_temp current_weather_code is_day units temperature_unit
      | None => Raise KeyError
      end
    else _build_hourly_forecast current_temp current_weather_code is_day hours temperature_unit
           (snd <$> HOURLY_CONFIG mode_key).

Definition malformed (e : pyexc) : bool :=
  match e with
  | KeyError | IndexError | TypeError | ValueError | UnicodeEncodeError | AttributeError => true
  | _ => false
  end.
Definition generate_forecast (w : weather_plugin) (latitude longitude : pyval) (mode : pystr) : res pystr :=
  let mode_key := _normalize_mode w mode in
  let units := weather_units w in
  let temperature_unit := if str_eqb units WEATHER_UNITS_METRIC then [176] ++ u "C" else [176] ++ u "F" in
  let daily := str_eqb mode_key WEATHER_MODE_DAILY in
  let daily_days := if daily then DAILY_FORECAST_DAYS else HOURLY_FORECAST_DAYS in
  match http (forecast_url latitude longitude daily_days) with
  | HttpFailed => Ok MSG_FETCH
  | HttpBody document =>
      catching malformed MSG_PARSE
        (let! data := json_of document in
         if daily then _build_daily_forecast data units temperature_unit daily_days
         else hours_forecast data mode_key units temperature_unit)
  end.

(** ** The place *)

Definition comma_or_space (c : Z) : bool := (c =? 44) || is_space c.
(** [re.split(r"[,\s]+", s)]: [started] is false inside a separator. *)
Fixpoint split_fields (word : pystr) (s : pystr) : list pystr :=
  match s with
  | [] => [reverse word]
  | c :: rest =>
      if comma_or_space c then
        match rest with
        | d :: _ => if comma_or_space d then split_fields word rest else reverse word :: split_fields [] rest
        | [] => [reverse word; []]
        end
      else split_fields (c :: word) rest
  end.
Definition in_range (x bound : Q) : bool := qle (- bound) x && qle x bound.

Definition _parse_location_override (arg_text : pystr) : option (Q * Q) :=
  match split_fields [] (strip arg_text) with
  | [a; b] =>
      match float_of_str a, float_of_str b with
      | Some (FFin lat), Some (FFin lon) =>
          if in_range lat LATITUDE_MAX && in_range lon LONGITUDE_MAX then Some (lat, lon) else None
      | _, _ => None
      end
  | _ => None
  end.

Definition is_number (v : pyval) : bool := match v with VBool _ | VInt _ | VFloat _ => true | _ => false end.
Definition coordinates := (pyval * pyval)%type.

(** The errors named in the handler are answered with None; others leave the function. *)
Definition _geocode_location (query : pystr) : res (option coordinates) :=
  if negb (nonempty query) then Ok None
  else
    match geocode query with
    | HttpFailed => Ok None
    | HttpBody document =>
        let! found :=
          catching (λ e, match e with ValueError | TypeError | KeyError => true | _ => false end) None
            (let! payload := json_of document in
             let! results := series payload (u "results") in
             if negb (truthy results) then Ok None
             else
               let! first := index_at results 0 in
               let! lat := get_or first (u "latitude") VNone in
               let! lon := get_or first (u "longitude") VNone in
               Ok (Some (lat, lon))) in
        match found with
        | Some (lat, lon) =>
            if is_number lat && is_number lon then
              let! a := float_of_val lat in
              let! b := float_of_val lon in
              Ok (Some (VFloat a, VFloat b))
            else Ok None
        | None => Ok None
        end
    end.

Definition _resolve_location_from_args (arg_text : pystr) : res (option coordinates) :=
  if negb (nonempty arg_text) then Ok None
  else match _parse_location_override arg_text with
       | Some (lat, lon) => Ok (Some (VFloat (FFin lat), VFloat (FFin lon)))
       | None => _geocode_location arg_text
       end.

(** The position of a node: finite, as the radio gives it. *)
Definition node_position (info : pyval) : res (option (Q * Q)) :=
  match info with
  | VDict info =>
      let pos := dget_none info (u "position") in
      if negb (truthy pos) then Ok None
      else
        let! lat := get_or pos (u "latitude") VNone in
        let! lon := get_or pos (u "longitude") VNone in
        Ok match num_value lat, num_value lon with Some a, Some b => Some (a, b) | _, _ => None end
  | _ => Ok None
  end.
Fixpoint node_positions (infos : list pyval) : res (list (Q * Q)) :=
  match infos with
  | [] => Ok []
  | info :: infos =>
      let! p := node_position info in
      let! ps := node_positions infos in
      Ok (match p with Some p => p :: ps | None => ps end)
  end.
Definition _determine_mesh_location (nodes : pydict) : res (option coordinates) :=
  let! positions := node_positions nodes.*2 in
  Ok match positions with
     | [] => None
     | _ => Some (VFloat (FFin (mean positions.*1)), VFloat (FFin (circle_mean positions.*2)))
     end.

(** ** The mesh *)

Context (casefold : pystr → pystr) (ci_char : Z → Z → bool) (is_word : Z → bool) (BROADCAST_NUM : Z).

Definition _parse_mesh_command (w : weather_plugin) (message : pystr) : option (pystr * pystr) :=
  match parse_mesh_bang_command casefold ci_char is_word (VStr message) (VStr <$> get_mesh_commands w) false with
  | Some (cmd, args) => Some (_normalize_mode w cmd, args)
  | None => None
  end.

(** The connected radio: its number, if it is known, and its nodes. *)
Record mesh_client := { mc_my_id : option Z; mc_nodes : pydict }.

(** The position of the node that asks, else that of the mesh. *)
Definition asking_location (nodes : pydict) (requesting_node : pyval) : res (option coordinates) :=
  match requesting_node with
  | VDict ((_ :: _) as node) =>
      match dget node (u "position") with
      | Some position =>
          let! has_lat := py_contains position (u "latitude") in
          let! has_lon := if has_lat then py_contains position (u "longitude") else Ok false in
          if has_lat && has_lon then
            let! lat := item position (u "latitude") in
            let! lon := item position (u "longitude") in
            Ok (Some (lat, lon))
          else _determine_mesh_location nodes
      | None => _determine_mesh_location nodes
      end
  | _ => _determine_mesh_location nodes
  end.

(** What is sent: one text with both forecasts when it fits, else one after the other. *)
Definition answer_texts (weather_notice : pystr) (marine : option pystr) : res (list pystr) :=
  match marine with
  | Some ((_ :: _) as marine) =>
      let combined := weather_notice ++ BAR ++ marine in
      match encode combined with
      | None => Raise UnicodeEncodeError
      | Some encoded => Ok (if (length encoded <=? MAX_FORECAST_LENGTH)%nat then [combined] else [weather_notice; marine])
      end
  | _ => Ok [weather_notice]
  end.

(** The forecasts for a place, or the notice that there is none. *)
Definition forecasts (w : weather_plugin) (coords : option coordinates) (mode : pystr) : res (pystr * option pystr) :=
  match coords with
  | Some (lat, lon) =>
      let! weather_notice := generate_forecast w lat lon mode in
      Ok (weather_notice, generate_marine_forecast w lat lon mode (weather_units w))
  | None => Ok (u "Cannot determine location", None)
  end.

(** The text of a text message, stripped; bytes match no command. *)
Definition text_packet (packet : pydict) : res (option pystr) :=
  match dget packet (u "decoded") with
  | None => Ok None
  | Some decoded =>
      let! has_portnum := py_contains decoded (u "portnum") in
      if negb has_portnum then Ok None
      else
        let! portnum := item decoded (u "portnum") in
        if negb (py_in portnum [VStr TEXT_MESSAGE_APP; VInt PORTNUM_TEXT_MESSAGE_APP]) then Ok None
        else
          let! has_text := py_contains decoded (u "text") in
          if negb has_text then Ok None
          else
            let! text := item decoded (u "text") in
            match text with VStr s => Ok (Some (strip s)) | VBytes _ => Ok None | _ => Raise AttributeError end
  end.

(** [packet.get("id")], when it is not None. *)
Definition reply_to (packet : pydict) : option pyval :=
  match dget_none packet (u "id") with VNone => None | i => Some i end.

(** The result: the message was claimed, and the calls that were queued, with their pauses left out.
    Ids of nodes are texts. *)
Definition handle_meshtastic_message (w : weather_plugin) (client : option mesh_client) (packet : pydict)
    : res (bool * list (option (plugin_call * pystr))) :=
  let p := w_plugin w in
  let! message := text_packet packet in
  match message with
  | None => Ok (false, [])
  | Some message =>
      match _parse_mesh_command w message with
      | None => Ok (false, [])
      | Some (mode, arg_text) =>
          let channel := dget_or packet (u "channel") (VInt DEFAULT_CHANNEL) in
          match client with
          | None | Some {| mc_my_id := None |} => Ok (true, [])
          | Some {| mc_my_id := Some my_id; mc_nodes := nodes |} =>
              let direct := py_eqb (dget_none packet (u "to")) (VInt my_id) in
              if negb (is_channel_enabled p channel direct) then Ok (false, [])
              else
                match dget_none packet (u "fromId") with
                | VStr ((_ :: _) as from_id) =>
                    match dget nodes from_id with
                    | None => Ok (true, [])
                    | Some requesting_node =>
                        let! coords := _resolve_location_from_args arg_text in
                        let! coords := match coords with
                                       | Some c => Ok (Some c)
                                       | None => asking_location nodes requesting_node
                                       end in
                        let! notice := forecasts w coords mode in
                        let! texts := answer_texts notice.1 notice.2 in
                        let reply_id := reply_to packet in
                        Ok (true, (λ text, send_message BROADCAST_NUM true p text channel
                                             (if direct then Some (VStr from_id) else None) reply_id) <$> texts)
                    end
                | _ => Ok (true, [])
                end
          end
      end
  end.

(** ** The rooms *)

(** [parsed]: the command and arguments found in the event; [client]: the nodes, if there is a client;
    [send_ok]: the text could be sent, which is done before the reaction. *)
Definition handle_room_message (w : weather_plugin) (html : pystr → pystr) (parsed : option (pystr * pystr))
    (client : option pydict) (send_ok : bool) (event_id : pystr) : option (list room_output) :=
  match parsed with
  | None => None
  | Some (parsed_command, args_text) =>
      let mode := _normalize_mode w parsed_command in
      let cross := RoomReaction (reaction_content event_id [10060]) in
      let content text := RoomText (matrix_content html text false None) in
      let found :=
        let! coords := _resolve_location_from_args args_text in
        match coords, client with
        | Some c, _ => Ok (Some c)
        | None, Some nodes => _determine_mesh_location nodes
        | None, None => Ok None
        end in
      Some match found with
           | Raise _ => [cross]
           | Ok None => if send_ok then [content (u "Cannot determine location"); cross] else [cross]
           | Ok (Some coords) =>
               match forecasts w (Some coords) mode with
               | Raise _ => [cross]
               | Ok (terrestrial, marine) =>
                   let full_forecast := match marine with
                                        | Some ((_ :: _) as m) => terrestrial ++ BAR ++ m
                                        | _ => terrestrial
                                        end in
                   if send_ok then [content full_forecast; RoomReaction (reaction_content event_id [9989])] else [cross]
               end
           end
  end.

(** ** Properties *)

(** What holds of the result, and that only errors of malformed data are raised. *)
Definition good {A : Type} (P : A → Prop) (m : res A) : Prop :=
  match m with Ok a => P a | Raise e => malformed e = true end.

Lemma good_then {A B} (P : A → Prop) (Q : B → Prop) (m : res A) (f : A → res B) :
  good P m → (∀ a, P a → good Q (f a)) → good Q (res_bind m f).
Proof. destruct m; cbn; auto. Qed.

Lemma good_mono {A} (P Q : A → Prop) (m : res A) : good P m → (∀ a, P a → Q a) → good Q m.
Proof. destruct m; cbn; auto. Qed.

Lemma good_catching {A} (P : A → Prop) p d (m : res A) : P d → good P m → good P (catching p d m).
Proof. destruct m; cbn; [done |]. by destruct (p e). Qed.

(** A value all of whose numbers are finite, and small enough for a float. *)
Fixpoint tame (v : pyval) : Prop :=
  match v with
  | VInt z => Z.abs z < float_limit
  | VFloat (FFin _) => True
  | VFloat _ => False
  | VSeq _ l => (fix go l := match l with [] => True | v :: l => tame v ∧ go l end) l
  | VDict d => (fix go (d : pydict) := match d with [] => True | (_, v) :: d => tame v ∧ go d end) d
  | _ => True
  end.

Lemma tame_seq k l : tame (VSeq k l) ↔ Forall tame l.
Proof. induction l as [|v l IH]; cbn; [done |]. rewrite Forall_cons. cbn in IH. by rewrite IH. Qed.
Lemma tame_dict d : tame (VDict d) ↔ Forall (λ kv : pystr * pyval, tame kv.2) d.
Proof.
  induction d as [|[k v] d IH]; [done |]. rewrite Forall_cons. cbn [snd]. rewrite <- IH. done.
Qed.

Lemma tame_dget d key v : tame (VDict d) → dget d key = Some v → tame v.
Proof.
  rewrite tame_dict. induction d as [|[k x] d IH]; cbn; [done |]. intros [Hx Hd]%Forall_cons.
  destruct (str_eqb k key); [by intros [= <-] | auto].
Qed.

Lemma good_item v key : tame v → good tame (item v key).
Proof.
  destruct v; try done. intros H. cbn. destruct (dget d key) as [x|] eqn:E; [| done]. by eapply tame_dget.
Qed.
Lemma good_get_or v key d0 : tame v → tame d0 → good tame (get_or v key d0).
Proof.
  destruct v; try done. intros H H0. cbn. unfold dget_or. destruct (dget d key) as [x|] eqn:E; [| done].
  by eapply tame_dget.
Qed.
Lemma good_series v key : tame v → good tame (series v key).
Proof.
  intros H. unfold series. eapply good_then; [by apply good_get_or |]. intros x Hx. cbn. by destruct (truthy x).
Qed.
Lemma good_py_len v : good (λ _, True) (py_len v).
Proof. by destruct v. Qed.
Lemma good_index_at v i : tame v → good tame (index_at v i).
Proof.
  destruct v as [| | | |s| |k l| |]; try done.
  - intros _. cbn. by destruct (s !! i).
  - intros H%tame_seq. cbn. rewrite Forall_lookup in H.
    destruct k; try done; (destruct (l !! i) eqn:E; [by eapply H | done]).
Qed.
Lemma tame_safe_get v i : tame v → tame (_safe_get v i).
Proof. intros H. apply (good_index_at v i) in H. unfold _safe_get. by destruct (index_at v i). Qed.
Lemma good_iterate v : tame v → good (Forall tame) (iterate v).
Proof.
  destruct v as [| | | |s| |k l|d|]; try done.
  - intros _. apply Forall_fmap, Forall_true. done.
  - apply tame_seq.
  - intros _. apply Forall_fmap, Forall_true. done.
Qed.
Lemma good_scaled v a b : tame v → good tame (scaled v a b).
Proof.
  destruct v as [|b0|z|[q| |]| | | | |]; try done. intros H. cbn in H |- *. unfold float_of_int.
  destruct (Z.leb_spec float_limit (Z.abs z)); [lia | done].
Qed.
Lemma good_round1 v : good (λ _, True) (round1 v).
Proof. by destruct v as [| | |[]| | | | |]. Qed.
Lemma good_round0 v : tame v → good (λ _, True) (round0 v).
Proof. by destruct v as [| | |[]| | | | |]. Qed.

(** *** Texts that can be encoded *)

Definition clean (s : pystr) : Prop := Forall (λ c, is_surrogate c = false) s.
Lemma clean_encode s : clean s → encode s = Some (s ≫= enc1).
Proof.
  intros H. unfold encode. assert (existsb is_surrogate s = false) as ->; [| done].
  induction H as [|c s Hc Hs IH]; [done |]. cbn. by rewrite Hc.
Qed.
Lemma encode_clean s b : encode s = Some b → clean s.
Proof.
  unfold encode. destruct (existsb is_surrogate s) eqn:E; [done |]. intros _. apply Forall_forall. intros c Hc.
  destruct (is_surrogate c) eqn:Es; [| done]. rewrite <- not_true_iff_false in E. destruct E.
  apply existsb_exists. exists c. split; [by apply list_elem_of_In | done].
Qed.
Lemma clean_of (s : pystr) : forallb (λ c, negb (is_surrogate c)) s = true → clean s.
Proof.
  intros H. apply Forall_forall. intros c Hc. rewrite forallb_forall in H.
  apply list_elem_of_In, H in Hc. by apply negb_true_iff.
Qed.
Lemma clean_app s t : clean s → clean t → clean (s ++ t).
Proof. intros. by apply Forall_app. Qed.
Lemma clean_low s : Forall (λ c, c < 55296) s → clean s.
Proof. intros H. eapply Forall_impl; [exact H |]. intros c Hc. cbn in Hc. apply between_false. lia. Qed.
Lemma clean_int z : clean (str_of_int z).
Proof.
  unfold str_of_int. destruct (str_of_int_digits (Z.abs z)) as (H & _); [lia |].
  assert (clean (dec_digits (S (Z.to_nat (Z.log2 (Z.abs z)))) (Z.abs z) [])) as Hd.
  { apply clean_low. eapply Forall_impl; [exact H |]. cbn. lia. }
  destruct (z <? 0); [by apply Forall_cons | done].
Qed.
Lemma clean_fixed n q : clean (fixed n q).
Proof.
  unfold fixed. cbv zeta. repeat apply clean_app; try apply clean_int; try by apply clean_of.
  - by destruct (qlt q 0); apply clean_of.
  - apply clean_low. by apply Forall_replicate.
Qed.
Lemma clean_decode b : clean (decode_ignore b).
Proof.
  assert (∀ n b, (length b ≤ n)%nat → clean (decode_ignore b)) as H; [| by apply (H (length b))].
  clear b. induction n as [|n IH]; intros b Hn; [by destruct b; [constructor | cbn in Hn; lia] |].
  destruct b as [|b0 r0]; [constructor |]. cbn [decode_ignore]. cbn [length] in Hn.
  destruct (b0 <? 128) eqn:E0.
  { apply Forall_cons. split; [| apply IH; lia]. apply between_false. z_bool_hyps. lia. }
  destruct r0 as [|b1 r1]; [constructor |]. cbn [length] in Hn.
  assert (clean (decode_ignore (b1 :: r1))) as Hskip by (apply IH; cbn; lia).
  destruct (dec2 b0 b1) as [c|] eqn:E2.
  { apply Forall_cons. split; [| apply IH; lia]. unfold dec2 in E2.
    destruct (between 194 223 b0 && is_cont b1) eqn:E; simplify_eq. unfold is_cont in *. z_bool_hyps.
    apply between_false. lia. }
  destruct r1 as [|b2 r2]; [exact Hskip |]. cbn [length] in Hn.
  destruct (dec3 b0 b1 b2) as [c|] eqn:E3.
  { apply Forall_cons. split; [| apply IH; lia]. unfold dec3 in E3.
    destruct (_ && negb (is_surrogate _)) eqn:E in E3; simplify_eq. apply andb_true_iff in E as [_ E].
    by apply negb_true_iff in E. }
  destruct r2 as [|b3 r3]; [exact Hskip |]. cbn [length] in Hn.
  destruct (dec4 b0 b1 b2 b3) as [c|] eqn:E4; [| exact Hskip].
  apply Forall_cons. split; [| apply IH; lia]. unfold dec4 in E4.
  destruct (_ && between 65536 1114111 _) eqn:E in E4; simplify_eq. apply andb_true_iff in E as [_ E].
  apply between_spec in E. apply between_false. lia.
Qed.


(** A text that can be sent: it can be encoded, and it fits. *)
Definition fits (text : pystr) : Prop := (utf8_len text ≤ MAX_FORECAST_LENGTH)%nat.
Definition sendable (text : pystr) : Prop := clean text ∧ fits text.

Lemma encode_len s b : encode s = Some b → length b = utf8_len s.
Proof. unfold encode. destruct (existsb is_surrogate s); [done |]. by intros [= <-]. Qed.
Lemma good_trim s : good sendable (_trim_to_max_bytes s).
Proof.
  unfold _trim_to_max_bytes. destruct (encode s) as [b|] eqn:E; [| done]. cbn [good].
  destruct (Nat.leb_spec (length b) MAX_FORECAST_LENGTH).
  - split; [by eapply encode_clean |]. unfold fits. by rewrite <- (encode_len _ _ E).
  - split; [apply clean_decode |]. unfold fits. etrans; [apply decode_ignore_len |]. rewrite length_take. lia.
Qed.
Lemma good_weather_code_to_text code day : good (λ _, True) (_weather_code_to_text code day).
Proof. unfold _weather_code_to_text. by destruct (hashable_code code). Qed.
Lemma good_unless_none v text : (v ≠ VNone → good (λ _, True) (text v)) → good (λ _, True) (unless_none v text).
Proof. destruct v; cbn; auto. all: intros H; by apply H. Qed.

Lemma good_get_dict v key : tame v → good tame (get_or v key empty_dict).
Proof. intros H. by apply good_get_or. Qed.
Lemma good_get_list v key : tame v → good tame (get_or v key empty_list).
Proof. intros H. by apply good_get_or. Qed.
Lemma good_get_none v key : tame v → good tame (get_or v key VNone).
Proof. intros H. by apply good_get_or. Qed.
Lemma good_parse_z_time v : good (λ _, True) (parse_z_time v).
Proof. destruct v as [| | | |s| | | |]; try done. cbn. by destruct (fromisoformat _). Qed.
Lemma good_parse_time v : good (λ _, True) (parse_time v).
Proof. destruct v as [| | | |s| | | |]; try done. cbn. by destruct (fromisoformat _). Qed.
Lemma good_in_units units t : tame t → good tame (in_units units t).
Proof.
  intros H. assert (good tame (if imperial units then scaled t CELSIUS_TO_FAHRENHEIT_MULTIPLIER FAHRENHEIT_OFFSET else Ok t)).
  { destruct (imperial units); [by apply good_scaled | done]. }
  by destruct t.
Qed.
Lemma good_ok {A} (P : A → Prop) a : P a → good P (Ok a).
Proof. done. Qed.
Lemma good_all_in_units units l : Forall tame l → good (Forall tame) (all_in_units units l).
Proof.
  induction 1 as [|t l Ht Hl IH]; [by apply good_ok |]. cbn [all_in_units].
  eapply good_then; [by apply good_in_units |]. intros t' Ht'.
  eapply good_then; [exact IH |]. intros l' Hl'. by apply good_ok, Forall_cons.
Qed.
Lemma good_series_in_units units v : tame v → good tame (series_in_units units v).
Proof.
  intros H. unfold series_in_units. destruct (imperial units); [| done].
  eapply good_then; [by apply good_iterate |]. intros l Hl.
  eapply good_then; [by apply good_all_in_units |]. intros l' Hl'. by apply good_ok, tame_seq.
Qed.
Lemma good_rounded v : good (λ _, True) (rounded v).
Proof. destruct v as [| | |[]| | | | |]; done. Qed.

(** The texts of the days. *)
Lemma good_day_segment codes maxima minima times tu i :
  tame codes → tame maxima → tame minima → tame times →
  good (λ _, True) (day_segment codes maxima minima times tu i).
Proof.
  intros H1 H2 H3 H4. unfold day_segment.
  eapply good_then; [by apply good_index_at |]. intros time _.
  eapply good_then; [apply good_parse_time |]. intros t _.
  eapply good_then; [by apply good_index_at |]. intros a _.
  eapply good_then; [by apply good_index_at |]. intros b _.
  eapply good_then; [by apply good_index_at |]. intros c _.
  assert (good (λ _, True) (let! text := _weather_code_to_text c true in
    let! x := round1 a in let! y := round1 b in
    Ok (dt_weekday t ++ u ": " ++ text ++ u " " ++ x ++ tu ++ u "/" ++ y ++ tu))) as H.
  { eapply good_then; [apply good_weather_code_to_text |]. intros text _.
    eapply good_then; [apply good_round1 |]. intros x _. by eapply good_then; [apply good_round1 |]. }
  by destruct a, b, c.
Qed.
Lemma good_day_segments codes maxima minima times tu days : ∀ i,
  tame codes → tame maxima → tame minima → tame times →
  good (λ _, True) (day_segments codes maxima minima times tu i days).
Proof.
  induction days as [|days IH]; intros i H1 H2 H3 H4; [done |]. cbn [day_segments].
  eapply good_then; [by apply good_day_segment |]. intros s _. eapply good_then; [by apply IH |]. done.
Qed.
Lemma sendable_message s :
  forallb (λ c, negb (is_surrogate c)) s = true → (utf8_len s <=? MAX_FORECAST_LENGTH)%nat = true → sendable s.
Proof. intros H1 H2. split; [by apply clean_of | by apply Nat.leb_le]. Qed.
Lemma sendable_unavailable : sendable MSG_UNAVAILABLE.
Proof. by apply sendable_message. Qed.
Lemma good_build_daily data units tu n : tame data → good sendable (_build_daily_forecast data units tu n).
Proof.
  intros H. unfold _build_daily_forecast.
  eapply good_then; [by apply good_get_dict |]. intros daily Hd.
  eapply good_then; [by apply good_series |]. intros codes Hc.
  eapply good_then; [by apply good_series |]. intros ma Hma.
  eapply good_then; [by apply good_series |]. intros mi Hmi.
  eapply good_then; [by apply good_series |]. intros ti Hti.
  eapply good_then; [by apply good_series_in_units |]. intros ma' Hma'.
  eapply good_then; [by apply good_series_in_units |]. intros mi' Hmi'.
  do 4 (eapply good_then; [apply good_py_len |]; intros ? _).
  destruct (Nat.min _ _); [apply sendable_unavailable |].
  eapply good_then; [by apply good_day_segments |]. intros segments _. apply good_trim.
Qed.

(** The texts of the hours. *)
Definition tame_hour (h : hour_data) : Prop := tame (hd_humidity h) ∧ tame (hd_wind h) ∧ tame (hd_wind_dir h).
Definition tame_entry (th : pyval * hour_data) : Prop := tame th.1 ∧ tame_hour th.2.

Lemma good_fetch_hours hourly temps precips hums winds dirs is_day idxs :
  tame hourly → tame temps → tame hums → tame winds → tame dirs →
  good (λ l, Forall tame_entry l ∧ length l = length idxs)
    (fetch_hours hourly temps precips hums winds dirs is_day idxs).
Proof.
  intros H1 H2 H3 H4 H5. induction idxs as [|i idxs IH]; [done |]. cbn [fetch_hours].
  eapply (good_then tame_entry).
  { unfold get_hourly. eapply good_then; [by apply good_get_list |]. intros codes _.
    eapply good_then; [by apply good_get_none |]. intros days _. apply good_ok.
    repeat split; cbn; by apply tame_safe_get. }
  intros h Hh. eapply good_then; [exact IH |]. intros l [Hl Hn]. apply good_ok. split; [by apply Forall_cons |].
  cbn. by rewrite Hn.
Qed.
Lemma good_convert_hours units l :
  Forall tame_entry l → good (λ l', Forall tame_entry l' ∧ length l' = length l) (convert_hours units l).
Proof.
  induction 1 as [|[t h] l [Ht Hh] Hl IH]; [done |]. cbn [convert_hours].
  eapply good_then; [by apply good_in_units |]. intros t' Ht'.
  eapply good_then; [exact IH |]. intros l' [Hl' Hn]. apply good_ok. cbn. rewrite Hn. split; [| done].
  by apply Forall_cons.
Qed.
Lemma good_round_hours l :
  Forall tame_entry l → good (λ l', Forall tame_hour l' ∧ length l' = length l) (round_hours l).
Proof.
  induction 1 as [|[t h] l [Ht Hh] Hl IH]; [done |]. cbn [round_hours].
  eapply good_then; [apply good_rounded |]. intros t' _.
  eapply good_then; [exact IH |]. intros l' [Hl' Hn]. apply good_ok. cbn. rewrite Hn. split; [| done].
  by apply Forall_cons.
Qed.
Lemma good_now_text t code day tu : good (λ _, True) (now_text t code day tu).
Proof. unfold now_text. by eapply good_then; [apply good_weather_code_to_text |]. Qed.
Lemma good_slot_texts tu slots : ∀ hours, good (λ _, True) (slot_texts tu slots hours).
Proof.
  induction slots as [|slot slots IH]; intros [|h hours]; try done. cbn [slot_texts].
  eapply (good_then (λ _, True)).
  - assert (∀ temp, good (λ _, True) (let! text := _weather_code_to_text (hd_code h) (truthy (hd_day h)) in
      Ok (text ++ u " - " ++ temp ++ tu ++ u " " ++ str (hd_precip h) ++ u "%"))) as H.
    { intros temp. by eapply good_then; [apply good_weather_code_to_text |]. }
    destruct (hd_temp h) as [temp|]; [| done]. specialize (H temp). destruct (hd_precip h), (hd_code h); done.
  - intros text _. by eapply good_then; [apply IH |].
Qed.
Lemma good_build_hourly t code day hours tu slots :
  good sendable (_build_hourly_forecast t code day hours tu slots).
Proof.
  unfold _build_hourly_forecast. eapply good_then; [apply good_now_text |]. intros a _.
  eapply good_then; [apply good_slot_texts |]. intros b _. apply good_trim.
Qed.
Lemma good_number_text v (f : pystr → pystr) : tame v → good (λ _, True) (let! t := round0 v in Ok (f t)).
Proof. intros H. by eapply good_then; [by apply good_round0 |]. Qed.
Lemma good_current_forecast now t code day units tu :
  tame_hour now → good sendable (current_forecast now t code day units tu).
Proof.
  intros (H1 & H2 & H3). unfold current_forecast.
  eapply (good_then tame).
  { assert (good tame (if imperial units then scaled (hd_wind now) KM_TO_MILES_FACTOR 0 else Ok (hd_wind now))).
    { destruct (imperial units); [by apply good_scaled | done]. }
    by destruct (hd_wind now). }
  intros wind Hw. eapply good_then; [apply good_now_text |]. intros a _.
  eapply good_then.
  { apply good_unless_none. intros _. by apply good_number_text. }
  intros b _. eapply good_then.
  { apply good_unless_none. intros _. eapply good_then; [apply good_round1 |]. intros x _.
    eapply good_then; [| done]. apply good_unless_none. intros _. by apply good_number_text. }
  intros c _. eapply good_then; [by apply good_unless_none |]. intros d _. apply good_trim.
Qed.
Lemma good_forecast_base hourly time : tame hourly → good (λ _, True) (forecast_base hourly time).
Proof.
  intros H. unfold forecast_base. eapply (good_then (λ _, True)).
  - apply good_catching; [done |]. by eapply good_then; [apply good_parse_z_time |].
  - intros t _. by eapply good_then; [by apply good_get_list |].
Qed.
Lemma good_hours_forecast data mode units tu :
  tame data → good sendable (hours_forecast data mode units tu).
Proof.
  intros H. unfold hours_forecast.
  eapply good_then; [by apply good_item |]. intros cur Hcur.
  eapply good_then; [by apply good_item |]. intros ct Hct.
  do 3 (eapply good_then; [by apply good_item |]; intros ? ?).
  eapply good_then; [by apply good_item |]. intros hourly Hh.
  eapply good_then; [by apply good_forecast_base |]. intros base _.
  eapply good_then; [by apply good_series |]. intros temps Ht.
  eapply good_then; [by apply good_series |]. intros precips Hp.
  eapply good_then; [by apply good_series |]. intros hums Hhu.
  eapply good_then; [by apply good_series |]. intros winds Hw.
  eapply good_then; [by apply good_series |]. intros dirs Hdirs.
  destruct (negb (truthy temps)); [apply sendable_unavailable |].
  eapply good_then; [apply good_py_len |]. intros n _. cbv zeta.
  eapply good_then; [by apply good_fetch_hours |]. intros l1 [Hl1 Hn1].
  eapply good_then; [by apply good_in_units |]. intros ct' Hct'.
  eapply good_then; [by apply good_convert_hours |]. intros l2 [Hl2 Hn2].
  eapply good_then; [apply good_rounded |]. intros ct'' _.
  eapply good_then; [by apply good_round_hours |]. intros l3 [Hl3 Hn3].
  destruct (str_eqb mode WEATHER_MODE_CURRENT); [| apply good_build_hourly].
  destruct (last l3) as [now|] eqn:E; [| done]. apply good_current_forecast.
  rewrite Forall_forall in Hl3. apply Hl3. by apply last_Some_elem_of.
Qed.

Lemma forecast_sendable w latitude longitude mode :
  (∀ url v, http url = HttpBody (Some v) → tame v) →
  ∃ text, generate_forecast w latitude longitude mode = Ok text ∧ sendable text.
Proof.
  intros Htame. assert (good sendable (generate_forecast w latitude longitude mode) ∧
    ∀ e, generate_forecast w latitude longitude mode ≠ Raise e) as [H1 H2].
  - unfold generate_forecast. cbv zeta. destruct (http _) as [|document] eqn:E.
    { split; [by apply sendable_message | done]. }
    match goal with |- context [catching _ _ ?m] => assert (good sendable m) as Hm end.
    { destruct document as [v|]; [| done]. apply Htame in E. cbn [json_of res_bind].
      destruct (str_eqb _ _); [by apply good_build_daily | by apply good_hours_forecast]. }
    split.
    + apply good_catching; [by apply sendable_message | done].
    + intros e. match goal with |- catching _ _ ?m ≠ _ => destruct m as [text|e'] end; [done |].
      cbn in Hm |- *. by rewrite Hm.
  - destruct (generate_forecast w latitude longitude mode) as [text|e]; [by exists text | by destruct (H2 e)].
Qed.

(** What holds of the result, if there is one. *)
Definition yields {A} (P : A → Prop) (m : res A) : Prop := ∀ a, m = Ok a → P a.
Lemma yields_bind {A B} (P : A → Prop) (Q : B → Prop) (m : res A) (f : A → res B) :
  yields P m → (∀ a, P a → yields Q (f a)) → yields Q (res_bind m f).
Proof. intros Hm Hf b. destruct m as [a|]; [| done]. cbn. apply Hf. by apply Hm. Qed.
Lemma yields_any {A} (m : res A) : yields (λ _, True) m.
Proof. done. Qed.
Lemma yields_ok {A} (P : A → Prop) a : P a → yields P (Ok a).
Proof. by intros ? ? [= <-]. Qed.

Lemma trim_yields s : yields sendable (_trim_to_max_bytes s).
Proof. intros t Ht. pose proof (good_trim s) as H. by rewrite Ht in H. Qed.
Lemma round1_yields v : yields clean (round1 v).
Proof.
  intros t. destruct v as [| | |[q|neg|]| | | | |]; try done; cbn; intros [= <-];
    first [apply clean_int | apply clean_fixed | by destruct neg; apply clean_of | by apply clean_of].
Qed.
Lemma round0_yields v : yields clean (round0 v).
Proof.
  intros t. destruct v as [| | |[q|neg|]| | | | |]; try done; cbn; intros [= <-]; apply clean_int.
Qed.
Lemma unless_none_yields v f : yields clean (f v) → yields clean (unless_none v f).
Proof. destruct v; try done. intros _. by apply yields_ok, clean_of. Qed.
Lemma wave_text_yields h p d units : yields clean (wave_text h p d units).
Proof.
  unfold wave_text. eapply yields_bind; [apply round1_yields |]. intros a Ha.
  eapply yields_bind.
  { apply unless_none_yields. eapply yields_bind; [apply round1_yields |]. intros t Ht. apply yields_ok.
    repeat apply clean_app; try done; by apply clean_of. }
  intros b Hb. eapply yields_bind.
  { apply unless_none_yields. eapply yields_bind; [apply round0_yields |]. intros t Ht. apply yields_ok.
    repeat apply clean_app; try done; by apply clean_of. }
  intros c Hc. apply yields_ok. repeat apply clean_app; try done.
  unfold height_unit. by destruct (imperial units); apply clean_of.
Qed.

(** A marine text can be encoded; that of hours or days fits. *)
Definition marine_text (trimmed : Prop) (t : option pystr) : Prop :=
  ∀ s, t = Some s → clean s ∧ (trimmed → fits s).
Lemma marine_trimmed P s : yields (marine_text P) (let! t := _trim_to_max_bytes s in Ok (Some t)).
Proof. eapply yields_bind; [apply trim_yields |]. intros t [H1 H2]. apply yields_ok. by intros x [= <-]. Qed.
Lemma marine_none P : yields (marine_text P) (Ok None).
Proof. by apply yields_ok. Qed.

Lemma daily_marine_yields P data units : yields (marine_text P) (_format_daily_marine data units).
Proof.
  unfold _format_daily_marine. do 5 (eapply yields_bind; [apply yields_any |]; intros ? _).
  destruct (negb _); [apply marine_none |].
  do 2 (eapply yields_bind; [apply yields_any |]; intros ? _).
  case_match; [apply marine_none | apply marine_trimmed].
Qed.
Lemma hourly_marine_yields P data base slots units : yields (marine_text P) (_format_hourly_marine data base slots units).
Proof.
  unfold _format_hourly_marine. do 4 (eapply yields_bind; [apply yields_any |]; intros ? _).
  destruct (negb _); [apply marine_none |].
  eapply yields_bind; [apply yields_any |]. intros now _.
  assert (yields (marine_text P)
    (let! part := marine_slot a0 a2 a1 units (u "Now") base in
     let! n := py_len a0 in
     let! parts := marine_slots a0 a2 a1 units base (n - 1) slots in
     match part ++ parts with
     | [] => Ok None
     | slot_parts => let! t := _trim_to_max_bytes (WAVES ++ join BAR slot_parts) in Ok (Some t)
     end)) as H.
  { do 3 (eapply yields_bind; [apply yields_any |]; intros ? _).
    case_match; [apply marine_none | apply marine_trimmed]. }
  destruct now; first [apply marine_none | exact H].
Qed.
Lemma current_marine_yields (P : Prop) data units : ¬ P → yields (marine_text P) (_format_current_marine data units).
Proof.
  intros HP. unfold _format_current_marine. eapply yields_bind; [apply yields_any |]. intros current _.
  eapply yields_bind; [apply yields_any |]. intros h _.
  do 2 (eapply yields_bind; [apply yields_any |]; intros ? _).
  assert (yields (marine_text P) (let! t := wave_text h a0 a units in Ok (Some (WAVES ++ t)))) as H.
  { eapply yields_bind; [apply wave_text_yields |]. intros t Ht. apply yields_ok. intros s [= <-].
    split; [| by intros ?]. by apply (clean_app WAVES); [apply clean_of |]. }
  destruct h; first [apply marine_none | exact H].
Qed.
Lemma marine_forecast_text w lat lon mode units :
  marine_text (_normalize_mode w mode ≠ WEATHER_MODE_CURRENT) (generate_marine_forecast w lat lon mode units).
Proof.
  unfold generate_marine_forecast. cbv zeta. set (P := _normalize_mode w mode ≠ WEATHER_MODE_CURRENT).
  destruct (http _) as [|document]; [by intros ? [=] |].
  match goal with |- marine_text _ match ?m with _ => _ end => set (text := m) end.
  assert (yields (marine_text P) text) as H.
  { unfold text. eapply yields_bind; [apply yields_any |]. intros data _.
    destruct (str_eqb _ WEATHER_MODE_DAILY); [apply daily_marine_yields |].
    destruct (str_eqb _ WEATHER_MODE_CURRENT) eqn:E.
    - apply current_marine_yields. unfold P. intros Hn. apply Hn. by apply str_eqb_spec.
    - eapply yields_bind; [apply yields_any |]. intros base _. apply hourly_marine_yields. }
  destruct text; [by apply H | by intros ? [=]].
Qed.

(** *** Commands and places *)

(** A mode is always one of the three. *)
Lemma normalize_mode_known w mode : _normalize_mode w mode ∈ WEATHER_COMMANDS.
Proof. unfold _normalize_mode. cbv zeta. case_bool_decide; [done |]. by apply list_elem_of_here. Qed.

(** What is stored is an alias of one of the three. *)
Lemma load_aliases_known raw :
  Forall (λ kv : pystr * pyval, ∃ t, kv.2 = VStr t ∧ t ∈ WEATHER_COMMANDS) (load_aliases raw).
Proof.
  unfold load_aliases. set (P := λ kv : pystr * pyval, ∃ t, kv.2 = VStr t ∧ t ∈ WEATHER_COMMANDS).
  assert (∀ acc, Forall P acc → Forall P (foldl (λ aliases '(alias, target),
    let target_lc := lower (str target) in
    if bool_decide (target_lc ∈ WEATHER_COMMANDS) then dset aliases (lower alias) (VStr target_lc) else aliases)
    acc raw)) as H; [| by apply H].
  induction raw as [|[alias target] raw IH]; intros acc Hacc; [done |]. cbn [foldl]. apply IH. cbv zeta.
  case_bool_decide as Ht; [| done]. revert Hacc. clear IH.
  induction acc as [|[k v] acc IHa]; cbn.
  - intros _. apply Forall_singleton. by eexists.
  - intros [Hk Ha]%Forall_cons. destruct (str_eqb k (lower alias)); apply Forall_cons; split; auto. by eexists.
Qed.

(** Coordinates that are given are on the globe. *)
Lemma parse_location_override_range arg lat lon :
  _parse_location_override arg = Some (lat, lon) → (-90 <= lat <= 90)%Q ∧ (-180 <= lon <= 180)%Q.
Proof.
  unfold _parse_location_override. intros H.
  destruct (split_fields _ _) as [|a [|b [|]]]; try done.
  destruct (float_of_str a) as [[la| |]|]; try done. destruct (float_of_str b) as [[lo| |]|]; try done.
  destruct (in_range la LATITUDE_MAX && in_range lo LONGITUDE_MAX) eqn:E; [| done]. injection H as <- <-.
  apply andb_true_iff in E as [E1 E2]. unfold in_range, qle in *.
  apply andb_true_iff in E1 as [E1 E1'], E2 as [E2 E2'].
  rewrite !Qle_bool_iff in E1, E1', E2, E2'. unfold LATITUDE_MAX, LONGITUDE_MAX in *. repeat split; done.
Qed.

(** *** What is answered *)

Lemma answer_texts_sendable notice marine P :
  sendable notice → marine_text P marine →
  ∃ texts, answer_texts notice marine = Ok texts ∧ (1 ≤ length texts ≤ 2)%nat ∧
    (∀ t, head texts = Some t → sendable t) ∧ (P → Forall sendable texts).
Proof.
  intros Hn Hm. destruct marine as [[|c marine]|]; cbn [answer_texts].
  1,3: exists [notice]; split; [done |]; split; [cbn; lia |]; split; [by intros ? [= <-] |];
    intros _; by apply Forall_singleton.
  destruct (Hm _ eq_refl) as [Hc Hf].
  assert (clean (notice ++ BAR ++ c :: marine)) as Hall.
  { apply clean_app; [apply Hn |]. by apply clean_app; [apply clean_of |]. }
  set (combined := notice ++ BAR ++ c :: marine) in *. rewrite (clean_encode _ Hall).
  destruct (Nat.leb_spec (length (combined ≫= enc1)) MAX_FORECAST_LENGTH) as [Hl|Hl].
  - exists [combined]. assert (sendable combined) as Hs by (split; [exact Hall | exact Hl]).
    split; [done |]. split; [cbn; lia |]. split; [by intros ? [= <-] |]. intros _. by apply Forall_singleton.
  - exists [notice; c :: marine]. split; [done |]. split; [cbn; lia |]. split; [by intros ? [= <-] |].
    intros HP. apply Forall_cons. split; [exact Hn |]. apply Forall_singleton. split; [exact Hc | by apply Hf].
Qed.

Lemma override_nonempty arg c : _parse_location_override arg = Some c → nonempty arg = true.
Proof. by destruct arg. Qed.

(** C17: A known node that asks for the weather at coordinates, on a channel of the plugin, is answered
    whatever the weather service returns, as long as its numbers are numbers: by one text or two that can
    be sent, the first of which fits into a message, and in the hourly and daily modes all of them.
    Nothing is raised; the answer refers to the request and goes to the node that asked if it asked
    directly. *)
Theorem place_is_answered w my_id nodes packet message mode arg place from_id node :
  let channel := dget_or packet (u "channel") (VInt DEFAULT_CHANNEL) in
  let direct := py_eqb (dget_none packet (u "to")) (VInt my_id) in
  (∀ url v, http url = HttpBody (Some v) → tame v) →
  text_packet packet = Ok (Some message) →
  _parse_mesh_command w message = Some (mode, arg) →
  _parse_location_override arg = Some place →
  is_channel_enabled (w_plugin w) channel direct = true →
  dget_none packet (u "fromId") = VStr from_id → from_id ≠ [] → dget nodes from_id = Some node →
  ∃ texts,
    handle_meshtastic_message w (Some {| mc_my_id := Some my_id; mc_nodes := nodes |}) packet
    = Ok (true, (λ text, send_message BROADCAST_NUM true (w_plugin w) text channel
                           (if direct then Some (VStr from_id) else None)
                           (reply_to packet)) <$> texts)
    ∧ (1 ≤ length texts ≤ 2)%nat
    ∧ (∀ t, head texts = Some t → sendable t)
    ∧ (_normalize_mode w mode ≠ WEATHER_MODE_CURRENT → Forall sendable texts).
Proof.
  intros channel direct Htame Hp Hc Hl Hen Hf Hne Hn. destruct place as [lat lon].
  set (latv := VFloat (FFin lat)). set (lonv := VFloat (FFin lon)).
  destruct (forecast_sendable w latv lonv mode Htame) as (notice & Hnotice & Hsend).
  destruct (answer_texts_sendable notice (generate_marine_forecast w latv lonv mode (weather_units w)) _ Hsend
              (marine_forecast_text _ _ _ _ _)) as (texts & Htexts & Hrest).
  exists texts. split; [| exact Hrest]. unfold handle_meshtastic_message. rewrite Hp. cbn [res_bind].
  rewrite Hc. fold channel direct. cbv zeta. rewrite Hen. cbn [negb]. rewrite Hf.
  destruct from_id as [|c0 from_id]; [done |]. rewrite Hn.
  unfold _resolve_location_from_args. rewrite (override_nonempty _ _ Hl), Hl. cbn [negb res_bind].
  fold latv lonv. unfold forecasts. rewrite Hnotice. cbn [res_bind fst snd]. by rewrite Htexts.
Qed.

(** A message that is no command of the plugin, or whose channel it does not serve, is left to others. *)
Lemma not_asked w client packet :
  text_packet packet = Ok None → handle_meshtastic_message w client packet = Ok (false, []).
Proof. unfold handle_meshtastic_message. by intros ->. Qed.

(** In a room every request that is matched ends with a reaction, the one for success only after a text. *)
Lemma room_reacts w html parsed client send_ok event_id out :
  handle_room_message w html parsed client send_ok event_id = Some out →
  ∃ texts emoji, out = texts ++ [RoomReaction (reaction_content event_id emoji)] ∧
    (emoji = [9989] ∧ length texts = 1%nat ∧ send_ok = true ∨ emoji = [10060]).
Proof.
  unfold handle_room_message. destruct parsed as [[cmd args]|]; [| done]. cbv zeta. intros <-%(inj Some).
  destruct (res_bind _ _) as [[coords|]|].
  - destruct (forecasts _ _ _) as [[terr marine]|]; [destruct send_ok |].
    + eexists [_], _. split; [done |]. by left.
    + exists [], [10060]. split; [done | by right].
    + exists [], [10060]. split; [done | by right].
  - destruct send_ok.
    + eexists [_], [10060]. split; [done | by right].
    + exists [], [10060]. split; [done | by right].
  - exists [], [10060]. split; [done | by right].
Qed.

End weather.

(** ** Examples *)

Definition example_plugin (config : pydict) : weather_plugin :=
  _load_command_aliases (λ v, match v with VStr s => s | _ => [] end)
    {| pl_name := u "weather"; pl_core := true; pl_type := Some (u "core"); pl_config := config;
       pl_channels := [VInt 0]; pl_global_mention := None; pl_delay := VFloat (FFin 0); pl_max_rows := 100 |}.
Definition example_time (s : pystr) : option datetime :=
  Some {| dt_hour := 0; dt_hour_key := s; dt_weekday := u "Mon" |}.
Definition example_days : pyval :=
  VDict [(u "daily", VDict [(u "weathercode", VSeq KList [VInt 61]);
                            (u "temperature_2m_max", VSeq KList [VInt 20]);
                            (u "temperature_2m_min", VSeq KList [VFloat (FFin (21 # 2))]);
                            (u "time", VSeq KList [VStr (u "2024-01-01")])])].
Definition example_hours (humidity : pyval) : pyval :=
  VDict [(u "current_weather", VDict [(u "temperature", VInt 12); (u "weathercode", VInt 3); (u "is_day", VInt 1);
                                      (u "time", VStr (u "2024-01-01T00:00"))]);
         (u "hourly", VDict [(u "temperature_2m", VSeq KList [VInt 12]);
                             (u "relativehumidity_2m", VSeq KList [humidity])])].
Definition example_request : pydict :=
  [(u "fromId", VStr (u "!a")); (u "to", VInt 7); (u "id", VInt 5);
   (u "decoded", VDict [(u "portnum", VStr TEXT_MESSAGE_APP); (u "text", VStr (u "!daily 48.1, 11.5"))])].

Lemma example_daily :
  generate_forecast (λ _, []) (λ _, HttpBody (Some example_days)) example_time (example_plugin []) (VInt 48) (VInt 11)
    (u "daily")
  = Ok (u "Mon: " ++ [127783; 65039] ++ u " Light rain 20" ++ [176] ++ u "C/10.5" ++ [176] ++ u "C").
Proof. by vm_compute. Qed.

Lemma place_is_answered_witness :
  _parse_mesh_command ascii_fold ascii_ci ascii_word (example_plugin []) (u "!daily 48.1, 11.5")
    = Some (u "daily", u "48.1, 11.5") ∧
  ∃ texts,
    handle_meshtastic_message (λ _, []) (λ _, HttpBody (Some example_days)) (λ _, HttpFailed) example_time 0 mean
      ascii_fold ascii_ci ascii_word 4294967295 (example_plugin [])
      (Some {| mc_my_id := Some 7; mc_nodes := [(u "!a", VDict [])] |}) example_request
    = Ok (true, (λ text, send_message 4294967295 true (w_plugin (example_plugin [])) text (VInt 0)
                           (Some (VStr (u "!a"))) (Some (VInt 5))) <$> texts)
    ∧ (1 ≤ length texts ≤ 2)%nat
    ∧ (∀ t, head texts = Some t → sendable t)
    ∧ (_normalize_mode (example_plugin []) (u "daily") ≠ WEATHER_MODE_CURRENT → Forall sendable texts).
Proof.
  split; [by vm_compute |].
  apply (place_is_answered (λ _, []) (λ _, HttpBody (Some example_days)) (λ _, HttpFailed) example_time 0 mean
           ascii_fold ascii_ci ascii_word 4294967295 (example_plugin []) 7 [(u "!a", VDict [])] example_request
           (u "!daily 48.1, 11.5") (u "daily") (u "48.1, 11.5") (481 # 10, 115 # 10)%Q (u "!a") (VDict [])).
  - intros url v [= <-]. cbn. unfold float_limit. repeat split; lia.
  - by vm_compute.
  - by vm_compute.
  - by vm_compute.
  - by vm_compute.
  - by vm_compute.
  - done.
  - by vm_compute.
Defined.

(** A humidity beyond the largest float, which the JSON parser reads as infinite, is not answered with
    the text for malformed data: OverflowError leaves the function. *)
Lemma infinite_humidity_escapes :
  generate_forecast (λ _, []) (λ _, HttpBody (Some (example_hours (VFloat (FInf false))))) example_time
    (example_plugin []) (VInt 48) (VInt 11) WEATHER_MODE_CURRENT
  = Raise OverflowError.
Proof. by vm_compute. Qed.

(** An answer of the search that is a list, not an object, is not malformed for the handler: AttributeError
    leaves the function. *)
Lemma list_of_places_escapes :
  _geocode_location (λ _, HttpBody (Some (VSeq KList [VDict []]))) (u "Berlin") = Raise AttributeError.
Proof. by vm_compute. Qed.

(** An alias of a command that is the target of another alias is resolved again when the forecast is made. *)
Lemma aliases_resolved_twice :
  let w := example_plugin [(u "command_aliases", VDict [(u "w", VStr (u "daily")); (u "daily", VStr (u "hourly"))])] in
  _parse_mesh_command ascii_fold ascii_ci ascii_word w (u "!w") = Some (u "daily", []) ∧
  _normalize_mode w (u "daily") = u "hourly".
Proof. split; by vm_compute. Qed.
