(* ===== verification/CheckConfig.v ===== *)
(** * Checking the configuration

    Models [check_config] of [src/mmrelay/cli.py] with the checks it is made of: the shape of ports, hosts and
    Bluetooth addresses, the credentials and the other ways to authenticate, the rooms, the section of
    the radio and its options.

    The verdict is what the function returns, with the reason that it prints; the texts themselves are
    left out.  [text] is the text of the file at a path, whose document the disk holds; [e2ee_status] is the
    analysis of encryption, of which only the errors matter to the verdict. *)

From Stdlib Require Import String QArith Lqa.
From stdpp Require Import base tactics list numbers sets.
From S2P Require Import Prelude PyStr PyValue PyLib PurePath Paths ConfigEnv ConfigFiles MeshRelay E2eeStatus Health BasePlugin Coerce Connect.
Open Scope Z_scope.

(** ** Addresses *)

Definition MAX_HOSTNAME_LENGTH : nat := 253.
Definition MAX_HOSTNAME_LABEL_LENGTH : nat := 63.
Definition MESHTASTIC_CHANNEL_MIN : Z := 0.
Definition MESHTASTIC_CHANNEL_MAX : Z := 7.
Definition MINIMUM_MESSAGE_DELAY : Q := 2.

(** In front of the newline at the end, where [$] matches too. *)
Definition until_end (s : pystr) : pystr :=
  match reverse s with 10 :: r => reverse r | _ => s end.
Definition no_newline (s : pystr) : bool := forallb (λ c, negb (c =? 10)) s.
Definition decimal_char (c : Z) : bool := match digit_value c with Some _ => true | None => false end.

(** [^COM[1-9]\d*$] *)
Definition WINDOWS_SERIAL_PORT_PATTERN (s : pystr) : bool :=
  match until_end s with
  | 67 :: 79 :: 77 :: c :: digits => between 49 57 c && forallb decimal_char digits
  | _ => false
  end.
(** [^/dev/(tty|cu).+$] *)
Definition some_device (prefix s : pystr) : bool :=
  startswith s prefix && nonempty (drop (length prefix) (until_end s))
  && no_newline (drop (length prefix) (until_end s)).
Definition UNIX_SERIAL_PORT_PATTERN (s : pystr) : bool :=
  some_device (u "/dev/tty") s || some_device (u "/dev/cu") s.
Definition _is_valid_serial_port (is_windows : bool) (port : pyval) : bool :=
  match port with
  | VStr ((_ :: _) as s) => if is_windows then WINDOWS_SERIAL_PORT_PATTERN s else UNIX_SERIAL_PORT_PATTERN s
  | _ => false
  end.

(** [^(?=.{1,253}$)(?!-)[A-Za-z0-9-]{1,63}(?<!-)(\.[A-Za-z0-9-]{1,63}(?<!-))*$] *)
Definition alnum (c : Z) : bool := between 48 57 c || between 65 90 c || between 97 122 c.
Definition DASH : Z := 45.
Definition label_matches (label : pystr) : bool :=
  forallb (λ c, alnum c || (c =? DASH)) label && (1 <=? length label)%nat && (length label <=? 63)%nat
  && negb (bool_decide (last label = Some DASH)).
Definition HOSTNAME_PATTERN (s : pystr) : bool :=
  let body := until_end s in
  no_newline body && (1 <=? length body)%nat && (length body <=? 253)%nat
  && negb (bool_decide (head body = Some DASH)) && forallb label_matches (split_all 46 body).

(** [ipaddress.ip_address(s)] of a text: an IPv4 address, or an IPv6 address with an optional zone. *)
Definition octet_ok (s : pystr) : bool :=
  nonempty s && forallb (between 48 57) s && (length s <=? 3)%nat
  && (str_eqb s (u "0") || negb (bool_decide (head s = Some 48)))
  && match int_of_str s with Some n => n <=? 255 | None => false end.
Definition is_ipv4 (s : pystr) : bool :=
  let octets := split_all 46 s in (length octets =? 4)%nat && forallb octet_ok octets.
Definition hex_char (c : Z) : bool := between 48 57 c || between 65 70 c || between 97 102 c.
Definition hextet_ok (s : pystr) : bool := nonempty s && forallb hex_char s && (length s <=? 4)%nat.
(** The empty parts between the first and the last one. *)
Definition inner_empty (parts : list pystr) : list nat :=
  filter (λ i, negb (nonempty (nth i parts [])) = true) (seq 1 (length parts - 2)).
(** The parts in front of the gap and behind it; [empty_at]: the part at the outer end is empty. *)
Definition gap_sides (parts : list pystr) (skip : nat) : option (nat * nat) :=
  let hi := if nonempty (nth 0 parts []) then Some skip else if (skip =? 1)%nat then Some 0%nat else None in
  let n := (length parts - skip - 1)%nat in
  let lo := if nonempty (nth (length parts - 1) parts []) then Some n else if (n =? 1)%nat then Some 0%nat else None in
  match hi, lo with Some hi, Some lo => Some (hi, lo) | _, _ => None end.
Definition ipv6_parts_ok (parts : list pystr) : bool :=
  (3 <=? length parts)%nat && (length parts <=? 9)%nat
  && match inner_empty parts with
     | [] => (length parts =? 8)%nat && forallb hextet_ok parts
     | [skip] =>
         match gap_sides parts skip with
         | Some (hi, lo) => (hi + lo <=? 7)%nat && forallb hextet_ok (take hi parts)
                            && forallb hextet_ok (drop (length parts - lo) parts)
         | None => false
         end
     | _ => false
     end.
Definition is_ipv6 (s : pystr) : bool :=
  let '(address, zone_ok) :=
    match split_all 37 s with
    | [address] => (address, true)
    | [address; zone] => (address, nonempty zone)
    | _ => (s, false)
    end in
  let parts := split_all 58 address in
  zone_ok && negb (contains s (u "/")) && (3 <=? length parts)%nat
  && match last parts with
     | Some tail =>
         if contains tail (u ".")
         then is_ipv4 tail && ipv6_parts_ok (take (length parts - 1) parts ++ [u "0"; u "0"])
         else ipv6_parts_ok parts
     | None => false
     end.
Definition ip_address (s : pystr) : bool := is_ipv4 s || is_ipv6 s.

Definition _is_valid_host (host : pyval) : bool :=
  match host with
  | VStr ((_ :: _) as s) =>
      if ip_address s then true
      else HOSTNAME_PATTERN s && (length s <=? MAX_HOSTNAME_LENGTH)%nat
           && forallb (λ label, (length label <=? MAX_HOSTNAME_LABEL_LENGTH)%nat && nonempty label) (split_all 46 s)
  | _ => false
  end.

(** [^(?:[0-9A-Fa-f]{2}:){5}[0-9A-Fa-f]{2}$] of a text that is stripped. *)
Definition MAC_ADDRESS_PATTERN (s : pystr) : bool :=
  let groups := split_all 58 s in
  (length groups =? 6)%nat && forallb (λ g, (length g =? 2)%nat && forallb hex_char g) groups.
Definition _is_valid_ble_address (address : pyval) : bool :=
  match address with
  | VStr s =>
      let trimmed_address := strip s in
      nonempty trimmed_address && (MAC_ADDRESS_PATTERN trimmed_address || negb (contains trimmed_address (u ":")))
  | _ => false
  end.

(** ** Reasons *)

Inductive complaint :=
  | BadYaml | EmptyConfig | MatrixMissing | MatrixNotMapping | NoAuthentication
  | MissingMatrixFields (fields : list pystr) | BadEncryption
  | NoRooms | RoomsNotList | RoomNotMapping (i : nat) | RoomWithoutId (i : nat)
  | RoomWithoutChannel (i : nat) | RoomBadChannel (i : nat)
  | NoMeshtastic | NoConnectionType | BadConnectionType
  | NoSerialPort | BadSerialPort | NoHost | BadHost | NoBleAddress | BadBleAddress
  | BadHealthCheck | BadHealthEnabled | BadProbeEnabled | BadProbeTimeout
  | OptionBoolean (option : pystr) | OptionType (option : pystr) | OptionInfinite (option : pystr)
  | DelayTooShort | IntervalNegative.
#[export] Instance complaint_eq_dec : EqDecision complaint.
Proof. solve_decision. Defined.

(** A check: None lets the next one begin. *)
Abbreviation check := (res (option complaint)).
Definition pass : check := Ok None.
Definition fail (c : complaint) : check := Ok (Some c).
Definition and_then (m k : check) : check := let! r := m in match r with None => k | Some c => Ok (Some c) end.
Definition require (b : bool) (c : complaint) : check := if b then pass else fail c.
Notation "m &> k" := (and_then m k) (at level 65, right associativity).

(** ** Rooms *)

Definition is_channel (v : pyval) : bool :=
  match v with VInt z => between MESHTASTIC_CHANNEL_MIN MESHTASTIC_CHANNEL_MAX z | _ => false end.
Definition check_room (i : nat) (room : pyval) : check :=
  match room with
  | VDict room =>
      require (dmem room (u "id")) (RoomWithoutId i)
      &> require (dmem room (u "meshtastic_channel")) (RoomWithoutChannel i)
      &> require (is_channel (dget_none room (u "meshtastic_channel"))) (RoomBadChannel i)
  | _ => fail (RoomNotMapping i)
  end.
Fixpoint check_each_room (i : nat) (rooms : list pyval) : check :=
  match rooms with
  | [] => pass
  | room :: rooms => check_room i room &> check_each_room (S i) rooms
  end.
Definition check_rooms (config : pydict) : check :=
  let rooms := dget_none config (u "matrix_rooms") in
  if negb (truthy rooms) then fail NoRooms
  else match rooms with VSeq KList rooms => check_each_room 1 rooms | _ => fail RoomsNotList end.

(** ** The radio *)

Definition CONNECTION_TYPES : list pyval := [VStr (u "tcp"); VStr (u "serial"); VStr (u "ble"); VStr (u "network")].
(** A field that must be there and valid. *)
Definition check_field (section : pydict) (key : pystr) (valid : pyval → bool) (missing invalid : complaint) : check :=
  require (dmem section key) missing &> require (valid (dget_none section key)) invalid.
Definition check_target (system_windows : bool) (section : pydict) (connection_type : pyval) : check :=
  (if py_eqb connection_type (VStr (u "serial"))
   then check_field section (u "serial_port") (_is_valid_serial_port system_windows) NoSerialPort BadSerialPort
   else pass)
  &> (if py_in connection_type [VStr (u "tcp"); VStr (u "network")]
      then check_field section (u "host") _is_valid_host NoHost BadHost else pass)
  &> (if py_eqb connection_type (VStr (u "ble"))
      then check_field section (u "ble_address") _is_valid_ble_address NoBleAddress BadBleAddress else pass).

Definition is_bool (v : pyval) : bool := match v with VBool _ => true | _ => false end.
Definition is_text (v : pyval) : bool := match v with VStr _ => true | _ => false end.
Definition is_bytes (v : pyval) : bool := match v with VBytes _ => true | _ => false end.
(** [isinstance(v, (int, float))], a boolean left out. *)
Definition is_number (v : pyval) : bool := match v with VInt _ | VFloat _ => true | _ => false end.
(** [math.isfinite(v)]: an integer beyond the floats raises. *)
Definition is_finite (v : pyval) : res bool := let! f := float_of_val v in Ok (isfinite f).
Definition value_of (v : pyval) : Q := default 0%Q (num_value v).

Definition check_probe_timeout (v : pyval) : check :=
  if is_number v then
    let! finite := is_finite v in require (finite && qlt 0 (value_of v)) BadProbeTimeout
  else fail BadProbeTimeout.
(** [f] of the value when the key is there. *)
Definition if_there (section : pydict) (key : pystr) (f : pyval → check) : check :=
  match dget section key with Some v => f v | None => pass end.
Definition check_health (section : pydict) : check :=
  match dget_none section (u "health_check") with
  | VNone => pass
  | VDict health_check =>
      if_there health_check (u "enabled") (λ v, require (is_bool v) BadHealthEnabled)
      &> if_there health_check (u "connect_probe_enabled") (λ v, require (is_bool v) BadProbeEnabled)
      &> if_there health_check (u "probe_timeout") check_probe_timeout
  | _ => fail BadHealthCheck
  end.

(** An option that is a number: not a boolean, and finite; then its bound. *)
Definition check_number (option : pystr) (low : Q) (too_low : complaint) (v : pyval) : check :=
  require (negb (is_bool v)) (OptionBoolean option)
  &> require (is_number v) (OptionType option)
  &> (let! finite := is_finite v in require finite (OptionInfinite option))
  &> require (qle low (value_of v)) too_low.
Definition check_options (section : pydict) : check :=
  if_there section (u "broadcast_enabled") (λ v, require (is_bool v) (OptionType (u "broadcast_enabled")))
  &> if_there section (u "detection_sensor") (λ v, require (is_bool v) (OptionType (u "detection_sensor")))
  &> if_there section (u "message_delay") (check_number (u "message_delay") MINIMUM_MESSAGE_DELAY DelayTooShort)
  &> if_there section (u "nodedb_refresh_interval") (check_number (u "nodedb_refresh_interval") 0 IntervalNegative)
  &> if_there section (u "meshnet_name") (λ v, require (is_text v) (OptionType (u "meshnet_name"))).

(** [connection_type in section] works on texts and lists too; looking it up then does not. *)
Definition check_meshtastic (system_windows : bool) (config : pydict) : check :=
  match dget config (u "meshtastic") with
  | None => fail NoMeshtastic
  | Some section =>
      let! has_type := py_contains section (u "connection_type") in
      if negb has_type then fail NoConnectionType
      else
        let! connection_type := py_getitem section (u "connection_type") in
        let! section := as_dict section in
        require (py_in connection_type CONNECTION_TYPES) BadConnectionType
        &> check_target system_windows section connection_type
        &> check_health section
        &> check_options section
  end.

(** ** The file *)

Section checking.
Context (h : host) (located : pystr → pystr) (system_windows : bool)
  (text : pystr → pystr) (capable : bool) (e2ee_status : pystr → pydict → res unit)
  (relay_config : pyval) (allow_missing_matrix_auth : bool).

(** Whether a candidate is a file with the fields that are required; the first such one ends the search. *)
Fixpoint some_valid_credentials (dk : disk) (candidate_paths : list pystr) : res bool :=
  match candidate_paths with
  | [] => Ok false
  | credentials_path :: candidate_paths =>
      match ConfigFiles.at_path located dk credentials_path with
      | Document (VDict credentials) =>
          if bool_decide (missing_required credentials = []) then Ok true
          else some_valid_credentials dk candidate_paths
      | Undecodable => Raise ValueError
      | _ => some_valid_credentials dk candidate_paths
      end
  end.
Definition _validate_credentials_json (dk : disk) (config_path : pystr) (config : pyval) : res bool :=
  match get_explicit_credentials_path h (if truthy config then config else relay_config) with
  | Raise TypeError => Ok false
  | Raise e => Raise e
  | Ok explicit_path =>
      let! candidate_paths :=
        get_credentials_search_paths h located dk explicit_path (if nonempty config_path then [config_path] else []) true in
      some_valid_credentials dk candidate_paths
  end.

Definition _has_valid_password_auth (matrix_section : pyval) : bool :=
  match matrix_section with
  | VDict d => is_text (dget_none d (u "password")) && filled (dget_none d (u "homeserver"))
               && filled (dget_none d (u "bot_user_id"))
  | _ => false
  end.
Definition _validate_matrix_authentication (dk : disk) (config_path : pystr) (matrix_section : pydict) (config : pyval)
    : res bool :=
  let! has_valid_credentials := _validate_credentials_json dk config_path config in
  Ok (has_valid_credentials || _has_valid_password_auth (VDict matrix_section)
      || filled (dget_none matrix_section (u "access_token"))).

(** [windows]: [sys.platform]; [capable]: the library can encrypt. *)
Definition _validate_e2ee_dependencies : bool := negb (h_windows h) && capable.
Definition _validate_e2ee_config (dk : disk) (config : pyval) (matrix_section : pydict) (config_path : pystr) : res bool :=
  let! authenticated := _validate_matrix_authentication dk config_path matrix_section config in
  if negb authenticated then Ok false
  else match matrix_section with
       | [] => Ok true
       | _ =>
           let! e2ee_config := get_from (VDict matrix_section) (u "e2ee") (VDict []) in
           let! encryption_config := get_from (VDict matrix_section) (u "encryption") (VDict []) in
           let! enabled := get_from e2ee_config (u "enabled") (VBool false) in
           let! enabled := if truthy enabled then Ok enabled else get_from encryption_config (u "enabled") (VBool false) in
           if negb (truthy enabled) then Ok true
           else if negb _validate_e2ee_dependencies then Ok false
           else
             let! store_path := get_from e2ee_config (u "store_path") VNone in
             let! store_path := if truthy store_path then Ok store_path
                                else get_from encryption_config (u "store_path") VNone in
             (* [os.path.expanduser] of what is no text *)
             if truthy store_path && negb (is_text store_path || is_bytes store_path) then Raise TypeError else Ok true
       end.

(** [config["matrix"] = {}] *)
Definition with_empty_matrix (config : pyval) : res pyval :=
  match config with VDict d => Ok (VDict (dset d (u "matrix") (VDict []))) | _ => Raise TypeError end.
(** The section as a dictionary, with the configuration, or the reason. *)
Definition matrix_of (config : pyval) : res (pydict * pydict + complaint) :=
  let! section := py_getitem config (u "matrix") in
  match section, config with
  | VDict section, VDict d => Ok (inl (d, section))
  | _, _ => Ok (inr MatrixNotMapping)
  end.
Definition missing_fields (matrix_section : pydict) : list pystr :=
  filter (λ key, filled (dget_none matrix_section key) = false) [u "homeserver"; u "bot_user_id"].

(** The section on Matrix: what it needs depends on the credentials and on what is allowed to be missing. *)
Definition check_matrix (has_valid_credentials : bool) (config : pyval) : res (pydict * pydict + complaint) :=
  let! present := py_contains config (u "matrix") in
  if has_valid_credentials then
    let! config := if present : bool then Ok config else with_empty_matrix config in matrix_of config
  else if negb (present || allow_missing_matrix_auth) then Ok (inr MatrixMissing)
  else
    let! config := if present : bool then Ok config else with_empty_matrix config in
    let! found := matrix_of config in
    Ok match found with
       | inl (d, section) =>
           if allow_missing_matrix_auth then inl (d, section)
           else if negb (filled (dget_none section (u "access_token")) || is_text (dget_none section (u "password")))
           then inr NoAuthentication
           else match missing_fields section with
                | [] => inl (d, section)
                | fields => inr (MissingMatrixFields fields)
                end
       | inr c => inr c
       end.

(** The analysis of encryption; when the system refuses it, a simpler check takes its place. *)
Definition check_encryption (dk : disk) (config_path : pystr) (config matrix_section : pydict) : check :=
  match e2ee_status config_path config with
  | Ok _ => pass
  | Raise OSError => let! valid := _validate_e2ee_config dk (VDict config) matrix_section config_path in
                     require valid BadEncryption
  | Raise e => Raise e
  end.

(** From the merged configuration on. *)
Definition check_document (dk : disk) (config_path : pystr) (config : pyval) : check :=
  let! has_valid_credentials := _validate_credentials_json dk config_path config in
  let! found := check_matrix has_valid_credentials config in
  match found with
  | inr c => fail c
  | inl (config, matrix_section) =>
      check_encryption dk config_path config matrix_section
      &> check_rooms config
      &> check_meshtastic system_windows config
  end.

(** The body of [try]. *)
Definition check_parsed (dk : disk) (config_path : pystr) (parsed : option pyval) : check :=
  match validate_yaml_syntax (text config_path) parsed with
  | (true, _, Some config) =>
      if negb (truthy config) then fail EmptyConfig
      else let! config := apply_env_config_overrides (h_env h) config in check_document dk config_path config
  | _ => fail BadYaml
  end.
Definition check_file (dk : disk) (config_path : pystr) : check :=
  match ConfigFiles.at_path located dk config_path with
  | Document v => check_parsed dk config_path (Some v)
  | Malformed => check_parsed dk config_path None
  | Undecodable => Raise ValueError
  | _ => Raise OSError
  end.

Inductive verdict := Valid | Invalid (c : complaint) | Broken (e : pyexc).
(** An error of the system or of a value passes on to the next file, one of the structure ends the check;
    others leave the function. *)
Definition next_file (e : pyexc) : bool :=
  match e with OSError | ValueError | UnicodeEncodeError => true | _ => false end.
Definition ends_check (e : pyexc) : bool :=
  match e with KeyError | TypeError | AttributeError => true | _ => false end.

(** None: there is no file. *)
Fixpoint check_paths (dk : disk) (config_paths : list pystr) : res (option (pystr * verdict)) :=
  match config_paths with
  | [] => Ok None
  | path :: config_paths =>
      if node_isfile (ConfigFiles.at_path located dk path) then
        match check_file dk path with
        | Ok None => Ok (Some (path, Valid))
        | Ok (Some c) => Ok (Some (path, Invalid c))
        | Raise e => if next_file e then check_paths dk config_paths
                     else if ends_check e then Ok (Some (path, Broken e)) else Raise e
        end
      else check_paths dk config_paths
  end.
Definition check_config (dk : disk) (explicit : option pystr) : res (option (pystr * verdict)) :=
  let! config_paths := ConfigFiles.get_config_paths h explicit in check_paths dk config_paths.
(** What the function returns. *)
Definition accepted (r : option (pystr * verdict)) : bool :=
  match r with Some (_, Valid) => true | _ => false end.

End checking.

(** ** What is checked *)

(** A value under a key, if it is there. *)
Definition given_as (d : pydict) (key : pystr) (P : pyval → Prop) : Prop := ∀ v, dget d key = Some v → P v.

Definition room_usable (room : pyval) : Prop :=
  ∃ d z, room = VDict d ∧ dmem d (u "id") = true ∧ dget d (u "meshtastic_channel") = Some (VInt z) ∧ 0 ≤ z ≤ 7.
Definition rooms_usable (config : pydict) : Prop :=
  ∃ rooms, dget config (u "matrix_rooms") = Some (VSeq KList rooms) ∧ rooms ≠ [] ∧ Forall room_usable rooms.

(** The address that belongs to the type of the connection. *)
Definition target_usable (system_windows : bool) (section : pydict) (connection_type : pystr) : Prop :=
  connection_type = u "serial" ∧ _is_valid_serial_port system_windows (dget_none section (u "serial_port")) = true
  ∨ (connection_type = u "tcp" ∨ connection_type = u "network") ∧ _is_valid_host (dget_none section (u "host")) = true
  ∨ connection_type = u "ble" ∧ _is_valid_ble_address (dget_none section (u "ble_address")) = true.
Definition finite_value (v : pyval) (P : Q → Prop) : Prop :=
  is_number v = true ∧ is_finite v = Ok true ∧ P (value_of v).
Record radio_usable (system_windows : bool) (section : pydict) : Prop := {
  ru_target : ∃ t, dget section (u "connection_type") = Some (VStr t) ∧ target_usable system_windows section t;
  ru_health : dget_none section (u "health_check") = VNone ∨
    ∃ d, dget_none section (u "health_check") = VDict d ∧
         given_as d (u "enabled") (λ v, is_bool v = true) ∧
         given_as d (u "connect_probe_enabled") (λ v, is_bool v = true) ∧
         given_as d (u "probe_timeout") (λ v, finite_value v (λ q, 0 < q)%Q);
  ru_broadcast : given_as section (u "broadcast_enabled") (λ v, is_bool v = true);
  ru_sensor : given_as section (u "detection_sensor") (λ v, is_bool v = true);
  ru_delay : given_as section (u "message_delay") (λ v, finite_value v (λ q, 2 <= q)%Q);
  ru_refresh : given_as section (u "nodedb_refresh_interval") (λ v, finite_value v (λ q, 0 <= q)%Q);
  ru_meshnet : given_as section (u "meshnet_name") (λ v, is_text v = true) }.

(** ** Checks and what they mean *)

Lemma and_then_pass m k : (m &> k) = pass ↔ m = pass ∧ k = pass.
Proof. unfold pass. destruct m as [[c|]|e]; cbn; naive_solver. Qed.
Lemma require_pass b c : require b c = pass ↔ b = true.
Proof. by destruct b. Qed.
Lemma fail_pass c : fail c = pass ↔ False.
Proof. done. Qed.
Lemma if_there_pass d key f P :
  (∀ v, f v = pass ↔ P v) → if_there d key f = pass ↔ given_as d key P.
Proof.
  intros Hf. unfold if_there, given_as. destruct (dget d key) as [v|]; [rewrite Hf | by split].
  split; [by intros ? ? [= <-] | auto].
Qed.
Lemma qlt_iff a b : qlt a b = true ↔ (a < b)%Q.
Proof. unfold qlt. rewrite negb_true_iff, <- not_true_iff_false, Qle_bool_iff. split; [apply Qnot_le_lt | apply Qlt_not_le]. Qed.
Lemma qle_iff a b : qle a b = true ↔ (a <= b)%Q.
Proof. apply Qle_bool_iff. Qed.
Ltac checks := rewrite ?and_then_pass, ?require_pass, ?qlt_iff, ?qle_iff.

Lemma dmem_dget d k : dmem d k = true ↔ ∃ v, dget d k = Some v.
Proof. unfold dmem. destruct (dget d k); naive_solver. Qed.
Lemma dget_none_some d k v : dget d k = Some v → dget_none d k = v.
Proof. unfold dget_none, dget_or. by intros ->. Qed.

Lemma is_channel_spec v : is_channel v = true ↔ ∃ z, v = VInt z ∧ 0 ≤ z ≤ 7.
Proof.
  destruct v; cbn; try naive_solver. unfold MESHTASTIC_CHANNEL_MIN, MESHTASTIC_CHANNEL_MAX.
  rewrite between_spec. naive_solver.
Qed.
Lemma check_room_pass i room : check_room i room = pass ↔ room_usable room.
Proof.
  unfold room_usable. destruct room as [| | | | | | |d|]; cbn [check_room];
    try (split; [done | by intros (? & ? & ? & _)]).
  checks. rewrite (dmem_dget d (u "meshtastic_channel")), is_channel_spec. split.
  - intros (Hid & (v & Hv) & z & Hz & Hr). exists d, z. rewrite (dget_none_some _ _ _ Hv) in Hz. by subst.
  - intros (d' & z & [= <-] & Hid & Hz & Hr). rewrite (dget_none_some _ _ _ Hz). naive_solver.
Qed.
Lemma check_each_room_pass rooms : ∀ i, check_each_room i rooms = pass ↔ Forall room_usable rooms.
Proof.
  induction rooms as [|room rooms IH]; intros i; cbn; [by split |].
  by rewrite and_then_pass, check_room_pass, IH, Forall_cons.
Qed.
Lemma check_rooms_pass config : check_rooms config = pass ↔ rooms_usable config.
Proof.
  unfold check_rooms, rooms_usable, dget_none, dget_or. destruct (dget config (u "matrix_rooms")) as [v|]; cbn [default from_option id truthy].
  2: by split; [| intros (? & ? & _)].
  destruct v as [| | | | | |k l| |]; try (split; [by case_match | by intros (? & ? & _)]).
  destruct l as [|room l]; [split; [by destruct k | naive_solver] |].
  destruct k; try (split; [by case_match | by intros (? & ? & _)]).
  change (negb (truthy (VSeq KList (room :: l)))) with false. cbv beta iota. rewrite check_each_room_pass. split; [intros H; by eexists |].
  by intros (? & [= <-] & _ & H).
Qed.

Lemma check_field_pass section key valid missing invalid :
  valid VNone = false →
  check_field section key valid missing invalid = pass ↔ valid (dget_none section key) = true.
Proof.
  intros Hnone. unfold check_field. rewrite and_then_pass, !require_pass. split; [by intros [_ ?] |].
  intros H. split; [| done]. unfold dmem. unfold dget_none, dget_or in H. destruct (dget section key); [done | cbn in H; congruence].
Qed.
Lemma py_eqb_text t s : py_eqb (VStr t) (VStr s) = bool_decide (t = s).
Proof. done. Qed.

Lemma connection_type_text v : py_in v CONNECTION_TYPES = true → ∃ t, v = VStr t.
Proof. destruct v as [|[]|z|[]|t| |[]| |]; try done. by exists t. Qed.
Lemma check_target_pass sw section t :
  py_in (VStr t) CONNECTION_TYPES = true → check_target sw section (VStr t) = pass ↔ target_usable sw section t.
Proof.
  intros Ht. unfold check_target, target_usable. checks. unfold py_in. cbn [existsb orb].
  rewrite !py_eqb_text. rewrite !orb_false_r.
  assert (t = u "tcp" ∨ t = u "serial" ∨ t = u "ble" ∨ t = u "network") as Hcases.
  { unfold py_in, CONNECTION_TYPES in Ht. cbn [existsb] in Ht. rewrite !py_eqb_text in Ht.
    rewrite !orb_true_iff, !bool_decide_eq_true in Ht. naive_solver. }
  destruct Hcases as [-> | [-> | [-> | ->]]]; repeat (case_bool_decide; try done); cbn [orb];
    rewrite ?check_field_pass by done; unfold pass; intuition (try done).
Qed.
Lemma check_finite_pass v c (m : bool → bool) :
  (let! finite := is_finite v in require (m finite) c) = pass ↔ ∃ b, is_finite v = Ok b ∧ m b = true.
Proof. destruct (is_finite v) as [b|]; cbn; [rewrite require_pass; naive_solver | by split; [| intros (? & ? & _)]]. Qed.
Lemma check_probe_timeout_pass v : check_probe_timeout v = pass ↔ finite_value v (λ q, 0 < q)%Q.
Proof.
  unfold check_probe_timeout, finite_value. destruct (is_number v); [| by split; [| intros (? & _)]].
  rewrite (check_finite_pass v _ (λ finite, finite && qlt 0 (value_of v))).
  setoid_rewrite andb_true_iff. setoid_rewrite qlt_iff. naive_solver.
Qed.
Lemma check_number_pass option low c v :
  check_number option low c v = pass ↔ finite_value v (λ q, low <= q)%Q.
Proof.
  unfold check_number, finite_value. checks. rewrite (check_finite_pass v _ id). unfold id.
  assert (negb (is_bool v) = true ∧ is_number v = true ↔ is_number v = true) as H by (by destruct v; cbn; naive_solver).
  naive_solver.
Qed.
Lemma check_health_pass section :
  check_health section = pass ↔
  dget_none section (u "health_check") = VNone ∨
  ∃ d, dget_none section (u "health_check") = VDict d ∧
       given_as d (u "enabled") (λ v, is_bool v = true) ∧
       given_as d (u "connect_probe_enabled") (λ v, is_bool v = true) ∧
       given_as d (u "probe_timeout") (λ v, finite_value v (λ q, 0 < q)%Q).
Proof.
  unfold check_health. destruct (dget_none section (u "health_check")) as [| | | | | | |d|];
    try (split; [done | by intros [? | (? & ? & _)]]).
  - split; [by left | done].
  - checks. rewrite !(if_there_pass _ _ _ (λ v, is_bool v = true)) by (intros; apply require_pass).
    rewrite (if_there_pass _ _ _ (λ v, finite_value v (λ q, 0 < q)%Q)) by apply check_probe_timeout_pass.
    naive_solver.
Qed.

Lemma check_meshtastic_pass sw config :
  check_meshtastic sw config = pass ↔
  ∃ section, dget config (u "meshtastic") = Some (VDict section) ∧ radio_usable sw section.
Proof.
  unfold check_meshtastic. destruct (dget config (u "meshtastic")) as [v|]; [| by split; [| intros (? & ? & _)]].
  destruct v as [| | | |s| |k l|d|]; try (split; [done | by intros (? & ? & _)]).
  - cbn. split; [by destruct (contains s _) | by intros (? & ? & _)].
  - cbn. split; [by destruct (py_in _ l) | by intros (? & ? & _)].
  - cbn [py_contains res_bind]. unfold dmem. destruct (dget d (u "connection_type")) as [t|] eqn:Et; cbn [negb].
    2: { split; [done |]. intros (s & [= <-] & [(t & Ht & _) _ _ _ _ _ _]). by rewrite Et in Ht. }
    cbn [py_getitem]. rewrite Et. cbn [res_bind as_dict]. checks. unfold check_options. checks.
    rewrite check_health_pass.
    rewrite !(if_there_pass _ _ _ (λ v, is_bool v = true)) by (intros; apply require_pass).
    rewrite (if_there_pass _ _ (check_number _ MINIMUM_MESSAGE_DELAY _) (λ v, finite_value v (λ q, 2 <= q)%Q))
      by (intros; apply check_number_pass).
    rewrite (if_there_pass _ _ (check_number _ 0 _) (λ v, finite_value v (λ q, 0 <= q)%Q))
      by (intros; apply check_number_pass).
    rewrite (if_there_pass _ _ _ (λ v, is_text v = true)) by (intros; apply require_pass).
    split.
    + intros (Hin & Ht & Hh & H1 & H2 & H3 & H4 & H5). exists d. split; [done |]. constructor; try done.
      destruct (connection_type_text _ Hin) as [s ->]. exists s. split; [done |]. by apply (check_target_pass _ _ _ Hin).
    + intros (s & [= <-] & [(t' & Ht & Htu) H1 H2 H3 H4 H5 H6]). rewrite Et in Ht. injection Ht as ->.
      assert (py_in (VStr t') CONNECTION_TYPES = true) as Hin.
      { destruct Htu as [[-> _] | [[[-> | ->] _] | [-> _]]]; done. }
      by rewrite (check_target_pass _ _ _ Hin).
Qed.

(** ** The document *)

(** Credentials, or what the section on Matrix has instead, unless that may be missing. *)
Definition can_authenticate (valid allow_missing : bool) (section : pydict) : Prop :=
  valid = false → allow_missing = false →
  missing_fields section = [] ∧
  (filled (dget_none section (u "access_token")) = true ∨ is_text (dget_none section (u "password")) = true).

Section verdicts.
Context (h : host) (located : pystr → pystr) (system_windows : bool)
  (text : pystr → pystr) (capable : bool) (e2ee_status : pystr → pydict → res unit)
  (relay_config : pyval) (allow_missing : bool).
Abbreviation credentials := (_validate_credentials_json h located relay_config).
Abbreviation encryption := (check_encryption h located capable e2ee_status relay_config).
Abbreviation document := (check_document h located system_windows capable e2ee_status relay_config allow_missing).
Abbreviation file := (check_file h located system_windows text capable e2ee_status relay_config allow_missing).
Abbreviation paths := (check_paths h located system_windows text capable e2ee_status relay_config allow_missing).
Abbreviation checked := (check_config h located system_windows text capable e2ee_status relay_config allow_missing).

(** The section is there, or may be left out and is added. *)
Definition completed (valid : bool) (d0 d : pydict) : Prop :=
  dmem d0 (u "matrix") = true ∧ d = d0 ∨
  dmem d0 (u "matrix") = false ∧ valid || allow_missing = true ∧ d = dset d0 (u "matrix") (VDict []).

Lemma matrix_of_inl config d section :
  matrix_of config = Ok (inl (d, section)) ↔ config = VDict d ∧ dget d (u "matrix") = Some (VDict section).
Proof.
  unfold matrix_of. destruct config as [| | | | | | |d0|]; try (split; [done | by intros [? _]]). cbn [py_getitem].
  destruct (dget d0 (u "matrix")) as [v|] eqn:E; cbn [res_bind].
  - destruct v as [| | | | | | |s|]; try (split; [done | intros [[= <-] ?]; congruence]).
    split; [by intros [= <- <-] | intros [[= <-] H]; congruence].
  - split; [done | intros [[= <-] ?]; congruence].
Qed.

Lemma check_matrix_inl valid config d section :
  check_matrix allow_missing valid config = Ok (inl (d, section)) ↔
  ∃ d0, config = VDict d0 ∧ completed valid d0 d ∧ dget d (u "matrix") = Some (VDict section) ∧
        can_authenticate valid allow_missing section.
Proof.
  assert (∀ present config', (if present : bool then Ok config' else with_empty_matrix config') = Ok (VDict d) →
    present = true ∧ config' = VDict d ∨ present = false ∧ ∃ d0, config' = VDict d0 ∧ d = dset d0 (u "matrix") (VDict []))
    as Hwith.
  { intros [|] config'; [intros [= ->]; by left |]. destruct config' as [| | | | | | |d0|]; try done. intros [= <-].
    right. split; [done |]. by exists d0. }
  unfold check_matrix, can_authenticate, completed. split.
  - destruct (py_contains config (u "matrix")) as [present|] eqn:Ep; [cbn [res_bind] | done].
    destruct valid.
    + destruct (if present then _ else _) as [c'|] eqn:Ec; [cbn [res_bind] | done].
      intros [-> Hs]%matrix_of_inl. apply Hwith in Ec as [(-> & ->) | (-> & d0 & -> & ->)]; injection Ep as Ep.
      * exists d. naive_solver.
      * exists d0. naive_solver.
    + destruct (present || allow_missing) eqn:Epa; cbn [negb]; [| done].
      destruct (if present then _ else _) as [c'|] eqn:Ec; [cbn [res_bind] | done].
      destruct (matrix_of c') as [[[d1 s1]|c]|] eqn:Em; cbn [res_bind]; [| done | done].
      apply matrix_of_inl in Em as [-> Hs]. intros H.
      assert (d1 = d ∧ s1 = section ∧ (allow_missing = false → missing_fields section = [] ∧
        (filled (dget_none section (u "access_token")) = true ∨ is_text (dget_none section (u "password")) = true)))
        as (-> & -> & Hauth).
      { destruct allow_missing; [by injection H as -> -> |].
        destruct (filled _ || is_text _) eqn:Eor; cbn [negb] in H; [| done].
        destruct (missing_fields s1) eqn:Emf; [| done]. injection H as -> ->. apply orb_true_iff in Eor. done. }
      apply Hwith in Ec as [(-> & ->) | (-> & d0 & -> & ->)]; injection Ep as Ep.
      * exists d. naive_solver.
      * exists d0. naive_solver.
  - intros (d0 & -> & Hc & Hs & Hauth). cbn [py_contains res_bind].
    assert ((if dmem d0 (u "matrix") then Ok (VDict d0) else with_empty_matrix (VDict d0)) = Ok (VDict d)) as Hd.
    { by destruct Hc as [[-> ->] | (-> & _ & ->)]. }
    assert (matrix_of (VDict d) = Ok (inl (d, section))) as Hm by (by apply matrix_of_inl).
    destruct valid; [by rewrite Hd |].
    assert (dmem d0 (u "matrix") || allow_missing = true) as -> by (destruct Hc as [[-> _] | (_ & ? & _)]; [done | by rewrite orb_comm; cbn in *; apply orb_true_iff; left]).
    cbn [negb]. rewrite Hd. cbn [res_bind]. rewrite Hm. cbn [res_bind].
    destruct allow_missing; [done |]. destruct (Hauth eq_refl eq_refl) as [-> Hor].
    apply orb_true_iff in Hor. by rewrite Hor.
Qed.

Lemma rooms_usable_set d v : rooms_usable (dset d (u "matrix") v) ↔ rooms_usable d.
Proof. unfold rooms_usable. by rewrite dget_dset_ne. Qed.
Lemma completed_get valid d0 d key : completed valid d0 d → key ≠ u "matrix" → dget d key = dget d0 key.
Proof. intros [[_ ->] | (_ & _ & ->)] Hne; [done |]. by apply dget_dset_ne. Qed.

(** A document is accepted exactly when it is usable. *)
Lemma check_document_exact dk path config :
  document dk path config = pass ↔
  ∃ valid d0 d section radio,
    config = VDict d0 ∧ credentials dk path config = Ok valid ∧ completed valid d0 d
    ∧ dget d (u "matrix") = Some (VDict section) ∧ can_authenticate valid allow_missing section
    ∧ encryption dk path d section = pass ∧ rooms_usable d0
    ∧ dget d0 (u "meshtastic") = Some (VDict radio) ∧ radio_usable system_windows radio.
Proof.
  unfold check_document. split.
  - destruct (credentials dk path config) as [valid|] eqn:Ec; cbn [res_bind]; [| done].
    destruct (check_matrix allow_missing valid config) as [[[d section]|c]|] eqn:Em; cbn [res_bind]; [| done | done].
    apply check_matrix_inl in Em as (d0 & -> & Hd & Hs & Ha). rewrite !and_then_pass, check_rooms_pass, check_meshtastic_pass.
    intros (He & Hr & radio & Hm & Hu). exists valid, d0, d, section, radio.
    rewrite (completed_get _ _ _ (u "meshtastic") Hd) in Hm by done.
    assert (rooms_usable d0) as Hr0.
    { destruct Hd as [[_ ->] | (_ & _ & ->)]; [done |]. by apply rooms_usable_set in Hr. }
    naive_solver.
  - intros (valid & d0 & d & section & radio & -> & Hc & Hd & Hs & Ha & He & Hr & Hm & Hu). rewrite Hc. cbn [res_bind].
    assert (check_matrix allow_missing valid (VDict d0) = Ok (inl (d, section))) as ->.
    { apply check_matrix_inl. by exists d0. }
    cbn [res_bind]. rewrite !and_then_pass, check_rooms_pass, check_meshtastic_pass. split; [done |]. split.
    + destruct Hd as [[_ ->] | (_ & _ & ->)]; [done |]. by apply rooms_usable_set.
    + exists radio. by rewrite (completed_get _ _ _ (u "meshtastic") Hd).
Qed.

(** ** The verdict *)

Lemma check_paths_valid dk path : ∀ ps, paths dk ps = Ok (Some (path, Valid)) → file dk path = pass.
Proof.
  induction ps as [|p ps IH]; [done |]. cbn [check_paths]. destruct (node_isfile _); [| done].
  destruct (file dk p) as [[c|]|e] eqn:E; [done | by intros [= ->] |].
  destruct (next_file e); [done | by destruct (ends_check e)].
Qed.
Lemma check_file_pass dk path :
  file dk path = pass →
  ∃ v config, ConfigFiles.at_path located dk path = Document v ∧ truthy v = true
              ∧ apply_env_config_overrides (h_env h) v = Ok config ∧ document dk path config = pass.
Proof.
  assert (∀ parsed, check_parsed h located system_windows text capable e2ee_status relay_config allow_missing dk path parsed = pass →
    ∃ v config, parsed = Some v ∧ truthy v = true
                ∧ apply_env_config_overrides (h_env h) v = Ok config ∧ document dk path config = pass) as Hp.
  { intros parsed. unfold check_parsed, validate_yaml_syntax. destruct parsed as [v|]; [| done].
    destruct (filter _ _); [| done]. destruct (truthy v) eqn:Et; cbn [negb]; [| done].
    destruct (apply_env_config_overrides (h_env h) v) as [config|] eqn:Ea; cbn [res_bind]; [| done].
    intros Hd. by exists v, config. }
  unfold check_file. destruct (ConfigFiles.at_path located dk path) as [| |v| | |] eqn:En; try done.
  intros (v' & config & [= <-] & H)%Hp. by exists v, config.
Qed.

(** Files that are not there or cannot be opened are passed over by the check and by the loader. *)
Definition not_opened (n : node) : Prop := n = Absent ∨ n = Folder ∨ n = Unreadable.

Lemma load_first_skips dk path post : ∀ pre g,
  Forall (λ q, not_opened (ConfigFiles.at_path located dk q)) pre →
  ∃ g', load_first h located dk g (pre ++ path :: post) = load_first h located dk g' (path :: post).
Proof.
  induction pre as [|q pre IH]; intros g Hpre; [by exists g |]. apply Forall_cons in Hpre as [Hq Hpre].
  cbn [app]. destruct Hq as [Hq | [Hq | Hq]].
  - destruct (IH g Hpre) as [g' Hg]. exists g'. rewrite <- Hg. cbn [load_first]. by rewrite Hq.
  - destruct (IH g Hpre) as [g' Hg]. exists g'. rewrite <- Hg. cbn [load_first]. by rewrite Hq.
  - destruct (IH (with_config_path g q) Hpre) as [g' Hg]. exists g'. rewrite <- Hg. cbn [load_first]. by rewrite Hq.
Qed.

(** What is loaded of a file with a document that is not empty. *)
Lemma load_first_document dk g path post v config :
  ConfigFiles.at_path located dk path = Document v → truthy v = true →
  apply_env_config_overrides (h_env h) v = Ok config →
  ∃ g', load_first h located dk g (path :: post) = (g', Some (Ok config)).
Proof.
  intros Hn Ht Ha. cbn [load_first]. rewrite Hn. cbn [node_isfile read_yaml]. unfold accept_config.
  assert (is_none v = false) as -> by (by destruct v). rewrite Ha. by eexists.
Qed.

(** The address of a usable section is one that the connection can open. *)
Lemma target_is_given section t :
  target_usable system_windows section t → connection_target section (VStr t) ≠ NoTarget.
Proof.
  unfold target_usable, connection_target. rewrite !py_eqb_text.
  intros [[-> Hv] | [[Ht Hv] | [-> Hv]]].
  - case_bool_decide; [| done]. by destruct (dget_none section (u "serial_port")) as [| | | |[|]| | | |].
  - assert (bool_decide (t = u "serial") = false ∧ bool_decide (t = u "ble") = false ∧
            bool_decide (t = u "tcp") || bool_decide (t = u "network") = true) as (-> & -> & ->)
      by (by destruct Ht as [-> | ->]).
    by destruct (dget_none section (u "host")) as [| | | |[|]| | | |].
  - assert (bool_decide (u "ble" = u "serial") = false ∧ bool_decide (u "ble" = u "ble") = true) as [-> ->] by done.
    by destruct (dget_none section (u "ble_address")) as [| | | |[|]| | | |].
Qed.
Lemma usable_section d radio t :
  dget d (u "meshtastic") = Some (VDict radio) → dget radio (u "connection_type") = Some (VStr t) →
  connection_section (Some d) = Ok (Some (radio, VStr t)).
Proof.
  intros Hm Ht. unfold connection_section. rewrite (dget_none_some _ _ _ Hm). cbn [py_contains res_bind].
  unfold dmem. rewrite Ht. cbn [negb py_getitem]. by rewrite Ht.
Qed.

(** *** Properties *)

(** C19: Without [--config], and when every candidate in front of the configuration that the check accepts is
    missing, a folder or a file that cannot be opened: that configuration is the one that is loaded, and it can be used: every room has an id
    and a channel of the radio, the connection has a type and an address that it opens, the options have
    their types and bounds, and there is a way to authenticate, unless that was allowed to be missing.
    (A candidate in front of it that is no UTF-8 is passed over by the check alone:
    [undecodable_config_is_passed_over].) *)
Theorem checked_config_is_usable dk g pre path post :
  ConfigFiles.get_config_paths h None = Ok (pre ++ path :: post) →
  Forall (λ q, not_opened (ConfigFiles.at_path located dk q)) pre →
  checked dk None = Ok (Some (path, Valid)) →
  ∃ g' d radio t valid,
    load_config h located dk g None None None = (g', Ok (VDict d))
    ∧ rooms_usable d
    ∧ connection_section (Some d) = Ok (Some (radio, VStr t))
    ∧ connection_target radio (VStr t) ≠ NoTarget
    ∧ radio_usable system_windows radio
    ∧ credentials dk path (VDict d) = Ok valid
    ∧ (valid || allow_missing = false → ∃ section, dget d (u "matrix") = Some (VDict section) ∧
         can_authenticate valid allow_missing section).
Proof.
  intros Hps Hpre Hc. unfold check_config in Hc. rewrite Hps in Hc. cbn [res_bind] in Hc.
  apply check_paths_valid, check_file_pass in Hc as (v & config & Hn & Ht & Ha & Hd).
  apply check_document_exact in Hd as (valid & d0 & d & section & radio & -> & Hcr & Hcomp & Hs & Hauth & _ & Hr & Hm & Hu).
  destruct (ru_target _ _ Hu) as (t & Htype & Htarget).
  destruct (load_first_skips dk path post pre g Hpre) as [g1 Hg1].
  destruct (load_first_document dk g1 path post v (VDict d0) Hn Ht Ha) as [g2 Hg2].
  exists g2, d0, radio, t, valid. split.
  { unfold load_config, search_config. cbn [named]. rewrite Hps, Hg1, Hg2. done. }
  split; [done |]. split; [by apply usable_section |]. split; [by apply target_is_given |]. split; [done |].
  split; [done |]. intros Hva. exists section. split; [| done].
  destruct Hcomp as [[_ ->] | (_ & ? & _)]; [done | congruence].
Qed.

(** The credentials that the check finds are loaded. *)
Lemma some_valid_found dk : ∀ ps,
  some_valid_credentials located dk ps = Ok true → ∃ found, first_credentials located dk ps = Ok (Some found).
Proof.
  induction ps as [|p ps IH]; [done |]. cbn [some_valid_credentials first_credentials].
  destruct (ConfigFiles.at_path located dk p) as [| |v| | |]; cbn [credentials_of res_bind]; try done.
  destruct v as [| | | | | | |d|]; cbn [res_bind]; try done. case_bool_decide as Em; intros H.
  - rewrite Em. cbn [res_bind]. by eexists.
  - destruct (missing_required d); [done |]. by apply IH.
Qed.
Theorem checked_credentials_load dk g path d :
  d ≠ [] → credentials dk path (VDict d) = Ok true →
  ∃ found, load_credentials h located dk g (Some d) (Some path) = Ok (Some found).
Proof.
  intros Hne. unfold _validate_credentials_json.
  assert (truthy (VDict d) = true) as -> by (by destruct d).
  destruct (get_explicit_credentials_path h (VDict d)) as [explicit|[]] eqn:Ee; try done.
  destruct (get_credentials_search_paths _ _ _ _ _ _) as [ps|] eqn:Es; cbn [res_bind]; [| done].
  intros ([found creds] & Hf)%some_valid_found. unfold load_credentials, credentials_candidates. cbv zeta. rewrite Ee. cbn [res_bind].
  assert (match path with (_ :: _) as p => [p] | _ => [] end = if nonempty path then [path] else []) as Hp by (by destruct path).
  rewrite Hp, Es.
  revert Es. unfold get_credentials_search_paths. destruct (get_credentials_path h) as [primary|]; cbn [res_bind]; [| done].
  destruct (get_home_dir h) as [home|]; cbn [res_bind]; [| done].
  destruct (is_deprecation_window_active h); [destruct (get_legacy_dirs h) as [dirs|]; cbn [res_bind]; [| done] |];
    intros _; cbn [res_bind]; rewrite Hf; by eexists.
Qed.

End verdicts.

(** ** Concrete configurations *)

Definition example_radio (options : pydict) : pydict :=
  [(u "connection_type", VStr (u "tcp")); (u "host", VStr (u "meshtastic.local"))] ++ options.
Definition example_config (options : pydict) : pydict :=
  [(u "matrix", VDict [(u "homeserver", VStr (u "https://m.org")); (u "bot_user_id", VStr (u "@bot:m.org"));
                       (u "password", VStr [])]);
   (u "matrix_rooms", VSeq KList [VDict [(u "id", VStr (u "!room:m.org")); (u "meshtastic_channel", VInt 0)]]);
   (u "meshtastic", VDict (example_radio options))].
Definition config_below (options : pydict) : disk :=
  disk_of [("/work/config.yaml"%string, Document (VDict (example_config options)))].
Definition example_check (dk : disk) : res (option (pystr * verdict)) :=
  check_config relay_host no_links false (λ _, u "matrix:") true (λ _ _, Ok tt) (VDict []) false dk None.

Lemma checked_config_is_usable_witness :
  example_check (config_below [(u "message_delay", VInt 3)]) = Ok (Some (u "/work/config.yaml", Valid)) ∧
  ∃ g' d radio t valid,
    load_config relay_host no_links (config_below [(u "message_delay", VInt 3)]) fresh None None None = (g', Ok (VDict d))
    ∧ rooms_usable d
    ∧ connection_section (Some d) = Ok (Some (radio, VStr t))
    ∧ connection_target radio (VStr t) ≠ NoTarget
    ∧ radio_usable false radio
    ∧ _validate_credentials_json relay_host no_links (VDict []) (config_below [(u "message_delay", VInt 3)])
        (u "/work/config.yaml") (VDict d) = Ok valid
    ∧ (valid || false = false → ∃ section, dget d (u "matrix") = Some (VDict section) ∧
         can_authenticate valid false section).
Proof.
  split; [by vm_compute |].
  apply (checked_config_is_usable relay_host no_links false (λ _, u "matrix:") true (λ _ _, Ok tt) (VDict []) false
           (config_below [(u "message_delay", VInt 3)]) fresh [u "/data/config.yaml"] (u "/work/config.yaml") []).
  - by vm_compute.
  - apply Forall_singleton. left. by vm_compute.
  - by vm_compute.
Defined.

Lemma checked_credentials_load_witness :
  ∃ found, load_credentials relay_host no_links two_files fresh (Some [(u "matrix_rooms", VNone)])
             (Some (u "/data/config.yaml")) = Ok (Some found).
Proof.
  apply (checked_credentials_load relay_host no_links (VDict []) two_files fresh (u "/data/config.yaml")); [done | by vm_compute].
Defined.

Example addresses :
  map (λ s, _is_valid_host (VStr (u s)))
    ["192.168.1.100"; "meshtastic.local"; "2001:db8::1"; "::"; "::ffff:1.2.3.4"; "fe80::1%eth0"; "a"; "1:2:3:4:5:6:7:8"]%string
  = replicate 8 true
  ∧ map (λ s, _is_valid_host (VStr (u s)))
      ["-a"; "a-"; "a..b"; "a_b"; "::1::2"; "1:2:3"; "fe80::1%"; "a b"; "12345::1"; ":1::"]%string
    = replicate 10 false.
Proof. split; by vm_compute. Qed.

(** ** What modelling showed *)

(** The pattern of host names forbids a hyphen in front of the first label only, though the rules it is to
    follow forbid it for each. *)
Lemma later_label_starts_with_hyphen : _is_valid_host (VStr (u "a.-b")) = true.
Proof. by vm_compute. Qed.

(** A newline at the end of a host or a serial port is accepted, since [$] matches in front of it. *)
Lemma newline_is_accepted :
  _is_valid_host (VStr (u "mesh" ++ [10])) = true ∧
  _is_valid_serial_port false (VStr (u "/dev/ttyUSB0" ++ [10])) = true.
Proof. split; by vm_compute. Qed.

(** An integer beyond the range of floats as a delay is no finding of the check: [math.isfinite] raises
    OverflowError, which leaves [check_config]. *)
Lemma huge_delay_escapes :
  example_check (config_below [(u "message_delay", VInt float_limit)]) = Raise OverflowError.
Proof. by vm_compute. Qed.

(** A credentials file that is no UTF-8 makes the check give up the configuration file that it found, and say
    that there is none, though the configuration has a password. *)
Lemma undecodable_credentials_hide_config :
  example_check
    (disk_of [("/work/config.yaml"%string, Document (VDict (example_config [])));
              ("/data/matrix/credentials.json"%string, Undecodable)]) = Ok None.
Proof. by vm_compute. Qed.

(** A configuration file that is no UTF-8 is passed over by the check, which accepts the next one;
    loading stops at it with an error. *)
Lemma undecodable_config_is_passed_over :
  let dk := disk_of [("/data/config.yaml"%string, Undecodable);
                     ("/work/config.yaml"%string, Document (VDict (example_config [])))] in
  example_check dk = Ok (Some (u "/work/config.yaml", Valid)) ∧
  (load_config relay_host no_links dk fresh None None None).2 = Raise ValueError.
Proof. split; by vm_compute. Qed.
